(* ===== verification/_CoqProject ===== *)
-Q . S2P
Prelude.v
Records.v
FrameAllocator.v
Slab.v
Elf.v
UserSpace.v
AsidPool.v
Tlb.v
Rqb.v
Scheduler.v
BlockDev.v
AddressSpace.v
SpaceTree.v
SpaceMap.v
SpaceLife.v
SpaceLoad.v
SpaceProgram.v
SpaceElf.v
FatNames.v
FatLfn.v
FatTable.v
Fat.v
FatFile.v
FatMount.v
FatDir.v
FatOps.v
FatCreate.v
Exfat.v
ExfatDisk.v
ExfatBitmap.v
ExfatChain.v
ExfatDir.v
ExfatEdit.v
ExfatWrite.v
ExfatTree.v
ExfatCreate.v
ExfatPlace.v
ExfatOps.v
ExfatChange.v
Input.v
Virtqueue.v
Shell.v
Fs.v
Fdt.v
FdtTree.v
FdtParse.v
FdtFacts.v
FdtWalk.v
Microcode.v
MicrocodeSpec.v
MicrocodeAmd.v
BootArgs.v
Security.v
SecurityPlans.v
SecurityFacts.v
Topology.v
TopologyFacts.v
Admission.v
Heap.v
HeapFacts.v
HeapSound.v
Syscall.v
SyscallFacts.v
SyscallSound.v
Stacks.v
StacksFacts.v
StacksSound.v
Acpi.v
AcpiSound.v
