(* ===== verification/Prelude.v ===== *)
(** * MMURTL/RS kernel: a verification development

    The program is a small preemptive kernel (src/src, Rust, amd64 and arm64).  This
    development models the parts that carry its own logic as functions and records that
    follow the source line by line, and proves the properties that make each of them
    correct.  A model and its code share names; where Rust names clash with Rocq's, the
    model adds an underscore ([get_], [set_], [Record_]).

    ** Parts of the program and the files that model them

    - [Prelude]: outcomes of fallible code ([Ok], [Err], [Panic]), machine words as [Z] with
      their width written out, little-endian codecs, bit arrays, word-addressed memory,
      iterator idioms, automation and list lemmas used everywhere.
    - [FrameAllocator] (src/memory/frame_allocator.rs): the bitmap of physical frames, with
      the physical memory its scrubbing writes.  Zeroed single and contiguous allocation,
      claims, release, and what initialisation may hand out.
    - [Slab] (src/memory/slab.rs): size classes, slabs with encoded free lists threaded
      through word memory, allocation, deallocation, growth.
    - [Heap], [HeapFacts], [HeapSound] (src/memory/heap.rs, src/arch/amd64/memory.rs,
      page_table.rs): the kernel heap over the slabs, grown page by page with frames of the
      frame allocator; the kernel's page tables are maps keyed by address bits.
    - [Stacks], [StacksFacts], [StacksSound] (src/memory/stacks.rs, src/arch/amd64/stacks.rs,
      page_table.rs): guarded kernel stacks over the same page tables: placement, mapping,
      release with the tables left empty, beside any other use of frames and tables.
    - [Elf] (src/memory/elf.rs): the whole image parser; slices panic out of range.
    - [UserSpace] (src/memory/user_layout.rs, user_bounds.rs, user.rs, stack_layout.rs,
      src/security/kaslr.rs): placement of user images and stacks, pointer checks and
      masking, slots, kernel layout randomisation.
    - [AsidPool] (src/arch/arm64/asid_pool.rs): address-space tags with generation rollover.
      [Tlb] (the uses of the pool in src/arch/arm64/mmu.rs): creating, loading and freeing
      address spaces, beside the translations that the CPUs have cached.
    - [Rqb] (src/scheduler/rqb.rs): request blocks.
    - [Scheduler] (src/scheduler/mod.rs, task.rs): tasks, run queue, CPU registration,
      ticks and context switches, sleeping, blocking request/reply, exit and reaping, as
      operations under the scheduler lock and a step relation that interleaves them on any
      number of CPUs.  Calls into the architecture are recorded as effects.
    - [Syscall], [SyscallFacts], [SyscallSound] (src/syscall.rs, src/ipc/mod.rs, the waiting
      loops of src/scheduler/mod.rs, the user copies of src/memory/user.rs): every system call,
      suspended where the code yields, over the scheduler and one memory per user task; the
      service registry.
    - [BlockDev] (src/virtio/blk.rs): block requests over a sector map, with every way the
      device can answer; and the state-and-error monad with its weakest-precondition rules,
      in which both the filesystem's code and its proofs are written.
    - [AddressSpace] (src/arch/amd64/memory.rs, src/memory/user.rs): private page tables as
      words of physical memory: new spaces, mapping, relocation writes, teardown; slots;
      loading of flat programs and ELF images.  [SpaceTree] describes table trees and the
      processor's own walk for reads, writes and fetches; [SpaceMap] and [SpaceLife] follow
      them through mapping and teardown with the frames they own; [SpaceLoad] holds what
      the two loaders share; [SpaceProgram] and [SpaceElf] are about the loaders.
    - [FatNames], [FatLfn], [FatTable], [Fat], [FatFile], [FatMount], [FatDir], [FatOps],
      [FatCreate] (src/fs/fat.rs): names and directory entries; the long-name round trip;
      the allocation table, chains, allocation and release; directories, files, discovery
      and all kernel-facing operations; what file contents survive; mounting and fail-stop
      behaviour; loading and storing directories; that every operation keeps the volume
      consistent; that a created file is found and read back.
    - [Exfat] (src/fs/exfat.rs): the whole exFAT driver: entry sets, chains, the allocation
      bitmap, directories, mounting and every operation.  [ExfatDisk] has a judgement for
      code on the medium ([runs]: no panic, and what holds after success and after an error,
      with or without a device known to work) and the volume's geometry; [ExfatBitmap],
      [ExfatChain], [ExfatDir], [ExfatEdit] and [ExfatWrite] follow allocation, chains,
      directory bytes and writes; [ExfatTree] says what it means for the medium to hold a
      tree of files and folders; [ExfatCreate], [ExfatPlace], [ExfatOps] and [ExfatChange]
      show that each operation does to that tree what it should.
    - [Fs] (src/fs/mod.rs): the interface both filesystems implement, as a type class with
      the safety they promise, an instance for each of them and for the front end.
    - [Input] (src/keyboard.rs): the input ring buffer, loss recovery, scancodes.
    - [Virtqueue] (src/virtio/mod.rs, ownership.rs): descriptor ownership, submission and
      completion against a device that may write anything into the used ring.
    - [Shell] (src/shell/parse.rs): command lines and paths in their fixed buffers.
    - [Fdt] (src/arch/arm64/fdt.rs): the flattened device tree parser.  [FdtTree] says what a
      tree of nodes and properties tells about the machine; [FdtParse], [FdtFacts] and
      [FdtWalk] show that the parser finds exactly that.  [Records] is the field-update
      notation of records with many fields.
    - [Acpi], [AcpiSound] (src/arch/amd64/acpi.rs): the firmware's tables on amd64, read through
      a window mapped on demand, and what the kernel learns from them.
    - [Microcode] (src/microcode/mod.rs, amd_policy.rs, src/arch/amd64/microcode.rs): the two
      vendors' container formats and the choice of a patch.  [MicrocodeSpec] says what a valid
      Intel file holds and [MicrocodeAmd] what an AMD module holds, and that the choice is
      the newest patch fit for the processor.
    - [BootArgs], [Security], [SecurityPlans], [SecurityFacts] (src/security/): the words of
      the command line, the mitigation policy they set, the capabilities a processor reports,
      and the plans made from both: store bypass, branch predictors, access protection,
      return sequences.
    - [Topology], [TopologyFacts], [Admission] (src/topology/, src/security/mod.rs, the entry of
      secondary processors in src/arch/*/smp.rs): which threads share a core, what a processor
      says of itself, who may run tasks and what all of those can do, as a step relation over
      the order in which processors come up.

    Both filesystems call the block device through [BlockDev]'s monad; the shell's paths are
    split by the filesystem's [components], and [path_resolve_equiv] shows both sides agree;
    the scheduler passes [Rqb] messages; address spaces take frames from [FrameAllocator],
    are laid out by [UserSpace], and [SpaceElf] loads what [Elf] accepted; the heap hands its
    pages from [FrameAllocator] to [Slab]; system calls check pointers with [UserSpace] and
    move [Rqb] messages through [Scheduler].

    ** What the theorems show

    - Invariants over every reachable state: the frame allocator's counter and bitmap agree
      and free frames are zero; slabs never hand out a slot twice; the scheduler never runs
      a task on two CPUs; no CPU has a translation of another address space cached under the
      tag it runs with; a mounted volume stays consistent or stops.
    - Functional behaviour of each operation on every branch, errors included.
    - End to end: a loaded program is, to user code, exactly its file (relocated, with its
      segments' permissions, never writable and executable at once) and its stack; a failed
      load leaves every frame and slot as it was.  A kernel heap allocation is fresh, aligned,
      zeroed and mapped, or fails for a stated reason.  A kernel stack lies between unmapped
      guards at addresses no stack ever had, and its release gives back its frames and exactly
      the tables that no longer map anything.  A system call never panics, writes only its
      caller's writable memory, and messages pass between user buffers unchanged.
    - Refinement: exFAT's operations of a tree of files and folders (a file created, written,
      appended to or deleted changes exactly its node, and failures keep the tree on a
      device that works; paths without NUL bytes where a name is created), the input ring buffer of a list queue, descriptor ownership of a set of
      free descriptors and chains in flight.
    - Discovery: the description of an arm64 machine is exactly what its device tree says,
      and of an amd64 machine what its ACPI tables say.
    - Boot policy: the mitigation policy is set by the last word with a meaning for each
      option, and words without one are refused; the microcode chosen is the newest patch
      that is valid, meant for the processor, published, and on the right side of the
      signing boundary; with siblings isolated no core runs two threads, and a mitigation selected
      from the common capabilities is available on every processor that runs tasks.
    - Equivalence: command parsing with a one-pass tokenizer, path resolution with a fold
      over path components.
    - Composition: sessions of filesystem calls never panic, whichever filesystem is mounted,
      proved once against the interface.
    - Round trips: request blocks on the wire, long file names, file contents, creating a
      file and reading it, release after allocation.
    - Safety against hostile input: ELF images, disk contents, GPT and MBR tables, the
      answers of virtio devices, arguments of system calls and microcode files cannot make
      the code panic or leave its bounds.
    - Progress: fairness of the round-robin pick, allocation after growth, termination of
      chain walks.

    ** Bounds and fuel

    Rust loops that are not structural run on fuel, and a lemma shows the fuel is never used
    up: [FatTable.chain_loop] takes one more step than the length limit it checks,
    [Fat.find_room] one more than the sectors of the largest directory, [Exfat.grow] one more
    than the bytes of the entry set it makes room for, [Fdt.walk] one more than the bytes of
    the blob, [Microcode.intel_loop], [Microcode.amd_loop] and [Microcode.amd_sections] one more
    than the bytes left in the file, [Acpi.madt_loop] one more than the bytes of the table,
    [Slab.alloc_loop] one more than the slabs in use, [Shell.words] one more than the
    characters of the line.
    Integers are unbounded where an invariant keeps them inside their machine width and
    wrap explicitly elsewhere.

    ** Hypotheses

    Unicode case mapping, which the FAT code takes from the standard library's tables, is a
    parameter; the theorems need nothing of it.  A device's answers, the random
    words, page queries, the inter-processor interrupts, the answers of the cpuid instruction,
    the SHA-256 function and the table of published microcode digests are arguments as well;
    the theorems hold whatever they are.  The loaders
    assume what boot sets up: the kernel's top table is not among the free frames
    ([kernel_apart]), and frame 0 is reserved with the rest of low memory.

    ** Not modelled

    Assembly, system and device registers, interrupt entry and return, the memory layout of
    DMA rings, USB, the serial console, the boot sequence and the demonstration programs: they
    are effects on hardware, with little logic of their own.  The words of the arm64 page
    tables (only their tags are modelled) and the
    permissions of the kernel's own mappings are set up through raw pointers during boot;
    only the amd64 user tables are modelled word by word.
    Locks are taken as given: an operation under the lock is one step. *)

From Stdlib Require Import ZArith Lia.
From stdpp Require Import base list list_numbers numbers decidable tactics strings.

Declare Scope rust_scope.
Delimit Scope rust_scope with rust.
#[global] Open Scope Z_scope.

(** * Outcomes of fallible Rust code

    [Ok]/[Err] are the two constructors of [Result]; [Panic] is a Rust panic
    (failed [assert!], [unwrap] on the wrong constructor, index out of range). *)

Inductive outcome (E A : Type) : Type :=
| Ok (a : A)
| Err (e : E)
| Panic.
Arguments Ok {E A} a.
Arguments Err {E A} e.
Arguments Panic {E A}.

#[global] Instance outcome_ret {E} : MRet (outcome E) := fun A a => Ok a.
#[global] Instance outcome_bind {E} : MBind (outcome E) := fun A B f m =>
  match m with Ok a => f a | Err e => Err e | Panic => Panic end.

(** [Option::ok_or] and an index/unwrap that panics. *)
Definition ok_or {E A} (o : option A) (e : E) : outcome E A :=
  match o with Some a => Ok a | None => Err e end.
Definition unwrap {E A} (o : option A) : outcome E A :=
  match o with Some a => Ok a | None => Panic end.
(** Early return guarded by a condition, and [assert!]. *)
Definition guard_err {E} (b : bool) (e : E) : outcome E unit :=
  if b then Err e else Ok tt.
Definition assert_that {E} (b : bool) : outcome E unit :=
  if b then Ok tt else Panic.

(** * Machine integers: unsigned words as [Z] with their width written out *)

Definition is_uint (w : Z) (z : Z) : Prop := 0 <= z < 2 ^ w.
Definition is_byte (z : Z) : Prop := 0 <= z < 256.
Definition U64_MAX : Z := 2 ^ 64 - 1.
Definition checked_add (w a b : Z) : option Z :=
  if a + b <? 2 ^ w then Some (a + b) else None.
Definition checked_sub (a b : Z) : option Z :=
  if b <=? a then Some (a - b) else None.
Definition wrapping_add (w a b : Z) : Z := (a + b) mod 2 ^ w.
Definition wrapping_sub (w a b : Z) : Z := (a - b) mod 2 ^ w.
Definition saturating_sub (a b : Z) : Z := Z.max 0 (a - b).
(** Bitwise complement [!x] of a [w]-bit word. *)
Definition unot (w x : Z) : Z := 2 ^ w - 1 - x.
(** [x & !(a - 1)] on 64-bit words: round down to the power of two [a]. *)
Definition align_down (x a : Z) : Z := Z.land x (unot 64 (a - 1)).
(** [u64::is_power_of_two], [rotate_right] and [trailing_zeros]. *)
Definition is_power_of_two (x : Z) : bool := (0 <? x) && (Z.land x (x - 1) =? 0).
Definition rotate_right (w x r : Z) : Z :=
  Z.lor (Z.shiftr x r) (Z.shiftl x (w - r) mod 2 ^ w).
Fixpoint trailing_zeros_from (fuel : nat) (i x : Z) : Z :=
  match fuel with
  | O => i
  | S fuel' => if Z.testbit x i then i else trailing_zeros_from fuel' (i + 1) x
  end.
Definition trailing_zeros (w x : Z) : Z := trailing_zeros_from (Z.to_nat w) 0 x.

(** * Little-endian byte codecs *)

Fixpoint from_le_bytes (bs : list Z) : Z :=
  match bs with
  | [] => 0
  | b :: bs' => b + 256 * from_le_bytes bs'
  end.
Fixpoint to_le_bytes (n : nat) (z : Z) : list Z :=
  match n with
  | O => []
  | S n' => z mod 256 :: to_le_bytes n' (z / 256)
  end.

(** * Bit arrays: a slice of [w]-bit words indexed bit by bit

    [bits[i / w] & (1 << (i % w)) != 0] and the two updates. *)

Definition bit_get (w : Z) (ws : list Z) (i : Z) : bool :=
  negb (Z.land (ws !!! Z.to_nat (i / w)) (Z.shiftl 1 (i mod w)) =? 0).
Definition bit_set (w : Z) (ws : list Z) (i : Z) : list Z :=
  <[Z.to_nat (i / w) := Z.lor (ws !!! Z.to_nat (i / w)) (Z.shiftl 1 (i mod w))]> ws.
Definition bit_clear (w : Z) (ws : list Z) (i : Z) : list Z :=
  <[Z.to_nat (i / w) :=
     Z.land (ws !!! Z.to_nat (i / w)) (unot w (Z.shiftl 1 (i mod w)))]> ws.

(** * Word-addressed memory: the 64-bit word stored at a byte address *)

Definition word_mem := Z -> Z.
Definition write_word (m : word_mem) (a v : Z) : word_mem :=
  fun x => if x =? a then v else m x.
(** Volatile zero stores to the [n] consecutive words from [a] on. *)
Definition zero_words (m : word_mem) (a n : Z) : word_mem :=
  foldl (fun m k => write_word m (a + 8 * k) 0) m (seqZ 0 n).

(** * Iterator idioms *)

(** [iter.filter(p).count()] over the range [lo..lo+n]. *)
Definition count_range (p : Z -> bool) (lo n : Z) : Z :=
  Z.of_nat (length (List.filter p (seqZ lo n))).
(** [iter.position(p)]. *)
Fixpoint position_from {A} (p : A -> bool) (i : Z) (l : list A) : option Z :=
  match l with
  | [] => None
  | x :: l' => if p x then Some i else position_from p (i + 1) l'
  end.
Definition position {A} (p : A -> bool) (l : list A) : option Z := position_from p 0 l.
(** [iter.find_map(f)]. *)
Fixpoint find_map {A B} (f : A -> option B) (l : list A) : option B :=
  match l with
  | [] => None
  | x :: l' => match f x with Some b => Some b | None => find_map f l' end
  end.

(** * Automation *)

Create HintDb rust.
Create Rewrite HintDb rustb.

Ltac case_if :=
  match goal with
  | |- context [if ?b then _ else _] => destruct b eqn:?
  | H : context [if ?b then _ else _] |- _ => destruct b eqn:?
  end.
(** [lia] with the Euclidean equations of the quotients and remainders in sight. *)
Ltac zdiv := Z.to_euclidean_division_equations; lia.
(** Invert the equations a successful monadic run leaves behind. *)
Ltac outcome_step :=
  match goal with
  | H : mbind _ ?m = Ok _ |- _ => destruct m eqn:?; simpl in H; try discriminate H
  | H : outcome_bind _ _ _ ?m = Ok _ |- _ => destruct m eqn:?; simpl in H; try discriminate H
  | H : guard_err ?b _ = Ok _ |- _ =>
      unfold guard_err in H; destruct b eqn:?; try discriminate H
  | H : ok_or ?o _ = Ok _ |- _ =>
      unfold ok_or in H; destruct o eqn:?; try discriminate H
  | H : Ok _ = Ok _ |- _ => injection H as H; subst
  end.
Ltac outcome_inv := repeat outcome_step.

Lemma Ok_inj {E A} (a b : A) : @Ok E A a = Ok b -> a = b.
Proof. congruence. Qed.

(** A computation whose parts do not panic does not panic. *)
Lemma bind_no_panic {E A B} (x : outcome E A) (f : A -> outcome E B) :
  x <> Panic -> (forall a, f a <> Panic) -> x ≫= f <> Panic.
Proof. destruct x; simpl; auto; congruence. Qed.
Lemma guard_err_no_panic {E} b (e : E) : guard_err b e <> Panic.
Proof. by destruct b. Qed.
Lemma ok_or_no_panic {E A} (o : option A) (e : E) : ok_or o e <> Panic.
Proof. by destruct o. Qed.
#[export] Hint Resolve bind_no_panic guard_err_no_panic ok_or_no_panic : rust.
Ltac no_panic :=
  repeat first [ discriminate | solve [eauto with rust] | apply bind_no_panic; intros
    | match goal with |- (if ?b then _ else _) <> _ => destruct b end ].

(** * Lemmas on machine integers *)

Lemma checked_add_Some w a b c :
  checked_add w a b = Some c <-> c = a + b /\ a + b < 2 ^ w.
Proof. unfold checked_add. case_if; split; [intros [= <-]; lia | intros [-> ?]; done || lia | done | lia]. Qed.

Lemma checked_sub_Some a b c : checked_sub a b = Some c <-> c = a - b /\ b <= a.
Proof. unfold checked_sub. case_if; split; [intros [= <-]; lia | intros [-> ?]; done || lia | done | lia]. Qed.

Lemma testbit_1_ne n : n <> 0 -> Z.testbit 1 n = false.
Proof.
  intros Hn. destruct (decide (n < 0)); [by apply Z.testbit_neg_r |].
  apply Z.bits_above_log2; simpl; lia.
Qed.

Lemma testbit_pow2 i n : 0 <= i -> 0 <= n -> Z.testbit (Z.shiftl 1 i) n = (n =? i).
Proof.
  intros Hi Hn. rewrite Z.shiftl_spec by lia.
  destruct (Z.eqb_spec n i) as [-> | Hne]; [by rewrite Z.sub_diag |].
  apply testbit_1_ne. lia.
Qed.

Lemma land_pow2_testbit x i :
  0 <= i -> (Z.land x (Z.shiftl 1 i) =? 0) = negb (Z.testbit x i).
Proof.
  intros Hi. destruct (Z.testbit x i) eqn:E; simpl.
  - apply Z.eqb_neq. intros H0.
    assert (Z.testbit (Z.land x (Z.shiftl 1 i)) i = false) as Hf
      by (rewrite H0; apply Z.bits_0).
    rewrite Z.land_spec, E, Z.shiftl_spec, Z.sub_diag in Hf by lia. discriminate.
  - apply Z.eqb_eq, Z.bits_inj'. intros n Hn.
    rewrite Z.land_spec, Z.shiftl_spec, Z.bits_0 by lia.
    destruct (decide (n = i)) as [-> | Hne]; [by rewrite E |].
    rewrite (testbit_1_ne (n - i)) by lia. apply andb_false_r.
Qed.

(** A [w]-bit complement flips exactly the low [w] bits. *)
Lemma testbit_unot w x i :
  0 <= x < 2 ^ w -> 0 <= i < w -> Z.testbit (unot w x) i = negb (Z.testbit x i).
Proof.
  intros Hx Hi. unfold unot.
  replace (2 ^ w - 1 - x) with (Z.lnot x + 1 * 2 ^ w) by (unfold Z.lnot; lia).
  rewrite <- (Z.mod_pow2_bits_low _ w) by lia.
  rewrite Z.mod_add by lia. rewrite Z.mod_pow2_bits_low by lia.
  apply Z.lnot_spec. lia.
Qed.

Lemma unot_range w x : 0 <= x < 2 ^ w -> 0 <= unot w x < 2 ^ w.
Proof. unfold unot. lia. Qed.

Lemma testbit_above w x i : 0 <= x < 2 ^ w -> w <= i -> Z.testbit x i = false.
Proof.
  intros Hx Hi. destruct (decide (x = 0)) as [-> |]; [apply Z.bits_0 |].
  apply Z.bits_above_log2; [lia |].
  apply Z.lt_le_trans with w; [apply Z.log2_lt_pow2; lia | lia].
Qed.

(** Two [w]-bit words with the same low [w] bits are equal. *)
Lemma uint_bits_inj w x y :
  0 <= w -> 0 <= x < 2 ^ w -> 0 <= y < 2 ^ w ->
  (forall i, 0 <= i < w -> Z.testbit x i = Z.testbit y i) -> x = y.
Proof.
  intros Hw Hx Hy H. apply Z.bits_inj'. intros n Hn.
  destruct (decide (n < w)); [apply H; lia |].
  rewrite !(testbit_above w) by lia. done.
Qed.

Lemma land_range w x y : 0 <= w -> 0 <= x < 2 ^ w -> 0 <= Z.land x y < 2 ^ w.
Proof.
  intros Hw Hx.
  assert (Z.land x y = Z.land x y mod 2 ^ w) as ->.
  { rewrite <- Z.land_ones by lia.
    rewrite <- Z.land_assoc, (Z.land_comm y), Z.land_assoc, Z.land_ones by lia.
    by rewrite (Z.mod_small x) by lia. }
  apply Z.mod_pos_bound. lia.
Qed.

Lemma lor_range w x y :
  0 <= x < 2 ^ w -> 0 <= y < 2 ^ w -> 0 <= w -> 0 <= Z.lor x y < 2 ^ w.
Proof.
  intros Hx Hy Hw. split; [apply Z.lor_nonneg; lia |].
  destruct (decide (Z.lor x y = 0)) as [-> |]; [lia |].
  apply Z.log2_lt_pow2; [pose proof (proj2 (Z.lor_nonneg x y)); lia |].
  rewrite Z.log2_lor by lia.
  assert (forall z, 0 <= z < 2 ^ w -> 0 < w -> Z.log2 z < w) as Hlog.
  { intros z Hz Hw'. destruct (decide (z = 0)) as [-> |]; [done |].
    apply Z.log2_lt_pow2; lia. }
  assert (0 < w).
  { destruct (decide (w = 0)) as [-> |]; [| lia].
    assert (x = 0) as -> by lia. assert (y = 0) as -> by lia. done. }
  apply Z.max_lub_lt; by apply Hlog.
Qed.

(** Rounding down with a mask is rounding down with a division. *)
Lemma align_down_spec x k :
  0 <= x < 2 ^ 64 -> 0 <= k <= 64 -> align_down x (2 ^ k) = x / 2 ^ k * 2 ^ k.
Proof.
  intros Hx Hk. unfold align_down.
  assert (2 ^ k <= 2 ^ 64) by (apply Z.pow_le_mono_r; lia).
  assert (0 < 2 ^ k) by (apply Z.pow_pos_nonneg; lia).
  assert (0 <= x / 2 ^ k * 2 ^ k <= x).
  { pose proof (Z.mul_div_le x (2 ^ k)). split; [|lia].
    apply Z.mul_nonneg_nonneg; [apply Z.div_pos; lia | lia]. }
  apply (uint_bits_inj 64); [lia | | lia |].
  - apply land_range; lia.
  - intros i Hi. rewrite Z.land_spec, testbit_unot by lia.
    replace (2 ^ k - 1) with (Z.ones k) by (rewrite Z.ones_equiv; lia).
    rewrite Z.testbit_ones_nonneg, Z.mul_pow2_bits by lia.
    destruct (Z.ltb_spec i k); simpl.
    + rewrite (Z.testbit_neg_r _ (i - k)) by lia. apply andb_false_r.
    + rewrite Z.div_pow2_bits by lia. rewrite andb_true_r. f_equal. lia.
Qed.

Lemma align_down_range x k :
  0 <= x < 2 ^ 64 -> 0 <= k <= 64 ->
  0 <= align_down x (2 ^ k) <= x /\ x < align_down x (2 ^ k) + 2 ^ k
  /\ align_down x (2 ^ k) mod 2 ^ k = 0.
Proof.
  intros Hx Hk. rewrite align_down_spec by done.
  assert (0 < 2 ^ k) by (apply Z.pow_pos_nonneg; lia).
  pose proof (Z.div_mod x (2 ^ k)). pose proof (Z.mod_pos_bound x (2 ^ k)).
  pose proof (Z.div_pos x (2 ^ k)).
  rewrite Z.mod_mul by lia. nia.
Qed.

Lemma is_power_of_two_spec x : is_power_of_two x = true -> exists k, 0 <= k /\ x = 2 ^ k.
Proof.
  unfold is_power_of_two. intros H.
  assert (0 < x) as Hx by lia. assert (Z.land x (x - 1) = 0) as Hl by lia.
  exists (Z.log2 x). pose proof (Z.log2_nonneg x). split; [done |].
  destruct (Z.log2_spec x Hx) as [Hlo Hhi]. destruct (decide (x = 2 ^ Z.log2 x)); [done |].
  assert (Z.log2 (x - 1) = Z.log2 x) as Hlog by (apply Z.log2_unique; lia).
  assert (Z.testbit (Z.land x (x - 1)) (Z.log2 x) = true) as Hb.
  { rewrite Z.land_spec, Z.bit_log2 by done. rewrite <- Hlog. apply Z.bit_log2. lia. }
  rewrite Hl, Z.bits_0 in Hb. done.
Qed.

Lemma is_power_of_two_pow2 k : 0 <= k -> is_power_of_two (2 ^ k) = true.
Proof.
  intros Hk. unfold is_power_of_two. assert (0 < 2 ^ k) by (apply Z.pow_pos_nonneg; lia).
  replace (0 <? 2 ^ k) with true by lia. simpl. apply Z.eqb_eq, Z.bits_inj'. intros n Hn.
  replace (2 ^ k - 1) with (Z.ones k) by (rewrite Z.ones_equiv; lia).
  rewrite Z.land_spec, Z.bits_0, Z.testbit_ones_nonneg, Z.pow2_bits_eqb by lia. lia.
Qed.

(** * Lemmas on byte codecs *)

Lemma from_le_bytes_range bs :
  Forall is_byte bs -> 0 <= from_le_bytes bs < 256 ^ Z.of_nat (length bs).
Proof.
  induction 1 as [| b bs Hb _ IH]; [done |]. cbn [from_le_bytes length].
  rewrite Nat2Z.inj_succ, Z.pow_succ_r by lia. unfold is_byte in Hb. lia.
Qed.

Lemma length_to_le_bytes n z : length (to_le_bytes n z) = n.
Proof. revert z. induction n; intros z; simpl; auto. Qed.

Lemma to_le_bytes_bytes n z : Forall is_byte (to_le_bytes n z).
Proof.
  revert z. induction n as [| n IH]; intros z; simpl; constructor; [| done].
  apply Z.mod_pos_bound. lia.
Qed.

Lemma from_to_le_bytes n z :
  0 <= z < 256 ^ Z.of_nat n -> from_le_bytes (to_le_bytes n z) = z.
Proof.
  revert z. induction n as [| n IH]; intros z Hz; [simpl in *; lia |].
  cbn [to_le_bytes from_le_bytes]. rewrite Nat2Z.inj_succ, Z.pow_succ_r in Hz by lia.
  rewrite IH; [pose proof (Z.div_mod z 256); lia |].
  split; [apply Z.div_pos; lia |]. apply Z.div_lt_upper_bound; lia.
Qed.

Lemma to_from_le_bytes bs :
  Forall is_byte bs -> to_le_bytes (length bs) (from_le_bytes bs) = bs.
Proof.
  induction 1 as [| b bs Hb _ IH]; [done |]. cbn [from_le_bytes length to_le_bytes].
  unfold is_byte in Hb. rewrite Z.add_comm, Z.mul_comm.
  rewrite Z.add_comm, Z.mod_add, Z.div_add, (Z.mod_small b), (Z.div_small b) by lia.
  by rewrite Z.add_0_l, IH.
Qed.

(** * Lemmas on bit arrays *)

Lemma div_to_nat_ne w i j :
  0 < w -> 0 <= i -> 0 <= j -> i / w <> j / w -> Z.to_nat (i / w) <> Z.to_nat (j / w).
Proof.
  intros Hw Hi Hj Hne Heq. apply Hne.
  apply Z2Nat.inj; [apply Z.div_pos; lia | apply Z.div_pos; lia | done].
Qed.

Lemma div_to_nat_lt w i (ws : list Z) :
  0 < w -> 0 <= i < w * Z.of_nat (length ws) -> (Z.to_nat (i / w) < length ws)%nat.
Proof.
  intros Hw Hi.
  assert (i / w < Z.of_nat (length ws)) by (apply Z.div_lt_upper_bound; lia).
  assert (0 <= i / w) by (apply Z.div_pos; lia). lia.
Qed.

Lemma bit_get_testbit w ws i :
  0 < w -> bit_get w ws i = Z.testbit (ws !!! Z.to_nat (i / w)) (i mod w).
Proof.
  intros Hw. unfold bit_get. pose proof (Z.mod_pos_bound i w Hw).
  rewrite land_pow2_testbit by lia. apply negb_involutive.
Qed.

Lemma same_bit w i j : 0 < w -> i / w = j / w -> (i mod w =? j mod w) = (i =? j).
Proof.
  intros Hw He. pose proof (Z.div_mod i w). pose proof (Z.div_mod j w).
  destruct (Z.eqb_spec i j) as [-> |]; [by rewrite Z.eqb_refl |].
  apply Z.eqb_neq. intros He'. rewrite He, He' in *. lia.
Qed.

Lemma bit_get_set w ws i j :
  0 < w -> 0 <= i < w * Z.of_nat (length ws) -> 0 <= j ->
  bit_get w (bit_set w ws i) j = (j =? i) || bit_get w ws j.
Proof.
  intros Hw Hi Hj. rewrite !bit_get_testbit by done. unfold bit_set.
  pose proof (Z.mod_pos_bound i w Hw). pose proof (Z.mod_pos_bound j w Hw).
  destruct (decide (i / w = j / w)) as [He | Hne].
  - rewrite <- He, list_lookup_total_insert_eq by (by apply div_to_nat_lt).
    rewrite Z.lor_spec, testbit_pow2 by lia. rewrite (same_bit w j i) by done.
    apply orb_comm.
  - rewrite list_lookup_total_insert_ne by (apply div_to_nat_ne; lia).
    destruct (Z.eqb_spec j i) as [-> |]; done.
Qed.

Lemma bit_get_clear w ws i j :
  0 < w -> 0 <= i < w * Z.of_nat (length ws) -> 0 <= j ->
  bit_get w (bit_clear w ws i) j = negb (j =? i) && bit_get w ws j.
Proof.
  intros Hw Hi Hj. rewrite !bit_get_testbit by done. unfold bit_clear.
  pose proof (Z.mod_pos_bound i w Hw). pose proof (Z.mod_pos_bound j w Hw).
  destruct (decide (i / w = j / w)) as [He | Hne].
  - rewrite <- He, list_lookup_total_insert_eq by (by apply div_to_nat_lt).
    rewrite Z.land_spec, testbit_unot, testbit_pow2; [| lia | lia | | lia].
    + rewrite (same_bit w j i) by done. apply andb_comm.
    + rewrite Z.shiftl_1_l. split; [lia |]. apply Z.pow_lt_mono_r; lia.
  - rewrite list_lookup_total_insert_ne by (apply div_to_nat_ne; lia).
    destruct (Z.eqb_spec j i) as [-> |]; done.
Qed.

Lemma length_bit_set w ws i : length (bit_set w ws i) = length ws.
Proof. apply length_insert. Qed.
Lemma length_bit_clear w ws i : length (bit_clear w ws i) = length ws.
Proof. apply length_insert. Qed.
#[export] Hint Rewrite length_bit_set length_bit_clear : rustb.

(** A word array all of whose words are [2^w - 1] has every bit set. *)
Lemma bit_get_replicate_ones w n i :
  0 < w -> 0 <= i < w * Z.of_nat n ->
  bit_get w (replicate n (2 ^ w - 1)) i = true.
Proof.
  intros Hw Hi. rewrite bit_get_testbit by done.
  rewrite lookup_total_replicate_2.
  - replace (2 ^ w - 1) with (Z.ones w) by (rewrite Z.ones_equiv; lia).
    apply Z.ones_spec_low. apply Z.mod_pos_bound. done.
  - rewrite <- (length_replicate n 0). apply div_to_nat_lt; [done |].
    rewrite length_replicate. lia.
Qed.

Lemma bit_get_replicate_zero w n i :
  0 < w -> 0 <= i < w * Z.of_nat n -> bit_get w (replicate n 0) i = false.
Proof.
  intros Hw Hi. rewrite bit_get_testbit by done.
  rewrite lookup_total_replicate_2; [apply Z.bits_0 |].
  rewrite <- (length_replicate n 0). apply div_to_nat_lt; [done |].
  rewrite length_replicate. lia.
Qed.

(** * Lemmas on ranges and loops over them *)

Lemma seqZ_snoc lo n : 0 <= n -> seqZ lo (n + 1) = seqZ lo n ++ [lo + n].
Proof.
  intros Hn. rewrite seqZ_app by lia.
  by rewrite (seqZ_cons (lo + n) 1), (seqZ_nil _ (Z.pred 1)) by lia.
Qed.

(** Loop invariants for [for i in lo..lo+n]. *)
Lemma foldl_seqZ_ind {A} (f : A -> Z -> A) (P : Z -> A -> Prop) lo n a :
  0 <= n -> P 0 a ->
  (forall k b, 0 <= k < n -> P k b -> P (k + 1) (f b (lo + k))) ->
  P n (foldl f a (seqZ lo n)).
Proof.
  intros Hn H0 HS.
  assert (forall k, 0 <= k -> k <= n -> P k (foldl f a (seqZ lo k))) as Hall; [| auto with lia].
  intros k Hk. pattern k. apply natlike_ind; [done | | done].
  intros j Hj IH Hle. change (Z.succ j) with (j + 1). rewrite seqZ_snoc, foldl_app by done.
  apply HS; [lia |]. apply IH. lia.
Qed.

(** * Lemmas on memory *)

Lemma write_word_eq m a v : write_word m a v a = v.
Proof. unfold write_word. by rewrite Z.eqb_refl. Qed.
Lemma write_word_ne m a v x : x <> a -> write_word m a v x = m x.
Proof. unfold write_word. intros. by rewrite (proj2 (Z.eqb_neq _ _)). Qed.

Lemma zero_words_spec m a n x :
  0 <= n ->
  zero_words m a n x =
    if (a <=? x) && (x <? a + 8 * n) && ((x - a) mod 8 =? 0) then 0 else m x.
Proof.
  intros Hn. unfold zero_words.
  apply (foldl_seqZ_ind _ (fun k b => b x =
    if (a <=? x) && (x <? a + 8 * k) && ((x - a) mod 8 =? 0) then 0 else m x)).
  - done.
  - replace ((a <=? x) && (x <? a + 8 * 0)) with false by lia. done.
  - intros k b Hk IH. unfold write_word. rewrite IH.
    destruct (Z.eqb_spec x (a + 8 * (0 + k))) as [-> | Hne].
    + replace (a + 8 * (0 + k) - a) with (k * 8) by lia. rewrite Z.mod_mul by lia.
      replace (a <=? _) with true by lia.
      replace (_ <? a + 8 * (k + 1)) with true by lia. done.
    + destruct (Z.eqb_spec ((x - a) mod 8) 0) as [Hm |]; [| by rewrite !andb_false_r].
      rewrite !andb_true_r.
      replace ((a <=? x) && (x <? a + 8 * (k + 1)))
        with ((a <=? x) && (x <? a + 8 * k)); [done |].
      pose proof (Z.div_mod (x - a) 8). lia.
Qed.

(** * Disjoint bit fields *)

Lemma land_shiftl_high x m n : 0 <= n -> Z.land x (Z.shiftl m n) = Z.shiftl (Z.land (Z.shiftr x n) m) n.
Proof.
  intros Hn. apply Z.bits_inj'. intros i Hi. rewrite Z.land_spec, !Z.shiftl_spec, Z.land_spec by done.
  destruct (decide (i < n)).
  - by rewrite !(Z.testbit_neg_r _ (i - n)), !andb_false_r by lia.
  - rewrite Z.shiftr_spec by lia. do 2 f_equal. lia.
Qed.

Lemma lor_shiftl_low a b n : 0 <= n -> 0 <= b < 2 ^ n -> Z.lor (Z.shiftl a n) b = a * 2 ^ n + b.
Proof.
  intros Hn Hb. rewrite <- Z.add_nocarry_lor; [by rewrite Z.shiftl_mul_pow2 |].
  apply Z.bits_inj'. intros i Hi. rewrite Z.land_spec, Z.shiftl_spec, Z.bits_0 by done.
  destruct (decide (i < n)).
  - by rewrite Z.testbit_neg_r by lia.
  - rewrite (testbit_above n b i) by lia. apply andb_false_r.
Qed.

Lemma land_low x n : 0 <= n -> Z.land x (2 ^ n - 1) = x mod 2 ^ n.
Proof. intros Hn. rewrite <- Z.land_ones by done. f_equal. rewrite Z.ones_equiv. lia. Qed.

(** * Lemmas on counting *)

Lemma count_range_S p lo n :
  0 <= n -> count_range p lo (n + 1) = count_range p lo n + Z.b2z (p (lo + n)).
Proof.
  intros Hn. unfold count_range. rewrite seqZ_snoc by lia.
  rewrite List.filter_app, length_app. simpl.
  destruct (p (lo + n)); simpl; lia.
Qed.

Lemma count_range_0 p lo : count_range p lo 0 = 0.
Proof. reflexivity. Qed.

Lemma count_range_ind (P : Z -> Prop) :
  P 0 -> (forall n, 0 <= n -> P n -> P (n + 1)) -> forall n, 0 <= n -> P n.
Proof.
  intros H0 HS n Hn. pattern n. apply natlike_ind; [done | | done].
  intros k Hk IH. by apply HS.
Qed.

Lemma count_range_nonneg p lo n : 0 <= count_range p lo n.
Proof. unfold count_range. lia. Qed.

Lemma count_range_ext p q n :
  0 <= n -> (forall i, 0 <= i < n -> p i = q i) -> count_range p 0 n = count_range q 0 n.
Proof.
  intros Hn. pattern n. apply count_range_ind; [done | | done].
  intros k Hk IH Hpq. rewrite !count_range_S by done.
  rewrite IH by (intros; apply Hpq; lia). rewrite Hpq by lia. done.
Qed.

(** Flipping one element of the range changes the count by one. *)
Lemma count_range_flip p q n i :
  0 <= n -> 0 <= i < n -> p i = true -> q i = false ->
  (forall j, 0 <= j < n -> j <> i -> p j = q j) ->
  count_range p 0 n = count_range q 0 n + 1.
Proof.
  intros Hn. revert i. pattern n. apply count_range_ind; [lia | | done].
  intros k Hk IH i Hi Hp Hq Hpq. rewrite !count_range_S, Z.add_0_l by done.
  destruct (decide (i = k)) as [-> | Hne].
  - rewrite Hp, Hq. simpl Z.b2z.
    rewrite (count_range_ext p q k) by (try done; intros; apply Hpq; lia). lia.
  - rewrite (IH i) by (try lia; try done; intros; apply Hpq; lia).
    rewrite Hpq by lia. lia.
Qed.

Lemma count_range_pos p n i :
  0 <= n -> 0 <= i < n -> p i = true -> 0 < count_range p 0 n.
Proof.
  intros Hn. pattern n. apply count_range_ind; [lia | | done].
  intros k Hk IH Hi Hp. rewrite count_range_S, Z.add_0_l by done.
  destruct (decide (i = k)) as [-> |].
  - rewrite Hp. simpl Z.b2z. pose proof (count_range_nonneg p 0 k). lia.
  - assert (0 < count_range p 0 k) by (apply IH; [lia | done]).
    destruct (p k); simpl Z.b2z; lia.
Qed.

(** Removing an interval of elements that all satisfied the predicate. *)
Lemma count_range_remove p q n lo k :
  0 <= k -> 0 <= lo -> lo + k <= n ->
  (forall i, lo <= i < lo + k -> p i = true) ->
  (forall i, 0 <= i < n -> q i = p i && negb ((lo <=? i) && (i <? lo + k))) ->
  count_range p 0 n = count_range q 0 n + k.
Proof.
  intros Hk Hlo. revert q. pattern k. apply count_range_ind; [| | done].
  - intros q Hn _ Hq. rewrite (count_range_ext p q); [lia | lia |].
    intros i Hi. rewrite Hq by done. replace ((lo <=? i) && (i <? lo + 0)) with false by lia.
    by rewrite andb_true_r.
  - intros j Hj IH q Hn Hp Hq.
    rewrite (IH (fun i => p i && negb ((lo <=? i) && (i <? lo + j)))) by
      (try lia; try done; intros; apply Hp; lia).
    rewrite (count_range_flip _ q n (lo + j)); [lia | lia | lia | | |].
    + rewrite Hp by lia. lia.
    + rewrite Hq, Hp by lia. lia.
    + intros i Hi Hne. rewrite Hq by done. f_equal. lia.
Qed.

Lemma count_range_zero p n :
  0 <= n -> count_range p 0 n = 0 <-> forall i, 0 <= i < n -> p i = false.
Proof.
  intros Hn. split.
  - intros H0 i Hi. destruct (p i) eqn:E; [| done].
    pose proof (count_range_pos p n i Hn Hi E). lia.
  - intros H. rewrite (count_range_ext p (fun _ => false)) by done.
    pattern n. apply count_range_ind; [done | | done].
    intros k Hk IH. rewrite count_range_S by done. simpl. lia.
Qed.

(** * Lemmas on searches *)

Lemma Forall_elem {A} (P : A -> Prop) l x : Forall P l -> x ∈ l -> P x.
Proof. intros H Hx. by eapply list.Forall_forall. Qed.

Lemma elem_of_map {A B} (f : A -> B) l y : y ∈ map f l <-> exists x, y = f x /\ x ∈ l.
Proof.
  rewrite list_elem_of_In, in_map_iff. setoid_rewrite list_elem_of_In. naive_solver.
Qed.

Lemma length_join {A} n (ls : list (list A)) : Forall (fun l => length l = n) ls -> length (mjoin ls) = (n * length ls)%nat.
Proof. induction 1 as [| l ls Hl _ IH]; cbn; [lia |]. change (length (l ++ mjoin ls) = n * S (length ls))%nat. rewrite length_app. lia. Qed.

Lemma map_seqZ_shift {A} (f : Z -> A) lo n : map f (seqZ lo n) = map (fun s => f (lo + s)) (seqZ 0 n).
Proof. rewrite <- (Z.add_0_r lo) at 1. rewrite <- fmap_add_seqZ. exact (map_map (Z.add lo) f (seqZ 0 n)). Qed.

Lemma snoc_of {A} (l : list A) : l <> [] -> exists l' x, l = l' ++ [x].
Proof. intros H. destruct (exists_last H) as (l' & x & ->). by exists l', x. Qed.

Lemma List_find_Some {A} (p : A -> bool) l x :
  List.find p l = Some x -> x ∈ l /\ p x = true.
Proof. intros H. apply List.find_some in H as [H1 H2]. by rewrite list_elem_of_In. Qed.

Lemma List_find_None {A} (p : A -> bool) l :
  List.find p l = None <-> forall x, x ∈ l -> p x = false.
Proof.
  split.
  - intros H x Hx. apply list_elem_of_In in Hx. by eapply List.find_none.
  - intros H. destruct (List.find p l) as [y |] eqn:E; [| done].
    apply List_find_Some in E as [Hy Hp]. rewrite H in Hp; done.
Qed.

(** [find] returns the first element that satisfies the predicate. *)
Lemma List_find_first {A} (p : A -> bool) l x :
  List.find p l = Some x ->
  exists k, l !! k = Some x /\ p x = true /\ forall j y, l !! j = Some y -> (j < k)%nat -> p y = false.
Proof.
  induction l as [| a l IH]; cbn [List.find]; [done |]. destruct (p a) eqn:E.
  - intros [= ->]. exists 0%nat. split_and!; [done | done | lia].
  - intros (k & H1 & H2 & H3)%IH. exists (S k). split_and!; [done | done |].
    intros [| j] y Hy Hj; [cbn in Hy; congruence | by apply (H3 j); [| lia]].
Qed.

(** [position] finds the first element that satisfies the predicate. *)
Lemma position_from_spec {A} (p : A -> bool) i l :
  match position_from p i l with
  | Some k => exists n x, k = i + Z.of_nat n /\ l !! n = Some x /\ p x = true
      /\ forall m y, (m < n)%nat -> l !! m = Some y -> p y = false
  | None => forall n x, l !! n = Some x -> p x = false
  end.
Proof.
  revert i. induction l as [| x l IH]; intros i; simpl; [done |].
  destruct (p x) eqn:E.
  - exists 0%nat, x. split; [lia |]. split; [done |]. split; [done | lia].
  - specialize (IH (i + 1)). destruct (position_from p (i + 1) l) as [k |].
    + destruct IH as (n & y & -> & Hn & Hp & Hlt). exists (S n), y.
      split; [lia |]. split; [done |]. split; [done |].
      intros [| m] z Hm Hz; simpl in Hz; [by simplify_eq | eapply Hlt; [| done]; lia].
    + intros [| n] y Hy; simpl in Hy; [by simplify_eq | by eapply IH].
Qed.

Lemma find_map_Some {A B} (f : A -> option B) l b :
  find_map f l = Some b -> exists x, x ∈ l /\ f x = Some b.
Proof.
  induction l as [| x l IH]; simpl; [done |]. destruct (f x) eqn:E.
  - intros [= <-]. exists x. split; [left | done].
  - intros H. destruct (IH H) as (y & Hy & Hfy). exists y. split; [by right | done].
Qed.

Lemma find_map_None {A B} (f : A -> option B) l :
  find_map f l = None <-> forall x, x ∈ l -> f x = None.
Proof.
  split.
  - induction l as [| x l IH]; simpl; [intros _ x Hx; by apply not_elem_of_nil in Hx |].
    destruct (f x) eqn:E; [done |]. intros H y Hy.
    apply elem_of_cons in Hy as [-> | Hy]; [done | by apply IH].
  - intros H. destruct (find_map f l) eqn:E; [| done].
    apply find_map_Some in E as (x & Hx & Hfx). rewrite H in Hfx; done.
Qed.

Lemma forallb_seqZ (p : Z -> bool) lo n :
  forallb p (seqZ lo n) = true <-> forall i, lo <= i < lo + n -> p i = true.
Proof.
  rewrite List.forallb_forall. split.
  - intros H i Hi. apply H. apply list_elem_of_In, elem_of_seqZ. lia.
  - intros H i Hi. apply list_elem_of_In, elem_of_seqZ in Hi. by apply H.
Qed.
