(* ===== verification/Records.v ===== *)
(** Functional record update: [r <| field := v |>] is [r] with one field replaced, as Rust's
    assignment to a field of a struct.  A record gets it by an instance of [Eta]. *)

From Stdlib Require Import ZArith Lia.
From S2P Require Import Prelude.

(** [eta r] rebuilds [r] from its fields. *)
Class Eta (R : Type) : Type := eta : R -> R.
Class Setter {R T : Type} (proj : R -> T) : Type := set_field : T -> R -> R.

Ltac solve_setter :=
  match goal with
  | |- @Setter ?R ?T ?proj =>
      let inst := constr:(ltac:(typeclasses eauto) : Eta R) in
      let e := eval red in inst in
      exact (fun (v : T) (r : R) => ltac:(
        let t := eval cbv beta in (e r) in
        match eval pattern (proj r) in t with
        | ?F _ => let u := eval cbv beta in (F v) in exact u
        end))
  end.
#[export] Hint Extern 1 (Setter _) => solve_setter : typeclass_instances.

Declare Scope record_scope.
Notation "r <| proj := v |>" := (set_field (proj := proj) v r)
  (at level 1, left associativity, format "r  <| proj  :=  v |>") : record_scope.
#[global] Open Scope record_scope.
Arguments set_field {R T} proj {Setter} v r.
