(* ===== verification/FrameAllocator.v ===== *)
(** Physical frame allocator (src/memory/frame_allocator.rs).

    The allocator is the record [FrameAllocator] of the source: two bit arrays
    of [BITMAP_ENTRIES] 32-bit words and three counters.  Physical memory is a
    map from the byte address of a 64-bit word to its value, so that scrubbing
    ([scrub], volatile zero stores) is observable; every operation takes the
    allocator and the memory and returns both.  Arithmetic that the release
    build wraps is wrapped here too. *)

From Stdlib Require Import ZArith Lia.
From stdpp Require Import base list list_numbers numbers decidable tactics sets.
From S2P Require Import Prelude.

Module Frames.

(** * Data *)

Definition FRAME_SIZE : Z := 4096.
Definition MAX_PHYSICAL_MEMORY : Z := 32 * 1024 * 1024 * 1024.
Definition BITMAP_ENTRIES : Z := MAX_PHYSICAL_MEMORY / FRAME_SIZE / 32.

Record PhysRange := mkPhysRange { pr_start : Z; pr_end : Z }.

Record FrameAllocator := mkFrameAllocator {
  bitmap : list Z;
  zeroed : list Z;
  total_frames : Z;
  free_frames : Z;
  last_search : Z }.

(** Physical memory: the 64-bit word stored at a byte address. *)
Definition phys_mem := word_mem.

(** * Operations *)

Definition scrub (m : phys_mem) (phys bytes : Z) : phys_mem :=
  zero_words m phys (bytes / 8).

Definition set_range (bits : list Z) (start end_ : Z) (used : bool) : list Z :=
  let end_ := Z.min end_ MAX_PHYSICAL_MEMORY in
  let '(first, last) :=
    if used then (start / FRAME_SIZE, (end_ + FRAME_SIZE - 1) / FRAME_SIZE)
    else (wrapping_add 64 start (FRAME_SIZE - 1) / FRAME_SIZE, end_ / FRAME_SIZE) in
  foldl (fun b idx => if used then bit_set 32 b idx else bit_clear 32 b idx) bits
    (seqZ first (Z.min last (BITMAP_ENTRIES * 32) - first)).

Definition is_free (fa : FrameAllocator) (idx : Z) : bool :=
  negb (bit_get 32 (bitmap fa) idx).

Definition mark (fa : FrameAllocator) (m : phys_mem) (idx : Z) : FrameAllocator * phys_mem :=
  let m' := if negb (bit_get 32 (zeroed fa) idx)
            then scrub m (idx * FRAME_SIZE) FRAME_SIZE else m in
  (mkFrameAllocator (bit_set 32 (bitmap fa) idx) (bit_clear 32 (zeroed fa) idx)
     (total_frames fa) (free_frames fa) (last_search fa), m').

Definition set_free_frames (fa : FrameAllocator) (n : Z) : FrameAllocator :=
  mkFrameAllocator (bitmap fa) (zeroed fa) (total_frames fa) n (last_search fa).
Definition set_last_search (fa : FrameAllocator) (n : Z) : FrameAllocator :=
  mkFrameAllocator (bitmap fa) (zeroed fa) (total_frames fa) (free_frames fa) n.

Definition allocate_zeroed_frame (fa : FrameAllocator) (m : phys_mem)
  : option Z * FrameAllocator * phys_mem :=
  let total := total_frames fa in
  let start := last_search fa in
  match List.find (is_free fa) (map (fun i => (start + i) mod total) (seqZ 0 total)) with
  | Some idx =>
      let '(fa1, m1) := mark fa m idx in
      (Some (idx * FRAME_SIZE),
       set_last_search (set_free_frames fa1 (free_frames fa1 - 1)) (idx + 1), m1)
  | None => (None, fa, m)
  end.

(** The scan of [allocate_zeroed_contiguous]: the bitmap is only written once a
    run has been found, so the search is a function of the initial bitmap. *)
Fixpoint find_run (fa : FrameAllocator) (count : Z) (idxs : list Z)
  (run_start run_len : Z) : option Z :=
  match idxs with
  | [] => None
  | idx :: rest =>
      if is_free fa idx then
        let run_start := if run_len =? 0 then idx else run_start in
        let run_len := run_len + 1 in
        if run_len =? count then Some run_start
        else find_run fa count rest run_start run_len
      else find_run fa count rest run_start 0
  end.

Definition mark_all (fa : FrameAllocator) (m : phys_mem) (idxs : list Z)
  : FrameAllocator * phys_mem :=
  foldl (fun '(fa, m) i => mark fa m i) (fa, m) idxs.

Definition allocate_zeroed_contiguous (fa : FrameAllocator) (m : phys_mem) (count : Z)
  : option Z * FrameAllocator * phys_mem :=
  if count =? 0 then (None, fa, m)
  else match find_run fa count (seqZ 0 (total_frames fa)) 0 0 with
       | Some run_start =>
           let '(fa1, m1) := mark_all fa m (seqZ run_start count) in
           (Some (run_start * FRAME_SIZE),
            set_free_frames fa1 (free_frames fa1 - count), m1)
       | None => (None, fa, m)
       end.

Definition claim_range (fa : FrameAllocator) (m : phys_mem) (start count : Z)
  : bool * FrameAllocator * phys_mem :=
  if negb (start mod FRAME_SIZE =? 0) then (false, fa, m)
  else
    let first := start / FRAME_SIZE in
    if (total_frames fa <? first)
       || (saturating_sub (total_frames fa) first <? count)
       || negb (forallb (is_free fa) (seqZ first count))
    then (false, fa, m)
    else
      let '(fa1, m1) := mark_all fa m (seqZ first count) in
      (true, set_free_frames fa1 (free_frames fa1 - count), m1).

(** [None] is a failed assertion. *)
Definition deallocate_frame (fa : FrameAllocator) (m : phys_mem) (phys : Z)
  : option (FrameAllocator * phys_mem) :=
  if negb (phys mod FRAME_SIZE =? 0) then None
  else
    let idx := phys / FRAME_SIZE in
    if negb (idx <? total_frames fa) then None
    else if negb (is_free fa idx) then
      Some (mkFrameAllocator (bit_clear 32 (bitmap fa) idx) (bit_set 32 (zeroed fa) idx)
              (total_frames fa) (free_frames fa + 1) (last_search fa),
            scrub m phys FRAME_SIZE)
    else Some (fa, m).

Definition scrub_free_memory (fa : FrameAllocator) (m : phys_mem)
  : FrameAllocator * phys_mem :=
  foldl (fun '(fa, m) i =>
    if is_free fa i then
      (mkFrameAllocator (bitmap fa) (bit_set 32 (zeroed fa) i)
         (total_frames fa) (free_frames fa) (last_search fa),
       scrub m (i * FRAME_SIZE) FRAME_SIZE)
    else (fa, m)) (fa, m) (seqZ 0 (total_frames fa)).

Definition released_frames_are_zero (fa : FrameAllocator) (m : phys_mem) : bool :=
  forallb (fun i => forallb (fun n => m (i * FRAME_SIZE + 8 * n) =? 0)
                      (seqZ 0 (FRAME_SIZE / 8)))
    (List.filter (fun i => is_free fa i && bit_get 32 (zeroed fa) i)
       (seqZ 0 (total_frames fa))).

Definition free_count (fa : FrameAllocator) : Z := free_frames fa.

(** The placement loop of [init]: try [start], and past an overlapping reserved
    range otherwise.  [fuel] bounds the iterations (see [find_header_fuel]). *)
Definition reserved_frames : Z :=
  1 + (2 * (BITMAP_ENTRIES * 4) + FRAME_SIZE - 1) / FRAME_SIZE.
Definition reserved_bytes : Z := reserved_frames * FRAME_SIZE.

Inductive placement := Found (addr : Z) | NoRoom | OutOfFuel.

Fixpoint find_header (fuel : nat) (r : PhysRange) (reserved : list PhysRange)
  (start : Z) : placement :=
  match fuel with
  | O => OutOfFuel
  | S fuel' =>
      match checked_add 64 start reserved_bytes with
      | None => NoRoom
      | Some end_ =>
          if Z.min (pr_end r) MAX_PHYSICAL_MEMORY <? end_ then NoRoom
          else match List.find (fun x => (start <? pr_end x) && (pr_start x <? end_)) reserved with
               | Some overlap =>
                   match checked_add 64 (pr_end overlap) (FRAME_SIZE - 1) with
                   | None => NoRoom
                   | Some e => find_header fuel' r reserved (align_down e FRAME_SIZE)
                   end
               | None => Found start
               end
      end
  end.

Definition header_in (reserved : list PhysRange) (min_addr : Z) (r : PhysRange) : option Z :=
  match find_header (S (length reserved)) r reserved
          (align_down (wrapping_add 64 (Z.max (pr_start r) min_addr) (FRAME_SIZE - 1))
             FRAME_SIZE) with
  | Found a => Some a
  | _ => None
  end.

Definition top_frame (usable : list PhysRange) : Z :=
  Z.min (foldr Z.max 0 (map pr_end usable)) MAX_PHYSICAL_MEMORY / FRAME_SIZE.

(** [None] is the [expect] on the header placement. *)
Definition init (usable reserved : list PhysRange) (min_addr : Z) (m : phys_mem)
  : option (FrameAllocator * phys_mem * Z) :=
  let total := top_frame usable in
  match find_map (header_in reserved min_addr) usable with
  | None => None
  | Some header_addr =>
      let m1 := scrub m header_addr reserved_bytes in
      let bits := replicate (Z.to_nat BITMAP_ENTRIES) (2 ^ 32 - 1) in
      let bits := foldl (fun b r => set_range b (pr_start r) (pr_end r) false) bits usable in
      let bits := foldl (fun b r => set_range b (pr_start r) (pr_end r) true) bits reserved in
      let bits := set_range bits header_addr (header_addr + reserved_bytes) true in
      let fc := count_range (fun i => negb (bit_get 32 bits i)) 0 total in
      Some (mkFrameAllocator bits (replicate (Z.to_nat BITMAP_ENTRIES) 0) total fc 0,
            m1, header_addr)
  end.

(** * Specification vocabulary *)

Definition BITS : Z := 32 * BITMAP_ENTRIES.
Definition frame_zero (m : phys_mem) (i : Z) : Prop :=
  forall n, 0 <= n < 512 -> m (i * FRAME_SIZE + 8 * n) = 0.
(** Addresses of the words of frame [i]. *)
Definition in_frame (i a : Z) : Prop := i * FRAME_SIZE <= a < (i + 1) * FRAME_SIZE.

Record wf (fa : FrameAllocator) (m : phys_mem) : Prop := {
  wf_bitmap_len : length (bitmap fa) = Z.to_nat BITMAP_ENTRIES;
  wf_zeroed_len : length (zeroed fa) = Z.to_nat BITMAP_ENTRIES;
  wf_total : 0 <= total_frames fa <= BITS;
  wf_last : 0 <= last_search fa <= total_frames fa;
  wf_free : free_frames fa = count_range (is_free fa) 0 (total_frames fa);
  wf_used_dirty : forall i, 0 <= i < total_frames fa ->
    is_free fa i = false -> bit_get 32 (zeroed fa) i = false;
  wf_zero : forall i, 0 <= i < total_frames fa ->
    is_free fa i = true -> bit_get 32 (zeroed fa) i = true -> frame_zero m i }.

(** What clients do between calls: store to frames they own. *)
Inductive step : FrameAllocator * phys_mem -> FrameAllocator * phys_mem -> Prop :=
| step_alloc fa m r fa' m' :
    allocate_zeroed_frame fa m = (r, fa', m') -> step (fa, m) (fa', m')
| step_contiguous fa m count r fa' m' :
    0 <= count ->
    allocate_zeroed_contiguous fa m count = (r, fa', m') -> step (fa, m) (fa', m')
| step_claim fa m start count r fa' m' :
    0 <= start -> 0 <= count ->
    claim_range fa m start count = (r, fa', m') -> step (fa, m) (fa', m')
| step_dealloc fa m phys fa' m' :
    0 <= phys -> deallocate_frame fa m phys = Some (fa', m') -> step (fa, m) (fa', m')
| step_scrub fa m fa' m' : scrub_free_memory fa m = (fa', m') -> step (fa, m) (fa', m')
| step_client fa m i a v :
    0 <= i < total_frames fa -> is_free fa i = false -> in_frame i a ->
    step (fa, m) (fa, write_word m a v).

Inductive reachable (usable reserved : list PhysRange) (min_addr : Z)
  : FrameAllocator * phys_mem -> Prop :=
| reachable_init m0 fa m h :
    init usable reserved min_addr m0 = Some (fa, m, h) ->
    reachable usable reserved min_addr (fa, m)
| reachable_step s s' :
    reachable usable reserved min_addr s -> step s s' ->
    reachable usable reserved min_addr s'.

(** * Basic effects *)

Lemma BITMAP_ENTRIES_pos : 0 < BITMAP_ENTRIES.
Proof. reflexivity. Qed.
Lemma BITS_eq : BITS * FRAME_SIZE = MAX_PHYSICAL_MEMORY.
Proof. reflexivity. Qed.
#[local] Opaque BITMAP_ENTRIES.

Lemma in_bits (ws : list Z) i :
  length ws = Z.to_nat BITMAP_ENTRIES -> 0 <= i < BITS ->
  0 <= i < 32 * Z.of_nat (length ws).
Proof. intros -> Hi. pose proof BITMAP_ENTRIES_pos. unfold BITS in Hi. lia. Qed.

Lemma scrub_spec m phys bytes x :
  0 <= bytes ->
  scrub m phys bytes x =
    if (phys <=? x) && (x <? phys + 8 * (bytes / 8)) && ((x - phys) mod 8 =? 0)
    then 0 else m x.
Proof. intros Hb. apply zero_words_spec. apply Z.div_pos; lia. Qed.

Lemma scrub_frame_zero m i : frame_zero (scrub m (i * FRAME_SIZE) FRAME_SIZE) i.
Proof.
  intros n Hn. rewrite scrub_spec by done. unfold FRAME_SIZE in *.
  replace (i * 4096 + 8 * n - i * 4096) with (n * 8) by lia.
  rewrite Z.mod_mul by lia. change (4096 / 8) with 512.
  replace (_ <=? _) with true by lia. replace (_ <? _) with true by lia. done.
Qed.

Lemma scrub_frame_other m i a :
  ~ in_frame i a -> scrub m (i * FRAME_SIZE) FRAME_SIZE a = m a.
Proof.
  unfold in_frame. intros Ha. rewrite scrub_spec by done. unfold FRAME_SIZE in *.
  change (4096 / 8) with 512.
  destruct ((i * 4096 <=? a) && (a <? i * 4096 + 8 * 512)) eqn:E; [lia | done].
Qed.

#[local] Opaque scrub.

Lemma frame_zero_ext m m' i :
  (forall a, in_frame i a -> m' a = m a) -> frame_zero m i -> frame_zero m' i.
Proof.
  intros He Hz n Hn. rewrite He; [by apply Hz |]. unfold in_frame, FRAME_SIZE. lia.
Qed.

Lemma in_frame_inj i j a : in_frame i a -> in_frame j a -> i = j.
Proof. unfold in_frame, FRAME_SIZE. lia. Qed.

(** The effect of marking the frames of a set [S] used. *)
Record mark_effect (fa : FrameAllocator) (m : phys_mem) (fa' : FrameAllocator)
  (m' : phys_mem) (S : Z -> bool) : Prop := {
  me_bitmap_len : length (bitmap fa') = length (bitmap fa);
  me_zeroed_len : length (zeroed fa') = length (zeroed fa);
  me_total : total_frames fa' = total_frames fa;
  me_count : free_frames fa' = free_frames fa;
  me_last : last_search fa' = last_search fa;
  me_free : forall j, 0 <= j -> is_free fa' j = is_free fa j && negb (S j);
  me_zeroed : forall j, 0 <= j ->
    bit_get 32 (zeroed fa') j = bit_get 32 (zeroed fa) j && negb (S j);
  me_other : forall a, (forall j, S j = true -> ~ in_frame j a) -> m' a = m a;
  me_zero : forall j, 0 <= j -> S j = true ->
    (bit_get 32 (zeroed fa) j = true -> frame_zero m j) -> frame_zero m' j }.

Lemma mark_effect_one fa m idx :
  length (bitmap fa) = Z.to_nat BITMAP_ENTRIES ->
  length (zeroed fa) = Z.to_nat BITMAP_ENTRIES ->
  0 <= idx < BITS ->
  let '(fa', m') := mark fa m idx in mark_effect fa m fa' m' (fun j => j =? idx).
Proof.
  intros Hb Hz Hi. unfold mark. constructor; simpl; try done.
  - apply length_bit_set.
  - apply length_bit_clear.
  - intros j Hj. unfold is_free. simpl.
    rewrite bit_get_set by (try lia; by apply in_bits). by rewrite negb_orb, andb_comm.
  - intros j Hj. rewrite bit_get_clear by (try lia; by apply in_bits). apply andb_comm.
  - intros a Ha. case_if; [| done]. apply scrub_frame_other. apply Ha. lia.
  - intros j Hj Heq Hzero. apply Z.eqb_eq in Heq as ->.
    destruct (bit_get 32 (zeroed fa) idx) eqn:E; simpl; [by apply Hzero |].
    apply scrub_frame_zero.
Qed.

Lemma mark_effect_trans fa m fa1 m1 fa2 m2 S1 S2 :
  mark_effect fa m fa1 m1 S1 -> mark_effect fa1 m1 fa2 m2 S2 ->
  (forall j, S1 j = true -> S2 j = false) ->
  mark_effect fa m fa2 m2 (fun j => S1 j || S2 j).
Proof.
  intros E1 E2 Hdis. constructor.
  - by rewrite (me_bitmap_len _ _ _ _ _ E2), (me_bitmap_len _ _ _ _ _ E1).
  - by rewrite (me_zeroed_len _ _ _ _ _ E2), (me_zeroed_len _ _ _ _ _ E1).
  - by rewrite (me_total _ _ _ _ _ E2), (me_total _ _ _ _ _ E1).
  - by rewrite (me_count _ _ _ _ _ E2), (me_count _ _ _ _ _ E1).
  - by rewrite (me_last _ _ _ _ _ E2), (me_last _ _ _ _ _ E1).
  - intros j Hj. rewrite (me_free _ _ _ _ _ E2), (me_free _ _ _ _ _ E1) by done.
    by rewrite negb_orb, andb_assoc.
  - intros j Hj. rewrite (me_zeroed _ _ _ _ _ E2), (me_zeroed _ _ _ _ _ E1) by done.
    by rewrite negb_orb, andb_assoc.
  - intros a Ha. rewrite (me_other _ _ _ _ _ E2), (me_other _ _ _ _ _ E1); [done | |];
      intros j Hj; apply Ha; rewrite Hj; auto using orb_true_r.
  - intros j Hj HS Hz. destruct (S1 j) eqn:HS1.
    + eapply frame_zero_ext, (me_zero _ _ _ _ _ E1 j); [| done..].
      intros a Ha. apply (me_other _ _ _ _ _ E2). intros k Hk Hk'.
      pose proof (in_frame_inj _ _ _ Ha Hk') as ->. rewrite Hdis in Hk; done.
    + apply (me_zero _ _ _ _ _ E2 j Hj HS). intros Hb.
      rewrite (me_zeroed _ _ _ _ _ E1), andb_true_iff in Hb by done.
      eapply frame_zero_ext, Hz; [| tauto]. intros a Ha.
      apply (me_other _ _ _ _ _ E1). intros k Hk Hk'.
      pose proof (in_frame_inj _ _ _ Ha Hk') as ->. congruence.
Qed.

Lemma mark_effect_refl fa m : mark_effect fa m fa m (fun _ => false).
Proof. constructor; try done; intros j Hj; by rewrite andb_true_r. Qed.

Lemma mark_effect_ext fa m fa' m' S S' :
  (forall j, S j = S' j) -> mark_effect fa m fa' m' S -> mark_effect fa m fa' m' S'.
Proof.
  intros He [H1 H2 H3 H4 H5 H6 H7 H8 H9].
  constructor; try done.
  - intros j Hj. rewrite <- He. by apply H6.
  - intros j Hj. rewrite <- He. by apply H7.
  - intros a Ha. apply H8. intros j Hj. apply Ha. by rewrite <- He.
  - intros j Hj HS. apply H9; [done |]. by rewrite He.
Qed.

Definition interval (lo n j : Z) : bool := (lo <=? j) && (j <? lo + n).

Lemma mark_effect_all fa m lo n :
  length (bitmap fa) = Z.to_nat BITMAP_ENTRIES ->
  length (zeroed fa) = Z.to_nat BITMAP_ENTRIES ->
  0 <= n -> 0 <= lo -> lo + n <= BITS ->
  let '(fa', m') := mark_all fa m (seqZ lo n) in mark_effect fa m fa' m' (interval lo n).
Proof.
  intros Hb Hz Hn Hlo Hhi. unfold mark_all.
  apply (foldl_seqZ_ind _ (fun k '(fa', m') => mark_effect fa m fa' m' (interval lo k))).
  - done.
  - eapply mark_effect_ext, mark_effect_refl. intros j. unfold interval. lia.
  - intros k [fa1 m1] Hk E.
    pose proof (mark_effect_one fa1 m1 (lo + k)) as E1.
    destruct (mark fa1 m1 (lo + k)) as [fa2 m2].
    eapply mark_effect_ext, mark_effect_trans; [| exact E | apply E1 |].
    + intros j. unfold interval. simpl. lia.
    + by rewrite (me_bitmap_len _ _ _ _ _ E).
    + by rewrite (me_zeroed_len _ _ _ _ _ E).
    + lia.
    + unfold interval. intros j Hj. lia.
Qed.

(** Marking an interval of free frames, with the counter adjusted, keeps [wf]. *)
Lemma wf_mark_interval fa m fa' m' lo n last :
  wf fa m -> mark_effect fa m fa' m' (interval lo n) ->
  0 <= n -> 0 <= lo -> lo + n <= total_frames fa ->
  (forall i, lo <= i < lo + n -> is_free fa i = true) ->
  0 <= last <= total_frames fa ->
  wf (set_last_search (set_free_frames fa' (free_frames fa' - n)) last) m'.
Proof.
  intros W E Hn Hlo Hhi Hfree Hlast. constructor; simpl.
  - by rewrite (me_bitmap_len _ _ _ _ _ E), (wf_bitmap_len _ _ W).
  - by rewrite (me_zeroed_len _ _ _ _ _ E), (wf_zeroed_len _ _ W).
  - rewrite (me_total _ _ _ _ _ E). apply (wf_total _ _ W).
  - by rewrite (me_total _ _ _ _ _ E).
  - rewrite (me_count _ _ _ _ _ E), (me_total _ _ _ _ _ E), (wf_free _ _ W).
    assert (count_range (is_free fa) 0 (total_frames fa)
            = count_range (is_free fa') 0 (total_frames fa) + n) as Hc.
    { apply (count_range_remove _ _ _ lo); try done.
      intros i Hi. apply (me_free _ _ _ _ _ E). lia. }
    change (count_range (is_free (set_last_search _ _)) 0 (total_frames fa))
      with (count_range (is_free fa') 0 (total_frames fa)). lia.
  - rewrite (me_total _ _ _ _ _ E). intros i Hi Hf.
    rewrite (me_zeroed _ _ _ _ _ E) by lia.
    unfold is_free in Hf. simpl in Hf. fold (is_free fa' i) in Hf.
    rewrite (me_free _ _ _ _ _ E) in Hf by lia.
    destruct (interval lo n i); [apply andb_false_r |].
    rewrite andb_true_r in *. by apply (wf_used_dirty _ _ W).
  - rewrite (me_total _ _ _ _ _ E). intros i Hi Hf Hz.
    rewrite (me_zeroed _ _ _ _ _ E) in Hz by lia.
    unfold is_free in Hf. simpl in Hf. fold (is_free fa' i) in Hf.
    rewrite (me_free _ _ _ _ _ E) in Hf by lia.
    apply andb_true_iff in Hf as [Hf Hn']. apply andb_true_iff in Hz as [Hz _].
    eapply frame_zero_ext, (wf_zero _ _ W); try done.
    intros a Ha. apply (me_other _ _ _ _ _ E). intros j Hj Hj'.
    pose proof (in_frame_inj _ _ _ Ha Hj') as ->. by rewrite Hj in Hn'.
Qed.

(** * allocate_zeroed_frame *)

(** The rotated index list of the scan enumerates exactly the tracked frames. *)
Lemma rotated_scan start total i :
  0 <= start -> 0 < total ->
  i ∈ map (fun i => (start + i) mod total) (seqZ 0 total) <-> 0 <= i < total.
Proof.
  intros Hs Ht. rewrite list_elem_of_In, List.in_map_iff. split.
  - intros (x & <- & Hx). apply Z.mod_pos_bound. lia.
  - intros Hi. exists ((i - start) mod total). split.
    + rewrite Z.add_mod_idemp_r by lia. rewrite <- (Z.mod_small i total) at 2 by lia.
      f_equal. lia.
    + apply list_elem_of_In, elem_of_seqZ. pose proof (Z.mod_pos_bound (i - start) total). lia.
Qed.

(** Everything a successful single-frame allocation guarantees. *)
Definition allocated_frame (fa : FrameAllocator) (m : phys_mem) (pa : Z)
  (fa' : FrameAllocator) (m' : phys_mem) : Prop :=
  exists idx,
    pa = idx * FRAME_SIZE /\ 0 <= idx < total_frames fa
    /\ is_free fa idx = true
    /\ frame_zero m' idx
    /\ (forall j, 0 <= j -> is_free fa' j = is_free fa j && negb (j =? idx))
    /\ (forall a, ~ in_frame idx a -> m' a = m a)
    /\ free_frames fa' = free_frames fa - 1
    /\ total_frames fa' = total_frames fa.

Lemma allocate_zeroed_frame_inv fa m r fa' m' :
  wf fa m -> allocate_zeroed_frame fa m = (r, fa', m') ->
  wf fa' m'
  /\ match r with
     | Some pa => allocated_frame fa m pa fa' m'
     | None => fa' = fa /\ m' = m /\ forall i, 0 <= i < total_frames fa -> is_free fa i = false
     end.
Proof.
  intros W. unfold allocate_zeroed_frame. destruct (List.find _ _) as [idx |] eqn:Hfind.
  - apply List_find_Some in Hfind as [Hin Hfree].
    pose proof (wf_total _ _ W) as Htot. pose proof (wf_last _ _ W) as Hlast.
    assert (0 < total_frames fa).
    { destruct (decide (0 < total_frames fa)); [done |].
      rewrite seqZ_nil in Hin by lia. by apply not_elem_of_nil in Hin. }
    apply rotated_scan in Hin; [| lia | done].
    pose proof (mark_effect_one fa m idx (wf_bitmap_len _ _ W) (wf_zeroed_len _ _ W)) as E.
    destruct (mark fa m idx) as [fa1 m1]. specialize (E ltac:(lia)).
    intros [= <- <- <-]. split.
    + eapply wf_mark_interval with (lo := idx) (n := 1); eauto; try lia.
      * eapply mark_effect_ext; [| exact E]. intros j. unfold interval. simpl. lia.
      * intros i Hi. by replace i with idx by lia.
    + exists idx. simpl. repeat split; try done; try lia.
      * apply (me_zero _ _ _ _ _ E); [lia | lia |]. intros Hz.
        by apply (wf_zero _ _ W).
      * intros j Hj. by apply (me_free _ _ _ _ _ E).
      * intros a Ha. apply (me_other _ _ _ _ _ E). intros j Hj.
        by replace j with idx by lia.
      * rewrite (me_count _ _ _ _ _ E). lia.
      * apply (me_total _ _ _ _ _ E).
  - intros [= <- <- <-]. split; [done |]. split; [done |]. split; [done |].
    intros i Hi. eapply List_find_None; [exact Hfind |].
    pose proof (wf_last _ _ W). apply rotated_scan; lia.
Qed.

(** * allocate_zeroed_contiguous *)

Definition free_run (fa : FrameAllocator) (s count : Z) : Prop :=
  forall i, s <= i < s + count -> is_free fa i = true.

(** [s] does not start a free run of [count] frames. *)
Definition blocked (fa : FrameAllocator) (count s : Z) : Prop :=
  exists i, s <= i < s + count /\ is_free fa i = false.

Lemma find_run_spec fa count (n : nat) : forall k rs rl,
  0 < count -> 0 <= rl < count -> rl <= k -> (rl <> 0 -> rs = k - rl) ->
  free_run fa (k - rl) rl ->
  (forall s, 0 <= s < k - rl -> blocked fa count s) ->
  match find_run fa count (seqZ k (Z.of_nat n)) rs rl with
  | Some r => 0 <= r /\ r + count <= k + Z.of_nat n /\ free_run fa r count
              /\ forall s, 0 <= s < r -> blocked fa count s
  | None => forall s, 0 <= s -> s + count <= k + Z.of_nat n -> blocked fa count s
  end.
Proof.
  induction n as [| n IH]; intros k rs rl Hc Hrl Hk Hrs Hfree Hblk.
  - simpl. intros s Hs Hle. apply Hblk. lia.
  - rewrite seqZ_cons by lia.
    replace (Z.pred (Z.of_nat (S n))) with (Z.of_nat n) by lia. simpl.
    change (Z.succ k) with (k + 1).
    destruct (is_free fa k) eqn:Hfk.
    + assert (free_run fa (k - rl) (rl + 1)) as Hfree'.
      { intros i Hi. destruct (decide (i = k)) as [-> |]; [done |]. apply Hfree. lia. }
      assert (Hrs' : (if rl =? 0 then k else rs) = k - rl) by (case_if; lia).
      destruct (Z.eqb_spec (rl + 1) count) as [<- |].
      * rewrite Hrs'. repeat split; try lia; done.
      * specialize (IH (k + 1) (if rl =? 0 then k else rs) (rl + 1)).
        replace (k + 1 - (rl + 1)) with (k - rl) in IH by lia.
        replace (k + 1 + Z.of_nat n) with (k + Z.of_nat (S n)) in IH by lia.
        apply IH; try done; lia.
    + specialize (IH (k + 1) rs 0).
      replace (k + 1 + Z.of_nat n) with (k + Z.of_nat (S n)) in IH by lia.
      apply IH; try lia; [intros i Hi; lia |].
      intros s Hs. destruct (decide (s < k - rl)); [apply Hblk; lia |].
      exists k. split; [lia | done].
Qed.

(** What a multi-frame claim of [lo, lo + n) guarantees. *)
Definition claimed_run (fa : FrameAllocator) (m : phys_mem) (lo n : Z)
  (fa' : FrameAllocator) (m' : phys_mem) : Prop :=
  0 <= lo /\ lo + n <= total_frames fa /\ free_run fa lo n
  /\ (forall i, lo <= i < lo + n -> frame_zero m' i)
  /\ (forall j, 0 <= j -> is_free fa' j = is_free fa j && negb (interval lo n j))
  /\ (forall a, (forall j, lo <= j < lo + n -> ~ in_frame j a) -> m' a = m a)
  /\ free_frames fa' = free_frames fa - n
  /\ total_frames fa' = total_frames fa.

Lemma mark_all_claims fa m lo n fa1 m1 :
  wf fa m -> 0 <= n -> 0 <= lo -> lo + n <= total_frames fa -> free_run fa lo n ->
  mark_all fa m (seqZ lo n) = (fa1, m1) ->
  wf (set_free_frames fa1 (free_frames fa1 - n)) m1
  /\ claimed_run fa m lo n (set_free_frames fa1 (free_frames fa1 - n)) m1.
Proof.
  intros W Hn Hlo Hhi Hfree Hm. pose proof (wf_total _ _ W).
  pose proof (mark_effect_all fa m lo n (wf_bitmap_len _ _ W) (wf_zeroed_len _ _ W)
                Hn Hlo ltac:(lia)) as E.
  rewrite Hm in E. split.
  - pose proof (wf_mark_interval fa m fa1 m1 lo n (last_search fa) W E Hn Hlo Hhi Hfree
                  (wf_last _ _ W)) as W'.
    rewrite <- (me_last _ _ _ _ _ E) in W'. exact W'.
  - repeat split; simpl; try done.
    + intros i Hi. apply (me_zero _ _ _ _ _ E); [lia | unfold interval; lia |].
      intros Hz. apply (wf_zero _ _ W); [lia | by apply Hfree | done].
    + intros j Hj. by apply (me_free _ _ _ _ _ E).
    + intros a Ha. apply (me_other _ _ _ _ _ E). unfold interval. intros j Hj. apply Ha. lia.
    + by rewrite (me_count _ _ _ _ _ E).
    + apply (me_total _ _ _ _ _ E).
Qed.

Lemma allocate_zeroed_contiguous_inv fa m count r fa' m' :
  wf fa m -> 0 <= count -> allocate_zeroed_contiguous fa m count = (r, fa', m') ->
  wf fa' m'
  /\ match r with
     | Some pa => exists s, pa = s * FRAME_SIZE /\ claimed_run fa m s count fa' m'
                           /\ forall s', 0 <= s' < s -> blocked fa count s'
     | None => fa' = fa /\ m' = m
               /\ (0 < count -> forall s, 0 <= s -> s + count <= total_frames fa ->
                   blocked fa count s)
     end.
Proof.
  intros W Hc. unfold allocate_zeroed_contiguous.
  destruct (Z.eqb_spec count 0) as [-> |].
  - intros [= <- <- <-]. split; [done |]. repeat split; lia.
  - pose proof (wf_total _ _ W) as Ht.
    pose proof (find_run_spec fa count (Z.to_nat (total_frames fa)) 0 0 0) as Hspec.
    rewrite Z2Nat.id, Z.add_0_l in Hspec by lia.
    specialize (Hspec ltac:(lia) ltac:(lia) ltac:(lia) ltac:(lia) ltac:(intros i Hi; lia)
                  ltac:(intros s Hs; lia)).
    destruct (find_run _ _ _ _ _) as [s |].
    + destruct Hspec as (H0 & Hle & Hfree & Hblk).
      destruct (mark_all fa m (seqZ s count)) as [fa1 m1] eqn:Hm.
      intros [= <- <- <-].
      destruct (mark_all_claims fa m s count fa1 m1) as [W' C]; try done; try lia.
      split; [done |]. exists s. done.
    + intros [= <- <- <-]. split; [done |]. repeat split; done.
Qed.

(** * claim_range *)

Lemma claim_range_inv fa m start count r fa' m' :
  wf fa m -> 0 <= start -> 0 <= count -> claim_range fa m start count = (r, fa', m') ->
  wf fa' m'
  /\ (r = true <-> start mod FRAME_SIZE = 0
                   /\ start / FRAME_SIZE + count <= total_frames fa
                   /\ free_run fa (start / FRAME_SIZE) count)
  /\ (if r then claimed_run fa m (start / FRAME_SIZE) count fa' m'
      else fa' = fa /\ m' = m).
Proof.
  intros W Hs Hc. unfold claim_range. pose proof (wf_total _ _ W) as Ht.
  assert (0 <= start / FRAME_SIZE) by (apply Z.div_pos; [done | reflexivity]).
  destruct (Z.eqb_spec (start mod FRAME_SIZE) 0); simpl.
  2: { intros [= <- <- <-]. split; [done |]. split; [| done]. split; [done |]. tauto. }
  set (first := start / FRAME_SIZE) in *.
  destruct ((total_frames fa <? first) || (saturating_sub (total_frames fa) first <? count)
            || negb (forallb (is_free fa) (seqZ first count))) eqn:E.
  - intros [= <- <- <-]. split; [done |]. split; [| done]. split; [done |].
    intros (_ & Hle & Hfree). exfalso. apply forallb_seqZ in Hfree.
    rewrite Hfree in E. unfold saturating_sub in E. lia.
  - apply orb_false_iff in E as [E Ef]. apply negb_false_iff in Ef.
    pose proof (proj1 (forallb_seqZ _ _ _) Ef) as Hfree.
    assert (first + count <= total_frames fa) by (unfold saturating_sub in E; lia).
    destruct (mark_all fa m (seqZ first count)) as [fa1 m1] eqn:Hm.
    intros [= <- <- <-].
    destruct (mark_all_claims fa m first count fa1 m1) as [W' C]; try done; try lia.
Qed.

(** * deallocate_frame *)

Definition released_frame (fa : FrameAllocator) (m : phys_mem) (idx : Z)
  (fa' : FrameAllocator) (m' : phys_mem) : Prop :=
  frame_zero m' idx
  /\ (forall j, 0 <= j -> is_free fa' j = is_free fa j || (j =? idx))
  /\ (forall a, ~ in_frame idx a -> m' a = m a)
  /\ free_frames fa' = free_frames fa + 1
  /\ total_frames fa' = total_frames fa.

Lemma deallocate_release fa m idx :
  wf fa m -> 0 <= idx < total_frames fa -> is_free fa idx = false ->
  let fa' := mkFrameAllocator (bit_clear 32 (bitmap fa) idx) (bit_set 32 (zeroed fa) idx)
               (total_frames fa) (free_frames fa + 1) (last_search fa) in
  let m' := scrub m (idx * FRAME_SIZE) FRAME_SIZE in
  wf fa' m' /\ released_frame fa m idx fa' m'.
Proof.
  intros W Hi Hu fa' m'. pose proof (wf_total _ _ W) as Ht.
  assert (0 <= idx < BITS) as Hb by lia.
  assert (forall j, 0 <= j -> is_free fa' j = is_free fa j || (j =? idx)) as Hfree.
  { intros j Hj. unfold is_free, fa'. simpl.
    rewrite bit_get_clear by first [lia | apply in_bits; [apply (wf_bitmap_len _ _ W) | done]].
    rewrite negb_andb, negb_involutive. apply orb_comm. }
  assert (forall j, 0 <= j ->
    bit_get 32 (zeroed fa') j = (j =? idx) || bit_get 32 (zeroed fa) j) as Hz.
  { intros j Hj. unfold fa'. simpl.
    rewrite bit_get_set by first [lia | apply in_bits; [apply (wf_zeroed_len _ _ W) | done]].
    done. }
  split.
  - constructor; simpl.
    + rewrite length_bit_clear. apply (wf_bitmap_len _ _ W).
    + rewrite length_bit_set. apply (wf_zeroed_len _ _ W).
    + done.
    + apply (wf_last _ _ W).
    + rewrite (wf_free _ _ W). symmetry. apply (count_range_flip (is_free fa') _ _ idx); try lia.
      * rewrite Hfree by lia. by rewrite Z.eqb_refl, orb_true_r.
      * done.
      * intros j Hj Hne. rewrite Hfree by lia. replace (j =? idx) with false by lia. apply orb_false_r.
    + intros j Hj. rewrite Hfree by lia. intros [Hf Hne]%orb_false_iff.
      fold fa'. change (bit_set 32 (zeroed fa) idx) with (zeroed fa').
      rewrite Hz, Hne by lia. by apply (wf_used_dirty _ _ W).
    + intros j Hj _. change (bit_set 32 (zeroed fa) idx) with (zeroed fa').
      rewrite Hz by lia. intros Hzj. destruct (decide (j = idx)) as [-> |].
      * apply scrub_frame_zero.
      * assert (bit_get 32 (zeroed fa) j = true) as Hzj' by (rewrite (proj2 (Z.eqb_neq j idx)) in Hzj; done).
        eapply frame_zero_ext, (wf_zero _ _ W j); try done.
        -- intros a Ha. apply scrub_frame_other. intros Ha'.
           by pose proof (in_frame_inj _ _ _ Ha Ha').
        -- destruct (is_free fa j) eqn:E; [done |].
           rewrite (wf_used_dirty _ _ W) in Hzj' by done. done.
  - repeat split; try done.
    + apply scrub_frame_zero.
    + intros a. apply scrub_frame_other.
Qed.

Lemma deallocate_frame_inv fa m phys :
  wf fa m -> 0 <= phys ->
  match deallocate_frame fa m phys with
  | None => phys mod FRAME_SIZE <> 0 \/ total_frames fa <= phys / FRAME_SIZE
  | Some (fa', m') =>
      phys mod FRAME_SIZE = 0 /\ phys / FRAME_SIZE < total_frames fa /\ wf fa' m'
      /\ (if is_free fa (phys / FRAME_SIZE) then fa' = fa /\ m' = m
          else released_frame fa m (phys / FRAME_SIZE) fa' m')
  end.
Proof.
  intros W Hp. unfold deallocate_frame.
  assert (0 <= phys / FRAME_SIZE) by (apply Z.div_pos; [done | reflexivity]).
  destruct (Z.eqb_spec (phys mod FRAME_SIZE) 0) as [Hm |]; simpl; [| by left].
  destruct (Z.ltb_spec (phys / FRAME_SIZE) (total_frames fa)); simpl; [| by right].
  destruct (is_free fa (phys / FRAME_SIZE)) eqn:Hf; simpl.
  - done.
  - destruct (deallocate_release fa m (phys / FRAME_SIZE) W ltac:(lia) Hf) as [W' R].
    assert (phys / FRAME_SIZE * FRAME_SIZE = phys) as Heq.
    { pose proof (Z.div_mod phys FRAME_SIZE ltac:(done)). lia. }
    rewrite Heq in W', R.
    split; [done |]. split; [done |]. split; [exact W' | exact R].
Qed.

(** * scrub_free_memory *)

Lemma scrub_free_memory_inv fa m fa' m' :
  wf fa m -> scrub_free_memory fa m = (fa', m') ->
  wf fa' m' /\ bitmap fa' = bitmap fa /\ total_frames fa' = total_frames fa
  /\ (forall i, 0 <= i < total_frames fa -> is_free fa i = true -> frame_zero m' i)
  /\ (forall a, (forall i, 0 <= i < total_frames fa -> is_free fa i = true -> ~ in_frame i a) ->
        m' a = m a).
Proof.
  intros W Hs. pose proof (wf_total _ _ W) as Ht.
  pose (P := fun k (s : FrameAllocator * phys_mem) =>
    wf s.1 s.2 /\ bitmap s.1 = bitmap fa /\ total_frames s.1 = total_frames fa
    /\ (forall i, 0 <= i < k -> is_free fa i = true -> frame_zero s.2 i)
    /\ (forall a, (forall i, 0 <= i < total_frames fa -> is_free fa i = true -> ~ in_frame i a) ->
        s.2 a = m a)).
  assert (P (total_frames fa) (fa', m')) as H; [| exact H].
  rewrite <- Hs. unfold scrub_free_memory. apply (foldl_seqZ_ind _ P); [lia | |].
  - unfold P. simpl. split; [done |]. split; [done |]. split; [done |].
    split; [intros i Hi; lia | done].
  - unfold P. intros k [fa1 m1] Hk (W1 & Hb & Htot & Hz & Ho). simpl in *.
    assert (forall i, is_free fa1 i = is_free fa i) as Hfr
      by (intros i; unfold is_free; by rewrite Hb).
    rewrite Z.add_0_l.
    destruct (is_free fa1 k) eqn:Hf.
    2: { split; [done |]. split; [done |]. split; [done |]. split; [| done].
         intros i Hi Hfi. apply Hz; [| done].
         destruct (decide (i = k)) as [-> |]; [rewrite <- Hfr in Hfi; congruence | lia]. }
    split; [| split; [done | split; [done | split]]]; simpl.
    + assert (forall j, 0 <= j -> bit_get 32 (bit_set 32 (zeroed fa1) k) j
                = (j =? k) || bit_get 32 (zeroed fa1) j) as Hset.
      { intros j Hj. apply bit_get_set; [lia | | lia].
        apply in_bits; [apply (wf_zeroed_len _ _ W1) | lia]. }
      constructor; simpl; try apply W1.
      * rewrite length_bit_set. apply W1.
      * intros i Hi Hfi. rewrite Hset by lia. unfold is_free in Hfi. simpl in Hfi.
        fold (is_free fa1 i) in Hfi.
        destruct (Z.eqb_spec i k) as [-> |]; [congruence |]. by apply (wf_used_dirty _ _ W1).
      * intros i Hi Hfi. rewrite Hset by lia. intros Hzi.
        destruct (decide (i = k)) as [-> | Hne]; [apply scrub_frame_zero |].
        rewrite (proj2 (Z.eqb_neq i k) Hne) in Hzi.
        eapply frame_zero_ext, (wf_zero _ _ W1 i); [| done | done | done].
        intros a Ha. apply scrub_frame_other. intros Ha'.
        by pose proof (in_frame_inj _ _ _ Ha Ha').
    + intros i Hi Hfi. destruct (decide (i = k)) as [-> |]; [apply scrub_frame_zero |].
      eapply frame_zero_ext, (Hz i); [| lia | done].
      intros a Ha. apply scrub_frame_other. intros Ha'.
      by pose proof (in_frame_inj _ _ _ Ha Ha').
    + intros a Ha. rewrite scrub_frame_other; [by apply Ho |]. apply Ha; [lia |].
      by rewrite <- Hfr.
Qed.

Lemma wf_client_write fa m i a v :
  wf fa m -> is_free fa i = false -> in_frame i a -> wf fa (write_word m a v).
Proof.
  intros W Hu Ha. constructor; try apply W. intros j Hj Hf Hz.
  eapply frame_zero_ext, (wf_zero _ _ W); try done. intros b Hb. unfold write_word.
  destruct (Z.eqb_spec b a) as [-> |]; [| done].
  pose proof (in_frame_inj _ _ _ Ha Hb). congruence.
Qed.

Lemma wf_step s s' : wf s.1 s.2 -> step s s' -> wf s'.1 s'.2.
Proof.
  intros W Hs. destruct Hs as [ | | | fa m phys fa' m' Hp Hd | | ]; simpl in *.
  - by eapply allocate_zeroed_frame_inv in H as [? _].
  - by eapply allocate_zeroed_contiguous_inv in H0 as [? _].
  - by eapply claim_range_inv in H1 as [? _].
  - pose proof (deallocate_frame_inv fa m phys W Hp) as Hi. rewrite Hd in Hi. tauto.
  - by eapply scrub_free_memory_inv in H as [? _].
  - by eapply wf_client_write.
Qed.

(** * init *)

Definition wf_range (r : PhysRange) : Prop :=
  0 <= pr_start r < pr_end r /\ pr_end r < 2 ^ 64 - FRAME_SIZE.
(** Frame [i] lies entirely inside [r] / has a byte in [r]. *)
Definition inside (r : PhysRange) (i : Z) : Prop :=
  pr_start r <= i * FRAME_SIZE /\ (i + 1) * FRAME_SIZE <= pr_end r.
Definition overlaps (r : PhysRange) (i : Z) : Prop :=
  pr_start r < (i + 1) * FRAME_SIZE /\ i * FRAME_SIZE < pr_end r.

#[local] Instance inside_dec r i : Decision (inside r i).
Proof. unfold inside. apply _. Defined.

Lemma foldl_bits_spec (used : bool) first n bits :
  length bits = Z.to_nat BITMAP_ENTRIES -> 0 <= first -> first + n <= BITS ->
  let bits' := foldl (fun b idx => if used then bit_set 32 b idx else bit_clear 32 b idx)
                 bits (seqZ first n) in
  length bits' = Z.to_nat BITMAP_ENTRIES
  /\ forall j, 0 <= j ->
     bit_get 32 bits' j = if interval first n j then used else bit_get 32 bits j.
Proof.
  intros Hl Hf Hn. simpl. destruct (decide (n <= 0)).
  { rewrite seqZ_nil by lia. split; [done |]. intros j Hj. simpl.
    replace (interval first n j) with false by (unfold interval; lia). done. }
  apply (foldl_seqZ_ind _ (fun k b => length b = Z.to_nat BITMAP_ENTRIES
    /\ forall j, 0 <= j -> bit_get 32 b j = if interval first k j then used else bit_get 32 bits j)).
  - lia.
  - split; [done |]. intros j Hj.
    replace (interval first 0 j) with false by (unfold interval; lia). done.
  - intros k b Hk [Hb Hget].
    assert (0 <= first + k < 32 * Z.of_nat (length b)) as Hin by (apply in_bits; [done | lia]).
    split; [case_if; autorewrite with rustb; done |].
    intros j Hj.
    replace (interval first (k + 1) j) with ((j =? first + k) || interval first k j)
      by (unfold interval; lia).
    destruct used; [rewrite bit_get_set | rewrite bit_get_clear]; try lia;
      rewrite Hget by done; destruct (Z.eqb_spec j (first + k)); done.
Qed.

Lemma set_range_free_spec bits r :
  length bits = Z.to_nat BITMAP_ENTRIES -> wf_range r ->
  let bits' := set_range bits (pr_start r) (pr_end r) false in
  length bits' = Z.to_nat BITMAP_ENTRIES
  /\ forall j, 0 <= j < BITS ->
     bit_get 32 bits' j = true <-> bit_get 32 bits j = true /\ ~ inside r j.
Proof.
  intros Hl [H1 H2] bits'. unfold bits', set_range. pose proof BITS_eq as HB.
  replace (BITMAP_ENTRIES * 32) with BITS by (unfold BITS; lia).
  unfold wrapping_add. rewrite Z.mod_small by (unfold FRAME_SIZE in *; lia).
  set (e := Z.min (pr_end r) MAX_PHYSICAL_MEMORY).
  set (first := (pr_start r + (FRAME_SIZE - 1)) / FRAME_SIZE).
  set (last := e / FRAME_SIZE).
  unfold FRAME_SIZE in *.
  assert (first * 4096 - 4096 < pr_start r <= first * 4096) by (subst first; zdiv).
  assert (last * 4096 <= e < last * 4096 + 4096) by (subst last; clearbody e; zdiv).
  destruct (foldl_bits_spec false first (Z.min last BITS - first) bits Hl) as [Hl' Hget]; [lia.. |].
  split; [exact Hl' |]. intros j Hj. rewrite Hget by lia.
  unfold inside, interval, FRAME_SIZE. subst e.
  destruct ((first <=? j) && (j <? first + (Z.min last BITS - first))) eqn:E.
  - split; [done |]. intros [_ Hn]. exfalso. apply Hn. lia.
  - split; [intros Hb; split; [done | lia] | tauto].
Qed.

Lemma set_range_used_spec bits r :
  length bits = Z.to_nat BITMAP_ENTRIES -> wf_range r ->
  let bits' := set_range bits (pr_start r) (pr_end r) true in
  length bits' = Z.to_nat BITMAP_ENTRIES
  /\ forall j, 0 <= j < BITS ->
     bit_get 32 bits' j = true <-> bit_get 32 bits j = true \/ overlaps r j.
Proof.
  intros Hl [H1 H2] bits'. unfold bits', set_range. pose proof BITS_eq as HB.
  replace (BITMAP_ENTRIES * 32) with BITS by (unfold BITS; lia).
  set (e := Z.min (pr_end r) MAX_PHYSICAL_MEMORY).
  set (first := pr_start r / FRAME_SIZE).
  set (last := (e + FRAME_SIZE - 1) / FRAME_SIZE).
  unfold FRAME_SIZE in *.
  assert (first * 4096 <= pr_start r < first * 4096 + 4096) by (subst first; zdiv).
  assert (last * 4096 - 4096 < e <= last * 4096) by (subst last; clearbody e; zdiv).
  destruct (foldl_bits_spec true first (Z.min last BITS - first) bits Hl) as [Hl' Hget]; [lia.. |].
  split; [exact Hl' |]. intros j Hj. rewrite Hget by lia.
  unfold overlaps, interval, FRAME_SIZE. subst e.
  destruct ((first <=? j) && (j <? first + (Z.min last BITS - first))) eqn:E.
  - split; [intros _; right; lia | done].
  - split; [by left |]. intros [Hb | Ho]; [done | lia].
Qed.

(** ** Placement of the allocator's own metadata *)

Definition fits (reserved : list PhysRange) (r : PhysRange) (a : Z) : Prop :=
  a + reserved_bytes <= Z.min (pr_end r) MAX_PHYSICAL_MEMORY
  /\ forall x, x ∈ reserved -> ~ (a < pr_end x /\ pr_start x < a + reserved_bytes).

(** Reserved ranges the search may still have to step over. *)
Definition ahead (reserved : list PhysRange) (start : Z) : nat :=
  length (List.filter (fun x => start <? pr_end x) reserved).

Lemma ahead_le reserved s s' : s <= s' -> (ahead reserved s' <= ahead reserved s)%nat.
Proof.
  intros Hs. unfold ahead. induction reserved as [| x l IH]; simpl; [done |].
  destruct (Z.ltb_spec s (pr_end x)), (Z.ltb_spec s' (pr_end x)); simpl; lia.
Qed.

Lemma ahead_lt reserved s s' x :
  x ∈ reserved -> s < pr_end x <= s' -> (ahead reserved s' < ahead reserved s)%nat.
Proof.
  intros Hx Hs. unfold ahead. induction reserved as [| y l IH]; simpl.
  - by apply not_elem_of_nil in Hx.
  - apply elem_of_cons in Hx as [<- | Hx].
    + pose proof (ahead_le l s s' ltac:(lia)) as Hle. unfold ahead in Hle.
      destruct (Z.ltb_spec s (pr_end x)), (Z.ltb_spec s' (pr_end x)); simpl; lia.
    + specialize (IH Hx).
      destruct (Z.ltb_spec s (pr_end y)), (Z.ltb_spec s' (pr_end y)); simpl; lia.
Qed.

Lemma align_up_spec e :
  0 <= e -> e + (FRAME_SIZE - 1) < 2 ^ 64 ->
  let a := align_down (e + (FRAME_SIZE - 1)) FRAME_SIZE in
  a mod FRAME_SIZE = 0 /\ e <= a < e + FRAME_SIZE.
Proof.
  intros He Hb a. unfold FRAME_SIZE in *. change 4096 with (2 ^ 12) in *.
  pose proof (align_down_range (e + (2 ^ 12 - 1)) 12 ltac:(lia) ltac:(lia)) as (H1 & H2 & H3).
  subst a. split; [done |]. lia.
Qed.

Lemma aligned_lt a b e :
  a mod FRAME_SIZE = 0 -> b mod FRAME_SIZE = 0 -> a < b -> b < e + FRAME_SIZE -> a < e.
Proof. unfold FRAME_SIZE. zdiv. Qed.

Lemma find_header_spec reserved r fuel : forall start,
  Forall wf_range reserved -> 0 <= start -> start mod FRAME_SIZE = 0 ->
  match find_header fuel r reserved start with
  | Found a => start <= a /\ a mod FRAME_SIZE = 0 /\ fits reserved r a
               /\ forall a', start <= a' < a -> a' mod FRAME_SIZE = 0 -> ~ fits reserved r a'
  | NoRoom => forall a', start <= a' -> a' mod FRAME_SIZE = 0 -> ~ fits reserved r a'
  | OutOfFuel => (fuel <= ahead reserved start)%nat
  end.
Proof.
  induction fuel as [| fuel IH]; intros start Hwf Hs Hal; simpl; [lia |].
  destruct (checked_add 64 start reserved_bytes) as [end_ |] eqn:Hadd.
  2: { intros a' Ha' _ [Hfit _]. unfold checked_add in Hadd. case_if; [done |].
       assert (MAX_PHYSICAL_MEMORY < 2 ^ 64) by done. lia. }
  apply checked_add_Some in Hadd as [-> Hlt].
  destruct (Z.ltb_spec (Z.min (pr_end r) MAX_PHYSICAL_MEMORY) (start + reserved_bytes)).
  { intros a' Ha' _ [Hfit _]. lia. }
  destruct (List.find _ reserved) as [x |] eqn:Hfind.
  - apply List_find_Some in Hfind as [Hx Hov].
    pose proof (Forall_elem _ _ _ Hwf Hx) as [Hx1 Hx2].
    destruct (checked_add 64 (pr_end x) (FRAME_SIZE - 1)) as [e |] eqn:He.
    2: { exfalso. unfold checked_add in He. case_if; [done | lia]. }
    apply checked_add_Some in He as [-> He].
    destruct (align_up_spec (pr_end x) ltac:(lia) He) as [Ha1 Ha2].
    set (start' := align_down (pr_end x + (FRAME_SIZE - 1)) FRAME_SIZE) in *.
    assert (forall a', start <= a' < start' -> a' mod FRAME_SIZE = 0 ->
              ~ fits reserved r a') as Hskip.
    { intros a' Ha' Hal' [_ Hno]. apply (Hno x Hx).
      pose proof (aligned_lt a' start' (pr_end x) Hal' Ha1 ltac:(lia) ltac:(lia)). lia. }
    specialize (IH start' Hwf ltac:(lia) Ha1).
    pose proof (ahead_lt reserved start start' x Hx ltac:(lia)).
    destruct (find_header fuel r reserved start').
    + destruct IH as (H1 & H2 & H3 & H4). repeat split; try done; try lia; try apply H3.
      intros a' Ha'. destruct (decide (a' < start')); [apply Hskip | apply H4]; lia.
    + intros a' Ha'. destruct (decide (a' < start')); [apply Hskip | apply IH]; lia.
    + lia.
  - split; [lia |]. split; [done |]. split; [| intros a' Ha'; lia].
    split; [done |]. intros x Hx [Hx1 Hx2].
    pose proof (proj1 (List_find_None _ _) Hfind x Hx). simpl in *. lia.
Qed.

Lemma ahead_length reserved s : (ahead reserved s <= length reserved)%nat.
Proof. apply List.filter_length_le. Qed.

(** The bound chosen for the placement loop is never reached. *)
Lemma find_header_fuel reserved r start :
  Forall wf_range reserved -> 0 <= start -> start mod FRAME_SIZE = 0 ->
  find_header (S (length reserved)) r reserved start <> OutOfFuel.
Proof.
  intros Hwf Hs Hal He.
  pose proof (find_header_spec reserved r (S (length reserved)) start Hwf Hs Hal) as H.
  rewrite He in H. pose proof (ahead_length reserved start). lia.
Qed.

Lemma header_in_spec reserved min_addr r :
  Forall wf_range reserved -> wf_range r -> 0 <= min_addr < 2 ^ 64 - FRAME_SIZE ->
  match header_in reserved min_addr r with
  | Some h => pr_start r <= h /\ min_addr <= h /\ h mod FRAME_SIZE = 0 /\ fits reserved r h
  | None => forall a, pr_start r <= a -> min_addr <= a -> a mod FRAME_SIZE = 0 ->
              ~ fits reserved r a
  end.
Proof.
  intros Hwf [Hr1 Hr2] Hm. unfold header_in, wrapping_add.
  rewrite Z.mod_small by (unfold FRAME_SIZE in *; lia).
  destruct (align_up_spec (Z.max (pr_start r) min_addr)) as [Ha1 Ha2];
    [lia | unfold FRAME_SIZE in *; lia |].
  set (start := align_down _ _) in *.
  pose proof (find_header_spec reserved r (S (length reserved)) start Hwf ltac:(lia) Ha1) as H.
  pose proof (find_header_fuel reserved r start Hwf ltac:(lia) Ha1) as Hfuel.
  destruct (find_header _ _ _ _); [| | done].
  - destruct H as (H1 & H2 & H3 & _). repeat split; try done; try lia; apply H3.
  - intros a H1 H2 H3. apply H; [| done].
    destruct (decide (start <= a)); [done |]. exfalso.
    pose proof (aligned_lt a start (Z.max (pr_start r) min_addr) H3 Ha1). lia.
Qed.

(** ** The initial bitmap *)

Lemma foldl_free_spec usable : forall bits,
  length bits = Z.to_nat BITMAP_ENTRIES -> Forall wf_range usable ->
  let bits' := foldl (fun b r => set_range b (pr_start r) (pr_end r) false) bits usable in
  length bits' = Z.to_nat BITMAP_ENTRIES
  /\ forall j, 0 <= j < BITS -> bit_get 32 bits' j = true <->
       bit_get 32 bits j = true /\ forall r, r ∈ usable -> ~ inside r j.
Proof.
  induction usable as [| r l IH]; intros bits Hl Hwf; simpl.
  - split; [done |]. intros j Hj. split; [| tauto].
    intros H. split; [done |]. intros r Hr. by apply not_elem_of_nil in Hr.
  - inversion Hwf; subst. destruct (set_range_free_spec bits r Hl ltac:(done)) as [Hl1 Hg1].
    destruct (IH _ Hl1 ltac:(done)) as [Hl2 Hg2]. split; [exact Hl2 |].
    intros j Hj. rewrite Hg2, Hg1 by done. set_solver.
Qed.

Lemma foldl_used_spec reserved : forall bits,
  length bits = Z.to_nat BITMAP_ENTRIES -> Forall wf_range reserved ->
  let bits' := foldl (fun b r => set_range b (pr_start r) (pr_end r) true) bits reserved in
  length bits' = Z.to_nat BITMAP_ENTRIES
  /\ forall j, 0 <= j < BITS -> bit_get 32 bits' j = true <->
       bit_get 32 bits j = true \/ exists r, r ∈ reserved /\ overlaps r j.
Proof.
  induction reserved as [| r l IH]; intros bits Hl Hwf; simpl.
  - split; [done |]. intros j Hj. set_solver.
  - inversion Hwf; subst. destruct (set_range_used_spec bits r Hl ltac:(done)) as [Hl1 Hg1].
    destruct (IH _ Hl1 ltac:(done)) as [Hl2 Hg2]. split; [exact Hl2 |].
    intros j Hj. rewrite Hg2, Hg1 by done. set_solver.
Qed.

(** The metadata reservation is itself a well-formed range. *)
Lemma fits_wf_range reserved r h :
  0 <= h -> fits reserved r h -> wf_range (mkPhysRange h (h + reserved_bytes)).
Proof.
  intros Hh [Hle _]. unfold wf_range. simpl.
  assert (0 < reserved_bytes) by reflexivity.
  assert (MAX_PHYSICAL_MEMORY < 2 ^ 64 - FRAME_SIZE) by reflexivity. lia.
Qed.

Lemma top_frame_range usable : 0 <= top_frame usable <= BITS.
Proof.
  unfold top_frame. pose proof BITS_eq as HB.
  assert (forall l, 0 <= foldr Z.max 0 (map pr_end l)) as Hnn
    by (intros l; induction l; simpl; lia).
  specialize (Hnn usable). assert (0 < MAX_PHYSICAL_MEMORY) by reflexivity.
  split; [apply Z.div_pos; [lia | reflexivity] |].
  apply Z.div_le_upper_bound; [reflexivity |]. unfold FRAME_SIZE in *. lia.
Qed.

Definition initially_free (usable reserved : list PhysRange) (h i : Z) : Prop :=
  (exists r, r ∈ usable /\ inside r i)
  /\ (forall r, r ∈ reserved -> ~ overlaps r i)
  /\ ~ overlaps (mkPhysRange h (h + reserved_bytes)) i.

Lemma init_spec usable reserved min_addr m :
  Forall wf_range usable -> Forall wf_range reserved ->
  0 <= min_addr < 2 ^ 64 - FRAME_SIZE ->
  match init usable reserved min_addr m with
  | None => forall r a, r ∈ usable -> pr_start r <= a -> min_addr <= a ->
              a mod FRAME_SIZE = 0 -> ~ fits reserved r a
  | Some (fa, m', h) =>
      wf fa m' /\ total_frames fa = top_frame usable
      /\ (exists r, r ∈ usable /\ pr_start r <= h /\ min_addr <= h
            /\ h mod FRAME_SIZE = 0 /\ fits reserved r h)
      /\ forall i, 0 <= i < total_frames fa ->
          is_free fa i = true <-> initially_free usable reserved h i
  end.
Proof.
  intros Hu Hr Hm. unfold init.
  destruct (find_map (header_in reserved min_addr) usable) as [h |] eqn:Hfm.
  2: { intros r a Hin. pose proof (header_in_spec reserved min_addr r Hr
         (Forall_elem _ _ _ Hu Hin) Hm) as Hs.
       rewrite (proj1 (find_map_None _ _) Hfm r Hin) in Hs. apply Hs. }
  apply find_map_Some in Hfm as (r & Hin & Hh).
  pose proof (Forall_elem _ _ _ Hu Hin) as Hwr.
  pose proof (header_in_spec reserved min_addr r Hr Hwr Hm) as Hs.
  rewrite Hh in Hs. destruct Hs as (H1 & H2 & H3 & H4).
  set (ones := replicate (Z.to_nat BITMAP_ENTRIES) (2 ^ 32 - 1)).
  assert (length ones = Z.to_nat BITMAP_ENTRIES) as Hl0 by apply length_replicate.
  destruct (foldl_free_spec usable ones Hl0 Hu) as [Hl1 Hg1].
  set (b1 := foldl _ ones usable) in *.
  destruct (foldl_used_spec reserved b1 Hl1 Hr) as [Hl2 Hg2].
  set (b2 := foldl _ b1 reserved) in *.
  destruct (set_range_used_spec b2 (mkPhysRange h (h + reserved_bytes)) Hl2) as [Hl3 Hg3].
  { apply (fits_wf_range reserved r); [destruct Hwr; lia | done]. }
  simpl in Hl3, Hg3. set (b3 := set_range b2 _ _ _) in *.
  pose proof (top_frame_range usable) as Ht.
  assert (forall i, 0 <= i < BITS -> bit_get 32 ones i = true) as Hones.
  { intros i Hi. apply bit_get_replicate_ones; [lia |].
    pose proof BITMAP_ENTRIES_pos. unfold BITS in Hi. lia. }
  assert (forall i, 0 <= i < BITS -> bit_get 32 (replicate (Z.to_nat BITMAP_ENTRIES) 0) i = false)
    as Hzeros.
  { intros i Hi. apply bit_get_replicate_zero; [lia |].
    pose proof BITMAP_ENTRIES_pos. unfold BITS in Hi. lia. }
  clearbody b3 b2 b1 ones.
  split; [| split; [reflexivity | split; [exists r; auto |]]].
  - constructor; simpl; [done | apply length_replicate | done | lia | done | |].
    + intros i Hi _. apply Hzeros. lia.
    + intros i Hi _. rewrite Hzeros by lia. done.
  - intros i Hi. simpl in Hi. unfold is_free. simpl.
    rewrite negb_true_iff, <- not_true_iff_false, Hg3, Hg2, Hg1 by lia.
    pose proof (Hones i ltac:(lia)). unfold initially_free. split.
    + intros Hn. split; [| split].
      * destruct (decide (Exists (fun r => inside r i) usable)) as [He | He].
        -- apply Exists_exists in He. by destruct He as (r' & ? & ?); exists r'.
        -- exfalso. apply Hn. left. left. split; [done |]. intros r' Hr' Hins.
           apply He, Exists_exists. by exists r'.
      * intros r' Hr' Ho. apply Hn. left. right. by exists r'.
      * intros Ho. apply Hn. by right.
    + intros ((r' & Hr' & Hins) & Hres & Hhd) [[[_ Hno] | (r'' & Hr'' & Ho)] | Ho].
      * by apply (Hno r').
      * by apply (Hres r'').
      * done.
Qed.

(** * Properties *)

Lemma wf_released_zero fa m : wf fa m -> released_frames_are_zero fa m = true.
Proof.
  intros W. unfold released_frames_are_zero. apply List.forallb_forall. intros i Hi.
  apply List.filter_In in Hi as [Hi Hf]. apply list_elem_of_In, elem_of_seqZ in Hi.
  apply andb_true_iff in Hf as [Hf Hz]. apply forallb_seqZ. intros n Hn.
  apply Z.eqb_eq. apply (wf_zero _ _ W i); [lia | done | done |].
  change (FRAME_SIZE / 8) with 512 in Hn. lia.
Qed.

(** C1. Whatever sequence of allocations, claims, releases, scrubs and client
    stores follows [init], the counters stay exact, allocated frames are never
    recorded as scrubbed, and every free frame recorded as scrubbed really
    holds zeros: the kernel's own audit [released_frames_are_zero] succeeds in
    every reachable state. *)
Theorem frame_allocator_invariant usable reserved min_addr s :
  Forall wf_range usable -> Forall wf_range reserved ->
  0 <= min_addr < 2 ^ 64 - FRAME_SIZE ->
  reachable usable reserved min_addr s ->
  wf s.1 s.2 /\ released_frames_are_zero s.1 s.2 = true.
Proof.
  intros Hu Hr Hm Hreach. enough (wf s.1 s.2) by auto using wf_released_zero.
  induction Hreach as [m0 fa m h Hi | s s' _ IH Hs].
  - pose proof (init_spec usable reserved min_addr m0 Hu Hr Hm) as H.
    rewrite Hi in H. apply H.
  - by eapply wf_step.
Qed.

(** C7. A single-frame allocation succeeds exactly when a frame is free; the
    frame it returns was free, is inside RAM, is all zero, and is the only
    frame whose state or contents change. *)
Theorem allocate_zeroed_frame_correct fa m :
  wf fa m ->
  match allocate_zeroed_frame fa m with
  | (Some pa, fa', m') => 0 < free_frames fa /\ allocated_frame fa m pa fa' m'
  | (None, fa', m') => free_frames fa = 0 /\ fa' = fa /\ m' = m
  end.
Proof.
  intros W. destruct (allocate_zeroed_frame fa m) as [[[pa |] fa'] m'] eqn:E;
    apply allocate_zeroed_frame_inv in E as [W' H]; try done.
  - split; [| done]. destruct H as (idx & _ & Hi & Hf & _).
    rewrite (wf_free _ _ W). apply count_range_pos with idx; try done; lia.
  - destruct H as (-> & -> & Hno). split; [| done]. rewrite (wf_free _ _ W).
    apply count_range_zero; [apply (wf_total _ _ W) | done].
Qed.

(** C8. A contiguous allocation is first fit and complete: it returns the
    lowest run of [count] free frames, claims exactly that run and zeroes it;
    it fails only when [count] is zero or no such run exists. *)
Theorem allocate_zeroed_contiguous_first_fit fa m count :
  wf fa m -> 0 <= count ->
  match allocate_zeroed_contiguous fa m count with
  | (Some pa, fa', m') => wf fa' m' /\ exists s, pa = s * FRAME_SIZE
        /\ claimed_run fa m s count fa' m'
        /\ forall s', 0 <= s' < s -> ~ free_run fa s' count
  | (None, fa', m') => fa' = fa /\ m' = m
        /\ (count = 0 \/ forall s, 0 <= s -> s + count <= total_frames fa ->
                            ~ free_run fa s count)
  end.
Proof.
  intros W Hc. assert (forall s, blocked fa count s -> ~ free_run fa s count) as Hb.
  { intros s (i & Hi & Hu) Hf. rewrite Hf in Hu; done. }
  destruct (allocate_zeroed_contiguous fa m count) as [[[pa |] fa'] m'] eqn:E;
    apply allocate_zeroed_contiguous_inv in E as [W' H]; try done.
  - split; [done |]. destruct H as (s & -> & Hcl & Hlow). exists s. auto.
  - destruct H as (-> & -> & Hno). split; [done |]. split; [done |].
    destruct (decide (count = 0)); [by left | right].
    intros s Hs Hle. apply Hb, Hno; lia.
Qed.

(** [claim_range] is all-or-nothing: it succeeds exactly when the range is
    aligned, inside RAM and entirely free, and then takes and zeroes exactly
    those frames; otherwise neither the allocator nor memory changes. *)
Theorem claim_range_all_or_nothing fa m start count :
  wf fa m -> 0 <= start -> 0 <= count ->
  let first := start / FRAME_SIZE in
  match claim_range fa m start count with
  | (true, fa', m') => wf fa' m' /\ start mod FRAME_SIZE = 0
                       /\ claimed_run fa m first count fa' m'
  | (false, fa', m') => fa' = fa /\ m' = m
       /\ ~ (start mod FRAME_SIZE = 0 /\ first + count <= total_frames fa
             /\ free_run fa first count)
  end.
Proof.
  intros W Hs Hc. destruct (claim_range fa m start count) as [[r fa'] m'] eqn:E.
  apply claim_range_inv in E as (W' & Hiff & H); try done. destruct r.
  - split; [done |]. split; [by apply Hiff | done].
  - destruct H as [-> ->]. split; [done |]. split; [done |]. intros Hall.
    by apply Hiff in Hall.
Qed.

(** Releasing an allocated frame undoes the allocation: the set of free
    frames and the free count return to what they were, the released frame is
    erased, and releasing it a second time changes nothing. *)
Theorem release_undoes_allocation fa m pa fa1 m1 :
  wf fa m -> allocate_zeroed_frame fa m = (Some pa, fa1, m1) ->
  exists fa2 m2,
    deallocate_frame fa1 m1 pa = Some (fa2, m2)
    /\ wf fa2 m2
    /\ (forall j, 0 <= j -> is_free fa2 j = is_free fa j)
    /\ free_frames fa2 = free_frames fa
    /\ frame_zero m2 (pa / FRAME_SIZE)
    /\ deallocate_frame fa2 m2 pa = Some (fa2, m2).
Proof.
  intros W Ha. apply allocate_zeroed_frame_inv in Ha as [W1 (idx & -> & Hi & Hf & _ & Hfr & _ & Hc & Ht)]; [| done].
  assert (idx * FRAME_SIZE mod FRAME_SIZE = 0) as Hmod by (by apply Z.mod_mul).
  assert (idx * FRAME_SIZE / FRAME_SIZE = idx) as Hdiv by (by apply Z.div_mul).
  pose proof (deallocate_frame_inv fa1 m1 (idx * FRAME_SIZE) W1
                ltac:(unfold FRAME_SIZE; lia)) as Hd.
  rewrite Hdiv in *.
  destruct (deallocate_frame fa1 m1 (idx * FRAME_SIZE)) as [[fa2 m2] |] eqn:E.
  2: { destruct Hd; [done | lia]. }
  destruct Hd as (_ & _ & W2 & R). rewrite Hfr, Z.eqb_refl, andb_false_r in R by lia.
  destruct R as (Hz & Hfr2 & _ & Hc2 & Ht2).
  exists fa2, m2. split; [done |]. split; [done |]. split; [| split; [lia | split; [done |]]].
  - intros j Hj. rewrite Hfr2, Hfr by done. destruct (Z.eqb_spec j idx) as [-> |].
    + by rewrite orb_true_r.
    + by rewrite orb_false_r, andb_true_r.
  - unfold deallocate_frame. rewrite Hdiv, Hmod. simpl.
    replace (idx <? total_frames fa2) with true by lia. simpl.
    rewrite Hfr2, Z.eqb_refl, orb_true_r by lia. done.
Qed.

(** C5. [init] hands out exactly the frames that lie wholly inside usable RAM
    and touch neither a reserved range nor the allocator's own metadata, which
    it places inside usable RAM, at or above [min_addr], clear of every
    reserved range; it panics only when no aligned address fits. *)
Theorem init_hands_out_only_usable_frames usable reserved min_addr m :
  Forall wf_range usable -> Forall wf_range reserved ->
  0 <= min_addr < 2 ^ 64 - FRAME_SIZE ->
  match init usable reserved min_addr m with
  | None => forall r a, r ∈ usable -> pr_start r <= a -> min_addr <= a ->
              a mod FRAME_SIZE = 0 -> ~ fits reserved r a
  | Some (fa, m', h) =>
      wf fa m' /\ total_frames fa = top_frame usable
      /\ (exists r, r ∈ usable /\ pr_start r <= h /\ min_addr <= h
            /\ h mod FRAME_SIZE = 0 /\ fits reserved r h)
      /\ forall i, 0 <= i < total_frames fa ->
          is_free fa i = true <-> initially_free usable reserved h i
  end.
Proof. apply init_spec. Qed.

(** * Witnesses: a four-frame machine whose frames are all free *)

Definition demo_fa : FrameAllocator :=
  mkFrameAllocator (4294967280 :: replicate (Z.to_nat BITMAP_ENTRIES - 1) (2 ^ 32 - 1))
    (replicate (Z.to_nat BITMAP_ENTRIES) 0) 4 4 0.
Definition demo_mem : phys_mem := fun a => a + 1.

Lemma demo_wf : wf demo_fa demo_mem.
Proof.
  assert (forall i, 0 <= i < 4 -> bit_get 32 (zeroed demo_fa) i = false) as Hz.
  { intros i Hi. apply bit_get_replicate_zero; [lia |]. pose proof BITMAP_ENTRIES_pos.
    assert (1 <= BITMAP_ENTRIES) by lia. lia. }
  constructor.
  - unfold demo_fa. simpl length. rewrite length_replicate.
    pose proof BITMAP_ENTRIES_pos. lia.
  - apply length_replicate.
  - simpl. unfold BITS. pose proof BITMAP_ENTRIES_pos. lia.
  - simpl. lia.
  - reflexivity.
  - intros i Hi _. by apply Hz.
  - intros i Hi _. rewrite Hz by done. done.
Qed.

Lemma demo_usable : Forall wf_range [mkPhysRange 0 16777216].
Proof. constructor; [split; simpl; unfold FRAME_SIZE; lia | constructor]. Qed.
Lemma demo_reserved : Forall wf_range [mkPhysRange 0 4096].
Proof. constructor; [split; simpl; unfold FRAME_SIZE; lia | constructor]. Qed.
Lemma demo_header :
  find_map (header_in [mkPhysRange 0 4096] 4096) [mkPhysRange 0 16777216] = Some 4096.
Proof. vm_compute. reflexivity. Qed.
Lemma demo_init_ok :
  match init [mkPhysRange 0 16777216] [mkPhysRange 0 4096] 4096 demo_mem with
  | Some _ => true | None => false end = true.
Proof. unfold init. rewrite demo_header. reflexivity. Qed.

Lemma frame_allocator_invariant_witness :
  exists s, reachable [mkPhysRange 0 16777216] [mkPhysRange 0 4096] 4096 s
            /\ released_frames_are_zero s.1 s.2 = true.
Proof.
  pose proof demo_init_ok as H0.
  destruct (init [mkPhysRange 0 16777216] [mkPhysRange 0 4096] 4096 demo_mem)
    as [[[fa m] h] |] eqn:E; [| discriminate H0].
  pose proof (reachable_init _ _ _ _ _ _ _ E) as R. exists (fa, m). split; [exact R |].
  refine (proj2 (frame_allocator_invariant _ _ 4096 (fa, m) demo_usable demo_reserved _ R)).
  unfold FRAME_SIZE. lia.
Defined.

Lemma allocate_zeroed_frame_correct_witness :
  wf demo_fa demo_mem /\ (allocate_zeroed_frame demo_fa demo_mem).1.1 = Some 0
  /\ 0 < free_frames demo_fa.
Proof.
  assert ((allocate_zeroed_frame demo_fa demo_mem).1.1 = Some 0) as E
    by (vm_compute; reflexivity).
  split; [exact demo_wf |]. split; [exact E |].
  pose proof (allocate_zeroed_frame_correct demo_fa demo_mem demo_wf) as H.
  destruct (allocate_zeroed_frame demo_fa demo_mem) as [[r fa'] m'].
  simpl in E. subst r. exact (proj1 H).
Defined.

Lemma allocate_zeroed_contiguous_first_fit_witness :
  (allocate_zeroed_contiguous demo_fa demo_mem 3).1.1 = Some 0
  /\ exists fa' m', claimed_run demo_fa demo_mem 0 3 fa' m'.
Proof.
  assert ((allocate_zeroed_contiguous demo_fa demo_mem 3).1.1 = Some 0) as E
    by (vm_compute; reflexivity).
  split; [exact E |].
  pose proof (allocate_zeroed_contiguous_first_fit demo_fa demo_mem 3 demo_wf ltac:(lia)) as H.
  destruct (allocate_zeroed_contiguous demo_fa demo_mem 3) as [[r fa'] m'].
  simpl in E. subst r. destruct H as (_ & s & Hs & Hc & _).
  exists fa', m'. unfold FRAME_SIZE in Hs. by replace s with 0 in Hc by lia.
Defined.

Lemma claim_range_all_or_nothing_witness :
  (claim_range demo_fa demo_mem 4096 2).1.1 = true
  /\ exists fa' m', claimed_run demo_fa demo_mem 1 2 fa' m'.
Proof.
  assert ((claim_range demo_fa demo_mem 4096 2).1.1 = true) as E by (vm_compute; reflexivity).
  split; [exact E |].
  pose proof (claim_range_all_or_nothing demo_fa demo_mem 4096 2 demo_wf ltac:(lia) ltac:(lia)) as H.
  destruct (claim_range demo_fa demo_mem 4096 2) as [[r fa'] m'].
  simpl in E. subst r. destruct H as (_ & _ & Hc). exists fa', m'. exact Hc.
Defined.

Lemma release_undoes_allocation_witness :
  exists fa1 m1 fa2 m2,
    allocate_zeroed_frame demo_fa demo_mem = (Some 0, fa1, m1)
    /\ deallocate_frame fa1 m1 0 = Some (fa2, m2) /\ free_frames fa2 = 4.
Proof.
  assert ((allocate_zeroed_frame demo_fa demo_mem).1.1 = Some 0) as E
    by (vm_compute; reflexivity).
  destruct (allocate_zeroed_frame demo_fa demo_mem) as [[r fa1] m1] eqn:Ea.
  simpl in E. subst r.
  destruct (release_undoes_allocation demo_fa demo_mem 0 fa1 m1 demo_wf Ea)
    as (fa2 & m2 & Hd & _ & _ & Hf & _).
  exists fa1, m1, fa2, m2. split; [reflexivity |]. split; [exact Hd | exact Hf].
Defined.

Lemma init_hands_out_only_usable_frames_witness :
  exists fa m h, init [mkPhysRange 0 16777216] [mkPhysRange 0 4096] 4096 demo_mem
                   = Some (fa, m, h) /\ wf fa m /\ total_frames fa = 4096.
Proof.
  pose proof demo_init_ok as H0.
  pose proof (init_hands_out_only_usable_frames _ _ 4096 demo_mem demo_usable demo_reserved
                ltac:(unfold FRAME_SIZE; lia)) as H.
  destruct (init [mkPhysRange 0 16777216] [mkPhysRange 0 4096] 4096 demo_mem)
    as [[[fa m] h] |] eqn:E; [| discriminate H0].
  exists fa, m, h. split; [reflexivity |]. destruct H as (W & Ht & _).
  split; [exact W |]. rewrite Ht. reflexivity.
Defined.

End Frames.
