(* ===== verification/Slab.v ===== *)
(** Kernel heap slabs (src/memory/slab.rs).

    A slab is a span of backing memory cut into equal slots.  The free slots of
    a slab are linked through their first word, the link xored with a secret and
    with its own address; the bookkeeping ([Slab], [Slabs]) lives outside the
    backing memory.  Every operation takes the bookkeeping and the word memory
    and returns both; an [Err] leaves both as they were, since the source
    validates before it writes.  [usize] is 64 bits wide. *)

From Stdlib Require Import ZArith Lia.
From stdpp Require Import base list list_numbers numbers decidable tactics sets.
From S2P Require Import Prelude.

Module Slab.

(** * Data *)

Definition PAGE : Z := 4096.
Definition DOMAINS : Z := 3.
Definition MIN_SHIFT : Z := 4.
Definition MAX_SHIFT : Z := 24.
Definition CLASSES : Z := MAX_SHIFT - MIN_SHIFT + 1.
Definition MAX_SLABS : Z := 4096.

Inductive Error := Layout | Range | Alignment | DoubleFree | Corrupt | Exhausted.

(** [core::alloc::Layout]: a size and a power-of-two alignment, the size rounded
    up to the alignment not exceeding [isize::MAX]. *)
Record layout := mkLayout { l_size : Z; l_align : Z }.
Definition layout_valid (l : layout) : Prop :=
  0 <= l_size l /\ l_size l + l_align l <= 2 ^ 63
  /\ exists k, 0 <= k /\ l_align l = 2 ^ k.

Record slab := mkSlab {
  base : Z; span : Z; stride : Z; cache : Z;
  next : Z; head : Z; free : Z; live : list Z }.
Definition EMPTY : slab := mkSlab 0 0 0 0 0 0 0 [0; 0; 0; 0].

Record Request := mkRequest { r_span : Z; r_align : Z; r_cache : Z; r_stride : Z }.

Record Slabs := mkSlabs {
  pages : list slab; used : Z; lists : list Z;
  secret : Z; live_bytes : Z; reserved_bytes : Z; allocations : Z }.

#[global] Instance slab_inhabited : Inhabited slab := populate EMPTY.

(** * Operations *)

Definition backing_frames (start bytes : Z) : option Z :=
  if (bytes =? 0) || negb (start mod PAGE =? 0) || negb (bytes mod PAGE =? 0) then None
  else
    e ← checked_add 64 start bytes;
    last ← checked_sub e 1;
    foldl (fun needed shift =>
             n ← needed;
             checked_add 64 n (Z.shiftr last shift - Z.shiftr start shift + 1))
      (Some (bytes / PAGE)) [39; 30; 21].

Definition slot (pg : slab) (pointer : Z) : outcome Error Z :=
  match checked_sub pointer (base pg) with
  | Some offset =>
      if offset <? span pg then
        if negb (offset mod stride pg =? 0) then Err Alignment
        else Ok (offset / stride pg)
      else Err Range
  | None => Err Range
  end.

Definition is_live (pg : slab) (k : Z) : bool := bit_get 64 (live pg) k.

Definition validate_free (pg : slab) (pointer : Z) : outcome Error unit :=
  k ← slot pg pointer;
  if is_live pg k then Err Corrupt else Ok tt.

(** [checked_next_power_of_two]. *)
Definition checked_next_power_of_two (x : Z) : option Z :=
  let p := 2 ^ Z.log2_up x in if p <? 2 ^ 64 then Some p else None.

Definition request (l : layout) (domain : Z) : outcome Error Request :=
  if DOMAINS <=? domain then Err Layout
  else
    stride ← ok_or (checked_next_power_of_two
                      (Z.max (Z.max (l_size l) (l_align l)) (Z.shiftl 1 MIN_SHIFT))) Layout;
    if Z.shiftl 1 MAX_SHIFT <? stride then Err Layout
    else
      let class := trailing_zeros 64 stride - MIN_SHIFT in
      Ok (mkRequest (Z.max stride PAGE) (Z.max stride PAGE) (domain * CLASSES + class) stride).

Definition new : Slabs :=
  mkSlabs (replicate (Z.to_nat MAX_SLABS) EMPTY) 0
    (replicate (Z.to_nat (DOMAINS * CLASSES)) 0) 0 0 0 0.

Definition seed (s : Slabs) (sec : Z) : outcome Error Slabs :=
  if used s =? 0
  then Ok (mkSlabs (pages s) (used s) (lists s) sec (live_bytes s) (reserved_bytes s)
             (allocations s))
  else Panic.

Definition has_metadata (s : Slabs) : bool := used s <? MAX_SLABS.

(** [slice::swap]. *)
Definition swap (l : list Z) (i j : nat) : list Z :=
  <[i := l !!! j]> (<[j := l !!! i]> l).

(** The shuffle: [random] is the stream of draws, [n] the draws consumed. *)
Definition shuffle (random : nat -> Z) (count : Z) : list Z :=
  (foldl (fun '(order, n) i =>
            (swap order (Z.to_nat i) (Z.to_nat (random n mod (i + 1))), S n))
     (seqZ 0 count, 0%nat) (rev (seqZ 1 (count - 1)))).1.

Definition encode (sec next address : Z) : Z := Z.lxor (Z.lxor next sec) address.

(** Thread the slots in shuffled order through their first words. *)
Fixpoint write_links (m : word_mem) (sec b st : Z) (order : list Z) : word_mem :=
  match order with
  | [] => m
  | k :: rest =>
      let address := b + k * st in
      let nxt := match rest with k' :: _ => b + k' * st | [] => 0 end in
      write_links (write_word m address (encode sec nxt address)) sec b st rest
  end.

Definition add (s : Slabs) (m : word_mem) (b : Z) (req : Request) (random : nat -> Z)
  : outcome Error (Slabs * word_mem) :=
  if negb (has_metadata s) then Err Exhausted
  else if negb (r_span req =? Z.max (r_stride req) PAGE) || negb (r_align req =? r_span req)
          || (Z.of_nat (length (lists s)) <=? r_cache req) then Err Layout
  else if (b =? 0) || negb (b mod r_align req =? 0)
          || bool_decide (checked_add 64 b (r_span req) = None) then Err Alignment
  else
    let lst := pages s !!! Z.to_nat (used s - 1) in
    if negb (used s =? 0) && (b <? base lst + span lst) then Err Range
    else
      let count := r_span req / r_stride req in
      let order := shuffle random count in
      let m' := write_links m (secret s) b (r_stride req) order in
      let pg := mkSlab b (r_span req) (r_stride req) (r_cache req)
                  (lists s !!! Z.to_nat (r_cache req))
                  (b + (order !!! 0%nat) * r_stride req) count [0; 0; 0; 0] in
      Ok (mkSlabs (<[Z.to_nat (used s) := pg]> (pages s)) (used s + 1)
            (<[Z.to_nat (r_cache req) := used s + 1]> (lists s)) (secret s)
            (live_bytes s) (reserved_bytes s + r_span req) (allocations s), m').

(** The loop of [allocate] over the slabs of one cache.  [visited] bounds the
    iterations by [used], so [S used] steps of fuel are enough whatever the
    lists hold (see [alloc_loop_total]); running out of fuel is [Panic]. *)
Fixpoint alloc_loop (fuel : nat) (s : Slabs) (m : word_mem) (req : Request)
  (cursor visited : Z) : outcome Error (option Z * Slabs * word_mem) :=
  match fuel with
  | O => Panic
  | S fuel' =>
      if cursor =? 0 then Ok (None, s, m)
      else if (used s <? cursor) || (used s <=? visited) then Err Corrupt
      else
        let pg := pages s !!! Z.to_nat (cursor - 1) in
        if negb (cache pg =? r_cache req) then Err Corrupt
        else if negb (free pg =? 0) then
          let pointer := head pg in
          _ ← validate_free pg pointer;
          let nxt := Z.lxor (Z.lxor (m pointer) (secret s)) pointer in
          _ ← (if negb (nxt =? 0) then
                 _ ← validate_free pg nxt; guard_err (nxt =? pointer) Corrupt
               else Ok tt);
          _ ← guard_err (xorb (free pg =? 1) (nxt =? 0)) Corrupt;
          k ← slot pg pointer;
          let pg' := mkSlab (base pg) (span pg) (stride pg) (cache pg) (next pg)
                       nxt (free pg - 1) (bit_set 64 (live pg) k) in
          Ok (Some pointer,
              mkSlabs (<[Z.to_nat (cursor - 1) := pg']> (pages s)) (used s) (lists s)
                (secret s) (live_bytes s + stride pg) (reserved_bytes s) (allocations s + 1),
              write_word m pointer 0)
        else if negb (head pg =? 0) then Err Corrupt
        else alloc_loop fuel' s m req (next pg) (visited + 1)
  end.

Definition allocate (s : Slabs) (m : word_mem) (l : layout) (domain : Z)
  : outcome Error (option Z * Slabs * word_mem) :=
  req ← request l domain;
  alloc_loop (S (Z.to_nat (used s))) s m req (lists s !!! Z.to_nat (r_cache req)) 0.

(** [slice::partition_point] on a partitioned slice: the length of the prefix
    that satisfies the predicate. *)
Fixpoint partition_point {A} (p : A -> bool) (l : list A) : Z :=
  match l with
  | [] => 0
  | x :: l' => if p x then 1 + partition_point p l' else 0
  end.

Definition erase (m : word_mem) (pointer bytes : Z) : word_mem :=
  zero_words m pointer ((bytes + 7) / 8).

Definition deallocate (s : Slabs) (m : word_mem) (pointer : Z) (l : layout) (domain : Z)
  : outcome Error (Slabs * word_mem) :=
  req ← request l domain;
  index ← ok_or (checked_sub (partition_point (fun pg => base pg <=? pointer)
                   (take (Z.to_nat (used s)) (pages s))) 1) Range;
  let pg := pages s !!! Z.to_nat index in
  k ← slot pg pointer;
  _ ← guard_err (negb (cache pg =? r_cache req)) Layout;
  _ ← guard_err (negb (is_live pg k)) DoubleFree;
  _ ← (if negb (free pg =? 0) then validate_free pg (head pg)
       else guard_err (negb (head pg =? 0)) Corrupt);
  let m1 := erase m pointer (stride pg) in
  let m2 := write_word m1 pointer (encode (secret s) (head pg) pointer) in
  let pg' := mkSlab (base pg) (span pg) (stride pg) (cache pg) (next pg)
               pointer (free pg + 1) (bit_clear 64 (live pg) k) in
  Ok (mkSlabs (<[Z.to_nat index := pg']> (pages s)) (used s) (lists s) (secret s)
        (live_bytes s - stride pg) (reserved_bytes s) (allocations s - 1), m2).

(** * Specification vocabulary *)

Definition slots (pg : slab) : Z := span pg / stride pg.
Definition slot_addr (pg : slab) (k : Z) : Z := base pg + k * stride pg.
Definition head_of (pg : slab) (fl : list Z) : Z :=
  match fl with [] => 0 | k :: _ => slot_addr pg k end.
(** The free slots [fl], in order, are linked through their first words. *)
Fixpoint linked (sec : Z) (m : word_mem) (pg : slab) (fl : list Z) : Prop :=
  match fl with
  | [] => True
  | k :: rest =>
      m (slot_addr pg k) = encode sec (head_of pg rest) (slot_addr pg k)
      /\ linked sec m pg rest
  end.

(** Geometry of a slab: what [add] fixes once and for all. *)
Record geometry (pg : slab) : Prop := {
  geo_stride : exists k, MIN_SHIFT <= k <= MAX_SHIFT /\ stride pg = 2 ^ k
                         /\ cache pg mod CLASSES = k - MIN_SHIFT;
  geo_span : span pg = Z.max (stride pg) PAGE;
  geo_base : 0 < base pg /\ base pg + span pg < 2 ^ 64;
  geo_align : base pg mod span pg = 0;
  geo_cache : 0 <= cache pg < DOMAINS * CLASSES }.

Record page_ok (sec : Z) (m : word_mem) (pg : slab) (fl : list Z) : Prop := {
  po_geo : geometry pg;
  po_live_len : length (live pg) = 4%nat;
  po_nodup : NoDup fl;
  po_range : forall k, k ∈ fl -> 0 <= k < slots pg;
  po_free_iff : forall k, 0 <= k < slots pg -> (k ∈ fl <-> is_live pg k = false);
  po_free : free pg = Z.of_nat (length fl);
  po_head : head pg = head_of pg fl;
  po_links : linked sec m pg fl;
  po_zero : forall k, k ∈ fl -> forall off, 0 < off < stride pg -> off mod 8 = 0 ->
    m (slot_addr pg k + off) = 0 }.

(** The last slab of cache [c] among the first [n], as a 1-based cursor. *)
Fixpoint last_of (pgs : list slab) (c : Z) (n : nat) : Z :=
  match n with
  | O => 0
  | S n' => if cache (pgs !!! n') =? c then Z.of_nat n else last_of pgs c n'
  end.

Definition live_slots (pg : slab) : Z := count_range (is_live pg) 0 (slots pg).
Fixpoint sum_pages (f : slab -> Z) (pgs : list slab) (n : nat) : Z :=
  match n with
  | O => 0
  | S n' => f (pgs !!! n') + sum_pages f pgs n'
  end.

Record slabs_ok (s : Slabs) (m : word_mem) : Prop := {
  so_pages_len : length (pages s) = Z.to_nat MAX_SLABS;
  so_lists_len : length (lists s) = Z.to_nat (DOMAINS * CLASSES);
  so_used : 0 <= used s <= MAX_SLABS;
  so_page : forall i, (i < Z.to_nat (used s))%nat ->
    exists fl, page_ok (secret s) m (pages s !!! i) fl;
  so_sorted : forall i j, (i < j < Z.to_nat (used s))%nat ->
    base (pages s !!! i) + span (pages s !!! i) <= base (pages s !!! j);
  so_next : forall i, (i < Z.to_nat (used s))%nat ->
    next (pages s !!! i) = last_of (pages s) (cache (pages s !!! i)) i;
  so_lists : forall c, 0 <= c < DOMAINS * CLASSES ->
    lists s !!! Z.to_nat c = last_of (pages s) c (Z.to_nat (used s));
  so_live_bytes : live_bytes s =
    sum_pages (fun pg => live_slots pg * stride pg) (pages s) (Z.to_nat (used s));
  so_reserved : reserved_bytes s = sum_pages span (pages s) (Z.to_nat (used s));
  so_allocations : allocations s = sum_pages live_slots (pages s) (Z.to_nat (used s)) }.

(** Slot [k] of slab [i] is at [p], in cache [c], [st] bytes long. *)
Definition slot_at (s : Slabs) (i : nat) (k c p st : Z) : Prop :=
  (i < Z.to_nat (used s))%nat /\ 0 <= k < slots (pages s !!! i)
  /\ cache (pages s !!! i) = c /\ p = slot_addr (pages s !!! i) k
  /\ st = stride (pages s !!! i).
(** The object of [st] bytes at [p] in cache [c] is live: its slot's bit is set. *)
Definition live_at (s : Slabs) (c p st : Z) : Prop :=
  exists i k, slot_at s i k c p st /\ is_live (pages s !!! i) k = true.
(** Address [p] lies in the backing memory of some slab. *)
Definition in_slab (s : Slabs) (i : nat) (p : Z) : Prop :=
  (i < Z.to_nat (used s))%nat
  /\ base (pages s !!! i) <= p < base (pages s !!! i) + span (pages s !!! i).

(** * Geometry *)

Lemma pow2_ge_16 k : MIN_SHIFT <= k -> 16 <= 2 ^ k.
Proof. intros H. change 16 with (2 ^ MIN_SHIFT). apply Z.pow_le_mono_r; [lia | done]. Qed.

Lemma geo_slots pg : geometry pg ->
  16 <= stride pg /\ stride pg mod 8 = 0 /\ span pg = slots pg * stride pg /\ 1 <= slots pg <= 256.
Proof.
  intros [(k & Hk & Hs & _) Hsp _ _ _]. pose proof (pow2_ge_16 k ltac:(lia)).
  unfold slots. rewrite Hsp, Hs. unfold PAGE, MIN_SHIFT, MAX_SHIFT in *.
  assert (2 ^ k mod 8 = 0) as Hm8.
  { replace k with (3 + (k - 3)) by lia. rewrite Z.pow_add_r by lia.
    change (2 ^ 3) with 8. rewrite Z.mul_comm. apply Z.mod_mul. lia. }
  split; [done |]. split; [done |].
  destruct (decide (k <= 12)).
  - assert (2 ^ k * 2 ^ (12 - k) = 4096) as Hmul.
    { rewrite <- Z.pow_add_r by lia. by replace (k + (12 - k)) with 12 by lia. }
    assert (2 ^ k <= 2 ^ 12) by (apply Z.pow_le_mono_r; lia).
    rewrite Z.max_r by lia.
    replace (4096 / 2 ^ k) with (2 ^ (12 - k)); [| rewrite <- Hmul, Z.mul_comm; by rewrite Z.div_mul by lia].
    nia.
  - assert (2 ^ 12 <= 2 ^ k) by (apply Z.pow_le_mono_r; lia).
    rewrite Z.max_l by lia. rewrite Z.div_same by lia. lia.
Qed.

Lemma slot_addr_range pg k :
  geometry pg -> 0 <= k < slots pg ->
  base pg <= slot_addr pg k /\ slot_addr pg k + stride pg <= base pg + span pg.
Proof. intros G Hk. destruct (geo_slots pg G) as (? & _ & -> & ?). unfold slot_addr. nia. Qed.

Lemma slot_addr_pos pg k : geometry pg -> 0 <= k < slots pg -> 0 < slot_addr pg k.
Proof. intros G Hk. pose proof (slot_addr_range pg k G Hk). pose proof (geo_base pg G). lia. Qed.

Lemma slot_addr_disj pg j k :
  geometry pg -> j <> k ->
  slot_addr pg j + stride pg <= slot_addr pg k \/ slot_addr pg k + stride pg <= slot_addr pg j.
Proof. intros G Hne. destruct (geo_slots pg G) as (? & _). unfold slot_addr. nia. Qed.

Lemma slot_addr_inj pg j k : geometry pg -> slot_addr pg j = slot_addr pg k -> j = k.
Proof.
  intros G He. destruct (decide (j = k)); [done |].
  destruct (geo_slots pg G) as (? & _). pose proof (slot_addr_disj pg j k G). lia.
Qed.

(** [slot] recognises exactly the slot addresses and names the error otherwise. *)
Lemma slot_Ok pg p k :
  geometry pg -> slot pg p = Ok k <-> 0 <= k < slots pg /\ p = slot_addr pg k.
Proof.
  intros G. destruct (geo_slots pg G) as (H16 & _ & Hspan & Hn).
  unfold slot, checked_sub, slot_addr. split.
  - destruct (base pg <=? p) eqn:Hb; [| done].
    destruct (_ <? _) eqn:Hlt; [| done].
    destruct (negb _) eqn:Hm; [done |]. intros [= <-].
    pose proof (Z.div_mod (p - base pg) (stride pg)).
    assert ((p - base pg) mod stride pg = 0) by lia.
    assert (0 <= (p - base pg) / stride pg) by (apply Z.div_pos; lia).
    split; [| lia]. split; [done |].
    apply Z.div_lt_upper_bound; lia.
  - intros [Hk ->]. replace (_ <=? _) with true by nia.
    replace (base pg + k * stride pg - base pg) with (k * stride pg) by lia.
    replace (_ <? _) with true by nia.
    rewrite Z.mod_mul, Z.div_mul by lia. done.
Qed.

Lemma slot_Err pg p e :
  geometry pg -> slot pg p = Err e ->
  e = Range /\ ~ base pg <= p < base pg + span pg
  \/ e = Alignment /\ base pg <= p < base pg + span pg /\ (p - base pg) mod stride pg <> 0.
Proof.
  intros G. unfold slot, checked_sub. destruct (base pg <=? p) eqn:Hb.
  - destruct (_ <? _) eqn:Hlt.
    + destruct (negb _) eqn:Hm; [| done]. intros [= <-]. right. split; [done | lia].
    + intros [= <-]. left. split; [done | lia].
  - intros [= <-]. left. split; [done | lia].
Qed.

Lemma slot_no_panic pg p : slot pg p <> Panic.
Proof. unfold slot. destruct (checked_sub _ _); repeat case_if; done. Qed.

Lemma validate_free_slot pg k :
  geometry pg -> 0 <= k < slots pg -> is_live pg k = false ->
  validate_free pg (slot_addr pg k) = Ok tt.
Proof.
  intros G Hk Hl. unfold validate_free. rewrite (proj2 (slot_Ok pg _ k G)) by done.
  simpl. by rewrite Hl.
Qed.

(** * One slab *)

Lemma decode_encode sec nx a : Z.lxor (Z.lxor (encode sec nx a) sec) a = nx.
Proof.
  unfold encode. rewrite (Z.lxor_assoc (Z.lxor nx sec) a sec), (Z.lxor_comm a sec).
  rewrite <- Z.lxor_assoc, (Z.lxor_assoc nx sec sec), Z.lxor_nilpotent, Z.lxor_0_r.
  by rewrite Z.lxor_assoc, Z.lxor_nilpotent, Z.lxor_0_r.
Qed.

(** The same slab with other bookkeeping: only the geometry places its slots. *)
Definition same_place (pg pg' : slab) : Prop :=
  base pg' = base pg /\ span pg' = span pg /\ stride pg' = stride pg
  /\ cache pg' = cache pg /\ next pg' = next pg.

Lemma same_place_geo pg pg' : same_place pg pg' -> geometry pg -> geometry pg'.
Proof.
  intros (Hb & Hs & Hst & Hc & Hn) [? ? ? ? ?].
  constructor; rewrite ?Hb, ?Hs, ?Hst, ?Hc; done.
Qed.
Lemma same_place_addr pg pg' k : same_place pg pg' -> slot_addr pg' k = slot_addr pg k.
Proof. intros (Hb & Hs & Hst & Hc & Hn). unfold slot_addr. by rewrite Hb, Hst. Qed.
Lemma same_place_slots pg pg' : same_place pg pg' -> slots pg' = slots pg.
Proof. intros (Hb & Hs & Hst & Hc & Hn). unfold slots. by rewrite Hs, Hst. Qed.
Lemma same_place_head pg pg' fl : same_place pg pg' -> head_of pg' fl = head_of pg fl.
Proof. intros H. destruct fl; [done |]. simpl. by apply same_place_addr. Qed.

Lemma linked_ext sec m m' pg pg' fl :
  same_place pg pg' -> (forall k, k ∈ fl -> m' (slot_addr pg k) = m (slot_addr pg k)) ->
  linked sec m pg fl -> linked sec m' pg' fl.
Proof.
  intros Hp. induction fl as [| k rest IH]; simpl; [done |]. intros He [H1 H2].
  rewrite (same_place_addr pg), (same_place_head pg) by done.
  rewrite He by (by left). split; [done |]. apply IH; [| done].
  intros j Hj. apply He. by right.
Qed.

(** Stores that miss the free slots of a slab keep it well formed. *)
Lemma page_ok_frame_slots sec m m' pg fl :
  (forall k, k ∈ fl -> forall off, 0 <= off < stride pg ->
     m' (slot_addr pg k + off) = m (slot_addr pg k + off)) ->
  page_ok sec m pg fl -> page_ok sec m' pg fl.
Proof.
  intros He [G L N R F Fr Hd Lk Z0]. constructor; try done.
  - eapply linked_ext; [| | exact Lk]; [done |]. intros k Hk.
    destruct (geo_slots pg G) as (? & _).
    specialize (He k Hk 0). rewrite Z.add_0_r in He. apply He. lia.
  - intros k Hk off Hoff Hm. rewrite He by (done || lia). by apply Z0.
Qed.

Lemma page_ok_frame sec m m' pg fl :
  (forall a, base pg <= a < base pg + span pg -> m' a = m a) ->
  page_ok sec m pg fl -> page_ok sec m' pg fl.
Proof.
  intros He P. apply (page_ok_frame_slots _ m); [| done].
  intros k Hk off Hoff. apply He.
  pose proof (slot_addr_range pg k (po_geo _ _ _ _ P) (po_range _ _ _ _ P k Hk)). lia.
Qed.

(** Popping the head of the free list: what [allocate] does to a slab. *)
Definition pop (pg : slab) (k : Z) (rest : list Z) : slab :=
  mkSlab (base pg) (span pg) (stride pg) (cache pg) (next pg)
    (head_of pg rest) (free pg - 1) (bit_set 64 (live pg) k).
(** Pushing a slot: what [deallocate] does to a slab. *)
Definition push (pg : slab) (k : Z) : slab :=
  mkSlab (base pg) (span pg) (stride pg) (cache pg) (next pg)
    (slot_addr pg k) (free pg + 1) (bit_clear 64 (live pg) k).

Lemma live_bits pg k :
  geometry pg -> length (live pg) = 4%nat -> 0 <= k < slots pg ->
  0 <= k < 64 * Z.of_nat (length (live pg)).
Proof. intros G -> Hk. destruct (geo_slots pg G) as (_ & _ & _ & ?). lia. Qed.

Lemma page_ok_pop sec m pg k rest :
  page_ok sec m pg (k :: rest) ->
  page_ok sec (write_word m (slot_addr pg k) 0) (pop pg k rest) rest.
Proof.
  intros [G L N R F Fr Hd [_ Lk] Z0].
  assert (same_place pg (pop pg k rest)) as Hp by done.
  apply NoDup_cons in N as [Nk N].
  assert (0 <= k < slots pg) as Hk by (apply R; left).
  assert (forall j, j ∈ rest -> j <> k) as Hne by (intros j Hj ->; done).
  constructor.
  - by eapply same_place_geo.
  - simpl. by rewrite length_bit_set.
  - done.
  - intros j Hj. rewrite (same_place_slots pg) by done. apply R. by right.
  - intros j Hj. rewrite (same_place_slots pg) in Hj by done.
    unfold is_live. simpl. rewrite bit_get_set by (apply live_bits || lia; done).
    specialize (F j Hj). unfold is_live in F. rewrite elem_of_cons in F.
    destruct (Z.eqb_spec j k) as [-> | Hjk]; simpl; [by split | tauto].
  - simpl. simpl in Fr. lia.
  - done.
  - eapply linked_ext; [done | | exact Lk]. intros j Hj. apply write_word_ne.
    intros He. apply (Hne j Hj). by eapply slot_addr_inj.
  - intros j Hj off Hoff Hm. rewrite (same_place_addr pg (pop pg k rest)) by done. simpl in Hoff.
    rewrite write_word_ne; [apply Z0; [by right | done | done] |].
    pose proof (slot_addr_disj pg j k G (Hne j Hj)). lia.
Qed.

Lemma erase_spec m p bytes x :
  0 <= bytes -> bytes mod 8 = 0 ->
  erase m p bytes x = if (p <=? x) && (x <? p + bytes) && ((x - p) mod 8 =? 0) then 0 else m x.
Proof.
  intros Hb Hm. unfold erase. rewrite zero_words_spec by zdiv.
  by replace (8 * ((bytes + 7) / 8)) with bytes by zdiv.
Qed.

Lemma page_ok_push sec m pg fl k :
  page_ok sec m pg fl -> 0 <= k < slots pg -> is_live pg k = true ->
  page_ok sec (write_word (erase m (slot_addr pg k) (stride pg)) (slot_addr pg k)
                 (encode sec (head pg) (slot_addr pg k))) (push pg k) (k :: fl).
Proof.
  intros [G L N R F Fr Hd Lk Z0] Hk Hl.
  assert (same_place pg (push pg k)) as Hp by done.
  destruct (geo_slots pg G) as (H16 & Hm8 & _).
  assert (k ∉ fl) as Nk by (rewrite F by done; congruence).
  assert (forall j, j ∈ fl -> j <> k) as Hne by (intros j Hj ->; done).
  constructor.
  - by eapply same_place_geo.
  - simpl. by rewrite length_bit_clear.
  - by constructor.
  - intros j [-> | Hj]%elem_of_cons; [done |]. by apply R.
  - intros j Hj. rewrite (same_place_slots pg) in Hj by done.
    unfold is_live. simpl. rewrite bit_get_clear by (apply live_bits || lia; done).
    specialize (F j Hj). unfold is_live in F. rewrite elem_of_cons, F.
    destruct (Z.eqb_spec j k) as [-> | Hjk]; simpl; [tauto |]. naive_solver.
  - simpl. rewrite Fr. simpl. lia.
  - done.
  - split.
    + rewrite (same_place_addr pg (push pg k)), (same_place_head pg), <- Hd by done.
      apply write_word_eq.
    + eapply linked_ext; [done | | exact Lk]. intros j Hj.
      pose proof (slot_addr_disj pg j k G (Hne j Hj)).
      rewrite write_word_ne by lia. rewrite erase_spec by (done || lia).
      by replace ((slot_addr pg k <=? slot_addr pg j)
               && (slot_addr pg j <? slot_addr pg k + stride pg)) with false by lia.
  - intros j Hj off Hoff Hm. rewrite (same_place_addr pg (push pg k)) by done. simpl in Hoff.
    assert (slot_addr pg j + off <> slot_addr pg k).
    { destruct (decide (j = k)) as [-> | Hjk]; [lia |].
      pose proof (slot_addr_disj pg j k G Hjk). lia. }
    rewrite write_word_ne by done. rewrite erase_spec by (done || lia).
    apply elem_of_cons in Hj as [-> | Hj].
    + replace (slot_addr pg k + off - slot_addr pg k) with off by lia. rewrite Hm.
      replace (_ <=? _) with true by lia. replace (_ <? _) with true by lia. done.
    + pose proof (slot_addr_disj pg j k G (Hne j Hj)).
      replace ((slot_addr pg k <=? slot_addr pg j + off)
               && (slot_addr pg j + off <? slot_addr pg k + stride pg)) with false by lia.
      by apply Z0.
Qed.

(** * The shuffle permutes the slots, so a new slab is well formed *)

Lemma swap_perm (l : list Z) i j :
  (i < length l)%nat -> (j < length l)%nat -> swap l i j ≡ₚ l.
Proof.
  intros Hi Hj. unfold swap.
  destruct (lookup_lt_is_Some_2 l i Hi) as [x Hx].
  destruct (lookup_lt_is_Some_2 l j Hj) as [y Hy].
  rewrite (list_lookup_total_correct l i x), (list_lookup_total_correct l j y) by done.
  destruct (decide (i = j)) as [-> | Hne].
  - rewrite list_insert_insert_eq. by rewrite list_insert_id.
  - apply Permutation_inj. split; [by rewrite !length_insert |].
    exists (fun n => if decide (n = i) then j else if decide (n = j) then i else n).
    split.
    + intros a b. repeat case_decide; intros; congruence.
    + intros n. destruct (decide (n = i)) as [-> |].
      * rewrite list_lookup_insert_eq by (by rewrite length_insert). done.
      * rewrite list_lookup_insert_ne by done. destruct (decide (n = j)) as [-> |].
        -- rewrite list_lookup_insert_eq by done. done.
        -- by rewrite list_lookup_insert_ne.
Qed.

Lemma shuffle_perm random count :
  0 <= count -> shuffle random count ≡ₚ seqZ 0 count.
Proof.
  intros Hc. unfold shuffle.
  assert (forall ids o n, o ≡ₚ seqZ 0 count -> (forall i, i ∈ ids -> 1 <= i < count) ->
    (foldl (fun '(order, n) i =>
       (swap order (Z.to_nat i) (Z.to_nat (random n mod (i + 1))), S n)) (o, n) ids).1
    ≡ₚ seqZ 0 count) as Hgen.
  { induction ids as [| i ids IH]; intros o n Ho Hi; [done |]. simpl. apply IH.
    - assert (1 <= i < count) as Hic by (apply Hi; left).
      assert (length o = Z.to_nat count) as Hlen by (rewrite Ho, length_seqZ; lia).
      pose proof (Z.mod_pos_bound (random n) (i + 1)).
      rewrite swap_perm; [done | lia | lia].
    - intros j Hj. apply Hi. by right. }
  apply Hgen; [done |]. intros i Hi. apply list_elem_of_In, List.in_rev, list_elem_of_In, elem_of_seqZ in Hi. lia.
Qed.

(** A slab as [add] creates it: every slot free, linked in shuffled order. *)
Definition fresh (b : Z) (req : Request) (nxt : Z) (order : list Z) : slab :=
  mkSlab b (r_span req) (r_stride req) (r_cache req) nxt
    (b + (order !!! 0%nat) * r_stride req) (r_span req / r_stride req) [0; 0; 0; 0].

Lemma write_links_other m sec b st order x :
  (forall k, k ∈ order -> x <> b + k * st) -> write_links m sec b st order x = m x.
Proof.
  revert m. induction order as [| k rest IH]; intros m Hx; simpl; [done |].
  rewrite IH by (intros j Hj; apply Hx; by right). apply write_word_ne. apply Hx. left.
Qed.

Lemma write_links_linked sec m pg order :
  geometry pg -> NoDup order ->
  linked sec (write_links m sec (base pg) (stride pg) order) pg order.
Proof.
  intros G. revert m. induction order as [| k rest IH]; intros m N; simpl; [done |].
  apply NoDup_cons in N as [Nk N]. split; [| by apply IH].
  rewrite write_links_other; [by rewrite write_word_eq |].
  intros j Hj He. apply slot_addr_inj in He; [by subst | done].
Qed.

Lemma slot_addr_aligned pg k al :
  geometry pg -> 0 < al -> stride pg mod al = 0 -> slot_addr pg k mod al = 0.
Proof.
  intros G Hal Hm. pose proof (geo_slots pg G) as (H16 & _ & Hspan & Hn).
  pose proof (geo_align pg G) as Hb. unfold slot_addr.
  apply Z.mod_divide in Hb; [| nia]. apply Z.mod_divide in Hm; [| lia].
  apply Z.mod_divide; [lia |]. apply Z.divide_add_r.
  - apply Z.divide_trans with (span pg); [| done]. rewrite Hspan. by apply Z.divide_mul_r.
  - by apply Z.divide_mul_r.
Qed.

Lemma page_ok_fresh sec m b req nxt order :
  geometry (fresh b req nxt order) -> order ≡ₚ seqZ 0 (slots (fresh b req nxt order)) ->
  (forall a, b <= a < b + r_span req -> a mod 8 = 0 -> m a = 0) ->
  page_ok sec (write_links m sec b (r_stride req) order) (fresh b req nxt order) order.
Proof.
  intros G Hperm Hz. pose proof (geo_slots _ G) as (H16 & Hm8 & Hspan & Hn).
  set (pg := fresh b req nxt order) in *.
  assert (NoDup order) as N by (rewrite Hperm; apply NoDup_seqZ).
  assert (forall k, k ∈ order <-> 0 <= k < slots pg) as Hin
    by (intros k; rewrite Hperm, elem_of_seqZ; lia).
  constructor; try done.
  - intros k Hk. by apply Hin.
  - intros k Hk. rewrite Hin. split; [intros _ | done].
    unfold is_live. apply (bit_get_replicate_zero 64 4); lia.
  - simpl. rewrite Hperm, length_seqZ. change (r_span req / r_stride req) with (slots pg). lia.
  - destruct order; [| done].
    pose proof (Permutation_length Hperm) as Hl. rewrite length_seqZ in Hl. simpl in Hl. lia.
  - apply (write_links_linked sec m pg); done.
  - intros k Hk off Hoff Hm. rewrite write_links_other.
    + pose proof (slot_addr_range pg k G (proj1 (Hin k) Hk)).
      assert (base pg = b) as Eb by done. assert (span pg = r_span req) as Es by done. apply Hz; [lia |].
      rewrite Z.add_mod, (slot_addr_aligned pg k 8), Hm by done. done.
    + intros j Hj He. change (b + j * r_stride req) with (slot_addr pg j) in He.
      destruct (decide (j = k)) as [-> | Hne]; [lia |].
      pose proof (slot_addr_disj pg j k G Hne). lia.
Qed.

(** * Requests *)

Lemma trailing_zeros_from_pow2 fuel i k :
  0 <= i <= k -> k < i + Z.of_nat fuel -> trailing_zeros_from fuel i (2 ^ k) = k.
Proof.
  revert i. induction fuel as [| fuel IH]; intros i Hi Hf; [lia |]. simpl.
  destruct (decide (i = k)) as [-> |].
  - by rewrite Z.pow2_bits_true by lia.
  - rewrite Z.pow2_bits_false by lia. apply IH; lia.
Qed.

(** The size class of a request: the least power of two that is at least 16, the
    size and the alignment; refused beyond 2^24 or for an unknown domain. *)
Lemma request_spec l domain :
  layout_valid l -> 0 <= domain ->
  match request l domain with
  | Ok req =>
      domain < DOMAINS /\ exists k, MIN_SHIFT <= k <= MAX_SHIFT
      /\ req = mkRequest (Z.max (2 ^ k) PAGE) (Z.max (2 ^ k) PAGE)
                 (domain * CLASSES + (k - MIN_SHIFT)) (2 ^ k)
      /\ l_size l <= 2 ^ k /\ 2 ^ k mod l_align l = 0
      /\ (MIN_SHIFT < k -> 2 ^ (k - 1) < Z.max (l_size l) (l_align l))
  | Err e => e = Layout /\ (DOMAINS <= domain \/ 2 ^ MAX_SHIFT < Z.max (l_size l) (l_align l))
  | Panic => False
  end.
Proof.
  intros (Hs & Hsa & ka & Hka & Ha) Hd. unfold request.
  destruct (DOMAINS <=? domain) eqn:E; [split; [done |]; lia |].
  set (x := Z.max (Z.max (l_size l) (l_align l)) (Z.shiftl 1 MIN_SHIFT)).
  change (Z.shiftl 1 MIN_SHIFT) with 16 in x. change (Z.shiftl 1 MAX_SHIFT) with (2 ^ 24).
  unfold checked_next_power_of_two. set (k := Z.log2_up x).
  assert (16 <= x) by (unfold x; lia).
  destruct (Z.log2_up_spec x ltac:(lia)) as [Hlo Hhi]. fold k in Hlo, Hhi.
  replace (Z.pred k) with (k - 1) in Hlo by lia.
  assert (0 <= k) by (unfold k; apply Z.log2_up_nonneg).
  assert (4 <= k).
  { change 4 with (Z.log2_up 16). unfold k. by apply Z.log2_up_le_mono. }
  unfold MIN_SHIFT, MAX_SHIFT in *.
  destruct (2 ^ k <? 2 ^ 64) eqn:E64; simpl.
  - destruct (2 ^ 24 <? 2 ^ k) eqn:E24.
    + split; [done |]. right.
      assert (24 < k) by (apply (Z.pow_lt_mono_r_iff 2); lia).
      assert (2 ^ 24 <= 2 ^ (k - 1)) by (apply Z.pow_le_mono_r; lia). unfold x in *. lia.
    + split; [lia |]. exists k.
      assert (k <= 24) by (apply (Z.pow_le_mono_r_iff 2); lia).
      split; [lia |]. split.
      { f_equal. unfold trailing_zeros. rewrite trailing_zeros_from_pow2 by lia. done. }
      split; [unfold x in *; lia |]. split.
      * rewrite Ha. assert (ka <= k).
        { apply (Z.pow_le_mono_r_iff 2); [lia | lia |]. unfold x in *. lia. }
        replace k with (ka + (k - ka)) by lia. rewrite Z.pow_add_r, Z.mul_comm by lia.
        apply Z.mod_mul. lia.
      * intros Hk. assert (2 ^ 4 <= 2 ^ (k - 1)) by (apply Z.pow_le_mono_r; lia).
        unfold x in *. lia.
  - split; [done |]. right.
    assert (64 <= k) by (apply (Z.pow_le_mono_r_iff 2); lia).
    assert (2 ^ 63 <= 2 ^ (k - 1)) by (apply Z.pow_le_mono_r; lia). unfold x in *. lia.
Qed.

(** * The slab table *)

Lemma last_of_range pgs c n : 0 <= last_of pgs c n <= Z.of_nat n.
Proof. induction n as [| n IH]; simpl last_of; [lia |]. case_if; lia. Qed.

Lemma last_of_ext pgs pgs' c n :
  (forall i, (i < n)%nat -> cache (pgs' !!! i) = cache (pgs !!! i)) ->
  last_of pgs' c n = last_of pgs c n.
Proof.
  induction n as [| n IH]; intros H; [done |]. cbn [last_of].
  rewrite H by lia. rewrite IH by (intros; apply H; lia). done.
Qed.

Lemma last_of_spec pgs c n :
  (last_of pgs c n = 0 /\ forall j, (j < n)%nat -> cache (pgs !!! j) <> c)
  \/ exists i, last_of pgs c n = Z.of_nat i + 1 /\ (i < n)%nat /\ cache (pgs !!! i) = c
       /\ forall j, (i < j < n)%nat -> cache (pgs !!! j) <> c.
Proof.
  induction n as [| n IH]; cbn [last_of]; [left; split; [done | lia] |].
  destruct (Z.eqb_spec (cache (pgs !!! n)) c) as [He | Hne].
  - right. exists n. split; [lia |]. split; [lia |]. split; [done | lia].
  - destruct IH as [[-> H] | (i & -> & Hi & Hc & H)]; [left | right; exists i].
    + split; [done |]. intros j Hj. destruct (decide (j = n)) as [-> |]; [done |].
      apply H. lia.
    + split; [done |]. split; [lia |]. split; [done |]. intros j Hj.
      destruct (decide (j = n)) as [-> |]; [done |]. apply H. lia.
Qed.

Lemma sum_pages_ext f pgs pgs' n :
  (forall i, (i < n)%nat -> f (pgs' !!! i) = f (pgs !!! i)) ->
  sum_pages f pgs' n = sum_pages f pgs n.
Proof.
  induction n as [| n IH]; intros H; [done |]. simpl. rewrite H by lia.
  rewrite IH by (intros; apply H; lia). done.
Qed.

Lemma sum_pages_update f pgs i pg n :
  (i < n)%nat -> (n <= length pgs)%nat ->
  sum_pages f (<[i := pg]> pgs) n = sum_pages f pgs n + (f pg - f (pgs !!! i)).
Proof.
  induction n as [| n IH]; intros Hi Hn; [lia |]. simpl.
  destruct (decide (i = n)) as [-> |].
  - rewrite list_lookup_total_insert_eq by lia.
    rewrite (sum_pages_ext f pgs) by
      (intros j Hj; by rewrite list_lookup_total_insert_ne by lia). lia.
  - rewrite list_lookup_total_insert_ne by lia. rewrite IH by lia. lia.
Qed.

Section table.
  Context (s : Slabs) (m : word_mem) (OK : slabs_ok s m).

Lemma page_geo i : (i < Z.to_nat (used s))%nat -> geometry (pages s !!! i).
Proof. intros Hi. destruct (so_page _ _ OK i Hi) as [fl H]. apply H. Qed.

Lemma pages_apart i j :
  (i < Z.to_nat (used s))%nat -> (j < Z.to_nat (used s))%nat -> i <> j ->
  base (pages s !!! i) + span (pages s !!! i) <= base (pages s !!! j)
  \/ base (pages s !!! j) + span (pages s !!! j) <= base (pages s !!! i).
Proof.
  intros Hi Hj Hne. destruct (decide (i < j)%nat).
  - left. apply (so_sorted _ _ OK). lia.
  - right. apply (so_sorted _ _ OK). lia.
Qed.

Lemma used_le_len : (Z.to_nat (used s) <= length (pages s))%nat.
Proof. rewrite (so_pages_len _ _ OK). pose proof (so_used _ _ OK). lia. Qed.

(** Replacing one slab by the same slab with other bookkeeping, with stores
    confined to it, keeps the table well formed. *)
Lemma slabs_ok_update i pg' m' fl' d :
  (i < Z.to_nat (used s))%nat -> same_place (pages s !!! i) pg' ->
  page_ok (secret s) m' pg' fl' ->
  (forall a, ~ base (pages s !!! i) <= a < base (pages s !!! i) + span (pages s !!! i) ->
     m' a = m a) ->
  live_slots pg' = live_slots (pages s !!! i) + d ->
  slabs_ok (mkSlabs (<[i := pg']> (pages s)) (used s) (lists s) (secret s)
              (live_bytes s + d * stride (pages s !!! i)) (reserved_bytes s)
              (allocations s + d)) m'.
Proof.
  intros Hi Hp Hpg Hm Hd. pose proof used_le_len as Hlen.
  assert (forall j, (j < Z.to_nat (used s))%nat ->
            (<[i:=pg']> (pages s) !!! j) = if decide (j = i) then pg' else pages s !!! j) as Hlk.
  { intros j Hj. case_decide as E; [subst; by rewrite list_lookup_total_insert_eq by lia |].
    by rewrite list_lookup_total_insert_ne by done. }
  assert (forall c n, (n <= Z.to_nat (used s))%nat ->
            last_of (<[i:=pg']> (pages s)) c n = last_of (pages s) c n) as Hlast.
  { intros c n Hn. apply last_of_ext. intros j Hj. rewrite Hlk by lia.
    case_decide as E; [subst; apply Hp | done]. }
  pose proof Hp as (Eb & Es & Est & Ec & En).
  constructor; simpl; try apply OK.
  - rewrite length_insert. apply OK.
  - intros j Hj. rewrite Hlk by done. case_decide as E; [by exists fl' |].
    destruct (so_page _ _ OK j Hj) as [fl Hfl]. exists fl.
    eapply page_ok_frame; [| exact Hfl]. intros a Ha. apply Hm.
    pose proof (pages_apart j i Hj Hi E). lia.
  - intros j k Hjk. rewrite !Hlk by lia. pose proof (so_sorted _ _ OK j k Hjk) as Hs.
    repeat case_decide; subst; rewrite ?Eb, ?Es; lia.
  - intros j Hj. rewrite Hlk, Hlast by lia. case_decide as E; [subst; rewrite En, Ec |];
      by apply OK.
  - intros c Hc. rewrite Hlast by lia. by apply OK.
  - rewrite sum_pages_update, (so_live_bytes _ _ OK), Hd, Est by done. lia.
  - rewrite sum_pages_update, (so_reserved _ _ OK), Es by done. lia.
  - rewrite sum_pages_update, (so_allocations _ _ OK), Hd by done. lia.
Qed.
End table.

Lemma page_bits sec m pg fl k :
  page_ok sec m pg fl -> 0 <= k < slots pg -> 0 <= k < 64 * Z.of_nat (length (live pg)).
Proof. intros P Hk. apply live_bits; [apply P | apply P | done]. Qed.

Lemma live_slots_pop sec m pg k rest :
  page_ok sec m pg (k :: rest) -> live_slots (pop pg k rest) = live_slots pg + 1.
Proof.
  intros P. pose proof (po_geo _ _ _ _ P) as G.
  assert (0 <= k < slots pg) as Hk by (eapply po_range; [exact P | left]).
  unfold live_slots. change (slots (pop pg k rest)) with (slots pg).
  apply (count_range_flip _ _ _ k); [lia | done | | |].
  - unfold is_live. simpl. rewrite bit_get_set by (first [lia | by eapply page_bits]).
    by rewrite Z.eqb_refl.
  - eapply po_free_iff; [exact P | done | left].
  - intros j Hj Hne. unfold is_live. simpl.
    rewrite bit_get_set by (first [lia | by eapply page_bits]).
    by rewrite (proj2 (Z.eqb_neq _ _)).
Qed.

Lemma live_slots_push sec m pg fl k :
  page_ok sec m pg fl -> 0 <= k < slots pg -> is_live pg k = true ->
  live_slots (push pg k) = live_slots pg - 1.
Proof.
  intros P Hk Hl. pose proof (po_geo _ _ _ _ P) as G.
  unfold live_slots. change (slots (push pg k)) with (slots pg).
  enough (count_range (is_live pg) 0 (slots pg)
          = count_range (is_live (push pg k)) 0 (slots pg) + 1) by lia.
  apply (count_range_flip _ _ _ k); [lia | done | done | |].
  - unfold is_live. simpl. rewrite bit_get_clear by (first [lia | by eapply page_bits]).
    by rewrite Z.eqb_refl.
  - intros j Hj Hne. unfold is_live. simpl.
    rewrite bit_get_clear by (first [lia | by eapply page_bits]).
    by rewrite (proj2 (Z.eqb_neq _ _)).
Qed.

(** [s] after popping slot [k] of slab [i]. *)
Definition popped (s : Slabs) (i : nat) (k : Z) (rest : list Z) : Slabs :=
  let pg := pages s !!! i in
  mkSlabs (<[i := pop pg k rest]> (pages s)) (used s) (lists s) (secret s)
    (live_bytes s + stride pg) (reserved_bytes s) (allocations s + 1).

(** Taking the head of a well-formed slab passes every check. *)
Lemma alloc_loop_take fuel s m req i k rest visited :
  page_ok (secret s) m (pages s !!! i) (k :: rest) ->
  cache (pages s !!! i) = r_cache req -> (i < Z.to_nat (used s))%nat -> visited < used s ->
  alloc_loop (S fuel) s m req (Z.of_nat i + 1) visited
    = Ok (Some (slot_addr (pages s !!! i) k), popped s i k rest,
          write_word m (slot_addr (pages s !!! i) k) 0).
Proof.
  intros P Hc Hi Hv. cbn [alloc_loop].
  replace (Z.of_nat i + 1 - 1) with (Z.of_nat i) by lia. rewrite Nat2Z.id.
  replace (Z.of_nat i + 1 =? 0) with false by lia.
  replace ((used s <? Z.of_nat i + 1) || (used s <=? visited)) with false by lia.
  set (pg := pages s !!! i) in *. pose proof P as [G L N R F Fr Hd [Lk _] _].
  assert (free pg = 1 + Z.of_nat (length rest)) as Fr' by (rewrite Fr; simpl; lia).
  rewrite Hc, Z.eqb_refl. simpl negb. rewrite Hd.
  replace (free pg =? 0) with false by lia. simpl negb.
  assert (forall j, j ∈ k :: rest -> 0 <= j < slots pg /\ is_live pg j = false) as Hfree.
  { intros j Hj. split; [by apply R | by apply F; [apply R |]]. }
  cbn [head_of]. destruct (Hfree k ltac:(left)) as [Hk Hkl].
  rewrite (validate_free_slot pg k) by done. cbn [mbind outcome_bind].
  rewrite Lk, decode_encode.
  rewrite (proj2 (slot_Ok pg _ k G)) by done.
  destruct rest as [| k' rest']; cbn [head_of].
  - simpl in Fr'. rewrite Z.eqb_refl, Fr'. simpl. unfold popped. fold pg. unfold pop.
    by rewrite Fr', Hc.
  - assert (k' <> k) by (intros ->; apply NoDup_cons in N as [N _]; apply N; left).
    destruct (Hfree k' ltac:(right; left)) as [Hk' Hkl'].
    pose proof (slot_addr_pos pg k' G Hk').
    replace (slot_addr pg k' =? 0) with false by lia. simpl negb. cbn [mbind outcome_bind].
    rewrite validate_free_slot by done. cbn [mbind outcome_bind].
    rewrite (proj2 (Z.eqb_neq (slot_addr pg k') (slot_addr pg k))) by
      (intros He; by apply slot_addr_inj in He). simpl guard_err. cbn [mbind outcome_bind].
    simpl length in Fr'. replace (free pg =? 1) with false by lia.
    simpl. unfold popped. fold pg. unfold pop. by rewrite Hc.
Qed.

Lemma alloc_loop_spec s m req fuel n visited :
  slabs_ok s m -> (n <= Z.to_nat (used s))%nat -> (n < fuel)%nat ->
  visited + Z.of_nat n <= used s ->
  (forall j, (n <= j < Z.to_nat (used s))%nat -> cache (pages s !!! j) = r_cache req ->
     free (pages s !!! j) = 0) ->
  match alloc_loop fuel s m req (last_of (pages s) (r_cache req) n) visited with
  | Ok (None, s', m') => s' = s /\ m' = m
      /\ forall j, (j < Z.to_nat (used s))%nat -> cache (pages s !!! j) = r_cache req ->
           free (pages s !!! j) = 0
  | Ok (Some p, s', m') => exists i k rest, (i < Z.to_nat (used s))%nat
      /\ cache (pages s !!! i) = r_cache req
      /\ page_ok (secret s) m (pages s !!! i) (k :: rest)
      /\ p = slot_addr (pages s !!! i) k
      /\ s' = popped s i k rest /\ m' = write_word m p 0
  | _ => False
  end.
Proof.
  intros OK. revert n visited. induction fuel as [| fuel IH]; intros n visited Hn Hf Hv Hfull;
    [lia |].
  destruct (last_of_spec (pages s) (r_cache req) n)
    as [[-> Hno] | (i & Hcur & Hi & Hc & Hno)].
  - simpl. split; [done |]. split; [done |]. intros j Hj Hcj.
    destruct (decide (j < n)%nat); [by apply Hno in Hcj | apply Hfull; [lia | done]].
  - destruct (so_page _ _ OK i) as [fl P]; [lia |]. rewrite Hcur.
    destruct fl as [| k rest].
    + cbn [alloc_loop]. replace (Z.of_nat i + 1 - 1) with (Z.of_nat i) by lia. rewrite Nat2Z.id.
      replace (Z.of_nat i + 1 =? 0) with false by lia.
      replace ((used s <? Z.of_nat i + 1) || (used s <=? visited)) with false by lia.
      rewrite Hc, Z.eqb_refl, (po_free _ _ _ _ P), (po_head _ _ _ _ P). simpl negb. cbn iota.
      simpl. rewrite (so_next _ _ OK), Hc by lia. apply IH; [lia | lia | lia |].
      intros j Hj Hcj. destruct (decide (j < n)%nat).
      * destruct (decide (j = i)) as [-> |]; [apply P |]. by apply Hno in Hcj; [| lia].
      * apply Hfull; [lia | done].
    + rewrite (alloc_loop_take fuel s m req i k rest) by (done || lia).
      exists i, k, rest. split; [lia |]. done.
Qed.

(** * Slots of the table *)

Lemma slot_at_in_slab s m i k c p st :
  slabs_ok s m -> slot_at s i k c p st -> in_slab s i p /\ 0 < st /\ in_slab s i (p + st - 1).
Proof.
  intros OK (Hi & Hk & Hc & -> & ->). pose proof (page_geo s m OK i Hi) as G.
  pose proof (slot_addr_range _ k G Hk). destruct (geo_slots _ G) as (? & _).
  unfold in_slab. lia.
Qed.

Lemma in_slab_inj s m i j p : slabs_ok s m -> in_slab s i p -> in_slab s j p -> i = j.
Proof.
  intros OK [Hi Hpi] [Hj Hpj]. destruct (decide (i = j)) as [| Hne]; [done |].
  pose proof (pages_apart s m OK i j Hi Hj Hne). lia.
Qed.

(** Two slots are the same slot or do not overlap. *)
Lemma slots_disjoint s m i k c p st i' k' c' p' st' :
  slabs_ok s m -> slot_at s i k c p st -> slot_at s i' k' c' p' st' ->
  (i = i' /\ k = k' /\ p = p') \/ p + st <= p' \/ p' + st' <= p.
Proof.
  intros OK H H'. destruct (slot_at_in_slab _ _ _ _ _ _ _ OK H) as (Hp & Hst & Hpe).
  destruct (slot_at_in_slab _ _ _ _ _ _ _ OK H') as (Hp' & Hst' & Hpe').
  destruct (decide (i = i')) as [<- | Hne].
  - destruct H as (Hi & Hk & _ & -> & ->), H' as (_ & Hk' & _ & -> & ->).
    destruct (decide (k = k')) as [<- | Hne]; [by left |]. right.
    apply slot_addr_disj; [by eapply page_geo | done].
  - right. unfold in_slab in *. pose proof (pages_apart s m OK i i'). lia.
Qed.

Lemma lookup_update (pgs : list slab) i j pg :
  (i < length pgs)%nat -> <[i := pg]> pgs !!! j = if decide (j = i) then pg else pgs !!! j.
Proof.
  intros Hi. case_decide as E; [subst; by rewrite list_lookup_total_insert_eq |].
  by rewrite list_lookup_total_insert_ne.
Qed.

(** Updating the bookkeeping of slab [i] changes the liveness of its slots only. *)
Lemma live_at_update s m s' i pg' c p st :
  slabs_ok s m -> (i < Z.to_nat (used s))%nat -> same_place (pages s !!! i) pg' ->
  pages s' = <[i := pg']> (pages s) -> used s' = used s ->
  live_at s' c p st <->
    exists j k, slot_at s j k c p st
      /\ (if decide (j = i) then is_live pg' k else is_live (pages s !!! j) k) = true.
Proof.
  intros OK Hi Hp Hpg Hu. pose proof (used_le_len s m OK).
  unfold live_at, slot_at. rewrite Hu, Hpg. pose proof Hp as (Eb & Es & Est & Ec & En).
  split; intros (j & k & H1 & H2); exists j, k; revert H1 H2;
    rewrite lookup_update by lia; case_decide as E; subst;
    rewrite ?(same_place_slots _ _ Hp), ?(same_place_addr _ _ _ Hp), ?Ec, ?Est; done.
Qed.

Lemma live_at_popped s m i k rest c p st :
  slabs_ok s m -> (i < Z.to_nat (used s))%nat ->
  page_ok (secret s) m (pages s !!! i) (k :: rest) ->
  live_at (popped s i k rest) c p st <->
    live_at s c p st \/ slot_at s i k c p st.
Proof.
  intros OK Hi P. assert (0 <= k < slots (pages s !!! i)) as Hk by (eapply po_range; [exact P | left]).
  rewrite (live_at_update s m _ i (pop (pages s !!! i) k rest)) by done.
  unfold live_at. split.
  - intros (j & k' & H1 & H2). case_decide as E; [subst | left; eauto].
    unfold is_live in H2. simpl in H2.
    rewrite bit_get_set in H2 by (first [lia | by eapply page_bits | destruct H1; lia]).
    destruct (Z.eqb_spec k' k) as [-> |]; [by right | left; eauto].
  - intros [(j & k' & H1 & H2) | H1].
    + exists j, k'. split; [done |]. case_decide as E; [subst | done].
      unfold is_live. simpl.
      rewrite bit_get_set by (first [lia | by eapply page_bits | destruct H1; lia]).
      unfold is_live in H2. rewrite H2. apply orb_true_r.
    + exists i, k. split; [done |]. rewrite decide_True by done. unfold is_live. simpl.
      rewrite bit_get_set by (first [lia | by eapply page_bits]). by rewrite Z.eqb_refl.
Qed.

Lemma live_at_pushed s m s' i k fl c p st :
  slabs_ok s m -> (i < Z.to_nat (used s))%nat ->
  page_ok (secret s) m (pages s !!! i) fl -> 0 <= k < slots (pages s !!! i) ->
  pages s' = <[i := push (pages s !!! i) k]> (pages s) -> used s' = used s ->
  live_at s' c p st <-> live_at s c p st /\ p <> slot_addr (pages s !!! i) k.
Proof.
  intros OK Hi P Hk Hpg Hu.
  rewrite (live_at_update s m _ i (push (pages s !!! i) k)) by done.
  assert (slot_at s i k (cache (pages s !!! i)) (slot_addr (pages s !!! i) k)
            (stride (pages s !!! i))) as Hs by done.
  unfold live_at. split.
  - intros (j & k' & H1 & H2).
    assert (j <> i \/ k' <> k /\ is_live (pages s !!! i) k' = true) as Hjk.
    { case_decide as E; [subst; right | by left]. unfold is_live in H2. simpl in H2.
      rewrite bit_get_clear in H2 by (first [lia | by eapply page_bits | destruct H1; lia]).
      destruct (Z.eqb_spec k' k); [done |]. split; [done |]. done. }
    split.
    + exists j, k'. split; [done |]. case_decide; subst; [tauto | done].
    + intros ->. destruct (slots_disjoint _ _ _ _ _ _ _ _ _ _ _ _ OK H1 Hs) as [(-> & -> & _) | Hd];
        [tauto |].
      destruct (slot_at_in_slab _ _ _ _ _ _ _ OK H1) as (_ & ? & _).
      destruct (slot_at_in_slab _ _ _ _ _ _ _ OK Hs) as (_ & ? & _). lia.
  - intros [(j & k' & H1 & H2) Hne]. exists j, k'. split; [done |]. case_decide as E; [| done].
    subst j. unfold is_live. simpl.
    rewrite bit_get_clear by (first [lia | by eapply page_bits | destruct H1; lia]).
    destruct (Z.eqb_spec k' k) as [-> |]; [| done].
    destruct H1 as (_ & _ & _ & -> & _). done.
Qed.

(** * Correctness of the operations *)

Lemma cache_stride pg domain k :
  geometry pg -> MIN_SHIFT <= k <= MAX_SHIFT ->
  cache pg = domain * CLASSES + (k - MIN_SHIFT) -> stride pg = 2 ^ k.
Proof.
  intros [(k' & Hk' & -> & Hm) _ _ _ _] Hk Hc. f_equal. rewrite Hc in Hm.
  rewrite Z.add_comm, Z.mod_add in Hm by done.
  unfold CLASSES, MIN_SHIFT, MAX_SHIFT in *. rewrite Z.mod_small in Hm by lia. lia.
Qed.

(** A slot is aligned to its size, hence to every alignment dividing it. *)
Lemma layout_align_pos l : layout_valid l -> 0 < l_align l.
Proof. intros (_ & _ & k & Hk & ->). apply Z.pow_pos_nonneg; lia. Qed.

Definition cache_in_range (req : Request) : Prop := 0 <= r_cache req < DOMAINS * CLASSES.
Lemma request_cache l domain req :
  layout_valid l -> 0 <= domain -> request l domain = Ok req -> cache_in_range req.
Proof.
  intros Hl Hd Hr. pose proof (request_spec l domain Hl Hd) as H. rewrite Hr in H.
  destruct H as (Hdom & k & Hk & -> & _). unfold cache_in_range. simpl.
  unfold DOMAINS, CLASSES, MIN_SHIFT, MAX_SHIFT in *. lia.
Qed.

(** What [allocate] promises: the pointer is a fresh zeroed object of the
    requested class, disjoint from every live one. *)
Definition allocated (s : Slabs) (m : word_mem) (l : layout) (req : Request) (p : Z)
  (s' : Slabs) (m' : word_mem) : Prop :=
  slabs_ok s' m' /\ p mod l_align l = 0 /\ l_size l <= r_stride req
  /\ (forall c q st, live_at s' c q st <->
        live_at s c q st \/ (c = r_cache req /\ q = p /\ st = r_stride req))
  /\ (forall c q st, live_at s c q st -> p + r_stride req <= q \/ q + st <= p)
  /\ (forall off, 0 <= off < r_stride req -> off mod 8 = 0 -> m' (p + off) = 0)
  /\ (forall a, a <> p -> m' a = m a).

Lemma slab_allocate_spec s m l domain :
  slabs_ok s m -> layout_valid l -> 0 <= domain ->
  match allocate s m l domain with
  | Ok (Some p, s', m') => exists req, request l domain = Ok req /\ allocated s m l req p s' m'
  | Ok (None, s', m') => s' = s /\ m' = m /\ exists req, request l domain = Ok req
      /\ forall j, (j < Z.to_nat (used s))%nat -> cache (pages s !!! j) = r_cache req ->
           free (pages s !!! j) = 0
  | Err e => e = Layout /\ request l domain = Err Layout
  | Panic => False
  end.
Proof.
  intros OK Hl Hd. unfold allocate. pose proof (request_spec l domain Hl Hd) as Hr.
  destruct (request l domain) as [req | e |] eqn:Ereq; [| simpl; by destruct Hr as [-> _] | done].
  cbn [mbind outcome_bind]. pose proof (request_cache l domain req Hl Hd Ereq) as Hc.
  rewrite (so_lists _ _ OK) by done.
  pose proof (alloc_loop_spec s m req (S (Z.to_nat (used s))) (Z.to_nat (used s)) 0 OK
                ltac:(lia) ltac:(lia)) as H.
  pose proof (so_used _ _ OK). specialize (H ltac:(lia) ltac:(intros; lia)).
  destruct (alloc_loop _ _ _ _ _ _) as [[[[p |] s'] m'] | e |]; [| | done | done].
  2: { destruct H as (-> & -> & Hfull). eauto. }
  destruct H as (i & k & rest & Hi & Hci & P & -> & -> & ->). exists req. split; [done |].
  destruct Hr as (Hdom & kk & Hkk & -> & Hsz & Hal & _). simpl in *.
  pose proof (po_geo _ _ _ _ P) as G. pose proof (cache_stride _ _ _ G Hkk Hci) as Hst.
  assert (0 <= k < slots (pages s !!! i)) as Hk by (eapply po_range; [exact P | left]).
  assert (slot_at s i k (cache (pages s !!! i)) (slot_addr (pages s !!! i) k) (2 ^ kk)) as Hs by done.
  unfold allocated. simpl. split_and!.
  - unfold popped. rewrite <- (Z.mul_1_l (stride _)).
    eapply slabs_ok_update; [done | done | done | by apply page_ok_pop | |].
    + intros a Ha. apply write_word_ne. pose proof (slot_addr_range _ k G Hk).
      destruct (geo_slots _ G) as (? & _). lia.
    + by eapply live_slots_pop.
  - apply slot_addr_aligned; [done | by apply layout_align_pos | by rewrite Hst].
  - done.
  - intros c q st. rewrite (live_at_popped s m) by done. unfold slot_at. rewrite Hci, Hst.
    naive_solver.
  - intros c q st (j & k' & H1 & H2).
    destruct (slots_disjoint _ _ _ _ _ _ _ _ _ _ _ _ OK Hs H1) as [(<- & <- & _) | Hdj]; [| lia].
    assert (is_live (pages s !!! i) k = false) by (eapply po_free_iff; [exact P | done | left]).
    congruence.
  - intros off Hoff Hm. destruct (decide (off = 0)) as [-> |].
    + rewrite Z.add_0_r. apply write_word_eq.
    + rewrite write_word_ne by lia. eapply po_zero; [exact P | left | lia | done].
  - intros a Ha. by apply write_word_ne.
Qed.

Lemma partition_point_spec {A} `{Inhabited A} (f : A -> bool) (l : list A) :
  exists n, partition_point f l = Z.of_nat n /\ (n <= length l)%nat
    /\ (forall i, (i < n)%nat -> f (l !!! i) = true)
    /\ ((n < length l)%nat -> f (l !!! n) = false).
Proof.
  induction l as [| x l (n & Hpp & Hn & Hlt & Hge)]; simpl; rewrite ?Hpp.
  - exists 0%nat. split; [done |]. split; [lia |]. split; intros; lia.
  - destruct (f x) eqn:E.
    + exists (S n). split; [lia |]. split; [lia |]. split.
      * intros [| i] Hi; [done |]. apply Hlt. lia.
      * intros Hn'. apply Hge. lia.
    + exists 0%nat. split; [done |]. split; [lia |]. split; [lia | done].
Qed.

(** The binary search of [deallocate] finds the slab that holds the pointer. *)
Lemma find_page s m p :
  slabs_ok s m ->
  match checked_sub (partition_point (fun pg => base pg <=? p)
                       (take (Z.to_nat (used s)) (pages s))) 1 with
  | Some n => (Z.to_nat n < Z.to_nat (used s))%nat
              /\ forall i, in_slab s i p -> i = Z.to_nat n
  | None => forall i, ~ in_slab s i p
  end.
Proof.
  intros OK. pose proof (used_le_len s m OK) as Hlen.
  destruct (partition_point_spec (fun pg => base pg <=? p)
              (take (Z.to_nat (used s)) (pages s))) as (n & -> & Hn & Hlt & Hge).
  rewrite length_take, Nat.min_l in Hn, Hge by done.
  assert (forall i, (i < Z.to_nat (used s))%nat ->
            take (Z.to_nat (used s)) (pages s) !!! i = pages s !!! i) as Htk.
  { intros i Hi. rewrite !list_lookup_total_alt, lookup_take_lt by done. done. }
  assert (forall i, in_slab s i p -> i = (n - 1)%nat /\ (0 < n)%nat) as Huniq.
  { intros i [Hi Hp]. assert (i < n)%nat as Hin.
    { destruct (decide (i < n)%nat); [done |]. rewrite Htk in Hge by lia.
      assert (base (pages s !!! n) <= base (pages s !!! i)); [| lia].
      destruct (decide (i = n)) as [-> |]; [lia |].
      pose proof (so_sorted _ _ OK n i ltac:(lia)) as Hs.
      pose proof (page_geo s m OK n ltac:(lia)) as G.
      destruct (geo_slots _ G) as (? & _ & ? & ?). nia. }
    split; [| lia]. destruct (decide (i = (n - 1)%nat)); [done |].
    pose proof (so_sorted _ _ OK i (n - 1)%nat ltac:(lia)) as Hs.
    specialize (Hlt (n - 1)%nat ltac:(lia)). rewrite Htk in Hlt by lia. lia. }
  unfold checked_sub. case_if.
  - replace (Z.to_nat (Z.of_nat n - 1)) with (n - 1)%nat by lia. split; [lia |].
    intros i Hi. by apply Huniq.
  - intros i Hi. destruct (Huniq i Hi). lia.
Qed.

Definition deallocated (s : Slabs) (m : word_mem) (req : Request) (p : Z)
  (s' : Slabs) (m' : word_mem) : Prop :=
  slabs_ok s' m' /\ live_at s (r_cache req) p (r_stride req)
  /\ (forall c q st, live_at s' c q st <-> live_at s c q st /\ q <> p)
  /\ (forall off, 0 < off < r_stride req -> off mod 8 = 0 -> m' (p + off) = 0)
  /\ (forall a, ~ p <= a < p + r_stride req -> m' a = m a).

(** Why [deallocate] refuses a pointer. *)
Definition refused (s : Slabs) (req : Request) (p : Z) (e : Error) : Prop :=
  match e with
  | Range => forall i, ~ in_slab s i p
  | Alignment => (exists i, in_slab s i p) /\ forall i k c st, ~ slot_at s i k c p st
  | Layout => exists i k c st, slot_at s i k c p st /\ c <> r_cache req
  | DoubleFree => (exists i k st, slot_at s i k (r_cache req) p st)
                  /\ forall c st, ~ live_at s c p st
  | Corrupt | Exhausted => False
  end.

Lemma live_at_slot s m i k c p st c' st' :
  slabs_ok s m -> slot_at s i k c p st -> live_at s c' p st' ->
  c' = c /\ st' = st /\ is_live (pages s !!! i) k = true.
Proof.
  intros OK H (j & k' & H' & Hl).
  destruct (slots_disjoint _ _ _ _ _ _ _ _ _ _ _ _ OK H H') as [(<- & <- & _) | Hd].
  - destruct H as (_ & _ & <- & _ & ->), H' as (_ & _ & <- & _ & ->). done.
  - destruct (slot_at_in_slab _ _ _ _ _ _ _ OK H) as (_ & ? & _).
    destruct (slot_at_in_slab _ _ _ _ _ _ _ OK H') as (_ & ? & _). lia.
Qed.

Lemma deallocate_spec s m p l domain :
  slabs_ok s m -> layout_valid l -> 0 <= domain ->
  match request l domain with
  | Ok req =>
      match deallocate s m p l domain with
      | Ok (s', m') => deallocated s m req p s' m'
      | Err e => refused s req p e
      | Panic => False
      end
  | _ => deallocate s m p l domain = Err Layout
  end.
Proof.
  intros OK Hl Hd. unfold deallocate. pose proof (request_spec l domain Hl Hd) as Hr.
  destruct (request l domain) as [req | e |] eqn:Ereq; [| simpl; by destruct Hr as [-> _] | done].
  cbn [mbind outcome_bind]. pose proof (find_page s m p OK) as Hfind.
  destruct (checked_sub _ 1) as [n |]; cbn [ok_or mbind outcome_bind]; [| exact Hfind].
  destruct Hfind as [Hi Huniq]. set (i := Z.to_nat n) in *. set (pg := pages s !!! i).
  destruct (so_page _ _ OK i Hi) as [fl P]. fold pg in P. pose proof (po_geo _ _ _ _ P) as G.
  destruct (slot pg p) as [k | e |] eqn:Eslot; cbn [mbind outcome_bind];
    [| | by apply slot_no_panic in Eslot].
  2: { apply slot_Err in Eslot as [[-> Ho] | (-> & Ho & Hm)]; [| | done]; simpl.
       - intros j Hj. pose proof (Huniq j Hj) as ->. by apply Ho, Hj.
       - split; [by exists i |]. intros j k c st Hs.
         pose proof (Huniq j (proj1 (slot_at_in_slab _ _ _ _ _ _ _ OK Hs))) as ->.
         apply Hm. destruct Hs as (_ & _ & _ & -> & _). unfold slot_addr. fold pg.
         replace (base pg + k * stride pg - base pg) with (k * stride pg) by lia.
         apply Z.mod_mul. destruct (geo_slots _ G). lia. }
  apply slot_Ok in Eslot as [Hk ->]; [| done].
  assert (slot_at s i k (cache pg) (slot_addr pg k) (stride pg)) as Hs by done.
  destruct (Z.eqb_spec (cache pg) (r_cache req)) as [Hc | Hc];
    cbn [guard_err negb mbind outcome_bind]; [| by exists i, k, (cache pg), (stride pg)].
  destruct (is_live pg k) eqn:Hlive; cbn [guard_err negb mbind outcome_bind].
  2: { split; [exists i, k, (stride pg); by rewrite <- Hc |]. intros c st Hl'.
       destruct (live_at_slot _ _ _ _ _ _ _ _ _ OK Hs Hl') as (_ & _ & Hl2). fold pg in Hl2.
       congruence. }
  assert ((if negb (free pg =? 0) then validate_free pg (head pg)
           else guard_err (negb (head pg =? 0)) Corrupt) = Ok tt) as ->.
  { rewrite (po_free _ _ _ _ P), (po_head _ _ _ _ P). destruct fl as [| k' fl'] eqn:Efl; [done |].
    simpl. assert (0 <= k' < slots pg) by (eapply po_range; [exact P | left]).
    apply validate_free_slot; [done | done |]. eapply po_free_iff; [exact P | done | left]. }
  cbn [mbind outcome_bind].
  destruct Hr as (Hdom & kk & Hkk & -> & _). simpl in Hc.
  pose proof (cache_stride _ _ _ G Hkk Hc) as Hst.
  destruct (geo_slots _ G) as (H16 & Hm8 & _). pose proof (slot_addr_range _ k G Hk).
  unfold deallocated. simpl. split_and!.
  - replace (live_bytes s - stride pg) with (live_bytes s + (-1) * stride pg) by lia.
    eapply slabs_ok_update; [done | done | done | by eapply page_ok_push | |].
    + intros a Ha. fold pg in Ha. rewrite write_word_ne by lia. rewrite erase_spec by lia.
      replace ((slot_addr pg k <=? a) && (a <? slot_addr pg k + stride pg)) with false by lia. done.
    + exact (live_slots_push (secret s) m pg fl k P Hk Hlive).
  - exists i, k. rewrite <- Hc, <- Hst. done.
  - intros c q st. by apply (live_at_pushed s m _ i k fl).
  - intros off Hoff Hm. rewrite write_word_ne by lia. rewrite erase_spec by lia.
    replace (slot_addr pg k + off - slot_addr pg k) with off by lia. rewrite Hm.
    replace (_ <=? _) with true by lia. replace (_ <? _) with true by lia. done.
  - intros a Ha. rewrite write_word_ne by lia. rewrite erase_spec by lia.
    replace ((slot_addr pg k <=? a) && (a <? slot_addr pg k + stride pg)) with false by lia. done.
Qed.

Lemma sum_pages_snoc f pgs n pg :
  (n < length pgs)%nat -> sum_pages f (<[n := pg]> pgs) (S n) = f pg + sum_pages f pgs n.
Proof.
  intros Hn. simpl. rewrite list_lookup_total_insert_eq by done. f_equal.
  apply sum_pages_ext. intros i Hi. by rewrite list_lookup_total_insert_ne by lia.
Qed.

Lemma sum_pages_zero f pgs n : (forall i, (i < n)%nat -> f (pgs !!! i) = 0) -> sum_pages f pgs n = 0.
Proof. induction n as [| n IH]; intros H; [done |]. simpl. rewrite H, IH by (intros; try apply H; lia). done. Qed.

Lemma fresh_geometry l domain req b nxt order :
  layout_valid l -> 0 <= domain -> request l domain = Ok req ->
  0 < b -> b mod r_span req = 0 -> b + r_span req < 2 ^ 64 ->
  geometry (fresh b req nxt order).
Proof.
  intros Hl Hd Hr Hb Hm He. pose proof (request_cache _ _ _ Hl Hd Hr) as Hc.
  pose proof (request_spec l domain Hl Hd) as H. rewrite Hr in H.
  destruct H as (Hdom & k & Hk & -> & _). constructor; simpl in *; try done.
  exists k. split; [done |]. split; [done |].
  rewrite Z.add_comm, Z.mod_add by done. apply Z.mod_small.
  unfold CLASSES, MIN_SHIFT, MAX_SHIFT in *. lia.
Qed.

(** Appending a slab of free slots above all the others, at the head of the list
    of its cache, keeps the table well formed and creates no live object. *)
Section extend.
  Context (s : Slabs) (m m' : word_mem) (pg : slab) (fl : list Z).
  Context (OK : slabs_ok s m) (Hroom : used s < MAX_SLABS).
  Context (P : page_ok (secret s) m' pg fl) (Hl0 : live_slots pg = 0).
  Context (Hnext : next pg = lists s !!! Z.to_nat (cache pg)).
  Context (Habove : forall j, (j < Z.to_nat (used s))%nat ->
             base (pages s !!! j) + span (pages s !!! j) <= base pg).
  Context (Hm' : forall a, ~ base pg <= a < base pg + span pg -> m' a = m a).

Let n := Z.to_nat (used s).
Let pgs' := <[n := pg]> (pages s).
Definition extended : Slabs :=
  mkSlabs pgs' (used s + 1) (<[Z.to_nat (cache pg) := used s + 1]> (lists s)) (secret s)
    (live_bytes s) (reserved_bytes s + span pg) (allocations s).

Lemma extended_len : (n < length (pages s))%nat /\ Z.to_nat (used s + 1) = S n.
Proof. rewrite (so_pages_len _ _ OK). pose proof (so_used _ _ OK). lia. Qed.
Lemma extended_old j : (j < n)%nat -> pgs' !!! j = pages s !!! j.
Proof. intros Hj. unfold pgs'. by rewrite list_lookup_total_insert_ne by lia. Qed.
Lemma extended_new : pgs' !!! n = pg.
Proof. apply list_lookup_total_insert_eq, extended_len. Qed.
Lemma extended_last c k : (k <= n)%nat -> last_of pgs' c k = last_of (pages s) c k.
Proof. intros Hk. apply last_of_ext. intros i Hi. by rewrite extended_old by lia. Qed.

Lemma slabs_ok_extended : slabs_ok extended m'.
Proof.
  destruct extended_len as [Hnl HSn]. pose proof (so_used _ _ OK) as Hu.
  pose proof (geo_cache _ (po_geo _ _ _ _ P)) as Hc.
  constructor; simpl; rewrite ?HSn; try apply OK.
  - unfold pgs'. rewrite length_insert. apply OK.
  - rewrite length_insert. apply OK.
  - lia.
  - intros i Hi. destruct (decide (i = n)) as [-> |]; [rewrite extended_new; by exists fl |].
    rewrite extended_old by lia. destruct (so_page _ _ OK i ltac:(lia)) as [fl' Pi]. exists fl'.
    eapply page_ok_frame; [| exact Pi]. intros a Ha. apply Hm'.
    specialize (Habove i ltac:(lia)). lia.
  - intros i j Hij. rewrite (extended_old i) by lia.
    destruct (decide (j = n)) as [-> |]; [rewrite extended_new; apply Habove; lia |].
    rewrite extended_old by lia. apply OK. lia.
  - intros i Hi. destruct (decide (i = n)) as [-> |].
    + rewrite extended_new, extended_last, Hnext by lia. by apply OK.
    + rewrite extended_old, extended_last by lia. apply OK. lia.
  - intros c Hcr. cbn [last_of]. rewrite extended_new, extended_last by lia.
    destruct (Z.eqb_spec (cache pg) c) as [<- | Hne].
    + rewrite list_lookup_total_insert_eq by (rewrite (so_lists_len _ _ OK); lia). lia.
    + rewrite list_lookup_total_insert_ne by lia. by apply OK.
  - unfold pgs'. rewrite sum_pages_snoc, Hl0, (so_live_bytes _ _ OK) by done. fold n. lia.
  - unfold pgs'. rewrite sum_pages_snoc, (so_reserved _ _ OK) by done. fold n. lia.
  - unfold pgs'. rewrite sum_pages_snoc, Hl0, (so_allocations _ _ OK) by done. fold n. lia.
Qed.

Lemma live_at_extended c p st : live_at extended c p st <-> live_at s c p st.
Proof.
  destruct extended_len as [Hnl HSn].
  unfold live_at, slot_at. simpl. rewrite HSn. fold n. split.
  - intros (i & k & (Hi & H1 & H2) & H3). destruct (decide (i = n)) as [-> |].
    + rewrite extended_new in H1, H3. unfold live_slots in Hl0.
      rewrite (proj1 (count_range_zero (is_live pg) (slots pg) ltac:(lia)) Hl0) in H3 by done.
      done.
    + rewrite extended_old in H1, H2, H3 by lia. exists i, k. split; [| done]. split; [lia |]. done.
  - intros (i & k & (Hi & H1) & H2). exists i, k. rewrite extended_old by lia. split; [| done].
    split; [lia | done].
Qed.
End extend.

(** [add] publishes a slab of free slots above every existing one. *)
Lemma add_spec s m b l domain req random :
  slabs_ok s m -> layout_valid l -> 0 <= domain -> request l domain = Ok req -> 0 <= b ->
  (forall a, b <= a < b + r_span req -> a mod 8 = 0 -> m a = 0) ->
  match add s m b req random with
  | Ok (s', m') => slabs_ok s' m' /\ (forall c p st, live_at s' c p st <-> live_at s c p st)
      /\ (forall a, ~ b <= a < b + r_span req -> m' a = m a)
      /\ used s' = used s + 1
      /\ cache (pages s' !!! Z.to_nat (used s)) = r_cache req
      /\ free (pages s' !!! Z.to_nat (used s)) <> 0
  | Err Exhausted => used s = MAX_SLABS
  | Err Alignment => b = 0 \/ b mod r_span req <> 0 \/ 2 ^ 64 <= b + r_span req
  | Err Range => 0 < used s /\
      b < base (pages s !!! Z.to_nat (used s - 1)) + span (pages s !!! Z.to_nat (used s - 1))
  | _ => False
  end.
Proof.
  intros OK Hl Hd Hr Hb Hz. pose proof (so_used _ _ OK) as Hu. unfold add, has_metadata.
  destruct (used s <? MAX_SLABS) eqn:Emeta; simpl negb; cbn iota; [| lia].
  pose proof (request_cache _ _ _ Hl Hd Hr) as Hc. unfold cache_in_range in Hc.
  assert (r_span req = Z.max (r_stride req) PAGE /\ r_align req = r_span req) as [Hsp Hal].
  { pose proof (request_spec l domain Hl Hd) as H. rewrite Hr in H.
    by destruct H as (_ & k & _ & -> & _). }
  rewrite Hal, (so_lists_len _ _ OK), <- Hsp, !Z.eqb_refl. simpl negb.
  replace (Z.of_nat (Z.to_nat (DOMAINS * CLASSES)) <=? r_cache req) with false
    by (symmetry; apply Z.leb_gt; lia). simpl orb. cbn iota.
  destruct ((b =? 0) || negb (b mod r_span req =? 0)
            || bool_decide (checked_add 64 b (r_span req) = None)) eqn:Eal.
  { unfold checked_add in Eal. case_if; rewrite ?bool_decide_eq_false_2 in Eal by done; lia. }
  assert (0 < b /\ b mod r_span req = 0 /\ b + r_span req < 2 ^ 64) as (Hb0 & Hbm & Hbe).
  { unfold checked_add in Eal. case_if; [lia |]. rewrite bool_decide_eq_true_2 in Eal by done. lia. }
  destruct (negb (used s =? 0) && _) eqn:Erange; [lia |].
  set (order := shuffle random (r_span req / r_stride req)).
  set (nxt := lists s !!! Z.to_nat (r_cache req)).
  pose proof (fresh_geometry l domain req b nxt order Hl Hd Hr Hb0 Hbm Hbe) as G.
  change (mkSlab b _ _ _ _ _ _ _) with (fresh b req nxt order).
  set (m' := write_links m (secret s) b (r_stride req) order).
  set (pg := fresh b req nxt order) in *. destruct (geo_slots _ G) as (H16 & _ & Hspan & Hn).
  assert (page_ok (secret s) m' pg order) as P.
  { apply page_ok_fresh; [done | | done]. apply shuffle_perm.
    fold pg. lia. }
  assert (forall a, ~ b <= a < b + r_span req -> m' a = m a) as Hm'.
  { intros a Ha. apply write_links_other. intros k Hk ->.
    pose proof (slot_addr_range _ k G (po_range _ _ _ _ P k Hk)) as Hsl.
    unfold slot_addr in Hsl. simpl in Hsl, H16. lia. }
  assert (forall j, (j < Z.to_nat (used s))%nat ->
            base (pages s !!! j) + span (pages s !!! j) <= b) as Habove.
  { intros j Hj. set (lst := Z.to_nat (used s - 1)) in *.
    destruct (decide (j = lst)) as [-> |]; [lia |].
    pose proof (so_sorted _ _ OK j lst ltac:(lia)) as Hs.
    destruct (geo_slots _ (page_geo s m OK lst ltac:(lia))) as (? & _ & ? & ?). nia. }
  assert (live_slots pg = 0) as Hl0.
  { apply count_range_zero; [lia |]. intros i Hi. unfold is_live.
    apply (bit_get_replicate_zero 64 4); lia. }
  assert (pages (extended s pg) !!! Z.to_nat (used s) = pg) as Hnew
    by (apply (extended_new s m); [done | lia]).
  change (mkSlabs _ _ _ _ _ _ _) with (extended s pg). split_and!.
  - apply (slabs_ok_extended s m m' pg order); first [done | lia].
  - intros c p st. apply (live_at_extended s m pg); first [done | lia].
  - done.
  - done.
  - by rewrite Hnew.
  - rewrite Hnew. change (slots pg <> 0). lia.
Qed.

(** * Runs of the heap

    Between heap calls, clients store to objects they own. *)
Inductive step : Slabs * word_mem -> Slabs * word_mem -> Prop :=
| step_allocate s m l domain r s' m' :
    layout_valid l -> 0 <= domain ->
    allocate s m l domain = Ok (r, s', m') -> step (s, m) (s', m')
| step_deallocate s m p l domain s' m' :
    layout_valid l -> 0 <= domain ->
    deallocate s m p l domain = Ok (s', m') -> step (s, m) (s', m')
| step_add s m b l domain req random s' m' :
    layout_valid l -> 0 <= domain -> request l domain = Ok req -> 0 <= b ->
    (forall a, b <= a < b + r_span req -> a mod 8 = 0 -> m a = 0) ->
    add s m b req random = Ok (s', m') -> step (s, m) (s', m')
| step_client s m c p st a v :
    live_at s c p st -> p <= a < p + st -> step (s, m) (s, write_word m a v).

Inductive reachable (sec : Z) : Slabs * word_mem -> Prop :=
| reachable_new s m : seed new sec = Ok s -> reachable sec (s, m)
| reachable_step x y : reachable sec x -> step x y -> reachable sec y.

Lemma slabs_ok_new sec s m : seed new sec = Ok s -> slabs_ok s m.
Proof.
  unfold seed. change (used new =? 0) with true. cbn iota. intros <-%Ok_inj.
  constructor; cbn [pages used lists secret live_bytes reserved_bytes allocations new].
  - apply length_replicate.
  - apply length_replicate.
  - done.
  - intros i Hi. simpl in Hi. lia.
  - intros i j Hi. simpl in Hi. lia.
  - intros i Hi. simpl in Hi. lia.
  - intros c Hc. simpl last_of. rewrite lookup_total_replicate_2; [done | lia].
  - done.
  - done.
  - done.
Qed.

Lemma slabs_ok_client s m c p st a v :
  slabs_ok s m -> live_at s c p st -> p <= a < p + st -> slabs_ok s (write_word m a v).
Proof.
  intros OK (i & k & Hs & Hlive) Ha. constructor; try apply OK.
  intros j Hj. destruct (so_page _ _ OK j Hj) as [fl P]. exists fl.
  apply (page_ok_frame_slots _ m); [| done]. intros k' Hk' off Hoff.
  apply write_word_ne. intros He.
  assert (slot_at s j k' (cache (pages s !!! j)) (slot_addr (pages s !!! j) k')
            (stride (pages s !!! j))) as Hs'.
  { split; [done |]. split; [by eapply po_range |]. done. }
  destruct (slots_disjoint _ _ _ _ _ _ _ _ _ _ _ _ OK Hs Hs') as [(<- & <- & _) | Hd]; [| lia].
  destruct Hs as (_ & Hk & _). apply (po_free_iff _ _ _ _ P) in Hk as [Hf _].
  rewrite (Hf Hk') in Hlive. done.
Qed.

Lemma slabs_ok_step x y : slabs_ok x.1 x.2 -> step x y -> slabs_ok y.1 y.2.
Proof.
  intros OK Hs. destruct Hs as [s m l domain r s' m' Hl Hd E | s m p l domain s' m' Hl Hd E
    | s m b l domain req random s' m' Hl Hd Hr Hb Hz E | s m c p st a v Hlive Ha]; simpl in *.
  - pose proof (slab_allocate_spec s m l domain OK Hl Hd) as H. rewrite E in H.
    destruct r as [p |]; [destruct H as (req & _ & H); apply H | by destruct H as (-> & -> & _)].
  - pose proof (deallocate_spec s m p l domain OK Hl Hd) as H.
    destruct (request l domain); rewrite E in H; [apply H | done | done].
  - pose proof (add_spec s m b l domain req random OK Hl Hd Hr Hb Hz) as H. rewrite E in H. apply H.
  - by eapply slabs_ok_client.
Qed.

Lemma slab_reachable_ok sec x : reachable sec x -> slabs_ok x.1 x.2.
Proof.
  induction 1 as [s m Hs | x y _ IH Hs]; [by eapply slabs_ok_new | by eapply slabs_ok_step].
Qed.

(** The loop of [allocate] ends within its fuel, from any state at all. *)
Lemma alloc_loop_total fuel s m req cursor visited :
  used s - visited < Z.of_nat fuel -> 0 < Z.of_nat fuel ->
  alloc_loop fuel s m req cursor visited <> Panic.
Proof.
  revert cursor visited. induction fuel as [| fuel IH]; intros cursor visited Hf H0; [lia |].
  cbn [alloc_loop]. destruct (cursor =? 0); [done |].
  destruct ((used s <? cursor) || (used s <=? visited)) eqn:E; [done |].
  set (pg := pages s !!! Z.to_nat (cursor - 1)).
  destruct (negb (cache pg =? r_cache req)); [done |].
  destruct (negb (free pg =? 0)).
  - pose proof (slot_no_panic pg). unfold validate_free. no_panic.
  - destruct (negb (head pg =? 0)); [done |]. apply IH; lia.
Qed.

(** * Properties *)

(** C2. In every reachable heap the table is well formed (each slab's free list
    is exactly its slots that are not live, properly linked, zeroed and counted;
    the byte and object counters are the sums over the slabs), live objects never
    overlap, and [allocate] never reports corruption: its only error is a layout
    no size class serves. *)
Theorem slab_heap_invariant sec x :
  reachable sec x ->
  slabs_ok x.1 x.2
  /\ (forall c p st c' q st', live_at x.1 c p st -> live_at x.1 c' q st' ->
        (c = c' /\ p = q /\ st = st') \/ p + st <= q \/ q + st' <= p)
  /\ (forall l domain e, layout_valid l -> 0 <= domain ->
        allocate x.1 x.2 l domain = Err e -> request l domain = Err Layout /\ e = Layout).
Proof.
  intros R. pose proof (slab_reachable_ok sec x R) as OK. split; [done |]. split.
  - intros c p st c' q st' (i & k & H1 & _) (j & k' & H2 & _).
    destruct (slots_disjoint _ _ _ _ _ _ _ _ _ _ _ _ OK H1 H2) as [(<- & <- & <-) | Hd]; [| lia].
    left. destruct H1 as (_ & _ & <- & _ & ->), H2 as (_ & _ & <- & _ & ->). done.
  - intros l domain e Hl Hd E. pose proof (slab_allocate_spec _ _ l domain OK Hl Hd) as H.
    rewrite E in H. naive_solver.
Qed.

(** On a well-formed heap [allocate] either returns an object that is aligned
    as requested, large enough, zero in every word and disjoint from every live
    object, recording it and nothing else as live; or asks for a new slab, and
    then every slab of the size class is full and nothing changed; or refuses a
    layout that has no size class. *)
Theorem slab_allocate_correct s m l domain :
  slabs_ok s m -> layout_valid l -> 0 <= domain ->
  match allocate s m l domain with
  | Ok (Some p, s', m') => exists req, request l domain = Ok req /\ allocated s m l req p s' m'
  | Ok (None, s', m') => s' = s /\ m' = m /\ exists req, request l domain = Ok req
      /\ forall j, (j < Z.to_nat (used s))%nat -> cache (pages s !!! j) = r_cache req ->
           free (pages s !!! j) = 0
  | Err e => e = Layout /\ request l domain = Err Layout
  | Panic => False
  end.
Proof. apply slab_allocate_spec. Qed.

(** C11. [deallocate] accepts exactly the live objects of the caller's class: it
    then erases the object and removes it, and only it, from the live set.  Every
    other pointer is refused with the error that names the reason (outside every
    slab, between slots, other class, not live) and nothing changes. *)
Theorem slab_deallocate_correct s m p l domain :
  slabs_ok s m -> layout_valid l -> 0 <= domain ->
  match request l domain with
  | Ok req =>
      match deallocate s m p l domain with
      | Ok (s', m') => deallocated s m req p s' m'
      | Err e => refused s req p e
      | Panic => False
      end
  | _ => deallocate s m p l domain = Err Layout
  end.
Proof. apply deallocate_spec. Qed.

(** Growing: a slab added in zeroed memory above the existing ones keeps the
    heap well formed, and the allocation it was added for then succeeds. *)
Theorem slab_add_then_allocate s m b l domain req random s' m' :
  slabs_ok s m -> layout_valid l -> 0 <= domain -> request l domain = Ok req -> 0 <= b ->
  (forall a, b <= a < b + r_span req -> a mod 8 = 0 -> m a = 0) ->
  add s m b req random = Ok (s', m') ->
  exists p s'' m'', allocate s' m' l domain = Ok (Some p, s'', m'')
    /\ allocated s' m' l req p s'' m''.
Proof.
  intros OK Hl Hd Hr Hb Hz E. pose proof (add_spec s m b l domain req random OK Hl Hd Hr Hb Hz) as H.
  rewrite E in H. destruct H as (OK' & _ & _ & Hu & Hc & Hf).
  pose proof (slab_allocate_spec s' m' l domain OK' Hl Hd) as H. pose proof (so_used _ _ OK).
  destruct (allocate s' m' l domain) as [[[[p |] s2] m2] | e |]; [| | by destruct H; congruence | done].
  - destruct H as (req' & Hr' & H). assert (req' = req) as -> by congruence. eauto.
  - destruct H as (_ & _ & req' & Hr' & Hfull). assert (req' = req) as -> by congruence.
    exfalso. apply Hf, Hfull; [lia | done].
Qed.

(** [allocate] and [deallocate] return from every state, well formed or not:
    the walk over a cache's slabs ends however the lists are damaged. *)
Theorem slab_calls_return s m p l domain :
  layout_valid l -> 0 <= domain -> 0 <= used s ->
  allocate s m l domain <> Panic /\ deallocate s m p l domain <> Panic.
Proof.
  intros Hl Hd Hu. assert (request l domain <> Panic) as Hr
    by (pose proof (request_spec l domain Hl Hd) as H; by destruct (request l domain)).
  split.
  - unfold allocate. apply bind_no_panic; [done |]. intros req. apply alloc_loop_total; lia.
  - pose proof slot_no_panic. unfold deallocate, validate_free. no_panic.
Qed.

(** * Witnesses: a heap with one slab of 32-byte objects *)

Definition demo_layout : layout := mkLayout 32 8.
Definition demo_mem : word_mem := fun _ => 0.
Definition demo_req : Request := mkRequest 4096 4096 1 32.
Definition demo_add : outcome Error (Slabs * word_mem) :=
  s ← seed new 42; add s demo_mem 65536 demo_req Z.of_nat.

Lemma demo_layout_valid : layout_valid demo_layout.
Proof. split; [done |]. split; [done |]. by exists 3. Qed.
Lemma demo_request : request demo_layout 0 = Ok demo_req.
Proof. vm_compute. reflexivity. Qed.
Lemma demo_seeded : exists s, seed new 42 = Ok s /\ slabs_ok s demo_mem
  /\ exists s' m', add s demo_mem 65536 demo_req Z.of_nat = Ok (s', m').
Proof.
  assert (match demo_add with Ok _ => true | _ => false end = true) as H
    by (vm_compute; reflexivity).
  unfold demo_add in H. destruct (seed new 42) as [s | |] eqn:E; [| discriminate H | discriminate H].
  exists s. split; [done |]. split; [by eapply slabs_ok_new |]. simpl in H.
  destruct (add _ _ _ _ _) as [[s' m'] | |]; [eauto | discriminate H | discriminate H].
Qed.
Lemma demo_heap : exists s m s' m' p, reachable 42 (s, m) /\ slabs_ok s m
  /\ allocate s m demo_layout 0 = Ok (Some p, s', m') /\ reachable 42 (s', m')
  /\ slabs_ok s' m' /\ live_at s' 1 p 32.
Proof.
  destruct demo_seeded as (s0 & E0 & OK0 & s & m & E1).
  assert (reachable 42 (s, m)) as R.
  { eapply reachable_step; [apply reachable_new; exact E0 |].
    eapply (step_add s0 demo_mem 65536 demo_layout 0);
      [exact demo_layout_valid | done | exact demo_request | done | done | exact E1]. }
  pose proof (add_spec s0 demo_mem 65536 demo_layout 0 demo_req Z.of_nat OK0 demo_layout_valid
                ltac:(lia) demo_request ltac:(lia) ltac:(done)) as H.
  rewrite E1 in H. destruct H as (OK & _ & _ & Hu & Hc & Hf).
  pose proof (so_used _ _ OK0) as Hu0.
  pose proof (slab_allocate_spec s m demo_layout 0 OK demo_layout_valid ltac:(lia)) as H.
  destruct (allocate s m demo_layout 0) as [[[[p |] s2] m2] | e |] eqn:E;
    [| | by destruct H as [_ H]; rewrite demo_request in H | done].
  - destruct H as (req & Hr & H). rewrite demo_request in Hr. apply Ok_inj in Hr as <-.
    exists s, m, s2, m2, p. split_and!; [done | done | done | | apply H |].
    + eapply reachable_step; [exact R |]. by eapply step_allocate; [exact demo_layout_valid | |].
    + apply H. by right.
  - destruct H as (_ & _ & req & Hr & Hfull). rewrite demo_request in Hr. apply Ok_inj in Hr as <-.
    exfalso. apply Hf, Hfull; [lia | done].
Qed.

Lemma slab_heap_invariant_witness :
  exists s m p, reachable 42 (s, m) /\ live_at s 1 p 32 /\ slabs_ok s m.
Proof.
  destruct demo_heap as (_ & _ & s & m & p & _ & _ & _ & R & _ & Hlive).
  exists s, m, p. split; [exact R |]. split; [exact Hlive |].
  exact (proj1 (slab_heap_invariant 42 (s, m) R)).
Defined.

Lemma slab_allocate_correct_witness :
  exists s m p s' m' req, allocate s m demo_layout 0 = Ok (Some p, s', m')
    /\ allocated s m demo_layout req p s' m'.
Proof.
  destruct demo_heap as (s & m & s' & m' & p & _ & OK & E & _).
  pose proof (slab_allocate_correct s m demo_layout 0 OK demo_layout_valid ltac:(lia)) as H.
  rewrite E in H. destruct H as (req & _ & H). exists s, m, p, s', m', req. split; [exact E | exact H].
Defined.

Lemma slab_deallocate_correct_witness :
  exists s m p s' m', deallocate s m p demo_layout 0 = Ok (s', m')
    /\ deallocated s m demo_req p s' m'.
Proof.
  destruct demo_heap as (_ & _ & s & m & p & _ & _ & _ & _ & OK & Hlive).
  pose proof (slab_deallocate_correct s m p demo_layout 0 OK demo_layout_valid ltac:(lia)) as H.
  rewrite demo_request in H. exists s, m, p.
  destruct (deallocate s m p demo_layout 0) as [[s' m'] | e |]; [by exists s', m' | exfalso | done].
  pose proof Hlive as (i & k & Hs & _).
  pose proof (proj1 (slot_at_in_slab _ _ _ _ _ _ _ OK Hs)) as Hin.
  destruct e; simpl in H; [| by apply (H i) | by apply (proj2 H i k 1 32) | | done | done].
  - destruct H as (i' & k' & c & st & Hs' & Hc).
    destruct (live_at_slot _ _ _ _ _ _ _ _ _ OK Hs' Hlive) as (<- & _). by apply Hc.
  - by apply (proj2 H 1 32).
Defined.

Lemma slab_add_then_allocate_witness :
  exists s m p s' m', allocate s m demo_layout 0 = Ok (Some p, s', m') /\ p mod 8 = 0.
Proof.
  destruct demo_seeded as (s0 & E0 & OK0 & s & m & E1).
  destruct (slab_add_then_allocate s0 demo_mem 65536 demo_layout 0 demo_req Z.of_nat s m OK0
              demo_layout_valid ltac:(lia) demo_request ltac:(lia) ltac:(done) E1)
    as (p & s' & m' & H & Ha).
  exists s, m, p, s', m'. split; [exact H |]. exact (proj1 (proj2 Ha)).
Defined.

Lemma slab_calls_return_witness :
  allocate (mkSlabs [] 3 [2; 2; 2] 7 0 0 0) demo_mem demo_layout 0 <> Panic.
Proof.
  exact (proj1 (slab_calls_return (mkSlabs [] 3 [2; 2; 2] 7 0 0 0) demo_mem 0 demo_layout 0
                  demo_layout_valid ltac:(lia) ltac:(simpl; lia))).
Defined.

End Slab.
