(* ===== verification/Elf.v ===== *)
(** ELF validation (src/memory/elf.rs): the header, program header, dynamic table
    and relocation checks that an image passes before anything is mapped.

    Files are lists of bytes; reading past the end is a [Panic], as slicing is in
    the source.  Errors are the source's messages. *)

From Stdlib Require Import ZArith Lia.
From stdpp Require Import base list list_numbers numbers decidable tactics sets strings.
From S2P Require Import Prelude.

Module Elf.

(** * Data *)

Definition PAGE : Z := 4096.
Definition MAX_IMAGE : Z := Z.shiftl 64 20.
Definition MAX_RELOCS : Z := 4096.
(** Capacity of [heapless::Vec<Segment, 16>]. *)
Definition MAX_SEGMENTS : Z := 16.

Record Segment := mkSegment {
  vaddr : Z; memsz : Z; offset : Z; filesz : Z; writable : bool; executable : bool }.
Record Region := mkRegion { rg_start : Z; rg_end : Z }.
Record Image := mkImage {
  entry : Z; pie : bool; alignment : Z; segments : list Segment;
  relro : option Region; reloc_file : Z; reloc_count : Z }.

Definition result := outcome string.

(** * Operations *)

(** [uN::from_le_bytes(b[o..o+n].try_into().unwrap())]. *)
Definition rd (n : nat) (b : list Z) (o : Z) : result Z :=
  if (0 <=? o) && (o + Z.of_nat n <=? Z.of_nat (length b))
  then Ok (from_le_bytes (take n (drop (Z.to_nat o) b))) else Panic.
Definition rd16 : list Z -> Z -> result Z := rd 2.
Definition rd32 : list Z -> Z -> result Z := rd 4.
Definition rd64 : list Z -> Z -> result Z := rd 8.
(** [b[o]]. *)
Definition byte_at (b : list Z) (o : Z) : result Z := unwrap (b !! Z.to_nat o).

Definition file_range (segs : list Segment) (va len : Z) : option Z :=
  find_map (fun s =>
    delta ← checked_sub va (vaddr s);
    if (delta <=? filesz s) && (len <=? filesz s - delta) then Some (offset s + delta) else None)
    segs.

(** [x as i64] of a [u64]. *)
Definition as_i64 (x : Z) : Z := if x <? 2 ^ 63 then x else x - 2 ^ 64.

Fixpoint collect {A B} (f : A -> result B) (l : list A) : result (list B) :=
  match l with
  | [] => Ok []
  | x :: l' => y ← f x; ys ← collect f l'; Ok (y :: ys)
  end.

(** The relocations of an image, read back from the file. *)
Definition relocations (img : Image) (bytes : list Z) : result (list (Z * Z)) :=
  collect (fun i =>
    let at_ := reloc_file img + i * 24 in
    target ← rd64 bytes at_; addend ← rd64 bytes (at_ + 16); Ok (target, as_i64 addend))
    (seqZ 0 (reloc_count img)).

Definition readonly_page (img : Image) (page : Z) : bool :=
  match relro img with
  | Some r => (rg_start r <=? page) && (page + PAGE <=? rg_end r)
  | None => false
  end.

Definition page_down (x : Z) : Z := align_down x PAGE.

(** State of the loop over the program headers. *)
Record phdr_state := mkPhdr {
  ps_alignment : Z; ps_segments : list Segment; ps_relro : option Region;
  ps_dynamic : option (Z * Z * Z); ps_total : Z }.

Definition shares_page (first last : Z) (s : Segment) : bool :=
  (first <? page_down (vaddr s + memsz s + PAGE - 1)) && (page_down (vaddr s) <? last).

(** The part of one iteration after [if kind != 1 || memsz == 0 { continue; }]. *)
Definition load_segment (bytes : list Z) (user_base user_limit : Z) (pie : bool)
  (at_ flags off va filesz memsz end_ : Z) (st : phdr_state) : result phdr_state :=
  align ← rd64 bytes (at_ + 48);
  _ ← guard_err ((1 <? align) && (negb (is_power_of_two align)
        || negb (Z.land va (align - 1) =? Z.land off (align - 1)))) "invalid segment alignment"%string;
  _ ← guard_err (pie && (65536 <? align)) "PIE alignment exceeds 64 KiB limit"%string;
  let alignment := Z.max (ps_alignment st) align in
  _ ← guard_err (negb (Z.land flags (unot 32 7) =? 0) || (Z.land flags 4 =? 0))
        "unsupported segment permissions"%string;
  _ ← guard_err ((memsz <? filesz)
        || match checked_add 64 off filesz with
           | Some e => negb (e <=? Z.of_nat (length bytes)) | None => true end)
        "segment data past end of file"%string;
  _ ← guard_err (Z.land flags 3 =? 3) "writable+executable segment (W^X)"%string;
  _ ← (if pie then guard_err (MAX_IMAGE <? end_) "PIE image exceeds size limit"%string
       else guard_err ((va <? user_base) || (user_limit <? end_))
              "segment outside the user window"%string);
  total ← ok_or (checked_add 64 (ps_total st) memsz) "image too large"%string;
  _ ← guard_err (MAX_IMAGE <? total) "image exceeds memory limit"%string;
  let first := page_down va in
  lst ← ok_or (checked_add 64 end_ (PAGE - 1)) "segment wraps"%string;
  let last := page_down lst in
  _ ← guard_err (existsb (shares_page first last) (ps_segments st)) "segments share a page"%string;
  _ ← guard_err (MAX_SEGMENTS <=? Z.of_nat (length (ps_segments st))) "too many segments"%string;
  Ok (mkPhdr alignment
        (ps_segments st ++ [mkSegment va memsz off filesz (negb (Z.land flags 2 =? 0))
                              (negb (Z.land flags 1 =? 0))])
        (ps_relro st) (ps_dynamic st) total).

(** One iteration of the program header loop. *)
Definition phdr_step (bytes : list Z) (user_base user_limit : Z) (pie : bool)
  (phoff size : Z) (st : phdr_state) (i : Z) : result phdr_state :=
  let at_ := phoff + i * size in
  kind ← rd32 bytes at_;
  flags ← rd32 bytes (at_ + 4);
  off ← rd64 bytes (at_ + 8);
  va ← rd64 bytes (at_ + 16);
  filesz ← rd64 bytes (at_ + 32);
  memsz ← rd64 bytes (at_ + 40);
  end_ ← ok_or (checked_add 64 va memsz) "segment wraps"%string;
  _ ← guard_err (kind =? 3) "dynamic interpreter unsupported"%string;
  _ ← guard_err ((kind =? 0x6474e551) && negb (Z.land flags 1 =? 0))
        "executable stack unsupported"%string;
  dynamic ← (if kind =? 2 then
               if bool_decide (is_Some (ps_dynamic st)) || negb pie || (filesz =? 0)
                  || (memsz <? filesz) || negb (filesz mod 16 =? 0) || (4096 <? filesz)
               then Err "bad dynamic table"%string
               else Ok (Some (va, filesz, off))
             else Ok (ps_dynamic st));
  relro ← (if (kind =? 0x6474e552) && negb (memsz =? 0) then
             if bool_decide (is_Some (ps_relro st)) || negb (va mod PAGE =? 0)
                || negb (end_ mod PAGE =? 0)
             then Err "RELRO must cover whole pages"%string
             else Ok (Some (mkRegion va end_))
           else Ok (ps_relro st));
  let st1 := mkPhdr (ps_alignment st) (ps_segments st) relro dynamic (ps_total st) in
  if negb (kind =? 1) || (memsz =? 0) then Ok st1
  else load_segment bytes user_base user_limit pie at_ flags off va filesz memsz end_ st1.

Fixpoint foldM {S A} (f : S -> A -> result S) (s : S) (l : list A) : result S :=
  match l with
  | [] => Ok s
  | x :: l' => s' ← f s x; foldM f s' l'
  end.

(** The dynamic table loop: what [DT_RELA], [DT_RELASZ] and [DT_RELAENT] say, and
    whether a [DT_NULL] ended the table. *)
Record dyn_state := mkDyn { d_rela : option Z; d_relasz : option Z; d_relaent : option Z }.

Definition unsupported_tag (tag : Z) : bool :=
  existsb (Z.eqb tag) [1; 2; 17; 18; 19; 20; 22; 23; 35; 36; 37].

#[local] Arguments unsupported_tag : simpl never.

Fixpoint dyn_loop (bytes : list Z) (d : dyn_state) (ats : list Z) : result (dyn_state * bool) :=
  match ats with
  | [] => Ok (d, false)
  | at_ :: rest =>
      tag ← rd64 bytes at_;
      value ← rd64 bytes (at_ + 8);
      if tag =? 0 then Ok (d, true)
      else if tag =? 7 then
        match d_rela d with
        | Some _ => Err "duplicate DT_RELA"%string
        | None => dyn_loop bytes (mkDyn (Some value) (d_relasz d) (d_relaent d)) rest
        end
      else if tag =? 8 then
        match d_relasz d with
        | Some _ => Err "duplicate DT_RELASZ"%string
        | None => dyn_loop bytes (mkDyn (d_rela d) (Some value) (d_relaent d)) rest
        end
      else if tag =? 9 then
        match d_relaent d with
        | Some _ => Err "duplicate DT_RELAENT"%string
        | None => dyn_loop bytes (mkDyn (d_rela d) (d_relasz d) (Some value)) rest
        end
      else if unsupported_tag tag then Err "unsupported dynamic dependency/relocation format"%string
      else dyn_loop bytes d rest
  end.

(** [seg] is writable and holds the eight bytes at [target]. *)
Definition holds_word (target : Z) (s : Segment) : bool :=
  writable s && (vaddr s <=? target)
  && match checked_add 64 target 8 with
     | Some e => e <=? vaddr s + memsz s | None => false end.

Definition check_reloc (bytes : list Z) (segs : list Segment) (relative file : Z) (i : Z)
  : result unit :=
  let at_ := file + i * 24 in
  target ← rd64 bytes at_;
  info ← rd64 bytes (at_ + 8);
  _ ← guard_err (negb (info =? relative)) "only symbol-free RELATIVE relocations supported"%string;
  _ ← guard_err (negb (target mod 8 =? 0) || negb (existsb (holds_word target) segs))
        "relocation target outside writable image"%string;
  addend ← rd64 bytes (at_ + 16);
  guard_err ((as_i64 addend <? 0) || (MAX_IMAGE <? addend)) "relative addend outside image bounds"%string.

(** [R_X86_64_RELATIVE] and [R_AARCH64_RELATIVE]. *)
Definition relative_type (machine : Z) : option Z :=
  if machine =? 62 then Some 8 else if machine =? 183 then Some 1027 else None.

(** The relocation table described by the dynamic table: (file position, count). *)
Definition check_dynamic (bytes : list Z) (machine : Z) (segs : list Segment)
  (dyn : option (Z * Z * Z)) : result (Z * Z) :=
  match dyn with
  | None => Ok (0, 0)
  | Some (va, len, off) =>
      file ← ok_or (file_range segs va len) "dynamic table outside file-backed image"%string;
      _ ← guard_err (negb (file =? off)) "inconsistent dynamic table offset"%string;
      '(d, terminated) ← dyn_loop bytes (mkDyn None None None)
                           (map (fun k => file + 16 * k) (seqZ 0 ((len + 15) / 16)));
      _ ← guard_err (negb terminated) "unterminated dynamic table"%string;
      match d_rela d, d_relasz d, d_relaent d with
      | None, None, None => Ok (0, 0)
      | Some va, Some len, Some ent =>
          if (ent =? 24) && (len mod 24 =? 0) && (len / 24 <=? MAX_RELOCS) then
            file ← ok_or (file_range segs va len) "relocations outside file-backed image"%string;
            let count := len / 24 in
            relative ← ok_or (relative_type machine) "unsupported relocation architecture"%string;
            _ ← foldM (fun _ i => check_reloc bytes segs relative file i) tt (seqZ 0 count);
            Ok (file, count)
          else Err "invalid RELA table description"%string
      | _, _, _ => Err "invalid RELA table description"%string
      end
  end.

Definition in_executable (ent : Z) (s : Segment) : bool :=
  executable s && (vaddr s <=? ent) && (ent <? vaddr s + memsz s).
Definition covers_relro (r : Region) (s : Segment) : bool :=
  writable s && (vaddr s <=? rg_start r) && (rg_end r <=? vaddr s + memsz s).

(** The ELF identification: magic, class, byte order, version. *)
Definition elf_magic : list Z := [0x7f; 69; 76; 70].

Definition parse (bytes : list Z) (machine user_base user_limit : Z) : result Image :=
  _ ← guard_err ((Z.of_nat (length bytes) <? 64) || negb (bool_decide (take 4 bytes = elf_magic)))
        "not an ELF file"%string;
  b4 ← byte_at bytes 4; b5 ← byte_at bytes 5; b6 ← byte_at bytes 6; version ← rd32 bytes 20;
  _ ← guard_err (negb (b4 =? 2) || negb (b5 =? 1) || negb (b6 =? 1) || negb (version =? 1))
        "unsupported ELF format/version"%string;
  type_ ← rd16 bytes 16;
  pie ← (if type_ =? 2 then Ok false else if type_ =? 3 then Ok true
         else Err "not an executable or static PIE"%string);
  mach ← rd16 bytes 18;
  _ ← guard_err (negb (mach =? machine)) "built for a different architecture"%string;
  ehsize ← rd16 bytes 52;
  _ ← guard_err (negb (ehsize =? 64)) "bad ELF header size"%string;
  phoff ← rd64 bytes 32;
  size ← rd16 bytes 54;
  count ← rd16 bytes 56;
  _ ← guard_err ((size <? 56) || (count =? 0) || (32 <? count)
        || match checked_add 64 phoff (size * count) with
           | Some e => negb (e <=? Z.of_nat (length bytes)) | None => true end)
        "bad program header table"%string;
  ent ← rd64 bytes 24;
  st ← foldM (phdr_step bytes user_base user_limit pie phoff size)
         (mkPhdr PAGE [] None None 0) (seqZ 0 count);
  _ ← guard_err (negb (existsb (in_executable ent) (ps_segments st)))
        "entry point not in an executable segment"%string;
  _ ← match ps_relro st with
      | Some r => guard_err (negb (existsb (covers_relro r) (ps_segments st)))
                    "RELRO outside writable image"%string
      | None => Ok tt
      end;
  '(file, n) ← check_dynamic bytes machine (ps_segments st) (ps_dynamic st);
  Ok (mkImage ent pie (ps_alignment st) (ps_segments st) (ps_relro st) file n).

(** * Specification vocabulary *)

Definition seg_end (s : Segment) : Z := vaddr s + memsz s.
(** First page and page past the last one of a segment. *)
Definition first_page (s : Segment) : Z := vaddr s / PAGE.
Definition last_page (s : Segment) : Z := (seg_end s + PAGE - 1) / PAGE.

(** What one accepted segment satisfies. *)
Record segment_safe (bytes : list Z) (user_base user_limit : Z) (is_pie : bool) (s : Segment)
  : Prop := {
  ss_wx : writable s && executable s = false;
  ss_size : 0 < memsz s /\ 0 <= filesz s <= memsz s;
  ss_file : 0 <= offset s /\ offset s + filesz s <= Z.of_nat (length bytes);
  ss_addr : 0 <= vaddr s /\ seg_end s + PAGE - 1 < 2 ^ 64;
  ss_window : if is_pie then seg_end s <= MAX_IMAGE
              else user_base <= vaddr s /\ seg_end s <= user_limit }.

Definition pages_disjoint (s t : Segment) : Prop :=
  last_page s <= first_page t \/ last_page t <= first_page s.

(** A well-formed file: bytes, and a length a Rust slice can have. *)
Definition file_ok (bytes : list Z) : Prop :=
  Forall is_byte bytes /\ Z.of_nat (length bytes) < 2 ^ 63.

(** * Reading *)

Lemma rd_no_panic n b o :
  0 <= o -> o + Z.of_nat n <= Z.of_nat (length b) -> rd n b o <> Panic.
Proof.
  intros H1 H2. unfold rd. replace (_ && _) with true by lia. done.
Qed.

Lemma rd_range n b o v :
  Forall is_byte b -> rd n b o = Ok v -> 0 <= v < 256 ^ Z.of_nat n.
Proof.
  intros Hb. unfold rd. destruct (_ && _) eqn:E; [| done]. intros [= <-].
  pose proof (from_le_bytes_range (take n (drop (Z.to_nat o) b))) as H.
  rewrite length_take, length_drop, Nat.min_l in H by lia.
  apply H. by apply Forall_take, Forall_drop.
Qed.

Lemma rd64_range b o v : Forall is_byte b -> rd64 b o = Ok v -> 0 <= v < 2 ^ 64.
Proof. apply (rd_range 8). Qed.
Lemma rd32_range b o v : Forall is_byte b -> rd32 b o = Ok v -> 0 <= v < 2 ^ 32.
Proof. apply (rd_range 4). Qed.
Lemma rd16_range b o v : Forall is_byte b -> rd16 b o = Ok v -> 0 <= v < 2 ^ 16.
Proof. apply (rd_range 2). Qed.

Lemma foldM_ind {S A} (f : S -> A -> result S) (I : S -> Prop) l s s' :
  (forall s x s', x ∈ l -> I s -> f s x = Ok s' -> I s') ->
  I s -> foldM f s l = Ok s' -> I s'.
Proof.
  revert s. induction l as [| x l IH]; intros s Hf Hs; simpl; [by intros [= <-] |].
  intros H. outcome_inv. eapply IH; [| | exact H].
  - intros t y t' Hy. apply Hf. by right.
  - eapply Hf; [left | exact Hs | done].
Qed.

Lemma foldM_no_panic {S A} (f : S -> A -> result S) (I : S -> Prop) l s :
  (forall s x, x ∈ l -> I s -> f s x <> Panic) ->
  (forall s x s', x ∈ l -> I s -> f s x = Ok s' -> I s') ->
  I s -> foldM f s l <> Panic.
Proof.
  revert s. induction l as [| x l IH]; intros s Hp Hf Hs; simpl; [done |].
  destruct (f s x) as [s' | e |] eqn:E; simpl; [| done | by apply Hp in E; [| left |]].
  apply IH.
  - intros t y Hy. apply Hp. by right.
  - intros t y t' Hy. apply Hf. by right.
  - eapply Hf; [left | exact Hs | done].
Qed.

(** * The program header loop *)

Lemma wx_flags flags :
  0 <= flags -> (Z.land flags 3 =? 3) = false ->
  negb (Z.land flags 2 =? 0) && negb (Z.land flags 1 =? 0) = false.
Proof.
  intros Hf H3.
  change (Z.land flags 2) with (Z.land flags (Z.shiftl 1 1)).
  change (Z.land flags 1) with (Z.land flags (Z.shiftl 1 0)).
  rewrite !land_pow2_testbit, !negb_involutive by lia.
  change 3 with (Z.ones 2) in H3 at 1. rewrite Z.land_ones in H3 by lia.
  destruct (Z.testbit flags 1) eqn:E1; [| done]. destruct (Z.testbit flags 0) eqn:E0; [| done].
  apply Z.eqb_neq in H3. exfalso. apply H3.
  apply Z.testbit_true in E1; [| lia]. rewrite Z.bit0_odd in E0.
  rewrite Zodd_mod in E0. apply Z.eqb_eq in E0. change (2 ^ 1) with 2 in E1. change (2 ^ 2) with 4.
  zdiv.
Qed.

Section phdrs.
  Context (bytes : list Z) (user_base user_limit : Z) (is_pie : bool).
  Context (FOK : file_ok bytes).

Record phdr_ok (st : phdr_state) : Prop := {
  pk_align : exists k, 12 <= k /\ ps_alignment st = 2 ^ k
                       /\ (is_pie = true -> ps_alignment st <= 65536);
  pk_segs : Forall (segment_safe bytes user_base user_limit is_pie) (ps_segments st);
  pk_disjoint : ForallOrdPairs pages_disjoint (ps_segments st);
  pk_count : Z.of_nat (length (ps_segments st)) <= MAX_SEGMENTS;
  pk_total : ps_total st = foldr Z.add 0 (map memsz (ps_segments st)) /\ 0 <= ps_total st <= MAX_IMAGE;
  pk_relro : forall r, ps_relro st = Some r -> rg_start r mod PAGE = 0 /\ rg_end r mod PAGE = 0
                       /\ rg_start r < rg_end r;
  pk_dynamic : forall va len off, ps_dynamic st = Some (va, len, off) ->
    is_pie = true /\ 0 < len <= 4096 /\ len mod 16 = 0 /\ 0 <= va /\ 0 <= off }.

Lemma page_down_spec x : 0 <= x < 2 ^ 64 -> page_down x = x / PAGE * PAGE.
Proof. intros Hx. apply (align_down_spec x 12); lia. Qed.

Lemma not_shares_page va msz (s : Segment) :
  0 <= va -> va + msz + PAGE - 1 < 2 ^ 64 -> 0 < msz ->
  segment_safe bytes user_base user_limit is_pie s ->
  shares_page (page_down va) (page_down (va + msz + (PAGE - 1))) s = false ->
  last_page s <= va / PAGE \/ (va + msz + PAGE - 1) / PAGE <= first_page s.
Proof.
  intros Hva Hw Hm [_ [Hms _] _ [Hv Hve] _]. unfold seg_end in Hve. unfold shares_page, PAGE in *.
  rewrite !page_down_spec by lia. unfold first_page, last_page, seg_end, PAGE.
  replace (va + msz + (4096 - 1)) with (va + msz + 4096 - 1) by lia. lia.
Qed.

Lemma existsb_false_Forall {A} (p : A -> bool) l x :
  existsb p l = false -> x ∈ l -> p x = false.
Proof.
  intros H Hx. destruct (p x) eqn:E; [| done].
  rewrite <- H. symmetry. apply existsb_exists. exists x. by rewrite <- list_elem_of_In.
Qed.

Lemma ForallOrdPairs_snoc {A} (R : A -> A -> Prop) l x :
  ForallOrdPairs R l -> Forall (fun y => R y x) l -> ForallOrdPairs R (l ++ [x]).
Proof.
  induction 1 as [| y l Hy _ IH]; intros Hx; simpl; [repeat constructor |].
  apply Forall_cons in Hx as [Hyx Hx]. constructor; [| by apply IH].
  apply List.Forall_app. split; [done |]. by constructor.
Qed.

Lemma sum_snoc l x : foldr Z.add 0 (l ++ [x]) = foldr Z.add 0 l + x.
Proof. induction l as [| y l IH]; simpl; [| rewrite IH]; lia. Qed.

(** A segment that passes the checks extends a safe image to a safe image. *)
Lemma load_segment_ok at_ flags off va fsz msz st st' :
  0 <= flags -> 0 <= off -> 0 <= va -> 0 <= fsz -> 0 <= msz -> msz <> 0 ->
  phdr_ok st ->
  load_segment bytes user_base user_limit is_pie at_ flags off va fsz msz (va + msz) st = Ok st' ->
  phdr_ok st'.
Proof.
  intros Hfl Hoff Hva Hf Hm Hm0 [Al Sg Dj Ct [Tt Tr] Rl Dy] H. unfold load_segment in H.
  outcome_inv. constructor; cbn [ps_alignment ps_segments ps_relro ps_dynamic ps_total]; try done.
  - destruct Al as (k & Hk & Ha & Hp).
    assert (exists k', 12 <= k' /\ Z.max (ps_alignment st) a = 2 ^ k') as (k' & Hk' & Hmax).
    { destruct (1 <? a) eqn:E1.
      - destruct (is_power_of_two a) eqn:Ep; [| done].
        apply is_power_of_two_spec in Ep as (ka & Hka & ->).
        rewrite Ha. destruct (decide (ka <= k)).
        + exists k. split; [done |]. apply Z.max_l, Z.pow_le_mono_r; lia.
        + exists ka. split; [lia |]. apply Z.max_r, Z.pow_le_mono_r; lia.
      - exists k. split; [done |]. rewrite <- Ha.
        assert (2 ^ 12 <= 2 ^ k) by (apply Z.pow_le_mono_r; lia). lia. }
    exists k'. split; [done |]. split; [done |]. intros Hpie. specialize (Hp Hpie).
    rewrite Hpie in *. simpl in *. lia.
  - apply Forall_app. split; [done |]. constructor; [| constructor].
    constructor; cbn [vaddr memsz offset filesz writable executable]; unfold seg_end; simpl.
    + apply wx_flags; lia.
    + lia.
    + destruct (checked_add 64 off fsz) as [e |] eqn:E; [| lia].
      apply checked_add_Some in E. lia.
    + match goal with H : checked_add 64 (va + msz) _ = Some _ |- _ => apply checked_add_Some in H end.
      lia.
    + destruct is_pie; outcome_inv; lia.
  - apply ForallOrdPairs_snoc; [done |]. apply list.Forall_forall. intros s Hs.
    match goal with H : existsb _ _ = false |- _ =>
      apply (existsb_false_Forall _ _ s) in H; [| done]; rename H into Hsh end.
    match goal with H : checked_add 64 (va + msz) _ = Some _ |- _ => apply checked_add_Some in H as [-> ?] end.
    unfold pages_disjoint, first_page, last_page, seg_end. cbn [vaddr memsz].
    apply not_shares_page in Hsh; [| lia | unfold PAGE in *; lia | lia | by eapply Forall_elem].
    unfold first_page, last_page, seg_end in Hsh. lia.
  - rewrite length_app. simpl. lia.
  - rewrite map_app. simpl. rewrite sum_snoc.
    match goal with H : checked_add 64 (ps_total st) _ = Some _ |- _ => apply checked_add_Some in H end. lia.
Qed.

Lemma phdr_step_ok phoff size st i st' :
  phdr_ok st -> phdr_step bytes user_base user_limit is_pie phoff size st i = Ok st' -> phdr_ok st'.
Proof.
  intros [Al Sg Dj Ct Tt Rl Dy] H. destruct FOK as [Hb _]. unfold phdr_step in H.
  outcome_step. outcome_step. outcome_step. outcome_step. outcome_step. outcome_step.
  repeat match goal with
  | H : rd32 _ _ = Ok _ |- _ => apply rd32_range in H; [| done]
  | H : rd64 _ _ = Ok _ |- _ => apply rd64_range in H; [| done]
  end.
  outcome_step. outcome_step. outcome_step. outcome_step. outcome_step.
  outcome_inv. match goal with H : checked_add _ _ _ = Some _ |- _ => apply checked_add_Some in H as [-> ?] end.
  match type of H with (if _ then Ok ?st1 else _) = _ => assert (phdr_ok st1) as Hok end.
  { constructor; cbn [ps_alignment ps_segments ps_relro ps_dynamic ps_total]; try done.
    - intros r Hr. repeat case_if; simplify_eq; eauto;
        cbn [rg_start rg_end]; split_and!; lia.
    - intros va' len' off' Hd. repeat case_if; simplify_eq; eauto;
        (destruct is_pie; [| rewrite orb_true_r in *; simpl in *; done]);
        split_and!; first [done | lia]. }
  clear Al Sg Dj Ct Tt Rl Dy. destruct (negb (a =? 1) || (a4 =? 0)) eqn:Ek; [by simplify_eq |].
  eapply load_segment_ok; [..| exact Hok | exact H]; lia.
Qed.

Lemma load_segment_no_panic at_ flags off va fsz msz end_ st :
  0 <= at_ -> at_ + 56 <= Z.of_nat (length bytes) ->
  load_segment bytes user_base user_limit is_pie at_ flags off va fsz msz end_ st <> Panic.
Proof.
  intros H1 H2. assert (rd64 bytes (at_ + 48) <> Panic) by (apply rd_no_panic; lia).
  unfold load_segment. no_panic.
Qed.

Lemma phdr_step_no_panic phoff size st i :
  0 <= phoff + i * size -> phoff + i * size + 56 <= Z.of_nat (length bytes) ->
  phdr_step bytes user_base user_limit is_pie phoff size st i <> Panic.
Proof.
  intros H1 H2.
  assert (forall k, 0 <= k <= 52 -> rd32 bytes (phoff + i * size + k) <> Panic)
    by (intros; apply rd_no_panic; lia).
  assert (rd32 bytes (phoff + i * size) <> Panic) by (apply rd_no_panic; lia).
  assert (forall k, 0 <= k <= 48 -> rd64 bytes (phoff + i * size + k) <> Panic)
    by (intros; apply rd_no_panic; lia).
  assert (forall flags off va fsz msz end_ st, load_segment bytes user_base user_limit is_pie
            (phoff + i * size) flags off va fsz msz end_ st <> Panic)
    by (intros; by apply load_segment_no_panic).
  unfold phdr_step. no_panic; auto with lia.
Qed.
End phdrs.

(** * The dynamic table *)

(** What [file_range] finds is a file-backed part of some segment. *)
Lemma file_range_spec bytes ub ul pie segs va len pos :
  Forall (segment_safe bytes ub ul pie) segs -> 0 <= va -> 0 <= len ->
  file_range segs va len = Some pos ->
  0 <= pos /\ pos + len <= Z.of_nat (length bytes)
  /\ exists s, s ∈ segs /\ vaddr s <= va /\ va + len <= seg_end s
               /\ pos = offset s + (va - vaddr s).
Proof.
  intros Hs Hva Hlen H. apply find_map_Some in H as (s & Hin & H).
  destruct (Forall_elem _ _ _ Hs Hin) as [_ [Hm Hf] [Ho Hof] _ _]. unfold seg_end in *.
  destruct (checked_sub va (vaddr s)) as [d |] eqn:E; simpl in H; [| done].
  apply checked_sub_Some in E as [-> Hd]. case_if; [| done]. injection H as <-.
  split; [lia |]. split; [lia |]. exists s. split; [done |]. lia.
Qed.

Lemma dyn_loop_no_panic bytes d ats :
  (forall a, a ∈ ats -> 0 <= a /\ a + 16 <= Z.of_nat (length bytes)) ->
  dyn_loop bytes d ats <> Panic.
Proof.
  revert d. induction ats as [| a ats IH]; intros d Ha; [done |].
  assert (0 <= a /\ a + 16 <= Z.of_nat (length bytes)) as [H1 H2] by (apply Ha; left).
  assert (forall d', dyn_loop bytes d' ats <> Panic) by
    (intros; apply IH; intros; apply Ha; by right).
  cbn [dyn_loop]. apply bind_no_panic; [apply rd_no_panic; lia |]. intros tag.
  apply bind_no_panic; [apply rd_no_panic; lia |]. intros value.
  destruct d as [[] [] []]; cbn [d_rela d_relasz d_relaent]; no_panic.
Qed.

Lemma dyn_loop_values bytes d ats r :
  Forall is_byte bytes -> dyn_loop bytes d ats = Ok r ->
  (forall v, d_rela d = Some v \/ d_relasz d = Some v \/ d_relaent d = Some v -> 0 <= v) ->
  forall v, d_rela r.1 = Some v \/ d_relasz r.1 = Some v \/ d_relaent r.1 = Some v -> 0 <= v.
Proof.
  intros Hb. revert d. induction ats as [| a ats IH]; intros d H Hd; simpl in H.
  - outcome_inv. done.
  - outcome_step. outcome_step.
    repeat match goal with H : rd64 _ _ = Ok _ |- _ => apply rd64_range in H; [| done] end.
    destruct d as [dr ds de]; cbn [d_rela d_relasz d_relaent] in *.
    destruct (a0 =? 0); [outcome_inv; exact Hd |].
    destruct (a0 =? 7); [destruct dr; [done |] | destruct (a0 =? 8); [destruct ds; [done |] |
      destruct (a0 =? 9); [destruct de; [done |] | destruct (unsupported_tag a0); [done |]]]].
    all: eapply IH; [exact H |]; cbn [d_rela d_relasz d_relaent]; intros v Hv;
      destruct Hv as [Hv | [Hv | Hv]]; simplify_eq; eauto; lia.
Qed.

(** A relocation that may be applied: an aligned word of a writable segment, and
    an addend inside the image. *)
Definition reloc_safe (segs : list Segment) (r : Z * Z) : Prop :=
  r.1 mod 8 = 0 /\ 0 <= r.2 <= MAX_IMAGE
  /\ exists s, s ∈ segs /\ writable s = true /\ vaddr s <= r.1 /\ r.1 + 8 <= seg_end s.

Lemma existsb_elem {A} (p : A -> bool) l : existsb p l = true -> exists x, x ∈ l /\ p x = true.
Proof.
  intros H. apply existsb_exists in H as (x & Hx & Hp). exists x. by rewrite list_elem_of_In.
Qed.

Lemma check_reloc_Ok bytes segs relative file i u :
  Forall is_byte bytes -> check_reloc bytes segs relative file i = Ok u ->
  exists t a, rd64 bytes (file + i * 24) = Ok t /\ rd64 bytes (file + i * 24 + 16) = Ok a
    /\ reloc_safe segs (t, as_i64 a).
Proof.
  intros Hb H. unfold check_reloc in H. outcome_inv.
  match goal with H : rd64 _ (file + i * 24) = Ok ?t |- _ => exists t end.
  match goal with H : rd64 _ (file + i * 24 + 16) = Ok ?a |- _ => exists a end.
  split; [done |]. split; [done |].
  repeat match goal with H : rd64 _ _ = Ok _ |- _ => apply rd64_range in H; [| done] end.
  apply orb_false_iff in Heqb0 as [Hal Hex]. apply negb_false_iff, existsb_elem in Hex as (s & Hs & Hw).
  unfold holds_word in Hw. unfold reloc_safe. simpl.
  destruct (writable s) eqn:Ew; [| done].
  destruct (checked_add 64 a 8) as [e |] eqn:E; [| lia]. apply checked_add_Some in E as [-> ?].
  split; [lia |]. split.
  - unfold as_i64 in *. case_if; lia.
  - exists s. unfold seg_end. split; [done |]. split; [done |]. lia.
Qed.

Lemma foldM_unit {A} (f : A -> result unit) l u :
  foldM (fun _ x => f x) u l = Ok tt -> forall x, x ∈ l -> f x = Ok tt.
Proof.
  revert u. induction l as [| y l IH]; intros u H x Hx; [by apply not_elem_of_nil in Hx |].
  cbn [foldM] in H. outcome_step. destruct a.
  apply elem_of_cons in Hx as [-> | Hx]; [done | by eapply IH].
Qed.

Lemma check_reloc_no_panic bytes segs relative file i :
  0 <= file + i * 24 -> file + i * 24 + 24 <= Z.of_nat (length bytes) ->
  check_reloc bytes segs relative file i <> Panic.
Proof.
  intros H1 H2. unfold check_reloc. set (p := file + i * 24) in *.
  assert (rd64 bytes p <> Panic) by (apply rd_no_panic; lia).
  assert (rd64 bytes (p + 8) <> Panic) by (apply rd_no_panic; lia).
  assert (rd64 bytes (p + 16) <> Panic) by (apply rd_no_panic; lia).
  no_panic.
Qed.

Section dynamic.
  Context (bytes : list Z) (ub ul : Z) (is_pie : bool) (machine : Z).
  Context (FOK : file_ok bytes) (segs : list Segment).
  Context (Hsegs : Forall (segment_safe bytes ub ul is_pie) segs).

(** Where an accepted relocation table lies, and that its entries are safe. *)
Definition table_safe (file n : Z) : Prop :=
  0 <= n <= MAX_RELOCS /\ 0 <= file /\ file + n * 24 <= Z.of_nat (length bytes)
  /\ forall i, 0 <= i < n -> exists t a, rd64 bytes (file + i * 24) = Ok t
       /\ rd64 bytes (file + i * 24 + 16) = Ok a /\ reloc_safe segs (t, as_i64 a).

Lemma check_dynamic_no_panic dyn :
  (forall va len off, dyn = Some (va, len, off) -> 0 < len /\ len mod 16 = 0 /\ 0 <= va) ->
  check_dynamic bytes machine segs dyn <> Panic.
Proof.
  intros Hd. destruct FOK as [Hb _]. destruct dyn as [[[va len] off] |]; [| done].
  destruct (Hd va len off eq_refl) as (Hl & Hm & Hva). cbn [check_dynamic].
  destruct (file_range segs va len) as [file |] eqn:Ef; [| done]. cbn [ok_or mbind outcome_bind].
  eapply file_range_spec in Ef as (H0 & H1 & _); [| done | done | lia].
  apply bind_no_panic; [no_panic |]. intros _.
  destruct (dyn_loop bytes _ _) as [[d term] | e |] eqn:Edyn; cbn [mbind outcome_bind]; [| done |].
  2: { apply dyn_loop_no_panic in Edyn; [done |]. intros a (k & -> & Hk)%elem_of_map.
       apply elem_of_seqZ in Hk. zdiv. }
  pose proof (dyn_loop_values _ _ _ _ Hb Edyn ltac:(simpl; naive_solver)) as Hv.
  apply bind_no_panic; [no_panic |]. intros _. cbn [fst] in Hv.
  destruct (d_rela d) as [rva |] eqn:E1, (d_relasz d) as [rlen |] eqn:E2,
    (d_relaent d) as [ent |] eqn:E3; try done.
  assert (0 <= rva /\ 0 <= rlen) as [Hrva Hrlen] by (split; apply Hv; eauto).
  case_if; [| done].
  destruct (file_range segs rva rlen) as [rfile |] eqn:Ef; [| done]. cbn [ok_or mbind outcome_bind].
  eapply file_range_spec in Ef as (H2 & H3 & _); [| done | done | lia].
  apply bind_no_panic; [no_panic |]. intros relative. apply bind_no_panic; [| done].
  apply (foldM_no_panic _ (fun _ => True)); [| done | done].
  intros _ i Hi%elem_of_seqZ _. apply check_reloc_no_panic; zdiv.
Qed.

Lemma check_dynamic_Ok dyn file n :
  (forall va len off, dyn = Some (va, len, off) -> 0 < len /\ len mod 16 = 0 /\ 0 <= va) ->
  check_dynamic bytes machine segs dyn = Ok (file, n) ->
  table_safe file n /\ (dyn = None -> n = 0).
Proof.
  intros Hd H. destruct FOK as [Hb _].
  assert (table_safe 0 0) as Hempty.
  { unfold table_safe, MAX_RELOCS. split; [lia |]. split; [lia |]. split; [lia |].
    intros i Hi. lia. }
  destruct dyn as [[[va len] off] |]; cbn [check_dynamic] in H; [| by outcome_inv].
  split; [| done]. outcome_step. outcome_step.
  destruct (dyn_loop bytes _ _) as [[d term] | e |] eqn:Edyn; cbn [mbind outcome_bind] in H; [| done | done].
  pose proof (dyn_loop_values _ _ _ _ Hb Edyn ltac:(simpl; naive_solver)) as Hv.
  cbn [fst] in Hv.
  outcome_step.
  destruct (d_rela d) as [rva |] eqn:E1, (d_relasz d) as [rlen |] eqn:E2,
    (d_relaent d) as [ent |] eqn:E3; try done; [| by outcome_inv].
  assert (0 <= rva /\ 0 <= rlen) as [Hrva Hrlen] by (split; apply Hv; eauto).
  destruct ((ent =? 24) && _ && _) eqn:Eg; [| done].
  destruct (file_range segs rva rlen) as [rfile |] eqn:Ef; [| done]. cbn [ok_or mbind outcome_bind] in H.
  eapply file_range_spec in Ef as (H2 & H3 & _); [| done | done | lia].
  outcome_step. destruct (foldM _ _ _) as [[] | |] eqn:Efold; cbn [mbind outcome_bind] in H; try done.
  assert (rfile = file /\ rlen / 24 = n) as [-> <-] by (split; congruence).
  split; [zdiv |]. split; [done |]. split; [zdiv |].
  intros i Hi. eapply check_reloc_Ok; [done |]. apply (foldM_unit _ _ _ Efold).
  apply elem_of_seqZ. lia.
Qed.
End dynamic.

(** * The whole parser *)

(** What an accepted image guarantees to the loader. *)
Record image_safe (bytes : list Z) (user_base user_limit : Z) (img : Image) : Prop := {
  im_segs : Forall (segment_safe bytes user_base user_limit (pie img)) (segments img);
  im_disjoint : ForallOrdPairs pages_disjoint (segments img);
  im_count : Z.of_nat (length (segments img)) <= MAX_SEGMENTS;
  im_total : foldr Z.add 0 (map memsz (segments img)) <= MAX_IMAGE;
  im_align : exists k, 12 <= k /\ alignment img = 2 ^ k /\ (pie img = true -> alignment img <= 65536);
  im_entry : exists s, s ∈ segments img /\ executable s = true
               /\ vaddr s <= entry img < seg_end s;
  im_relro : forall r, relro img = Some r ->
    rg_start r mod PAGE = 0 /\ rg_end r mod PAGE = 0 /\ rg_start r < rg_end r
    /\ exists s, s ∈ segments img /\ writable s = true
                 /\ vaddr s <= rg_start r /\ rg_end r <= seg_end s;
  im_relocs : exists l, relocations img bytes = Ok l
    /\ Z.of_nat (length l) <= MAX_RELOCS /\ Forall (reloc_safe (segments img)) l;
  im_static : pie img = false -> reloc_count img = 0 }.

Lemma collect_Ok {A B} (f : A -> result B) (P : B -> Prop) l :
  (forall x, x ∈ l -> exists y, f x = Ok y /\ P y) ->
  exists ys, collect f l = Ok ys /\ length ys = length l /\ Forall P ys.
Proof.
  induction l as [| x l IH]; intros H; [exists []; split; [done | split; [done | constructor]] |].
  destruct (H x ltac:(left)) as (y & Hy & HP).
  destruct IH as (ys & Hys & Hl & HF); [intros; apply H; by right |].
  exists (y :: ys). simpl. rewrite Hy. simpl. rewrite Hys. simpl.
  split; [done |]. split; [by f_equal |]. by constructor.
Qed.

Lemma relocations_safe bytes img :
  table_safe bytes (segments img) (reloc_file img) (reloc_count img) ->
  exists l, relocations img bytes = Ok l
    /\ Z.of_nat (length l) <= MAX_RELOCS /\ Forall (reloc_safe (segments img)) l.
Proof.
  intros (Hn & Hf & _ & Hi).
  destruct (collect_Ok (fun i =>
    let at_ := reloc_file img + i * 24 in
    target ← rd64 bytes at_; addend ← rd64 bytes (at_ + 16); Ok (target, as_i64 addend))
    (reloc_safe (segments img)) (seqZ 0 (reloc_count img))) as (l & Hl & Hlen & HF).
  - intros i Hin%elem_of_seqZ. destruct (Hi i ltac:(lia)) as (t & a & Ht & Ha & Hs).
    exists (t, as_i64 a). cbn [mbind outcome_bind]. by rewrite Ht, Ha.
  - exists l. split; [exact Hl |]. split; [| done]. rewrite Hlen, length_seqZ. lia.
Qed.

Lemma phdr_ok_init bytes ub ul is_pie : phdr_ok bytes ub ul is_pie (mkPhdr PAGE [] None None 0).
Proof.
  constructor; cbn [ps_alignment ps_segments ps_relro ps_dynamic ps_total]; try done.
  - exists 12. split; [lia |]. split; [done |]. unfold PAGE. lia.
  - constructor.
Qed.

(** The checks before the program header loop, and their consequences. *)
Lemma byte_at_no_panic b o : 0 <= o < Z.of_nat (length b) -> byte_at b o <> Panic.
Proof.
  intros H. unfold byte_at. destruct (lookup_lt_is_Some_2 b (Z.to_nat o)) as [x ->]; [lia | done].
Qed.

Lemma parse_Ok bytes machine ub ul img :
  file_ok bytes -> parse bytes machine ub ul = Ok img -> image_safe bytes ub ul img.
Proof.
  intros FOK H. unfold parse in H.
  outcome_inv. match goal with p : Z * Z |- _ => destruct p as [file n] end.
  apply Ok_inj in H as <-.
  match goal with H : foldM (phdr_step _ _ _ ?is_pie _ _) _ _ = Ok ?st |- _ =>
    apply (foldM_ind _ (phdr_ok bytes ub ul is_pie)) in H as PK;
      [| intros s x s' _ Hs; by apply phdr_step_ok | apply phdr_ok_init] end.
  match goal with H : check_dynamic _ _ _ _ = Ok _ |- _ => rename H into Ed end.
  pose proof PK as [Al Sg Dj Ct [Tt Tr] Rl Dy].
  eapply check_dynamic_Ok in Ed as [Htab Hnone];
    [| done | exact Sg | intros va len off Hdyn; apply Dy in Hdyn; tauto].
  constructor; cbn [pie segments alignment entry relro reloc_file reloc_count]; try done.
  - lia.
  - match goal with H : negb (existsb (in_executable _) _) = false |- _ =>
      apply negb_false_iff, existsb_elem in H as (s & Hs & Hin) end.
    unfold in_executable in Hin. exists s. destruct (executable s); [| done].
    unfold seg_end. split; [done |]. split; [done |]. lia.
  - intros r Hr. destruct (Rl r Hr) as (H1 & H2 & H3). split_and!; try done.
    match goal with H : match ps_relro _ with _ => _ end = Ok _ |- _ => rewrite Hr in H end.
    outcome_inv. match goal with H : negb (existsb (covers_relro _) _) = false |- _ =>
      apply negb_false_iff, existsb_elem in H as (s & Hs & Hin) end.
    unfold covers_relro in Hin. exists s. destruct (writable s); [| done].
    unfold seg_end. split; [done |]. split; [done |]. lia.
  - by apply relocations_safe.
  - intros Hp. apply Hnone. destruct (ps_dynamic _) as [[[va len] off] |] eqn:Edyn; [| done].
    destruct (Dy va len off eq_refl) as [Hpie _]. congruence.
Qed.

Lemma parse_no_panic bytes machine ub ul :
  file_ok bytes -> parse bytes machine ub ul <> Panic.
Proof.
  intros FOK. pose proof FOK as [Hb Hlen]. unfold parse.
  match goal with |- context [guard_err ?b "not an ELF file"%string] =>
    destruct b eqn:E; [done |] end. cbn [guard_err mbind outcome_bind].
  assert (64 <= Z.of_nat (length bytes)) as Hsz by lia.
  assert (forall n o, 0 <= o -> o + Z.of_nat n <= 64 -> rd n bytes o <> Panic) as Hrd
    by (intros; apply rd_no_panic; lia).
  do 3 (apply bind_no_panic; [apply byte_at_no_panic; lia |]; intros ?).
  apply bind_no_panic; [apply Hrd; lia |]. intros version.
  apply bind_no_panic; [no_panic |]. intros _.
  apply bind_no_panic; [apply Hrd; lia |]. intros type_.
  apply bind_no_panic; [no_panic |]. intros is_pie.
  apply bind_no_panic; [apply Hrd; lia |]. intros mach.
  apply bind_no_panic; [no_panic |]. intros _.
  apply bind_no_panic; [apply Hrd; lia |]. intros ehsize.
  apply bind_no_panic; [no_panic |]. intros _.
  destruct (rd64 bytes 32) as [phoff | |] eqn:Eph; cbn [mbind outcome_bind]; [| done | exfalso; revert Eph; apply Hrd; lia].
  destruct (rd16 bytes 54) as [size | |] eqn:Esz; cbn [mbind outcome_bind]; [| done | exfalso; revert Esz; apply Hrd; lia].
  destruct (rd16 bytes 56) as [count | |] eqn:Ect; cbn [mbind outcome_bind]; [| done | exfalso; revert Ect; apply Hrd; lia].
  match goal with |- context [guard_err ?b "bad program header table"%string] =>
    destruct b eqn:Eh; [done |] end. cbn [guard_err mbind outcome_bind].
  apply rd64_range in Eph; [| done]. apply rd16_range in Esz; [| done]. apply rd16_range in Ect; [| done].
  assert (phoff + size * count <= Z.of_nat (length bytes)) as Hfit.
  { destruct (checked_add 64 phoff (size * count)) as [e |] eqn:Ea; [| lia].
    apply checked_add_Some in Ea. lia. }
  apply bind_no_panic; [apply Hrd; lia |]. intros ent.
  destruct (foldM _ _ _) as [st | e |] eqn:Ef; cbn [mbind outcome_bind]; [| done |].
  - apply (foldM_ind _ (phdr_ok bytes ub ul is_pie)) in Ef;
      [| intros s x s' _ Hs; by apply phdr_step_ok | apply phdr_ok_init].
    apply bind_no_panic; [no_panic |]. intros _.
    apply bind_no_panic; [destruct (ps_relro st); no_panic |]. intros _.
    apply bind_no_panic; [| by intros []].
    eapply check_dynamic_no_panic; [done | apply Ef |]. intros va len off Hd.
    apply (pk_dynamic _ _ _ _ _ Ef) in Hd. tauto.
  - apply (foldM_no_panic _ (fun _ => True)) in Ef; [done | | done | done].
    intros s i Hi%elem_of_seqZ _. apply phdr_step_no_panic; [nia |].
    assert ((i + 1) * size <= count * size) by (apply Z.mul_le_mono_nonneg_r; lia). lia.
Qed.

(** * Properties *)

(** Validating an image never panics, whatever bytes the file holds: every
    read the parser makes is inside the file. *)
Theorem elf_parse_never_panics bytes machine user_base user_limit :
  file_ok bytes -> parse bytes machine user_base user_limit <> Panic.
Proof. apply parse_no_panic. Qed.

(** C10. An accepted image is safe to map: at most sixteen segments, none both
    writable and executable, no two on the same page, each with its file bytes inside
    the file; the segments of a fixed-address image inside the user window, those of a
    PIE (whose addresses are offsets from the bias the loader chooses) below the 64 MiB
    image limit; at most 64 MiB in all; a power-of-two alignment; the entry point in an executable segment; RELRO whole pages of a
    writable segment; every relocation an aligned word of a writable segment with
    its addend inside the image. *)
Theorem elf_accepted_image_is_safe bytes machine user_base user_limit img :
  file_ok bytes -> parse bytes machine user_base user_limit = Ok img ->
  image_safe bytes user_base user_limit img.
Proof. apply parse_Ok. Qed.

(** * Witnesses: a position-independent image with one relocation *)

Definition demo_phdr (kind flags off va fsz msz align : Z) : list Z :=
  to_le_bytes 4 kind ++ to_le_bytes 4 flags ++ to_le_bytes 8 off ++ to_le_bytes 8 va
  ++ to_le_bytes 8 va ++ to_le_bytes 8 fsz ++ to_le_bytes 8 msz ++ to_le_bytes 8 align.
Definition demo_words (ws : list Z) : list Z := mjoin (map (to_le_bytes 8) ws).
Definition demo_file : list Z :=
  elf_magic ++ [2; 1; 1] ++ replicate 9 0 ++ to_le_bytes 2 3 ++ to_le_bytes 2 62
  ++ to_le_bytes 4 1 ++ to_le_bytes 8 16 ++ to_le_bytes 8 64 ++ to_le_bytes 8 0
  ++ to_le_bytes 4 0 ++ to_le_bytes 2 64 ++ to_le_bytes 2 56 ++ to_le_bytes 2 3
  ++ replicate 6 0
  ++ demo_phdr 1 5 0 0 232 232 1 ++ demo_phdr 1 6 232 8192 88 128 1
  ++ demo_phdr 2 6 232 8192 64 64 8
  ++ demo_words [7; 8256; 8; 24; 9; 24; 0; 0] ++ demo_words [8288; 8; 16].

Lemma demo_file_ok : file_ok demo_file.
Proof. split; [| vm_compute; done]. apply (bool_decide_unpack (Forall is_byte demo_file)). vm_compute. exact I. Qed.

Definition demo_image : Image :=
  mkImage 16 true 4096
    [mkSegment 0 232 0 232 false true; mkSegment 8192 128 232 88 true false] None 296 1.
Lemma demo_parse : parse demo_file 62 0 0 = Ok demo_image.
Proof. vm_compute. reflexivity. Qed.

Lemma elf_parse_never_panics_witness : parse demo_file 183 0 0 <> Panic.
Proof. exact (elf_parse_never_panics demo_file 183 0 0 demo_file_ok). Defined.

(** A fixed-address image: code at the base of the window, data two pages above with its
    first page read-only after start-up. *)
Definition demo_window : Z := 0x640000000000.
Definition demo_exec : list Z :=
  elf_magic ++ [2; 1; 1] ++ replicate 9 0 ++ to_le_bytes 2 2 ++ to_le_bytes 2 62
  ++ to_le_bytes 4 1 ++ to_le_bytes 8 (demo_window + 16) ++ to_le_bytes 8 64 ++ to_le_bytes 8 0
  ++ to_le_bytes 4 0 ++ to_le_bytes 2 64 ++ to_le_bytes 2 56 ++ to_le_bytes 2 3
  ++ replicate 6 0
  ++ demo_phdr 1 5 0 demo_window 232 232 1 ++ demo_phdr 1 6 200 (demo_window + 8192) 32 8192 1
  ++ demo_phdr 0x6474e552 4 200 (demo_window + 8192) 32 4096 1.
Lemma demo_exec_ok : file_ok demo_exec.
Proof. split; [| vm_compute; done]. apply (bool_decide_unpack (Forall is_byte demo_exec)). vm_compute. exact I. Qed.
Definition demo_exec_image : Image :=
  mkImage (demo_window + 16) false 4096
    [mkSegment demo_window 232 0 232 false true; mkSegment (demo_window + 8192) 8192 200 32 true false]
    (Some (mkRegion (demo_window + 8192) (demo_window + 12288))) 0 0.
Lemma demo_exec_parse : parse demo_exec 62 demo_window (demo_window + 2 ^ 39) = Ok demo_exec_image.
Proof. vm_compute. reflexivity. Qed.

Lemma elf_accepted_image_is_safe_witness :
  parse demo_exec 62 demo_window (demo_window + 2 ^ 39) = Ok demo_exec_image
  /\ image_safe demo_exec demo_window (demo_window + 2 ^ 39) demo_exec_image.
Proof.
  split; [exact demo_exec_parse |].
  exact (elf_accepted_image_is_safe demo_exec 62 demo_window (demo_window + 2 ^ 39) demo_exec_image demo_exec_ok demo_exec_parse).
Defined.

End Elf.
