(* ===== verification/UserSpace.v ===== *)
(** User address spaces: placement of images and stacks (src/memory/user_layout.rs,
    src/memory/stack_layout.rs, src/security/kaslr.rs), pointer checks and
    speculation masks (src/memory/user_bounds.rs, src/memory/user.rs) and the
    ownership bitmap of user slots (src/memory/user.rs). *)

From Stdlib Require Import ZArith Lia.
From stdpp Require Import base list list_numbers numbers decidable tactics sets.
From S2P Require Import Prelude.

(** * Placement of user images and stacks *)

Module UserLayout.

Definition BASE : Z := 0x0000640000000000.
Definition END_ : Z := BASE + Z.shiftl 1 39.
Definition PAGE : Z := 4096.
Definition STACK_PAGES : Z := 4.
Definition IMAGE_LIMIT : Z := BASE + Z.shiftl 1 38.

Record Layout := mkLayout { bias : Z; stack_edge : Z; stack_pointer : Z }.

(** [None] is the failed assertion on the alignment. *)
Definition image_bias (l : Layout) (alignment : Z) : option Z :=
  if (PAGE <=? alignment) && (alignment <=? 65536) && is_power_of_two alignment
  then Some (Z.land (bias l) (unot 64 (alignment - 1)) + alignment) else None.

Definition choose (code stack sp : Z) : Layout :=
  let b := BASE + PAGE + Z.land code 0x1ffffff * PAGE in
  let edge := IMAGE_LIMIT + (16 + Z.land stack 0x1ffffff) * PAGE in
  mkLayout b edge (edge - 64 - Z.land sp 0x3f0).

End UserLayout.

(** * Guarded kernel stacks *)

Module StackLayout.

Definition BASE : Z := 0xffffe00000000000.
Definition LIMIT : Z := BASE + Z.shiftl 1 39.
Definition PAGE : Z := 4096.
Definition SIZE : Z := 32768.
Definition STRIDE : Z := 65536.

Definition bottom (frame first next : Z) : option Z :=
  if (frame <? first + PAGE) || (next <=? frame) || (LIMIT <? next) then None
  else
    let b := Z.land frame (unot 64 (STRIDE - 1)) + PAGE in
    if (b <=? frame) && (frame <? b + SIZE) then Some b else None.

End StackLayout.

(** * Kernel address-space randomisation *)

Module Kaslr.

Definition AMD_DYNAMIC_START : Z := 0xffff800000000000.
Definition AMD_DYNAMIC_END : Z := 0xffffbfffffffffff.
Definition AMD_HEAP_BASE : Z := 0xffffc00000000000.
Definition AMD_IST_BASE : Z := 0xffffc80000000000.
Definition ARM_HEAP_BASE : Z := 0xffffd00000000000.
Definition HEAP_VA_BUDGET : Z := Z.shiftl 128 30 + Z.shiftl 2 20.
Definition HEAP_PLACEMENTS : Z := Z.shiftr (Z.shiftl 4 40 - HEAP_VA_BUDGET) 21 + 1.

Definition amd_ist (word : Z) : Z :=
  AMD_IST_BASE + Z.shiftl (Z.land word (Z.shiftl 1 21 - 1)) 21.
Definition amd_heap (word : Z) : Z := AMD_HEAP_BASE + Z.shiftl (word mod HEAP_PLACEMENTS) 21.
Definition arm_heap (word : Z) : Z := ARM_HEAP_BASE + Z.shiftl (word mod HEAP_PLACEMENTS) 21.
Definition HIGH : Z := 0xffff000000000000.
Definition arm_layout (w0 w1 w2 : Z) : Z * Z :=
  let linear := Z.lor HIGH (Z.shiftl (1 + Z.land w0 127) 39) in
  let image := Z.lor (Z.lor HIGH (Z.shiftl (256 + Z.land w1 127) 39))
                 (Z.shiftl (Z.land w2 (Z.shiftl 1 17 - 1)) 21) in
  (linear, image).

End Kaslr.

(** * User pointers *)

Module UserBounds.

Definition bounds_ok (ptr len base end_ : Z) : bool :=
  (len =? 0) || ((base <=? ptr) && (ptr <? end_) && (len <=? end_ - ptr)).

(** [cmp index, size; sbb mask, mask] (amd64), [csetm mask, lo] (arm64). *)
Definition array_index_mask_nospec (index size : Z) : Z :=
  if index <? size then U64_MAX else 0.
Definition array_index_nospec (index size : Z) : Z :=
  Z.land index (array_index_mask_nospec index size).

Definition mask_user_ptr (ptr len base end_ : Z) : Z :=
  let start := array_index_mask_nospec (wrapping_sub 64 ptr base) (end_ - base) in
  let length := array_index_mask_nospec len (wrapping_add 64 (wrapping_sub 64 end_ ptr) 1) in
  let mask := Z.land start length in
  Z.lor (Z.land ptr mask) (Z.land end_ (unot 64 mask)).

Definition USER_BASE : Z := UserLayout.BASE.
Definition USER_END : Z := UserLayout.END_.
Definition PAGE : Z := 4096.

Section range.
  (** The page-table walk: [(user accessible, writable)] of a mapped page. *)
  Context (query_page : Z -> option (bool * bool)).

(** The [while page < end] loop; [fuel] counts pages (see [pages_ok_spec]). *)
Fixpoint pages_ok (fuel : nat) (page end_ : Z) (write : bool) : option bool :=
  match fuel with
  | O => None
  | S fuel' =>
      if page <? end_ then
        match query_page page with
        | Some (true, writable) =>
            if write && negb writable then Some false
            else pages_ok fuel' (page + PAGE) end_ write
        | _ => Some false
        end
      else Some true
  end.

(** The outer [option] is fuel. *)
Definition range_ok (ptr len : Z) (write : bool) : option bool :=
  if len =? 0 then Some true
  else match checked_add 64 ptr len with
       | None => Some false
       | Some end_ =>
           if (ptr <? USER_BASE) || (USER_END <? end_) then Some false
           else
             let ptr := mask_user_ptr ptr len USER_BASE USER_END in
             pages_ok (S (S (Z.to_nat (len / PAGE + 1)))) (align_down ptr PAGE) end_ write
       end.
End range.

End UserBounds.

(** * Ownership of user slots *)

Module UserSlots.

(** One successful pass of the compare-and-swap loop of [alloc_slot]: the slot
    and the new bitmap, given the bitmap read and the random rotation. *)
Definition alloc_slot (cur random : Z) : option (Z * Z) :=
  let rotate := Z.land random 63 in
  if cur =? U64_MAX then None
  else
    let slot := Z.land (trailing_zeros 64 (rotate_right 64 (unot 64 cur) rotate) + rotate) 63 in
    Some (slot, Z.lor cur (Z.shiftl 1 slot)).

Definition free_slot (cur slot : Z) : Z := Z.land cur (unot 64 (Z.shiftl 1 slot)).

End UserSlots.

(** * Lemmas *)

Lemma land_ones_mod x k : 0 <= k -> Z.land x (2 ^ k - 1) = x mod 2 ^ k.
Proof.
  intros Hk. rewrite <- Z.land_ones by done. f_equal. rewrite Z.ones_equiv. lia.
Qed.

Lemma land_3f0 x : Z.land x 0x3f0 = (x mod 1024) / 16 * 16.
Proof.
  change 0x3f0 with (Z.shiftl (Z.ones 6) 4). change 1024 with (2 ^ 10).
  rewrite <- (Z.land_ones x 10) by lia. change 16 with (2 ^ 4).
  apply Z.bits_inj'. intros n Hn.
  rewrite Z.land_spec, Z.shiftl_spec, Z.mul_pow2_bits by lia.
  destruct (Z.ltb_spec n 4).
  - rewrite !(Z.testbit_neg_r _ (n - 4)) by lia. apply andb_false_r.
  - rewrite Z.div_pow2_bits, Z.land_spec, !Z.testbit_ones_nonneg by lia.
    replace (n - 4 + 4) with n by lia. f_equal. lia.
Qed.

(** Or-ing a multiple of [2^k] with a number below [2^k] is adding. *)
Lemma add_lor_disjoint k x y :
  0 <= k -> 0 <= x -> 0 <= y < 2 ^ k -> x * 2 ^ k + y = Z.lor (x * 2 ^ k) y.
Proof.
  intros Hk Hx Hy. rewrite <- Z.shiftl_mul_pow2, <- Z.add_lor_land by done.
  enough (Z.land (Z.shiftl x k) y = 0) by lia. apply Z.bits_inj'. intros n Hn. rewrite Z.land_spec, Z.bits_0.
  destruct (decide (n < k)).
  - rewrite Z.shiftl_spec_low by done. done.
  - rewrite (testbit_above k y) by lia. apply andb_false_r.
Qed.

(** Rotation permutes the bits of a word. *)
Lemma testbit_rotate_right w x r i :
  0 <= x < 2 ^ w -> 0 <= r < w -> 0 <= i < w ->
  Z.testbit (rotate_right w x r) i = Z.testbit x ((i + r) mod w).
Proof.
  intros Hx Hr Hi. unfold rotate_right.
  rewrite Z.lor_spec, Z.shiftr_spec, Z.mod_pow2_bits_low, Z.shiftl_spec by lia.
  destruct (decide (i + r < w)).
  - rewrite Z.mod_small by lia. rewrite (Z.testbit_neg_r _ (i - (w - r))) by lia. apply orb_false_r.
  - rewrite (testbit_above w) by lia. simpl. f_equal.
    replace (i + r) with (i - (w - r) + 1 * w) by lia.
    rewrite Z.mod_add, Z.mod_small by lia. done.
Qed.

(** [trailing_zeros] of a nonzero word is the position of a set bit. *)
Lemma trailing_zeros_from_spec fuel i x :
  0 <= i -> (exists j, i <= j < i + Z.of_nat fuel /\ Z.testbit x j = true) ->
  let t := trailing_zeros_from fuel i x in
  i <= t < i + Z.of_nat fuel /\ Z.testbit x t = true
  /\ forall j, i <= j < t -> Z.testbit x j = false.
Proof.
  revert i. induction fuel as [| fuel IH]; intros i Hi (j & Hj & Hb); [lia |]. simpl.
  destruct (Z.testbit x i) eqn:E; [split; [lia |]; split; [done | lia] |].
  assert (i <> j) by congruence.
  destruct (IH (i + 1) ltac:(lia)) as (H1 & H2 & H3); [exists j; split; [lia | done] |].
  split; [lia |]. split; [done |]. intros k Hk.
  destruct (decide (k = i)) as [-> |]; [done | apply H3; lia].
Qed.

Lemma nonzero_bit w x : 0 <= w -> 0 <= x < 2 ^ w -> x <> 0 -> exists j, 0 <= j < w /\ Z.testbit x j = true.
Proof.
  intros Hw Hx Hne. exists (Z.log2 x). split; [| apply Z.bit_log2; lia].
  split; [apply Z.log2_nonneg |]. apply Z.log2_lt_pow2; lia.
Qed.

(** [mask_user_ptr] without the bit operations. *)
Lemma mask_user_ptr_spec ptr len base end_ :
  0 <= ptr < 2 ^ 64 -> 0 <= len < 2 ^ 64 -> 0 < base < end_ -> end_ < 2 ^ 64 ->
  UserBounds.mask_user_ptr ptr len base end_ =
    if (base <=? ptr) && (ptr <? end_) && (len <=? end_ - ptr) then ptr else end_.
Proof.
  intros Hp Hl Hb He. unfold UserBounds.mask_user_ptr, UserBounds.array_index_mask_nospec.
  assert ((wrapping_sub 64 ptr base <? end_ - base) = (base <=? ptr) && (ptr <? end_)) as ->.
  { unfold wrapping_sub. destruct (decide (base <= ptr)).
    - rewrite Z.mod_small by lia. lia.
    - replace (ptr - base) with (ptr - base + 2 ^ 64 + (-1) * 2 ^ 64) by lia.
      rewrite Z.mod_add, Z.mod_small by lia. lia. }
  destruct ((base <=? ptr) && (ptr <? end_)) eqn:E; simpl andb.
  - assert (wrapping_add 64 (wrapping_sub 64 end_ ptr) 1 = end_ - ptr + 1) as ->.
    { unfold wrapping_add, wrapping_sub. rewrite (Z.mod_small (end_ - ptr)) by lia.
      apply Z.mod_small. lia. }
    replace (len <? end_ - ptr + 1) with (len <=? end_ - ptr) by lia.
    change U64_MAX with (Z.ones 64).
    destruct (len <=? end_ - ptr); cbn iota.
    + rewrite Z.land_diag, Z.land_ones, Z.mod_small by lia.
      change (unot 64 (Z.ones 64)) with 0. by rewrite Z.land_0_r, Z.lor_0_r.
    + rewrite !Z.land_0_r. change (unot 64 0) with (Z.ones 64).
      by rewrite Z.land_ones, Z.mod_small by lia.
  - rewrite Z.land_0_l, Z.land_0_r. change (unot 64 0) with (Z.ones 64).
    by rewrite Z.land_ones, Z.mod_small by lia.
Qed.

Section pages.
  Context (query_page : Z -> option (bool * bool)).

(** The page at [p] is mapped for user access, writable if [write]. *)
Definition page_accessible (write : bool) (p : Z) : Prop :=
  exists w, query_page p = Some (true, w) /\ (write = true -> w = true).

Lemma pages_ok_spec fuel page end_ write :
  (0 < fuel)%nat -> end_ - page <= (Z.of_nat fuel - 1) * UserBounds.PAGE ->
  exists b, UserBounds.pages_ok query_page fuel page end_ write = Some b
    /\ (b = true <-> forall k, 0 <= k -> page + k * UserBounds.PAGE < end_ ->
         page_accessible write (page + k * UserBounds.PAGE)).
Proof.
  unfold UserBounds.PAGE. revert page. induction fuel as [| fuel IH]; intros page H0 Hf; [lia |].
  cbn [UserBounds.pages_ok]. destruct (page <? end_) eqn:E.
  2: { exists true. split; [done |]. split; [| done]. intros _ k Hk Hlt. lia. }
  assert ((forall k, 0 <= k -> page + k * 4096 < end_ -> page_accessible write (page + k * 4096))
          <-> page_accessible write page
              /\ (forall k, 0 <= k -> page + 4096 + k * 4096 < end_ ->
                   page_accessible write (page + 4096 + k * 4096))) as Hsplit.
  { split.
    - intros H. split; [specialize (H 0 ltac:(lia)); replace (page + 0 * 4096) with page in H by lia;
        apply H; lia |].
      intros k Hk Hlt. specialize (H (k + 1) ltac:(lia)).
      replace (page + (k + 1) * 4096) with (page + 4096 + k * 4096) in H by lia. by apply H.
    - intros [Hfirst HS] k Hk Hlt. destruct (decide (k = 0)) as [-> |];
        [by replace (page + 0 * 4096) with page by lia |].
      replace (page + k * 4096) with (page + 4096 + (k - 1) * 4096) by lia. apply HS; lia. }
  assert (page_accessible write page <->
          match query_page page with Some (true, w) => write && negb w = false | _ => False end) as Hacc.
  { unfold page_accessible. destruct (query_page page) as [[[] w] |]; [| naive_solver | naive_solver].
    destruct write, w; naive_solver. }
  destruct (query_page page) as [[[] w] |].
  - unfold UserBounds.PAGE. destruct (write && negb w).
    + exists false. split; [done |]. rewrite Hsplit, Hacc. naive_solver.
    + destruct (IH (page + 4096)) as (b & Hb & Hiff); [lia | lia |].
      exists b. split; [exact Hb |]. rewrite Hsplit, Hacc, Hiff. naive_solver.
  - exists false. split; [done |]. rewrite Hsplit, Hacc. naive_solver.
  - exists false. split; [done |]. rewrite Hsplit, Hacc. naive_solver.
Qed.
End pages.

(** * Properties *)

(** C34. Whatever the random words, an image of at most 64 MiB relocated by
    [image_bias] lies aligned inside the lower half of the user window, above its
    first page; the four stack pages lie in the upper half with an unmapped page
    below them; the initial stack pointer is 16-byte aligned, in the top page, and
    leaves the last 64 bytes to the startup block. *)
Theorem user_placement_in_window code stack sp alignment b :
  0 <= code -> 0 <= stack -> 0 <= sp ->
  let l := UserLayout.choose code stack sp in
  UserLayout.image_bias l alignment = Some b ->
  b mod alignment = 0 /\ UserLayout.BASE < b
  /\ b + Z.shiftl 64 20 <= UserLayout.IMAGE_LIMIT
  /\ UserLayout.stack_edge l mod UserLayout.PAGE = 0
  /\ UserLayout.IMAGE_LIMIT + UserLayout.PAGE
     <= UserLayout.stack_edge l - UserLayout.STACK_PAGES * UserLayout.PAGE
  /\ UserLayout.stack_edge l <= UserLayout.END_
  /\ UserLayout.stack_pointer l mod 16 = 0
  /\ UserLayout.stack_edge l - UserLayout.PAGE < UserLayout.stack_pointer l
     <= UserLayout.stack_edge l - 64.
Proof.
  intros Hc Hs Hsp. unfold UserLayout.choose, UserLayout.image_bias.
  cbn [UserLayout.bias UserLayout.stack_edge UserLayout.stack_pointer].
  unfold UserLayout.END_, UserLayout.IMAGE_LIMIT, UserLayout.STACK_PAGES, UserLayout.PAGE,
    UserLayout.BASE.
  change 0x1ffffff with (2 ^ 25 - 1). rewrite !land_ones_mod, land_3f0 by lia.
  change (Z.shiftl 64 20) with (2 ^ 26). change (Z.shiftl 1 38) with (2 ^ 38).
  change (Z.shiftl 1 39) with (2 ^ 39).
  pose proof (Z.mod_pos_bound code (2 ^ 25)). pose proof (Z.mod_pos_bound stack (2 ^ 25)).
  destruct (is_power_of_two alignment) eqn:Ep; [| by rewrite andb_false_r].
  apply is_power_of_two_spec in Ep as (k & Hk & ->). case_if; [| done]. intros [= <-].
  assert (k <= 16) by (apply (Z.pow_le_mono_r_iff 2); lia).
  set (x := 0x0000640000000000 + 4096 + code mod 2 ^ 25 * 4096) in *.
  pose proof (align_down_range x k ltac:(lia) ltac:(lia)) as (Ha1 & Ha2 & Ha3).
  unfold align_down in *. set (y := Z.land x _) in *.
  split; [rewrite <- (Z.mul_1_l (2 ^ k)) at 1; by rewrite Z.mod_add by lia |].
  clearbody y. clear Ha3.
  pose proof (Z.mod_pos_bound code (2 ^ 25) ltac:(lia)). pose proof (Z.mod_pos_bound stack (2 ^ 25) ltac:(lia)).
  set (s := stack mod 2 ^ 25) in *. set (c := code mod 2 ^ 25) in *. clearbody s c.
  assert (2 ^ k <= 2 ^ 16) by (apply Z.pow_le_mono_r; lia). set (al := 2 ^ k) in *. clearbody al.
  split_and!; try lia; zdiv.
Qed.

(** The masked pointer is the pointer itself exactly when [len] bytes from it
    lie in the window, and the unmapped end of the window otherwise; so a pointer
    that passed [bounds_ok] is unchanged and one that did not cannot be used. *)
Theorem mask_user_ptr_confines ptr len :
  0 <= ptr < 2 ^ 64 -> 0 <= len < 2 ^ 64 ->
  let p := UserBounds.mask_user_ptr ptr len UserBounds.USER_BASE UserBounds.USER_END in
  (UserBounds.bounds_ok ptr len UserBounds.USER_BASE UserBounds.USER_END = true -> 0 < len ->
     p = ptr)
  /\ (UserBounds.bounds_ok ptr len UserBounds.USER_BASE UserBounds.USER_END = false ->
     p = UserBounds.USER_END)
  /\ (p = UserBounds.USER_END \/ UserBounds.USER_BASE <= p /\ p + len <= UserBounds.USER_END).
Proof.
  intros Hp Hl. cbn zeta. rewrite mask_user_ptr_spec by (done || lia).
  unfold UserBounds.bounds_ok, UserBounds.USER_BASE, UserBounds.USER_END, UserLayout.END_, UserLayout.BASE.
  change (Z.shiftl 1 39) with (2 ^ 39). case_if; lia.
Qed.

(** [range_ok] always answers, and answers yes exactly when every page that
    [len > 0] bytes from [ptr] touch is in the user window and mapped for user
    access, writable if the access writes. *)
Theorem range_ok_exact query_page ptr len write :
  0 <= ptr < 2 ^ 64 -> 0 < len < 2 ^ 64 ->
  exists b, UserBounds.range_ok query_page ptr len write = Some b
    /\ (b = true <->
        UserBounds.USER_BASE <= ptr /\ ptr + len <= UserBounds.USER_END
        /\ forall a, ptr <= a < ptr + len ->
             page_accessible query_page write (a / UserBounds.PAGE * UserBounds.PAGE)).
Proof.
  intros Hp Hl. unfold UserBounds.range_ok. replace (len =? 0) with false by lia.
  unfold checked_add. destruct (ptr + len <? 2 ^ 64) eqn:Eo.
  2: { exists false. split; [done |]. split; [done |]. intros (_ & H & _).
       unfold UserBounds.USER_END, UserLayout.END_, UserLayout.BASE in H.
       change (Z.shiftl 1 39) with (2 ^ 39) in H. lia. }
  destruct (_ || _) eqn:Ew; [exists false; split; [done |]; split; [done | lia] |].
  rewrite mask_user_ptr_spec by (done || lia).
  replace (_ && _) with true by lia.
  pose proof (align_down_range ptr 12 ltac:(lia) ltac:(lia)) as (H1 & H2 & H3).
  pose proof (align_down_spec ptr 12 ltac:(lia) ltac:(lia)) as Hd.
  change (2 ^ 12) with UserBounds.PAGE in *. set (page := align_down ptr UserBounds.PAGE) in *.
  destruct (pages_ok_spec query_page (S (S (Z.to_nat (len / UserBounds.PAGE + 1)))) page (ptr + len) write)
    as (b & Hb & Hiff); [lia | unfold UserBounds.PAGE in *; zdiv |].
  exists b. split; [exact Hb |]. rewrite Hiff. unfold UserBounds.PAGE in *.
  split; [intros H; split; [lia |]; split; [lia |] | intros (_ & _ & H)].
  - intros a Ha. replace (a / 4096 * 4096) with (page + (a / 4096 - ptr / 4096) * 4096) by lia.
    apply H; zdiv.
  - intros k Hk Hlt.
    replace (page + k * 4096) with (Z.max ptr (page + k * 4096) / 4096 * 4096) by zdiv.
    apply H. lia.
Qed.

(** A slot handed out was free and becomes used, whatever the random rotation,
    and no other slot changes; none is handed out only when all 64 are used; freeing
    the slot restores the bitmap. *)
Theorem user_slot_allocation cur random :
  0 <= cur < 2 ^ 64 -> 0 <= random ->
  match UserSlots.alloc_slot cur random with
  | Some (slot, cur') => 0 <= slot < 64 /\ Z.testbit cur slot = false
      /\ 0 <= cur' < 2 ^ 64
      /\ (forall i, 0 <= i < 64 -> Z.testbit cur' i = (i =? slot) || Z.testbit cur i)
      /\ UserSlots.free_slot cur' slot = cur
  | None => forall i, 0 <= i < 64 -> Z.testbit cur i = true
  end.
Proof.
  intros Hc Hr. unfold UserSlots.alloc_slot. destruct (Z.eqb_spec cur U64_MAX) as [-> | Hne].
  { intros i Hi. change U64_MAX with (Z.ones 64). apply Z.ones_spec_low. lia. }
  change 63 with (2 ^ 6 - 1). rewrite !land_ones_mod by lia. change (2 ^ 6) with 64.
  set (r := random mod 64). assert (0 <= r < 64) as Hrr by (apply Z.mod_pos_bound; lia).
  pose proof (unot_range 64 cur Hc) as Hu.
  destruct (nonzero_bit 64 (unot 64 cur)) as (j & Hj & Hbit);
    [lia | done | unfold unot, U64_MAX in *; lia |].
  destruct (trailing_zeros_from_spec 64 0 (rotate_right 64 (unot 64 cur) r)) as (Ht & Hb & _); [lia | |].
  { exists ((j - r) mod 64). pose proof (Z.mod_pos_bound (j - r) 64).
    split; [lia |]. rewrite testbit_rotate_right by lia.
    by replace (((j - r) mod 64 + r) mod 64) with j by zdiv. }
  change (trailing_zeros_from 64 0 _) with (trailing_zeros 64 (rotate_right 64 (unot 64 cur) r)) in *.
  set (t := trailing_zeros 64 _) in *. rewrite testbit_rotate_right in Hb by lia.
  set (slot := (t + r) mod 64) in *. assert (0 <= slot < 64) as Hs by (apply Z.mod_pos_bound; lia).
  rewrite testbit_unot in Hb by lia. apply negb_true_iff in Hb.
  assert (0 <= Z.shiftl 1 slot < 2 ^ 64) as Hsl
    by (rewrite Z.shiftl_1_l; split; [lia | apply Z.pow_lt_mono_r; lia]).
  assert (forall i, 0 <= i < 64 -> Z.testbit (Z.lor cur (Z.shiftl 1 slot)) i
            = (i =? slot) || Z.testbit cur i) as Hset.
  { intros i Hi. rewrite Z.lor_spec, testbit_pow2 by lia. apply orb_comm. }
  pose proof (lor_range 64 cur (Z.shiftl 1 slot) Hc Hsl ltac:(lia)) as Hlor.
  do 4 (split; [done |]).
  unfold UserSlots.free_slot. apply (uint_bits_inj 64); [lia | | lia |].
  - apply land_range; [lia | done].
  - intros i Hi. rewrite Z.land_spec, Hset, testbit_unot, testbit_pow2 by lia.
    destruct (Z.eqb_spec i slot) as [-> |]; [by rewrite Hb | by rewrite andb_true_r].
Qed.

(** Every random placement of the kernel heap, the interrupt stacks and the
    arm64 linear map and image is aligned and inside its own range, and the
    ranges are pairwise disjoint, including the whole growth budget of the heap. *)
Theorem kaslr_ranges_disjoint w w0 w1 w2 :
  0 <= w -> 0 <= w0 -> 0 <= w1 -> 0 <= w2 ->
  let heap := Kaslr.amd_heap w in
  let ist := Kaslr.amd_ist w in
  let arm := Kaslr.arm_heap w in
  let '(linear, image) := Kaslr.arm_layout w0 w1 w2 in
  heap mod 2 ^ 21 = 0 /\ Kaslr.AMD_DYNAMIC_END < heap
  /\ heap + Kaslr.HEAP_VA_BUDGET <= Kaslr.AMD_IST_BASE
  /\ ist mod 2 ^ 21 = 0 /\ Kaslr.AMD_IST_BASE <= ist /\ ist + 2 ^ 21 <= StackLayout.BASE
  /\ arm mod 2 ^ 21 = 0 /\ Kaslr.ARM_HEAP_BASE <= arm
  /\ arm + Kaslr.HEAP_VA_BUDGET <= StackLayout.BASE
  /\ Kaslr.HIGH + 2 ^ 39 <= linear /\ linear mod 2 ^ 39 = 0 /\ linear + 2 ^ 39 <= Kaslr.HIGH + 2 ^ 47
  /\ image mod 2 ^ 21 = 0 /\ Kaslr.HIGH + 2 ^ 47 <= image /\ image + 2 ^ 38 <= Kaslr.ARM_HEAP_BASE.
Proof.
  intros Hw H0 H1 H2.
  unfold Kaslr.amd_heap, Kaslr.amd_ist, Kaslr.arm_heap, Kaslr.arm_layout.
  pose proof (Z.mod_pos_bound w Kaslr.HEAP_PLACEMENTS ltac:(done)) as Hp.
  change (Z.shiftl 1 21 - 1) with (2 ^ 21 - 1). change (Z.shiftl 1 17 - 1) with (2 ^ 17 - 1).
  change 127 with (2 ^ 7 - 1). rewrite !land_ones_mod, !Z.shiftl_mul_pow2 by lia.
  pose proof (Z.mod_pos_bound w (2 ^ 21)) as Hi. pose proof (Z.mod_pos_bound w0 (2 ^ 7)) as Hl.
  pose proof (Z.mod_pos_bound w1 (2 ^ 7)) as Hm. pose proof (Z.mod_pos_bound w2 (2 ^ 17)) as Hn.
  set (p := w mod Kaslr.HEAP_PLACEMENTS) in *. set (i := w mod 2 ^ 21) in *.
  set (a := w0 mod 2 ^ 7) in *. set (b := w1 mod 2 ^ 7) in *. set (c := w2 mod 2 ^ 17) in *.
  assert (Z.lor Kaslr.HIGH ((1 + a) * 2 ^ 39) = Kaslr.HIGH + (1 + a) * 2 ^ 39) as ->
    by (symmetry; apply (add_lor_disjoint 48 (2 ^ 16 - 1)); lia).
  assert (Z.lor Kaslr.HIGH ((256 + b) * 2 ^ 39) = Kaslr.HIGH + (256 + b) * 2 ^ 39) as ->
    by (symmetry; apply (add_lor_disjoint 48 (2 ^ 16 - 1)); lia).
  assert (Z.lor (Kaslr.HIGH + (256 + b) * 2 ^ 39) (c * 2 ^ 21)
          = Kaslr.HIGH + (256 + b) * 2 ^ 39 + c * 2 ^ 21) as ->
    by (symmetry; replace (Kaslr.HIGH + (256 + b) * 2 ^ 39)
          with ((0xffff * 2 ^ 9 + 256 + b) * 2 ^ 39) by (unfold Kaslr.HIGH; lia);
        apply (add_lor_disjoint 39 (0xffff * 2 ^ 9 + 256 + b)); lia).
  unfold Kaslr.HIGH, Kaslr.AMD_HEAP_BASE, Kaslr.AMD_IST_BASE, Kaslr.ARM_HEAP_BASE,
    Kaslr.AMD_DYNAMIC_END, StackLayout.BASE.
  change Kaslr.HEAP_VA_BUDGET with (2 ^ 37 + 2 ^ 21).
  change Kaslr.HEAP_PLACEMENTS with (2 ^ 21 - 2 ^ 16 - 1 + 1) in Hp.
  split_and!; try lia; zdiv.
Qed.

(** For the stack area [first..next] of 64 KiB strides, [bottom] maps an address
    to the lowest usable byte of the one stack that holds it, and gives nothing
    for an address in a guard page or outside every stack. *)
Theorem stack_bottom_exact frame first next :
  0 <= first -> first mod StackLayout.STRIDE = 0 -> 0 <= frame < 2 ^ 64 ->
  next <= StackLayout.LIMIT ->
  match StackLayout.bottom frame first next with
  | Some b => b mod StackLayout.STRIDE = StackLayout.PAGE /\ first + StackLayout.PAGE <= b
      /\ b <= frame < b + StackLayout.SIZE /\ frame < next
  | None => forall k, 0 <= k -> frame < next ->
      ~ first + k * StackLayout.STRIDE + StackLayout.PAGE <= frame
        < first + k * StackLayout.STRIDE + StackLayout.PAGE + StackLayout.SIZE
  end.
Proof.
  intros Hf Hm Hfr Hn. unfold StackLayout.bottom.
  change (Z.land frame (unot 64 (StackLayout.STRIDE - 1))) with (align_down frame (2 ^ 16)).
  rewrite align_down_spec by lia. change (2 ^ 16) with 65536.
  unfold StackLayout.STRIDE, StackLayout.PAGE, StackLayout.SIZE in *.
  destruct (_ || _) eqn:E; [intros k Hk Hnx; lia |].
  case_if; [zdiv |]. intros k Hk Hnx Hin. zdiv.
Qed.

(** * Witnesses *)

Definition demo_layout : UserLayout.Layout := UserLayout.choose 12345 678 0xffff.
Lemma demo_bias : UserLayout.image_bias demo_layout 8192 = Some 109951213355008.
Proof. vm_compute. reflexivity. Qed.

Lemma user_placement_in_window_witness :
  UserLayout.image_bias demo_layout 8192 = Some 109951213355008
  /\ 109951213355008 + Z.shiftl 64 20 <= UserLayout.IMAGE_LIMIT.
Proof.
  split; [exact demo_bias |].
  destruct (user_placement_in_window 12345 678 0xffff 8192 109951213355008
              ltac:(lia) ltac:(lia) ltac:(lia) demo_bias) as (_ & _ & H & _). exact H.
Defined.

Lemma mask_user_ptr_confines_witness :
  UserBounds.mask_user_ptr (UserBounds.USER_END - 1) 2 UserBounds.USER_BASE UserBounds.USER_END
    = UserBounds.USER_END.
Proof.
  refine (proj1 (proj2 (mask_user_ptr_confines (UserBounds.USER_END - 1) 2 _ _)) _);
    [split; [done | reflexivity] | lia | reflexivity].
Defined.

Definition demo_query (p : Z) : option (bool * bool) :=
  if p =? UserBounds.USER_BASE then Some (true, false) else None.
Lemma range_ok_exact_witness :
  exists b, UserBounds.range_ok demo_query (UserBounds.USER_BASE + 8) 16 false = Some b /\ b = true.
Proof.
  destruct (range_ok_exact demo_query (UserBounds.USER_BASE + 8) 16 false
              ltac:(split; [done | reflexivity]) ltac:(lia)) as (b & Hb & _).
  exists b. split; [exact Hb |].
  enough (UserBounds.range_ok demo_query (UserBounds.USER_BASE + 8) 16 false = Some true) by congruence.
  vm_compute. reflexivity.
Defined.

Lemma user_slot_allocation_witness :
  UserSlots.alloc_slot 7 2 = Some (3, 15) /\ UserSlots.free_slot 15 3 = 7.
Proof.
  assert (UserSlots.alloc_slot 7 2 = Some (3, 15)) as E by (vm_compute; reflexivity).
  split; [exact E |]. pose proof (user_slot_allocation 7 2 ltac:(lia) ltac:(lia)) as H.
  rewrite E in H. destruct H as (_ & _ & _ & _ & H). exact H.
Defined.

Lemma kaslr_ranges_disjoint_witness :
  Kaslr.amd_heap 99 + Kaslr.HEAP_VA_BUDGET <= Kaslr.AMD_IST_BASE.
Proof.
  destruct (kaslr_ranges_disjoint 99 1 2 3 ltac:(lia) ltac:(lia) ltac:(lia) ltac:(lia))
    as (_ & _ & H & _). exact H.
Defined.

Lemma stack_bottom_exact_witness :
  let f := StackLayout.BASE + 70000 in
  StackLayout.bottom f StackLayout.BASE (StackLayout.BASE + 131072)
    = Some (StackLayout.BASE + 65536 + 4096)
  /\ f < StackLayout.BASE + 131072.
Proof.
  assert (StackLayout.bottom (StackLayout.BASE + 70000) StackLayout.BASE (StackLayout.BASE + 131072)
          = Some (StackLayout.BASE + 65536 + 4096)) as E by (vm_compute; reflexivity).
  split; [exact E |].
  pose proof (stack_bottom_exact (StackLayout.BASE + 70000) StackLayout.BASE
                (StackLayout.BASE + 131072) ltac:(done) eq_refl
                ltac:(split; [done | reflexivity]) ltac:(vm_compute; done)) as H.
  rewrite E in H. exact (proj2 (proj2 (proj2 H))).
Defined.
