(* ===== verification/AsidPool.v ===== *)
(** ASID generations (src/arch/arm64/asid_pool.rs): address-space tags shared by
    all CPUs, recycled by starting a new generation with a TLB flush.  A failed
    assertion or [expect] is [None]. *)

From Stdlib Require Import ZArith Lia.
From stdpp Require Import base list list_numbers numbers decidable tactics sets.
From S2P Require Import Prelude.

Module AsidPool.

(** * Data *)

Definition WORDS : nat := 1024.
Record Space := mkSpace { root : Z; tag : Z; generation : Z }.
Definition EMPTY : Space := mkSpace 0 0 0.
#[global] Instance space_inhabited : Inhabited Space := populate EMPTY.

Record Asids := mkAsids {
  spaces : list Space; active : list (Z * Z); used : list Z;
  limit : Z; next : Z; gen : Z }.

Definition with_spaces (a : Asids) (l : list Space) : Asids :=
  mkAsids l (active a) (used a) (limit a) (next a) (gen a).
Definition with_active (a : Asids) (l : list (Z * Z)) : Asids :=
  mkAsids (spaces a) l (used a) (limit a) (next a) (gen a).
Definition with_used (a : Asids) (l : list Z) : Asids :=
  mkAsids (spaces a) (active a) l (limit a) (next a) (gen a).
Definition with_next (a : Asids) (n : Z) : Asids :=
  mkAsids (spaces a) (active a) (used a) (limit a) n (gen a).

(** * Operations *)

Definition new (S C : nat) (bits : Z) : option Asids :=
  if (0 <? bits) && (bits <=? 16) then
    let u := <[0%nat := 1]> (replicate WORDS 0) in
    let u := bit_set 64 u 255 in
    Some (mkAsids (replicate S EMPTY) (replicate C (0, 0)) u (Z.shiftl 1 bits - 1) 1 1)
  else None.

Definition configure (a : Asids) (bits : Z) : option Asids :=
  if forallb (fun s => root s =? 0) (spaces a) && forallb (fun '(r, _) => r =? 0) (active a)
  then new (length (spaces a)) (length (active a)) bits else None.

Definition has_root (r : Z) (s : Space) : bool := root s =? r.

Definition register (a : Asids) (r : Z) : option (bool * Asids) :=
  if negb (r =? 0) && negb (existsb (has_root r) (spaces a)) then
    match position (has_root 0) (spaces a) with
    | Some i =>
        let s := spaces a !!! Z.to_nat i in
        Some (true, with_spaces a (<[Z.to_nat i := mkSpace r (tag s) (generation s)]> (spaces a)))
    | None => Some (false, a)
    end
  else None.

Definition is_used (a : Asids) (t : Z) : bool := bit_get 64 (used a) t.
Definition mark (a : Asids) (t : Z) : Asids := with_used a (bit_set 64 (used a) t).

(** [for _ in 0..n]. *)
Fixpoint allocate_loop (n : nat) (a : Asids) : option Z * Asids :=
  match n with
  | O => (None, a)
  | S n' =>
      let t := next a in
      let a := with_next a (if t =? limit a then 1 else t + 1) in
      if negb (is_used a t) then (Some t, mark a t) else allocate_loop n' a
  end.
Definition allocate (a : Asids) : option Z * Asids := allocate_loop (Z.to_nat (limit a)) a.

(** One iteration of the loop over the CPUs in [rollover]. *)
Definition keep_active (a : Asids) (entry : Z * Z) : option Asids :=
  let '(r, t) := entry in
  if r =? 0 then Some a
  else if negb (t =? 0) && (t <=? limit a) then
    let a := mark a t in
    match position (has_root r) (spaces a) with
    | Some i => Some (with_spaces a (<[Z.to_nat i := mkSpace r t (gen a)]> (spaces a)))
    | None => None
    end
  else None.
Fixpoint keep_all (a : Asids) (entries : list (Z * Z)) : option Asids :=
  match entries with
  | [] => Some a
  | e :: rest => a' ← keep_active a e; keep_all a' rest
  end.

Definition rollover (a : Asids) : option Asids :=
  g ← checked_add 64 (gen a) 1;
  let a := mkAsids (spaces a) (active a) (replicate WORDS 0) (limit a) 1 g in
  let a := mark (mark a 0) 255 in
  keep_all a (active a).

(** [(tag, flush_all)] and the new pool. *)
Definition activate (a : Asids) (cpu : nat) (r : Z) : option (option Z * bool * Asids) :=
  if negb (cpu <? length (active a))%nat then None
  else if r =? 0 then Some (Some 0, false, with_active a (<[cpu := (0, 0)]> (active a)))
  else
    i ← position (has_root r) (spaces a);
    let i := Z.to_nat i in
    '(t, flush, a) ←
      (if negb (generation (spaces a !!! i) =? gen a) then
         '(t, flush, a) ←
           (match allocate a with
            | (Some t, a) => Some (Some t, false, a)
            | (None, a) =>
                a ← rollover a;
                if generation (spaces a !!! i) =? gen a
                then Some (Some (tag (spaces a !!! i)), true, a)
                else let '(t, a) := allocate a in Some (t, true, a)
            end);
         match t with
         | None => Some (None, flush, a)
         | Some t => Some (Some t, flush,
             with_spaces a (<[i := mkSpace (root (spaces a !!! i)) t (gen a)]> (spaces a)))
         end
       else Some (Some (tag (spaces a !!! i)), false, a));
    match t with
    | None => Some (None, flush, a)
    | Some _ =>
        let t := tag (spaces a !!! i) in
        Some (Some t, flush, with_active a (<[cpu := (r, t)]> (active a)))
    end.

Definition tag_of (a : Asids) (r : Z) : option Z :=
  option_map tag (List.find (fun s => has_root r s && (generation s =? gen a)) (spaces a)).

Definition release (a : Asids) (r : Z) : option Asids :=
  if existsb (fun '(r', _) => r' =? r) (active a) then None
  else i ← position (has_root r) (spaces a);
       Some (with_spaces a (<[Z.to_nat i := EMPTY]> (spaces a))).

(** * Invariant *)

Definition space (a : Asids) (i : nat) (s : Space) : Prop := spaces a !! i = Some s.
Definition current (a : Asids) (s : Space) : Prop := root s <> 0 /\ generation s = gen a.

Record pool_ok (a : Asids) : Prop := {
  ok_used_len : length (used a) = WORDS;
  ok_limit : 1 <= limit a < 2 ^ 16;
  ok_next : 1 <= next a <= limit a;
  ok_gen : 1 <= gen a;
  ok_reserved : is_used a 0 = true /\ is_used a 255 = true;
  ok_roots : forall i j s s', space a i s -> space a j s' -> root s = root s' -> root s <> 0 -> i = j;
  ok_empty : forall i s, space a i s -> root s = 0 -> s = EMPTY;
  ok_past : forall i s, space a i s -> 0 <= generation s <= gen a;
  ok_tag : forall i s, space a i s -> current a s ->
    1 <= tag s <= limit a /\ tag s <> 255 /\ is_used a (tag s) = true;
  ok_distinct : forall i j s s', space a i s -> space a j s' -> current a s -> current a s' ->
    tag s = tag s' -> i = j;
  ok_active : forall cpu r t, active a !! cpu = Some (r, t) -> r <> 0 ->
    exists i s, space a i s /\ root s = r /\ tag s = t /\ generation s = gen a }.

(** * Lemmas *)

Lemma position_root a r i :
  position (has_root r) (spaces a) = Some i ->
  exists s, space a (Z.to_nat i) s /\ root s = r.
Proof.
  intros H. pose proof (position_from_spec (has_root r) 0 (spaces a)) as Hs.
  unfold position in H. rewrite H in Hs. destruct Hs as (n & s & -> & Hn & Hp & _).
  exists s. unfold space, has_root in *. rewrite Z.add_0_l, Nat2Z.id. split; [done | lia].
Qed.

Lemma position_root_None a r :
  position (has_root r) (spaces a) = None -> forall i s, space a i s -> root s <> r.
Proof.
  intros H i s Hs. pose proof (position_from_spec (has_root r) 0 (spaces a)) as Hp.
  unfold position in H. rewrite H in Hp. specialize (Hp i s Hs). unfold has_root in Hp. lia.
Qed.

(** The bits of the tag bitmap. *)
Lemma is_used_mark a t t' :
  length (used a) = WORDS -> 0 <= t < 2 ^ 16 -> 0 <= t' ->
  is_used (mark a t) t' = (t' =? t) || is_used a t'.
Proof.
  intros Hl Ht Ht'. unfold is_used, mark. simpl. apply bit_get_set; [lia | | done].
  rewrite Hl. unfold WORDS. lia.
Qed.

(** The tag the scan tries at iteration [k]. *)
Definition nth_tag (a : Asids) (k : Z) : Z := (next a - 1 + k) mod limit a + 1.

Lemma nth_tag_next a k : 1 <= next a <= limit a -> 0 <= k ->
  nth_tag (with_next a (if next a =? limit a then 1 else next a + 1)) k = nth_tag a (k + 1).
Proof.
  intros Hn Hk. unfold nth_tag. simpl. f_equal.
  destruct (Z.eqb_spec (next a) (limit a)) as [He |].
  - replace (next a - 1 + (k + 1)) with (k + 1 * limit a) by lia.
    rewrite Z.mod_add by lia. f_equal; lia.
  - f_equal. lia.
Qed.

(** [allocate] marks the first unused tag it meets and changes nothing else. *)
Lemma allocate_loop_spec n a :
  1 <= next a <= limit a ->
  match allocate_loop n a with
  | (Some t, a') => exists k, 0 <= k < Z.of_nat n /\ t = nth_tag a k /\ is_used a t = false
      /\ exists nx, 1 <= nx <= limit a /\ a' = mark (with_next a nx) t
  | (None, a') => (forall k, 0 <= k < Z.of_nat n -> is_used a (nth_tag a k) = true)
      /\ exists nx, 1 <= nx <= limit a /\ a' = with_next a nx
  end.
Proof.
  revert a. induction n as [| n IH]; intros a Hn; simpl.
  - split; [lia |]. exists (next a). split; [done |]. by destruct a.
  - assert (nth_tag a 0 = next a) as H0.
    { unfold nth_tag. rewrite Z.add_0_r, Z.mod_small by lia. lia. }
    set (a1 := with_next a (if next a =? limit a then 1 else next a + 1)).
    assert (1 <= next a1 <= limit a1) as Hn1 by (simpl; case_if; lia).
    change (is_used a1 (next a)) with (is_used a (next a)).
    destruct (is_used a (next a)) eqn:Eu; simpl negb; cbn iota.
    + specialize (IH a1 Hn1). destruct (allocate_loop n a1) as [[t |] a'].
      * destruct IH as (k & Hk & -> & Hf & nx & Hnx & ->). exists (k + 1).
        split; [lia |]. unfold a1 in *. rewrite nth_tag_next in * by lia.
        split; [done |]. split; [exact Hf |]. exists nx. split; [exact Hnx | done].
      * destruct IH as (Hall & nx & Hnx & ->). split; [| exists nx; split; [exact Hnx | done]].
        intros k Hk. destruct (decide (k = 0)) as [-> |]; [by rewrite H0 |].
        specialize (Hall (k - 1) ltac:(lia)). unfold a1 in Hall. rewrite nth_tag_next in Hall by lia.
        by replace (k - 1 + 1) with k in Hall by lia.
    + exists 0. split; [lia |]. split; [done |]. split; [done |].
      exists (next a1). split; [exact Hn1 | done].
Qed.

Lemma tag_allocate_spec a :
  pool_ok a ->
  match allocate a with
  | (Some t, a') => 1 <= t <= limit a /\ is_used a t = false
      /\ exists nx, 1 <= nx <= limit a /\ a' = mark (with_next a nx) t
  | (None, a') => (forall t, 1 <= t <= limit a -> is_used a t = true)
      /\ exists nx, 1 <= nx <= limit a /\ a' = with_next a nx
  end.
Proof.
  intros OK. pose proof (ok_next _ OK) as Hn. pose proof (ok_limit _ OK) as Hl.
  pose proof (allocate_loop_spec (Z.to_nat (limit a)) a Hn) as H. unfold allocate.
  destruct (allocate_loop _ a) as [[t |] a'].
  - destruct H as (k & Hk & -> & Hf & Ha). split; [| done].
    unfold nth_tag. pose proof (Z.mod_pos_bound (next a - 1 + k) (limit a)). lia.
  - destruct H as [Hall Ha]. split; [| done]. intros t Ht.
    specialize (Hall ((t - next a) mod limit a)).
    pose proof (Z.mod_pos_bound (t - next a) (limit a)).
    replace t with (nth_tag a ((t - next a) mod limit a)); [apply Hall; lia |].
    unfold nth_tag. rewrite Zplus_mod_idemp_r.
    replace (next a - 1 + (t - next a)) with (t - 1) by lia. rewrite Z.mod_small by lia. lia.
Qed.

(** * Rollover *)

Section rollover.
  Context (a0 : Asids) (OK : pool_ok a0).

(** State of the loop after the CPUs in [seen]. *)
Record kept (seen : list (Z * Z)) (a : Asids) : Prop := {
  kp_len : length (used a) = WORDS;
  kp_gen : gen a = gen a0 + 1;
  kp_active : active a = active a0;
  kp_limit : limit a = limit a0;
  kp_next : next a = 1;
  kp_dom : length (spaces a) = length (spaces a0);
  kp_space : forall i s, space a i s ->
    space a0 i s \/ exists s0, space a0 i s0 /\ root s0 = root s /\ generation s = gen a
                      /\ root s <> 0 /\ (root s, tag s) ∈ seen;
  kp_seen : forall r t, (r, t) ∈ seen -> r <> 0 ->
    exists i, space a i (mkSpace r t (gen a));
  kp_used : forall t, 0 <= t < 2 ^ 16 -> is_used a t = true <->
    t = 0 \/ t = 255 \/ exists r, (r, t) ∈ seen /\ r <> 0 }.

Lemma active_entry r t :
  (r, t) ∈ active a0 -> r <> 0 ->
  exists i s, space a0 i s /\ root s = r /\ tag s = t /\ current a0 s
    /\ 1 <= t <= limit a0 /\ t <> 255.
Proof.
  intros Hin Hr. apply list_elem_of_lookup in Hin as [cpu Hcpu].
  destruct (ok_active _ OK cpu r t Hcpu Hr) as (i & s & Hs & <- & <- & Hg).
  assert (current a0 s) as Hc by done.
  exists i, s. destruct (ok_tag _ OK i s Hs Hc) as (? & ? & _). done.
Qed.

(** A CPU's tag names its root: the same tag on two CPUs is the same root. *)
Lemma active_tag_root r t r' :
  (r, t) ∈ active a0 -> (r', t) ∈ active a0 -> r <> 0 -> r' <> 0 -> r = r'.
Proof.
  intros H H' Hr Hr'. destruct (active_entry r t H Hr) as (i & s & Hs & <- & Ht & Hc & _).
  destruct (active_entry r' t H' Hr') as (j & s' & Hs' & <- & Ht' & Hc' & _).
  assert (i = j) as -> by (eapply ok_distinct; eauto; congruence). unfold space in *. congruence.
Qed.
Lemma active_root_tag r t t' :
  (r, t) ∈ active a0 -> (r, t') ∈ active a0 -> r <> 0 -> t = t'.
Proof.
  intros H H' Hr. destruct (active_entry r t H Hr) as (i & s & Hs & <- & <- & Hc & _).
  destruct (active_entry (root s) t' H' Hr) as (j & s' & Hs' & Hroot & <- & Hc' & _).
  assert (j = i) as -> by (eapply ok_roots; eauto; congruence). unfold space in *. congruence.
Qed.

Lemma keep_active_step seen a r t :
  kept seen a -> (r, t) ∈ active a0 -> (forall e, e ∈ seen -> e ∈ active a0) ->
  exists a', keep_active a (r, t) = Some a' /\ kept (seen ++ [(r, t)]) a'.
Proof.
  intros [L G A Li N D S Se U] Hin Hsub. unfold keep_active.
  destruct (Z.eqb_spec r 0) as [-> | Hr].
  { exists a. split; [done |]. constructor; try done.
    - intros i s Hs. destruct (S i s Hs) as [| (s0 & ? & ? & ? & ? & ?)]; [by left | right].
      exists s0. split_and!; try done. apply elem_of_app. by left.
    - intros r t' [H | [= -> ->]%list_elem_of_singleton]%elem_of_app Hr; [by apply Se | done].
    - intros t' Ht'. rewrite U by done. setoid_rewrite elem_of_app.
      setoid_rewrite list_elem_of_singleton. naive_solver. }
  destruct (active_entry r t Hin Hr) as (i0 & s0 & Hs0 & Hr0 & Ht0 & Hc0 & Htr & Ht255).
  rewrite Li. replace (negb (t =? 0) && (t <=? limit a0)) with true by lia.
  destruct (position (has_root r) (spaces (mark a t))) as [k |] eqn:Ep.
  2: { exfalso. pose proof (position_root_None _ _ Ep) as Hno.
       assert (is_Some (spaces a !! i0)) as [s Hs]
         by (apply lookup_lt_is_Some_2; rewrite D; by eapply lookup_lt_Some).
       apply (Hno i0 s Hs). destruct (S i0 s Hs) as [H | (s1 & H & ? & _)]; unfold space in *; congruence. }
  apply position_root in Ep as (s & Hs & Hroot).
  change (space a (Z.to_nat k) s) in Hs. set (j := Z.to_nat k) in *.
  assert (exists s1, space a0 j s1 /\ root s1 = r) as (s1 & Hs1 & Hr1).
  { destruct (S j s Hs) as [H | (s1 & H & ? & _)]; [by exists s | exists s1; split; [done | congruence]]. }
  assert (j < length (spaces a))%nat as Hj by (by eapply lookup_lt_Some).
  assert (forall i s', <[j := mkSpace r t (gen a)]> (spaces a) !! i = Some s' ->
            i = j /\ s' = mkSpace r t (gen a) \/ i <> j /\ space a i s') as Hlk.
  { intros i s' H. destruct (decide (i = j)) as [-> |].
    - rewrite list_lookup_insert_eq in H by done. left. by simplify_eq.
    - rewrite list_lookup_insert_ne in H by done. by right. }
  eexists. split; [reflexivity |]. pose proof (ok_limit _ OK) as Hlim.
  constructor; simpl; try done.
  - by rewrite length_bit_set.
  - by rewrite length_insert.
  - intros i s' H. destruct (Hlk i s' H) as [[-> ->] | [Hne H']].
    + right. exists s1. simpl. split_and!; try done. apply elem_of_app. right. by left.
    + destruct (S i s' H') as [| (s2 & ? & ? & ? & ? & ?)]; [by left | right].
      exists s2. split_and!; try done. apply elem_of_app. by left.
  - intros r' t' [H | [= -> ->]%list_elem_of_singleton]%elem_of_app Hr'.
    + destruct (Se r' t' H Hr') as [i Hi]. destruct (decide (i = j)) as [-> |].
      * exists j. unfold space in *. simpl. rewrite list_lookup_insert_eq by done.
        assert (r' = r) as -> by (rewrite Hi in Hs; simplify_eq; done).
        by rewrite (active_root_tag r t t' Hin (Hsub _ H) Hr).
      * exists i. unfold space in *. simpl. by rewrite list_lookup_insert_ne.
    + exists j. unfold space. simpl. by rewrite list_lookup_insert_eq.
  - intros t' Ht'. match goal with |- ?l <-> _ => change l with (is_used (mark a t) t' = true) end.
    rewrite is_used_mark by (done || lia). setoid_rewrite elem_of_app.
    setoid_rewrite list_elem_of_singleton. rewrite orb_true_iff, U, Z.eqb_eq by done. naive_solver.
Qed.

Lemma keep_all_spec todo seen a :
  kept seen a -> (forall e, e ∈ seen ++ todo -> e ∈ active a0) ->
  exists a', keep_all a todo = Some a' /\ kept (seen ++ todo) a'.
Proof.
  revert seen a. induction todo as [| [r t] todo IH]; intros seen a K Hsub; cbn [keep_all].
  - exists a. by rewrite app_nil_r.
  - destruct (keep_active_step seen a r t K) as (a1 & -> & K1).
    + apply Hsub, elem_of_app. right. by left.
    + intros e He. apply Hsub, elem_of_app. by left.
    + destruct (IH _ a1 K1) as (a' & Ha' & K'); [by rewrite <- app_assoc |].
      exists a'. split; [done |]. by rewrite <- app_assoc in K'.
Qed.

Lemma kept_start :
  kept [] (mark (mark (mkAsids (spaces a0) (active a0) (replicate WORDS 0) (limit a0) 1 (gen a0 + 1)) 0) 255).
Proof.
  constructor; try done.
  - intros i s Hs. by left.
  - intros r t H. by apply not_elem_of_nil in H.
  - intros t Ht. rewrite !is_used_mark by (try done; lia).
    rewrite !orb_true_iff, !Z.eqb_eq. unfold is_used. cbn [used].
    assert (bit_get 64 (replicate WORDS 0) t = false) as Hz
      by (apply bit_get_replicate_zero; unfold WORDS; lia).
    rewrite Hz. split; [naive_solver |]. intros [| [| (r & H & _)]]; [auto | auto |].
    by apply not_elem_of_nil in H.
Qed.

Lemma rollover_spec :
  gen a0 + 1 < 2 ^ 64 ->
  exists a, rollover a0 = Some a /\ pool_ok a /\ kept (active a0) a.
Proof.
  intros Hg. unfold rollover. rewrite (proj2 (checked_add_Some 64 (gen a0) 1 _)) by done. cbn [mbind option_bind].
  destruct (keep_all_spec (active a0) [] _ kept_start) as (a & Ha & K); [done |].
  exists a. split; [exact Ha |]. split; [| exact K]. simpl in K.
  destruct K as [L G A Li N D S Se U]. pose proof (ok_limit _ OK) as Hl. pose proof (ok_gen _ OK) as Hg0.
  assert (forall i s, space a i s -> current a s -> (root s, tag s) ∈ active a0) as Hcur.
  { intros i s Hs [Hr Hc]. destruct (S i s Hs) as [H | (s0 & _ & _ & _ & _ & H)]; [| done].
    pose proof (ok_past _ OK i s H). lia. }
  assert (forall i s, space a i s -> exists s0, space a0 i s0 /\ root s0 = root s
            /\ (s0 = s \/ root s <> 0)) as Hroot.
  { intros i s Hs. destruct (S i s Hs) as [H | (s0 & H & ? & ? & ? & ?)]; [by exists s; auto | eauto]. }
  constructor; try done.
  - lia.
  - lia.
  - lia.
  - split; apply U; auto; lia.
  - intros i j s s' Hs Hs' He Hne. destruct (Hroot i s Hs) as (s0 & H0 & E0 & _).
    destruct (Hroot j s' Hs') as (s1 & H1 & E1 & _). eapply (ok_roots _ OK); eauto; congruence.
  - intros i s Hs Hr0. destruct (Hroot i s Hs) as (s0 & H0 & E0 & [-> | ?]); [| done].
    by eapply (ok_empty _ OK).
  - intros i s Hs. destruct (S i s Hs) as [H | (s0 & _ & _ & -> & _)]; [| lia].
    pose proof (ok_past _ OK i s H). lia.
  - intros i s Hs Hc. pose proof (Hcur i s Hs Hc) as Hin. destruct Hc as [Hr _].
    destruct (active_entry _ _ Hin Hr) as (_ & _ & _ & _ & _ & _ & Ht & H255).
    rewrite Li. split; [done |]. split; [done |]. apply U; [lia |]. right. right. eauto.
  - intros i j s s' Hs Hs' Hc Hc' He.
    pose proof (Hcur i s Hs Hc) as Hin. pose proof (Hcur j s' Hs' Hc') as Hin'.
    destruct Hc as [Hr _], Hc' as [Hr' _]. rewrite He in Hin.
    pose proof (active_tag_root _ _ _ Hin Hin' Hr Hr') as Hreq.
    destruct (Hroot i s Hs) as (s0 & H0 & E0 & _). destruct (Hroot j s' Hs') as (s1 & H1 & E1 & _).
    eapply (ok_roots _ OK); eauto; congruence.
  - intros cpu r t Hcpu Hr. rewrite A in Hcpu. apply list_elem_of_lookup_2 in Hcpu.
    destruct (Se r t Hcpu Hr) as [i Hi]. exists i, (mkSpace r t (gen a)). done.
Qed.
End rollover.

(** * Preservation *)

Lemma pool_ok_mark a nx t :
  pool_ok a -> 1 <= nx <= limit a -> 0 <= t < 2 ^ 16 -> pool_ok (mark (with_next a nx) t).
Proof.
  intros OK Hn Ht. pose proof (ok_used_len _ OK) as Hl.
  assert (forall t', 0 <= t' -> is_used a t' = true -> is_used (mark (with_next a nx) t) t' = true) as Hu.
  { intros t' Ht' H. rewrite is_used_mark by done.
    change (is_used (with_next a nx) t') with (is_used a t'). rewrite H. apply orb_true_r. }
  destruct OK as [L Li N G [R0 R255] Ro E P T D A]. constructor; simpl; try done.
  - by rewrite length_bit_set.
  - split; apply Hu; done || lia.
  - intros i s Hs Hc. destruct (T i s Hs Hc) as (? & ? & ?). split; [done |]. split; [done |].
    apply Hu; [lia | done].
Qed.

Lemma space_insert a i s j s' :
  space (with_spaces a (<[i := s]> (spaces a))) j s' ->
  (j = i /\ s' = s) \/ (j <> i /\ space a j s').
Proof.
  unfold space. simpl. intros H. destruct (decide (j = i)) as [-> |].
  - left. apply list_lookup_insert_Some in H. naive_solver.
  - rewrite list_lookup_insert_ne in H by done. by right.
Qed.

(** Giving a registered space a tag no current space has. *)
Lemma pool_ok_assign a i s t :
  pool_ok a -> space a i s -> root s <> 0 -> ~ current a s -> 1 <= t <= limit a -> t <> 255 ->
  is_used a t = true -> (forall j s', space a j s' -> current a s' -> tag s' <> t) ->
  pool_ok (with_spaces a (<[i := mkSpace (root s) t (gen a)]> (spaces a))).
Proof.
  intros OK Hs Hr Hnc Ht H255 Hu Hfresh. pose proof OK as [L Li N G Re Ro E P T D A].
  assert (i < length (spaces a))%nat as Hi by (by eapply lookup_lt_Some).
  constructor; try done.
  - intros j k s1 s2 H1 H2 He Hne.
    destruct (space_insert _ _ _ _ _ H1) as [[-> ->] | [Hj H1']],
      (space_insert _ _ _ _ _ H2) as [[-> ->] | [Hk H2']]; simpl in *; [done | | |].
    + symmetry. eapply Ro; eauto; congruence.
    + eapply Ro; eauto; congruence.
    + by eapply Ro.
  - intros j s1 H1 H0. destruct (space_insert _ _ _ _ _ H1) as [[-> ->] | [Hj H1']]; [done | by eapply E].
  - intros j s1 H1. destruct (space_insert _ _ _ _ _ H1) as [[-> ->] | [Hj H1']];
      [simpl; lia | by eapply P].
  - intros j s1 H1 Hc. destruct (space_insert _ _ _ _ _ H1) as [[-> ->] | [Hj H1']];
      [done | by eapply T].
  - intros j k s1 s2 H1 H2 Hc1 Hc2 He.
    destruct (space_insert _ _ _ _ _ H1) as [[-> ->] | [Hj H1']],
      (space_insert _ _ _ _ _ H2) as [[-> ->] | [Hk H2']]; simpl in *; [done | | |].
    + exfalso. by eapply Hfresh.
    + exfalso. by eapply Hfresh.
    + by eapply D.
  - intros cpu r t' Hcpu Hr'. destruct (A cpu r t' Hcpu Hr') as (j & s1 & H1 & <- & <- & Hg).
    assert (j <> i) by (intros ->; unfold space in *; simplify_eq; by apply Hnc).
    exists j, s1. unfold space. simpl. by rewrite list_lookup_insert_ne.
Qed.

Lemma pool_ok_set_active a cpu r t :
  pool_ok a ->
  (r <> 0 -> exists i s, space a i s /\ root s = r /\ tag s = t /\ generation s = gen a) ->
  pool_ok (with_active a (<[cpu := (r, t)]> (active a))).
Proof.
  intros [L Li N G Re Ro E P T D A] H. constructor; try done.
  intros c r' t' Hc Hr'. simpl in Hc. apply list_lookup_insert_Some in Hc as [(-> & [= -> ->] & _) | [_ Hc]].
  - by apply H.
  - by eapply A.
Qed.

(** What happens to the spaces when [r] is activated: they keep their roots, and without a
    flush no tag becomes unused and only [r] can get a tag, one that was unused. *)
Definition carried (a : Asids) (r : Z) (flush : bool) (a' : Asids) : Prop :=
  limit a' = limit a /\ (forall j s', space a' j s' -> exists s, space a j s /\ root s = root s')
  /\ (flush = false -> (forall u, 0 <= u -> is_used a u = true -> is_used a' u = true)
      /\ forall j s', space a' j s' -> current a' s' ->
           space a j s' \/ (root s' = r /\ is_used a (tag s') = false /\ 0 <= tag s')).
Lemma carried_refl a r flush : carried a r flush a.
Proof. split; [done |]. split; [intros j s H; by exists s |]. intros _. split; [done |]. intros j s H _. by left. Qed.

(** The tag [activate] settles on, before it is stored in [active]. *)
Definition settled (a : Asids) (i : nat) (r : Z) (a' : Asids) (flush : bool) : Prop :=
  pool_ok a' /\ carried a r flush a' /\ active a' = active a /\ limit a' = limit a
  /\ gen a' = gen a + (if flush then 1 else 0)
  /\ exists s, space a' i s /\ root s = r /\ generation s = gen a'
     /\ (flush = false -> space a i s \/ is_used a (tag s) = false).

Lemma assign_fresh a i r t a' nx s :
  pool_ok a -> 1 <= nx <= limit a -> a' = mark (with_next a nx) t ->
  space a i s -> root s = r -> r <> 0 -> generation s <> gen a ->
  1 <= t <= limit a -> is_used a t = false ->
  let a2 := with_spaces a' (<[i := mkSpace (root (spaces a' !!! i)) t (gen a')]> (spaces a')) in
  pool_ok a2 /\ space a2 i (mkSpace r t (gen a)) /\ carried a r false a2.
Proof.
  intros OK Hn -> Hs Hr Hr0 Hg Ht Hf. pose proof (ok_limit _ OK) as Hl.
  pose proof (pool_ok_mark a nx t OK Hn ltac:(lia)) as OK1.
  assert (spaces a !!! i = s) as Hsi by (by apply list_lookup_total_correct).
  cbn zeta. simpl. rewrite Hsi. split; [| split].
  - apply (pool_ok_assign (mark (with_next a nx) t)); try done.
    + congruence.
    + by intros [_ Hc].
    + intros ->. destruct (ok_reserved _ OK). congruence.
    + rewrite is_used_mark by (try apply OK; lia). by rewrite Z.eqb_refl.
    + intros j s' Hs' Hc He. destruct (ok_tag _ OK j s' Hs' Hc) as (_ & _ & Hu). congruence.
  - unfold space. simpl. rewrite Hr. apply list_lookup_insert_eq. by eapply lookup_lt_Some.
  - split; [done |]. split.
    + intros j s' H. apply (space_insert (mark (with_next a nx) t)) in H as [[-> ->] | [_ H]]; [by exists s | by exists s'].
    + intros _. split.
      * intros u Hu H. etransitivity; [apply is_used_mark; [apply OK | lia | done] |].
        change (is_used (with_next a nx) u) with (is_used a u). rewrite H. apply orb_true_r.
      * intros j s' H _. apply (space_insert (mark (with_next a nx) t)) in H as [[-> ->] | [_ H]]; [right; split_and!; simpl; (done || lia) | by left].
Qed.

(** What [activate] promises. *)
Definition activated (a : Asids) (cpu : nat) (r : Z) (t : option Z) (flush : bool) (a' : Asids) : Prop :=
  pool_ok a' /\ carried a r flush a' /\ gen a' = gen a + (if flush then 1 else 0)
  /\ match t with
     | Some t =>
         active a' = <[cpu := (r, t)]> (active a)
         /\ (r = 0 -> t = 0) /\ (r <> 0 -> 1 <= t <= limit a /\ t <> 255)
         /\ (forall cpu' r' t', active a' !! cpu' = Some (r', t') -> r' <> 0 -> r <> 0 ->
               (t' = t <-> r' = r))
         /\ (flush = false -> r <> 0 ->
               (exists i s, space a i s /\ root s = r /\ current a s /\ tag s = t)
               \/ is_used a t = false)
     | None => flush = true /\ active a' = active a
         /\ forall u, 1 <= u <= limit a -> u <> 255 ->
              exists cpu' r', active a !! cpu' = Some (r', u) /\ r' <> 0
     end.

Lemma activated_settled a i cpu r a' flush :
  r <> 0 -> (cpu < length (active a))%nat -> settled a i r a' flush -> pool_ok a ->
  activated a cpu r (Some (tag (spaces a' !!! i))) flush
    (with_active a' (<[cpu := (r, tag (spaces a' !!! i))]> (active a'))).
Proof.
  intros Hr Hcpu (OK' & Hcar & Hact & Hlim & Hgen & s & Hs & Hroot & Hg & Hold) OK.
  assert (spaces a' !!! i = s) as -> by (by apply list_lookup_total_correct).
  assert (current a' s) as Hc by (split; congruence).
  pose proof (ok_tag _ OK' i s Hs Hc) as (Ht & H255 & _).
  unfold activated. split; [by apply pool_ok_set_active; [| intros _; exists i, s] |].
  split; [exact Hcar |]. split; [exact Hgen |]. split; [simpl; by rewrite Hact |]. split; [done |]. split; [by rewrite <- Hlim |]. split.
  - intros cpu' r' t' Hl Hr' _. simpl in Hl.
    apply list_lookup_insert_Some in Hl as [(-> & [= -> ->] & _) | [_ Hl]]; [done |].
    destruct (ok_active _ OK' cpu' r' t' Hl Hr') as (j & s' & Hs' & <- & <- & Hg').
    split.
    + intros He. assert (j = i) as -> by (by apply (ok_distinct a' OK' j i s' s)).
      unfold space in *. congruence.
    + intros He. assert (j = i) as -> by (apply (ok_roots a' OK' j i s' s); try done; congruence).
      unfold space in *. congruence.
  - intros -> _. destruct (Hold eq_refl) as [H | H]; [left | by right].
    exists i, s. split; [done |]. split; [done |]. split; [| done]. split; [congruence | lia].
Qed.

(** The spaces through a rollover. *)
Lemma carried_rollover a nx r a2 : kept (with_next a nx) (active a) a2 -> carried a r true a2.
Proof.
  intros K. split; [apply K |]. split; [| done]. intros j s' H. destruct (kp_space _ _ _ K j s' H) as [H0 | (s0 & H0 & He & _)]; [by exists s' | by exists s0].
Qed.
Lemma carried_trans a b c r f : carried a r true b -> carried b r f c -> carried a r true c.
Proof.
  intros (L1 & H1 & _) (L2 & H2 & _). split; [congruence |]. split; [| done]. intros j s' H. destruct (H2 j s' H) as (s1 & Hs1 & <-). by apply H1.
Qed.

Lemma activate_cases a cpu r :
  pool_ok a -> (cpu < length (active a))%nat -> (r <> 0 -> exists i s, space a i s /\ root s = r) ->
  match activate a cpu r with Some (t, flush, a') => activated a cpu r t flush a' | None => 2 ^ 64 <= gen a + 1 end.
Proof.
  intros OK Hcpu Hreg. unfold activate. rewrite (proj2 (Nat.ltb_lt _ _) Hcpu). cbn [negb].
  destruct (Z.eqb_spec r 0) as [-> | Hr].
  { split; [by apply pool_ok_set_active |]. split; [exact (carried_refl a 0 false) |].
    split; [simpl; lia |]. split; [done |]. split; [done |]. split; [done |].
    split; intros; done. }
  destruct (position (has_root r) (spaces a)) as [k |] eqn:Ep.
  2: { destruct (Hreg Hr) as (i & s & Hs & He). by apply (position_root_None _ _ Ep) in Hs. }
  cbn [mbind option_bind]. apply position_root in Ep as (s & Hs & Hroot). set (i := Z.to_nat k) in *.
  assert (spaces a !!! i = s) as Hsi by (by apply list_lookup_total_correct).
  rewrite Hsi. destruct (Z.eqb_spec (generation s) (gen a)) as [Hcur | Hstale]; cbn [negb].
  { cbn [mbind option_bind].
    apply activated_settled; [done | done | | done].
    split; [done |]. split; [apply carried_refl |]. split; [done |]. split; [done |]. split; [lia |]. exists s. auto. }
  pose proof (tag_allocate_spec a OK) as Hal. destruct (allocate a) as [[t |] a1].
  { destruct Hal as (Ht & Hf & nx & Hnx & Ha1). cbn [mbind option_bind].
    destruct (assign_fresh a i r t a1 nx s OK Hnx Ha1 Hs Hroot Hr Hstale Ht Hf) as (OK2 & Hs2 & Hcar).
    apply activated_settled; [done | done | | done].
    subst a1. split; [exact OK2 |]. split; [exact Hcar |]. split; [done |]. split; [done |]. split; [simpl; lia |].
    eexists. split; [exact Hs2 |]. split; [done |]. split; [done |]. by right. }
  destruct Hal as (Hall & nx & Hnx & ->). pose proof (ok_limit _ OK) as Hlim.
  assert (pool_ok (with_next a nx)) as OK1.
  { destruct OK as [L Li N G Re Ro E P T D A]. by constructor. }
  destruct (Z.lt_ge_cases (gen a + 1) (2 ^ 64)) as [Hg | Hg].
  2: { unfold rollover. replace (checked_add 64 (gen (with_next a nx)) 1) with (@None Z); [exact Hg |].
       unfold checked_add. cbn [gen with_next]. by rewrite (proj2 (Z.ltb_ge _ _) Hg). }
  destruct (rollover_spec (with_next a nx) OK1 Hg) as (a2 & -> & OK2 & K). cbn [mbind option_bind].
  pose proof (carried_rollover a nx r a2 K) as Hroll.
  assert (exists s2, space a2 i s2 /\ root s2 = r) as (s2 & Hs2 & Hroot2).
  { assert (is_Some (spaces a2 !! i)) as [s2 Hs2]
      by (apply lookup_lt_is_Some_2; rewrite (kp_dom _ _ _ K); by eapply lookup_lt_Some).
    exists s2. split; [done |]. destruct (kp_space _ _ _ K i s2 Hs2) as [H | (s0 & H & <- & _)];
      unfold space in *; simpl in H; congruence. }
  assert (spaces a2 !!! i = s2) as Hsi2 by (by apply list_lookup_total_correct). rewrite Hsi2.
  destruct (Z.eqb_spec (generation s2) (gen a2)) as [Hcur2 | Hstale2].
  { cbn [mbind option_bind]. rewrite Hsi2, Hroot2, <- Hcur2.
    replace (mkSpace r (tag s2) (generation s2)) with s2 by (destruct s2; simpl in *; congruence).
    rewrite (list_insert_id (spaces a2)) by done.
    replace (with_spaces a2 (spaces a2)) with a2 by (by destruct a2).
    apply activated_settled; [done | done | | done].
    split; [done |]. split; [exact Hroll |]. split; [apply K |]. split; [apply K |]. split; [apply K |].
    exists s2. split; [done |]. split; [done |]. split; [done |]. done. }
  pose proof (tag_allocate_spec a2 OK2) as Hal2. destruct (allocate a2) as [[t |] a3].
  { destruct Hal2 as (Ht & Hf & nx2 & Hnx2 & Ha3). cbn [mbind option_bind].
    destruct (assign_fresh a2 i r t a3 nx2 s2 OK2 Hnx2 Ha3 Hs2 Hroot2 Hr Hstale2 Ht Hf) as (OK3 & Hs3 & Hcar).
    apply activated_settled; [done | done | | done].
    subst a3. split; [exact OK3 |]. split; [by eapply carried_trans |]. split; [apply K |]. split; [apply K |]. split; [apply K |].
    eexists. split; [exact Hs3 |]. split; [done |]. split; [done |]. done. }
  destruct Hal2 as (Hall2 & nx2 & Hnx2 & ->). cbn [mbind option_bind].
  split; [destruct OK2 as [L Li N G Re Ro E P T D A]; by constructor |]. split; [exact Hroll |]. split; [apply K |].
  split; [done |]. split; [apply K |]. intros u Hu H255.
  assert (is_used a2 u = true) as Hused by (apply Hall2; rewrite (kp_limit _ _ _ K); done).
  apply (kp_used _ _ _ K) in Hused as [-> | [-> | (r' & Hin & Hr')]]; [lia | done | | simpl; lia].
  apply list_elem_of_lookup in Hin as [cpu' Hin]. eauto.
Qed.

Lemma activate_spec a cpu r :
  pool_ok a -> (cpu < length (active a))%nat -> gen a + 1 < 2 ^ 64 ->
  (r <> 0 -> exists i s, space a i s /\ root s = r) ->
  exists t flush a', activate a cpu r = Some (t, flush, a') /\ activated a cpu r t flush a'.
Proof.
  intros OK Hcpu Hg Hreg. pose proof (activate_cases a cpu r OK Hcpu Hreg) as H.
  destruct (activate a cpu r) as [[[t f] a'] |]; [eauto | lia].
Qed.
Lemma activate_registered a cpu r t flush a' :
  activate a cpu r = Some (t, flush, a') -> (cpu < length (active a))%nat /\ (r <> 0 -> exists i s, space a i s /\ root s = r).
Proof.
  unfold activate. destruct (cpu <? length (active a))%nat eqn:E; [| done]. cbn [negb]. intros H. split; [by apply Nat.ltb_lt |].
  intros Hr. replace (r =? 0) with false in H by lia.
  destruct (position (has_root r) (spaces a)) as [k |] eqn:Ep; [| done]. apply position_root in Ep as (s & Hs & He). eauto.
Qed.

Lemma register_spec a r :
  pool_ok a -> r <> 0 -> (forall i s, space a i s -> root s <> r) ->
  match register a r with
  | Some (true, a') => pool_ok a' /\ active a' = active a
      /\ exists i, space a i EMPTY /\ space a' i (mkSpace r 0 0)
  | Some (false, a') => a' = a /\ forall i s, space a i s -> root s <> 0
  | None => False
  end.
Proof.
  intros OK Hr Hno. unfold register.
  assert (existsb (has_root r) (spaces a) = false) as ->.
  { apply not_true_is_false. intros H. apply existsb_exists in H as (s & Hs & He).
    apply list_elem_of_In, list_elem_of_lookup in Hs as [i Hs]. apply (Hno i s Hs).
    unfold has_root in He. lia. }
  replace (r =? 0) with false by lia. cbn [negb andb].
  destruct (position (has_root 0) (spaces a)) as [k |] eqn:Ep.
  - apply position_root in Ep as (s & Hs & Hroot). set (i := Z.to_nat k) in *.
    pose proof (ok_empty _ OK i s Hs Hroot) as ->.
    assert (spaces a !!! i = EMPTY) as -> by (by apply list_lookup_total_correct).
    assert (i < length (spaces a))%nat as Hi by (by eapply lookup_lt_Some).
    pose proof OK as [L Li N G Re Ro E P T D A].
    split; [constructor; try done | split; [done |]].
    + intros j l s1 s2 H1 H2 He Hne.
      destruct (space_insert _ _ _ _ _ H1) as [[-> ->] | [Hj H1']],
        (space_insert _ _ _ _ _ H2) as [[-> ->] | [Hk H2']]; simpl in *; [done | | |].
      * by apply Hno in H2'.
      * by apply Hno in H1'.
      * by eapply Ro.
    + intros j s1 H1 H0. destruct (space_insert _ _ _ _ _ H1) as [[-> ->] | [Hj H1']]; [done | by eapply E].
    + intros j s1 H1. destruct (space_insert _ _ _ _ _ H1) as [[-> ->] | [Hj H1']];
        [simpl; lia | by eapply P].
    + intros j s1 H1 [Hr1 Hc]. destruct (space_insert _ _ _ _ _ H1) as [[-> ->] | [Hj H1']];
        [simpl in Hc; lia | by eapply T].
    + intros j l s1 s2 H1 H2 [Hr1 Hc1] [Hr2 Hc2] He.
      destruct (space_insert _ _ _ _ _ H1) as [[-> ->] | [Hj H1']]; [simpl in Hc1; lia |].
      destruct (space_insert _ _ _ _ _ H2) as [[-> ->] | [Hk H2']]; [simpl in Hc2; lia |].
      by eapply D.
    + intros cpu r' t' Hcpu Hr'. destruct (A cpu r' t' Hcpu Hr') as (j & s1 & H1 & <- & <- & Hg).
      exists j, s1. split; [| done]. unfold space. simpl. rewrite list_lookup_insert_ne; [done |].
      intros <-. unfold space in *. by simplify_eq.
    + exists i. split; [done |]. unfold space. simpl. by rewrite list_lookup_insert_eq.
  - split; [done |]. by apply position_root_None.
Qed.

Lemma release_spec a r i s :
  pool_ok a -> space a i s -> root s = r -> r <> 0 ->
  match release a r with
  | Some a' => pool_ok a' /\ active a' = active a /\ space a' i EMPTY
      /\ (forall j, j <> i -> spaces a' !! j = spaces a !! j)
      /\ (forall cpu t, active a !! cpu <> Some (r, t))
  | None => exists cpu t, active a !! cpu = Some (r, t)
  end.
Proof.
  intros OK Hs Hroot Hr. unfold release.
  destruct (existsb _ (active a)) eqn:E.
  - apply existsb_exists in E as ([r' t] & Hin & He). assert (r' = r) as -> by lia.
    apply list_elem_of_In, list_elem_of_lookup in Hin as [cpu Hc]. eauto.
  - assert (forall cpu r' t, active a !! cpu = Some (r', t) -> r' <> r) as Hno.
    { intros cpu r' t Hc ->. apply list_elem_of_lookup_2, list_elem_of_In in Hc.
      assert (existsb (fun '(r', _) => r' =? r) (active a) = true); [| congruence].
      apply existsb_exists. exists (r, t). split; [done |]. apply Z.eqb_refl. }
    destruct (position (has_root r) (spaces a)) as [k |] eqn:Ep;
      [| by apply (position_root_None _ _ Ep) in Hs].
    cbn [mbind option_bind]. apply position_root in Ep as (s' & Hs' & Hroot').
    assert (Z.to_nat k = i) as -> by (eapply (ok_roots _ OK); eauto; congruence).
    assert (i < length (spaces a))%nat as Hi by (by eapply lookup_lt_Some).
    pose proof OK as [L Li N G Re Ro Em P T D A].
    assert (forall j s1, space (with_spaces a (<[i := EMPTY]> (spaces a))) j s1 -> root s1 <> 0 ->
              space a j s1) as Hkeep.
    { intros j s1 H1 H0. destruct (space_insert _ _ _ _ _ H1) as [[-> ->] | [_ H]]; done. }
    split; [constructor; try done |].
    + intros j l s1 s2 H1 H2 He Hne. eapply Ro; [by apply Hkeep | | done | done].
      apply Hkeep; congruence.
    + intros j s1 H1 H0. destruct (space_insert _ _ _ _ _ H1) as [[-> ->] | [Hj H1']]; [done | by eapply Em].
    + intros j s1 H1. destruct (space_insert _ _ _ _ _ H1) as [[-> ->] | [Hj H1']];
        [simpl; lia | by eapply P].
    + intros j s1 H1 Hc. apply (T j s1); [by apply Hkeep, Hc | done].
    + intros j l s1 s2 H1 H2 Hc1 Hc2. apply D; [by apply Hkeep, Hc1 | by apply Hkeep, Hc2 | done | done].
    + intros cpu r' t' Hcpu Hr'. destruct (A cpu r' t' Hcpu Hr') as (j & s1 & H1 & <- & <- & Hg).
      exists j, s1. split; [| done]. unfold space. simpl. rewrite list_lookup_insert_ne; [done |].
      intros ->. apply (Hno cpu (root s1) (tag s1) Hcpu). unfold space in *. congruence.
    + split; [done |]. split; [unfold space; simpl; by rewrite list_lookup_insert_eq |].
      split; [intros j Hj; simpl; by rewrite list_lookup_insert_ne |].
      intros cpu t Hc. by apply Hno in Hc.
Qed.

Lemma pool_new_ok S C bits a : new S C bits = Some a -> pool_ok a.
Proof.
  unfold new. destruct (_ && _) eqn:E; [| done]. intros H.
  assert (0 < bits <= 16) as Hb by lia. clear E.
  assert (2 ^ 1 <= 2 ^ bits) by (apply Z.pow_le_mono_r; lia).
  assert (2 ^ bits <= 2 ^ 16) by (apply Z.pow_le_mono_r; lia).
  assert (forall i s, replicate S EMPTY !! i = Some s -> s = EMPTY) as Hall
    by (intros i s [? _]%lookup_replicate; done).
  apply (f_equal (fun o => match o with Some x => x | None => a end)) in H. cbn iota in H. subst a.
  rewrite Z.shiftl_1_l. constructor; unfold space, current; cbn [spaces active used limit next gen].
  - rewrite length_bit_set, length_insert. apply length_replicate.
  - lia.
  - lia.
  - lia.
  - split; vm_compute; reflexivity.
  - intros i j s s' ->%Hall. done.
  - intros i s ->%Hall. done.
  - intros i s ->%Hall. simpl. lia.
  - intros i s ->%Hall [? _]. done.
  - intros i j s s' ->%Hall _ [? _]. done.
  - intros cpu r t [[= -> ->] _]%lookup_replicate. done.
Qed.

(** * Runs *)

Inductive step : Asids -> Asids -> Prop :=
| step_register a r b a' :
    register a r = Some (b, a') -> step a a'
| step_activate a cpu r t flush a' :
    activate a cpu r = Some (t, flush, a') -> step a a'
| step_release a r a' : r <> 0 -> release a r = Some a' -> step a a'.

Inductive reachable (S C : nat) (bits : Z) : Asids -> Prop :=
| reachable_new a : new S C bits = Some a -> reachable S C bits a
| reachable_step a a' : reachable S C bits a -> step a a' -> reachable S C bits a'.

Lemma register_root a r b a' :
  register a r = Some (b, a') -> r <> 0 /\ forall i s, space a i s -> root s <> r.
Proof.
  unfold register. destruct (_ && _) eqn:E; [| done]. intros _.
  apply andb_true_iff in E as [E1 E2]. split; [lia |]. intros i s Hs He.
  apply negb_true_iff in E2. apply list_elem_of_lookup_2, list_elem_of_In in Hs.
  assert (existsb (has_root r) (spaces a) = true); [| congruence].
  apply existsb_exists. exists s. split; [done |]. unfold has_root. lia.
Qed.

Lemma pool_ok_step a a' : pool_ok a -> step a a' -> pool_ok a'.
Proof.
  intros OK H. destruct H as [a r b a' H | a cpu r t flush a' H | a r a' Hr H].
  - destruct (register_root _ _ _ _ H) as [Hr Hno].
    pose proof (register_spec a r OK Hr Hno) as Hs. rewrite H in Hs.
    destruct b; [apply Hs | by destruct Hs as [-> _]].
  - destruct (activate_registered _ _ _ _ _ _ H) as [Hc Hreg].
    pose proof (activate_cases a cpu r OK Hc Hreg) as Ha. rewrite H in Ha. apply Ha.
  - assert (exists i s, space a i s /\ root s = r) as (i & s & Hs & He).
    { unfold release in H. destruct (existsb _ _); [done |].
      destruct (position (has_root r) (spaces a)) as [k |] eqn:Ep; [| done].
      apply position_root in Ep as (s & Hs & He). eauto. }
    pose proof (release_spec a r i s OK Hs He Hr) as Hsp. rewrite H in Hsp. apply Hsp.
Qed.

Lemma pool_reachable_ok S C bits a : reachable S C bits a -> pool_ok a.
Proof. induction 1 as [a H | a a' _ IH H]; [by eapply pool_new_ok | by eapply pool_ok_step]. Qed.

(** * Properties *)

(** In every sound pool, CPUs running different address spaces use different tags and CPUs
    running the same one use the same tag; a loaded tag is never 0 (the empty kernel table)
    or 255 (the boot identity map). *)
Lemma active_tags_unique a cpu cpu' r t r' t' :
  pool_ok a -> active a !! cpu = Some (r, t) -> active a !! cpu' = Some (r', t') -> r <> 0 -> r' <> 0 ->
  1 <= t <= limit a /\ t <> 255 /\ (t = t' <-> r = r').
Proof.
  intros OK H H' Hr Hr'. apply list_elem_of_lookup_2 in H, H'.
  destruct (active_entry a OK r t H Hr) as (_ & _ & _ & _ & _ & _ & Ht & H255).
  split; [done |]. split; [done |]. split.
  - intros <-. by eapply active_tag_root.
  - intros <-. by eapply active_root_tag.
Qed.

(** Activating a registered space always succeeds, giving it a tag distinct
    from every other running space's, unless every usable tag is running on some
    CPU.  Without a flush the tag is the one the space already holds in this
    generation, or one no space has held since the last flush. *)
Theorem asid_activate_correct a cpu r :
  pool_ok a -> (cpu < length (active a))%nat -> gen a + 1 < 2 ^ 64 ->
  (r <> 0 -> exists i s, space a i s /\ root s = r) ->
  exists t flush a', activate a cpu r = Some (t, flush, a') /\ activated a cpu r t flush a'.
Proof. apply activate_spec. Qed.

(** * Witnesses: two CPUs, one-bit tags, so that the second space exhausts them *)

Definition demo : option Asids :=
  a ← new 2 2 1;
  '(_, a) ← register a 4096; '(_, a) ← register a 8192;
  '(_, _, a) ← activate a 0 4096; Some a.

Definition demo_view (o : option Asids) : option (list Space * list (Z * Z) * Z) :=
  option_map (fun a => (spaces a, active a, gen a)) o.
Lemma demo_run : demo_view demo
  = Some ([mkSpace 4096 1 1; mkSpace 8192 0 0], [(4096, 1); (0, 0)], 1).
Proof. vm_compute. reflexivity. Qed.

Lemma demo_reachable : exists a, demo = Some a /\ reachable 2 2 1 a
  /\ spaces a = [mkSpace 4096 1 1; mkSpace 8192 0 0]
  /\ active a = [(4096, 1); (0, 0)] /\ gen a = 1.
Proof.
  pose proof demo_run as H. unfold demo in *.
  destruct (new 2 2 1) as [a0 |] eqn:E0; cbn [mbind option_bind] in *; [| discriminate H].
  destruct (register a0 4096) as [[b1 a1] |] eqn:E1; cbn [mbind option_bind] in *; [| discriminate H].
  destruct (register a1 8192) as [[b2 a2] |] eqn:E2; cbn [mbind option_bind] in *; [| discriminate H].
  destruct (activate a2 0 4096) as [[[t f] a3] |] eqn:E3; cbn [mbind option_bind] in *; [| discriminate H].
  exists a3. split; [reflexivity |]. simpl in H. injection H as Hs Ha Hg.
  split; [| auto].
  eapply reachable_step; [eapply reachable_step; [eapply reachable_step;
    [by apply reachable_new | by eapply step_register] | by eapply step_register] |].
  by eapply step_activate.
Qed.

Lemma asid_activate_correct_witness :
  exists a t flush a', activate a 1 8192 = Some (t, flush, a') /\ activated a 1 8192 t flush a'.
Proof.
  destruct demo_reachable as (a & _ & R & Hs & Ha & Hg). exists a.
  apply (asid_activate_correct a 1 8192); [by eapply pool_reachable_ok | rewrite Ha; simpl; lia | lia |].
  intros _. exists 1%nat, (mkSpace 8192 0 0). unfold space. rewrite Hs. done.
Defined.

End AsidPool.
