(* ===== verification/Tlb.v ===== *)
(** The arm64 TLB under the address-space tags (src/arch/arm64/mmu.rs): creating, loading and
    freeing address spaces over the tag pool of [AsidPool], beside the translations that the
    CPUs have cached.  A failed assertion or [expect] is [None].

    The cached translations are not state of the program: a CPU may add one for the space it
    runs at any time, and may drop any.  Each carries the address space whose tables it came
    from, by a number that is new for every space created, so that a space that reuses the
    root frame of a freed one is still told apart from it. *)

From Stdlib Require Import ZArith Lia.
From stdpp Require Import base list list_numbers numbers decidable tactics gmap.
From S2P Require Import Prelude Records AsidPool.

Module Tlb.
Import AsidPool.

(** * Data *)

Record Entry := mkEntry { en_cpu : nat; en_tag : Z; en_owner : Z }.
(** [ttbr0] is the root and tag loaded on each CPU (ACTIVE_ROOT and SAVED_TTBR0; under
    software PAN the latter is loaded only around accesses to user memory). *)
Record Machine := mkMachine { pool : Asids; ttbr0 : list (Z * Z); tlb : list Entry; owners : gmap Z Z; births : Z }.
#[export] Instance Machine_eta : Eta Machine := fun m => mkMachine (pool m) (ttbr0 m) (tlb m) (owners m) (births m).

(** * Operations *)

(** [r] is the nonzero frame that the allocator gave for the table. *)
Definition new_address_space (r : Z) (m : Machine) : option (bool * Machine) :=
  '(registered, p) ← register (pool m) r;
  if negb registered then Some (false, m <| pool := p |>)
  else Some (true, m <| pool := p |> <| owners := <[r := births m]> (owners m) |> <| births := births m + 1 |>).
(** [tlbi vmalle1is] and [tlbi aside1is] reach every CPU. *)
Definition flush_all (m : Machine) : Machine := m <| tlb := [] |>.
Definition invalidate_tag (t : Z) (m : Machine) : Machine := m <| tlb := filter (fun e => en_tag e <> t) (tlb m) |>.
Definition invalidate_space (r : Z) (m : Machine) : Machine :=
  match tag_of (pool m) r with Some t => invalidate_tag t m | None => m end.
Definition switch_address_space (cpu : nat) (r : Z) (m : Machine) : option Machine :=
  '(loaded, _) ← ttbr0 m !! cpu;
  if loaded =? r then Some m
  else
    '(t, flush, p) ← activate (pool m) cpu r;
    let m := m <| pool := p |> in
    let m := if flush : bool then flush_all m else m in
    t ← t;
    Some (m <| ttbr0 := <[cpu := (r, t)]> (ttbr0 m) |>).
(** The frames of the space are given back after this. *)
Definition free_address_space (r : Z) (m : Machine) : option Machine :=
  let m := invalidate_space r m in
  p ← release (pool m) r;
  Some (m <| pool := p |>).
Definition finalize_asids (bits : Z) (m : Machine) : option Machine :=
  p ← configure (pool m) bits;
  Some (flush_all (m <| pool := p |>)).

(** * Runs *)

Inductive step (m : Machine) : Machine -> Prop :=
| st_new r b m' : new_address_space r m = Some (b, m') -> step m m'
| st_switch cpu r m' : switch_address_space cpu r m = Some m' -> step m m'
| st_free r m' : r <> 0 -> free_address_space r m = Some m' -> step m m'
| st_invalidate r : step m (invalidate_space r m)
| st_finalize bits m' : finalize_asids bits m = Some m' -> step m m'
| st_fill cpu r t o : ttbr0 m !! cpu = Some (r, t) -> r <> 0 -> owners m !! r = Some o -> step m (m <| tlb := mkEntry cpu t o :: tlb m |>)
| st_evict l : (forall e, e ∈ l -> e ∈ tlb m) -> step m (m <| tlb := l |>).
Inductive reachable (S C : nat) (bits : Z) : Machine -> Prop :=
| reachable_start a : new S C bits = Some a -> reachable S C bits (mkMachine a (replicate C (0, 0)) [] ∅ 0)
| reachable_step m m' : reachable S C bits m -> step m m' -> reachable S C bits m'.

(** * Invariant *)

Definition registered (a : Asids) (r : Z) : Prop := exists i s, space a i s /\ root s = r.
(** A cached translation: its tag is in use, and the space that holds the tag now, if any, is
    the one the translation came from. *)
Record entry_ok (a : Asids) (own : gmap Z Z) (n : Z) (e : Entry) : Prop := {
  eo_tag : 1 <= en_tag e <= limit a /\ en_tag e <> 255;
  eo_used : is_used a (en_tag e) = true;
  eo_past : en_owner e < n;
  eo_owner : forall i s, space a i s -> current a s -> tag s = en_tag e -> own !! root s = Some (en_owner e) }.
Record tlb_ok (m : Machine) : Prop := {
  tk_pool : pool_ok (pool m);
  tk_ttbr0 : ttbr0 m = active (pool m);
  tk_empty : forall cpu t, ttbr0 m !! cpu = Some (0, t) -> t = 0;
  tk_owned : forall r, registered (pool m) r -> r <> 0 -> exists o, owners m !! r = Some o /\ o < births m;
  tk_apart : forall r r' o, registered (pool m) r -> registered (pool m) r' -> r <> 0 -> r' <> 0 -> owners m !! r = Some o -> owners m !! r' = Some o -> r = r';
  tk_entries : Forall (entry_ok (pool m) (owners m) (births m)) (tlb m) }.

(** * Steps of the pool, pointwise *)

Lemma register_inv a r a' : pool_ok a -> register a r = Some (true, a') ->
  exists i, space a i EMPTY /\ a' = with_spaces a (<[i := mkSpace r 0 0]> (spaces a)).
Proof.
  intros OK. unfold register. destruct (_ && _); [| done]. destruct (position (has_root 0) (spaces a)) as [k |] eqn:E; [| done]. intros H.
  apply position_root in E as (s & Hs & Hr). pose proof (ok_empty _ OK _ _ Hs Hr) as ->. exists (Z.to_nat k). split; [done |].
  rewrite (list_lookup_total_correct _ _ _ Hs) in H. by injection H.
Qed.
Lemma release_inv a r a' : release a r = Some a' -> exists i s, space a i s /\ root s = r /\ a' = with_spaces a (<[i := EMPTY]> (spaces a)).
Proof.
  unfold release. destruct (existsb _ _); [done |]. destruct (position (has_root r) (spaces a)) as [k |] eqn:E; [| done]. cbn [mbind option_bind]. intros [= <-].
  apply position_root in E as (s & Hs & Hr). eauto.
Qed.

(** * Preservation *)

Lemma new_space_ok r b m m' : tlb_ok m -> new_address_space r m = Some (b, m') -> tlb_ok m'
  /\ (b = true -> owners m' !! r = Some (births m) /\ tlb m' = tlb m).
Proof.
  intros [P T E O A En] H. unfold new_address_space in H. destruct (register (pool m) r) as [[b' p] |] eqn:Er; cbn [mbind option_bind] in H; [| done].
  destruct (register_root _ _ _ _ Er) as [Hr Hno]. pose proof (register_spec _ r P Hr Hno) as Hs. rewrite Er in Hs. destruct b'; cbn [negb] in H; injection H as <- <-.
  - destruct Hs as (P' & Ha & _). destruct (register_inv _ _ _ P Er) as (i & Hi & ->). split; [| intros _; split; [apply lookup_insert_eq | done]].
    assert (forall r', registered (with_spaces (pool m) (<[i:=mkSpace r 0 0]> (spaces (pool m)))) r' -> r' = r \/ r' <> r /\ registered (pool m) r') as Hreg.
    { intros r' (j & s & Hj & <-). apply space_insert in Hj as [[-> ->] | [_ Hj]]; [by left | right]. split; [by apply (Hno j) | by exists j, s]. }
    constructor; cbn.
    + exact P'.
    + exact T.
    + exact E.
    + intros r' [-> | [Hne Hr']]%Hreg Hz; [exists (births m); rewrite lookup_insert_eq; split; [done | cbn; lia] |]. destruct (O r' Hr' Hz) as (o & Ho & Hlt). exists o. rewrite lookup_insert_ne by done. split; [done | cbn; lia].
    + intros r1 r2 o H1%Hreg H2%Hreg Hz1 Hz2. destruct H1 as [-> | [Hn1 H1]], H2 as [-> | [Hn2 H2]]; rewrite ?lookup_insert_eq, ?lookup_insert_ne by done; [done | | | by apply A].
      * intros [= <-] Ho. destruct (O r2 H2 Hz2) as (o' & Ho' & Hlt). rewrite Ho in Ho'. injection Ho' as <-. lia.
      * intros Ho [= <-]. destruct (O r1 H1 Hz1) as (o' & Ho' & Hlt). rewrite Ho in Ho'. injection Ho' as <-. lia.
    + eapply Forall_impl; [exact En |]. intros e [E1 E2 E3 E4]. constructor; [done | done | cbn; lia |]. intros j s Hj [Hz Hg] Ht.
      apply space_insert in Hj as [[-> ->] | [_ Hj]]; [cbn in Hg; pose proof (ok_gen _ P); lia |]. rewrite lookup_insert_ne; [by apply (E4 j) |]. intros Heq. by apply (Hno j s Hj).
  - destruct Hs as [-> _]. split; [| done]. by constructor.
Qed.
Lemma entries_filter m f : tlb_ok m -> (forall e, e ∈ f -> e ∈ tlb m) -> tlb_ok (m <| tlb := f |>).
Proof. intros [P T E O A En] H. constructor; try done. cbn. apply Forall_forall. intros e He. rewrite Forall_forall in En. by apply En, H. Qed.
Lemma invalidate_space_ok r m : tlb_ok m -> tlb_ok (invalidate_space r m).
Proof. intros H. unfold invalidate_space. destruct (tag_of _ _); [| done]. apply entries_filter; [done |]. intros e He. by apply list_elem_of_filter in He as [_ He]. Qed.
Lemma free_space_ok r m m' : tlb_ok m -> r <> 0 -> free_address_space r m = Some m' -> tlb_ok m'.
Proof.
  intros H%(invalidate_space_ok r) Hr. unfold free_address_space. cbv zeta. generalize dependent (invalidate_space r m). clear m. intros m [P T E O A En] H.
  destruct (release (pool m) r) as [p |] eqn:Er; cbn [mbind option_bind] in H; [| done]. injection H as <-. destruct (release_inv _ _ _ Er) as (i & s & Hs & Hroot & ->).
  pose proof (release_spec _ r i s P Hs Hroot Hr) as Hsp. rewrite Er in Hsp. destruct Hsp as (P' & _).
  assert (forall r', registered (with_spaces (pool m) (<[i:=EMPTY]> (spaces (pool m)))) r' -> r' <> 0 -> registered (pool m) r') as Hreg.
  { intros r' (j & s' & Hj & <-) Hz. apply space_insert in Hj as [[-> ->] | [_ Hj]]; [done | by exists j, s']. }
  constructor; cbn; [done | done | done | intros; apply O; auto | intros; eapply A; eauto |].
  eapply Forall_impl; [exact En |]. intros e [E1 E2 E3 E4]. constructor; try done. intros j s' Hj Hc. apply space_insert in Hj as [[-> ->] | [_ Hj]]; [by destruct Hc | by apply (E4 j)].
Qed.
(** The pool part of loading a space. *)
Lemma activated_ok m cpu r t flush p : tlb_ok m -> activated (pool m) cpu r t flush p ->
  tlb_ok (let m1 := m <| pool := p |> in let m1 := if flush then flush_all m1 else m1 in m1 <| ttbr0 := active p |>).
Proof.
  intros [P T E O A En] (P' & (Hlim & Hroots & Hc) & Hg & Ht).
  assert (forall r', registered p r' -> registered (pool m) r') as Hreg by (intros r' (j & s & Hj & <-); destruct (Hroots j s Hj) as (s0 & H0 & He); by exists j, s0).
  assert (forall c t', active p !! c = Some (0, t') -> t' = 0) as He.
  { destruct t as [t |]; [| destruct Ht as (_ & -> & _); rewrite <- T; exact E]. destruct Ht as (-> & H0 & _). intros c t' Hl. apply list_lookup_insert_Some in Hl as [(-> & [= -> ->] & _) | [_ Hl]]; [by apply H0 | apply (E c t'); by rewrite T]. }
  constructor.
  1-5: destruct flush; cbn; first [done | intros; apply O; auto | intros; eapply A; eauto].
  destruct flush; cbn; [apply Forall_nil_2 |]. destruct (Hc eq_refl) as [Hu Hcur]. eapply Forall_impl; [exact En |]. intros e [E1 E2 E3 E4]. constructor; [by rewrite Hlim | apply Hu; [lia | done] | done |].
  intros i s Hs Hcu Hts. destruct (Hcur i s Hs Hcu) as [H0 | (_ & Hf & _)]; [| congruence]. apply (E4 i); [done | | done]. destruct Hcu. split; [done |]. lia.
Qed.
Lemma switch_space_ok cpu r m m' : tlb_ok m -> switch_address_space cpu r m = Some m' -> tlb_ok m' /\ exists t, ttbr0 m' !! cpu = Some (r, t).
Proof.
  intros H Hs. unfold switch_address_space in Hs. destruct (ttbr0 m !! cpu) as [[l t0] |] eqn:El; cbn [mbind option_bind] in Hs; [| done].
  destruct (Z.eqb_spec l r) as [-> | Hne]; [injection Hs as <-; eauto |]. destruct (activate (pool m) cpu r) as [[[t flush] p] |] eqn:Ea; cbn [mbind option_bind] in Hs; [| done].
  destruct (activate_registered _ _ _ _ _ _ Ea) as [Hc Hreg]. pose proof (activate_cases (pool m) cpu r (tk_pool _ H) Hc Hreg) as Hact. rewrite Ea in Hact.
  destruct t as [t |]; cbn [mbind option_bind] in Hs; [| done]. injection Hs as <-. pose proof (activated_ok m cpu r _ flush p H Hact) as Hok. destruct Hact as (_ & _ & _ & Ha & _). cbv zeta in Hok.
  rewrite Ha, <- (tk_ttbr0 _ H) in Hok. assert (ttbr0 (if flush then flush_all (m <| pool := p |>) else m <| pool := p |>) = ttbr0 m) as -> by (by destruct flush). split; [exact Hok |].
  exists t. destruct flush; cbn; apply list_lookup_insert_eq; by eapply lookup_lt_Some.
Qed.
Lemma finalize_ok bits m m' : tlb_ok m -> finalize_asids bits m = Some m' -> tlb_ok m'.
Proof.
  intros [P T E O A En] H. unfold finalize_asids, configure in H. destruct (_ && _) eqn:Ec; cbn [mbind option_bind] in H; [| done]. apply andb_true_iff in Ec as [_ Ea].
  destruct (new _ _ bits) as [p |] eqn:En'; cbn [mbind option_bind] in H; [| done]. injection H as <-. pose proof (pool_new_ok _ _ _ _ En') as P'.
  assert (spaces p = replicate (length (spaces (pool m))) EMPTY /\ active p = replicate (length (active (pool m))) (0, 0)) as [Es Ac] by (unfold new in En'; destruct (_ && _); [by injection En' as <- | done]).
  assert (forall r, registered p r -> r = 0) as Hz by (intros r (i & s & Hs & <-); unfold space in Hs; rewrite Es in Hs; by apply lookup_replicate in Hs as [-> _]).
  constructor; cbn; [done | | done | by intros r ->%Hz | by intros r r' o ->%Hz | apply Forall_nil_2].
  rewrite Ac, T. symmetry. apply replicate_as_elem_of. split; [done |]. intros [r t] Hin. rewrite forallb_forall in Ea. pose proof (Ea _ (proj1 (list_elem_of_In _ _) Hin)) as Hr. cbn in Hr.
  assert (r = 0) as -> by lia. apply list_elem_of_lookup in Hin as [c Hc]. rewrite <- T in Hc. by rewrite (E c t Hc).
Qed.
Lemma fill_ok m cpu r t o : tlb_ok m -> ttbr0 m !! cpu = Some (r, t) -> r <> 0 -> owners m !! r = Some o -> tlb_ok (m <| tlb := mkEntry cpu t o :: tlb m |>).
Proof.
  intros H Hl Hr Ho. pose proof H as [P T E O A En]. constructor; try done. cbn. constructor; [| done]. rewrite T in Hl. destruct (ok_active _ P cpu r t Hl Hr) as (i & s & Hs & <- & <- & Hg).
  assert (current (pool m) s) as Hc by done. destruct (ok_tag _ P i s Hs Hc) as (H1 & H2 & H3). destruct (O (root s) (ex_intro _ i (ex_intro _ s (conj Hs eq_refl))) Hr) as (o' & Ho' & Hlt).
  constructor; cbn; [done | done | congruence |]. intros j s' Hs' Hc' Ht. assert (j = i) as -> by (by eapply ok_distinct). unfold space in *. congruence.
Qed.
Lemma tlb_reachable_ok S C bits m : reachable S C bits m -> tlb_ok m.
Proof.
  induction 1 as [a Hn | m m' _ IH Hs].
  - pose proof (pool_new_ok _ _ _ _ Hn) as P. assert (spaces a = replicate S EMPTY /\ active a = replicate C (0, 0)) as [Es Ac] by (unfold new in Hn; destruct (_ && _); [by injection Hn as <- | done]).
    assert (forall r, registered a r -> r = 0) as Hz by (intros r (i & s & H & <-); unfold space in H; rewrite Es in H; by apply lookup_replicate in H as [-> _]).
    constructor; cbn; [done | done | intros c t Hl; by apply lookup_replicate in Hl as [[= ->] _] | by intros r ->%Hz | by intros r r' o ->%Hz | apply Forall_nil_2].
  - destruct Hs as [r b m' H | cpu r m' H | r m' Hr H | r | bits' m' H | cpu r t o Hl Hr Ho | l H].
    + by apply (new_space_ok _ _ _ _ IH H).
    + by apply (switch_space_ok _ _ _ _ IH H).
    + by eapply free_space_ok.
    + by apply invalidate_space_ok.
    + by eapply finalize_ok.
    + by eapply fill_ok.
    + by apply entries_filter.
Qed.

(** * Enough tags *)

(** With more usable tags than CPUs, one is always left. *)
Lemma tags_left a : ~ (Z.of_nat (length (active a)) + 1 < limit a /\ forall u, 1 <= u <= limit a -> u <> 255 -> exists cpu r, active a !! cpu = Some (r, u) /\ r <> 0).
Proof.
  intros [Hl H]. assert (incl (seqZ 1 (limit a)) (255 :: (active a).*2)) as Hi.
  { intros u Hu%list_elem_of_In%elem_of_seqZ. destruct (decide (u = 255)) as [-> | Hne]; [by left | right]. destruct (H u ltac:(lia) Hne) as (c & r & Hc & _).
    apply list_elem_of_In, list_elem_of_fmap. exists (r, u). split; [done | by eapply list_elem_of_lookup_2]. }
  apply (List.NoDup_incl_length (proj1 (NoDup_ListNoDup _) (NoDup_seqZ _ _))) in Hi. rewrite length_seqZ in Hi. cbn in Hi. rewrite length_fmap in Hi. lia.
Qed.
Lemma switch_succeeds cpu r m : tlb_ok m -> (cpu < length (ttbr0 m))%nat -> r = 0 \/ registered (pool m) r -> gen (pool m) + 1 < 2 ^ 64 -> Z.of_nat (length (ttbr0 m)) + 1 < limit (pool m) ->
  exists m', switch_address_space cpu r m = Some m'.
Proof.
  intros H Hc Hr Hg Hl. unfold switch_address_space. destruct (lookup_lt_is_Some_2 (ttbr0 m) cpu Hc) as [[l t0] ->]. cbn [mbind option_bind]. destruct (l =? r); [by eexists |].
  rewrite (tk_ttbr0 _ H) in Hc, Hl. destruct (activate_spec (pool m) cpu r (tk_pool _ H) Hc Hg ltac:(by destruct Hr)) as (t & flush & p & -> & Ha). cbn [mbind option_bind].
  destruct t as [t |]; [by eexists |]. destruct Ha as (_ & _ & _ & _ & _ & Hall). destruct (tags_left (pool m)). by split.
Qed.

(** * The theorem *)

(** C13. However address spaces are created, loaded, invalidated and freed on any number of
    CPUs, with any translations cached and dropped in between and any number of generations
    of tags: no CPU can use a translation of another address space.  Every translation that
    any CPU has cached under the tag of the space it runs was made from the tables of that
    very space, and not of one that had the tag, or the root frame, before; none is cached
    under the tags of the kernel's empty table (0) and of the boot map (255).  Running spaces
    have the same tag exactly when they are the same, and a new space is told apart from all
    the cached translations of earlier ones.  Loading a space never fails while there are
    more usable tags than CPUs and generations are left. *)
Theorem asid_tlb_isolation S C bits m : reachable S C bits m ->
  (forall cpu r t, ttbr0 m !! cpu = Some (r, t) -> r <> 0 ->
     1 <= t <= limit (pool m) /\ t <> 255
     /\ (exists o, owners m !! r = Some o /\ forall e, e ∈ tlb m -> en_tag e = t -> en_owner e = o)
     /\ (forall cpu' r' t', ttbr0 m !! cpu' = Some (r', t') -> r' <> 0 -> (t = t' <-> r = r') /\ (owners m !! r = owners m !! r' -> r = r')))
  /\ (forall cpu t, ttbr0 m !! cpu = Some (0, t) -> t = 0)
  /\ (forall e, e ∈ tlb m -> en_tag e <> 0 /\ en_tag e <> 255)
  /\ (forall r m', new_address_space r m = Some (true, m') -> owners m' !! r = Some (births m) /\ forall e, e ∈ tlb m' -> en_owner e <> births m)
  /\ (forall cpu r, (cpu < length (ttbr0 m))%nat -> r = 0 \/ registered (pool m) r -> gen (pool m) + 1 < 2 ^ 64 -> Z.of_nat (length (ttbr0 m)) + 1 < limit (pool m) ->
     exists m' t, switch_address_space cpu r m = Some m' /\ ttbr0 m' !! cpu = Some (r, t)).
Proof.
  intros H%tlb_reachable_ok. pose proof H as [P T E O A En]. rewrite Forall_forall in En. split; [| split; [exact E | split; [| split]]].
  - intros cpu r t Hl Hr. pose proof Hl as Hl'. rewrite T in Hl'. destruct (ok_active _ P cpu r t Hl' Hr) as (i & s & Hs & Hroot & Htag & Hg).
    assert (registered (pool m) r) as Hreg by (by exists i, s). split; [by apply (active_tags_unique _ cpu cpu r t r t P) |]. split; [by apply (active_tags_unique _ cpu cpu r t r t P) |]. split.
    + destruct (O r Hreg Hr) as (o & Ho & _). exists o. split; [done |]. intros e He Ht. pose proof (eo_owner _ _ _ _ (En e He) i s Hs ltac:(split; congruence) ltac:(congruence)) as Hx. congruence.
    + intros cpu' r' t' Hl2 Hr'. rewrite T in Hl2. split; [by apply (active_tags_unique _ cpu cpu' r t r' t' P) |]. destruct (ok_active _ P cpu' r' t' Hl2 Hr') as (i' & s' & Hs' & Hroot' & _).
      intros Hx. destruct (O r Hreg Hr) as (o & Ho & _). apply (A r r' o); try done; [by exists i', s' | congruence].
  - intros e He. destruct (eo_tag _ _ _ _ (En e He)). lia.
  - intros r m' Hn. destruct (new_space_ok r true m m' H Hn) as [_ Hb]. destruct (Hb eq_refl) as [Ho Et]. split; [done |]. intros e He. rewrite Et in He. pose proof (eo_past _ _ _ _ (En e He)). lia.
  - intros cpu r Hc Hr Hg Hl. destruct (switch_succeeds cpu r m H Hc Hr Hg Hl) as [m' Hm]. exists m'. destruct (switch_space_ok _ _ _ _ H Hm) as [_ [t Ht]]. eauto.
Qed.

(** * Witness: two CPUs and three tags.  One space stays on CPU 0 while four others, all with
    the same root frame, come and go on CPU 1; the third of them needs a new generation. *)

Definition fill (cpu : nat) (m : Machine) : option Machine :=
  '(r, t) ← ttbr0 m !! cpu; o ← owners m !! r; if r =? 0 then None else Some (m <| tlb := mkEntry cpu t o :: tlb m |>).
Definition enter (cpu : nat) (r : Z) (m : Machine) : option Machine :=
  '(_, m) ← new_address_space r m; m ← switch_address_space cpu r m; fill cpu m.
Definition leave (cpu : nat) (r : Z) (m : Machine) : option Machine :=
  m ← switch_address_space cpu 0 m; if r =? 0 then None else free_address_space r m.
Definition demo_from (m : Machine) : option Machine :=
  m ← enter 0 4096 m; m ← enter 1 8192 m; m ← leave 1 8192 m; m ← enter 1 8192 m; m ← leave 1 8192 m; m ← enter 1 8192 m; m ← leave 1 8192 m; m ← enter 1 8192 m; fill 0 m.
Definition demo : option Machine := a ← new 2 2 2; demo_from (mkMachine a (replicate 2 (0, 0)) [] ∅ 0).
Section runs.
  Context {S C : nat} {bits : Z}.
Lemma fill_reachable cpu m m' : reachable S C bits m -> fill cpu m = Some m' -> reachable S C bits m'.
Proof.
  intros R H. unfold fill in H. destruct (ttbr0 m !! cpu) as [[r t] |] eqn:E3; cbn [mbind option_bind] in H; [| done]. destruct (owners m !! r) as [o |] eqn:E4; cbn [mbind option_bind] in H; [| done].
  destruct (Z.eqb_spec r 0); [done |]. injection H as <-. eapply reachable_step; [exact R | by eapply st_fill].
Qed.
Lemma enter_reachable cpu r m m' : reachable S C bits m -> enter cpu r m = Some m' -> reachable S C bits m'.
Proof.
  intros R H. unfold enter in H. destruct (new_address_space r m) as [[b m1] |] eqn:E1; cbn [mbind option_bind] in H; [| done]. destruct (switch_address_space cpu r m1) as [m2 |] eqn:E2; cbn [mbind option_bind] in H; [| done].
  eapply fill_reachable; [| exact H]. eapply reachable_step; [eapply reachable_step; [exact R | by eapply st_new] | by eapply st_switch].
Qed.
Lemma leave_reachable cpu r m m' : reachable S C bits m -> leave cpu r m = Some m' -> reachable S C bits m'.
Proof.
  intros R H. unfold leave in H. destruct (switch_address_space cpu 0 m) as [m1 |] eqn:E1; cbn [mbind option_bind] in H; [| done]. destruct (Z.eqb_spec r 0); [done |].
  eapply reachable_step; [eapply reachable_step; [exact R | by eapply st_switch] | by eapply st_free].
Qed.
Lemma demo_from_reachable m m' : reachable S C bits m -> demo_from m = Some m' -> reachable S C bits m'.
Proof.
  intros R H. unfold demo_from in H.
  repeat (match type of H with
          | (enter ?c ?r ?x ≫= _) = _ => let E := fresh in destruct (enter c r x) eqn:E; cbn [mbind option_bind] in H; [| done]; apply (enter_reachable _ _ _ _ R) in E; clear R; rename E into R
          | (leave ?c ?r ?x ≫= _) = _ => let E := fresh in destruct (leave c r x) eqn:E; cbn [mbind option_bind] in H; [| done]; apply (leave_reachable _ _ _ _ R) in E; clear R; rename E into R
          end).
  by eapply fill_reachable.
Qed.
End runs.
Definition demo_facts (m : Machine) : Z * list (Z * Z) * list Entry * option Z := (gen (pool m), ttbr0 m, tlb m, owners m !! 8192).
Lemma tlb_demo_runs : option_map demo_facts demo = Some (2, [(4096, 1); (8192, 3)], [mkEntry 0 1 0; mkEntry 1 3 4], Some 4).
Proof. vm_compute. reflexivity. Qed.
Lemma demo_value : exists m, demo = Some m /\ demo_facts m = (2, [(4096, 1); (8192, 3)], [mkEntry 0 1 0; mkEntry 1 3 4], Some 4).
Proof. pose proof tlb_demo_runs as H. destruct demo as [m |]; [| discriminate H]. exists m. split; [done |]. cbn [option_map] in H. apply (f_equal (from_option id (demo_facts m))) in H. exact H. Qed.
Lemma tlb_demo_reachable : exists m, reachable 2 2 2 m /\ demo_facts m = (2, [(4096, 1); (8192, 3)], [mkEntry 0 1 0; mkEntry 1 3 4], Some 4).
Proof.
  destruct demo_value as (m & E & F). exists m. split; [| exact F]. unfold demo in E. destruct (new 2 2 2) as [a |] eqn:Ea; cbn [mbind option_bind] in E; [| done].
  eapply demo_from_reachable; [by apply reachable_start | exact E].
Qed.
Lemma asid_tlb_isolation_witness : exists m, reachable 2 2 2 m /\ gen (pool m) = 2 /\ ttbr0 m = [(4096, 1); (8192, 3)] /\ tlb m = [mkEntry 0 1 0; mkEntry 1 3 4]
  /\ (exists o, owners m !! 8192 = Some o /\ forall e, e ∈ tlb m -> en_tag e = 3 -> en_owner e = o) /\ (1 = 3 <-> 4096 = 8192).
Proof.
  destruct tlb_demo_reachable as (m & R & F). exists m. unfold demo_facts in F. injection F as Hg Ht Hl Ho. split; [exact R |]. split; [exact Hg |]. split; [exact Ht |]. split; [exact Hl |].
  destruct (asid_tlb_isolation 2 2 2 m R) as (H & _). split.
  - destruct (H 1%nat 8192 3 ltac:(by rewrite Ht) ltac:(done)) as (_ & _ & H1 & _). exact H1.
  - destruct (H 0%nat 4096 1 ltac:(by rewrite Ht) ltac:(done)) as (_ & _ & _ & H1). destruct (H1 1%nat 8192 3 ltac:(by rewrite Ht) ltac:(done)) as [H2 _]. exact H2.
Defined.
End Tlb.
