(* ===== verification/Rqb.v ===== *)
(** Request blocks (src/scheduler/rqb.rs) and their user-memory layout
    (src/syscall.rs): the fixed-size messages tasks exchange. *)

From Stdlib Require Import ZArith Lia.
From stdpp Require Import base list list_numbers numbers decidable tactics sets.
From S2P Require Import Prelude.

Module RqbM.

(** * Data *)

Definition RQB_DATA_SIZE : Z := 64.

Inductive RqbStatus :=
| Success | GeneralFailure | InvalidService | InvalidParam | Timeout
| NoMemory | AccessDenied | NotFound | Busy | Aborted.
#[global] Instance RqbStatus_eq_dec : EqDecision RqbStatus.
Proof. solve_decision. Defined.

(** [status as u16]. *)
Definition status_code (s : RqbStatus) : Z :=
  match s with
  | Success => 0 | GeneralFailure => 1 | InvalidService => 2 | InvalidParam => 3 | Timeout => 4
  | NoMemory => 5 | AccessDenied => 6 | NotFound => 7 | Busy => 8 | Aborted => 9
  end.
(** [RqbStatus::from]. *)
Definition status_from (v : Z) : RqbStatus :=
  match v with
  | 0 => Success | 1 => GeneralFailure | 2 => InvalidService | 3 => InvalidParam | 4 => Timeout
  | 5 => NoMemory | 6 => AccessDenied | 7 => NotFound | 8 => Busy | 9 => Aborted
  | _ => GeneralFailure
  end.

Record Rqb := mkRqb {
  service : Z; status : Z; sender_id : Z; receiver_id : Z; data_size : Z;
  reserved : list Z; data : list Z }.

(** * Operations *)

Definition new : Rqb := mkRqb 0 0 0 0 0 [0; 0] (replicate 64 0).
Definition with_service (s : Z) : Rqb := mkRqb s 0 0 0 0 [0; 0] (replicate 64 0).

(** [dst.copy_from_slice(src)] panics unless the lengths agree. *)
Definition copy_from_slice (dst src : list Z) : option (list Z) :=
  if (length dst =? length src)%nat then Some src else None.

Definition set_data (r : Rqb) (d : list Z) : option Rqb :=
  let len := Nat.min (length d) 64 in
  front ← copy_from_slice (take len (data r)) d;
  Some (mkRqb (service r) (status r) (sender_id r) (receiver_id r) (Z.of_nat len) (reserved r)
          (front ++ drop len (data r))).

(** [index & array_index_mask_nospec(index, size)]. *)
Definition array_index_nospec (index size : Z) : Z :=
  Z.land index (if index <? size then U64_MAX else 0).

Definition get_data (r : Rqb) : list Z :=
  let size := Z.min (data_size r) RQB_DATA_SIZE in
  let size := array_index_nospec size (RQB_DATA_SIZE + 1) in
  take (Z.to_nat size) (data r).

Definition set_status (r : Rqb) (s : RqbStatus) : Rqb :=
  mkRqb (service r) (status_code s) (sender_id r) (receiver_id r) (data_size r) (reserved r) (data r).
Definition is_ok (r : Rqb) : bool := status r =? status_code Success.
(** Assignments of the routing fields. *)
Definition set_route (r : Rqb) (sender receiver : Z) : Rqb :=
  mkRqb (service r) (status r) sender receiver (data_size r) (reserved r) (data r).

(** ** The 96-byte user layout *)

Definition RQB_USER_SIZE : nat := 96.
Definition OFF_SERVICE : nat := 0.
Definition OFF_STATUS : nat := 2.
Definition OFF_SENDER : nat := 4.
Definition OFF_RECEIVER : nat := 8.
Definition OFF_DATA_SIZE : nat := 12.
Definition OFF_DATA : nat := 18.

Definition slice (b : list Z) (off n : nat) : list Z := take n (drop off b).
(** [b[off..off+n].copy_from_slice(src)]. *)
Definition write_slice (b : list Z) (off : nat) (src : list Z) : list Z :=
  take off b ++ src ++ drop (off + length src) b.

Definition rqb_decode (b : list Z) : Rqb :=
  let size := Z.min (from_le_bytes (slice b OFF_DATA_SIZE 2)) RQB_DATA_SIZE in
  mkRqb (from_le_bytes (slice b OFF_SERVICE 2)) (from_le_bytes (slice b OFF_STATUS 2)) 0 0
    (array_index_nospec size (RQB_DATA_SIZE + 1)) [0; 0] (slice b OFF_DATA 64).

Definition rqb_encode (r : Rqb) : list Z :=
  let b := replicate RQB_USER_SIZE 0 in
  let b := write_slice b OFF_SERVICE (to_le_bytes 2 (service r)) in
  let b := write_slice b OFF_STATUS (to_le_bytes 2 (status r)) in
  let b := write_slice b OFF_SENDER (to_le_bytes 4 (sender_id r)) in
  let b := write_slice b OFF_RECEIVER (to_le_bytes 4 (receiver_id r)) in
  let b := write_slice b OFF_DATA_SIZE (to_le_bytes 2 (data_size r)) in
  write_slice b OFF_DATA (data r).

(** * Well-formed messages *)

Record rqb_ok (r : Rqb) : Prop := {
  rq_service : is_uint 16 (service r);
  rq_status : is_uint 16 (status r);
  rq_sender : is_uint 32 (sender_id r);
  rq_receiver : is_uint 32 (receiver_id r);
  rq_size : is_uint 16 (data_size r);
  rq_data : length (data r) = 64%nat /\ Forall is_byte (data r) }.

(** * Lemmas *)

Lemma array_index_nospec_spec i n :
  0 <= i < 2 ^ 64 -> array_index_nospec i n = if i <? n then i else 0.
Proof.
  intros Hi. unfold array_index_nospec. case_if; [| apply Z.land_0_r].
  change U64_MAX with (Z.ones 64). rewrite Z.land_ones, Z.mod_small by lia. done.
Qed.

(** Concatenating the fields is what the writes of [rqb_encode] amount to. *)
Lemma rqb_encode_layout r :
  length (data r) = 64%nat ->
  rqb_encode r = to_le_bytes 2 (service r) ++ to_le_bytes 2 (status r)
    ++ to_le_bytes 4 (sender_id r) ++ to_le_bytes 4 (receiver_id r)
    ++ to_le_bytes 2 (data_size r) ++ [0; 0; 0; 0] ++ data r ++ replicate 14 0.
Proof.
  intros Hd. unfold rqb_encode, write_slice. rewrite Hd. reflexivity.
Qed.

Lemma slice_app_r (a b : list Z) off n :
  length a = off -> slice (a ++ b) off n = take n b.
Proof. intros <-. unfold slice. by rewrite drop_app_length. Qed.

(** * Properties *)

(** What user code writes reaches the kernel and back unchanged: decoding an
    encoded message gives its service, status and payload, with the routing
    fields cleared and the length capped at 64; the encoding is 96 bytes, each a
    byte, and its reserved bytes are zero. *)
Theorem rqb_wire_roundtrip r :
  rqb_ok r ->
  rqb_decode (rqb_encode r)
    = mkRqb (service r) (status r) 0 0 (Z.min (data_size r) RQB_DATA_SIZE) [0; 0] (data r)
  /\ length (rqb_encode r) = RQB_USER_SIZE /\ Forall is_byte (rqb_encode r)
  /\ slice (rqb_encode r) 14 4 = replicate 4 0 /\ slice (rqb_encode r) 82 14 = replicate 14 0.
Proof.
  intros [Hs Hst Hse Hre Hsz [Hd Hb]].
  assert (forall n z, is_uint (Z.of_nat n * 8) z -> from_le_bytes (to_le_bytes n z) = z) as Hle.
  { intros n z Hz. apply from_to_le_bytes. unfold is_uint in Hz.
    change 256 with (2 ^ 8). rewrite <- Z.pow_mul_r by lia. by replace (8 * Z.of_nat n) with (Z.of_nat n * 8) by lia. }
  rewrite rqb_encode_layout by done. split_and!.
  - unfold rqb_decode. set (b := to_le_bytes 2 (service r) ++ _).
    assert (slice b OFF_SERVICE 2 = to_le_bytes 2 (service r)) as -> by reflexivity.
    assert (slice b OFF_STATUS 2 = to_le_bytes 2 (status r)) as -> by reflexivity.
    assert (slice b OFF_DATA_SIZE 2 = to_le_bytes 2 (data_size r)) as -> by reflexivity.
    assert (slice b OFF_DATA 64 = data r) as ->.
    { change (slice (data r ++ replicate 14 0) 0 64 = data r). unfold slice. rewrite drop_0.
      apply take_app_length'. done. }
    rewrite !Hle by done. rewrite array_index_nospec_spec by (unfold is_uint, RQB_DATA_SIZE in *; lia).
    replace (_ <? _) with true by (unfold RQB_DATA_SIZE; lia). done.
  - rewrite !length_app, !length_to_le_bytes, length_replicate, Hd. reflexivity.
  - repeat (apply Forall_app; split); try apply to_le_bytes_bytes; try done;
      by repeat constructor.
  - reflexivity.
  - change (slice (data r ++ replicate 14 0) 64 14 = replicate 14 0).
    rewrite slice_app_r by done. reflexivity.
Qed.

(** A payload of at most 64 bytes is stored and read back as it was; a longer
    one is not truncated, as the comment on [set_data] has it, but panics in
    [copy_from_slice]. *)
Theorem rqb_payload_roundtrip r d :
  length (data r) = 64%nat ->
  ((length d <= 64)%nat -> exists r', set_data r d = Some r' /\ get_data r' = d
     /\ length (data r') = 64%nat)
  /\ ((64 < length d)%nat -> set_data r d = None).
Proof.
  intros Hr. unfold set_data, copy_from_slice. split; intros Hd.
  - rewrite Nat.min_l by done. rewrite length_take, Hr, Nat.min_l, Nat.eqb_refl by done.
    cbn [mbind option_bind]. eexists. split; [reflexivity |]. unfold get_data. simpl data_size. simpl data.
    split; [| rewrite length_app, length_drop; lia].
    rewrite Z.min_l by (unfold RQB_DATA_SIZE; lia).
    rewrite array_index_nospec_spec by lia.
    replace (_ <? _) with true by (unfold RQB_DATA_SIZE; lia).
    rewrite Nat2Z.id. by rewrite take_app_length.
  - rewrite Nat.min_r by lia. rewrite length_take, Hr.
    by rewrite (proj2 (Nat.eqb_neq _ _)) by lia.
Qed.

(** * Witnesses *)

Definition demo : Rqb := mkRqb 0x300 0 7 9 3 [0; 0] ([104; 105; 33] ++ replicate 61 0).
Lemma demo_ok : rqb_ok demo.
Proof.
  constructor; try (split; simpl; lia). split; [done |].
  apply (bool_decide_unpack (Forall is_byte (data demo))). vm_compute. exact I.
Qed.
Lemma rqb_wire_roundtrip_witness :
  rqb_decode (rqb_encode demo) = mkRqb 0x300 0 0 0 3 [0; 0] (data demo).
Proof. exact (proj1 (rqb_wire_roundtrip demo demo_ok)). Defined.
Lemma rqb_payload_roundtrip_witness :
  exists r', set_data new [1; 2; 3] = Some r' /\ get_data r' = [1; 2; 3].
Proof.
  destruct (proj1 (rqb_payload_roundtrip new [1; 2; 3] eq_refl) ltac:(simpl; lia)) as (r' & H & Hg & _).
  exists r'. split; [exact H | exact Hg].
Defined.

End RqbM.
