(* ===== verification/Scheduler.v ===== *)
(** The scheduler (src/scheduler/mod.rs, src/scheduler/task.rs): one run queue for
    all CPUs, round-robin picking, sleeping, and the task-state side of RQB
    messages (blocking send, receive, reply, exit).

    [Scheduler] is the structure behind the global lock together with the three
    statics its operations read or write ([JIFFIES], [NEXT_TASK_ID], [REAPING]).
    Every operation runs with the lock held, so it is one function on that state;
    a run is a sequence of such operations by any CPUs in any order.  The fields
    and statements are those of the x86_64 build.  Calls into the architecture are
    returned as a list of [effect]s; a failed [expect] is [Panic]. *)

From Stdlib Require Import ZArith Lia.
From stdpp Require Import base list list_numbers numbers decidable tactics sets strings gmap.
From S2P Require Import Prelude Rqb.
Import RqbM.

Module Sched.

(** * Data *)

Definition MAX_CPUS : nat := 64.
Definition MAX_TASKS : Z := 64.
Definition SCHEDULER_FREQUENCY_HZ : Z := 100.
Definition INBOX_CAPACITY : Z := 32.

Inductive TaskState := Ready | Running | WaitingRqb | Sleeping | Exited | Blocked | WaitingReply.
#[global] Instance TaskState_eq_dec : EqDecision TaskState.
Proof. solve_decision. Defined.
Definition is_active (s : TaskState) : bool :=
  match s with Ready | Running => true | _ => false end.

Definition PRIORITY_HIGHEST : Z := 0.
Definition PRIORITY_DEFAULT : Z := 16.
Definition PRIORITY_LOWEST : Z := 31.
Definition PRIORITY_IDLE : Z := 31.

Record TaskControlBlock := mkTask {
  id : Z; state : TaskState; priority : Z; context_ptr : Z; kernel_stack_top : Z;
  kernel_stack_bottom : Z; name : string; total_ticks : Z; pinned_cpu : option Z; on_cpu :
  option Z; inbox : list Rqb; reply : option Rqb; wait_for : Z; wake_tick : Z; user : bool;
  high_res_time : bool; spec_store_bypass_disable : bool; address_space : Z; user_slot :
  option Z; kstack_phys : Z; reaped : bool }.

(** ** Field updates *)

Definition set_state (t : TaskControlBlock) (st : TaskState) : TaskControlBlock :=
  mkTask (id t) st (priority t) (context_ptr t) (kernel_stack_top t) (kernel_stack_bottom t)
    (name t) (total_ticks t) (pinned_cpu t) (on_cpu t) (inbox t) (reply t) (wait_for t)
    (wake_tick t) (user t) (high_res_time t) (spec_store_bypass_disable t) (address_space t)
    (user_slot t) (kstack_phys t) (reaped t).

Definition save_context (t : TaskControlBlock) (sp : Z) (timer : bool) : TaskControlBlock :=
  mkTask (id t) (if decide (state t = Running) then Ready else state t) (priority t) sp
    (kernel_stack_top t) (kernel_stack_bottom t) (name t)
    (if timer then total_ticks t + 1 else total_ticks t) (pinned_cpu t) None (inbox t) (reply t)
    (wait_for t) (wake_tick t) (user t) (high_res_time t) (spec_store_bypass_disable t)
    (address_space t) (user_slot t) (kstack_phys t) (reaped t).

Definition set_running (t : TaskControlBlock) (cpu : Z) : TaskControlBlock :=
  mkTask (id t) Running (priority t) (context_ptr t) (kernel_stack_top t)
    (kernel_stack_bottom t) (name t) (total_ticks t) (pinned_cpu t) (Some cpu) (inbox t)
    (reply t) (wait_for t) (wake_tick t) (user t) (high_res_time t)
    (spec_store_bypass_disable t) (address_space t) (user_slot t) (kstack_phys t) (reaped t).

Definition set_inbox (t : TaskControlBlock) (q : list Rqb) : TaskControlBlock :=
  mkTask (id t) (state t) (priority t) (context_ptr t) (kernel_stack_top t)
    (kernel_stack_bottom t) (name t) (total_ticks t) (pinned_cpu t) (on_cpu t) q (reply t)
    (wait_for t) (wake_tick t) (user t) (high_res_time t) (spec_store_bypass_disable t)
    (address_space t) (user_slot t) (kstack_phys t) (reaped t).

Definition set_reply (t : TaskControlBlock) (r : option Rqb) : TaskControlBlock :=
  mkTask (id t) (state t) (priority t) (context_ptr t) (kernel_stack_top t)
    (kernel_stack_bottom t) (name t) (total_ticks t) (pinned_cpu t) (on_cpu t) (inbox t) r
    (wait_for t) (wake_tick t) (user t) (high_res_time t) (spec_store_bypass_disable t)
    (address_space t) (user_slot t) (kstack_phys t) (reaped t).

Definition set_waiting (t : TaskControlBlock) (receiver : Z) : TaskControlBlock :=
  mkTask (id t) WaitingReply (priority t) (context_ptr t) (kernel_stack_top t)
    (kernel_stack_bottom t) (name t) (total_ticks t) (pinned_cpu t) (on_cpu t) (inbox t) None
    receiver (wake_tick t) (user t) (high_res_time t) (spec_store_bypass_disable t)
    (address_space t) (user_slot t) (kstack_phys t) (reaped t).

Definition set_sleeping (t : TaskControlBlock) (until : Z) : TaskControlBlock :=
  mkTask (id t) Sleeping (priority t) (context_ptr t) (kernel_stack_top t)
    (kernel_stack_bottom t) (name t) (total_ticks t) (pinned_cpu t) (on_cpu t) (inbox t)
    (reply t) (wait_for t) until (user t) (high_res_time t) (spec_store_bypass_disable t)
    (address_space t) (user_slot t) (kstack_phys t) (reaped t).

Definition set_reaped (t : TaskControlBlock) : TaskControlBlock :=
  mkTask (id t) (state t) (priority t) (context_ptr t) (kernel_stack_top t)
    (kernel_stack_bottom t) (name t) (total_ticks t) (pinned_cpu t) (on_cpu t) (inbox t)
    (reply t) (wait_for t) (wake_tick t) (user t) (high_res_time t)
    (spec_store_bypass_disable t) 0 None 0 true.

Definition set_high_res_time (t : TaskControlBlock) (b : bool) : TaskControlBlock :=
  mkTask (id t) (state t) (priority t) (context_ptr t) (kernel_stack_top t)
    (kernel_stack_bottom t) (name t) (total_ticks t) (pinned_cpu t) (on_cpu t) (inbox t)
    (reply t) (wait_for t) (wake_tick t) (user t) b (spec_store_bypass_disable t) (address_space t)
    (user_slot t) (kstack_phys t) (reaped t).

Definition set_store_bypass (t : TaskControlBlock) (b : bool) : TaskControlBlock :=
  mkTask (id t) (state t) (priority t) (context_ptr t) (kernel_stack_top t)
    (kernel_stack_bottom t) (name t) (total_ticks t) (pinned_cpu t) (on_cpu t) (inbox t)
    (reply t) (wait_for t) (wake_tick t) (user t) (high_res_time t) b (address_space t)
    (user_slot t) (kstack_phys t) (reaped t).

Record PerCpu := mkPerCpu {
  registered : bool; hw_id : Z; current : option nat; idle_idx : nat }.
Definition EMPTY : PerCpu := mkPerCpu false 0 None 0.

Record KernelStack := mkKernelStack { ks_virt : Z; ks_phys : Z; ks_size : Z }.

Record Scheduler := mkScheduler {
  tasks : list TaskControlBlock;
  cpus : list PerCpu;
  rr_cursor : nat;
  tick_count : Z;
  initialized : bool;
  jiffies : Z;
  next_task_id : Z;
  reaping : Z }.

Definition default_task : TaskControlBlock :=
  mkTask 0 Exited 0 0 0 0 EmptyString 0 None None [] None 0 0 false false false 0 None 0 false.
#[global] Instance task_inhabited : Inhabited TaskControlBlock := populate default_task.
#[global] Instance percpu_inhabited : Inhabited PerCpu := populate EMPTY.

Definition set_tasks (s : Scheduler) (l : list TaskControlBlock) : Scheduler :=
  mkScheduler l (cpus s) (rr_cursor s) (tick_count s) (initialized s) (jiffies s)
    (next_task_id s) (reaping s).
Definition set_cpu (s : Scheduler) (cpu : nat) (c : PerCpu) : Scheduler :=
  mkScheduler (tasks s) (<[cpu := c]> (cpus s)) (rr_cursor s) (tick_count s) (initialized s)
    (jiffies s) (next_task_id s) (reaping s).
Definition set_cursor (s : Scheduler) (i : nat) : Scheduler :=
  mkScheduler (tasks s) (cpus s) i (tick_count s) (initialized s) (jiffies s)
    (next_task_id s) (reaping s).
Definition set_clock (s : Scheduler) (ticks jiffies : Z) : Scheduler :=
  mkScheduler (tasks s) (cpus s) (rr_cursor s) ticks (initialized s) jiffies
    (next_task_id s) (reaping s).
Definition set_next_id (s : Scheduler) (n : Z) : Scheduler :=
  mkScheduler (tasks s) (cpus s) (rr_cursor s) (tick_count s) (initialized s) (jiffies s)
    n (reaping s).
Definition set_reaping (s : Scheduler) (n : Z) : Scheduler :=
  mkScheduler (tasks s) (cpus s) (rr_cursor s) (tick_count s) (initialized s) (jiffies s)
    (next_task_id s) n.
(** [self.tasks[i].field = ...]. *)
Definition update (s : Scheduler) (i : nat) (f : TaskControlBlock -> TaskControlBlock) : Scheduler :=
  set_tasks s (alter f i (tasks s)).

(** Calls into the architecture. *)
Inductive effect :=
| SendReschedIpi (hw : Z)
| SetCurrentTask (cpu : Z) (tid : Z)
| PredictorSwitch (cpu : Z) (user : bool) (tid : Z)
| SwitchAddressSpace (cpu : Z) (space : Z)
| SetUserCounterAccess (allowed : bool)
| PrepareStoreBypass (disable : bool) (context : Z)
| OnSwitchToUser (cpu : Z) (stack_top : Z).

(** * Operations *)

Definition new : Scheduler := mkScheduler [] (replicate MAX_CPUS EMPTY) 0 0 false 0 1 0.

(** [next_task_id]: [None] when the identity space is exhausted. *)
Definition take_task_id (s : Scheduler) : option (Z * Scheduler) :=
  n ← checked_add 32 (next_task_id s) 1;
  Some (next_task_id s, set_next_id s n).

(** [TaskControlBlock::new]; [ctx_size] is the size of the saved context, and the
    context written at [context_ptr] is the architecture's. *)
Definition task_new (ctx_size : Z) (tid : Z) (stack : KernelStack) (prio : Z) (nm : string)
  : TaskControlBlock :=
  let stack_top := ks_virt stack + ks_size stack in
  let ctx_addr := align_down (stack_top - ctx_size) 16 in
  mkTask tid Ready prio ctx_addr stack_top (ks_virt stack) nm 0 None None [] None 0 0
    false false false 0 None (ks_phys stack) false.

Definition task_new_user (ctx_size : Z) (tid space slot : Z) (stack : KernelStack) (prio : Z)
  (nm : string) : TaskControlBlock :=
  let t := task_new ctx_size tid stack prio nm in
  mkTask (id t) (state t) (priority t) (context_ptr t) (kernel_stack_top t) (kernel_stack_bottom t)
    (name t) (total_ticks t) (pinned_cpu t) (on_cpu t) (inbox t) (reply t) (wait_for t)
    (wake_tick t) true (high_res_time t) true space (Some slot) (kstack_phys t) (reaped t).

Definition adopt_current (tid : Z) (nm : string) (prio cpu : Z) : TaskControlBlock :=
  mkTask tid Running prio 0 0 0 nm 0 (Some cpu) (Some cpu) [] None 0 0
    false false false 0 None 0 false.

Definition register_cpu (s : Scheduler) (cpu : nat) (hw : Z) : option (Z * Scheduler) :=
  '(tid, s) ← take_task_id s;
  let idle := adopt_current tid "idle" PRIORITY_IDLE (Z.of_nat cpu) in
  let s := set_tasks s (tasks s ++ [idle]) in
  let idx := (length (tasks s) - 1)%nat in
  Some (tid, set_cpu s cpu (mkPerCpu true hw (Some idx) idx)).

Definition reusable (t : TaskControlBlock) : bool :=
  bool_decide (state t = Exited) && reaped t.

Definition add_task (s : Scheduler) (t : TaskControlBlock) : Z * Scheduler :=
  (id t,
   match position reusable (tasks s) with
   | Some i => set_tasks s (<[Z.to_nat i := t]> (tasks s))
   | None => set_tasks s (tasks s ++ [t])
   end).

Record Reapable := mkReapable { rp_kstack_phys : Z; rp_kstack_virt : Z; rp_space : Z; rp_slot : option Z }.

Definition collectable (t : TaskControlBlock) : bool :=
  bool_decide (state t = Exited) && negb (reaped t) && negb (bool_decide (is_Some (on_cpu t))).

(** The loop of [collect_exited] over the tasks: [room] is the capacity left in
    [out]; a full [out] ends the loop. *)
Fixpoint collect (room : nat) (ts : list TaskControlBlock) : list Reapable * list TaskControlBlock :=
  match ts with
  | [] => ([], [])
  | t :: rest =>
      if collectable t then
        match room with
        | O => ([], t :: rest)
        | S room' =>
            let '(out, rest') := collect room' rest in
            (mkReapable (kstack_phys t) (kernel_stack_bottom t) (address_space t) (user_slot t) :: out,
             set_reaped t :: rest')
        end
      else let '(out, rest') := collect room rest in (out, t :: rest')
  end.

Definition collect_exited (s : Scheduler) : list Reapable * Scheduler :=
  let '(out, ts) := collect 16 (tasks s) in
  (out, set_reaping (set_tasks s ts) (reaping s + Z.of_nat (length out))).

(** The end of a reaper pass over a batch. *)
Definition reaper_done (s : Scheduler) (batch : list Reapable) : Scheduler :=
  set_reaping s (reaping s - Z.of_nat (length batch)).

Definition unreaped_tasks (s : Scheduler) : Z :=
  Z.of_nat (length (List.filter (fun t => bool_decide (state t = Exited) && negb (reaped t)) (tasks s)))
  + reaping s.

Definition eligible (cpu : nat) (t : TaskControlBlock) : bool :=
  bool_decide (state t = Ready) && bool_decide (on_cpu t = None)
  && negb (priority t =? PRIORITY_IDLE)
  && match pinned_cpu t with Some p => p =? Z.of_nat cpu | None => true end.

Definition pick_next (s : Scheduler) (cpu : nat) : nat * Scheduler :=
  let n := length (tasks s) in
  match List.find (fun idx => eligible cpu (tasks s !!! idx))
          (map (fun offset => (rr_cursor s + offset) mod n)%nat (seq 1 n)) with
  | Some idx => (idx, set_cursor s idx)
  | None => (idle_idx (cpus s !!! cpu), s)
  end.

Definition due (now : Z) (t : TaskControlBlock) : bool :=
  bool_decide (state t = Sleeping) && (wake_tick t <=? now).

(** Idle CPUs other than [cpu] are kicked while more than one task woke. *)
Fixpoint kick_idle (cpu i : nat) (woken : Z) (cs : list PerCpu) : list effect :=
  match cs with
  | [] => []
  | c :: rest =>
      if woken <=? 1 then []
      else if registered c && negb (i =? cpu)%nat && bool_decide (current c = Some (idle_idx c))
      then SendReschedIpi (hw_id c) :: kick_idle cpu (S i) (woken - 1) rest
      else kick_idle cpu (S i) woken rest
  end.

Definition on_tick (ipi_available : bool) (s : Scheduler) (cpu : nat) (current_rsp : Z) (timer : bool)
  : Z * Scheduler * list effect :=
  if negb (registered (cpus s !!! cpu)) || (length (tasks s) =? 0)%nat then (current_rsp, s, [])
  else
    let s := if timer
             then set_clock s (tick_count s + 1)
                    (if (cpu =? 0)%nat then jiffies s + 1 else jiffies s)
             else s in
    let now := jiffies s in
    let woken := Z.of_nat (length (List.filter (due now) (tasks s))) in
    let s := set_tasks s (map (fun t => if due now t then set_state t Ready else t) (tasks s)) in
    let ipis := if (1 <? woken) && ipi_available then kick_idle cpu 0 woken (cpus s) else [] in
    let cur := current (cpus s !!! cpu) in
    let s := match cur with
             | Some i => update s i (fun t => save_context t current_rsp timer)
             | None => s
             end in
    let '(next, s) := pick_next s cpu in
    let s := update s next (fun t => set_running t (Z.of_nat cpu)) in
    let t := tasks s !!! next in
    let effects :=
      [SetCurrentTask (Z.of_nat cpu) (id t)]
      ++ (if bool_decide (cur = Some next) then [] else [PredictorSwitch (Z.of_nat cpu) (user t) (id t)])
      ++ [SwitchAddressSpace (Z.of_nat cpu) (address_space t);
          SetUserCounterAccess (user t && high_res_time t);
          PrepareStoreBypass (spec_store_bypass_disable t) (context_ptr t)]
      ++ (if user t then [OnSwitchToUser (Z.of_nat cpu) (kernel_stack_top t)] else []) in
    let c := cpus s !!! cpu in
    let s := set_cpu s cpu (mkPerCpu (registered c) (hw_id c) (Some next) (idle_idx c)) in
    (context_ptr (tasks s !!! next), s, ipis ++ effects).

Definition find_idle_cpu (s : Scheduler) (exclude : nat) : option Z :=
  find_map (fun '(i, c) =>
    if registered c && negb (i =? exclude)%nat && bool_decide (current c = Some (idle_idx c))
    then Some (hw_id c) else None)
    (zip (seq 0 (length (cpus s))) (cpus s)).

Definition current_id (s : Scheduler) (cpu : nat) : Z :=
  match current (cpus s !!! cpu) with Some i => id (tasks s !!! i) | None => 0 end.
Definition current_idx (s : Scheduler) (cpu : nat) : outcome RqbStatus nat :=
  unwrap (current (cpus s !!! cpu)).

Definition find_live (s : Scheduler) (tid : Z) : option nat :=
  Z.to_nat <$> position (fun t => (id t =? tid) && negb (bool_decide (state t = Exited))) (tasks s).

Definition make_ready (s : Scheduler) (idx : nat) (from : TaskState) (cpu : nat)
  : option Z * Scheduler :=
  if decide (state (tasks s !!! idx) = from)
  then (find_idle_cpu s cpu, update s idx (fun t => set_state t Ready))
  else (None, s).

Definition post_request (s : Scheduler) (cpu : nat) (receiver : Z) (msg : Rqb)
  : outcome RqbStatus (option Z * Scheduler) :=
  me ← current_idx s cpu;
  let my_id := id (tasks s !!! me) in
  _ ← guard_err (receiver =? my_id) InvalidParam;
  ri ← ok_or (find_live s receiver) NotFound;
  _ ← guard_err (INBOX_CAPACITY <=? Z.of_nat (length (inbox (tasks s !!! ri)))) Busy;
  let m := set_route msg my_id receiver in
  let s := update s ri (fun t => set_inbox t (inbox t ++ [m])) in
  let s := update s me (fun t => set_waiting t receiver) in
  Ok (make_ready s ri WaitingRqb cpu).

Definition take_request (s : Scheduler) (cpu : nat) (block : bool)
  : outcome RqbStatus (option Rqb * Scheduler) :=
  me ← current_idx s cpu;
  match inbox (tasks s !!! me) with
  | m :: rest => Ok (Some m, update s me (fun t => set_inbox t rest))
  | [] => Ok (None, if block then update s me (fun t => set_state t WaitingRqb) else s)
  end.

Definition post_reply (s : Scheduler) (cpu : nat) (sender : Z) (msg : Rqb)
  : outcome RqbStatus (option Z * Scheduler) :=
  me ← current_idx s cpu;
  let my_id := id (tasks s !!! me) in
  si ← ok_or (find_live s sender) NotFound;
  let t := tasks s !!! si in
  _ ← guard_err (negb (bool_decide (state t = WaitingReply)) || negb (wait_for t =? my_id)
                 || bool_decide (is_Some (reply t))) InvalidParam;
  let m := set_route msg my_id sender in
  let s := update s si (fun t => set_reply t (Some m)) in
  Ok (make_ready s si WaitingReply cpu).

Definition blocked_on (tid : Z) (t : TaskControlBlock) : bool :=
  bool_decide (state t = WaitingReply) && (wait_for t =? tid) && bool_decide (reply t = None).

(** One iteration of the loop of [mark_exited]. *)
Definition abort_waiter (my_id : Z) (cpu : nat) (st : option Z * Scheduler) (i : nat)
  : option Z * Scheduler :=
  let '(kick, s) := st in
  let t := tasks s !!! i in
  if blocked_on my_id t then
    let r := set_route (set_status RqbM.new Aborted) my_id (id t) in
    let s := update s i (fun t => set_reply t (Some r)) in
    let '(k, s) := make_ready s i WaitingReply cpu in
    (match kick with Some _ => kick | None => k end, s)
  else (kick, s).

Definition mark_exited (s : Scheduler) (cpu : nat) : outcome RqbStatus (option Z * Scheduler) :=
  me ← current_idx s cpu;
  let my_id := id (tasks s !!! me) in
  let s := update s me (fun t => set_inbox (set_state t Exited) []) in
  Ok (foldl (abort_waiter my_id cpu) (None, s) (seq 0 (length (tasks s)))).

Definition sleep_until (s : Scheduler) (cpu : nat) (until : Z) : outcome RqbStatus Scheduler :=
  me ← current_idx s cpu;
  Ok (update s me (fun t => set_sleeping t until)).

(** The locked part of the wait loop of [send_rqb]. *)
Definition poll_reply (s : Scheduler) (cpu : nat) : outcome RqbStatus (option Rqb * Scheduler) :=
  me ← current_idx s cpu;
  match reply (tasks s !!! me) with
  | Some r => Ok (Some r, update s me (fun t => set_reply t None))
  | None => Ok (None, update s me (fun t => set_state t WaitingReply))
  end.

Definition create_task (ctx_size : Z) (s : Scheduler) (cpu : nat) (stack : KernelStack) (prio : Z)
  (nm : string) : option (Z * option Z * Scheduler) :=
  '(tid, s) ← take_task_id s;
  let '(tid, s) := add_task s (task_new ctx_size tid stack prio nm) in
  Some (tid, find_idle_cpu s cpu, s).

Definition create_user_task (ctx_size : Z) (s : Scheduler) (cpu : nat) (stack : KernelStack)
  (space slot : Z) (nm : string) (hrt ssbd : bool) : option (Z * option Z * Scheduler) :=
  '(tid, s) ← take_task_id s;
  let t := task_new_user ctx_size tid space slot stack PRIORITY_DEFAULT nm in
  let '(tid, s) := add_task s (set_store_bypass (set_high_res_time t hrt) ssbd) in
  Some (tid, find_idle_cpu s cpu, s).

Definition task_state (s : Scheduler) (tid : Z) : option TaskState :=
  state <$> List.find (fun t => id t =? tid) (tasks s).

(** [sleep_ms]: the deadline in ticks. *)
Definition sleep_deadline (now ms : Z) : Z :=
  let ticks := (ms * SCHEDULER_FREQUENCY_HZ + 999) / 1000 in
  now + Z.max ticks 1.

(** [init]: [true] when the boot CPU was registered by an earlier call. *)
Definition init (s : Scheduler) (hw : Z) : option (bool * Scheduler) :=
  if initialized s then Some (true, s)
  else
    let s := mkScheduler (tasks s) (cpus s) (rr_cursor s) (tick_count s) true (jiffies s)
               (next_task_id s) (reaping s) in
    '(_, s) ← register_cpu s 0 hw; Some (false, s).

(** [set_store_bypass_disable]: [change] is the verdict of the mitigation plan. *)
Definition set_store_bypass_disable (change : bool -> outcome Z unit) (s : Scheduler) (cpu : nat)
  (requested : bool) : outcome Z Scheduler :=
  _ ← change requested;
  index ← unwrap (current (cpus s !!! cpu));
  Ok (update s index (fun t => set_store_bypass t requested)).

(** [task_snapshot] into a buffer of [room] entries: what is written, and whether
    it was truncated. *)
Definition task_snapshot (s : Scheduler) (room : nat) : list (Z * string * TaskState * bool) * bool :=
  let live := List.filter (fun t => negb (bool_decide (state t = Exited))) (tasks s) in
  (map (fun t => (id t, name t, state t, user t)) (take room live), (room <? length live)%nat).

(** * Invariant

    [snd] is the set of tasks inside [send_rqb], between a posted request and the
    reply being taken; it is what the calling tasks' control flow adds to the
    scheduler's own state. *)

Definition task_at (s : Scheduler) (i : nat) (t : TaskControlBlock) : Prop := tasks s !! i = Some t.
Definition cpu_at (s : Scheduler) (c : nat) (pc : PerCpu) : Prop := cpus s !! c = Some pc.
Definition live (s : Scheduler) (tid : Z) : Prop :=
  exists i t, task_at s i t /\ id t = tid /\ state t <> Exited.

(** What holds of one task, whatever the others do. *)
Record task_ok (t : TaskControlBlock) : Prop := {
  tk_running : state t = Running -> is_Some (on_cpu t);
  tk_inbox : Z.of_nat (length (inbox t)) <= INBOX_CAPACITY;
  tk_exited : state t = Exited -> inbox t = [];
  tk_reaped : reaped t = true -> state t = Exited /\ on_cpu t = None;
  tk_pin : forall p c, pinned_cpu t = Some p -> on_cpu t = Some c -> c = p;
  tk_waiting : state t = WaitingReply -> reply t = None }.

(** A task inside [send_rqb] is blocked without a reply, or runnable with one. *)
Definition send_ok (t : TaskControlBlock) : Prop :=
  state t = WaitingReply \/ is_Some (reply t) /\ (state t = Ready \/ state t = Running).

Record sched_ok (s : Scheduler) (snd : gset Z) : Prop := {
  so_cpus : length (cpus s) = MAX_CPUS;
  so_id : forall i t, task_at s i t -> 0 < id t < next_task_id s;
  so_ids : forall i j t u, task_at s i t -> task_at s j u -> id t = id u -> i = j;
  so_unreg : forall c pc, cpu_at s c pc -> registered pc = false -> current pc = None;
  so_cur : forall c pc, cpu_at s c pc -> registered pc = true ->
    exists i t, current pc = Some i /\ task_at s i t /\ on_cpu t = Some (Z.of_nat c);
  so_idle : forall c pc, cpu_at s c pc -> registered pc = true ->
    exists t, task_at s (idle_idx pc) t /\ priority t = PRIORITY_IDLE
      /\ pinned_cpu t = Some (Z.of_nat c) /\ (state t = Ready \/ state t = Running);
  so_on : forall i t c, task_at s i t -> on_cpu t = Some c ->
    exists pc, 0 <= c /\ cpu_at s (Z.to_nat c) pc /\ registered pc = true /\ current pc = Some i;
  so_task : forall i t, task_at s i t -> task_ok t;
  so_wait : forall i t, task_at s i t -> state t = WaitingReply -> id t ∈ snd /\ live s (wait_for t);
  so_snd : forall i t, task_at s i t -> id t ∈ snd -> send_ok t;
  so_snd_id : forall x, x ∈ snd -> x < next_task_id s;
  so_next : 0 < next_task_id s }.

(** * Lookups *)

Lemma task_total s i t : task_at s i t -> tasks s !!! i = t.
Proof. apply list_lookup_total_correct. Qed.
Lemma cpu_total s c pc : cpu_at s c pc -> cpus s !!! c = pc.
Proof. apply list_lookup_total_correct. Qed.

Lemma update_lookup s i f j t' :
  task_at (update s i f) j t' <->
    (j = i /\ exists t, task_at s i t /\ t' = f t) \/ (j <> i /\ task_at s j t').
Proof.
  unfold task_at, update. simpl. destruct (decide (j = i)) as [-> |].
  - rewrite list_lookup_alter_eq. split.
    + intros (t & H & ->)%fmap_Some. left. eauto.
    + intros [(_ & t & H & ->) | [? _]]; [by rewrite H | done].
  - rewrite list_lookup_alter_ne by done. naive_solver.
Qed.

Lemma update_update s i f g : update (update s i f) i g = update s i (fun t => g (f t)).
Proof.
  unfold update, set_tasks. simpl. f_equal. apply list_eq. intros j.
  destruct (decide (j = i)) as [-> |].
  - rewrite !list_lookup_alter_eq. by destruct (tasks s !! i).
  - by rewrite !list_lookup_alter_ne.
Qed.

Lemma live_update s i t f x :
  task_at s i t -> id (f t) = id t -> (state (f t) = Exited -> state t = Exited) ->
  live s x -> live (update s i f) x.
Proof.
  intros Ht Hid Hex (j & u & Hu & Hx & Hl). destruct (decide (j = i)) as [-> | Hne].
  - assert (u = t) as -> by (unfold task_at in *; congruence).
    exists i, (f t). split; [apply update_lookup; left; eauto |]. split; [congruence | auto].
  - exists j, u. split; [apply update_lookup; by right | done].
Qed.

(** Changing one task's own fields, without moving it between CPUs. *)
Lemma sched_ok_update s snd snd' i t f :
  sched_ok s snd -> task_at s i t ->
  id (f t) = id t -> priority (f t) = priority t -> pinned_cpu (f t) = pinned_cpu t ->
  on_cpu (f t) = on_cpu t -> task_ok (f t) ->
  (state (f t) = Exited -> state t = Exited) ->
  (priority t = PRIORITY_IDLE -> state (f t) = state t \/ state (f t) = Ready) ->
  (state (f t) = WaitingReply -> id t ∈ snd' /\ live s (wait_for (f t))) ->
  (id t ∈ snd' -> send_ok (f t)) ->
  (forall x, x <> id t -> x ∈ snd' <-> x ∈ snd) ->
  sched_ok (update s i f) snd'.
Proof.
  intros OK Ht Hid Hpr Hpin Hon Hok Hex Hidle Hw Hs Hsnd.
  pose proof OK as [Lc Id Ids Ur Cu Il On Tk Wa Sn Si Np].
  assert (forall x, live s x -> live (update s i f) x) as Hlive
    by (intros x; by eapply live_update).
  assert (forall j t', task_at (update s i f) j t' ->
            exists t0, task_at s j t0 /\ id t' = id t0 /\ priority t' = priority t0
              /\ pinned_cpu t' = pinned_cpu t0 /\ on_cpu t' = on_cpu t0
              /\ (j = i /\ t' = f t /\ t0 = t \/ j <> i /\ t' = t0)) as Hlk.
  { intros j t' [(-> & u & Hu & ->) | [Hne H]]%update_lookup.
    - assert (u = t) as -> by (unfold task_at in *; congruence). exists t. split_and!; auto.
    - exists t'. split_and!; auto. }
  assert (forall j u, j <> i -> task_at s j u -> id u <> id t) as Hother.
  { intros j u Hne Hu He. apply Hne. eapply Ids; eauto. }
  constructor; try done.
  - intros j t' (t0 & H0 & -> & _)%Hlk. by eapply Id.
  - intros j k u v (u0 & Hu & -> & _)%Hlk (v0 & Hv & -> & _)%Hlk. by eapply Ids.
  - intros c pc Hc Hr. destruct (Cu c pc Hc Hr) as (j & u & Hj & Hu & Ho).
    destruct (decide (j = i)) as [-> | Hne].
    + exists i, (f t). split; [done |]. split; [apply update_lookup; left; eauto |].
      assert (u = t) as -> by (unfold task_at in *; congruence). congruence.
    + exists j, u. split; [done |]. split; [apply update_lookup; by right | done].
  - intros c pc Hc Hr. destruct (Il c pc Hc Hr) as (u & Hu & Hp & Hpi & Hst).
    destruct (decide (idle_idx pc = i)) as [He | Hne].
    + rewrite He in *. assert (u = t) as -> by (unfold task_at in *; congruence).
      exists (f t). split; [apply update_lookup; left; eauto |]. split_and!; [congruence | congruence |].
      destruct (Hidle Hp) as [-> | ->]; auto.
    + exists u. split; [apply update_lookup; by right | done].
  - intros j t' c (t0 & H0 & _ & _ & _ & -> & _)%Hlk Hc. by eapply On.
  - intros j t' (t0 & H0 & _ & _ & _ & _ & [(-> & -> & _) | [_ ->]])%Hlk; [done | by eapply Tk].
  - intros j t' (t0 & H0 & He & _ & _ & _ & [(-> & -> & ->) | [Hne ->]])%Hlk Hst.
    + rewrite He. destruct (Hw Hst) as [H1 H2]. split; [done | by apply Hlive].
    + destruct (Wa j t0 H0 Hst) as [H1 H2]. split; [apply Hsnd; eauto | by apply Hlive].
  - intros j t' (t0 & H0 & He & _ & _ & _ & [(-> & -> & ->) | [Hne ->]])%Hlk Hin.
    + apply Hs. by rewrite He in Hin.
    + eapply Sn; [exact H0 |]. apply Hsnd; eauto.
  - intros x Hx. destruct (decide (x = id t)) as [-> |]; [by eapply Id |].
    apply Si. by apply Hsnd.
Qed.

(** The clock and the cursor are not part of the invariant. *)
Lemma sched_ok_ext s s' snd :
  tasks s' = tasks s -> cpus s' = cpus s -> next_task_id s' = next_task_id s ->
  sched_ok s snd -> sched_ok s' snd.
Proof.
  destruct s, s'. cbn [tasks cpus next_task_id]. intros -> -> -> [Lc Id Ids Ur Cu Il On Tk Wa Sn Si Np].
  by constructor.
Qed.

(** * Message operations *)

(** Task [t], at index [me], is the one executing on CPU [c]. *)
Definition runs_on (s : Scheduler) (c me : nat) (t : TaskControlBlock) : Prop :=
  exists pc, cpu_at s c pc /\ registered pc = true /\ current pc = Some me /\ task_at s me t.

Lemma runs_on_idx s c me t : runs_on s c me t -> current_idx s c = Ok me /\ tasks s !!! me = t.
Proof.
  intros (pc & Hc & _ & Hcur & Ht). unfold current_idx. rewrite (cpu_total _ _ _ Hc), Hcur.
  split; [done | by apply task_total].
Qed.

Lemma find_live_Some s tid i :
  find_live s tid = Some i -> exists t, task_at s i t /\ id t = tid /\ state t <> Exited.
Proof.
  unfold find_live. intros (k & Hk & ->)%fmap_Some.
  pose proof (position_from_spec (fun t => (id t =? tid) && negb (bool_decide (state t = Exited))) 0 (tasks s)) as H.
  unfold position in Hk. rewrite Hk in H. destruct H as (n & t & -> & Ht & Hp & _).
  exists t. rewrite Z.add_0_l, Nat2Z.id. split; [done |].
  apply andb_true_iff in Hp as [H1 H2]. apply negb_true_iff, bool_decide_eq_false in H2. split; [lia | done].
Qed.

Lemma find_live_None s tid : find_live s tid = None -> ~ live s tid.
Proof.
  unfold find_live. intros Hk%fmap_None (i & t & Ht & Hid & Hst).
  pose proof (position_from_spec (fun t => (id t =? tid) && negb (bool_decide (state t = Exited))) 0 (tasks s)) as H.
  unfold position in Hk. rewrite Hk in H. specialize (H i t Ht). rewrite Hid, Z.eqb_refl in H.
  by rewrite bool_decide_eq_false_2 in H.
Qed.

Definition wake_from (from : TaskState) (t : TaskControlBlock) : TaskControlBlock :=
  if decide (state t = from) then set_state t Ready else t.

Lemma make_ready_state s i from cpu t :
  task_at s i t -> (make_ready s i from cpu).2 = update s i (wake_from from).
Proof.
  intros Ht. unfold make_ready. rewrite (task_total _ _ _ Ht).
  destruct (decide (state t = from)) as [He | Hne]; simpl; unfold update, set_tasks; f_equal.
  - apply list_eq. intros j. destruct (decide (j = i)) as [-> |].
    + rewrite !list_lookup_alter_eq. unfold task_at in Ht. rewrite Ht. simpl.
      unfold wake_from. by rewrite decide_True.
    + by rewrite !list_lookup_alter_ne.
  - destruct s. simpl. f_equal. apply list_eq. intros j. destruct (decide (j = i)) as [-> |].
    + rewrite list_lookup_alter_eq. unfold task_at in Ht. simpl in Ht. rewrite Ht. simpl.
      unfold wake_from. by rewrite decide_False.
    + by rewrite list_lookup_alter_ne.
Qed.

(** A message reaching a task: queued last, and a task blocked in receive wakes. *)
Definition deliver (m : Rqb) (t : TaskControlBlock) : TaskControlBlock :=
  wake_from WaitingRqb (set_inbox t (inbox t ++ [m])).

Lemma task_ok_wake t st : st <> Exited -> st <> Running -> task_ok t -> state t = st ->
  task_ok (set_state t Ready).
Proof. intros H1 H2 [R I E Re P W] Hs. constructor; simpl; try done. intros H. apply Re in H. naive_solver. Qed.

Lemma task_ok_deliver m t :
  task_ok t -> Z.of_nat (length (inbox t)) < INBOX_CAPACITY -> state t <> Exited -> task_ok (deliver m t).
Proof.
  intros [R I E Re P W] Hl Hx. unfold deliver, wake_from. simpl.
  destruct (decide (state t = WaitingRqb)); constructor; simpl; try done;
    try (rewrite length_app; simpl; lia); intros H; apply Re in H; naive_solver.
Qed.

Lemma deliver_id m t : id (deliver m t) = id t.
Proof. unfold deliver, wake_from. by case_decide. Qed.
Lemma deliver_state m t : state t <> Exited -> state (deliver m t) <> Exited.
Proof. unfold deliver, wake_from. intros H. by case_decide. Qed.

Lemma update_comm s i j f g : i <> j -> update (update s i f) j g = update (update s j g) i f.
Proof.
  intros Hne. unfold update, set_tasks. cbn [tasks cpus rr_cursor tick_count initialized jiffies next_task_id reaping].
  f_equal. apply list_eq. intros k. destruct (decide (k = i)) as [-> |].
  - rewrite list_lookup_alter_ne, !list_lookup_alter_eq, list_lookup_alter_ne by done. done.
  - destruct (decide (k = j)) as [-> |].
    + rewrite list_lookup_alter_eq, !list_lookup_alter_ne, list_lookup_alter_eq by done. done.
    + by rewrite !list_lookup_alter_ne by done.
Qed.

Lemma sched_ok_deliver s snd i t m :
  sched_ok s snd -> task_at s i t -> Z.of_nat (length (inbox t)) < INBOX_CAPACITY -> state t <> Exited ->
  sched_ok (update s i (deliver m)) snd.
Proof.
  intros OK Ht Hl Hx. pose proof (so_task _ _ OK i t Ht) as K.
  pose proof (so_wait _ _ OK i t Ht) as Hw. pose proof (so_snd _ _ OK i t Ht) as Hs.
  pose proof (task_ok_deliver m t K Hl Hx) as K'.
  eapply (sched_ok_update s snd snd i t); [exact OK | exact Ht | ..];
    revert K'; unfold deliver, wake_from; cbn [state set_inbox];
    destruct (decide (state t = WaitingRqb)) as [He |]; intros K'; try exact K'; try (exact eq_refl);
    try (intros; reflexivity); try (intros H; discriminate H); cbn [set_inbox set_state state]; auto.
  - intros Hin. exfalso. destruct (Hs Hin) as [H | [_ [H | H]]]; congruence.
Qed.

Lemma sched_ok_waiting s snd i t rcv :
  sched_ok s snd -> task_at s i t -> state t = Running -> id t ∉ snd -> priority t <> PRIORITY_IDLE ->
  live s rcv -> sched_ok (update s i (fun u => set_waiting u rcv)) ({[id t]} ∪ snd).
Proof.
  intros OK Ht Hst Hin Hp Hl. pose proof (so_task _ _ OK i t Ht) as [R I E Re P W].
  eapply (sched_ok_update s snd _ i t); [exact OK | exact Ht | exact eq_refl .. | | | | | |].
  - constructor; cbn [state set_waiting reply inbox reaped on_cpu pinned_cpu]; try done.
    intros H. destruct (Re H). congruence.
  - discriminate.
  - done.
  - intros _. split; [apply elem_of_union_l; by apply elem_of_singleton | exact Hl].
  - intros _. by left.
  - intros x Hx. rewrite elem_of_union, elem_of_singleton. tauto.
Qed.

(** [post_request]: what each outcome means. *)
Definition posted (s : Scheduler) (me : nat) (t : TaskControlBlock) (receiver : Z) (msg : Rqb)
  (s' : Scheduler) : Prop :=
  exists ri r, task_at s ri r /\ id r = receiver /\ state r <> Exited /\ ri <> me
    /\ Z.of_nat (length (inbox r)) < INBOX_CAPACITY
    /\ s' = update (update s ri (deliver (set_route msg (id t) receiver))) me (fun u => set_waiting u receiver).

Lemma post_request_spec s snd cpu me t receiver msg :
  sched_ok s snd -> runs_on s cpu me t -> state t = Running -> id t ∉ snd ->
  priority t <> PRIORITY_IDLE ->
  match post_request s cpu receiver msg with
  | Ok (_, s') => posted s me t receiver msg s' /\ sched_ok s' ({[id t]} ∪ snd)
  | Err e => match e with
             | InvalidParam => receiver = id t
             | NotFound => ~ live s receiver
             | Busy => exists ri r, task_at s ri r /\ id r = receiver
                         /\ Z.of_nat (length (inbox r)) = INBOX_CAPACITY
             | _ => False
             end
  | Panic => False
  end.
Proof.
  intros OK Hrun Hst Hsnd Hprio. destruct (runs_on_idx _ _ _ _ Hrun) as [Hcur Hme].
  destruct Hrun as (pc & Hc & Hreg & Hcurr & Ht).
  unfold post_request. rewrite Hcur. cbn [mbind outcome_bind]. rewrite Hme.
  destruct (Z.eqb_spec receiver (id t)) as [-> | Hne]; cbn [guard_err mbind outcome_bind]; [done |].
  destruct (find_live s receiver) as [ri |] eqn:Ef; cbn [ok_or mbind outcome_bind];
    [| by apply find_live_None].
  apply find_live_Some in Ef as (r & Hr & Hid & Hex). rewrite (task_total _ _ _ Hr).
  pose proof (tk_inbox _ (so_task _ _ OK ri r Hr)) as Hcap.
  destruct (INBOX_CAPACITY <=? Z.of_nat (length (inbox r))) eqn:Eb; cbn [guard_err mbind outcome_bind];
    [exists ri, r; split_and!; [done | done | lia] |].
  assert (ri <> me) as Hrm by (intros ->; unfold task_at in *; congruence).
  set (m := set_route msg (id t) receiver).
  set (s2 := update (update s ri (fun u => set_inbox u (inbox u ++ [m]))) me (fun u => set_waiting u receiver)).
  assert (task_at s2 ri (set_inbox r (inbox r ++ [m]))) as Hr2
    by (apply update_lookup; right; split; [done |]; apply update_lookup; left; eauto).
  destruct (make_ready s2 ri WaitingRqb cpu) as [k s3] eqn:E.
  assert (s3 = update (update s ri (deliver m)) me (fun u => set_waiting u receiver)) as ->.
  { replace s3 with (make_ready s2 ri WaitingRqb cpu).2 by (by rewrite E).
    rewrite (make_ready_state _ _ _ _ _ Hr2). unfold s2. by rewrite update_comm, update_update by done. }
  assert (task_at (update s ri (deliver m)) ri (deliver m r)) as Hr1 by (apply update_lookup; left; eauto).
  assert (task_at (update s ri (deliver m)) me t) as Ht1 by (apply update_lookup; right; auto).
  split.
  - exists ri, r. do 4 (split; [done |]). split; [lia | done].
  - pose proof (so_task _ _ OK me t Ht) as Kt.
    assert (sched_ok (update s ri (deliver m)) snd) as OK1 by (eapply sched_ok_deliver; (done || lia)).
    eapply sched_ok_waiting; [exact OK1 | exact Ht1 | done | done | done |].
    exists ri, (deliver m r). split; [done |]. rewrite deliver_id. split; [done | by apply deliver_state].
Qed.

Lemma sched_ok_answer s snd i u m :
  sched_ok s snd -> task_at s i u -> state u = WaitingReply ->
  sched_ok (update s i (fun t => set_state (set_reply t (Some m)) Ready)) snd.
Proof.
  intros OK Hu Hst. pose proof (so_task _ _ OK i u Hu) as [R I E Re P W].
  eapply (sched_ok_update s snd snd i u); [exact OK | exact Hu | exact eq_refl .. | | | | | |].
  - constructor; cbn [state set_state set_reply reply inbox reaped on_cpu pinned_cpu]; try done.
    intros H. destruct (Re H). congruence.
  - discriminate.
  - intros _. by right.
  - discriminate.
  - intros _. right. split; [by eexists | by left].
  - done.
Qed.

(** A running task's own bookkeeping: it changes its queue, blocks or sleeps. *)
Lemma sched_ok_block s snd i t st q wk :
  sched_ok s snd -> task_at s i t -> state t = Running -> id t ∉ snd -> priority t <> PRIORITY_IDLE ->
  st <> Exited -> st <> WaitingReply -> Z.of_nat (length q) <= INBOX_CAPACITY ->
  sched_ok (update s i (fun u => set_state (set_inbox (set_sleeping u (wk u)) q) st)) snd.
Proof.
  intros OK Ht Hst Hin Hp H1 H2 Hq. pose proof (so_task _ _ OK i t Ht) as [R I E Re P W].
  eapply (sched_ok_update s snd snd i t); [exact OK | exact Ht | exact eq_refl .. | | | | | |].
  - constructor; cbn [state set_state set_inbox set_sleeping reply inbox reaped on_cpu pinned_cpu]; try done.
    + intros _. by apply R.
    + intros H. destruct (Re H). congruence.
  - done.
  - done.
  - done.
  - done.
  - done.
Qed.

Lemma update_ext s i t f g : task_at s i t -> f t = g t -> update s i f = update s i g.
Proof.
  intros Ht He. unfold update. f_equal. apply list_eq. intros j. destruct (decide (j = i)) as [-> |].
  - rewrite !list_lookup_alter_eq. unfold task_at in Ht. rewrite Ht. simpl. by rewrite He.
  - by rewrite !list_lookup_alter_ne.
Qed.

Lemma take_request_spec s snd cpu me t block :
  sched_ok s snd -> runs_on s cpu me t -> state t = Running -> id t ∉ snd ->
  priority t <> PRIORITY_IDLE ->
  exists s', take_request s cpu block = Ok (head (inbox t), s') /\ sched_ok s' snd
    /\ s' = match inbox t with
            | _ :: rest => update s me (fun t => set_inbox t rest)
            | [] => if block then update s me (fun t => set_state t WaitingRqb) else s
            end.
Proof.
  intros OK Hrun Hst Hsnd Hprio. destruct (runs_on_idx _ _ _ _ Hrun) as [Hcur Hme].
  destruct Hrun as (pc & Hc & Hreg & Hcurr & Ht).
  unfold take_request. rewrite Hcur. cbn [mbind outcome_bind]. rewrite Hme.
  pose proof (tk_inbox _ (so_task _ _ OK me t Ht)) as Hcap.
  destruct (inbox t) as [| m rest] eqn:Ei.
  - exists (if block then update s me (fun t => set_state t WaitingRqb) else s).
    split; [done |]. split; [| done]. destruct block; [| done].
    erewrite (update_ext s me t); [eapply (sched_ok_block s snd me t WaitingRqb [] wake_tick); eauto; done |
      exact Ht |]. destruct t. cbn in Ei. by subst.
  - exists (update s me (fun t => set_inbox t rest)). split; [done |]. split; [| done].
    erewrite (update_ext s me t); [eapply (sched_ok_block s snd me t Running rest wake_tick); eauto; try done |
      exact Ht |].
    + cbn [length] in Hcap. lia.
    + destruct t. cbn in Hst. by subst.
Qed.

Lemma sleep_until_spec s snd cpu me t until :
  sched_ok s snd -> runs_on s cpu me t -> state t = Running -> id t ∉ snd ->
  priority t <> PRIORITY_IDLE ->
  exists s', sleep_until s cpu until = Ok s' /\ s' = update s me (fun t => set_sleeping t until) /\ sched_ok s' snd.
Proof.
  intros OK Hrun Hst Hsnd Hprio. destruct (runs_on_idx _ _ _ _ Hrun) as [Hcur Hme].
  destruct Hrun as (pc & Hc & Hreg & Hcurr & Ht).
  unfold sleep_until. rewrite Hcur. cbn [mbind outcome_bind]. eexists. do 2 (split; [done |]).
  pose proof (tk_inbox _ (so_task _ _ OK me t Ht)) as Hcap.
  erewrite (update_ext s me t);
    [eapply (sched_ok_block s snd me t Sleeping (inbox t) (fun _ => until)); eauto; done | exact Ht |].
  by destruct t.
Qed.

Definition answered (m : Rqb) (t : TaskControlBlock) : TaskControlBlock := set_state (set_reply t (Some m)) Ready.

Lemma post_reply_spec s snd cpu me t sender msg :
  sched_ok s snd -> runs_on s cpu me t ->
  match post_reply s cpu sender msg with
  | Ok (_, s') => exists si u, task_at s si u /\ id u = sender /\ state u = WaitingReply
      /\ wait_for u = id t /\ s' = update s si (answered (set_route msg (id t) sender)) /\ sched_ok s' snd
  | Err e => match e with
             | NotFound => ~ live s sender
             | InvalidParam => exists si u, task_at s si u /\ id u = sender /\ state u <> Exited
                 /\ ~ (state u = WaitingReply /\ wait_for u = id t)
             | _ => False
             end
  | Panic => False
  end.
Proof.
  intros OK Hrun. destruct (runs_on_idx _ _ _ _ Hrun) as [Hcur Hme].
  destruct Hrun as (pc & Hc & Hreg & Hcurr & Ht).
  unfold post_reply. rewrite Hcur. cbn [mbind outcome_bind]. rewrite Hme.
  destruct (find_live s sender) as [si |] eqn:Ef; cbn [ok_or mbind outcome_bind];
    [| by apply find_live_None].
  apply find_live_Some in Ef as (u & Hu & Hid & Hex). rewrite (task_total _ _ _ Hu).
  pose proof (so_task _ _ OK si u Hu) as K.
  destruct (decide (state u = WaitingReply)) as [Hw | Hw].
  2: { rewrite (bool_decide_eq_false_2 (state u = WaitingReply)) by done.
       cbn [negb orb guard_err mbind outcome_bind]. exists si, u. tauto. }
  rewrite (bool_decide_eq_true_2 (state u = WaitingReply)) by done.
  destruct (Z.eqb_spec (wait_for u) (id t)) as [Hf | Hf].
  2: { cbn [negb orb guard_err mbind outcome_bind]. exists si, u. tauto. }
  rewrite (tk_waiting _ K Hw).
  rewrite (bool_decide_eq_false_2 (is_Some None)) by (by intros [? ?]).
  cbn [negb orb guard_err mbind outcome_bind].
  set (m := set_route msg (id t) sender).
  set (s1 := update s si (fun t => set_reply t (Some m))).
  assert (task_at s1 si (set_reply u (Some m))) as Hu1 by (apply update_lookup; left; eauto).
  destruct (make_ready s1 si WaitingReply cpu) as [k s2] eqn:E.
  assert (s2 = update s si (answered m)) as ->.
  { replace s2 with (make_ready s1 si WaitingReply cpu).2 by (by rewrite E).
    rewrite (make_ready_state _ _ _ _ _ Hu1). unfold s1. rewrite update_update.
    eapply update_ext; [exact Hu |]. unfold wake_from. cbn [state set_reply]. by rewrite decide_True. }
  exists si, u. do 4 (split; [done |]). split; [done |]. by eapply sched_ok_answer.
Qed.

(** [send_rqb] never runs again without its reply. *)
Lemma poll_reply_spec s snd cpu me t :
  sched_ok s snd -> runs_on s cpu me t -> state t = Running -> id t ∈ snd ->
  exists r s', poll_reply s cpu = Ok (Some r, s') /\ reply t = Some r
    /\ s' = update s me (fun t => set_reply t None) /\ sched_ok s' (snd ∖ {[id t]}).
Proof.
  intros OK Hrun Hst Hsnd. destruct (runs_on_idx _ _ _ _ Hrun) as [Hcur Hme].
  destruct Hrun as (pc & Hc & Hreg & Hcurr & Ht).
  destruct (so_snd _ _ OK me t Ht Hsnd) as [? | [[r Hr] _]]; [congruence |].
  unfold poll_reply. rewrite Hcur. cbn [mbind outcome_bind]. rewrite Hme, Hr.
  exists r. eexists. do 3 (split; [done |]).
  pose proof (so_task _ _ OK me t Ht) as [R I E Re P W].
  eapply (sched_ok_update s snd _ me t); [exact OK | exact Ht | exact eq_refl .. | | | | | |].
  - constructor; cbn [state set_reply reply inbox reaped on_cpu pinned_cpu]; try done.
  - done.
  - intros _. by left.
  - cbn. congruence.
  - rewrite elem_of_difference, elem_of_singleton. tauto.
  - intros x Hx. rewrite elem_of_difference, elem_of_singleton. tauto.
Qed.

(** * Operations on every task *)

(** A change of the tasks' own fields that keeps identities, priorities and CPUs. *)
Definition same_seat (t t' : TaskControlBlock) : Prop :=
  id t' = id t /\ priority t' = priority t /\ pinned_cpu t' = pinned_cpu t /\ on_cpu t' = on_cpu t
  /\ (priority t = PRIORITY_IDLE -> state t = Ready \/ state t = Running -> state t' = Ready \/ state t' = Running).

Lemma sched_ok_pointwise s s' snd :
  sched_ok s snd -> cpus s' = cpus s -> next_task_id s' = next_task_id s ->
  Forall2 same_seat (tasks s) (tasks s') ->
  (forall i t, task_at s' i t -> task_ok t) ->
  (forall i t, task_at s' i t -> state t = WaitingReply -> id t ∈ snd /\ live s' (wait_for t)) ->
  (forall i t, task_at s' i t -> id t ∈ snd -> send_ok t) ->
  sched_ok s' snd.
Proof.
  intros [Lc Id Ids Ur Cu Il On Tk Wa Sn Si Np] Ec En F K W S.
  assert (forall i t', task_at s' i t' -> exists t, task_at s i t /\ same_seat t t') as Hb.
  { intros i t' H. by eapply Forall2_lookup_r in F as (t & H1 & H2); eauto. }
  assert (forall i t, task_at s i t -> exists t', task_at s' i t' /\ same_seat t t') as Hf.
  { intros i t H. by eapply Forall2_lookup_l in F as (t' & H1 & H2); eauto. }
  constructor; unfold cpu_at in *; rewrite ?Ec, ?En; try done.
  - intros i t (t0 & H0 & -> & _)%Hb. by eapply Id.
  - intros i j t u (t0 & H0 & -> & _)%Hb (u0 & H1 & -> & _)%Hb. by eapply Ids.
  - intros c pc Hc Hr. destruct (Cu c pc Hc Hr) as (i & t & Hi & Ht & Ho).
    apply Hf in Ht as (t' & Ht' & _ & _ & _ & He & _). exists i, t'. split_and!; congruence.
  - intros c pc Hc Hr. destruct (Il c pc Hc Hr) as (t & Ht & Hp & Hpi & Hst).
    apply Hf in Ht as (t' & Ht' & _ & Hp' & Hpi' & _ & Hs'). exists t'. split; [done |].
    split_and!; [congruence | congruence | auto].
  - intros i t c (t0 & H0 & _ & _ & _ & -> & _)%Hb. by eapply On.
Qed.

(** The reply a waiter gets when its server exits. *)
Definition aborted (server tid : Z) : Rqb := set_route (set_status RqbM.new Aborted) server tid.
Definition abort (server : Z) (t : TaskControlBlock) : TaskControlBlock :=
  if blocked_on server t then answered (aborted server (id t)) t else t.

Lemma abort_waiter_state server cpu k s i :
  (abort_waiter server cpu (k, s) i).2 = update s i (abort server) \/ tasks s !! i = None.
Proof.
  destruct (tasks s !! i) as [t |] eqn:Ht; [left | by right].
  unfold abort_waiter. rewrite (task_total s i t Ht).
  destruct (blocked_on server t) eqn:Eb.
  - set (r := set_route _ _ _). set (s1 := update s i _).
    assert (task_at s1 i (set_reply t (Some r))) as Hu1 by (apply update_lookup; left; eauto).
    destruct (make_ready s1 i WaitingReply cpu) as [k' s2] eqn:E. cbn [snd].
    replace s2 with (make_ready s1 i WaitingReply cpu).2 by (by rewrite E).
    rewrite (make_ready_state _ _ _ _ _ Hu1). unfold s1. rewrite update_update.
    eapply update_ext; [exact Ht |]. unfold abort, wake_from. rewrite Eb. cbn [state set_reply].
    rewrite decide_True; [done |]. unfold blocked_on in Eb. apply andb_true_iff in Eb as [Eb _].
    apply andb_true_iff in Eb as [Eb _]. by apply bool_decide_eq_true in Eb.
  - cbn [snd]. destruct s. unfold update, set_tasks. cbn in *. f_equal. apply list_eq. intros j.
    destruct (decide (j = i)) as [-> |].
    + rewrite list_lookup_alter_eq, Ht. cbn. unfold abort. by rewrite Eb.
    + by rewrite list_lookup_alter_ne.
Qed.

Lemma set_tasks_id s : set_tasks s (tasks s) = s.
Proof. by destruct s. Qed.

Lemma abort_loop server cpu n : forall k s a,
  (a + n = length (tasks s))%nat ->
  (foldl (abort_waiter server cpu) (k, s) (seq a n)).2
  = set_tasks s (take a (tasks s) ++ map (abort server) (drop a (tasks s))).
Proof.
  induction n as [| n IH]; intros k s a Hl.
  - cbn [seq foldl snd]. rewrite firstn_all2, drop_ge by lia. cbn. by rewrite app_nil_r, set_tasks_id.
  - cbn [seq foldl]. destruct (abort_waiter server cpu (k, s) a) as [k1 s1] eqn:E.
    destruct (abort_waiter_state server cpu k s a) as [H | H%lookup_ge_None]; [| lia].
    rewrite E in H. cbn [snd] in H. subst s1.
    rewrite IH by (cbn [update set_tasks tasks]; rewrite length_alter; lia).
    unfold update, set_tasks. cbn [tasks cpus rr_cursor tick_count initialized jiffies next_task_id reaping].
    f_equal. destruct (lookup_lt_is_Some_2 (tasks s) a) as [t Ht]; [lia |].
    rewrite (drop_S _ t a) by done. cbn [map].
    rewrite (take_S_r _ _ (abort server t)) by (rewrite list_lookup_alter_eq, Ht; done).
    rewrite take_alter_ge, drop_alter_lt by lia. by rewrite <- app_assoc.
Qed.

Definition exit_task (t : TaskControlBlock) : TaskControlBlock := set_inbox (set_state t Exited) [].

Lemma mark_exited_state s cpu me t :
  runs_on s cpu me t ->
  exists kick, mark_exited s cpu
    = Ok (kick, set_tasks s (map (abort (id t)) (alter exit_task me (tasks s)))).
Proof.
  intros Hrun. destruct (runs_on_idx _ _ _ _ Hrun) as [Hcur Hme].
  unfold mark_exited. rewrite Hcur. cbn [mbind outcome_bind]. rewrite Hme.
  set (s1 := update s me _). destruct (foldl _ _ _) as [k s2] eqn:E. exists k. do 2 f_equal.
  pose proof (abort_loop (id t) cpu (length (tasks s1)) None s1 0 eq_refl) as H.
  rewrite E in H. cbn [snd] in H. by rewrite H.
Qed.

Lemma abort_fields server t :
  id (abort server t) = id t /\ priority (abort server t) = priority t /\ pinned_cpu (abort server t) = pinned_cpu t
  /\ on_cpu (abort server t) = on_cpu t /\ (state (abort server t) = state t \/ state (abort server t) = Ready)
  /\ (state (abort server t) = Exited <-> state t = Exited).
Proof.
  unfold abort. destruct (blocked_on server t) eqn:E.
  - apply andb_true_iff in E as [E _]. apply andb_true_iff in E as [E _]. apply bool_decide_eq_true in E.
    cbn. rewrite E. split_and!; auto; done.
  - split_and!; auto; done.
Qed.

Lemma abort_task_ok server t : task_ok t -> task_ok (abort server t).
Proof.
  intros K. pose proof K as [R I E Re P W]. unfold abort. destruct (blocked_on server t) eqn:Eb; [| done].
  apply andb_true_iff in Eb as [Eb _]. apply andb_true_iff in Eb as [Eb _]. apply bool_decide_eq_true in Eb.
  constructor; cbn [answered state set_state set_reply reply inbox reaped on_cpu pinned_cpu]; try done.
  intros H. destruct (Re H). congruence.
Qed.

Lemma abort_send_ok server t : send_ok t -> send_ok (abort server t).
Proof.
  intros K. unfold abort. destruct (blocked_on server t); [| done].
  right. cbn. split; [by eexists | by left].
Qed.

Lemma abort_waiting server t :
  task_ok t -> state (abort server t) = WaitingReply ->
  abort server t = t /\ state t = WaitingReply /\ wait_for t <> server.
Proof.
  intros K. unfold abort. destruct (blocked_on server t) eqn:Eb; [done |]. intros Hw.
  split; [done |]. split; [done |]. intros He. unfold blocked_on in Eb.
  rewrite bool_decide_eq_true_2, He, Z.eqb_refl, (tk_waiting _ K Hw), bool_decide_eq_true_2 in Eb by done. done.
Qed.

Lemma exit_task_ok t c : task_ok t -> on_cpu t = Some c -> task_ok (exit_task t).
Proof.
  intros [R I E Re P W] Hc.
  constructor; cbn [exit_task state set_state set_inbox reply inbox reaped on_cpu pinned_cpu]; try done.
  intros H. destruct (Re H). congruence.
Qed.

Lemma live_exit s me t x :
  (forall i j u v, task_at s i u -> task_at s j v -> id u = id v -> i = j) ->
  task_at s me t -> live s x -> x <> id t ->
  live (set_tasks s (map (abort (id t)) (alter exit_task me (tasks s)))) x.
Proof.
  intros Ids Ht (j & u & Hu & Hx & Hl) Hne.
  assert (j <> me) as Hj by (intros ->; unfold task_at in *; congruence).
  destruct (abort_fields (id t) u) as (F1 & _ & _ & _ & _ & F2).
  exists j, (abort (id t) u). split_and!.
  - unfold task_at. cbn [set_tasks tasks]. rewrite list_lookup_fmap, list_lookup_alter_ne by done.
    unfold task_at in Hu. by rewrite Hu.
  - congruence.
  - by rewrite F2.
Qed.

(** A task after [mark_exited]: it was the exiting one, or it is another, aborted if it waited. *)
Lemma exit_lookup s me t j t' :
  task_at s me t ->
  task_at (set_tasks s (map (abort (id t)) (alter exit_task me (tasks s)))) j t' ->
  (j = me /\ t' = exit_task t) \/ (j <> me /\ exists u, task_at s j u /\ t' = abort (id t) u).
Proof.
  unfold task_at. cbn [set_tasks tasks]. intros Ht. rewrite list_lookup_fmap. intros (u & Hu & ->)%fmap_Some.
  destruct (decide (j = me)) as [-> |].
  - left. rewrite list_lookup_alter_eq, Ht in Hu. injection Hu as <-. split; [done |].
    unfold abort, blocked_on. by rewrite bool_decide_eq_false_2.
  - right. rewrite list_lookup_alter_ne in Hu by done. split; [done |]. by exists u.
Qed.

Lemma mark_exited_spec s snd cpu me t :
  sched_ok s snd -> runs_on s cpu me t -> state t = Running -> id t ∉ snd -> priority t <> PRIORITY_IDLE ->
  exists kick s', mark_exited s cpu = Ok (kick, s') /\ sched_ok s' snd
    /\ task_at s' me (exit_task t)
    /\ (forall j u, j <> me -> task_at s j u -> task_at s' j (abort (id t) u)).
Proof.
  intros OK Hrun Hst Hin Hp. destruct (mark_exited_state _ _ _ _ Hrun) as [kick E].
  destruct Hrun as (pc & Hc & Hreg & Hcurr & Ht). exists kick.
  eexists. split; [exact E |]. set (s' := set_tasks s _).
  assert (on_cpu t = Some (Z.of_nat cpu)) as Hon.
  { destruct (so_cur _ _ OK cpu pc Hc Hreg) as (i & u & Hi & Hu & Ho).
    assert (i = me) as -> by congruence. unfold task_at in *. congruence. }
  split; [| split].
  - apply (sched_ok_pointwise s); [done | done | done | | | |].
    + unfold s'. cbn [set_tasks tasks]. apply Forall2_fmap_r. apply Forall2_same_length_lookup.
      split; [by rewrite length_alter |]. intros j u v Hu Hv.
      destruct (decide (j = me)) as [-> | Hne].
      * rewrite list_lookup_alter_eq, Hu in Hv. injection Hv as <-.
        assert (u = t) as -> by (unfold task_at in *; congruence).
        destruct (abort_fields (id t) (exit_task t)) as (F1 & F2 & F3 & F4 & _).
        split_and!; [done | done | done | done |]. intros Hp'. by destruct (Hp Hp').
      * rewrite list_lookup_alter_ne, Hu in Hv by done. injection Hv as <-.
        destruct (abort_fields (id t) u) as (F1 & F2 & F3 & F4 & F5 & _).
        split_and!; [done | done | done | done |]. intros _ Hs. destruct F5 as [-> | ->]; auto.
    + intros j t' [(-> & ->) | (Hne & u & Hu & ->)]%(exit_lookup _ _ _ _ _ Ht).
      * eapply exit_task_ok; [by eapply so_task | done].
      * apply abort_task_ok. by eapply so_task.
    + intros j t' [(-> & ->) | (Hne & u & Hu & ->)]%(exit_lookup _ _ _ _ _ Ht) Hw; [done |].
      apply abort_waiting in Hw as (-> & Hw & Hf); [| by eapply so_task].
      destruct (so_wait _ _ OK j u Hu Hw) as [H1 H2]. split; [done |].
      eapply live_exit; eauto using so_ids.
    + intros j t' [(-> & ->) | (Hne & u & Hu & ->)]%(exit_lookup _ _ _ _ _ Ht) Hi; [done |].
      apply abort_send_ok. eapply so_snd; [done | done |].
      by destruct (abort_fields (id t) u) as (<- & _).
  - unfold task_at, s'. cbn [set_tasks tasks]. rewrite list_lookup_fmap, list_lookup_alter_eq.
    unfold task_at in Ht. by rewrite Ht.
  - intros j u Hne Hu. unfold task_at, s'. cbn [set_tasks tasks].
    rewrite list_lookup_fmap, list_lookup_alter_ne by done. unfold task_at in Hu. by rewrite Hu.
Qed.

(** * Reaping *)

Definition resources (t : TaskControlBlock) : Reapable :=
  mkReapable (kstack_phys t) (kernel_stack_bottom t) (address_space t) (user_slot t).
(** A task and what a reaper pass makes of it. *)
Definition reap_step (t t' : TaskControlBlock) : Prop :=
  t' = t \/ (collectable t = true /\ t' = set_reaped t).
Definition unreaped (t : TaskControlBlock) : bool := bool_decide (state t = Exited) && negb (reaped t).

Lemma collectable_reaped t : collectable (set_reaped t) = false.
Proof. unfold collectable. cbn. by rewrite andb_false_r. Qed.
Lemma collectable_spec t : collectable t = true <-> state t = Exited /\ reaped t = false /\ on_cpu t = None.
Proof.
  unfold collectable. rewrite !andb_true_iff, !negb_true_iff, bool_decide_eq_true, bool_decide_eq_false.
  rewrite <- eq_None_not_Some. tauto.
Qed.
Lemma collectable_unreaped t : collectable t = true -> unreaped t = true.
Proof. intros (H1 & H2 & _)%collectable_spec. unfold unreaped. by rewrite bool_decide_eq_true_2, H2. Qed.

Lemma collect_spec : forall room ts,
  let '(out, ts') := collect room ts in
  out = map resources (take room (List.filter collectable ts))
  /\ Forall2 reap_step ts ts'
  /\ List.filter collectable ts' = drop room (List.filter collectable ts)
  /\ (length (List.filter unreaped ts') + length out = length (List.filter unreaped ts))%nat.
Proof.
  intros room ts. revert room. induction ts as [| t ts IH]; intros room.
  { cbn. destruct room; done. }
  cbn [collect List.filter]. destruct (collectable t) eqn:Ec.
  - destruct room as [| room'].
    + split_and!; [done | | by cbn [List.filter]; rewrite Ec | cbn; lia].
      apply Forall_Forall2_diag, Forall_true. intros x. by left.
    + specialize (IH room'). destruct (collect room' ts) as [out ts']. destruct IH as (-> & F & Hf & Hu).
      split_and!.
      * done.
      * constructor; [right; done | done].
      * cbn [List.filter]. rewrite collectable_reaped. done.
      * cbn [List.filter]. rewrite (collectable_unreaped t Ec).
        replace (unreaped (set_reaped t)) with false by (unfold unreaped; cbn; by rewrite andb_false_r).
        cbn [length map]. lia.
  - specialize (IH room). destruct (collect room ts) as [out ts']. destruct IH as (-> & F & Hf & Hu).
    split_and!.
    + done.
    + constructor; [by left | done].
    + cbn [List.filter]. by rewrite Ec.
    + cbn [List.filter]. destruct (unreaped t); cbn [length]; lia.
Qed.

Lemma reap_step_seat t t' : reap_step t t' -> same_seat t t' /\ state t' = state t.
Proof.
  intros [-> | [(H1 & _ & _)%collectable_spec ->]]; [split; [split_and!; auto | done] |].
  split; [| done]. split_and!; auto.
Qed.

Lemma reap_step_ok t t' : reap_step t t' -> task_ok t -> task_ok t'.
Proof.
  intros [-> | [(H1 & _ & H2)%collectable_spec ->]]; [done |]. intros [R I E Re P W].
  by constructor; cbn [state set_reaped reply inbox reaped on_cpu pinned_cpu].
Qed.

Lemma live_pointwise s s' x :
  Forall2 (fun t t' => id t' = id t /\ (state t' = Exited -> state t = Exited)) (tasks s) (tasks s') ->
  live s x -> live s' x.
Proof.
  intros F (i & t & Ht & Hx & Hl). eapply Forall2_lookup_l in F as (t' & Ht' & H1 & H2); [| exact Ht].
  exists i, t'. split_and!; [done | congruence | auto].
Qed.

Lemma collect_exited_ok s snd : sched_ok s snd -> sched_ok (collect_exited s).2 snd.
Proof.
  intros OK. unfold collect_exited. pose proof (collect_spec 16 (tasks s)) as H.
  destruct (collect 16 (tasks s)) as [out ts']. destruct H as (_ & F & _ & _). cbn [Datatypes.snd].
  set (s' := set_reaping _ _).
  assert (forall i t', task_at s' i t' -> exists t, task_at s i t /\ reap_step t t') as Hb.
  { intros i t' H. by eapply Forall2_lookup_r in F as (t & H1 & H2); eauto. }
  apply (sched_ok_pointwise s); [done | done | done | | | |].
  - eapply Forall2_impl; [exact F |]. by intros t t' [H _]%reap_step_seat.
  - intros i t' (t & Ht & R)%Hb. eapply reap_step_ok; [exact R |]. by eapply so_task.
  - intros i t' (t & Ht & R)%Hb Hw. pose proof (reap_step_seat _ _ R) as [(E1 & _) E2].
    assert (t' = t) as -> by (destruct R as [-> | [(? & _)%collectable_spec ->]]; [done | congruence]).
    destruct (so_wait _ _ OK i t Ht Hw) as [H1 H2]. split; [done |].
    eapply live_pointwise; [| exact H2]. eapply Forall2_impl; [exact F |].
    intros u u' R'. destruct (reap_step_seat _ _ R') as [(? & _) ->]. done.
  - intros i t' (t & Ht & R)%Hb Hin. pose proof (reap_step_seat _ _ R) as [(E1 & _) E2]. rewrite E1 in Hin.
    pose proof (so_snd _ _ OK i t Ht Hin) as Hs. destruct R as [-> | [(? & _)%collectable_spec ->]]; [done |].
    exfalso. destruct Hs as [? | [_ [? | ?]]]; congruence.
Qed.

(** * Picking and switching *)

Definition wake (now : Z) (t : TaskControlBlock) : TaskControlBlock :=
  if due now t then set_state t Ready else t.

Lemma wake_sleepers_ok now s snd : sched_ok s snd -> sched_ok (set_tasks s (map (wake now) (tasks s))) snd.
Proof.
  intros OK. set (s' := set_tasks s _).
  assert (forall t, due now t = true -> state t = Sleeping) as Hd.
  { intros t [H _]%andb_true_iff. by apply bool_decide_eq_true in H. }
  assert (forall i t', task_at s' i t' -> exists t, task_at s i t /\ t' = wake now t) as Hb.
  { intros i t' H. unfold task_at, s' in *. cbn [set_tasks tasks] in H. rewrite list_lookup_fmap in H.
    apply fmap_Some in H as (t & Ht & ->). eauto. }
  assert (forall t, id (wake now t) = id t /\ (state (wake now t) = Exited -> state t = Exited)) as Hw.
  { intros t. unfold wake. by destruct (due now t). }
  apply (sched_ok_pointwise s); [done | done | done | | | |].
  - apply Forall2_fmap_r, Forall_Forall2_diag, Forall_true. intros t. unfold compose, wake. cbv beta.
    unfold same_seat. destruct (due now t); split_and!; cbn [id state set_state priority pinned_cpu on_cpu]; auto.
  - intros i t' (t & Ht & ->)%Hb. unfold wake. destruct (due now t) eqn:E; [| by eapply so_task].
    eapply task_ok_wake; [| | by eapply so_task | by apply Hd]; done.
  - intros i t' (t & Ht & ->)%Hb Hs. unfold wake in *. destruct (due now t) eqn:E; [done |].
    destruct (so_wait _ _ OK i t Ht Hs) as [H1 H2]. split; [done |].
    eapply live_pointwise; [| exact H2]. apply Forall2_fmap_r, Forall_Forall2_diag, Forall_true. auto.
  - intros i t' (t & Ht & ->)%Hb Hin. rewrite (proj1 (Hw t)) in Hin.
    pose proof (so_snd _ _ OK i t Ht Hin) as Hs. unfold wake. destruct (due now t) eqn:E; [| done].
    apply Hd in E. exfalso. destruct Hs as [? | [_ [? | ?]]]; congruence.
Qed.

Lemma eligible_spec cpu t :
  eligible cpu t = true <->
    state t = Ready /\ on_cpu t = None /\ priority t <> PRIORITY_IDLE
    /\ (pinned_cpu t = None \/ pinned_cpu t = Some (Z.of_nat cpu)).
Proof.
  unfold eligible. rewrite !andb_true_iff, !bool_decide_eq_true, negb_true_iff, Z.eqb_neq.
  destruct (pinned_cpu t) as [p |]; [rewrite Z.eqb_eq |]; naive_solver.
Qed.

(** ** The round-robin scan *)

(** How many places after the cursor [c] index [i] comes, from 1 to [n]. *)
Definition rr_dist (n c i : nat) : nat :=
  let r := (c mod n)%nat in if (r <? i)%nat then (i - r)%nat else (i + n - r)%nat.

Lemma rr_dist_spec n c i :
  (i < n)%nat -> (1 <= rr_dist n c i <= n)%nat /\ ((c + rr_dist n c i) mod n = i)%nat.
Proof.
  intros Hi. unfold rr_dist. pose proof (Nat.mod_upper_bound c n ltac:(lia)) as Hr.
  pose proof (Nat.div_mod_eq c n) as Hq.
  destruct (Nat.ltb_spec (c mod n) i).
  - split; [lia |]. symmetry. apply (Nat.mod_unique _ _ (c / n)); lia.
  - split; [lia |]. symmetry. apply (Nat.mod_unique _ _ (c / n + 1)); [lia |]. nia.
Qed.

Lemma rr_dist_unique n c i k : (i < n)%nat -> (1 <= k <= n)%nat -> ((c + k) mod n = i)%nat -> k = rr_dist n c i.
Proof.
  intros Hi Hk Hm. unfold rr_dist. pose proof (Nat.mod_upper_bound c n ltac:(lia)) as Hr.
  pose proof (Nat.div_mod_eq c n) as Hq. pose proof (Nat.div_mod_eq (c + k) n) as Hq'. rewrite Hm in Hq'.
  set (q := (c / n)%nat) in *. set (q' := ((c + k) / n)%nat) in *.
  assert (n * q' + i = n * q + c mod n + k)%nat as E by lia.
  assert (q' = q \/ q' = S q) as [-> | ->] by nia.
  - destruct (Nat.ltb_spec (c mod n) i); lia.
  - destruct (Nat.ltb_spec (c mod n) i); lia.
Qed.

Lemma pick_next_spec s cpu :
  let n := length (tasks s) in
  (exists i t, pick_next s cpu = (i, set_cursor s i) /\ task_at s i t /\ eligible cpu t = true
     /\ forall j u, task_at s j u -> eligible cpu u = true -> (rr_dist n (rr_cursor s) i <= rr_dist n (rr_cursor s) j)%nat)
  \/ (pick_next s cpu = (idle_idx (cpus s !!! cpu), s) /\ forall j u, task_at s j u -> eligible cpu u = false).
Proof.
  set (n := length (tasks s)). cbv zeta. unfold pick_next. fold n.
  set (order := map (fun offset => (rr_cursor s + offset) mod n)%nat (seq 1 n)).
  assert (forall k, (k < n)%nat -> order !! k = Some ((rr_cursor s + S k) mod n)%nat) as Ho.
  { intros k Hk. unfold order. rewrite list_lookup_fmap, lookup_seq_lt by lia. by cbn. }
  assert (length order = n) as Hlo by (unfold order; by rewrite length_map, length_seq).
  assert (forall j u, task_at s j u -> (j < n)%nat /\ order !! (rr_dist n (rr_cursor s) j - 1)%nat = Some j) as Hj.
  { intros j u Hu. assert (j < n)%nat as Hlt by (unfold n; by eapply lookup_lt_Some).
    destruct (rr_dist_spec n (rr_cursor s) j Hlt) as [Hd Hm]. split; [done |].
    rewrite Ho by lia. do 2 f_equal. rewrite <- Hm at 2. do 2 f_equal. lia. }
  destruct (List.find _ order) as [i |] eqn:E.
  - left. apply List_find_first in E as (k & Hk & Hp & Hmin).
    assert (k < n)%nat as Hkn by (rewrite <- Hlo; by eapply lookup_lt_Some).
    pose proof Hk as Hk'. rewrite Ho in Hk' by done. injection Hk' as Hi.
    assert (i < n)%nat as Hin by (rewrite <- Hi; apply Nat.mod_upper_bound; lia).
    destruct (lookup_lt_is_Some_2 (tasks s) i Hin) as [t Ht].
    exists i, t. split; [done |]. split; [done |]. rewrite (task_total s i t Ht) in Hp. split; [done |].
    intros j u Hu Hel. rewrite <- (rr_dist_unique n (rr_cursor s) i (S k)) by (done || lia).
    destruct (Hj j u Hu) as [Hjn Hlk]. destruct (rr_dist_spec n (rr_cursor s) j Hjn) as [Hd _].
    destruct (decide (rr_dist n (rr_cursor s) j - 1 < k)%nat) as [Hlt |]; [| lia].
    specialize (Hmin _ _ Hlk Hlt). rewrite (task_total s j u Hu) in Hmin. congruence.
  - right. split; [done |]. intros j u Hu. destruct (Hj j u Hu) as [_ Hlk].
    rewrite <- (task_total s j u Hu).
    apply (List.find_none _ _ E). apply list_elem_of_In. by eapply list_elem_of_lookup_2.
Qed.

(** Successive picks, on any CPUs and with any changes between them that keep the
    task list and the cursor, that pass over task [i] although it is eligible. *)
Inductive overtaken (n i : nat) : nat -> list (Scheduler * nat) -> Prop :=
| ov_nil c : overtaken n i c []
| ov_cons s cpu l :
    length (tasks s) = n -> eligible cpu (tasks s !!! i) = true -> (pick_next s cpu).1 <> i ->
    overtaken n i (rr_cursor (pick_next s cpu).2) l -> overtaken n i (rr_cursor s) ((s, cpu) :: l).

Lemma rr_dist_advance n c i j :
  (i < n)%nat -> (j < n)%nat -> i <> j -> (rr_dist n c j <= rr_dist n c i)%nat ->
  rr_dist n j i = (rr_dist n c i - rr_dist n c j)%nat /\ (rr_dist n c j < rr_dist n c i)%nat.
Proof.
  intros Hi Hj Hne Hle.
  destruct (rr_dist_spec n c i Hi) as [Hd Hm]. destruct (rr_dist_spec n c j Hj) as [Hd' Hm'].
  assert (rr_dist n c j <> rr_dist n c i) by (intros E; rewrite E in Hm'; congruence).
  split; [| lia]. symmetry. apply rr_dist_unique; [done | lia |].
  rewrite <- Hm' at 1. rewrite Nat.Div0.add_mod_idemp_l. rewrite <- Hm at 2. f_equal. lia.
Qed.

Lemma overtaken_bound n i c l : (i < n)%nat -> overtaken n i c l -> (length l < rr_dist n c i)%nat.
Proof.
  intros Hi. induction 1 as [c | s cpu l Hn Hel Hp _ IH].
  - cbn [length]. destruct (rr_dist_spec n c i Hi). lia.
  - destruct (lookup_lt_is_Some_2 (tasks s) i) as [t Ht]; [lia |].
    rewrite (task_total s i t Ht) in Hel.
    destruct (pick_next_spec s cpu) as [(j & u & E & Hu & _ & Hmin) | [_ Hnone]];
      [| specialize (Hnone i t Ht); congruence].
    rewrite E in *. cbn [fst snd set_cursor rr_cursor] in *.
    assert (j < n)%nat as Hj by (rewrite <- Hn; by eapply lookup_lt_Some).
    specialize (Hmin i t Ht Hel). rewrite Hn in Hmin.
    destruct (rr_dist_advance n (rr_cursor s) i j Hi Hj ltac:(congruence) Hmin).
    destruct (rr_dist_spec n (rr_cursor s) j Hj). cbn [length]. lia.
Qed.

(** ** Switching tasks *)

Definition switch (s : Scheduler) (cpu cur : nat) (rsp : Z) (timer : bool) : Scheduler :=
  let s1 := update s cur (fun t => save_context t rsp timer) in
  let '(next, s2) := pick_next s1 cpu in
  let s3 := update s2 next (fun t => set_running t (Z.of_nat cpu)) in
  let c := cpus s3 !!! cpu in
  set_cpu s3 cpu (mkPerCpu (registered c) (hw_id c) (Some next) (idle_idx c)).

Lemma save_task_ok t rsp timer c : task_ok t -> on_cpu t = Some c -> task_ok (save_context t rsp timer).
Proof.
  intros [R I E Re P W] Hc.
  constructor; cbn [save_context state reply inbox reaped on_cpu pinned_cpu]; try done.
  - by case_decide.
  - case_decide; [done | exact E].
  - intros H. destruct (Re H). congruence.
  - case_decide; [done | exact W].
Qed.

Lemma save_send_ok t rsp timer : send_ok t -> send_ok (save_context t rsp timer).
Proof.
  unfold send_ok. cbn [save_context state reply].
  intros [H | [H1 H2]]; case_decide; try congruence; [by left | right; auto | right; auto].
Qed.

(** The task [pick_next] chooses after a save: it is runnable here and on no CPU. *)
Lemma pick_after_save s snd cpu cur pc t rsp timer :
  sched_ok s snd -> cpu_at s cpu pc -> registered pc = true -> current pc = Some cur -> task_at s cur t ->
  exists next u cursor,
    pick_next (update s cur (fun t => save_context t rsp timer)) cpu
      = (next, set_cursor (update s cur (fun t => save_context t rsp timer)) cursor)
    /\ task_at (update s cur (fun t => save_context t rsp timer)) next u
    /\ on_cpu u = None /\ state u = Ready /\ (forall p, pinned_cpu u = Some p -> p = Z.of_nat cpu).
Proof.
  intros OK Hc Hreg Hcur Ht. set (s1 := update s cur _).
  destruct (pick_next_spec s1 cpu) as [(i & u & E & Hu & Hel & _) | [E _]].
  - exists i, u, i. split; [exact E |]. split; [done |].
    apply eligible_spec in Hel as (H1 & H2 & _ & H3). split_and!; [done | done |].
    intros p Hp. destruct H3; congruence.
  - replace (cpus s1 !!! cpu) with pc in E by (symmetry; by apply cpu_total).
    destruct (so_idle _ _ OK cpu pc Hc Hreg) as (w & Hw & _ & Hpin & Hst).
    assert (exists u, task_at s1 (idle_idx pc) u /\ on_cpu u = None /\ state u = Ready /\ pinned_cpu u = pinned_cpu w)
      as (u & Hu & H1 & H2 & H3).
    { destruct (decide (idle_idx pc = cur)) as [He | Hne].
      - exists (save_context w rsp timer). split; [apply update_lookup; left; rewrite He in *; eauto |].
        split; [done |]. split; [| done]. cbn [save_context state]. case_decide; [done |]. by destruct Hst.
      - exists w. split; [apply update_lookup; right; auto |].
        assert (on_cpu w = None) as Hno.
        { destruct (on_cpu w) as [c |] eqn:Eo; [exfalso | done].
          pose proof (tk_pin _ (so_task _ _ OK _ _ Hw) _ _ Hpin Eo) as ->.
          destruct (so_on _ _ OK _ _ _ Hw Eo) as (pc' & _ & Hc' & _ & Hcur').
          rewrite Nat2Z.id in Hc'. unfold cpu_at in *. congruence. }
        split; [done |]. split; [| done]. destruct Hst as [H | H]; [done |].
        destruct (tk_running _ (so_task _ _ OK _ _ Hw) H). congruence. }
    exists (idle_idx pc), u, (rr_cursor s1). split; [rewrite E; by destruct s |].
    split_and!; try done. intros p Hp. rewrite H3, Hpin in Hp. by injection Hp.
Qed.

(** What [switch] leaves at each index. *)
Definition switched (s : Scheduler) (cpu cur : nat) (rsp : Z) (timer : bool) (next : nat) (u : TaskControlBlock)
  (s' : Scheduler) : Prop :=
  (exists pc, cpu_at s cpu pc
     /\ cpus s' = <[cpu := mkPerCpu (registered pc) (hw_id pc) (Some next) (idle_idx pc)]> (cpus s))
  /\ next_task_id s' = next_task_id s
  /\ task_at s' next (set_running u (Z.of_nat cpu))
  /\ (forall j t', task_at s' j t' -> j <> next ->
        exists t, task_at s j t /\ (j = cur /\ t' = save_context t rsp timer \/ j <> cur /\ t' = t))
  /\ (forall j t, task_at s j t -> j <> next ->
        task_at s' j (if decide (j = cur) then save_context t rsp timer else t)).

Lemma switch_state s snd cpu cur pc t rsp timer :
  sched_ok s snd -> cpu_at s cpu pc -> registered pc = true -> current pc = Some cur -> task_at s cur t ->
  exists next u v, task_at s next v
    /\ (next = cur /\ u = save_context v rsp timer \/ next <> cur /\ u = v)
    /\ on_cpu u = None /\ state u = Ready /\ (forall p, pinned_cpu u = Some p -> p = Z.of_nat cpu)
    /\ switched s cpu cur rsp timer next u (switch s cpu cur rsp timer).
Proof.
  intros OK Hc Hreg Hcur Ht.
  destruct (pick_after_save s snd cpu cur pc t rsp timer OK Hc Hreg Hcur Ht) as (next & u & cursor & E & Hu & H1 & H2 & H3).
  assert (exists v, task_at s next v /\ (next = cur /\ u = save_context v rsp timer \/ next <> cur /\ u = v)) as (v & Hv & Huv).
  { apply update_lookup in Hu as [(-> & v & Hv & ->) | [Hne Hv]]; eauto. }
  exists next, u, v. do 5 (split; [done |]). unfold switch. rewrite E.
  set (s1 := update s cur _) in *. set (s3 := update (set_cursor s1 cursor) next _).
  assert (task_at s3 next (set_running u (Z.of_nat cpu))) as Hn by (apply update_lookup; left; eauto).
  split; [exists pc; split; [done |]; cbn [set_cpu cpus s3 update set_tasks set_cursor s1]; by rewrite (cpu_total s cpu pc Hc) |].
  split; [done |]. split; [exact Hn |]. split.
  - intros j t' [(? & _) | [Hne H]]%(update_lookup (set_cursor s1 cursor)) Hj; [done |].
    apply (update_lookup s) in H as [(-> & w & Hw & ->) | [Hne' H]]; [exists w; auto | exists t'; auto].
  - intros j w Hw Hj. apply (update_lookup (set_cursor s1 cursor)). right. split; [done |].
    apply (update_lookup s). case_decide as Hd; [left | right]; subst; eauto.
Qed.

(** The invariant after a switch, clause by clause. *)
Section Switch.
Context (s : Scheduler) (snd : gset Z) (cpu cur : nat) (pc : PerCpu) (t : TaskControlBlock) (rsp : Z) (timer : bool).
Context (OK : sched_ok s snd) (Hc : cpu_at s cpu pc) (Hreg : registered pc = true)
  (Hcur : current pc = Some cur) (Ht : task_at s cur t).
Context (s' : Scheduler) (next : nat) (u v : TaskControlBlock) (Hv : task_at s next v)
  (Huv : next = cur /\ u = save_context v rsp timer \/ next <> cur /\ u = v)
  (Hno : on_cpu u = None) (Hrdy : state u = Ready) (Hpin : forall p, pinned_cpu u = Some p -> p = Z.of_nat cpu)
  (Hsw : switched s cpu cur rsp timer next u s').

Let new_pc := mkPerCpu (registered pc) (hw_id pc) (Some next) (idle_idx pc).

Lemma sw_cpus : cpus s' = <[cpu := new_pc]> (cpus s).
Proof.
  destruct Hsw as ((pc0 & Hc0 & E) & _). assert (pc0 = pc) as -> by (unfold cpu_at in *; congruence). exact E.
Qed.
Lemma sw_cpu_lt : (cpu < length (cpus s))%nat.
Proof. by eapply lookup_lt_Some. Qed.
Lemma sw_cpu_same pc' : cpu_at s' cpu pc' <-> pc' = new_pc.
Proof.
  unfold cpu_at. rewrite sw_cpus, list_lookup_insert_eq by apply sw_cpu_lt. split; [by intros [= ->] | by intros ->].
Qed.
Lemma sw_cpu_other c pc' : c <> cpu -> cpu_at s' c pc' <-> cpu_at s c pc'.
Proof. intros Hne. unfold cpu_at. by rewrite sw_cpus, list_lookup_insert_ne by done. Qed.

Lemma sw_on_cpu : on_cpu t = Some (Z.of_nat cpu).
Proof.
  destruct (so_cur _ _ OK cpu pc Hc Hreg) as (i & w & Hi & Hw & Ho). assert (i = cur) as -> by congruence.
  unfold task_at in *. congruence.
Qed.
Lemma sw_next t' : task_at s' next t' -> t' = set_running u (Z.of_nat cpu).
Proof. destruct Hsw as (_ & _ & Hn & _). unfold task_at in *. congruence. Qed.
Lemma sw_other j t' : task_at s' j t' -> j <> next ->
  exists t0, task_at s j t0 /\ (j = cur /\ t0 = t /\ t' = save_context t rsp timer \/ j <> cur /\ t' = t0).
Proof.
  destruct Hsw as (_ & _ & _ & Hb & _). intros H Hne.
  destruct (Hb j t' H Hne) as (t0 & H0 & [[-> ->] | [Hjc ->]]); exists t0; (split; [done |]); [left | by right].
  assert (t0 = t) as -> by (unfold task_at in *; congruence). done.
Qed.
Lemma sw_fields : id u = id v /\ priority u = priority v /\ pinned_cpu u = pinned_cpu v.
Proof. destruct Huv as [[_ ->] | [_ ->]]; done. Qed.

Lemma sw_id j t' : task_at s' j t' -> exists t0, task_at s j t0 /\ id t' = id t0.
Proof.
  intros H. destruct (decide (j = next)) as [-> | Hne].
  - exists v. rewrite (sw_next t' H). destruct sw_fields as (E & _). done.
  - destruct (sw_other j t' H Hne) as (t0 & H0 & [(-> & -> & ->) | [_ ->]]); [by exists t | by exists t0].
Qed.

Lemma sw_live x : live s x -> live s' x.
Proof.
  destruct Hsw as (_ & _ & Hn & _ & Hf). intros (j & w & Hw & Hx & Hl).
  destruct (decide (j = next)) as [-> | Hne].
  - exists next, (set_running u (Z.of_nat cpu)). split; [done |]. cbn. split; [| done].
    destruct sw_fields as (E & _). unfold task_at in *. congruence.
  - exists j, (if decide (j = cur) then save_context w rsp timer else w). split; [by apply Hf |].
    case_decide; [| done]. cbn. split; [done |]. by case_decide.
Qed.

Lemma sw_so_cur c pc' : cpu_at s' c pc' -> registered pc' = true ->
  exists i w, current pc' = Some i /\ task_at s' i w /\ on_cpu w = Some (Z.of_nat c).
Proof.
  destruct Hsw as (_ & _ & Hn & _ & Hf). intros Hc' Hr. destruct (decide (c = cpu)) as [-> | Hne].
  - apply sw_cpu_same in Hc' as ->. exists next, (set_running u (Z.of_nat cpu)). done.
  - apply sw_cpu_other in Hc'; [| done]. destruct (so_cur _ _ OK c pc' Hc' Hr) as (i & w & Hi & Hw & Ho).
    assert (i <> cur) as Hic.
    { intros ->. assert (w = t) as -> by (unfold task_at in *; congruence). rewrite sw_on_cpu in Ho. injection Ho. lia. }
    assert (i <> next) as Hin.
    { intros ->. assert (w = v) as -> by (unfold task_at in *; congruence). destruct Huv as [[? _] | [_ ->]]; congruence. }
    exists i, w. split; [done |]. split; [| done]. pose proof (Hf i w Hw Hin) as H. by rewrite decide_False in H.
Qed.

Lemma sw_so_idle c pc' : cpu_at s' c pc' -> registered pc' = true ->
  exists w, task_at s' (idle_idx pc') w /\ priority w = PRIORITY_IDLE
    /\ pinned_cpu w = Some (Z.of_nat c) /\ (state w = Ready \/ state w = Running).
Proof.
  destruct Hsw as (_ & _ & Hn & _ & Hf). intros Hc' Hr.
  assert (exists pcx, cpu_at s c pcx /\ registered pcx = true /\ idle_idx pcx = idle_idx pc') as (pcx & Hcx & Hrx & <-).
  { destruct (decide (c = cpu)) as [-> | Hne]; [apply sw_cpu_same in Hc' as ->; by exists pc |].
    apply sw_cpu_other in Hc'; eauto. }
  destruct (so_idle _ _ OK c pcx Hcx Hrx) as (w & Hw & Hp & Hpi & Hst). destruct sw_fields as (_ & E2 & E3).
  destruct (decide (idle_idx pcx = next)) as [He | Hne].
  - exists (set_running u (Z.of_nat cpu)). rewrite He in *. assert (w = v) as -> by (unfold task_at in *; congruence).
    cbn. split_and!; [done | congruence | congruence | by right].
  - eexists. split; [by apply (Hf _ w) |]. case_decide; [| done]. cbn. split_and!; [done | done |].
    case_decide; [by left | done].
Qed.

Lemma sw_so_on j t' c : task_at s' j t' -> on_cpu t' = Some c ->
  exists pc', 0 <= c /\ cpu_at s' (Z.to_nat c) pc' /\ registered pc' = true /\ current pc' = Some j.
Proof.
  intros H Ho. destruct (decide (j = next)) as [-> | Hne].
  - rewrite (sw_next t' H) in Ho. cbn in Ho. injection Ho as <-. rewrite Nat2Z.id. exists new_pc.
    split; [lia |]. split; [by apply sw_cpu_same | done].
  - destruct (sw_other j t' H Hne) as (t0 & H0 & [(_ & _ & ->) | [Hjc ->]]); [done |].
    destruct (so_on _ _ OK j t0 c H0 Ho) as (pcx & Hge & Hcx & Hrx & Hcurx). exists pcx. split; [done |].
    split; [| done]. apply sw_cpu_other; [| done].
    intros E. rewrite E in Hcx. apply Hjc. unfold cpu_at in *. congruence.
Qed.

Lemma sw_so_task j t' : task_at s' j t' -> task_ok t'.
Proof.
  assert (task_ok (save_context t rsp timer)) as Ks
    by (eapply save_task_ok; [by eapply so_task | apply sw_on_cpu]).
  intros H. destruct (decide (j = next)) as [-> | Hne].
  - rewrite (sw_next t' H). assert (task_ok u) as [R I E Re P W].
    { destruct Huv as [[En ->] | [_ ->]]; [| by eapply so_task].
      assert (v = t) as -> by (unfold task_at in *; congruence). done. }
    constructor; cbn; try done.
    + intros Hr. destruct (Re Hr). congruence.
    + intros p c Hp [= <-]. symmetry. by apply Hpin.
  - destruct (sw_other j t' H Hne) as (t0 & H0 & [(_ & _ & ->) | [Hjc ->]]); [done | by eapply so_task].
Qed.

Lemma sw_so_wait j t' : task_at s' j t' -> state t' = WaitingReply -> id t' ∈ snd /\ live s' (wait_for t').
Proof.
  intros H Hst. destruct (decide (j = next)) as [-> | Hne]; [by rewrite (sw_next t' H) in Hst |].
  destruct (sw_other j t' H Hne) as (t0 & H0 & [(_ & -> & ->) | [Hjc ->]]).
  - cbn in Hst |- *. case_decide; [done |]. destruct (so_wait _ _ OK _ _ H0 Hst). auto using sw_live.
  - destruct (so_wait _ _ OK _ _ H0 Hst). auto using sw_live.
Qed.

Lemma sw_so_snd j t' : task_at s' j t' -> id t' ∈ snd -> send_ok t'.
Proof.
  intros H Hin. destruct (decide (j = next)) as [-> | Hne].
  - rewrite (sw_next t' H) in *. cbn in Hin. destruct sw_fields as (E & _). rewrite E in Hin.
    pose proof (so_snd _ _ OK _ _ Hv Hin) as Hs.
    assert (send_ok u) as Hs' by (destruct Huv as [[_ ->] | [_ ->]]; [by apply save_send_ok | done]).
    destruct Hs' as [? | [Hr _]]; [congruence |]. right. cbn. auto.
  - destruct (sw_other j t' H Hne) as (t0 & H0 & [(_ & -> & ->) | [Hjc ->]]); [apply save_send_ok |];
      by eapply so_snd.
Qed.

Lemma switched_ok : sched_ok s' snd.
Proof.
  destruct Hsw as (_ & Enext & _).
  constructor; [| | | | exact sw_so_cur | exact sw_so_idle | exact sw_so_on | exact sw_so_task
                | exact sw_so_wait | exact sw_so_snd | | rewrite Enext; by eapply so_next].
  - rewrite sw_cpus, length_insert. apply (so_cpus _ _ OK).
  - intros j t' (t0 & H0 & ->)%sw_id. rewrite Enext. by eapply so_id.
  - intros i j a b (t0 & H0 & ->)%sw_id (t1 & H1 & ->)%sw_id. by eapply so_ids.
  - intros c pc' Hc' Hr. destruct (decide (c = cpu)) as [-> | Hne].
    + apply sw_cpu_same in Hc' as ->. cbn in Hr. congruence.
    + apply sw_cpu_other in Hc'; [| done]. by eapply so_unreg.
  - intros x Hx. rewrite Enext. by eapply so_snd_id.
Qed.
End Switch.

Lemma switch_ok s snd cpu cur pc t rsp timer :
  sched_ok s snd -> cpu_at s cpu pc -> registered pc = true -> current pc = Some cur -> task_at s cur t ->
  sched_ok (switch s cpu cur rsp timer) snd.
Proof.
  intros OK Hc Hreg Hcur Ht.
  destruct (switch_state s snd cpu cur pc t rsp timer OK Hc Hreg Hcur Ht)
    as (next & u & v & Hv & Huv & Hno & Hrdy & Hpin & Hsw).
  by eapply (switched_ok s snd cpu cur pc t rsp timer OK Hc Hreg Hcur Ht _ next u v).
Qed.

(** The clock and the sleepers, before the switch. *)
Definition ticked (s : Scheduler) (cpu : nat) (timer : bool) : Scheduler :=
  let s1 := if timer then set_clock s (tick_count s + 1) (if (cpu =? 0)%nat then jiffies s + 1 else jiffies s) else s in
  set_tasks s1 (map (wake (jiffies s1)) (tasks s1)).

Lemma ticked_ok s snd cpu timer : sched_ok s snd -> sched_ok (ticked s cpu timer) snd.
Proof.
  intros OK. unfold ticked. apply wake_sleepers_ok. destruct timer; [| done].
  by apply (sched_ok_ext s).
Qed.

Lemma ticked_cpus s cpu timer : cpus (ticked s cpu timer) = cpus s.
Proof. by destruct timer. Qed.

Lemma on_tick_switch ipi s cpu rsp timer pc cur :
  cpu_at s cpu pc -> registered pc = true -> current pc = Some cur -> tasks s <> [] ->
  exists fx next, current (cpus (switch (ticked s cpu timer) cpu cur rsp timer) !!! cpu) = Some next
    /\ on_tick ipi s cpu rsp timer
       = (context_ptr (tasks (switch (ticked s cpu timer) cpu cur rsp timer) !!! next),
          switch (ticked s cpu timer) cpu cur rsp timer, fx).
Proof.
  intros Hc Hreg Hcur Hne. unfold on_tick. rewrite (cpu_total s cpu pc Hc), Hreg.
  assert ((length (tasks s) =? 0)%nat = false) as -> by (apply Nat.eqb_neq; by destruct (tasks s)).
  cbn [negb orb].
  set (s1 := if timer then _ else s).
  assert (cpus s1 = cpus s) as Ec by (by destruct timer).
  cbn [set_tasks cpus]. rewrite Ec, (cpu_total s cpu pc Hc), Hcur.
  change (set_tasks s1 (map (fun t => if due (jiffies s1) t then set_state t Ready else t) (tasks s1)))
    with (ticked s cpu timer).
  unfold switch. destruct (pick_next (update (ticked s cpu timer) cur _) cpu) as [next s2] eqn:E.
  eexists _, next. split; [| reflexivity].
  assert (cpus s2 = cpus s) as E2.
  { destruct (pick_next_spec (update (ticked s cpu timer) cur (fun t => save_context t rsp timer)) cpu)
      as [(i & u & E' & _) | [E' _]]; rewrite E in E'; injection E' as -> ->; exact (ticked_cpus s cpu timer). }
  cbn [set_cpu cpus update set_tasks]. rewrite E2.
  rewrite list_lookup_total_insert_eq by (by eapply lookup_lt_Some). done.
Qed.

(** The task list only changes shape when tasks are added. *)
Definition ids (s : Scheduler) : list Z := map id (tasks s).

Lemma ids_update s i f : (forall t, id (f t) = id t) -> ids (update s i f) = ids s.
Proof.
  intros H. unfold ids, update. cbn [set_tasks tasks]. apply list_eq. intros j.
  rewrite !list_lookup_fmap. destruct (decide (j = i)) as [-> |].
  - rewrite list_lookup_alter_eq. destruct (tasks s !! i); cbn; [by rewrite H | done].
  - by rewrite list_lookup_alter_ne.
Qed.
Lemma ids_map s f : (forall t, id (f t) = id t) -> ids (set_tasks s (map f (tasks s))) = ids s.
Proof. intros H. unfold ids. cbn [set_tasks tasks]. rewrite map_map. by apply map_ext. Qed.
Lemma ids_switch s cpu cur rsp timer : ids (switch s cpu cur rsp timer) = ids s.
Proof.
  unfold switch. set (s1 := update s cur _). destruct (pick_next s1 cpu) as [next s2] eqn:E.
  assert (ids s2 = ids s1) as E2.
  { destruct (pick_next_spec s1 cpu) as [(i & u & E' & _) | [E' _]]; rewrite E in E'; by injection E' as -> ->. }
  transitivity (ids (update s2 next (fun t => set_running t (Z.of_nat cpu)))); [done |].
  rewrite ids_update by done. rewrite E2. by apply ids_update.
Qed.
Lemma ids_collect s : ids (collect_exited s).2 = ids s.
Proof.
  unfold collect_exited. pose proof (collect_spec 16 (tasks s)) as H.
  destruct (collect 16 (tasks s)) as [out ts']. destruct H as (_ & F & _ & _). unfold ids. cbn.
  induction F as [| t t' l l' R F IH]; cbn; [done |]. f_equal; [| done]. by apply reap_step_seat in R as [(-> & _) _].
Qed.
Lemma ids_elem s x : x ∈ ids s <-> exists i t, task_at s i t /\ id t = x.
Proof.
  unfold ids. rewrite elem_of_map. split.
  - intros (t & Hx & (i & Hi)%list_elem_of_lookup). exists i, t. by subst.
  - intros (i & t & Hi & Hx). exists t. split; [done |]. by eapply list_elem_of_lookup_2.
Qed.

(** * Adding tasks and CPUs *)

(** A freshly built task. *)
Definition new_task (t : TaskControlBlock) : Prop :=
  state t = Ready /\ on_cpu t = None /\ inbox t = [] /\ reaped t = false /\ pinned_cpu t = None.

Lemma new_task_ok t : new_task t -> task_ok t.
Proof. intros (H1 & H2 & H3 & H4 & H5). constructor; rewrite ?H1, ?H2, ?H3, ?H4, ?H5; done. Qed.

Lemma take_task_id_ok s snd tid s' :
  sched_ok s snd -> take_task_id s = Some (tid, s') -> sched_ok s' snd /\ tid = next_task_id s /\ next_task_id s' = tid + 1 /\ tasks s' = tasks s /\ cpus s' = cpus s.
Proof.
  intros [Lc Id Ids Ur Cu Il On Tk Wa Sn Si Np] E. unfold take_task_id in E. apply bind_Some in E as (n & Hn & [= <- <-]).
  apply checked_add_Some in Hn as [-> _]. split; [| done].
  constructor; cbn; try done.
  - intros i t H. specialize (Id i t H). lia.
  - intros x Hx. specialize (Si x Hx). lia.
  - lia.
Qed.

(** Where [add_task] puts the task: the slot of a reaped task, or a new one. *)
Lemma add_task_state s t :
  (exists i u, task_at s i u /\ state u = Exited /\ reaped u = true /\ (add_task s t).2 = set_tasks s (<[i := t]> (tasks s)))
  \/ ((add_task s t).2 = set_tasks s (tasks s ++ [t]) /\ forall i u, task_at s i u -> state u = Exited -> reaped u = false).
Proof.
  unfold add_task. pose proof (position_from_spec reusable 0 (tasks s)) as H. unfold position.
  destruct (position_from reusable 0 (tasks s)) as [k |].
  - left. destruct H as (n & u & -> & Hu & Hp & _). rewrite Z.add_0_l, Nat2Z.id. exists n, u.
    apply andb_true_iff in Hp as [H1%bool_decide_eq_true H2]. done.
  - right. split; [done |]. intros i u Hu He. specialize (H i u Hu). unfold reusable in H.
    by rewrite bool_decide_eq_true_2 in H.
Qed.

(** Placing a new task at an index no CPU refers to. *)
Lemma sched_ok_place s s' snd i t :
  sched_ok s snd -> new_task t -> 0 < id t < next_task_id s -> id t ∉ snd -> id t ∉ ids s ->
  cpus s' = cpus s -> next_task_id s' = next_task_id s ->
  (forall u, task_at s i u -> state u = Exited /\ on_cpu u = None) ->
  (forall j u, task_at s' j u <-> (j = i /\ u = t) \/ (j <> i /\ task_at s j u)) ->
  sched_ok s' snd.
Proof.
  intros [Lc Id Ids Ur Cu Il On Tk Wa Sn Si Np] Hn Hid Hs Hfresh Ec En Hold Hlk.
  assert (forall j u, task_at s j u -> id u <> id t) as Hne.
  { intros j u Hu E. apply Hfresh, ids_elem. eauto. }
  assert (forall x, live s x -> live s' x) as Hlive.
  { intros x (j & u & Hu & Hx & Hl). exists j, u. split; [| done]. apply Hlk. right. split; [| done].
    intros ->. by destruct (Hold u Hu). }
  constructor; unfold cpu_at in *; rewrite ?Ec, ?En; try done.
  - intros j u [[-> ->] | [_ H]]%Hlk; [done | by eapply Id].
  - intros j k a b [[-> ->] | [Hj H]]%Hlk [[-> ->] | [Hk H']]%Hlk E; [done | | | by eapply Ids];
      exfalso; [by apply (Hne k b) | by apply (Hne j a)].
  - intros c pc Hc Hr. destruct (Cu c pc Hc Hr) as (j & u & Hj & Hu & Ho). exists j, u.
    split; [done |]. split; [| done]. apply Hlk. right. split; [| done].
    intros ->. destruct (Hold u Hu). congruence.
  - intros c pc Hc Hr. destruct (Il c pc Hc Hr) as (u & Hu & Hp & Hpi & Hst). exists u. split; [| done].
    apply Hlk. right. split; [| done]. intros E. rewrite E in Hu. destruct (Hold u Hu). destruct Hst; congruence.
  - intros j u c [[-> ->] | [_ H]]%Hlk Ho; [destruct Hn as (_ & H2 & _); congruence | by eapply On].
  - intros j u [[-> ->] | [_ H]]%Hlk; [by apply new_task_ok | by eapply Tk].
  - intros j u [[-> ->] | [_ H]]%Hlk Hst; [destruct Hn as (H1 & _); congruence |].
    destruct (Wa j u H Hst). auto.
  - intros j u [[-> ->] | [_ H]]%Hlk Hin; [done | by eapply Sn].
Qed.

Lemma add_task_ok s snd t :
  sched_ok s snd -> new_task t -> 0 < id t < next_task_id s -> id t ∉ snd -> id t ∉ ids s ->
  sched_ok (add_task s t).2 snd.
Proof.
  intros OK Hn Hid Hs Hf. destruct (add_task_state s t) as [(i & u & Hu & Hx & Hr & ->) | [-> _]].
  - apply (sched_ok_place s _ snd i t); try done.
    + intros w Hw. assert (w = u) as -> by (unfold task_at in *; congruence).
      destruct (tk_reaped _ (so_task _ _ OK i u Hu) Hr). done.
    + assert (i < length (tasks s))%nat as Hlt by (by eapply lookup_lt_Some).
      intros j w. unfold task_at. cbn [set_tasks tasks]. rewrite list_lookup_insert_Some. naive_solver.
  - apply (sched_ok_place s _ snd (length (tasks s)) t); try done.
    + intros w Hw%lookup_lt_Some. lia.
    + intros j w. unfold task_at. cbn [set_tasks tasks]. rewrite lookup_app_Some.
      split.
      * intros [H | [Hge H]]; [right; split; [| done]; apply lookup_lt_Some in H; lia |].
        apply list_lookup_singleton_Some in H as [Hz ->]. left. split; [lia | done].
      * intros [[-> ->] | [_ H]]; [right | by left]. split; [lia |]. by rewrite Nat.sub_diag.
Qed.

(** Placing a CPU's idle task at a new index, and the CPU that runs it. *)
Lemma sched_ok_place_idle s s' snd cpu npc n t :
  sched_ok s snd -> next_task_id s' = next_task_id s -> length (cpus s') = length (cpus s) ->
  (forall pc, cpu_at s cpu pc -> current pc = None) ->
  (forall c pc, cpu_at s' c pc <-> (c = cpu /\ pc = npc) \/ (c <> cpu /\ cpu_at s c pc)) ->
  (forall j u, task_at s' j u <-> (j = n /\ u = t) \/ (j <> n /\ task_at s j u)) ->
  registered npc = true -> current npc = Some n -> idle_idx npc = n ->
  t = adopt_current (id t) "idle" PRIORITY_IDLE (Z.of_nat cpu) ->
  0 < id t < next_task_id s -> id t ∉ snd -> id t ∉ ids s -> (forall u, ~ task_at s n u) ->
  sched_ok s' snd.
Proof.
  intros [Lc Id Ids Ur Cu Il On Tk Wa Sn Si Np] En El Hc0 Hcpu Hlk Hr Hcu Hidl Ht Hid Hs Hfresh Hn.
  assert (forall j u, task_at s j u -> id u <> id t) as Hne.
  { intros j u Hu E. apply Hfresh, ids_elem. eauto. }
  assert (forall j u, task_at s j u -> task_at s' j u) as Hold.
  { intros j u Hu. apply Hlk. right. split; [| done]. intros ->. by apply (Hn u). }
  assert (forall x, live s x -> live s' x) as Hlive by (intros x (j & u & Hu & H); exists j, u; auto).
  assert (task_at s' n t) as Hnt by (apply Hlk; by left).
  constructor; rewrite ?En, ?El; try done.
  - intros j u [[-> ->] | [_ H]]%Hlk; [done | by eapply Id].
  - intros j k a b [[-> ->] | [Hj H]]%Hlk [[-> ->] | [Hk H']]%Hlk E; [done | | | by eapply Ids];
      exfalso; [by apply (Hne k b) | by apply (Hne j a)].
  - intros c pc [[-> ->] | [_ H]]%Hcpu Hf; [congruence | by eapply Ur].
  - intros c pc [[-> ->] | [_ H]]%Hcpu Hf.
    + exists n, t. split; [done |]. split; [done |]. by rewrite Ht.
    + destruct (Cu c pc H Hf) as (j & u & Hj & Hu & Ho). exists j, u. auto.
  - intros c pc [[-> ->] | [_ H]]%Hcpu Hf.
    + exists t. rewrite Hidl. split; [done |]. rewrite Ht. cbn. auto.
    + destruct (Il c pc H Hf) as (u & Hu & Hp). exists u. auto.
  - intros j u c [[-> ->] | [_ H]]%Hlk Ho.
    + rewrite Ht in Ho. cbn in Ho. injection Ho as <-. rewrite Nat2Z.id. exists npc. split; [lia |].
      split; [apply Hcpu; by left | done].
    + destruct (On j u c H Ho) as (pc & H1 & H2 & H3 & H4). exists pc. split; [done |]. split; [| done].
      apply Hcpu. right. split; [| done]. intros E. rewrite E in H2. specialize (Hc0 pc H2). congruence.
  - intros j u [[-> ->] | [_ H]]%Hlk; [rewrite Ht; constructor; cbn; try done; naive_solver | by eapply Tk].
  - intros j u [[-> ->] | [_ H]]%Hlk Hst; [rewrite Ht in Hst; done |]. destruct (Wa j u H Hst). auto.
  - intros j u [[-> ->] | [_ H]]%Hlk Hin; [done | by eapply Sn].
Qed.

Lemma register_cpu_ok s snd cpu hw tid s' :
  sched_ok s snd -> (cpu < MAX_CPUS)%nat -> registered (cpus s !!! cpu) = false ->
  register_cpu s cpu hw = Some (tid, s') ->
  sched_ok s' snd /\ ids s' = ids s ++ [tid] /\ next_task_id s' = next_task_id s + 1 /\ tid = next_task_id s.
Proof.
  intros OK Hlt Hr E. unfold register_cpu in E. apply bind_Some in E as ([tid' s1] & E1 & [= <- <-]).
  destruct (take_task_id_ok s snd tid' s1 OK E1) as (OK1 & -> & En & Et & Ec).
  set (idle := adopt_current (next_task_id s) "idle" PRIORITY_IDLE (Z.of_nat cpu)).
  split_and!; [| unfold ids; cbn; by rewrite Et, map_app | done | done].
  assert (length (tasks s1 ++ [idle]) - 1 = length (tasks s1))%nat as Elen by (rewrite length_app; cbn; lia).
  set (n := length (tasks s1)) in *.
  eapply (sched_ok_place_idle s1 _ snd cpu (mkPerCpu true hw (Some n) n) n idle); try done.
  - cbn. by rewrite length_insert.
  - intros pc H. eapply so_unreg; [exact OK1 | exact H |]. rewrite <- Hr, <- Ec. by rewrite (cpu_total s1 cpu pc H).
  - intros c pc. unfold cpu_at. cbn [set_cpu cpus set_tasks tasks].
    rewrite Elen, list_lookup_insert_Some, (so_cpus _ _ OK1). naive_solver.
  - intros j u. unfold task_at. cbn [set_cpu set_tasks tasks]. rewrite lookup_app_Some. split.
    + intros [H | [Hge H]]; [right; split; [| done]; apply lookup_lt_Some in H; unfold n; lia |].
      apply list_lookup_singleton_Some in H as [Hz ->]. left. split; [unfold n; lia | done].
    + intros [[-> ->] | [_ H]]; [right | by left]. split; [done |]. by rewrite Nat.sub_diag.
  - cbn. rewrite En. pose proof (so_next _ _ OK). lia.
  - cbn. intros H. pose proof (so_snd_id _ _ OK _ H). lia.
  - cbn. intros (i & u & Hu & Hid)%ids_elem. unfold task_at in Hu. rewrite Et in Hu.
    pose proof (so_id _ _ OK i u Hu). lia.
  - intros u H%lookup_lt_Some. unfold n in H. lia.
Qed.

(** * Runs *)

(** A configuration: the scheduler, the tasks inside [send_rqb], and the
    identities taken for tasks that are not added yet. *)
Record config := mkConfig { cf_sched : Scheduler; cf_sending : gset Z; cf_new : gset Z }.

(** Task [t] executes on [cpu] outside [send_rqb]; idle tasks only halt. *)
Definition acting (s : Scheduler) (snd : gset Z) (cpu me : nat) (t : TaskControlBlock) : Prop :=
  runs_on s cpu me t /\ state t = Running /\ (id t ∉ snd) /\ priority t <> PRIORITY_IDLE.

Inductive step : config -> config -> Prop :=
| step_register s snd nw cpu hw tid s' :
    (cpu < MAX_CPUS)%nat -> registered (cpus s !!! cpu) = false -> register_cpu s cpu hw = Some (tid, s') ->
    step (mkConfig s snd nw) (mkConfig s' snd nw)
| step_new_id s snd nw tid s' :
    take_task_id s = Some (tid, s') -> step (mkConfig s snd nw) (mkConfig s' snd ({[tid]} ∪ nw))
| step_add s snd nw tid ctx stack prio nm :
    tid ∈ nw ->
    step (mkConfig s snd nw)
      (mkConfig (add_task s (task_new ctx tid stack prio nm)).2 snd (nw ∖ {[tid]}))
| step_add_user s snd nw tid ctx space slot stack prio nm hrt ssbd :
    tid ∈ nw ->
    step (mkConfig s snd nw)
      (mkConfig (add_task s (set_store_bypass (set_high_res_time (task_new_user ctx tid space slot stack prio nm) hrt) ssbd)).2
         snd (nw ∖ {[tid]}))
| step_tick s snd nw ipi cpu rsp timer :
    (cpu < MAX_CPUS)%nat -> step (mkConfig s snd nw) (mkConfig (on_tick ipi s cpu rsp timer).1.2 snd nw)
| step_request s snd nw cpu me t receiver msg k s' :
    acting s snd cpu me t -> post_request s cpu receiver msg = Ok (k, s') ->
    step (mkConfig s snd nw) (mkConfig s' ({[id t]} ∪ snd) nw)
| step_take s snd nw cpu me t block m s' :
    acting s snd cpu me t -> take_request s cpu block = Ok (m, s') ->
    step (mkConfig s snd nw) (mkConfig s' snd nw)
| step_reply s snd nw cpu me t sender msg k s' :
    acting s snd cpu me t -> post_reply s cpu sender msg = Ok (k, s') ->
    step (mkConfig s snd nw) (mkConfig s' snd nw)
| step_poll s snd nw cpu me t r s' :
    runs_on s cpu me t -> state t = Running -> id t ∈ snd -> poll_reply s cpu = Ok (r, s') ->
    step (mkConfig s snd nw) (mkConfig s' (if r is Some _ then snd ∖ {[id t]} else snd) nw)
| step_sleep s snd nw cpu me t until s' :
    acting s snd cpu me t -> sleep_until s cpu until = Ok s' -> step (mkConfig s snd nw) (mkConfig s' snd nw)
| step_exit s snd nw cpu me t k s' :
    acting s snd cpu me t -> mark_exited s cpu = Ok (k, s') -> step (mkConfig s snd nw) (mkConfig s' snd nw)
| step_mitigation s snd nw change cpu me t b s' :
    acting s snd cpu me t -> set_store_bypass_disable change s cpu b = Ok s' ->
    step (mkConfig s snd nw) (mkConfig s' snd nw)
| step_collect s snd nw : step (mkConfig s snd nw) (mkConfig (collect_exited s).2 snd nw)
| step_reaped s snd nw batch : step (mkConfig s snd nw) (mkConfig (reaper_done s batch) snd nw).

Inductive reachable : config -> Prop :=
| reach_new : reachable (mkConfig new ∅ ∅)
| reach_step c c' : reachable c -> step c c' -> reachable c'.

(** Identities in flight belong to nobody. *)
Definition fresh_ok (s : Scheduler) (snd nw : gset Z) : Prop :=
  forall x, x ∈ nw -> 0 < x < next_task_id s /\ (x ∉ snd) /\ (x ∉ ids s).

Record config_ok (c : config) : Prop := {
  co_sched : sched_ok (cf_sched c) (cf_sending c);
  co_fresh : fresh_ok (cf_sched c) (cf_sending c) (cf_new c) }.

(** A step that adds no task, and sends only for tasks there are. *)
Lemma config_ok_same s s' snd snd' nw :
  config_ok (mkConfig s snd nw) -> sched_ok s' snd' -> ids s' = ids s -> next_task_id s' = next_task_id s ->
  (forall x, x ∈ snd' -> x ∈ snd \/ x ∈ ids s) -> config_ok (mkConfig s' snd' nw).
Proof.
  intros [OK F] OK' Ei En Hs. cbn in *. constructor; [done |]. intros x Hx. cbn in Hx |- *.
  destruct (F x Hx) as (H1 & H2 & H3). rewrite En, Ei. split_and!; [lia | lia | | done].
  intros Hin. by destruct (Hs x Hin).
Qed.

Lemma config_ok_add s snd nw t :
  config_ok (mkConfig s snd nw) -> new_task t -> id t ∈ nw ->
  config_ok (mkConfig (add_task s t).2 snd (nw ∖ {[id t]})).
Proof.
  intros [OK F] Hn Hin. cbn [cf_sched cf_sending cf_new] in *. destruct (F _ Hin) as (H1 & H2 & H3).
  constructor; [by apply add_task_ok |]. intros x [Hx Hne%not_elem_of_singleton]%elem_of_difference.
  cbn [cf_sched cf_sending cf_new] in *. destruct (F x Hx) as (G1 & G2 & G3).
  destruct (add_task_state s t) as [(i & u & Hu & _ & _ & ->) | [-> _]]; split_and!; try (cbn; done || lia).
  - intros (j & w & Hw & Hid)%ids_elem. unfold task_at in Hw. cbn in Hw.
    apply list_lookup_insert_Some in Hw as [(_ & -> & _) | [_ Hw]]; [done |]. apply G3, ids_elem. eauto.
  - unfold ids. cbn. rewrite map_app. intros [H | H]%elem_of_app; [done |]. cbn in H.
    apply list_elem_of_singleton in H. done.
Qed.

Lemma runs_on_id s cpu me t : runs_on s cpu me t -> id t ∈ ids s.
Proof. intros (pc & _ & _ & _ & Ht). apply ids_elem. eauto. Qed.

Lemma on_tick_ok ipi s snd cpu rsp timer :
  sched_ok s snd -> (cpu < MAX_CPUS)%nat ->
  sched_ok (on_tick ipi s cpu rsp timer).1.2 snd /\ ids (on_tick ipi s cpu rsp timer).1.2 = ids s
  /\ next_task_id (on_tick ipi s cpu rsp timer).1.2 = next_task_id s.
Proof.
  intros OK Hlt. destruct (lookup_lt_is_Some_2 (cpus s) cpu) as [pc Hc]; [rewrite (so_cpus _ _ OK); lia |].
  destruct (registered pc) eqn:Hr.
  - destruct (so_cur _ _ OK cpu pc Hc Hr) as (cur & t & Hcur & Ht & Hon).
    assert (tasks s <> []) as Hne by (intros E; unfold task_at in Ht; by rewrite E in Ht).
    destruct (on_tick_switch ipi s cpu rsp timer pc cur Hc Hr Hcur Hne) as (fx & next & _ & ->). cbn [fst Datatypes.snd].
    pose proof (ticked_ok s snd cpu timer OK) as OKt.
    assert (cpu_at (ticked s cpu timer) cpu pc) as Hct by (unfold cpu_at; by rewrite ticked_cpus).
    destruct (so_cur _ _ OKt cpu pc Hct Hr) as (cur' & t' & Hcur' & Ht' & _).
    assert (cur' = cur) as -> by congruence.
    split; [by eapply switch_ok |]. split.
    + rewrite ids_switch. unfold ticked. rewrite ids_map; [by destruct timer |].
      intros u. unfold wake. by destruct (due _ u).
    + destruct (switch_state _ snd cpu cur pc t' rsp timer OKt Hct Hr Hcur Ht')
        as (n' & u & v & _ & _ & _ & _ & _ & Hsw). destruct Hsw as (_ & -> & _). by destruct timer.
  - unfold on_tick. rewrite (cpu_total s cpu pc Hc), Hr. done.
Qed.

Lemma post_request_ids s cpu receiver msg k s' :
  post_request s cpu receiver msg = Ok (k, s') -> ids s' = ids s /\ next_task_id s' = next_task_id s.
Proof.
  unfold post_request. destruct (current_idx s cpu) as [me | |]; [| done | done]. cbn [mbind outcome_bind].
  destruct (receiver =? _); [done |]. cbn [guard_err mbind outcome_bind].
  destruct (find_live s receiver) as [ri |]; [| done]. cbn [ok_or mbind outcome_bind].
  destruct (INBOX_CAPACITY <=? _); [done |]. cbn [guard_err mbind outcome_bind]. intros H%Ok_inj.
  unfold make_ready in H. case_decide; injection H as <- <-; split; try done; by rewrite !ids_update.
Qed.

Lemma new_ok : config_ok (mkConfig new ∅ ∅).
Proof.
  constructor; cbn [cf_sched cf_sending cf_new]; [| intros x Hx; by apply elem_of_empty in Hx].
  assert (forall i t, task_at new i t -> False) as Hno by done.
  assert (forall c pc, cpu_at new c pc -> pc = EMPTY) as Hpc.
  { intros c pc H. apply lookup_replicate in H as [-> _]. done. }
  constructor; try (by intros; exfalso; eauto); try done; intros c pc ->%Hpc Hr; done.
Qed.

Lemma mark_exited_ids s cpu me t k s' :
  runs_on s cpu me t -> mark_exited s cpu = Ok (k, s') -> ids s' = ids s /\ next_task_id s' = next_task_id s.
Proof.
  intros Hrun E. destruct (mark_exited_state s cpu me t Hrun) as [k' E']. rewrite E in E'. apply Ok_inj in E'.
  injection E' as -> ->. split; [| done].
  transitivity (ids (update s me exit_task)); [| by rewrite ids_update].
  rewrite <- (ids_map (update s me exit_task) (abort (id t))); [done |]. intros u. by apply abort_fields.
Qed.

Lemma set_bypass_ok s snd i t b : sched_ok s snd -> task_at s i t -> sched_ok (update s i (fun t => set_store_bypass t b)) snd.
Proof.
  intros OK Ht. pose proof (so_task _ _ OK i t Ht) as [R I E Re P W].
  eapply (sched_ok_update s snd snd i t); [exact OK | exact Ht | exact eq_refl .. | by constructor | done | by left | | | done].
  - by apply (so_wait _ _ OK i t).
  - by apply (so_snd _ _ OK i t).
Qed.

Lemma step_ok c c' : config_ok c -> step c c' -> config_ok c'.
Proof.
  intros C. pose proof C as [OK F]. destruct 1 as
    [s snd nw cpu hw tid s' Hlt Hr E | s snd nw tid s' E | s snd nw tid ctx stack prio nm Hin
    | s snd nw tid ctx space slot stack prio nm hrt ssbd Hin | s snd nw ipi cpu rsp timer Hlt
    | s snd nw cpu me t receiver msg k s' (Hrun & Hst & Hni & Hp) E | s snd nw cpu me t block m s' (Hrun & Hst & Hni & Hp) E
    | s snd nw cpu me t sender msg k s' (Hrun & Hst & Hni & Hp) E | s snd nw cpu me t r s' Hrun Hst Hin E
    | s snd nw cpu me t until s' (Hrun & Hst & Hni & Hp) E | s snd nw cpu me t k s' (Hrun & Hst & Hni & Hp) E
    | s snd nw change cpu me t b s' (Hrun & Hst & Hni & Hp) E | s snd nw | s snd nw batch];
    cbn [cf_sched cf_sending cf_new] in *.
  - destruct (register_cpu_ok _ _ _ _ _ _ OK Hlt Hr E) as (OK' & Ei & En & ->).
    constructor; [done |]. intros x Hx. cbn in Hx |- *. destruct (F x Hx) as (H1 & H2 & H3).
    split; [lia |]. split; [done |]. rewrite Ei. intros [G | G%list_elem_of_singleton]%elem_of_app; [done | lia].
  - destruct (take_task_id_ok _ _ _ _ OK E) as (OK' & -> & En & Et & _). constructor; [done |].
    assert (ids s' = ids s) as Ei by (unfold ids; by rewrite Et).
    intros x [->%elem_of_singleton | Hx]%elem_of_union; cbn; rewrite Ei, En.
    + pose proof (so_next _ _ OK). split; [lia |]. split.
      * intros G%(so_snd_id _ _ OK). lia.
      * intros (i & u & Hu & Hid)%ids_elem. pose proof (so_id _ _ OK i u Hu). lia.
    + destruct (F x Hx) as (H1 & H2). split; [lia | done].
  - by apply (config_ok_add s snd nw (task_new ctx tid stack prio nm)).
  - by apply (config_ok_add s snd nw (set_store_bypass (set_high_res_time (task_new_user ctx tid space slot stack prio nm) hrt) ssbd)).
  - destruct (on_tick_ok ipi s snd cpu rsp timer OK Hlt) as (H1 & H2 & H3). eapply config_ok_same; eauto.
  - pose proof (post_request_spec s snd cpu me t receiver msg OK Hrun Hst Hni Hp) as H. rewrite E in H.
    destruct H as [_ OK']. destruct (post_request_ids _ _ _ _ _ _ E). eapply config_ok_same; eauto.
    intros x [->%elem_of_singleton | Hx]%elem_of_union; [right; by eapply runs_on_id | by left].
  - destruct (take_request_spec s snd cpu me t block OK Hrun Hst Hni Hp) as (s1 & E1 & OK' & Es).
    rewrite E in E1. apply Ok_inj in E1. injection E1 as _ <-. eapply config_ok_same; eauto; rewrite Es;
      destruct (inbox t); try destruct block; rewrite ?ids_update; done.
  - pose proof (post_reply_spec s snd cpu me t sender msg OK Hrun) as H. rewrite E in H.
    destruct H as (si & u & _ & _ & _ & _ & -> & OK'). eapply config_ok_same; eauto. by rewrite ids_update.
  - destruct (poll_reply_spec s snd cpu me t OK Hrun Hst Hin) as (r' & s1 & E1 & _ & Es & OK').
    rewrite E in E1. apply Ok_inj in E1. injection E1 as -> ->. eapply config_ok_same; eauto; rewrite ?Es.
    + by rewrite ids_update.
    + done.
    + intros x [Hx _]%elem_of_difference. by left.
  - destruct (sleep_until_spec s snd cpu me t until OK Hrun Hst Hni Hp) as (s1 & E1 & Es & OK').
    rewrite E in E1. apply Ok_inj in E1 as ->. eapply config_ok_same; eauto; rewrite Es; [by rewrite ids_update | done].
  - destruct (mark_exited_spec s snd cpu me t OK Hrun Hst Hni Hp) as (k1 & s1 & E1 & OK' & _).
    rewrite E in E1. apply Ok_inj in E1. injection E1 as -> ->.
    destruct (mark_exited_ids _ _ _ _ _ _ Hrun E). eapply config_ok_same; eauto.
  - unfold set_store_bypass_disable in E. destruct (change b); [| done | done]. cbn [mbind outcome_bind] in E.
    destruct Hrun as (pc & Hc & _ & Hcur & Ht). rewrite (cpu_total s cpu pc Hc), Hcur in E.
    apply Ok_inj in E as <-. eapply config_ok_same; eauto; [by eapply set_bypass_ok | by rewrite ids_update].
  - eapply config_ok_same; eauto; [by apply collect_exited_ok | apply ids_collect |].
    unfold collect_exited. by destruct (collect 16 (tasks s)).
  - eapply config_ok_same; eauto. by apply (sched_ok_ext s).
Qed.

Lemma reachable_ok c : reachable c -> config_ok c.
Proof. induction 1; [apply new_ok | by eapply step_ok]. Qed.

(** C4. Scheduler safety, in every state the system can reach by any interleaving of
    ticks, message operations, sleeping, exits, task and CPU creation and reaper
    passes on any CPUs: the invariant holds (identities are unique, a running task is
    on the CPU that says so, a CPU's idle task is always runnable, a sender blocked for
    a reply waits on a live task, a mailbox never exceeds its capacity, a reaped task is
    exited and off every CPU), so no task executes on two CPUs. *)
Theorem scheduler_invariant c :
  reachable c ->
  config_ok c
  /\ (forall a b pa pb i, cpu_at (cf_sched c) a pa -> cpu_at (cf_sched c) b pb ->
        current pa = Some i -> current pb = Some i -> a = b).
Proof.
  intros H%reachable_ok. split; [done |]. destruct H as [OK _]. intros a b pa pb i Ha Hb Hi Hj.
  assert (registered pa = true) as Ra by (destruct (registered pa) eqn:E; [done |]; pose proof (so_unreg _ _ OK a pa Ha E); congruence).
  assert (registered pb = true) as Rb by (destruct (registered pb) eqn:E; [done |]; pose proof (so_unreg _ _ OK b pb Hb E); congruence).
  destruct (so_cur _ _ OK a pa Ha Ra) as (i1 & t1 & E1 & H1 & O1).
  destruct (so_cur _ _ OK b pb Hb Rb) as (i2 & t2 & E2 & H2 & O2).
  assert (t1 = t2) as -> by (unfold task_at in *; congruence). rewrite O1 in O2. injection O2. lia.
Qed.

Lemma due_spec now t : due now t = true <-> state t = Sleeping /\ wake_tick t <= now.
Proof. unfold due. by rewrite andb_true_iff, bool_decide_eq_true, Z.leb_le. Qed.
Lemma ticked_jiffies s cpu timer : jiffies (ticked s cpu timer) = jiffies s + (if timer && (cpu =? 0)%nat then 1 else 0).
Proof. unfold ticked. destruct timer; cbn; [destruct (cpu =? 0)%nat |]; lia. Qed.
Lemma ticked_task s cpu timer j w : task_at s j w -> task_at (ticked s cpu timer) j (if due (jiffies (ticked s cpu timer)) w then set_state w Ready else w).
Proof.
  intros Hw. unfold task_at, ticked in *. cbn [set_tasks tasks jiffies]. rewrite list_lookup_fmap.
  replace (tasks (if timer then _ else s)) with (tasks s) by (by destruct timer). by rewrite Hw.
Qed.
Lemma on_tick_spec ipi s snd cpu rsp timer pc cur t :
  sched_ok s snd -> cpu_at s cpu pc -> registered pc = true -> current pc = Some cur -> task_at s cur t ->
  exists sp s' fx next u, on_tick ipi s cpu rsp timer = (sp, s', fx) /\ sched_ok s' snd
    /\ current (cpus s' !!! cpu) = Some next
    /\ task_at s' next u /\ state u = Running /\ on_cpu u = Some (Z.of_nat cpu)
    /\ sp = context_ptr u /\ (next = cur -> sp = rsp)
    /\ (next <> cur -> exists t', task_at s' cur t' /\ on_cpu t' = None /\ context_ptr t' = rsp /\ state t' <> Running)
    /\ jiffies s' = jiffies s + (if timer && (cpu =? 0)%nat then 1 else 0)
    /\ (forall j w, task_at s j w -> state w = Sleeping -> exists w', task_at s' j w'
          /\ (wake_tick w <= jiffies s' -> j = next \/ state w' = Ready)
          /\ (jiffies s' < wake_tick w -> j <> next /\ state w' = Sleeping /\ wake_tick w' = wake_tick w))
    /\ (forall j w, task_at s j w -> state w <> Sleeping -> j <> cur -> j <> next -> task_at s' j w).
Proof.
  intros OK Hc Hr Hcur Ht.
  assert (tasks s <> []) as Hne by (intros E; unfold task_at in Ht; by rewrite E in Ht).
  destruct (on_tick_switch ipi s cpu rsp timer pc cur Hc Hr Hcur Hne) as (fx & next & Hnext & E). rewrite E.
  set (s0 := ticked s cpu timer) in *.
  pose proof (ticked_ok s snd cpu timer OK) as OK0. fold s0 in OK0.
  assert (cpu_at s0 cpu pc) as Hc0 by (unfold cpu_at, s0; by rewrite ticked_cpus).
  destruct (so_cur _ _ OK0 cpu pc Hc0 Hr) as (cur' & t0 & Hcur' & Ht0 & Hon0).
  assert (cur' = cur) as -> by congruence.
  destruct (switch_state s0 snd cpu cur pc t0 rsp timer OK0 Hc0 Hr Hcur Ht0)
    as (n' & u & v & Hv & Huv & Hno & Hrdy & Hpin & Hsw).
  pose proof Hsw as ((pc0 & Hpc0 & Ec) & _ & Hn & _ & Hf).
  assert (n' = next) as ->.
  { rewrite Ec, list_lookup_total_insert_eq in Hnext by (by eapply lookup_lt_Some). by injection Hnext. }
  assert (jiffies (switch s0 cpu cur rsp timer) = jiffies s0) as Ej.
  { unfold switch. destruct (pick_next_spec (update s0 cur (fun t => save_context t rsp timer)) cpu)
      as [(i & ? & -> & _) | [-> _]]; done. }
  eexists _, _, fx, next, _. split; [reflexivity |].
  split; [exact (switch_ok s0 snd cpu cur pc t0 rsp timer OK0 Hc0 Hr Hcur Ht0) |].
  split; [done |]. split; [exact Hn |]. split; [done |]. split; [done |].
  split; [by rewrite (task_total _ _ _ Hn) |]. split; [| split].
  - intros ->. rewrite (task_total _ _ _ Hn). cbn. by destruct Huv as [[_ ->] | [? _]].
  - intros Hne'. exists (save_context t0 rsp timer). pose proof (Hf cur t0 Ht0 ltac:(congruence)) as H.
    rewrite decide_True in H by done. split; [exact H |]. cbn. split; [done |]. split; [done |].
    case_decide; done.
  - split; [rewrite Ej; apply ticked_jiffies |]. rewrite Ej. split.
    + intros j w Hw Hsl. destruct (Z.le_gt_cases (wake_tick w) (jiffies s0)) as [Hd | Hd].
      * pose proof (ticked_task s cpu timer j w Hw) as Hj. fold s0 in Hj. rewrite (proj2 (due_spec _ _) (conj Hsl Hd)) in Hj.
        destruct (decide (j = next)) as [-> | Hjn]; [eexists; split; [exact Hn | split; [by left | lia]] |].
        eexists. split; [by apply (Hf j _ Hj) |]. split; [right | lia]. by case_decide.
      * pose proof (ticked_task s cpu timer j w Hw) as Hj. fold s0 in Hj. rewrite (proj1 (not_true_iff_false _) (fun H => Zlt_not_le _ _ Hd (proj2 (proj1 (due_spec _ _) H)))) in Hj.
        assert (j <> next) as Hjn by (intros ->; assert (v = w) as -> by (unfold task_at in *; congruence); destruct Huv as [[_ ->] | [_ ->]]; [cbn in Hrdy; rewrite Hsl in Hrdy; by case_decide | congruence]).
        eexists. split; [by apply (Hf j _ Hj) |]. split; [lia |]. intros _. split; [done |]. case_decide; [cbn; rewrite Hsl; by rewrite decide_False | done].
    + intros j w Hw Hsl Hjc Hjn. pose proof (ticked_task s cpu timer j w Hw) as Hj. fold s0 in Hj. rewrite (proj1 (not_true_iff_false _) (fun H => Hsl (proj1 (proj1 (due_spec _ _) H)))) in Hj.
      pose proof (Hf j w Hj Hjn) as H. by rewrite decide_False in H.
Qed.


(** C20. Round robin: a CPU takes the first eligible task after the cursor, and idles only
    when there is none; so while a task stays eligible on the CPUs that pick, fewer picks
    than there are tasks can pass it over. *)
Theorem scheduler_round_robin_fair n i c l :
  (i < n)%nat -> overtaken n i c l ->
  (length l < n)%nat
  /\ forall s cpu, (exists j u, pick_next s cpu = (j, set_cursor s j) /\ task_at s j u /\ eligible cpu u = true)
       \/ (pick_next s cpu = (idle_idx (cpus s !!! cpu), s) /\ forall j u, task_at s j u -> eligible cpu u = false).
Proof.
  intros Hi Ho. split.
  - pose proof (overtaken_bound n i c l Hi Ho). destruct (rr_dist_spec n c i Hi). lia.
  - intros s cpu. destruct (pick_next_spec s cpu) as [(j & u & E & Hu & He & _) | H]; [left; eauto | by right].
Qed.

(** C23. Sending a request never panics and has four outcomes: it is queued last in a live
    receiver's mailbox with the true sender and receiver written into it, the receiver
    wakes if it was waiting, and the caller waits for its reply; or nothing changes and
    the error says why (the receiver is the caller, is not live, or has a full mailbox). *)
Theorem ipc_request_correct s snd cpu me t receiver msg :
  sched_ok s snd -> acting s snd cpu me t ->
  match post_request s cpu receiver msg with
  | Ok (_, s') => posted s me t receiver msg s' /\ sched_ok s' ({[id t]} ∪ snd)
  | Err e => match e with
             | InvalidParam => receiver = id t
             | NotFound => ~ live s receiver
             | Busy => exists ri r, task_at s ri r /\ id r = receiver
                         /\ Z.of_nat (length (inbox r)) = INBOX_CAPACITY
             | _ => False
             end
  | Panic => False
  end.
Proof. intros OK (H1 & H2 & H3 & H4). by apply post_request_spec. Qed.

(** C27. A reply reaches only a task that waits on exactly this replier, which becomes ready
    with the reply; otherwise nothing changes and the error says why.  And a task in
    [send_rqb] that runs again always finds its reply: it never wakes spuriously. *)
Theorem ipc_reply_correct s snd cpu me t sender msg :
  sched_ok s snd -> runs_on s cpu me t ->
  match post_reply s cpu sender msg with
  | Ok (_, s') => exists si u, task_at s si u /\ id u = sender /\ state u = WaitingReply
      /\ wait_for u = id t /\ s' = update s si (answered (set_route msg (id t) sender)) /\ sched_ok s' snd
  | Err e => match e with
             | NotFound => ~ live s sender
             | InvalidParam => exists si u, task_at s si u /\ id u = sender /\ state u <> Exited
                 /\ ~ (state u = WaitingReply /\ wait_for u = id t)
             | _ => False
             end
  | Panic => False
  end
  /\ (state t = Running -> id t ∈ snd ->
      exists r s', poll_reply s cpu = Ok (Some r, s') /\ reply t = Some r
        /\ s' = update s me (fun t => set_reply t None) /\ sched_ok s' (snd ∖ {[id t]})).
Proof. intros OK Hrun. split; [by eapply post_reply_spec | by apply poll_reply_spec]. Qed.

(** C30. An exiting task strands nobody: every task blocked on it becomes ready with an
    Aborted reply from it, every other task is untouched, and afterwards no task waits on
    the exited one. *)
Theorem exit_aborts_waiters s snd cpu me t :
  sched_ok s snd -> acting s snd cpu me t ->
  exists kick s', mark_exited s cpu = Ok (kick, s') /\ sched_ok s' snd
    /\ task_at s' me (exit_task t)
    /\ (forall j u, j <> me -> task_at s j u ->
          task_at s' j (if decide (state u = WaitingReply /\ wait_for u = id t)
                        then answered (aborted (id t) (id u)) u else u))
    /\ (forall j u, task_at s' j u -> state u = WaitingReply -> wait_for u <> id t).
Proof.
  intros OK (Hrun & Hst & Hni & Hp).
  destruct (mark_exited_spec s snd cpu me t OK Hrun Hst Hni Hp) as (k & s' & E & OK' & Hme & Hoth).
  exists k, s'. do 3 (split; [done |]). split.
  - intros j u Hne Hu. pose proof (Hoth j u Hne Hu) as H. unfold abort in H.
    pose proof (tk_waiting _ (so_task _ _ OK j u Hu)) as Hw.
    assert (blocked_on (id t) u = true <-> state u = WaitingReply /\ wait_for u = id t) as Hb.
    { unfold blocked_on. rewrite !andb_true_iff, !bool_decide_eq_true, Z.eqb_eq. tauto. }
    destruct (decide (state u = WaitingReply /\ wait_for u = id t)) as [Hd | Hd].
    + apply Hb in Hd. by rewrite Hd in H.
    + destruct (blocked_on (id t) u); [exfalso; by apply Hd, Hb | done].
  - intros j u Hu Hs Hf. destruct (so_wait _ _ OK' j u Hu Hs) as [_ (i & w & Hw & Hid & Hl)].
    rewrite Hf in Hid. assert (i = me) as -> by (by eapply (so_ids _ _ OK' i me w (exit_task t))).
    assert (w = exit_task t) as -> by (unfold task_at in *; congruence). done.
Qed.

(** A reaper pass hands over, oldest slot first, the resources of at most 16 tasks that
    have exited and are off every CPU, marks exactly those reaped so that no pass hands
    them over again, and leaves the rest; the count of unreaped tasks an observer reads
    does not drop until the pass reports the batch released. *)
Theorem reaper_collects_once s :
  let '(out, s') := collect_exited s in
  out = map resources (take 16 (List.filter collectable (tasks s)))
  /\ Forall2 reap_step (tasks s) (tasks s')
  /\ List.filter collectable (tasks s') = drop 16 (List.filter collectable (tasks s))
  /\ unreaped_tasks s' = unreaped_tasks s
  /\ unreaped_tasks (reaper_done s' out) = unreaped_tasks s - Z.of_nat (length out).
Proof.
  unfold collect_exited. pose proof (collect_spec 16 (tasks s)) as H.
  destruct (collect 16 (tasks s)) as [out ts']. destruct H as (H1 & H2 & H3 & H4).
  change (fun t => bool_decide (state t = Exited) && negb (reaped t)) with unreaped in *.
  unfold unreaped_tasks, reaper_done. cbn [set_reaping set_tasks tasks reaping].
  change (fun t => bool_decide (state t = Exited) && negb (reaped t)) with unreaped.
  split_and!; [done | done | done | lia | lia].
Qed.

(** A task at the documented lowest priority is taken for an idle task: no CPU picks it
    unless it is that CPU's own idle task. *)
Lemma lowest_priority_never_picked s cpu i t :
  task_at s i t -> priority t = PRIORITY_LOWEST -> (pick_next s cpu).1 = i -> i = idle_idx (cpus s !!! cpu).
Proof.
  intros Ht Hp Hi. destruct (pick_next_spec s cpu) as [(j & u & E & Hu & He & _) | [E _]]; rewrite E in Hi; cbn in Hi; subst; [| done].
  assert (u = t) as -> by (unfold task_at in *; congruence).
  apply eligible_spec in He as (_ & _ & H & _). by rewrite Hp in H.
Qed.

(** * A run to evaluate: two CPUs, two tasks, one of them sending to the other *)

Definition demo_stack : KernelStack := mkKernelStack 4096 8192 16384.
Definition demo_boot : Scheduler :=
  from_option Datatypes.snd new (register_cpu (from_option Datatypes.snd new (register_cpu new 0 0)) 1 1).
Definition demo_ids : Scheduler :=
  from_option Datatypes.snd new (take_task_id (from_option Datatypes.snd new (take_task_id demo_boot))).
Definition demo_task (tid : Z) : TaskControlBlock := task_new 176 tid demo_stack PRIORITY_DEFAULT "task".
Definition demo_tasks : Scheduler := (add_task (add_task demo_ids (demo_task 3)).2 (demo_task 4)).2.
(** Task 3 runs on CPU 0 and task 4 on CPU 1. *)
Definition demo_run : Scheduler := (on_tick true (on_tick true demo_tasks 0 64 true).1.2 1 128 true).1.2.
Definition demo_nw : gset Z := (({[4]} ∪ ({[3]} ∪ ∅)) ∖ {[3]}) ∖ {[4]}.
(** Task 3 waits for task 4's reply. *)
Definition demo_sent : Scheduler :=
  match post_request demo_run 0 4 RqbM.new with Ok (_, s) => s | _ => new end.

Lemma demo_boot_reachable : reachable (mkConfig demo_boot ∅ ∅).
Proof.
  eapply (reach_step (mkConfig (from_option Datatypes.snd new (register_cpu new 0 0)) ∅ ∅)).
  - eapply reach_step; [apply reach_new |].
    apply (step_register new ∅ ∅ 0 0 1); [by apply Nat.ltb_lt | vm_compute; reflexivity | vm_compute; reflexivity].
  - apply (step_register _ ∅ ∅ 1 1 2); [by apply Nat.ltb_lt | vm_compute; reflexivity | vm_compute; reflexivity].
Qed.

Lemma demo_ids_reachable : reachable (mkConfig demo_ids ∅ ({[4]} ∪ ({[3]} ∪ ∅))).
Proof.
  eapply (reach_step (mkConfig (from_option Datatypes.snd new (take_task_id demo_boot)) ∅ ({[3]} ∪ ∅))).
  - eapply reach_step; [exact demo_boot_reachable |]. apply step_new_id. vm_compute. reflexivity.
  - apply step_new_id. vm_compute. reflexivity.
Qed.

Lemma demo_run_reachable : reachable (mkConfig demo_run ∅ demo_nw).
Proof.
  unfold demo_run.
  eapply (reach_step (mkConfig (on_tick true demo_tasks 0 64 true).1.2 ∅ demo_nw));
    [| apply (step_tick _ _ _ true 1 128 true); by apply Nat.ltb_lt].
  eapply (reach_step (mkConfig demo_tasks ∅ demo_nw)); [| apply (step_tick _ _ _ true 0 64 true); by apply Nat.ltb_lt].
  eapply (reach_step (mkConfig (add_task demo_ids (demo_task 3)).2 ∅ (({[4]} ∪ ({[3]} ∪ ∅)) ∖ {[3]})));
    [| apply (step_add _ _ _ 4 176 demo_stack PRIORITY_DEFAULT "task"); apply elem_of_difference; split;
       [apply elem_of_union_l; by apply elem_of_singleton | by intros H%elem_of_singleton]].
  eapply reach_step; [exact demo_ids_reachable |].
  apply (step_add _ _ _ 3 176 demo_stack PRIORITY_DEFAULT "task"), elem_of_union_r, elem_of_union_l.
  by apply elem_of_singleton.
Qed.

Lemma reachable_sched s snd nw : reachable (mkConfig s snd nw) -> sched_ok s snd.
Proof. intros H. exact (co_sched _ (reachable_ok _ H)). Qed.

Lemma demo_run_ok : sched_ok demo_run ∅.
Proof. exact (reachable_sched _ _ _ demo_run_reachable). Qed.

Definition demo_actor (s : Scheduler) (i : nat) : TaskControlBlock := tasks s !!! i.

Lemma demo_acting i cpu :
  (i = 2 /\ cpu = 0 \/ i = 3 /\ cpu = 1)%nat -> acting demo_run ∅ cpu i (demo_actor demo_run i).
Proof.
  intros [[-> ->] | [-> ->]]; (split; [| split; [by vm_compute | split; [apply not_elem_of_empty | by vm_compute]]]);
    (eexists; split; [by vm_compute |]; split; [by vm_compute |]; split; by vm_compute).
Qed.

Lemma scheduler_invariant_witness : config_ok (mkConfig demo_run ∅ demo_nw).
Proof. exact (proj1 (scheduler_invariant _ demo_run_reachable)). Defined.


(** Task 4, ready on no CPU, is passed over once when CPU 0 takes task 3. *)
Lemma scheduler_round_robin_fair_witness : (length [(demo_tasks, 0%nat)] < 4)%nat.
Proof.
  apply (scheduler_round_robin_fair 4 3 (rr_cursor demo_tasks)); [lia |].
  apply ov_cons; [by vm_compute .. | apply ov_nil].
Defined.

Lemma ipc_request_correct_witness :
  posted demo_run 2 (demo_actor demo_run 2) 4 RqbM.new demo_sent.
Proof.
  assert (exists k, post_request demo_run 0 4 RqbM.new = Ok (k, demo_sent)) as [k E] by (exists None; by vm_compute).
  pose proof (ipc_request_correct demo_run ∅ 0 2 (demo_actor demo_run 2) 4 RqbM.new demo_run_ok
                (demo_acting 2 0 (or_introl (conj eq_refl eq_refl)))) as H.
  rewrite E in H. exact (proj1 H).
Defined.

Lemma demo_sent_ok : sched_ok demo_sent ({[3]} ∪ ∅).
Proof.
  assert (exists k, post_request demo_run 0 4 RqbM.new = Ok (k, demo_sent)) as [k E] by (exists None; by vm_compute).
  apply (reachable_sched _ _ demo_nw). eapply reach_step; [exact demo_run_reachable |].
  assert (3 = id (demo_actor demo_run 2)) as -> by (by vm_compute).
  exact (step_request _ _ _ 0 2 _ 4 RqbM.new k _ (demo_acting 2 0 (or_introl (conj eq_refl eq_refl))) E).
Qed.

(** Task 4 replies to task 3, which it keeps waiting. *)
Lemma ipc_reply_correct_witness :
  exists k s', post_reply demo_sent 1 3 RqbM.new = Ok (k, s') /\ sched_ok s' ({[3]} ∪ ∅).
Proof.
  assert (runs_on demo_sent 1 3 (demo_actor demo_sent 3)) as Hrun
    by (eexists; split; [by vm_compute |]; split; [by vm_compute |]; split; by vm_compute).
  destruct (ipc_reply_correct demo_sent ({[3]} ∪ ∅) 1 3 (demo_actor demo_sent 3) 3 RqbM.new demo_sent_ok Hrun) as [H _].
  assert (exists k s', post_reply demo_sent 1 3 RqbM.new = Ok (k, s')) as (k & s' & E)
    by (eexists _, _; vm_compute; reflexivity).
  rewrite E in H. destruct H as (si & u & _ & _ & _ & _ & _ & OK). exists k, s'. split; [exact E | exact OK].
Defined.

(** Task 4 exits while task 3 waits on it. *)
Lemma exit_aborts_waiters_witness :
  exists k s' t, mark_exited demo_sent 1 = Ok (k, s') /\ task_at s' 2 t /\ state t = Ready
    /\ reply t = Some (aborted 4 3).
Proof.
  assert (acting demo_sent ({[3]} ∪ ∅) 1 3 (demo_actor demo_sent 3)) as Ha.
  { split; [eexists; split; [by vm_compute |]; split; [by vm_compute |]; split; by vm_compute |].
    split; [by vm_compute |]. split; [| by vm_compute].
    assert (id (demo_actor demo_sent 3) = 4) as -> by (by vm_compute).
    intros [H%elem_of_singleton | H%elem_of_empty]%elem_of_union; done. }
  destruct (exit_aborts_waiters demo_sent ({[3]} ∪ ∅) 1 3 _ demo_sent_ok Ha) as (k & s' & E & _ & _ & Hw & _).
  exists k, s'. eexists. split; [exact E |]. split; [apply (Hw 2%nat (demo_actor demo_sent 2)); [lia | by vm_compute] |].
  split; by vm_compute.
Defined.
End Sched.
