(* ===== verification/BlockDev.v ===== *)
(** The virtio block device as the filesystems see it (src/virtio/blk.rs), and the
    state-and-error monad their operations run in.

    The medium is a map from sector numbers to sector contents.  How the hardware
    answers the [n]-th request is [env n]: completed with a status, timed out,
    completed with a foreign descriptor, or not accepted by the queue.  A write that
    fails may still have reached the medium ([landed]).  Everything the driver does
    around the queue (bounds, poisoning after a timeout, status check) is modelled;
    the queue itself is in the answer. *)

From Stdlib Require Import ZArith Lia.
From stdpp Require Import base list list_numbers numbers decidable tactics strings gmap.
From S2P Require Import Prelude.

Module Blk.

Definition SECTOR_SIZE : Z := 512.
Definition MAX_SECTORS_PER_REQ : Z := 8.

Inductive response :=
| Completed (status : Z) (landed : bool)
| TimedOut (landed : bool)
| StaleCompletion (landed : bool)
| QueueFull.

Record BlkDevice := mkBlk {
  capacity_sectors : Z; failed : bool; media : gmap Z (list Z); requests : nat }.

(** [chunks(n)]: pieces of [n] elements, the last one possibly shorter. *)
Fixpoint chunks_aux {A} (fuel : nat) (n : nat) (l : list A) : list (list A) :=
  match fuel, l with
  | S fuel', _ :: _ => take n l :: chunks_aux fuel' n (drop n l)
  | _, _ => []
  end.
Definition chunks {A} (n : nat) (l : list A) : list (list A) := chunks_aux (length l) n l.

Definition zero_sector : list Z := replicate 512 0.
Definition sector_of (m : gmap Z (list Z)) (lba : Z) : list Z := default zero_sector (m !! lba).
Fixpoint put_sectors (m : gmap Z (list Z)) (lba : Z) (cs : list (list Z)) : gmap Z (list Z) :=
  match cs with [] => m | c :: cs' => put_sectors (<[lba := c]> m) (lba + 1) cs' end.

(** Medium and poison flag after an answered request. *)
Definition after (d : BlkDevice) (poison : bool) (m : gmap Z (list Z)) : BlkDevice :=
  mkBlk (capacity_sectors d) (failed d || poison) m (S (requests d)).

Section Device.
Context (env : nat -> response).

(** [do_request]: [None] is the assertion failure on the buffer's length; else
    success, the buffer and the device afterwards. *)
Definition do_request (dev : BlkDevice) (write : bool) (sector : Z) (buf : list Z)
  : option (bool * list Z * BlkDevice) :=
  if failed dev then Some (false, buf, dev)
  else
    let sectors := Z.of_nat (length buf) / SECTOR_SIZE in
    if negb ((1 <=? sectors) && (sectors <=? MAX_SECTORS_PER_REQ)
             && (Z.of_nat (length buf) mod SECTOR_SIZE =? 0)) then None
    else if capacity_sectors dev <? sector + sectors then Some (false, buf, dev)
    else
      let written := put_sectors (media dev) sector (chunks 512 buf) in
      let unsure (landed : bool) := if write && landed then written else media dev in
      Some
        match env (requests dev) with
        | QueueFull => (false, buf, after dev false (media dev))
        | TimedOut landed => (false, buf, after dev true (unsure landed))
        | StaleCompletion landed => (false, buf, after dev true (unsure landed))
        | Completed status landed =>
            if status =? 0 then
              if write then (true, buf, after dev false written)
              else (true, mjoin (map (sector_of (media dev)) (seqZ sector sectors)),
                    after dev false (media dev))
            else (false, buf, after dev false (unsure landed))
        end.

Definition read_sectors (dev : option BlkDevice) (sector : Z) (buf : list Z)
  : option (bool * list Z * option BlkDevice) :=
  match dev with
  | Some d => '(ok, b, d') ← do_request d false sector buf; Some (ok, b, Some d')
  | None => Some (false, buf, None)
  end.
Definition write_sectors (dev : option BlkDevice) (sector : Z) (buf : list Z)
  : option (bool * list Z * option BlkDevice) :=
  match dev with
  | Some d => '(ok, b, d') ← do_request d true sector buf; Some (ok, b, Some d')
  | None => Some (false, buf, None)
  end.
End Device.

Definition available (dev : option BlkDevice) : bool :=
  match dev with Some d => negb (failed d) | None => false end.
Definition capacity (dev : option BlkDevice) : Z :=
  match dev with Some d => capacity_sectors d | None => 0 end.

(** * State and errors *)

(** A computation on state [S]: an error leaves the state it happened in. *)
Definition M (S A : Type) : Type := S -> outcome string A * S.
#[global] Instance M_ret {S} : MRet (M S) := fun A a s => (Ok a, s).
#[global] Instance M_bind {S} : MBind (M S) := fun A B f m s =>
  match m s with
  | (Ok a, s') => f a s'
  | (Err e, s') => (Err e, s')
  | (Panic, s') => (Panic, s')
  end.
Definition get {S} : M S S := fun s => (Ok s, s).
Definition modify {S} (f : S -> S) : M S unit := fun s => (Ok tt, f s).
Definition lift {S A} (o : outcome string A) : M S A := fun s => (o, s).
Definition fail {S A} (e : string) : M S A := fun s => (Err e, s).
Definition guard {S} (b : bool) (e : string) : M S unit := lift (guard_err b e).
(** The result of a computation as a value: [match ... { Ok .. Err .. }]. *)
Definition catch {S A} (m : M S A) : M S (A + string) := fun s =>
  match m s with
  | (Ok a, s') => (Ok (inl a), s')
  | (Err e, s') => (Ok (inr e), s')
  | (Panic, s') => (Panic, s')
  end.
(** [for x in l { body?; }]. *)
Fixpoint for_each {S A} (l : list A) (body : A -> M S unit) : M S unit :=
  match l with
  | [] => mret tt
  | x :: l' => body x ≫= fun _ => for_each l' body
  end.
(** [for x in l { out.push(body?) }]. *)
Fixpoint collect_each {S A B} (l : list A) (body : A -> M S B) : M S (list B) :=
  match l with
  | [] => mret []
  | x :: l' => b ← body x; bs ← collect_each l' body; mret (b :: bs)
  end.
(** Run on a part of a larger state. *)
Definition zoom {S T A} (pr : T -> S) (put : S -> T -> T) (m : M S A) : M T A := fun t =>
  let '(r, s) := m (pr t) in (r, put s t).

(** One-sector transfers, as both filesystems issue them. *)
Section Sector.
Context (env : nat -> response).

Definition dev_read (lba : Z) : M BlkDevice (option (list Z)) := fun d =>
  match do_request env d false lba zero_sector with
  | Some (ok, b, d') => (Ok (if ok : bool then Some b else None), d')
  | None => (Panic, d)
  end.
Definition dev_write (lba : Z) (data : list Z) : M BlkDevice bool := fun d =>
  match do_request env d true lba data with
  | Some (ok, _, d') => (Ok ok, d')
  | None => (Panic, d)
  end.
End Sector.

(** * Reasoning about computations *)

(** [m] run from [s] does not panic; [Q] holds of its result, [E] of its error. *)
Definition wp {S A} (m : M S A) (s : S) (Q : A -> S -> Prop) (E : string -> S -> Prop) : Prop :=
  match m s with (Ok a, s') => Q a s' | (Err e, s') => E e s' | (Panic, _) => False end.

Lemma wp_ret {S A} (a : A) (s : S) Q E : Q a s -> wp (mret a) s Q E.
Proof. done. Qed.
Lemma wp_bind {S A B} (m : M S A) (f : A -> M S B) s Q E :
  wp m s (fun a s' => wp (f a) s' Q E) E -> wp (m ≫= f) s Q E.
Proof. unfold wp, mbind, M_bind. by destruct (m s) as [[a | e |] s']. Qed.
Lemma wp_mono {S A} (m : M S A) s (Q Q' : A -> S -> Prop) (E E' : string -> S -> Prop) :
  wp m s Q E -> (forall a s', Q a s' -> Q' a s') -> (forall e s', E e s' -> E' e s') -> wp m s Q' E'.
Proof. unfold wp. destruct (m s) as [[a | e |] s']; auto. Qed.
Lemma wp_guard {S} b e (s : S) (Q : unit -> S -> Prop) (E : string -> S -> Prop) :
  (b = true -> E e s) -> (b = false -> Q tt s) -> wp (guard b e) s Q E.
Proof. unfold wp, guard, lift, guard_err. destruct b; auto. Qed.
Lemma wp_lift {S A} (o : outcome string A) (s : S) (Q : A -> S -> Prop) (E : string -> S -> Prop) :
  match o with Ok a => Q a s | Err e => E e s | Panic => False end -> wp (lift o) s Q E.
Proof. done. Qed.
Lemma wp_fail {S A} e (s : S) (Q : A -> S -> Prop) (E : string -> S -> Prop) : E e s -> wp (fail e) s Q E.
Proof. done. Qed.
Lemma wp_catch {S A} (m : M S A) s (Q : A + string -> S -> Prop) E :
  wp m s (fun a => Q (inl a)) (fun e => Q (inr e)) -> wp (catch m) s Q E.
Proof. unfold wp, catch. by destruct (m s) as [[a | e |] s']. Qed.

(** A loop: [I] holds before the elements not yet visited. *)
Lemma wp_for_each {S A} (l : list A) (body : A -> M S unit) (I : list A -> list A -> S -> Prop)
  (Q : unit -> S -> Prop) (E : string -> S -> Prop) s :
  I [] l s -> (forall s, I l [] s -> Q tt s) ->
  (forall done x rest s, l = done ++ x :: rest -> I done (x :: rest) s ->
     wp (body x) s (fun _ s' => I (done ++ [x]) rest s') E) ->
  wp (for_each l body) s Q E.
Proof.
  intros H0 HQ Hstep.
  assert (forall rest done s, l = done ++ rest -> I done rest s -> wp (for_each rest body) s Q E) as H.
  { induction rest as [| x rest IH]; intros dn st Hl HI.
    - apply HQ. rewrite app_nil_r in Hl. by subst.
    - cbn [for_each]. apply wp_bind. eapply wp_mono; [by eapply Hstep | | auto].
      intros [] s' HI'. apply (IH (dn ++ [x])); [by rewrite <- app_assoc | done]. }
  by apply (H l []).
Qed.

(** ** One-sector transfers *)

Definition sector_ok (b : list Z) : Prop := length b = 512%nat /\ Forall is_byte b.
Definition media_ok (m : gmap Z (list Z)) : Prop := map_Forall (fun _ b => sector_ok b) m.

Lemma zero_sector_ok : sector_ok zero_sector.
Proof.
  unfold sector_ok, zero_sector. rewrite length_replicate. split; [done |].
  apply Forall_replicate. unfold is_byte. lia.
Qed.
Lemma sector_of_ok m l : media_ok m -> sector_ok (sector_of m l).
Proof.
  intros H. unfold sector_of. destruct (m !! l) as [b |] eqn:E; [by apply (H l) | exact zero_sector_ok].
Qed.
Lemma sector_of_insert m l b l' : sector_of (<[l := b]> m) l' = if decide (l' = l) then b else sector_of m l'.
Proof. unfold sector_of. case_decide; subst; [by rewrite lookup_insert_eq | by rewrite lookup_insert_ne]. Qed.
Lemma media_ok_insert m l b : media_ok m -> sector_ok b -> media_ok (<[l := b]> m).
Proof. intros H1 H2. by apply map_Forall_insert_2. Qed.

Lemma chunks_one {A} n (l : list A) : (0 < n)%nat -> length l = n -> chunks n l = [l].
Proof.
  intros Hn Hl. unfold chunks. destruct l as [| x l]; [cbn in Hl; lia |]. cbn [length chunks_aux] in *.
  rewrite take_ge by (cbn; lia). rewrite drop_ge by (cbn; lia). by destruct (length l).
Qed.

Lemma seqZ_one l : seqZ l 1 = [l].
Proof. reflexivity. Qed.

(** What a transfer of one sector does to the device. *)
Record touched (d d' : BlkDevice) : Prop := {
  to_cap : capacity_sectors d' = capacity_sectors d;
  to_failed : failed d = true -> failed d' = true }.

Lemma dev_read_spec env l d :
  exists o d', dev_read env l d = (Ok o, d') /\ media d' = media d /\ touched d d'
    /\ (o = Some (sector_of (media d) l) \/ o = None).
Proof.
  unfold dev_read, do_request. destruct (failed d) eqn:Ef.
  { eexists None, d. split_and!; auto. by split. }
  cbn [negb]. change (Z.of_nat (length zero_sector)) with 512. cbn [Z.leb Z.compare andb Z.eqb].
  change (512 / SECTOR_SIZE) with 1. change (512 mod SECTOR_SIZE) with 0. cbn [Z.leb Z.compare andb Z.eqb negb].
  change (1 <=? MAX_SECTORS_PER_REQ) with true. cbn [negb andb].
  destruct (capacity_sectors d <? l + 1) eqn:Ec.
  { eexists None, d. split_and!; auto. by split. }
  destruct (env (requests d)) as [st ld | ld | ld |]; cbn [andb].
  - destruct (st =? 0).
    + eexists _, _. split; [done |]. split; [done |]. split; [split; cbn; [done | by rewrite Ef] |].
      left. rewrite seqZ_one. cbn [map mjoin list_join]. by rewrite app_nil_r.
    + eexists _, _. split; [done |]. split_and!; auto. split; cbn; [done | by rewrite Ef].
  - eexists _, _. split; [done |]. split_and!; auto. split; cbn; [done | by rewrite Ef].
  - eexists _, _. split; [done |]. split_and!; auto. split; cbn; [done | by rewrite Ef].
  - eexists _, _. split; [done |]. split_and!; auto. split; cbn; [done | by rewrite Ef].
Qed.

Lemma dev_write_spec env l data d :
  length data = 512%nat ->
  exists b d', dev_write env l data d = (Ok b, d') /\ touched d d'
    /\ (b = true -> media d' = <[l := data]> (media d) /\ l < capacity_sectors d)
    /\ (media d' = media d \/ media d' = <[l := data]> (media d)).
Proof.
  intros Hl. unfold dev_write, do_request. destruct (failed d) eqn:Ef.
  { eexists false, d. split_and!; auto; [by split | done]. }
  rewrite Hl. change (Z.of_nat 512 / SECTOR_SIZE) with 1.
  change (negb ((1 <=? 1) && (1 <=? MAX_SECTORS_PER_REQ) && (Z.of_nat 512 mod SECTOR_SIZE =? 0))) with false.
  cbn iota. destruct (capacity_sectors d <? l + 1) eqn:Ec.
  { eexists false, d. split_and!; auto; [by split | done]. }
  rewrite chunks_one by (done || lia). cbn [put_sectors].
  assert (forall p m, touched d (after d p m)) as Ht by (intros p m; split; cbn; [done | by rewrite Ef]).
  destruct (env (requests d)) as [st ld | ld | ld |]; cbn [andb].
  - destruct (st =? 0); eexists _, _; (split; [done |]); cbn [media after].
    + split_and!; auto. intros _. split; [done | lia].
    + split_and!; auto; [done |]. destruct ld; auto.
  - eexists _, _. split; [done |]. cbn [media after]. split_and!; auto; [done |]. destruct ld; auto.
  - eexists _, _. split; [done |]. cbn [media after]. split_and!; auto; [done |]. destruct ld; auto.
  - eexists _, _. split; [done |]. cbn [media after]. split_and!; auto; done.
Qed.
End Blk.
