(* ===== verification/AddressSpace.v ===== *)
(** User address spaces on amd64 (src/arch/amd64/memory.rs) and the programs loaded into
    them (src/memory/user.rs): four-level page tables as words of physical memory, taken
    from and returned to the frame allocator. *)

From Stdlib Require Import ZArith Lia.
From stdpp Require Import base list list_numbers numbers decidable tactics strings.
From S2P Require Import Prelude FrameAllocator Elf UserSpace BlockDev.
Import Frames Blk.

Module AddressSpace.

(** * State *)

(** What the code works on: the global frame allocator once it is set, physical memory
    (the kernel reaches all of it through the offset window, so a table is addressed by
    its physical address here), the captured root, the root this CPU has loaded, the
    ownership bitmap of user slots, and how many random words were drawn. *)
Record world := mkWorld {
  FRAME_ALLOC : option FrameAllocator; mem : phys_mem; KERNEL_ROOT : Z; cr3 : Z; SLOTS : Z; draws : nat }.
Definition set_frames (fa : FrameAllocator) (m : phys_mem) (w : world) : world :=
  mkWorld (Some fa) m (KERNEL_ROOT w) (cr3 w) (SLOTS w) (draws w).
Definition set_mem (m : phys_mem) (w : world) : world :=
  mkWorld (FRAME_ALLOC w) m (KERNEL_ROOT w) (cr3 w) (SLOTS w) (draws w).
Definition set_slots (s : Z) (w : world) : world :=
  mkWorld (FRAME_ALLOC w) (mem w) (KERNEL_ROOT w) (cr3 w) s (draws w).
Definition W := M world.

Definition read (a : Z) : W Z := fun w => (Ok (mem w a), w).
Definition write (a v : Z) : W unit := fun w => (Ok tt, set_mem (write_word (mem w) a v) w).

(** [with_frame_allocator(|fa| fa.allocate_zeroed_frame())]: [None] before the allocator is set. *)
Definition allocate : W (option (option Z)) := fun w =>
  match FRAME_ALLOC w with
  | None => (Ok None, w)
  | Some fa => let '(r, fa', m') := allocate_zeroed_frame fa (mem w) in (Ok (Some r), set_frames fa' m' w)
  end.
Definition alloc_zeroed_frame : W (option Z) :=
  o ← allocate; mret (match o with Some (Some pa) => Some pa | _ => None end).
(** A failed assertion of the allocator is a panic. *)
Definition free_frame (pa : Z) : W unit := fun w =>
  match FRAME_ALLOC w with
  | None => (Ok tt, w)
  | Some fa =>
      match deallocate_frame fa (mem w) pa with
      | Some (fa', m') => (Ok tt, set_frames fa' m' w)
      | None => (Panic, w)
      end
  end.

(** * Page tables *)

Definition PTE_PRESENT : Z := Z.shiftl 1 0.
Definition PTE_WRITABLE : Z := Z.shiftl 1 1.
Definition PTE_USER : Z := Z.shiftl 1 2.
Definition PTE_HUGE : Z := Z.shiftl 1 7.
Definition PTE_NX : Z := Z.shiftl 1 63.
Definition PTE_ADDR : Z := 0x000FFFFFFFFFF000.
Definition USER_PML4_SLOT : Z := Z.land (Z.shiftr UserBounds.USER_BASE 39) 0x1ff.

Definition present (e : Z) : bool := negb (Z.land e PTE_PRESENT =? 0).
Definition huge (e : Z) : bool := negb (Z.land e PTE_HUGE =? 0).
Definition addr (e : Z) : Z := Z.land e PTE_ADDR.
(** The entry of the table at [t] that an address selects on [level]. *)
Definition index (level : nat) (va : Z) : Z := Z.land (Z.shiftr va (12 + 9 * Z.of_nat level)) 0x1ff.
Definition entry_at (t : Z) (i : Z) : Z := t + 8 * i.

Definition kernel_root : W Z := fun w =>
  if negb (KERNEL_ROOT w =? 0) then (Ok (KERNEL_ROOT w), w)
  else (Ok (cr3 w), mkWorld (FRAME_ALLOC w) (mem w) (cr3 w) (cr3 w) (SLOTS w) (draws w)).

Definition new_address_space : W Z :=
  o ← alloc_zeroed_frame;
  root ← lift (ok_or o "out of memory for a page table");
  kernel ← kernel_root;
  _ ← for_each (seqZ 0 512) (fun i =>
        if negb (i =? USER_PML4_SLOT) then v ← read (entry_at kernel i); write (entry_at root i) v else mret tt);
  mret root.

(** From the table [t] of [level] to the leaf entry of [va], adding tables on the way. *)
Fixpoint walk_create (level : nat) (t va : Z) : W (option Z) :=
  let e := entry_at t (index level va) in
  match level with
  | O => mret (Some e)
  | S l =>
      v ← read e;
      if negb (present v) then
        o ← alloc_zeroed_frame;
        match o with
        | None => mret None
        | Some pa =>
            _ ← write e (Z.lor (Z.lor (Z.lor pa PTE_PRESENT) PTE_WRITABLE) PTE_USER);
            v ← read e;
            walk_create l (addr v) va
        end
      else if huge v then mret None
      else walk_create l (addr v) va
  end.

Definition leaf_entry (pa : Z) (writable executable : bool) : Z :=
  let pte := Z.lor (Z.lor (addr pa) PTE_PRESENT) PTE_USER in
  let pte := if writable then Z.lor pte PTE_WRITABLE else pte in
  if negb executable then Z.lor pte PTE_NX else pte.

Definition map_user_page (root va pa : Z) (writable executable : bool) : W unit :=
  let pte := leaf_entry pa writable executable in
  o ← walk_create 3 root va;
  e ← lift (ok_or o "out of memory for page tables");
  v ← read e;
  _ ← guard (present v) "page already mapped";
  write e pte.

(** The loop of [free_level]; [deeper] releases what a present entry points to. *)
Fixpoint free_entries (deeper : Z -> Z -> W Z) (t : Z) (is_ : list Z) (freed : Z) : W Z :=
  match is_ with
  | [] => mret freed
  | i :: rest =>
      e ← read (entry_at t i);
      if negb (present e) then free_entries deeper t rest freed
      else
        freed ← deeper (addr e) freed;
        _ ← free_frame (addr e);
        free_entries deeper t rest (freed + 1)
  end.
(** [level] counts down to the tables of leaves at 1. *)
Fixpoint free_level (level : nat) (t freed : Z) : W Z :=
  match level with
  | O => mret freed
  | S l => free_entries (free_level l) t (seqZ 0 512) freed
  end.
Definition free_address_space (root : Z) : W Z :=
  top ← read (entry_at root USER_PML4_SLOT);
  freed ← (if present top then
             freed ← free_level 3 (addr top) 0; _ ← free_frame (addr top); mret (freed + 1)
           else mret 0);
  _ ← free_frame root;
  mret (freed + 1).

(** The tables on the way to a relocated word, all private to the user. *)
Fixpoint private_walk (level : nat) (t va : Z) : W Z :=
  match level with
  | O => mret t
  | S l =>
      e ← read (entry_at t (index level va));
      _ ← guard (negb (Z.land e (Z.lor (Z.lor PTE_PRESENT PTE_USER) PTE_HUGE) =? Z.lor PTE_PRESENT PTE_USER))
            "missing private relocation table";
      private_walk l (addr e) va
  end.
Definition relocate_private_data (root va value : Z) : W unit :=
  _ ← guard ((root =? 0) || negb (Z.land va 7 =? 0) || (va <? UserBounds.USER_BASE) || (UserBounds.USER_END <=? va))
        "invalid private relocation target";
  t ← private_walk 3 root va;
  e ← read (entry_at t (index 0 va));
  let bits := Z.lor (Z.lor PTE_PRESENT PTE_USER) PTE_NX in
  _ ← guard (negb (Z.land e bits =? bits)) "relocation target is not NX user data";
  write (addr e + Z.land va 4095) value.

(** * Programs *)

Section Programs.
Context (random : nat -> Z).

Definition random_word : W Z := fun w =>
  (Ok (random (draws w)), mkWorld (FRAME_ALLOC w) (mem w) (KERNEL_ROOT w) (cr3 w) (SLOTS w) (S (draws w))).
Definition layout : W UserLayout.Layout :=
  a ← random_word; b ← random_word; c ← random_word; mret (UserLayout.choose a b c).
Definition claim_slot (rotate : Z) : W (option Z) := fun w =>
  match UserSlots.alloc_slot (SLOTS w) rotate with
  | Some (slot, s) => (Ok (Some slot), set_slots s w)
  | None => (Ok None, w)
  end.
Definition alloc_slot : W (option Z) := r ← random_word; claim_slot r.
Definition free_slot (slot : Z) : W unit := fun w => (Ok tt, set_slots (UserSlots.free_slot (SLOTS w) slot) w).

Definition CODE_OFFSET : Z := 0x1000.
Definition STACK_PAGES : Z := 4.
Definition PAGE : Z := 4096.
Definition MAX_FLAT_IMAGE : Z := Z.shiftl 1 20 - 6 * PAGE.

(** [copy_nonoverlapping] to physical memory, a byte at a time into its word. *)
Definition byte_of (word k : Z) : Z := Z.shiftr word (8 * k) mod 256.
Definition with_byte (word k b : Z) : Z := word + Z.shiftl (b - byte_of word k) (8 * k).
Definition store_byte (m : phys_mem) (a b : Z) : phys_mem :=
  write_word m (a - a mod 8) (with_byte (m (a - a mod 8)) (a mod 8) b).
Definition load_byte (m : phys_mem) (a : Z) : Z := byte_of (m (a - a mod 8)) (a mod 8).
Fixpoint store_bytes (m : phys_mem) (a : Z) (bs : list Z) : phys_mem :=
  match bs with [] => m | b :: bs => store_bytes (store_byte m a b) (a + 1) bs end.

Definition copy_in (a : Z) (bs : list Z) : W unit := fun w => (Ok tt, set_mem (store_bytes (mem w) a bs) w).

Definition map_fresh (space va : Z) (data : list Z) (offset : Z) (writable executable : bool) : W unit :=
  o ← allocate;
  o ← lift (ok_or o "frame allocator not initialized");
  pa ← lift (ok_or o "out of memory");
  let n := Z.min (Z.of_nat (length data)) (PAGE - Z.min offset PAGE) in
  _ ← copy_in (pa + offset) (take (Z.to_nat n) data);
  r ← catch (map_user_page space va pa writable executable);
  match r with
  | inl _ => mret tt
  | inr e => _ ← free_frame pa; fail e
  end.

Definition release (space slot : Z) : W Z :=
  freed ← free_address_space space;
  _ ← free_slot slot;
  mret freed.

Record UserImage := mkUserImage {
  entry : Z; stack_top : Z; stack_edge : Z; startup : Z; space : Z; slot : Z }.

Definition code_page (code : list Z) (i : Z) : list Z :=
  let start := i * PAGE in
  let end_ := Z.min (start + PAGE) (Z.of_nat (length code)) in
  take (Z.to_nat (end_ - start)) (drop (Z.to_nat start) code).

Definition populate (space slot : Z) (code : list Z) (code_pages : Z) : W UserImage :=
  l ← layout;
  let base := UserLayout.bias l in
  _ ← for_each (seqZ 0 code_pages) (fun i =>
        map_fresh space (base + CODE_OFFSET + i * PAGE) (code_page code i) 0 false true);
  let edge := UserLayout.stack_edge l in
  _ ← for_each (seqZ 1 STACK_PAGES) (fun i => map_fresh space (edge - i * PAGE) [] 0 true false);
  mret (mkUserImage (base + CODE_OFFSET) (UserLayout.stack_pointer l) edge 0 space slot).

Definition load_program (code : list Z) : W UserImage :=
  let code_pages := (Z.of_nat (length code) + PAGE - 1) / PAGE in
  _ ← guard (bool_decide (code = []) || (MAX_FLAT_IMAGE <? code_pages * PAGE)) "program too large for a user slot";
  o ← alloc_slot;
  slot ← lift (ok_or o "no free user slots");
  r ← catch new_address_space;
  match r with
  | inr e => _ ← free_slot slot; fail e
  | inl space =>
      r ← catch (populate space slot code code_pages);
      match r with
      | inl img => mret img
      | inr e => _ ← release space slot; fail e
      end
  end.

(** * ELF images *)

Definition ELF_MACHINE : Z := 0x3e.
Definition STARTUP_MAGIC : Z := 0x4d4d5552544c0001.
(** [&bytes[a..a + n]]. *)
Definition slice (bytes : list Z) (a n : Z) : outcome string (list Z) :=
  if (0 <=? a) && (0 <=? n) && (a + n <=? Z.of_nat (length bytes))
  then Ok (take (Z.to_nat n) (drop (Z.to_nat a) bytes)) else Panic.

(** [(first..last).step_by(PAGE)]. *)
Definition segment_pages (s : Elf.Segment) : list Z :=
  let first := Elf.page_down (Elf.vaddr s) in
  let last := Elf.page_down (Elf.vaddr s + Elf.memsz s + PAGE - 1) in
  map (fun k => first + k * PAGE) (seqZ 0 ((last - first + PAGE - 1) / PAGE)).

Definition load_page (space bias : Z) (bytes : list Z) (image : Elf.Image) (s : Elf.Segment) (page : Z) : W unit :=
  let low := Z.max page (Elf.vaddr s) in
  let high := Z.min (page + PAGE) (Elf.vaddr s + Elf.filesz s) in
  data ← lift (if low <? high then slice bytes (Elf.offset s + low - Elf.vaddr s) (high - low) else Ok []);
  o ← alloc_zeroed_frame;
  pa ← lift (ok_or o "out of memory");
  _ ← copy_in (pa + (low - page)) data;
  let writable := Elf.writable s && negb (Elf.readonly_page image page) in
  r ← catch (map_user_page space (bias + page) pa writable (Elf.executable s));
  match r with
  | inl _ => mret tt
  | inr e => _ ← free_frame pa; fail e
  end.

Definition startup_block (guard : Z) : list Z :=
  to_le_bytes 8 STARTUP_MAGIC ++ to_le_bytes 8 guard ++ replicate 16 0.

(** The closure that fills the space.  The relocations are read first: the table lies in
    the file, which nobody changes. *)
Definition load_image (bytes : list Z) (image : Elf.Image) (placement : UserLayout.Layout) (bias slot space : Z) : W UserImage :=
  let edge := UserLayout.stack_edge placement in
  _ ← for_each (Elf.segments image) (fun s => for_each (segment_pages s) (load_page space bias bytes image s));
  relocs ← lift (Elf.relocations image bytes);
  _ ← for_each relocs (fun r => relocate_private_data space (bias + r.1) (bias + r.2));
  g ← random_word;
  let guard := Z.max (Z.land g (unot 64 255)) 256 in
  _ ← for_each (seqZ 1 STACK_PAGES) (fun i =>
        map_fresh space (edge - i * PAGE) (if i =? 1 then startup_block guard else [])
          (if i =? 1 then PAGE - 32 else 0) true false);
  mret (mkUserImage (bias + Elf.entry image) (UserLayout.stack_pointer placement) edge (edge - 32) space slot).

Definition load_elf (bytes : list Z) : W UserImage :=
  image ← lift (Elf.parse bytes ELF_MACHINE UserBounds.USER_BASE UserLayout.IMAGE_LIMIT);
  placement ← layout;
  bias ← (if Elf.pie image then lift (unwrap (UserLayout.image_bias placement (Elf.alignment image))) else mret 0);
  o ← alloc_slot;
  slot ← lift (ok_or o "no free user slots");
  r ← catch new_address_space;
  match r with
  | inr e => _ ← free_slot slot; fail e
  | inl space =>
      r ← catch (load_image bytes image placement bias slot space);
      match r with
      | inl img => mret img
      | inr e => _ ← release space slot; fail e
      end
  end.
Definition check_elf (bytes : list Z) : outcome string unit :=
  _ ← Elf.parse bytes ELF_MACHINE UserBounds.USER_BASE UserLayout.IMAGE_LIMIT; Ok tt.
End Programs.
End AddressSpace.
