(* ===== verification/SpaceTree.v ===== *)
(** Page-table trees (src/arch/amd64/memory.rs): the frames a tree is made of, the leaf
    entry an address selects, and how both change when an entry is filled in. *)

From Stdlib Require Import ZArith Lia.
From stdpp Require Import base list list_numbers numbers decidable tactics strings.
From S2P Require Import Prelude FrameAllocator UserSpace BlockDev AddressSpace.
Import Frames Blk AddressSpace.

Module SpaceTree.

(** * Entries *)

Lemma addr_spec e : addr e = e / 4096 mod 2 ^ 40 * 4096.
Proof.
  unfold addr. change PTE_ADDR with (Z.shiftl (Z.ones 40) 12). rewrite land_shiftl_high by lia.
  rewrite Z.land_ones, Z.shiftr_div_pow2, Z.shiftl_mul_pow2 by lia. done.
Qed.
Lemma addr_lor x y : addr (Z.lor x y) = Z.lor (addr x) (addr y).
Proof. apply Z.land_lor_distr_l. Qed.
Lemma present_lor x y : present (Z.lor x y) = present x || present y.
Proof. unfold present, PTE_PRESENT. rewrite !land_pow2_testbit, !negb_involutive by lia. apply Z.lor_spec. Qed.
Lemma huge_lor x y : huge (Z.lor x y) = huge x || huge y.
Proof. unfold huge, PTE_HUGE. rewrite !land_pow2_testbit, !negb_involutive by lia. apply Z.lor_spec. Qed.

(** Addresses of frames below 2^52. *)
Definition aligned (f : Z) : Prop := exists k, f = k * 4096 /\ 0 <= k < 2 ^ 40.

Lemma addr_aligned e : aligned (addr e).
Proof. rewrite addr_spec. eexists. split; [done |]. apply Z.mod_pos_bound. lia. Qed.
Lemma addr_of_aligned f : aligned f -> addr f = f.
Proof. intros (k & -> & Hk). rewrite addr_spec, Z.div_mul by lia. by rewrite Z.mod_small. Qed.
Lemma aligned_bits f i : aligned f -> 0 <= i < 12 -> Z.testbit f i = false.
Proof. intros (k & -> & _) Hi. change 4096 with (2 ^ 12). apply Z.mul_pow2_bits_low. lia. Qed.
Lemma aligned_absent f : aligned f -> present f = false /\ huge f = false.
Proof.
  intros Ha. unfold present, huge, PTE_PRESENT, PTE_HUGE. rewrite !land_pow2_testbit, !negb_involutive by lia.
  split; apply aligned_bits; (done || lia).
Qed.

Definition table_entry (pa : Z) : Z := Z.lor (Z.lor (Z.lor pa PTE_PRESENT) PTE_WRITABLE) PTE_USER.
Lemma table_entry_spec pa : aligned pa ->
  addr (table_entry pa) = pa /\ present (table_entry pa) = true /\ huge (table_entry pa) = false.
Proof.
  intros Ha. unfold table_entry. destruct (aligned_absent pa Ha) as [Hp Hh].
  rewrite !addr_lor, !present_lor, !huge_lor, addr_of_aligned, Hp, Hh by done. by rewrite !Z.lor_0_r.
Qed.
Lemma leaf_entry_spec pa w x : aligned pa ->
  addr (leaf_entry pa w x) = pa /\ present (leaf_entry pa w x) = true.
Proof.
  intros Ha. unfold leaf_entry. rewrite (addr_of_aligned pa Ha). destruct (aligned_absent pa Ha) as [Hp _].
  destruct w, x; cbn [negb]; rewrite ?addr_lor, ?present_lor, ?(addr_of_aligned pa Ha), ?Hp; by rewrite ?Z.lor_0_r.
Qed.

(** A leaf entry with the given permissions, for user mode. *)
Definition user_page (e : Z) (wr ex : bool) : Prop :=
  present e = true /\ Z.testbit e 2 = true /\ Z.testbit e 1 = wr /\ Z.testbit e 63 = negb ex.
(** An entry that restricts nothing: the table it leads to is open to the user. *)
Definition opens (e : Z) : Prop := user_page e true true /\ huge e = false.

Lemma aligned_63 pa : aligned pa -> Z.testbit pa 63 = false.
Proof. intros (k & -> & Hk). change 4096 with (2 ^ 12). apply (testbit_above 63); lia. Qed.
Lemma leaf_entry_user pa wr ex : aligned pa -> user_page (leaf_entry pa wr ex) wr ex.
Proof.
  intros Ha. split; [by apply leaf_entry_spec |]. unfold leaf_entry. rewrite (addr_of_aligned pa Ha).
  pose proof (aligned_bits pa 1 Ha ltac:(lia)) as H1. pose proof (aligned_bits pa 2 Ha ltac:(lia)) as H2.
  destruct wr, ex; cbn [negb]; rewrite !Z.lor_spec, H1, H2, (aligned_63 pa Ha); done.
Qed.
Lemma table_entry_opens pa : aligned pa -> opens (table_entry pa).
Proof.
  intros Ha. destruct (table_entry_spec pa Ha) as (_ & Hp & Hh). split; [| done]. split; [done |]. unfold table_entry.
  rewrite !Z.lor_spec, (aligned_bits pa 1 Ha ltac:(lia)), (aligned_bits pa 2 Ha ltac:(lia)), (aligned_63 pa Ha). done.
Qed.

Lemma index_range l va : 0 <= index l va < 512.
Proof. unfold index. change 0x1ff with (Z.ones 9). rewrite Z.land_ones by lia. apply Z.mod_pos_bound. lia. Qed.

(** * Words of a frame *)

Definition within (f a : Z) : Prop := f <= a < f + 4096.
Lemma within_inj f g a : aligned f -> aligned g -> within f a -> within g a -> f = g.
Proof. intros (k & -> & _) (j & -> & _). unfold within. lia. Qed.
Lemma entry_within t i : 0 <= i < 512 -> within t (entry_at t i).
Proof. unfold within, entry_at. lia. Qed.

Definition same_on (fs : list Z) (m m' : phys_mem) : Prop := forall f a, f ∈ fs -> within f a -> m' a = m a.
Definition same_off (fs : list Z) (m m' : phys_mem) : Prop := forall a, (forall f, f ∈ fs -> ~ within f a) -> m' a = m a.

Lemma same_off_on fs gs m m' : Forall aligned fs -> Forall aligned gs -> fs ## gs -> same_off fs m m' -> same_on gs m m'.
Proof.
  intros Hf Hg Hd H g a Hin Ha. apply H. intros f Hfin Hfa. rewrite Forall_forall in Hf, Hg.
  pose proof (within_inj f g a (Hf f Hfin) (Hg g Hin) Hfa Ha) as ->. by apply (Hd g).
Qed.
Lemma same_off_mono fs gs m m' : fs ⊆ gs -> same_off fs m m' -> same_off gs m m'.
Proof. intros Hs H a Ha. apply H. intros f Hf. by apply Ha, Hs. Qed.
Lemma same_off_trans fs m m1 m2 : same_off fs m m1 -> same_off fs m1 m2 -> same_off fs m m2.
Proof. intros H1 H2 a Ha. rewrite H2 by done. by apply H1. Qed.
Lemma same_off_write f m a v : within f a -> same_off [f] m (write_word m a v).
Proof.
  intros Ha b Hb. unfold write_word. destruct (Z.eqb_spec b a) as [-> |]; [| done].
  by destruct (Hb f (list_elem_of_here _ _)).
Qed.

(** * Trees *)

Definition ALL : list Z := seqZ 0 512.

(** The frames below the entries [is_] of the table [t] of [level]. *)
Fixpoint tree (m : phys_mem) (level : nat) (t : Z) (is_ : list Z) : list Z :=
  mjoin (map (fun i =>
    let e := m (entry_at t i) in
    if present e then match level with O => [] | S l => tree m l (addr e) ALL end ++ [addr e] else []) is_).
(** The part of it below one entry. *)
Definition branch (m : phys_mem) (level : nat) (e : Z) : list Z :=
  if present e then match level with O => [] | S l => tree m l (addr e) ALL end ++ [addr e] else [].

Lemma tree_eq m l t is_ : tree m l t is_ = mjoin (map (fun i => branch m l (m (entry_at t i))) is_).
Proof. by destruct l. Qed.
Lemma elem_tree m l t is_ f : f ∈ tree m l t is_ <-> exists i, i ∈ is_ /\ f ∈ branch m l (m (entry_at t i)).
Proof.
  rewrite tree_eq, list_elem_of_join. split.
  - intros (b & Hf & Hb). apply list_elem_of_fmap in Hb as (i & -> & Hi). eauto.
  - intros (i & Hi & Hf). eexists. split; [exact Hf |]. apply list_elem_of_fmap. eauto.
Qed.

(** The tables among them: all but the frames that leaf entries map. *)
Fixpoint tables (m : phys_mem) (level : nat) (t : Z) (is_ : list Z) : list Z :=
  match level with
  | O => []
  | S l => mjoin (map (fun i => let e := m (entry_at t i) in
             if present e then tables m l (addr e) ALL ++ [addr e] else []) is_)
  end.
Lemma elem_tables m l t is_ f : f ∈ tables m (S l) t is_ <->
  exists i, i ∈ is_ /\ present (m (entry_at t i)) = true /\ f ∈ addr (m (entry_at t i)) :: tables m l (addr (m (entry_at t i))) ALL.
Proof.
  cbn [tables]. rewrite list_elem_of_join. split.
  - intros (b & Hf & Hb). apply list_elem_of_fmap in Hb as (i & -> & Hi). exists i. split; [done |].
    destruct (present _); [| by apply not_elem_of_nil in Hf]. split; [done |].
    apply elem_of_app in Hf as [Hf | ->%list_elem_of_singleton]; [by right | by left].
  - intros (i & Hi & Hp & Hf). eexists. split; [| apply list_elem_of_fmap; by exists i]. cbn. rewrite Hp.
    apply elem_of_app. apply elem_of_cons in Hf as [-> | Hf]; [right; by left | by left].
Qed.
Lemma tables_tree m l : forall t is_, tables m l t is_ ⊆ tree m l t is_.
Proof.
  induction l as [| l IH]; intros t is_ f Hf; [by apply not_elem_of_nil in Hf |].
  apply elem_tables in Hf as (i & Hi & Hp & Hf). apply elem_tree. exists i. split; [done |]. unfold branch. rewrite Hp.
  apply elem_of_app. apply elem_of_cons in Hf as [-> | Hf]; [right; by left | left; by apply IH].
Qed.

Lemma tree_aligned m l : forall t is_, Forall aligned (tree m l t is_).
Proof.
  induction l as [| l IH]; intros t is_; apply Forall_forall; intros f Hf; apply elem_tree in Hf as (i & _ & Hf);
    unfold branch in Hf; destruct (present _); try (by apply not_elem_of_nil in Hf).
  - apply list_elem_of_singleton in Hf as ->. apply addr_aligned.
  - apply elem_of_app in Hf as [Hf | ->%list_elem_of_singleton]; [| apply addr_aligned].
    by eapply Forall_elem in Hf; [| apply IH].
Qed.

(** The entries used lie in the table. *)
Definition indexes (is_ : list Z) : Prop := NoDup is_ /\ Forall (fun i => 0 <= i < 512) is_.
Lemma indexes_all : indexes ALL.
Proof. split; [apply NoDup_seqZ |]. apply Forall_forall. intros i Hi%elem_of_seqZ. lia. Qed.

Lemma index_all l va : index l va ∈ ALL.
Proof. unfold ALL. apply elem_of_seqZ. pose proof (index_range l va). lia. Qed.

(** All of this depends on the words of the tables alone. *)
Lemma same_on_tables m m' l t is_ : same_on (t :: tree m l t is_) m m' -> same_on (t :: tables m l t is_) m m'.
Proof. intros H f a Hf. apply H. apply elem_of_cons in Hf as [-> | Hf]; [by left | right; by apply tables_tree]. Qed.
Lemma same_on_child m m' l t is_ i : i ∈ is_ -> present (m (entry_at t i)) = true -> same_on (t :: tables m (S l) t is_) m m' ->
  same_on (addr (m (entry_at t i)) :: tables m l (addr (m (entry_at t i))) ALL) m m'.
Proof. intros Hi Hp H f a Hf. apply H. right. apply elem_tables. eauto. Qed.

Lemma tree_same m m' l : forall t is_, indexes is_ -> same_on (t :: tables m l t is_) m m' -> tree m' l t is_ = tree m l t is_.
Proof.
  induction l as [| l IH]; intros t is_ [Hn Hi] H; rewrite !tree_eq; f_equal; apply map_ext_in; intros i Hin%list_elem_of_In;
    rewrite (H t (entry_at t i)) by (by left || by apply entry_within; eapply Forall_elem in Hin; [| exact Hi]); [done |].
  unfold branch. destruct (present _) eqn:Ep; [| done]. f_equal. apply IH; [apply indexes_all | by apply (same_on_child m m' l t is_)].
Qed.

Lemma tables_same m m' l : forall t is_, indexes is_ -> same_on (t :: tables m l t is_) m m' -> tables m' l t is_ = tables m l t is_.
Proof.
  induction l as [| l IH]; intros t is_ [Hn Hi] H; [done |]. cbn [tables]. f_equal. apply map_ext_in. intros i Hin%list_elem_of_In.
  rewrite (H t (entry_at t i)) by (by left || by apply entry_within; eapply Forall_elem in Hin; [| exact Hi]). cbn zeta.
  destruct (present _) eqn:Ep; [| done]. f_equal. apply IH; [apply indexes_all | by apply (same_on_child m m' l t is_)].
Qed.

(** The address of the leaf entry of [va], if every table on the way is there. *)
Fixpoint slot_of (m : phys_mem) (level : nat) (t va : Z) : option Z :=
  let e := entry_at t (index level va) in
  match level with
  | O => Some e
  | S l => if present (m e) && negb (huge (m e)) then slot_of m l (addr (m e)) va else None
  end.
(** The entry that maps [va]. *)
Definition leaf (m : phys_mem) (level : nat) (t va : Z) : option Z :=
  a ← slot_of m level t va; if present (m a) then Some (m a) else None.
Fixpoint same_page (level : nat) (va va' : Z) : bool :=
  (index level va' =? index level va) && match level with O => true | S l => same_page l va va' end.

Lemma branch_same m m' l e : same_on (branch m l e) m m' -> branch m' l e = branch m l e.
Proof.
  unfold branch. destruct (present e); [| done]. destruct l as [| l]; [done |]. intros H. f_equal.
  apply tree_same; [apply indexes_all |]. apply same_on_tables. intros f a Hf. apply H, elem_of_app.
  apply elem_of_cons in Hf as [-> | Hf]; [right; by left | by left].
Qed.

Lemma slot_in_table m l : forall t va a is_, indexes is_ -> index l va ∈ is_ -> slot_of m l t va = Some a ->
  exists f, f ∈ t :: tables m l t is_ /\ within f a.
Proof.
  induction l as [| l IH]; intros t va a is_ Hi Hin; cbn [slot_of].
  - intros [= <-]. exists t. split; [by left | apply entry_within, index_range].
  - destruct (present _) eqn:Ep; [| done]. destruct (negb _); [| done]. cbn [andb]. intros Hs.
    destruct (IH _ _ _ ALL indexes_all (index_all l va) Hs) as (f & Hf & Ha).
    exists f. split; [| done]. right. apply elem_tables. eauto.
Qed.
Lemma slot_within m l t va a is_ : indexes is_ -> index l va ∈ is_ -> slot_of m l t va = Some a ->
  exists f, f ∈ t :: tree m l t is_ /\ within f a.
Proof.
  intros Hix Hi Hs. destruct (slot_in_table m l t va a is_ Hix Hi Hs) as (f & Hf & Ha). exists f. split; [| done].
  apply elem_of_cons in Hf as [-> | Hf]; [by left | right; by apply tables_tree].
Qed.

Lemma slot_same m m' l : forall t va is_, indexes is_ -> index l va ∈ is_ -> same_on (t :: tables m l t is_) m m' ->
  slot_of m' l t va = slot_of m l t va.
Proof.
  induction l as [| l IH]; intros t va is_ Hi Hin H; cbn [slot_of]; [done |].
  rewrite (H t (entry_at t (index (S l) va))) by (by left || apply entry_within, index_range).
  destruct (present _) eqn:Ep; [| done]. destruct (negb _); [| done]. cbn [andb].
  apply (IH _ _ ALL indexes_all); [apply index_all | by apply (same_on_child m m' l t is_)].
Qed.
Lemma leaf_same m m' l t va is_ : indexes is_ -> index l va ∈ is_ -> same_on (t :: tables m l t is_) m m' ->
  leaf m' l t va = leaf m l t va.
Proof.
  intros Hi Hin H. unfold leaf. rewrite (slot_same m m' l t va is_) by done.
  destruct (slot_of m l t va) as [a |] eqn:E; [| done]. cbn.
  destruct (slot_in_table m l t va a is_ Hi Hin E) as (f & Hf & Ha). by rewrite (H f a Hf Ha).
Qed.

(** * What the processor lets user code do *)

(** The processor's walk from the table [t] of [level], for a read, a write ([wr]) or an
    instruction fetch ([ex]) in user mode: every entry on the way has to allow it.  The
    result is the physical address. *)
Fixpoint access (m : phys_mem) (level : nat) (t va : Z) (wr ex : bool) : option Z :=
  let e := m (entry_at t (index level va)) in
  if present e && Z.testbit e 2 && (Z.testbit e 1 || negb wr) && negb (Z.testbit e 63 && ex) then
    match level with
    | O => Some (addr e + va mod 4096)
    | S l =>
        let size := 2 ^ (12 + 9 * Z.of_nat level) in
        if huge e then Some (addr e - addr e mod size + va mod size) else access m l (addr e) va wr ex
    end
  else None.

(** Every table below the entries [is_] is open to the user: leaves alone decide. *)
Fixpoint open (m : phys_mem) (level : nat) (t : Z) (is_ : list Z) : Prop :=
  match level with
  | O => True
  | S l => forall i, i ∈ is_ -> let e := m (entry_at t i) in present e = true -> opens e /\ open m l (addr e) ALL
  end.

Lemma open_same m m' l : forall t is_, indexes is_ -> same_on (t :: tables m l t is_) m m' -> open m l t is_ -> open m' l t is_.
Proof.
  induction l as [| l IH]; intros t is_ [Hn Hi] H; [done |]. cbn [open]. intros Ho i Hin.
  rewrite (H t (entry_at t i)) by (by left || by apply entry_within; eapply Forall_elem in Hin; [| exact Hi]). cbn zeta.
  intros Hp. destruct (Ho i Hin Hp) as [He Hop]. split; [done |].
  apply IH; [apply indexes_all | by apply (same_on_child m m' l t is_) | done].
Qed.

(** In an open tree the leaf entry alone decides. *)
Definition leaf_access (e va : Z) (wr ex : bool) : option Z :=
  if Z.testbit e 2 && (Z.testbit e 1 || negb wr) && negb (Z.testbit e 63 && ex) then Some (addr e + va mod 4096) else None.
Lemma access_leaf m l : forall t is_ va wr ex, open m l t is_ -> index l va ∈ is_ ->
  access m l t va wr ex = e ← leaf m l t va; leaf_access e va wr ex.
Proof.
  induction l as [| l IH]; intros t is_ va wr ex Ho Hi; unfold leaf; cbn [access slot_of].
  - cbn. unfold leaf_access. by destruct (present _).
  - destruct (present _) eqn:Ep; cbn [andb]; [| done]. destruct (Ho _ Hi Ep) as [[(_ & Hu & Hw & Hx) Hh] Hop].
    rewrite Hh. cbn [negb]. rewrite Hu, Hw, Hx. cbn [andb orb negb]. by rewrite (IH _ ALL) by (done || apply index_all).
Qed.

(** * Changing one branch *)

Lemma join_change (g g' : Z -> list Z) is_ i N : NoDup is_ -> i ∈ is_ ->
  (forall j, j ∈ is_ -> j <> i -> g' j = g j) -> g' i ≡ₚ g i ++ N -> mjoin (map g' is_) ≡ₚ mjoin (map g is_) ++ N.
Proof.
  intros Hn Hi Hg Hgi. apply list_elem_of_split in Hi as (a & b & ->).
  apply NoDup_app in Hn as (_ & Ha & Hb). apply NoDup_cons in Hb as [Hib _].
  assert (forall c, c ⊆ a \/ c ⊆ b -> map g' c = map g c) as Hmap.
  { intros c Hc. apply map_ext_in. intros j Hj%list_elem_of_In. apply Hg.
    - apply elem_of_app. destruct Hc as [Hc | Hc]; [left; by apply Hc | right; right; by apply Hc].
    - intros ->. destruct Hc as [Hc | Hc]; [apply (Ha i); [by apply Hc | by left] | by apply Hib, Hc]. }
  rewrite !map_app. cbn [map]. rewrite !join_app. change (mjoin (?x :: ?l)) with (x ++ mjoin l).
  rewrite (Hmap a), (Hmap b), Hgi by auto. rewrite <- !app_assoc. f_equiv. f_equiv. apply Permutation_app_comm.
Qed.

(** [m'] differs from [m] below entry [i] of [t] only, where the frames [N] were added. *)
Record branch_change (m m' : phys_mem) (level : nat) (t : Z) (is_ : list Z) (i : Z) (N : list Z) : Prop := {
  bc_entries : forall j, j ∈ is_ -> j <> i -> m' (entry_at t j) = m (entry_at t j);
  bc_branches : forall j, j ∈ is_ -> j <> i -> same_on (branch m level (m (entry_at t j))) m m';
  bc_here : branch m' level (m' (entry_at t i)) ≡ₚ branch m level (m (entry_at t i)) ++ N }.

Lemma branch_change_tree m m' l t is_ i N : indexes is_ -> i ∈ is_ -> branch_change m m' l t is_ i N ->
  tree m' l t is_ ≡ₚ tree m l t is_ ++ N.
Proof.
  intros [Hn _] Hi [H1 H2 H3]. rewrite !tree_eq. eapply join_change; [done | exact Hi | | done].
  intros j Hj Hne. rewrite (H1 j) by done. apply branch_same. by apply H2.
Qed.
Lemma branch_change_leaf m m' l t is_ i N va : branch_change m m' l t is_ i N -> index l va ∈ is_ -> index l va <> i ->
  slot_of m' l t va = slot_of m l t va /\ leaf m' l t va = leaf m l t va.
Proof.
  intros [H1 H2 _] Hin Hne. specialize (H1 _ Hin Hne). specialize (H2 _ Hin Hne). destruct l as [| l].
  - split; [done |]. unfold leaf. cbn. by rewrite H1.
  - unfold leaf. cbn [slot_of]. rewrite H1. unfold branch in H2. destruct (present _) eqn:Ep; [| done].
    destruct (negb _); [| done]. cbn [andb].
    assert (index l va ∈ ALL) as Hl by apply index_all.
    assert (same_on (addr (m (entry_at t (index (S l) va))) :: tree m l (addr (m (entry_at t (index (S l) va)))) ALL) m m') as Hs.
    { intros f a Hf. apply H2, elem_of_app. apply elem_of_cons in Hf as [-> | Hf]; [right; by left | by left]. }
    apply same_on_tables in Hs.
    split; [by apply (slot_same _ _ _ _ _ ALL indexes_all) | by apply (leaf_same _ _ _ _ _ ALL indexes_all)].
Qed.

Lemma branch_change_tables m m' l t is_ i N N' : branch_change m m' (S l) t is_ i N' ->
  (present (m' (entry_at t i)) = true ->
     addr (m' (entry_at t i)) :: tables m' l (addr (m' (entry_at t i))) ALL
     ⊆ (if present (m (entry_at t i)) then addr (m (entry_at t i)) :: tables m l (addr (m (entry_at t i))) ALL else []) ++ N) ->
  tables m' (S l) t is_ ⊆ tables m (S l) t is_ ++ N.
Proof.
  intros [H1 H2 _] H3 f Hf. apply elem_tables in Hf as (j & Hj & Hp & Hf). destruct (decide (j = i)) as [-> | Hne].
  - apply (H3 Hp) in Hf. apply elem_of_app in Hf as [Hf | Hf]; apply elem_of_app; [left | by right].
    destruct (present (m (entry_at t i))) eqn:Ep; [| by apply not_elem_of_nil in Hf]. apply elem_tables. eauto.
  - rewrite (H1 j Hj Hne) in Hp, Hf. apply elem_of_app. left. apply elem_tables. exists j. split; [done |]. split; [done |].
    rewrite (tables_same m m') in Hf; [done | apply indexes_all |]. apply same_on_tables. intros g a Hg. apply (H2 j Hj Hne). unfold branch. rewrite Hp.
    apply elem_of_app. apply elem_of_cons in Hg as [-> | Hg]; [right; by left | by left].
Qed.

Lemma branch_change_open m m' l t is_ i N : branch_change m m' (S l) t is_ i N -> open m (S l) t is_ ->
  (present (m' (entry_at t i)) = true -> opens (m' (entry_at t i)) /\ open m' l (addr (m' (entry_at t i))) ALL) ->
  open m' (S l) t is_.
Proof.
  intros [H1 H2 _] Ho Hi j Hj. cbn zeta. destruct (decide (j = i)) as [-> | Hne]; [exact Hi |].
  rewrite (H1 j Hj Hne). intros Hp. destruct (Ho j Hj Hp) as [He Hop]. split; [done |].
  apply (open_same m); [apply indexes_all | | done]. apply same_on_tables. intros g a Hg. apply (H2 j Hj Hne). unfold branch. rewrite Hp.
  apply elem_of_app. apply elem_of_cons in Hg as [-> | Hg]; [right; by left | by left].
Qed.

(** A table of zeros maps nothing. *)
Lemma empty_table m l t is_ : indexes is_ -> (forall i, 0 <= i < 512 -> m (entry_at t i) = 0) -> tree m l t is_ = [].
Proof.
  intros [_ Hi] Hz. rewrite tree_eq. induction Hi as [| i is_ Hi _ IH]; [done |].
  cbn [map]. change (mjoin (?x :: ?l)) with (x ++ mjoin l). rewrite IH, Hz by done. done.
Qed.
Lemma empty_leaf m l t va : (forall i, 0 <= i < 512 -> m (entry_at t i) = 0) -> leaf m l t va = None.
Proof. intros Hz. unfold leaf. destruct l; cbn; by rewrite Hz by apply index_range. Qed.
Lemma empty_open m l t is_ : indexes is_ -> (forall i, 0 <= i < 512 -> m (entry_at t i) = 0) -> open m l t is_.
Proof.
  intros [_ Hi] Hz. destruct l as [| l]; [done |]. intros i Hin. cbn zeta. rewrite Hz by (by eapply Forall_elem in Hin; [| exact Hi]). done.
Qed.
End SpaceTree.
