(* ===== verification/SpaceMap.v ===== *)
(** Mapping user pages (src/arch/amd64/memory.rs): what [walk_create] and
    [map_user_page] do to the page tables and to the frame allocator. *)

From Stdlib Require Import ZArith Lia.
From stdpp Require Import base list list_numbers numbers decidable tactics strings.
From S2P Require Import Prelude FrameAllocator UserSpace BlockDev AddressSpace SpaceTree.
Import Frames Blk AddressSpace SpaceTree.

Module SpaceMap.

(** * Frames of the allocator *)

Definition frame_in (fa : FrameAllocator) (free : bool) (f : Z) : Prop :=
  exists k, f = k * FRAME_SIZE /\ 0 <= k < total_frames fa /\ is_free fa k = free.
#[local] Abbreviation used fa := (frame_in fa false).
#[local] Abbreviation free fa := (frame_in fa true).

Lemma frame_aligned fa m b f : wf fa m -> frame_in fa b f -> aligned f.
Proof.
  intros Hw (k & -> & Hk & _). exists k. split; [done |]. pose proof (wf_total _ _ Hw) as Ht.
  assert (BITS <= 2 ^ 40) by by vm_compute. lia.
Qed.
Lemma frame_within k a : in_frame k a <-> within (k * FRAME_SIZE) a.
Proof. unfold in_frame, within, FRAME_SIZE. lia. Qed.
Lemma used_free fa fs gs : Forall (used fa) fs -> Forall (free fa) gs -> fs ## gs.
Proof.
  rewrite !Forall_forall. intros Hf Hg x Hx Hy. destruct (Hf x Hx) as (k & -> & _ & H1), (Hg _ Hy) as (j & E & _ & H2).
  unfold FRAME_SIZE in E. assert (k = j) as -> by lia. congruence.
Qed.

(** The frames [N] were taken from the allocator, and only they and [F] were written. *)
Record grown (fa : FrameAllocator) (m : phys_mem) (fa' : FrameAllocator) (m' : phys_mem) (F N : list Z) : Prop := {
  gr_wf : wf fa' m';
  gr_total : total_frames fa' = total_frames fa;
  gr_nodup : NoDup N;
  gr_free : Forall (free fa) N;
  gr_bits : forall k, 0 <= k -> is_free fa' k = is_free fa k && negb (bool_decide (k * FRAME_SIZE ∈ N));
  gr_mem : same_off (F ++ N) m m';
  gr_count : free_frames fa' = free_frames fa - Z.of_nat (length N) }.

Lemma grown_refl fa m F : wf fa m -> grown fa m fa m F [].
Proof.
  intros Hw. constructor; try done; [constructor | | cbn; lia]. intros k _.
  rewrite bool_decide_eq_false_2 by apply not_elem_of_nil. by rewrite andb_true_r.
Qed.

Lemma grown_used fa m fa' m' F N f : grown fa m fa' m' F N -> used fa f -> used fa' f.
Proof.
  intros G (k & -> & Hk & Hf). exists k. rewrite (gr_total _ _ _ _ _ _ G). split; [done |]. split; [done |].
  by rewrite (gr_bits _ _ _ _ _ _ G), Hf by lia.
Qed.
Lemma grown_new fa m fa' m' F N : grown fa m fa' m' F N -> Forall (used fa') N.
Proof.
  intros G. apply Forall_forall. intros f Hf. pose proof (gr_free _ _ _ _ _ _ G) as Hfr. rewrite Forall_forall in Hfr.
  destruct (Hfr f Hf) as (k & -> & Hk & _). exists k. rewrite (gr_total _ _ _ _ _ _ G). split; [done |]. split; [done |].
  rewrite (gr_bits _ _ _ _ _ _ G) by lia. rewrite bool_decide_eq_true_2 by done. apply andb_false_r.
Qed.
Lemma grown_used_all fa m fa' m' F N fs : grown fa m fa' m' F N -> Forall (used fa) fs -> Forall (used fa') fs.
Proof. intros G H. eapply Forall_impl; [exact H |]. intros f. by apply (grown_used _ _ _ _ _ _ _ G). Qed.

Lemma grown_mono fa m fa' m' F F' N : F ⊆ F' -> grown fa m fa' m' F N -> grown fa m fa' m' F' N.
Proof.
  intros Hs [H1 H2 H3 H4 H5 H6 H7]. constructor; try done. eapply same_off_mono; [| exact H6].
  intros f Hf. apply elem_of_app. apply elem_of_app in Hf as [Hf | Hf]; [left; by apply Hs | by right].
Qed.

Lemma grown_trans fa m fa1 m1 fa2 m2 F F1 N N1 :
  F1 ⊆ F ++ N -> grown fa m fa1 m1 F N -> grown fa1 m1 fa2 m2 F1 N1 -> grown fa m fa2 m2 F (N ++ N1).
Proof.
  intros HF G G1. pose proof (grown_new _ _ _ _ _ _ G) as Hu.
  pose proof (used_free _ _ _ Hu (gr_free _ _ _ _ _ _ G1)) as Hd. destruct G as [A1 A2 A3 A4 A5 A6 A7], G1 as [B1 B2 B3 B4 B5 B6 B7].
  constructor; [done | congruence | | | | |].
  - apply NoDup_app. split; [done |]. split; [| done]. intros x Hx Hy. by apply (Hd x).
  - apply Forall_app. split; [done |]. eapply Forall_impl; [exact B4 |]. intros f (k & -> & Hk & Hf). exists k.
    rewrite A2 in Hk. split; [done |]. split; [done |]. rewrite A5 in Hf by lia. by apply andb_true_iff in Hf as [? _].
  - intros k Hk. rewrite B5, A5 by done. rewrite <- andb_assoc. f_equal. rewrite <- negb_orb. f_equal.
    apply eq_true_iff_eq. rewrite orb_true_iff, !bool_decide_eq_true, elem_of_app. done.
  - intros a Ha. rewrite B6; [apply A6 |].
    + intros f Hf. apply Ha. apply elem_of_app in Hf as [Hf | Hf]; apply elem_of_app; [by left | right; apply elem_of_app; by left].
    + intros f Hf. apply Ha. apply elem_of_app in Hf as [Hf | Hf].
      * apply HF in Hf. apply elem_of_app in Hf as [Hf | Hf]; apply elem_of_app; [by left | right; apply elem_of_app; by left].
      * apply elem_of_app. right. apply elem_of_app. by right.
  - rewrite B7, A7, length_app. lia.
Qed.

(** A store to a frame in use. *)
Lemma grown_write fa m fa' m' F N f a v :
  grown fa m fa' m' F N -> used fa' f -> f ∈ F ++ N -> within f a -> grown fa m fa' (write_word m' a v) F N.
Proof.
  intros [A1 A2 A3 A4 A5 A6 A7] (k & -> & Hk & Hf) Hin Ha. constructor; try done.
  - eapply wf_client_write; [done | exact Hf | by apply frame_within].
  - eapply same_off_trans; [exact A6 |]. eapply same_off_mono; [| by apply same_off_write].
    intros x ->%list_elem_of_singleton. done.
Qed.

(** A tree whose frames are all different and in use. *)
Definition owned (fa : FrameAllocator) (F : list Z) : Prop := NoDup F /\ Forall (used fa) F.

Lemma allocated_grown fa m pa fa' m' : wf fa' m' -> allocated_frame fa m pa fa' m' -> grown fa m fa' m' [] [pa].
Proof.
  intros Hw (k & -> & Hk & Hf & Hz & Hb & Hm & Hc & Ht). constructor; try done.
  - by apply NoDup_singleton.
  - apply Forall_singleton. by exists k.
  - intros j Hj. rewrite Hb by done. f_equal. f_equal. apply eq_true_iff_eq.
    rewrite Z.eqb_eq, bool_decide_eq_true, list_elem_of_singleton. unfold FRAME_SIZE. lia.
  - intros a Ha. apply Hm. rewrite frame_within. apply Ha. by left.
Qed.

(** * Allocating *)

(** The parts of the world that mapping leaves alone. *)
Definition same_rest (w w' : world) : Prop :=
  KERNEL_ROOT w' = KERNEL_ROOT w /\ cr3 w' = cr3 w /\ SLOTS w' = SLOTS w /\ draws w' = draws w.
Lemma same_rest_trans w w1 w2 : same_rest w w1 -> same_rest w1 w2 -> same_rest w w2.
Proof. intros (A & B & C & D) (A' & B' & C' & D'). repeat split; congruence. Qed.

(** A world whose allocator is [fa]. *)
Definition runs (w : world) (fa : FrameAllocator) : Prop := FRAME_ALLOC w = Some fa /\ wf fa (mem w).

Definition zero_table (m : phys_mem) (t : Z) : Prop := forall i, 0 <= i < 512 -> m (entry_at t i) = 0.

Lemma wp_allocate_frame w fa (Q : option (option Z) -> world -> Prop) E : runs w fa ->
  (forall pa fa' w', runs w' fa' -> same_rest w w' -> grown fa (mem w) fa' (mem w') [] [pa] -> zero_table (mem w') pa ->
     Q (Some (Some pa)) w') ->
  Q (Some None) w -> wp allocate w Q E.
Proof.
  intros [Hfa Hw] HQ HN. unfold wp, allocate. rewrite Hfa.
  destruct (allocate_zeroed_frame fa (mem w)) as [[r fa'] m'] eqn:E1.
  destruct (allocate_zeroed_frame_inv _ _ _ _ _ Hw E1) as [Hw' Hr]. destruct r as [pa |].
  - apply (HQ pa fa'); [done | done | by apply allocated_grown |].
    destruct Hr as (k & -> & _ & _ & Hz & _). intros i Hi. apply Hz. done.
  - destruct Hr as (-> & -> & _). by destruct w; cbn in *; subst.
Qed.
Lemma wp_alloc w fa (Q : option Z -> world -> Prop) E : runs w fa ->
  (forall pa fa' w', runs w' fa' -> same_rest w w' -> grown fa (mem w) fa' (mem w') [] [pa] -> zero_table (mem w') pa ->
     Q (Some pa) w') ->
  Q None w -> wp alloc_zeroed_frame w Q E.
Proof.
  intros R HQ HN. unfold alloc_zeroed_frame. apply wp_bind, (wp_allocate_frame w fa); [done | |].
  - intros. by eapply wp_ret, HQ.
  - by apply wp_ret.
Qed.
Lemma wp_read a w (Q : Z -> world -> Prop) E : Q (mem w a) w -> wp (read a) w Q E.
Proof. done. Qed.
Lemma wp_write a v w (Q : unit -> world -> Prop) E : Q tt (set_mem (write_word (mem w) a v) w) -> wp (write a v) w Q E.
Proof. done. Qed.

Lemma write_here m a v : write_word m a v a = v.
Proof. unfold write_word. by rewrite Z.eqb_refl. Qed.
Lemma write_other m a v b : b <> a -> write_word m a v b = m b.
Proof. intros H. unfold write_word. by rewrite (proj2 (Z.eqb_neq _ _) H). Qed.
Lemma entry_inj t i j : entry_at t i = entry_at t j -> i = j.
Proof. unfold entry_at. lia. Qed.

(** * Walking *)

(** What a walk that may add tables leaves of the tree at [t]. *)
Record extends (fa : FrameAllocator) (m : phys_mem) (fa' : FrameAllocator) (m' : phys_mem)
  (level : nat) (t : Z) (is_ N : list Z) : Prop := {
  ex_grown : grown fa m fa' m' (t :: tables m level t is_) N;
  ex_tables : tables m' level t is_ ⊆ tables m level t is_ ++ N;
  ex_tree : tree m' level t is_ ≡ₚ tree m level t is_ ++ N;
  ex_leaf : forall va, index level va ∈ is_ -> leaf m' level t va = leaf m level t va;
  ex_open : open m level t is_ -> open m' level t is_ }.

(** The branches of an owned tree are apart. *)
Lemma tree_parts m l t is_ i : i ∈ is_ -> NoDup (t :: tree m l t is_) -> NoDup is_ ->
  NoDup (branch m l (m (entry_at t i))) /\ ~ (t ∈ branch m l (m (entry_at t i)))
  /\ (forall j, j ∈ is_ -> j <> i -> (branch m l (m (entry_at t j))) ## (branch m l (m (entry_at t i)))).
Proof.
  intros Hi [Ht Hn]%NoDup_cons Hnd. assert (t ∉ branch m l (m (entry_at t i))) as Hti.
  { intros H. apply Ht, elem_tree. eauto. }
  apply list_elem_of_split in Hi as (a & b & ->). rewrite tree_eq, map_app, join_app in Hn. cbn [map] in Hn.
  change (mjoin (?x :: ?l)) with (x ++ mjoin l) in Hn. apply NoDup_app in Hn as (_ & Ha & Hn). apply NoDup_app in Hn as (Hx & Hb & _).
  split; [done |]. split; [done |]. intros j Hj Hne x Hxj Hxi.
  apply elem_of_app in Hj as [Hj | Hj].
  - apply (Ha x); [| apply elem_of_app; by left]. apply list_elem_of_join. eexists. split; [exact Hxj |]. apply list_elem_of_fmap. eauto.
  - apply elem_of_cons in Hj as [-> | Hj]; [done |].
    apply (Hb x Hxi). apply list_elem_of_join. eexists. split; [exact Hxj |]. apply list_elem_of_fmap. eauto.
Qed.

(** Stores to the branch of entry [i] and to frames outside the tree leave the rest of it alone. *)
Lemma branch_apart m m' l t is_ i F N :
  Forall aligned (t :: tree m l t is_) -> indexes is_ -> i ∈ is_ -> NoDup (t :: tree m l t is_) ->
  F ⊆ branch m l (m (entry_at t i)) -> Forall aligned N -> (t :: tree m l t is_) ## N -> same_off (F ++ N) m m' ->
  (forall j, j ∈ is_ -> m' (entry_at t j) = m (entry_at t j))
  /\ (forall j, j ∈ is_ -> j <> i -> same_on (branch m l (m (entry_at t j))) m m').
Proof.
  intros Hal Hix Hi Hn HF HaN HdN Hoff. destruct (tree_parts m l t is_ i Hi Hn (proj1 Hix)) as (_ & Hti & Hap).
  assert (branch m l (m (entry_at t i)) ⊆ t :: tree m l t is_) as Hsub by (intros f Hf; right; apply elem_tree; eauto).
  assert (Forall aligned F) as HaF by (apply Forall_forall; intros f Hf; eapply Forall_elem in Hal; [exact Hal | by apply Hsub, HF]).
  assert (forall gs, gs ⊆ t :: tree m l t is_ -> gs ## F -> same_on gs m m') as Hkeep.
  { intros gs Hgs Hd. eapply (same_off_on (F ++ N)); [by apply Forall_app | | | done].
    - apply Forall_forall. intros g Hg. eapply Forall_elem in Hal; [exact Hal | by apply Hgs].
    - intros x [Hx | Hx]%elem_of_app Hx'; [by apply (Hd x) | apply (HdN x); [by apply Hgs | done]]. }
  assert (same_on [t] m m') as Ht.
  { apply Hkeep; [intros x ->%list_elem_of_singleton; by left |]. intros x ->%list_elem_of_singleton Hx. by apply Hti, HF. }
  split.
  - intros j Hj. apply (Ht t); [by left |]. apply entry_within. by eapply Forall_elem in Hj; [| apply Hix].
  - intros j Hj Hne. apply Hkeep; [intros x Hx; right; apply elem_tree; eauto |].
    intros x Hx Hx'. apply (Hap j Hj Hne x Hx). by apply HF.
Qed.

Lemma owned_aligned fa m F : wf fa m -> owned fa F -> Forall aligned F.
Proof. intros Hw [_ Hu]. eapply Forall_impl; [exact Hu |]. intros f. by eapply frame_aligned. Qed.

(** Growth below one entry is growth of the table. *)
Lemma branch_grows fa m fa' m' l t is_ i N :
  wf fa m -> indexes is_ -> i ∈ is_ -> owned fa (t :: tree m l t is_) ->
  (exists F, F ⊆ branch m l (m (entry_at t i)) /\ grown fa m fa' m' F N) ->
  branch m' l (m (entry_at t i)) ≡ₚ branch m l (m (entry_at t i)) ++ N ->
  m' (entry_at t i) = m (entry_at t i) /\ branch_change m m' l t is_ i N.
Proof.
  intros Hw Hix Hi Hown (F & HF & G) Hbr. pose proof (owned_aligned _ _ _ Hw Hown) as Hal.
  destruct (branch_apart m m' l t is_ i F N) as [Hent Hbrs]; try done; [apply Hown | | | apply G |].
  - eapply Forall_impl; [apply G |]. intros f. by eapply frame_aligned.
  - eapply used_free; [apply Hown | apply G].
  - split; [by apply Hent |]. constructor; [auto | done | by rewrite Hent].
Qed.

Lemma step_down m l t va : present (m (entry_at t (index (S l) va))) = true -> huge (m (entry_at t (index (S l) va))) = false ->
  slot_of m (S l) t va = slot_of m l (addr (m (entry_at t (index (S l) va)))) va
  /\ leaf m (S l) t va = leaf m l (addr (m (entry_at t (index (S l) va)))) va.
Proof. intros Hp Hh. unfold leaf. cbn [slot_of]. by rewrite Hp, Hh. Qed.

Lemma owned_child fa m l t is_ i : indexes is_ -> i ∈ is_ -> present (m (entry_at t i)) = true ->
  owned fa (t :: tree m (S l) t is_) -> owned fa (addr (m (entry_at t i)) :: tree m l (addr (m (entry_at t i))) ALL).
Proof.
  intros Hix Hi Hp [Hn Hu]. destruct (tree_parts m (S l) t is_ i Hi Hn (proj1 Hix)) as (Hb & _ & _).
  assert (branch m (S l) (m (entry_at t i)) ≡ₚ addr (m (entry_at t i)) :: tree m l (addr (m (entry_at t i))) ALL) as Hperm.
  { unfold branch. rewrite Hp. symmetry. apply Permutation_cons_append. }
  split; [by rewrite <- Hperm |]. rewrite <- Hperm. apply Forall_forall. intros f Hf.
  eapply Forall_elem in Hu; [exact Hu |]. right. apply elem_tree. eauto.
Qed.

Lemma extend_child fa m fa' m' l t is_ va N : wf fa m -> indexes is_ -> index (S l) va ∈ is_ ->
  let e := m (entry_at t (index (S l) va)) in
  present e = true -> huge e = false -> owned fa (t :: tree m (S l) t is_) ->
  extends fa m fa' m' l (addr e) ALL N ->
  m' (entry_at t (index (S l) va)) = e /\ extends fa m fa' m' (S l) t is_ N.
Proof.
  intros Hw Hix Hi e Hp Hh Hown [G Htb Ht Hl Hop]. set (i := index (S l) va) in *.
  destruct (branch_grows fa m fa' m' (S l) t is_ i N Hw Hix Hi Hown) as [He Hbc].
  - exists (addr e :: tables m l (addr e) ALL). split; [| exact G]. fold e. unfold branch. rewrite Hp.
    intros f [-> | Hf]%elem_of_cons; apply elem_of_app; [right; by left | left; by apply tables_tree].
  - fold e. unfold branch. rewrite Hp, Ht, <- !app_assoc. f_equiv. apply Permutation_app_comm.
  - fold e in He. split; [exact He |]. constructor.
    + eapply grown_mono; [| exact G]. intros f Hf. right. apply elem_tables. exists i. fold e. done.
    + eapply branch_change_tables; [exact Hbc |]. rewrite He. fold e. rewrite Hp. intros _ f [-> | Hf]%elem_of_cons; [by left |].
      right. by apply Htb.
    + by eapply branch_change_tree.
    + intros va' Hva'. destruct (decide (index (S l) va' = i)) as [E | E]; [| by eapply branch_change_leaf].
      assert (m' (entry_at t (index (S l) va')) = e /\ m (entry_at t (index (S l) va')) = e) as [E1 E2] by (rewrite E; done).
      rewrite (proj2 (step_down m' l t va' ltac:(by rewrite E1) ltac:(by rewrite E1))).
      rewrite (proj2 (step_down m l t va' ltac:(by rewrite E2) ltac:(by rewrite E2))). rewrite E1, E2. apply Hl, index_all.
    + intros Ho. eapply branch_change_open; [exact Hbc | exact Ho |]. rewrite He. intros _.
      destruct (Ho i Hi Hp) as [Hoe Hol]. split; [exact Hoe | by apply Hop].
Qed.

(** A fresh table put into an empty entry. *)
Lemma extend_table fa m fa1 m1 l t is_ va pa : wf fa m -> indexes is_ -> index (S l) va ∈ is_ ->
  let a := entry_at t (index (S l) va) in
  present (m a) = false -> owned fa (t :: tree m (S l) t is_) -> grown fa m fa1 m1 [] [pa] -> zero_table m1 pa ->
  extends fa m fa1 (write_word m1 a (table_entry pa)) (S l) t is_ [pa].
Proof.
  intros Hw Hix Hi a Hp [Hn Hu] G Hz. set (m2 := write_word m1 a (table_entry pa)). set (i := index (S l) va) in *.
  assert (aligned pa) as Ha by (eapply frame_aligned; [exact Hw |]; pose proof (gr_free _ _ _ _ _ _ G) as Hf; by apply Forall_cons in Hf as [? _]).
  destruct (table_entry_spec pa Ha) as (Hta & Htp & Hth).
  assert (within t a) as Hat by (apply entry_within, index_range).
  assert (used fa t) as Hut by (by apply Forall_cons in Hu as [? _]). assert (aligned t) as Hal by by eapply frame_aligned.
  assert (pa <> t) as Hne.
  { intros ->. apply (used_free fa [t] [t]) with (x := t); [by apply Forall_singleton | apply G | by left | by left]. }
  assert (m2 a = table_entry pa) as Hm2a by apply write_here.
  assert (forall b, b <> a -> ~ within pa b -> m2 b = m b) as Hm2.
  { intros b Hb Hpb. unfold m2. rewrite write_other by done. apply (gr_mem _ _ _ _ _ _ G). intros f ->%list_elem_of_singleton. done. }
  assert (zero_table m2 pa) as Hz2.
  { intros j Hj. unfold m2. rewrite write_other; [by apply Hz |]. intros E. apply Hne.
    apply (within_inj pa t a); try done. rewrite <- E. by apply entry_within. }
  assert (forall gs, gs ⊆ tree m (S l) t is_ -> same_on gs m m2) as Hkeep.
  { intros gs Hgs f b Hf Hb. pose proof (Hgs f Hf) as Hft. assert (used fa f) as Huf by (eapply Forall_elem in Hu; [exact Hu | by right]).
    assert (aligned f) as Haf by by eapply frame_aligned. apply Hm2.
    - intros E. rewrite E in Hb. apply NoDup_cons in Hn as [Hn _]. pose proof (within_inj t f a Hal Haf Hat Hb). by subst f.
    - intros Hpb. pose proof (within_inj pa f b Ha Haf Hpb Hb) as ->.
      apply (used_free fa [f] [f]) with (x := f); [by apply Forall_singleton | apply G | by left | by left]. }
  assert (branch_change m m2 (S l) t is_ i [pa]) as Hbc.
  { constructor.
    - intros j Hj Hji. apply Hm2; [intros E; by apply entry_inj in E |]. intros Hpb. apply Hne.
      apply (within_inj pa t (entry_at t j)); try done. apply entry_within. by eapply Forall_elem in Hj; [| apply Hix].
    - intros j Hj _. apply Hkeep. intros x Hx. apply elem_tree. eauto.
    - fold a. rewrite Hm2a. unfold branch. rewrite Htp, Hp, Hta, empty_table by (apply indexes_all || done). done. }
  constructor.
  - eapply (grown_write _ _ _ _ _ _ t); [eapply grown_mono; [| exact G]; by intros ? ?%not_elem_of_nil | by eapply grown_used | by left | done].
  - eapply branch_change_tables; [exact Hbc |]. fold a. rewrite Hm2a, Hta, Hp. intros _. cbn [app].
    assert (tables m2 l pa ALL = []) as ->; [| done]. pose proof (tables_tree m2 l pa ALL) as Hs.
    rewrite empty_table in Hs by (apply indexes_all || done). destruct (tables m2 l pa ALL) as [| x xs]; [done |].
    by destruct (not_elem_of_nil x (Hs x ltac:(by left))).
  - by eapply branch_change_tree.
  - intros va' Hva'. destruct (decide (index (S l) va' = i)) as [E | E]; [| by eapply branch_change_leaf].
    assert (m2 (entry_at t (index (S l) va')) = table_entry pa) as E1 by (rewrite E; exact Hm2a).
    assert (leaf m (S l) t va' = None) as -> by (unfold leaf; cbn [slot_of]; rewrite E; fold a; by rewrite Hp).
    rewrite (proj2 (step_down m2 l t va' ltac:(by rewrite E1) ltac:(by rewrite E1))), E1, Hta. by apply empty_leaf.
  - intros Ho. eapply branch_change_open; [exact Hbc | exact Ho |]. fold a. rewrite Hm2a, Hta. intros _.
    split; [by apply table_entry_opens | apply empty_open; [apply indexes_all | exact Hz2]].
Qed.

Lemma extends_refl fa m l t is_ : wf fa m -> extends fa m fa m l t is_ [].
Proof. intros Hw. constructor; [by apply grown_refl | by rewrite app_nil_r | by rewrite app_nil_r | done | done]. Qed.

Lemma extends_trans fa m fa1 m1 fa2 m2 l t is_ N N1 :
  extends fa m fa1 m1 l t is_ N -> extends fa1 m1 fa2 m2 l t is_ N1 -> extends fa m fa2 m2 l t is_ (N ++ N1).
Proof.
  intros [A1 At A2 A3 A4] [B1 Bt B2 B3 B4]. constructor.
  - eapply grown_trans; [| exact A1 | exact B1]. intros f [-> | Hf]%elem_of_cons; [by left |]. right. by apply At.
  - intros f Hf. apply Bt in Hf. rewrite app_assoc. apply elem_of_app. apply elem_of_app in Hf as [Hf | Hf]; [left; by apply At | by right].
  - by rewrite B2, A2, app_assoc.
  - intros va Hva. rewrite B3 by done. by apply A3.
  - intros Ho. by apply B4, A4.
Qed.
Lemma extends_owned fa m fa' m' l t is_ N : owned fa (t :: tree m l t is_) -> extends fa m fa' m' l t is_ N ->
  owned fa' (t :: tree m' l t is_).
Proof.
  intros [Hn Hu] [G _ Ht _ _]. pose proof (used_free _ _ _ Hu (gr_free _ _ _ _ _ _ G)) as Hd.
  assert (t :: tree m' l t is_ ≡ₚ (t :: tree m l t is_) ++ N) as Hp by (by rewrite Ht). split.
  - rewrite Hp. apply NoDup_app. split; [done |]. split; [intros x Hx Hy; by apply (Hd x) | apply G].
  - rewrite Hp. apply Forall_app. split; [by eapply grown_used_all | by eapply grown_new].
Qed.

Lemma wp_walk_create l : forall t va is_ w fa (Q : option Z -> world -> Prop) E,
  runs w fa -> indexes is_ -> index l va ∈ is_ -> owned fa (t :: tree (mem w) l t is_) ->
  (forall o fa' w' N, runs w' fa' -> same_rest w w' -> extends fa (mem w) fa' (mem w') l t is_ N ->
     match o with Some a => slot_of (mem w') l t va = Some a | None => slot_of (mem w) l t va = None end -> Q o w') ->
  wp (walk_create l t va) w Q E.
Proof.
  induction l as [| l IH]; intros t va is_ w fa Q E R Hix Hi Hown HQ; cbn [walk_create].
  { apply wp_ret. apply (HQ _ fa w []); try done. apply extends_refl, R. }
  (* on a present entry, down one level *)
  assert (forall w1 fa1 N1, runs w1 fa1 -> same_rest w w1 -> extends fa (mem w) fa1 (mem w1) (S l) t is_ N1 ->
            let e := mem w1 (entry_at t (index (S l) va)) in present e = true -> huge e = false ->
            (slot_of (mem w) (S l) t va = None \/ mem w1 = mem w) ->
            wp (walk_create l (addr e) va) w1 Q E) as Hdown.
  { intros w1 fa1 N1 R1 S1 X1 e Hp Hh Hs. pose proof (extends_owned _ _ _ _ _ _ _ _ Hown X1) as Hown1.
    apply (IH _ _ ALL _ fa1); [done | apply indexes_all | apply index_all | by eapply (owned_child fa1 _ l t is_) |].
    intros o fa2 w2 N2 R2 S2 X2 Ho.
    destruct (extend_child fa1 (mem w1) fa2 (mem w2) l t is_ va N2 (proj2 R1) Hix Hi Hp Hh Hown1 X2) as [He2 X].
    apply (HQ o fa2 w2 (N1 ++ N2)); [done | by eapply same_rest_trans | by eapply extends_trans |].
    destruct o as [a |].
    - rewrite (proj1 (step_down (mem w2) l t va ltac:(by rewrite He2) ltac:(by rewrite He2))). by rewrite He2.
    - destruct Hs as [Hs | Hs]; [done |]. rewrite <- Hs. by rewrite (proj1 (step_down (mem w1) l t va Hp Hh)). }
  apply wp_bind, wp_read. destruct (present _) eqn:Ep; cbn [negb].
  - destruct (huge _) eqn:Eh.
    + apply wp_ret, (HQ None fa w []); [done | done | |].
      * apply extends_refl, R.
      * cbn [slot_of]. by rewrite Ep, Eh.
    + apply (Hdown w fa []); try done; [| by right]. apply extends_refl, R.
  - assert (slot_of (mem w) (S l) t va = None) as Hnone by (cbn [slot_of]; by rewrite Ep).
    apply wp_bind, (wp_alloc w fa); [done | |].
    + intros pa fa1 w1 R1 S1 G1 Hz. apply wp_bind, wp_write, wp_bind, wp_read. cbn [mem set_mem].
      pose proof (extend_table fa (mem w) fa1 (mem w1) l t is_ va pa (proj2 R) Hix Hi Ep Hown G1 Hz) as X1.
      apply (Hdown (set_mem (write_word (mem w1) (entry_at t (index (S l) va)) (table_entry pa)) w1) fa1 [pa]); try done.
      * split; [apply R1 | apply X1].
      * cbn [mem set_mem]. rewrite write_here. apply table_entry_spec. eapply frame_aligned; [apply R |].
        pose proof (gr_free _ _ _ _ _ _ G1) as Hf. by apply Forall_cons in Hf as [? _].
      * cbn [mem set_mem]. rewrite write_here. apply table_entry_spec. eapply frame_aligned; [apply R |].
        pose proof (gr_free _ _ _ _ _ _ G1) as Hf. by apply Forall_cons in Hf as [? _].
      * by left.
    + apply wp_ret, (HQ None fa w []); [done | done | | done].
      apply extends_refl, R.
Qed.

Lemma walk_existing l : forall t va a w, slot_of (mem w) l t va = Some a -> walk_create l t va w = (Ok (Some a), w).
Proof.
  induction l as [| l IH]; intros t va a w; cbn [slot_of walk_create]; [by intros [= <-] |].
  destruct (present _) eqn:Ep; [| done]. destruct (huge _) eqn:Eh; [done |]. cbn [andb negb]. intros Hs.
  unfold mbind, M_bind, read. rewrite Ep, Eh. by apply IH.
Qed.

(** * Filling in a leaf *)

Lemma fill_slot m l : forall t is_ va a pte, indexes is_ -> index l va ∈ is_ -> NoDup (t :: tree m l t is_) ->
  Forall aligned (t :: tree m l t is_) -> slot_of m l t va = Some a -> present (m a) = false -> present pte = true ->
  let m' := write_word m a pte in
  tree m' l t is_ ≡ₚ tree m l t is_ ++ [addr pte] /\ tables m' l t is_ ⊆ tables m l t is_ /\ (open m l t is_ -> open m' l t is_)
  /\ forall va', index l va' ∈ is_ -> leaf m' l t va' = if same_page l va va' then Some pte else leaf m l t va'.
Proof.
  induction l as [| l IH]; intros t is_ va a pte Hix Hi Hn Hal Hs Hp Hpte m'.
  - cbn in Hs. injection Hs as <-. set (i := index 0 va) in *.
    assert (branch_change m m' 0 t is_ i [addr pte]) as Hbc.
    { constructor.
      - intros j Hj Hne. apply write_other. intros E. by apply entry_inj in E.
      - intros j Hj Hne f b Hf Hb. apply write_other. intros ->.
        assert (f ∈ tree m 0 t is_) as Hft by (apply elem_tree; eauto). apply NoDup_cons in Hn as [Hn _]. apply Forall_cons in Hal as [Hat Hal].
        assert (t = f); [| by subst f]. apply (within_inj t f (entry_at t i)); try done; [by eapply Forall_elem in Hft |].
        apply entry_within, index_range.
      - unfold m'. rewrite write_here. unfold branch. by rewrite Hp, Hpte. }
    split; [by eapply branch_change_tree |]. split; [done |]. split; [done |]. intros va' Hva'. cbn [same_page]. rewrite andb_true_r.
    destruct (Z.eqb_spec (index 0 va') (index 0 va)) as [E | E]; [| by eapply branch_change_leaf].
    unfold leaf. cbn. rewrite E. fold i. unfold m'. by rewrite write_here, Hpte.
  - cbn [slot_of] in Hs. set (i := index (S l) va) in *. set (e := m (entry_at t i)) in *.
    destruct (present e) eqn:Ep; [| done]. destruct (huge e) eqn:Eh; [done |]. cbn [andb negb] in Hs.
    assert (branch m (S l) e ≡ₚ addr e :: tree m l (addr e) ALL) as Hperm
      by (unfold branch; rewrite Ep; symmetry; apply Permutation_cons_append).
    destruct (tree_parts m (S l) t is_ i Hi Hn (proj1 Hix)) as (Hb & _ & _). fold e in Hb.
    assert (Forall aligned (addr e :: tree m l (addr e) ALL)) as Hal' by (constructor; [apply addr_aligned | apply tree_aligned]).
    destruct (IH (addr e) ALL va a pte indexes_all (index_all l va)) as (Ht & Htb & Hop & Hl); try done; [by rewrite <- Hperm |].
    destruct (slot_within m l (addr e) va a ALL indexes_all (index_all l va) Hs) as (f & Hf & Hfa).
    destruct (branch_apart m m' (S l) t is_ i [f] []) as [Hent Hbrs]; try done.
    { intros x ->%list_elem_of_singleton. fold e. by rewrite Hperm. }
    { intros x _ ?%not_elem_of_nil. done. }
    { by apply same_off_write. }
    assert (branch_change m m' (S l) t is_ i [addr pte]) as Hbc.
    { constructor; [auto | done |]. rewrite Hent by done. fold e. unfold branch. rewrite Ep. fold m' in Ht. rewrite Ht.
      rewrite <- !app_assoc. f_equiv. apply Permutation_app_comm. }
    split; [by eapply branch_change_tree |]. split.
    { rewrite <- (app_nil_r (tables m _ _ _)). eapply branch_change_tables; [exact Hbc |]. rewrite Hent by done. fold e.
      rewrite Ep, app_nil_r. intros _ x [-> | Hx]%elem_of_cons; [by left | right; by apply Htb]. }
    split.
    { intros Ho. eapply branch_change_open; [exact Hbc | exact Ho |]. rewrite Hent by done. fold e. intros _.
      destruct (Ho i Hi Ep) as [Hoe Hol]. split; [exact Hoe | by apply Hop]. }
    intros va' Hva'. cbn [same_page].
    destruct (Z.eqb_spec (index (S l) va') (index (S l) va)) as [E | E]; cbn [andb]; [| by eapply branch_change_leaf].
    assert (m' (entry_at t (index (S l) va')) = e /\ m (entry_at t (index (S l) va')) = e) as [E1 E2].
    { rewrite E. split; [by apply Hent | done]. }
    rewrite (proj2 (step_down m' l t va' ltac:(by rewrite E1) ltac:(by rewrite E1))).
    rewrite (proj2 (step_down m l t va' ltac:(by rewrite E2) ltac:(by rewrite E2))). rewrite E1, E2. apply Hl, index_all.
Qed.

(** * User windows *)

Lemma index_spec l va : index l va = va / 2 ^ (12 + 9 * Z.of_nat l) mod 512.
Proof. unfold index. change 0x1ff with (Z.ones 9). rewrite Z.land_ones, Z.shiftr_div_pow2 by lia. done. Qed.

Definition in_window (va : Z) : Prop := UserBounds.USER_BASE <= va < UserBounds.USER_END.

Lemma window_index va : in_window va -> index 3 va = USER_PML4_SLOT.
Proof.
  unfold in_window. rewrite index_spec. change USER_PML4_SLOT with 200. change UserBounds.USER_BASE with (200 * 2 ^ 39).
  change UserBounds.USER_END with (201 * 2 ^ 39). change (12 + 9 * Z.of_nat 3) with 39. intros H.
  assert (va / 2 ^ 39 = 200) as ->; [| done]. symmetry. apply (Z.div_unique _ _ _ (va - 200 * 2 ^ 39)); lia.
Qed.

Lemma same_page_window va va' : in_window va -> in_window va' -> same_page 3 va va' = (va' / 4096 =? va / 4096).
Proof.
  intros Hv Hv'. pose proof (window_index va Hv) as W1. pose proof (window_index va' Hv') as W2.
  apply eq_true_iff_eq. rewrite Z.eqb_eq. cbn [same_page]. rewrite W1, W2, Z.eqb_refl, andb_true_r. cbn [andb].
  rewrite !andb_true_iff, !Z.eqb_eq, !index_spec.
  change (12 + 9 * Z.of_nat 2) with 30. change (12 + 9 * Z.of_nat 1) with 21. change (12 + 9 * Z.of_nat 0) with 12.
  unfold in_window in *. change UserBounds.USER_BASE with (200 * 2 ^ 39) in *. change UserBounds.USER_END with (201 * 2 ^ 39) in *.
  change (2 ^ 12) with 4096. change (2 ^ 21) with 2097152. change (2 ^ 30) with 1073741824. change (2 ^ 39) with 549755813888 in *. split.
  - intros (H2 & H1 & H0). zdiv.
  - intros H. assert (va' / 2097152 = va / 2097152 /\ va' / 1073741824 = va / 1073741824) as [-> ->] by zdiv. rewrite H. done.
Qed.

(** The frames a user address space is made of: its root, its tables and its pages. *)
Definition space_frames (m : phys_mem) (root : Z) : list Z := root :: tree m 3 root [USER_PML4_SLOT].
Definition space_tables (m : phys_mem) (root : Z) : list Z := root :: tables m 3 root [USER_PML4_SLOT].
(** A consistent address space: its frames are in use and each has one place in it. *)
Definition space_ok (fa : FrameAllocator) (m : phys_mem) (root : Z) : Prop := owned fa (space_frames m root).
(** Its tables restrict nothing: what user code may do is up to the leaf entries. *)
Definition space_open (m : phys_mem) (root : Z) : Prop := open m 3 root [USER_PML4_SLOT].
(** The entry that maps [va] in the space. *)
Definition mapping (m : phys_mem) (root va : Z) : option Z := leaf m 3 root va.

Lemma indexes_user : indexes [USER_PML4_SLOT].
Proof. split; [apply NoDup_singleton |]. apply Forall_singleton. by vm_compute. Qed.
Lemma index_user va : in_window va -> index 3 va ∈ [USER_PML4_SLOT].
Proof. intros H. rewrite (window_index va H). by left. Qed.

(** What mapping a page does to a space; [N] are the tables it added.  Only tables are
    written: the contents of mapped pages stay. *)
Record mapped (w : world) (fa : FrameAllocator) (root va pa pte : Z) (w' : world) (fa' : FrameAllocator) (N : list Z) : Prop := {
  mp_runs : runs w' fa';
  mp_rest : same_rest w w';
  mp_grown : grown fa (mem w) fa' (mem w') (space_tables (mem w) root) N;
  mp_tables : space_tables (mem w') root ⊆ space_tables (mem w) root ++ N;
  mp_frames : space_frames (mem w') root ≡ₚ space_frames (mem w) root ++ N ++ [pa];
  mp_ok : space_ok fa' (mem w') root;
  mp_open : space_open (mem w) root -> space_open (mem w') root;
  mp_before : mapping (mem w) root va = None;
  mp_after : forall va', in_window va' ->
    mapping (mem w') root va' = if va' / 4096 =? va / 4096 then Some pte else mapping (mem w) root va' }.
(** A failure: the page was mapped, and nothing changed; or tables ran out, and at most
    empty tables were added. *)
Definition not_mapped (w : world) (fa : FrameAllocator) (root va : Z) (e : string) (w' : world) : Prop :=
  e = "page already mapped" /\ w' = w /\ is_Some (mapping (mem w) root va)
  \/ e = "out of memory for page tables" /\ mapping (mem w) root va = None
     /\ exists fa' N, runs w' fa' /\ same_rest w w'
        /\ extends fa (mem w) fa' (mem w') 3 root [USER_PML4_SLOT] N.

(** The last step: the leaf entry is written once the tables are there. *)
Lemma map_leaf root va pa wr ex w fa w1 fa1 N a :
  runs w fa -> space_ok fa (mem w) root -> in_window va -> used fa pa -> pa ∉ space_frames (mem w) root ->
  mapping (mem w) root va = None -> runs w1 fa1 -> same_rest w w1 ->
  extends fa (mem w) fa1 (mem w1) 3 root [USER_PML4_SLOT] N ->
  slot_of (mem w1) 3 root va = Some a -> present (mem w1 a) = false ->
  mapped w fa root va pa (leaf_entry pa wr ex) (set_mem (write_word (mem w1) a (leaf_entry pa wr ex)) w1) fa1 N.
Proof.
  intros R Hok Hva Hpa Hfresh Hnone R1 S1 X Ho Hp. set (pte := leaf_entry pa wr ex). pose proof (index_user va Hva) as Hix.
  destruct (leaf_entry_spec pa wr ex ltac:(eapply frame_aligned; [apply R | exact Hpa])) as [Hpt Hpp].
  pose proof (extends_owned _ _ _ _ _ _ _ _ Hok X) as Hok1.
  destruct (fill_slot (mem w1) 3 root [USER_PML4_SLOT] va a pte indexes_user Hix (proj1 Hok1)
              (owned_aligned _ _ _ (proj2 R1) Hok1) Ho Hp Hpp) as (Ht & Htb & Hop & Hl).
  destruct (slot_in_table _ _ _ _ _ _ indexes_user Hix Ho) as (f & Hf & Hfa).
  assert (space_frames (mem w1) root ≡ₚ space_frames (mem w) root ++ N) as Hfr1.
  { unfold space_frames. rewrite (ex_tree _ _ _ _ _ _ _ _ X). done. }
  assert (grown fa (mem w) fa1 (write_word (mem w1) a pte) (space_tables (mem w) root) N) as G.
  { eapply (grown_write _ _ _ _ _ _ f); [apply X | | | done].
    - eapply Forall_elem; [apply Hok1 |]. apply elem_of_cons in Hf as [-> | Hf]; [by left | right; by apply tables_tree].
    - apply elem_of_cons in Hf as [-> | Hf]; [by left |]. right. by apply (ex_tables _ _ _ _ _ _ _ _ X). }
  assert (space_frames (write_word (mem w1) a pte) root ≡ₚ space_frames (mem w1) root ++ [pa]) as Hfr.
  { unfold space_frames. rewrite Ht. unfold pte. by rewrite Hpt. }
  assert (pa ∉ space_frames (mem w1) root) as Hfresh1.
  { rewrite Hfr1. intros [H | H]%elem_of_app; [done |].
    apply (used_free fa [pa] N) with (x := pa); [by apply Forall_singleton | apply X | by left | done]. }
  constructor; cbn [mem set_mem].
  - split; [apply R1 | apply G].
  - exact S1.
  - exact G.
  - intros x [-> | Hx]%elem_of_cons; [by left |]. right. by apply (ex_tables _ _ _ _ _ _ _ _ X), Htb.
  - by rewrite Hfr, Hfr1, app_assoc.
  - split; rewrite Hfr.
    + apply NoDup_app. split; [apply Hok1 |]. split; [| apply NoDup_singleton]. by intros x Hx ->%list_elem_of_singleton.
    + apply Forall_app. split; [apply Hok1 |]. apply Forall_singleton. by eapply grown_used; [apply X |].
  - intros Ho'. by apply Hop, (ex_open _ _ _ _ _ _ _ _ X).
  - exact Hnone.
  - intros va' Hva'. unfold mapping. rewrite Hl by by apply index_user. rewrite same_page_window by done.
    rewrite (ex_leaf _ _ _ _ _ _ _ _ X) by by apply index_user. done.
Qed.

Lemma wp_map_user_page root va pa wr ex w fa (Q : unit -> world -> Prop) E :
  runs w fa -> space_ok fa (mem w) root -> in_window va -> used fa pa -> pa ∉ space_frames (mem w) root ->
  (forall w' fa' N, mapped w fa root va pa (leaf_entry pa wr ex) w' fa' N -> Q tt w') ->
  (forall e w', not_mapped w fa root va e w' -> E e w') ->
  wp (map_user_page root va pa wr ex) w Q E.
Proof.
  intros R Hok Hva Hpa Hfresh HQ HE. unfold map_user_page. pose proof (index_user va Hva) as Hix.
  apply wp_bind. destruct (slot_of (mem w) 3 root va) as [a |] eqn:Es.
  - unfold wp at 1. rewrite (walk_existing _ _ _ _ _ Es). apply wp_bind, wp_lift. cbn [ok_or].
    apply wp_bind, wp_read, wp_bind, wp_guard.
    { intros Hp. apply HE. left. split; [done |]. split; [done |]. unfold mapping, leaf. rewrite Es. cbn. rewrite Hp. eauto. }
    intros Hp. apply wp_write, (HQ _ fa []), map_leaf; try done.
    + unfold mapping, leaf. rewrite Es. cbn. by rewrite Hp.
    + apply extends_refl, R.
  - assert (mapping (mem w) root va = None) as Hnone by (unfold mapping, leaf; by rewrite Es).
    apply (wp_walk_create 3 root va [USER_PML4_SLOT] w fa); [done | apply indexes_user | done | done |].
    intros o fa1 w1 N R1 S1 X Ho. apply wp_bind, wp_lift. destruct o as [a |]; cbn [ok_or].
    2:{ apply HE. right. split; [done |]. split; [done |]. by exists fa1, N. }
    assert (present (mem w1 a) = false) as Hp.
    { pose proof (ex_leaf _ _ _ _ _ _ _ _ X va Hix) as Hl. fold (mapping (mem w) root va) in Hl. rewrite Hnone in Hl.
      unfold leaf in Hl. rewrite Ho in Hl. cbn in Hl. by destruct (present (mem w1 a)). }
    apply wp_bind, wp_read. rewrite Hp. apply wp_bind, wp_guard; [done |]. intros _.
    by apply wp_write, (HQ _ fa1 N), map_leaf.
Qed.

(** User code's accesses to the space. *)
Definition user_access (m : phys_mem) (root va : Z) (wr ex : bool) : option Z := access m 3 root va wr ex.
Lemma user_access_spec m root va wr ex : space_open m root -> in_window va ->
  user_access m root va wr ex = e ← mapping m root va; leaf_access e va wr ex.
Proof. intros Ho Hva. apply (access_leaf m 3 root [USER_PML4_SLOT]); [exact Ho | by apply index_user]. Qed.
Lemma leaf_access_user e va wr ex wr' ex' : user_page e wr ex ->
  leaf_access e va wr' ex' = if (wr || negb wr') && (ex || negb ex') then Some (addr e + va mod 4096) else None.
Proof. intros (_ & Hu & Hw & Hx). unfold leaf_access. rewrite Hu, Hw, Hx. by destruct wr, ex, wr', ex'. Qed.

(** What user code can do at [va] afterwards: reach the frame [pa], writing and executing
    as the mapping says; anywhere else, what it could do before. *)
Definition only_page_added (m m' : phys_mem) (root va pa : Z) (wr ex : bool) : Prop :=
  forall va' wr' ex', in_window va' ->
    user_access m' root va' wr' ex' =
      if va' / 4096 =? va / 4096
      then if (wr || negb wr') && (ex || negb ex') then Some (pa + va' mod 4096) else None
      else user_access m root va' wr' ex'.

(** C16. map_user_page on a consistent address space: a frame in use and not yet part of the
    space is mapped at a window address exactly when the address was unmapped and the
    tables could be had.  The processor then lets user code read there, and write and
    execute exactly as asked; every other access is as before.  The space owns exactly its
    old frames, the added tables and the page, and no word outside its tables is written.
    On failure no mapping changes, and there is no panic. *)
Theorem map_user_page_correct root va pa wr ex w fa :
  runs w fa -> space_ok fa (mem w) root -> space_open (mem w) root -> in_window va -> used fa pa ->
  pa ∉ space_frames (mem w) root ->
  match map_user_page root va pa wr ex w with
  | (Ok _, w') => exists fa' N pte, mapped w fa root va pa pte w' fa' N /\ space_open (mem w') root
                    /\ only_page_added (mem w) (mem w') root va pa wr ex
  | (Err e, w') => not_mapped w fa root va e w'
  | (Panic, _) => False
  end.
Proof.
  intros R Hok Hop Hva Hpa Hfresh.
  apply (wp_map_user_page root va pa wr ex w fa (fun _ w' => exists fa' N pte, mapped w fa root va pa pte w' fa' N
           /\ space_open (mem w') root /\ only_page_added (mem w) (mem w') root va pa wr ex) (not_mapped w fa root va)); try done.
  intros w' fa' N Mp. exists fa', N, (leaf_entry pa wr ex). pose proof (mp_open _ _ _ _ _ _ _ _ _ Mp Hop) as Hop'.
  split; [exact Mp |]. split; [exact Hop' |]. intros va' wr' ex' Hva'.
  assert (aligned pa) as Ha by (eapply frame_aligned; [apply R | exact Hpa]).
  rewrite !user_access_spec, (mp_after _ _ _ _ _ _ _ _ _ Mp) by done. destruct (va' / 4096 =? va / 4096); [| done].
  cbn. rewrite (leaf_access_user _ _ wr ex) by by apply leaf_entry_user. by rewrite (proj1 (leaf_entry_spec pa wr ex Ha)).
Qed.

(** * Witness: a machine of 32 frames, three of them in use: one is an empty top table *)

Definition demo_frames : FrameAllocator :=
  mkFrameAllocator (7 :: replicate (Z.to_nat BITMAP_ENTRIES - 1) (2 ^ 32 - 1))
    (replicate (Z.to_nat BITMAP_ENTRIES) 0) 32 29 0.
Definition demo_world : world := mkWorld (Some demo_frames) (fun _ => 0) 0x100000000 0 0 0.
Definition demo_va : Z := UserBounds.USER_BASE + 4096.

#[local] Opaque BITMAP_ENTRIES.
Lemma demo_runs : runs demo_world demo_frames.
Proof.
  split; [reflexivity |]. pose proof BITMAP_ENTRIES_pos.
  assert (forall i, 0 <= i < 32 -> bit_get 32 (zeroed demo_frames) i = false) as Hz.
  { intros i Hi. apply bit_get_replicate_zero; lia. }
  constructor.
  - cbn [bitmap demo_frames length]. rewrite length_replicate. lia.
  - apply length_replicate.
  - change (total_frames demo_frames) with 32. unfold BITS. lia.
  - change (total_frames demo_frames) with 32. change (last_search demo_frames) with 0. lia.
  - vm_compute. reflexivity.
  - intros i Hi _. by apply Hz.
  - intros i Hi _. rewrite Hz by done. done.
Qed.
#[local] Transparent BITMAP_ENTRIES.
Lemma demo_used k : 0 <= k < 3 -> used demo_frames (k * FRAME_SIZE).
Proof. intros Hk. exists k. split; [done |]. split; [change (total_frames demo_frames) with 32; lia |]. assert (k = 0 \/ k = 1 \/ k = 2) as [-> | [-> | ->]] by lia; by vm_compute. Qed.
Lemma demo_space : space_frames (mem demo_world) 4096 = [4096].
Proof. vm_compute. reflexivity. Qed.
Lemma demo_space_ok : space_ok demo_frames (mem demo_world) 4096.
Proof. unfold space_ok. rewrite demo_space. split; [apply NoDup_singleton | apply Forall_singleton, (demo_used 1); lia]. Qed.

Lemma demo_space_open : space_open (mem demo_world) 4096.
Proof. apply empty_open; [apply indexes_user | done]. Qed.

Lemma map_user_page_correct_witness : exists w',
  map_user_page 4096 demo_va 8192 true false demo_world = (Ok tt, w')
  /\ user_access (mem w') 4096 demo_va true false = Some 8192 /\ user_access (mem w') 4096 demo_va false true = None.
Proof.
  assert ((map_user_page 4096 demo_va 8192 true false demo_world).1 = Ok tt) as E by (vm_compute; reflexivity).
  assert (in_window demo_va) as Hw by (unfold in_window; vm_compute; split; [discriminate | reflexivity]).
  assert (8192 ∉ space_frames (mem demo_world) 4096) as Hn by (rewrite demo_space, list_elem_of_singleton; lia).
  pose proof (map_user_page_correct 4096 demo_va 8192 true false demo_world demo_frames demo_runs demo_space_ok demo_space_open Hw
                (demo_used 2 ltac:(lia)) Hn) as H.
  destruct (map_user_page 4096 demo_va 8192 true false demo_world) as [r w']. cbn in E. subst r.
  destruct H as (fa' & N & pte & _ & _ & H). exists w'. split; [reflexivity |].
  rewrite (H demo_va true false Hw), (H demo_va false true Hw). split; reflexivity.
Defined.
End SpaceMap.
