(* ===== verification/SpaceLife.v ===== *)
(** The life of a user address space (src/arch/amd64/memory.rs, src/memory/user.rs): it is
    created, pages are loaded into it, and everything it took is given back. *)

From Stdlib Require Import ZArith Lia.
From stdpp Require Import base list list_numbers numbers decidable tactics strings.
From S2P Require Import Prelude FrameAllocator UserSpace BlockDev AddressSpace SpaceTree SpaceMap.
Import Frames Blk AddressSpace SpaceTree SpaceMap.

Module SpaceLife.

#[local] Abbreviation used fa := (frame_in fa false).
#[local] Abbreviation free fa := (frame_in fa true).

(** * Giving frames back *)

(** The frames [F] went back to the allocator, and only they were written. *)
Record freed (fa : FrameAllocator) (m : phys_mem) (fa' : FrameAllocator) (m' : phys_mem) (F : list Z) : Prop := {
  fd_wf : wf fa' m';
  fd_total : total_frames fa' = total_frames fa;
  fd_bits : forall k, 0 <= k -> is_free fa' k = is_free fa k || bool_decide (k * FRAME_SIZE ∈ F);
  fd_mem : same_off F m m';
  fd_count : free_frames fa' = free_frames fa + Z.of_nat (length F) }.

Lemma freed_refl fa m : wf fa m -> freed fa m fa m [].
Proof.
  intros Hw. constructor; try done; [| cbn; lia]. intros k _.
  rewrite bool_decide_eq_false_2 by apply not_elem_of_nil. by rewrite orb_false_r.
Qed.
Lemma freed_trans fa m fa1 m1 fa2 m2 F F1 : freed fa m fa1 m1 F -> freed fa1 m1 fa2 m2 F1 -> freed fa m fa2 m2 (F ++ F1).
Proof.
  intros [A1 A2 A3 A4 A5] [B1 B2 B3 B4 B5]. constructor; [done | congruence | | |].
  - intros k Hk. rewrite B3, A3 by done. rewrite <- orb_assoc. f_equal.
    apply eq_true_iff_eq. by rewrite orb_true_iff, !bool_decide_eq_true, elem_of_app.
  - eapply same_off_trans; [eapply same_off_mono, A4 | eapply same_off_mono, B4]; intros f Hf; apply elem_of_app; auto.
  - rewrite B5, A5, length_app. lia.
Qed.
Lemma freed_perm fa m fa' m' F F' : F ≡ₚ F' -> freed fa m fa' m' F -> freed fa m fa' m' F'.
Proof.
  intros Hp [A1 A2 A3 A4 A5]. constructor; [done | done | | |].
  - intros k Hk. rewrite A3 by done. f_equal. apply bool_decide_ext. by rewrite Hp.
  - eapply same_off_mono, A4. intros f Hf. by rewrite <- Hp.
  - by rewrite A5, Hp.
Qed.
Lemma freed_used fa m fa' m' F f : freed fa m fa' m' F -> used fa f -> f ∉ F -> used fa' f.
Proof.
  intros G (k & -> & Hk & Hf) Hn. exists k. rewrite (fd_total _ _ _ _ _ G). split; [done |]. split; [done |].
  rewrite (fd_bits _ _ _ _ _ G), Hf by lia. by rewrite bool_decide_eq_false_2.
Qed.

Lemma wp_free_frame f w fa (Q : unit -> world -> Prop) E : runs w fa -> used fa f ->
  (forall fa' w', runs w' fa' -> same_rest w w' -> freed fa (mem w) fa' (mem w') [f] -> Q tt w') -> wp (free_frame f) w Q E.
Proof.
  intros [Hfa Hw] (k & -> & Hk & Hf) HQ. unfold wp, free_frame. rewrite Hfa.
  pose proof (deallocate_frame_inv fa (mem w) (k * FRAME_SIZE) Hw ltac:(unfold FRAME_SIZE; lia)) as H.
  assert (k * FRAME_SIZE / FRAME_SIZE = k) as Ek by (apply Z.div_mul; done).
  assert ((k * FRAME_SIZE) mod FRAME_SIZE = 0) as Em by (apply Z.mod_mul; done).
  destruct (deallocate_frame fa (mem w) (k * FRAME_SIZE)) as [[fa' m'] |]; [| destruct H as [H | H]; lia].
  destruct H as (_ & _ & Hw' & Hr). rewrite Ek, Hf in Hr. destruct Hr as (_ & Hb & Hm & Hc & Ht).
  apply (HQ fa'); [done | done |]. constructor; cbn [mem set_frames]; try done.
  - intros j Hj. rewrite Hb by done. f_equal. apply eq_true_iff_eq. rewrite Z.eqb_eq, bool_decide_eq_true, list_elem_of_singleton.
    unfold FRAME_SIZE. lia.
  - intros a Ha. apply Hm. rewrite frame_within. apply Ha. by left.
Qed.

(** * Freeing the tables of a space *)

(** What [free_level] releases: the frames below the table, which is of [level]. *)
Definition below (m : phys_mem) (level : nat) (t : Z) : list Z := match level with O => [] | S l => tree m l t ALL end.
Lemma branch_below m l e : branch m l e = if present e then below m l (addr e) ++ [addr e] else [].
Proof. done. Qed.

Lemma tree_cons m l t i is_ : tree m l t (i :: is_) = branch m l (m (entry_at t i)) ++ tree m l t is_.
Proof. by rewrite !tree_eq. Qed.

Lemma freed_keeps fa m fa' m' F F' : wf fa m -> owned fa (F ++ F') -> freed fa m fa' m' F -> same_on F' m m' /\ owned fa' F'.
Proof.
  intros Hw [Hn Hu] Fd. apply NoDup_app in Hn as (Hn1 & Hd & Hn2). apply Forall_app in Hu as [Hu1 Hu2]. split.
  - eapply (same_off_on F); [| | | apply Fd]; [eapply Forall_impl; [eassumption | intros f; by eapply frame_aligned] .. |].
    intros x Hx Hy. by apply (Hd x).
  - split; [done |]. apply Forall_forall. intros f Hf. eapply freed_used; [exact Fd | by eapply Forall_elem in Hf |].
    intros Hin. by apply (Hd f).
Qed.

Section Entries.
Context (l : nat).
Hypothesis deeper_ok : forall t n w fa (Q : Z -> world -> Prop) E, runs w fa -> owned fa (t :: below (mem w) l t) ->
  (forall fa' w', runs w' fa' -> same_rest w w' -> freed fa (mem w) fa' (mem w') (below (mem w) l t) ->
     Q (n + Z.of_nat (length (below (mem w) l t))) w') -> wp (free_level l t n) w Q E.

Lemma wp_free_entries t is_ : forall n w fa (Q : Z -> world -> Prop) E, runs w fa -> indexes is_ ->
  owned fa (t :: tree (mem w) l t is_) ->
  (forall fa' w', runs w' fa' -> same_rest w w' -> freed fa (mem w) fa' (mem w') (tree (mem w) l t is_) ->
     Q (n + Z.of_nat (length (tree (mem w) l t is_))) w') -> wp (free_entries (free_level l) t is_ n) w Q E.
Proof.
  induction is_ as [| i is_ IH]; intros n w fa Q E R Hix Hown HQ; cbn [free_entries].
  { assert (tree (mem w) l t [] = []) as Et by by rewrite tree_eq. rewrite Et in HQ. apply wp_ret.
    replace n with (n + Z.of_nat (length (@nil Z))) by (cbn; lia). by apply (HQ fa); [| | apply freed_refl, R]. }
  assert (indexes is_) as Hix' by (destruct Hix as [H1 H2]; apply NoDup_cons in H1 as [_ H1]; apply Forall_cons in H2 as [_ H2]; by split).
  rewrite tree_cons in Hown, HQ. set (e := mem w (entry_at t i)) in *. apply wp_bind, wp_read. fold e.
  destruct (present e) eqn:Ep; cbn [negb].
  2:{ rewrite branch_below, Ep in Hown, HQ. by eapply IH. }
  assert (branch (mem w) l e ≡ₚ addr e :: below (mem w) l (addr e)) as Hperm
    by (rewrite branch_below, Ep; symmetry; apply Permutation_cons_append).
  assert (owned fa (branch (mem w) l e ++ t :: tree (mem w) l t is_)) as Hown'.
  { destruct Hown as [Hn Hu]. assert (t :: branch (mem w) l e ++ tree (mem w) l t is_ ≡ₚ branch (mem w) l e ++ t :: tree (mem w) l t is_) as Hp
      by apply Permutation_middle. split; by rewrite <- Hp. }
  apply wp_bind, (deeper_ok _ _ w fa); [done | |].
  { destruct Hown' as [Hn Hu]. apply NoDup_app in Hn as (Hn & _ & _). apply Forall_app in Hu as [Hu _]. rewrite Hperm in Hn, Hu. done. }
  intros fa1 w1 R1 S1 F1.
  assert (used fa1 (addr e)) as Hue.
  { eapply freed_used; [exact F1 | |].
    - destruct Hown' as [_ Hu]. apply Forall_app in Hu as [Hu _]. rewrite Hperm in Hu. by apply Forall_cons in Hu as [? _].
    - destruct Hown' as [Hn _]. apply NoDup_app in Hn as (Hn & _ & _). rewrite Hperm in Hn. by apply NoDup_cons in Hn as [? _]. }
  apply wp_bind, (wp_free_frame _ w1 fa1); [done | done |]. intros fa2 w2 R2 S2 F2.
  assert (freed fa (mem w) fa2 (mem w2) (branch (mem w) l e)) as F12.
  { rewrite branch_below, Ep. by eapply freed_trans. }
  destruct (freed_keeps _ _ _ _ _ _ (proj2 R) Hown' F12) as [Hsame Hown2].
  assert (tree (mem w2) l t is_ = tree (mem w) l t is_) as Et by by apply tree_same, same_on_tables.
  apply (IH _ w2 fa2); [done | done | by rewrite Et |]. rewrite Et. intros fa3 w3 R3 S3 F3.
  replace (n + _ + 1 + _) with (n + Z.of_nat (length (branch (mem w) l e ++ tree (mem w) l t is_))).
  - apply (HQ fa3); [done | by eapply same_rest_trans, same_rest_trans | by eapply freed_trans].
  - rewrite length_app, branch_below, Ep, length_app. cbn [length]. lia.
Qed.
End Entries.

Lemma wp_free_level l : forall t n w fa (Q : Z -> world -> Prop) E, runs w fa -> owned fa (t :: below (mem w) l t) ->
  (forall fa' w', runs w' fa' -> same_rest w w' -> freed fa (mem w) fa' (mem w') (below (mem w) l t) ->
     Q (n + Z.of_nat (length (below (mem w) l t))) w') -> wp (free_level l t n) w Q E.
Proof.
  induction l as [| l IH]; intros t n w fa Q E R Hown HQ; cbn [free_level below] in *.
  - apply wp_ret. replace n with (n + Z.of_nat (length (@nil Z))) by (cbn; lia). by apply (HQ fa); [| | apply freed_refl, R].
  - eapply (wp_free_entries l IH); [exact R | apply indexes_all | done | done].
Qed.

(** Tearing a space down gives back exactly its frames. *)
Lemma wp_free_address_space root w fa (Q : Z -> world -> Prop) E : runs w fa -> space_ok fa (mem w) root ->
  (forall fa' w', runs w' fa' -> same_rest w w' -> freed fa (mem w) fa' (mem w') (space_frames (mem w) root) ->
     Q (Z.of_nat (length (space_frames (mem w) root))) w') -> wp (free_address_space root) w Q E.
Proof.
  intros R Hok HQ. unfold free_address_space. apply wp_bind, wp_read. set (top := mem w (entry_at root USER_PML4_SLOT)).
  unfold space_ok, space_frames in *. rewrite tree_cons in Hok, HQ. fold top in Hok, HQ.
  assert (tree (mem w) 3 root [] = []) as Et by by rewrite tree_eq. rewrite Et, app_nil_r in Hok, HQ.
  rewrite branch_below in Hok, HQ. apply wp_bind. destruct (present top).
  - assert (addr top :: below (mem w) 3 (addr top) ++ [root] ≡ₚ root :: below (mem w) 3 (addr top) ++ [addr top]) as Hp.
    { rewrite <- !Permutation_cons_append. constructor. }
    assert (owned fa ((below (mem w) 3 (addr top) ++ [addr top]) ++ [root])) as Hown.
    { assert ((below (mem w) 3 (addr top) ++ [addr top]) ++ [root] ≡ₚ root :: below (mem w) 3 (addr top) ++ [addr top]) as Hq
        by (symmetry; apply Permutation_cons_append). split; rewrite Hq; apply Hok. }
    apply wp_bind, (wp_free_level 3 _ _ w fa); [done | |].
    { destruct Hok as [Hn Hu]. rewrite <- Hp in Hn, Hu. rewrite app_comm_cons in Hn, Hu.
      apply NoDup_app in Hn as (Hn & _ & _). by apply Forall_app in Hu as [Hu _]. }
    intros fa1 w1 R1 S1 F1.
    assert (used fa1 (addr top)) as Hu1.
    { rewrite <- app_assoc in Hown. eapply freed_keeps in F1 as [_ [_ Hu]]; [| apply R | exact Hown]. by apply Forall_cons in Hu as [? _]. }
    apply wp_bind, (wp_free_frame _ w1 fa1); [done | done |]. intros fa2 w2 R2 S2 F2. apply wp_ret.
    pose proof (freed_trans _ _ _ _ _ _ _ _ F1 F2) as F12.
    destruct (freed_keeps _ _ _ _ _ _ (proj2 R) Hown F12) as [_ [_ Hu]]. apply Forall_cons in Hu as [Hu _].
    apply wp_bind, (wp_free_frame _ w2 fa2); [done | done |]. intros fa3 w3 R3 S3 F3. apply wp_ret.
    replace (0 + _ + 1 + 1) with (Z.of_nat (length (root :: below (mem w) 3 (addr top) ++ [addr top])))
      by (cbn [length]; rewrite length_app; cbn [length]; lia).
    apply (HQ fa3); [done | by eapply same_rest_trans, same_rest_trans |].
    eapply freed_perm; [| by eapply freed_trans, F3]. symmetry. apply Permutation_cons_append.
  - apply wp_ret, wp_bind, (wp_free_frame _ w fa); [done | destruct Hok as [_ Hu]; by apply Forall_cons in Hu as [? _] |]. intros fa1 w1 R1 S1 F1.
    apply wp_ret. by apply (HQ fa1).
Qed.

(** * Accounting *)

(** Frames in use that are not among [S]: everyone else's. *)
Definition others (fa : FrameAllocator) (S : list Z) (f : Z) : Prop := used fa f /\ f ∉ S.

(** From holding the frames [S] to holding [S']: everyone else's frames stay theirs, and
    nothing outside [S] and the free frames was written. *)
Record exchange (fa : FrameAllocator) (m : phys_mem) (S : list Z) (fa' : FrameAllocator) (m' : phys_mem) (S' : list Z) : Prop := {
  xc_wf : wf fa' m';
  xc_total : total_frames fa' = total_frames fa;
  xc_owned : owned fa' S';
  xc_others : forall f, others fa S f <-> others fa' S' f;
  xc_mem : forall a, (forall f, f ∈ S -> ~ within f a) -> (forall f, free fa f -> ~ within f a) -> m' a = m a }.

Lemma used_or_free fa f k : f = k * FRAME_SIZE -> 0 <= k < total_frames fa -> used fa f \/ free fa f.
Proof. intros -> Hk. destruct (is_free fa k) eqn:E; [right | left]; by exists k. Qed.
Lemma not_used_and_free fa f : used fa f -> free fa f -> False.
Proof. intros Hu Hf. apply (used_free fa [f] [f]) with (x := f); [by apply Forall_singleton | by apply Forall_singleton | by left | by left]. Qed.
Lemma frame_total fa fa' b f : total_frames fa' = total_frames fa -> frame_in fa' b f -> used fa f \/ free fa f.
Proof. intros Ht (k & -> & Hk & _). rewrite Ht in Hk. by eapply used_or_free. Qed.

(** Whatever is free or held afterwards was free or held before. *)
Lemma exchange_back fa m S fa' m' S' f : exchange fa m S fa' m' S' -> free fa' f \/ f ∈ S' -> free fa f \/ f ∈ S.
Proof.
  intros X Hf. assert (used fa f \/ free fa f) as [Hu | ?]; [| | by left].
  { destruct Hf as [Hf | Hf]; [by eapply frame_total; [apply X |] |].
    eapply frame_total; [apply X | eapply Forall_elem; [apply X | done]]. }
  right. destruct (decide (f ∈ S)) as [? | Hn]; [done |]. exfalso.
  destruct (proj1 (xc_others _ _ _ _ _ _ X f) (conj Hu Hn)) as [Hu' Hn']. destruct Hf as [Hf | Hf]; [by eapply not_used_and_free | done].
Qed.

Lemma exchange_refl fa m S : wf fa m -> owned fa S -> exchange fa m S fa m S.
Proof. intros. by constructor. Qed.
Lemma exchange_trans fa m S fa1 m1 S1 fa2 m2 S2 :
  exchange fa m S fa1 m1 S1 -> exchange fa1 m1 S1 fa2 m2 S2 -> exchange fa m S fa2 m2 S2.
Proof.
  intros A B. constructor; [apply B | | apply B | |].
  - rewrite (xc_total _ _ _ _ _ _ B). apply A.
  - intros f. by rewrite (xc_others _ _ _ _ _ _ A), (xc_others _ _ _ _ _ _ B).
  - intros a Ha Hfr. rewrite (xc_mem _ _ _ _ _ _ B); [by apply (xc_mem _ _ _ _ _ _ A) | |].
    + intros f Hf. destruct (exchange_back _ _ _ _ _ _ f A (or_intror Hf)); auto.
    + intros f Hf. destruct (exchange_back _ _ _ _ _ _ f A (or_introl Hf)); auto.
Qed.
Lemma exchange_perm fa m S T fa' m' S' T' : S ≡ₚ T -> S' ≡ₚ T' -> exchange fa m S fa' m' S' -> exchange fa m T fa' m' T'.
Proof.
  intros H H' [X1 X2 [Xn Xu] X4 X5]. constructor; [done | done | | |].
  - split; by rewrite <- H'.
  - intros f. unfold others in *. rewrite <- H, <- H'. apply X4.
  - intros a Ha. apply X5. intros f Hf. apply Ha. by rewrite <- H.
Qed.
(** One more frame that is held all along. *)
Lemma exchange_frame fa m S fa' m' S' f : used fa f -> f ∉ S -> exchange fa m S fa' m' S' ->
  exchange fa m (f :: S) fa' m' (f :: S').
Proof.
  intros Hu Hn X. destruct (proj1 (xc_others _ _ _ _ _ _ X f) (conj Hu Hn)) as [Hu' Hn']. destruct X as [X1 X2 [X3 X3'] X4 X5].
  constructor; [done | done | | |].
  - split; [by apply NoDup_cons | by apply Forall_cons].
  - intros g. unfold others in *. rewrite !not_elem_of_cons. specialize (X4 g). tauto.
  - intros a Ha. apply X5. intros g Hg. apply Ha. by right.
Qed.

Lemma grown_exchange fa m fa' m' F N S : owned fa S -> F ⊆ S -> grown fa m fa' m' F N -> exchange fa m S fa' m' (S ++ N).
Proof.
  intros [Hn Hu] HF G. pose proof (used_free _ _ _ Hu (gr_free _ _ _ _ _ _ G)) as Hd. pose proof (grown_new _ _ _ _ _ _ G) as Hnew.
  constructor; [apply G | apply G | | |].
  - split.
    + apply NoDup_app. split; [done |]. split; [intros x Hx Hy; by apply (Hd x) | apply G].
    + apply Forall_app. split; [by eapply grown_used_all | done].
  - intros f. unfold others. rewrite not_elem_of_app. split.
    + intros [Huf Hf]. split; [by eapply grown_used |]. split; [done |]. intros Hin.
      eapply not_used_and_free; [exact Huf |]. eapply Forall_elem; [apply G | done].
    + intros [Huf [Hf HfN]]. split; [| done]. destruct Huf as (k & -> & Hk & Hfr). rewrite (gr_total _ _ _ _ _ _ G) in Hk. exists k.
      split; [done |]. split; [done |]. rewrite (gr_bits _ _ _ _ _ _ G) in Hfr by lia.
      rewrite bool_decide_eq_false_2 in Hfr by done. by rewrite andb_true_r in Hfr.
  - intros a Ha Hfr. apply (gr_mem _ _ _ _ _ _ G). intros f [Hf | Hf]%elem_of_app; [by apply Ha, HF |].
    apply Hfr. eapply Forall_elem; [apply G | done].
Qed.

Lemma freed_exchange fa m fa' m' F S : wf fa m -> owned fa (F ++ S) -> freed fa m fa' m' F -> exchange fa m (F ++ S) fa' m' S.
Proof.
  intros Hw Hown Fd. pose proof Hown as [Hn Hu]. apply NoDup_app in Hn as (_ & Hd & _).
  constructor; [apply Fd | apply Fd | by eapply freed_keeps | |].
  - intros f. unfold others. rewrite not_elem_of_app. split.
    + intros [Huf [Hf HfS]]. split; [| done]. by eapply freed_used.
    + intros [(k & -> & Hk & Hfr) HfS]. rewrite (fd_total _ _ _ _ _ Fd) in Hk. rewrite (fd_bits _ _ _ _ _ Fd) in Hfr by lia.
      apply orb_false_iff in Hfr as [Hfr HfF]. apply bool_decide_eq_false in HfF. split; [by exists k | done].
  - intros a Ha _. apply (fd_mem _ _ _ _ _ Fd). intros f Hf. apply Ha, elem_of_app. by left.
Qed.

(** Holding nothing before and after: the allocator is back where it was. *)
Lemma exchange_none fa m fa' m' : wf fa m -> exchange fa m [] fa' m' [] ->
  (forall k, 0 <= k < total_frames fa -> is_free fa' k = is_free fa k) /\ free_frames fa' = free_frames fa.
Proof.
  intros Hw X. assert (forall k, 0 <= k < total_frames fa -> is_free fa' k = is_free fa k) as Hb.
  { intros k Hk. pose proof (xc_others _ _ _ _ _ _ X (k * FRAME_SIZE)) as Ho. unfold others in Ho.
    assert (forall g b, total_frames g = total_frames fa -> frame_in g b (k * FRAME_SIZE) <-> is_free g k = b) as Hin.
    { intros g b Hg. split; [intros (j & E & _ & H); unfold FRAME_SIZE in E; by replace k with j by lia |].
      intros H. exists k. by rewrite Hg. }
    rewrite (Hin fa), (Hin fa') in Ho by (done || apply X). pose proof (not_elem_of_nil (k * FRAME_SIZE)).
    destruct (is_free fa k), (is_free fa' k); try done; exfalso; intuition discriminate. }
  split; [done |]. rewrite (wf_free _ _ (xc_wf _ _ _ _ _ _ X)), (wf_free _ _ Hw), (xc_total _ _ _ _ _ _ X).
  apply count_range_ext; [apply Hw | done].
Qed.

(** C17. free_address_space never panics on a consistent address space, and returns exactly
    its frames to the allocator: its root, every table and every page below its user
    entry, once each.  It reports their number, the free count grows by it, and no word
    of any other frame is written. *)
Theorem free_address_space_exact root w fa : runs w fa -> space_ok fa (mem w) root ->
  exists w' fa', free_address_space root w = (Ok (Z.of_nat (length (space_frames (mem w) root))), w')
    /\ runs w' fa' /\ same_rest w w' /\ freed fa (mem w) fa' (mem w') (space_frames (mem w) root)
    /\ free_frames fa' = free_frames fa + Z.of_nat (length (space_frames (mem w) root)).
Proof.
  intros R Hok.
  pose proof (wp_free_address_space root w fa (fun n w' => n = Z.of_nat (length (space_frames (mem w) root)) /\
    exists fa', runs w' fa' /\ same_rest w w' /\ freed fa (mem w) fa' (mem w') (space_frames (mem w) root)) (fun _ _ => False) R Hok) as H.
  unfold wp in H. destruct (free_address_space root w) as [[n | e |] w'].
  - destruct H as (-> & fa' & R' & S' & F'); [intros fa' w1 R' S' F'; eauto 10 |].
    exists w', fa'. split_and!; try done. apply F'.
  - destruct H. intros fa' w1 R' S' F'. eauto 10.
  - destruct H. intros fa' w1 R' S' F'. eauto 10.
Qed.

Lemma free_address_space_exact_witness : exists w' fa',
  free_address_space 4096 demo_world = (Ok 1, w') /\ runs w' fa' /\ free_frames fa' = 30.
Proof.
  destruct (free_address_space_exact 4096 demo_world demo_frames demo_runs demo_space_ok) as (w' & fa' & E & R & _ & _ & C).
  rewrite demo_space in E, C. exists w', fa'. split; [exact E |]. split; [exact R | rewrite C; reflexivity].
Defined.
End SpaceLife.
