(* ===== verification/SpaceLoad.v ===== *)
(** Loading pages into a user address space (src/memory/user.rs): bytes in frames, a new
    space, images page by page, and what both loaders share: everything goes back when
    one page cannot be had. *)

From Stdlib Require Import ZArith Lia.
From stdpp Require Import base list list_numbers numbers decidable tactics strings.
From S2P Require Import Prelude FrameAllocator UserSpace BlockDev AddressSpace SpaceTree SpaceMap SpaceLife.
Import Frames Blk AddressSpace SpaceTree SpaceMap SpaceLife.

Module SpaceLoad.

#[local] Abbreviation used fa := (frame_in fa false).
#[local] Abbreviation free fa := (frame_in fa true).

(** * Bytes in words *)

Lemma byte_of_spec w k : 0 <= k -> byte_of w k = w / 2 ^ (8 * k) mod 256.
Proof. intros Hk. unfold byte_of. by rewrite Z.shiftr_div_pow2 by lia. Qed.

Lemma with_byte_same w k b : 0 <= k -> is_byte b -> byte_of (with_byte w k b) k = b.
Proof.
  intros Hk Hb. unfold with_byte. rewrite !byte_of_spec, Z.shiftl_mul_pow2 by lia.
  assert (0 < 2 ^ (8 * k)) as Hp by (apply Z.pow_pos_nonneg; lia). rewrite Z.div_add by lia. unfold is_byte in Hb.
  rewrite Z.add_sub_assoc, Z.add_sub_swap. zdiv.
Qed.
Lemma with_byte_other w k b j : 0 <= k -> 0 <= j -> is_byte b -> j <> k -> byte_of (with_byte w k b) j = byte_of w j.
Proof.
  intros Hk Hj Hb Hne. unfold with_byte. rewrite !byte_of_spec, Z.shiftl_mul_pow2 by lia.
  set (p := 2 ^ (8 * k)). assert (0 < p) as Hp by (apply Z.pow_pos_nonneg; lia). unfold is_byte in Hb.
  destruct (decide (j < k)) as [Hlt | Hge].
  - set (q := 2 ^ (8 * j)). assert (0 < q) as Hq by (apply Z.pow_pos_nonneg; lia).
    assert (p = q * 256 * 2 ^ (8 * (k - j - 1))) as ->.
    { unfold p, q. change 256 with (2 ^ 8). rewrite <- !Z.pow_add_r by lia. f_equal. lia. }
    replace ((b - _) * _) with ((b - w / (q * 256 * 2 ^ (8 * (k - j - 1))) mod 256) * 2 ^ (8 * (k - j - 1)) * 256 * q) by ring.
    rewrite Z.div_add by lia. by rewrite Z.mod_add by lia.
  - assert (2 ^ (8 * j) = p * 256 * 2 ^ (8 * (j - k - 1))) as ->.
    { unfold p. change 256 with (2 ^ 8). rewrite <- !Z.pow_add_r by lia. f_equal. lia. }
    assert (0 < 2 ^ (8 * (j - k - 1))) by (apply Z.pow_pos_nonneg; lia).
    rewrite <- !(Z.div_div _ (p * 256)) by lia. f_equal. f_equal. rewrite <- !Z.div_div by lia.
    rewrite Z.div_add by lia. zdiv.
Qed.

Lemma load_store m a b x : is_byte b -> load_byte (store_byte m a b) x = if decide (x = a) then b else load_byte m x.
Proof.
  intros Hb. unfold load_byte, store_byte. pose proof (Z.mod_pos_bound a 8 ltac:(lia)). pose proof (Z.mod_pos_bound x 8 ltac:(lia)).
  case_decide as E.
  - subst x. rewrite write_here. apply with_byte_same; [lia | done].
  - destruct (decide (x - x mod 8 = a - a mod 8)) as [Ew | Ew]; [| by rewrite write_other].
    rewrite Ew, write_here. apply with_byte_other; lia || done.
Qed.

Lemma load_stores bs : forall m a x, Forall is_byte bs ->
  load_byte (store_bytes m a bs) x
  = if decide (a <= x < a + Z.of_nat (length bs)) then nth (Z.to_nat (x - a)) bs 0 else load_byte m x.
Proof.
  induction bs as [| b bs IH]; intros m a x Hbs; cbn [store_bytes length].
  - rewrite decide_False by lia. done.
  - apply Forall_cons in Hbs as [Hb Hbs]. rewrite IH by done. rewrite load_store by done.
    destruct (decide (x = a)) as [-> | Hne].
    + rewrite decide_False by lia. rewrite decide_True by lia. by rewrite Z.sub_diag.
    + destruct (decide (a + 1 <= x < a + 1 + Z.of_nat (length bs))) as [Hin | Hout].
      * rewrite decide_True by lia. replace (Z.to_nat (x - a)) with (S (Z.to_nat (x - (a + 1)))) by lia. done.
      * rewrite decide_False by lia. done.
Qed.

Lemma store_bytes_off f bs : forall m a, aligned f -> f <= a -> a + Z.of_nat (length bs) <= f + 4096 ->
  same_off [f] m (store_bytes m a bs).
Proof.
  induction bs as [| b bs IH]; intros m a Hf H1 H2; cbn [store_bytes length] in *; [done |].
  eapply same_off_trans; [| apply IH; [done | lia | lia]]. apply same_off_write.
  destruct Hf as (k & -> & _). unfold within. zdiv.
Qed.

(** A copy into a frame just taken. *)
Lemma grown_copy fa m fa' m' F N f a bs : grown fa m fa' m' F N -> used fa' f -> f ∈ N -> f <= a ->
  a + Z.of_nat (length bs) <= f + 4096 -> grown fa m fa' (store_bytes m' a bs) F N.
Proof.
  revert m' a. induction bs as [| b bs IH]; intros m' a G Hu Hin H1 H2; cbn [store_bytes length] in *; [done |].
  apply IH; [| done | done | lia | lia]. eapply (grown_write _ _ _ _ _ _ f); [done | done | apply elem_of_app; by right |].
  destruct Hu as (k & -> & _). unfold within, FRAME_SIZE in *. zdiv.
Qed.

(** A zero frame reads as zero bytes. *)
Lemma zero_table_byte m f x : aligned f -> zero_table m f -> within f x -> load_byte m x = 0.
Proof.
  intros (k & -> & _) Hz Hx. unfold load_byte. assert (m (x - x mod 8) = 0) as ->.
  { replace (x - x mod 8) with (entry_at (k * 4096) ((x - k * 4096) / 8)); [apply Hz |]; unfold entry_at, within in *; zdiv. }
  rewrite byte_of_spec by (apply Z.mod_pos_bound; lia). rewrite Z.div_0_l; [done |]. apply Z.pow_nonzero; [lia |].
  pose proof (Z.mod_pos_bound x 8). lia.
Qed.

(** * A new address space *)

Definition kernel (w : world) : Z := if negb (KERNEL_ROOT w =? 0) then KERNEL_ROOT w else cr3 w.
(** The kernel's top table is not in a frame the allocator may hand out. *)
Definition kernel_apart (w : world) (fa : FrameAllocator) : Prop :=
  forall f i, free fa f -> 0 <= i < 512 -> ~ within f (entry_at (kernel w) i).

Lemma wp_kernel_root w (Q : Z -> world -> Prop) E :
  (forall w', FRAME_ALLOC w' = FRAME_ALLOC w -> mem w' = mem w -> kernel w' = kernel w -> SLOTS w' = SLOTS w -> draws w' = draws w ->
     Q (kernel w) w') -> wp kernel_root w Q E.
Proof.
  intros HQ. unfold wp, kernel_root. destruct (negb (KERNEL_ROOT w =? 0)) eqn:E1.
  - assert (kernel w = KERNEL_ROOT w) as <- by (unfold kernel; by rewrite E1). by apply HQ.
  - assert (kernel w = cr3 w) as Ek by (unfold kernel; by rewrite E1). rewrite <- Ek at 1. apply HQ; try done.
    rewrite Ek. unfold kernel. cbn. by destruct (negb (cr3 w =? 0)).
Qed.

Lemma wp_new_address_space w fa (Q : Z -> world -> Prop) E : runs w fa -> kernel_apart w fa ->
  (forall root fa' w', runs w' fa' -> kernel w' = kernel w -> SLOTS w' = SLOTS w -> draws w' = draws w ->
     grown fa (mem w) fa' (mem w') [] [root] -> mem w' (entry_at root USER_PML4_SLOT) = 0 ->
     (forall i, 0 <= i < 512 -> i <> USER_PML4_SLOT -> mem w' (entry_at root i) = mem w (entry_at (kernel w) i)) -> Q root w') ->
  E "out of memory for a page table" w -> wp new_address_space w Q E.
Proof.
  intros R Hk HQ HE. unfold new_address_space. apply wp_bind, (wp_alloc w fa); [done | |].
  2:{ apply wp_bind, wp_lift. done. }
  intros root fa1 w1 R1 (Sk & Sc & Ss & Sd) G1 Hz. apply wp_bind, wp_lift. cbn [ok_or].
  assert (free fa root) as Hfr by (pose proof (gr_free _ _ _ _ _ _ G1) as Hf; by apply Forall_cons in Hf as [? _]).
  assert (used fa1 root) as Hur by (pose proof (grown_new _ _ _ _ _ _ G1) as Hf; by apply Forall_cons in Hf as [? _]).
  apply wp_bind, wp_kernel_root. intros w2 F2 M2 K2 S2 D2.
  assert (kernel w1 = kernel w) as Ek by (unfold kernel; by rewrite Sk, Sc). rewrite Ek.
  apply wp_bind.
  apply (wp_for_each _ _ (fun dn _ st => FRAME_ALLOC st = Some fa1 /\ kernel st = kernel w /\ SLOTS st = SLOTS w /\ draws st = draws w
      /\ grown fa (mem w) fa1 (mem st) [] [root] /\ mem st (entry_at root USER_PML4_SLOT) = 0
      /\ forall i, i ∈ dn -> i <> USER_PML4_SLOT -> mem st (entry_at root i) = mem w (entry_at (kernel w) i))).
    - rewrite F2, M2, K2, S2, D2. split_and!; try done; [apply R1 | apply Hz; by vm_compute |]. by intros i ?%not_elem_of_nil.
    - intros st (A1 & A2 & A3 & A4 & A5 & A6 & A7). apply wp_ret. apply (HQ root fa1); try done; [split; [done | apply A5] |].
      intros i Hi. apply A7. apply elem_of_seqZ. lia.
    - intros dn i rest st El (A1 & A2 & A3 & A4 & A5 & A6 & A7).
      assert (i ∈ seqZ 0 512) as Hi by (rewrite El; apply elem_of_app; right; by left). apply elem_of_seqZ in Hi.
      destruct (Z.eqb_spec i USER_PML4_SLOT) as [Es | Es]; cbn [negb].
      + apply wp_ret. split_and!; try done. intros j [Hj | ->%list_elem_of_singleton]%elem_of_app; [by apply A7 | done].
      + apply wp_bind, wp_read, wp_write. cbn [mem set_mem FRAME_ALLOC SLOTS draws].
        assert (mem st (entry_at (kernel w) i) = mem w (entry_at (kernel w) i)) as ->.
        { apply (gr_mem _ _ _ _ _ _ A5). intros f ->%list_elem_of_singleton. by apply Hk. }
        split_and!; try done.
        * eapply (grown_write _ _ _ _ _ _ root); [done | done | by left | by apply entry_within].
        * rewrite write_other; [done |]. intros E'. by apply entry_inj in E'.
        * intros j Hj Hne. unfold write_word. destruct (Z.eqb_spec (entry_at root j) (entry_at root i)) as [E' | E'].
          -- apply entry_inj in E'. by subst j.
          -- apply A7; [| done]. apply elem_of_app in Hj as [? | ->%list_elem_of_singleton]; done.
Qed.

(** * Loading pages *)

(** A page of an image: address, permissions and bytes; and the frame it got. *)
Record page := mkPage { pg_va : Z; pg_wr : bool; pg_ex : bool; pg_bytes : Z -> Z }.
Record placed_page := mkPlaced { pp_page :> page; pg_pa : Z }.
(** The bytes of a zeroed frame with [data] copied to [off]. *)
Definition contents (off : Z) (data : list Z) (i : Z) : Z :=
  if decide (off <= i < off + Z.of_nat (length data)) then nth (Z.to_nat (i - off)) data 0 else 0.
Definition page_at (va : Z) (p : placed_page) : bool := va / 4096 =? pg_va p / 4096.
Definition page_entry (p : placed_page) : Z := leaf_entry (pg_pa p) (pg_wr p) (pg_ex p).

(** The space [root] holds exactly the pages [pages]; since [fa0] and [m0], when the frames
    [S0] were held, nothing of anyone else's has changed. *)
Record loading (fa0 : FrameAllocator) (m0 : phys_mem) (S0 : list Z) (root : Z) (pages : list placed_page)
  (w : world) (fa : FrameAllocator) : Prop := {
  ld_runs : runs w fa;
  ld_ok : space_ok fa (mem w) root;
  ld_exchange : exchange fa0 m0 S0 fa (mem w) (space_frames (mem w) root);
  ld_map : forall va, in_window va -> mapping (mem w) root va = page_entry <$> List.find (page_at va) pages;
  ld_pages : forall p, p ∈ pages -> pg_pa p ∈ space_frames (mem w) root /\ ~ (pg_pa p ∈ space_tables (mem w) root)
    /\ forall i, 0 <= i < 4096 -> load_byte (mem w) (pg_pa p + i) = pg_bytes p i;
  ld_open : space_open (mem w) root;
  ld_frames : NoDup (map pg_pa pages) }.
Definition abandoned (fa0 : FrameAllocator) (m0 : phys_mem) (S0 : list Z) (root : Z) (w : world) : Prop :=
  exists fa, runs w fa /\ space_ok fa (mem w) root /\ exchange fa0 m0 S0 fa (mem w) (space_frames (mem w) root).

Lemma load_byte_same f m m' x : aligned f -> same_on [f] m m' -> within f x -> load_byte m' x = load_byte m x.
Proof.
  intros (k & -> & _) H Hx. unfold load_byte. rewrite (H (k * 4096)); [done | by left |]. unfold within in *. zdiv.
Qed.
Lemma space_same_tables m m' root : same_on (space_tables m root) m m' ->
  space_frames m' root = space_frames m root /\ space_tables m' root = space_tables m root
  /\ (forall va, in_window va -> mapping m' root va = mapping m root va) /\ (space_open m root -> space_open m' root).
Proof.
  intros H. unfold space_frames, space_tables, mapping. split; [f_equal; by apply tree_same; [apply indexes_user |] |].
  split; [f_equal; by apply tables_same; [apply indexes_user |] |].
  split; [| apply open_same; [apply indexes_user | exact H]].
  intros va Hva. apply (leaf_same _ _ _ _ _ [USER_PML4_SLOT]); [apply indexes_user | by apply index_user | done].
Qed.
Lemma space_same m m' root : same_on (space_frames m root) m m' ->
  space_frames m' root = space_frames m root /\ space_tables m' root = space_tables m root
  /\ (forall va, in_window va -> mapping m' root va = mapping m root va) /\ (space_open m root -> space_open m' root).
Proof. intros H. by apply space_same_tables, same_on_tables. Qed.
Lemma tables_in_frames m root : space_tables m root ⊆ space_frames m root.
Proof. intros f [-> | Hf]%elem_of_cons; [by left | right; by apply tables_tree]. Qed.
Section Pages.
Context (fa0 : FrameAllocator) (m0 : phys_mem) (S0 : list Z) (root : Z).

(** The world after a frame was taken for the page and filled. *)
Record filled (w : world) (fa : FrameAllocator) (pa off : Z) (data : list Z) (w1 : world) (fa1 : FrameAllocator) : Prop := {
  fl_runs : runs w1 fa1;
  fl_rest : same_rest w w1;
  fl_grown : grown fa (mem w) fa1 (mem w1) [] [pa];
  fl_same : same_on (space_frames (mem w) root) (mem w) (mem w1);
  fl_ok : space_ok fa1 (mem w1) root;
  fl_fresh : used fa1 pa /\ pa ∉ space_frames (mem w1) root;
  fl_bytes : forall i, 0 <= i < 4096 -> load_byte (mem w1) (pa + i) = contents off data i }.

Lemma fill_frame w fa pa off data fa1 w1 : runs w fa -> space_ok fa (mem w) root -> runs w1 fa1 -> same_rest w w1 ->
  grown fa (mem w) fa1 (mem w1) [] [pa] -> zero_table (mem w1) pa -> Forall is_byte data -> 0 <= off ->
  off + Z.of_nat (length data) <= PAGE ->
  filled w fa pa off data (set_mem (store_bytes (mem w1) (pa + off) data) w1) fa1.
Proof.
  intros R Hok R1 S1 G1 Hz Hb H0 Hlen. unfold PAGE in Hlen.
  assert (used fa1 pa) as Hup by (pose proof (grown_new _ _ _ _ _ _ G1) as Hf; by apply Forall_cons in Hf as [? _]).
  assert (free fa pa) as Hfp by (pose proof (gr_free _ _ _ _ _ _ G1) as Hf; by apply Forall_cons in Hf as [? _]).
  assert (aligned pa) as Ha by (eapply frame_aligned; [apply R | exact Hfp]).
  assert (grown fa (mem w) fa1 (store_bytes (mem w1) (pa + off) data) [] [pa]) as G2.
  { eapply (grown_copy _ _ _ _ _ _ pa); [done | done | by left | lia | lia]. }
  assert (same_on (space_frames (mem w) root) (mem w) (store_bytes (mem w1) (pa + off) data)) as Hsame.
  { eapply same_off_on; [| by eapply owned_aligned; [apply R | exact Hok] | | apply G2]; [by apply Forall_singleton |].
    intros x ->%list_elem_of_singleton Hx. eapply not_used_and_free; [eapply Forall_elem; [apply Hok | exact Hx] | done]. }
  destruct (space_same _ _ _ Hsame) as (Hfr & _ & _ & _).
  constructor; cbn [mem set_mem]; [split; [apply R1 | apply G2] | done | done | done | | split; [done |] |].
  - unfold space_ok. rewrite Hfr. split; [apply Hok |]. eapply grown_used_all; [exact G1 | apply Hok].
  - rewrite Hfr. intros Hx. eapply not_used_and_free; [eapply Forall_elem; [apply Hok | exact Hx] | done].
  - intros i Hi. rewrite load_stores by done. unfold contents.
    destruct (decide (off <= i < off + Z.of_nat (length data))) as [Hin | Hout].
    + rewrite decide_True by lia. f_equal. lia.
    + rewrite decide_False by lia. apply (zero_table_byte _ pa); [done | done | unfold within; lia].
Qed.

(** The page was mapped. *)
Lemma loaded_page pages w fa va pa wr ex off data w1 fa1 w2 fa2 N :
  loading fa0 m0 S0 root pages w fa -> filled w fa pa off data w1 fa1 -> in_window va ->
  mapped w1 fa1 root va pa (leaf_entry pa wr ex) w2 fa2 N ->
  loading fa0 m0 S0 root (mkPlaced (mkPage va wr ex (contents off data)) pa :: pages) w2 fa2.
Proof.
  intros [R Hok X Hmap Hpg Hop Hnd] [R1 _ G1 Hsame Hok1 [Hup Hfresh] Hbytes] Hva Mp.
  destruct (space_same _ _ _ Hsame) as (Hfr1 & Htb1 & Hmap1 & Hop1). pose proof (mp_grown _ _ _ _ _ _ _ _ _ Mp) as G2.
  assert (forall f, used fa1 f -> f ∉ space_tables (mem w1) root -> (f ∉ space_tables (mem w2) root) /\ same_on [f] (mem w1) (mem w2)) as Hkeep.
  { intros f Hu Hn. assert (f ∉ N) as HnN.
    { intros Hin. eapply not_used_and_free; [exact Hu |]. eapply Forall_elem; [apply G2 | done]. }
    split; [intros [Hin | Hin]%(mp_tables _ _ _ _ _ _ _ _ _ Mp)%elem_of_app; done |].
    eapply same_off_on; [| | | apply G2].
    - apply Forall_app. split.
      + apply Forall_forall. intros g Hg. eapply Forall_elem; [eapply owned_aligned; [apply R1 | exact Hok1] | by apply tables_in_frames].
      + eapply Forall_impl; [apply G2 |]. intros g. eapply frame_aligned. apply R1.
    - apply Forall_singleton. eapply frame_aligned; [apply R1 | exact Hu].
    - intros x [Hx | Hx]%elem_of_app ->%list_elem_of_singleton; done. }
  constructor; [apply Mp | apply Mp | | | | by apply (mp_open _ _ _ _ _ _ _ _ _ Mp), Hop1 |].
  - eapply exchange_trans; [exact X |]. eapply exchange_trans; [eapply (grown_exchange _ _ _ _ [] _ _ Hok); [by intros ? ?%not_elem_of_nil | exact G1] |].
    eapply exchange_perm; [reflexivity | | eapply (grown_exchange _ _ _ _ (space_tables (mem w1) root) N); [| | exact G2]].
    + rewrite (mp_frames _ _ _ _ _ _ _ _ _ Mp), Hfr1, <- app_assoc. f_equiv. apply Permutation_app_comm.
    + rewrite <- Hfr1. split.
      * apply NoDup_app. split; [apply Hok1 |]. split; [| apply NoDup_singleton]. by intros x Hx ->%list_elem_of_singleton.
      * apply Forall_app. split; [apply Hok1 | by apply Forall_singleton].
    + intros f Hf. apply elem_of_app. left. rewrite <- Hfr1. by apply tables_in_frames.
  - intros va' Hva'. rewrite (mp_after _ _ _ _ _ _ _ _ _ Mp), Hmap1, Hmap by done. cbn [List.find]. unfold page_at at 2. cbn [pp_page pg_va].
    by destruct (va' / 4096 =? va / 4096).
  - intros p Hp. apply elem_of_cons in Hp as [-> | Hp]; cbn [pg_pa].
    + destruct (Hkeep pa Hup ltac:(by intros ?%tables_in_frames)) as [Hnt Hs]. split; [| split; [done |]].
      * rewrite (mp_frames _ _ _ _ _ _ _ _ _ Mp). rewrite app_assoc. apply elem_of_app. right. by left.
      * intros i Hi. rewrite (load_byte_same pa (mem w1)); [by apply Hbytes | eapply frame_aligned; [apply R1 | exact Hup] | done | unfold within; lia].
    + destruct (Hpg p Hp) as (H1 & H2 & H3). rewrite <- Hfr1 in H1. rewrite <- Htb1 in H2.
      assert (used fa1 (pg_pa p)) as Hu by (eapply Forall_elem; [apply Hok1 | exact H1]).
      destruct (Hkeep _ Hu H2) as [Hnt Hs]. split; [| split; [done |]].
      * rewrite (mp_frames _ _ _ _ _ _ _ _ _ Mp). apply elem_of_app. by left.
      * intros i Hi. assert (aligned (pg_pa p)) as Ha by (eapply frame_aligned; [apply R1 | exact Hu]).
        assert (within (pg_pa p) (pg_pa p + i)) as Hw by (unfold within; lia).
        rewrite (load_byte_same (pg_pa p) (mem w1) (mem w2) _ Ha Hs Hw).
        rewrite (load_byte_same (pg_pa p) (mem w) (mem w1) _ Ha); [by apply H3 | | exact Hw].
        intros f a ->%list_elem_of_singleton. apply Hsame. rewrite <- Hfr1. exact H1.
  - cbn [map pg_pa]. apply NoDup_cons. split; [| exact Hnd]. intros (q & E & Hq)%list_elem_of_fmap. apply Hfresh.
    rewrite E, Hfr1. by apply Hpg.
Qed.

(** The page could not be mapped, and its frame goes back. *)
Lemma dropped_page pages w fa pa off data w1 fa1 w2 fa2 N w3 fa3 :
  loading fa0 m0 S0 root pages w fa -> filled w fa pa off data w1 fa1 ->
  extends fa1 (mem w1) fa2 (mem w2) 3 root [USER_PML4_SLOT] N -> runs w2 fa2 -> runs w3 fa3 ->
  freed fa2 (mem w2) fa3 (mem w3) [pa] -> abandoned fa0 m0 S0 root w3.
Proof.
  intros [R Hok X _ _ _ _] [R1 _ G1 Hsame Hok1 [Hup Hfresh] _] Ex R2 R3 Fd.
  destruct (space_same _ _ _ Hsame) as (Hfr1 & Htb1 & _ & _).
  assert (space_frames (mem w2) root ≡ₚ space_frames (mem w1) root ++ N) as Hfr2.
  { unfold space_frames. rewrite (ex_tree _ _ _ _ _ _ _ _ Ex). done. }
  assert (exchange fa0 m0 S0 fa2 (mem w2) ([pa] ++ space_frames (mem w2) root)) as X2.
  { eapply exchange_trans; [exact X |].
    eapply exchange_trans; [eapply (grown_exchange _ _ _ _ [] _ _ Hok); [by intros ? ?%not_elem_of_nil | exact G1] |].
    rewrite <- Hfr1. eapply exchange_perm; [reflexivity | | eapply (grown_exchange _ _ _ _ (space_tables (mem w1) root) N); [| | apply Ex]].
    - rewrite Hfr2, (Permutation_app_comm (space_frames (mem w1) root) [pa]), <- app_assoc. reflexivity.
    - split.
      + apply NoDup_app. split; [apply Hok1 |]. split; [| apply NoDup_singleton]. by intros x Hx ->%list_elem_of_singleton.
      + apply Forall_app. split; [apply Hok1 | by apply Forall_singleton].
    - intros f Hf. apply elem_of_app. left. by apply tables_in_frames. }
  pose proof (freed_exchange _ _ _ _ _ _ (proj2 R2) (xc_owned _ _ _ _ _ _ X2) Fd) as X3.
  destruct (freed_keeps _ _ _ _ _ _ (proj2 R2) (xc_owned _ _ _ _ _ _ X2) Fd) as [Hs3 Hok3].
  destruct (space_same _ _ _ Hs3) as (Hfr3 & _ & _ & _). exists fa3. unfold space_ok. rewrite Hfr3.
  split; [exact R3 |]. split; [exact Hok3 |]. eapply exchange_trans; [exact X2 | exact X3].
Qed.

Lemma loading_abandoned pages w fa : loading fa0 m0 S0 root pages w fa -> abandoned fa0 m0 S0 root w.
Proof. intros [R Hok X _ _ _ _]. exists fa. split; [exact R |]. split; [exact Hok | exact X]. Qed.

(** Errors that say there was no frame left. *)
Definition MEMORY_ERRORS : list string :=
  ["out of memory for a page table"; "frame allocator not initialized"; "out of memory"; "out of memory for page tables"].

(** Filling a fresh frame and mapping it, or giving it back. *)
Lemma wp_fill_map va pa data off wr ex pages w fa w1 fa1 (Q : unit -> world -> Prop) E :
  loading fa0 m0 S0 root pages w fa -> in_window va -> Forall is_byte data -> 0 <= off -> off + Z.of_nat (length data) <= PAGE ->
  (forall p, p ∈ pages -> page_at va p = false) ->
  runs w1 fa1 -> same_rest w w1 -> grown fa (mem w) fa1 (mem w1) [] [pa] -> zero_table (mem w1) pa ->
  (forall w' fa', same_rest w w' -> loading fa0 m0 S0 root (mkPlaced (mkPage va wr ex (contents off data)) pa :: pages) w' fa' -> Q tt w') ->
  (forall e w', same_rest w w' -> abandoned fa0 m0 S0 root w' -> e ∈ MEMORY_ERRORS -> E e w') ->
  wp (_ ← copy_in (pa + off) data;
      r ← catch (map_user_page root va pa wr ex);
      match r with inl _ => mret tt | inr e => _ ← free_frame pa; fail e end) w1 Q E.
Proof.
  intros L Hva Hb H0 Hlen Hnew R1 S1 G1 Hz HQ HE. pose proof L as [R Hok _ Hmap _ _ _].
  apply wp_bind. unfold wp at 1. unfold copy_in.
  pose proof (fill_frame w fa pa off data fa1 w1 R Hok R1 S1 G1 Hz Hb H0 Hlen) as Fl.
  set (w1c := set_mem (store_bytes (mem w1) (pa + off) data) w1) in *. clearbody w1c.
  apply wp_bind, wp_catch. eapply (wp_map_user_page root va pa wr ex w1c fa1); [apply Fl | apply Fl | done | apply Fl | apply Fl | |].
  - intros w2 fa2 N Mp. apply wp_ret. eapply (HQ w2 fa2); [eapply same_rest_trans; [apply Fl | apply Mp] |].
    eapply loaded_page; [exact L | exact Fl | exact Hva | exact Mp].
  - intros e w2 [(_ & _ & Hm) | (-> & _ & fa2 & N & R2 & S2 & Ex)].
    { exfalso. destruct (space_same _ _ _ (fl_same _ _ _ _ _ _ _ Fl)) as (_ & _ & Hm1 & _). rewrite Hm1, Hmap in Hm by done.
      destruct (List.find (page_at va) pages) as [p |] eqn:Ef; [| by destruct Hm].
      apply List_find_Some in Ef as [Hp Hat]. by rewrite (Hnew p Hp) in Hat. }
    apply wp_bind, (wp_free_frame _ w2 fa2); [exact R2 | eapply grown_used; [apply Ex | apply Fl] |].
    intros fa3 w3 R3 S3 Fd. apply wp_fail, HE.
    + eapply same_rest_trans; [apply Fl |]. eapply same_rest_trans; [exact S2 | exact S3].
    + eapply dropped_page; [exact L | exact Fl | exact Ex | exact R2 | exact R3 | exact Fd].
    + unfold MEMORY_ERRORS. do 3 right. by left.
Qed.

(** * Images *)

(** The space holds exactly the pages [ds]. *)
Definition loaded (ds : list page) (w : world) (fa : FrameAllocator) : Prop :=
  exists pages, loading fa0 m0 S0 root pages w fa /\ map pp_page pages ≡ₚ ds.
Definition page_no (d : page) : Z := pg_va d / 4096.
(** No two pages of an image at the same place. *)
Definition apart (ds : list page) : Prop := NoDup (map page_no ds).

(** [body] loads the pages [ds'] beside those there, or runs out of memory. *)
Definition loads (body : W unit) (ds' : list page) : Prop :=
  forall ds w fa (Q : unit -> world -> Prop) E, loaded ds w fa -> apart (ds ++ ds') ->
    (forall w' fa', same_rest w w' -> loaded (ds ++ ds') w' fa' -> Q tt w') ->
    (forall e w', same_rest w w' -> abandoned fa0 m0 S0 root w' -> e ∈ MEMORY_ERRORS -> E e w') ->
    wp body w Q E.

Lemma loaded_abandoned ds w fa : loaded ds w fa -> abandoned fa0 m0 S0 root w.
Proof. intros (pages & L & _). by eapply loading_abandoned. Qed.
Lemma loaded_perm ds ds' w fa : ds ≡ₚ ds' -> loaded ds w fa -> loaded ds' w fa.
Proof. intros Hp (pages & L & H). exists pages. split; [exact L | by rewrite H]. Qed.

Lemma apart_new ds d pages : apart (ds ++ [d]) -> map pp_page pages ≡ₚ ds -> forall p, p ∈ pages -> page_at (pg_va d) p = false.
Proof.
  unfold apart. rewrite map_app. intros (_ & Hd & _)%NoDup_app Hp p Hin. apply Z.eqb_neq. intros E.
  apply (Hd (page_no p)); [| unfold page_no; rewrite <- E; by left]. apply list_elem_of_fmap. exists (pp_page p). split; [done |].
  rewrite <- Hp. apply list_elem_of_fmap. eauto.
Qed.

Lemma loads_for_each {A} (l : list A) (body : A -> W unit) (f : A -> list page) :
  (forall x, x ∈ l -> loads (body x) (f x)) -> loads (for_each l body) (mjoin (map f l)).
Proof.
  induction l as [| x l IH]; intros Hl ds w fa Q E L Hap HQ HE; cbn [for_each map].
  { apply wp_ret. apply (HQ w fa); [done |]. change (mjoin (map f [])) with (@nil page). by rewrite app_nil_r. }
  change (mjoin (map f (x :: l))) with (f x ++ mjoin (map f l)) in *. rewrite app_assoc in Hap.
  apply wp_bind, (Hl x ltac:(by left) ds w fa); [exact L | | |].
  - unfold apart in *. rewrite map_app in Hap. by apply NoDup_app in Hap as (? & _ & _).
  - intros w1 fa1 S1 L1. apply (IH ltac:(intros y Hy; apply Hl; by right) (ds ++ f x) w1 fa1); [exact L1 | exact Hap | |].
    + intros w2 fa2 S2 L2. apply (HQ w2 fa2); [by eapply same_rest_trans | by rewrite app_assoc].
    + intros e w2 S2. apply HE. by eapply same_rest_trans.
  - exact HE.
Qed.

Lemma join_singletons {A} (f : A -> page) l : mjoin (map (fun x => [f x]) l) = map f l.
Proof. induction l as [| x l IH]; [done |]. cbn [map]. change (mjoin (?x :: ?l)) with (x ++ mjoin l). by rewrite IH. Qed.

Lemma map_fresh_loads va data off wr ex : in_window va -> Forall is_byte data -> 0 <= off -> off + Z.of_nat (length data) <= PAGE ->
  loads (map_fresh root va data off wr ex) [mkPage va wr ex (contents off data)].
Proof.
  intros Hva Hb H0 Hlen ds w fa Q E (pages & L & Hp) Hap HQ HE. unfold map_fresh.
  apply wp_bind, (wp_allocate_frame w fa); [apply L | |].
  2:{ apply wp_bind, wp_lift. cbn [ok_or]. apply wp_bind, wp_lift. cbn [ok_or]. apply HE; [done | by eapply loading_abandoned |].
      unfold MEMORY_ERRORS. do 2 right. by left. }
  intros pa fa1 w1 R1 S1 G1 Hz. apply wp_bind, wp_lift. cbn [ok_or]. apply wp_bind, wp_lift. cbn [ok_or].
  replace (Z.min (Z.of_nat (length data)) (PAGE - Z.min off PAGE)) with (Z.of_nat (length data)) by (unfold PAGE in *; lia).
  rewrite Nat2Z.id, take_ge by lia. cbn zeta.
  eapply wp_fill_map; [exact L | exact Hva | exact Hb | exact H0 | exact Hlen | | exact R1 | exact S1 | exact G1 | exact Hz | | exact HE].
  - by eapply (apart_new _ (mkPage va wr ex (contents off data))).
  - intros w2 fa2 S2 L2. apply (HQ w2 fa2); [exact S2 |]. eexists. split; [exact L2 |]. cbn [map pp_page]. rewrite Hp.
    apply Permutation_cons_append.
Qed.
End Pages.

(** The page at an address is the one that was put there. *)
Lemma apart_unique pages (p q : placed_page) : apart (map pp_page pages) -> p ∈ pages -> q ∈ pages -> page_no p = page_no q -> p = q.
Proof.
  intros Hap Hp Hq E. unfold apart in Hap. rewrite map_map in Hap.
  apply list_elem_of_lookup in Hp as [i Hi]. apply list_elem_of_lookup in Hq as [j Hj].
  assert (i = j) as ->; [| congruence]. apply (NoDup_lookup _ i j (page_no p) Hap); rewrite list_lookup_fmap.
  - by rewrite Hi.
  - rewrite Hj. cbn. by rewrite E.
Qed.
Lemma page_at_place pages (p : placed_page) va : apart (map pp_page pages) -> p ∈ pages -> va / 4096 = page_no p -> List.find (page_at va) pages = Some p.
Proof.
  intros Hap Hp Hva. destruct (List.find (page_at va) pages) as [q |] eqn:Ef.
  - apply List_find_Some in Ef as [Hq Hat%Z.eqb_eq]. f_equal. symmetry. apply (apart_unique pages); try done. unfold page_no in *. congruence.
  - exfalso. apply List_find_None with (x := p) in Ef; [| done]. unfold page_at in Ef. apply Z.eqb_neq in Ef. by apply Ef.
Qed.

(** What user code finds on a page of the image. *)
Section Found.
Context (fa0 : FrameAllocator) (m0 : phys_mem) (S0 : list Z) (root : Z) (ds : list page) (w : world) (fa : FrameAllocator).
Hypothesis L : loaded fa0 m0 S0 root ds w fa.

Lemma page_found d va : apart ds -> d ∈ ds -> in_window va -> va / 4096 = page_no d ->
  exists pa, (forall wr ex, user_access (mem w) root va wr ex = if (pg_wr d || negb wr) && (pg_ex d || negb ex) then Some pa else None)
    /\ load_byte (mem w) pa = pg_bytes d (va mod 4096).
Proof.
  destruct L as (pages & Lg & Hp). intros Hap Hd Hwv Hva. rewrite <- Hp in Hd. apply list_elem_of_fmap in Hd as (q & -> & Hq).
  assert (apart (map pp_page pages)) as Hap' by (unfold apart; by rewrite Hp).
  pose proof (page_at_place pages q va Hap' Hq Hva) as Ef. pose proof Hq as Hin. set (p := q) in *.
  destruct (ld_pages _ _ _ _ _ _ _ Lg p Hin) as (H1 & _ & H3).
  assert (aligned (pg_pa p)) as Ha by (eapply frame_aligned; [apply Lg | eapply Forall_elem; [apply Lg | exact H1]]).
  exists (pg_pa p + va mod 4096). split.
  - intros wr ex. rewrite user_access_spec by (apply Lg || done). rewrite (ld_map _ _ _ _ _ _ _ Lg va Hwv), Ef. cbn.
    unfold page_entry. rewrite (leaf_access_user _ _ (pg_wr p) (pg_ex p)) by by apply leaf_entry_user.
    by rewrite (proj1 (leaf_entry_spec _ _ _ Ha)).
  - apply H3. apply Z.mod_pos_bound. lia.
Qed.

Lemma page_only va wr ex : in_window va -> is_Some (user_access (mem w) root va wr ex) -> exists d, d ∈ ds /\ va / 4096 = page_no d.
Proof.
  destruct L as (pages & Lg & Hp). intros Hw [pa He]. rewrite user_access_spec in He by (apply Lg || done).
  rewrite (ld_map _ _ _ _ _ _ _ Lg va Hw) in He. destruct (List.find (page_at va) pages) as [p |] eqn:Ef; [| done].
  apply List_find_Some in Ef as [Hin Hat%Z.eqb_eq]. exists (pp_page p). split; [| done]. rewrite <- Hp. apply list_elem_of_fmap. eauto.
Qed.
End Found.
(** * Layouts and stacks *)

(** The shape of what [UserLayout.choose] returns. *)
Definition placed (l : UserLayout.Layout) : Prop :=
  exists a b c, 0 <= a < 2 ^ 25 /\ 0 <= b < 2 ^ 25 /\ 0 <= c < 1024
    /\ UserLayout.bias l = UserLayout.BASE + (1 + a) * 4096
    /\ UserLayout.stack_edge l = UserLayout.IMAGE_LIMIT + (16 + b) * 4096
    /\ UserLayout.stack_pointer l = UserLayout.stack_edge l - 64 - c.

Lemma choose_placed a b c : placed (UserLayout.choose a b c).
Proof.
  exists (Z.land a 0x1ffffff), (Z.land b 0x1ffffff), (Z.land c 0x3f0). unfold UserLayout.choose. cbn.
  assert (forall x, 0 <= Z.land x 0x1ffffff < 2 ^ 25) as Hl.
  { intros x. change 0x1ffffff with (Z.ones 25). rewrite Z.land_ones by lia. apply Z.mod_pos_bound. lia. }
  split; [apply Hl |]. split; [apply Hl |]. split; [rewrite land_3f0; pose proof (Z.mod_pos_bound c 1024); zdiv |].
  unfold UserLayout.PAGE. split; [lia |]. split; lia.
Qed.

Lemma apart_map {A} (f : A -> page) l : NoDup l -> (forall x y, x ∈ l -> y ∈ l -> page_no (f x) = page_no (f y) -> x = y) -> apart (map f l).
Proof.
  intros Hn Hinj. unfold apart. rewrite map_map. apply NoDup_fmap_2_strong; [| exact Hn]. intros x y Hx Hy. by apply Hinj.
Qed.
Lemma apart_app ds ds' : apart ds -> apart ds' -> (forall d d', d ∈ ds -> d' ∈ ds' -> page_no d <> page_no d') -> apart (ds ++ ds').
Proof.
  intros H H' Hd. unfold apart. rewrite map_app. apply NoDup_app. split; [exact H |]. split; [| exact H'].
  intros x (d & -> & Hin)%list_elem_of_fmap (d' & E & Hin')%list_elem_of_fmap. by eapply Hd.
Qed.

(** * In a space of its own *)

Section Space.
Context (random : nat -> Z).

Lemma loaded_same fa0 m0 S0 root ds w w' fa : FRAME_ALLOC w' = FRAME_ALLOC w -> mem w' = mem w ->
  loaded fa0 m0 S0 root ds w fa -> loaded fa0 m0 S0 root ds w' fa.
Proof.
  intros Ef Em (pages & [R A B C D F G] & Hp). exists pages. split; [| exact Hp].
  constructor; rewrite ?Em; [| exact A | exact B | exact C | exact D | exact F | exact G]. unfold runs. by rewrite Ef, Em.
Qed.

Lemma wp_random_word w (Q : Z -> world -> Prop) E :
  (forall v w', FRAME_ALLOC w' = FRAME_ALLOC w -> mem w' = mem w -> kernel w' = kernel w -> SLOTS w' = SLOTS w ->
     draws w' = S (draws w) -> v = random (draws w) -> Q v w') -> wp (random_word random) w Q E.
Proof. intros HQ. unfold wp, random_word. by apply HQ. Qed.

(** What the loaders' draws may change: nothing but the number of draws. *)
Definition only_drew (w w' : world) : Prop :=
  FRAME_ALLOC w' = FRAME_ALLOC w /\ mem w' = mem w /\ kernel w' = kernel w /\ SLOTS w' = SLOTS w.

Lemma wp_layout w (Q : UserLayout.Layout -> world -> Prop) E :
  (forall l w', only_drew w w' -> placed l -> Q l w') -> wp (layout random) w Q E.
Proof.
  intros HQ. unfold layout. apply wp_bind, wp_random_word. intros a w1 F1 M1 K1 S1 _ _.
  apply wp_bind, wp_random_word. intros b w2 F2 M2 K2 S2 _ _. apply wp_bind, wp_random_word. intros c w3 F3 M3 K3 S3 _ _.
  apply wp_ret, HQ; [| apply choose_placed]. unfold only_drew. split_and!; congruence.
Qed.

(** Tearing a space down that was taken from an allocator holding nothing else. *)
Lemma wp_release fa0 m0 root slot w (Q : Z -> world -> Prop) E : abandoned fa0 m0 [] root w ->
  (forall n w' fa', runs w' fa' -> exchange fa0 m0 [] fa' (mem w') [] -> SLOTS w' = UserSlots.free_slot (SLOTS w) slot -> Q n w') ->
  wp (release root slot) w Q E.
Proof.
  intros (fa & R & Hok & X) HQ. unfold release. apply wp_bind, (wp_free_address_space root w fa); [exact R | exact Hok |].
  intros fa' w' R' (_ & _ & S' & _) Fd. apply wp_bind. unfold wp at 1, free_slot. apply wp_ret. eapply (HQ _ _ fa').
  - exact R'.
  - eapply exchange_trans; [exact X |]. rewrite <- (app_nil_r (space_frames (mem w) root)).
    apply freed_exchange; [apply R | rewrite app_nil_r; exact Hok | exact Fd].
  - cbn. by rewrite S'.
Qed.

(** The slot claimed, if there is one. *)
Definition claims (w : world) (slot : Z) (w' : world) : Prop :=
  FRAME_ALLOC w' = FRAME_ALLOC w /\ mem w' = mem w /\ kernel w' = kernel w
  /\ 0 <= slot < 64 /\ Z.testbit (SLOTS w) slot = false /\ SLOTS w' = Z.lor (SLOTS w) (Z.shiftl 1 slot)
  /\ UserSlots.free_slot (SLOTS w') slot = SLOTS w.
Lemma wp_alloc_slot w (Q : option Z -> world -> Prop) E : 0 <= SLOTS w < 2 ^ 64 -> (forall n, 0 <= random n) ->
  (forall slot w', claims w slot w' -> Q (Some slot) w') ->
  (forall w', SLOTS w = 2 ^ 64 - 1 -> only_drew w w' -> Q None w') ->
  wp (alloc_slot random) w Q E.
Proof.
  intros Hs Hr HS HN. unfold alloc_slot. apply wp_bind, wp_random_word. intros v w1 F1 M1 K1 S1 _ ->. unfold wp, claim_slot. rewrite S1.
  pose proof (user_slot_allocation (SLOTS w) (random (draws w)) Hs (Hr _)) as Hsl.
  destruct (UserSlots.alloc_slot (SLOTS w) (random (draws w))) as [[slot cur'] |] eqn:Ea.
  - destruct Hsl as (Hs1 & Hs2 & _ & _ & Hs5). apply HS. unfold claims. cbn. split_and!; try done; try lia.
    unfold UserSlots.alloc_slot in Ea. destruct (SLOTS w =? U64_MAX); [done |]. congruence.
  - apply HN; [| done]. unfold UserSlots.alloc_slot in Ea. destruct (Z.eqb_spec (SLOTS w) U64_MAX) as [-> |]; [done | congruence].
Qed.

(** An image holds its space: frames taken from the free ones, which nobody else has, and
    one ownership slot that was free. *)
Definition holds_space (w : world) (fa : FrameAllocator) (img : UserImage) (w' : world) : Prop :=
  (exists fa', runs w' fa' /\ space_ok fa' (mem w') (space img)
     /\ exchange fa (mem w) [] fa' (mem w') (space_frames (mem w') (space img)))
  /\ 0 <= slot img < 64 /\ Z.testbit (SLOTS w) (slot img) = false
  /\ SLOTS w' = Z.lor (SLOTS w) (Z.shiftl 1 (slot img)).
(** Nothing was kept: the same frames are free and the same slots are. *)
Definition nothing_kept (w : world) (fa : FrameAllocator) (w' : world) : Prop :=
  exists fa', runs w' fa' /\ total_frames fa' = total_frames fa
    /\ (forall k, 0 <= k < total_frames fa -> is_free fa' k = is_free fa k)
    /\ free_frames fa' = free_frames fa /\ SLOTS w' = SLOTS w.

Lemma nothing_kept_refl w fa : runs w fa -> nothing_kept w fa w.
Proof. intros R. exists fa. done. Qed.
Lemma exchange_kept w fa w' fa' : wf fa (mem w) -> runs w' fa' -> exchange fa (mem w) [] fa' (mem w') [] -> SLOTS w' = SLOTS w ->
  nothing_kept w fa w'.
Proof.
  intros Hw R X S. destruct (exchange_none _ _ _ _ Hw X) as [Hf Hc]. exists fa'.
  exact (conj R (conj (xc_total _ _ _ _ _ _ X) (conj Hf (conj Hc S)))).
Qed.
Lemma loaded_holds w w1 fa root ds slot img w' fa' : claims w slot w1 -> loaded fa (mem w1) [] root ds w' fa' ->
  SLOTS w' = SLOTS w1 -> space img = root -> AddressSpace.slot img = slot -> holds_space w fa img w'.
Proof.
  intros (_ & M & _ & H1 & H2 & H3 & _) (pages & L & _) S <- <-. rewrite M in L. split.
  - exists fa'. split; [apply L |]. split; apply L.
  - split; [exact H1 |]. split; [exact H2 | congruence].
Qed.

(** A new space is made and [body] loads into it; otherwise space and slot are given up. *)
Lemma wp_in_new_space slot w fa (body : Z -> W UserImage) (Q : UserImage -> world -> Prop) E :
  runs w fa -> kernel_apart w fa ->
  (forall root w' fa', loaded fa (mem w) [] root [] w' fa' -> free fa root -> kernel w' = kernel w -> SLOTS w' = SLOTS w ->
     wp (body root) w' Q (fun e w'' => SLOTS w'' = SLOTS w /\ abandoned fa (mem w) [] root w'' /\ e ∈ MEMORY_ERRORS)) ->
  (forall e w' fa', runs w' fa' -> exchange fa (mem w) [] fa' (mem w') [] -> SLOTS w' = UserSlots.free_slot (SLOTS w) slot ->
     e ∈ MEMORY_ERRORS -> E e w') ->
  wp (r ← catch new_address_space;
      match r with
      | inr e => _ ← free_slot slot; fail e
      | inl space =>
          r ← catch (body space);
          match r with inl img => mret img | inr e => _ ← release space slot; fail e end
      end) w Q E.
Proof.
  intros R Hk Hbody HE. assert (exchange fa (mem w) [] fa (mem w) []) as X0 by (apply exchange_refl; [apply R | by split; constructor]).
  apply wp_bind, wp_catch, (wp_new_address_space w fa); [exact R | exact Hk | |].
  - intros root fa2 w2 R2 K2 S2 _ G2 Hz _.
    assert (tree (mem w2) 3 root [USER_PML4_SLOT] = []) as Et by (rewrite tree_eq; cbn [map]; rewrite Hz; done).
    pose proof (grown_exchange fa (mem w) fa2 (mem w2) [] [root] [] ltac:(by split; constructor) ltac:(done) G2) as X2.
    assert (loaded fa (mem w) [] root [] w2 fa2) as L2.
    { exists []. split; [| done]. constructor; [exact R2 | | | | | | constructor].
      - unfold space_ok, space_frames. rewrite Et. apply X2.
      - unfold space_frames. rewrite Et. exact X2.
      - intros va Hva. unfold mapping, leaf. cbn [slot_of List.find fmap option_fmap option_map]. rewrite (window_index va Hva), Hz. done.
      - by intros p ?%not_elem_of_nil.
      - intros i ->%list_elem_of_singleton. cbn zeta. rewrite Hz. done. }
    assert (free fa root) as Hfr by (pose proof (gr_free _ _ _ _ _ _ G2) as Hf; by apply Forall_cons in Hf as [? _]).
    apply wp_bind, wp_catch. eapply wp_mono; [exact (Hbody root w2 fa2 L2 Hfr K2 S2) | |].
    + intros img w3 H3. apply wp_ret. exact H3.
    + intros e w3 (S3 & Ab & He). apply wp_bind, (wp_release fa (mem w) root slot w3); [exact Ab |].
      intros n w4 fa4 R4 X4 S4. apply wp_fail. eapply (HE _ _ fa4); [exact R4 | exact X4 | by rewrite S4, S3 | exact He].
  - apply wp_bind. unfold wp at 1, free_slot. apply wp_fail. eapply (HE _ _ fa); [exact R | exact X0 | done |].
    unfold MEMORY_ERRORS. by left.
Qed.
End Space.
End SpaceLoad.
