(* ===== verification/SpaceProgram.v ===== *)
(** Flat programs (src/memory/user.rs): [load_program] either loads the code and the stack,
    each page where it belongs with the right permissions, or leaves every frame and the
    slot as they were. *)

From Stdlib Require Import ZArith Lia.
From stdpp Require Import base list list_numbers numbers decidable tactics strings.
From S2P Require Import Prelude FrameAllocator UserSpace BlockDev AddressSpace SpaceTree SpaceMap SpaceLife SpaceLoad.
Import Frames Blk AddressSpace SpaceTree SpaceMap SpaceLife SpaceLoad.

Module SpaceProgram.

(** * The pages of a program *)

Definition npages (code : list Z) : Z := (Z.of_nat (length code) + PAGE - 1) / PAGE.
Definition code_desc (l : UserLayout.Layout) (code : list Z) (i : Z) : page :=
  mkPage (UserLayout.bias l + CODE_OFFSET + i * PAGE) false true (contents 0 (code_page code i)).
Definition stack_desc (l : UserLayout.Layout) (i : Z) : page :=
  mkPage (UserLayout.stack_edge l - i * PAGE) true false (contents 0 []).
Definition program_pages (l : UserLayout.Layout) (code : list Z) : list page :=
  map (code_desc l code) (seqZ 0 (npages code)) ++ map (stack_desc l) (seqZ 1 STACK_PAGES).

Section Where.
Context (l : UserLayout.Layout) (code : list Z).
Hypothesis Hl : placed l.
Hypothesis Hmax : npages code * PAGE <= MAX_FLAT_IMAGE.

(** Where the pages are, in page numbers. *)
Lemma program_numbers : exists a b, 0 <= a < 2 ^ 25 /\ 0 <= b < 2 ^ 25 /\ npages code <= 250
  /\ UserLayout.bias l = (26843545600 + 1 + a) * 4096 /\ UserLayout.stack_edge l = (26910654464 + 16 + b) * 4096.
Proof.
  destruct Hl as (a & b & c & Ha & Hb & Hc & Eb & Ee & _). exists a, b. split; [exact Ha |]. split; [exact Hb |].
  unfold MAX_FLAT_IMAGE, PAGE in Hmax. change (Z.shiftl 1 20) with 1048576 in Hmax. split; [lia |].
  change UserLayout.BASE with (26843545600 * 4096) in Eb. change UserLayout.IMAGE_LIMIT with (26910654464 * 4096) in Ee. lia.
Qed.

Lemma code_page_no i : page_no (code_desc l code i) = UserLayout.bias l / 4096 + 1 + i.
Proof. destruct program_numbers as (a & b & _ & _ & _ & Eb & _). unfold page_no, CODE_OFFSET, PAGE. cbn. rewrite Eb. unfold CODE_OFFSET, PAGE. zdiv. Qed.
Lemma stack_page_no i : page_no (stack_desc l i) = UserLayout.stack_edge l / 4096 - i.
Proof. destruct program_numbers as (a & b & _ & _ & _ & _ & Ee). unfold page_no, PAGE. cbn. rewrite Ee. unfold PAGE. zdiv. Qed.

Lemma program_apart : apart (program_pages l code).
Proof.
  destruct program_numbers as (a & b & Ha & Hb & Hn & Eb & Ee). apply apart_app.
  - apply apart_map; [apply NoDup_seqZ |]. intros i j _ _. rewrite !code_page_no. lia.
  - apply apart_map; [apply NoDup_seqZ |]. intros i j _ _. rewrite !stack_page_no. lia.
  - intros d d' (i & -> & Hi%elem_of_seqZ)%list_elem_of_fmap (j & -> & Hj%elem_of_seqZ)%list_elem_of_fmap.
    rewrite code_page_no, stack_page_no, Eb, Ee, !Z.div_mul by lia. unfold STACK_PAGES in Hj. lia.
Qed.

Lemma window_pages va : 26843545600 <= va / 4096 < 26977763328 -> in_window va.
Proof.
  intros H. unfold in_window. change UserBounds.USER_BASE with (26843545600 * 4096). change UserBounds.USER_END with (26977763328 * 4096). zdiv.
Qed.
Lemma program_window d va : d ∈ program_pages l code -> va / 4096 = page_no d -> in_window va.
Proof.
  destruct program_numbers as (a & b & Ha & Hb & Hn & Eb & Ee). intros Hd Hva. apply window_pages. rewrite Hva.
  apply elem_of_app in Hd as [(i & -> & Hi%elem_of_seqZ)%list_elem_of_fmap | (i & -> & Hi%elem_of_seqZ)%list_elem_of_fmap].
  - rewrite code_page_no, Eb, Z.div_mul by lia. lia.
  - rewrite stack_page_no, Ee, Z.div_mul by lia. unfold STACK_PAGES in Hi. lia.
Qed.
End Where.

Lemma code_page_byte code i k : 0 <= i -> 0 <= k < 4096 -> i * 4096 + k < Z.of_nat (length code) ->
  contents 0 (code_page code i) k = nth (Z.to_nat (i * 4096 + k)) code 0.
Proof.
  intros Hi Hk Hlen. unfold contents, code_page. cbn zeta. unfold PAGE. rewrite length_take, length_drop.
  rewrite decide_True by lia. rewrite !nth_lookup. rewrite lookup_take_lt by lia. rewrite lookup_drop. do 2 f_equal. lia.
Qed.

(** * Images as user code sees them *)

(** Its code, its stack, and nothing else in the user window. *)
Record image_ok (m : phys_mem) (img : UserImage) (code : list Z) : Prop := {
  im_code : forall k, 0 <= k < Z.of_nat (length code) ->
    exists pa, (forall wr ex, user_access m (space img) (entry img + k) wr ex = if wr then None else Some pa)
      /\ load_byte m pa = nth (Z.to_nat k) code 0;
  im_stack : forall va, stack_edge img - STACK_PAGES * PAGE <= va < stack_edge img ->
    exists pa, (forall wr ex, user_access m (space img) va wr ex = if ex then None else Some pa) /\ load_byte m pa = 0;
  im_pointer : stack_edge img - PAGE <= stack_top img < stack_edge img;
  im_only : forall va wr ex, in_window va -> is_Some (user_access m (space img) va wr ex) ->
    entry img <= va < entry img + npages code * PAGE \/ stack_edge img - STACK_PAGES * PAGE <= va < stack_edge img }.

Lemma program_image fa0 m0 S0 root l code slot w fa : placed l -> npages code * PAGE <= MAX_FLAT_IMAGE ->
  loaded fa0 m0 S0 root (program_pages l code) w fa ->
  image_ok (mem w) (mkUserImage (UserLayout.bias l + CODE_OFFSET) (UserLayout.stack_pointer l) (UserLayout.stack_edge l) 0 root slot) code.
Proof.
  intros Hl Hmax L. destruct (program_numbers l code Hl Hmax) as (a & b & Ha & Hb & Hn & Eb & Ee).
  pose proof (program_apart l code Hl Hmax) as Hap.
  constructor; cbn [space entry stack_edge stack_top].
  - intros k Hk. set (va := UserLayout.bias l + CODE_OFFSET + k). set (i := k / 4096).
    assert (0 <= i < npages code) as Hi by (unfold i, npages, PAGE; zdiv).
    assert (va / 4096 = page_no (code_desc l code i) /\ va mod 4096 = k mod 4096) as [Hva Hvm].
    { rewrite (code_page_no l code Hl Hmax). unfold va, i, CODE_OFFSET. rewrite Eb. zdiv. }
    assert (code_desc l code i ∈ program_pages l code) as Hd.
    { apply elem_of_app. left. apply list_elem_of_fmap. eexists. split; [done |]. apply elem_of_seqZ. lia. }
    destruct (page_found fa0 m0 S0 root _ w fa L (code_desc l code i) va Hap Hd (program_window l code Hl Hmax _ va Hd Hva) Hva) as (pa & Hac & Hby).
    exists pa. split; [intros wr ex; rewrite Hac; by destruct wr, ex |]. rewrite Hby, Hvm. cbn [pg_bytes code_desc].
    rewrite code_page_byte; [f_equal; unfold i; zdiv | unfold i; zdiv | apply Z.mod_pos_bound; lia | unfold i; zdiv].
  - intros va Hv. unfold STACK_PAGES, PAGE in Hv. set (i := (UserLayout.stack_edge l - va + 4095) / 4096).
    assert (1 <= i <= 4) as Hi by (unfold i; zdiv).
    assert (va / 4096 = page_no (stack_desc l i)) as Hva by (rewrite (stack_page_no l code Hl Hmax); unfold i; rewrite Ee in *; zdiv).
    assert (stack_desc l i ∈ program_pages l code) as Hd.
    { apply elem_of_app. right. apply list_elem_of_fmap. eexists. split; [done |]. apply elem_of_seqZ. unfold STACK_PAGES. lia. }
    destruct (page_found fa0 m0 S0 root _ w fa L (stack_desc l i) va Hap Hd (program_window l code Hl Hmax _ va Hd Hva) Hva) as (pa & Hac & Hby).
    exists pa. split; [intros wr ex; rewrite Hac; by destruct wr, ex |]. rewrite Hby. cbn [pg_bytes stack_desc]. unfold contents.
    cbn [length Z.of_nat]. by rewrite decide_False by lia.
  - destruct Hl as (_ & _ & c & _ & _ & Hc & _ & _ & Ep). unfold PAGE. lia.
  - intros va wr ex Hw Hm. destruct (page_only fa0 m0 S0 root _ w fa L va wr ex Hw Hm) as (d & Hd & Hva).
    apply elem_of_app in Hd as [(i & -> & Hi%elem_of_seqZ)%list_elem_of_fmap | (i & -> & Hi%elem_of_seqZ)%list_elem_of_fmap].
    + left. rewrite (code_page_no l code Hl Hmax) in Hva. unfold CODE_OFFSET, PAGE. rewrite Eb in *. zdiv.
    + right. rewrite (stack_page_no l code Hl Hmax) in Hva. unfold STACK_PAGES, PAGE in *. rewrite Ee in *. zdiv.
Qed.

(** * Loading *)

Section Load.
Context (random : nat -> Z).

Lemma wp_populate fa0 m0 root slot code w fa (Q : UserImage -> world -> Prop) E :
  loaded fa0 m0 [] root [] w fa -> Forall is_byte code -> npages code * PAGE <= MAX_FLAT_IMAGE ->
  (forall l w' fa', placed l -> loaded fa0 m0 [] root (program_pages l code) w' fa' -> SLOTS w' = SLOTS w ->
     Q (mkUserImage (UserLayout.bias l + CODE_OFFSET) (UserLayout.stack_pointer l) (UserLayout.stack_edge l) 0 root slot) w') ->
  (forall e w', SLOTS w' = SLOTS w -> abandoned fa0 m0 [] root w' -> e ∈ MEMORY_ERRORS -> E e w') ->
  wp (populate random root slot code (npages code)) w Q E.
Proof.
  intros L Hb Hmax HQ HE. unfold populate. apply wp_bind, wp_layout. intros l w1 (F1 & M1 & _ & S1) Hl. cbn zeta.
  apply (loaded_same _ _ _ _ _ w w1 fa F1 M1) in L. pose proof (program_apart l code Hl Hmax) as Hap.
  apply wp_bind, (loads_for_each fa0 m0 [] root (seqZ 0 (npages code)) _ (fun i => [code_desc l code i])) with (ds := []) (fa := fa); [| exact L | | |].
  - intros i Hi%elem_of_seqZ. apply map_fresh_loads; [| | lia |].
    + apply (program_window l code Hl Hmax (code_desc l code i)); [| done]. apply elem_of_app. left. apply list_elem_of_fmap.
      eexists. split; [done |]. apply elem_of_seqZ. lia.
    + unfold code_page. cbn zeta. by apply Forall_take, Forall_drop.
    + unfold code_page. cbn zeta. unfold PAGE. rewrite length_take. lia.
  - rewrite join_singletons. unfold apart, program_pages in Hap. rewrite map_app in Hap. by apply NoDup_app in Hap as (? & _ & _).
  - intros w2 fa2 (_ & _ & S2 & _) L2. rewrite join_singletons in L2.
    apply wp_bind, (loads_for_each fa0 m0 [] root (seqZ 1 STACK_PAGES) _ (fun i => [stack_desc l i])) with (ds := map (code_desc l code) (seqZ 0 (npages code))) (fa := fa2); [| exact L2 | | |].
    + intros i Hi%elem_of_seqZ. apply map_fresh_loads; [| constructor | lia | cbn; unfold PAGE; lia].
      apply (program_window l code Hl Hmax (stack_desc l i)); [| done]. apply elem_of_app. right. apply list_elem_of_fmap.
      eexists. split; [done |]. apply elem_of_seqZ. lia.
    + rewrite join_singletons. exact Hap.
    + intros w3 fa3 (_ & _ & S3 & _) L3. rewrite join_singletons in L3. apply wp_ret. eapply HQ; [exact Hl | exact L3 | congruence].
    + intros e w' (_ & _ & S3 & _) Ab. apply HE; [congruence | exact Ab].
  - intros e w' (_ & _ & S2 & _) Ab. apply HE; [congruence | exact Ab].
Qed.

(** What a loaded image is: backed by frames taken from the free ones and owned by its
    address space alone, and holding one ownership slot that was free. *)
Definition program_loaded (code : list Z) (w : world) (fa : FrameAllocator) (img : UserImage) (w' : world) : Prop :=
  holds_space w fa img w' /\ image_ok (mem w') img code.

(** Why loading fails: the size of the code, or the machine has no slot or frame left. *)
Definition load_refused (code : list Z) (w : world) (e : string) : Prop :=
  e = "program too large for a user slot" /\ (code = [] \/ MAX_FLAT_IMAGE < npages code * PAGE)
  \/ e = "no free user slots" /\ SLOTS w = 2 ^ 64 - 1 \/ e ∈ MEMORY_ERRORS.

(** C14. load_program on a machine whose allocator and slot bitmap are consistent never
    panics.  A loaded image is backed by frames taken from the free ones and owned by its
    address space alone; user code finds its code at the entry byte for byte, readable and
    executable and never writable, a zeroed stack, writable and never executable, and can
    reach nothing else in the user window; and one free ownership slot was claimed.  It is
    refused only for its size or for want of a slot or a frame, and then, at whichever
    step, every frame and the slot are back: the same frames are free as before and the
    bitmap is unchanged. *)
Theorem load_program_correct code w fa :
  runs w fa -> kernel_apart w fa -> Forall is_byte code -> (forall n, 0 <= random n) -> 0 <= SLOTS w < 2 ^ 64 ->
  match load_program random code w with
  | (Ok img, w') => program_loaded code w fa img w'
  | (Err e, w') => load_refused code w e /\ nothing_kept w fa w'
  | (Panic, _) => False
  end.
Proof.
  intros R Hk Hb Hr Hs. fold (wp (load_program random code) w (program_loaded code w fa) (fun e w' => load_refused code w e /\ nothing_kept w fa w')).
  unfold load_program. fold (npages code). apply wp_bind, wp_guard.
  { intros He%orb_true_iff. split; [left; split; [done |] | by apply nothing_kept_refl].
    destruct He as [He%bool_decide_eq_true | He%Z.ltb_lt]; [by left | by right]. }
  intros [_ Hmax%Z.ltb_ge]%orb_false_iff. apply wp_bind, wp_alloc_slot; [exact Hs | exact Hr | |].
  2:{ intros w1 Hfull (F1 & M1 & _ & S1). apply wp_bind, wp_lift. cbn [ok_or]. split; [right; left; done |].
      exists fa. unfold runs. rewrite F1, M1, S1. split_and!; (done || apply R). }
  intros slot w1 C1. pose proof C1 as (F1 & M1 & K1 & _ & _ & _ & Hback). apply wp_bind, wp_lift. cbn [ok_or].
  apply (wp_in_new_space slot w1 fa); [unfold runs; rewrite F1, M1; exact R | unfold kernel_apart; rewrite K1; exact Hk | |].
  - intros root w2 fa2 L2 _ _ S2. apply (wp_populate fa (mem w1) root slot code w2 fa2); [exact L2 | exact Hb | exact Hmax | |].
    + intros l w3 fa3 Hl L3 S3. split; [| by eapply program_image]. eapply loaded_holds; [exact C1 | exact L3 | congruence | done..].
    + intros e w3 S3 Ab He. split; [congruence |]. split; [exact Ab | exact He].
  - intros e w2 fa2 R2 X2 S2 He. split; [right; by right |]. rewrite M1 in X2. eapply exchange_kept; [apply R | exact R2 | exact X2 | congruence].
Qed.
End Load.

(** * Witness: a program of one page and three bytes *)

Definition demo_code : list Z := replicate 4096 0x90 ++ [0x0f; 0x05; 0xc3].
Definition demo_random (n : nat) : Z := Z.of_nat n * 1000003.

Lemma demo_kernel_apart : kernel_apart demo_world demo_frames.
Proof.
  intros f i (k & -> & Hk & _) Hi. change (kernel demo_world) with 0x100000000. change (total_frames demo_frames) with 32 in Hk.
  unfold within, entry_at, FRAME_SIZE. lia.
Qed.
Lemma demo_code_bytes : Forall is_byte demo_code.
Proof. apply Forall_app. split; [apply Forall_replicate | repeat constructor]; unfold is_byte; lia. Qed.

Lemma load_program_correct_witness : exists img w',
  load_program demo_random demo_code demo_world = (Ok img, w') /\ program_loaded demo_code demo_world demo_frames img w'.
Proof.
  assert (exists img, (load_program demo_random demo_code demo_world).1 = Ok img) as [img E]
    by (eexists; vm_compute; reflexivity).
  pose proof (load_program_correct demo_random demo_code demo_world demo_frames demo_runs demo_kernel_apart demo_code_bytes
                ltac:(unfold demo_random; lia) ltac:(cbn; lia)) as H.
  destruct (load_program demo_random demo_code demo_world) as [r w']. cbn in E. subst r.
  exists img, w'. split; [reflexivity | exact H].
Defined.
End SpaceProgram.
