(* ===== verification/SpaceElf.v ===== *)
(** ELF images in user address spaces (src/memory/user.rs, [load_elf]): a validated image is
    loaded page by page, relocated through its frames, and started on a stack of its own,
    or everything goes back. *)

From Stdlib Require Import ZArith Lia.
From stdpp Require Import base list list_numbers numbers decidable tactics strings.
From S2P Require Import Prelude FrameAllocator Elf UserSpace BlockDev AddressSpace SpaceTree SpaceMap SpaceLife SpaceLoad SpaceProgram.
Import Frames Blk AddressSpace SpaceTree SpaceMap SpaceLife SpaceLoad.

Module SpaceElf.

#[local] Abbreviation used fa := (frame_in fa false).
#[local] Abbreviation free fa := (frame_in fa true).

(** * Relocations *)

Lemma land_bit e k : 0 <= k -> Z.land e (Z.shiftl 1 k) = if Z.testbit e k then Z.shiftl 1 k else 0.
Proof.
  intros Hk. apply Z.bits_inj'. intros i Hi. rewrite Z.land_spec, Z.shiftl_1_l, Z.pow2_bits_eqb by lia.
  destruct (Z.eqb_spec k i) as [-> | Hne].
  - rewrite andb_true_r. destruct (Z.testbit e i); [| by rewrite Z.bits_0]. by rewrite Z.pow2_bits_true.
  - rewrite andb_false_r. destruct (Z.testbit e k); [| by rewrite Z.bits_0]. by rewrite Z.pow2_bits_false.
Qed.
Lemma present_bit e : present e = Z.testbit e 0.
Proof. unfold present, PTE_PRESENT. by rewrite land_pow2_testbit, negb_involutive by lia. Qed.
Lemma huge_bit e : huge e = Z.testbit e 7.
Proof. unfold huge, PTE_HUGE. by rewrite land_pow2_testbit, negb_involutive by lia. Qed.

Lemma opens_guard e : opens e -> (Z.land e (Z.lor (Z.lor PTE_PRESENT PTE_USER) PTE_HUGE) =? Z.lor PTE_PRESENT PTE_USER) = true.
Proof.
  intros [(Hp & Hu & _ & _) Hh]. rewrite present_bit in Hp. rewrite huge_bit in Hh.
  rewrite !Z.land_lor_distr_r. unfold PTE_PRESENT, PTE_USER, PTE_HUGE. rewrite !land_bit by lia. by rewrite Hp, Hu, Hh.
Qed.
Lemma data_guard e wr : user_page e wr false ->
  (Z.land e (Z.lor (Z.lor PTE_PRESENT PTE_USER) PTE_NX) =? Z.lor (Z.lor PTE_PRESENT PTE_USER) PTE_NX) = true.
Proof.
  intros (Hp & Hu & _ & Hx). rewrite present_bit in Hp.
  rewrite !Z.land_lor_distr_r. unfold PTE_PRESENT, PTE_USER, PTE_NX. rewrite !land_bit by lia. by rewrite Hp, Hu, Hx.
Qed.

(** In an open tree the relocator finds the leaf entry the processor would use. *)
Lemma private_walk_spec l : forall t is_ va a w, open (mem w) l t is_ -> index l va ∈ is_ -> slot_of (mem w) l t va = Some a ->
  exists t', private_walk l t va w = (Ok t', w) /\ a = entry_at t' (index 0 va).
Proof.
  induction l as [| l IH]; intros t is_ va a w Ho Hi Hs; cbn [slot_of private_walk] in *; [exists t; split; [done | congruence] |].
  destruct (present _) eqn:Ep; [| done]. destruct (negb _); [| done]. cbn [andb] in Hs.
  destruct (Ho _ Hi Ep) as [Hoe Hol].
  destruct (IH _ ALL va a w Hol (index_all l va) Hs) as (t' & Hw & ->). exists t'. split; [| done].
  unfold mbind at 1, M_bind at 1, read. unfold guard, lift. rewrite (opens_guard _ Hoe). cbn [negb guard_err].
  unfold mbind at 1, M_bind at 1. exact Hw.
Qed.

(** A page after a word was stored in it. *)
Definition patch (va v : Z) (d : page) : page :=
  mkPage (pg_va d) (pg_wr d) (pg_ex d)
    (if page_no d =? va / 4096
     then fun i => if decide (va mod 4096 <= i < va mod 4096 + 8) then byte_of v (i - va mod 4096) else pg_bytes d i
     else pg_bytes d).

Lemma load_byte_word m a v x : a mod 8 = 0 ->
  load_byte (write_word m a v) x = if decide (a <= x < a + 8) then byte_of v (x - a) else load_byte m x.
Proof.
  intros Ha. unfold load_byte, write_word. case_decide as Hx.
  - assert (x - x mod 8 = a) as -> by zdiv. rewrite Z.eqb_refl. f_equal. zdiv.
  - rewrite (proj2 (Z.eqb_neq _ _)); [done |]. zdiv.
Qed.

Section Relocate.
Context (fa0 : FrameAllocator) (m0 : phys_mem) (S0 : list Z) (root : Z).

(** Storing a word in a page of the image. *)
Lemma patch_page pages (p : placed_page) va v w fa : loading fa0 m0 S0 root pages w fa -> apart (map pp_page pages) -> p ∈ pages ->
  va / 4096 = page_no p -> va mod 8 = 0 ->
  loading fa0 m0 S0 root (map (fun q : placed_page => mkPlaced (patch va v q) (pg_pa q)) pages)
    (set_mem (write_word (mem w) (pg_pa p + va mod 4096) v) w) fa.
Proof.
  intros [R Hok X Hmap Hpg Hop Hnd] Hap Hp Hva H8. set (m := mem w) in *. set (a := pg_pa p + va mod 4096).
  destruct (Hpg p Hp) as (Hpf & Hpt & _).
  assert (Forall aligned (space_frames m root)) as Hal by (eapply owned_aligned; [apply R | exact Hok]).
  assert (aligned (pg_pa p)) as Hap0 by by eapply Forall_elem.
  assert (within (pg_pa p) a) as Hwa by (unfold within, a; zdiv).
  assert (a mod 8 = 0) as Ha8 by (destruct Hap0 as (k & Ek & _); unfold a; rewrite Ek; zdiv).
  assert (same_off [pg_pa p] m (write_word m a v)) as Hoff by by apply same_off_write.
  assert (forall gs, gs ⊆ space_frames m root -> ~ (pg_pa p ∈ gs) -> same_on gs m (write_word m a v)) as Hkeep.
  { intros gs Hgs Hn. eapply same_off_on; [by apply Forall_singleton | | | exact Hoff].
    - apply Forall_forall. intros g Hg. eapply Forall_elem; [exact Hal | by apply Hgs].
    - by intros x ->%list_elem_of_singleton. }
  destruct (space_same_tables m (write_word m a v) root) as (Hfr & Htb & Hm & Ho).
  { apply Hkeep; [apply tables_in_frames | exact Hpt]. }
  assert (grown fa m fa (write_word m a v) [pg_pa p] []) as G.
  { eapply (grown_write _ _ _ _ _ _ (pg_pa p)); [apply grown_refl, R | eapply Forall_elem; [apply Hok | exact Hpf] | by left | exact Hwa]. }
  constructor; cbn [mem set_mem]; fold m; rewrite ?Hfr, ?Htb.
  - split; [apply R | apply G].
  - unfold space_ok. rewrite Hfr. exact Hok.
  - eapply exchange_trans; [exact X |]. eapply exchange_perm; [reflexivity | | eapply grown_exchange; [exact Hok | | exact G]].
    + by rewrite app_nil_r.
    + by intros x ->%list_elem_of_singleton.
  - intros va' Hva'. rewrite Hm, Hmap by done. clear. induction pages as [| q qs IH]; [done |]. cbn [map List.find].
    change (page_at va' (mkPlaced (patch va v q) (pg_pa q))) with (page_at va' q). destruct (page_at va' q); [done | exact IH].
  - intros q' (q & -> & Hq)%list_elem_of_fmap. cbn [pg_pa pp_page]. destruct (Hpg q Hq) as (H1 & H2 & H3).
    split; [exact H1 |]. split; [exact H2 |]. intros i Hi. cbn [patch pg_bytes]. destruct (Z.eqb_spec (page_no q) (va / 4096)) as [E | E].
    + assert (q = p) as -> by (apply (apart_unique pages); [exact Hap | exact Hq | exact Hp | by rewrite E]). rewrite load_byte_word by exact Ha8.
      unfold a. destruct (decide (va mod 4096 <= i < va mod 4096 + 8)) as [Hin | Hout].
      * rewrite decide_True by lia. f_equal. lia.
      * rewrite decide_False by lia. by apply H3.
    + rewrite (load_byte_same (pg_pa q) m); [by apply H3 | by eapply Forall_elem | | unfold within; lia].
      apply Hkeep; [by intros x ->%list_elem_of_singleton |]. intros E'%list_elem_of_singleton. apply E.
      apply list_elem_of_lookup in Hq as [iq Hiq]. apply list_elem_of_lookup in Hp as [ip Hip].
      assert (iq = ip) as ->; [| rewrite Hiq in Hip; injection Hip as ->; by rewrite Hva].
      apply (NoDup_lookup _ iq ip (pg_pa p) Hnd); rewrite list_lookup_fmap; [rewrite Hiq | rewrite Hip]; cbn; [by rewrite E' | reflexivity].
  - by apply Ho.
  - rewrite map_map. exact Hnd.
Qed.

Lemma wp_relocate ds d va v w fa (Q : unit -> world -> Prop) E :
  loaded fa0 m0 S0 root ds w fa -> apart ds -> d ∈ ds -> in_window va -> va / 4096 = page_no d -> pg_ex d = false ->
  va mod 8 = 0 -> root <> 0 ->
  (forall w', same_rest w w' -> loaded fa0 m0 S0 root (map (patch va v) ds) w' fa -> Q tt w') ->
  wp (relocate_private_data root va v) w Q E.
Proof.
  intros (pages & L & Hp) Hap Hd Hw Hva Hx H8 H0 HQ. rewrite <- Hp in Hd. apply list_elem_of_fmap in Hd as (p & -> & Hin).
  assert (apart (map pp_page pages)) as Hap' by (unfold apart; by rewrite Hp).
  pose proof (ld_map _ _ _ _ _ _ _ L va Hw) as Hm. rewrite (page_at_place pages p va Hap' Hin Hva) in Hm.
  change (page_entry <$> Some p) with (Some (page_entry p)) in Hm.
  unfold mapping, leaf in Hm. destruct (slot_of (mem w) 3 root va) as [a |] eqn:Es; [| discriminate Hm]. cbn [mbind option_bind] in Hm.
  destruct (present (mem w a)); [| discriminate Hm]. injection Hm as Hm.
  destruct (private_walk_spec 3 root [USER_PML4_SLOT] va a w (ld_open _ _ _ _ _ _ _ L) (index_user va Hw) Es) as (t & Ht & ->).
  assert (aligned (pg_pa p)) as Ha.
  { eapply frame_aligned; [apply L | eapply Forall_elem; [apply L |]]. by apply (ld_pages _ _ _ _ _ _ _ L p Hin). }
  unfold relocate_private_data. apply wp_bind, wp_guard.
  { intros Hg. exfalso. change 7 with (Z.ones 3) in Hg. rewrite Z.land_ones in Hg by lia. change (2 ^ 3) with 8 in Hg. unfold in_window in Hw. lia. }
  intros _. apply wp_bind. unfold wp at 1. rewrite Ht. apply wp_bind, wp_read. rewrite Hm. cbn zeta.
  pose proof (leaf_entry_user (pg_pa p) (pg_wr p) (pg_ex p) Ha) as Hu. fold (page_entry p) in Hu. rewrite Hx in Hu.
  apply wp_bind, wp_guard; [rewrite (data_guard _ _ Hu); cbn; discriminate |]. intros _. apply wp_write.
  unfold page_entry. rewrite (proj1 (leaf_entry_spec _ _ _ Ha)). change 4095 with (Z.ones 12). rewrite Z.land_ones by lia. change (2 ^ 12) with 4096.
  apply HQ; [done |]. exists (map (fun q : placed_page => mkPlaced (patch va v q) (pg_pa q)) pages). split; [by apply patch_page |].
  rewrite <- Hp, !map_map. done.
Qed.
End Relocate.

(** * The pages of an image *)

(** What a page of a segment holds before relocation: file data, and zeros around it. *)
Definition seg_byte (bytes : list Z) (s : Elf.Segment) (x : Z) : Z :=
  if decide (Elf.vaddr s <= x < Elf.vaddr s + Elf.filesz s) then nth (Z.to_nat (Elf.offset s + x - Elf.vaddr s)) bytes 0 else 0.
Definition page_data (bytes : list Z) (s : Elf.Segment) (p : Z) : list Z :=
  let low := Z.max p (Elf.vaddr s) in
  let high := Z.min (p + PAGE) (Elf.vaddr s + Elf.filesz s) in
  if low <? high then take (Z.to_nat (high - low)) (drop (Z.to_nat (Elf.offset s + low - Elf.vaddr s)) bytes) else [].
Definition elf_page (bias : Z) (bytes : list Z) (image : Elf.Image) (s : Elf.Segment) (p : Z) : page :=
  mkPage (bias + p) (Elf.writable s && negb (Elf.readonly_page image p)) (Elf.executable s)
    (contents (Z.max p (Elf.vaddr s) - p) (page_data bytes s p)).
Definition elf_pages (bias : Z) (bytes : list Z) (image : Elf.Image) : list page :=
  mjoin (map (fun s => map (elf_page bias bytes image s) (segment_pages s)) (Elf.segments image)).

Section Segment.
Context (bytes : list Z) (image : Elf.Image) (s : Elf.Segment) (ub ul : Z) (pie : bool).
Hypothesis Hs : Elf.segment_safe bytes ub ul pie s.
Hypothesis Hb : Forall is_byte bytes.

Lemma segment_pages_spec : segment_pages s = map (fun k => (Elf.first_page s + k) * 4096) (seqZ 0 (Elf.last_page s - Elf.first_page s)).
Proof.
  destruct Hs as [_ Hsz _ [Ha1 Ha2] _]. unfold Elf.seg_end, Elf.PAGE in *. unfold segment_pages, Elf.first_page, Elf.last_page, Elf.seg_end, PAGE.
  rewrite !Elf.page_down_spec by lia. unfold Elf.PAGE.
  replace (((Elf.vaddr s + Elf.memsz s + 4096 - 1) / 4096 * 4096 - Elf.vaddr s / 4096 * 4096 + 4096 - 1) / 4096)
    with ((Elf.vaddr s + Elf.memsz s + 4096 - 1) / 4096 - Elf.vaddr s / 4096) by zdiv.
  apply map_ext. intros k. lia.
Qed.
Lemma elem_segment_pages p : p ∈ segment_pages s <-> p mod 4096 = 0 /\ Elf.first_page s <= p / 4096 < Elf.last_page s.
Proof.
  rewrite segment_pages_spec, list_elem_of_fmap. split.
  - intros (k & -> & Hk%elem_of_seqZ). rewrite Z.mod_mul, Z.div_mul by lia. lia.
  - intros [H1 H2]. exists (p / 4096 - Elf.first_page s). split; [zdiv |]. apply elem_of_seqZ. lia.
Qed.

Section Page.
Context (p : Z).
Hypothesis Hp : p ∈ segment_pages s.

Lemma page_data_length : Z.of_nat (length (page_data bytes s p)) =
  Z.max 0 (Z.min (p + PAGE) (Elf.vaddr s + Elf.filesz s) - Z.max p (Elf.vaddr s)).
Proof.
  destruct Hs as [_ Hsz [Hf1 Hf2] _ _]. unfold page_data. cbn zeta. destruct (Z.ltb_spec (Z.max p (Elf.vaddr s)) (Z.min (p + PAGE) (Elf.vaddr s + Elf.filesz s))).
  - rewrite length_take, length_drop. lia.
  - cbn. lia.
Qed.
Lemma page_fits : 0 <= Z.max p (Elf.vaddr s) - p /\ Z.max p (Elf.vaddr s) - p + Z.of_nat (length (page_data bytes s p)) <= PAGE.
Proof.
  rewrite page_data_length. apply elem_segment_pages in Hp as [Hm Hr]. unfold Elf.first_page, Elf.PAGE in Hr. unfold PAGE.
  assert (Elf.vaddr s < p + 4096) by zdiv. lia.
Qed.
Lemma page_bytes i : 0 <= i < 4096 -> pg_bytes (elf_page 0 bytes image s p) i = seg_byte bytes s (p + i).
Proof.
  intros Hi. cbn [elf_page pg_bytes]. unfold contents, seg_byte. rewrite page_data_length. unfold PAGE.
  destruct (decide (Elf.vaddr s <= p + i < Elf.vaddr s + Elf.filesz s)) as [Hin | Hout].
  - rewrite decide_True by lia. unfold page_data. cbn zeta. unfold PAGE. rewrite (proj2 (Z.ltb_lt _ _)) by lia.
    destruct Hs as [_ Hsz [Hf1 Hf2] _ _]. rewrite !nth_lookup. rewrite lookup_take_lt by lia. rewrite lookup_drop. do 2 f_equal. lia.
  - rewrite decide_False by lia. done.
Qed.

Lemma load_page_loads fa0 m0 S0 root bias : bias mod 4096 = 0 -> in_window (bias + p) ->
  loads fa0 m0 S0 root (load_page root bias bytes image s p) [elf_page bias bytes image s p].
Proof.
  intros Hbias Hw ds w fa Q E (pages & L & Hpp) Hap HQ HE. unfold load_page. cbn zeta.
  assert ((if Z.max p (Elf.vaddr s) <? Z.min (p + PAGE) (Elf.vaddr s + Elf.filesz s)
           then slice bytes (Elf.offset s + Z.max p (Elf.vaddr s) - Elf.vaddr s)
                  (Z.min (p + PAGE) (Elf.vaddr s + Elf.filesz s) - Z.max p (Elf.vaddr s))
           else Ok []) = Ok (page_data bytes s p)) as ->.
  { unfold page_data, slice. cbn zeta. destruct (Z.ltb_spec (Z.max p (Elf.vaddr s)) (Z.min (p + PAGE) (Elf.vaddr s + Elf.filesz s))); [| done].
    destruct Hs as [_ Hsz [Hf1 Hf2] _ _]. replace (_ && _ && _) with true by lia. done. }
  apply wp_bind, wp_lift. apply wp_bind, (wp_alloc w fa); [apply L | |].
  2:{ apply wp_bind, wp_lift. cbn [ok_or]. apply HE; [done | by eapply loading_abandoned |]. unfold MEMORY_ERRORS. do 2 right. by left. }
  intros pa fa1 w1 R1 S1 G1 Hz. apply wp_bind, wp_lift. cbn [ok_or].
  destruct page_fits as [Hf1 Hf2].
  eapply wp_fill_map; [exact L | exact Hw | | exact Hf1 | exact Hf2 | | exact R1 | exact S1 | exact G1 | exact Hz | | exact HE].
  - unfold page_data. cbn zeta. destruct (_ <? _); [by apply Forall_take, Forall_drop | constructor].
  - by eapply (apart_new _ (elf_page bias bytes image s p)).
  - intros w2 fa2 S2 L2. apply (HQ w2 fa2); [exact S2 |]. eexists. split; [exact L2 |]. cbn [map pp_page]. rewrite Hpp.
    apply Permutation_cons_append.
Qed.
End Page.
End Segment.

(** * Where an image lies *)

(** A bias that keeps the image below the stacks. *)
Definition bias_ok (bias : Z) (image : Elf.Image) : Prop :=
  bias mod 4096 = 0 /\ forall s, s ∈ Elf.segments image ->
    26843545600 <= bias / 4096 + Elf.first_page s /\ bias / 4096 + Elf.last_page s <= 26910654464.

Section Image.
Context (bytes : list Z) (image : Elf.Image) (bias ub ul : Z).
Hypothesis Hi : Elf.image_safe bytes ub ul image.
Hypothesis Hb : Forall is_byte bytes.
Hypothesis Hbias : bias_ok bias image.

Lemma image_segment s : s ∈ Elf.segments image -> Elf.segment_safe bytes ub ul (Elf.pie image) s.
Proof. intros Hs. eapply Forall_elem; [apply Hi | exact Hs]. Qed.

Lemma elf_page_no s p : page_no (elf_page bias bytes image s p) = bias / 4096 + p / 4096.
Proof. destruct Hbias as [Hm _]. unfold page_no. cbn. zdiv. Qed.

Lemma elem_elf_pages d : d ∈ elf_pages bias bytes image <->
  exists s p, s ∈ Elf.segments image /\ p ∈ segment_pages s /\ d = elf_page bias bytes image s p.
Proof.
  unfold elf_pages. rewrite list_elem_of_join. split.
  - intros (l & Hd & Hl). apply list_elem_of_fmap in Hl as (s & -> & Hs). apply list_elem_of_fmap in Hd as (p & -> & Hp). eauto.
  - intros (s & p & Hs & Hp & ->). eexists. split; [| apply list_elem_of_fmap; by exists s]. apply list_elem_of_fmap. eauto.
Qed.

Lemma elf_page_range s p : s ∈ Elf.segments image -> p ∈ segment_pages s ->
  bias / 4096 + Elf.first_page s <= page_no (elf_page bias bytes image s p) < bias / 4096 + Elf.last_page s.
Proof.
  intros Hs Hp. apply (elem_segment_pages bytes s ub ul _ (image_segment s Hs)) in Hp as [_ Hp]. rewrite elf_page_no. lia.
Qed.
Lemma elf_page_window s p x : s ∈ Elf.segments image -> p ∈ segment_pages s -> x / 4096 = page_no (elf_page bias bytes image s p) -> in_window x.
Proof.
  intros Hs Hp Hx. pose proof (elf_page_range s p Hs Hp). destruct Hbias as [_ Hr]. specialize (Hr s Hs).
  apply SpaceProgram.window_pages. lia.
Qed.

Lemma elf_pages_apart : apart (elf_pages bias bytes image).
Proof.
  unfold elf_pages. pose proof (Elf.im_disjoint _ _ _ _ Hi) as Hd.
  assert (forall s, s ∈ Elf.segments image -> Elf.segment_safe bytes ub ul (Elf.pie image) s) as Hsafe by exact image_segment.
  pose proof elf_page_range as Hrange. revert Hsafe Hrange. induction Hd as [| s ss Hs _ IH]; intros Hsafe Hrange; [constructor |].
  cbn [map]. change (mjoin (?x :: ?l)) with (x ++ mjoin l). apply apart_app.
  - apply apart_map.
    + rewrite (segment_pages_spec bytes s ub ul _ (Hsafe s ltac:(by left))). apply NoDup_fmap_2_strong; [| apply NoDup_seqZ]. intros i j _ _ E. lia.
    + intros i j Hpi Hpj. rewrite !elf_page_no.
      apply (elem_segment_pages bytes s ub ul _ (Hsafe s ltac:(by left))) in Hpi as [Hpi _].
      apply (elem_segment_pages bytes s ub ul _ (Hsafe s ltac:(by left))) in Hpj as [Hpj _]. intros E. zdiv.
  - apply IH; [intros t Ht; apply Hsafe; by right | intros t p Ht; apply Hrange; by right].
  - intros d d' (p & -> & Hp)%list_elem_of_fmap Hd'. apply list_elem_of_join in Hd' as (l & Hd' & Hl).
    apply list_elem_of_fmap in Hl as (t & -> & Ht). apply list_elem_of_fmap in Hd' as (p' & -> & Hp').
    pose proof (Hrange s p ltac:(by left) Hp). pose proof (Hrange t p' ltac:(by right) Hp').
    assert (Elf.pages_disjoint s t) as Hdis by (eapply Forall_elem; [exact Hs | exact Ht]). unfold Elf.pages_disjoint in Hdis. lia.
Qed.

Lemma segments_load fa0 m0 S0 root : loads fa0 m0 S0 root
  (for_each (Elf.segments image) (fun s => for_each (segment_pages s) (load_page root bias bytes image s))) (elf_pages bias bytes image).
Proof.
  apply loads_for_each. intros s Hs. rewrite <- join_singletons. apply loads_for_each. intros p Hp.
  eapply load_page_loads; [exact (image_segment s Hs) | exact Hb | exact Hp | apply Hbias |].
  eapply (elf_page_window s p); [exact Hs | exact Hp |]. done.
Qed.

(** * Relocated pages *)

Definition relocate_page (relocs : list (Z * Z)) (d : page) : page :=
  foldl (fun d r => patch (bias + r.1) (bias + r.2) d) d relocs.
(** The byte at [x] of an image whose bytes were [b] before the relocations. *)
Definition relocated (relocs : list (Z * Z)) (x b : Z) : Z :=
  foldl (fun b r => if decide (r.1 <= x < r.1 + 8) then byte_of (bias + r.2) (x - r.1) else b) b relocs.

Lemma relocate_page_keeps relocs d : page_no (relocate_page relocs d) = page_no d /\ pg_va (relocate_page relocs d) = pg_va d
  /\ pg_wr (relocate_page relocs d) = pg_wr d /\ pg_ex (relocate_page relocs d) = pg_ex d.
Proof. revert d. induction relocs as [| r relocs IH]; intros d; [done |]. cbn [relocate_page foldl]. apply (IH (patch _ _ d)). Qed.
Lemma relocate_pages_apart relocs ds : apart ds -> apart (map (relocate_page relocs) ds).
Proof.
  unfold apart. rewrite map_map. intros H.
  rewrite (map_ext _ page_no); [exact H |]. intros d. apply relocate_page_keeps.
Qed.

Lemma relocate_page_byte relocs d x : bias mod 4096 = 0 -> Forall (fun r => r.1 mod 8 = 0) relocs -> page_no d = (bias + x) / 4096 ->
  pg_bytes (relocate_page relocs d) (x mod 4096) = relocated relocs x (pg_bytes d (x mod 4096)).
Proof.
  intros Hm. revert d. induction relocs as [| [t a] relocs IH]; intros d Hr Hd; [done |]. apply Forall_cons in Hr as [H8 Hr].
  cbn [relocate_page relocated foldl fst snd] in *. fold (relocate_page relocs (patch (bias + t) (bias + a) d)).
  rewrite IH by done. unfold relocated. f_equal. cbn [patch pg_bytes]. rewrite Hd.
  destruct (Z.eqb_spec ((bias + x) / 4096) ((bias + t) / 4096)) as [E | E].
  - destruct (decide (t <= x < t + 8)) as [Hin | Hout].
    + rewrite decide_True by zdiv. f_equal. zdiv.
    + rewrite decide_False by zdiv. done.
  - rewrite decide_False by zdiv. done.
Qed.

(** Every relocation of a validated image is applied. *)
Lemma wp_relocations fa0 m0 S0 root relocs w fa (Q : unit -> world -> Prop) E : root <> 0 ->
  Forall (Elf.reloc_safe (Elf.segments image)) relocs -> loaded fa0 m0 S0 root (elf_pages bias bytes image) w fa ->
  (forall w', same_rest w w' -> loaded fa0 m0 S0 root (map (relocate_page relocs) (elf_pages bias bytes image)) w' fa -> Q tt w') ->
  wp (for_each relocs (fun r => relocate_private_data root (bias + r.1) (bias + r.2))) w Q E.
Proof.
  intros H0 Hr L HQ. apply (wp_for_each _ _ (fun dn _ st => same_rest w st
    /\ loaded fa0 m0 S0 root (map (relocate_page dn) (elf_pages bias bytes image)) st fa)).
  - split; [done |]. eapply loaded_perm; [| exact L]. by rewrite (map_ext _ id), list_fmap_id.
  - intros st [S1 L1]. by apply HQ.
  - intros dn r rest st El [S1 L1].
    assert (Elf.reloc_safe (Elf.segments image) r) as (H8 & _ & s & Hs & Hwr & Hlo & Hhi).
    { eapply Forall_elem; [exact Hr |]. rewrite El. apply elem_of_app. right. by left. }
    set (p := r.1 / 4096 * 4096). pose proof (image_segment s Hs) as Hsafe.
    assert (p ∈ segment_pages s) as Hp.
    { apply (elem_segment_pages bytes s ub ul _ Hsafe). unfold p. rewrite Z.mod_mul, Z.div_mul by lia. split; [done |].
      unfold Elf.first_page, Elf.last_page, Elf.seg_end, Elf.PAGE in *. zdiv. }
    assert ((bias + r.1) / 4096 = page_no (elf_page bias bytes image s p)) as Hno.
    { rewrite elf_page_no. destruct Hbias as [Hm _]. unfold p. zdiv. }
    eapply (wp_relocate fa0 m0 S0 root _ (relocate_page dn (elf_page bias bytes image s p)));
      [exact L1 | apply relocate_pages_apart, elf_pages_apart | | | | | | exact H0 |].
    + apply list_elem_of_fmap. eexists. split; [done |]. apply elem_elf_pages. eauto.
    + by eapply (elf_page_window s p).
    + rewrite Hno. symmetry. apply relocate_page_keeps.
    + rewrite (proj2 (proj2 (proj2 (relocate_page_keeps dn _)))). cbn [elf_page pg_ex]. pose proof (Elf.ss_wx _ _ _ _ _ Hsafe) as Hwx.
      rewrite Hwr in Hwx. exact Hwx.
    + destruct Hbias as [Hm _]. zdiv.
    + intros w' S2 L2. split; [by eapply same_rest_trans |]. eapply loaded_perm; [| exact L2]. rewrite map_map.
      rewrite (map_ext _ (relocate_page (dn ++ [r]))); [reflexivity |]. intros d. unfold relocate_page. rewrite foldl_app. done.
Qed.
End Image.

(** * Stacks *)

Definition start_page (edge guard i : Z) : page :=
  mkPage (edge - i * PAGE) true false (contents (if i =? 1 then PAGE - 32 else 0) (if i =? 1 then startup_block guard else [])).
Definition start_pages (edge guard : Z) : list page := map (start_page edge guard) (seqZ 1 STACK_PAGES).

Lemma startup_block_ok guard : length (startup_block guard) = 32%nat /\ Forall is_byte (startup_block guard).
Proof.
  unfold startup_block. split; [rewrite !length_app, !length_to_le_bytes, length_replicate; done |].
  repeat (apply Forall_app; split); try apply to_le_bytes_bytes. apply Forall_replicate. unfold is_byte. lia.
Qed.

Section Stack.
Context (l : UserLayout.Layout) (guard : Z).
Hypothesis Hl : placed l.
#[local] Abbreviation edge := (UserLayout.stack_edge l).

Lemma edge_number : exists b, 0 <= b < 2 ^ 25 /\ edge = (26910654464 + 16 + b) * 4096.
Proof.
  destruct Hl as (a & b & c & _ & Hb & _ & _ & Ee & _). exists b. split; [exact Hb |].
  change UserLayout.IMAGE_LIMIT with (26910654464 * 4096) in Ee. lia.
Qed.
Lemma start_page_no i : page_no (start_page edge guard i) = edge / 4096 - i.
Proof. destruct edge_number as (b & _ & E). unfold page_no. cbn. unfold PAGE. rewrite E. zdiv. Qed.
Lemma start_page_window i va : 1 <= i <= 4 -> va / 4096 = page_no (start_page edge guard i) -> in_window va.
Proof.
  intros Hi Hva. rewrite start_page_no in Hva. destruct edge_number as (b & Hb & E). rewrite E, Z.div_mul in Hva by lia.
  apply SpaceProgram.window_pages. lia.
Qed.
Lemma start_pages_apart : apart (start_pages edge guard).
Proof. apply apart_map; [apply NoDup_seqZ |]. intros i j _ _. rewrite !start_page_no. lia. Qed.

Lemma stack_loads fa0 m0 S0 root : loads fa0 m0 S0 root
  (for_each (seqZ 1 STACK_PAGES) (fun i =>
     map_fresh root (edge - i * PAGE) (if i =? 1 then startup_block guard else []) (if i =? 1 then PAGE - 32 else 0) true false))
  (start_pages edge guard).
Proof.
  unfold start_pages. rewrite <- join_singletons. apply loads_for_each. intros i Hi%elem_of_seqZ. unfold STACK_PAGES in Hi.
  destruct (startup_block_ok guard) as [Hlen Hby].
  apply map_fresh_loads; [apply (start_page_window i); [lia | done] | | |]; unfold PAGE; destruct (i =? 1); cbn [length]; (done || lia || constructor).
Qed.
End Stack.

(** * Images as user code sees them *)

Record elf_ok (bytes : list Z) (image : Elf.Image) (relocs : list (Z * Z)) (bias guard : Z) (m : phys_mem) (img : UserImage) : Prop := {
  el_segments : forall s x, s ∈ Elf.segments image -> Elf.first_page s <= x / 4096 < Elf.last_page s ->
    exists pa, (forall wr ex, user_access m (space img) (bias + x) wr ex =
                  if (Elf.writable s && negb (Elf.readonly_page image (x / 4096 * 4096)) || negb wr) && (Elf.executable s || negb ex)
                  then Some pa else None)
      /\ load_byte m pa = relocated bias relocs x (seg_byte bytes s x);
  el_entry : entry img = bias + Elf.entry image;
  el_stack : forall va, stack_edge img - STACK_PAGES * PAGE <= va < stack_edge img ->
    exists pa, (forall wr ex, user_access m (space img) va wr ex = if ex then None else Some pa)
      /\ load_byte m pa = if decide (startup img <= va) then nth (Z.to_nat (va - startup img)) (startup_block guard) 0 else 0;
  el_start : startup img = stack_edge img - 32 /\ stack_edge img - PAGE <= stack_top img <= startup img - 32;
  el_only : forall va wr ex, in_window va -> is_Some (user_access m (space img) va wr ex) ->
    stack_edge img - STACK_PAGES * PAGE <= va < stack_edge img
    \/ exists s, s ∈ Elf.segments image /\ Elf.first_page s <= (va - bias) / 4096 < Elf.last_page s;
  el_wx : forall va, in_window va -> is_Some (user_access m (space img) va true false) -> user_access m (space img) va false true = None }.

Definition image_pages (bytes : list Z) (image : Elf.Image) (relocs : list (Z * Z)) (bias guard edge : Z) : list page :=
  map (relocate_page bias relocs) (elf_pages bias bytes image) ++ start_pages edge guard.

Section Seen.
Context (bytes : list Z) (image : Elf.Image) (relocs : list (Z * Z)) (bias guard ub ul : Z) (l : UserLayout.Layout).
Hypothesis Hi : Elf.image_safe bytes ub ul image.
Hypothesis Hb : Forall is_byte bytes.
Hypothesis Hbias : bias_ok bias image.
Hypothesis Hr : Forall (Elf.reloc_safe (Elf.segments image)) relocs.
Hypothesis Hl : placed l.
#[local] Abbreviation edge := (UserLayout.stack_edge l).
#[local] Abbreviation ds := (image_pages bytes image relocs bias guard edge).

(** A page of the image is a relocated page of a segment or a page of the stack. *)
Lemma elem_image_pages d : d ∈ ds <->
  (exists s p, s ∈ Elf.segments image /\ p ∈ segment_pages s /\ d = relocate_page bias relocs (elf_page bias bytes image s p))
  \/ exists i, 1 <= i <= 4 /\ d = start_page edge guard i.
Proof.
  unfold image_pages, start_pages. rewrite elem_of_app, !list_elem_of_fmap. split.
  - intros [(e & -> & He) | (i & -> & Hi'%elem_of_seqZ)].
    + left. apply (elem_elf_pages bytes image bias) in He as (s & p & Hs & Hp & ->). eauto.
    + right. exists i. unfold STACK_PAGES in Hi'. split; [lia | done].
  - intros [(s & p & Hs & Hp & ->) | (i & Hi' & ->)].
    + left. eexists. split; [done |]. apply (elem_elf_pages bytes image bias). eauto.
    + right. exists i. split; [done |]. apply elem_of_seqZ. unfold STACK_PAGES. lia.
Qed.

Lemma image_pages_apart : apart ds.
Proof.
  apply apart_app.
  - apply relocate_pages_apart. by eapply elf_pages_apart.
  - by apply start_pages_apart.
  - intros d d' (e & -> & He)%list_elem_of_fmap (i & -> & Hi'%elem_of_seqZ)%list_elem_of_fmap.
    apply (elem_elf_pages bytes image bias) in He as (s & p & Hs & Hp & ->).
    rewrite (proj1 (relocate_page_keeps bias relocs _)), start_page_no by done.
    pose proof (elf_page_range bytes image bias ub ul Hi Hbias s p Hs Hp) as Hrg. destruct Hbias as [_ Hw]. specialize (Hw s Hs).
    destruct (edge_number l Hl) as (b & Hb' & E). rewrite E, Z.div_mul by lia. unfold STACK_PAGES in Hi'. lia.
Qed.

Lemma page_relocated s p x : s ∈ Elf.segments image -> p ∈ segment_pages s -> x / 4096 = p / 4096 ->
  pg_bytes (relocate_page bias relocs (elf_page bias bytes image s p)) ((bias + x) mod 4096) = relocated bias relocs x (seg_byte bytes s x).
Proof.
  intros Hs Hp Hx. pose proof (image_segment bytes image ub ul Hi s Hs) as Hsafe. destruct Hbias as [Hm _].
  pose proof Hp as Hp'. apply (elem_segment_pages bytes s ub ul _ Hsafe) in Hp' as [Hpm _].
  replace ((bias + x) mod 4096) with (x mod 4096) by zdiv. rewrite relocate_page_byte; [| exact Hm | |].
  - f_equal. change (pg_bytes (elf_page bias bytes image s p)) with (pg_bytes (elf_page 0 bytes image s p)).
    rewrite (page_bytes bytes image s ub ul _ Hsafe p); [f_equal; zdiv | apply Z.mod_pos_bound; lia].
  - eapply Forall_impl; [exact Hr |]. intros r (H8 & _). exact H8.
  - rewrite (elf_page_no bytes image bias Hbias). zdiv.
Qed.

Lemma image_seen fa0 m0 S0 root slot w fa : loaded fa0 m0 S0 root ds w fa ->
  elf_ok bytes image relocs bias guard (mem w)
    (mkUserImage (bias + Elf.entry image) (UserLayout.stack_pointer l) edge (edge - 32) root slot).
Proof.
  intros L. pose proof image_pages_apart as Hap.
  assert (forall d va, d ∈ ds -> va / 4096 = page_no d -> in_window va) as Hwin.
  { intros d va Hd Hva. apply elem_image_pages in Hd as [(s & p & Hs & Hp & ->) | (i & Hi' & ->)].
    - rewrite (proj1 (relocate_page_keeps bias relocs _)) in Hva. by eapply (elf_page_window bytes image bias ub ul Hi Hbias s p).
    - by eapply (start_page_window l guard Hl i). }
  constructor; cbn [space entry stack_top stack_edge startup].
  - intros s x Hs Hx. set (p := x / 4096 * 4096). pose proof (image_segment bytes image ub ul Hi s Hs) as Hsafe.
    assert (p ∈ segment_pages s) as Hp.
    { apply (elem_segment_pages bytes s ub ul _ Hsafe). unfold p. by rewrite Z.mod_mul, Z.div_mul by lia. }
    set (d := relocate_page bias relocs (elf_page bias bytes image s p)).
    assert (d ∈ ds) as Hd by (apply elem_image_pages; left; eauto).
    assert ((bias + x) / 4096 = page_no d) as Hno.
    { unfold d. rewrite (proj1 (relocate_page_keeps bias relocs _)), (elf_page_no bytes image bias Hbias). destruct Hbias as [Hm _]. unfold p. zdiv. }
    destruct (page_found fa0 m0 S0 root ds w fa L d (bias + x) Hap Hd (Hwin d _ Hd Hno) Hno) as (pa & Hac & Hby).
    exists pa. unfold d in *. destruct (relocate_page_keeps bias relocs (elf_page bias bytes image s p)) as (_ & _ & Ew & Ex).
    split; [intros wr ex; by rewrite Hac, Ew, Ex |]. rewrite Hby. apply page_relocated; [exact Hs | exact Hp |]. unfold p. by rewrite Z.div_mul by lia.
  - done.
  - intros va Hv. unfold STACK_PAGES, PAGE in Hv. set (i := (edge - va + 4095) / 4096). destruct (edge_number l Hl) as (b & Hb' & Ee).
    assert (1 <= i <= 4) as Hi' by (unfold i; zdiv).
    assert (va / 4096 = page_no (start_page edge guard i)) as Hno by (rewrite start_page_no by done; unfold i; rewrite Ee in *; zdiv).
    assert (start_page edge guard i ∈ ds) as Hd by (apply elem_image_pages; right; eauto).
    destruct (page_found fa0 m0 S0 root ds w fa L _ va Hap Hd (Hwin _ _ Hd Hno) Hno) as (pa & Hac & Hby).
    exists pa. split; [intros wr ex; rewrite Hac; by destruct wr, ex |]. rewrite Hby. cbn [start_page pg_bytes]. unfold contents, PAGE.
    destruct (startup_block_ok guard) as [Hlen _]. destruct (Z.eqb_spec i 1) as [E1 | E1].
    + rewrite Hlen. assert (va mod 4096 = va - (edge - 4096)) as -> by (unfold i in E1; rewrite Ee in *; zdiv).
      destruct (decide (edge - 32 <= va)); [rewrite decide_True by lia; f_equal; lia | by rewrite decide_False by lia].
    + cbn [length Z.of_nat]. rewrite decide_False by lia. rewrite decide_False; [done |]. unfold i in E1. rewrite Ee in *. zdiv.
  - destruct Hl as (_ & _ & c & _ & _ & Hc & _ & _ & Ep). unfold PAGE. lia.
  - intros va wr ex Hw Hm. destruct (page_only fa0 m0 S0 root ds w fa L va wr ex Hw Hm) as (d & Hd & Hva).
    apply elem_image_pages in Hd as [(s & p & Hs & Hp & ->) | (i & Hi' & ->)].
    + right. exists s. split; [done |]. rewrite (proj1 (relocate_page_keeps bias relocs _)) in Hva.
      pose proof (elf_page_range bytes image bias ub ul Hi Hbias s p Hs Hp). destruct Hbias as [Hm' _]. zdiv.
    + left. rewrite start_page_no in Hva by done. destruct (edge_number l Hl) as (b & Hb' & Ee). unfold STACK_PAGES, PAGE. rewrite Ee in *. zdiv.
  - intros va Hw Hm. destruct (page_only fa0 m0 S0 root ds w fa L va true false Hw Hm) as (d & Hd & Hva).
    destruct (page_found fa0 m0 S0 root ds w fa L d va Hap Hd Hw Hva) as (pa & Hac & _). rewrite Hac in Hm |- *.
    assert (pg_wr d && pg_ex d = false) as Hwx.
    { apply elem_image_pages in Hd as [(s & p & Hs & Hp & ->) | (i & Hi' & ->)]; [| done].
      destruct (relocate_page_keeps bias relocs (elf_page bias bytes image s p)) as (_ & _ & -> & ->). cbn [elf_page pg_wr pg_ex].
      pose proof (Elf.ss_wx _ _ _ _ _ (image_segment bytes image ub ul Hi s Hs)) as Hx.
      by destruct (Elf.writable s), (Elf.executable s), (Elf.readonly_page image p). }
    destruct (pg_wr d), (pg_ex d); try done; by destruct Hm.
Qed.
End Seen.

(** * Loading *)

(** The bias of a validated image: as aligned as it asks, and clear of the stacks. *)
Definition bias_for (image : Elf.Image) (bias : Z) : Prop :=
  if Elf.pie image then bias mod Elf.alignment image = 0 /\ UserLayout.BASE < bias else bias = 0.

Lemma image_bias_placed l k : placed l -> 12 <= k -> 2 ^ k <= 65536 ->
  exists b, UserLayout.image_bias l (2 ^ k) = Some b /\ b mod 2 ^ k = 0 /\ UserLayout.BASE < b /\ b + 2 ^ 26 <= UserLayout.IMAGE_LIMIT.
Proof.
  intros (a & _ & _ & Ha & _ & _ & Eb & _) Hk Hmax. unfold UserLayout.image_bias, UserLayout.PAGE.
  assert (2 ^ 12 <= 2 ^ k) as Hmin by (apply Z.pow_le_mono_r; lia).
  assert (is_power_of_two (2 ^ k) = true) as -> by (apply is_power_of_two_pow2; lia).
  replace ((4096 <=? 2 ^ k) && (2 ^ k <=? 65536) && true) with true by lia. eexists. split; [done |].
  change UserLayout.BASE with (26843545600 * 4096) in *. change UserLayout.IMAGE_LIMIT with (26910654464 * 4096).
  fold (align_down (UserLayout.bias l) (2 ^ k)).
  assert (k <= 16) as Hk16 by (apply (Z.pow_le_mono_r_iff 2); lia).
  pose proof (align_down_range (UserLayout.bias l) k ltac:(lia) ltac:(lia)) as (H1 & H2 & H3).
  split; [rewrite <- (Z.mul_1_l (2 ^ k)) at 2; by rewrite Z.mod_add by lia |]. lia.
Qed.

Lemma safe_bias bytes image l : Elf.image_safe bytes UserBounds.USER_BASE UserLayout.IMAGE_LIMIT image -> placed l ->
  exists bias, (if Elf.pie image then unwrap (UserLayout.image_bias l (Elf.alignment image)) else Ok 0) = Ok (E := string) bias
    /\ bias_ok bias image /\ bias_for image bias.
Proof.
  intros Hi Hl. unfold bias_for, bias_ok.
  assert (forall s, s ∈ Elf.segments image -> Elf.segment_safe bytes UserBounds.USER_BASE UserLayout.IMAGE_LIMIT (Elf.pie image) s) as Hs
    by (intros s Hs; eapply Forall_elem; [apply Hi | exact Hs]).
  change UserLayout.BASE with (26843545600 * 4096) in *. change UserLayout.IMAGE_LIMIT with (26910654464 * 4096) in *.
  change UserBounds.USER_BASE with (26843545600 * 4096) in *. destruct (Elf.pie image) eqn:Ep.
  - destruct (Elf.im_align _ _ _ _ Hi) as (k & Hk & Ek & Hmax). specialize (Hmax Ep). rewrite Ek in *.
    destruct (image_bias_placed l k Hl Hk Hmax) as (b & Eb & Hmod & Hlo & Hhi). exists b. rewrite Eb.
    change UserLayout.BASE with (26843545600 * 4096) in *. change UserLayout.IMAGE_LIMIT with (26910654464 * 4096) in *.
    assert (b mod 4096 = 0) as Hb.
    { apply Z.mod_divide in Hmod; [| lia]. destruct Hmod as [c ->]. replace k with (k - 12 + 12) by lia. rewrite Z.pow_add_r by lia.
      change (2 ^ 12) with 4096. rewrite Z.mul_assoc. apply Z.mod_mul. lia. }
    split; [done |]. split; [| done]. split; [exact Hb |]. intros s Hin. destruct (Hs s Hin) as [_ Hsz _ [Ha _] Hw].
    unfold Elf.first_page, Elf.last_page, Elf.seg_end, Elf.PAGE, Elf.MAX_IMAGE in *. change (Z.shiftl 64 20) with (2 ^ 26) in Hw.
    change (2 ^ 26) with (16384 * 4096) in *. zdiv.
  - exists 0. split; [done |]. split; [| done]. split; [done |]. intros s Hin. destruct (Hs s Hin) as [_ Hsz _ [Ha _] [Hw1 Hw2]].
    unfold Elf.first_page, Elf.last_page, Elf.seg_end, Elf.PAGE in *. zdiv.
Qed.

Section Load.
Context (random : nat -> Z).

Lemma wp_load_image bytes image relocs l bias slot root fa0 m0 w fa (Q : UserImage -> world -> Prop) E ub ul :
  Elf.image_safe bytes ub ul image -> Forall is_byte bytes -> bias_ok bias image -> placed l -> root <> 0 ->
  Elf.relocations image bytes = Ok relocs -> Forall (Elf.reloc_safe (Elf.segments image)) relocs ->
  loaded fa0 m0 [] root [] w fa ->
  (forall guard w' fa', 256 <= guard -> loaded fa0 m0 [] root (image_pages bytes image relocs bias guard (UserLayout.stack_edge l)) w' fa' ->
     SLOTS w' = SLOTS w ->
     Q (mkUserImage (bias + Elf.entry image) (UserLayout.stack_pointer l) (UserLayout.stack_edge l) (UserLayout.stack_edge l - 32) root slot) w') ->
  (forall e w', SLOTS w' = SLOTS w -> abandoned fa0 m0 [] root w' -> e ∈ MEMORY_ERRORS -> E e w') ->
  wp (load_image random bytes image l bias slot root) w Q E.
Proof.
  intros Hi Hb Hbias Hl H0 Erel Hr L HQ HE. unfold load_image. cbn zeta.
  apply wp_bind, (segments_load bytes image bias ub ul Hi Hb Hbias fa0 m0 [] root [] w fa); [exact L | by eapply elf_pages_apart | |].
  2:{ intros e w' (_ & _ & S1 & _). by apply HE. }
  intros w1 fa1 (_ & _ & S1 & _) L1. cbn [app] in L1. apply wp_bind, wp_lift. rewrite Erel.
  apply wp_bind, (wp_relocations bytes image bias ub ul Hi Hbias fa0 m0 [] root relocs w1 fa1); [exact H0 | exact Hr | exact L1 |].
  intros w2 (_ & _ & S2 & _) L2. apply wp_bind, wp_random_word. intros g w3 F3 M3 _ S3 _ _.
  apply (loaded_same _ _ _ _ _ w2 w3 fa1 F3 M3) in L2. set (guard := Z.max _ 256).
  apply wp_bind, (stack_loads l guard Hl fa0 m0 [] root (map (relocate_page bias relocs) (elf_pages bias bytes image)) w3 fa1);
    [exact L2 | by eapply image_pages_apart | |].
  - intros w4 fa4 (_ & _ & S4 & _) L4. apply wp_ret. eapply HQ; [| exact L4 | congruence]. unfold guard. lia.
  - intros e w4 (_ & _ & S4 & _). apply HE. congruence.
Qed.

Definition elf_loaded (bytes : list Z) (w : world) (fa : FrameAllocator) (img : UserImage) (w' : world) : Prop :=
  exists image relocs bias guard,
    Elf.parse bytes ELF_MACHINE UserBounds.USER_BASE UserLayout.IMAGE_LIMIT = Ok image /\ Elf.relocations image bytes = Ok relocs
    /\ bias_for image bias /\ 256 <= guard /\ elf_ok bytes image relocs bias guard (mem w') img /\ holds_space w fa img w'.
Definition elf_refused (bytes : list Z) (w : world) (e : string) : Prop :=
  Elf.parse bytes ELF_MACHINE UserBounds.USER_BASE UserLayout.IMAGE_LIMIT = Err e
  \/ e = "no free user slots" /\ SLOTS w = 2 ^ 64 - 1 \/ e ∈ MEMORY_ERRORS.

(** C12. load_elf on a consistent machine whose first frame is reserved never panics.  A
    loaded image is the validated file, moved by a bias as aligned as it asks: user code
    finds every byte of every segment's pages, file data or zero with the relocations
    applied, under exactly the segment's permissions less writing to RELRO pages; a stack
    with the startup block at its top; and nothing else in the user window, nowhere
    writable and executable at once.  Its frames came from the free ones and are its own,
    and it holds one free slot.  Loading is refused only when validation refuses the file
    or a slot or frame is missing - a relocation of a validated image never fails - and
    then every frame and the slot are back. *)
Theorem load_elf_correct bytes w fa :
  runs w fa -> kernel_apart w fa -> is_free fa 0 = false -> Elf.file_ok bytes -> (forall n, 0 <= random n) -> 0 <= SLOTS w < 2 ^ 64 ->
  match load_elf random bytes w with
  | (Ok img, w') => elf_loaded bytes w fa img w'
  | (Err e, w') => elf_refused bytes w e /\ nothing_kept w fa w'
  | (Panic, _) => False
  end.
Proof.
  intros R Hk Hz Hf Hrn Hs. fold (wp (load_elf random bytes) w (elf_loaded bytes w fa) (fun e w' => elf_refused bytes w e /\ nothing_kept w fa w')).
  unfold load_elf. apply wp_bind, wp_lift.
  destruct (Elf.parse bytes ELF_MACHINE UserBounds.USER_BASE UserLayout.IMAGE_LIMIT) as [image | e |] eqn:Ep.
  2:{ split; [by left | by apply nothing_kept_refl]. }
  2:{ by apply (Elf.parse_no_panic bytes ELF_MACHINE UserBounds.USER_BASE UserLayout.IMAGE_LIMIT Hf). }
  pose proof (Elf.parse_Ok _ _ _ _ _ Hf Ep) as Hi. destruct (Elf.im_relocs _ _ _ _ Hi) as (relocs & Erel & _ & Hr).
  apply wp_bind, wp_layout. intros l w1 (F1 & M1 & K1 & S1) Hl. destruct (safe_bias bytes image l Hi Hl) as (bias & Eb & Hbias & Hfor).
  apply wp_bind.
  replace (if Elf.pie image then lift (unwrap (UserLayout.image_bias l (Elf.alignment image))) else mret 0)
    with (lift (S := world) (if Elf.pie image then unwrap (UserLayout.image_bias l (Elf.alignment image)) else Ok 0))
    by by destruct (Elf.pie image).
  rewrite Eb. apply wp_lift, wp_bind, wp_alloc_slot; [by rewrite S1 | exact Hrn | |].
  2:{ intros w2 Hfull (F2 & M2 & _ & S2). apply wp_bind, wp_lift. cbn [ok_or]. split; [right; left; split; [done | congruence] |].
      exists fa. unfold runs. rewrite F2, M2, S2, F1, M1, S1. split_and!; (done || apply R). }
  intros slot w2 C2. pose proof C2 as (F2 & M2 & K2 & _ & _ & _ & Hback). apply wp_bind, wp_lift. cbn [ok_or].
  apply (wp_in_new_space slot w2 fa (load_image random bytes image l bias slot));
    [unfold runs; rewrite F2, M2, F1, M1; exact R | unfold kernel_apart; rewrite K2, K1; exact Hk | |].
  - intros root w3 fa3 L3 Hroot _ S3.
    assert (root <> 0) as H0. { intros ->. destruct Hroot as (k & E & _ & Hfr). replace k with 0 in Hfr by (unfold FRAME_SIZE in E; lia). congruence. }
    eapply (wp_load_image bytes image relocs l bias slot root fa (mem w2) w3 fa3); [exact Hi | apply Hf | exact Hbias | exact Hl | exact H0 | exact Erel | exact Hr | exact L3 | |].
    + intros guard w4 fa4 Hg L4 S4. exists image, relocs, bias, guard. split; [done |]. split; [exact Erel |]. split; [exact Hfor |]. split; [exact Hg |].
      split; [by eapply image_seen; [exact Hi | exact Hbias | exact Hr | exact Hl | exact L4] |].
      rewrite M2, M1 in L4. assert (claims w slot w2) as C by (unfold claims in *; rewrite F2, M2, K2, F1, M1, K1, <- S1; split_and!; (done || apply C2)).
      eapply (loaded_holds w w2); [exact C | rewrite M2, M1; exact L4 | congruence | done | done].
    + intros e w4 S4 Ab He. split; [congruence |]. split; [exact Ab | exact He].
  - intros e w3 fa3 R3 X3 S3 He. split; [right; by right |]. rewrite M2, M1 in X3. eapply exchange_kept; [apply R | exact R3 | exact X3 | congruence].
Qed.
End Load.

(** * Witness: a position-independent image with one relocation *)

Lemma demo_frame0 : is_free demo_frames 0 = false.
Proof. by vm_compute. Qed.

Lemma load_elf_correct_witness : exists img w',
  load_elf SpaceProgram.demo_random Elf.demo_file demo_world = (Ok img, w') /\ elf_loaded Elf.demo_file demo_world demo_frames img w'.
Proof.
  assert (exists img, (load_elf SpaceProgram.demo_random Elf.demo_file demo_world).1 = Ok img) as [img E]
    by (eexists; vm_compute; reflexivity).
  pose proof (load_elf_correct SpaceProgram.demo_random Elf.demo_file demo_world demo_frames demo_runs SpaceProgram.demo_kernel_apart demo_frame0
                Elf.demo_file_ok ltac:(unfold SpaceProgram.demo_random; lia) ltac:(cbn; lia)) as H.
  destruct (load_elf SpaceProgram.demo_random Elf.demo_file demo_world) as [r w']. cbn in E. subst r.
  exists img, w'. split; [reflexivity | exact H].
Defined.
End SpaceElf.
