(* ===== verification/FatNames.v ===== *)
(** FAT names and directory entries (src/fs/fat.rs): UTF-16, the CP437 code page, 8.3
    aliases and short-name generation, VFAT long-name entries, their decoding and
    encoding, and free directory slots.

    A string is the list of its Unicode scalar values.  The case mappings of the
    Unicode tables ([char::to_uppercase], [char::to_lowercase]) are parameters. *)

From Stdlib Require Import ZArith Lia String Ascii.
From stdpp Require Import base list list_numbers numbers decidable tactics strings.
From S2P Require Import Prelude BlockDev.
Import Blk.

Module FatNames.

Definition str := list Z.
(** An ASCII literal. *)
Definition lit (s : string) : str :=
  map (fun c => Z.of_nat (Ascii.nat_of_ascii c)) (String.list_ascii_of_string s).

Inductive Kind := Fat12 | Fat16 | Fat32.
#[global] Instance Kind_eq_dec : EqDecision Kind.
Proof. solve_decision. Defined.

Definition LFN_POS : list nat := [1; 3; 5; 7; 9; 14; 16; 18; 20; 22; 24; 28; 30]%nat.

Record Record_ := mkRecord {
  r_name : str; r_alias : str; r_short : list Z; r_attr : Z; r_cluster : Z; r_size : Z;
  r_offset : Z; r_start : Z }.
Definition is_dir (r : Record_) : bool := negb (Z.land (r_attr r) 0x10 =? 0).

(** Little-endian fields; [None] is an index out of range. *)
Definition le_at (n : nat) (b : list Z) (o : Z) : option Z :=
  if (0 <=? o) && (o + Z.of_nat n <=? Z.of_nat (length b))
  then Some (from_le_bytes (take n (drop (Z.to_nat o) b))) else None.
Definition u16le : list Z -> Z -> option Z := le_at 2.
Definition u32le : list Z -> Z -> option Z := le_at 4.
Definition u64le : list Z -> Z -> option Z := le_at 8.
(** The same on a buffer whose length is known. *)
Definition le16 (b : list Z) (o : nat) : Z := from_le_bytes (take 2 (drop o b)).
Definition le32 (b : list Z) (o : nat) : Z := from_le_bytes (take 4 (drop o b)).
Definition le64 (b : list Z) (o : nat) : Z := from_le_bytes (take 8 (drop o b)).
(** [b[o..o+src.len()].copy_from_slice(src)]. *)
Definition splice (b : list Z) (o : nat) (src : list Z) : list Z :=
  take o b ++ src ++ drop (o + length src) b.
Definition byte (e : list Z) (i : nat) : Z := nth i e 0.

(** [chunks_exact(n)]. *)
Fixpoint chunks_exact_aux {A} (fuel : nat) (n : nat) (l : list A) : list (list A) :=
  match fuel with
  | O => []
  | S fuel' => if (n <=? length l)%nat then take n l :: chunks_exact_aux fuel' n (drop n l) else []
  end.
Definition chunks_exact {A} (n : nat) (l : list A) : list (list A) :=
  chunks_exact_aux (length l / n) n l.

(** * UTF-16 *)

Definition encode_char (c : Z) : list Z :=
  if c <? 0x10000 then [c]
  else let c := c - 0x10000 in [Z.lor 0xd800 (Z.shiftr c 10); Z.lor 0xdc00 (Z.land c 0x3ff)].
Definition encode_utf16 (s : str) : list Z := mjoin (map encode_char s).
(** [String::from_utf16]: an unpaired surrogate is an error. *)
Fixpoint from_utf16 (u : list Z) : option str :=
  match u with
  | [] => Some []
  | a :: rest =>
      if (a <? 0xd800) || (0xdfff <? a) then s ← from_utf16 rest; Some (a :: s)
      else if 0xdbff <? a then None
      else match rest with
           | b :: rest' =>
               if (0xdc00 <=? b) && (b <=? 0xdfff)
               then s ← from_utf16 rest';
                    Some (0x10000 + Z.shiftl (a - 0xd800) 10 + (b - 0xdc00) :: s)
               else None
           | [] => None
           end
  end.
(** Bytes of a character in UTF-8; [str::len] counts them. *)
Definition utf8_len (c : Z) : Z :=
  if c <? 0x80 then 1 else if c <? 0x800 then 2 else if c <? 0x10000 then 3 else 4.
Definition str_len (s : str) : Z := foldr (fun c n => utf8_len c + n) 0 s.

(** * Names *)

Definition contains (s : str) (c : Z) : bool := existsb (Z.eqb c) s.
Definition is_ascii (c : Z) : bool := c <? 128.
Definition is_digit (c : Z) : bool := (48 <=? c) && (c <=? 57).
Definition is_upper (c : Z) : bool := (65 <=? c) && (c <=? 90).
Definition is_lower (c : Z) : bool := (97 <=? c) && (c <=? 122).
Definition is_ascii_alphanumeric (c : Z) : bool := is_digit c || is_upper c || is_lower c.
Definition to_ascii_uppercase (c : Z) : Z := if is_lower c then c - 32 else c.

(** Path components: both separators, [.] dropped, [..] removes the last one. *)
Definition is_sep (c : Z) : bool := (c =? 47) || (c =? 92).
Fixpoint split_path (cur : str) (path : str) : list str :=
  match path with
  | [] => [cur]
  | c :: rest => if is_sep c then cur :: split_path [] rest else split_path (cur ++ [c]) rest
  end.
Definition push_part (parts : list str) (part : str) : list str :=
  if bool_decide (part = []) || bool_decide (part = lit ".") then parts
  else if bool_decide (part = lit "..") then take (length parts - 1) parts
  else parts ++ [part].
Definition components (path : str) : list str := foldl push_part [] (split_path [] path).

Definition checksum (short : list Z) : Z :=
  foldl (fun sum b => (rotate_right 8 sum 1 + b) mod 256) 0 short.

Definition CP437 : list Z := [
    0xc7; 0xfc; 0xe9; 0xe2; 0xe4; 0xe0; 0xe5; 0xe7; 0xea; 0xeb; 0xe8; 0xef; 0xee; 0xec;
    0xc4; 0xc5; 0xc9; 0xe6; 0xc6; 0xf4; 0xf6; 0xf2; 0xfb; 0xf9; 0xff; 0xd6; 0xdc; 0xa2;
    0xa3; 0xa5; 0x20a7; 0x192; 0xe1; 0xed; 0xf3; 0xfa; 0xf1; 0xd1; 0xaa; 0xba; 0xbf; 0x2310;
    0xac; 0xbd; 0xbc; 0xa1; 0xab; 0xbb; 0x2591; 0x2592; 0x2593; 0x2502; 0x2524; 0x2561;
    0x2562; 0x2556; 0x2555; 0x2563; 0x2551; 0x2557; 0x255d; 0x255c; 0x255b; 0x2510; 0x2514;
    0x2534; 0x252c; 0x251c; 0x2500; 0x253c; 0x255e; 0x255f; 0x255a; 0x2554; 0x2569; 0x2566;
    0x2560; 0x2550; 0x256c; 0x2567; 0x2568; 0x2564; 0x2565; 0x2559; 0x2558; 0x2552; 0x2553;
    0x256b; 0x256a; 0x2518; 0x250c; 0x2588; 0x2584; 0x258c; 0x2590; 0x2580; 0x3b1; 0xdf;
    0x393; 0x3c0; 0x3a3; 0x3c3; 0xb5; 0x3c4; 0x3a6; 0x398; 0x3a9; 0x3b4; 0x221e; 0x3c6;
    0x3b5; 0x2229; 0x2261; 0xb1; 0x2265; 0x2264; 0x2320; 0x2321; 0xf7; 0x2248; 0xb0; 0x2219;
    0xb7; 0x221a; 0x207f; 0xb2; 0x25a0; 0xa0 ].

(** [.rposition(|c| c != ' ').map_or(0, |n| n + 1)]. *)
Fixpoint trimmed_len (l : list Z) : nat :=
  match l with
  | [] => 0
  | c :: rest => match trimmed_len rest with
                 | O => if c =? 32 then 0%nat else 1%nat
                 | S n => S (S n)
                 end
  end.

(** [0x22]: the double quote. *)
Definition forbidden : str := 0x22 :: lit "*/:<>?\|".
Definition ends_with_dot_or_space (s : str) : bool :=
  match last s with Some c => (c =? 32) || (c =? 46) | None => false end.
Definition name_ok (name : str) : bool :=
  negb (bool_decide (name = []) || bool_decide (name = lit ".") || bool_decide (name = lit "..")
        || ends_with_dot_or_space name
        || (255 <? Z.of_nat (length (encode_utf16 name)))
        || existsb (fun c => (c <? 32) || contains forbidden c) name).
Definition validate_name (name : str) : outcome string unit :=
  guard_err (negb (name_ok name)) "invalid FAT file name".

Definition short_char (c : Z) : Z :=
  if is_ascii_alphanumeric c || contains (lit "$%'-_@~`!(){}^#&") c then to_ascii_uppercase c else 95.

(** [rsplit_once('.')]: split at the last dot. *)
Fixpoint rsplit_dot (s : str) : option (str * str) :=
  match s with
  | [] => None
  | c :: rest =>
      match rsplit_dot rest with
      | Some (b, e) => Some (c :: b, e)
      | None => if c =? 46 then Some ([], rest) else None
      end
  end.
Definition base_ext (name : str) : str * str :=
  match rsplit_dot name with
  | Some (b, e) => if bool_decide (b = []) then (name, []) else (b, e)
  | None => (name, [])
  end.

Section Case.
Context (to_uppercase to_lowercase : Z -> str).

Definition upper (s : str) : str := mjoin (map to_uppercase s).
Definition same (a b : str) : bool := bool_decide (upper a = upper b).

Definition alias_char (part_index index : nat) (lower : bool) (b : Z) : str :=
  let b := if (part_index =? 0)%nat && (index =? 0)%nat && (b =? 5) then 0xe5 else b in
  let c := if b <? 128 then b else nth (Z.to_nat (b - 128)) CP437 0 in
  if lower then to_lowercase c else [c].
Definition alias_part (part_index : nat) (part : list Z) (lower : bool) : str :=
  let len := trimmed_len part in
  (if (part_index =? 1)%nat && (0 <? len)%nat then [46] else [])
  ++ mjoin (imap (fun i b => alias_char part_index i lower b) (take len part)).
Definition alias (short : list Z) (case : Z) : str :=
  alias_part 0 (take 8 short) (negb (Z.land case 8 =? 0))
  ++ alias_part 1 (drop 8 short) (negb (Z.land case 16 =? 0)).

(** * Decoding a directory *)

(** The state of the scan over 32-byte entries. *)
Record scan := mkScan {
  s_out : list Record_; s_utf16 : list Z; s_remaining : Z; s_total : Z; s_sum : Z; s_start : Z }.
Definition scan0 : scan := mkScan [] (replicate 260 0xffff) 0 0 0 0.
Definition drop_long (st : scan) : scan := mkScan (s_out st) (s_utf16 st) 0 0 (s_sum st) (s_start st).

(** An entry with the first bit of a long name starts one. *)
Definition begin_long (st : scan) (index : Z) (e : list Z) : scan :=
  if negb (Z.land (byte e 0) 0x40 =? 0) then
    let ordinal := Z.land (byte e 0) 0x1f in
    if (0 <? ordinal) && (ordinal <=? 20) && (Z.land (byte e 0) 0xa0 =? 0)
    then mkScan (s_out st) (replicate 260 0xffff) ordinal ordinal (byte e 13) (index * 32)
    else drop_long st
  else st.
(** Thirteen UTF-16 units into the name being assembled. *)
Definition put_units (utf16 : list Z) (ordinal : Z) (e : list Z) : list Z :=
  foldl (fun u '(i, pos) => <[Z.to_nat ((ordinal - 1) * 13 + Z.of_nat i) := le16 e pos]> u)
    utf16 (imap pair LFN_POS).
Definition long_entry (st : scan) (index : Z) (e : list Z) : scan :=
  let ordinal := Z.land (byte e 0) 0x1f in
  let st := begin_long st index e in
  if (s_remaining st =? 0) || negb (ordinal =? s_remaining st) || negb (byte e 13 =? s_sum st)
     || negb (byte e 12 =? 0) || negb (le16 e 26 =? 0) || negb (Z.land (byte e 0) 0xa0 =? 0)
  then drop_long st
  else mkScan (s_out st) (put_units (s_utf16 st) ordinal e) (s_remaining st - 1) (s_total st)
         (s_sum st) (s_start st).

(** The long name the assembled units spell, if they do. *)
Definition long_name (units : list Z) : option str :=
  let len := match position (Z.eqb 0) units with Some n => Z.to_nat n | None => length units end in
  if (0 <? len)%nat && (len <=? 255)%nat && negb (contains (take len units) 0xffff)
     && forallb (Z.eqb 0xffff) (drop (len + (if (len <? length units)%nat then 1 else 0)) units)
  then s ← from_utf16 (take len units); if name_ok s then Some s else None
  else None.

Definition entry_cluster (e : list Z) (kind : Kind) : Z :=
  Z.lor (le16 e 26) (if decide (kind = Fat32) then Z.shiftl (Z.land (le16 e 20) 0xfff) 16 else 0).

Definition short_entry (kind : Kind) (st : scan) (index : Z) (e : list Z) : scan :=
  let short := take 11 e in
  let al := alias short (byte e 12) in
  let '(name, first_offset) :=
    if (0 <? s_total st) && (s_remaining st =? 0) && (s_sum st =? checksum short) then
      match long_name (take (Z.to_nat (s_total st * 13)) (s_utf16 st)) with
      | Some long => (long, s_start st)
      | None => (al, index * 32)
      end
    else (al, index * 32) in
  let st := drop_long st in
  if negb (Z.land (byte e 11) 8 =? 0) || bool_decide (al = lit ".") || bool_decide (al = lit "..")
  then st
  else mkScan (s_out st ++ [mkRecord name al short (byte e 11) (entry_cluster e kind) (le32 e 28)
                              (index * 32) first_offset])
         (s_utf16 st) (s_remaining st) (s_total st) (s_sum st) (s_start st).

Fixpoint scan_entries (kind : Kind) (st : scan) (index : Z) (es : list (list Z)) : scan :=
  match es with
  | [] => st
  | e :: rest =>
      if byte e 0 =? 0 then st
      else scan_entries kind
             (if byte e 0 =? 0xe5 then drop_long st
              else if byte e 11 =? 0x0f then long_entry st index e
              else short_entry kind st index e) (index + 1) rest
  end.
Definition records (data : list Z) (kind : Kind) : list Record_ :=
  s_out (scan_entries kind scan0 0 (chunks_exact 32 data)).

(** * Encoding an entry *)

Definition put_cluster (entry : list Z) (first : Z) (kind : Kind) : list Z :=
  let entry := splice entry 26 (to_le_bytes 2 first) in
  splice entry 20 (to_le_bytes 2 (if decide (kind = Fat32) then Z.shiftr first 16 else 0)).

Definition unit_at (units : list Z) (offset : nat) : Z :=
  match units !! offset with
  | Some u => u
  | None => if (offset =? length units)%nat then 0 else 0xffff
  end.
Definition long_slot (units : list Z) (short : list Z) (count index : nat) : list Z :=
  let ordinal := (count - index)%nat in
  let e := <[0%nat := Z.lor (Z.of_nat ordinal mod 256) (if (index =? 0)%nat then 0x40 else 0)]> (replicate 32 0) in
  let e := <[13%nat := checksum short]> (<[11%nat := 0x0f]> e) in
  foldl (fun e '(i, pos) => splice e pos (to_le_bytes 2 (unit_at units ((ordinal - 1) * 13 + i))))
    e (imap pair LFN_POS).
Definition short_slot (short : list Z) (first size attr : Z) (kind : Kind) : list Z :=
  let e := <[11%nat := attr]> (splice (replicate 32 0) 0 short) in
  let e := foldl (fun e o => splice e o (to_le_bytes 2 0x21)) e [16; 18; 24]%nat in
  splice (put_cluster e first kind) 28 (to_le_bytes 4 size).
Definition lfn_count (name : str) (short : list Z) : nat :=
  if bool_decide (name = alias short 0) then 0 else (length (encode_utf16 name) + 12) / 13.
Definition entry_set (name : str) (short : list Z) (first size attr : Z) (kind : Kind) : list Z :=
  let units := encode_utf16 name in
  let count := lfn_count name short in
  mjoin (map (long_slot units short count) (seq 0 count)) ++ short_slot short first size attr kind.

(** * Free slots and short names *)

Fixpoint free_slots_from (es : list (list Z)) (needed index run : Z) (end_ : bool) : option Z :=
  match es with
  | [] => None
  | e :: rest =>
      let end_ := end_ || (byte e 0 =? 0) in
      if end_ || (byte e 0 =? 0xe5) then
        if run + 1 =? needed then Some ((index + 1 - needed) * 32)
        else free_slots_from rest needed (index + 1) (run + 1) end_
      else free_slots_from rest needed (index + 1) 0 end_
  end.
Definition free_slots (data : list Z) (needed : Z) : option Z :=
  free_slots_from (chunks_exact 32 data) needed 0 0 false.

(** Decimal digits, most significant first; [number < 10^fuel]. *)
Fixpoint digits (fuel : nat) (n : Z) : list Z :=
  match fuel with
  | O => []
  | S fuel' => if n =? 0 then [] else digits fuel' (n / 10) ++ [48 + n mod 10]
  end.
(** [short[i] = ...] over the characters of [cs] from index [o] on. *)
Definition overlay (short : list Z) (o : nat) (cs : list Z) : list Z := splice short o cs.
Definition numbered (clean : list Z) (ext : str) (number : Z) : list Z :=
  let ds := digits 6 number in
  let prefix := Nat.min (7 - length ds) (length clean) in
  let short := overlay (replicate 11 32) 0 (take prefix clean) in
  let short := overlay (<[prefix := 126]> short) (prefix + 1) ds in
  overlay short 8 (map short_char (take 3 ext)).
Definition taken (existing : list Record_) (short : list Z) : bool :=
  existsb (fun r => bool_decide (r_short r = short)) existing.
Fixpoint first_number (fuel : nat) (clean : list Z) (ext : str) (existing : list Record_) (number : Z)
  : option (list Z) :=
  match fuel with
  | O => None
  | S fuel' =>
      let short := numbered clean ext number in
      if taken existing short then first_number fuel' clean ext existing (number + 1) else Some short
  end.
Definition simple_name (base ext : str) : bool :=
  negb (bool_decide (base = [])) && (str_len base <=? 8) && (str_len ext <=? 3)
  && forallb (fun c => is_ascii c && (short_char c =? to_ascii_uppercase c)) (base ++ ext).
Definition direct_name (base ext : str) : list Z :=
  overlay (overlay (replicate 11 32) 0 (map short_char base)) 8 (map short_char ext).
Definition short_name (name : str) (existing : list Record_) : outcome string (list Z) :=
  let '(base, ext) := base_ext name in
  if simple_name base ext && negb (taken existing (direct_name base ext))
  then Ok (direct_name base ext)
  else
    let clean := map short_char (List.filter (fun c => negb (c =? 32) && negb (c =? 46)) base) in
    ok_or (first_number (Z.to_nat 999999) clean ext existing 1) "short-name aliases exhausted".
End Case.

(** * Lemmas on byte buffers *)

Lemma length_splice b o src : (o + length src <= length b)%nat -> length (splice b o src) = length b.
Proof. intros H. unfold splice. rewrite !length_app, length_take, length_drop. lia. Qed.

Lemma byte_splice b o src i :
  (o + length src <= length b)%nat ->
  byte (splice b o src) i = if decide (o <= i < o + length src)%nat then byte src (i - o) else byte b i.
Proof.
  intros H. unfold byte, splice. rewrite !nth_lookup. case_decide as Hd.
  - rewrite lookup_app_r by (rewrite length_take; lia). rewrite length_take, Nat.min_l by lia.
    by rewrite lookup_app_l by lia.
  - destruct (decide (i < o)%nat).
    + rewrite lookup_app_l by (rewrite length_take; lia). by rewrite lookup_take_lt.
    + rewrite lookup_app_r by (rewrite length_take; lia). rewrite length_take, Nat.min_l by lia.
      rewrite lookup_app_r by lia. rewrite lookup_drop. do 2 f_equal. lia.
Qed.

Lemma byte_ext b c : length b = length c -> (forall i, (i < length b)%nat -> byte b i = byte c i) -> b = c.
Proof.
  intros Hl H. apply list_eq. intros i. destruct (decide (i < length b)%nat) as [Hi | Hi].
  - specialize (H i Hi). unfold byte in H. rewrite !nth_lookup in H.
    destruct (lookup_lt_is_Some_2 b i Hi) as [x Hx]. destruct (lookup_lt_is_Some_2 c i) as [y Hy]; [lia |].
    rewrite Hx, Hy in *. cbn in H. congruence.
  - rewrite !lookup_ge_None_2 by lia. done.
Qed.

Lemma byte_is_byte b i : Forall is_byte b -> is_byte (byte b i).
Proof.
  intros H. unfold byte. rewrite nth_lookup. destruct (b !! i) as [x |] eqn:E; cbn.
  - by eapply Forall_lookup_1 in H.
  - unfold is_byte. lia.
Qed.

Lemma byte_drop b o i : byte (drop o b) i = byte b (o + i).
Proof. unfold byte. by rewrite !nth_lookup, lookup_drop. Qed.
Lemma byte_take b n i : (i < n)%nat -> byte (take n b) i = byte b i.
Proof. intros H. unfold byte. by rewrite !nth_lookup, lookup_take_lt. Qed.
Lemma byte_app b c i : byte (b ++ c) i = if decide (i < length b)%nat then byte b i else byte c (i - length b).
Proof.
  unfold byte. rewrite !nth_lookup. case_decide; [by rewrite lookup_app_l | by rewrite lookup_app_r by lia].
Qed.
Lemma byte_insert b i x j : (i < length b)%nat -> byte (<[i := x]> b) j = if decide (j = i) then x else byte b j.
Proof.
  intros H. unfold byte. rewrite !nth_lookup. case_decide as E; subst.
  - by rewrite list_lookup_insert_eq.
  - by rewrite list_lookup_insert_ne.
Qed.
Lemma byte_replicate n x i : (i < n)%nat -> byte (replicate n x) i = x.
Proof. intros H. unfold byte. by rewrite nth_lookup, lookup_replicate_2. Qed.

Lemma splice_bytes b o src : Forall is_byte b -> Forall is_byte src -> Forall is_byte (splice b o src).
Proof. intros Hb Hs. unfold splice. rewrite !Forall_app. split_and!; [by apply Forall_take | done | by apply Forall_drop]. Qed.

Lemma le16_bytes b o : (o + 2 <= length b)%nat -> le16 b o = byte b o + 256 * byte b (o + 1).
Proof.
  intros H. unfold le16. rewrite <- (Nat.add_0_r o) at 2. rewrite <- !byte_drop.
  assert (2 <= length (drop o b))%nat as Hl by (rewrite length_drop; lia).
  destruct (drop o b) as [| x [| y l]]; cbn in Hl; try lia. cbn. rewrite take_0. cbn. lia.
Qed.
Lemma le32_bytes b o : (o + 4 <= length b)%nat ->
  le32 b o = byte b o + 256 * byte b (o + 1) + 65536 * byte b (o + 2) + 16777216 * byte b (o + 3).
Proof.
  intros H. unfold le32. rewrite <- (Nat.add_0_r o) at 2. rewrite <- !byte_drop.
  assert (4 <= length (drop o b))%nat as Hl by (rewrite length_drop; lia).
  destruct (drop o b) as [| x [| y [| z [| w l]]]]; cbn in Hl; try lia. cbn. rewrite take_0. cbn. lia.
Qed.

Lemma u16le_Some b o : 0 <= o -> o + 2 <= Z.of_nat (length b) -> u16le b o = Some (le16 b (Z.to_nat o)).
Proof. intros H1 H2. unfold u16le, le_at. change (Z.of_nat 2) with 2. rewrite (proj2 (Z.leb_le 0 o) H1), (proj2 (Z.leb_le _ _) H2). done. Qed.
Lemma u32le_Some b o : 0 <= o -> o + 4 <= Z.of_nat (length b) -> u32le b o = Some (le32 b (Z.to_nat o)).
Proof. intros H1 H2. unfold u32le, le_at. change (Z.of_nat 4) with 4. rewrite (proj2 (Z.leb_le 0 o) H1), (proj2 (Z.leb_le _ _) H2). done. Qed.

Lemma byte_le2 z i : byte (to_le_bytes 2 z) i = if decide (i = 0)%nat then z mod 256 else if decide (i = 1)%nat then z / 256 mod 256 else 0.
Proof. destruct i as [| [| [| i]]]; reflexivity. Qed.
Lemma byte_le4 z i :
  byte (to_le_bytes 4 z) i = if decide (i < 4)%nat then z / 256 ^ Z.of_nat i mod 256 else 0.
Proof.
  destruct i as [| [| [| [| i]]]]; cbn [to_le_bytes byte nth].
  - by rewrite Z.div_1_r.
  - done.
  - by rewrite Zdiv.Zdiv_Zdiv by lia.
  - by rewrite !Zdiv.Zdiv_Zdiv by lia.
  - rewrite decide_False by lia. by destruct i.
Qed.
End FatNames.
