(* ===== verification/FatLfn.v ===== *)
(** Long file names survive the disk (src/fs/fat.rs): the directory entries that
    [entry_set] writes are read back by [records] as the same name, cluster and size.

    UTF-16 encoding is inverted by [from_utf16]; each long-name slot carries thirteen
    units at scattered offsets, and the scan reassembles them from the last slot down. *)

From Stdlib Require Import ZArith Lia.
From stdpp Require Import base list list_numbers numbers decidable tactics strings.
From S2P Require Import Prelude BlockDev FatNames.
Import Blk FatNames.

Module FatLfn.

(** * UTF-16 *)

(** A Unicode scalar value. *)
Definition scalar (c : Z) : Prop := 0 <= c < 0xd800 \/ 0xdfff < c < 0x110000.

Lemma surrogates c : 0 <= c < 2 ^ 20 ->
  Z.lor 0xd800 (Z.shiftr c 10) = 0xd800 + c / 1024 /\ Z.lor 0xdc00 (Z.land c 0x3ff) = 0xdc00 + c mod 1024.
Proof.
  intros Hc. change 0x3ff with (2 ^ 10 - 1). rewrite land_low, Z.shiftr_div_pow2 by lia.
  change (2 ^ 10) with 1024. split.
  - change 0xd800 with (Z.shiftl 54 10) at 1. rewrite lor_shiftl_low; [done | lia |]. change (2 ^ 10) with 1024. zdiv.
  - change 0xdc00 with (Z.shiftl 55 10) at 1. rewrite lor_shiftl_low; [done | lia |]. change (2 ^ 10) with 1024. zdiv.
Qed.

Lemma from_encode_utf16 s : Forall scalar s -> from_utf16 (encode_utf16 s) = Some s.
Proof.
  induction 1 as [| c s Hc _ IH]; [done |]. change (encode_utf16 (c :: s)) with (encode_char c ++ encode_utf16 s).
  unfold encode_char. destruct (Z.ltb_spec c 0x10000).
  - cbn [app from_utf16]. replace ((c <? 0xd800) || (0xdfff <? c)) with true.
    + rewrite IH. done.
    + symmetry. apply orb_true_iff. unfold scalar in Hc. lia.
  - destruct (surrogates (c - 0x10000)) as [-> ->]; [unfold scalar in Hc; lia |].
    set (h := (c - 0x10000) / 1024). set (l := (c - 0x10000) mod 1024).
    assert (0 <= h < 1024 /\ 0 <= l < 1024 /\ c = 0x10000 + h * 1024 + l) as (Hh & Hl & E).
    { unfold h, l, scalar in *. zdiv. }
    cbn [app from_utf16]. replace ((0xd800 + h <? 0xd800) || (0xdfff <? 0xd800 + h)) with false by lia.
    replace (0xdbff <? 0xd800 + h) with false by lia.
    replace ((0xdc00 <=? 0xdc00 + l) && (0xdc00 + l <=? 0xdfff)) with true by lia.
    rewrite IH. cbn [mbind option_bind]. do 2 f_equal. rewrite Z.shiftl_mul_pow2 by lia. change (2 ^ 10) with 1024. lia.
Qed.

(** The units of a name: 16-bit words, none of them a terminator or a filler. *)
Lemma encode_units s u :
  Forall scalar s -> Forall (fun c => c <> 0 /\ c <> 0xffff) s -> u ∈ encode_utf16 s ->
  0 < u < 0xffff.
Proof.
  intros Hs Hn Hu. unfold encode_utf16 in Hu. apply list_elem_of_join in Hu as (l & Hl & Hin).
  apply elem_of_map in Hin as (c & -> & Hc).
  pose proof (Forall_elem _ _ _ Hs Hc) as Hsc. destruct (Forall_elem _ _ _ Hn Hc) as [Hnz Hnf].
  unfold encode_char in Hl. destruct (Z.ltb_spec c 0x10000).
  - apply list_elem_of_singleton in Hl as ->. unfold scalar in Hsc. lia.
  - destruct (surrogates (c - 0x10000)) as [E1 E2]; [unfold scalar in Hsc; lia |]. rewrite E1, E2 in Hl.
    unfold scalar in Hsc. apply elem_of_cons in Hl as [-> | Hl%list_elem_of_singleton]; [zdiv |]. subst. zdiv.
Qed.

(** * The slots, byte by byte *)

Lemma long_slot_bytes units short count index :
  let lo i := unit_at units ((count - index - 1) * 13 + i) mod 256 in
  let hi i := unit_at units ((count - index - 1) * 13 + i) / 256 mod 256 in
  long_slot units short count index =
    [Z.lor (Z.of_nat (count - index) mod 256) (if (index =? 0)%nat then 0x40 else 0); lo 0%nat; hi 0%nat; lo 1%nat; hi 1%nat; lo 2%nat; hi 2%nat; lo 3%nat; hi 3%nat; lo 4%nat; hi 4%nat; 0x0f; 0; checksum short; lo 5%nat; hi 5%nat; lo 6%nat; hi 6%nat;
     lo 7%nat; hi 7%nat; lo 8%nat; hi 8%nat; lo 9%nat; hi 9%nat; lo 10%nat; hi 10%nat; 0; 0; lo 11%nat; hi 11%nat; lo 12%nat; hi 12%nat].
Proof. reflexivity. Qed.

Lemma short_slot_bytes s0 s1 s2 s3 s4 s5 s6 s7 s8 s9 s10 first size attr kind :
  let hc := if decide (kind = Fat32) then Z.shiftr first 16 else 0 in
  short_slot [s0; s1; s2; s3; s4; s5; s6; s7; s8; s9; s10] first size attr kind =
    [s0; s1; s2; s3; s4; s5; s6; s7; s8; s9; s10; attr; 0; 0; 0; 0; 0x21; 0; 0x21; 0; hc mod 256; hc
     / 256 mod 256; 0; 0; 0x21; 0; first mod 256; first / 256 mod 256; size mod 256; size / 256 mod
     256; size / 256 / 256 mod 256; size / 256 / 256 / 256 mod 256].
Proof. reflexivity. Qed.

(** Two bytes of a 16-bit word. *)
Lemma word_bytes u : 0 <= u < 65536 -> u mod 256 + 256 * (u / 256 mod 256 + 256 * 0) = u.
Proof. intros H. zdiv. Qed.

Lemma long_slot_unit units short count index i pos :
  (forall o, 0 <= unit_at units o < 65536) ->
  LFN_POS !! i = Some pos ->
  le16 (long_slot units short count index) pos = unit_at units ((count - index - 1) * 13 + i).
Proof.
  intros Hu Hi. rewrite long_slot_bytes. unfold LFN_POS in Hi.
  do 13 (destruct i as [| i]; [injection Hi as <-; unfold le16; cbn [take drop from_le_bytes]; by apply word_bytes |]).
  done.
Qed.

(** Reading a slot's thirteen units into the name. *)
Lemma put_units_spec base (val : nat -> Z) : forall (ps : list nat) k u,
  (base + k + length ps <= length u)%nat ->
  let u' := foldl (fun u '(i, pos) => <[(base + i)%nat := val pos]> u) u (imap (fun i => pair (k + i)%nat) ps) in
  length u' = length u
  /\ forall j, u' !! j = if decide (base + k <= j < base + k + length ps)%nat
                         then val <$> ps !! (j - (base + k))%nat else u !! j.
Proof.
  induction ps as [| p ps IH]; intros k u Hl; cbn [imap foldl length] in *.
  - split; [done |]. intros j. by rewrite decide_False by lia.
  - rewrite Nat.add_0_r.
    assert (imap ((fun i => pair (k + i)%nat) ∘ S) ps = imap (fun i => pair (S k + i)%nat) ps) as ->
      by (apply imap_ext; intros i x _; unfold compose; f_equal; lia).
    destruct (IH (S k) (<[(base + k)%nat := val p]> u)) as [H1 H2]; [rewrite length_insert; lia |].
    split; [by rewrite H1, length_insert |]. intros j. rewrite H2.
    destruct (decide (j = base + k)%nat) as [-> | Hne].
    + rewrite decide_False, decide_True by lia. rewrite Nat.sub_diag. cbn. by rewrite list_lookup_insert_eq by lia.
    + case_decide as Hd.
      * rewrite decide_True by lia. replace (j - (base + k))%nat with (S (j - (base + S k))) by lia. done.
      * rewrite list_lookup_insert_ne by done. by rewrite decide_False by lia.
Qed.

Lemma foldl_same {A B} (f g : B -> A -> B) l b : (forall b a, f b a = g b a) -> foldl f b l = foldl g b l.
Proof. intros H. revert b. induction l as [| a l IH]; intros b; cbn; [done |]. by rewrite H, IH. Qed.

Lemma put_units_lookup u ordinal e :
  (1 <= ordinal <= 20)%nat -> length u = 260%nat ->
  length (put_units u (Z.of_nat ordinal) e) = 260%nat
  /\ forall j, put_units u (Z.of_nat ordinal) e !! j
       = if decide ((ordinal - 1) * 13 <= j < ordinal * 13)%nat
         then (fun pos => le16 e pos) <$> LFN_POS !! (j - (ordinal - 1) * 13)%nat else u !! j.
Proof.
  intros Ho Hu. unfold put_units.
  pose proof (put_units_spec ((ordinal - 1) * 13) (fun pos => le16 e pos) LFN_POS 0 u) as H. cbn [length LFN_POS] in H.
  rewrite Hu in H. specialize (H ltac:(lia)). cbv zeta in H.
  replace (foldl (fun u '(i, pos) => <[Z.to_nat ((Z.of_nat ordinal - 1) * 13 + Z.of_nat i) := le16 e pos]> u) u (imap pair LFN_POS))
    with (foldl (fun u '(i, pos) => <[((ordinal - 1) * 13 + i)%nat := le16 e pos]> u) u (imap (fun i => pair (0 + i)%nat) LFN_POS)).
  - destruct H as [H1 H2]. split; [by rewrite H1 |]. intros j. rewrite H2, Nat.add_0_r.
    replace ((ordinal - 1) * 13 + 13)%nat with (ordinal * 13)%nat by lia. done.
  - apply foldl_same. intros b [i p]. f_equal. lia.
Qed.

(** * The scan over the slots of a long name *)

Lemma ordinal_bits o first : (1 <= o <= 20)%nat ->
  let b := Z.lor (Z.of_nat o mod 256) (if first : bool then 0x40 else 0) in
  Z.land b 0x1f = Z.of_nat o /\ (Z.land b 0xa0 =? 0) = true /\ (Z.land b 0x40 =? 0) = negb first
  /\ (b =? 0) = false /\ (b =? 0xe5) = false.
Proof. intros Ho. do 21 (destruct o as [| o]; [destruct first; first [lia | by vm_compute] |]). lia. Qed.

(** After [k] of the [count] slots. *)
Record long_inv (units short : list Z) (start : Z) (out : list Record_) (count k : nat) (st : scan) : Prop := {
  li_out : s_out st = out;
  li_total : s_total st = Z.of_nat count;
  li_remaining : s_remaining st = Z.of_nat (count - k);
  li_sum : s_sum st = checksum short;
  li_start : s_start st = start;
  li_length : length (s_utf16 st) = 260%nat;
  li_units : forall j, ((count - k) * 13 <= j < count * 13)%nat -> s_utf16 st !! j = Some (unit_at units j) }.

Lemma long_slot_fields units short count index :
  let e := long_slot units short count index in
  byte e 0 = Z.lor (Z.of_nat (count - index) mod 256) (if (index =? 0)%nat then 0x40 else 0)
  /\ byte e 11 = 0x0f /\ byte e 12 = 0 /\ byte e 13 = checksum short /\ le16 e 26 = 0 /\ length e = 32%nat.
Proof. cbv zeta. rewrite long_slot_bytes. split_and!; reflexivity. Qed.

Section Scan.
Context (units short : list Z) (count : nat) (start : Z) (out : list Record_).
Context (Hu : forall o, 0 <= unit_at units o < 65536) (Hcount : (1 <= count <= 20)%nat).

Lemma long_entry_step st k i :
  (k < count)%nat -> (k = 0%nat /\ s_out st = out /\ start = i * 32) \/ (k <> 0%nat /\ long_inv units short start out count k st) ->
  long_inv units short start out count (S k) (long_entry st i (long_slot units short count k)).
Proof.
  intros Hk Hst. unfold long_entry.
  destruct (long_slot_fields units short count k) as (B0 & _ & B12 & B13 & B26 & _).
  destruct (ordinal_bits (count - k) (k =? 0)%nat) as (O1 & O2 & O3 & _ & _); [lia |]. rewrite <- B0 in *.
  set (e := long_slot units short count k) in *.
  assert (long_inv units short start out count k (begin_long st i e)) as [I1 I2 I3 I4 I5 I6 I7].
  { unfold begin_long. rewrite O1, O2, O3, negb_involutive.
    destruct Hst as [(-> & Ho & ->) | (Hk0 & I)].
    - cbn [Nat.eqb]. rewrite Nat.sub_0_r.
      rewrite (proj2 (Z.ltb_lt 0 (Z.of_nat count))), (proj2 (Z.leb_le (Z.of_nat count) 20)) by lia. cbn [andb].
      constructor; cbn [s_out s_total s_remaining s_sum s_start s_utf16]; try done; [by rewrite Nat.sub_0_r | lia].
    - apply Nat.eqb_neq in Hk0. by rewrite Hk0. }
  rewrite O1, B12, B13, B26, O2, I3, I4, !Z.eqb_refl. cbn [negb orb].
  rewrite (proj2 (Z.eqb_neq (Z.of_nat (count - k)) 0)) by lia. cbn [orb].
  destruct (put_units_lookup (s_utf16 (begin_long st i e)) (count - k) e ltac:(lia) I6) as [L1 L2].
  constructor; cbn [s_out s_total s_remaining s_sum s_start s_utf16]; try done; [lia |].
  intros j Hj. rewrite L2. case_decide as Hd; [| apply I7; lia].
  assert (j - (count - k - 1) * 13 < 13)%nat as Hlt by lia.
  destruct (lookup_lt_is_Some_2 LFN_POS (j - (count - k - 1) * 13)) as [pos Hpos]; [exact Hlt |].
  rewrite Hpos. cbn [fmap option_fmap option_map]. f_equal. unfold e. rewrite (long_slot_unit units short count k _ pos Hu Hpos). f_equal. lia.
Qed.

Lemma scan_long_slots tl kind : forall n k st i rest,
  (k + n = count)%nat ->
  (k = 0%nat /\ s_out st = out /\ start = i * 32) \/ (k <> 0%nat /\ long_inv units short start out count k st) ->
  exists st', (n = 0%nat /\ st' = st \/ long_inv units short start out count count st')
    /\ scan_entries tl kind st i (map (long_slot units short count) (seq k n) ++ rest)
       = scan_entries tl kind st' (i + Z.of_nat n) rest.
Proof.
  induction n as [| n IH]; intros k st i rest Hkn Hst.
  - exists st. split; [by left |]. cbn. by rewrite Z.add_0_r.
  - pose proof (long_entry_step st k i ltac:(lia) Hst) as Hnext.
    cbn [seq map app scan_entries].
    destruct (long_slot_fields units short count k) as (B0 & B11 & _).
    destruct (ordinal_bits (count - k) (k =? 0)%nat) as (_ & _ & _ & N0 & Ne5); [lia |]. rewrite <- B0 in *.
    rewrite N0, Ne5, B11. cbn [Z.eqb Pos.eqb].
    destruct (IH (S k) (long_entry st i (long_slot units short count k)) (i + 1) rest) as (st' & Hst' & E); [lia | right; done |].
    exists st'. split.
    + right. destruct Hst' as [[-> ->] | H]; [| done]. replace count with (S k) at 2 by lia. done.
    + rewrite E. f_equal. lia.
Qed.
End Scan.

(** * The name the units spell *)

Definition spread (units : list Z) (n : nat) : list Z := map (unit_at units) (seq 0 n).

Lemma spread_eq units n :
  (length units <= n)%nat ->
  spread units n = units ++ (if (length units <? n)%nat then 0 :: replicate (n - length units - 1) 0xffff else []).
Proof.
  intros Hn. apply list_eq. intros j. unfold spread. rewrite list_lookup_fmap.
  destruct (decide (j < n)%nat) as [Hj | Hj].
  - rewrite lookup_seq_lt by done. cbn [fmap option_fmap option_map]. unfold unit_at. cbn [Nat.add].
    destruct (decide (j < length units)%nat) as [Hju | Hju].
    + rewrite lookup_app_l by done. destruct (lookup_lt_is_Some_2 units j Hju) as [x ->]. done.
    + rewrite lookup_app_r by lia. rewrite (lookup_ge_None_2 units j) by lia.
      assert ((length units <? n)%nat = true) as -> by (apply Nat.ltb_lt; lia).
      destruct (Nat.eqb_spec j (length units)) as [-> | Hne]; [by rewrite Nat.sub_diag |].
      replace (j - length units)%nat with (S (j - length units - 1)) by lia.
      transitivity (replicate (n - length units - 1) 0xffff !! (j - length units - 1)%nat); [by rewrite lookup_replicate_2 by lia | done].
  - rewrite lookup_seq_ge by lia. symmetry. apply lookup_ge_None_2. rewrite length_app.
    destruct (Nat.ltb_spec (length units) n); cbn [length]; rewrite ?length_replicate; lia.
Qed.

Lemma position_units units tail i :
  Forall (fun u => u <> 0) units ->
  position_from (Z.eqb 0) i (units ++ tail) = position_from (Z.eqb 0) (i + Z.of_nat (length units)) tail.
Proof.
  intros Hu. revert i. induction Hu as [| u units Hu _ IH]; intros i; cbn [length app position_from].
  - by rewrite Z.add_0_r.
  - destruct (Z.eqb_spec 0 u); [congruence |]. rewrite IH. f_equal. lia.
Qed.

Lemma long_name_spread name n :
  name_ok name = true -> Forall scalar name -> 0xffff ∉ name ->
  (length (encode_utf16 name) <= n)%nat ->
  long_name (spread (encode_utf16 name) n) = Some name.
Proof.
  intros Hok Hs Hf Hn. set (units := encode_utf16 name) in *.
  assert (Forall (fun u => 0 < u < 0xffff) units) as Hu.
  { apply Forall_forall. intros u Hin. apply (encode_units name); [done | | done]. apply Forall_forall. intros c Hc. split.
    - intros ->. unfold name_ok in Hok. rewrite negb_true_iff, !orb_false_iff in Hok.
      destruct Hok as [_ Hex]. apply not_true_iff_false in Hex. apply Hex, existsb_exists. exists 0. split; [by apply list_elem_of_In | done].
    - intros ->. done. }
  assert (0 < length units <= 255)%nat as Hlen.
  { unfold name_ok in Hok. rewrite negb_true_iff, !orb_false_iff in Hok.
    destruct Hok as [[[[[He _] _] _] Hl] _]. fold units in Hl. apply bool_decide_eq_false in He. split; [| lia].
    destruct name as [| c name]; [done |]. unfold units. change (encode_utf16 (c :: name)) with (encode_char c ++ encode_utf16 name).
    rewrite length_app. unfold encode_char. destruct (c <? 0x10000); cbn; lia. }
  unfold long_name, position. rewrite spread_eq by done.
  rewrite position_units by (eapply Forall_impl; [exact Hu | intros u; cbn; lia]). rewrite Z.add_0_l.
  set (tail := if (length units <? n)%nat then _ else _).
  assert (match position_from (Z.eqb 0) (Z.of_nat (length units)) tail
          with Some k => Z.to_nat k | None => length (units ++ tail) end = length units) as ->.
  { unfold tail. destruct (length units <? n)%nat; cbn [position_from Z.eqb]; [lia | by rewrite app_nil_r]. }
  rewrite take_app_length.
  assert (contains units 0xffff = false) as ->.
  { apply not_true_iff_false. intros (x & Hx & Ex)%existsb_exists. apply list_elem_of_In in Hx.
    pose proof (Forall_elem _ _ _ Hu Hx) as Hux. cbn in Hux. lia. }
  rewrite (proj2 (Nat.ltb_lt 0 _)), (proj2 (Nat.leb_le _ 255)) by lia. cbn [andb negb].
  assert (forallb (Z.eqb 0xffff) (drop (length units + (if (length units <? length (units ++ tail))%nat then 1 else 0)) (units ++ tail)) = true) as ->.
  { rewrite length_app. unfold tail. destruct (Nat.ltb_spec (length units) n).
    - rewrite (proj2 (Nat.ltb_lt _ _)) by (cbn; lia). rewrite <- drop_drop, drop_app_length. cbn [drop].
      apply forallb_forall. intros x Hx. apply list_elem_of_In, elem_of_replicate_inv in Hx. subst. done.
    - cbn [length]. rewrite Nat.add_0_r, Nat.ltb_irrefl, Nat.add_0_r, app_nil_r. by rewrite drop_all. }
  unfold units. rewrite from_encode_utf16 by done. cbn [mbind option_bind]. by rewrite Hok.
Qed.

(** * Entry sets *)

Lemma chunks_exact_join {A} n (ls : list (list A)) :
  (0 < n)%nat -> Forall (fun l => length l = n) ls -> chunks_exact n (mjoin ls) = ls.
Proof.
  intros Hn Hls. unfold chunks_exact.
  assert (length (mjoin ls) / n = length ls)%nat as ->.
  { assert (length (mjoin ls) = length ls * n)%nat as E.
    { clear Hn. induction Hls as [| l ls Hl _ IH]; [done |].
      change (length (l ++ mjoin ls) = S (length ls) * n)%nat. rewrite length_app. lia. }
    rewrite E. apply Nat.div_mul. lia. }
  induction Hls as [| l ls Hl _ IH]; [done |]. cbn [length chunks_exact_aux].
  change (mjoin (l :: ls)) with (l ++ mjoin ls). rewrite length_app.
  rewrite (proj2 (Nat.leb_le n _)) by lia. by rewrite (take_app_length' l _ n), (drop_app_length' l _ n), IH by done.
Qed.

(** What a stored entry must satisfy to be read back. *)
Record storable (tl : Z -> str) (name : str) (short : list Z) (first size attr : Z) (kind : Kind) : Prop := {
  sb_name : name = alias tl short 0 \/ name_ok name = true /\ Forall scalar name /\ 0xffff ∉ name;
  sb_short : length short = 11%nat /\ byte short 0 <> 0 /\ byte short 0 <> 0xe5;
  sb_dots : alias tl short 0 <> lit "." /\ alias tl short 0 <> lit "..";
  sb_attr : 0 <= attr < 256 /\ Z.land attr 8 = 0;
  sb_first : 0 <= first < (if decide (kind = Fat32) then 2 ^ 28 else 2 ^ 16);
  sb_size : 0 <= size < 2 ^ 32 }.

Lemma short_slot_fields short first size attr kind :
  length short = 11%nat -> 0 <= first < (if decide (kind = Fat32) then 2 ^ 28 else 2 ^ 16) -> 0 <= size < 2 ^ 32 ->
  let e := short_slot short first size attr kind in
  byte e 0 = byte short 0 /\ byte e 11 = attr /\ byte e 12 = 0 /\ take 11 e = short /\ length e = 32%nat
  /\ entry_cluster e kind = first /\ le32 e 28 = size.
Proof.
  intros Hl Hf Hs. do 11 (destruct short as [| ? short]; [done |]). destruct short; [| done].
  cbv zeta. rewrite short_slot_bytes. do 5 (split; [done |]). split.
  - unfold entry_cluster, le16. cbn [take drop from_le_bytes]. destruct (decide (kind = Fat32)).
    + rewrite Z.shiftr_div_pow2 by lia. change 0xfff with (2 ^ 12 - 1). rewrite land_low, Z.lor_comm by lia.
      rewrite lor_shiftl_low by (lia || zdiv). zdiv.
    + rewrite Z.lor_0_r. zdiv.
  - unfold le32. cbn [take drop from_le_bytes]. zdiv.
Qed.

Lemma lfn_count_bounds name n :
  name_ok name = true -> (0 < length (encode_utf16 name))%nat -> n = ((length (encode_utf16 name) + 12) / 13)%nat ->
  (1 <= n <= 20 /\ length (encode_utf16 name) <= n * 13)%nat.
Proof.
  intros Hok Hp ->. unfold name_ok in Hok. rewrite negb_true_iff, !orb_false_iff in Hok.
  destruct Hok as [[_ Hl] _]. pose proof (Nat.div_mod_eq (length (encode_utf16 name) + 12) 13) as E.
  pose proof (Nat.mod_upper_bound (length (encode_utf16 name) + 12) 13 ltac:(lia)). lia.
Qed.

Lemma name_ok_units name : name_ok name = true -> (0 < length (encode_utf16 name))%nat.
Proof.
  intros Hok. unfold name_ok in Hok. rewrite negb_true_iff, !orb_false_iff in Hok.
  destruct Hok as [[[[[He _] _] _] _] _]. apply bool_decide_eq_false in He. destruct name as [| c name]; [done |].
  change (encode_utf16 (c :: name)) with (encode_char c ++ encode_utf16 name). rewrite length_app.
  unfold encode_char. destruct (c <? 0x10000); cbn; lia.
Qed.

Lemma unit_at_range name o : Forall scalar name -> 0 <= unit_at (encode_utf16 name) o < 65536.
Proof.
  intros Hs. unfold unit_at. destruct (encode_utf16 name !! o) as [u |] eqn:E.
  - apply list_elem_of_lookup_2 in E. unfold encode_utf16 in E. apply list_elem_of_join in E as (l & Hl & Hin).
    apply elem_of_map in Hin as (c & -> & Hc). pose proof (Forall_elem _ _ _ Hs Hc) as Hsc. unfold scalar, encode_char in *.
    destruct (Z.ltb_spec c 0x10000); [apply list_elem_of_singleton in Hl as ->; lia |].
    destruct (surrogates (c - 0x10000)) as [E1 E2]; [lia |]. rewrite E1, E2 in Hl.
    apply elem_of_cons in Hl as [-> | ->%list_elem_of_singleton]; zdiv.
  - destruct (o =? _)%nat; lia.
Qed.

(** The record an entry set decodes to, at entry index [i]. *)
Definition stored (tl : Z -> str) (name : str) (short : list Z) (first size attr i : Z) : Record_ :=
  mkRecord name (alias tl short 0) short attr first size ((i + Z.of_nat (lfn_count tl name short)) * 32) (i * 32).

(** The short entry after the long slots (or none). *)
Lemma short_entry_stored tl name short first size attr kind st i st0 :
  storable tl name short first size attr kind ->
  (lfn_count tl name short = 0%nat /\ st = st0 /\ s_total st0 = 0 \/
   lfn_count tl name short <> 0%nat
   /\ long_inv (encode_utf16 name) short (i * 32) (s_out st0) (lfn_count tl name short) (lfn_count tl name short) st) ->
  let st' := short_entry tl kind st (i + Z.of_nat (lfn_count tl name short)) (short_slot short first size attr kind) in
  s_out st' = s_out st0 ++ [stored tl name short first size attr i] /\ s_total st' = 0 /\ s_remaining st' = 0.
Proof.
  intros [Hnm (Hl & H0 & He5) [Hd1 Hd2] [Ha Ha8] Hf Hs] Hst.
  destruct (short_slot_fields short first size attr kind Hl Hf Hs) as (_ & B11 & B12 & Ts & _ & Cl & Sz).
  cbv zeta. unfold short_entry. rewrite Ts, B11, B12, Cl, Sz, Ha8.
  rewrite (bool_decide_eq_false_2 _ Hd1), (bool_decide_eq_false_2 _ Hd2). cbn [negb orb Z.eqb].
  destruct Hst as [(Hc & -> & Ht) | (Hc & [I1 I2 I3 I4 I5 I6 I7])].
  - rewrite Ht. cbn [Z.ltb Z.compare andb]. cbn [s_out s_total s_remaining drop_long]. split; [| done].
    unfold stored. rewrite Hc. cbn [Z.of_nat]. rewrite Z.add_0_r. do 3 f_equal.
    unfold lfn_count in Hc. destruct (bool_decide (name = alias tl short 0)) eqn:Eb; [by apply bool_decide_eq_true in Eb |].
    exfalso. destruct Hnm as [E | (Hok & _)]; [by apply bool_decide_eq_false in Eb |].
    destruct (lfn_count_bounds name _ Hok (name_ok_units _ Hok) eq_refl). lia.
  - assert (name_ok name = true /\ Forall scalar name /\ (0xffff ∉ name)
            /\ lfn_count tl name short = ((length (encode_utf16 name) + 12) / 13)%nat) as (Hok & Hsc & Hff & Hcnt).
    { unfold lfn_count in *. destruct (bool_decide (name = alias tl short 0)) eqn:Eb; [done |].
      apply bool_decide_eq_false in Eb. destruct Hnm as [? | (? & ? & ?)]; done. }
    destruct (lfn_count_bounds name _ Hok (name_ok_units _ Hok) Hcnt) as [Hb Hle].
    rewrite I2, I3, I4, Nat.sub_diag, Z.eqb_refl. rewrite (proj2 (Z.ltb_lt 0 _)) by lia. cbn [andb Z.eqb Z.of_nat].
    assert (take (Z.to_nat (Z.of_nat (lfn_count tl name short) * 13)) (s_utf16 st)
            = spread (encode_utf16 name) (lfn_count tl name short * 13)) as ->.
    { apply list_eq. intros j. unfold spread. rewrite list_lookup_fmap.
      destruct (decide (j < lfn_count tl name short * 13)%nat) as [Hj | Hj].
      - rewrite lookup_take_lt by lia. rewrite lookup_seq_lt by done. rewrite I7 by lia. done.
      - rewrite lookup_take_ge by lia. rewrite lookup_seq_ge by lia. done. }
    rewrite long_name_spread by done. rewrite Z.eqb_refl. cbn [s_out s_total s_remaining drop_long]. split; [| done].
    unfold stored. by rewrite I1, I5.
Qed.

(** * The theorem *)

Lemma length_long_slot units short count index : length (long_slot units short count index) = 32%nat.
Proof. by rewrite long_slot_bytes. Qed.

Lemma entry_set_chunks tl name short first size attr kind :
  length short = 11%nat ->
  chunks_exact 32 (entry_set tl name short first size attr kind)
  = map (long_slot (encode_utf16 name) short (lfn_count tl name short)) (seq 0 (lfn_count tl name short))
    ++ [short_slot short first size attr kind].
Proof.
  intros Hl. unfold entry_set. set (slots := map _ (seq 0 _)). set (e := short_slot _ _ _ _ _).
  replace (mjoin slots ++ e) with (mjoin (slots ++ [e])).
  - apply chunks_exact_join; [lia |]. apply Forall_app. split.
    + apply Forall_map, Forall_true. intros k. apply length_long_slot.
    + apply Forall_singleton. unfold e. do 11 (destruct short as [| ? short]; [done |]). by destruct short.
  - rewrite join_app. f_equal. cbn. apply app_nil_r.
Qed.

Lemma scan_stored tl name short first size attr kind st i rest :
  storable tl name short first size attr kind ->
  (lfn_count tl name short = 0%nat -> s_total st = 0) ->
  exists st', s_out st' = s_out st ++ [stored tl name short first size attr i] /\ s_total st' = 0 /\ s_remaining st' = 0
    /\ scan_entries tl kind st i (chunks_exact 32 (entry_set tl name short first size attr kind) ++ rest)
       = scan_entries tl kind st' (i + Z.of_nat (lfn_count tl name short) + 1) rest.
Proof.
  intros Sb Ht. pose proof Sb as [Hnm (Hl & H0 & He5) Hd [Ha Ha8] Hf Hs].
  rewrite entry_set_chunks, <- app_assoc by done. set (count := lfn_count tl name short) in *.
  assert (exists st1, (count = 0%nat /\ st1 = st /\ s_total st = 0 \/
            count <> 0%nat /\ long_inv (encode_utf16 name) short (i * 32) (s_out st) count count st1)
          /\ scan_entries tl kind st i (map (long_slot (encode_utf16 name) short count) (seq 0 count) ++ ([short_slot short first size attr kind] ++ rest))
             = scan_entries tl kind st1 (i + Z.of_nat count) ([short_slot short first size attr kind] ++ rest))
    as (st1 & Hst1 & ->).
  { destruct (decide (count = 0%nat)) as [E | Hne].
    - exists st. split; [left; auto |]. rewrite E. cbn [seq map app Z.of_nat]. by rewrite Z.add_0_r.
    - assert (name_ok name = true /\ Forall scalar name /\ count = ((length (encode_utf16 name) + 12) / 13)%nat) as (Hok & Hsc & Hc).
      { unfold count, lfn_count in *. destruct (bool_decide (name = alias tl short 0)) eqn:Eb; [done |].
        apply bool_decide_eq_false in Eb. destruct Hnm as [? | (? & ? & ?)]; done. }
      destruct (lfn_count_bounds name count Hok (name_ok_units _ Hok) Hc) as [Hb _].
      destruct (scan_long_slots (encode_utf16 name) short count (i * 32) (s_out st)
                  (fun o => unit_at_range name o Hsc) Hb tl kind count 0 st i ([short_slot short first size attr kind] ++ rest))
        as (st1 & [[? _] | HI] & E); [lia | left; done | lia |].
      exists st1. split; [by right | exact E]. }
  cbn [app scan_entries].
  destruct (short_slot_fields short first size attr kind Hl Hf Hs) as (B0 & B11 & _).
  rewrite B0, B11, (proj2 (Z.eqb_neq _ _) H0), (proj2 (Z.eqb_neq _ _) He5).
  assert ((attr =? 0x0f) = false) as -> by (apply Z.eqb_neq; intros ->; done).
  destruct (short_entry_stored tl name short first size attr kind st1 i st Sb Hst1) as (A1 & A2 & A3).
  eexists. split; [exact A1 |]. split; [exact A2 |]. split; [exact A3 |]. done.
Qed.

(** Long file names survive the disk.  The entries written for a name, scanned at any
    position of a directory and whatever follows them, are read back as exactly one
    record, with the name, its 8.3 alias, first cluster, size and attributes, the offset
    of its short entry and of its first slot; a directory of only those entries lists
    only that file.  Names are any that [validate_name] accepts, without the
    noncharacter U+FFFF, which doubles as the padding of the format. *)
Theorem long_name_roundtrip tl name short first size attr kind st i rest :
  storable tl name short first size attr kind ->
  (lfn_count tl name short = 0%nat -> s_total st = 0) ->
  (exists st', s_out st' = s_out st ++ [stored tl name short first size attr i]
     /\ scan_entries tl kind st i (chunks_exact 32 (entry_set tl name short first size attr kind) ++ rest)
        = scan_entries tl kind st' (i + Z.of_nat (lfn_count tl name short) + 1) rest)
  /\ records tl (entry_set tl name short first size attr kind) kind = [stored tl name short first size attr 0].
Proof.
  intros Sb Ht. split.
  - destruct (scan_stored tl name short first size attr kind st i rest Sb Ht) as (st' & A & _ & _ & B). eauto.
  - unfold records. destruct (scan_stored tl name short first size attr kind scan0 0 [] Sb) as (st' & A & _ & _ & B); [done |].
    rewrite app_nil_r in B. rewrite B. exact A.
Qed.

Definition demo_lower (c : Z) : str := [if is_upper c then c + 32 else c].
Lemma long_name_roundtrip_witness :
  records demo_lower (entry_set demo_lower (lit "Thirteen chars") (lit "LONGNA~1TXT") 2 7 0x20 Fat16) Fat16
  = [stored demo_lower (lit "Thirteen chars") (lit "LONGNA~1TXT") 2 7 0x20 0].
Proof.
  apply (long_name_roundtrip demo_lower (lit "Thirteen chars") (lit "LONGNA~1TXT") 2 7 0x20 Fat16 scan0 0 []); [| done].
  constructor.
  - right. split; [by vm_compute |]. split.
    + apply Forall_forall. intros c Hc. left.
      assert (forallb (fun c => (0 <=? c) && (c <? 128)) (lit "Thirteen chars") = true) as E by (by vm_compute).
      apply list_elem_of_In in Hc. pose proof (proj1 (forallb_forall _ _) E c Hc) as Hr. apply andb_true_iff in Hr. lia.
    + apply (bool_decide_unpack _). by vm_compute.
  - split; [done |]. split; by vm_compute.
  - split; by vm_compute.
  - split; [lia | done].
  - by vm_compute.
  - by vm_compute.
Defined.
End FatLfn.
