(* ===== verification/FatTable.v ===== *)
(** The FAT volume (src/fs/fat.rs): the cached allocation table and its copies on disk,
    cluster chains, allocation and release, cluster transfers.

    The state is the mounted [Volume] and the block device.  Sector numbers are
    unbounded integers; cluster numbers and counts stay below 2^28 (see [vol_ok]), so no
    32-bit operation of the code wraps. *)

From Stdlib Require Import ZArith Lia.
From stdpp Require Import base list list_numbers numbers decidable tactics strings gmap.
From S2P Require Import Prelude BlockDev FatNames.
Import Blk FatNames.

Module FatTable.

Definition SECTOR : Z := 512.
Definition MAX_METADATA : Z := 8 * 1024 * 1024.
Definition MAX_FILE : Z := 16 * 1024 * 1024.

Record Volume := mkVolume {
  kind : Kind; fat_lba : Z; fat_sectors : Z; fats : Z; active : Z; mirrored : bool;
  data_lba : Z; spc : Z; clusters : Z; root_lba : Z; root_entries : Z; root_cluster : Z;
  fat : list Z; hint : Z; fsinfo : option Z; backup_fsinfo : option Z;
  hints_invalid : bool; free_count : Z; vfailed : bool }.

Definition set_fat (v : Volume) (f : list Z) : Volume :=
  mkVolume (kind v) (fat_lba v) (fat_sectors v) (fats v) (active v) (mirrored v) (data_lba v)
    (spc v) (clusters v) (root_lba v) (root_entries v) (root_cluster v) f (hint v) (fsinfo v)
    (backup_fsinfo v) (hints_invalid v) (free_count v) (vfailed v).
(** The allocation hint, the free counter and the state of the on-disk hints. *)
Definition set_hints (v : Volume) (h : Z) (n : Z) (invalid : bool) : Volume :=
  mkVolume (kind v) (fat_lba v) (fat_sectors v) (fats v) (active v) (mirrored v) (data_lba v)
    (spc v) (clusters v) (root_lba v) (root_entries v) (root_cluster v) (fat v) h (fsinfo v)
    (backup_fsinfo v) invalid n (vfailed v).
Definition set_failed (v : Volume) : Volume :=
  mkVolume (kind v) (fat_lba v) (fat_sectors v) (fats v) (active v) (mirrored v) (data_lba v)
    (spc v) (clusters v) (root_lba v) (root_entries v) (root_cluster v) (fat v) (hint v) (fsinfo v)
    (backup_fsinfo v) (hints_invalid v) (free_count v) true.

(** A volume in use and its device. *)
Record state := mkState { vol : Volume; dev : BlkDevice }.
Definition with_vol (v : Volume) (s : state) : state := mkState v (dev s).
Definition put_dev (d : BlkDevice) (s : state) : state := mkState (vol s) d.
Definition V := M state.
Definition get_vol : V Volume := fun s => (Ok (vol s), s).
Definition on_vol (f : Volume -> Volume) : V unit := fun s => (Ok tt, with_vol (f (vol s)) s).

Record Dir := mkDir { d_cluster : Z; d_root : bool }.
Definition root (v : Volume) : Dir := mkDir (root_cluster v) true.
Definition bytes (v : Volume) : Z := spc v * SECTOR.
Definition valid (v : Volume) (cluster : Z) : bool := (2 <=? cluster) && (cluster <? clusters v + 2).
Definition lba (v : Volume) (cluster : Z) : Z := data_lba v + (cluster - 2) * spc v.
Definition eof (v : Volume) : Z :=
  match kind v with Fat12 => 0xfff | Fat16 => 0xffff | Fat32 => 0x0fffffff end.
Definition is_eof (v : Volume) (value : Z) : bool := eof v - 7 <=? value.
Definition check (v : Volume) : outcome string unit :=
  guard_err (vfailed v) "filesystem stopped after a disk write failure; remount required".

(** * The table *)

(** A FAT12 entry is the low or the high twelve bits of two bytes. *)
Definition unpack12 (n v : Z) : Z := if Z.land n 1 =? 0 then Z.land v 0xfff else Z.shiftr v 4.
Definition pack12 (n old value : Z) : Z :=
  if Z.land n 1 =? 0 then Z.lor (Z.land old 0xf000) (Z.land value 0xfff)
  else Z.lor (Z.land old 0xf) (Z.shiftl (Z.land value 0xfff) 4).

Definition get_ (v : Volume) (n : Z) : outcome string Z :=
  _ ← guard_err (negb (valid v n)) "invalid FAT cluster";
  match kind v with
  | Fat12 => x ← unwrap (u16le (fat v) (n + n / 2)); Ok (unpack12 n x)
  | Fat16 => unwrap (u16le (fat v) (n * 2))
  | Fat32 => x ← unwrap (u32le (fat v) (n * 4)); Ok (Z.land x 0x0fffffff)
  end.

(** The new table, and the bytes of it that changed. *)
Definition write_at (b : list Z) (o : Z) (src : list Z) : option (list Z) :=
  if o + Z.of_nat (length src) <=? Z.of_nat (length b) then Some (splice b (Z.to_nat o) src) else None.
Definition set_entry (v : Volume) (n value : Z) : option (list Z * Z * Z) :=
  match kind v with
  | Fat12 =>
      let off := n + n / 2 in
      old ← u16le (fat v) off;
      f ← write_at (fat v) off (to_le_bytes 2 (pack12 n old (value mod 2 ^ 16)));
      Some (f, off, 2)
  | Fat16 =>
      f ← write_at (fat v) (n * 2) (to_le_bytes 2 (value mod 2 ^ 16)); Some (f, n * 2, 2)
  | Fat32 =>
      old ← u32le (fat v) (n * 4);
      f ← write_at (fat v) (n * 4)
            (to_le_bytes 4 (Z.lor (Z.land old 0xf0000000) (Z.land value 0x0fffffff)));
      Some (f, n * 4, 4)
  end.

(** [&fat[index * SECTOR..(index + 1) * SECTOR]]. *)
Definition fat_sector (f : list Z) (index : Z) : option (list Z) :=
  if (index + 1) * SECTOR <=? Z.of_nat (length f)
  then Some (take 512 (drop (Z.to_nat (index * SECTOR)) f)) else None.

Section Volume.
Context (env : nat -> response).

Definition on_dev {A} (m : M BlkDevice A) : V A := zoom dev put_dev m.
Definition sector (l : Z) : V (list Z) :=
  r ← on_dev (dev_read env l);
  match r with Some b => mret b | None => fail "disk read failed" end.

Definition write_sector (l : Z) (data : list Z) : V unit :=
  v ← get_vol;
  _ ← lift (check v);
  _ ← guard (negb (Z.of_nat (length data) =? SECTOR)) "invalid sector write";
  ok ← on_dev (dev_write env l data);
  if ok : bool then mret tt else (_ ← on_vol set_failed; fail "disk write failed").

(** The write-through of [off..off+len] into copy [copy] of the table. *)
Definition flush_copy (off len copy : Z) : V unit :=
  v ← get_vol;
  if negb (mirrored v) && negb (copy =? active v) then mret tt
  else
    for_each (seqZ (off / SECTOR) ((off + len - 1) / SECTOR - off / SECTOR + 1)) (fun index =>
      v ← get_vol;
      data ← lift (unwrap (fat_sector (fat v) index));
      write_sector (fat_lba v + copy * fat_sectors v + index) data).

Definition set_ (n value : Z) : V unit :=
  v ← get_vol;
  _ ← lift (check v);
  _ ← guard (negb (valid v n)) "invalid FAT cluster";
  '(f, off, len) ← lift (unwrap (set_entry v n value));
  _ ← on_vol (fun v => set_fat v f);
  for_each (seqZ 0 (fats v)) (flush_copy off len).

(** An FSInfo sector carries the three signatures. *)
Definition is_fsinfo (data : list Z) : bool :=
  (le32 data 0 =? 0x41615252) && (le32 data 484 =? 0x61417272) && (le32 data 508 =? 0xaa550000).
Definition update_fsinfo (bytes_of : Volume -> list Z) (o : option Z) : V unit :=
  match o with
  | None => mret tt
  | Some l =>
      data ← sector l;
      v ← get_vol;
      if is_fsinfo data then write_sector l (splice data 488 (bytes_of v)) else mret tt
  end.
Definition invalidate_hints : V unit :=
  v ← get_vol;
  if hints_invalid v then mret tt
  else
    _ ← for_each [fsinfo v; backup_fsinfo v] (update_fsinfo (fun _ => replicate 8 0xff));
    on_vol (fun v => set_hints v (hint v) (free_count v) true).
Definition sync_hints : V unit :=
  v ← get_vol;
  _ ← for_each [fsinfo v; backup_fsinfo v]
        (update_fsinfo (fun v => to_le_bytes 4 (free_count v) ++ to_le_bytes 4 (hint v)));
  on_vol (fun v => set_hints v (hint v) (free_count v) false).

(** * Chains *)

(** The loop of [chain]; [fuel] exceeds [max - length out] (see [chain_loop_fuel]). *)
Fixpoint chain_loop (fuel : nat) (v : Volume) (max : Z) (out : list Z) (cluster : Z)
  : outcome string (list Z) :=
  match fuel with
  | O => Panic
  | S fuel' =>
      _ ← guard_err (negb (valid v cluster) || (max <=? Z.of_nat (length out))
                     || bool_decide (cluster ∈ out)) "invalid or cyclic FAT chain";
      let out := out ++ [cluster] in
      next ← get_ v cluster;
      if is_eof v next then Ok out else chain_loop fuel' v max out next
  end.
Definition chain (v : Volume) (first max : Z) : outcome string (list Z) :=
  _ ← check v;
  if first =? 0 then Ok [] else chain_loop (Z.to_nat max + 1) v max [] first.

Fixpoint select_free (v : Volume) (count : nat) (offsets : list Z) (selected : list Z)
  : outcome string (list Z) :=
  match offsets with
  | [] => Ok selected
  | offset :: rest =>
      let cluster := 2 + (hint v - 2 + offset) mod clusters v in
      g ← get_ v cluster;
      if g =? 0 then
        let selected := selected ++ [cluster] in
        if (length selected =? count)%nat then Ok selected else select_free v count rest selected
      else select_free v count rest selected
  end.

(** Each selected cluster points at the next one, the last at the end mark. *)
Fixpoint link (selected : list Z) : V unit :=
  match selected with
  | [] => mret tt
  | c :: rest =>
      v ← get_vol;
      _ ← set_ c (match rest with n :: _ => n | [] => eof v end);
      link rest
  end.

Definition allocate (count : nat) : V (list Z) :=
  v ← get_vol;
  _ ← lift (check v);
  if (count =? 0)%nat then mret []
  else
    selected ← lift (select_free v count (seqZ 0 (clusters v)) []);
    _ ← guard (negb (length selected =? count)%nat) "disk full";
    _ ← invalidate_hints;
    _ ← link selected;
    _ ← on_vol (fun v => set_hints v (2 + (List.last selected 0 - 1) mod clusters v)
                           (free_count v - Z.of_nat (length selected)) (hints_invalid v));
    _ ← sync_hints;
    mret selected.

Definition free (first : Z) : V unit :=
  v ← get_vol;
  cs ← lift (chain v first (MAX_FILE / bytes v + 1));
  _ ← invalidate_hints;
  _ ← for_each cs (fun cluster =>
        _ ← set_ cluster 0;
        on_vol (fun v => set_hints v (Z.min (hint v) cluster) (free_count v + 1) (hints_invalid v)));
  sync_hints.

(** * Clusters *)

Definition read_at (e : string) (l : Z) : V (list Z) :=
  r ← on_dev (dev_read env l);
  match r with Some b => mret b | None => fail e end.
Definition read_cluster (cluster : Z) : V (list Z) :=
  v ← get_vol;
  _ ← guard (negb (valid v cluster)) "invalid FAT cluster";
  bs ← collect_each (seqZ 0 (spc v)) (fun index => read_at "disk read failed" (lba v cluster + index));
  mret (mjoin bs).
Definition write_cluster (cluster : Z) (data : list Z) : V unit :=
  v ← get_vol;
  _ ← guard (negb (valid v cluster) || negb (Z.of_nat (length data) =? bytes v)) "invalid cluster write";
  for_each (imap pair (chunks 512 data)) (fun '(index, chunk) =>
    v ← get_vol; write_sector (lba v cluster + Z.of_nat index) chunk).
End Volume.

(** * Table entries *)

Lemma unpack12_spec n x : unpack12 n x = if decide (n mod 2 = 0) then x mod 4096 else x / 16.
Proof.
  unfold unpack12. change 1 with (2 ^ 1 - 1). change 0xfff with (2 ^ 12 - 1). rewrite !land_low by lia.
  change (2 ^ 1) with 2. rewrite Z.shiftr_div_pow2 by lia.
  destruct (Z.eqb_spec (n mod 2) 0); case_decide; done.
Qed.

Lemma pack12_spec n old value :
  pack12 n old value = if decide (n mod 2 = 0) then (old / 4096) mod 16 * 4096 + value mod 4096
                       else value mod 4096 * 16 + old mod 16.
Proof.
  unfold pack12. change 1 with (2 ^ 1 - 1) at 1. rewrite land_low by lia. change (2 ^ 1) with 2.
  change 0xf000 with (Z.shiftl (2 ^ 4 - 1) 12). change 0xfff with (2 ^ 12 - 1). change 0xf with (2 ^ 4 - 1).
  rewrite land_shiftl_high, !land_low, Z.shiftr_div_pow2 by lia.
  assert (0 <= value mod 2 ^ 12 < 2 ^ 12) by (apply Z.mod_pos_bound; lia).
  assert (0 <= old mod 2 ^ 4 < 2 ^ 4) by (apply Z.mod_pos_bound; lia).
  destruct (Z.eqb_spec (n mod 2) 0); case_decide; try done.
  - by rewrite lor_shiftl_low by lia.
  - rewrite Z.lor_comm. by rewrite lor_shiftl_low by lia.
Qed.

Lemma pack32_spec old value :
  Z.lor (Z.land old 0xf0000000) (Z.land value 0x0fffffff)
  = (old / 2 ^ 28) mod 16 * 2 ^ 28 + value mod 2 ^ 28.
Proof.
  change 0xf0000000 with (Z.shiftl (2 ^ 4 - 1) 28). change 0x0fffffff with (2 ^ 28 - 1).
  rewrite land_shiftl_high, !land_low, Z.shiftr_div_pow2 by lia.
  rewrite lor_shiftl_low; [done | lia |]. apply Z.mod_pos_bound. lia.
Qed.

(** Geometry of a mounted volume: what [probe] establishes and nothing changes. *)
Record vol_ok (v : Volume) : Prop := {
  vo_clusters : 0 < clusters v <= 0x0fffffee;
  vo_kind : match kind v with
            | Fat12 => clusters v < 4085 | Fat16 => clusters v < 65525 | Fat32 => 65525 <= clusters v end;
  vo_table : match kind v with
             | Fat12 => ((clusters v + 2) * 3 + 1) / 2 | Fat16 => (clusters v + 2) * 2
             | Fat32 => (clusters v + 2) * 4 end <= Z.of_nat (length (fat v));
  vo_fat : Z.of_nat (length (fat v)) = fat_sectors v * SECTOR;
  vo_bytes : Forall is_byte (fat v);
  vo_spc : 1 <= spc v <= 128;
  vo_fats : 1 <= fats v <= 2;
  vo_active : 0 <= active v < fats v;
  vo_hint : 2 <= hint v < clusters v + 2;
  vo_info : forall l, fsinfo v = Some l \/ backup_fsinfo v = Some l -> l < fat_lba v;
  vo_root : root_lba v = fat_lba v + fats v * fat_sectors v;
  vo_data : root_lba v <= data_lba v;
  vo_area : kind v <> Fat32 -> 0 <= root_entries v /\ root_entries v * 32 <= (data_lba v - root_lba v) * SECTOR }.

(** The entry of a cluster as a plain value. *)
Definition entry (v : Volume) (n : Z) : Z :=
  match kind v with
  | Fat12 => unpack12 n (le16 (fat v) (Z.to_nat (n + n / 2)))
  | Fat16 => le16 (fat v) (Z.to_nat (n * 2))
  | Fat32 => Z.land (le32 (fat v) (Z.to_nat (n * 4))) 0x0fffffff
  end.

Lemma valid_spec v n : valid v n = true <-> 2 <= n < clusters v + 2.
Proof. unfold valid. rewrite andb_true_iff. lia. Qed.

(** A valid cluster's bytes are inside the table. *)
Definition entry_off (k : Kind) (n : Z) : Z :=
  match k with Fat12 => n + n / 2 | Fat16 => n * 2 | Fat32 => n * 4 end.
Definition entry_len (k : Kind) : Z := match k with Fat32 => 4 | _ => 2 end.

Lemma entry_in_table v n :
  vol_ok v -> valid v n = true ->
  0 <= entry_off (kind v) n /\ entry_off (kind v) n + entry_len (kind v) <= Z.of_nat (length (fat v)).
Proof.
  intros OK Hn%valid_spec. pose proof (vo_table v OK) as Ht. unfold entry_off, entry_len.
  destruct (kind v); split; try lia; zdiv.
Qed.

Lemma get_entry v n : vol_ok v -> valid v n = true -> get_ v n = Ok (entry v n).
Proof.
  intros OK Hn. destruct (entry_in_table v n OK Hn) as [H1 H2]. unfold get_, entry. rewrite Hn.
  cbn [negb guard_err mbind outcome_bind]. unfold entry_off, entry_len in *.
  destruct (kind v); [rewrite u16le_Some by lia | rewrite u16le_Some by lia | rewrite u32le_Some by lia]; done.
Qed.

Lemma get_invalid v n : valid v n = false -> get_ v n = Err "invalid FAT cluster".
Proof. intros H. unfold get_. by rewrite H. Qed.

Lemma bytes_at v o : vol_ok v -> 0 <= byte (fat v) o < 256.
Proof. intros OK. exact (byte_is_byte _ o (vo_bytes v OK)). Qed.

Lemma entry_range v n : vol_ok v -> valid v n = true -> 0 <= entry v n <= eof v.
Proof.
  intros OK Hn. destruct (entry_in_table v n OK Hn) as [H1 H2]. unfold entry, eof, entry_off, entry_len in *.
  destruct (kind v).
  - rewrite unpack12_spec, le16_bytes by lia.
    pose proof (bytes_at v (Z.to_nat (n + n / 2)) OK). pose proof (bytes_at v (Z.to_nat (n + n / 2) + 1) OK).
    case_decide; zdiv.
  - rewrite le16_bytes by lia.
    pose proof (bytes_at v (Z.to_nat (n * 2)) OK). pose proof (bytes_at v (Z.to_nat (n * 2) + 1) OK). lia.
  - change 0x0fffffff with (2 ^ 28 - 1). rewrite land_low by lia.
    pose proof (Z.mod_pos_bound (le32 (fat v) (Z.to_nat (n * 4))) (2 ^ 28)). lia.
Qed.

Lemma length_set_fat_ok v f :
  vol_ok v -> length f = length (fat v) -> Forall is_byte f -> vol_ok (set_fat v f).
Proof. intros [H1 H2 H3 H4 H5 H6 H7 H8 H9 H10 H11 H12 H13] Hl Hb. constructor; cbn; try rewrite Hl; done. Qed.

Lemma byte_splice2 b o z i :
  (o + 2 <= length b)%nat ->
  byte (splice b o (to_le_bytes 2 z)) i =
    if decide (i = o) then z mod 256 else if decide (i = o + 1)%nat then z / 256 mod 256 else byte b i.
Proof.
  intros H. rewrite byte_splice by (rewrite length_to_le_bytes; lia). rewrite length_to_le_bytes, byte_le2.
  repeat case_decide; try lia; done.
Qed.

(** One packed entry written: the others keep theirs. *)
Lemma set12 v n value :
  vol_ok v -> kind v = Fat12 -> valid v n = true -> 0 <= value <= 0xfff ->
  let f := splice (fat v) (Z.to_nat (n + n / 2))
             (to_le_bytes 2 (pack12 n (le16 (fat v) (Z.to_nat (n + n / 2))) (value mod 2 ^ 16))) in
  forall m, valid v m = true -> entry (set_fat v f) m = if decide (m = n) then value else entry v m.
Proof.
  intros OK Hk Hn Hv f m Hm.
  destruct (entry_in_table v n OK Hn) as [N1 N2]. destruct (entry_in_table v m OK Hm) as [M1 M2].
  rewrite Hk in *. cbn [entry_off entry_len] in *. unfold entry. cbn [kind set_fat fat]. rewrite Hk.
  assert (length f = length (fat v)) as Hl by (unfold f; rewrite length_splice; [done | rewrite length_to_le_bytes; lia]).
  rewrite !le16_bytes by lia. rewrite !unpack12_spec.
  set (old := le16 (fat v) (Z.to_nat (n + n / 2))) in *.
  assert (old = byte (fat v) (Z.to_nat (n + n / 2)) + 256 * byte (fat v) (Z.to_nat (n + n / 2) + 1)) as Ho
    by (unfold old; apply le16_bytes; lia).
  set (P := pack12 n old (value mod 2 ^ 16)) in *.
  assert (forall i, byte f i = if decide (i = Z.to_nat (n + n / 2)) then P mod 256
            else if decide (i = Z.to_nat (n + n / 2) + 1)%nat then P / 256 mod 256 else byte (fat v) i) as Hf
    by (intros i; apply byte_splice2; lia).
  rewrite !Hf.
  assert (P = if decide (n mod 2 = 0) then (old / 4096) mod 16 * 4096 + value else value * 16 + old mod 16) as HP.
  { unfold P. rewrite pack12_spec. by rewrite (Z.mod_small value (2 ^ 16)), (Z.mod_small value 4096) by lia. }
  pose proof (bytes_at v (Z.to_nat (n + n / 2)) OK) as B0.
  pose proof (bytes_at v (Z.to_nat (n + n / 2) + 1) OK) as B1.
  pose proof (bytes_at v (Z.to_nat (m + m / 2)) OK) as C0.
  pose proof (bytes_at v (Z.to_nat (m + m / 2) + 1) OK) as C1.
  clearbody P old f. apply valid_spec in Hn, Hm.
  pose proof (Z.div_mod n 2 ltac:(lia)) as En. pose proof (Z.div_mod m 2 ltac:(lia)) as Em.
  pose proof (Z.mod_pos_bound n 2 ltac:(lia)) as Rn. pose proof (Z.mod_pos_bound m 2 ltac:(lia)) as Rm.
  destruct (decide (m = n)) as [-> | Hne].
  - repeat case_decide; try lia; clear En Em Rn Rm; zdiv.
  - set (qn := n / 2) in *. set (qm := m / 2) in *.
    set (o := Z.to_nat (n + qn)) in *. set (om := Z.to_nat (m + qm)) in *.
    destruct (decide (n mod 2 = 0)) as [Pn | Pn], (decide (m mod 2 = 0)) as [Pm | Pm];
      repeat case_decide; try lia; clear En Em Rn Rm Hf Hl;
      try (replace (byte (fat v) om) with (byte (fat v) (o + 1)) in * by (f_equal; lia));
      try (replace (byte (fat v) (om + 1)) with (byte (fat v) o) in * by (f_equal; lia)); subst old; zdiv.
Qed.

Lemma set16 v n value :
  vol_ok v -> kind v = Fat16 -> valid v n = true -> 0 <= value <= 0xffff ->
  let f := splice (fat v) (Z.to_nat (n * 2)) (to_le_bytes 2 (value mod 2 ^ 16)) in
  forall m, valid v m = true -> entry (set_fat v f) m = if decide (m = n) then value else entry v m.
Proof.
  intros OK Hk Hn Hv f m Hm.
  destruct (entry_in_table v n OK Hn) as [N1 N2]. destruct (entry_in_table v m OK Hm) as [M1 M2].
  rewrite Hk in *. cbn [entry_off entry_len] in *. unfold entry. cbn [kind set_fat fat]. rewrite Hk.
  assert (length f = length (fat v)) as Hl by (unfold f; rewrite length_splice; [done | rewrite length_to_le_bytes; lia]).
  rewrite !le16_bytes by lia. apply valid_spec in Hn, Hm.
  assert (forall i, byte f i = if decide (i = Z.to_nat (n * 2)) then value mod 256
            else if decide (i = Z.to_nat (n * 2) + 1)%nat then value / 256 mod 256 else byte (fat v) i) as Hf.
  { intros i. unfold f. rewrite byte_splice2 by lia. by rewrite (Z.mod_small value (2 ^ 16)) by lia. }
  rewrite !Hf. repeat case_decide; try lia. zdiv.
Qed.

Lemma byte_splice4 b o z i :
  (o + 4 <= length b)%nat ->
  byte (splice b o (to_le_bytes 4 z)) i =
    if decide (o <= i < o + 4)%nat then z / 256 ^ Z.of_nat (i - o) mod 256 else byte b i.
Proof.
  intros H. rewrite byte_splice by (rewrite length_to_le_bytes; lia). rewrite length_to_le_bytes, byte_le4.
  repeat case_decide; try lia; done.
Qed.

Lemma le32_splice4 b o z : (o + 4 <= length b)%nat -> 0 <= z < 2 ^ 32 -> le32 (splice b o (to_le_bytes 4 z)) o = z.
Proof.
  intros H Hz. unfold le32, splice. rewrite drop_app_length' by (rewrite length_take; lia).
  rewrite take_app_length' by (by rewrite length_to_le_bytes).
  rewrite from_to_le_bytes by (change (256 ^ Z.of_nat 4) with (2 ^ 32); done). done.
Qed.

Lemma set32 v n value :
  vol_ok v -> kind v = Fat32 -> valid v n = true -> 0 <= value <= 0x0fffffff ->
  let f := splice (fat v) (Z.to_nat (n * 4))
             (to_le_bytes 4 (Z.lor (Z.land (le32 (fat v) (Z.to_nat (n * 4))) 0xf0000000) (Z.land value 0x0fffffff))) in
  forall m, valid v m = true -> entry (set_fat v f) m = if decide (m = n) then value else entry v m.
Proof.
  intros OK Hk Hn Hv f m Hm.
  destruct (entry_in_table v n OK Hn) as [N1 N2]. destruct (entry_in_table v m OK Hm) as [M1 M2].
  rewrite Hk in *. cbn [entry_off entry_len] in *. unfold entry. cbn [kind set_fat fat]. rewrite Hk.
  assert (length f = length (fat v)) as Hl by (unfold f; rewrite length_splice; [done | rewrite length_to_le_bytes; lia]).
  change 0x0fffffff with (2 ^ 28 - 1). rewrite !land_low by lia. unfold f. rewrite pack32_spec.
  set (old := le32 (fat v) (Z.to_nat (n * 4))). apply valid_spec in Hn, Hm.
  pose proof (Z.mod_pos_bound (old / 2 ^ 28) 16 ltac:(lia)) as R. rewrite (Z.mod_small value) by lia.
  destruct (decide (m = n)) as [-> | Hne].
  - rewrite le32_splice4 by lia. rewrite Z.add_comm, Z.mod_add by lia. apply Z.mod_small. lia.
  - f_equal. rewrite !le32_bytes by (rewrite ?length_splice; rewrite ?length_to_le_bytes; lia).
    rewrite !byte_splice4 by lia. by rewrite !decide_False by lia.
Qed.

Lemma write_at_Some b o src : 0 <= o -> o + Z.of_nat (length src) <= Z.of_nat (length b) ->
  write_at b o src = Some (splice b (Z.to_nat o) src).
Proof. intros H1 H2. unfold write_at. by rewrite (proj2 (Z.leb_le _ _) H2). Qed.

Lemma set_entry_spec v n value :
  vol_ok v -> valid v n = true -> 0 <= value <= eof v ->
  exists f, set_entry v n value = Some (f, entry_off (kind v) n, entry_len (kind v))
    /\ vol_ok (set_fat v f) /\ length f = length (fat v)
    /\ (forall m, valid v m = true -> entry (set_fat v f) m = if decide (m = n) then value else entry v m)
    /\ (forall i, Z.of_nat i < entry_off (kind v) n \/ entry_off (kind v) n + entry_len (kind v) <= Z.of_nat i ->
          byte f i = byte (fat v) i).
Proof.
  intros OK Hn Hv. destruct (entry_in_table v n OK Hn) as [N1 N2].
  assert (forall src, Z.of_nat (length src) = entry_len (kind v) -> Forall is_byte src ->
            let f := splice (fat v) (Z.to_nat (entry_off (kind v) n)) src in
            vol_ok (set_fat v f) /\ length f = length (fat v)
            /\ (forall i, Z.of_nat i < entry_off (kind v) n \/ entry_off (kind v) n + entry_len (kind v) <= Z.of_nat i ->
                  byte f i = byte (fat v) i)) as Hsp.
  { intros src Hs Hb f. assert (length f = length (fat v)) as Hl by (apply length_splice; lia).
    split_and!; [| done |].
    - apply length_set_fat_ok; [done | done |]. apply splice_bytes; [apply vo_bytes |]; done.
    - intros i Hi. unfold f. rewrite byte_splice by lia. by rewrite decide_False by lia. }
  unfold set_entry. unfold eof in Hv. unfold entry_off, entry_len in *. destruct (kind v) eqn:Hk.
  - rewrite u16le_Some by lia. cbn [mbind option_bind].
    rewrite write_at_Some by (rewrite ?length_to_le_bytes; lia). eexists. split; [done |].
    destruct (Hsp (to_le_bytes 2 (pack12 n (le16 (fat v) (Z.to_nat (n + n / 2))) (value mod 2 ^ 16)))) as (A & B & C);
      [done | apply to_le_bytes_bytes |]. split_and!; [done | done | by apply set12 | done].
  - rewrite write_at_Some by (rewrite ?length_to_le_bytes; lia). eexists. split; [done |].
    destruct (Hsp (to_le_bytes 2 (value mod 2 ^ 16))) as (A & B & C); [done | apply to_le_bytes_bytes |].
    split_and!; [done | done | by apply set16 | done].
  - rewrite u32le_Some by lia. cbn [mbind option_bind].
    rewrite write_at_Some by (rewrite ?length_to_le_bytes; lia). eexists. split; [done |].
    destruct (Hsp (to_le_bytes 4 (Z.lor (Z.land (le32 (fat v) (Z.to_nat (n * 4))) 0xf0000000) (Z.land value 0x0fffffff))))
      as (A & B & C); [done | apply to_le_bytes_bytes |].
    split_and!; [exact A | exact B | by apply set32 | exact C].
Qed.

(** * The copies of the table on disk *)

(** Sector [index] of a table. *)
Definition sec (f : list Z) (index : Z) : list Z := take 512 (drop (Z.to_nat (index * SECTOR)) f).
(** The sectors of [m] from [base] on hold the table [f]. *)
Definition table_at (m : gmap Z (list Z)) (base : Z) (f : list Z) (n : Z) : Prop :=
  forall index, 0 <= index < n -> sector_of m (base + index) = sec f index.
Definition copy_base (v : Volume) (copy : Z) : Z := fat_lba v + copy * fat_sectors v.
Definition live_copy (v : Volume) (copy : Z) : Prop :=
  0 <= copy < fats v /\ (mirrored v = true \/ copy = active v).
(** Every copy the volume keeps up to date holds the cached table. *)
Definition coherent (v : Volume) (d : BlkDevice) : Prop :=
  forall copy, live_copy v copy -> table_at (media d) (copy_base v copy) (fat v) (fat_sectors v).
Definition in_fats (v : Volume) (l : Z) : Prop := fat_lba v <= l < root_lba v.
(** Only sectors satisfying [P] may differ. *)
Definition framed (P : Z -> Prop) (d d' : BlkDevice) : Prop :=
  forall l, ~ P l -> sector_of (media d') l = sector_of (media d) l.
Definition writable (s : state) : Prop := vfailed (vol s) = false /\ media_ok (media (dev s)).

Lemma framed_refl P d : framed P d d.
Proof. done. Qed.
Lemma framed_trans P d d' d'' : framed P d d' -> framed P d' d'' -> framed P d d''.
Proof. intros H1 H2 l Hl. rewrite (H2 l Hl). by apply H1. Qed.
Lemma framed_mono (P Q : Z -> Prop) d d' : (forall l, P l -> Q l) -> framed P d d' -> framed Q d d'.
Proof. intros H F l Hl. apply F. auto. Qed.
#[local] Hint Resolve framed_refl : core.

(** What a disk failure leaves: the volume as it was, marked failed. *)
Definition stopped (v : Volume) (P : Z -> Prop) (s s' : state) : Prop :=
  vol s' = set_failed v /\ framed P (dev s) (dev s') /\ media_ok (media (dev s')).

Section Writing.
Context (env : nat -> response).

Lemma wp_get_vol s (Q : Volume -> state -> Prop) E : Q (vol s) s -> wp get_vol s Q E.
Proof. done. Qed.
Lemma wp_on_vol f s (Q : unit -> state -> Prop) E : Q tt (with_vol (f (vol s)) s) -> wp (on_vol f) s Q E.
Proof. done. Qed.
Lemma wp_check s (Q : unit -> state -> Prop) E :
  vfailed (vol s) = false -> Q tt s -> wp (lift (check (vol s))) s Q E.
Proof. intros H HQ. apply wp_lift. unfold check. by rewrite H. Qed.

Lemma wp_write_sector l data s (Q : unit -> state -> Prop) E :
  writable s -> sector_ok data ->
  (forall d', media d' = <[l := data]> (media (dev s)) -> Q tt (put_dev d' s)) ->
  (forall s', stopped (vol s) (eq l) s s' -> E "disk write failed" s') ->
  wp (write_sector env l data) s Q E.
Proof.
  intros [Hf Hm] [Hl Hb] HQ HE. unfold write_sector. apply wp_bind, wp_get_vol, wp_bind, wp_check; [done |].
  apply wp_bind, wp_guard.
  { rewrite negb_true_iff, Z.eqb_neq. unfold SECTOR. lia. }
  intros _. apply wp_bind. unfold wp, on_dev, zoom.
  destruct (dev_write_spec env l data (dev s) Hl) as (b & d' & -> & T & Hok & Hany).
  destruct b; cbn [fst snd].
  - apply HQ. by apply Hok.
  - apply (HE (with_vol (set_failed (vol s)) (put_dev d' s))). split; [done |]. cbn [dev with_vol put_dev].
    unfold framed. destruct Hany as [-> | ->]; (split; [intros k Hk | auto]); [done | |].
    + rewrite sector_of_insert. by rewrite decide_False by (intros ->; done).
    + apply media_ok_insert; [done | by split].
Qed.

Lemma wp_read_at e l s (Q : list Z -> state -> Prop) E :
  (forall d', media d' = media (dev s) -> Q (sector_of (media (dev s)) l) (put_dev d' s)) ->
  (forall d', media d' = media (dev s) -> E e (put_dev d' s)) ->
  wp (read_at env e l) s Q E.
Proof.
  intros HQ HE. unfold read_at. apply wp_bind. unfold wp, on_dev, zoom.
  destruct (dev_read_spec env l (dev s)) as (o & d' & -> & Hm & _ & [-> | ->]); cbn; auto.
Qed.
Lemma wp_sector l s (Q : list Z -> state -> Prop) E :
  (forall d', media d' = media (dev s) -> Q (sector_of (media (dev s)) l) (put_dev d' s)) ->
  (forall d', media d' = media (dev s) -> E "disk read failed" (put_dev d' s)) ->
  wp (sector env l) s Q E.
Proof. apply wp_read_at. Qed.

Definition in_copy (v : Volume) (copy l : Z) : Prop := copy_base v copy <= l < copy_base v copy + fat_sectors v.

Lemma fat_sectors_pos v : vol_ok v -> 0 < fat_sectors v.
Proof.
  intros OK. pose proof (vo_fat v OK). pose proof (vo_table v OK). pose proof (vo_clusters v OK). unfold SECTOR in *.
  destruct (kind v); zdiv.
Qed.

Lemma in_copy_in_fats v copy l : vol_ok v -> 0 <= copy < fats v -> in_copy v copy l -> in_fats v l.
Proof.
  intros OK Hc Hl. unfold in_copy, in_fats, copy_base in *. rewrite (vo_root v OK).
  pose proof (fat_sectors_pos v OK). nia.
Qed.

Lemma fat_sector_Some v index :
  vol_ok v -> 0 <= index < fat_sectors v -> fat_sector (fat v) index = Some (sec (fat v) index) /\ sector_ok (sec (fat v) index).
Proof.
  intros OK Hi. pose proof (vo_fat v OK) as Hf. unfold fat_sector, SECTOR in *.
  rewrite (proj2 (Z.leb_le _ _)) by lia. split; [done |]. unfold sec, SECTOR. split.
  - rewrite length_take, length_drop. lia.
  - apply Forall_take, Forall_drop, (vo_bytes v OK).
Qed.

Lemma wp_flush_copy v off len copy g s (Q : unit -> state -> Prop) E :
  vol s = v -> vol_ok v -> writable s -> 0 <= copy < fats v ->
  0 <= off -> 0 < len -> off + len <= Z.of_nat (length (fat v)) ->
  (forall index, index < off / SECTOR \/ (off + len - 1) / SECTOR < index -> 0 <= index < fat_sectors v ->
     sec g index = sec (fat v) index) ->
  (live_copy v copy -> table_at (media (dev s)) (copy_base v copy) g (fat_sectors v)) ->
  (forall s', vol s' = v -> writable s' -> framed (in_copy v copy) (dev s) (dev s') ->
     (live_copy v copy -> table_at (media (dev s')) (copy_base v copy) (fat v) (fat_sectors v)) -> Q tt s') ->
  (forall s', stopped v (in_copy v copy) s s' -> E "disk write failed" s') ->
  wp (flush_copy env off len copy) s Q E.
Proof.
  intros Hv OK W Hc Ho Hln Hrng Hag Hg HQ HE. unfold flush_copy. apply wp_bind, wp_get_vol. rewrite Hv.
  destruct (negb (mirrored v) && negb (copy =? active v)) eqn:Em.
  { apply wp_ret, HQ; [done | done | auto |]. intros [_ [H | H]]; apply andb_true_iff in Em as [E1 E2];
      rewrite negb_true_iff in *; [congruence | lia]. }
  assert (live_copy v copy) as Hlive.
  { split; [done |]. apply andb_false_iff in Em as [E1 | E1]; rewrite negb_false_iff in E1; [by left | right; lia]. }
  specialize (Hg Hlive). pose proof (vo_fat v OK) as Hfl.
  apply (wp_for_each _ _ (fun dn _ st => vol st = v /\ writable st /\ framed (in_copy v copy) (dev s) (dev st)
    /\ forall index, 0 <= index < fat_sectors v ->
         sector_of (media (dev st)) (copy_base v copy + index)
         = if decide (index ∈ dn) then sec (fat v) index else sector_of (media (dev s)) (copy_base v copy + index))).
  - split_and!; [done | done | auto |]. intros index _. by rewrite decide_False by apply not_elem_of_nil.
  - intros st (H1 & H2 & H3 & H4). apply HQ; [done | done | done |]. intros _ index Hi. rewrite (H4 index Hi).
    case_decide as Hd; [done |]. rewrite (Hg index Hi). apply Hag; [| done].
    rewrite elem_of_seqZ in Hd. lia.
  - intros dn x rest st El (H1 & H2 & H3 & H4).
    assert (0 <= x < fat_sectors v) as Hx.
    { assert (x ∈ seqZ (off / SECTOR) ((off + len - 1) / SECTOR - off / SECTOR + 1)) as Hin
        by (rewrite El; apply elem_of_app; right; by left).
      rewrite elem_of_seqZ in Hin. unfold SECTOR in *. zdiv. }
    destruct (fat_sector_Some v x OK Hx) as [Es Eok].
    apply wp_bind, wp_get_vol. rewrite H1. apply wp_bind, wp_lift. rewrite Es. cbn [unwrap].
    apply wp_write_sector; [done | done | |].
    + intros d' Hd'. split; [done |]. split; [split; [by apply H2 | cbn; rewrite Hd'; apply media_ok_insert; [by apply H2 | done]] |].
      split.
      * eapply framed_trans; [exact H3 |]. intros l Hl. cbn. rewrite Hd', sector_of_insert.
        rewrite decide_False; [done |]. intros ->. apply Hl. unfold in_copy, copy_base. lia.
      * intros index Hi. cbn. rewrite Hd', sector_of_insert. destruct (decide (index = x)) as [-> | Hne].
        -- rewrite decide_True by (unfold copy_base; lia). rewrite decide_True; [done |]. apply elem_of_app. right. by left.
        -- rewrite decide_False by (unfold copy_base; lia). rewrite (H4 index Hi). destruct (decide (index ∈ dn)) as [Hin | Hin].
           ++ rewrite decide_True; [done |]. apply elem_of_app. by left.
           ++ rewrite decide_False; [done |]. rewrite elem_of_app, list_elem_of_singleton. tauto.
    + intros s' (S1 & S2 & S3). apply HE. rewrite H1 in S1. split; [done |]. split; [| done].
      eapply framed_trans; [exact H3 |]. eapply framed_mono; [| exact S2]. intros l <-. unfold in_copy, copy_base. lia.
Qed.

(** A disk write failed: the volume refuses everything from now on. *)
Definition halted (P : Z -> Prop) (s s' : state) : Prop :=
  vfailed (vol s') = true /\ framed P (dev s) (dev s') /\ media_ok (media (dev s')).
(** [f] is the table of [v] with one entry changed. *)
Definition table_set (v : Volume) (n value : Z) (f : list Z) : Prop :=
  vol_ok (set_fat v f)
  /\ forall m, valid v m = true -> entry (set_fat v f) m = if decide (m = n) then value else entry v m.

Lemma sec_ext f g index :
  length f = length g ->
  (forall i, index * SECTOR <= Z.of_nat i < index * SECTOR + 512 -> byte f i = byte g i) ->
  0 <= index -> sec f index = sec g index.
Proof.
  intros Hl H Hi. unfold sec. apply byte_ext; [rewrite !length_take, !length_drop; lia |].
  intros i Hlt. rewrite length_take, length_drop in Hlt. rewrite !byte_take, !byte_drop by lia. apply H.
  unfold SECTOR in *. lia.
Qed.

Lemma copies_apart v a b l : vol_ok v -> in_copy v a l -> in_copy v b l -> a = b.
Proof. intros OK. unfold in_copy, copy_base. pose proof (fat_sectors_pos v OK). nia. Qed.

Lemma table_at_framed m m' base f n (P : Z -> Prop) :
  (forall l, ~ P l -> sector_of m' l = sector_of m l) -> (forall i, 0 <= i < n -> ~ P (base + i)) ->
  table_at m base f n -> table_at m' base f n.
Proof. intros F HP H i Hi. rewrite F by auto. auto. Qed.

Lemma wp_set n value s (Q : unit -> state -> Prop) E :
  vol_ok (vol s) -> writable s -> coherent (vol s) (dev s) -> valid (vol s) n = true -> 0 <= value <= eof (vol s) ->
  (forall s' f, vol s' = set_fat (vol s) f -> table_set (vol s) n value f -> writable s' ->
     coherent (vol s') (dev s') -> framed (in_fats (vol s)) (dev s) (dev s') -> Q tt s') ->
  (forall s', halted (in_fats (vol s)) s s' -> E "disk write failed" s') ->
  wp (set_ env n value) s Q E.
Proof.
  intros OK W Co Hn Hval HQ HE. set (v := vol s) in *. unfold set_.
  apply wp_bind, wp_get_vol, wp_bind, wp_check; [apply W |]. fold v.
  apply wp_bind, wp_guard; [by rewrite Hn |]. intros _.
  destruct (set_entry_spec v n value OK Hn Hval) as (f & Es & OKf & Hl & Hent & Hout).
  apply wp_bind, wp_lift. rewrite Es. cbn [unwrap]. apply wp_bind, wp_on_vol. fold v.
  destruct (entry_in_table v n OK Hn) as [N1 N2].
  set (off := entry_off (kind v) n) in *. set (len := entry_len (kind v)) in *.
  assert (0 < len) as Hlen by (unfold len, entry_len; destruct (kind v); lia).
  set (w := set_fat v f) in *.
  apply (wp_for_each _ _ (fun dn _ st => vol st = w /\ writable st /\ framed (in_fats v) (dev s) (dev st)
    /\ forall copy, live_copy v copy -> table_at (media (dev st)) (copy_base v copy) (if decide (copy ∈ dn) then f else fat v) (fat_sectors v))).
  - split; [done |]. split; [exact W |]. split; [auto |]. intros copy Hc.
    rewrite decide_False by apply not_elem_of_nil. by apply Co.
  - intros st (H1 & H2 & H3 & H4). apply (HQ st f); try done.
    + rewrite H1. intros copy Hc. change (live_copy v copy) in Hc. pose proof (H4 copy Hc) as H.
      rewrite decide_True in H; [exact H |]. apply elem_of_seqZ. destruct Hc. lia.
  - intros dn x rest st El (H1 & H2 & H3 & H4).
    assert (0 <= x < fats v /\ ~ x ∈ dn) as [Hx Hnd].
    { pose proof (NoDup_seqZ 0 (fats v)) as Hnd. rewrite El in Hnd. apply NoDup_app in Hnd as (_ & Hd & _).
      split; [| intros Hin; apply (Hd x Hin); by left].
      assert (x ∈ seqZ 0 (fats v)) as Hin by (rewrite El; apply elem_of_app; right; by left).
      rewrite elem_of_seqZ in Hin. lia. }
    apply (wp_flush_copy w off len x (fat v)); try done.
    + cbn [w set_fat fat]. lia.
    + intros index Hi Hr. apply sec_ext; [done | | lia]. intros i Hin. symmetry. apply Hout.
      unfold SECTOR in *. zdiv.
    + intros Hlx. pose proof (H4 x Hlx) as H. by rewrite decide_False in H.
    + intros s' G1 G2 G3 G4. split; [done |]. split; [done |]. split.
      * eapply framed_trans; [exact H3 |]. eapply framed_mono; [| exact G3]. intros l. by apply in_copy_in_fats.
      * intros copy Hc. destruct (decide (copy = x)) as [-> | Hne].
        -- rewrite decide_True; [by apply G4 |]. apply elem_of_app. right. by left.
        -- pose proof (H4 copy Hc) as H.
           assert ((if decide (copy ∈ dn ++ [x]) then f else fat v) = if decide (copy ∈ dn) then f else fat v) as ->.
           { destruct (decide (copy ∈ dn)); case_decide as Hd; try done; rewrite elem_of_app, list_elem_of_singleton in Hd; tauto. }
           eapply (table_at_framed _ _ _ _ _ (in_copy v x)); [exact G3 | | exact H].
           intros i Hi Hin. apply Hne. apply (copies_apart v copy x (copy_base v copy + i)); [done | | done].
           unfold in_copy. lia.
    + intros s' (S1 & S2 & S3). apply HE. split; [by rewrite S1 |]. split; [| done].
      eapply framed_trans; [exact H3 |]. eapply framed_mono; [| exact S2]. intros l. by apply in_copy_in_fats.
Qed.

(** ** The hints *)

Definition below_fats (v : Volume) (l : Z) : Prop := l < fat_lba v.

Lemma coherent_framed v d d' P :
  vol_ok v -> coherent v d -> framed P d d' -> (forall l, in_fats v l -> ~ P l) -> coherent v d'.
Proof.
  intros OK Co F HP copy Hc. eapply (table_at_framed _ _ _ _ _ P); [exact F | | by apply Co].
  intros i Hi. apply HP. destruct Hc as [Hc _]. apply (in_copy_in_fats v copy); [done | done |]. unfold in_copy. lia.
Qed.

Lemma set_hints_ok v h n b : vol_ok v -> 2 <= h < clusters v + 2 -> vol_ok (set_hints v h n b).
Proof. intros [H1 H2 H3 H4 H5 H6 H7 H8 H9 H10 H11 H12 H13] Hh. by constructor. Qed.

Lemma is_fsinfo_splice data bs : sector_ok data -> length bs = 8%nat -> Forall is_byte bs -> sector_ok (splice data 488 bs).
Proof. intros [H1 H2] Hl Hb. split; [rewrite length_splice; lia | by apply splice_bytes]. Qed.

(** Nothing but the sectors below the tables may have changed. *)
Definition calm (v : Volume) (s s' : state) : Prop :=
  vol s' = v /\ writable s' /\ framed (below_fats v) (dev s) (dev s').
Definition hint_error (s s' : state) : Prop := calm (vol s) s s' \/ halted (below_fats (vol s)) s s'.

Lemma wp_update_fsinfo bytes_of o s (Q : unit -> state -> Prop) E :
  writable s -> (forall l, o = Some l -> l < fat_lba (vol s)) ->
  length (bytes_of (vol s)) = 8%nat -> Forall is_byte (bytes_of (vol s)) ->
  (forall s', calm (vol s) s s' -> Q tt s') -> (forall e s', hint_error s s' -> E e s') ->
  wp (update_fsinfo env bytes_of o) s Q E.
Proof.
  intros W Hb Hl Hbytes HQ HE. unfold update_fsinfo. destruct o as [l |].
  2: { apply wp_ret, HQ. split; [done |]. split; [done | auto]. }
  specialize (Hb l eq_refl). destruct W as [W1 W2].
  assert (forall d', media d' = media (dev s) -> calm (vol s) s (put_dev d' s)) as Hread.
  { intros d' Hd. split; [done |]. split; [split; [done | cbn; by rewrite Hd] |]. intros k _. cbn. by rewrite Hd. }
  apply wp_bind, wp_sector.
  - intros d' Hd'. apply wp_bind, wp_get_vol. destruct (is_fsinfo _).
    + apply wp_write_sector.
      * apply Hread. done.
      * apply is_fsinfo_splice; [by apply sector_of_ok | done | done].
      * intros d'' Hd''. apply HQ. split; [done |]. split.
        -- split; [done |]. cbn in Hd'' |- *. rewrite Hd'', Hd'. apply media_ok_insert; [done |].
           apply is_fsinfo_splice; [by apply sector_of_ok | done | done].
        -- intros k Hk. cbn in Hd'' |- *. rewrite Hd'', Hd', sector_of_insert. rewrite decide_False; [done |].
           intros ->. by apply Hk.
      * intros s' (S1 & S2 & S3). apply HE. right. split; [by rewrite S1 |]. split; [| done].
        intros k Hk. rewrite (S2 k); [cbn; by rewrite Hd' |]. intros <-. by apply Hk.
    + apply HQ, Hread. done.
  - intros d' Hd'. apply HE. left. by apply Hread.
Qed.

Lemma calm_trans v s s' s'' : vol s = v -> calm v s s' -> calm v s' s'' -> calm v s s''.
Proof. intros Hv (A1 & A2 & A3) (B1 & B2 & B3). split; [done |]. split; [done |]. by eapply framed_trans. Qed.
Lemma hint_error_trans v s s' s'' : vol s = v -> calm v s s' -> hint_error s' s'' -> hint_error s s''.
Proof.
  intros Hv C [H | (H1 & H2 & H3)].
  - left. rewrite Hv. destruct C as (C1 & C2 & C3). rewrite C1 in H. by eapply calm_trans.
  - right. destruct C as (C1 & C2 & C3). rewrite C1 in H2. rewrite Hv. split; [done |]. split; [| done].
    by eapply framed_trans.
Qed.

Lemma wp_update_both bytes_of s (Q : unit -> state -> Prop) E :
  vol_ok (vol s) -> writable s -> length (bytes_of (vol s)) = 8%nat -> Forall is_byte (bytes_of (vol s)) ->
  (forall s', calm (vol s) s s' -> Q tt s') -> (forall e s', hint_error s s' -> E e s') ->
  wp (for_each [fsinfo (vol s); backup_fsinfo (vol s)] (update_fsinfo env bytes_of)) s Q E.
Proof.
  intros OK W Hl Hb HQ HE. set (v := vol s) in *. cbn [for_each]. apply wp_bind. apply wp_update_fsinfo; try done.
  { intros l Hl'. apply (vo_info v OK). by left. }
  intros s1 C1. pose proof C1 as (E1 & W1 & _). apply wp_bind. apply wp_update_fsinfo; try done; rewrite ?E1; try done.
  - intros l Hl'. apply (vo_info v OK). by right.
  - intros s2 C2. apply HQ. by eapply calm_trans.
  - intros e s2 C2. apply HE. by eapply (hint_error_trans v).
Qed.

Lemma wp_invalidate_hints s (Q : unit -> state -> Prop) E :
  vol_ok (vol s) -> writable s ->
  (forall s', calm (set_hints (vol s) (hint (vol s)) (free_count (vol s)) true) s s' -> Q tt s') ->
  (forall e s', hint_error s s' -> E e s') -> wp (invalidate_hints env) s Q E.
Proof.
  intros OK W HQ HE. unfold invalidate_hints. apply wp_bind, wp_get_vol. destruct (hints_invalid (vol s)) eqn:Eh.
  - apply wp_ret, HQ. split; [destruct s as [v d], v; cbn in *; by subst |]. split; [done | auto].
  - apply wp_bind, wp_update_both; try done.
    + apply Forall_replicate. unfold is_byte. lia.
    + intros s' (C1 & C2 & C3). apply wp_on_vol, HQ. cbn. split; [by rewrite C1 |]. split; [| exact C3].
      rewrite C1. split; [cbn; by apply W | apply C2].
Qed.

Lemma wp_sync_hints s (Q : unit -> state -> Prop) E :
  vol_ok (vol s) -> writable s ->
  (forall s', calm (set_hints (vol s) (hint (vol s)) (free_count (vol s)) false) s s' -> Q tt s') ->
  (forall e s', hint_error s s' -> E e s') -> wp (sync_hints env) s Q E.
Proof.
  intros OK W HQ HE. unfold sync_hints. apply wp_bind, wp_get_vol. apply wp_bind, wp_update_both; try done.
  - apply Forall_app. split; apply to_le_bytes_bytes.
  - intros s' (C1 & C2 & C3). apply wp_on_vol, HQ. cbn. split; [by rewrite C1 |]. split; [| exact C3].
    rewrite C1. split; [cbn; by apply W | apply C2].
Qed.
End Writing.

(** * Chains *)

(** [cs] follows the table to an end mark. *)
Fixpoint path (v : Volume) (cs : list Z) : Prop :=
  match cs with
  | [] => False
  | c :: rest =>
      match rest with
      | [] => is_eof v (entry v c) = true
      | d :: _ => entry v c = d /\ path v rest
      end
  end.
(** A chain: a cluster list without repetition that [path] accepts. *)
Record chain_of (v : Volume) (first : Z) (cs : list Z) : Prop := {
  ch_head : head cs = Some first;
  ch_path : path v cs;
  ch_nodup : NoDup cs;
  ch_valid : Forall (fun c => valid v c = true) cs }.

Lemma valid_not_eof v c : vol_ok v -> valid v c = true -> is_eof v c = false.
Proof.
  intros OK Hc%valid_spec. pose proof (vo_kind v OK). pose proof (vo_clusters v OK).
  unfold is_eof, eof. destruct (kind v); lia.
Qed.

Lemma valid_le_eof v c : vol_ok v -> valid v c = true -> 0 <= c <= eof v.
Proof. intros OK Hc. pose proof (valid_not_eof v c OK Hc). apply valid_spec in Hc. unfold is_eof in *. lia. Qed.

Lemma path_cons v c cs d : path v (c :: d :: cs) <-> entry v c = d /\ path v (d :: cs).
Proof. done. Qed.

Lemma chain_loop_ok v max : vol_ok v -> forall fuel out cluster,
  (Z.to_nat max < fuel + length out)%nat -> Z.of_nat (length out) <= max ->
  (exists cs, chain_loop fuel v max out cluster = Ok (out ++ cs) /\ head cs = Some cluster /\ path v cs
     /\ Forall (fun c => valid v c = true) cs /\ (NoDup out -> NoDup (out ++ cs))
     /\ Z.of_nat (length (out ++ cs)) <= max)
  \/ chain_loop fuel v max out cluster = Err "invalid or cyclic FAT chain".
Proof.
  intros OK. induction fuel as [| fuel IH]; intros out cluster Hf Hle.
  { exfalso. lia. }
  cbn [chain_loop].
  destruct (negb (valid v cluster) || (max <=? Z.of_nat (length out)) || bool_decide (cluster ∈ out)) eqn:Eg; [by right |].
  apply orb_false_iff in Eg as [Eg Ein%bool_decide_eq_false]. apply orb_false_iff in Eg as [Ev Em].
  apply negb_false_iff in Ev. cbn [guard_err mbind outcome_bind]. rewrite (get_entry v cluster OK Ev).
  cbn [mbind outcome_bind].
  assert (NoDup out -> NoDup (out ++ [cluster])) as Hnd.
  { intros Hn. apply NoDup_app. split; [done |]. split; [| apply NoDup_singleton].
    intros x Hx ->%list_elem_of_singleton. done. }
  destruct (is_eof v (entry v cluster)) eqn:Ee.
  - left. exists [cluster]. split_and!; try done; [by constructor |]. rewrite length_app. cbn. lia.
  - destruct (IH (out ++ [cluster]) (entry v cluster)) as [(cs & E & Hh & Hp & Hv & Hn & Hl) | E]; [rewrite length_app; cbn; lia | rewrite length_app; cbn; lia | |].
    + left. exists (cluster :: cs). rewrite <- app_assoc in *. cbn [app] in *. rewrite E. split_and!; try done.
      * destruct cs as [| d cs]; [done |]. cbn in Hh. injection Hh as ->. done.
      * by constructor.
      * intros H. by apply Hn, Hnd.
    + right. done.
Qed.

(** The walk finds every chain that is short enough. *)
Lemma chain_loop_complete v max : vol_ok v -> forall cs fuel out cluster,
  (length cs <= fuel)%nat -> head cs = Some cluster -> path v cs -> Forall (fun c => valid v c = true) cs ->
  NoDup (out ++ cs) -> Z.of_nat (length (out ++ cs)) <= max ->
  chain_loop fuel v max out cluster = Ok (out ++ cs).
Proof.
  intros OK. induction cs as [| c cs IH]; intros fuel out cluster Hf Hh Hp Hv Hn Hl; [done |].
  destruct fuel as [| fuel]; [cbn in Hf; lia |]. cbn in Hh. injection Hh as ->. inversion Hv as [| ? ? Hc Hv']; subst.
  rewrite length_app in Hl. cbn [length] in Hl, Hf. cbn [chain_loop]. rewrite Hc.
  rewrite (proj2 (Z.leb_gt _ _)) by lia.
  assert (cluster ∉ out) as Hni.
  { intros Hin. apply NoDup_app in Hn as (_ & Hd & _). apply (Hd cluster Hin). by left. }
  rewrite bool_decide_eq_false_2 by done. cbn [negb orb guard_err mbind outcome_bind].
  rewrite (get_entry v cluster OK Hc). cbn [mbind outcome_bind].
  destruct cs as [| d cs].
  - cbn in Hp. by rewrite Hp.
  - apply path_cons in Hp as [He Hp]. rewrite He. inversion Hv' as [| ? ? Hd _]; subst.
    rewrite (valid_not_eof v _ OK Hd).
    rewrite (IH fuel (out ++ [cluster])); rewrite <- ?app_assoc; try done; [lia |].
    rewrite length_app. cbn [app length] in *. lia.
Qed.

Lemma chain_spec v first max cs :
  vol_ok v -> vfailed v = false -> 0 <= max ->
  chain v first max = Ok cs <->
    (first = 0 /\ cs = []) \/ (first <> 0 /\ chain_of v first cs /\ Z.of_nat (length cs) <= max).
Proof.
  intros OK Hf Hm. unfold chain, check. rewrite Hf. cbn [guard_err mbind outcome_bind].
  destruct (Z.eqb_spec first 0) as [-> | Hne].
  { split; [intros [= <-]; by left | intros [[_ ->] | [? _]]; done]. }
  split.
  - intros E. right. split; [done |].
    destruct (chain_loop_ok v max OK (Z.to_nat max + 1) [] first) as [(cs' & E' & H1 & H2 & H3 & H4 & H5) | E'];
      [cbn; lia | cbn; lia | |]; rewrite E in E'; [| done]. apply Ok_inj in E' as ->. cbn [app] in *.
    split; [| done]. constructor; try done. apply H4, NoDup_nil_2.
  - intros [[? _] | (_ & [H1 H2 H3 H4] & Hl)]; [done |]. apply (chain_loop_complete v max OK cs _ [] first); try done. lia.
Qed.

Lemma chain_total v first max :
  vol_ok v -> vfailed v = false -> 0 <= max ->
  (exists cs, chain v first max = Ok cs) \/ chain v first max = Err "invalid or cyclic FAT chain".
Proof.
  intros OK Hf Hm. unfold chain, check. rewrite Hf. cbn [guard_err mbind outcome_bind].
  destruct (first =? 0); [left; eauto |].
  destruct (chain_loop_ok v max OK (Z.to_nat max + 1) [] first) as [(cs' & E' & _) | E']; [cbn; lia | cbn; lia | |]; eauto.
Qed.

(** No cluster of a chain is free. *)
Lemma chain_nonzero v first cs c : vol_ok v -> chain_of v first cs -> c ∈ cs -> entry v c <> 0.
Proof.
  intros OK [_ Hp _ Hv] Hc. clear first. induction cs as [| a cs IH]; [by apply not_elem_of_nil in Hc |].
  inversion Hv as [| ? ? Ha Hv']; subst. destruct cs as [| d cs].
  - apply list_elem_of_singleton in Hc as ->. cbn in Hp. intros E. rewrite E in Hp.
    unfold is_eof, eof in Hp. destruct (kind v); lia.
  - apply path_cons in Hp as [He Hp]. apply elem_of_cons in Hc as [-> | Hc]; [| by apply IH].
    inversion Hv' as [| ? ? Hd _]; subst. apply valid_spec in Hd. lia.
Qed.

(** * Allocation *)

Definition is_free (v : Volume) (c : Z) : bool := entry v c =? 0.
(** The clusters in the order the search visits them. *)
Definition search_order (v : Volume) : list Z :=
  map (fun offset => 2 + (hint v - 2 + offset) mod clusters v) (seqZ 0 (clusters v)).
Definition zero_count (v : Volume) : Z := Z.of_nat (length (List.filter (is_free v) (seqZ 2 (clusters v)))).
Definition counted (v : Volume) : Prop := free_count v = zero_count v.

Lemma order_valid v offset :
  vol_ok v -> valid v (2 + (hint v - 2 + offset) mod clusters v) = true.
Proof.
  intros OK. apply valid_spec. pose proof (vo_clusters v OK).
  pose proof (Z.mod_pos_bound (hint v - 2 + offset) (clusters v)). lia.
Qed.

Lemma select_free_spec v count : vol_ok v -> forall offsets selected,
  (length selected < count)%nat ->
  select_free v count offsets selected
  = Ok (selected ++ take (count - length selected)
          (List.filter (is_free v) (map (fun offset => 2 + (hint v - 2 + offset) mod clusters v) offsets))).
Proof.
  intros OK. induction offsets as [| o offsets IH]; intros selected Hl; cbn [select_free map List.filter].
  { by rewrite take_nil, app_nil_r. }
  rewrite (get_entry v _ OK (order_valid v o OK)). cbn [mbind outcome_bind].
  set (c := 2 + (hint v - 2 + o) mod clusters v). unfold is_free at 1. destruct (entry v c =? 0) eqn:E; [| by apply IH].
  rewrite length_app. cbn [length]. destruct (Nat.eqb_spec (length selected + 1) count) as [He | He].
  - replace (count - length selected)%nat with 1%nat by lia. cbn [take]. by rewrite take_0.
  - rewrite IH by (rewrite length_app; cbn; lia). rewrite length_app. cbn [length].
    replace (count - length selected)%nat with (S (count - (length selected + 1))) by lia. cbn [take].
    by rewrite <- app_assoc.
Qed.

Lemma search_order_perm v : vol_ok v -> search_order v ≡ₚ seqZ 2 (clusters v).
Proof.
  intros OK. pose proof (vo_clusters v OK) as Hc. pose proof (vo_hint v OK) as Hh. apply NoDup_Permutation.
  - apply NoDup_fmap_2_strong; [| apply NoDup_seqZ]. intros a b Ha Hb E. rewrite elem_of_seqZ in Ha, Hb.
    pose proof (Z.div_mod (hint v - 2 + a) (clusters v) ltac:(lia)). pose proof (Z.div_mod (hint v - 2 + b) (clusters v) ltac:(lia)).
    assert ((hint v - 2 + a) / clusters v = (hint v - 2 + b) / clusters v) by nia. nia.
  - apply NoDup_seqZ.
  - intros x. unfold search_order. rewrite elem_of_map, elem_of_seqZ. split.
    + intros (o & -> & _). pose proof (Z.mod_pos_bound (hint v - 2 + o) (clusters v)). lia.
    + intros Hx. exists ((x - hint v) mod clusters v). split.
      * rewrite Z.add_mod_idemp_r by lia. replace (hint v - 2 + (x - hint v)) with (x - 2) by lia.
        rewrite Z.mod_small by lia. lia.
      * rewrite elem_of_seqZ. pose proof (Z.mod_pos_bound (x - hint v) (clusters v)). lia.
Qed.

(** What an operation on the table may change of the volume. *)
Definition retabled (v v' : Volume) : Prop :=
  v' = set_hints (set_fat v (fat v')) (hint v') (free_count v') (hints_invalid v').
(** A mounted volume that works, and what is left of one after an error. *)
Record good (s : state) : Prop := {
  gd_vol : vol_ok (vol s); gd_writable : writable s; gd_coherent : coherent (vol s) (dev s);
  gd_counted : counted (vol s) }.
Definition safe (s : state) : Prop := good s \/ (vfailed (vol s) = true /\ media_ok (media (dev s))).
Definition system_area (v : Volume) (l : Z) : Prop := l < root_lba v.

Lemma retabled_refl v : retabled v v.
Proof. by destruct v. Qed.
Lemma retabled_trans v v' v'' : retabled v v' -> retabled v' v'' -> retabled v v''.
Proof. unfold retabled. intros -> ->. done. Qed.
Lemma retabled_fields v v' : retabled v v' ->
  kind v' = kind v /\ clusters v' = clusters v /\ fat_lba v' = fat_lba v /\ root_lba v' = root_lba v
  /\ data_lba v' = data_lba v /\ spc v' = spc v /\ fats v' = fats v /\ fat_sectors v' = fat_sectors v
  /\ vfailed v' = vfailed v /\ root_entries v' = root_entries v /\ root_cluster v' = root_cluster v.
Proof. unfold retabled. intros ->. done. Qed.

(** The successor of [m] in [cs], or [e] for the last. *)
Fixpoint succ (cs : list Z) (e m : Z) : Z :=
  match cs with
  | [] => e
  | c :: rest => if decide (m = c) then (match rest with n :: _ => n | [] => e end) else succ rest e m
  end.

Lemma filter_minus (P : Z -> bool) (l cs : list Z) :
  NoDup l -> NoDup cs -> (forall x, x ∈ cs -> x ∈ l /\ P x = true) ->
  (length (List.filter (fun x => P x && negb (bool_decide (x ∈ cs))) l) + length cs = length (List.filter P l))%nat.
Proof.
  intros Hl Hc H.
  assert (cs ++ List.filter (fun x => P x && negb (bool_decide (x ∈ cs))) l ≡ₚ List.filter P l) as Hp.
  { apply NoDup_Permutation.
    - apply NoDup_app. split; [done |]. split.
      + intros x Hx (_ & Hy)%list_elem_of_In%filter_In. apply andb_true_iff in Hy as [_ Hy].
        by rewrite bool_decide_eq_true_2 in Hy.
      + by apply NoDup_ListNoDup, List.NoDup_filter, NoDup_ListNoDup.
    - by apply NoDup_ListNoDup, List.NoDup_filter, NoDup_ListNoDup.
    - intros x. rewrite elem_of_app, !list_elem_of_In, !filter_In, andb_true_iff, negb_true_iff, bool_decide_eq_false.
      rewrite <- !list_elem_of_In. destruct (decide (x ∈ cs)) as [Hx | Hx]; [destruct (H x Hx) |]; tauto. }
  apply Permutation_length in Hp. rewrite length_app in Hp. lia.
Qed.

Lemma filter_ext_in (P Q : Z -> bool) l : (forall x, x ∈ l -> P x = Q x) -> List.filter P l = List.filter Q l.
Proof. intros H. apply List.filter_ext_in. intros x Hx. apply H. by apply list_elem_of_In. Qed.

(** Entries of [cs] that were free are taken, or the other way round. *)
Lemma zero_count_take v v' cs :
  clusters v' = clusters v -> NoDup cs ->
  (forall c, c ∈ cs -> valid v c = true /\ entry v c = 0 /\ entry v' c <> 0) ->
  (forall m, valid v m = true -> m ∉ cs -> entry v' m = entry v m) ->
  zero_count v' = zero_count v - Z.of_nat (length cs).
Proof.
  intros Ec Hn Hcs Hoth. unfold zero_count. rewrite Ec.
  pose proof (filter_minus (is_free v) (seqZ 2 (clusters v)) cs (NoDup_seqZ _ _) Hn) as Hf.
  rewrite (filter_ext_in (is_free v') (fun x => is_free v x && negb (bool_decide (x ∈ cs)))).
  - rewrite <- Hf; [lia |]. intros x Hx. destruct (Hcs x Hx) as (H1%valid_spec & H2 & _).
    rewrite elem_of_seqZ. unfold is_free. rewrite H2. split; [lia | done].
  - intros x Hx%elem_of_seqZ. unfold is_free. destruct (decide (x ∈ cs)) as [Hin | Hin].
    + rewrite bool_decide_eq_true_2, andb_false_r by done. destruct (Hcs x Hin) as (_ & _ & H). by apply Z.eqb_neq.
    + rewrite bool_decide_eq_false_2, andb_true_r by done. rewrite Hoth; [done | apply valid_spec; lia | done].
Qed.

Section Allocating.
Context (env : nat -> response).

Lemma wp_link cs : forall s (Q : unit -> state -> Prop) E,
  vol_ok (vol s) -> writable s -> coherent (vol s) (dev s) ->
  Forall (fun c => valid (vol s) c = true) cs -> NoDup cs ->
  (forall s' f, vol s' = set_fat (vol s) f -> vol_ok (vol s') ->
     (forall m, valid (vol s) m = true ->
        entry (vol s') m = if decide (m ∈ cs) then succ cs (eof (vol s)) m else entry (vol s) m) ->
     writable s' -> coherent (vol s') (dev s') -> framed (in_fats (vol s)) (dev s) (dev s') -> Q tt s') ->
  (forall s', halted (in_fats (vol s)) s s' -> E "disk write failed" s') ->
  wp (link env cs) s Q E.
Proof.
  induction cs as [| c cs IH]; intros s Q E OK W Co Hv Hn HQ HE; cbn [link].
  { apply wp_ret, (HQ s (fat (vol s))); try done. by destruct s as [[] ?]. }
  inversion Hv as [| ? ? Hc Hv']; subst. apply NoDup_cons in Hn as [Hnc Hn].
  apply wp_bind, wp_get_vol, wp_bind. apply wp_set; try done.
  { destruct cs as [| d cs]; [unfold eof; destruct (kind (vol s)); lia |].
    inversion Hv'; subst. by apply valid_le_eof. }
  - intros s1 f E1 [OK1 Hent] W1 Co1 F1. apply IH; try done.
    + by rewrite E1.
    + rewrite E1. done.
    + intros s2 g E2 OK2 Hent2 W2 Co2 F2. rewrite E1 in *. apply (HQ s2 g); try done.
      * intros m Hm. rewrite (Hent2 m Hm). cbn [succ]. destruct (decide (m = c)) as [-> | Hne].
        -- rewrite decide_False by done. rewrite decide_True by (by left). rewrite (Hent c Hm). by rewrite decide_True.
        -- rewrite (Hent m Hm), (decide_False (P := m = c)) by done.
           destruct (decide (m ∈ cs)); [rewrite decide_True by (by right); done |].
           rewrite decide_False; [done |]. rewrite elem_of_cons. tauto.
      * by eapply framed_trans.
    + intros s2 (A1 & A2 & A3). apply HE. rewrite E1 in A2. split; [done |]. split; [| done]. by eapply framed_trans.
Qed.

(** [v'] is [v] with the free clusters [cs] linked into a chain. *)
Record takes (v : Volume) (cs : list Z) (v' : Volume) : Prop := {
  tk_same : retabled v v';
  tk_count : free_count v' = free_count v - Z.of_nat (length cs);
  tk_entry : forall m, valid v m = true ->
    entry v' m = if decide (m ∈ cs) then succ cs (eof v) m else entry v m }.
(** The clusters an allocation of [count] takes: the first free ones from the hint on. *)
Definition first_free (v : Volume) (count : nat) : list Z := take count (List.filter (is_free v) (search_order v)).
Definition alloc_error (s : state) (count : nat) (e : string) (s' : state) : Prop :=
  (e = "disk full" /\ s' = s /\ zero_count (vol s) < Z.of_nat count)
  \/ (Z.of_nat count <= zero_count (vol s) /\ safe s' /\ framed (system_area (vol s)) (dev s) (dev s')).

Lemma free_length v : vol_ok v -> Z.of_nat (length (List.filter (is_free v) (search_order v))) = zero_count v.
Proof.
  intros OK. unfold zero_count. f_equal. apply Permutation_length.
  pose proof (search_order_perm v OK) as Hp.
  assert (forall l : list Z, List.filter (is_free v) l = filter (fun x => is_free v x = true) l) as E.
  { induction l as [| x l IH]; [done |]. cbn [List.filter]. rewrite filter_cons. case_decide as Hd.
    - rewrite Hd. by f_equal.
    - apply not_true_is_false in Hd. by rewrite Hd. }
  rewrite !E. by rewrite Hp.
Qed.

Lemma first_free_spec v count c : vol_ok v -> c ∈ first_free v count -> valid v c = true /\ entry v c = 0.
Proof.
  intros OK Hc. apply elem_of_take in Hc as (i & Hi & _). apply list_elem_of_lookup_2 in Hi.
  apply list_elem_of_In, filter_In in Hi as [Hi%list_elem_of_In Hf]. unfold is_free in Hf.
  rewrite (search_order_perm v OK), elem_of_seqZ in Hi. split; [apply valid_spec |]; lia.
Qed.
Lemma first_free_nodup v count : vol_ok v -> NoDup (first_free v count).
Proof.
  intros OK. eapply sublist_NoDup; [| apply sublist_take].
  apply NoDup_ListNoDup, List.NoDup_filter, NoDup_ListNoDup. rewrite (search_order_perm v OK). apply NoDup_seqZ.
Qed.

Lemma succ_nonzero cs e m : e <> 0 -> Forall (fun c => c <> 0) cs -> succ cs e m <> 0.
Proof.
  intros He Hv. induction cs as [| c cs IH]; [done |]. inversion Hv; subst. cbn [succ]. case_decide; [| by apply IH].
  destruct cs; [done |]. inversion H2; by subst.
Qed.

Lemma eof_pos v : 0 < eof v.
Proof. unfold eof. destruct (kind v); lia. Qed.

Lemma system_below v l : vol_ok v -> below_fats v l -> system_area v l.
Proof. intros OK H. unfold below_fats, system_area in *. rewrite (vo_root v OK). pose proof (fat_sectors_pos v OK). pose proof (vo_fats v OK). nia. Qed.
Lemma system_fats v l : in_fats v l -> system_area v l.
Proof. unfold in_fats, system_area. lia. Qed.

(** Coherence only looks at the geometry, the table and the medium. *)
Lemma coherent_hints v d h n b : coherent v d -> coherent (set_hints v h n b) d.
Proof. done. Qed.

Lemma calm_good s h n b s' :
  vol_ok (vol s) -> coherent (vol s) (dev s) -> 2 <= h < clusters (vol s) + 2 ->
  calm (set_hints (vol s) h n b) s s' ->
  vol_ok (vol s') /\ writable s' /\ coherent (vol s') (dev s') /\ framed (system_area (vol s)) (dev s) (dev s').
Proof.
  intros OK Co Hh (C1 & C2 & C3). rewrite C1. split; [by apply set_hints_ok |]. split; [done |]. split.
  - apply coherent_hints. eapply coherent_framed; [done | done | exact C3 |].
    intros l Hl. unfold in_fats, below_fats in *. cbn. lia.
  - eapply framed_mono; [| exact C3]. intros l Hl. by apply system_below.
Qed.

Lemma halted_safe P s s' : halted P s s' -> safe s'.
Proof. intros (H1 & _ & H3). right. done. Qed.

Lemma hint_error_safe s s' : good s -> hint_error s s' -> safe s' /\ framed (system_area (vol s)) (dev s) (dev s').
Proof.
  intros [OK W Co Cn] [C | H].
  - pose proof C as (C1 & C2 & C3).
    assert (framed (system_area (vol s)) (dev s) (dev s')) as F.
    { eapply framed_mono; [| exact C3]. intros l Hl. by apply system_below. }
    split; [| done]. left. constructor; rewrite ?C1; try done.
    eapply coherent_framed; [done | done | exact C3 |]. intros l Hl. unfold in_fats, below_fats in *. lia.
  - split; [by eapply halted_safe |]. destruct H as (_ & H & _). eapply framed_mono; [| exact H].
    intros l Hl. by apply system_below.
Qed.

(** The counters after a chain was linked. *)
Lemma takes_counted v cs v' :
  vol_ok v -> counted v -> NoDup cs -> Forall (fun c => valid v c = true /\ entry v c = 0) cs ->
  takes v cs v' -> counted v'.
Proof.
  intros OK Cn Hn Hcs [Hr Hc He]. apply retabled_fields in Hr as (_ & Ec & _). unfold counted. rewrite Hc, Cn. symmetry.
  apply zero_count_take; [done | done | |].
  - intros c Hin. pose proof (Forall_elem _ _ _ Hcs Hin) as [Hv Hz]. split_and!; [done | done |].
    rewrite (He c Hv), decide_True by done. apply succ_nonzero; [pose proof (eof_pos v); lia |].
    eapply Forall_impl; [exact Hcs |]. intros x [Hx%valid_spec _]. lia.
  - intros m Hm Hni. by rewrite (He m Hm), decide_False by done.
Qed.

Lemma wp_allocate count s (Q : list Z -> state -> Prop) E :
  good s ->
  (forall s', length (first_free (vol s) count) = count -> takes (vol s) (first_free (vol s) count) (vol s') -> good s' ->
     framed (system_area (vol s)) (dev s) (dev s') -> Q (first_free (vol s) count) s') ->
  (forall e s', alloc_error s count e s' -> E e s') ->
  wp (allocate env count) s Q E.
Proof.
  intros G HQ HE. pose proof G as [OK W Co Cn]. set (v := vol s) in *. unfold allocate.
  apply wp_bind, wp_get_vol, wp_bind, wp_check; [apply W |]. fold v.
  destruct (Nat.eqb_spec count 0) as [-> | Hnz].
  { assert (first_free v 0 = []) as E0 by (unfold first_free; by rewrite take_0). rewrite E0 in HQ.
    apply wp_ret, (HQ s); try done. constructor; [apply retabled_refl | cbn [length]; fold v; lia |].
    intros m _. by rewrite decide_False by apply not_elem_of_nil. }
  apply wp_bind, wp_lift. rewrite select_free_spec by (done || (cbn; lia)).
  cbn [app length]. rewrite Nat.sub_0_r. fold (search_order v). fold (first_free v count).
  set (cs := first_free v count) in *.
  assert (Z.of_nat (length cs) = Z.min (Z.of_nat count) (zero_count v)) as Hlen.
  { unfold cs, first_free. rewrite length_take, Nat2Z.inj_min, free_length by done. done. }
  apply wp_bind, wp_guard.
  { rewrite negb_true_iff, Nat.eqb_neq. intros Hne. apply HE. left. fold v. split_and!; [done | done | lia]. }
  rewrite negb_false_iff, Nat.eqb_eq. intros Hl.
  assert (Forall (fun c => valid v c = true /\ entry v c = 0) cs) as Hcs
    by (apply Forall_forall; intros c Hc; by eapply first_free_spec).
  assert (NoDup cs) as Hnd by (by apply first_free_nodup).
  assert (forall e s', safe s' -> framed (system_area v) (dev s) (dev s') -> E e s') as HE'
    by (intros e s' H1 H2; apply HE; right; fold v; split_and!; [lia | done | done]).
  apply wp_bind, wp_invalidate_hints; [done | done | |].
  2: { intros e s' H. destruct (hint_error_safe s s' G H). by apply HE'. }
  intros s1 C1. destruct (calm_good s _ _ _ s1 OK Co (vo_hint v OK) C1) as (OK1 & W1 & Co1 & F1).
  destruct C1 as (V1 & _ & _). fold v in V1.
  apply wp_bind, wp_link; try done; rewrite ?V1.
  { eapply Forall_impl; [exact Hcs |]. by intros c [H _]. }
  2: { intros s2 H. apply HE'; [by eapply halted_safe |]. destruct H as (_ & H & _). eapply framed_trans; [exact F1 |].
       eapply framed_mono; [| exact H]. intros l. apply system_fats. }
  intros s2 f V2 OK2 Hent W2 Co2 F2. apply wp_bind, wp_on_vol. rewrite V2.
  set (h := 2 + (List.last cs 0 - 1) mod clusters _). set (s3 := with_vol _ s2).
  assert (takes v cs (vol s3)) as T3.
  { constructor; [done | done |]. intros m Hm. rewrite V2 in Hent. exact (Hent m Hm). }
  assert (2 <= h < clusters v + 2) as Hh.
  { unfold h. cbn. pose proof (vo_clusters v OK). pose proof (Z.mod_pos_bound (List.last cs 0 - 1) (clusters v)). lia. }
  assert (good s3) as G3.
  { rewrite V2 in OK2, Co2. constructor.
    - apply set_hints_ok; [done | exact Hh].
    - split; [cbn; by apply W | apply W2].
    - exact Co2.
    - exact (takes_counted v cs (vol s3) OK Cn Hnd Hcs T3). }
  assert (framed (system_area v) (dev s) (dev s3)) as F3.
  { eapply framed_trans; [exact F1 |]. eapply framed_mono; [| exact F2]. intros l. apply system_fats. }
  apply wp_bind, wp_sync_hints; [apply G3 | apply G3 | |].
  - intros s4 C4. destruct (calm_good s3 _ _ _ s4 (gd_vol _ G3) (gd_coherent _ G3) (vo_hint _ (gd_vol _ G3)) C4) as (OK4 & W4 & Co4 & F4).
    destruct C4 as (V4 & _). apply wp_ret, HQ.
    + done.
    + rewrite V4. destruct T3 as [A1 A2 A3]. constructor; [| done | exact A3].
      rewrite A1. done.
    + constructor; [done | done | done |]. rewrite V4. apply (gd_counted _ G3).
    + by eapply framed_trans.
  - intros e s4 H. destruct (hint_error_safe s3 s4 G3 H). apply HE'; [done |]. by eapply framed_trans.
Qed.

(** ** Release *)

(** [v'] is [v] with the clusters [cs] free. *)
Record frees (v : Volume) (cs : list Z) (v' : Volume) : Prop := {
  fr_same : retabled v v';
  fr_count : free_count v' = free_count v + Z.of_nat (length cs);
  fr_entry : forall m, valid v m = true -> entry v' m = if decide (m ∈ cs) then 0 else entry v m }.

(** What holds between two turns of the loop that releases [cs], after [dn] of them. *)
Definition freeing (s : state) (dn : list Z) (st : state) : Prop :=
  good st /\ framed (system_area (vol s)) (dev s) (dev st) /\ frees (vol s) dn (vol st).

Lemma freeing_step s dn c st (E : string -> state -> Prop) :
  good s -> freeing s dn st -> valid (vol s) c = true -> c ∉ dn -> entry (vol s) c <> 0 ->
  (forall e s', safe s' -> framed (system_area (vol s)) (dev s) (dev s') -> E e s') ->
  wp (_ ← set_ env c 0;
      on_vol (fun v => set_hints v (Z.min (hint v) c) (free_count v + 1) (hints_invalid v))) st
     (fun _ s' => freeing s (dn ++ [c]) s') E.
Proof.
  intros G ([OK W Co Cn] & F & [Hr Hc He]) Hv Hni Hnz HE.
  pose proof (retabled_fields _ _ Hr) as (Ek & Ecl & Efl & Erl & _).
  assert (valid (vol st) c = true) as Hv' by (apply valid_spec; rewrite Ecl; by apply valid_spec in Hv).
  apply wp_bind, wp_set; try done; [pose proof (eof_pos (vol st)); lia | |].
  - intros s1 f V1 [OK1 Hent] W1 Co1 F1. apply wp_on_vol. rewrite V1 in *.
    pose proof (proj1 (valid_spec _ _) Hv') as Hcr. pose proof (vo_hint _ OK) as Hh.
    assert (frees (vol s) (dn ++ [c])
              (set_hints (set_fat (vol st) f) (Z.min (hint (vol st)) c) (free_count (vol st) + 1) (hints_invalid (vol st)))) as Fr.
    { constructor.
      - eapply retabled_trans; [exact Hr | done].
      - cbn. rewrite length_app. cbn. lia.
      - intros m Hm. assert (valid (vol st) m = true) as Hm' by (apply valid_spec; rewrite Ecl; by apply valid_spec in Hm).
        transitivity (entry (set_fat (vol st) f) m); [done |]. rewrite (Hent m Hm'), (He m Hm).
        destruct (decide (m = c)) as [-> | Hne].
        + rewrite decide_True; [done |]. apply elem_of_app. right. by left.
        + assert ((m ∈ dn ++ [c]) <-> m ∈ dn) as Hiff by (rewrite elem_of_app, list_elem_of_singleton; tauto).
          destruct (decide (m ∈ dn)); [rewrite decide_True by tauto | rewrite decide_False by tauto]; done. }
    split; [constructor |].
    + apply set_hints_ok; [done | cbn; lia].
    + split; [cbn; apply W | apply W1].
    + exact Co1.
    + change (free_count (vol st) + 1 = zero_count (set_fat (vol st) f)). rewrite Cn.
      rewrite (zero_count_take (set_fat (vol st) f) (vol st) [c]); [cbn; lia | done | apply NoDup_singleton | |].
      * intros x ->%list_elem_of_singleton. split; [done |]. split.
        -- by rewrite (Hent c Hv'), decide_True.
        -- rewrite (He c Hv), decide_False by done. done.
      * intros m Hm Hmn. rewrite (Hent m Hm), decide_False; [done |].
        intros ->. apply Hmn. by left.
    + split; [| exact Fr]. eapply framed_trans; [exact F |]. eapply framed_mono; [| exact F1].
      intros l. unfold in_fats, system_area. rewrite Erl. lia.
  - intros s' H. apply HE; [by eapply halted_safe |]. destruct H as (_ & H & _). eapply framed_trans; [exact F |].
    eapply framed_mono; [| exact H]. intros l. unfold in_fats, system_area. rewrite Erl. lia.
Qed.

Lemma calm_hints_good s b s' :
  good s -> calm (set_hints (vol s) (hint (vol s)) (free_count (vol s)) b) s s' ->
  good s' /\ framed (system_area (vol s)) (dev s) (dev s') /\ frees (vol s) [] (vol s').
Proof.
  intros [OK W Co Cn] C. destruct (calm_good s _ _ _ s' OK Co (vo_hint _ OK) C) as (A1 & A2 & A3 & A4).
  destruct C as (V & _). split; [| split; [done |]].
  - constructor; try done. rewrite V. exact Cn.
  - rewrite V. constructor; [done | cbn; lia |]. intros m _. by rewrite decide_False by apply not_elem_of_nil.
Qed.

Definition file_limit (v : Volume) : Z := MAX_FILE / bytes v + 1.

Lemma file_limit_pos v : vol_ok v -> 0 < bytes v /\ 0 <= file_limit v.
Proof.
  intros OK. pose proof (vo_spc v OK). unfold file_limit, bytes, SECTOR, MAX_FILE in *. split; [lia |].
  pose proof (Z.div_pos (16 * 1024 * 1024) (spc v * 512)). lia.
Qed.

Lemma wp_free first s (Q : unit -> state -> Prop) E :
  good s ->
  (forall cs s', chain (vol s) first (file_limit (vol s)) = Ok cs -> frees (vol s) cs (vol s') -> good s' ->
     framed (system_area (vol s)) (dev s) (dev s') -> Q tt s') ->
  (forall e s', safe s' -> framed (system_area (vol s)) (dev s) (dev s') -> E e s') ->
  wp (free env first) s Q E.
Proof.
  intros G HQ HE. pose proof G as [OK W Co Cn]. unfold free. apply wp_bind, wp_get_vol, wp_bind, wp_lift.
  fold (file_limit (vol s)). destruct (file_limit_pos _ OK) as [_ Hl].
  destruct (chain_total (vol s) first (file_limit (vol s)) OK (proj1 W) Hl) as [[cs Ec] | Ec]; rewrite Ec;
    [| apply HE; [by left | apply framed_refl]].
  assert (Forall (fun c => valid (vol s) c = true /\ entry (vol s) c <> 0) cs /\ NoDup cs) as [Hcs Hnd].
  { apply chain_spec in Ec as [[_ ->] | (_ & Ch & _)]; [split; [by apply Forall_nil | by apply NoDup_nil_2] | | done | apply W | done].
    split; [| apply Ch]. apply Forall_forall. intros c Hc. split; [| by eapply chain_nonzero].
    eapply Forall_elem in Hc; [| apply Ch]. done. }
  apply wp_bind, wp_invalidate_hints; [done | done | |].
  2: { intros e s' H. destruct (hint_error_safe s s' G H). by apply HE. }
  intros s1 C1. destruct (calm_hints_good s true s1 G C1) as (G1 & F1 & Fr1).
  apply wp_bind. apply (wp_for_each _ _ (fun dn _ st => freeing s dn st)).
  - done.
  - intros s2 (G2 & F2 & Fr2). apply wp_sync_hints; [apply G2 | apply G2 | |].
    + intros s3 C3. destruct (calm_hints_good s2 false s3 G2 C3) as (G3 & F3 & Fr3).
      pose proof (retabled_fields _ _ (fr_same _ _ _ Fr2)) as (_ & Ecl & _ & Erl & _).
      apply (HQ cs s3); [done | | done |].
      * destruct Fr2 as [A1 A2 A3], Fr3 as [B1 B2 B3]. constructor; [by eapply retabled_trans | cbn in B2; lia |].
        intros m Hm. rewrite B3 by (apply valid_spec; rewrite Ecl; by apply valid_spec in Hm).
        rewrite decide_False by apply not_elem_of_nil. by apply A3.
      * eapply framed_trans; [exact F2 |]. unfold system_area in *. rewrite Erl in F3. exact F3.
    + intros e s3 H. destruct (hint_error_safe s2 s3 G2 H) as [H1 H2].
      pose proof (retabled_fields _ _ (fr_same _ _ _ Fr2)) as (_ & _ & _ & Erl & _).
      apply HE; [done |]. eapply framed_trans; [exact F2 |]. unfold system_area in *. rewrite Erl in H2. exact H2.
  - intros dn c rest st El Hst.
    assert (c ∈ cs) as Hc by (rewrite El; apply elem_of_app; right; by left).
    pose proof (Forall_elem _ _ _ Hcs Hc) as [Hv Hnz]. apply (freeing_step s); try done.
    rewrite El in Hnd. apply NoDup_app in Hnd as (_ & Hd & _). intros Hin. apply (Hd c Hin). by left.
Qed.
End Allocating.

(** * Cluster contents *)

Definition cluster_data (v : Volume) (d : BlkDevice) (c : Z) : list Z :=
  mjoin (map (fun i => sector_of (media d) (lba v c + i)) (seqZ 0 (spc v))).
Definition in_cluster (v : Volume) (c l : Z) : Prop := lba v c <= l < lba v c + spc v.
(** Only reads happened. *)
Definition read_only (s s' : state) : Prop := vol s' = vol s /\ media (dev s') = media (dev s).

Lemma read_only_refl s : read_only s s.
Proof. done. Qed.
Lemma read_only_trans s s' s'' : read_only s s' -> read_only s' s'' -> read_only s s''.
Proof. intros [A1 A2] [B1 B2]. split; congruence. Qed.
Lemma read_only_good s s' : read_only s s' -> good s -> good s'.
Proof.
  destruct s as [v d], s' as [v' d']. intros [E1 E2] [OK W Co Cn]. cbn in *. subst v'. constructor; cbn; try done.
  - destruct W as [W1 W2]. split; [done |]. cbn in *. by rewrite E2.
  - intros copy Hc i Hi. rewrite E2. by apply Co.
Qed.
Lemma cluster_data_ext v d d' c : media d' = media d -> cluster_data v d' c = cluster_data v d c.
Proof. intros E. unfold cluster_data. by rewrite E. Qed.

Lemma cluster_not_system v c l : vol_ok v -> valid v c = true -> in_cluster v c l -> ~ system_area v l.
Proof.
  intros OK Hc%valid_spec Hl. unfold in_cluster, system_area, lba in *. pose proof (vo_data v OK). pose proof (vo_spc v OK). nia.
Qed.
Lemma clusters_apart v a b l : vol_ok v -> in_cluster v a l -> in_cluster v b l -> a = b.
Proof. intros OK Ha Hb. unfold in_cluster, lba in *. pose proof (vo_spc v OK). nia. Qed.

Lemma cluster_data_framed v d d' P c :
  framed P d d' -> (forall l, in_cluster v c l -> ~ P l) -> cluster_data v d' c = cluster_data v d c.
Proof.
  intros F HP. unfold cluster_data. f_equal. apply map_ext_in. intros i Hi%list_elem_of_In. apply F, HP.
  rewrite elem_of_seqZ in Hi. unfold in_cluster. lia.
Qed.

Lemma length_cluster_data v d c : vol_ok v -> media_ok (media d) -> Z.of_nat (length (cluster_data v d c)) = bytes v.
Proof.
  intros OK Hm. unfold cluster_data. rewrite (length_join 512).
  - rewrite length_map, length_seqZ. pose proof (vo_spc v OK). unfold bytes, SECTOR. lia.
  - apply Forall_map, Forall_true. intros i. by apply sector_of_ok.
Qed.

(** ** Pieces of a buffer *)

Lemma chunks_aux_lookup {A} n (l : list A) : (0 < n)%nat -> forall fuel i, (length l <= fuel)%nat -> (i * n < length l)%nat ->
  chunks_aux fuel n l !! i = Some (take n (drop (i * n) l)).
Proof.
  intros Hn fuel. revert l. induction fuel as [| fuel IH]; intros l i Hf Hi; [lia |].
  destruct l as [| x l]; [cbn in Hi; lia |]. cbn [chunks_aux]. destruct i as [| i]; [done |].
  cbn [lookup list_lookup]. change (list_lookup i (chunks_aux fuel n (drop n (x :: l)))) with (chunks_aux fuel n (drop n (x :: l)) !! i).
  cbn [length] in *. rewrite IH by (rewrite length_drop; cbn; lia). by rewrite drop_drop.
Qed.
Lemma chunks_lookup {A} n (l : list A) i : (0 < n)%nat -> (i * n < length l)%nat -> chunks n l !! i = Some (take n (drop (i * n) l)).
Proof. intros. by apply chunks_aux_lookup. Qed.
Lemma chunks_aux_length {A} n : (0 < n)%nat -> forall k fuel (l : list A), length l = (k * n)%nat -> (length l <= fuel)%nat ->
  length (chunks_aux fuel n l) = k.
Proof.
  intros Hn. induction k as [| k IH]; intros fuel l Hl Hf.
  - destruct l; [| cbn in Hl; lia]. by destruct fuel.
  - destruct fuel as [| fuel]; [lia |]. destruct l as [| x l]; [cbn in Hl; lia |]. cbn [chunks_aux length]. f_equal.
    apply IH; rewrite length_drop; cbn [length] in *; lia.
Qed.
Lemma chunks_length {A} n k (l : list A) : (0 < n)%nat -> length l = (k * n)%nat -> length (chunks n l) = k.
Proof. intros Hn Hl. by apply chunks_aux_length. Qed.
Lemma join_chunks_aux {A} n : (0 < n)%nat -> forall fuel (l : list A), (length l <= fuel)%nat -> mjoin (chunks_aux fuel n l) = l.
Proof.
  intros Hn. induction fuel as [| fuel IH]; intros l Hl; [by destruct l; [| cbn in Hl; lia] |].
  destruct l as [| x l]; [done |]. cbn [chunks_aux].
  change (take n (x :: l) ++ mjoin (chunks_aux fuel n (drop n (x :: l))) = x :: l).
  rewrite IH by (rewrite length_drop; cbn [length] in *; lia). apply take_drop.
Qed.
Lemma join_chunks {A} n (l : list A) : (0 < n)%nat -> mjoin (chunks n l) = l.
Proof. intros Hn. by apply join_chunks_aux. Qed.

Section Clusters.
Context (env : nat -> response).

Lemma wp_collect_each {A B} (l : list A) (body : A -> V B) (val : A -> B) s (Q : list B -> state -> Prop) E :
  (forall x st, x ∈ l -> read_only s st ->
     wp (body x) st (fun b s' => b = val x /\ read_only s s') E) ->
  (forall s', read_only s s' -> Q (map val l) s') ->
  wp (collect_each l body) s Q E.
Proof.
  assert (forall l st (Q : list B -> state -> Prop), read_only s st ->
            (forall x st, x ∈ l -> read_only s st -> wp (body x) st (fun b s' => b = val x /\ read_only s s') E) ->
            (forall s', read_only s s' -> Q (map val l) s') -> wp (collect_each l body) st Q E) as H.
  { clear l Q. induction l as [| x l IH]; intros st Q R Hb HQ; cbn [collect_each]; [by apply wp_ret, HQ |].
    apply wp_bind. eapply wp_mono; [apply Hb; [by left | done] | | done].
    intros b s1 [-> R1]. apply wp_bind. apply IH; [done | |].
    - intros y sy Hy Ry. apply Hb; [by right | done].
    - intros s2 R2. apply wp_ret, HQ. done. }
  intros Hb HQ. by apply H.
Qed.

Lemma wp_read_cluster c s (Q : list Z -> state -> Prop) E :
  valid (vol s) c = true ->
  (forall s', read_only s s' -> Q (cluster_data (vol s) (dev s) c) s') ->
  (forall s', read_only s s' -> E "disk read failed" s') -> wp (read_cluster env c) s Q E.
Proof.
  intros Hc HQ HE. unfold read_cluster. apply wp_bind, wp_get_vol, wp_bind, wp_guard; [by rewrite Hc |]. intros _.
  apply wp_bind. apply (wp_collect_each _ _ (fun i => sector_of (media (dev s)) (lba (vol s) c + i))).
  - intros i st _ [R1 R2]. apply wp_read_at.
    + intros d' Hd. split; [by rewrite R2 |]. split; [done |]. cbn. congruence.
    + intros d' Hd. apply HE. split; [done |]. cbn. congruence.
  - intros s' R. by apply wp_ret, HQ.
Qed.

Lemma wp_write_cluster c data s (Q : unit -> state -> Prop) E :
  vol_ok (vol s) -> writable s -> valid (vol s) c = true -> Z.of_nat (length data) = bytes (vol s) -> Forall is_byte data ->
  (forall s', vol s' = vol s -> writable s' -> framed (in_cluster (vol s) c) (dev s) (dev s') ->
     cluster_data (vol s) (dev s') c = data -> Q tt s') ->
  (forall s', halted (in_cluster (vol s) c) s s' -> E "disk write failed" s') ->
  wp (write_cluster env c data) s Q E.
Proof.
  intros OK W Hc Hl Hb HQ HE. set (v := vol s) in *. unfold write_cluster.
  apply wp_bind, wp_get_vol, wp_bind, wp_guard.
  { fold v. rewrite Hc, Hl, Z.eqb_refl. done. }
  intros _. pose proof (vo_spc v OK) as Hspc.
  assert (length data = (Z.to_nat (spc v) * 512)%nat) as Hn by (unfold bytes, SECTOR in Hl; lia).
  pose proof (chunks_length 512 (Z.to_nat (spc v)) data ltac:(lia) Hn) as Hcl.
  apply (wp_for_each _ _ (fun dn _ st => vol st = v /\ writable st /\ framed (in_cluster v c) (dev s) (dev st)
    /\ forall i ch, (i < length dn)%nat -> chunks 512 data !! i = Some ch ->
         sector_of (media (dev st)) (lba v c + Z.of_nat i) = ch)).
  - split; [done |]. split; [done |]. split; [apply framed_refl |]. cbn. lia.
  - intros st (H1 & H2 & H3 & H4). apply HQ; [done | done | done |].
    rewrite <- (join_chunks 512 data) by lia. unfold cluster_data. f_equal. apply list_eq. intros i.
    rewrite list_lookup_fmap. destruct (chunks 512 data !! i) as [ch |] eqn:Ei.
    + assert (i < length (chunks 512 data))%nat as Hi by (by eapply lookup_lt_Some).
      rewrite lookup_seqZ_lt by lia. cbn. f_equal. rewrite Z.add_0_l. apply H4; [rewrite length_imap; lia | done].
    + apply lookup_ge_None in Ei. rewrite lookup_seqZ_ge by lia. done.
  - intros dn [ix chx] rest st El (H1 & H2 & H3 & H4).
    assert (imap pair (chunks 512 data) !! length dn = Some (ix, chx)) as Hlk by (rewrite El; by apply list_lookup_middle).
    rewrite list_lookup_imap in Hlk. apply fmap_Some in Hlk as (ch' & Hch & [= -> ->]).
    assert (length dn < Z.to_nat (spc v))%nat as Hix by (rewrite <- Hcl; by eapply lookup_lt_Some).
    assert (sector_ok ch') as Hok.
    { rewrite chunks_lookup in Hch by lia. injection Hch as <-. split; [rewrite length_take, length_drop; lia |].
      by apply Forall_take, Forall_drop. }
    apply wp_bind, wp_get_vol. rewrite H1. apply wp_write_sector; [done | done | |].
    + intros d' Hd'. split; [done |]. split; [split; [apply H2 | cbn; rewrite Hd'; apply media_ok_insert; [apply H2 | done]] |].
      split.
      * eapply framed_trans; [exact H3 |]. intros l Hl'. cbn. rewrite Hd', sector_of_insert, decide_False; [done |].
        intros ->. apply Hl'. unfold in_cluster. lia.
      * intros i ch Hi Hch'. cbn. rewrite Hd', sector_of_insert. rewrite length_app in Hi. cbn in Hi.
        destruct (decide (i = length dn)) as [-> | Hne]; [rewrite decide_True by done; congruence |].
        rewrite decide_False by lia. apply H4; [lia | done].
    + intros s' (S1 & S2 & S3). apply HE. split; [by rewrite S1 |]. split; [| done].
      eapply framed_trans; [exact H3 |]. eapply framed_mono; [| exact S2]. intros l <-. unfold in_cluster. lia.
Qed.
End Clusters.

(** * Theorems *)

(** Writing a table entry of a valid cluster never panics.  When it succeeds, that
    entry reads back as the value and every other entry is unchanged, for the packed
    12-bit, the 16-bit and the masked 32-bit layout alike; every copy of the table the
    volume maintains holds the new table, and no sector outside the tables is touched.
    The only failure is a disk write failure, after which the volume is stopped. *)
Theorem fat_set_writes_through env n value s :
  good s -> valid (vol s) n = true -> 0 <= value <= eof (vol s) ->
  match set_ env n value s with
  | (Ok _, s') =>
      (forall m, valid (vol s) m = true ->
         get_ (vol s') m = if decide (m = n) then Ok value else get_ (vol s) m)
      /\ coherent (vol s') (dev s') /\ framed (in_fats (vol s)) (dev s) (dev s')
  | (Err e, s') => e = "disk write failed" /\ halted (in_fats (vol s)) s s'
  | (Panic, _) => False
  end.
Proof.
  intros [OK W Co _] Hn Hv.
  apply (wp_set env n value s
    (fun _ s' => (forall m, valid (vol s) m = true -> get_ (vol s') m = if decide (m = n) then Ok value else get_ (vol s) m)
       /\ coherent (vol s') (dev s') /\ framed (in_fats (vol s)) (dev s) (dev s'))
    (fun e s' => e = "disk write failed" /\ halted (in_fats (vol s)) s s') OK W Co Hn Hv); [| done].
  intros s' f E [OK' He] _ Co' F. split; [| done]. intros m Hm. rewrite E.
  rewrite (get_entry (set_fat (vol s) f) m OK' Hm), (get_entry (vol s) m OK Hm), (He m Hm). by case_decide.
Qed.

(** C40. Following a chain terminates without a panic for any table, and returns exactly
    the clusters from [first] to an end mark when they are valid, do not repeat and are
    no more than the limit; every other table content is an error. *)
Theorem fat_chain_exact v first max :
  vol_ok v -> vfailed v = false -> 0 <= max ->
  (forall cs, chain v first max = Ok cs <->
     (first = 0 /\ cs = []) \/ (first <> 0 /\ chain_of v first cs /\ Z.of_nat (length cs) <= max))
  /\ ((exists cs, chain v first max = Ok cs) \/ chain v first max = Err "invalid or cyclic FAT chain").
Proof. intros OK Hf Hm. split; [intros cs; by apply chain_spec | by apply chain_total]. Qed.

(** C37. Allocation takes the first free clusters from the hint on, links them into one
    chain ending in the end mark, leaves every other entry alone and keeps the free count
    exact.  It reports a full disk exactly when too few clusters are free, and then
    nothing has changed; after any other error the volume is consistent or stopped.  Only
    the tables and the hint sectors are written. *)
Theorem fat_allocate_correct env count s :
  good s ->
  match allocate env count s with
  | (Ok cs, s') =>
      cs = first_free (vol s) count /\ length cs = count /\ takes (vol s) cs (vol s') /\ good s'
      /\ framed (system_area (vol s)) (dev s) (dev s')
  | (Err e, s') => alloc_error s count e s'
  | (Panic, _) => False
  end.
Proof.
  intros G. apply (wp_allocate env count s
    (fun cs s' => cs = first_free (vol s) count /\ length cs = count /\ takes (vol s) cs (vol s') /\ good s'
       /\ framed (system_area (vol s)) (dev s) (dev s')) (alloc_error s count) G); auto.
Qed.

(** Releasing a chain frees exactly its clusters and keeps the free count exact; an
    error leaves the volume consistent or stopped.  Only the tables and the hint sectors
    are written. *)
Theorem fat_free_correct env first s :
  good s ->
  match free env first s with
  | (Ok _, s') => exists cs, chain (vol s) first (file_limit (vol s)) = Ok cs /\ frees (vol s) cs (vol s')
      /\ good s' /\ framed (system_area (vol s)) (dev s) (dev s')
  | (Err e, s') => safe s' /\ framed (system_area (vol s)) (dev s) (dev s')
  | (Panic, _) => False
  end.
Proof.
  intros G. apply (wp_free env first s
    (fun _ s' => exists cs, chain (vol s) first (file_limit (vol s)) = Ok cs /\ frees (vol s) cs (vol s')
      /\ good s' /\ framed (system_area (vol s)) (dev s) (dev s'))
    (fun e s' => safe s' /\ framed (system_area (vol s)) (dev s) (dev s')) G); eauto 10.
Qed.

(** ** An empty FAT12 volume of 96 clusters *)

Definition demo_env (n : nat) : response := Completed 0 true.
Definition demo_vol : Volume :=
  mkVolume Fat12 1 1 2 0 true 4 1 96 3 16 0 (replicate 512 0) 2 None None false 96 false.
Definition demo_state : state := mkState demo_vol (mkBlk 100 false ∅ 0).

Lemma demo_good : good demo_state.
Proof.
  constructor.
  - constructor; cbn [demo_state demo_vol vol kind clusters fat fat_sectors spc fats active hint fsinfo backup_fsinfo root_lba
      fat_lba data_lba root_entries]; rewrite ?length_replicate; try (unfold SECTOR; lia).
    + done.
    + apply Forall_replicate. unfold is_byte. lia.
    + by intros l [? | ?].
  - split; [done |]. apply map_Forall_empty.
  - intros copy _ i Hi. cbn [demo_state demo_vol vol fat_sectors] in Hi. assert (i = 0) as -> by lia. reflexivity.
  - vm_compute. reflexivity.
Qed.

Lemma fat_set_writes_through_witness :
  match set_ demo_env 3 5 demo_state with
  | (Ok _, s') => get_ (vol s') 3 = Ok 5 /\ get_ (vol s') 2 = Ok 0 /\ coherent (vol s') (dev s')
  | _ => False
  end.
Proof.
  pose proof (fat_set_writes_through demo_env 3 5 demo_state demo_good eq_refl ltac:(vm_compute; split; discriminate)) as H.
  assert (exists s', set_ demo_env 3 5 demo_state = (Ok tt, s')) as [s' E] by (eexists; vm_compute; reflexivity).
  rewrite E in *. destruct H as (H1 & H2 & _). split; [exact (H1 3 eq_refl) |]. split; [| exact H2].
  rewrite (H1 2 eq_refl). vm_compute. reflexivity.
Defined.

Lemma fat_chain_exact_witness : chain demo_vol 2 5 = Err "invalid or cyclic FAT chain".
Proof.
  destruct (fat_chain_exact demo_vol 2 5 (gd_vol _ demo_good) eq_refl ltac:(lia)) as [_ [[cs H] | H]]; [| exact H].
  exfalso. assert (chain demo_vol 2 5 = Err "invalid or cyclic FAT chain") as E by (vm_compute; reflexivity). congruence.
Defined.

Lemma fat_allocate_correct_witness :
  match allocate demo_env 3 demo_state with
  | (Ok cs, s') => cs = [2; 3; 4] /\ takes demo_vol cs (vol s')
  | _ => False
  end.
Proof.
  pose proof (fat_allocate_correct demo_env 3 demo_state demo_good) as H.
  assert (exists s', allocate demo_env 3 demo_state = (Ok [2; 3; 4], s')) as [s' E] by (eexists; vm_compute; reflexivity).
  rewrite E in *. destruct H as (_ & _ & H & _). split; [reflexivity | exact H].
Defined.

Lemma fat_free_correct_witness :
  match free demo_env 0 demo_state with (Ok _, s') => frees demo_vol [] (vol s') | _ => False end.
Proof.
  pose proof (fat_free_correct demo_env 0 demo_state demo_good) as H.
  assert (exists s', free demo_env 0 demo_state = (Ok tt, s')) as [s' E] by (eexists; vm_compute; reflexivity).
  rewrite E in *. destruct H as (cs & Hc & H & _).
  assert (chain (vol demo_state) 0 (file_limit (vol demo_state)) = Ok []) as Hc' by reflexivity.
  assert (cs = []) as -> by congruence. exact H.
Defined.
End FatTable.
