(* ===== verification/Fat.v ===== *)
(** The FAT filesystem (src/fs/fat.rs): directories, files, volume discovery (superfloppy,
    MBR, GPT) and the operations the kernel calls.

    The operations run in the monad of [FatTable]; probing runs on the device alone.  The
    kernel-facing functions work on the optional mounted volume. *)

From Stdlib Require Import ZArith Lia.
From stdpp Require Import base list list_numbers numbers decidable tactics strings gmap.
From S2P Require Import Prelude BlockDev FatNames FatTable.
Import Blk FatNames FatTable.

Module Fat.

(** CRC-32 as the partition table uses it. *)
Fixpoint crc_bits (n : nat) (crc : Z) : Z :=
  match n with
  | O => crc
  | S n' => crc_bits n' (Z.lxor (Z.shiftr crc 1) (Z.land 0xedb88320 (wrapping_sub 32 0 (Z.land crc 1))))
  end.
Definition crc32 (bs : list Z) : Z :=
  unot 32 (foldl (fun crc b => crc_bits 8 (Z.lxor crc b)) (unot 32 0) bs).

Section Fat.
Context (env : nat -> response) (to_uppercase to_lowercase : Z -> str).

#[local] Abbreviation alias := (alias to_lowercase).
#[local] Abbreviation records := (records to_lowercase).
#[local] Abbreviation same := (same to_uppercase).
#[local] Abbreviation entry_set := (entry_set to_lowercase).

(** * Directories *)

Definition fixed_root (v : Volume) (d : Dir) : bool := d_root d && negb (bool_decide (kind v = Fat32)).

Definition load_dir (d : Dir) : V (list Z * list Z) :=
  v ← get_vol;
  _ ← lift (check v);
  if fixed_root v d then
    bs ← collect_each (seqZ 0 ((root_entries v * 32 + SECTOR - 1) / SECTOR))
           (fun i => read_at env "directory read failed" (root_lba v + i));
    mret ([], take (Z.to_nat (root_entries v * 32)) (mjoin bs))
  else
    cs ← lift (chain v (d_cluster d) (MAX_METADATA / bytes v));
    _ ← guard (bool_decide (cs = [])) "directory has no cluster";
    bs ← collect_each cs (read_cluster env);
    mret (cs, mjoin bs).

(** One sector of a directory back to disk. *)
Definition store_sector (d : Dir) (cs : list Z) (data : list Z) (index : Z) : V unit :=
  v ← get_vol;
  let begin := index * SECTOR in
  let take_ := Z.min SECTOR (Z.of_nat (length data) - begin) in
  old ← (if take_ <? SECTOR then sector env (root_lba v + index) else mret zero_sector);
  let bs := splice old 0 (take (Z.to_nat take_) (drop (Z.to_nat begin) data)) in
  l ← (if fixed_root v d then mret (root_lba v + index)
       else c ← lift (unwrap (cs !! Z.to_nat (begin / bytes v)));
            mret (lba v c + begin mod bytes v / SECTOR));
  write_sector env l bs.
Definition store_dir (d : Dir) (cs : list Z) (data : list Z) (start len : Z) : V unit :=
  _ ← guard (Z.of_nat (length data) <? start + len) "invalid directory update";
  for_each (seqZ (start / SECTOR) ((start + len + SECTOR - 1) / SECTOR - start / SECTOR))
    (store_sector d cs data).

Definition matches (part : str) (r : Record_) : bool := same (r_name r) part || same (r_alias r) part.

Fixpoint lookup_in (d : Dir) (parts : list str) : V (Dir * Record_) :=
  match parts with
  | [] => fail "cannot operate on the root directory"
  | part :: rest =>
      '(_, data) ← load_dir d;
      v ← get_vol;
      r ← lift (ok_or (List.find (matches part) (records data (kind v))) "file not found");
      if bool_decide (rest = []) then mret (d, r)
      else
        _ ← guard (negb (is_dir r)) "not a directory";
        lookup_in (mkDir (r_cluster r) false) rest
  end.
Definition lookup (path : str) : V (Dir * Record_) :=
  v ← get_vol; lookup_in (root v) (components path).

Definition directory (path : str) : V Dir :=
  if bool_decide (components path = []) then v ← get_vol; mret (root v)
  else
    '(_, r) ← lookup path;
    _ ← guard (negb (is_dir r)) "not a directory";
    mret (mkDir (r_cluster r) false).

Fixpoint walk (d : Dir) (parts : list str) : V Dir :=
  match parts with
  | [] => mret d
  | part :: rest =>
      '(_, data) ← load_dir d;
      v ← get_vol;
      r ← lift (ok_or (List.find (matches part) (records data (kind v))) "no such directory");
      _ ← guard (negb (is_dir r)) "not a directory";
      walk (mkDir (r_cluster r) false) rest
  end.
Definition parent (path : str) : V (Dir * str) :=
  let parts := components path in
  name ← lift (ok_or (last parts) "missing file name");
  v ← get_vol;
  d ← walk (root v) (take (length parts - 1) parts);
  mret (d, name).

(** * File contents *)

Fixpoint read_clusters (size : Z) (cs : list Z) (data : list Z) : V (list Z) :=
  match cs with
  | [] => mret data
  | c :: rest =>
      chunk ← read_cluster env c;
      let take_ := Z.min (Z.of_nat (length chunk)) (size - Z.of_nat (length data)) in
      read_clusters size rest (data ++ take (Z.to_nat take_) chunk)
  end.
Definition data (r : Record_) : V (list Z) :=
  _ ← guard (is_dir r) "is a directory";
  _ ← guard (MAX_FILE <? r_size r) "file exceeds 16 MiB driver limit";
  v ← get_vol;
  let needed := (r_size r + bytes v - 1) / bytes v in
  cs ← lift (chain v (r_cluster r) (MAX_FILE / bytes v + 1));
  _ ← guard (Z.of_nat (length cs) <? needed) "file chain shorter than file size";
  read_clusters (r_size r) (take (Z.to_nat needed) cs) [].

(** The piece of the data that goes to the [index]-th cluster, zero padded. *)
Definition cluster_piece (v : Volume) (d : list Z) (index : nat) : list Z :=
  let start := (Z.to_nat (bytes v) * index)%nat in
  let piece := take (Z.to_nat (bytes v)) (drop start d) in
  piece ++ replicate (Z.to_nat (bytes v) - length piece) 0.
Definition write_data (d : list Z) : V Z :=
  _ ← guard (MAX_FILE <? Z.of_nat (length d)) "file exceeds 16 MiB driver limit";
  v ← get_vol;
  cs ← allocate env (Z.to_nat ((Z.of_nat (length d) + bytes v - 1) / bytes v));
  _ ← for_each (imap pair cs) (fun '(index, cluster) =>
        v ← get_vol; write_cluster env cluster (cluster_piece v d index));
  mret (default 0 (head cs)).

(** * Directory updates *)

(** The loop of [insert] that grows the directory until the entries fit; each turn
    adds a cluster of at least a sector, so [fuel] (a sector more than the largest
    directory) is never used up. *)
Fixpoint find_room (fuel : nat) (d : Dir) (needed : Z) (cs data : list Z) : V (list Z * list Z * Z) :=
  match fuel with
  | O => lift Panic
  | S fuel' =>
      match free_slots data needed with
      | Some start => mret (cs, data, start)
      | None =>
          v ← get_vol;
          _ ← guard (fixed_root v d) "FAT12/16 root directory full";
          _ ← guard (MAX_METADATA <? Z.of_nat (length data) + bytes v) "directory too large";
          new ← allocate env 1;
          new ← lift (unwrap (head new));
          _ ← write_cluster env new (replicate (Z.to_nat (bytes v)) 0);
          tail ← lift (ok_or (last cs) "empty directory chain");
          _ ← set_ env tail new;
          find_room fuel' d needed (cs ++ [new]) (data ++ replicate (Z.to_nat (bytes v)) 0)
      end
  end.
Definition room_fuel : nat := Z.to_nat (MAX_METADATA / SECTOR + 1).

Definition insert (d : Dir) (name : str) (first size attr : Z) : V unit :=
  _ ← lift (validate_name name);
  '(cs, data) ← load_dir d;
  v ← get_vol;
  let existing := records data (kind v) in
  _ ← guard (existsb (matches name) existing) "already exists";
  short ← lift (short_name name existing);
  let entries := entry_set name short first size attr (kind v) in
  let n := length entries in
  '(cs, data, start) ← find_room room_fuel d (Z.of_nat n / 32) cs data;
  let start := Z.to_nat start in
  let end_ := (start + n)%nat in
  let consumed_end := existsb (fun e => byte e 0 =? 0) (chunks_exact 32 (take n (drop start data))) in
  data ← (if consumed_end && (end_ <? length data)%nat then
            let data := <[end_ := 0]> data in
            _ ← store_dir d cs data (Z.of_nat end_) 32; mret data
          else mret data);
  data ← (if (32 <? n)%nat then
            let data := splice data start (take (n - 32) entries) in
            _ ← store_dir d cs data (Z.of_nat start) (Z.of_nat n - 32); mret data
          else mret data);
  let data := splice data (start + n - 32) (drop (n - 32) entries) in
  store_dir d cs data (Z.of_nat (start + n - 32)) 32.

Definition update (d : Dir) (r : Record_) (first size : Z) : V unit :=
  '(cs, data) ← load_dir d;
  let o := Z.to_nat (r_offset r) in
  e ← lift (unwrap (if (o + 32 <=? length data)%nat then Some (take 32 (drop o data)) else None));
  _ ← guard (negb (bool_decide (take 11 e = r_short r))) "stale directory entry";
  v ← get_vol;
  let e := splice (put_cluster e first (kind v)) 28 (to_le_bytes 4 size) in
  store_dir d cs (splice data o e) (r_offset r) 32.

(** * Discovery *)

Definition D := M BlkDevice.
Definition dsector (l : Z) : D (list Z) :=
  r ← dev_read env l;
  match r with Some b => mret b | None => fail "disk read failed" end.
Definition dread (e : string) (l : Z) : D (list Z) :=
  r ← dev_read env l;
  match r with Some b => mret b | None => fail e end.

Fixpoint count_free (v : Volume) (n : nat) (cluster : Z) (acc : Z) : outcome string Z :=
  match n with
  | O => Ok acc
  | S n' => g ← get_ v cluster; count_free v n' (cluster + 1) (if g =? 0 then acc + 1 else acc)
  end.

(** The FAT32-only fields of the boot sector. *)
Record ext32 := mkExt32 { x_root : Z; x_active : Z; x_mirrored : bool; x_info : option Z; x_backup : option Z }.
Definition read_ext (b : list Z) (start clusters fats reserved roots : Z) (kind : Kind) : outcome string ext32 :=
  if decide (kind = Fat32) then
    _ ← guard_err (negb (roots =? 0) || negb (le16 b 22 =? 0) || negb (le16 b 42 =? 0)) "invalid FAT32 BPB";
    let root := Z.land (le32 b 44) 0x0fffffff in
    let flags := le16 b 40 in
    let mirrored := Z.land flags 0x80 =? 0 in
    let active := if mirrored then 0 else Z.land flags 0xf in
    _ ← guard_err ((root <? 2) || (clusters + 2 <=? root) || (fats <=? active))
          "invalid FAT32 root or active FAT";
    let info := le16 b 48 in
    let backup := le16 b 50 in
    let fsinfo := if negb (info =? 0) && (info <? reserved) then Some (start + info) else None in
    let backup_fsinfo :=
      if bool_decide (is_Some fsinfo) && (0 <? backup) && (backup + info <? reserved)
      then Some (start + (backup + info)) else None in
    Ok (mkExt32 root active mirrored fsinfo backup_fsinfo)
  else
    _ ← guard_err ((roots =? 0) || (le16 b 22 =? 0)) "invalid FAT12/16 BPB";
    Ok (mkExt32 0 0 true None None).

Definition kind_of (clusters : Z) : Kind :=
  if clusters <? 4085 then Fat12 else if clusters <? 65525 then Fat16 else Fat32.
Definition table_bytes (kind : Kind) (clusters : Z) : Z :=
  match kind with
  | Fat12 => ((clusters + 2) * 3 + 1) / 2
  | Fat16 => (clusters + 2) * 2
  | Fat32 => (clusters + 2) * 4
  end.

Definition probe (start length_ : Z) : D Volume :=
  b ← dsector start;
  _ ← guard (negb ((byte b 510 =? 0x55) && (byte b 511 =? 0xaa))
             || negb ((byte b 0 =? 0xeb) || (byte b 0 =? 0xe9)) || negb (le16 b 11 =? 512)
             || bool_decide (take 8 (drop 3 b) = lit "EXFAT   ")) "not a supported FAT boot sector";
  let spc := byte b 13 in
  let reserved := le16 b 14 in
  let fats := byte b 16 in
  let roots := le16 b 17 in
  let total := if negb (le16 b 19 =? 0) then le16 b 19 else le32 b 32 in
  let fat_sectors := if negb (le16 b 22 =? 0) then le16 b 22 else le32 b 36 in
  _ ← guard ((spc =? 0) || negb (is_power_of_two spc) || (128 <? spc) || (reserved =? 0)
             || negb ((1 <=? fats) && (fats <=? 2)) || (fat_sectors =? 0) || (length_ <? total))
        "invalid FAT geometry";
  let root_sectors := (roots * 32 + 511) / 512 in
  let overhead := reserved + fats * fat_sectors + root_sectors in
  _ ← guard (total <=? overhead) "invalid FAT data region";
  let clusters := (total - overhead) / spc in
  let kind := kind_of clusters in
  _ ← guard ((clusters =? 0) || (0x0fffffee <? clusters)) "invalid FAT cluster count";
  let fat_bytes := fat_sectors * 512 in
  _ ← guard ((fat_bytes <? table_bytes kind clusters) || (MAX_METADATA <? fat_bytes))
        "unsupported FAT table size";
  x ← lift (read_ext b start clusters fats reserved roots kind);
  let fat_lba := start + reserved in
  bs ← collect_each (seqZ 0 fat_sectors)
         (fun index => dread "FAT read failed" (fat_lba + x_active x * fat_sectors + index));
  let root_lba := fat_lba + fats * fat_sectors in
  let v := mkVolume kind fat_lba fat_sectors fats (x_active x) (x_mirrored x) (root_lba + root_sectors)
             spc clusters root_lba roots (x_root x) (mjoin bs) 2 (x_info x) (x_backup x) false 0 false in
  n ← lift (count_free v (Z.to_nat clusters) 2 0);
  mret (set_hints v 2 n false).

(** The first partition that probes as FAT. *)
Fixpoint try_partitions (check : list Z -> outcome string (option (Z * Z))) (ps : list (list Z)) : D Volume :=
  match ps with
  | [] => fail "no supported FAT volume found"
  | p :: rest =>
      o ← lift (check p);
      match o with
      | None => try_partitions check rest
      | Some (first, len) =>
          r ← catch (probe first len);
          match r with inl v => mret v | inr _ => try_partitions check rest end
      end
  end.
Definition gpt_partition (first_usable last_usable : Z) (p : list Z) : outcome string (option (Z * Z)) :=
  if forallb (Z.eqb 0) (take 16 p) then Ok None
  else
    let first := le64 p 32 in
    let last := le64 p 40 in
    _ ← guard_err ((first <? first_usable) || (last_usable <? last) || (last <? first))
          "invalid GPT partition bounds";
    Ok (Some (first, last - first + 1)).
Definition mbr_partition (capacity : Z) (p : list Z) : outcome string (option (Z * Z)) :=
  if byte p 4 =? 0 then Ok None
  else
    let first := le32 p 8 in
    let len := le32 p 12 in
    if (first =? 0) || (capacity <=? first) || (capacity - first <? len) then Ok None
    else Ok (Some (first, len)).

Definition gpt (capacity : Z) : D Volume :=
  header ← dsector 1;
  let header_len := le32 header 12 in
  _ ← guard (negb (bool_decide (take 8 header = lit "EFI PART"))
             || negb ((92 <=? header_len) && (header_len <=? 512)) || negb (le64 header 24 =? 1))
        "invalid GPT header";
  let expected := le32 header 16 in
  let header := splice header 16 (replicate 4 0) in
  _ ← guard (negb (crc32 (take (Z.to_nat header_len) header) =? expected)) "GPT header checksum mismatch";
  let first_usable := le64 header 40 in
  let last_usable := le64 header 48 in
  let table_lba := le64 header 72 in
  let count := le32 header 80 in
  let size := le32 header 84 in
  _ ← guard ((count =? 0) || (256 <? count) || negb ((128 <=? size) && (size <=? 4096))
             || negb (size mod 8 =? 0) || (table_lba <? 2) || (capacity <=? table_lba)
             || (last_usable <? first_usable) || (capacity <=? last_usable)) "unsupported GPT layout";
  let nbytes := count * size in
  let sectors := (nbytes + 511) / 512 in
  _ ← guard ((capacity - table_lba <? sectors) || (first_usable <? table_lba + sectors))
        "invalid GPT table bounds";
  bs ← collect_each (seqZ 0 sectors) (fun i => dread "GPT read failed" (table_lba + i));
  let table := take (Z.to_nat nbytes) (mjoin bs) in
  _ ← guard (negb (crc32 table =? le32 header 88)) "GPT partition checksum mismatch";
  try_partitions (gpt_partition first_usable last_usable) (chunks_exact (Z.to_nat size) table).

Definition discover : D Volume :=
  d ← Blk.get;
  let capacity := capacity_sectors d in
  _ ← guard (capacity =? 0) "no block device";
  r ← catch (probe 0 capacity);
  match r with
  | inl v => mret v
  | inr _ =>
      mbr ← dsector 0;
      _ ← guard (negb ((byte mbr 510 =? 0x55) && (byte mbr 511 =? 0xaa))) "no FAT filesystem";
      let parts := chunks_exact 16 (take 64 (drop 446 mbr)) in
      if existsb (fun p => byte p 4 =? 0xee) parts then gpt capacity
      else try_partitions (mbr_partition capacity) parts
  end.

(** * Operations on the mounted volume *)

(** [VOLUME] and the device. *)
Record fs := mkFs { volume : option Volume; device : BlkDevice }.
Definition F := M fs.

Definition mount : F bool := fun f =>
  match discover (device f) with
  | (Ok v, d) => (Ok true, mkFs (Some v) d)
  | (Err _, d) => (Ok false, mkFs None d)
  | (Panic, d) => (Panic, mkFs None d)
  end.
Definition mounted (f : fs) : bool := bool_decide (is_Some (volume f)).

(** Run on the mounted volume; [none] is the result without one. *)
Definition with_volume {A} (none : outcome string A) (m : V A) : F A := fun f =>
  match volume f with
  | None => (none, f)
  | Some v => let '(r, s) := m (mkState v (device f)) in (r, mkFs (Some (vol s)) (dev s))
  end.
(** [.ok()] at the end of a reading operation. *)
Definition ok {A} (m : F A) : F (option A) := fun f =>
  match m f with
  | (Ok a, f') => (Ok (Some a), f')
  | (Err _, f') => (Ok None, f')
  | (Panic, f') => (Panic, f')
  end.
Definition not_mounted {A} : outcome string A := Err "not mounted".

Definition read_dir (path : str) : F (option (list (str * bool * Z))) :=
  ok (with_volume not_mounted (
    d ← directory path;
    '(_, data) ← load_dir d;
    v ← get_vol;
    mret (map (fun r => (r_name r, is_dir r, r_size r)) (records data (kind v))))).
Definition read_file (path : str) : F (option (list Z)) :=
  ok (with_volume not_mounted ('(_, r) ← lookup path; data r)).
Definition metadata (path : str) : F (option (bool * Z)) :=
  ok (with_volume not_mounted (
    v ← get_vol; _ ← lift (check v); '(_, r) ← lookup path; mret (is_dir r, r_size r))).
Definition directory_id (path : str) : F (option Z) :=
  ok (with_volume not_mounted (
    v ← get_vol; _ ← lift (check v); d ← directory path; mret (d_cluster d))).

(** Undo an allocation when linking it failed without a disk failure; the error stays. *)
Definition or_free (m : V unit) (first : Z) : V unit :=
  r ← catch m;
  match r with
  | inl _ => mret tt
  | inr e =>
      v ← get_vol;
      _ ← (if vfailed v then mret (inl tt) else catch (free env first));
      fail e
  end.

Definition create (path : str) (d : list Z) : V unit :=
  v ← get_vol;
  _ ← lift (check v);
  '(p, name) ← parent path;
  _ ← lift (validate_name name);
  '(_, dir) ← load_dir p;
  _ ← guard (existsb (matches name) (records dir (kind v))) "already exists";
  first ← write_data d;
  or_free (insert p name first (Z.of_nat (length d)) 0x20) first.
Definition create_file (path : str) (d : list Z) : F unit := with_volume not_mounted (create path d).

Definition overwrite (path : str) (d : list Z) : V unit :=
  v ← get_vol;
  _ ← lift (check v);
  '(p, name) ← parent path;
  _ ← lift (validate_name name);
  '(_, dir) ← load_dir p;
  match List.find (matches name) (records dir (kind v)) with
  | None => create path d
  | Some r =>
      _ ← guard (is_dir r) "is a directory";
      _ ← guard (negb (Z.land (r_attr r) 1 =? 0)) "file is read-only";
      first ← write_data d;
      _ ← or_free (update p r first (Z.of_nat (length d))) first;
      free env (r_cluster r)
  end.
Definition write_file (path : str) (d : list Z) : F unit := with_volume not_mounted (overwrite path d).

Definition append_file (path : str) (d : list Z) : F unit := with_volume not_mounted (
  '(p, name) ← parent path;
  '(_, dir) ← load_dir p;
  v ← get_vol;
  match List.find (matches name) (records dir (kind v)) with
  | None => create path d
  | Some r =>
      old ← data r;
      _ ← guard (MAX_FILE <? Z.of_nat (length old) + Z.of_nat (length d)) "file exceeds 16 MiB driver limit";
      overwrite path (old ++ d)
  end).

Definition mkdir (path : str) : F unit := with_volume not_mounted (
  v ← get_vol;
  _ ← lift (check v);
  '(p, name) ← parent path;
  _ ← lift (validate_name name);
  '(_, dir) ← load_dir p;
  _ ← guard (existsb (matches name) (records dir (kind v))) "already exists";
  cs ← allocate env 1;
  cluster ← lift (unwrap (head cs));
  let dot := entry_set (lit ".") (lit ".          ") cluster 0 0x10 (kind v) in
  let dotdot := entry_set (lit "..") (lit "..         ") (if d_root p then 0 else d_cluster p) 0 0x10 (kind v) in
  let d := splice (splice (replicate (Z.to_nat (bytes v)) 0) 0 (drop (length dot - 32) dot))
             32 (drop (length dotdot - 32) dotdot) in
  _ ← write_cluster env cluster d;
  or_free (insert p name cluster 0 0x10) cluster).

Definition delete (path : str) : F unit := with_volume not_mounted (
  v ← get_vol;
  _ ← lift (check v);
  '(p, r) ← lookup path;
  _ ← guard (negb (Z.land (r_attr r) 1 =? 0)) "file is read-only";
  _ ← (if is_dir r then
         '(_, d) ← load_dir (mkDir (r_cluster r) false);
         guard (negb (bool_decide (records d (kind v) = []))) "directory not empty"
       else mret tt);
  _ ← lift (chain v (r_cluster r) (MAX_FILE / bytes v + 1));
  '(cs, dir) ← load_dir p;
  let offsets := map (fun k => Z.to_nat (r_start r) + 32 * k)%nat
                   (seq 0 (Z.to_nat ((r_offset r - r_start r) / 32) + 1)) in
  dir ← lift (unwrap (if (Z.to_nat (r_offset r) <? length dir)%nat
                      then Some (foldl (fun d o => <[o := 0xe5]> d) dir offsets) else None));
  _ ← store_dir p cs dir (r_start r) (r_offset r + 32 - r_start r);
  free env (r_cluster r)).
End Fat.
End Fat.
