(* ===== verification/FatFile.v ===== *)
(** File contents on a FAT volume (src/fs/fat.rs): what [write_data] stores, [data]
    reads back, and files that exist are not disturbed. *)

From Stdlib Require Import ZArith Lia.
From stdpp Require Import base list list_numbers numbers decidable tactics strings gmap.
From S2P Require Import Prelude BlockDev FatNames FatTable Fat.
Import Blk FatNames FatTable Fat.

Module FatFile.

(** * Chains that were just linked *)

Lemma succ_skip a b e m : m ∉ a -> b <> [] -> succ (a ++ b) e m = succ b e m.
Proof.
  intros Hm Hb. induction a as [| x a IH]; [done |]. apply not_elem_of_cons in Hm as [Hx Hm].
  cbn [app succ]. rewrite decide_False by done. by apply IH.
Qed.

Lemma linked_path v cs :
  NoDup cs -> cs <> [] -> (forall m, m ∈ cs -> entry v m = succ cs (eof v) m) -> path v cs.
Proof.
  intros Hn Hne He.
  assert (forall b a, cs = a ++ b -> b <> [] -> path v b) as H; [| by apply (H cs [])].
  induction b as [| c b IH]; intros a Ecs Hb; [done |].
  assert (c ∉ a) as Hca.
  { rewrite Ecs in Hn. apply NoDup_app in Hn as (_ & Hd & _). intros Hin. apply (Hd c Hin). by left. }
  assert (entry v c = match b with n :: _ => n | [] => eof v end) as Hc.
  { rewrite He by (rewrite Ecs; apply elem_of_app; right; by left). rewrite Ecs, succ_skip by done.
    cbn [succ]. by rewrite decide_True. }
  destruct b as [| d b].
  - cbn. rewrite Hc. unfold is_eof. apply Z.leb_le. lia.
  - apply path_cons. split; [done |]. apply (IH (a ++ [c])); [by rewrite <- app_assoc | done].
Qed.

Lemma takes_chain v cs v' :
  vol_ok v -> vol_ok v' -> NoDup cs -> Forall (fun c => valid v c = true) cs -> takes v cs v' -> cs <> [] ->
  exists first, head cs = Some first /\ chain_of v' first cs.
Proof.
  intros OK OK' Hn Hv [Hr _ He] Hne. pose proof (retabled_fields _ _ Hr) as (Ek & Ec & _).
  destruct cs as [| first cs]; [done |]. exists first. split; [done |]. constructor; [done | | done |].
  - apply linked_path; [done | done |]. intros m Hm.
    rewrite He by (by eapply Forall_elem in Hm; [| exact Hv]). rewrite decide_True by done. unfold eof. by rewrite Ek.
  - eapply Forall_impl; [exact Hv |]. intros c. rewrite !valid_spec, Ec. done.
Qed.

(** * Pieces *)

Lemma cluster_piece_length v d i : 0 < bytes v -> Z.of_nat (length (cluster_piece v d i)) = bytes v.
Proof. intros Hb. unfold cluster_piece. rewrite length_app, length_replicate, length_take, length_drop. lia. Qed.
Lemma cluster_piece_bytes v d i : Forall is_byte d -> Forall is_byte (cluster_piece v d i).
Proof.
  intros Hd. unfold cluster_piece. apply Forall_app. split; [by apply Forall_take, Forall_drop |].
  apply Forall_replicate. unfold is_byte. lia.
Qed.
Lemma cluster_piece_geom v v' d i : spc v' = spc v -> cluster_piece v' d i = cluster_piece v d i.
Proof. intros E. unfold cluster_piece, bytes. by rewrite E. Qed.

(** The clusters [cs] of [s] hold [d], zero padded. *)
Definition holds (s : state) (cs : list Z) (d : list Z) : Prop :=
  forall i c, cs !! i = Some c -> cluster_data (vol s) (dev s) c = cluster_piece (vol s) d i.

Section Files.
Context (env : nat -> response).

(** Writing to a data cluster keeps the volume good. *)
Lemma good_write s s' c :
  good s -> valid (vol s) c = true -> vol s' = vol s -> writable s' ->
  framed (in_cluster (vol s) c) (dev s) (dev s') -> good s'.
Proof.
  intros [OK W Co Cn] Hc Hv W' F. constructor; rewrite ?Hv; try done.
  eapply coherent_framed; [done | done | exact F |]. intros l Hl Hin.
  apply (cluster_not_system (vol s) c l OK Hc Hin). by apply system_fats.
Qed.

Definition in_clusters (v : Volume) (cs : list Z) (l : Z) : Prop := exists c, c ∈ cs /\ in_cluster v c l.

Lemma wp_write_pieces cs d s (Q : unit -> state -> Prop) E :
  good s -> NoDup cs -> Forall (fun c => valid (vol s) c = true) cs -> Forall is_byte d ->
  (forall s', vol s' = vol s -> good s' -> framed (in_clusters (vol s) cs) (dev s) (dev s') -> holds s' cs d -> Q tt s') ->
  (forall s', halted (in_clusters (vol s) cs) s s' -> E "disk write failed" s') ->
  wp (for_each (imap pair cs) (fun '(index, cluster) =>
        v ← get_vol; write_cluster env cluster (cluster_piece v d index))) s Q E.
Proof.
  intros G Hn Hv Hd HQ HE. set (v := vol s) in *.
  apply (wp_for_each _ _ (fun dn _ st => vol st = v /\ good st /\ framed (in_clusters v cs) (dev s) (dev st)
    /\ forall i c, (i < length dn)%nat -> cs !! i = Some c -> cluster_data v (dev st) c = cluster_piece v d i)).
  - split; [done |]. split; [done |]. split; [apply framed_refl | cbn; lia].
  - intros st (H1 & H2 & H3 & H4). apply HQ; try done. intros i c Hi. rewrite H1. apply H4; [| done].
    rewrite length_imap. by eapply lookup_lt_Some.
  - intros dn [ix c] rest st El (H1 & H2 & H3 & H4).
    assert (imap pair cs !! length dn = Some (ix, c)) as Hlk by (rewrite El; by apply list_lookup_middle).
    rewrite list_lookup_imap in Hlk. apply fmap_Some in Hlk as (c' & Hc & [= -> ->]).
    assert (c' ∈ cs) as Hin by (by eapply list_elem_of_lookup_2).
    assert (valid v c' = true) as Hvc by (by eapply Forall_elem in Hin; [| exact Hv]).
    pose proof (gd_vol _ H2) as OK. rewrite H1 in OK. destruct (file_limit_pos v OK) as [Hb _].
    apply wp_bind, wp_get_vol. rewrite H1.
    apply wp_write_cluster; rewrite ?H1; try done; [apply H2 | by apply cluster_piece_length | by apply cluster_piece_bytes | |].
    + intros s' V' W' F' D'.
      assert (forall l, in_cluster v c' l -> in_clusters v cs l) as Hsub by (intros l Hl; by exists c').
      split; [congruence |]. split; [eapply (good_write st s' c'); rewrite ?H1; done |].
      split; [eapply framed_trans; [exact H3 |]; by eapply framed_mono |].
      intros i x Hi Hx. rewrite length_app in Hi. cbn in Hi. destruct (decide (i = length dn)) as [-> | Hne].
      * assert (x = c') as -> by congruence. done.
      * rewrite <- (H4 i x) by (lia || done). eapply cluster_data_framed; [exact F' |].
        intros l Hl Hl'. pose proof (clusters_apart v x c' l OK Hl Hl') as ->.
        apply Hne. by eapply NoDup_lookup.
    + intros s' (A1 & A2 & A3). apply HE. split; [done |]. split; [| done]. eapply framed_trans; [exact H3 |].
      eapply framed_mono; [| exact A2]. intros l Hl. by exists c'.
Qed.
(** * Writing a file *)

(** Clusters in use before the write: content and table entry are kept. *)
Definition kept (s s' : state) : Prop := forall c, valid (vol s) c = true -> entry (vol s) c <> 0 ->
  cluster_data (vol s) (dev s') c = cluster_data (vol s) (dev s) c.
Definition fresh_area (v : Volume) (cs : list Z) (l : Z) : Prop := system_area v l \/ in_clusters v cs l.

Lemma fresh_kept s s' cs :
  vol_ok (vol s) -> (forall c, c ∈ cs -> entry (vol s) c = 0) ->
  framed (fresh_area (vol s) cs) (dev s) (dev s') -> kept s s'.
Proof.
  intros OK Hcs F c Hc Hne. eapply cluster_data_framed; [exact F |]. intros l Hl [Hs | (x & Hx & Hxl)].
  - by eapply cluster_not_system.
  - pose proof (clusters_apart _ _ _ _ OK Hl Hxl) as ->. by apply Hne, Hcs.
Qed.

(** What a successful [write_data] of [d] leaves: a new chain that holds it. *)
Record stored (s : state) (d : list Z) (first : Z) (cs : list Z) (s' : state) : Prop := {
  st_good : good s';
  st_count : Z.of_nat (length cs) = (Z.of_nat (length d) + bytes (vol s) - 1) / bytes (vol s);
  st_takes : takes (vol s) cs (vol s');
  st_fresh : forall c, c ∈ cs -> valid (vol s) c = true /\ entry (vol s) c = 0;
  st_chain : match cs with [] => first = 0 | _ => chain_of (vol s') first cs end;
  st_holds : holds s' cs d;
  st_frame : framed (fresh_area (vol s) cs) (dev s) (dev s') }.

Lemma first_free_fresh v count : vol_ok v -> forall c, c ∈ first_free v count -> valid v c = true /\ entry v c = 0.
Proof. intros OK c. by apply first_free_spec. Qed.

Lemma wp_write_data d s (Q : Z -> state -> Prop) E :
  good s -> Forall is_byte d ->
  (forall first cs s', Z.of_nat (length d) <= MAX_FILE -> stored s d first cs s' -> Q first s') ->
  (forall e s', safe s' -> kept s s' -> E e s') ->
  wp (write_data env d) s Q E.
Proof.
  intros G Hd HQ HE. pose proof (gd_vol _ G) as OK. destruct (file_limit_pos _ OK) as [Hb _]. unfold write_data.
  assert (kept s s) as Hk by by intros c.
  apply wp_bind, wp_guard; [intros _; apply HE; [by left | done] |]. intros Hlen.
  apply wp_bind, wp_get_vol, wp_bind. apply wp_allocate; [done | |].
  - intros s1 L1 T1 G1 F1. set (cs := first_free (vol s) _) in *. assert (forall c, c ∈ cs -> valid (vol s) c = true /\ entry (vol s) c = 0) as Hf by by apply first_free_fresh.
    pose proof (retabled_fields _ _ (tk_same _ _ _ T1)) as (Ek & Ec & _ & _ & Ed & Es & _).
    assert (forall c l, in_cluster (vol s1) c l -> in_cluster (vol s) c l) as Hin.
    { intros c l. unfold in_cluster, lba. by rewrite Ed, Es. }
    assert (NoDup cs) as Hn by by apply first_free_nodup.
    assert (Forall (fun c => valid (vol s) c = true) cs) as Hv by (apply Forall_forall; intros c Hc; by apply Hf).
    assert (forall st, framed (in_clusters (vol s1) cs) (dev s1) (dev st) ->
              framed (fresh_area (vol s) cs) (dev s) (dev st)) as HF.
    { intros st F2. eapply framed_trans; [eapply framed_mono; [| exact F1]; by left |].
      eapply framed_mono; [| exact F2]. intros l (c & Hc & Hl). right. exists c. auto. }
    apply wp_bind, wp_write_pieces; [done | done | | done | |].
    + eapply Forall_impl; [exact Hv |]. intros c. by rewrite !valid_spec, Ec.
    + intros s2 V2 G2 F2 Hh. apply wp_ret. apply HQ with (cs := cs); [lia |]. constructor.
      * done.
      * rewrite L1, Z2Nat.id; [done |]. apply Z.div_pos; lia.
      * by rewrite V2.
      * done.
      * destruct cs as [| c0 cs'] eqn:Ecs; [done |]. rewrite <- Ecs in *.
        destruct (takes_chain (vol s) cs (vol s2)) as (first & Hhd & Hc); try done; [apply G2 | by rewrite V2 | by rewrite Ecs |].
        rewrite Hhd. exact Hc.
      * done.
      * by apply HF.
    + intros s2 H2. apply HE; [by eapply halted_safe |]. destruct H2 as (_ & F2 & _).
      apply (fresh_kept s s2 cs OK); [intros c Hc; by apply Hf | by apply HF].
  - intros e s' [(-> & -> & _) | (_ & Hs & F)]; apply HE; try done; [by left |].
    apply (fresh_kept s s' [] OK); [by intros c ?%not_elem_of_nil |]. eapply framed_mono; [| exact F]. by left.
Qed.

(** * Reading it back *)

Lemma piece_take v d i :
  0 < bytes v -> (Z.to_nat (bytes v) * i <= length d)%nat ->
  take (length d - Z.to_nat (bytes v) * i) (cluster_piece v d i) = take (Z.to_nat (bytes v)) (drop (Z.to_nat (bytes v) * i) d).
Proof.
  intros Hb Hi. unfold cluster_piece. set (n := Z.to_nat (bytes v)). set (p := take n (drop (n * i) d)).
  assert (length p = n `min` (length d - n * i))%nat as Hp by (unfold p; rewrite length_take, length_drop; done).
  destruct (decide (length p = n)) as [E | E].
  - replace (n - length p)%nat with 0%nat by lia. cbn [replicate]. rewrite app_nil_r.
    rewrite take_ge by lia. done.
  - rewrite take_app_le by lia. by rewrite take_ge by lia.
Qed.

(** [n] clusters of [b] bytes are just enough for [len] bytes. *)
Lemma just_enough (len n : nat) (b : Z) :
  0 < b -> Z.of_nat n = (Z.of_nat len + b - 1) / b ->
  (len <= Z.to_nat b * n)%nat /\ forall k, (k < n)%nat -> (Z.to_nat b * k < len)%nat.
Proof.
  intros Hb Hn. pose proof (Z.div_mod (Z.of_nat len + b - 1) b ltac:(lia)) as E.
  pose proof (Z.mod_pos_bound (Z.of_nat len + b - 1) b Hb) as R. rewrite <- Hn in E. clear Hn.
  set (r := (_ mod _)) in *. clearbody r. rewrite <- (Z2Nat.id b) in E, R, Hb by lia. set (m := Z.to_nat b) in *. clearbody m.
  split; [nia |]. intros k Hk. nia.
Qed.

Lemma wp_read_clusters d s0 cs : forall s k acc (Q : list Z -> state -> Prop) E,
  good s -> read_only s0 s -> holds s cs d ->
  Forall (fun c => valid (vol s) c = true) cs ->
  (Z.of_nat (length cs) = (Z.of_nat (length d) + bytes (vol s) - 1) / bytes (vol s)) ->
  (k <= length cs)%nat -> acc = take (Z.to_nat (bytes (vol s)) * k) d ->
  (forall s', read_only s0 s' -> Q d s') -> (forall s', read_only s0 s' -> E "disk read failed" s') ->
  wp (read_clusters env (Z.of_nat (length d)) (drop k cs) acc) s Q E.
Proof.
  intros s k. remember (length cs - k)%nat as todo eqn:Ek. revert s k Ek.
  induction todo as [| todo IH]; intros s k Ek acc Q E G R Hh Hv Hc Hk -> HQ HE;
    destruct (file_limit_pos _ (gd_vol _ G)) as [Hb _].
  - rewrite drop_ge by lia. apply wp_ret. rewrite take_ge; [by apply HQ |].
    destruct (just_enough _ _ _ Hb Hc). assert (k = length cs) as -> by lia. done.
  - destruct (drop k cs) as [| c rest] eqn:Ed.
    { apply (f_equal length) in Ed. rewrite length_drop in Ed. cbn in Ed. lia. }
    assert (cs !! k = Some c) as Hkc.
    { rewrite <- (Nat.add_0_r k). rewrite <- lookup_drop, Ed. done. }
    assert (rest = drop (S k) cs) as ->.
    { replace (S k) with (k + 1)%nat by lia. rewrite <- drop_drop, Ed. done. }
    assert (Z.to_nat (bytes (vol s)) * k <= length d)%nat as Hkd.
    { destruct (just_enough _ _ _ Hb Hc) as [_ Hlt]. specialize (Hlt k). lia. }
    cbn [read_clusters]. apply wp_bind, wp_read_cluster.
    + by eapply Forall_lookup_1 in Hv.
    + intros s' R'. destruct R' as [V' M'].
      assert (read_only s s') as R1 by done.
      rewrite (Hh k c Hkc).
      rewrite length_take. rewrite (Nat.min_l (Z.to_nat (bytes (vol s)) * k)) by done.
      rewrite cluster_piece_length by done.
      replace (take (Z.to_nat (bytes (vol s)) * k) d ++ take _ (cluster_piece (vol s) d k))
        with (take (Z.to_nat (bytes (vol s')) * S k) d).
      * apply (IH s' (S k)); try done; rewrite ?V'; try done; try lia.
        -- by eapply read_only_good.
        -- by eapply read_only_trans.
        -- intros i x Hx. rewrite V', (cluster_data_ext _ (dev s)) by done. by apply Hh.
      * rewrite V'. replace (Z.to_nat (bytes (vol s)) * S k)%nat
          with (Z.to_nat (bytes (vol s)) * k + Z.to_nat (bytes (vol s)))%nat by lia.
        rewrite <- take_take_drop. f_equal. rewrite <- (piece_take _ _ _ Hb Hkd).
        set (p := cluster_piece (vol s) d k). assert (length p = Z.to_nat (bytes (vol s))) as Hp.
        { pose proof (cluster_piece_length (vol s) d k Hb). fold p in H. lia. }
        destruct (Z.le_gt_cases (bytes (vol s)) (Z.of_nat (length d) - Z.of_nat (Z.to_nat (bytes (vol s)) * k))).
        -- rewrite !take_ge by lia. done.
        -- f_equal. lia.
    + intros s' R'. apply HE. by eapply read_only_trans.
Qed.

(** Reading a record whose chain [cs] holds [d]. *)
Lemma wp_data r d cs s (Q : list Z -> state -> Prop) E :
  good s -> is_dir r = false -> r_size r = Z.of_nat (length d) -> Z.of_nat (length d) <= MAX_FILE ->
  Z.of_nat (length cs) = (Z.of_nat (length d) + bytes (vol s) - 1) / bytes (vol s) ->
  match cs with [] => r_cluster r = 0 | _ => chain_of (vol s) (r_cluster r) cs end ->
  holds s cs d ->
  (forall s', read_only s s' -> Q d s') -> (forall s', read_only s s' -> E "disk read failed" s') ->
  wp (data env r) s Q E.
Proof.
  intros G Hr Hs Hl Hn Hc Hh HQ HE. pose proof (gd_vol _ G) as OK. destruct (file_limit_pos _ OK) as [Hb Hf].
  unfold data. rewrite Hr, Hs. apply wp_bind, wp_guard; [done |]. intros _.
  apply wp_bind, wp_guard; [lia |]. intros _. apply wp_bind, wp_get_vol. fold (file_limit (vol s)).
  assert (Z.of_nat (length cs) <= file_limit (vol s)) as Hlen.
  { rewrite Hn. unfold file_limit. transitivity ((MAX_FILE + 1 * bytes (vol s)) / bytes (vol s)); [apply Z.div_le_mono; lia |].
    rewrite Z.div_add by lia. lia. }
  assert (chain (vol s) (r_cluster r) (file_limit (vol s)) = Ok cs /\ Forall (fun c => valid (vol s) c = true) cs)
    as [Hch Hv].
  { destruct cs as [| c cs'] eqn:Ecs.
    - split; [| constructor]. apply chain_spec; [done | apply G | done | by left].
    - rewrite <- Ecs in *. pose proof (ch_head _ _ _ Hc) as Hh0. pose proof (ch_valid _ _ _ Hc) as Hv. split; [| done].
      apply chain_spec; [done | apply G | done |]. right. split; [| done].
      rewrite Ecs in Hh0, Hv. injection Hh0 as <-. apply Forall_cons in Hv as [Hv _]. apply valid_spec in Hv. lia. }
  rewrite Hch. apply wp_bind, wp_lift. apply wp_bind, wp_guard; [lia |]. intros _.
  rewrite <- Hn, Nat2Z.id, take_ge by done. rewrite <- (drop_0 cs).
  apply (wp_read_clusters d s cs s 0 []); try done; [lia | by rewrite Nat.mul_0_r].
Qed.
End Files.

(** * Theorems *)

(** C39. Writing a file's contents ([write_data]) and reading them back ([data]) through a
    record for the chain returned gives the same bytes, whatever the device answers: the
    only other outcome of the read is a read error, which changes nothing.  The write keeps
    the volume consistent (tables coherent, free count exact) and does not touch a cluster
    that was in use; when it fails, no cluster in use was touched and the volume is
    consistent or stopped.  Neither can panic. *)
Theorem fat_file_roundtrip env d s :
  good s -> Forall is_byte d ->
  match write_data env d s with
  | (Ok first, s') =>
      good s' /\ kept s s'
      /\ (forall c, valid (vol s) c = true -> entry (vol s) c <> 0 -> entry (vol s') c = entry (vol s) c)
      /\ forall env' r, is_dir r = false -> r_cluster r = first -> r_size r = Z.of_nat (length d) ->
           match data env' r s' with
           | (Ok d', s'') => d' = d /\ read_only s' s''
           | (Err e, s'') => e = "disk read failed" /\ read_only s' s''
           | (Panic, _) => False
           end
  | (Err _, s') => safe s' /\ kept s s'
  | (Panic, _) => False
  end.
Proof.
  intros G Hd. eapply (wp_mono (write_data env d) s); [apply (wp_write_data env d s
    (fun first s' => Z.of_nat (length d) <= MAX_FILE /\ exists cs, stored s d first cs s') (fun _ s' => safe s' /\ kept s s')); eauto | | auto].
  intros first s' [Hl (cs & [Gs Hn T Hf Hc Hh F])].
  split; [done |]. split; [by apply (fresh_kept s s' cs (gd_vol _ G)); [intros c Hcs; apply Hf |] |]. split.
  - intros c Hv Hne. rewrite (tk_entry _ _ _ T c Hv). rewrite decide_False; [done |]. intros Hin. by apply Hne, Hf.
  - intros env' r Hr Hfirst Hsz. pose proof (retabled_fields _ _ (tk_same _ _ _ T)) as (_ & _ & _ & _ & _ & Es & _).
    apply (wp_data env' r d cs s' (fun d' s'' => d' = d /\ read_only s' s'') (fun e s'' => e = "disk read failed" /\ read_only s' s''));
      try done; [unfold bytes; rewrite Es; exact Hn | by destruct cs; subst].
Qed.

Definition demo_record : Record_ := mkRecord (lit "A") [] [] 0x20 2 5 0 0.

Lemma fat_file_roundtrip_witness :
  match write_data demo_env [104; 101; 108; 108; 111] demo_state with
  | (Ok first, s') => first = 2 /\
      match data demo_env demo_record s' with (Ok d, _) => d = [104; 101; 108; 108; 111] | _ => False end
  | _ => False
  end.
Proof.
  pose proof (fat_file_roundtrip demo_env [104; 101; 108; 108; 111] demo_state demo_good) as H.
  assert (exists s', write_data demo_env [104; 101; 108; 108; 111] demo_state = (Ok 2, s')
            /\ exists d s'', data demo_env demo_record s' = (Ok d, s'')) as (s' & E & d & s'' & Ed).
  { eexists. split; [vm_compute; reflexivity |]. eexists. eexists. vm_compute. reflexivity. }
  rewrite E in *. split; [reflexivity |].
  destruct H as (_ & _ & _ & H); [repeat constructor; unfold is_byte; lia |].
  specialize (H demo_env demo_record eq_refl eq_refl eq_refl). rewrite Ed in *. exact (proj1 H).
Defined.
End FatFile.
