(* ===== verification/FatMount.v ===== *)
(** Mounting a FAT volume (src/fs/fat.rs): what [probe] and [discover] establish, and that a
    volume stopped by a disk failure refuses every change. *)

From Stdlib Require Import ZArith Lia.
From stdpp Require Import base list list_numbers numbers decidable tactics strings gmap.
From S2P Require Import Prelude BlockDev FatNames FatTable Fat.
Import Blk FatNames FatTable Fat.

Module FatMount.

(** * Computations that only read *)

Definition same_media (d d' : BlkDevice) : Prop :=
  media d' = media d /\ capacity_sectors d' = capacity_sectors d.

Lemma same_media_refl d : same_media d d.
Proof. done. Qed.
Lemma same_media_trans d d' d'' : same_media d d' -> same_media d' d'' -> same_media d d''.
Proof. intros [A1 A2] [B1 B2]. split; congruence. Qed.

Section Probing.
Context (env : nat -> response).

Lemma wp_dread e l d (Q : list Z -> BlkDevice -> Prop) E :
  (forall d', same_media d d' -> Q (sector_of (media d) l) d') ->
  (forall d', same_media d d' -> E e d') -> wp (dread env e l) d Q E.
Proof.
  intros HQ HE. unfold dread. apply wp_bind. unfold wp at 1.
  destruct (dev_read_spec env l d) as (o & d' & -> & Hm & [Hc _] & [-> | ->]); [by apply HQ | by apply HE].
Qed.
Lemma wp_dsector l d (Q : list Z -> BlkDevice -> Prop) E :
  (forall d', same_media d d' -> Q (sector_of (media d) l) d') ->
  (forall d', same_media d d' -> E "disk read failed" d') -> wp (dsector env l) d Q E.
Proof. apply wp_dread. Qed.

Lemma wp_dread_all e (f : Z -> Z) l : forall d (Q : list (list Z) -> BlkDevice -> Prop) E,
  (forall d', same_media d d' -> Q (map (fun i => sector_of (media d) (f i)) l) d') ->
  (forall d', same_media d d' -> E e d') ->
  wp (collect_each l (fun i => dread env e (f i))) d Q E.
Proof.
  induction l as [| x l IH]; intros d Q E HQ HE; [by apply HQ |].
  cbn [collect_each map]. apply wp_bind, wp_dread; [| done]. intros d1 R1. pose proof R1 as [M1 _].
  apply wp_bind, IH; [| intros d2 R2; apply HE; by eapply same_media_trans].
  intros d2 R2. apply wp_ret. rewrite M1. apply HQ. by eapply same_media_trans.
Qed.

(** * The table read from disk *)

Lemma length_sectors m f n : media_ok m ->
  length (mjoin (map (fun i => sector_of m (f i)) (seqZ 0 n))) = (512 * Z.to_nat n)%nat.
Proof.
  intros Hm. erewrite length_join; [by rewrite length_map, length_seqZ |].
  apply Forall_map, Forall_true. intros i. by apply sector_of_ok.
Qed.

Lemma bytes_sectors m (f : Z -> Z) l : media_ok m -> Forall is_byte (mjoin (map (fun i => sector_of m (f i)) l)).
Proof.
  intros Hm. induction l as [| x l IH]; [constructor |]. apply Forall_app. split; [by apply sector_of_ok | done].
Qed.

Lemma sec_sectors m f n i : media_ok m -> 0 <= i < n ->
  sec (mjoin (map (fun i => sector_of m (f i)) (seqZ 0 n))) i = sector_of m (f i).
Proof.
  intros Hm Hi. replace n with (i + (n - i)) by lia. rewrite seqZ_app by lia.
  rewrite map_app, join_app. unfold sec. rewrite drop_app_length'.
  - rewrite seqZ_cons by lia. cbn [map mjoin list_join]. rewrite take_app_length'; [f_equal; f_equal; lia |].
    symmetry. by apply sector_of_ok.
  - rewrite length_sectors by done. unfold SECTOR. lia.
Qed.

(** * Counting free clusters *)

Lemma count_free_spec v : vol_ok v -> forall n c acc,
  2 <= c -> c + Z.of_nat n <= clusters v + 2 ->
  count_free v n c acc = Ok (acc + Z.of_nat (length (List.filter (is_free v) (seqZ c (Z.of_nat n))))).
Proof.
  intros OK. induction n as [| n IH]; intros c acc H1 H2; [cbn; by rewrite Z.add_0_r |].
  cbn [count_free]. rewrite (get_entry v c OK) by (apply valid_spec; lia). cbn [mbind outcome_bind].
  rewrite IH by lia. rewrite (seqZ_cons c (Z.of_nat (S n))) by lia. cbn [List.filter].
  replace (Z.pred (Z.of_nat (S n))) with (Z.of_nat n) by lia. change (c + 1) with (Z.succ c).
  change (is_free v c) with (entry v c =? 0). destruct (entry v c =? 0); cbn [length]; f_equal; lia.
Qed.

(** * What a successful probe of [start, start + len) says of the volume *)

Record mounts (start len : Z) (d : BlkDevice) (v : Volume) : Prop := {
  mt_vol : vol_ok v;
  mt_live : vfailed v = false;
  mt_counted : counted v;
  mt_table : table_at (media d) (copy_base v (active v)) (fat v) (fat_sectors v);
  mt_start : start < fat_lba v;
  mt_info : forall l, fsinfo v = Some l \/ backup_fsinfo v = Some l -> start < l;
  mt_root : kind v = Fat32 -> valid v (root_cluster v) = true;
  mt_fixed : kind v <> Fat32 -> 0 < root_entries v /\ root_entries v * 32 <= (data_lba v - root_lba v) * SECTOR;
  mt_end : data_lba v + clusters v * spc v <= start + len }.

Lemma read_ext_spec b start clusters fats reserved roots k :
  1 <= fats -> 0 <= le16 b 48 -> 0 <= le16 b 50 -> 0 <= Z.land (le16 b 40) 0xf ->
  match read_ext b start clusters fats reserved roots k with
  | Ok x => 0 <= x_active x < fats
      /\ (forall l, x_info x = Some l \/ x_backup x = Some l -> start < l < start + reserved)
      /\ (k = Fat32 -> 2 <= x_root x < clusters + 2)
      /\ (k <> Fat32 -> roots <> 0)
  | Err _ => True
  | Panic => False
  end.
Proof.
  intros Hf H48 H50 H40. unfold read_ext. case_decide as Hk.
  - unfold guard_err. destruct (negb (roots =? 0) || _ || _); [done |]. cbn [mbind outcome_bind].
    destruct ((_ <? 2) || _ || _) eqn:E2; [done |]. apply orb_false_iff in E2 as [E2 E3]. apply orb_false_iff in E2 as [E1 E2].
    cbn [mbind outcome_bind]. cbn [x_active x_info x_backup x_root].
    split; [revert E3; destruct (Z.land (le16 b 40) 0x80 =? 0); lia |].
    split; [| split; [lia | by intros ?]].
    intros l [Hl | Hl].
    + destruct (negb (le16 b 48 =? 0) && (le16 b 48 <? reserved)) eqn:E; [| done]. injection Hl as <-. lia.
    + destruct (bool_decide _ && (0 <? le16 b 50) && (le16 b 50 + le16 b 48 <? reserved)) eqn:E; [| done].
      injection Hl as <-. lia.
  - unfold guard_err. destruct ((roots =? 0) || _) eqn:E; [done |]. cbn. split; [lia |]. split; [by intros l [|] |].
    split; [done |]. intros _. lia.
Qed.

(** The volume [probe] builds from a boot sector that passed its checks. *)
Lemma built_mounts start len d reserved nf fsec roots sp total x :
  let rsec := (roots * 32 + 511) / 512 in
  let n := (total - (reserved + nf * fsec + rsec)) / sp in
  let flba := start + reserved in
  let rlba := flba + nf * fsec in
  let v := mkVolume (kind_of n) flba fsec nf (x_active x) (x_mirrored x) (rlba + rsec) sp n rlba roots (x_root x)
             (mjoin (map (fun i => sector_of (media d) (flba + x_active x * fsec + i)) (seqZ 0 fsec)))
             2 (x_info x) (x_backup x) false 0 false in
  media_ok (media d) ->
  1 <= sp <= 128 -> 1 <= reserved -> 1 <= nf <= 2 -> 0 <= fsec -> total <= len -> 0 <= roots ->
  0 < n <= 0x0fffffee -> table_bytes (kind_of n) n <= fsec * 512 ->
  0 <= x_active x < nf ->
  (forall l, x_info x = Some l \/ x_backup x = Some l -> start < l < start + reserved) ->
  (kind_of n = Fat32 -> 2 <= x_root x < n + 2) -> (kind_of n <> Fat32 -> roots <> 0) ->
  exists c, count_free v (Z.to_nat n) 2 0 = Ok c /\ mounts start len d (set_hints v 2 c false).
Proof.
  intros rsec n flba rlba v Hm Hspc Hres Hfats Hfsec Hlen Hroots Hn Htab Ha Hi Hr Hf.
  assert (0 <= rsec /\ roots * 32 <= rsec * 512) as [Hrs Hrl] by (unfold rsec; zdiv).
  assert (n * sp <= total - (reserved + nf * fsec + rsec)) as Hns.
  { unfold n. rewrite Z.mul_comm. apply Z.mul_div_le. lia. }
  clearbody rsec n. assert (vol_ok v) as OK.
  { constructor; unfold v; cbn [kind fat_lba fat_sectors fats active data_lba spc clusters root_lba root_entries fat hint fsinfo backup_fsinfo];
      rewrite ?length_sectors by done; unfold SECTOR; try lia.
    - unfold kind_of. destruct (n <? 4085) eqn:E1; [lia |]. destruct (n <? 65525) eqn:E2; lia.
    - unfold table_bytes in Htab. destruct (kind_of n); lia.
    - by apply bytes_sectors.
    - intros l Hl. apply Hi in Hl. unfold flba. lia. }
  exists (zero_count v). split.
  - rewrite count_free_spec; [| done | lia | cbn; lia]. rewrite Z2Nat.id by lia. done.
  - constructor; unfold v; cbn [set_hints kind fat_lba fat_sectors fats active data_lba spc clusters root_lba fat hint fsinfo
      backup_fsinfo root_entries root_cluster vfailed]; try done.
    + apply set_hints_ok; [done |]. cbn. lia.
    + intros i Hidx. rewrite sec_sectors by done. unfold copy_base. cbn. done.
    + unfold flba. lia.
    + intros l Hl. by apply Hi.
    + intros Hk. apply valid_spec. cbn. auto.
    + intros Hk. unfold SECTOR. apply Hf in Hk. lia.
    + unfold rlba, flba. lia.
Qed.

Lemma wp_probe start len d (Q : Volume -> BlkDevice -> Prop) E :
  media_ok (media d) ->
  (forall v d', same_media d d' -> mounts start len d v -> Q v d') ->
  (forall e d', same_media d d' -> E e d') -> wp (probe env start len) d Q E.
Proof.
  intros Hm HQ HE. unfold probe. apply wp_bind, wp_dsector; [| auto]. intros d1 R1.
  set (b := sector_of (media d) start). destruct (sector_of_ok (media d) start Hm) as [Lb Bb]. fold b in Lb, Bb.
  assert (forall o, (o + 2 <= 512)%nat -> 0 <= le16 b o) as H16.
  { intros o Ho. rewrite le16_bytes by lia. pose proof (byte_is_byte b o Bb). pose proof (byte_is_byte b (o + 1) Bb).
    unfold is_byte in *. lia. }
  assert (0 <= le32 b 36) as H32 by (rewrite le32_bytes by lia;
    pose proof (byte_is_byte b 36 Bb); pose proof (byte_is_byte b (36 + 1) Bb);
    pose proof (byte_is_byte b (36 + 2) Bb); pose proof (byte_is_byte b (36 + 3) Bb); unfold is_byte in *; lia).
  pose proof (H16 22%nat ltac:(lia)) as H22. pose proof (byte_is_byte b 13 Bb) as H13. unfold is_byte in H13.
  apply wp_bind, wp_guard; [auto |]. intros _.
  set (total := if negb _ then _ else _). set (fsec := if negb (le16 b 22 =? 0) then _ else _).
  assert (0 <= fsec) as Hfs by (unfold fsec; case (negb (le16 b 22 =? 0)); lia).
  apply wp_bind, wp_guard; [auto |]. intros Hgeo.
  set (overhead := le16 b 14 + byte b 16 * fsec + (le16 b 17 * 32 + 511) / 512).
  apply wp_bind, wp_guard; [auto |]. intros Hov.
  set (n := (total - overhead) / byte b 13). assert (0 <= n) as Hn0 by (apply Z.div_pos; lia).
  apply wp_bind, wp_guard; [auto |]. intros Hn.
  apply wp_bind, wp_guard; [auto |]. intros Htab.
  pose proof (H16 48%nat ltac:(lia)) as H48. pose proof (H16 50%nat ltac:(lia)) as H50.
  pose proof (H16 14%nat ltac:(lia)) as H14. pose proof (H16 17%nat ltac:(lia)) as H17.
  assert (0 <= Z.land (le16 b 40) 0xf) as H40.
  { change 0xf with (2 ^ 4 - 1). rewrite land_low by lia. apply Z.mod_pos_bound. lia. }
  pose proof (read_ext_spec b start n (byte b 16) (le16 b 14) (le16 b 17) (kind_of n) ltac:(lia) H48 H50 H40) as Hx.
  apply wp_bind, wp_lift. destruct (read_ext _ _ _ _ _ _ _) as [x | e |]; [| auto | done].
  destruct Hx as (Xa & Xi & Xr & Xf).
  apply wp_bind. apply (wp_dread_all _ (fun i => start + le16 b 14 + x_active x * fsec + i)).
  - intros d2 R2. assert (same_media d d2) as R by (by eapply same_media_trans). destruct R1 as [M1 _]. rewrite M1.
    destruct (built_mounts start len d (le16 b 14) (byte b 16) fsec (le16 b 17) (byte b 13) total x) as (c & Hc & Hmt);
      fold overhead; fold n; try done; try lia.
    apply wp_bind, wp_lift. fold overhead in Hc. fold n in Hc. rewrite Hc. apply wp_ret. by apply HQ.
  - intros d2 R2. apply HE. by eapply same_media_trans.
Qed.

(** * Partition tables *)

Lemma le_nonneg b (n : nat) o : Forall is_byte b -> 0 <= from_le_bytes (take n (drop o b)).
Proof. intros Hb. apply from_le_bytes_range. by apply Forall_take, Forall_drop. Qed.

Lemma chunks_exact_bytes n l : Forall is_byte l -> Forall (Forall is_byte) (chunks_exact n l).
Proof.
  unfold chunks_exact. generalize (length l / n)%nat as fuel. intros fuel. revert l.
  induction fuel as [| fuel IH]; intros l Hl; [constructor |]. cbn [chunks_exact_aux].
  destruct (n <=? length l)%nat; [| constructor]. constructor; [by apply Forall_take | by apply IH, Forall_drop].
Qed.

(** The volume lies inside the device. *)
Definition on_device (d : BlkDevice) (v : Volume) : Prop :=
  exists start len, 0 <= start /\ start + len <= capacity_sectors d /\ mounts start len d v.

Lemma mounts_same d d' start len v : same_media d d' -> mounts start len d v -> mounts start len d' v.
Proof. intros [Hm _] [H1 H2 H3 H4 H5 H6 H7 H8 H9]. constructor; try done. by rewrite Hm. Qed.
Lemma on_device_same d d' v : same_media d d' -> on_device d v -> on_device d' v.
Proof.
  intros Hs (start & len & H1 & H2 & H3). exists start, len. split; [done |].
  split; [by rewrite (proj2 Hs) | by eapply mounts_same].
Qed.

(** What every step of the discovery keeps and promises. *)
Definition finds (m : D Volume) : Prop := forall d, media_ok (media d) ->
  wp m d (fun v d' => same_media d d' /\ on_device d' v) (fun _ d' => same_media d d').

Lemma wp_probe_on start len d (Q : Volume -> BlkDevice -> Prop) E :
  media_ok (media d) -> 0 <= start -> start + len <= capacity_sectors d ->
  (forall v d', same_media d d' -> on_device d' v -> Q v d') ->
  (forall e d', same_media d d' -> E e d') -> wp (probe env start len) d Q E.
Proof.
  intros Hm H0 Hcap HQ HE. apply wp_probe; [done | | done]. intros v d' Hs Hmt. apply HQ; [done |].
  apply (on_device_same d d' v Hs). by exists start, len.
Qed.

Lemma wp_try_partitions cap check ps : forall d,
  media_ok (media d) -> capacity_sectors d = cap ->
  Forall (fun p => match check p with
                   | Ok (Some (first, len)) => 0 <= first /\ first + len <= cap
                   | Panic => False | _ => True end) ps ->
  wp (try_partitions env check ps) d (fun v d' => same_media d d' /\ on_device d' v) (fun _ d' => same_media d d').
Proof.
  induction ps as [| p ps IH]; intros d Hm Hc Hps; [by apply wp_fail |].
  apply Forall_cons in Hps as [Hp Hps]. cbn [try_partitions]. apply wp_bind, wp_lift.
  destruct (check p) as [[[first len] |] | e |]; [| by apply IH | done | done].
  apply wp_bind, wp_catch, wp_probe_on; [done | lia | lia | by intros v d' Hs Hv; apply wp_ret |].
  intros e d' Hs. pose proof Hs as [Hm' Hc']. eapply wp_mono; [apply IH; [by rewrite Hm' | by rewrite Hc' | done] | |].
  - intros v d'' [Hs' Hv]. split; [by eapply same_media_trans | done].
  - intros e' d'' Hs'. by eapply same_media_trans.
Qed.

Lemma gpt_partition_ok lo hi cap p : 0 <= lo -> hi < cap ->
  match gpt_partition lo hi p with
  | Ok (Some (first, len)) => 0 <= first /\ first + len <= cap | Panic => False | _ => True end.
Proof.
  intros Hlo Hhi. unfold gpt_partition. destruct (forallb _ _); [done |]. unfold guard_err.
  destruct ((_ <? lo) || _ || _) eqn:E; [done |]. cbn [mbind outcome_bind]. lia.
Qed.
Lemma mbr_partition_ok cap p : Forall is_byte p ->
  match mbr_partition cap p with
  | Ok (Some (first, len)) => 0 <= first /\ first + len <= cap | Panic => False | _ => True end.
Proof.
  intros Hp. unfold mbr_partition. destruct (byte p 4 =? 0); [done |].
  destruct ((le32 p 8 =? 0) || _ || _) eqn:E; [done |]. pose proof (le_nonneg p 4 8 Hp) as H. fold (le32 p 8) in H. lia.
Qed.

Lemma gpt_finds d : media_ok (media d) ->
  wp (gpt env (capacity_sectors d)) d (fun v d' => same_media d d' /\ on_device d' v) (fun _ d' => same_media d d').
Proof.
  intros Hm. unfold gpt. apply wp_bind, wp_dsector; [| done]. intros d1 R1.
  destruct (sector_of_ok (media d) 1 Hm) as [Lh Bh]. set (h := sector_of (media d) 1) in *.
  apply wp_bind, wp_guard; [done |]. intros _. apply wp_bind, wp_guard; [done |]. intros _.
  set (h' := splice h 16 (replicate 4 0)).
  assert (Forall is_byte h') as Bh'.
  { unfold h', splice. apply Forall_app. split; [by apply Forall_take |]. apply Forall_app.
    split; [apply Forall_replicate; unfold is_byte; lia | by apply Forall_drop]. }
  pose proof (le_nonneg h' 4 80 Bh') as H80. fold (le32 h' 80) in H80.
  apply wp_bind, wp_guard; [done |]. intros Hl. apply wp_bind, wp_guard; [done |]. intros Hb.
  apply wp_bind. apply (wp_dread_all _ (fun i => le64 h' 72 + i)); [| intros d2 R2; by eapply same_media_trans].
  intros d2 R2. assert (same_media d d2) as R by (by eapply same_media_trans).
  apply wp_bind, wp_guard; [done |]. intros _.
  assert (0 <= (le32 h' 80 * le32 h' 84 + 511) / 512) by (apply Z.div_pos; nia).
  eapply wp_mono; [apply (wp_try_partitions (capacity_sectors d)) | |].
  - by rewrite (proj1 R).
  - apply R.
  - apply Forall_true. intros p. apply gpt_partition_ok; lia.
  - intros v d' [Hs Hv]. split; [by eapply same_media_trans | done].
  - intros e d' Hs. by eapply same_media_trans.
Qed.

Lemma discover_finds : finds (discover env).
Proof.
  intros d Hm. unfold discover. apply wp_bind. unfold wp at 1, Blk.get. apply wp_bind, wp_guard; [done |]. intros _.
  apply wp_bind, wp_catch, wp_probe_on; [done | lia | lia | by intros v d' Hs Hv; apply wp_ret |].
  intros e d1 R1. apply wp_bind, wp_dsector; [| intros d2 R2; by eapply same_media_trans].
  intros d2 R2. assert (same_media d d2) as R by (by eapply same_media_trans).
  assert (media_ok (media d2)) as Hm2 by (by rewrite (proj1 R)).
  apply wp_bind, wp_guard; [done |]. intros _.
  assert (forall m, wp m d2 (fun v d' => same_media d2 d' /\ on_device d' v) (fun _ d' => same_media d2 d') ->
            wp m d2 (fun v d' => same_media d d' /\ on_device d' v) (fun _ d' => same_media d d')) as Hw.
  { intros m H. eapply wp_mono; [exact H | |].
    - intros v d' [Hs Hv]. split; [by eapply same_media_trans | done].
    - intros e' d' Hs. by eapply same_media_trans. }
  destruct (existsb _ _); apply Hw.
  - rewrite <- (proj2 R). by apply gpt_finds.
  - apply (wp_try_partitions (capacity_sectors d)); [done | apply R |]. eapply Forall_impl; [apply chunks_exact_bytes |].
    + apply Forall_take, Forall_drop. destruct R1 as [M1 _]. rewrite M1. by apply sector_of_ok.
    + intros p Hp. by apply mbr_partition_ok.
Qed.
End Probing.

(** The copies of the table that the volume keeps up to date agree on the medium. *)
Definition copies_agree (v : Volume) (d : BlkDevice) : Prop :=
  forall copy i, live_copy v copy -> 0 <= i < fat_sectors v ->
    sector_of (media d) (copy_base v copy + i) = sector_of (media d) (copy_base v (active v) + i).

Lemma on_device_good v d : media_ok (media d) -> on_device d v -> copies_agree v d -> good (mkState v d).
Proof.
  intros Hm (start & len & _ & _ & [H1 H2 H3 H4 _ _ _ _ _]) Hc. constructor; try done.
  intros copy Hl i Hi. rewrite Hc by done. by apply H4.
Qed.

(** Every sector the volume can write is on the device. *)
Lemma on_device_sectors v d : on_device d v ->
  0 < fat_lba v /\ root_lba v <= data_lba v
  /\ (forall l, fsinfo v = Some l \/ backup_fsinfo v = Some l -> 0 < l < fat_lba v)
  /\ forall c l, valid v c = true -> in_cluster v c l -> data_lba v <= l < capacity_sectors d.
Proof.
  intros (start & len & H0 & Hcap & [H1 H2 H3 H4 H5 H6 H7 H8 H9]).
  pose proof (vo_spc v H1). split; [lia |]. split; [apply H1 |]. split.
  - intros l Hl. pose proof (H6 l Hl). pose proof (vo_info v H1 l Hl). lia.
  - intros c l Hc%valid_spec Hl. unfold in_cluster, lba in Hl. nia.
Qed.

(** * Theorems *)

(** Mounting never panics and writes nothing, whatever is on the disk.  On success the
    volume is well formed (cluster count, table size and FAT width agree, every valid
    cluster has its entry in the table, which is the active copy on disk), its free count
    is exact, and the reserved area, the tables and every valid cluster lie on the device;
    if the copies of the table agree on disk it is in the state all other operations
    start from.  On failure no volume is mounted. *)
Theorem fat_mount_sound env f :
  media_ok (media (device f)) ->
  match mount env f with
  | (Ok b, f') =>
      media (device f') = media (device f)
      /\ match volume f' with
         | None => b = false
         | Some v => b = true /\ vol_ok v /\ counted v /\ vfailed v = false
             /\ (copies_agree v (device f') -> good (mkState v (device f')))
             /\ 0 < fat_lba v /\ root_lba v <= data_lba v
             /\ (forall l, fsinfo v = Some l \/ backup_fsinfo v = Some l -> 0 < l < fat_lba v)
             /\ forall c l, valid v c = true -> in_cluster v c l -> data_lba v <= l < capacity_sectors (device f)
         end
  | _ => False
  end.
Proof.
  intros Hm. pose proof (discover_finds env (device f) Hm) as H. unfold mount, wp in *.
  destruct (discover env (device f)) as [[v | e |] d']; [| split; [apply H | done] | done].
  destruct H as [Hs Hv]. split; [apply Hs |]. cbn [volume device]. split; [done |].
  pose proof (on_device_sectors v d' Hv) as (A1 & A2 & A3 & A4). pose proof Hv as (start & len & _ & _ & Hmt).
  destruct Hs as [Hs1 Hs2]. split; [apply Hmt |]. split; [apply Hmt |]. split; [apply Hmt |].
  split; [apply on_device_good; [by rewrite Hs1 | done] |]. rewrite <- Hs2. done.
Qed.

(** Operations on a volume that a failed write stopped: an error, and nothing happens. *)
Definition refused {A} (m : F A) (f : fs) : Prop := exists e, m f = (Err e, f).

Section Stopped.
Context (env : nat -> response) (up low : Z -> str) (f : fs) (v : Volume).
Hypothesis Hv : volume f = Some v.
Hypothesis Hfailed : vfailed v = true.
Let s : state := mkState v (device f).

Lemma stopped_check {A} (k : Volume -> V A) :
  exists e, (v ← get_vol; _ ← lift (check v); k v) s = (Err e, s).
Proof.
  unfold mbind, M_bind, get_vol, lift, check. change (vol s) with v. rewrite Hfailed. by eexists.
Qed.
Lemma stopped_load_dir d : exists e, load_dir env d s = (Err e, s).
Proof. unfold load_dir. apply stopped_check. Qed.
Lemma stopped_bind {A B} (m : V A) (k : A -> V B) :
  (exists e, m s = (Err e, s)) -> exists e, (m ≫= k) s = (Err e, s).
Proof. intros [e E]. exists e. unfold mbind, M_bind. by rewrite E. Qed.
Lemma stopped_lookup path : exists e, lookup env up low path s = (Err e, s).
Proof.
  unfold lookup. destruct (components path); [by eexists |]. cbn [lookup_in].
  apply (stopped_bind (load_dir env (root v))), stopped_load_dir.
Qed.
Lemma stopped_parent path :
  (exists e, parent env up low path s = (Err e, s)) \/ exists d name, parent env up low path s = (Ok (d, name), s).
Proof.
  unfold parent. destruct (components path) as [| x xs] eqn:E; [left; by eexists |].
  destruct (last_is_Some (x :: xs)) as [_ Hl]. destruct (Hl ltac:(done)) as [nm ->].
  destruct (take _ (x :: xs)) as [| y ys]; [right; by eexists _, _ |]. left.
  apply (stopped_bind (walk env up low (root v) (y :: ys))). cbn [walk].
  apply (stopped_bind (load_dir env (root v))), stopped_load_dir.
Qed.
Lemma stopped_refused {A} (m : V A) :
  (exists e, m s = (Err e, s)) -> refused (with_volume not_mounted m) f.
Proof. intros [e E]. exists e. unfold with_volume. rewrite Hv. fold s. rewrite E. cbn. by destruct f; cbn in *; subst. Qed.
Lemma stopped_ok {A} (m : F A) : refused m f -> ok m f = (Ok None, f).
Proof. intros [e E]. unfold ok. by rewrite E. Qed.
End Stopped.

(** Fail-stop: once a disk write has failed, every operation that would change the
    volume is refused with an error before it touches the device, and every reading
    operation returns nothing; the state does not change at all.  Only mounting again
    leaves this state. *)
Theorem fat_stopped_refuses env up low f v path d :
  volume f = Some v -> vfailed v = true ->
  refused (create_file env up low path d) f /\ refused (write_file env up low path d) f
  /\ refused (append_file env up low path d) f /\ refused (mkdir env up low path) f
  /\ refused (delete env up low path) f
  /\ read_dir env up low path f = (Ok None, f) /\ read_file env up low path f = (Ok None, f)
  /\ metadata env up low path f = (Ok None, f) /\ directory_id env up low path f = (Ok None, f).
Proof.
  intros Hv Hf.
  pose proof (fun A (k : Volume -> V A) => stopped_refused f v Hv _ (stopped_check f v Hf k)) as Hc.
  split; [apply Hc |]. split; [apply Hc |]. split.
  { apply (stopped_refused f v Hv). destruct (stopped_parent env up low f v Hf path) as [H | (p & nm & H)].
    - by apply stopped_bind.
    - unfold mbind, M_bind. rewrite H. destruct (stopped_load_dir env f v Hf p) as [e E]. rewrite E. by eexists. }
  split; [apply Hc |]. split; [apply Hc |].
  split; [apply stopped_ok, (stopped_refused f v Hv) |].
  { unfold directory. case_bool_decide.
    - apply (stopped_bind f v (load_dir env (root v))), stopped_load_dir, Hf.
    - apply stopped_bind, stopped_bind, stopped_lookup, Hf. }
  split; [apply stopped_ok, (stopped_refused f v Hv), stopped_bind, stopped_lookup, Hf |].
  split; apply stopped_ok, Hc.
Qed.

(** ** A 100-sector FAT12 image *)

Definition demo_boot : list Z :=
  foldl (fun b '(o, bs) => splice b o bs) zero_sector
    [(0%nat, [0xeb]); (11%nat, [0; 2; 1; 1; 0; 2; 16; 0; 100; 0]); (22%nat, [1; 0]); (510%nat, [0x55; 0xaa])].
Definition demo_disk : BlkDevice := mkBlk 100 false {[0 := demo_boot]} 0.

Lemma fat_mount_sound_witness :
  match mount demo_env (mkFs None demo_disk) with
  | (Ok b, f') => b = true /\ exists v, volume f' = Some v /\ clusters v = 96 /\ good (mkState v (device f'))
  | _ => False
  end.
Proof.
  pose proof (fat_mount_sound demo_env (mkFs None demo_disk)) as H.
  assert (exists v d, mount demo_env (mkFs None demo_disk) = (Ok true, mkFs (Some v) d) /\ clusters v = 96
            /\ forallb (fun '(c, i) => bool_decide (sector_of (media d) (copy_base v c + i)
                 = sector_of (media d) (copy_base v (active v) + i))) [(0, 0); (1, 0)] = true
            /\ fats v = 2 /\ fat_sectors v = 1) as (v & d & E & Hc & Hb & Hf & Hs).
  { eexists. eexists. split; [vm_compute; reflexivity |]. split; [vm_compute; reflexivity |].
    split; vm_compute; [reflexivity | split; reflexivity]. }
  rewrite E in *. split; [reflexivity |]. exists v. split; [reflexivity |]. split; [exact Hc |].
  assert (copies_agree v d) as Ha.
  { intros copy i [Hl _] Hi. rewrite Hf in Hl. rewrite Hs in Hi. cbn [forallb] in Hb.
    apply andb_true_iff in Hb as [B0 Hb]. apply andb_true_iff in Hb as [B1 _].
    apply bool_decide_eq_true_1 in B0, B1. assert (i = 0) as -> by lia.
    assert (copy = 0 \/ copy = 1) as [-> | ->] by lia; [exact B0 | exact B1]. }
  destruct H as (_ & _ & _ & _ & _ & H & _); [| exact (H Ha)].
  apply map_Forall_singleton. split; [vm_compute; reflexivity |].
  apply Forall_forall. intros x Hx. assert (forallb (fun x => (0 <=? x) && (x <? 256)) demo_boot = true) as Hall by (vm_compute; reflexivity).
  rewrite forallb_forall in Hall. apply list_elem_of_In in Hx. specialize (Hall x Hx). unfold is_byte. lia.
Defined.

Lemma fat_stopped_refuses_witness :
  refused (create_file demo_env (fun c => [c]) (fun c => [c]) (lit "A") [1]) (mkFs (Some (set_failed demo_vol)) demo_disk).
Proof.
  exact (proj1 (fat_stopped_refuses demo_env (fun c => [c]) (fun c => [c]) (mkFs (Some (set_failed demo_vol)) demo_disk)
    (set_failed demo_vol) (lit "A") [1] eq_refl eq_refl)).
Defined.
End FatMount.
