(* ===== verification/FatDir.v ===== *)
(** Directories on a FAT volume (src/fs/fat.rs): where the sectors of a directory are, what
    [load_dir] reads and what [store_dir] writes. *)

From Stdlib Require Import ZArith Lia.
From stdpp Require Import base list list_numbers numbers decidable tactics strings gmap.
From S2P Require Import Prelude BlockDev FatNames FatTable Fat.
Import Blk FatNames FatTable Fat.

Module FatDir.

(** * Lists of equal pieces *)

Lemma join_lookup {A} n (ls : list (list A)) k : (0 < n)%nat -> Forall (fun l => length l = n) ls ->
  mjoin ls !! k = (l ← ls !! (k / n)%nat; l !! (k mod n)%nat).
Proof.
  intros Hn Hl. revert k. induction Hl as [| l ls Hl _ IH]; intros k; [done |].
  change (mjoin (l :: ls)) with (l ++ mjoin ls). destruct (decide (k < n)%nat) as [Hk | Hk].
  - rewrite lookup_app_l by lia. by rewrite Nat.div_small, Nat.mod_small by lia.
  - rewrite lookup_app_r by lia. rewrite IH, Hl. remember (k - n)%nat as j eqn:Ej. replace k with (j + 1 * n)%nat by lia.
    rewrite Nat.div_add, Nat.Div0.mod_add by lia. rewrite Nat.add_1_r. done.
Qed.

Lemma seqZ_shift a n : seqZ a n = map (fun i => a + i) (seqZ 0 n).
Proof. change (@map Z Z) with (fmap (M:=list) (A:=Z) (B:=Z)). by rewrite fmap_add_seqZ, Z.add_0_r. Qed.

(** * Where a directory is *)

Definition dir_ok (v : Volume) (d : Dir) (cs : list Z) : Prop :=
  if fixed_root v d then cs = []
  else chain_of v (d_cluster d) cs /\ Z.of_nat (length cs) <= MAX_METADATA / bytes v.
(** The sector behind the [i]-th one of a chain, and of a directory. *)
Definition cloc (v : Volume) (cs : list Z) (i : Z) : Z := lba v (nth (Z.to_nat (i / spc v)) cs 0) + i mod spc v.
Definition loc (v : Volume) (d : Dir) (cs : list Z) (i : Z) : Z :=
  if fixed_root v d then root_lba v + i else cloc v cs i.
Definition dir_len (v : Volume) (d : Dir) (cs : list Z) : Z :=
  if fixed_root v d then root_entries v * 32 else bytes v * Z.of_nat (length cs).
Definition dir_sectors (v : Volume) (d : Dir) (cs : list Z) : Z := (dir_len v d cs + SECTOR - 1) / SECTOR.
Definition dir_data (v : Volume) (dv : BlkDevice) (d : Dir) (cs : list Z) : list Z :=
  take (Z.to_nat (dir_len v d cs))
    (mjoin (map (fun i => sector_of (media dv) (loc v d cs i)) (seqZ 0 (dir_sectors v d cs)))).
Definition dir_area (v : Volume) (d : Dir) (cs : list Z) (l : Z) : Prop :=
  exists i, 0 <= i < dir_sectors v d cs /\ l = loc v d cs i.

Lemma dir_data_ext v dv dv' d cs : media dv' = media dv -> dir_data v dv' d cs = dir_data v dv d cs.
Proof. intros E. unfold dir_data. by rewrite E. Qed.

Lemma join_clusters v dv cs : 1 <= spc v ->
  mjoin (map (cluster_data v dv) cs)
  = mjoin (map (fun i => sector_of (media dv) (cloc v cs i)) (seqZ 0 (spc v * Z.of_nat (length cs)))).
Proof.
  intros Hs. induction cs as [| c cs IH]; [by rewrite Z.mul_0_r |]. cbn [map length].
  change (mjoin (?x :: ?l)) with (x ++ mjoin l). rewrite IH.
  replace (spc v * Z.of_nat (S (length cs))) with (spc v + spc v * Z.of_nat (length cs)) by lia.
  rewrite seqZ_app by nia. rewrite map_app, join_app. f_equal.
  - unfold cluster_data. f_equal. apply map_ext_in. intros i Hi%list_elem_of_In%elem_of_seqZ. unfold cloc.
    by rewrite Z.div_small, Z.mod_small by lia.
  - f_equal. rewrite (seqZ_shift (0 + spc v)), map_map. apply map_ext_in. intros i Hi%list_elem_of_In%elem_of_seqZ.
    unfold cloc. replace (0 + spc v + i) with (i + 1 * spc v) by lia. rewrite Z.div_add, Z.mod_add by lia.
    assert (0 <= i / spc v) by (apply Z.div_pos; lia). replace (Z.to_nat (i / spc v + 1)) with (S (Z.to_nat (i / spc v))) by lia.
    done.
Qed.

Section Geometry.
Context (v : Volume) (d : Dir) (cs : list Z).
Hypothesis OK : vol_ok v.
Hypothesis Hd : dir_ok v d cs.

Lemma dir_len_pos : 0 <= dir_len v d cs.
Proof.
  unfold dir_len. destruct (fixed_root v d) eqn:E.
  - unfold fixed_root in E. apply andb_true_iff in E as [_ E]. apply negb_true_iff, bool_decide_eq_false_1 in E.
    apply (vo_area v OK) in E. lia.
  - destruct (file_limit_pos v OK). nia.
Qed.

Lemma chain_sectors : fixed_root v d = false ->
  dir_sectors v d cs = spc v * Z.of_nat (length cs) /\ dir_len v d cs = dir_sectors v d cs * SECTOR.
Proof.
  intros E. unfold dir_sectors, dir_len, bytes. rewrite E. pose proof (vo_spc v OK). unfold SECTOR.
  replace (spc v * 512 * Z.of_nat (length cs) + 512 - 1) with (511 + spc v * Z.of_nat (length cs) * 512) by lia.
  rewrite Z.div_add by lia. change (511 / 512) with 0. lia.
Qed.

Lemma dir_sectors_bound k : 0 <= k < dir_len v d cs -> 0 <= k / SECTOR < dir_sectors v d cs.
Proof. intros Hk. unfold dir_sectors, SECTOR. zdiv. Qed.

(** The cluster of a sector of a chain. *)
Lemma sector_cluster i : fixed_root v d = false -> 0 <= i < dir_sectors v d cs ->
  exists c, cs !! Z.to_nat (i / spc v) = Some c /\ valid v c = true /\ cloc v cs i = lba v c + i mod spc v
    /\ in_cluster v c (cloc v cs i).
Proof.
  intros E Hi. destruct (chain_sectors E) as [Hs _]. pose proof (vo_spc v OK) as Hspc. unfold dir_ok in Hd. rewrite E in Hd.
  destruct Hd as [Hc _]. assert (0 <= i / spc v < Z.of_nat (length cs)) as Hq.
  { split; [apply Z.div_pos; lia | apply Z.div_lt_upper_bound; lia]. }
  destruct (lookup_lt_is_Some_2 cs (Z.to_nat (i / spc v))) as [c Hcs]; [lia |]. exists c. split; [done |].
  split; [by eapply Forall_lookup_1 in Hcs; [| apply Hc] |].
  assert (cloc v cs i = lba v c + i mod spc v) as El by (unfold cloc; by rewrite nth_lookup, Hcs).
  split; [done |]. unfold in_cluster. rewrite El. pose proof (Z.mod_pos_bound i (spc v) ltac:(lia)). lia.
Qed.

Lemma loc_inj i j : 0 <= i < dir_sectors v d cs -> 0 <= j < dir_sectors v d cs -> loc v d cs i = loc v d cs j -> i = j.
Proof.
  intros Hi Hj. unfold loc. destruct (fixed_root v d) eqn:E; [lia |]. intros Hl.
  destruct (sector_cluster i E Hi) as (c & Hc & _ & Ei & Ii). destruct (sector_cluster j E Hj) as (c' & Hc' & _ & Ej & Ij).
  rewrite Hl in Ii. pose proof (clusters_apart v c c' _ OK Ii Ij) as <-.
  assert (Z.to_nat (i / spc v) = Z.to_nat (j / spc v)) as Hq.
  { unfold dir_ok in Hd. rewrite E in Hd. destruct Hd as [Hch _]. by eapply NoDup_lookup; [apply Hch | |]. }
  pose proof (vo_spc v OK). assert (0 <= i / spc v /\ 0 <= j / spc v) by (split; apply Z.div_pos; lia).
  rewrite (Z.div_mod i (spc v)), (Z.div_mod j (spc v)) by lia. lia.
Qed.

Lemma loc_not_system l : dir_area v d cs l -> ~ system_area v l.
Proof.
  intros (i & Hi & ->). unfold loc. destruct (fixed_root v d) eqn:E.
  - unfold system_area. lia.
  - destruct (sector_cluster i E Hi) as (c & _ & Hv & _ & Hin). by eapply cluster_not_system.
Qed.

Lemma length_dir_data dv : media_ok (media dv) -> Z.of_nat (length (dir_data v dv d cs)) = dir_len v d cs.
Proof.
  intros Hm. pose proof dir_len_pos. unfold dir_data. rewrite length_take, (length_join 512).
  - rewrite length_map, length_seqZ. unfold dir_sectors, SECTOR. zdiv.
  - apply Forall_map, Forall_true. intros i. by apply sector_of_ok.
Qed.

Lemma dir_data_bytes dv : media_ok (media dv) -> Forall is_byte (dir_data v dv d cs).
Proof.
  intros Hm. unfold dir_data. apply Forall_take. generalize (seqZ 0 (dir_sectors v d cs)) as l.
  induction l as [| x l IH]; [constructor |]. apply Forall_app. split; [by apply sector_of_ok | done].
Qed.

Lemma dir_data_lookup dv k : media_ok (media dv) -> 0 <= k < dir_len v d cs ->
  dir_data v dv d cs !! Z.to_nat k = sector_of (media dv) (loc v d cs (k / SECTOR)) !! Z.to_nat (k mod SECTOR).
Proof.
  intros Hm Hk. unfold dir_data. rewrite lookup_take_lt by lia. rewrite (join_lookup 512).
  - change (@map Z (list Z)) with (fmap (M:=list) (A:=Z) (B:=list Z)). rewrite list_lookup_fmap.
    assert (Z.to_nat k / 512 = Z.to_nat (k / SECTOR))%nat as -> by (unfold SECTOR; rewrite Z2Nat.inj_div by lia; done).
    assert (Z.to_nat k mod 512 = Z.to_nat (k mod SECTOR))%nat as -> by (unfold SECTOR; rewrite Z2Nat.inj_mod by lia; done).
    pose proof (dir_sectors_bound k Hk). rewrite lookup_seqZ_lt by lia. cbn [fmap option_fmap option_map mbind option_bind].
    by rewrite Z.add_0_l, Z2Nat.id by lia.
  - lia.
  - apply Forall_map, Forall_true. intros i. by apply sector_of_ok.
Qed.
End Geometry.

Section Directories.
Context (env : nat -> response).

(** * Reading *)

Lemma dir_data_chain v dv d cs : vol_ok v -> media_ok (media dv) -> fixed_root v d = false ->
  dir_data v dv d cs = mjoin (map (cluster_data v dv) cs).
Proof.
  intros OK Hm Ef. destruct (chain_sectors v d cs OK Ef) as [Hs Hl].
  rewrite join_clusters by (apply OK). unfold dir_data, loc. rewrite Ef, Hs, take_ge; [done |].
  rewrite (length_join 512).
  - rewrite length_map, length_seqZ, Hl, Hs. unfold SECTOR. lia.
  - apply Forall_map, Forall_true. intros i. by apply sector_of_ok.
Qed.

(** What a failed read of a directory or a file reports. *)
Definition read_error (e : string) : Prop := e = "disk read failed" \/ e = "directory read failed".

Lemma dir_ok_chain v d cs : vol_ok v -> vfailed v = false -> fixed_root v d = false -> dir_ok v d cs ->
  chain v (d_cluster d) (MAX_METADATA / bytes v) = Ok cs /\ cs <> [].
Proof.
  intros OK Hf Ef Hd. unfold dir_ok in Hd. rewrite Ef in Hd. destruct Hd as [Hch Hlen].
  pose proof (ch_head _ _ _ Hch) as Hh. destruct cs as [| c cs]; [done |]. split; [| done]. cbn in Hh. injection Hh as ->.
  apply chain_spec; [done | done | lia |]. right.
  pose proof (ch_valid _ _ _ Hch) as Hv. apply Forall_cons in Hv as [Hv _]. apply valid_spec in Hv. split; [lia | done].
Qed.

Lemma wp_load_dir_exact d s (Q : list Z * list Z -> state -> Prop) E :
  good s ->
  (forall cs s', read_only s s' -> dir_ok (vol s) d cs -> Q (cs, dir_data (vol s) (dev s) d cs) s') ->
  (forall e s', read_only s s' -> read_error e \/ (forall cs, ~ dir_ok (vol s) d cs) -> E e s') ->
  wp (load_dir env d) s Q E.
Proof.
  intros G HQ HE. pose proof (gd_vol _ G) as OK. destruct (file_limit_pos _ OK) as [Hb _].
  unfold load_dir. apply wp_bind, wp_get_vol, wp_bind, wp_check; [apply G |].
  destruct (fixed_root (vol s) d) eqn:Ef.
  - apply wp_bind. apply (wp_collect_each _ _ (fun i => sector_of (media (dev s)) (root_lba (vol s) + i))).
    + intros i st _ [R1 R2]. apply wp_read_at.
      * intros d' Hd'. split; [by rewrite R2 |]. split; [done |]. cbn. congruence.
      * intros d' Hd'. apply HE; [split; [done |]; cbn; congruence | left; by right].
    + intros s' R. apply wp_ret.
      assert (dir_ok (vol s) d []) as Hd by (unfold dir_ok; by rewrite Ef).
      specialize (HQ [] s' R Hd). unfold dir_data, dir_sectors, dir_len, loc in HQ. by rewrite Ef in HQ.
  - apply wp_bind, wp_lift. assert (0 <= MAX_METADATA / bytes (vol s)) as Hmax by (apply Z.div_pos; [unfold MAX_METADATA; lia | done]).
    destruct (chain_total (vol s) (d_cluster d) _ OK ltac:(apply G) Hmax) as [[cs Hcs] | Hbad]; [| rewrite Hbad; apply HE; [done |]].
    2:{ right. intros cs Hd. destruct (dir_ok_chain _ _ _ OK ltac:(apply G) Ef Hd) as [Hok _]. congruence. }
    rewrite Hcs. pose proof Hcs as Hcs0. apply chain_spec in Hcs as [[_ ->] | (Hnz & Hch & Hlen)]; [| | done | apply G | done].
    { apply wp_bind, wp_guard; [intros _; apply HE; [done |] | done]. right. intros cs Hd.
      destruct (dir_ok_chain _ _ _ OK ltac:(apply G) Ef Hd) as [Hok Hne]. congruence. }
    apply wp_bind, wp_guard.
    { intros Hb'. apply bool_decide_eq_true in Hb'. subst cs. by pose proof (ch_head _ _ _ Hch). }
    intros _.
    apply wp_bind. apply (wp_collect_each _ _ (cluster_data (vol s) (dev s))).
    + intros c st Hc [R1 R2]. apply wp_read_cluster.
      * rewrite R1. by eapply Forall_elem in Hc; [| apply Hch].
      * intros s' [R3 R4]. split; [rewrite R1; by apply cluster_data_ext |]. split; congruence.
      * intros s' [R3 R4]. apply HE; [split; congruence | left; by left].
    + intros s' R. apply wp_ret. assert (dir_ok (vol s) d cs) as Hd by (unfold dir_ok; by rewrite Ef).
      specialize (HQ cs s' R Hd). rewrite dir_data_chain in HQ; [exact HQ | done | apply G | done].
Qed.

Lemma wp_load_dir d s (Q : list Z * list Z -> state -> Prop) E :
  good s ->
  (forall cs s', read_only s s' -> dir_ok (vol s) d cs -> Q (cs, dir_data (vol s) (dev s) d cs) s') ->
  (forall e s', read_only s s' -> E e s') ->
  wp (load_dir env d) s Q E.
Proof. intros G HQ HE. apply wp_load_dir_exact; auto. Qed.

(** * Writing *)

(** The [i]-th sector of the directory holds its piece of [data]. *)
Definition stored_sector (v : Volume) (d : Dir) (cs : list Z) (data : list Z) (dv : BlkDevice) (i : Z) : Prop :=
  forall k, 0 <= k < dir_len v d cs -> k / SECTOR = i ->
    sector_of (media dv) (loc v d cs i) !! Z.to_nat (k mod SECTOR) = data !! Z.to_nat k.

Lemma good_dir_write s s' d cs :
  good s -> dir_ok (vol s) d cs -> vol s' = vol s -> writable s' ->
  framed (dir_area (vol s) d cs) (dev s) (dev s') -> good s'.
Proof.
  intros [OK W Co Cn] Hd Hv W' F. constructor; rewrite ?Hv; try done.
  eapply coherent_framed; [done | done | exact F |]. intros l Hl Hin.
  apply (loc_not_system (vol s) d cs OK Hd l Hin). by apply system_fats.
Qed.

Lemma wp_store_sector d cs data i s (Q : unit -> state -> Prop) E :
  good s -> dir_ok (vol s) d cs -> Z.of_nat (length data) = dir_len (vol s) d cs -> Forall is_byte data ->
  0 <= i < dir_sectors (vol s) d cs ->
  (forall s', vol s' = vol s -> good s' -> framed (eq (loc (vol s) d cs i)) (dev s) (dev s') ->
     stored_sector (vol s) d cs data (dev s') i -> Q tt s') ->
  (forall e s', safe s' -> framed (dir_area (vol s) d cs) (dev s) (dev s') -> E e s') ->
  wp (store_sector env d cs data i) s Q E.
Proof.
  intros G Hd Hlen Hdb Hi HQ HE. pose proof (gd_vol _ G) as OK. set (v := vol s) in *.
  unfold store_sector. apply wp_bind, wp_get_vol. fold v.
  assert (i * SECTOR < dir_len v d cs) as Hbeg.
  { unfold dir_sectors in Hi. unfold SECTOR in *. zdiv. }
  rewrite Hlen. set (n := Z.min SECTOR (dir_len v d cs - i * SECTOR)).
  assert (0 < n <= 512) as Hn by (unfold n, SECTOR in *; lia).
  set (piece := take (Z.to_nat n) (drop (Z.to_nat (i * SECTOR)) data)).
  assert (length piece = Z.to_nat n) as Hpl by (unfold piece; rewrite length_take, length_drop; unfold n, SECTOR in *; lia).
  (* the old sector, and what becomes of it *)
  assert (forall st old, read_only s st -> sector_ok old ->
            (n < SECTOR -> old = sector_of (media (dev s)) (root_lba v + i)) ->
            wp (l ← (if fixed_root v d then mret (root_lba v + i)
                     else c ← lift (unwrap (cs !! Z.to_nat (i * SECTOR / bytes v)));
                          mret (lba v c + i * SECTOR mod bytes v / SECTOR));
                write_sector env l (splice old 0 piece)) st Q E) as Hwrite.
  { intros st old R [Lo Bo] Hold. pose proof R as [RV RM].
    assert (sector_ok (splice old 0 piece)) as Hsec.
    { split; [rewrite length_splice; lia | apply splice_bytes; [done |]; by apply Forall_take, Forall_drop]. }
    assert (wp (write_sector env (loc v d cs i) (splice old 0 piece)) st Q E) as Hw.
    { apply wp_write_sector; [apply (read_only_good s st R G) | done | |].
      - intros d' Hd'. rewrite RM in Hd'.
        assert (framed (eq (loc v d cs i)) (dev s) (dev (put_dev d' st))) as F.
        { intros l Hl. cbn. rewrite Hd', sector_of_insert. by rewrite decide_False by congruence. }
        apply HQ; [done | | done |].
        + eapply (good_dir_write s _ d cs); [done | done | done | | eapply framed_mono; [| exact F]].
          * split; [cbn; rewrite RV; apply G |]. cbn. rewrite Hd'. apply media_ok_insert; [apply G | done].
          * intros l <-. by exists i.
        + intros k Hk Hki. cbn. rewrite Hd', sector_of_insert, decide_True by done.
          assert (k = i * SECTOR + k mod SECTOR) as Ek by (rewrite <- Hki; unfold SECTOR; zdiv).
          pose proof (Z.mod_pos_bound k SECTOR ltac:(unfold SECTOR; lia)) as Hr.
          assert (k mod SECTOR < n) as Hrn by (unfold n, SECTOR in *; lia).
          change (splice old 0 piece) with (piece ++ drop (length piece) old). rewrite lookup_app_l by (rewrite Hpl; lia). unfold piece. rewrite lookup_take_lt by lia.
          rewrite lookup_drop. f_equal. unfold SECTOR in *. lia.
      - intros s' (S1 & S2 & S3). apply HE; [right; split; [by rewrite S1 | done] |].
        intros l Hl. rewrite S2; [by rewrite RM |]. intros <-. apply Hl. by exists i. }
    unfold loc in Hw. destruct (fixed_root v d) eqn:Ef; [by apply wp_bind, wp_ret |].
    destruct (sector_cluster v d cs OK Hd i Ef Hi) as (c & Hc & _ & Ec & _). rewrite Ec in Hw.
    pose proof (vo_spc v OK) as Hspc. unfold bytes, SECTOR in *.
    rewrite Z.div_mul_cancel_r by lia. rewrite Hc. rewrite Z.mul_mod_distr_r, Z.div_mul by lia.
    apply wp_bind, wp_bind, wp_lift. cbn [unwrap]. apply wp_ret. exact Hw. }
  apply wp_bind. destruct (Z.ltb_spec n SECTOR) as [Hlt | Hge].
  - apply wp_sector.
    + intros d' Hd'. apply Hwrite; [done | apply sector_of_ok, G | done].
    + intros d' Hd'. apply HE; [left; by apply (read_only_good s) |]. intros l _. cbn. by rewrite Hd'.
  - apply wp_ret. apply Hwrite; [apply read_only_refl | exact zero_sector_ok | lia].
Qed.

(** [store_dir] of new contents that differ from the old ones in [start, start + len) only. *)
Lemma wp_store_dir d cs data start len s (Q : unit -> state -> Prop) E :
  good s -> dir_ok (vol s) d cs -> Z.of_nat (length data) = dir_len (vol s) d cs -> Forall is_byte data ->
  0 <= start -> 0 <= len ->
  (forall k, 0 <= k < dir_len (vol s) d cs -> ~ start <= k < start + len ->
     data !! Z.to_nat k = dir_data (vol s) (dev s) d cs !! Z.to_nat k) ->
  (forall s', vol s' = vol s -> good s' -> framed (dir_area (vol s) d cs) (dev s) (dev s') ->
     dir_data (vol s) (dev s') d cs = data -> Q tt s') ->
  (forall e s', safe s' -> framed (dir_area (vol s) d cs) (dev s) (dev s') -> E e s') ->
  wp (store_dir env d cs data start len) s Q E.
Proof.
  intros G Hd Hlen Hdb Hs0 Hl0 Hsame HQ HE. pose proof (gd_vol _ G) as OK. set (v := vol s) in *.
  unfold store_dir. apply wp_bind, wp_guard.
  { intros _. apply HE; [by left | apply framed_refl]. }
  rewrite Hlen. intros Hfit. set (a := start / SECTOR). set (e := (start + len + SECTOR - 1) / SECTOR).
  assert (0 <= a) as Ha by (apply Z.div_pos; unfold SECTOR; lia).
  assert (e <= dir_sectors v d cs) as He by (unfold e, dir_sectors; apply Z.div_le_mono; unfold SECTOR; lia).
  apply (wp_for_each _ _ (fun dn _ st => vol st = v /\ good st /\ framed (dir_area v d cs) (dev s) (dev st)
    /\ (forall i, i ∈ dn -> stored_sector v d cs data (dev st) i)
    /\ forall i, 0 <= i < dir_sectors v d cs -> i ∉ dn ->
         sector_of (media (dev st)) (loc v d cs i) = sector_of (media (dev s)) (loc v d cs i))).
  - split_and!; try done; by intros i ?%not_elem_of_nil.
  - intros st (V1 & G1 & F1 & D1 & N1). apply HQ; try done.
    assert (media_ok (media (dev st))) as Hm by apply G1. apply (list_eq_same_length _ _ (Z.to_nat (dir_len v d cs))).
    + lia.
    + pose proof (length_dir_data v d cs OK (dev st) Hm). lia.
    + intros i x y Hi Hx Hy. rewrite <- (Nat2Z.id i) in Hx, Hy. pose proof (dir_len_pos v d cs OK).
      assert (0 <= Z.of_nat i < dir_len v d cs) as Hir by lia.
      rewrite (dir_data_lookup v d cs (dev st) _ Hm Hir) in Hx.
      pose proof (dir_sectors_bound v d cs _ Hir) as Hsb.
      destruct (decide (Z.of_nat i / SECTOR ∈ seqZ a (e - a))) as [Hin | Hout].
      * rewrite (D1 _ Hin (Z.of_nat i) Hir eq_refl) in Hx. congruence.
      * rewrite (N1 _ Hsb Hout), <- (dir_data_lookup v d cs (dev s) _ ltac:(apply G) Hir), <- Hsame in Hx; [congruence | done |].
        rewrite elem_of_seqZ in Hout. unfold a, e, SECTOR in *. zdiv.
  - intros dn i rest st El (V1 & G1 & F1 & D1 & N1).
    assert (i ∈ seqZ a (e - a)) as Hi by (rewrite El; apply elem_of_app; right; by left).
    apply elem_of_seqZ in Hi. assert (0 <= i < dir_sectors v d cs) as Hir by lia.
    assert (i ∉ dn) as Hnd.
    { pose proof (NoDup_seqZ a (e - a)) as Hn. rewrite El in Hn. apply NoDup_app in Hn as (_ & Hn & _).
      intros Hin. apply (Hn i Hin). by left. }
    apply wp_store_sector; rewrite ?V1; try done.
    + intros s' V2 G2 F2 D2. split; [congruence |]. split; [done |]. split; [| split].
      * eapply framed_trans; [exact F1 |]. eapply framed_mono; [| exact F2]. intros l <-. by exists i.
      * intros j [Hj | ->%list_elem_of_singleton]%elem_of_app; [| done]. intros k Hk Hkj.
        rewrite F2; [by apply D1 |]. intros Hloc. subst j.
        apply (loc_inj v d cs OK Hd) in Hloc; [| done | by apply dir_sectors_bound]. by subst i.
      * intros j Hj Hout. apply not_elem_of_app in Hout as [Hout Hne]. rewrite F2; [by apply N1 |].
        intros Hloc. apply (loc_inj v d cs OK Hd) in Hloc; [| done | done]. subst j. apply Hne. by left.
    + intros e' s' Hs' F2. apply HE; [done |]. by eapply framed_trans.
Qed.
End Directories.
End FatDir.
