(* ===== verification/FatOps.v ===== *)
(** The operations on a mounted FAT volume (src/fs/fat.rs): every one of them keeps the
    volume consistent, or stops it after a disk failure, and never panics. *)

From Stdlib Require Import ZArith Lia.
From stdpp Require Import base list list_numbers numbers decidable tactics strings gmap.
From S2P Require Import Prelude BlockDev FatNames FatLfn FatTable Fat FatFile FatDir.
Import Blk FatNames FatTable Fat FatFile FatDir.

Module FatOps.

(** * Directories while the table changes *)

Lemma retabled_dir v v' d cs : retabled v v' ->
  fixed_root v' d = fixed_root v d /\ dir_len v' d cs = dir_len v d cs /\ (forall i, loc v' d cs i = loc v d cs i)
  /\ forall dv, dir_data v' dv d cs = dir_data v dv d cs.
Proof.
  intros H. pose proof (retabled_fields _ _ H) as (Ek & Ec & _ & Er & Ed & Es & _ & _ & _ & Ee & _).
  assert (fixed_root v' d = fixed_root v d) as Hf by (unfold fixed_root; by rewrite Ek).
  assert (dir_len v' d cs = dir_len v d cs) as Hl by (unfold dir_len, bytes; by rewrite Hf, Ee, Es).
  assert (forall i, loc v' d cs i = loc v d cs i) as Ho by (intros i; unfold loc, cloc, lba; by rewrite Hf, Er, Ed, Es).
  split; [done |]. split; [done |]. split; [done |]. intros dv. unfold dir_data, dir_sectors. rewrite Hl. f_equal. f_equal.
  apply map_ext. intros i. by rewrite Ho.
Qed.

Lemma chain_same v v' first cs : kind v' = kind v -> clusters v' = clusters v ->
  (forall c, c ∈ cs -> entry v' c = entry v c) -> chain_of v first cs -> chain_of v' first cs.
Proof.
  intros Ek Ec He [Hh Hp Hn Hv]. constructor; [done | | done |].
  - clear Hh Hn Hv. induction cs as [| c cs IH]; [done |]. cbn [path] in *.
    destruct cs as [| c' cs]; [rewrite He by (by left); unfold is_eof, eof in *; by rewrite Ek |].
    destruct Hp as [Hc Hp]. split; [by rewrite He by (by left) |]. apply IH; [| done]. intros x Hx. apply He. by right.
  - eapply Forall_impl; [exact Hv |]. intros c. by rewrite !valid_spec, Ec.
Qed.

Lemma dir_ok_same v v' d cs : retabled v v' -> (forall c, c ∈ cs -> entry v' c = entry v c) -> dir_ok v d cs -> dir_ok v' d cs.
Proof.
  intros H He. unfold dir_ok. destruct (retabled_dir v v' d cs H) as (-> & _).
  pose proof (retabled_fields _ _ H) as (Ek & Ec & _ & _ & _ & Es & _). unfold bytes. rewrite Es.
  destruct (fixed_root v d); [done |]. intros [Hc Hl]. split; [by eapply chain_same | done].
Qed.

Lemma dir_in_use v d cs c : vol_ok v -> dir_ok v d cs -> c ∈ cs -> entry v c <> 0 /\ valid v c = true.
Proof.
  intros OK. unfold dir_ok. destruct (fixed_root v d); [intros -> Hc; by apply not_elem_of_nil in Hc |].
  intros [Hc _] Hin. split; [by eapply chain_nonzero |]. by eapply Forall_elem in Hin; [| apply Hc].
Qed.

Lemma path_unique v a : forall b, vol_ok v -> path v a -> path v b -> head a = head b ->
  Forall (fun c => valid v c = true) a -> Forall (fun c => valid v c = true) b -> a = b.
Proof.
  induction a as [| x a IH]; intros b OK Ha Hb Hh Va Vb; [done |]. destruct b as [| y b]; [done |]. injection Hh as ->.
  apply Forall_cons in Va as [_ Va], Vb as [_ Vb]. f_equal. destruct a as [| x' a], b as [| y' b]; [done | | |].
  - apply path_cons in Hb as [Hy _]. cbn in Ha. rewrite Hy in Ha. apply Forall_cons in Vb as [Vb _]. by rewrite valid_not_eof in Ha.
  - apply path_cons in Ha as [Hy _]. cbn in Hb. rewrite Hy in Hb. apply Forall_cons in Va as [Va _]. by rewrite valid_not_eof in Hb.
  - apply path_cons in Ha as [Hx Ha], Hb as [Hy Hb]. apply IH; try done. cbn. congruence.
Qed.

Lemma dir_ok_unique v d cs cs' : vol_ok v -> dir_ok v d cs -> dir_ok v d cs' -> cs = cs'.
Proof.
  intros OK. unfold dir_ok. destruct (fixed_root v d); [by intros -> -> |].
  intros [[Hh Hp _ Hv] _] [[Hh' Hp' _ Hv'] _]. apply (path_unique v); try done. congruence.
Qed.

(** A fresh allocation leaves directories alone. *)
Lemma dir_ok_takes v v' new d cs : vol_ok v -> takes v new v' -> (forall c, c ∈ new -> entry v c = 0) ->
  dir_ok v d cs -> dir_ok v' d cs.
Proof.
  intros OK T Hnew Hd. eapply dir_ok_same; [apply T | | done]. intros c Hc.
  destruct (dir_in_use v d cs c OK Hd Hc) as [Hne Hv]. rewrite (tk_entry _ _ _ T c Hv). rewrite decide_False; [done |].
  intros Hin. by apply Hne, Hnew.
Qed.

(** * What an operation on a directory may change *)

Definition area (v : Volume) (d : Dir) (cs : list Z) (l : Z) : Prop :=
  if fixed_root v d then root_lba v <= l < data_lba v else exists c, c ∈ cs /\ in_cluster v c l.

Lemma dir_area_area v d cs l : vol_ok v -> dir_ok v d cs -> dir_area v d cs l -> area v d cs l.
Proof.
  intros OK Hd (i & Hi & ->). unfold area, loc. destruct (fixed_root v d) eqn:Ef.
  - unfold dir_sectors, dir_len in Hi. rewrite Ef in Hi. unfold fixed_root in Ef. apply andb_true_iff in Ef as [_ Ef].
    apply negb_true_iff, bool_decide_eq_false_1 in Ef. pose proof (vo_area v OK Ef) as [Hr1 Hr2]. unfold SECTOR in *.
    split; [lia |]. assert ((root_entries v * 32 + 512 - 1) / 512 <= data_lba v - root_lba v); [| lia].
    apply Z.lt_succ_r, Z.div_lt_upper_bound; lia.
  - destruct (sector_cluster v d cs OK Hd i Ef Hi) as (c & Hc & _ & _ & Hin). exists c. split; [by eapply list_elem_of_lookup_2 | done].
Qed.

(** From [s] to [s'] only the tables, the directory and clusters free in [s] were written;
    clusters in use keep their entries, those of the directory apart. *)
Record touches (d : Dir) (cs : list Z) (s s' : state) : Prop := {
  tc_same : retabled (vol s) (vol s');
  tc_frame : forall l, ~ system_area (vol s) l -> ~ area (vol s) d cs l ->
    (forall c, valid (vol s) c = true -> entry (vol s) c = 0 -> ~ in_cluster (vol s) c l) ->
    sector_of (media (dev s')) l = sector_of (media (dev s)) l;
  tc_entry : forall m, valid (vol s) m = true -> entry (vol s) m <> 0 -> m ∉ cs -> entry (vol s') m = entry (vol s) m;
  tc_used : forall m, valid (vol s) m = true -> entry (vol s) m <> 0 -> entry (vol s') m <> 0 }.

Lemma touches_refl d cs s : touches d cs s s.
Proof. constructor; [apply retabled_refl | done..]. Qed.

Lemma touches_trans d cs cs1 s s1 s2 :
  (forall c, c ∈ cs1 -> c ∈ cs \/ (valid (vol s) c = true /\ entry (vol s) c = 0)) ->
  touches d cs s s1 -> touches d cs1 s1 s2 -> touches d cs s s2.
Proof.
  intros Hcs [A1 A2 A3 A4] [B1 B2 B3 B4]. pose proof (retabled_fields _ _ A1) as (Ek & Ec & _ & Er & Ed & Es & _).
  assert (forall m, valid (vol s1) m = valid (vol s) m) as Hv by (intros m; unfold valid; by rewrite Ec).
  assert (forall c l, in_cluster (vol s1) c l <-> in_cluster (vol s) c l) as Hi by (intros c l; unfold in_cluster, lba; by rewrite Ed, Es).
  constructor; [by eapply retabled_trans | | |].
  - intros l H1 H2 H3. rewrite B2; [by apply A2 | unfold system_area in *; by rewrite Er | |].
    + unfold area, fixed_root in *. rewrite Ek. destruct (_ && _); [by rewrite Er, Ed |].
      intros (c & Hc & Hl). rewrite Hi in Hl. destruct (Hcs c Hc) as [Hin | [Hin1 Hin2]]; [apply H2; by exists c | by eapply H3].
    + intros c Hc Hz. rewrite Hv in Hc. rewrite Hi. destruct (decide (entry (vol s) c = 0)) as [E | E]; [by apply H3 |].
      exfalso. by apply (A4 c).
  - intros m H1 H2 H3. rewrite B3; [by apply A3 | by rewrite Hv | by apply A4 |].
    intros Hin. destruct (Hcs m Hin) as [? | [_ ?]]; done.
  - intros m H1 H2. apply B4; [by rewrite Hv | by apply A4].
Qed.

Lemma touches_write d cs s s' : vol_ok (vol s) -> dir_ok (vol s) d cs ->
  vol s' = vol s -> framed (dir_area (vol s) d cs) (dev s) (dev s') -> touches d cs s s'.
Proof.
  intros OK Hd Hv F. constructor; rewrite ?Hv; [apply retabled_refl | | done | done].
  intros l _ H2 _. apply F. intros Hin. by apply H2, dir_area_area.
Qed.

(** * What the decoder says about a record *)

Record record_ok (n : Z) (r : Record_) : Prop := {
  ro_start : 0 <= r_start r <= r_offset r;
  ro_slot : exists i, r_offset r = i * 32;
  ro_first : exists i, r_start r = i * 32;
  ro_end : r_offset r + 32 <= n }.

(** Before entry [i] of a directory. *)
Definition scan_ok (i : Z) (st : scan) : Prop :=
  Forall (record_ok (i * 32)) (s_out st) /\ 0 <= s_start st <= i * 32 /\ exists k, s_start st = k * 32.

Lemma record_ok_mono n n' r : n <= n' -> record_ok n r -> record_ok n' r.
Proof. intros H [H1 H2 H3 H4]. constructor; try done. lia. Qed.
Lemma scan_ok_next i st st' : 0 <= i -> s_out st' = s_out st -> (s_start st' = s_start st \/ s_start st' = i * 32) ->
  scan_ok i st -> scan_ok (i + 1) st'.
Proof.
  intros Hi Ho Hs (H1 & H2 & H3). unfold scan_ok. rewrite Ho. split.
  - eapply Forall_impl; [exact H1 |]. intros r. apply record_ok_mono. lia.
  - destruct Hs as [-> | ->]; split; [lia | done | lia | by exists i].
Qed.

Lemma long_entry_fields st i e :
  s_out (long_entry st i e) = s_out st /\ (s_start (long_entry st i e) = s_start st \/ s_start (long_entry st i e) = i * 32).
Proof. unfold long_entry, begin_long, drop_long. repeat case_if; cbn; auto. Qed.

Section Records.
Context (low : Z -> str).

Lemma short_entry_ok k st i e : 0 <= i -> scan_ok i st -> scan_ok (i + 1) (short_entry low k st i e).
Proof.
  intros Hi (H1 & [H2a H2b] & [j H3]). unfold short_entry. cbn zeta.
  assert (exists name first, (if (0 <? s_total st) && (s_remaining st =? 0) && (s_sum st =? checksum (take 11 e)) then
      match long_name (take (Z.to_nat (s_total st * 13)) (s_utf16 st)) with
      | Some long => (long, s_start st)
      | None => (alias low (take 11 e) (byte e 12), i * 32)
      end
    else (alias low (take 11 e) (byte e 12), i * 32)) = (name, first) /\ 0 <= first <= i * 32 /\ exists j, first = j * 32)
    as (name & first & -> & Hf1 & Hf2).
  { repeat case_match; eexists _, _; (split; [reflexivity |]); (split; [lia | eauto]). }
  assert (Forall (record_ok ((i + 1) * 32)) (s_out st)) as Hout
    by (eapply Forall_impl; [exact H1 |]; intros r; apply record_ok_mono; lia).
  destruct (_ || _ || _).
  - split; [exact Hout |]. cbn. split; [lia | eauto].
  - split; [| cbn; split; [lia | eauto]]. apply Forall_app. split; [exact Hout |]. apply Forall_singleton.
    constructor; cbn; [lia | eauto | done | lia].
Qed.

Lemma scan_entries_ok k es : forall st i, 0 <= i -> scan_ok i st ->
  Forall (record_ok ((i + Z.of_nat (length es)) * 32)) (s_out (scan_entries low k st i es)).
Proof.
  induction es as [| e es IH]; intros st i Hi H; cbn [scan_entries length].
  - rewrite Z.add_0_r. apply H.
  - assert (forall st', scan_ok (i + 1) st' ->
      Forall (record_ok ((i + Z.of_nat (S (length es))) * 32)) (s_out (scan_entries low k st' (i + 1) es))) as Hgo.
    { intros st' H'. replace (i + Z.of_nat (S (length es))) with (i + 1 + Z.of_nat (length es)) by lia. apply IH; [lia | done]. }
    destruct (byte e 0 =? 0).
    { eapply Forall_impl; [apply H |]. intros r. apply record_ok_mono. lia. }
    apply Hgo. destruct (byte e 0 =? 0xe5); [by apply (scan_ok_next i st); auto |].
    destruct (byte e 11 =? 0x0f); [| by apply short_entry_ok].
    destruct (long_entry_fields st i e) as [E1 E2]. by apply (scan_ok_next i st).
Qed.

Lemma length_chunks_exact {A} n (l : list A) : (0 < n)%nat -> (length (chunks_exact n l) * n <= length l)%nat.
Proof.
  intros Hn. unfold chunks_exact. generalize (length l / n)%nat as fuel. intros fuel. revert l.
  induction fuel as [| fuel IH]; intros l; cbn [chunks_exact_aux]; [cbn; lia |].
  destruct (Nat.leb_spec n (length l)); [| cbn; lia]. cbn [length]. specialize (IH (drop n l)). rewrite length_drop in IH. lia.
Qed.

Lemma records_ok data k r : r ∈ records low data k -> record_ok (Z.of_nat (length data)) r.
Proof.
  intros Hr. pose proof (scan_entries_ok k (chunks_exact 32 data) scan0 0 ltac:(lia)) as H.
  pose proof (length_chunks_exact 32 data ltac:(lia)). eapply Forall_elem in H.
  - eapply record_ok_mono; [| exact H]. lia.
  - split; [constructor |]. cbn. split; [lia | by exists 0].
  - exact Hr.
Qed.
End Records.

(** * Short names and entries *)

Lemma short_char_byte c : is_byte (short_char c).
Proof.
  unfold short_char, is_byte. destruct (_ || _) eqn:E; [| lia].
  assert (0 <= c < 128) as Hc.
  { apply orb_true_iff in E as [E | E].
    - unfold is_ascii_alphanumeric, is_digit, is_upper, is_lower in E. lia.
    - unfold contains in E. apply existsb_exists in E as (x & Hx & E%Z.eqb_eq). subst x.
      assert (forallb (fun x => (0 <=? x) && (x <? 128)) (lit "$%'-_@~`!(){}^#&") = true) as Hall by (by vm_compute).
      rewrite forallb_forall in Hall. specialize (Hall c Hx). lia. }
  unfold to_ascii_uppercase. destruct (is_lower c) eqn:El; [| lia]. unfold is_lower in El. lia.
Qed.
Lemma short_chars_bytes l : Forall is_byte (map short_char l).
Proof. apply Forall_map, Forall_true. intros c. apply short_char_byte. Qed.

Definition short_ok (short : list Z) : Prop := length short = 11%nat /\ Forall is_byte short.
Lemma blank_short : short_ok (replicate 11 32).
Proof. split; [done |]. apply Forall_replicate. unfold is_byte. lia. Qed.
Lemma overlay_ok short o cs : short_ok short -> (o + length cs <= 11)%nat -> Forall is_byte cs -> short_ok (overlay short o cs).
Proof. intros [Hl Hb] Ho Hc. unfold overlay. split; [rewrite length_splice; lia | by apply splice_bytes]. Qed.

Lemma digits_spec fuel : forall n, (length (digits fuel n) <= fuel)%nat /\ Forall is_byte (digits fuel n).
Proof.
  induction fuel as [| fuel IH]; intros n; cbn [digits]; [split; [done | constructor] |].
  destruct (n =? 0); [split; [cbn; lia | constructor] |]. destruct (IH (n / 10)) as [H1 H2]. split.
  - rewrite length_app. cbn. lia.
  - apply Forall_app. split; [done |]. apply Forall_singleton. unfold is_byte. pose proof (Z.mod_pos_bound n 10). lia.
Qed.

Lemma numbered_ok base ext number : short_ok (numbered (map short_char base) ext number).
Proof.
  unfold numbered. destruct (digits_spec 6 number) as [Hd1 Hd2]. set (ds := digits 6 number) in *.
  set (prefix := Nat.min (7 - length ds) (length (map short_char base))).
  apply overlay_ok; [| rewrite length_map, length_take; lia | apply short_chars_bytes].
  apply overlay_ok; [| lia | done].
  assert (short_ok (overlay (replicate 11 32) 0 (take prefix (map short_char base)))) as [Hl Hb].
  { apply overlay_ok; [apply blank_short | rewrite length_take; lia | apply Forall_take, short_chars_bytes]. }
  split; [by rewrite length_insert |]. apply Forall_insert; [done |]. unfold is_byte. lia.
Qed.

Lemma str_len_length s : Z.of_nat (length s) <= str_len s.
Proof. induction s as [| c s IH]; [done |]. cbn. fold (str_len s). unfold utf8_len. repeat case_if; lia. Qed.

Lemma short_name_ok name existing short : short_name name existing = Ok short -> short_ok short.
Proof.
  unfold short_name. destruct (base_ext name) as [base ext]. destruct (simple_name base ext && _) eqn:E.
  - intros [= <-]. apply andb_true_iff in E as [E _]. unfold simple_name in E.
    apply andb_true_iff in E as [[[_ E1]%andb_true_iff E2]%andb_true_iff _].
    pose proof (str_len_length base). pose proof (str_len_length ext). unfold direct_name.
    apply overlay_ok; [| rewrite length_map; lia | apply short_chars_bytes].
    apply overlay_ok; [apply blank_short | rewrite length_map; lia | apply short_chars_bytes].
  - clear E. set (clean := List.filter _ base). generalize (Z.to_nat 999999) as fuel. intros fuel. generalize 1 as number. revert fuel.
    induction fuel as [| fuel IH]; intros number; cbn [first_number]; [done |].
    destruct (taken existing _); [apply IH |]. intros [= <-]. apply numbered_ok.
Qed.

Lemma checksum_byte short : is_byte (checksum short).
Proof.
  unfold checksum. assert (forall a, is_byte a -> is_byte (foldl (fun sum b => (rotate_right 8 sum 1 + b) mod 256) a short)) as H.
  { induction short as [| b short IH]; intros a Ha; [done |]. cbn [foldl]. apply IH. unfold is_byte. apply Z.mod_pos_bound. lia. }
  apply H. unfold is_byte. lia.
Qed.

Lemma entry_set_ok tl name short first size attr k : short_ok short -> is_byte attr ->
  length (entry_set tl name short first size attr k) = ((lfn_count tl name short + 1) * 32)%nat
  /\ Forall is_byte (entry_set tl name short first size attr k).
Proof.
  intros [Hl Hb] Ha. unfold entry_set. set (count := lfn_count tl name short).
  assert (length (short_slot short first size attr k) = 32%nat) as Hsl.
  { clear Hb count. do 11 (destruct short as [| ? short]; [done |]). by destruct short. }
  split.
  - rewrite length_app, Hsl, (length_join 32); [rewrite length_map, length_seq; lia |].
    apply Forall_map, Forall_true. intros i. apply FatLfn.length_long_slot.
  - apply Forall_app. split.
    + generalize (seq 0 count) as l. induction l as [| i l IH]; [constructor |]. apply Forall_app. split; [| exact IH].
      unfold long_slot. cbn zeta.
      assert (forall (ps : list (nat * nat)) e, Forall is_byte e -> Forall is_byte (foldl (fun e '(j, pos) =>
        splice e pos (to_le_bytes 2 (unit_at (encode_utf16 name) ((count - i - 1) * 13 + j)))) e ps)) as Hf.
      { induction ps as [| [j pos] ps IHp]; intros e He; [done |]. cbn [foldl]. apply IHp, splice_bytes; [done | apply to_le_bytes_bytes]. }
      apply Hf. assert (Forall is_byte (replicate 32 0)) by (apply Forall_replicate; unfold is_byte; lia).
      repeat apply Forall_insert; try done; [| apply checksum_byte].
      unfold is_byte. assert (0 <= Z.of_nat (count - i) mod 256 < 2 ^ 8) by (change (2 ^ 8) with 256; apply Z.mod_pos_bound; lia).
      apply (lor_range 8); [done | destruct (i =? 0)%nat; lia | lia].
    + unfold short_slot, put_cluster. cbn [foldl].
      repeat (apply splice_bytes; [| apply to_le_bytes_bytes]). apply Forall_insert; [| done].
      apply splice_bytes; [apply Forall_replicate; unfold is_byte; lia | done].
Qed.

Lemma splice_lookup_out (b src : list Z) o k : (o + length src <= length b)%nat -> ~ (o <= k < o + length src)%nat ->
  splice b o src !! k = b !! k.
Proof.
  intros H Hk. unfold splice. destruct (decide (k < o)%nat).
  - rewrite lookup_app_l by (rewrite length_take; lia). by rewrite lookup_take_lt.
  - rewrite lookup_app_r by (rewrite length_take; lia). rewrite lookup_app_r by (rewrite length_take; lia).
    rewrite lookup_drop. f_equal. rewrite length_take. lia.
Qed.
Lemma splice_twice (b x y : list Z) o : (o + length x + length y <= length b)%nat ->
  splice (splice b o x) (o + length x) y = splice b o (x ++ y).
Proof.
  intros H. unfold splice. set (p := take o b ++ x). assert (length p = (o + length x)%nat) as Hp.
  { unfold p. rewrite length_app, length_take. lia. }
  rewrite (app_assoc (take o b) x (drop _ b)). fold p. rewrite take_app_length' by done.
  rewrite drop_app_ge by lia. rewrite drop_drop, Hp, length_app, <- (app_assoc x y).
  unfold p. rewrite <- app_assoc. do 4 f_equal. lia.
Qed.

#[local] Create HintDb fat.
Section Ops.
Context (env : nat -> response) (up low : Z -> str).

(** * Growing a directory *)

Lemma good_relink s s' n value f :
  good s -> vol s' = set_fat (vol s) f -> table_set (vol s) n value f -> writable s' -> coherent (vol s') (dev s') ->
  entry (vol s) n <> 0 -> value <> 0 -> good s'.
Proof.
  intros [OK W Co Cn] Hv [OK' He] W' Co' Hold Hnew. constructor; rewrite ?Hv; try done.
  - by rewrite Hv in Co'.
  - unfold counted in *. cbn [free_count set_fat]. rewrite Cn. unfold zero_count. cbn [clusters set_fat]. do 2 f_equal.
    apply filter_ext_in. intros x Hx%elem_of_seqZ. unfold is_free. rewrite (He x) by (apply valid_spec; lia).
    case_decide; [subst | done]. by rewrite (proj2 (Z.eqb_neq _ _) Hold), (proj2 (Z.eqb_neq _ _) Hnew).
Qed.

Lemma path_snoc v v' cs c : kind v' = kind v -> path v cs ->
  (forall x, x ∈ cs -> Some x <> last cs -> entry v' x = entry v x) ->
  (forall t, last cs = Some t -> entry v' t = c) -> NoDup cs -> is_eof v' (entry v' c) = true -> path v' (cs ++ [c]).
Proof.
  intros Ek. induction cs as [| x cs IH]; intros Hp He Hl Hn Hc; [done |]. apply NoDup_cons in Hn as [Hx Hn].
  destruct cs as [| y cs].
  - cbn. split; [by apply Hl | done].
  - apply path_cons in Hp as [Hxy Hp]. cbn [app]. apply path_cons. split.
    + rewrite He; [done | by left |]. change (last (x :: y :: cs)) with (last (y :: cs)). intros Hlast. apply Hx.
      symmetry in Hlast. apply last_Some_elem_of in Hlast. done.
    + apply IH; try done. intros z Hz Hzl. apply He; [by right | done].
Qed.

Lemma wp_grow {A} d cs (K : Z -> V A) s (Q : A -> state -> Prop) E :
  good s -> dir_ok (vol s) d cs -> fixed_root (vol s) d = false -> dir_len (vol s) d cs + bytes (vol s) <= MAX_METADATA ->
  (forall c s', good s' -> dir_ok (vol s') d (cs ++ [c]) ->
     dir_data (vol s') (dev s') d (cs ++ [c]) = dir_data (vol s) (dev s) d cs ++ replicate (Z.to_nat (bytes (vol s))) 0 ->
     touches d cs s s' -> valid (vol s) c = true -> entry (vol s) c = 0 -> wp (K c) s' Q E) ->
  (forall e s', safe s' -> E e s') ->
  wp (new ← allocate env 1; new ← lift (unwrap (head new));
      _ ← write_cluster env new (replicate (Z.to_nat (bytes (vol s))) 0);
      tail ← lift (ok_or (last cs) "empty directory chain");
      _ ← set_ env tail new; K new) s Q E.
Proof.
  intros G Hd Ef Hmax HK HE. pose proof (gd_vol _ G) as OK. destruct (file_limit_pos _ OK) as [Hb _].
  apply wp_bind, wp_allocate; [done | |].
  2:{ intros e s' [(-> & -> & _) | (_ & Hs & _)]; apply HE; [by left | done]. }
  intros s1 L1 T1 G1 F1. remember (first_free (vol s) 1) as new eqn:En.
  destruct new as [| c [| ? ?]]; [done | | done].
  assert (valid (vol s) c = true /\ entry (vol s) c = 0) as [Hvc Hzc].
  { apply (first_free_spec (vol s) 1 c OK). rewrite <- En. by left. }
  pose proof (tk_same _ _ _ T1) as Rt1. pose proof (retabled_fields _ _ Rt1) as (Ek & Ec & _ & Er & Ed & Es & _ & _ & _ & Ee & _).
  assert (forall x, valid (vol s1) x = valid (vol s) x) as Hvv by (intros x; unfold valid; by rewrite Ec).
  assert (bytes (vol s1) = bytes (vol s)) as Ebytes by (unfold bytes; by rewrite Es).
  apply wp_bind, wp_lift. cbn [head unwrap].
  apply wp_bind, wp_write_cluster; rewrite ?Ebytes; try done; [apply G1 | apply G1 | by rewrite Hvv | rewrite length_replicate; lia | | |].
  { apply Forall_replicate. unfold is_byte. lia. }
  2:{ intros s' (A1 & A2 & A3). apply HE. by right. }
  intros s2 V2 W2 F2 D2. assert (good s2) as G2 by (eapply (good_write s1 s2 c); [done | by rewrite Hvv | done..]).
  unfold dir_ok in Hd. rewrite Ef in Hd. destruct Hd as [Hch Hlen].
  assert (cs <> []) as Hne by (destruct Hch as [Hh _ _ _]; by intros ->).
  destruct (snoc_of cs Hne) as (cs0 & t & Ecs). assert (last cs = Some t) as Hlast by (rewrite Ecs; apply last_snoc).
  assert (t ∈ cs) as Htin by (rewrite Ecs; apply elem_of_app; right; by left).
  assert (forall x, x ∈ cs -> valid (vol s) x = true /\ entry (vol s) x <> 0) as Huse.
  { intros x Hx. split; [by eapply Forall_elem in Hx; [| apply Hch] | by eapply chain_nonzero]. }
  assert (c ∉ cs) as Hcn by (intros Hin; by apply (Huse c Hin)).
  assert (forall x, x ∈ cs -> entry (vol s1) x = entry (vol s) x) as He1.
  { intros x Hx. rewrite (tk_entry _ _ _ T1 x) by (by apply Huse). rewrite decide_False; [done |].
    intros ->%list_elem_of_singleton. done. }
  assert (entry (vol s1) c = eof (vol s)) as Hec.
  { rewrite (tk_entry _ _ _ T1 c Hvc). rewrite decide_True by (by left). cbn. by rewrite decide_True. }
  apply wp_bind, wp_lift. rewrite Hlast. cbn [ok_or].
  apply wp_bind, wp_set; rewrite ?V2; try done; [apply G1 | rewrite <- V2; apply G2 | rewrite Hvv; by apply Huse | | |].
  { apply valid_le_eof; [apply G1 | by rewrite Hvv]. }
  2:{ intros s' (A1 & A2 & A3). apply HE. by right. }
  intros s3 f V3 TS W3 Co3 F3.
  assert (good s3) as G3.
  { eapply (good_relink s2 s3 t c f); rewrite ?V2; try done; [rewrite He1 by done; by apply Huse |].
    apply valid_spec in Hvc. lia. }
  destruct TS as [OK3 He3]. rewrite V3 in *.
  assert (forall m, valid (vol s) m = true -> entry (set_fat (vol s1) f) m = if decide (m = t) then c else entry (vol s1) m) as He.
  { intros m Hm. apply He3. by rewrite Hvv. }
  assert (retabled (vol s) (vol s3)) as Rt.
  { eapply retabled_trans; [exact Rt1 |]. rewrite V3. unfold retabled. by destruct (vol s1). }
  assert (eof (vol s) <> 0) as Heof by (pose proof (eof_pos (vol s)); lia).
  assert (touches d cs s s3) as Tc.
  { constructor; [done | | |].
    - intros l H1 H2 H3. rewrite F3, F2, F1; [done | done | |].
      + intros Hl. apply (H3 c Hvc Hzc). unfold in_cluster, lba in *. by rewrite Ed, Es in Hl.
      + intros Hl. apply H1. unfold in_fats, system_area in *. rewrite Er in Hl. lia.
    - intros m Hm Hz Hnc. rewrite V3, He by done. rewrite decide_False by (by intros ->).
      rewrite (tk_entry _ _ _ T1 m Hm). by rewrite decide_False by (by intros ->%list_elem_of_singleton).
    - intros m Hm Hz. rewrite V3, He by done. case_decide; [apply valid_spec in Hvc; lia |].
      rewrite (tk_entry _ _ _ T1 m Hm). case_decide as Hmc; [by apply list_elem_of_singleton in Hmc as -> | done]. }
  assert (fixed_root (vol s3) d = false) as Ef3 by (rewrite (proj1 (retabled_dir _ _ d cs Rt)); exact Ef).
  apply HK; try done.
  - unfold dir_ok. rewrite Ef3. split.
    + constructor.
      * destruct Hch as [Hh _ _ _]. by destruct cs.
      * rewrite V3. apply (path_snoc (vol s)); [by cbn | apply Hch | | | apply Hch |].
        -- intros x Hx Hxl. rewrite He by (by apply Huse). rewrite decide_False by (intros ->; by apply Hxl). by apply He1.
        -- intros t' Ht'. assert (t' = t) as -> by congruence. rewrite He by (by apply Huse). by rewrite decide_True.
        -- rewrite He by done. rewrite decide_False by (by intros ->). rewrite Hec. unfold is_eof, eof. cbn [kind set_fat]. rewrite Ek.
           apply Z.leb_le. lia.
      * apply NoDup_app. split; [apply Hch |]. split; [| by apply NoDup_singleton]. intros x Hx ->%list_elem_of_singleton. done.
      * apply Forall_app. split; [eapply Forall_impl; [apply Hch |]; intros x; rewrite !valid_spec, V3; cbn; by rewrite Ec |].
        apply Forall_singleton. rewrite V3. unfold valid in *. cbn. by rewrite Ec.
    + rewrite length_app. cbn [length]. unfold bytes in *. rewrite V3. cbn [spc set_fat]. rewrite Es.
      unfold dir_len, bytes in Hmax. rewrite Ef in Hmax. apply Z.div_le_lower_bound; [lia |]. lia.
  - rewrite !dir_data_chain; try done; [| apply G | apply G3 | apply W3].
    rewrite map_app, join_app. f_equal.
    + f_equal. apply map_ext_in. intros x Hx%list_elem_of_In. rewrite V3.
      assert (cluster_data (set_fat (vol s1) f) (dev s3) x = cluster_data (vol s) (dev s3) x) as ->.
      { unfold cluster_data, lba. cbn [spc data_lba set_fat]. by rewrite Es, Ed. }
      eapply (cluster_data_framed _ _ _ (fun l => system_area (vol s) l \/ in_cluster (vol s) c l)).
      * intros l Hl. apply Decidable.not_or in Hl as [Hl1 Hl2]. rewrite F3, F2, F1; [done | done | |].
        -- intros H. apply Hl2. unfold in_cluster, lba in *. by rewrite Ed, Es in H.
        -- intros H. apply Hl1. unfold in_fats, system_area in *. rewrite Er in H. lia.
      * intros l Hl [Hs | Hc']; [by eapply cluster_not_system; [| by apply Huse | |] |].
        pose proof (clusters_apart _ _ _ _ OK Hl Hc') as ->. done.
    + cbn [map]. change (mjoin [?x]) with (x ++ []). rewrite app_nil_r, <- D2. rewrite V3.
      assert (forall dv, cluster_data (set_fat (vol s1) f) dv c = cluster_data (vol s1) dv c) as -> by done.
      eapply cluster_data_framed; [exact F3 |]. intros l Hl Hf.
      eapply (cluster_not_system (vol s1) c l); [apply G1 | by rewrite Hvv | done | by apply system_fats].
Qed.

(** * Finding room *)

(** Slots that hold nothing: deleted entries, up to an end mark. *)
Fixpoint free_run (es : list (list Z)) : Prop :=
  match es with [] => True | e :: es => byte e 0 = 0 \/ byte e 0 = 0xe5 /\ free_run es end.
Definition is_end (e : list Z) : Prop := byte e 0 = 0.

Lemma free_run_snoc es e : free_run es -> is_end e \/ byte e 0 = 0xe5 \/ Exists is_end es -> free_run (es ++ [e]).
Proof.
  induction es as [| x es IH]; cbn [free_run app].
  - intros _ [H | [H | H%Exists_nil]]; [by left | by right | done].
  - intros [Hx | [Hx Hes]] H; [by left |]. right. split; [done |]. apply IH; [done |].
    destruct H as [H | [H | H]]; [by left | by right; left |]. right. right.
    apply Exists_cons in H as [H | H]; [| done]. unfold is_end in H. congruence.
Qed.

(** The free slots found: whole entries of the directory, no end mark before them. *)
Record room (data : list Z) (needed start : Z) : Prop := {
  rm_slot : exists k, 0 <= k /\ start = k * 32;
  rm_end : start + needed * 32 <= Z.of_nat (length data);
  rm_before : forall j e, Z.of_nat j < start / 32 -> chunks_exact 32 data !! j = Some e -> ~ is_end e;
  rm_free : free_run (take (Z.to_nat needed) (drop (Z.to_nat (start / 32)) (chunks_exact 32 data))) }.

(** [run] free slots end [pre]; [ended] tells whether one of them is an end mark. *)
Record scanned_slots (pre : list (list Z)) (run : nat) (ended : bool) : Prop := {
  ss_run : (run <= length pre)%nat;
  ss_before : Forall (fun e => ~ is_end e) (take (length pre - run) pre);
  ss_free : free_run (drop (length pre - run) pre);
  ss_ended : ended = true <-> Exists is_end (drop (length pre - run) pre) }.

Lemma scanned_free pre run ended e : scanned_slots pre run ended ->
  (ended || (byte e 0 =? 0)) || (byte e 0 =? 0xe5) = true -> scanned_slots (pre ++ [e]) (S run) (ended || (byte e 0 =? 0)).
Proof.
  intros [H1 H2 H3 H4] He.
  assert (length (pre ++ [e]) - S run = length pre - run)%nat as El by (rewrite length_app; cbn; lia).
  assert (forall d, drop (length pre - run) (pre ++ d) = drop (length pre - run) pre ++ d) as Hdrop by (intros d; apply drop_app_le; lia).
  constructor; rewrite ?El, ?Hdrop; [rewrite length_app; cbn; lia | by rewrite take_app_le by lia | |].
  - apply free_run_snoc; [done |]. apply orb_true_iff in He as [He | He%Z.eqb_eq]; [| by right; left].
    apply orb_true_iff in He as [He | He%Z.eqb_eq]; [right; right; by apply H4 | by left].
  - rewrite orb_true_iff, H4, Exists_app, Exists_cons, Exists_nil, Z.eqb_eq. unfold is_end. tauto.
Qed.

Lemma scanned_used pre run ended e : scanned_slots pre run ended ->
  (ended || (byte e 0 =? 0)) || (byte e 0 =? 0xe5) = false -> scanned_slots (pre ++ [e]) 0 (ended || (byte e 0 =? 0)).
Proof.
  intros [H1 H2 H3 H4] [[He Hz%Z.eqb_neq]%orb_false_iff _]%orb_false_iff.
  constructor; rewrite ?Nat.sub_0_r; [lia | | by rewrite drop_all | rewrite drop_all, Exists_nil; split; [| done]].
  - rewrite take_ge by done. apply Forall_app. split; [| by apply Forall_singleton].
    rewrite <- (take_drop (length pre - run) pre). apply Forall_app. split; [done |].
    apply Forall_Exists_neg. intros Hx. apply H4 in Hx. congruence.
  - subst ended. intros Hor. apply Z.eqb_neq in Hz. by rewrite Hz in Hor.
Qed.

Lemma free_slots_from_spec needed es : forall pre run ended start,
  (run < needed)%nat -> scanned_slots pre run ended ->
  free_slots_from es (Z.of_nat needed) (Z.of_nat (length pre)) (Z.of_nat run) ended = Some start ->
  exists k, start = Z.of_nat k * 32 /\ (k + needed <= length (pre ++ es))%nat
    /\ Forall (fun e => ~ is_end e) (take k (pre ++ es)) /\ free_run (take needed (drop k (pre ++ es))).
Proof.
  induction es as [| e es IH]; intros pre run ended start Hr Hs; [done |]. cbn [free_slots_from].
  assert (pre ++ e :: es = (pre ++ [e]) ++ es) as -> by by rewrite <- app_assoc.
  assert (Z.of_nat (length pre) + 1 = Z.of_nat (length (pre ++ [e]))) as El by (rewrite length_app; cbn; lia).
  destruct ((ended || (byte e 0 =? 0)) || (byte e 0 =? 0xe5)) eqn:Ef.
  - pose proof (scanned_free _ _ _ _ Hs Ef) as Hs'. destruct (Z.eqb_spec (Z.of_nat run + 1) (Z.of_nat needed)) as [E | E].
    + intros [= <-]. destruct Hs' as [H1 H2 H3 _]. assert (needed = S run) as -> by lia.
      exists (length (pre ++ [e]) - S run)%nat. split; [lia |]. split; [rewrite (length_app (pre ++ [e]) es); lia |].
      rewrite take_app_le, drop_app_le by lia. split; [done |]. rewrite take_app_length' by (rewrite length_drop; lia). done.
    + rewrite El. replace (Z.of_nat run + 1) with (Z.of_nat (S run)) by lia. apply IH; [lia | done].
  - rewrite El. apply (IH _ 0%nat); [lia | by eapply scanned_used].
Qed.

Lemma free_slots_spec data needed start : 1 <= needed -> free_slots data needed = Some start -> room data needed start.
Proof.
  intros Hn H. rewrite <- (Z2Nat.id needed) in H by lia.
  destruct (free_slots_from_spec (Z.to_nat needed) (chunks_exact 32 data) [] 0 false start) as (k & -> & H2 & H3 & H4); [lia | | done |].
  { constructor; [done | constructor | done |]. cbn. by rewrite Exists_nil. }
  cbn [app] in *. pose proof (length_chunks_exact 32 data ltac:(lia)). constructor; rewrite ?Z.div_mul, ?Nat2Z.id by lia.
  - exists (Z.of_nat k). lia.
  - lia.
  - intros j e Hj He. rewrite Forall_lookup in H3. apply (H3 j). rewrite lookup_take_lt by lia. done.
  - done.
Qed.

Lemma wp_find_room needed d : forall fuel cs s (Q : list Z * list Z * Z -> state -> Prop) E,
  good s -> dir_ok (vol s) d cs -> 1 <= needed -> (0 < fuel)%nat ->
  (fixed_root (vol s) d = false -> MAX_METADATA < dir_len (vol s) d cs + SECTOR * Z.of_nat fuel) ->
  (forall cs' start s', good s' -> dir_ok (vol s') d cs' -> room (dir_data (vol s') (dev s') d cs') needed start ->
     touches d cs s s' -> (exists more, cs' = cs ++ more /\ forall c, c ∈ more -> valid (vol s) c = true /\ entry (vol s) c = 0) ->
     (exists n, dir_data (vol s') (dev s') d cs' = dir_data (vol s) (dev s) d cs ++ replicate n 0) ->
     Q (cs', dir_data (vol s') (dev s') d cs', start) s') ->
  (forall e s', safe s' -> E e s') ->
  wp (find_room env fuel d needed cs (dir_data (vol s) (dev s) d cs)) s Q E.
Proof.
  induction fuel as [| fuel IH]; intros cs s Q E G Hd Hn Hf0 Hf HQ HE; [lia |]. pose proof (gd_vol _ G) as OK.
  cbn [find_room]. destruct (free_slots _ needed) as [start |] eqn:Es.
  { apply wp_ret. apply HQ; try done; [by apply free_slots_spec | apply touches_refl | |].
    - exists []. rewrite app_nil_r. split; [done |]. by intros c ?%not_elem_of_nil.
    - exists 0%nat. by rewrite app_nil_r. }
  apply wp_bind, wp_get_vol. apply wp_bind, wp_guard; [intros _; apply HE; by left |]. intros Ef.
  pose proof (length_dir_data (vol s) d cs OK (dev s) ltac:(apply G)) as Hl. rewrite Hl.
  apply wp_bind, wp_guard; [intros _; apply HE; by left |]. intros Hmax.
  apply (wp_grow d cs); try done; [lia |]. intros c s1 G1 Hd1 Hdata Tc Hvc Hzc.
  rewrite <- Hdata. specialize (Hf Ef). pose proof (tc_same _ _ _ _ Tc) as Rt.
  destruct (retabled_dir _ _ d (cs ++ [c]) Rt) as (Ef1 & El1 & _). destruct (file_limit_pos _ OK) as [Hb _].
  assert (dir_len (vol s) d (cs ++ [c]) = dir_len (vol s) d cs + bytes (vol s)) as Hlen.
  { unfold dir_len. rewrite Ef, length_app. cbn [length]. lia. }
  assert (SECTOR <= bytes (vol s)) as Hsb by (unfold bytes, SECTOR; pose proof (vo_spc _ OK); lia).
  apply IH; try done.
  - unfold SECTOR in *. lia.
  - intros _. rewrite El1, Hlen. lia.
  - intros cs' start s' G' Hd' Hr T' (more & -> & Hmore) (n & Hn').
    apply HQ; try done.
    + eapply touches_trans; [| exact Tc | exact T']. intros x Hx. apply elem_of_app in Hx as [? | ->%list_elem_of_singleton]; auto.
    + exists (c :: more). split; [by rewrite <- app_assoc |]. intros x [-> | Hx]%elem_of_cons; [done |].
      destruct (Hmore x Hx) as [H1 H2]. pose proof (retabled_fields _ _ Rt) as (_ & Ec & _).
      assert (valid (vol s) x = true) as Hvx by (unfold valid in *; by rewrite Ec in H1). split; [done |].
      destruct (decide (entry (vol s) x = 0)) as [? | Hne]; [done |]. exfalso. by apply (tc_used _ _ _ _ Tc x).
    + exists (Z.to_nat (bytes (vol s)) + n)%nat. by rewrite Hn', Hdata, replicate_add, app_assoc.
Qed.

(** * Looking up *)

(** [r] is a record of the directory [d]. *)
Definition is_record (v : Volume) (dv : BlkDevice) (d : Dir) (r : Record_) : Prop :=
  exists cs, dir_ok v d cs /\ r ∈ records low (dir_data v dv d cs) (kind v).

Lemma is_record_ext v dv dv' d r : media dv' = media dv -> is_record v dv d r -> is_record v dv' d r.
Proof. intros E (cs & Hd & Hr). exists cs. split; [done |]. by rewrite (dir_data_ext v dv dv'). Qed.

Lemma wp_lookup_in parts : forall d s (Q : Dir * Record_ -> state -> Prop) E,
  good s ->
  (forall d' r s', read_only s s' -> is_record (vol s) (dev s) d' r -> Q (d', r) s') ->
  (forall e s', read_only s s' -> E e s') -> wp (lookup_in env up low d parts) s Q E.
Proof.
  induction parts as [| part rest IH]; intros d s Q E G HQ HE; cbn [lookup_in]; [by apply wp_fail, HE |].
  apply wp_bind, wp_load_dir; [done | | done]. intros cs s1 R1 Hd. apply wp_bind, wp_get_vol, wp_bind, wp_lift.
  pose proof R1 as [V1 M1]. rewrite V1.
  destruct (List.find _ _) as [r |] eqn:Ef; [| by apply HE]. cbn [ok_or]. apply find_some in Ef as [Hin%list_elem_of_In _].
  assert (is_record (vol s) (dev s) d r) as Hr by by exists cs.
  case_bool_decide; [by apply wp_ret, HQ |].
  apply wp_bind, wp_guard; [by intros _; apply HE |]. intros _.
  apply IH; [by apply (read_only_good s) | |].
  - intros d' r' s' R2 Hr'. apply HQ; [by eapply read_only_trans |]. rewrite V1 in Hr'. by eapply is_record_ext.
  - intros e s' R2. apply HE. by eapply read_only_trans.
Qed.

Lemma wp_lookup path s (Q : Dir * Record_ -> state -> Prop) E :
  good s -> (forall d r s', read_only s s' -> is_record (vol s) (dev s) d r -> Q (d, r) s') ->
  (forall e s', read_only s s' -> E e s') -> wp (lookup env up low path) s Q E.
Proof. intros. unfold lookup. apply wp_bind, wp_get_vol. by apply wp_lookup_in. Qed.

Lemma wp_directory path s (Q : Dir -> state -> Prop) E :
  good s -> (forall d s', read_only s s' -> Q d s') -> (forall e s', read_only s s' -> E e s') ->
  wp (directory env up low path) s Q E.
Proof.
  intros G HQ HE. unfold directory. case_bool_decide; [apply wp_bind, wp_get_vol, wp_ret, HQ, read_only_refl |].
  apply wp_bind, wp_lookup; [done | | done]. intros d r s' R _. apply wp_bind, wp_guard; [by intros _; apply HE |].
  intros _. by apply wp_ret, HQ.
Qed.

Lemma wp_walk parts : forall d s (Q : Dir -> state -> Prop) E,
  good s -> (forall d' s', read_only s s' -> Q d' s') -> (forall e s', read_only s s' -> E e s') ->
  wp (walk env up low d parts) s Q E.
Proof.
  induction parts as [| part rest IH]; intros d s Q E G HQ HE; cbn [walk]; [apply wp_ret, HQ, read_only_refl |].
  apply wp_bind, wp_load_dir; [done | | done]. intros cs s1 R1 Hd. apply wp_bind, wp_get_vol, wp_bind, wp_lift.
  destruct (List.find _ _) as [r |] eqn:Ef; [| by apply HE]. cbn [ok_or].
  apply wp_bind, wp_guard; [by intros _; apply HE |]. intros _.
  apply IH; [by apply (read_only_good s) | |]; intros ? s' R2; [apply HQ | apply HE]; by eapply read_only_trans.
Qed.

Lemma wp_parent path s (Q : Dir * str -> state -> Prop) E :
  good s -> (forall d name s', read_only s s' -> Q (d, name) s') -> (forall e s', read_only s s' -> E e s') ->
  wp (parent env up low path) s Q E.
Proof.
  intros G HQ HE. unfold parent. apply wp_bind, wp_lift.
  destruct (last (components path)) as [name |]; [| apply HE, read_only_refl]. cbn [ok_or].
  apply wp_bind, wp_get_vol, wp_bind, wp_walk; [done | | done]. intros d s' R. by apply wp_ret, HQ.
Qed.

(** Reading a file with any record. *)
Lemma wp_read_any cs : forall size acc s (Q : list Z -> state -> Prop) E,
  good s -> Forall (fun c => valid (vol s) c = true) cs -> Forall is_byte acc ->
  (forall d s', read_only s s' -> Forall is_byte d -> Q d s') -> (forall e s', read_only s s' -> E e s') ->
  wp (read_clusters env size cs acc) s Q E.
Proof.
  induction cs as [| c cs IH]; intros size acc s Q E G Hv Ha HQ HE; cbn [read_clusters].
  - apply wp_ret. apply HQ; [apply read_only_refl | done].
  - apply Forall_cons in Hv as [Hc Hv]. apply wp_bind, wp_read_cluster; [done | | by auto]. intros s1 R1. pose proof R1 as [V1 M1].
    apply IH; [by apply (read_only_good s) | by rewrite V1 | | |].
    + apply Forall_app. split; [done |]. apply Forall_take. unfold cluster_data.
      generalize (seqZ 0 (spc (vol s))) as l. induction l as [| x l IHl]; [constructor |].
      apply Forall_app. split; [apply sector_of_ok, G | exact IHl].
    + intros d s' R2. apply HQ. by eapply read_only_trans.
    + intros e s' R2. apply HE. by eapply read_only_trans.
Qed.

Lemma wp_data_any r s (Q : list Z -> state -> Prop) E :
  good s -> (forall d s', read_only s s' -> Forall is_byte d -> Q d s') -> (forall e s', read_only s s' -> E e s') ->
  wp (data env r) s Q E.
Proof.
  intros G HQ HE. pose proof (gd_vol _ G) as OK. destruct (file_limit_pos _ OK) as [Hb Hf].
  assert (forall e, E e s) as HE0 by (intros e; apply HE, read_only_refl).
  unfold data. apply wp_bind, wp_guard; [by auto |]. intros _. apply wp_bind, wp_guard; [by auto |]. intros _.
  apply wp_bind, wp_get_vol, wp_bind, wp_lift. fold (file_limit (vol s)).
  destruct (chain_total (vol s) (r_cluster r) _ OK ltac:(apply G) Hf) as [[cs Hcs] | ->]; [| by auto]. rewrite Hcs.
  apply wp_bind, wp_guard; [by auto |]. intros _.
  assert (Forall (fun c => valid (vol s) c = true) cs) as Hv.
  { apply chain_spec in Hcs as [[_ ->] | (_ & Hch & _)]; [constructor | apply Hch | done | apply G | done]. }
  apply wp_read_any; [done | by apply Forall_take | constructor | done | done].
Qed.
(** * Adding an entry *)

(** The directory after an insertion: the entries at [start], and an end mark after them
    when they took the old one. *)
Definition inserted (data entries : list Z) (start : nat) : list Z :=
  let n := length entries in
  let consumed := existsb (fun e => byte e 0 =? 0) (chunks_exact 32 (take n (drop start data))) in
  splice (if consumed && (start + n <? length data)%nat then <[(start + n)%nat := 0]> data else data) start entries.

(** Write the entries of a long name first, the short entry last. *)
Lemma wp_store_entries d cs entries start s (Q : unit -> state -> Prop) E :
  good s -> dir_ok (vol s) d cs -> (32 <= length entries)%nat -> Forall is_byte entries ->
  (start + length entries <= length (dir_data (vol s) (dev s) d cs))%nat ->
  (forall s', vol s' = vol s -> good s' -> framed (dir_area (vol s) d cs) (dev s) (dev s') ->
     dir_data (vol s) (dev s') d cs = splice (dir_data (vol s) (dev s) d cs) start entries -> Q tt s') ->
  (forall e s', safe s' -> E e s') ->
  let data := dir_data (vol s) (dev s) d cs in
  let n := length entries in
  wp (data ← (if (32 <? n)%nat then
            let data := splice data start (take (n - 32) entries) in
            _ ← store_dir env d cs data (Z.of_nat start) (Z.of_nat n - 32); mret data
          else mret data);
      store_dir env d cs (splice data (start + n - 32) (drop (n - 32) entries)) (Z.of_nat (start + n - 32)) 32) s Q E.
Proof.
  intros G Hd Hn Hb Hfit HQ HE data n. pose proof (gd_vol _ G) as OK. assert (n = length entries) as En0 by reflexivity.
  pose proof (length_dir_data (vol s) d cs OK (dev s) ltac:(apply G)) as Hlen. fold data in Hfit, Hlen, HQ.
  pose proof (dir_data_bytes (vol s) d cs (dev s) ltac:(apply G)) as Hdb. fold data in Hdb.
  set (tl := drop (n - 32) entries). assert (length tl = 32%nat) as Htl by (unfold tl; rewrite length_drop; lia).
  assert (Forall is_byte tl) as Htb by by apply Forall_drop.
  (* the last 32 bytes, from a directory that already has the rest *)
  assert (forall s1 data1, vol s1 = vol s -> good s1 -> framed (dir_area (vol s) d cs) (dev s) (dev s1) ->
            dir_data (vol s) (dev s1) d cs = data1 -> length data1 = length data -> Forall is_byte data1 ->
            splice data1 (start + n - 32) tl = splice data start entries ->
            wp (store_dir env d cs (splice data1 (start + n - 32) tl) (Z.of_nat (start + n - 32)) 32) s1 Q E) as Hlast.
  { intros s1 data1 V1 G1 F1 D1 L1 B1 E1. assert (length (splice data1 (start + n - 32) tl) = length data) as Ls by (rewrite length_splice; lia).
    apply wp_store_dir; rewrite ?V1; try done; [lia | by apply splice_bytes | lia | | |].
    - intros k Hk Hout. rewrite D1. apply splice_lookup_out; lia.
    - intros s2 V2 G2 F2 D2. apply HQ; [congruence | done | by eapply framed_trans | congruence].
    - auto. }
  destruct (Nat.ltb_spec 32 n) as [Hlt | Hge].
  - set (hd := take (n - 32) entries). assert (length hd = (n - 32)%nat) as Hhd by (unfold hd; rewrite length_take; lia).
    assert (entries = hd ++ tl) as Ee by (symmetry; apply take_drop).
    assert (length (splice data start hd) = length data) as Ls by (rewrite length_splice; lia).
    assert (Forall is_byte (splice data start hd)) as Bs by (apply splice_bytes; [done | by apply Forall_take]).
    apply wp_bind, wp_bind. apply wp_store_dir; try done; [lia | lia | lia | | |].
    + intros k Hk Hout. fold data. apply splice_lookup_out; lia.
    + intros s1 V1 G1 F1 D1. apply wp_ret, Hlast; try done.
      replace (start + n - 32)%nat with (start + length hd)%nat by lia. rewrite Ee. apply splice_twice. lia.
    + auto.
  - assert (n = 32%nat) as En by lia. apply wp_bind, wp_ret, Hlast; try done.
    unfold tl. rewrite En, Nat.sub_diag, drop_0. f_equal. lia.
Qed.
(** The writes of an insertion into free slots: an end mark first, where one is needed. *)
Lemma wp_place d cs entries start s (Q : unit -> state -> Prop) E :
  let data := dir_data (vol s) (dev s) d cs in
  let n := length entries in
  good s -> dir_ok (vol s) d cs -> (32 <= n)%nat -> Forall is_byte entries -> (start + n <= length data)%nat ->
  (forall s', vol s' = vol s -> good s' -> framed (dir_area (vol s) d cs) (dev s) (dev s') ->
     dir_data (vol s) (dev s') d cs = inserted data entries start -> Q tt s') ->
  (forall e s', safe s' -> E e s') ->
  let end_ := (start + n)%nat in
  let consumed_end := existsb (fun e => byte e 0 =? 0) (chunks_exact 32 (take n (drop start data))) in
  wp (data ← (if consumed_end && (end_ <? length data)%nat then
            let data := <[end_ := 0]> data in
            _ ← store_dir env d cs data (Z.of_nat end_) 32; mret data
          else mret data);
      data ← (if (32 <? n)%nat then
            let data := splice data start (take (n - 32) entries) in
            _ ← store_dir env d cs data (Z.of_nat start) (Z.of_nat n - 32); mret data
          else mret data);
      store_dir env d cs (splice data (start + n - 32) (drop (n - 32) entries)) (Z.of_nat (start + n - 32)) 32) s Q E.
Proof.
  intros data n G Hd Hn Hb Hfit HQ HE end_ consumed. pose proof (gd_vol _ G) as OK.
  pose proof (length_dir_data (vol s) d cs OK (dev s) ltac:(apply G)) as Hlen. fold data in Hlen.
  pose proof (dir_data_bytes (vol s) d cs (dev s) ltac:(apply G)) as Hdb. fold data in Hdb.
  unfold inserted in HQ. fold n end_ consumed in HQ. clearbody consumed.
  destruct (consumed && _) eqn:Ec; [| by apply wp_bind, wp_ret, wp_store_entries].
  apply andb_true_iff in Ec as [_ He%Nat.ltb_lt]. set (data1 := <[end_ := 0]> data) in *.
  assert (length data1 = length data) as L1 by apply length_insert.
  apply wp_bind, wp_bind, wp_store_dir; try done; [lia | | lia | | |].
  - apply Forall_insert; [done | unfold is_byte; lia].
  - intros k Hk Hout. unfold data1. rewrite list_lookup_insert_ne by lia. done.
  - intros s1 V1 G1 F1 D1. apply wp_ret. rewrite <- D1 in L1 |- *. rewrite <- V1 in L1 |- *.
    apply wp_store_entries; rewrite ?V1; try done; [by rewrite <- V1, L1 |].
    intros s2 V2 G2 F2 D2. apply HQ; [congruence | done | by eapply framed_trans |]. by rewrite D2, D1.
  - auto.
Qed.

Lemma room_fuel_enough : (0 < room_fuel)%nat /\ MAX_METADATA < SECTOR * Z.of_nat room_fuel.
Proof.
  assert (0 < MAX_METADATA / SECTOR + 1 /\ MAX_METADATA < SECTOR * (MAX_METADATA / SECTOR + 1)) as [H1 H2] by by vm_compute.
  unfold room_fuel. rewrite Z2Nat.id by lia. split; [lia | done].
Qed.

Lemma touches_read_only d cs s s1 s2 : read_only s s1 -> touches d cs s1 s2 -> touches d cs s s2.
Proof.
  intros [V M]. apply touches_trans; [by left |]. constructor; rewrite ?V; [apply retabled_refl | | done | done].
  intros l _ _ _. by rewrite M.
Qed.

Lemma wp_insert d name first size attr s (Q : unit -> state -> Prop) E :
  good s -> is_byte attr ->
  (forall cs cs' short start pad s', dir_ok (vol s) d cs -> good s' -> dir_ok (vol s') d cs' -> touches d cs s s' ->
     let old := records low (dir_data (vol s) (dev s) d cs) (kind (vol s)) in
     name_ok name = true -> existsb (matches up name) old = false -> short_name name old = Ok short ->
     let entries := entry_set low name short first size attr (kind (vol s)) in
     let data := dir_data (vol s) (dev s) d cs ++ replicate pad 0 in
     room data (Z.of_nat (length entries) / 32) start ->
     dir_data (vol s') (dev s') d cs' = inserted data entries (Z.to_nat start) -> Q tt s') ->
  (forall e s', safe s' -> E e s') ->
  wp (insert env up low d name first size attr) s Q E.
Proof.
  intros G Ha HQ HE. unfold insert. apply wp_bind, wp_lift. unfold validate_name, guard_err.
  destruct (name_ok name) eqn:Ev; [cbn [negb] | apply HE; by left].
  apply wp_bind, wp_load_dir; [done | | by intros e s' R; apply HE; left; eapply read_only_good].
  intros cs s1 R1 Hd. assert (good s1) as G1 by by eapply read_only_good. pose proof R1 as [V1 M1].
  apply wp_bind, wp_get_vol. rewrite V1. set (old := records low _ _).
  apply wp_bind, wp_guard; [by intros _; apply HE; left |]. intros Hex.
  apply wp_bind, wp_lift. destruct (short_name name old) as [short | e |] eqn:Es; [| apply HE; by left |].
  2:{ revert Es. unfold short_name. destruct (base_ext name). destruct (_ && _); [done |]. apply ok_or_no_panic. }
  set (entries := entry_set _ _ _ _ _ _ _). set (n := length entries).
  destruct (entry_set_ok low name short first size attr (kind (vol s)) (short_name_ok _ _ _ Es) Ha) as [Hn Hb].
  fold entries n in Hn, Hb. set (cnt := lfn_count low name short) in Hn.
  assert (Z.of_nat n / 32 = Z.of_nat cnt + 1) as Hneed by (rewrite Hn; symmetry; apply Z.div_unique_exact; lia).
  apply wp_bind. rewrite <- (dir_data_ext (vol s) (dev s) (dev s1)), <- V1 by done.
  apply wp_find_room; rewrite ?V1; try done; [lia | apply room_fuel_enough | |].
  { intros _. pose proof (dir_len_pos (vol s) d cs (gd_vol _ G)). pose proof room_fuel_enough. lia. }
  intros cs2 start s2 G2 Hd2 Hr T2 (more & -> & Hmore) [pad Hpad].
  pose proof Hr as [(k & Hk & Hks) Hend _ _].
  apply wp_place; [done | done | lia | done | lia | | done].
  intros s3 V3 G3 F3 D3. rewrite (dir_data_ext (vol s) (dev s) (dev s1)) in Hpad by done.
  apply (HQ cs (cs ++ more) short start pad s3); try done; [by rewrite V3 | | by rewrite <- Hpad | by rewrite V3, D3, <- Hpad].
  eapply touches_read_only; [exact R1 |].
  eapply touches_trans; [| exact T2 | by apply touches_write; [apply G2 | | |]].
  rewrite V1. intros c [Hc | Hc]%elem_of_app; [by left |]. right. by apply Hmore.
Qed.
(** * Changing an entry *)

Lemma length_field e o n z : length e = 32%nat -> (o + n <= 32)%nat -> length (splice e o (to_le_bytes n z)) = 32%nat.
Proof. intros He Ho. rewrite length_splice; rewrite ?length_to_le_bytes; lia. Qed.

Lemma wp_update d r first size cs n s (Q : unit -> state -> Prop) E :
  good s -> dir_ok (vol s) d cs -> dir_len (vol s) d cs = n -> record_ok n r ->
  (forall cs' s', dir_ok (vol s) d cs' -> vol s' = vol s -> good s' -> framed (dir_area (vol s) d cs') (dev s) (dev s') ->
     Q tt s') ->
  (forall e s', safe s' -> E e s') -> wp (update env d r first size) s Q E.
Proof.
  intros G Hd Hlen [Hs _ _ He] HQ HE. pose proof (gd_vol _ G) as OK. unfold update.
  apply wp_bind, wp_load_dir; [done | | by intros e s' R; apply HE; left; eapply read_only_good].
  intros cs1 s1 R1 Hd1. assert (cs1 = cs) as -> by by eapply dir_ok_unique.
  assert (good s1) as G1 by by eapply read_only_good. pose proof R1 as [V1 M1].
  pose proof (length_dir_data (vol s) d cs OK (dev s) ltac:(apply G)) as Hl.
  pose proof (dir_data_bytes (vol s) d cs (dev s) ltac:(apply G)) as Hdb.
  set (data := dir_data _ _ _ _) in *. set (o := Z.to_nat (r_offset r)).
  apply wp_bind, wp_lift. rewrite (proj2 (Nat.leb_le _ _)) by lia. cbn [unwrap].
  set (e := take 32 (drop o data)). assert (length e = 32%nat) as Hel by (unfold e; rewrite length_take, length_drop; lia).
  apply wp_bind, wp_guard; [by intros _; apply HE; left |]. intros _. apply wp_bind, wp_get_vol.
  set (e' := splice (put_cluster _ _ _) _ _). assert (length e' = 32%nat /\ Forall is_byte e') as [Hel' Heb'].
  { unfold e', put_cluster. split.
    - repeat (apply length_field; [| lia]). done.
    - repeat (apply splice_bytes; [| apply to_le_bytes_bytes]). by apply Forall_take, Forall_drop. }
  assert (length (splice data o e') = length data) as Ls by (rewrite length_splice; lia).
  apply wp_store_dir; rewrite ?V1; try done; [lia | by apply splice_bytes | lia | | |].
  - intros k Hk Hout. rewrite (dir_data_ext (vol s) (dev s) (dev s1)) by done. apply splice_lookup_out; fold data; lia.
  - intros s2 V2 G2 F2 _. apply (HQ cs s2); try done. intros l Hin. rewrite (F2 l Hin). by rewrite M1.
  - auto.
Qed.
Lemma wp_or_free m first s (Q : unit -> state -> Prop) E :
  wp m s Q (fun _ s' => safe s') -> (forall e s', safe s' -> E e s') -> wp (or_free env m first) s Q E.
Proof.
  intros Hm HE. unfold or_free. apply wp_bind, wp_catch. eapply wp_mono; [exact Hm | by intros [] s' | ].
  intros e s' Hs. apply wp_bind, wp_get_vol, wp_bind. destruct (vfailed (vol s')) eqn:Ef; [by apply wp_ret, wp_fail, HE |].
  destruct Hs as [G | [Hf _]]; [| congruence]. apply wp_catch, wp_free; [done | |].
  - intros cs s2 _ _ G2 _. apply wp_fail, HE. by left.
  - intros e' s2 Hs2 _. by apply wp_fail, HE.
Qed.

(** * The operations *)

(** Every outcome but a panic, and a volume that is good after success, safe after failure. *)
Definition keeps {A} (m : V A) : Prop := forall s, good s -> wp m s (fun _ s' => good s') (fun _ s' => safe s').

Lemma read_only_safe s s' : good s -> read_only s s' -> safe s'.
Proof. intros G R. left. by eapply read_only_good. Qed.
#[local] Hint Resolve read_only_safe read_only_good read_only_refl : fat.
#[local] Hint Extern 1 (safe _) => left : fat.

(** What the writing operations do first: find the directory and read it. *)
Lemma wp_enter {A} path (K : Dir -> str -> list Z -> V A) s Q (E : string -> state -> Prop) :
  good s ->
  (forall p name cs s', read_only s s' -> good s' -> dir_ok (vol s') p cs ->
     wp (K p name (dir_data (vol s') (dev s') p cs)) s' Q E) ->
  (forall e s', safe s' -> E e s') ->
  wp ('(p, name) ← parent env up low path; '(_, dir) ← load_dir env p; K p name dir) s Q E.
Proof.
  intros G HK HE. apply wp_bind, wp_parent; [done | | eauto with fat]. intros p name s1 R1.
  assert (good s1) as G1 by eauto with fat. apply wp_bind, wp_load_dir; [done | | eauto with fat].
  intros cs s2 R2 Hd. pose proof R2 as [V2 M2].
  assert (dir_data (vol s1) (dev s1) p cs = dir_data (vol s2) (dev s2) p cs) as -> by by rewrite V2, (dir_data_ext _ (dev s1) (dev s2)).
  apply HK; [by eapply read_only_trans | eauto with fat | by rewrite V2].
Qed.
Lemma wp_enter_valid {A} path (K : Dir -> str -> list Z -> V A) s Q (E : string -> state -> Prop) :
  good s ->
  (forall p name cs s', read_only s s' -> good s' -> dir_ok (vol s') p cs -> name_ok name = true ->
     wp (K p name (dir_data (vol s') (dev s') p cs)) s' Q E) ->
  (forall e s', safe s' -> E e s') ->
  wp ('(p, name) ← parent env up low path; _ ← lift (validate_name name); '(_, dir) ← load_dir env p; K p name dir) s Q E.
Proof.
  intros G HK HE. apply wp_bind, wp_parent; [done | | eauto with fat]. intros p name s1 R1.
  assert (good s1) as G1 by eauto with fat. apply wp_bind, wp_lift. unfold validate_name, guard_err.
  destruct (name_ok name) eqn:Ev; cbn [negb]; [| eauto with fat]. apply wp_bind, wp_load_dir; [done | | eauto with fat].
  intros cs s2 R2 Hd. pose proof R2 as [V2 M2].
  assert (dir_data (vol s1) (dev s1) p cs = dir_data (vol s2) (dev s2) p cs) as -> by by rewrite V2, (dir_data_ext _ (dev s1) (dev s2)).
  apply HK; [by eapply read_only_trans | eauto with fat | by rewrite V2 | done].
Qed.

Lemma keeps_create path d : Forall is_byte d -> keeps (create env up low path d).
Proof.
  intros Hd s G. unfold create. apply wp_bind, wp_get_vol, wp_bind, wp_check; [apply G |].
  apply wp_enter_valid; [done | | done]. intros p name cs s1 R1 G1 Hp Hn.
  apply wp_bind, wp_guard; [by left |]. intros _. apply wp_bind, wp_write_data; [done | done | | done].
  intros first new s2 _ St. apply wp_or_free; [| done]. apply wp_insert; [apply St | unfold is_byte; lia | done | done].
Qed.

(** A record found in a directory still fits it after an allocation. *)
Lemma record_fits s p cs r d first new s' : good s -> dir_ok (vol s) p cs ->
  r ∈ records low (dir_data (vol s) (dev s) p cs) (kind (vol s)) -> stored s d first new s' ->
  dir_ok (vol s') p cs /\ record_ok (dir_len (vol s') p cs) r.
Proof.
  intros G Hp Hr St. pose proof (gd_vol _ G) as OK. split.
  - eapply dir_ok_takes; [done | apply St | | done]. intros c Hc. by apply St.
  - destruct (retabled_dir _ _ p cs (tk_same _ _ _ (st_takes _ _ _ _ _ St))) as (_ & -> & _).
    rewrite <- (length_dir_data (vol s) p cs OK (dev s)) by apply G. by eapply records_ok.
Qed.

Lemma keeps_overwrite path d : Forall is_byte d -> keeps (overwrite env up low path d).
Proof.
  intros Hd s G. unfold overwrite. apply wp_bind, wp_get_vol, wp_bind, wp_check; [apply G |].
  apply wp_enter_valid; [done | | done]. intros p name cs s1 R1 G1 Hp Hn.
  destruct (List.find _ _) as [r |] eqn:Ef; [| by apply keeps_create]. apply find_some in Ef as [Hin%list_elem_of_In _].
  apply wp_bind, wp_guard; [by left |]. intros _. apply wp_bind, wp_guard; [by left |]. intros _.
  apply wp_bind, wp_write_data; [done | done | | done]. intros first new s2 _ St.
  rewrite <- (proj1 R1) in Hin. destruct (record_fits _ _ _ _ _ _ _ _ G1 Hp Hin St) as [Hp2 Hr2].
  apply wp_bind, wp_or_free; [| done]. eapply wp_update; [apply St | done | done | done | | done].
  intros cs' s3 _ _ G3 _. by apply wp_free.
Qed.
Lemma keeps_append path d : Forall is_byte d -> keeps (
  '(p, name) ← parent env up low path;
  '(_, dir) ← load_dir env p;
  v ← get_vol;
  match List.find (matches up name) (records low dir (kind v)) with
  | None => create env up low path d
  | Some r =>
      old ← data env r;
      _ ← guard (MAX_FILE <? Z.of_nat (length old) + Z.of_nat (length d)) "file exceeds 16 MiB driver limit";
      overwrite env up low path (old ++ d)
  end).
Proof.
  intros Hd s G. apply wp_enter; [done | | done]. intros p name cs s1 R1 G1 Hp. apply wp_bind, wp_get_vol.
  destruct (List.find _ _) as [r |] eqn:Ef; [| by apply keeps_create].
  apply wp_bind, wp_data_any; [done | | eauto with fat]. intros old s2 R2 Ho.
  apply wp_bind, wp_guard; [eauto with fat |]. intros _. apply keeps_overwrite; [by apply Forall_app | eauto with fat].
Qed.

(** The first entries of a new directory fit its cluster. *)
Lemma dot_entry name short cluster k : short_ok short ->
  let dot := entry_set low name short cluster 0 0x10 k in
  length (drop (length dot - 32) dot) = 32%nat /\ Forall is_byte (drop (length dot - 32) dot).
Proof.
  intros Hs dot. destruct (entry_set_ok low name short cluster 0 0x10 k Hs) as [Hl Hb]; [unfold is_byte; lia |].
  fold dot in Hl, Hb. split; [rewrite length_drop; lia | by apply Forall_drop].
Qed.

Lemma keeps_mkdir path : keeps (
  v ← get_vol;
  _ ← lift (check v);
  '(p, name) ← parent env up low path;
  _ ← lift (validate_name name);
  '(_, dir) ← load_dir env p;
  _ ← guard (existsb (matches up name) (records low dir (kind v))) "already exists";
  cs ← allocate env 1;
  cluster ← lift (unwrap (head cs));
  let dot := entry_set low (lit ".") (lit ".          ") cluster 0 0x10 (kind v) in
  let dotdot := entry_set low (lit "..") (lit "..         ") (if d_root p then 0 else d_cluster p) 0 0x10 (kind v) in
  let d := splice (splice (replicate (Z.to_nat (bytes v)) 0) 0 (drop (length dot - 32) dot))
             32 (drop (length dotdot - 32) dotdot) in
  _ ← write_cluster env cluster d;
  or_free env (insert env up low p name cluster 0 0x10) cluster).
Proof.
  intros s G. apply wp_bind, wp_get_vol, wp_bind, wp_check; [apply G |].
  apply wp_enter_valid; [done | | done]. intros p name cs s1 R1 G1 Hp Hn.
  apply wp_bind, wp_guard; [by left |]. intros _. apply wp_bind, wp_allocate; [done | |].
  2:{ intros e s' [(_ & -> & _) | (_ & Hs & _)]; [by left | done]. }
  intros s2 L2 T2 G2 F2. remember (first_free (vol s1) 1) as new eqn:En. destruct new as [| c [| ? ?]]; [done | | done].
  assert (valid (vol s1) c = true) as Hvc by (apply (first_free_spec (vol s1) 1 c); [apply G1 | rewrite <- En; by left]).
  pose proof (retabled_fields _ _ (tk_same _ _ _ T2)) as (_ & Ec & _ & _ & _ & Es & _).
  assert (valid (vol s2) c = true) as Hvc2 by (unfold valid in *; by rewrite Ec).
  assert (bytes (vol s2) = bytes (vol s)) as Eb by (unfold bytes; by rewrite Es, (proj1 R1)).
  assert (512 <= bytes (vol s)) as Hb by (unfold bytes, SECTOR; pose proof (vo_spc _ (gd_vol _ G)); lia).
  apply wp_bind, wp_lift. cbn [head unwrap]. cbn zeta.
  destruct (dot_entry (lit ".") (lit ".          ") c (kind (vol s))) as [L1 B1]; [by apply (bool_decide_unpack _); vm_compute |].
  destruct (dot_entry (lit "..") (lit "..         ") (if d_root p then 0 else d_cluster p) (kind (vol s))) as [L3 B3];
    [by apply (bool_decide_unpack _); vm_compute |].
  set (e1 := drop _ _) in *. set (e2 := drop _ (entry_set low (lit "..") _ _ _ _ _)) in *. clearbody e1 e2.
  assert (length (splice (replicate (Z.to_nat (bytes (vol s))) 0) 0 e1) = Z.to_nat (bytes (vol s))) as Ls
    by (rewrite length_splice; rewrite length_replicate; lia).
  apply wp_bind, wp_write_cluster; [apply G2 | apply G2 | done | rewrite length_splice; lia | | |].
  - repeat (apply splice_bytes; [| done]). apply Forall_replicate. unfold is_byte. lia.
  - intros s3 V3 W3 F3 _. apply wp_or_free; [| done].
    apply wp_insert; [by eapply (good_write s2 s3 c) | unfold is_byte; lia | done | done].
  - intros s' (A1 & A2 & A3). by right.
Qed.
(** * Deleting *)

(** Marking entries as deleted changes their first bytes only. *)
Lemma marked_spec (offsets : list nat) : forall dir : list Z,
  let dir' := foldl (fun d o => <[o := 0xe5]> d) dir offsets in
  length dir' = length dir /\ (Forall is_byte dir -> Forall is_byte dir') /\ forall k, k ∉ offsets -> dir' !! k = dir !! k.
Proof.
  induction offsets as [| o offsets IH]; intros dir; [done |]. cbn [foldl]. cbn zeta.
  destruct (IH (<[o := 0xe5]> dir)) as (H1 & H2 & H3). rewrite length_insert in H1. split; [done |]. split.
  - intros Hb. apply H2, Forall_insert; [done | unfold is_byte; lia].
  - intros k [Hk Hks]%not_elem_of_cons. rewrite H3 by done. by rewrite list_lookup_insert_ne.
Qed.

Definition marks (r : Record_) : list nat :=
  map (fun k => Z.to_nat (r_start r) + 32 * k)%nat (seq 0 (Z.to_nat ((r_offset r - r_start r) / 32) + 1)).

Lemma marks_range n r k : record_ok n r -> Z.of_nat k ∈ (Z.of_nat <$> marks r) -> r_start r <= Z.of_nat k <= r_offset r.
Proof.
  intros [H1 [i H2] [j H3] H4] Hk. apply list_elem_of_fmap in Hk as (k' & Hk%Nat2Z.inj & Hin). subst k'.
  apply list_elem_of_fmap in Hin as (x & -> & Hx%elem_of_seq).
  assert ((r_offset r - r_start r) / 32 = i - j) as E by (rewrite H2, H3, <- Z.mul_sub_distr_r; apply Z.div_mul; lia). lia.
Qed.

Lemma wp_delete_entry (K : V unit) p r cs n s (Q : unit -> state -> Prop) E :
  good s -> dir_ok (vol s) p cs -> dir_len (vol s) p cs = n -> record_ok n r ->
  (forall s', good s' -> wp K s' Q E) -> (forall e s', safe s' -> E e s') ->
  let dir := dir_data (vol s) (dev s) p cs in
  wp (dir ← lift (unwrap (if (Z.to_nat (r_offset r) <? length dir)%nat
                          then Some (foldl (fun d o => <[o := 0xe5]> d) dir (marks r)) else None));
      _ ← store_dir env p cs dir (r_start r) (r_offset r + 32 - r_start r);
      K) s Q E.
Proof.
  intros G Hp Hn Hr HQ HE dir. pose proof (gd_vol _ G) as OK. pose proof Hr as [Hs _ _ He].
  pose proof (length_dir_data (vol s) p cs OK (dev s) ltac:(apply G)) as Hl. fold dir in Hl.
  destruct (marked_spec (marks r) dir) as (L1 & B1 & D1). set (dir' := foldl _ dir _) in *.
  apply wp_bind, wp_lift. rewrite (proj2 (Nat.ltb_lt _ _)) by lia. cbn [unwrap].
  apply wp_bind, wp_store_dir; try done; [lia | apply B1, dir_data_bytes, G | lia | lia | | by auto | by auto].
  intros k Hk Hout. apply D1. intros Hin. apply Hout.
  pose proof (marks_range n r (Z.to_nat k) Hr ltac:(by apply list_elem_of_fmap_2)). lia.
Qed.

Lemma keeps_delete path : keeps (
  v ← get_vol;
  _ ← lift (check v);
  '(p, r) ← lookup env up low path;
  _ ← guard (negb (Z.land (r_attr r) 1 =? 0)) "file is read-only";
  _ ← (if is_dir r then
         '(_, d) ← load_dir env (mkDir (r_cluster r) false);
         guard (negb (bool_decide (records low d (kind v) = []))) "directory not empty"
       else mret tt);
  _ ← lift (chain v (r_cluster r) (MAX_FILE / bytes v + 1));
  '(cs, dir) ← load_dir env p;
  let offsets := marks r in
  dir ← lift (unwrap (if (Z.to_nat (r_offset r) <? length dir)%nat
                      then Some (foldl (fun d o => <[o := 0xe5]> d) dir offsets) else None));
  _ ← store_dir env p cs dir (r_start r) (r_offset r + 32 - r_start r);
  free env (r_cluster r)).
Proof.
  intros s G. pose proof (gd_vol _ G) as OK. apply wp_bind, wp_get_vol, wp_bind, wp_check; [apply G |].
  apply wp_bind, wp_lookup; [done | | eauto with fat]. intros p r s1 R1 (cs & Hp & Hr).
  assert (good s1) as G1 by eauto with fat.
  apply wp_bind, wp_guard; [eauto with fat |]. intros _. apply wp_bind.
  assert (forall st, read_only s st -> wp (_ ← lift (chain (vol s) (r_cluster r) (MAX_FILE / bytes (vol s) + 1));
    '(cs, dir) ← load_dir env p;
    dir ← lift (unwrap (if (Z.to_nat (r_offset r) <? length dir)%nat
                        then Some (foldl (fun d o => <[o := 0xe5]> d) dir (marks r)) else None));
    _ ← store_dir env p cs dir (r_start r) (r_offset r + 32 - r_start r);
    free env (r_cluster r)) st (fun _ s' => good s') (fun _ s' => safe s')) as Hrest.
  { intros st R. assert (good st) as Gs by eauto with fat. apply wp_bind, wp_lift.
    destruct (file_limit_pos _ OK) as [_ Hf]. fold (file_limit (vol s)).
    destruct (chain_total (vol s) (r_cluster r) _ OK ltac:(apply G) Hf) as [[x ->] | ->]; [| eauto with fat].
    apply wp_bind, wp_load_dir; [done | | eauto with fat]. intros cs2 s2 R2 Hp2. pose proof R as [V M]. pose proof R2 as [V2 M2].
    rewrite V in Hp2. assert (cs2 = cs) as -> by by eapply dir_ok_unique.
    assert (dir_data (vol st) (dev st) p cs = dir_data (vol s2) (dev s2) p cs) as -> by by rewrite V2, (dir_data_ext _ (dev st) (dev s2)).
    eapply wp_delete_entry; rewrite ?V2, ?V; [eauto with fat | done | done | | | done].
    - rewrite <- (length_dir_data (vol s) p cs OK (dev s)) by apply G. by eapply records_ok.
    - intros s3 G3. by apply wp_free. }
  destruct (is_dir r); [| by apply wp_ret, Hrest].
  apply wp_bind, wp_load_dir; [done | | eauto with fat]. intros cs' s2 R2 _.
  apply wp_guard; [eauto with fat |]. intros _. apply Hrest. by eapply read_only_trans.
Qed.
(** * On the mounted volume *)

(** The end of an operation that writes: no panic; the volume stays mounted, and it is
    consistent after success, consistent or stopped after an error. *)
Definition ends_safe {A} (m : F A) (f : fs) : Prop :=
  match m f with
  | (Ok _, f') => exists v', volume f' = Some v' /\ good (mkState v' (device f'))
  | (Err _, f') => exists v', volume f' = Some v' /\ safe (mkState v' (device f'))
  | (Panic, _) => False
  end.
(** The end of an operation that reads: an answer, and the volume and the sectors as before. *)
Definition only_reads {A} (m : F (option A)) (f : fs) : Prop :=
  match m f with
  | (Ok _, f') => volume f' = volume f /\ media (device f') = media (device f)
  | _ => False
  end.

Lemma keeps_mounted {A} (m : V A) f v : volume f = Some v -> good (mkState v (device f)) -> keeps m ->
  ends_safe (with_volume not_mounted m) f.
Proof.
  intros Hv G Hm. specialize (Hm _ G). unfold ends_safe, with_volume, wp in *. rewrite Hv.
  destruct (m (mkState v (device f))) as [[a | e |] [v' d']]; [| | done]; by exists v'.
Qed.

Lemma reads_mounted {A} (m : V A) f v : volume f = Some v ->
  wp m (mkState v (device f)) (fun _ s' => read_only (mkState v (device f)) s') (fun _ s' => read_only (mkState v (device f)) s') ->
  only_reads (ok (with_volume not_mounted m)) f.
Proof.
  intros Hv Hm. unfold only_reads, ok, with_volume, wp in *. rewrite Hv.
  destruct (m (mkState v (device f))) as [[a | e |] [v' d']]; [| | done]; destruct Hm as [Ha Hb]; cbn in *; by subst.
Qed.

Lemma reads_all f v path : volume f = Some v -> good (mkState v (device f)) ->
  only_reads (read_dir env up low path) f /\ only_reads (read_file env up low path) f
  /\ only_reads (metadata env up low path) f /\ only_reads (directory_id env up low path) f.
Proof.
  intros Hv G. set (s := mkState v (device f)) in *. split; [| split; [| split]]; apply (reads_mounted _ f v Hv); fold s.
  - apply wp_bind, wp_directory; [done | | done]. intros d s1 R1. assert (good s1) as G1 by eauto with fat.
    apply wp_bind, wp_load_dir; [done | |]; [intros cs s2 R2 _; apply wp_bind, wp_get_vol, wp_ret | intros e s2 R2];
      by eapply read_only_trans.
  - apply wp_bind, wp_lookup; [done | | done]. intros d r s1 R1 _.
    apply wp_data_any; [eauto with fat | |]; intros ? s2 R2; [intros _ |]; by eapply read_only_trans.
  - apply wp_bind, wp_get_vol, wp_bind, wp_check; [apply G |]. apply wp_bind, wp_lookup; [done | | done].
    intros d r s1 R1 _. by apply wp_ret.
  - apply wp_bind, wp_get_vol, wp_bind, wp_check; [apply G |]. apply wp_bind, wp_directory; [done | | done].
    intros d s1 R1. by apply wp_ret.
Qed.
End Ops.

(** C36. From a consistent mounted volume, whatever the disk answers and whatever the
    directories hold, no operation can panic; creating, overwriting, appending, making a
    directory and deleting each end with a consistent volume (its FAT copies equal to the
    cached table, its free count exact) when they succeed, and with a consistent or a
    stopped one when they fail; the reading operations leave volume and disk as they were. *)
Theorem fat_operations_safe env up low f v path d :
  volume f = Some v -> good (mkState v (device f)) -> Forall is_byte d ->
  ends_safe (create_file env up low path d) f /\ ends_safe (write_file env up low path d) f
  /\ ends_safe (append_file env up low path d) f /\ ends_safe (mkdir env up low path) f
  /\ ends_safe (delete env up low path) f
  /\ only_reads (read_dir env up low path) f /\ only_reads (read_file env up low path) f
  /\ only_reads (metadata env up low path) f /\ only_reads (directory_id env up low path) f.
Proof.
  intros Hv G Hd. split; [by apply (keeps_mounted _ f v Hv G), keeps_create |].
  split; [by apply (keeps_mounted _ f v Hv G), keeps_overwrite |].
  split; [by apply (keeps_mounted _ f v Hv G), keeps_append |].
  split; [by apply (keeps_mounted _ f v Hv G), keeps_mkdir |].
  split; [by apply (keeps_mounted _ f v Hv G), keeps_delete | by apply (reads_all _ _ _ f v)].
Qed.

Lemma fat_operations_safe_witness :
  ends_safe (create_file demo_env (fun c => [c]) (fun c => [c]) (lit "A") [1]) (mkFs (Some demo_vol) (dev demo_state)).
Proof.
  refine (proj1 (fat_operations_safe demo_env (fun c => [c]) (fun c => [c]) (mkFs (Some demo_vol) (dev demo_state)) demo_vol
    (lit "A") [1] eq_refl demo_good _)). repeat constructor; unfold is_byte; lia.
Defined.
End FatOps.
