(* ===== verification/FatCreate.v ===== *)
(** Files made on a FAT volume (src/fs/fat.rs): an insertion adds exactly one record to
    its directory, and a file that was created is read back with its contents. *)

From Stdlib Require Import ZArith Lia.
From stdpp Require Import base list list_numbers numbers decidable tactics strings gmap.
From S2P Require Import Prelude BlockDev FatNames FatLfn FatTable Fat FatFile FatDir FatOps.
Import Blk FatNames FatTable Fat FatFile FatDir FatOps.

Module FatCreate.

(** * Entries of a directory *)

Lemma chunks_exact_cons {A} n (a b : list A) : (0 < n)%nat -> length a = n ->
  chunks_exact n (a ++ b) = a :: chunks_exact n b.
Proof.
  intros Hn Ha. unfold chunks_exact. rewrite length_app, Ha.
  replace ((n + length b) / n)%nat with (S (length b / n)).
  - cbn [chunks_exact_aux]. rewrite length_app, (proj2 (Nat.leb_le n _)) by lia.
    by rewrite take_app_length', drop_app_length' by done.
  - rewrite <- (Nat.mul_1_l n) at 2. rewrite Nat.div_add_l by lia. lia.
Qed.

Lemma chunks_exact_app {A} n k : forall a b : list A, (0 < n)%nat -> length a = (k * n)%nat ->
  chunks_exact n (a ++ b) = chunks_exact n a ++ chunks_exact n b /\ length (chunks_exact n a) = k.
Proof.
  induction k as [| k IH]; intros a b Hn Ha.
  - destruct a; [| done]. unfold chunks_exact at 2 4. cbn [length]. by rewrite Nat.Div0.div_0_l.
  - rewrite <- (take_drop n a). assert (length (take n a) = n) as Ht by (rewrite length_take; lia).
    destruct (IH (drop n a) b Hn) as [H1 H2]; [rewrite length_drop; lia |].
    rewrite <- app_assoc, !(chunks_exact_cons n (take n a)), H1 by done. cbn [length app]. by rewrite H2.
Qed.

Section Scan.
Context (low : Z -> str) (k : Kind).
#[local] Abbreviation scan_entries := (scan_entries low k).
#[local] Abbreviation records := (records low).

Lemma scan_app a : forall st i b, Forall (fun e => ~ is_end e) a ->
  scan_entries st i (a ++ b) = scan_entries (scan_entries st i a) (i + Z.of_nat (length a)) b.
Proof.
  induction a as [| e a IH]; intros st i b Ha; [cbn; by rewrite Z.add_0_r |].
  apply Forall_cons in Ha as [He Ha]. cbn [app FatNames.scan_entries length]. rewrite (proj2 (Z.eqb_neq _ _) He).
  rewrite IH by done. f_equal. lia.
Qed.

Lemma scan_free_run es rest : forall st i, free_run es ->
  if decide (Exists is_end es) then s_out (scan_entries st i (es ++ rest)) = s_out st
  else exists st', s_out st' = s_out st /\ (es <> [] -> s_total st' = 0 /\ s_remaining st' = 0)
         /\ scan_entries st i (es ++ rest) = scan_entries st' (i + Z.of_nat (length es)) rest.
Proof.
  induction es as [| e es IH]; intros st i Hf.
  - rewrite decide_False by (by intros ?%Exists_nil). exists st. cbn. by rewrite Z.add_0_r.
  - cbn [free_run app FatNames.scan_entries] in *. destruct (Z.eqb_spec (byte e 0) 0) as [E | E].
    + rewrite decide_True by by left. done.
    + destruct Hf as [? | [He Hf]]; [done |]. rewrite He. cbn [Z.eqb Pos.eqb].
      specialize (IH (drop_long st) (i + 1) Hf). case_decide as Hd.
      * rewrite decide_True by by right. exact IH.
      * rewrite decide_False by (intros [? | ?]%Exists_cons; done). destruct IH as (st' & H1 & H2 & H3).
        exists (if decide (es = []) then drop_long st else st'). rewrite H3. case_decide as Hes.
        -- subst es. cbn [length Z.of_nat app] in *. split; [done |]. split; [done |]. rewrite <- H3. done.
        -- split; [done |]. split; [by intros _; apply H2 |]. f_equal. cbn [length]. lia.
Qed.

(** States of the scan that differ in what was found so far only. *)
Record alike (st1 st2 : scan) : Prop := {
  al_total : s_total st2 = s_total st1;
  al_remaining : s_remaining st2 = s_remaining st1;
  al_pending : s_total st1 <> 0 \/ s_remaining st1 <> 0 ->
    s_utf16 st2 = s_utf16 st1 /\ s_sum st2 = s_sum st1 /\ s_start st2 = s_start st1 }.

Lemma alike_drop st1 st2 : alike (drop_long st1) (drop_long st2).
Proof. constructor; cbn; [done | done |]. by intros []. Qed.

Lemma alike_begin st1 st2 i e : alike st1 st2 -> alike (begin_long st1 i e) (begin_long st2 i e).
Proof.
  intros H. unfold begin_long. case_match; [| done]. case_match; [| apply alike_drop]. by constructor.
Qed.

Lemma alike_long st1 st2 i e : alike st1 st2 -> alike (long_entry st1 i e) (long_entry st2 i e).
Proof.
  intros H. unfold long_entry. cbn zeta. pose proof (alike_begin _ _ i e H) as [B1 B2 B3].
  set (b1 := begin_long st1 i e) in *. set (b2 := begin_long st2 i e) in *. rewrite B2.
  destruct (s_remaining b1 =? 0) eqn:Er; cbn [orb]; [apply alike_drop |]. apply Z.eqb_neq in Er.
  destruct (B3 (or_intror Er)) as (E1 & E2 & E3). rewrite E1, E2, E3. case_match; [apply alike_drop |]. by constructor.
Qed.

Lemma long_entry_out st i e : s_out (long_entry st i e) = s_out st.
Proof. apply (long_entry_fields st i e). Qed.

(** A short entry adds at most one record. *)
Lemma alike_short st1 st2 i e : alike st1 st2 -> exists rs,
  s_out (short_entry low k st1 i e) = s_out st1 ++ rs /\ s_out (short_entry low k st2 i e) = s_out st2 ++ rs
  /\ alike (short_entry low k st1 i e) (short_entry low k st2 i e).
Proof.
  intros [B1 B2 B3]. unfold short_entry. cbn zeta.
  assert ((if (0 <? s_total st2) && (s_remaining st2 =? 0) && (s_sum st2 =? checksum (take 11 e)) then
      match long_name (take (Z.to_nat (s_total st2 * 13)) (s_utf16 st2)) with
      | Some long => (long, s_start st2)
      | None => (alias low (take 11 e) (byte e 12), i * 32)
      end
    else (alias low (take 11 e) (byte e 12), i * 32)) =
    (if (0 <? s_total st1) && (s_remaining st1 =? 0) && (s_sum st1 =? checksum (take 11 e)) then
      match long_name (take (Z.to_nat (s_total st1 * 13)) (s_utf16 st1)) with
      | Some long => (long, s_start st1)
      | None => (alias low (take 11 e) (byte e 12), i * 32)
      end
    else (alias low (take 11 e) (byte e 12), i * 32))) as ->.
  { rewrite B1, B2. destruct (Z.ltb_spec 0 (s_total st1)); [| done].
    destruct B3 as (-> & -> & ->); [left; lia | done]. }
  destruct (if _ && _ then _ else _) as [nm first]. destruct (_ || _ || _).
  - exists []. rewrite !app_nil_r. split; [done |]. split; [done | apply alike_drop].
  - eexists. split; [reflexivity |]. split; [reflexivity |]. constructor; cbn; [done | done |]. by intros [].
Qed.

Lemma scan_alike es : forall st1 st2 i, alike st1 st2 -> exists rs,
  s_out (scan_entries st1 i es) = s_out st1 ++ rs /\ s_out (scan_entries st2 i es) = s_out st2 ++ rs.
Proof.
  induction es as [| e es IH]; intros st1 st2 i H; cbn [FatNames.scan_entries]; [exists []; by rewrite !app_nil_r |].
  destruct (byte e 0 =? 0); [exists []; by rewrite !app_nil_r |].
  destruct (byte e 0 =? 0xe5); [apply (IH _ _ _ (alike_drop st1 st2)) |].
  destruct (byte e 11 =? 0x0f).
  - destruct (IH _ _ (i + 1) (alike_long _ _ i e H)) as (rs & H1 & H2). rewrite !long_entry_out in *. by exists rs.
  - destruct (alike_short st1 st2 i e H) as (r1 & A1 & A2 & A3). destruct (IH _ _ (i + 1) A3) as (r2 & H1 & H2).
    exists (r1 ++ r2). rewrite H1, H2, A1, A2, !app_assoc. done.
Qed.

(** * The record an insertion adds *)

(** [r] is the record of an entry made for [name]. *)
Record made_for (name : str) (first size attr : Z) (r : Record_) : Prop := {
  mf_name : r_name r = name \/ r_alias r = name;
  mf_first : r_cluster r = first;
  mf_size : r_size r = size;
  mf_attr : r_attr r = attr }.

Lemma scan_made name short first size attr st i rest : FatLfn.storable low name short first size attr k ->
  exists st' r, s_out st' = s_out st ++ [r] /\ made_for name first size attr r /\ s_total st' = 0 /\ s_remaining st' = 0
    /\ scan_entries st i (chunks_exact 32 (entry_set low name short first size attr k) ++ rest)
       = scan_entries st' (i + Z.of_nat (lfn_count low name short) + 1) rest.
Proof.
  intros Sb. destruct (decide (lfn_count low name short = 0%nat)) as [E | E].
  - pose proof Sb as [Hnm (Hl & H0 & He5) [Hd1 Hd2] [Ha Ha8] Hf Hs].
    destruct (FatLfn.short_slot_fields short first size attr k Hl Hf Hs) as (B0 & B11 & B12 & Ts & _ & Cl & Sz).
    rewrite FatLfn.entry_set_chunks, E by done. cbn [seq map app FatNames.scan_entries].
    rewrite B0, B11, (proj2 (Z.eqb_neq _ _) H0), (proj2 (Z.eqb_neq _ _) He5).
    assert ((attr =? 0x0f) = false) as -> by (apply Z.eqb_neq; intros ->; done).
    assert (exists nm first_offset st', short_entry low k st i (short_slot short first size attr k)
      = mkScan (s_out st ++ [mkRecord nm (alias low short 0) short attr first size (i * 32) first_offset]) st' 0 0 (s_sum st) (s_start st))
      as (nm & fo & u & ->).
    { unfold short_entry. rewrite Ts, B11, B12, Cl, Sz, Ha8.
      rewrite (bool_decide_eq_false_2 _ Hd1), (bool_decide_eq_false_2 _ Hd2). cbn [negb orb Z.eqb].
      destruct (if _ && _ then _ else _) as [nm fo]. by exists nm, fo, (s_utf16 st). }
    eexists (mkScan _ u 0 0 (s_sum st) (s_start st)), _. split; [reflexivity |]. split; [| split; [done | split; [done | by rewrite Z.add_0_r]]].
    constructor; cbn; try done. right. unfold lfn_count in E. destruct (bool_decide (name = alias low short 0)) eqn:Eb.
    + apply bool_decide_eq_true in Eb. done.
    + apply bool_decide_eq_false in Eb. destruct Hnm as [? | (Hok & _)]; [done |].
      destruct (FatLfn.lfn_count_bounds name _ Hok (FatLfn.name_ok_units _ Hok) eq_refl). lia.
  - destruct (FatLfn.scan_stored low name short first size attr k st i rest Sb) as (st' & A & T & R & B); [done |].
    exists st', (FatLfn.stored low name short first size attr i). split; [exact A |]. split; [| by split].
    by constructor; [left | ..].
Qed.

Lemma existsb_end es : existsb (fun e => byte e 0 =? 0) es = bool_decide (Exists is_end es).
Proof.
  apply eq_true_iff_eq. rewrite existsb_exists, bool_decide_eq_true, Exists_exists.
  split; intros (x & Hx & H); exists x; (split; [by apply list_elem_of_In | by apply Z.eqb_eq]).
Qed.

(** The directory around the free slots at entry [j], and what becomes of it. *)
Record split_at (data entries : list Z) (j c : nat) (A mid B B' : list Z) : Prop := {
  sa_old : data = A ++ mid ++ B;
  sa_new : inserted data entries (j * 32) = A ++ entries ++ B';
  sa_before : length A = (j * 32)%nat;
  sa_mid : length mid = (c * 32)%nat;
  sa_no_end : Forall (fun e => ~ is_end e) (chunks_exact 32 A);
  sa_free : free_run (chunks_exact 32 mid);
  sa_rest : if decide (Exists is_end (chunks_exact 32 mid)) then Forall is_end (take 1 (chunks_exact 32 B')) else B' = B }.

Lemma room_splits data entries c start m :
  length data = (m * 32)%nat -> length entries = (c * 32)%nat -> room data (Z.of_nat c) start ->
  exists A mid B B', split_at data entries (Z.to_nat (start / 32)) c A mid B B'.
Proof.
  intros Hm Hlen [(jz & Hj & ->) Hend Hbefore Hfree]. rewrite Z.div_mul, Nat2Z.id in * by lia.
  set (j := Z.to_nat jz) in *. set (o := (j * 32)%nat). set (n := length entries) in *.
  set (A := take o data). set (B := drop (o + n) data). set (mid := take n (drop o data)).
  assert (data = A ++ mid ++ B) as Ed by (unfold A, mid, B; rewrite <- drop_drop; by rewrite !take_drop).
  assert (length A = o) as HA by (unfold A; rewrite length_take; lia).
  assert (length mid = (c * 32)%nat) as Hmid by (unfold mid; rewrite length_take, length_drop; lia).
  destruct (chunks_exact_app 32 _ A (mid ++ B) ltac:(lia) HA) as [CA LA].
  destruct (chunks_exact_app 32 _ mid B ltac:(lia) Hmid) as [CM LM].
  assert (chunks_exact 32 data = chunks_exact 32 A ++ chunks_exact 32 mid ++ chunks_exact 32 B) as Ec by (rewrite Ed, CA, CM at 1; done).
  rewrite Ec in Hbefore, Hfree. rewrite drop_app_length', take_app_length' in Hfree by lia.
  exists A, mid, B, (if bool_decide (Exists is_end (chunks_exact 32 mid)) && (o + n <? length data)%nat then <[0%nat := 0]> B else B).
  constructor; try done.
  - fold o. unfold inserted. fold n mid. rewrite existsb_end. unfold A, B, splice. fold n. case_match eqn:Econd; [| done].
    apply andb_true_iff in Econd as [_ Econd%Nat.ltb_lt]. rewrite take_insert_ge by lia. do 2 f_equal.
    rewrite <- (take_drop (o + n) data) at 1. rewrite insert_app_r_alt by (rewrite length_take; lia).
    rewrite length_take, Nat.min_l by lia. rewrite drop_app_length' by (rewrite length_take; lia). f_equal. lia.
  - apply Forall_lookup. intros x e He. apply (Hbefore x).
    + apply lookup_lt_Some in He. lia.
    + by rewrite lookup_app_l by (by eapply lookup_lt_Some).
  - case_decide as Hx; [rewrite (bool_decide_eq_true_2 _ Hx) | by rewrite (bool_decide_eq_false_2 _ Hx)]. cbn [andb].
    assert (length B = (m * 32 - (o + n))%nat) as HB by (unfold B; rewrite length_drop; lia).
    destruct (Nat.ltb_spec (o + n) (length data)).
    + rewrite <- (take_drop 32 (<[0%nat := 0]> B)), chunks_exact_cons; [| lia | rewrite length_take, length_insert; lia].
      cbn [take]. constructor; [| constructor]. unfold is_end, byte. destruct B; [cbn in HB; lia | done].
    + destruct B; [constructor | cbn in HB; lia].
Qed.

(** An insertion adds its record to those of the directory and keeps all others, in order. *)
Lemma records_inserted data name short first size attr start m :
  let entries := entry_set low name short first size attr k in
  FatLfn.storable low name short first size attr k -> length data = (m * 32)%nat ->
  length entries = ((lfn_count low name short + 1) * 32)%nat ->
  room data (Z.of_nat (length entries) / 32) start ->
  exists before r after, records data k = before ++ after
    /\ records (inserted data entries (Z.to_nat start)) k = before ++ r :: after /\ made_for name first size attr r.
Proof.
  intros entries Sb Hm Hlen Hr. set (c := (lfn_count low name short + 1)%nat) in *.
  assert (Z.of_nat (length entries) / 32 = Z.of_nat c) as Hneed by (rewrite Hlen, Nat2Z.inj_mul; apply Z.div_mul; lia).
  rewrite Hneed in Hr. pose proof (rm_slot _ _ _ Hr) as (jz & Hj & Hs).
  destruct (room_splits data entries c start m Hm Hlen Hr) as (A & mid & B & B' & Sp).
  subst start. rewrite Z.div_mul in Sp by lia. set (j := Z.to_nat jz) in *. replace (Z.to_nat (jz * 32)) with (j * 32)%nat by lia.
  destruct Sp as [Ed Ei HA Hmid HnA Hf Hrest].
  destruct (chunks_exact_app 32 _ A (mid ++ B) ltac:(lia) HA) as [CA LA], (chunks_exact_app 32 _ mid B ltac:(lia) Hmid) as [CM LM].
  destruct (chunks_exact_app 32 _ A (entries ++ B') ltac:(lia) HA) as [CA' _], (chunks_exact_app 32 _ entries B' ltac:(lia) Hlen) as [CM' _].
  unfold FatNames.records. rewrite Ei, CA', CM', Ed, CA, CM.
  rewrite (scan_app _ _ _ (chunks_exact 32 mid ++ _)), (scan_app _ _ _ (chunks_exact 32 entries ++ _)), LA by done.
  set (st := scan_entries scan0 0 (chunks_exact 32 A)). set (i := 0 + Z.of_nat j).
  destruct (scan_made name short first size attr st i (chunks_exact 32 B') Sb) as (st' & r & O' & Mf & T' & R' & E').
  fold entries in E'. rewrite E'.
  pose proof (scan_free_run (chunks_exact 32 mid) (chunks_exact 32 B) st i Hf) as Hold. case_decide as Hx.
  - exists (s_out st), r, []. rewrite app_nil_r. split; [done |]. split; [| done]. rewrite <- O'.
    destruct (chunks_exact 32 B') as [| e es]; [done |]. apply Forall_cons in Hrest as [He _]. cbn [FatNames.scan_entries].
    by rewrite (proj2 (Z.eqb_eq _ _) He).
  - subst B'. destruct Hold as (st1 & O1 & Z1 & ->).
    assert (s_total st1 = 0 /\ s_remaining st1 = 0) as [T1 R1] by (apply Z1; intros E; rewrite E in LM; cbn in LM; lia).
    destruct (scan_alike (chunks_exact 32 B) st1 st' (i + Z.of_nat (lfn_count low name short) + 1)) as (rs & H1 & H2).
    { constructor; [congruence | congruence |]. by rewrite T1, R1; intros []. }
    exists (s_out st), r, rs. rewrite LM. replace (i + Z.of_nat c) with (i + Z.of_nat (lfn_count low name short) + 1) by lia.
    split; [by rewrite H1, O1 |]. split; [| done]. by rewrite H2, O', <- app_assoc.
Qed.
End Scan.
(** * Names that can be stored *)

Definition printable (c : Z) : Prop := 33 <= c < 127 /\ c <> 46.

Lemma short_char_printable c : printable (short_char c).
Proof.
  unfold short_char, printable. destruct (_ || _) eqn:E; [| lia].
  assert (33 <= c < 127 /\ c <> 46) as Hc.
  { apply orb_true_iff in E as [E | E].
    - unfold is_ascii_alphanumeric, is_digit, is_upper, is_lower in E. lia.
    - unfold contains in E. apply existsb_exists in E as (x & Hx & E%Z.eqb_eq). subst x.
      assert (forallb (fun x => (33 <=? x) && (x <? 127) && negb (x =? 46)) (lit "$%'-_@~`!(){}^#&") = true) as Hall by (by vm_compute).
      rewrite forallb_forall in Hall. specialize (Hall c Hx). lia. }
  unfold to_ascii_uppercase, is_lower. case_match eqn:El; lia.
Qed.

Lemma numbered_first clean ext number : Forall printable clean -> exists c rest, numbered clean ext number = c :: rest /\ printable c.
Proof.
  intros Hc. unfold numbered. cbn zeta. set (ds := digits 6 number). set (prefix := Nat.min _ _).
  assert (exists c rest, <[prefix := 126]> (overlay (replicate 11 32) 0 (take prefix clean)) = c :: rest /\ printable c)
    as (c & rest & -> & Hp); [| rewrite Nat.add_1_r; by eexists c, _].
  destruct prefix as [| n] eqn:En.
  - exists 126. eexists. split; [reflexivity | unfold printable; lia].
  - destruct clean as [| c clean]; [unfold prefix in En; cbn in En; lia |]. apply Forall_cons in Hc as [Hc _].
    by eexists c, _.
Qed.

Lemma short_first name existing short : short_name name existing = Ok short ->
  exists c rest, short = c :: rest /\ printable c.
Proof.
  unfold short_name. destruct (base_ext name) as [base ext]. destruct (simple_name base ext && _) eqn:E.
  - intros [= <-]. apply andb_true_iff in E as [E _]. unfold simple_name in E.
    destruct base as [| c base]; [done |]. eexists (short_char c), _. split; [reflexivity | apply short_char_printable].
  - clear E. set (clean := map short_char _). assert (Forall printable clean) as Hc by (apply Forall_map, Forall_true, short_char_printable).
    clearbody clean. generalize (Z.to_nat 999999) as fuel. intros fuel. generalize 1 as number.
    induction fuel as [| fuel IH]; intros number; cbn [first_number]; [done |].
    destruct (taken existing _); [apply IH |]. intros [= <-]. by apply numbered_first.
Qed.

Lemma alias_first low c rest : printable c -> exists rest', alias low (c :: rest) 0 = c :: rest'.
Proof.
  intros [Hc _]. unfold alias, alias_part. cbn [take andb Nat.eqb].
  destruct (trimmed_len (c :: take 7 rest)) as [| n] eqn:En.
  - exfalso. cbn in En. destruct (trimmed_len (take 7 rest)); [| done]. destruct (Z.eqb_spec c 32); [lia | done].
  - cbn [take imap]. unfold alias_char at 1. cbn [Nat.eqb andb]. rewrite (proj2 (Z.eqb_neq c 5)) by lia.
    rewrite (proj2 (Z.ltb_lt c 128)) by lia. by eexists.
Qed.

Lemma storable_made low name existing short first size attr v :
  vol_ok v -> name_ok name = true -> Forall FatLfn.scalar name -> 0xffff ∉ name -> short_name name existing = Ok short ->
  0 <= attr < 256 -> Z.land attr 8 = 0 -> first = 0 \/ valid v first = true -> 0 <= size < 2 ^ 32 ->
  FatLfn.storable low name short first size attr (kind v).
Proof.
  intros OK Hn Hs Hf Hsn Ha Ha8 Hfirst Hsize. destruct (short_first _ _ _ Hsn) as (c & rest & -> & Hp).
  destruct (alias_first low c rest Hp) as [rest' Ea]. destruct Hp as [Hc Hdot].
  constructor; [by right | | | done | | done].
  - split; [apply (short_name_ok _ _ _ Hsn) |]. cbn. lia.
  - rewrite Ea. split; intros [= ->]; done.
  - pose proof (vo_clusters v OK). pose proof (vo_kind v OK). rewrite valid_spec in Hfirst.
    destruct (kind v); case_decide; try done; lia.
Qed.

(** * Files in place *)

Lemma find_made up before r after name first size attr :
  existsb (matches up name) (before ++ after) = false -> made_for name first size attr r ->
  List.find (matches up name) (before ++ r :: after) = Some r.
Proof.
  rewrite existsb_app. intros [Hb _]%orb_false_iff [Hm _ _ _].
  assert (matches up name r = true) as Hr.
  { unfold matches, same. apply orb_true_iff. destruct Hm as [-> | ->]; [left | right]; by apply bool_decide_eq_true. }
  induction before as [| x before IH]; cbn [app List.find existsb] in *; [by rewrite Hr |].
  apply orb_false_iff in Hb as [-> Hb]. by apply IH.
Qed.

Section Place.
Context (env : nat -> response) (up low : Z -> str).

(** In directory [p] of [s], [name] is a file with the contents [d]. *)
Definition file_at (s : state) (p : Dir) (name : str) (d : list Z) : Prop :=
  exists cs r fs, dir_ok (vol s) p cs
    /\ List.find (matches up name) (records low (dir_data (vol s) (dev s) p cs) (kind (vol s))) = Some r
    /\ is_dir r = false /\ r_size r = Z.of_nat (length d) /\ Z.of_nat (length d) <= MAX_FILE
    /\ Z.of_nat (length fs) = (Z.of_nat (length d) + bytes (vol s) - 1) / bytes (vol s)
    /\ match fs with [] => r_cluster r = 0 | _ => chain_of (vol s) (r_cluster r) fs end
    /\ holds s fs d.

(** The run [m] reads [x] and changes nothing, or reports that the disk failed. *)
Definition reads_back {A} (m : V A) (s : state) (x : A) : Prop :=
  wp m s (fun y s' => y = x /\ read_only s s') (fun e s' => read_error e /\ read_only s s').

Lemma holds_read_only s s' fs d : read_only s s' -> holds s fs d -> holds s' fs d.
Proof. intros [V M] H i c Hc. rewrite V, (cluster_data_ext _ (dev s) (dev s')) by done. by apply H. Qed.

Lemma read_file_at s p name d : good s -> file_at s p name d ->
  reads_back ('(_, r) ← lookup_in env up low p [name]; data env r) s d.
Proof.
  intros G (cs & r & fs & Hp & Hfind & Hdir & Hsize & Hmax & Hn & Hch & Hh). unfold reads_back. cbn [lookup_in].
  apply wp_bind, wp_bind, wp_load_dir_exact; [done | |].
  2:{ intros e s' R [He | Hno]; [done | by destruct (Hno cs)]. }
  intros cs' s1 R1 Hp'. assert (cs' = cs) as -> by by eapply dir_ok_unique; [apply G | |]. pose proof R1 as [V1 M1].
  apply wp_bind, wp_get_vol, wp_bind, wp_lift. rewrite V1, Hfind. cbn [ok_or].
  rewrite (bool_decide_eq_true_2 ([] = [])) by done. apply wp_ret.
  apply (wp_data env r d fs s1); rewrite ?V1; try done; [by eapply read_only_good | by eapply holds_read_only | |].
  - intros s2 R2. split; [done | by eapply read_only_trans].
  - intros s2 R2. split; [by left | by eapply read_only_trans].
Qed.

(** What an insertion leaves of a file stored before it. *)
Lemma stored_kept s d first new s1 p cs s2 : good s -> dir_ok (vol s) p cs -> stored s d first new s1 ->
  good s2 -> touches p cs s1 s2 ->
  Z.of_nat (length new) = (Z.of_nat (length d) + bytes (vol s2) - 1) / bytes (vol s2)
  /\ match new with [] => first = 0 | _ => chain_of (vol s2) first new end /\ holds s2 new d.
Proof.
  intros G Hp St G2 T. pose proof (gd_vol _ G) as OK. destruct St as [G1 Hn Tk Hfresh Hch Hh F].
  pose proof (tc_same _ _ _ _ T) as Rt. pose proof (retabled_fields _ _ (tk_same _ _ _ Tk)) as (Ek1 & Ec1 & _ & _ & _ & Es1 & _).
  pose proof (retabled_fields _ _ Rt) as (Ek & Ec & _ & _ & Ed & Es & _).
  assert (forall c, c ∈ new -> valid (vol s1) c = true /\ entry (vol s1) c <> 0 /\ c ∉ cs) as Hnew.
  { intros c Hc. destruct (Hfresh c Hc) as [Hv Hz]. split; [unfold valid in *; by rewrite Ec1 |]. split.
    - destruct new; [by apply not_elem_of_nil in Hc |]. by eapply chain_nonzero; [apply G1 | exact Hch |].
    - intros Hin. by destruct (dir_in_use (vol s) p cs c OK Hp Hin). }
  split; [unfold bytes in *; by rewrite Es, Es1 |]. split.
  - destruct new as [| c new]; [done |]. eapply (chain_same (vol s1)); [done | done | | exact Hch].
    intros x Hx. destruct (Hnew x Hx) as (H1 & H2 & H3). by apply T.
  - intros i c Hc. pose proof (list_elem_of_lookup_2 _ _ _ Hc) as Hin. destruct (Hnew c Hin) as (H1 & H2 & H3).
    rewrite (cluster_piece_geom (vol s1) (vol s2)) by done. rewrite <- (Hh i c Hc).
    assert (cluster_data (vol s2) (dev s2) c = cluster_data (vol s1) (dev s2) c) as ->
      by (unfold cluster_data, lba; by rewrite Es, Ed).
    unfold cluster_data. f_equal. apply map_ext_in. intros i0 Hi0%list_elem_of_In%elem_of_seqZ.
    assert (in_cluster (vol s1) c (lba (vol s1) c + i0)) as Hl by (unfold in_cluster; lia).
    pose proof (gd_vol _ G1) as OK1. apply (tc_frame _ _ _ _ T).
    + by eapply cluster_not_system.
    + unfold area. destruct (fixed_root (vol s1) p) eqn:Ef.
      * intros Hr. unfold lba in Hr. apply valid_spec in H1. pose proof (vo_spc _ OK1). nia.
      * intros (c' & Hc' & Hl'). pose proof (clusters_apart _ _ _ _ OK1 Hl Hl') as ->. done.
    + intros c' _ Hz Hl'. pose proof (clusters_apart _ _ _ _ OK1 Hl Hl') as ->. done.
Qed.

Lemma records_padded data pad m k : length data = (m * 32)%nat ->
  records low (data ++ replicate pad 0) k = records low data k.
Proof.
  intros Hm. unfold records. destruct (chunks_exact_app 32 _ data (replicate pad 0) ltac:(lia) Hm) as [-> _]. f_equal.
  assert (Forall is_end (chunks_exact 32 (replicate pad 0))) as Hz.
  { unfold chunks_exact. generalize (length (replicate pad 0%Z) / 32)%nat as fuel. intros fuel. revert pad.
    induction fuel as [| fuel IH]; intros pad; cbn [chunks_exact_aux]; [constructor |].
    destruct (Nat.leb_spec 32 (length (replicate pad 0%Z))) as [Hp | _]; [| constructor].
    rewrite drop_replicate. constructor; [| apply IH]. by destruct pad. }
  revert Hz. generalize (chunks_exact 32 (replicate pad 0)) as zeros. intros zeros Hz.
  generalize scan0 as st, 0 as i. induction (chunks_exact 32 data) as [| e es IH]; intros st i; cbn [app scan_entries].
  - destruct Hz as [| z zs Hz _]; [done |]. cbn [scan_entries]. by rewrite (proj2 (Z.eqb_eq _ _) Hz).
  - case_match; [done | apply IH].
Qed.

Lemma length_inserted data entries start : (start + length entries <= length data)%nat ->
  length (inserted data entries start) = length data.
Proof. intros H. unfold inserted. rewrite length_splice; [| by case_match; rewrite ?length_insert]. by case_match; rewrite ?length_insert. Qed.

Lemma dir_entries v d cs : vol_ok v -> exists m, dir_len v d cs = Z.of_nat m * 32.
Proof.
  intros OK. unfold dir_len. destruct (fixed_root v d) eqn:Ef.
  - unfold fixed_root in Ef. apply andb_true_iff in Ef as [_ Ef]. apply negb_true_iff, bool_decide_eq_false_1 in Ef.
    pose proof (vo_area v OK Ef). exists (Z.to_nat (root_entries v)). lia.
  - exists (length cs * Z.to_nat (spc v) * 16)%nat. unfold bytes, SECTOR. pose proof (vo_spc v OK). lia.
Qed.

(** An insertion puts the file in place. *)
Lemma wp_insert_file s0 p name cs d first new s (Q : unit -> state -> Prop) E :
  good s0 -> dir_ok (vol s0) p cs -> stored s0 d first new s -> Z.of_nat (length d) <= MAX_FILE ->
  Forall FatLfn.scalar name -> 0xffff ∉ name ->
  (forall s', good s' -> retabled (vol s) (vol s') -> file_at s' p name d -> Q tt s') -> (forall e s', safe s' -> E e s') ->
  wp (insert env up low p name first (Z.of_nat (length d)) 0x20) s Q E.
Proof.
  intros G0 Hp St Hmax Hsc Hff HQ HE. pose proof (st_good _ _ _ _ _ St) as G. pose proof (gd_vol _ G) as OK.
  assert (dir_ok (vol s) p cs) as Hps by (eapply dir_ok_takes; [apply G0 | apply St | intros c Hc; by apply St | done]).
  apply wp_insert; [done | unfold is_byte; lia | | done].
  intros cs1 cs' short start pad s' Hp1 G' Hp' T old Hn Hno Hsn entries padded Hr Hdata.
  assert (cs1 = cs) as -> by by eapply dir_ok_unique. subst old padded.
  destruct (stored_kept _ _ _ _ _ _ _ _ G0 Hp St G' T) as (Hcnt & Hchain & Hholds).
  assert (FatLfn.storable low name short first (Z.of_nat (length d)) 0x20 (kind (vol s))) as Sb.
  { eapply storable_made; try done; [| unfold MAX_FILE in *; lia].
    pose proof (st_chain _ _ _ _ _ St) as Hc. destruct new as [| c new]; [by left | right].
    pose proof (ch_head _ _ _ Hc) as Hh. cbn in Hh. injection Hh as ->. pose proof (ch_valid _ _ _ Hc) as Hv. by apply Forall_cons in Hv as [? _]. }
  destruct (entry_set_ok low name short first (Z.of_nat (length d)) 0x20 (kind (vol s)) (short_name_ok _ _ _ Hsn)) as [Hlen _];
    [unfold is_byte; lia |]. fold entries in Hlen.
  set (old := dir_data (vol s) (dev s) p cs) in *.
  assert (exists m, length old = (m * 32)%nat) as [m0 Hm0].
  { destruct (dir_entries (vol s) p cs OK) as [m Hm]. exists m.
    pose proof (length_dir_data (vol s) p cs OK (dev s) ltac:(apply G)). unfold old. lia. }
  assert (exists m, length (old ++ replicate pad 0) = (m * 32)%nat) as [m Hm].
  { destruct (dir_entries (vol s') p cs' (gd_vol _ G')) as [m Hm]. exists m.
    pose proof (length_dir_data (vol s') p cs' (gd_vol _ G') (dev s') ltac:(apply G')) as Hl. rewrite Hdata in Hl.
    rewrite length_inserted in Hl; [lia |]. destruct Hr as [(j & Hj & Hs) Hend _ _]. rewrite Hlen in *.
    rewrite Nat2Z.inj_mul, Z.div_mul in Hend by lia. lia. }
  destruct (records_inserted low (kind (vol s)) _ _ _ _ _ _ _ _ Sb Hm Hlen Hr) as (before & r & after & Hb & Ha & Hmade).
  rewrite (records_padded _ _ m0) in Hb by exact Hm0.
  pose proof (retabled_fields _ _ (tc_same _ _ _ _ T)) as (Ek & _).
  apply HQ; [done | apply T |]. exists cs', r, new. split; [done |]. split.
  { rewrite Ek, Hdata. etransitivity; [| by eapply find_made; [rewrite <- Hb | exact Hmade]]. f_equal. exact Ha. }
  destruct Hmade as [_ Hf1 Hf2 Hf3]. unfold is_dir. rewrite Hf1, Hf2, Hf3. done.
Qed.

(** Creating a file: at its end the file is in place in the directory of its path. *)
Lemma wp_create path d s p name s1 (Q : unit -> state -> Prop) E :
  good s -> Forall is_byte d -> parent env up low path s = (Ok (p, name), s1) -> Forall FatLfn.scalar name -> 0xffff ∉ name ->
  (forall s', good s' -> retabled (vol s) (vol s') -> file_at s' p name d -> Q tt s') -> (forall e s', safe s' -> E e s') ->
  wp (create env up low path d) s Q E.
Proof.
  intros G Hd Hpar Hsc Hff HQ HE. unfold create. apply wp_bind, wp_get_vol, wp_bind, wp_check; [apply G |].
  assert (read_only s s1) as R1.
  { pose proof (wp_parent env up low path s (fun _ s' => read_only s s') (fun _ s' => read_only s s') G) as H.
    unfold wp in H. rewrite Hpar in H. by apply H. }
  assert (good s1) as G1 by by eapply read_only_good. apply wp_bind. unfold wp at 1. rewrite Hpar.
  apply wp_bind, wp_lift. unfold validate_name, guard_err. destruct (name_ok name); cbn [negb]; [| apply HE; by left].
  apply wp_bind, wp_load_dir; [done | | intros e s' R; apply HE; by eapply read_only_safe].
  intros cs s2 R2 Hp. assert (good s2) as G2 by by eapply read_only_good.
  apply wp_bind, wp_guard; [by intros _; apply HE; left |]. intros _.
  apply wp_bind, wp_write_data; [done | done | | by intros e s' Hs _; apply HE].
  intros first new s3 Hmax St. apply wp_or_free; [| done].
  eapply (wp_insert_file s2 p name cs); try done; [by rewrite (proj1 R2) |].
  intros s' G' Rt. apply HQ; [done |]. eapply retabled_trans; [| exact Rt].
  rewrite <- (proj1 R1), <- (proj1 R2). apply St.
Qed.
End Place.

Lemma root_retabled v v' : retabled v v' -> root v' = root v.
Proof. intros H. pose proof (retabled_fields _ _ H) as (_ & _ & _ & _ & _ & _ & _ & _ & _ & _ & Er). unfold root. by rewrite Er. Qed.

(** C35. A file that was created is there, with its contents.  When [create_file] succeeds
    on a consistent volume, looking the name up in the directory of the path (for a path
    of one component: looking the path up from the root) and reading the record gives
    the bytes that were written, whatever the directory held before and whether or not it
    had to grow; the only other outcome is a disk error, which changes nothing.  The
    volume is consistent afterwards; after an error it is consistent or stopped.  Names
    are those the driver accepts, without the noncharacter U+FFFF. *)
Theorem fat_create_read env up low path d s p name s1 :
  good s -> Forall is_byte d -> parent env up low path s = (Ok (p, name), s1) ->
  Forall FatLfn.scalar name -> 0xffff ∉ name ->
  match create env up low path d s with
  | (Ok _, s') => good s'
      /\ (forall env', reads_back ('(_, r) ← lookup_in env' up low p [name]; data env' r) s' d)
      /\ (components path = [name] -> forall env', reads_back ('(_, r) ← lookup env' up low path; data env' r) s' d)
  | (Err _, s') => safe s'
  | (Panic, _) => False
  end.
Proof.
  intros G Hd Hp Hsc Hff.
  apply (wp_create env up low path d s p name s1 (fun _ s' => good s'
      /\ (forall env', reads_back ('(_, r) ← lookup_in env' up low p [name]; data env' r) s' d)
      /\ (components path = [name] -> forall env', reads_back ('(_, r) ← lookup env' up low path; data env' r) s' d))
    (fun _ s' => safe s')); try done.
  intros s' G' Rt Hf. split; [done |]. assert (forall env', reads_back ('(_, r) ← lookup_in env' up low p [name]; data env' r) s' d)
    as Hin by (intros env'; by apply read_file_at). split; [exact Hin |]. intros Ec env'.
  assert (root (vol s') = p) as Er.
  { rewrite (root_retabled _ _ Rt).
    assert (parent env up low path s = (Ok (root (vol s), name), s)) as Hp' by (unfold parent; by rewrite Ec).
    rewrite Hp' in Hp. congruence. }
  unfold lookup. rewrite Ec. specialize (Hin env'). rewrite <- Er in Hin. exact Hin.
Qed.

Lemma fat_create_read_witness :
  let id := fun c => [c] in
  match create demo_env id id (lit "hello.txt") [104; 105] demo_state with
  | (Ok _, s') => good s' /\ reads_back ('(_, r) ← lookup demo_env id id (lit "hello.txt"); data demo_env r) s' [104; 105]
  | _ => False
  end.
Proof.
  intros id.
  pose proof (fat_create_read demo_env id id (lit "hello.txt") [104; 105] demo_state (root demo_vol) (lit "hello.txt") demo_state demo_good) as H.
  assert (exists s', create demo_env id id (lit "hello.txt") [104; 105] demo_state = (Ok tt, s')) as [s' E]
    by (eexists; vm_compute; reflexivity).
  rewrite E in *. destruct H as (H1 & _ & H2).
  - repeat constructor; unfold is_byte; lia.
  - vm_compute. reflexivity.
  - apply Forall_forall. intros c Hc. left.
    assert (forallb (fun c => (0 <=? c) && (c <? 128)) (lit "hello.txt") = true) as Ea by (by vm_compute).
    apply list_elem_of_In in Hc. pose proof (proj1 (forallb_forall _ _) Ea c Hc) as Hr. apply andb_true_iff in Hr. lia.
  - apply (bool_decide_unpack _). by vm_compute.
  - split; [exact H1 |]. apply H2. vm_compute. reflexivity.
Defined.

(** A file whose chain was cut short on a damaged volume, overwritten: the new data gets
    the free cluster the old chain still points to, and releasing the old chain releases
    it too.  [write_file] reports success; the file can no longer be read. *)
Example overwrite_truncated_chain :
  let id := fun c => [c] in
  let '(_, s0) := create demo_env id id (lit "A") (replicate 600 7) demo_state in
  let '(_, s1) := set_ demo_env 3 0 s0 in
  let f := mkFs (Some (set_hints (vol s1) 2 95 false)) (dev s1) in
  let '(r, f') := write_file demo_env id id (lit "A") [1] f in
  r = Ok tt /\ fst (read_file demo_env id id (lit "A") f') = Ok None.
Proof. vm_compute. split; reflexivity. Qed.
End FatCreate.
