(* ===== verification/Exfat.v ===== *)
(** The exFAT filesystem (src/fs/exfat.rs): entry sets, cluster chains, the allocation
    bitmap, directories, and every operation the kernel calls.

    A string is its UTF-8 bytes.  Once mounted the [Volume] never changes, so it is an
    argument and the state is the device.  Sums of numbers read from the disk are checked:
    where they leave their width the code panics (with overflow checks, as built for
    debugging); numbers the code computes itself stay in range. *)

From Stdlib Require Import ZArith Lia.
From stdpp Require Import base list list_numbers numbers decidable tactics strings gmap sorting.
From S2P Require Import Prelude BlockDev FatNames.
Import Blk.

Module Exfat.
Export FatNames(le16, le32, le64, splice, byte, chunks_exact, lit).

Definition SECTOR : Z := 512.
Definition DIR_ENTRY : nat := 32.
Definition ET_END : Z := 0x00.
Definition ET_BITMAP : Z := 0x81.
Definition ET_FILE : Z := 0x85.
Definition ET_STREAM : Z := 0xC0.
Definition ET_NAME : Z := 0xC1.
Definition ET_IN_USE : Z := 0x80.
Definition FLAG_ALLOC_POSSIBLE : Z := 0x01.
Definition FLAG_NO_FAT_CHAIN : Z := 0x02.
Definition ATTR_DIRECTORY : Z := 0x10.
Definition ATTR_ARCHIVE : Z := 0x20.
Definition FAT_EOF : Z := 0xFFFFFFFF.
Definition TIMESTAMP : Z :=
  Z.lor (Z.lor (Z.lor (Z.shiftl (2026 - 1980) 25) (Z.shiftl 7 21)) (Z.shiftl 17 16)) (Z.shiftl 8 11).

Record Volume := mkVolume {
  sectors_per_cluster : Z; fat_lba : Z; heap_lba : Z; cluster_count : Z; root_cluster : Z;
  bitmap_cluster : Z; bitmap_bytes : Z }.
Definition cluster_bytes (v : Volume) : Z := sectors_per_cluster v * SECTOR.
Definition cluster_lba (v : Volume) (cluster : Z) : Z := heap_lba v + (cluster - 2) * sectors_per_cluster v.

(** A [w]-bit sum with overflow check. *)
Definition add (w a b : Z) : outcome string Z := if a + b <? 2 ^ w then Ok (a + b) else Panic.

Definition X := M BlkDevice.

(** [for x in l { if !body(x) { return false; } }]. *)
Fixpoint all_ok {A} (l : list A) (body : A -> X bool) : X bool :=
  match l with
  | [] => mret true
  | x :: l' => ok ← body x; if ok : bool then all_ok l' body else mret false
  end.
(** [let x = m?; f(x)] in a function that returns an [Option]. *)
Definition try_ {A B} (m : X (option A)) (f : A -> X (option B)) : X (option B) :=
  o ← m; match o with Some a => f a | None => mret None end.

Definition entry_set_checksum (set : list Z) : Z :=
  foldl (fun sum ib => if (ib.1 =? 2)%nat || (ib.1 =? 3)%nat then sum else (rotate_right 16 sum 1 + ib.2) mod 2 ^ 16)
    0 (imap pair set).
Definition name_hash (name_utf16 : list Z) : Z :=
  foldl (fun sum ch => foldl (fun sum b => (rotate_right 16 sum 1 + b) mod 2 ^ 16) sum (to_le_bytes 2 ch)) 0 name_utf16.
Definition to_ascii_uppercase (b : Z) : Z := if (97 <=? b) && (b <=? 122) then b - 32 else b.
Definition names_equal_ascii (a b : list Z) : bool :=
  (length a =? length b)%nat && forallb (fun xy => to_ascii_uppercase xy.1 =? to_ascii_uppercase xy.2) (zip a b).

(** * Directories in memory *)

Record DirRef := mkDirRef { dr_cluster : Z; dr_no_fat_chain : bool; dr_length : Z; is_root : bool }.
Record DirFile := mkDirFile {
  name : list Z; attributes : Z; first_cluster : Z; data_length : Z; no_fat_chain : bool;
  set_offset : nat; set_entries : nat }.
Definition is_dir (f : DirFile) : bool := negb (Z.land (attributes f) ATTR_DIRECTORY =? 0).

Definition begin_set (idx : nat) (e : list Z) : DirFile :=
  mkDirFile [] (le16 e 4) 0 0 false (idx * DIR_ENTRY) (1 + Z.to_nat (byte e 1)).
Definition push_unit (n : list Z) (ch : list Z) : list Z :=
  let c := le16 ch 0 in
  if negb (c =? 0) && (length n <? 255)%nat then n ++ [if c <? 0x80 then c else 63] else n.
(** What a secondary entry adds to the set it belongs to. *)
Definition secondary (df : DirFile) (e : list Z) : DirFile :=
  if byte e 0 =? ET_STREAM then
    mkDirFile (name df) (attributes df) (le32 e 20) (le64 e 24) (negb (Z.land (byte e 1) FLAG_NO_FAT_CHAIN =? 0))
      (set_offset df) (set_entries df)
  else if byte e 0 =? ET_NAME then
    mkDirFile (foldl push_unit (name df) (chunks_exact 2 (take 30 (drop 2 e)))) (attributes df) (first_cluster df)
      (data_length df) (no_fat_chain df) (set_offset df) (set_entries df)
  else df.

Fixpoint parse_from (idx : nat) (current : option DirFile) (secondaries_left : Z) (es : list (list Z)) : list DirFile :=
  match es with
  | [] => []
  | e :: rest =>
      if byte e 0 =? ET_END then []
      else if byte e 0 =? ET_FILE then parse_from (S idx) (Some (begin_set idx e)) (byte e 1) rest
      else
        match current with
        | Some df =>
            if negb (Z.land (byte e 0) ET_IN_USE =? 0) then
              let df := secondary df e in
              if 0 <? secondaries_left then
                if secondaries_left - 1 =? 0 then df :: parse_from (S idx) None 0 rest
                else parse_from (S idx) (Some df) (secondaries_left - 1) rest
              else parse_from (S idx) (Some df) secondaries_left rest
            else parse_from (S idx) None 0 rest
        | None => parse_from (S idx) None 0 rest
        end
  end.
Definition parse_entries (data : list Z) : list DirFile := parse_from 0 None 0 (chunks_exact DIR_ENTRY data).

Definition root_ref (v : Volume) : DirRef := mkDirRef (root_cluster v) false 0 true.
Definition dir_ref_of (f : DirFile) : DirRef := mkDirRef (first_cluster f) (no_fat_chain f) (data_length f) false.

(** [path.split('/')]. *)
Fixpoint split_slash (cur path : list Z) : list (list Z) :=
  match path with
  | [] => [cur]
  | c :: rest => if c =? 47 then cur :: split_slash [] rest else split_slash (cur ++ [c]) rest
  end.
Definition components (path : list Z) : list (list Z) :=
  filter (fun c => c <> []) (split_slash [] path).

Definition name_entry (n : nat) (utf16 : list Z) (e : list Z) : list Z :=
  foldl (fun e i =>
      match utf16 !! (n * 15 + i)%nat with
      | Some u => splice e (2 + i * 2) (to_le_bytes 2 u)
      | None => e
      end) (splice e 0 [ET_NAME]) (seq 0 15).

Definition build_entry_set (nm : list Z) (attrs flags first len : Z) : list Z :=
  let name_entries := ((length nm + 14) / 15)%nat in
  let set := replicate ((2 + name_entries) * DIR_ENTRY) 0 in
  let set := splice set 0 [ET_FILE; (1 + Z.of_nat name_entries) mod 256] in
  let set := splice set 4 (to_le_bytes 2 attrs) in
  let set := foldl (fun set o => splice set o (to_le_bytes 4 TIMESTAMP)) set [8; 12; 16]%nat in
  let set := splice set 22 [0x80; 0x80; 0x80] in
  let s := take 32 (drop 32 set) in
  let s := splice s 0 [ET_STREAM; flags] in
  let s := splice s 3 [Z.of_nat (length nm) mod 256] in
  let s := splice s 4 (to_le_bytes 2 (name_hash (map to_ascii_uppercase nm))) in
  let s := splice s 8 (to_le_bytes 8 len) in
  let s := splice s 20 (to_le_bytes 4 first) in
  let s := splice s 24 (to_le_bytes 8 len) in
  let set := splice set 32 s in
  let set := foldl (fun set n =>
      splice set ((2 + n) * DIR_ENTRY) (name_entry n nm (take 32 (drop ((2 + n) * DIR_ENTRY) set)))) set (seq 0 name_entries) in
  splice set 2 (to_le_bytes 2 (entry_set_checksum set)).

(** Where a set of [needed] entries goes: a run of deleted entries, or at the end mark. *)
Fixpoint find_place (needed idx run_start run_len : nat) (es : list (list Z)) : option nat * option nat :=
  match es with
  | [] => (None, None)
  | e :: rest =>
      if byte e 0 =? ET_END then (None, Some idx)
      else if Z.land (byte e 0) ET_IN_USE =? 0 then
        let run_start := if (run_len =? 0)%nat then idx else run_start in
        if (S run_len =? needed)%nat then (Some run_start, None)
        else find_place needed (S idx) run_start (S run_len) rest
      else find_place needed (S idx) run_start 0 rest
  end.

Definition validate_name (nm : list Z) : outcome string unit :=
  _ ← guard_err (bool_decide (nm = []) || (255 <? Z.of_nat (length nm)) || negb (forallb (fun b => b <? 128) nm))
        "name must be ASCII, 1-255 chars";
  guard_err (existsb (Z.eqb 47) nm || existsb (Z.eqb 92) nm) "name may not contain slashes".

(** * On the device *)

Section Disk.
Context (env : nat -> response).

Definition read_sector (l : Z) : X (option (list Z)) := dev_read env l.
Definition write_sector (l : Z) (buf : list Z) : X bool := dev_write env l buf.

Definition fat_read (v : Volume) (cluster : Z) : X (option Z) :=
  let byte_off := cluster * 4 in
  try_ (read_sector (fat_lba v + byte_off / SECTOR)) (fun buf => mret (Some (le32 buf (Z.to_nat (byte_off mod SECTOR))))).
Definition fat_write (v : Volume) (cluster value : Z) : X bool :=
  let byte_off := cluster * 4 in
  let l := fat_lba v + byte_off / SECTOR in
  r ← read_sector l;
  match r with
  | None => mret false
  | Some buf => write_sector l (splice buf (Z.to_nat (byte_off mod SECTOR)) (to_le_bytes 4 value))
  end.

Fixpoint read_run (ls : list Z) : X (option (list Z)) :=
  match ls with
  | [] => mret (Some [])
  | l :: rest => try_ (read_sector l) (fun b => try_ (read_run rest) (fun bs => mret (Some (b ++ bs))))
  end.
Definition read_cluster (v : Volume) (cluster : Z) : X (option (list Z)) :=
  read_run (seqZ (cluster_lba v cluster) (sectors_per_cluster v)).
(** The [s]-th sector of [data], padded with zeros. *)
Definition padded (data : list Z) (s : Z) : list Z :=
  let d := take 512 (drop (Z.to_nat (s * SECTOR)) data) in d ++ replicate (512 - length d) 0.
Definition write_cluster (v : Volume) (cluster : Z) (data : list Z) : X bool :=
  all_ok (seqZ 0 (sectors_per_cluster v)) (fun s => write_sector (cluster_lba v cluster + s) (padded data s)).
Definition zero_cluster (v : Volume) (cluster : Z) : X bool := write_cluster v cluster [].

(** * Chains *)

(** [for _ in 0..=cluster_count]: at most [cluster_count + 1] steps. *)
Fixpoint chain_walk (steps : nat) (v : Volume) (c : Z) : X (option (list Z)) :=
  match steps with
  | O => mret (Some [])
  | S steps' =>
      try_ (fat_read v c) (fun next =>
        if (next <? 2) || (next =? FAT_EOF) then mret (Some [c])
        else
          top ← lift (add 32 (cluster_count v) 1);
          if top <? next then mret (Some [c])
          else try_ (chain_walk steps' v next) (fun rest => mret (Some (c :: rest))))
  end.
Definition collect_chain (v : Volume) (first : Z) (nfc : bool) (len : Z) : X (option (list Z)) :=
  if first <? 2 then mret (Some [])
  else if nfc then
    sum ← lift (add 64 len (cluster_bytes v));
    let n := ((sum - 1) / cluster_bytes v) mod 2 ^ 32 in
    _ ← lift (add 32 first n);
    mret (Some (seqZ first n))
  else chain_walk (S (Z.to_nat (cluster_count v))) v first.

(** * The allocation bitmap *)

Inductive search := Found (start : Z) | Stop | More (run_start run_len : Z).
(** One sector of the bitmap, from bit [bit_in_sector] on. *)
Fixpoint scan_bits (v : Volume) (count : Z) (buf : list Z) (s : Z) (bits : list Z) (run_start run_len : Z) : search :=
  match bits with
  | [] => More run_start run_len
  | b :: rest =>
      let bit := s * SECTOR * 8 + b in
      if cluster_count v <=? bit then Stop
      else if negb (bit_get 8 buf b) then
        let run_start := if run_len =? 0 then bit else run_start in
        if run_len + 1 =? count then Found run_start
        else scan_bits v count buf s rest run_start (run_len + 1)
      else scan_bits v count buf s rest run_start 0
  end.
(** The bitmap's sectors in turn; [None] on a failed read. *)
Fixpoint search_bitmap (v : Volume) (count : Z) (ss : list Z) (run_start run_len : Z) : X (option (option Z)) :=
  match ss with
  | [] => mret (Some None)
  | s :: rest =>
      try_ (read_sector (cluster_lba v (bitmap_cluster v) + s)) (fun buf =>
        match scan_bits v count buf s (seqZ 0 (SECTOR * 8)) run_start run_len with
        | Found start => mret (Some (Some start))
        | Stop => mret (Some None)
        | More run_start run_len => search_bitmap v count rest run_start run_len
        end)
  end.

Definition set_bit (buf : list Z) (bit : Z) (allocated : bool) : list Z :=
  let b := bit mod (SECTOR * 8) in if allocated then bit_set 8 buf b else bit_clear 8 buf b.
(** [loaded]: the sector held in memory and its contents. *)
Fixpoint set_bits (v : Volume) (allocated : bool) (cs : list Z) (loaded : option (Z * list Z)) : X bool :=
  let l := cluster_lba v (bitmap_cluster v) in
  match cs with
  | [] => match loaded with Some (s, buf) => write_sector (l + s) buf | None => mret true end
  | c :: rest =>
      if c <? 2 then set_bits v allocated rest loaded
      else
        let bit := c - 2 in
        let sector := bit / (SECTOR * 8) in
        r ← match loaded with
            | Some (s, buf) =>
                if s =? sector then mret (Some buf)
                else ok ← write_sector (l + s) buf; if ok : bool then read_sector (l + sector) else mret None
            | None => read_sector (l + sector)
            end;
        match r with
        | None => mret false
        | Some buf => set_bits v allocated rest (Some (sector, set_bit buf bit allocated))
        end
  end.
Definition bitmap_set (v : Volume) (clusters : list Z) (allocated : bool) : X bool :=
  set_bits v allocated (merge_sort Z.le clusters) None.

Definition bitmap_alloc (v : Volume) (count : Z) : X (option Z) :=
  sum ← lift (add 64 (bitmap_bytes v) SECTOR);
  try_ (search_bitmap v count (seqZ 0 ((sum - 1) / SECTOR)) 0 0) (fun found =>
    match found with
    | None => mret None
    | Some start_bit =>
        _ ← lift (add 32 (start_bit + count - 1) 2);
        ok ← bitmap_set v (seqZ (start_bit + 2) count) true;
        mret (if ok : bool then Some (start_bit + 2) else None)
    end).

Definition free_clusters (v : Volume) (first : Z) (nfc : bool) (len : Z) : X unit :=
  o ← collect_chain v first nfc len;
  match o with
  | None => mret tt
  | Some [] => mret tt
  | Some chain =>
      _ ← bitmap_set v chain false;
      if negb nfc then for_each chain (fun c => _ ← fat_write v c 0; mret tt) else mret tt
  end.

(** * Directories *)

Fixpoint read_clusters (v : Volume) (cs : list Z) : X (option (list Z)) :=
  match cs with
  | [] => mret (Some [])
  | c :: rest => try_ (read_cluster v c) (fun b => try_ (read_clusters v rest) (fun bs => mret (Some (b ++ bs))))
  end.
Definition load_dir (v : Volume) (dir : DirRef) : X (option (list Z * list Z)) :=
  try_ (collect_chain v (dr_cluster dir) (dr_no_fat_chain dir) (dr_length dir)) (fun chain =>
    if bool_decide (chain = []) then mret None
    else try_ (read_clusters v chain) (fun data => mret (Some (chain, data)))).

(** [&data[off..off + SECTOR]]. *)
Definition sector_at (data : list Z) (off : Z) : outcome string (list Z) :=
  if (0 <=? off) && (off + SECTOR <=? Z.of_nat (length data)) then Ok (take 512 (drop (Z.to_nat off) data)) else Panic.
Definition store_dir_range (v : Volume) (chain data : list Z) (start len : Z) : X bool :=
  let cbytes := cluster_bytes v in
  let first_cl := start / cbytes in
  let last_cl := (start + len - 1) / cbytes in
  all_ok (seqZ first_cl (last_cl - first_cl + 1)) (fun ci =>
    cluster ← lift (unwrap (chain !! Z.to_nat ci));
    let cl_start := ci * cbytes in
    let touch_start := Z.max start cl_start in
    let touch_end := Z.min (start + len) (cl_start + cbytes) in
    let first_sec := (touch_start - cl_start) / SECTOR in
    let last_sec := (touch_end - 1 - cl_start) / SECTOR in
    all_ok (seqZ first_sec (last_sec - first_sec + 1)) (fun s =>
      buf ← lift (sector_at data (cl_start + s * SECTOR));
      write_sector (cluster_lba v cluster + s) buf)).

Fixpoint walk (v : Volume) (cur : DirRef) (dirs : list (list Z)) : X (option DirRef) :=
  match dirs with
  | [] => mret (Some cur)
  | comp :: rest =>
      try_ (load_dir v cur) (fun '(_, data) =>
        match List.find (fun f => is_dir f && names_equal_ascii (name f) comp) (parse_entries data) with
        | Some found => walk v (dir_ref_of found) rest
        | None => mret None
        end)
  end.
Definition resolve_parent (v : Volume) (path : list Z) : X (option (DirRef * list Z)) :=
  match last (components path) with
  | None => mret None
  | Some nm => try_ (walk v (root_ref v) (removelast (components path))) (fun cur => mret (Some (cur, nm)))
  end.
Definition lookup (v : Volume) (path : list Z) : X (option (DirRef * DirFile)) :=
  try_ (resolve_parent v path) (fun '(parent, nm) =>
    try_ (load_dir v parent) (fun '(_, data) =>
      mret (pair parent <$> List.find (fun f => names_equal_ascii (name f) nm) (parse_entries data)))).

Fixpoint read_pieces (v : Volume) (remaining : Z) (chain : list Z) : X (option (list Z)) :=
  match chain with
  | [] => mret (Some [])
  | c :: rest =>
      if remaining =? 0 then mret (Some [])
      else
        try_ (read_cluster v c) (fun b =>
          let n := Z.min remaining (cluster_bytes v) in
          try_ (read_pieces v (remaining - n) rest) (fun bs => mret (Some (take (Z.to_nat n) b ++ bs))))
  end.
Definition read_file_inner (v : Volume) (f : DirFile) : X (option (list Z)) :=
  if data_length f =? 0 then mret (Some [])
  else
    try_ (collect_chain v (first_cluster f) (no_fat_chain f) (data_length f)) (fun chain =>
      if Z.of_nat (length chain) * cluster_bytes v <? data_length f then mret None
      else read_pieces v (data_length f) chain).

(** * Placing and updating entries *)

(** [while end + set.len() > data.len()]: the root grows by a cluster at a time; [fuel]
    exceeds the clusters a set can need. *)
Fixpoint grow (fuel : nat) (v : Volume) (dir : DirRef) (end_ set_len : Z) (chain data : list Z) : X (list Z * list Z) :=
  match fuel with
  | O => lift Panic
  | S fuel' =>
      if end_ + set_len <=? Z.of_nat (length data) then mret (chain, data)
      else
        _ ← guard (negb (is_root dir)) "directory full";
        o ← bitmap_alloc v 1;
        new_cluster ← lift (ok_or o "disk full");
        ok ← zero_cluster v new_cluster;
        ok ← (if ok : bool then fat_write v new_cluster FAT_EOF else mret false);
        if negb ok then
          _ ← fat_write v new_cluster 0; _ ← bitmap_set v [new_cluster] false; fail "cluster init failed"
        else
          tail ← lift (unwrap (last chain));
          ok ← fat_write v tail new_cluster;
          if negb ok then
            _ ← fat_write v new_cluster 0; _ ← bitmap_set v [new_cluster] false; fail "FAT update failed"
          else
            let chain := chain ++ [new_cluster] in
            grow fuel' v dir end_ set_len chain
              (data ++ replicate (length chain * Z.to_nat (cluster_bytes v) - length data) 0)
  end.

Definition place_entry_set (v : Volume) (dir : DirRef) (set : list Z) : X unit :=
  o ← load_dir v dir;
  '(chain, data) ← lift (ok_or o "directory read failed");
  let needed := (length set / DIR_ENTRY)%nat in
  let '(place_at, end_marker) := find_place needed 0 0 0 (chunks_exact DIR_ENTRY data) in
  '(offset, chain, data) ← match place_at with
    | Some idx => mret (idx * DIR_ENTRY, chain, data)%nat
    | None =>
        let end_ := match end_marker with Some e => (e * DIR_ENTRY)%nat | None => length data end in
        '(chain, data) ← grow (S (length set)) v dir (Z.of_nat end_) (Z.of_nat (length set)) chain data;
        mret (end_, chain, data)
    end;
  let data := splice data offset set in
  ok ← store_dir_range v chain data (Z.of_nat offset) (Z.of_nat (length set));
  guard (negb ok) "directory write failed".

Definition update_stream_entry (v : Volume) (dir : DirRef) (file : DirFile) (flags first len : Z) : X unit :=
  o ← load_dir v dir;
  '(chain, data) ← lift (ok_or o "directory read failed");
  let off := set_offset file in
  let set_len := (set_entries file * DIR_ENTRY)%nat in
  _ ← guard ((length data <? off + set_len)%nat || negb (byte data off =? ET_FILE)) "stale directory entry";
  _ ← lift (assert_that (off + 64 <=? length data)%nat);
  let s := take 32 (drop (off + 32) data) in
  _ ← guard (negb (byte s 0 =? ET_STREAM)) "missing stream entry";
  let s := splice s 1 [flags] in
  let s := splice s 8 (to_le_bytes 8 len) in
  let s := splice s 20 (to_le_bytes 4 first) in
  let s := splice s 24 (to_le_bytes 8 len) in
  let data := splice data (off + 32) s in
  let data := splice data (off + 2) (to_le_bytes 2 (entry_set_checksum (take set_len (drop off data)))) in
  ok ← store_dir_range v chain data (Z.of_nat off) (Z.of_nat set_len);
  guard (negb ok) "directory write failed".

Definition rollback_contiguous (v : Volume) (first len : Z) : X unit :=
  if (2 <=? first) && (0 <? len) then free_clusters v first true len else mret tt.

Definition write_data_contiguous (v : Volume) (data : list Z) : X Z :=
  if bool_decide (data = []) then mret 0
  else
    let cbytes := cluster_bytes v in
    let clusters := (Z.of_nat (length data) + cbytes - 1) / cbytes in
    o ← bitmap_alloc v clusters;
    first ← lift (ok_or o "no contiguous space");
    _ ← for_each (seqZ 0 clusters) (fun i =>
          let chunk := take (Z.to_nat cbytes) (drop (Z.to_nat (i * cbytes)) data) in
          ok ← write_cluster v (first + i) chunk;
          if negb ok then
            _ ← rollback_contiguous v first (Z.of_nat (length data)); fail "data write failed"
          else mret tt);
    mret first.

Definition stream_flags (data : list Z) : Z :=
  if bool_decide (data = []) then FLAG_ALLOC_POSSIBLE else Z.lor FLAG_ALLOC_POSSIBLE FLAG_NO_FAT_CHAIN.
(** [if let Err(e) = m { undo; return Err(e); }]. *)
Definition or_undo (m undo : X unit) : X unit :=
  r ← catch m; match r with inl _ => mret tt | inr e => _ ← undo; fail e end.
End Disk.

(** * Operations *)

Record fs := mkFs { volume : option Volume; device : BlkDevice }.
Definition F := M fs.
(** Run on the mounted volume; [none] is the result without one. *)
Definition with_volume {A} (none : outcome string A) (m : Volume -> X A) : F A := fun f =>
  match volume f with
  | None => (none, f)
  | Some v => let '(r, d) := m v (device f) in (r, mkFs (Some v) d)
  end.

Section Operations.
Context (env : nat -> response).

(** The allocation bitmap entry, searched until the end mark. *)
Fixpoint scan_root (es : list (list Z)) (found : Z * Z) : (Z * Z) * bool :=
  match es with
  | [] => (found, false)
  | e :: rest =>
      if byte e 0 =? ET_END then (found, true)
      else if byte e 0 =? ET_BITMAP then scan_root rest (le32 e 20, le64 e 24)
      else scan_root rest found
  end.
Fixpoint find_bitmap (v : Volume) (chain : list Z) (found : Z * Z) : X (Z * Z) :=
  match chain with
  | [] => mret found
  | c :: rest =>
      o ← read_cluster env v c;
      match o with
      | None => mret found
      | Some buf =>
          let '(found, ended) := scan_root (chunks_exact DIR_ENTRY buf) found in
          if ended : bool then mret found else find_bitmap v rest found
      end
  end.
(** What [mount] makes of the device; [None] is "not mounted". *)
Definition discover : X (option Volume) :=
  d ← get;
  if negb (available (Some d)) then mret None
  else
    try_ (read_sector env 0) (fun bs =>
      if negb (bool_decide (take 8 (drop 3 bs) = lit "EXFAT   ")) || negb (byte bs 510 =? 0x55) || negb (byte bs 511 =? 0xAA)
      then mret None
      else if negb (byte bs 108 =? 9) then mret None
      else
        _ ← lift (assert_that (byte bs 109 <? 32));
        let v := mkVolume (Z.shiftl 1 (byte bs 109)) (le32 bs 80) (le32 bs 88) (le32 bs 92) (le32 bs 96) 0 0 in
        try_ (collect_chain env v (root_cluster v) false 0) (fun chain =>
          '(bc, bb) ← find_bitmap v chain (0, 0);
          let v := mkVolume (sectors_per_cluster v) (fat_lba v) (heap_lba v) (cluster_count v) (root_cluster v) bc bb in
          mret (if bc <? 2 then None else Some v))).
Definition mount : F bool := fun f =>
  match discover (device f) with
  | (Ok (Some v), d) => (Ok true, mkFs (Some v) d)
  | (Ok None, d) => (Ok false, mkFs (volume f) d)
  | (Err e, d) => (Err e, mkFs (volume f) d)
  | (Panic, d) => (Panic, mkFs (volume f) d)
  end.
Definition mounted (f : fs) : bool := bool_decide (is_Some (volume f)).

Definition find_dir (v : Volume) (path : list Z) : X (option DirRef) :=
  if bool_decide (components path = []) then mret (Some (root_ref v))
  else try_ (lookup env v path) (fun '(_, f) => mret (if is_dir f then Some (dir_ref_of f) else None)).
Definition read_dir (path : list Z) : F (option (list (list Z * bool * Z))) :=
  with_volume (Ok None) (fun v =>
    try_ (find_dir v path) (fun dir =>
      try_ (load_dir env v dir) (fun '(_, data) =>
        mret (Some (map (fun f => (name f, is_dir f, data_length f)) (parse_entries data)))))).
Definition metadata (path : list Z) : F (option (bool * Z)) :=
  with_volume (Ok None) (fun v =>
    try_ (lookup env v path) (fun '(_, f) => mret (Some (is_dir f, data_length f)))).
Definition directory_id (path : list Z) : F (option Z) :=
  with_volume (Ok None) (fun v =>
    if bool_decide (components path = []) then mret (Some (root_cluster v))
    else try_ (lookup env v path) (fun '(_, f) => mret (if is_dir f then Some (first_cluster f) else None))).
Definition read_file (path : list Z) : F (option (list Z)) :=
  with_volume (Ok None) (fun v =>
    try_ (lookup env v path) (fun '(_, f) => if is_dir f then mret None else read_file_inner env v f)).

(** Parent and last component of a path whose name is new there. *)
Definition new_name (v : Volume) (path : list Z) : X (DirRef * list Z) :=
  o ← resolve_parent env v path;
  '(parent, nm) ← lift (ok_or o "no such directory");
  _ ← lift (validate_name nm);
  o ← load_dir env v parent;
  '(_, pdata) ← lift (ok_or o "directory read failed");
  _ ← guard (existsb (fun f => names_equal_ascii (name f) nm) (parse_entries pdata)) "already exists";
  mret (parent, nm).

Definition create_in (v : Volume) (path data : list Z) : X unit :=
  '(parent, nm) ← new_name v path;
  first ← write_data_contiguous env v data;
  let set := build_entry_set nm ATTR_ARCHIVE (stream_flags data) first (Z.of_nat (length data)) in
  or_undo (place_entry_set env v parent set) (rollback_contiguous env v first (Z.of_nat (length data))).
Definition create_file (path data : list Z) : F unit :=
  with_volume (Err "not mounted") (fun v => create_in v path data).

Definition overwrite (v : Volume) (parent : DirRef) (f : DirFile) (data : list Z) : X unit :=
  _ ← guard (is_dir f) "is a directory";
  first ← write_data_contiguous env v data;
  _ ← or_undo (update_stream_entry env v parent f (stream_flags data) first (Z.of_nat (length data)))
        (rollback_contiguous env v first (Z.of_nat (length data)));
  free_clusters env v (first_cluster f) (no_fat_chain f) (data_length f).
Definition write_in (v : Volume) (path data : list Z) : X unit :=
  o ← lookup env v path;
  match o with
  | Some (parent, f) => overwrite v parent f data
  | None => create_in v path data
  end.
Definition write_file (path data : list Z) : F unit :=
  with_volume (Err "not mounted") (fun v => write_in v path data).
Definition append_in (v : Volume) (path data : list Z) : X unit :=
  o ← lookup env v path;
  existing ← match o with
             | Some (_, f) =>
                 if is_dir f then fail "is a directory"
                 else o ← read_file_inner env v f; lift (ok_or o "read failed")
             | None => mret []
             end;
  write_in v path (existing ++ data).
Definition append_file (path data : list Z) : F unit :=
  with_volume (Err "not mounted") (fun v => append_in v path data).

Definition delete_in (v : Volume) (path : list Z) : X unit :=
  o ← lookup env v path;
  '(parent, f) ← lift (ok_or o "no such file");
  _ ← (if is_dir f then
         o ← load_dir env v (dir_ref_of f);
         '(_, ddata) ← lift (ok_or o "directory read failed");
         guard (negb (bool_decide (parse_entries ddata = []))) "directory not empty"
       else mret tt);
  o ← load_dir env v parent;
  '(chain, data) ← lift (ok_or o "directory read failed");
  let off := set_offset f in
  let set_len := (set_entries f * DIR_ENTRY)%nat in
  _ ← guard ((length data <? off + set_len)%nat || negb (byte data off =? ET_FILE)) "stale directory entry";
  let data := foldl (fun data i => <[(off + i * DIR_ENTRY)%nat := Z.land (byte data (off + i * DIR_ENTRY)) (unot 8 ET_IN_USE)]> data)
                data (seq 0 (set_entries f)) in
  ok ← store_dir_range env v chain data (Z.of_nat off) (Z.of_nat set_len);
  _ ← guard (negb ok) "directory write failed";
  free_clusters env v (first_cluster f) (no_fat_chain f) (data_length f).
Definition delete (path : list Z) : F unit :=
  with_volume (Err "not mounted") (fun v => delete_in v path).

Definition mkdir_in (v : Volume) (path : list Z) : X unit :=
  '(parent, nm) ← new_name v path;
  o ← bitmap_alloc env v 1;
  cluster ← lift (ok_or o "disk full");
  let rollback := (_ ← fat_write env v cluster 0; _ ← bitmap_set env v [cluster] false; mret tt) in
  ok ← zero_cluster env v cluster;
  ok ← (if ok : bool then fat_write env v cluster FAT_EOF else mret false);
  if negb ok then (_ ← rollback; fail "cluster init failed")
  else
    let set := build_entry_set nm ATTR_DIRECTORY FLAG_ALLOC_POSSIBLE cluster (cluster_bytes v) in
    or_undo (place_entry_set env v parent set) rollback.
Definition mkdir (path : list Z) : F unit :=
  with_volume (Err "not mounted") (fun v => mkdir_in v path).
End Operations.

(** * Example: a volume of twenty one-sector clusters *)

Definition demo_boot : list Z :=
  splice (splice (splice (splice (splice (splice (splice (splice (replicate 512 0) 3 (lit "EXFAT   ")) 80 (to_le_bytes 4 1))
    88 (to_le_bytes 4 2)) 92 (to_le_bytes 4 20)) 96 (to_le_bytes 4 3)) 108 [9; 0]) 510 [0x55; 0xAA]) 0 [0xEB; 0x76; 0x90].
Definition demo_fat : list Z := splice (replicate 512 0) 8 (to_le_bytes 4 FAT_EOF ++ to_le_bytes 4 FAT_EOF).
Definition demo_bitmap : list Z := splice (replicate 512 0) 0 [3].
Definition demo_root : list Z :=
  splice (splice (splice (replicate 512 0) 0 [ET_BITMAP]) 20 (to_le_bytes 4 2)) 24 (to_le_bytes 8 3).
Definition demo_disk : BlkDevice :=
  mkBlk 22 false (list_to_map [(0, demo_boot); (1, demo_fat); (2, demo_bitmap); (3, demo_root)]) 0.
Definition demo_env (n : nat) : response := Completed 0 true.

Definition demo_session : F (option (list Z)) :=
  m ← mount demo_env;
  _ ← guard (negb m) "not mounted";
  _ ← mkdir demo_env (lit "DOCS");
  _ ← create_file demo_env (lit "DOCS/A.TXT") (replicate 700 65);
  _ ← append_file demo_env (lit "DOCS/A.TXT") [66; 67];
  _ ← create_file demo_env (lit "B.TXT") [1; 2; 3];
  _ ← delete demo_env (lit "B.TXT");
  o ← read_file demo_env (lit "b.txt");
  _ ← guard (bool_decide (is_Some o)) "still there";
  read_file demo_env (lit "docs/a.txt").
Example demo_session_reads : (demo_session (mkFs None demo_disk)).1 = Ok (Some (replicate 700 65 ++ [66; 67])).
Proof. vm_compute. reflexivity. Qed.
End Exfat.
