(* ===== verification/ExfatDisk.v ===== *)
(** Reasoning about the exFAT code on a device that may fail (src/fs/exfat.rs): what
    reads and writes of sectors, clusters and table entries do to the medium. *)

From Stdlib Require Import ZArith Lia.
From stdpp Require Import base list list_numbers numbers decidable tactics strings gmap sorting.
From S2P Require Import Prelude BlockDev FatNames Exfat.
Import Blk FatNames Exfat.

Module ExfatDisk.

Abbreviation medium := (gmap Z (list Z)).
Abbreviation sec := sector_of.

(** * Computations on the medium *)

(** The device answers every request inside its capacity. *)
Definition working (env : nat -> response) (cap : Z) (d : BlkDevice) : Prop :=
  failed d = false /\ capacity_sectors d = cap /\ forall n, exists landed, env n = Completed 0 landed.

Section Runs.
Context (env : nat -> response) (sure : Prop) (cap : Z).

(** From medium [mu] the computation does not panic and ends as [Q] or, with an error, as
    [E] says; when [sure], the device works all along. *)
Definition runs {A} (m : X A) (mu : medium) (Q : A -> medium -> Prop) (E : string -> medium -> Prop) : Prop :=
  forall d, media d = mu -> (sure -> working env cap d) ->
    wp m d (fun a d' => (sure -> working env cap d') /\ Q a (media d')) (fun e d' => (sure -> working env cap d') /\ E e (media d')).

Lemma runs_ret {A} (a : A) mu (Q : A -> medium -> Prop) E : Q a mu -> runs (mret a) mu Q E.
Proof. intros H d <- Hw. by apply wp_ret. Qed.
Lemma runs_bind {A B} (m : X A) (f : A -> X B) mu Q E : runs m mu (fun a mu' => runs (f a) mu' Q E) E -> runs (m ≫= f) mu Q E.
Proof. intros H d Hd Hw. apply wp_bind. eapply wp_mono; [by apply H | | done]. intros a d' [Hw' Hr]. by apply Hr. Qed.
Lemma runs_assoc {A B C} (m : X A) (f : A -> X B) (g : B -> X C) mu Q E : runs ((m ≫= f) ≫= g) mu Q E -> runs (m ≫= fun a => f a ≫= g) mu Q E.
Proof. intros H d Hd Hw. specialize (H d Hd Hw). unfold wp, mbind, M_bind in *. by destruct (m d) as [[a | e |] d']. Qed.
Lemma runs_mono {A} (m : X A) mu (Q Q' : A -> medium -> Prop) (E E' : string -> medium -> Prop) :
  runs m mu Q E -> (forall a mu', Q a mu' -> Q' a mu') -> (forall e mu', E e mu' -> E' e mu') -> runs m mu Q' E'.
Proof. intros H HQ HE d Hd Hw. eapply wp_mono; [by apply H | |]; cbn; intros ? ? []; auto. Qed.
Lemma runs_lift {A} (o : outcome string A) mu (Q : A -> medium -> Prop) (E : string -> medium -> Prop) :
  match o with Ok a => Q a mu | Err e => E e mu | Panic => False end -> runs (lift o) mu Q E.
Proof. intros H d <- Hw. apply wp_lift. destruct o; auto. Qed.
Lemma runs_guard b e mu (Q : unit -> medium -> Prop) (E : string -> medium -> Prop) :
  (b = true -> E e mu) -> (b = false -> Q tt mu) -> runs (guard b e) mu Q E.
Proof. intros H1 H2. apply runs_lift. destruct b; cbn; auto. Qed.
Lemma runs_fail {A} e mu (Q : A -> medium -> Prop) (E : string -> medium -> Prop) : E e mu -> runs (fail e) mu Q E.
Proof. intros H d <- Hw. by apply wp_fail. Qed.
Lemma runs_catch {A} (m : X A) mu (Q : A + string -> medium -> Prop) E :
  runs m mu (fun a => Q (inl a)) (fun e => Q (inr e)) -> runs (catch m) mu Q E.
Proof. intros H d Hd Hw. apply wp_catch. by apply H. Qed.
Lemma runs_try {A B} (m : X (option A)) (f : A -> X (option B)) mu (Q : option B -> medium -> Prop) E :
  runs m mu (fun o mu' => match o with Some a => runs (f a) mu' Q E | None => Q None mu' end) E -> runs (try_ m f) mu Q E.
Proof. intros H. apply runs_bind. eapply runs_mono; [exact H | | auto]. intros [a |] mu' Hd; [done | by apply runs_ret]. Qed.
(** A sum that fits. *)
Lemma runs_add w a b mu (Q : Z -> medium -> Prop) E : a + b < 2 ^ w -> Q (a + b) mu -> runs (lift (add w a b)) mu Q E.
Proof. intros H HQ. apply runs_lift. unfold add. by rewrite (proj2 (Z.ltb_lt _ _)). Qed.

Lemma runs_read l mu (Q : option (list Z) -> medium -> Prop) E : l < cap ->
  Q (Some (sec mu l)) mu -> (~ sure -> Q None mu) -> runs (read_sector env l) mu Q E.
Proof.
  intros Hl HS HN d Hd Hw. destruct (dev_read_spec env l d) as (o & d' & E1 & Em & [Hc _] & Ho). unfold wp, read_sector.
  assert (sure -> working env cap d' /\ o <> None) as H.
  { intros s. destruct (Hw s) as (Wf & Wc & We). revert E1. unfold dev_read, do_request. rewrite Wf.
    change (negb _) with false. cbn iota. change (Z.of_nat (length zero_sector) / SECTOR_SIZE) with 1.
    rewrite Wc, (proj2 (Z.ltb_ge cap (l + 1))) by lia. destruct (We (requests d)) as [ld ->]. rewrite Z.eqb_refl.
    intros [= <- <-]. split; [split; [cbn; by rewrite Wf | split; done] | done]. }
  rewrite E1, Em, Hd in *. split; [intros s; apply (H s) |]. destruct Ho as [-> | ->]; [done |].
  apply HN. intros s. by destruct (H s).
Qed.
Lemma runs_write l buf mu (Q : bool -> medium -> Prop) E : l < cap -> length buf = 512%nat ->
  Q true (<[l := buf]> mu) -> (~ sure -> Q false mu /\ Q false (<[l := buf]> mu)) -> runs (write_sector env l buf) mu Q E.
Proof.
  intros Hl Hb HT HF d Hd Hw. destruct (dev_write_spec env l buf d Hb) as (b & d' & E1 & [Hc _] & Ht & Hm). unfold wp, write_sector.
  assert (sure -> working env cap d' /\ b = true) as H.
  { intros s. destruct (Hw s) as (Wf & Wc & We). revert E1. unfold dev_write, do_request. rewrite Wf, Hb.
    change (negb _) with false. cbn iota. change (Z.of_nat 512 / SECTOR_SIZE) with 1.
    rewrite Wc, (proj2 (Z.ltb_ge cap (l + 1))) by lia. destruct (We (requests d)) as [ld ->]. rewrite Z.eqb_refl.
    intros [= <- <-]. split; [split; [cbn; by rewrite Wf | split; done] | done]. }
  rewrite E1, Hd in *. split; [intros s; apply (H s) |]. destruct b.
  - destruct (Ht eq_refl) as [-> _]. exact HT.
  - assert (~ sure) as Hs by (intros s; by destruct (H s)). destruct (HF Hs) as [F1 F2]. destruct Hm as [-> | ->]; done.
Qed.

(** Loops; [I] holds of the elements handled. *)
Lemma runs_all_ok {A} (l : list A) (body : A -> X bool) (I : list A -> list A -> medium -> Prop) (Q : bool -> medium -> Prop) E mu :
  I [] l mu -> (forall mu', I l [] mu' -> Q true mu') ->
  (forall dn x rest mu', l = dn ++ x :: rest -> I dn (x :: rest) mu' ->
     runs (body x) mu' (fun ok mu2 => if ok : bool then I (dn ++ [x]) rest mu2 else Q false mu2) E) ->
  runs (all_ok l body) mu Q E.
Proof.
  intros H0 HQ Hstep.
  assert (forall rest dn mu, l = dn ++ rest -> I dn rest mu -> runs (all_ok rest body) mu Q E) as H.
  { induction rest as [| x rest IH]; intros dn mu' Hl HI.
    - apply runs_ret, HQ. rewrite app_nil_r in Hl. by subst.
    - cbn [all_ok]. apply runs_bind. eapply runs_mono; [by eapply Hstep | | auto].
      intros [] mu2 HI'; [apply (IH (dn ++ [x])); [by rewrite <- app_assoc | done] | by apply runs_ret]. }
  by apply (H l []).
Qed.
Lemma runs_for_each {A} (l : list A) (body : A -> X unit) (I : list A -> list A -> medium -> Prop) (Q : unit -> medium -> Prop) E mu :
  I [] l mu -> (forall mu', I l [] mu' -> Q tt mu') ->
  (forall dn x rest mu', l = dn ++ x :: rest -> I dn (x :: rest) mu' -> runs (body x) mu' (fun _ mu2 => I (dn ++ [x]) rest mu2) E) ->
  runs (for_each l body) mu Q E.
Proof.
  intros H0 HQ Hstep.
  assert (forall rest dn mu, l = dn ++ rest -> I dn rest mu -> runs (for_each rest body) mu Q E) as H.
  { induction rest as [| x rest IH]; intros dn mu' Hl HI.
    - apply runs_ret, HQ. rewrite app_nil_r in Hl. by subst.
    - cbn [for_each]. apply runs_bind. eapply runs_mono; [by eapply Hstep | | auto].
      intros [] mu2 HI'. apply (IH (dn ++ [x])); [by rewrite <- app_assoc | done]. }
  by apply (H l []).
Qed.
End Runs.

(** From a device as it is. *)
Lemma runs_wp {A} env (m : X A) d (Q : A -> medium -> Prop) (E : string -> medium -> Prop) :
  runs env (working env (capacity_sectors d) d) (capacity_sectors d) m (media d) Q E ->
  wp m d (fun a d' => Q a (media d')) (fun e d' => E e (media d')).
Proof. intros H. eapply wp_mono; [by apply H | |]; by intros ? ? []. Qed.

(** * Geometry *)

(** Sectors of the bitmap that hold a bit of a cluster. *)
Definition bitmap_sectors (v : Volume) : Z := (cluster_count v + 4095) / 4096.
Definition bitmap_lba (v : Volume) : Z := cluster_lba v (bitmap_cluster v).
Definition bitmap_clusters (v : Volume) : Z := (bitmap_sectors v + sectors_per_cluster v - 1) / sectors_per_cluster v.
Definition valid (v : Volume) (c : Z) : Prop := 2 <= c < cluster_count v + 2.
(** Sectors of the bitmap, the table and a cluster. *)
Definition in_bitmap (v : Volume) (l : Z) : Prop := bitmap_lba v <= l < bitmap_lba v + bitmap_sectors v.
Definition in_fat (v : Volume) (l : Z) : Prop := fat_lba v <= l < heap_lba v.
Definition in_cluster (v : Volume) (c l : Z) : Prop := cluster_lba v c <= l < cluster_lba v c + sectors_per_cluster v.

(** A geometry that a formatter writes, on a device of [cap] sectors: the table before the
    heap, the bitmap inside the heap with a bit for each cluster. *)
Record geometry (v : Volume) (cap : Z) : Prop := {
  ge_spc : 1 <= sectors_per_cluster v <= 2 ^ 31;
  ge_count : 0 < cluster_count v < 2 ^ 32 - 2;
  ge_fat : 0 <= fat_lba v /\ fat_lba v + ((cluster_count v + 1) * 4) / 512 < heap_lba v;
  ge_bitmap : 2 <= bitmap_cluster v /\ bitmap_cluster v + bitmap_clusters v <= cluster_count v + 2;
  ge_bits : bitmap_bytes v = (cluster_count v + 7) / 8;
  ge_cap : heap_lba v + cluster_count v * sectors_per_cluster v <= cap }.

(** [m'] differs from [m] in sectors of [P] only. *)
Definition within (P : Z -> Prop) (m m' : medium) : Prop := (media_ok m -> media_ok m') /\ forall l, ~ P l -> sec m' l = sec m l.
Lemma within_refl P m : within P m m.
Proof. done. Qed.
Lemma within_trans P m m1 m2 : within P m m1 -> within P m1 m2 -> within P m m2.
Proof. intros [A1 A2] [B1 B2]. split; [auto |]. intros l Hl. rewrite B2 by done. by apply A2. Qed.
Lemma within_mono (P P' : Z -> Prop) m m' : within P m m' -> (forall l, P l -> P' l) -> within P' m m'.
Proof. intros [A1 A2] H. split; [done |]. intros l Hl. apply A2. auto. Qed.
Lemma within_insert (P : Z -> Prop) m l b : P l -> sector_ok b -> within P m (<[l := b]> m).
Proof.
  intros Hl Hb. split; [intros; by apply media_ok_insert |]. intros l' Hn. rewrite sector_of_insert, decide_False; [done |]. by intros ->.
Qed.

Section Places.
Context (v : Volume) (cap : Z).
Hypothesis G : geometry v cap.

Lemma cluster_fits c l : valid v c -> in_cluster v c l -> heap_lba v <= l < cap.
Proof. destruct G as [A B C D E H]. unfold valid, in_cluster, cluster_lba. nia. Qed.
Lemma cluster_apart c c' l : in_cluster v c l -> in_cluster v c' l -> c = c'.
Proof. destruct G as [A B C D E H]. unfold in_cluster, cluster_lba. nia. Qed.
Lemma fat_sector c : 0 <= c < cluster_count v + 2 -> in_fat v (fat_lba v + c * 4 / 512).
Proof. destruct G as [A B C D E H]. intros Hc. unfold in_fat. zdiv. Qed.
Lemma fat_fits l : in_fat v l -> l < cap.
Proof. destruct G as [A B C D E H]. unfold in_fat. nia. Qed.
Lemma fat_no_cluster c l : valid v c -> in_cluster v c l -> ~ in_fat v l.
Proof. intros Hc Hl. pose proof (cluster_fits c l Hc Hl). unfold in_fat. lia. Qed.
(** The bitmap lies in its clusters. *)
Definition bitmap_own (c : Z) : Prop := bitmap_cluster v <= c < bitmap_cluster v + bitmap_clusters v.
Lemma bitmap_valid c : bitmap_own c -> valid v c.
Proof. destruct G as [A B C D E H]. unfold bitmap_own, valid. lia. Qed.
Lemma bitmap_in l : in_bitmap v l -> exists c, bitmap_own c /\ in_cluster v c l.
Proof.
  destruct G as [A B C D E H]. unfold in_bitmap, bitmap_own, bitmap_lba, bitmap_clusters, in_cluster, cluster_lba. intros Hl.
  set (s := sectors_per_cluster v) in *. set (n := bitmap_sectors v) in *. set (q := l - (heap_lba v + (bitmap_cluster v - 2) * s)).
  exists (bitmap_cluster v + q / s). assert (0 <= q < n) by (unfold q; lia).
  assert (q = s * (q / s) + q mod s /\ 0 <= q mod s < s) as [Eq Hm] by (split; [apply Z.div_mod | apply Z.mod_pos_bound]; lia).
  assert (n + s - 1 = s * ((n + s - 1) / s) + (n + s - 1) mod s /\ 0 <= (n + s - 1) mod s < s) as [Eq' Hm'] by (split; [apply Z.div_mod | apply Z.mod_pos_bound]; lia).
  assert (0 <= q / s) by (apply Z.div_pos; lia). unfold q in *. split; [| nia]. split; [lia |]. nia.
Qed.
Lemma bitmap_fits l : in_bitmap v l -> heap_lba v <= l < cap.
Proof. intros (c & Hc & Hl)%bitmap_in. eapply cluster_fits; [by apply bitmap_valid | done]. Qed.
Lemma bitmap_no_cluster c l : ~ bitmap_own c -> in_cluster v c l -> ~ in_bitmap v l.
Proof. intros Hc Hl (c' & Hc' & Hl')%bitmap_in. apply Hc. by rewrite (cluster_apart c c' l). Qed.
Lemma bitmap_no_fat l : in_bitmap v l -> ~ in_fat v l.
Proof. intros H%bitmap_fits. unfold in_fat. lia. Qed.
End Places.
End ExfatDisk.
