(* ===== verification/ExfatBitmap.v ===== *)
(** The exFAT allocation bitmap (src/fs/exfat.rs): allocation is first fit, and setting
    bits touches exactly the bits asked for, whatever the device answers. *)

From Stdlib Require Import ZArith Lia.
From stdpp Require Import base list list_numbers numbers decidable tactics strings gmap sorting.
From S2P Require Import Prelude BlockDev FatNames Exfat ExfatDisk.
Import Blk FatNames Exfat ExfatDisk.

Module ExfatBitmap.


(** Bit [k] of the bitmap: cluster [k + 2] is in use. *)
Definition bit (m : medium) (v : Volume) (k : Z) : bool :=
  bit_get 8 (sec m (bitmap_lba v + k / 4096)) (k mod 4096).

Abbreviation only_bits v := (within (in_bitmap v)).

(** * Setting bits *)

Lemma set_bit_ok buf b allocated : sector_ok buf -> sector_ok (set_bit buf b allocated).
Proof.
  intros [Hl Hb]. unfold set_bit, SECTOR. cbn zeta. set (i := b mod _). assert (0 <= i < 4096) by (apply Z.mod_pos_bound; lia).
  assert (is_byte (buf !!! Z.to_nat (i / 8))) as Hby.
  { eapply Forall_elem; [exact Hb |]. apply list_elem_of_lookup_total_2. rewrite Hl. zdiv. }
  assert (0 <= Z.shiftl 1 (i mod 8) < 2 ^ 8) as Hm.
  { rewrite Z.shiftl_1_l. pose proof (Z.mod_pos_bound i 8). split; [lia |]. apply Z.pow_lt_mono_r; lia. }
  unfold is_byte in *. change 256 with (2 ^ 8) in *. destruct allocated; unfold bit_set, bit_clear; (split; [by rewrite length_insert |]); (apply Forall_insert; [exact Hb |]).
  - apply (lor_range 8); lia.
  - apply (land_range 8); lia.
Qed.
Lemma set_bit_get buf b allocated j : sector_ok buf -> 0 <= j < 4096 ->
  bit_get 8 (set_bit buf b allocated) j = if decide (j = b mod 4096) then allocated else bit_get 8 buf j.
Proof.
  intros [Hl _] Hj. unfold set_bit, SECTOR. cbn zeta. change (512 * 8) with 4096. pose proof (Z.mod_pos_bound b 4096).
  destruct allocated; [rewrite bit_get_set by (rewrite ?Hl; lia) | rewrite bit_get_clear by (rewrite ?Hl; lia)];
    case_decide as E; [subst; by rewrite Z.eqb_refl | by rewrite (proj2 (Z.eqb_neq _ _) E) | subst; by rewrite Z.eqb_refl | by rewrite (proj2 (Z.eqb_neq _ _) E)].
Qed.

Section Setting.
Context (env : nat -> response) (sure : Prop) (cap : Z) (v : Volume) (allocated : bool).
Hypothesis G : geometry v cap.
Abbreviation runs := (runs env sure cap).

(** The bitmap as it will be once the sector in memory is written back. *)
Definition view (m : medium) (loaded : option (Z * list Z)) (s : Z) : list Z :=
  match loaded with Some (s', buf) => if s =? s' then buf else sec m (bitmap_lba v + s) | None => sec m (bitmap_lba v + s) end.
Definition view_bit (m : medium) (loaded : option (Z * list Z)) (k : Z) : bool := bit_get 8 (view m loaded (k / 4096)) (k mod 4096).

(** Bits on disk are as they were or, for the clusters [cs], as asked. *)
Definition partly (cs : list Z) (m m' : medium) : Prop :=
  forall k, 0 <= k -> bit m' v k = bit m v k \/ (k + 2 ∈ cs /\ bit m' v k = allocated).
(** Exactly the bits of [cs] changed. *)
Definition exactly (cs : list Z) (m m' : medium) : Prop :=
  forall k, 0 <= k -> bit m' v k = if decide (k + 2 ∈ cs) then allocated else bit m v k.

Lemma exactly_partly cs m m' : exactly cs m m' -> partly cs m m'.
Proof. intros H k Hk. rewrite (H k Hk). case_decide; auto. Qed.

Record setting (cs : list Z) (m0 m : medium) (loaded : option (Z * list Z)) : Prop := {
  st_only : only_bits v m0 m;
  st_ok : media_ok m;
  st_part : partly cs m0 m;
  st_view : forall k, 0 <= k -> view_bit m loaded k = if decide (k + 2 ∈ cs) then allocated else bit m0 v k;
  st_loaded : forall s buf, loaded = Some (s, buf) -> 0 <= s < bitmap_sectors v /\ sector_ok buf }.

Lemma bit_insert m s buf k : 0 <= k -> bit (<[bitmap_lba v + s := buf]> m) v k = if k / 4096 =? s then bit_get 8 buf (k mod 4096) else bit m v k.
Proof.
  intros Hk. unfold bit. rewrite sector_of_insert. destruct (Z.eqb_spec (k / 4096) s) as [-> | Hne]; [by rewrite decide_True |].
  rewrite decide_False by lia. done.
Qed.

(** Writing back the sector in memory, whether or not it lands. *)
Lemma flush cs m0 m s buf m' : setting cs m0 m (Some (s, buf)) -> m' = m \/ m' = <[bitmap_lba v + s := buf]> m ->
  only_bits v m0 m' /\ media_ok m' /\ partly cs m0 m' /\ (m' = <[bitmap_lba v + s := buf]> m -> exactly cs m0 m').
Proof.
  intros [H1 H2 H3 H4 H5] Hm'. destruct (H5 s buf eq_refl) as [Hs Hbuf].
  assert (exactly cs m0 (<[bitmap_lba v + s := buf]> m)) as Hex.
  { intros k Hk. rewrite bit_insert by done. rewrite <- H4 by done. unfold view_bit, view. by destruct (k / 4096 =? s). }
  assert (only_bits v m (<[bitmap_lba v + s := buf]> m)) as Ho.
  { split; [intros; by apply media_ok_insert |]. intros l Hl. rewrite sector_of_insert, decide_False; [done |]. intros ->. apply Hl. unfold in_bitmap. lia. }
  destruct Hm' as [-> | ->].
  - split; [done |]. split; [done |]. split; [done |]. intros ->. exact Hex.
  - split; [by eapply within_trans |]. split; [by apply media_ok_insert |]. split; [by apply exactly_partly | done].
Qed.

(** One more bit in the sector in memory. *)
Lemma set_one cs m0 m c buf : valid v c ->
  (setting cs m0 m (Some ((c - 2) / 4096, buf))) ->
  setting (cs ++ [c]) m0 m (Some ((c - 2) / 4096, set_bit buf (c - 2) allocated)).
Proof.
  intros Hc [H1 H2 H3 H4 H5]. destruct (H5 _ _ eq_refl) as [Hs Hbuf]. constructor; [done | done | | |].
  - intros k Hk. destruct (H3 k Hk) as [? | [? ?]]; [by left | right; split; [apply elem_of_app; by left | done]].
  - intros k Hk. specialize (H4 k Hk). unfold view_bit, view in *. destruct (Z.eqb_spec (k / 4096) ((c - 2) / 4096)) as [E | E].
    + rewrite set_bit_get by (done || apply Z.mod_pos_bound; lia).
      destruct (decide (k mod 4096 = (c - 2) mod 4096)) as [Em | Em].
      * rewrite decide_True; [done |]. apply elem_of_app. right. apply list_elem_of_singleton. zdiv.
      * rewrite H4. apply decide_ext. rewrite elem_of_app, list_elem_of_singleton. split; [by left |]. intros [? | Ek]; [done |].
        exfalso. apply Em. f_equal. lia.
    + rewrite H4. apply decide_ext. rewrite elem_of_app, list_elem_of_singleton. split; [by left |]. intros [? | Ek]; [done |].
      exfalso. apply E. f_equal. lia.
  - intros s b [= <- <-]. split; [done | by apply set_bit_ok].
Qed.

(** A sector read into memory, nothing of it changed yet. *)
Lemma load_sector cs m0 m s : 0 <= s < bitmap_sectors v -> only_bits v m0 m -> media_ok m -> exactly cs m0 m ->
  setting cs m0 m (Some (s, sec m (bitmap_lba v + s))).
Proof.
  intros Hs H1 H2 H3. constructor; [done | done | by apply exactly_partly | |].
  - intros k Hk. rewrite <- (H3 k Hk). unfold view_bit, view, bit. by destruct (Z.eqb_spec (k / 4096) s) as [-> |].
  - intros s' b [= <- <-]. split; [done | by apply sector_of_ok].
Qed.

Lemma runs_set_bits rest : forall cs m0 mu loaded (Q : bool -> medium -> Prop) E,
  setting cs m0 mu loaded -> Forall (valid v) rest ->
  (forall mu', only_bits v m0 mu' -> media_ok mu' -> exactly (cs ++ rest) m0 mu' -> Q true mu') ->
  (~ sure -> forall mu', only_bits v m0 mu' -> media_ok mu' -> partly (cs ++ rest) m0 mu' -> Q false mu') ->
  runs (set_bits env v allocated rest loaded) mu Q E.
Proof.
  assert (forall cs ds m0 m, partly cs m0 m -> partly (cs ++ ds) m0 m) as Hmono.
  { intros cs ds m0 m H k Hk. destruct (H k Hk) as [? | [? ?]]; [by left | right; split; [apply elem_of_app; by left | done]]. }
  assert (forall s, 0 <= s < bitmap_sectors v -> bitmap_lba v + s < cap) as Hcap.
  { intros s Hs. apply (bitmap_fits v cap G). unfold in_bitmap. lia. }
  induction rest as [| c rest IH]; intros cs m0 mu loaded Q E St Hv HT HF; cbn [set_bits]; fold (bitmap_lba v).
  - rewrite app_nil_r in *. destruct loaded as [[s buf] |].
    + destruct (st_loaded _ _ _ _ St s buf eq_refl) as [Hs Hb]. pose proof (fun m' => flush cs m0 mu s buf m' St) as Hfl.
      apply runs_write; [by apply Hcap | apply Hb | |].
      * destruct (Hfl _ (or_intror eq_refl)) as (F1 & F2 & F3 & F4). apply HT; auto.
      * intros Hn. destruct (Hfl _ (or_introl eq_refl)) as (A1 & A2 & A3 & _). destruct (Hfl _ (or_intror eq_refl)) as (F1 & F2 & F3 & _). split; by apply HF.
    + apply runs_ret. apply HT; [exact (st_only _ _ _ _ St) | exact (st_ok _ _ _ _ St) |]. intros k Hk. rewrite <- (st_view _ _ _ _ St k Hk). done.
  - apply Forall_cons in Hv as [Hc Hv]. rewrite (proj2 (Z.ltb_ge c 2)) by (unfold valid in Hc; lia).
    unfold SECTOR. change (512 * 8) with 4096. cbn zeta.
    assert (0 <= (c - 2) / 4096 < bitmap_sectors v) as Hsec by (unfold valid, bitmap_sectors in *; zdiv).
    assert (forall mu buf, setting cs m0 mu (Some ((c - 2) / 4096, buf)) ->
              runs (set_bits env v allocated rest (Some ((c - 2) / 4096, set_bit buf (c - 2) allocated))) mu Q E) as Hgo.
    { intros mu1 buf S1. apply (IH (cs ++ [c]) m0 mu1); [by apply set_one | done | |].
      - intros mu' A B C. apply HT; [done | done |]. by rewrite <- app_assoc in C.
      - intros Hn mu' A B C. apply HF; [done | done | done |]. by rewrite <- app_assoc in C. }
    assert (forall mu1, only_bits v m0 mu1 -> media_ok mu1 -> exactly cs m0 mu1 ->
              runs (read_sector env (bitmap_lba v + (c - 2) / 4096)) mu1
                (fun r mu2 => runs (match r with None => mret false | Some buf =>
                   set_bits env v allocated rest (Some ((c - 2) / 4096, set_bit buf (c - 2) allocated)) end) mu2 Q E) E) as Hread.
    { intros mu1 A B C. apply runs_read; [by apply Hcap | |].
      - apply Hgo. by apply load_sector.
      - intros Hn. apply runs_ret, HF; [done | done | done | by apply Hmono, exactly_partly]. }
    apply runs_bind. destruct loaded as [[s buf] |].
    + destruct (Z.eqb_spec s ((c - 2) / 4096)) as [-> | Hne]; [apply runs_ret; by apply Hgo |].
      destruct (st_loaded _ _ _ _ St s buf eq_refl) as [Hs Hb]. pose proof (fun m' => flush cs m0 mu s buf m' St) as Hfl.
      destruct (Hfl _ (or_introl eq_refl)) as (A1 & A2 & A3 & _). destruct (Hfl _ (or_intror eq_refl)) as (F1 & F2 & F3 & F4).
      apply runs_bind, runs_write; [by apply Hcap | apply Hb | apply Hread; auto |].
      intros Hn. split; apply runs_ret, runs_ret, HF; auto.
    + apply Hread; [exact (st_only _ _ _ _ St) | exact (st_ok _ _ _ _ St) |]. intros k Hk. rewrite <- (st_view _ _ _ _ St k Hk). done.
Qed.

Lemma runs_bitmap_set cs mu (Q : bool -> medium -> Prop) E : media_ok mu -> Forall (valid v) cs ->
  (forall mu', only_bits v mu mu' -> media_ok mu' -> exactly cs mu mu' -> Q true mu') ->
  (~ sure -> forall mu', only_bits v mu mu' -> media_ok mu' -> partly cs mu mu' -> Q false mu') ->
  runs (bitmap_set env v cs allocated) mu Q E.
Proof.
  intros Hok Hv HT HF. unfold bitmap_set. pose proof (merge_sort_Permutation Z.le cs) as Hp.
  apply (runs_set_bits _ [] mu).
  - constructor; [done | done | by left | | done]. intros k Hk. rewrite decide_False by apply not_elem_of_nil. done.
  - by rewrite Hp.
  - intros mu' A B C. apply HT; [done | done |]. intros k Hk. rewrite (C k Hk). apply decide_ext. by rewrite app_nil_l, Hp.
  - intros Hn mu' A B C. apply HF; [done | done | done |]. intros k Hk. destruct (C k Hk) as [? | [Hin ?]]; [by left |]. right. rewrite app_nil_l, Hp in Hin. done.
Qed.
End Setting.

(** * Searching *)

Section Search.
Context (m : medium) (v : Volume) (count : Z).
Hypothesis Hcount : 1 <= count.

Definition free_run (start : Z) : Prop := forall k, start <= k < start + count -> bit m v k = false.
(** [start] is the lowest run of [count] free clusters. *)
Definition first_fit (start : Z) : Prop :=
  0 <= start /\ start + count <= cluster_count v /\ free_run start /\ forall j, 0 <= j < start -> ~ free_run j.
Definition no_fit : Prop := forall j, 0 <= j -> j + count <= cluster_count v -> ~ free_run j.

(** What the scan knows before bit [pos]. *)
Record scanned (pos run_start run_len : Z) : Prop := {
  sc_len : 0 <= run_len < count /\ run_len <= pos;
  sc_start : 0 < run_len -> run_start = pos - run_len;
  sc_free : forall k, pos - run_len <= k < pos -> bit m v k = false;
  sc_used : run_len < pos -> bit m v (pos - run_len - 1) = true;
  sc_none : forall j, 0 <= j -> j + count <= pos -> ~ free_run j }.

Lemma free_scanned pos rs rl : scanned pos rs rl -> bit m v pos = false -> rl + 1 <> count ->
  scanned (pos + 1) (if rl =? 0 then pos else rs) (rl + 1).
Proof.
  intros [H1 H2 H3 H4 H5] Hb Hne. constructor.
  - lia.
  - intros _. destruct (Z.eqb_spec rl 0); [lia |]. rewrite H2 by lia. lia.
  - intros k Hk. destruct (decide (k = pos)) as [-> |]; [done | apply H3; lia].
  - intros Hlt. replace (pos + 1 - (rl + 1) - 1) with (pos - rl - 1) by lia. apply H4. lia.
  - intros j Hj Hle Hrun. destruct (decide (j + count <= pos)) as [? | Hgt]; [by apply (H5 j) |].
    pose proof (Hrun (pos - rl - 1) ltac:(lia)) as E. rewrite H4 in E by lia. done.
Qed.
Lemma used_scanned pos rs rl : scanned pos rs rl -> bit m v pos = true -> scanned (pos + 1) rs 0.
Proof.
  intros [H1 H2 H3 H4 H5] Hb. constructor; [lia | lia | intros k Hk; lia | |].
  - intros _. by replace (pos + 1 - 0 - 1) with pos by lia.
  - intros j Hj Hle Hrun. destruct (decide (j + count <= pos)) as [? | Hgt]; [by apply (H5 j) |].
    pose proof (Hrun pos ltac:(lia)). congruence.
Qed.
Lemma scanned_found pos rs rl : scanned pos rs rl -> pos < cluster_count v -> bit m v pos = false -> rl + 1 = count ->
  first_fit (if rl =? 0 then pos else rs).
Proof.
  intros [H1 H2 H3 H4 H5] Hpos Hb Hc. assert ((if rl =? 0 then pos else rs) = pos - rl) as ->.
  { destruct (Z.eqb_spec rl 0); [lia | apply H2; lia]. }
  split; [lia |]. split; [lia |]. split.
  - intros k Hk. destruct (decide (k = pos)) as [-> |]; [done | apply H3; lia].
  - intros j Hj. apply H5; lia.
Qed.

Lemma scan_bits_spec s n : forall b rs rl, 0 <= s -> 0 <= b -> b + Z.of_nat n = 4096 -> scanned (s * 4096 + b) rs rl ->
  match scan_bits v count (sec m (bitmap_lba v + s)) s (seqZ b (Z.of_nat n)) rs rl with
  | Found start => first_fit start
  | Stop => no_fit
  | More rs' rl' => scanned ((s + 1) * 4096) rs' rl'
  end.
Proof.
  induction n as [| n IH]; intros b rs rl Hs Hb Hn Sc.
  { cbn [Z.of_nat seqZ scan_bits seq Z.to_nat fmap list_fmap]. replace ((s + 1) * 4096) with (s * 4096 + b) by lia. exact Sc. }
  rewrite seqZ_cons by lia. cbn [scan_bits]. unfold SECTOR. replace (s * 512 * 8) with (s * 4096) by lia.
  replace (Z.pred (Z.of_nat (S n))) with (Z.of_nat n) by lia.
  assert (bit m v (s * 4096 + b) = bit_get 8 (sec m (bitmap_lba v + s)) b) as Hbit.
  { unfold bit. replace ((s * 4096 + b) / 4096) with s by zdiv. by replace ((s * 4096 + b) mod 4096) with b by zdiv. }
  destruct (Z.leb_spec (cluster_count v) (s * 4096 + b)) as [Hge | Hlt].
  { intros j Hj Hle. apply (sc_none _ _ _ Sc); lia. }
  rewrite <- Hbit. destruct (bit m v (s * 4096 + b)) eqn:Eb; cbn [negb].
  - replace (Z.succ b) with (b + 1) by lia. apply IH; [done | lia | lia |]. rewrite Z.add_assoc. by eapply used_scanned.
  - cbn zeta. destruct (Z.eqb_spec (rl + 1) count) as [Ec | Ec]; [by apply (scanned_found (s * 4096 + b)) |].
    replace (Z.succ b) with (b + 1) by lia. apply IH; [done | lia | lia |]. rewrite Z.add_assoc. by apply free_scanned.
Qed.
End Search.

Section Alloc.
Context (env : nat -> response) (sure : Prop) (cap : Z) (v : Volume) (count : Z).
Hypothesis G : geometry v cap.
Hypothesis Hcount : 1 <= count.
Abbreviation runs := (runs env sure cap).

Lemma runs_search n : forall s rs rl mu (Q : option (option Z) -> medium -> Prop) E,
  0 <= s -> s + Z.of_nat n = bitmap_sectors v -> scanned mu v count (s * 4096) rs rl ->
  (forall start, first_fit mu v count start -> Q (Some (Some start)) mu) ->
  (no_fit mu v count -> Q (Some None) mu) -> (~ sure -> Q None mu) ->
  runs (search_bitmap env v count (seqZ s (Z.of_nat n)) rs rl) mu Q E.
Proof.
  induction n as [| n IH]; intros s rs rl mu Q E Hs Hn Sc HF HN HE.
  { cbn [Z.of_nat seqZ seq Z.to_nat fmap list_fmap search_bitmap]. apply runs_ret, HN. intros j Hj Hle.
    apply (sc_none _ _ _ _ _ _ Sc); [lia |]. unfold bitmap_sectors in Hn. zdiv. }
  rewrite seqZ_cons by lia. cbn [search_bitmap]. replace (Z.pred (Z.of_nat (S n))) with (Z.of_nat n) by lia. fold (bitmap_lba v).
  apply runs_try, runs_read; [| | exact HE].
  { apply (bitmap_fits v cap G). unfold in_bitmap. lia. }
  pose proof (scan_bits_spec mu v count Hcount s 4096 0 rs rl Hs ltac:(lia) ltac:(lia) ltac:(by rewrite Z.add_0_r)) as Hsc.
  unfold SECTOR. change (512 * 8) with (Z.of_nat 4096).
  destruct (scan_bits v count (sec mu (bitmap_lba v + s)) s (seqZ 0 (Z.of_nat 4096)) rs rl) as [start | | rs' rl'].
  - apply runs_ret. by apply HF.
  - apply runs_ret. by apply HN.
  - replace (Z.succ s) with (s + 1) by lia. by apply IH; [lia | lia | | | |].
Qed.

Lemma scanned_start m : scanned m v count (0 * 4096) 0 0.
Proof. constructor; [lia | lia | intros k Hk; lia | lia | intros j Hj Hle; lia]. Qed.

(** The clusters of the run that starts at cluster [first]. *)
Lemma run_valid start m : first_fit m v count start -> Forall (valid v) (seqZ (start + 2) count).
Proof. intros (H1 & H2 & _). apply Forall_forall. intros c Hc%elem_of_seqZ. unfold valid. lia. Qed.

Lemma runs_bitmap_alloc mu (Q : option Z -> medium -> Prop) E : media_ok mu ->
  (forall mu' first, first_fit mu v count (first - 2) -> only_bits v mu mu' -> media_ok mu' ->
     exactly v true (seqZ first count) mu mu' -> Q (Some first) mu') ->
  (no_fit mu v count \/ ~ sure -> Q None mu) ->
  (~ sure -> forall mu' first, first_fit mu v count (first - 2) -> only_bits v mu mu' -> media_ok mu' ->
     partly v true (seqZ first count) mu mu' -> Q None mu') ->
  runs (bitmap_alloc env v count) mu Q E.
Proof.
  intros Hok HS HN HP. pose proof (ge_bits _ _ G) as Gb. pose proof (ge_count _ _ G) as Gc. unfold bitmap_alloc.
  apply runs_bind, runs_add; [unfold SECTOR; zdiv |]. unfold SECTOR. apply runs_try.
  replace ((bitmap_bytes v + 512 - 1) / 512) with (bitmap_sectors v) by (unfold bitmap_sectors; zdiv).
  assert (0 <= bitmap_sectors v) as Hn by (unfold bitmap_sectors; zdiv). rewrite <- (Z2Nat.id (bitmap_sectors v)) by done.
  apply (runs_search _ 0); [lia | lia | apply scanned_start | | |].
  - intros start Hff. pose proof Hff as (H1 & H2 & _). apply runs_bind, runs_add; [lia |].
    rewrite <- (Z.add_simpl_r start 2) in Hff. apply runs_bind. eapply runs_bitmap_set; [exact G | exact Hok | | |].
    + rewrite Z.add_simpl_r in Hff. by eapply run_valid.
    + intros mu2 A B C. apply runs_ret. by apply HS.
    + intros Hs mu2 A B C. apply runs_ret. by eapply HP.
  - intros Hno. apply runs_ret. auto.
  - auto.
Qed.
End Alloc.

(** What an allocation of [count] clusters on medium [m] may leave: the run asked for, no
    such run and nothing changed, or, when the device is not [sure], bits of it. *)
Definition alloc_result (sure : Prop) (v : Volume) (count : Z) (m : medium) (found : option Z) (m' : medium) : Prop :=
  match found with
  | Some first => first_fit m v count (first - 2) /\ only_bits v m m' /\ exactly v true (seqZ first count) m m'
  | None => (no_fit m v count /\ m' = m)
      \/ (~ sure /\ only_bits v m m'
           /\ (m' = m \/ exists first, first_fit m v count (first - 2) /\ partly v true (seqZ first count) m m'))
  end.

(** bitmap_alloc is first fit: it returns the lowest run of count free clusters, marks
    exactly that run in use and changes nothing else on the disk.  It fails only when no
    such run exists or the device does not work; then no bit changes but perhaps some of
    that run, and no answer of the device makes it panic. *)
Theorem exfat_bitmap_alloc_first_fit env v count d : geometry v (capacity_sectors d) -> 1 <= count -> media_ok (media d) ->
  wp (bitmap_alloc env v count) d
    (fun found d' => alloc_result (working env (capacity_sectors d) d) v count (media d) found (media d')) (fun _ _ => False).
Proof.
  intros G Hc Hok. apply (runs_wp env _ d (alloc_result _ v count (media d)) (fun _ _ => False)).
  apply runs_bitmap_alloc; [done | done | done | intros mu1 first A B C D; exact (conj A (conj B D)) | |].
  - intros [? | ?]; [by left | right; auto using within_refl].
  - intros Hs mu' first Hff A B C. right. eauto 8.
Qed.

(** The volume of the example. *)
Definition demo_volume : Volume := mkVolume 1 1 2 20 3 2 3.
Lemma demo_geometry : geometry demo_volume 22.
Proof. by constructor; vm_compute. Qed.
Lemma demo_media_ok : media_ok (media demo_disk).
Proof.
  change (media demo_disk) with (<[0 := demo_boot]> (<[1 := demo_fat]> (<[2 := demo_bitmap]> (<[3 := demo_root]> (∅ : medium))))).
  repeat (apply map_Forall_insert_2; [split; [vm_compute; reflexivity | vm_compute; repeat constructor; discriminate] |]).
  apply map_Forall_empty.
Qed.
Lemma exfat_bitmap_alloc_first_fit_witness : (bitmap_alloc demo_env demo_volume 3 demo_disk).1 = Ok (Some 4)
  /\ wp (bitmap_alloc demo_env demo_volume 3) demo_disk
       (fun found d' => alloc_result (working demo_env 22 demo_disk) demo_volume 3 (media demo_disk) found (media d')) (fun _ _ => False).
Proof.
  split; [vm_compute; reflexivity |].
  exact (exfat_bitmap_alloc_first_fit demo_env demo_volume 3 demo_disk demo_geometry ltac:(lia) demo_media_ok).
Defined.
End ExfatBitmap.
