(* ===== verification/ExfatChain.v ===== *)
(** exFAT clusters, table entries and chains on the medium (src/fs/exfat.rs): what the
    reading functions return, and on which sectors it depends. *)

From Stdlib Require Import ZArith Lia.
From stdpp Require Import base list list_numbers numbers decidable tactics strings gmap sorting.
From S2P Require Import Prelude BlockDev FatNames Exfat ExfatDisk.
Import Blk FatNames Exfat ExfatDisk.

Module ExfatChain.

(** * What the medium holds *)

Definition cdata (m : medium) (v : Volume) (c : Z) : list Z := mjoin (map (sec m) (seqZ (cluster_lba v c) (sectors_per_cluster v))).
Definition chain_data (m : medium) (v : Volume) (cs : list Z) : list Z := mjoin (map (cdata m v) cs).
Definition fat_at (m : medium) (v : Volume) (c : Z) : Z := le32 (sec m (fat_lba v + c * 4 / 512)) (Z.to_nat (c * 4 mod 512)).

Fixpoint chain_from (m : medium) (v : Volume) (steps : nat) (c : Z) : list Z :=
  match steps with
  | O => []
  | S steps' =>
      let next := fat_at m v c in
      if (next <? 2) || (next =? FAT_EOF) || (cluster_count v + 1 <? next) then [c] else c :: chain_from m v steps' next
  end.
Definition clusters_for (v : Volume) (len : Z) : Z := ((len + cluster_bytes v - 1) / cluster_bytes v) mod 2 ^ 32.
Definition chain_of (m : medium) (v : Volume) (first : Z) (nfc : bool) (len : Z) : list Z :=
  if first <? 2 then [] else if nfc then seqZ first (clusters_for v len) else chain_from m v (S (Z.to_nat (cluster_count v))) first.

(** A chain the volume has room for. *)
Definition fits (v : Volume) (first : Z) (nfc : bool) (len : Z) : Prop :=
  2 <= first -> valid v first /\ (nfc = true -> 0 <= len /\ len + cluster_bytes v < 2 ^ 64 /\ first + clusters_for v len <= cluster_count v + 2).

Section Reads.
Context (env : nat -> response) (sure : Prop) (cap : Z) (v : Volume).
Hypothesis G : geometry v cap.
Abbreviation runs := (runs env sure cap).

Lemma runs_read_run ls : forall mu (Q : option (list Z) -> medium -> Prop) E, Forall (fun l => l < cap) ls ->
  Q (Some (mjoin (map (sec mu) ls))) mu -> (~ sure -> Q None mu) -> runs (read_run env ls) mu Q E.
Proof.
  induction ls as [| l ls IH]; intros mu Q E Hl HS HN; cbn [read_run]; [by apply runs_ret |]. apply Forall_cons in Hl as [Hl Hls].
  apply runs_try, runs_read; [done | | done]. apply runs_try, IH; [done | | done]. by apply runs_ret.
Qed.
Lemma runs_read_cluster c mu (Q : option (list Z) -> medium -> Prop) E : valid v c ->
  Q (Some (cdata mu v c)) mu -> (~ sure -> Q None mu) -> runs (read_cluster env v c) mu Q E.
Proof.
  intros Hc HS HN. apply runs_read_run; [| done | done]. apply Forall_forall. intros l Hl%elem_of_seqZ.
  apply (cluster_fits v cap G c l Hc). unfold in_cluster. lia.
Qed.
Lemma runs_read_clusters cs : forall mu (Q : option (list Z) -> medium -> Prop) E, Forall (valid v) cs ->
  Q (Some (chain_data mu v cs)) mu -> (~ sure -> Q None mu) -> runs (read_clusters env v cs) mu Q E.
Proof.
  induction cs as [| c cs IH]; intros mu Q E Hl HS HN; cbn [read_clusters]; [by apply runs_ret |]. apply Forall_cons in Hl as [Hl Hls].
  apply runs_try, runs_read_cluster; [done | | done]. apply runs_try, IH; [done | | done]. by apply runs_ret.
Qed.

Lemma runs_fat_read c mu (Q : option Z -> medium -> Prop) E : 0 <= c < cluster_count v + 2 ->
  Q (Some (fat_at mu v c)) mu -> (~ sure -> Q None mu) -> runs (fat_read env v c) mu Q E.
Proof.
  intros Hc HS HN. apply runs_try, runs_read; [| | done].
  - apply (fat_fits v cap G). apply (fat_sector v cap G c Hc).
  - by apply runs_ret.
Qed.
Lemma runs_chain_walk steps : forall c mu (Q : option (list Z) -> medium -> Prop) E, valid v c ->
  Q (Some (chain_from mu v steps c)) mu -> (~ sure -> Q None mu) -> runs (chain_walk env steps v c) mu Q E.
Proof.
  pose proof (ge_count _ _ G) as Gc. induction steps as [| steps IH]; intros c mu Q E Hc HS HN; cbn [chain_walk chain_from] in *; [by apply runs_ret |].
  apply runs_try, runs_fat_read; [unfold valid in Hc; lia | | done]. cbn zeta in HS.
  destruct ((fat_at mu v c <? 2) || (fat_at mu v c =? FAT_EOF)) eqn:E1; cbn [orb] in HS; [by apply runs_ret |].
  apply runs_bind, runs_add; [lia |]. destruct (cluster_count v + 1 <? fat_at mu v c) eqn:E2; [by apply runs_ret |].
  apply runs_try, IH; [unfold valid; lia | by apply runs_ret | done].
Qed.
Lemma runs_collect_chain first nfc len mu (Q : option (list Z) -> medium -> Prop) E : fits v first nfc len ->
  Q (Some (chain_of mu v first nfc len)) mu -> (~ sure -> Q None mu) -> runs (collect_chain env v first nfc len) mu Q E.
Proof.
  intros Hf HS HN. pose proof (ge_count _ _ G) as Gc. unfold collect_chain, chain_of in *.
  destruct (Z.ltb_spec first 2) as [Hlt | Hge]; [by apply runs_ret |]. destruct (Hf Hge) as [Hv Hn]. destruct nfc.
  - destruct (Hn eq_refl) as (H0 & H1 & H2). apply runs_bind, runs_add; [done |]. cbn zeta. fold (clusters_for v len).
    apply runs_bind, runs_add; [lia |]. by apply runs_ret.
  - by apply runs_chain_walk.
Qed.
End Reads.

(** * On what a chain depends *)

Lemma chain_from_valid m v steps : forall c, valid v c -> Forall (valid v) (chain_from m v steps c).
Proof.
  induction steps as [| steps IH]; intros c Hc; cbn [chain_from]; [constructor |]. cbn zeta.
  destruct ((fat_at m v c <? 2) || (fat_at m v c =? FAT_EOF) || (cluster_count v + 1 <? fat_at m v c)) eqn:E; (constructor; [done |]); [constructor |].
  apply IH. unfold valid. lia.
Qed.
Lemma chain_of_valid m v first nfc len : fits v first nfc len -> Forall (valid v) (chain_of m v first nfc len).
Proof.
  intros Hf. unfold chain_of. destruct (Z.ltb_spec first 2) as [Hlt | Hge]; [constructor |]. destruct (Hf Hge) as [Hv Hn].
  destruct nfc; [| by apply chain_from_valid]. destruct (Hn eq_refl) as (H0 & H1 & H2).
  apply Forall_forall. intros c Hc%elem_of_seqZ. unfold valid in *. lia.
Qed.

(** The table entries of the chain decide it. *)
Lemma chain_from_frame m m' v steps : forall c, (forall x, x ∈ chain_from m v steps c -> fat_at m' v x = fat_at m v x) ->
  chain_from m' v steps c = chain_from m v steps c.
Proof.
  induction steps as [| steps IH]; intros c H; cbn [chain_from] in *; [done |]. cbn zeta in *.
  assert (fat_at m' v c = fat_at m v c) as ->. { apply H. case_match; apply elem_of_cons; by left. }
  case_match; [done |]. f_equal. apply IH. intros x Hx. apply H, elem_of_cons. by right.
Qed.
Lemma chain_of_frame m m' v first nfc len : (forall x, x ∈ chain_of m v first nfc len -> fat_at m' v x = fat_at m v x) ->
  chain_of m' v first nfc len = chain_of m v first nfc len.
Proof. unfold chain_of. case_match; [done |]. case_match; [done |]. apply chain_from_frame. Qed.

Lemma cdata_frame m m' v c : (forall l, in_cluster v c l -> sec m' l = sec m l) -> cdata m' v c = cdata m v c.
Proof.
  intros H. unfold cdata. f_equal. apply map_ext_in. intros l Hl%list_elem_of_In%elem_of_seqZ. apply H. unfold in_cluster. lia.
Qed.
Lemma chain_data_frame m m' v cs : (forall c l, c ∈ cs -> in_cluster v c l -> sec m' l = sec m l) -> chain_data m' v cs = chain_data m v cs.
Proof. intros H. unfold chain_data. f_equal. apply map_ext_in. intros c Hc%list_elem_of_In. apply cdata_frame. eauto. Qed.
Lemma fat_at_frame m m' v c : sec m' (fat_lba v + c * 4 / 512) = sec m (fat_lba v + c * 4 / 512) -> fat_at m' v c = fat_at m v c.
Proof. unfold fat_at. by intros ->. Qed.

Section Sizes.
Context (v : Volume) (cap : Z).
Hypothesis G : geometry v cap.

Lemma sectors_join m ls : media_ok m -> length (mjoin (map (sec m) ls)) = (length ls * 512)%nat /\ Forall is_byte (mjoin (map (sec m) ls)).
Proof.
  intros Hok. induction ls as [| l ls [IH1 IH2]]; [by split |]. cbn [map length]. change (mjoin (?a :: ?b)) with (a ++ mjoin b).
  destruct (sector_of_ok m l Hok) as [H1 H2]. rewrite length_app, H1, IH1. split; [lia | by apply Forall_app].
Qed.
Lemma cdata_ok m c : media_ok m -> length (cdata m v c) = Z.to_nat (cluster_bytes v) /\ Forall is_byte (cdata m v c).
Proof.
  intros Hok. destruct (sectors_join m (seqZ (cluster_lba v c) (sectors_per_cluster v)) Hok) as [H1 H2]. split; [| done].
  unfold cdata. rewrite H1, length_seqZ. unfold cluster_bytes, SECTOR. pose proof (ge_spc _ _ G). lia.
Qed.
Lemma chain_data_length m cs : media_ok m -> length (chain_data m v cs) = (length cs * Z.to_nat (cluster_bytes v))%nat.
Proof.
  intros Hok. unfold chain_data. induction cs as [| c cs IH]; [done |]. cbn [map length]. change (mjoin (?a :: ?b)) with (a ++ mjoin b).
  rewrite length_app, IH, (proj1 (cdata_ok m c Hok)). lia.
Qed.
Lemma chain_data_bytes m cs : media_ok m -> Forall is_byte (chain_data m v cs).
Proof.
  intros Hok. unfold chain_data. induction cs as [| c cs IH]; [constructor |]. cbn [map]. change (mjoin (?a :: ?b)) with (a ++ mjoin b).
  apply Forall_app. split; [apply (cdata_ok m c Hok) | done].
Qed.
End Sizes.
End ExfatChain.
