(* ===== verification/ExfatDir.v ===== *)
(** exFAT directories as bytes (src/fs/exfat.rs): a directory entry set that is built and
    placed where [find_place] says is read back as one more file, and the listing of the
    others does not change. *)

From Stdlib Require Import ZArith Lia.
From stdpp Require Import base list list_numbers numbers decidable tactics strings.
From S2P Require Import Prelude BlockDev FatNames FatLfn Exfat.
Import Blk FatNames FatLfn Exfat.

Module ExfatDir.

(** * Splicing *)

Lemma splice_app_l a b o src : (o + length src <= length a)%nat -> splice (a ++ b) o src = splice a o src ++ b.
Proof.
  intros H. unfold splice. rewrite take_app_le, drop_app_le by lia. by rewrite <- !app_assoc.
Qed.
Lemma splice_app_r a b o src : splice (a ++ b) (length a + o) src = a ++ splice b o src.
Proof.
  unfold splice. rewrite take_app_add, <- Nat.add_assoc, drop_app_add. by rewrite <- app_assoc.
Qed.
Lemma splice_all a b src : length src = length a -> splice (a ++ b) 0 src = src ++ b.
Proof. intros H. unfold splice. rewrite take_0, app_nil_l, Nat.add_0_l, H. by rewrite drop_app_length. Qed.

Lemma piece_splice b o src k n : (o + length src <= length b)%nat -> (k + n <= o)%nat \/ (o + length src <= k)%nat -> (k + n <= length b)%nat ->
  take n (drop k (splice b o src)) = take n (drop k b).
Proof.
  intros Ho Hk Hn. apply byte_ext; [by rewrite !length_take, !length_drop, length_splice |]. intros i Hi. rewrite length_take in Hi.
  rewrite !byte_take, !byte_drop, byte_splice, decide_False by lia. done.
Qed.
Lemma piece_same b o src : (o + length src <= length b)%nat -> take (length src) (drop o (splice b o src)) = src.
Proof. intros H. unfold splice. rewrite drop_app_length' by (rewrite length_take; lia). by rewrite take_app_length. Qed.
Lemma join_one {A} (x : list A) : mjoin [x] = x.
Proof. exact (app_nil_r x). Qed.

(** * Entry sets *)

Abbreviation z32 := (replicate 32 0).
Definition unit_of (nm : list Z) (k : nat) : Z := default 0 (nm !! k).
Definition units_of (nm : list Z) (k n : nat) : list Z := mjoin (map (fun i => to_le_bytes 2 (unit_of nm (k + i))) (seq 0 n)).
Lemma units_snoc nm k n : units_of nm k (S n) = units_of nm k n ++ to_le_bytes 2 (unit_of nm (k + n)).
Proof. unfold units_of. rewrite seq_S, map_app, join_app. cbn [map]. by rewrite join_one. Qed.
Lemma length_units nm k n : length (units_of nm k n) = (2 * n)%nat.
Proof. induction n as [| n IH]; [done |]. rewrite units_snoc, length_app, IH. cbn [to_le_bytes length]. lia. Qed.

Definition name_slot (nm : list Z) (n : nat) : list Z := [ET_NAME; 0] ++ units_of nm (n * 15) 15.
Lemma length_name_slot nm n : length (name_slot nm n) = 32%nat.
Proof. unfold name_slot. by rewrite length_app, length_units. Qed.
Lemma length_join_slots nm l : length (mjoin (map (name_slot nm) l)) = (length l * 32)%nat.
Proof.
  induction l as [| x l IH]; [done |]. cbn [map]. change (mjoin (?a :: ?b)) with (a ++ mjoin b).
  rewrite length_app, IH, length_name_slot. cbn [length]. lia.
Qed.
Lemma name_entry_eq n nm : name_entry n nm z32 = name_slot nm n.
Proof.
  unfold name_entry.
  assert (forall j, (j <= 15)%nat -> foldl (fun e i =>
      match nm !! (n * 15 + i)%nat with Some u => splice e (2 + i * 2) (to_le_bytes 2 u) | None => e end) (splice z32 0 [ET_NAME]) (seq 0 j)
    = ([ET_NAME; 0] ++ units_of nm (n * 15) j) ++ replicate (30 - 2 * j) 0) as H.
  { induction j as [| j IH]; intros Hj; [reflexivity |]. rewrite seq_S, foldl_app, IH by lia. change (0 + j)%nat with j. cbn [foldl].
    rewrite units_snoc, app_assoc. unfold unit_of.
    replace (30 - 2 * j)%nat with (S (S (30 - 2 * S j))) by lia. set (A := [ET_NAME; 0] ++ units_of nm (n * 15) j).
    assert (length A = 2 + j * 2)%nat as HA by (unfold A; rewrite length_app, length_units; cbn [length]; lia).
    destruct (nm !! (n * 15 + j)%nat) as [u |]; cbn [default replicate].
    - rewrite <- HA, <- (Nat.add_0_r (length A)), splice_app_r, <- app_assoc. f_equal.
    - by rewrite <- app_assoc. }
  rewrite H by lia. unfold name_slot. by rewrite app_nil_r.
Qed.

Section Building.
Context (nm : list Z) (attrs flags first len : Z).
Definition names_count : nat := ((length nm + 14) / 15)%nat.
Definition file_head : list Z :=
  splice (foldl (fun set o => splice set o (to_le_bytes 4 TIMESTAMP)) (splice (splice z32 0 [ET_FILE; (1 + Z.of_nat names_count) mod 256])
    4 (to_le_bytes 2 attrs)) [8; 12; 16]%nat) 22 [0x80; 0x80; 0x80].
Definition stream_entry : list Z :=
  splice (splice (splice (splice (splice (splice z32 0 [ET_STREAM; flags]) 3 [Z.of_nat (length nm) mod 256])
    4 (to_le_bytes 2 (name_hash (map to_ascii_uppercase nm)))) 8 (to_le_bytes 8 len)) 20 (to_le_bytes 4 first)) 24 (to_le_bytes 8 len).
Definition name_entries : list (list Z) := map (name_slot nm) (seq 0 names_count).

Lemma fill_names j : (j <= names_count)%nat -> forall f s, length f = 32%nat -> length s = 32%nat ->
  foldl (fun set n => splice set ((2 + n) * DIR_ENTRY) (name_entry n nm (take 32 (drop ((2 + n) * DIR_ENTRY) set))))
    (f ++ s ++ replicate (names_count * 32) 0) (seq 0 j)
  = f ++ s ++ mjoin (map (name_slot nm) (seq 0 j)) ++ replicate ((names_count - j) * 32) 0.
Proof.
  intros Hj f s Hf Hs. induction j as [| j IH]; [by rewrite Nat.sub_0_r |].
  rewrite seq_S, foldl_app, IH by lia. change (0 + j)%nat with j. cbn [foldl]. rewrite map_app, join_app.
  replace ((names_count - j) * 32)%nat with (32 + (names_count - S j) * 32)%nat by lia. rewrite replicate_add.
  set (N := mjoin (map _ (seq 0 j))).
  assert (length (f ++ s ++ N) = (2 + j) * DIR_ENTRY)%nat as HL.
  { rewrite !length_app, Hf, Hs. unfold N. rewrite length_join_slots, length_seq. unfold DIR_ENTRY. lia. }
  cbn [map]. rewrite join_one. set (R := replicate ((names_count - S j) * 32) 0).
  replace (f ++ s ++ N ++ z32 ++ R) with ((f ++ s ++ N) ++ z32 ++ R) by by rewrite <- !app_assoc.
  rewrite <- HL, drop_app_length, take_app_length', name_entry_eq by done. rewrite <- (Nat.add_0_r (length (f ++ s ++ N))), splice_app_r.
  rewrite splice_all by by rewrite length_name_slot. by rewrite <- !app_assoc.
Qed.
Definition file_entry : list Z := splice file_head 2 (to_le_bytes 2 (entry_set_checksum (file_head ++ stream_entry ++ mjoin name_entries))).

(** The set is a file entry, a stream entry and the name entries. *)
Lemma entry_set_eq : build_entry_set nm attrs flags first len = mjoin (file_entry :: stream_entry :: name_entries).
Proof.
  unfold build_entry_set. fold names_count.
  replace (replicate ((2 + names_count) * DIR_ENTRY) 0) with (z32 ++ z32 ++ replicate (names_count * 32) 0).
  2: by rewrite <- !replicate_add.
  set (R := replicate (names_count * 32) 0).
  assert (forall R, splice (foldl (fun set o => splice set o (to_le_bytes 4 TIMESTAMP)) (splice (splice (z32 ++ R) 0
    [ET_FILE; (1 + Z.of_nat names_count) mod 256]) 4 (to_le_bytes 2 attrs)) [8; 12; 16]%nat) 22 [0x80; 0x80; 0x80] = file_head ++ R) as -> by reflexivity.
  cbn zeta. change (drop 32 (file_head ++ z32 ++ R)) with (z32 ++ R). change (take 32 (z32 ++ R)) with z32. fold stream_entry.
  change (splice (file_head ++ z32 ++ R) 32 stream_entry) with (file_head ++ stream_entry ++ R). unfold R.
  rewrite (fill_names names_count) by reflexivity || lia.
  rewrite Nat.sub_diag, app_nil_r. fold name_entries. by rewrite splice_app_l by (cbn; lia).
Qed.
Lemma entry_set_chunks_eq : chunks_exact DIR_ENTRY (build_entry_set nm attrs flags first len) = file_entry :: stream_entry :: name_entries.
Proof.
  rewrite entry_set_eq. apply chunks_exact_join; [unfold DIR_ENTRY; lia |]. repeat (constructor; [reflexivity |]).
  apply Forall_forall. intros e (n & -> & _)%elem_of_map. apply length_name_slot.
Qed.
Lemma length_entry_set : length (build_entry_set nm attrs flags first len) = ((2 + names_count) * DIR_ENTRY)%nat.
Proof.
  rewrite entry_set_eq. change (mjoin (file_entry :: stream_entry :: name_entries)) with (file_entry ++ stream_entry ++ mjoin name_entries).
  rewrite !length_app. unfold name_entries. rewrite length_join_slots, length_seq. unfold DIR_ENTRY. change (length file_entry) with 32%nat. change (length stream_entry) with 32%nat. lia.
Qed.

Lemma entry_set_bytes : 0 <= flags < 256 -> Forall is_byte (build_entry_set nm attrs flags first len).
Proof.
  intros Hfl. rewrite entry_set_eq. change (mjoin (file_entry :: stream_entry :: name_entries)) with (file_entry ++ stream_entry ++ mjoin name_entries).
  assert (forall z, 0 <= z < 256 -> is_byte z) as Hz by done. assert (forall z, is_byte (z mod 256)) as Hm by (intros z; apply Z.mod_pos_bound; lia).
  rewrite !Forall_app. split; [| split].
  - unfold file_entry, file_head. cbn [foldl]. repeat (apply splice_bytes); try apply to_le_bytes_bytes; [by apply Forall_replicate, Hz | | ]; repeat (apply Forall_cons_2; [by (apply Hm || apply Hz) |]); apply Forall_nil_2.
  - unfold stream_entry. repeat (apply splice_bytes); try apply to_le_bytes_bytes; [by apply Forall_replicate, Hz | | ]; repeat (apply Forall_cons_2; [by (apply Hm || apply Hz) |]); apply Forall_nil_2.
  - unfold name_entries. induction (seq 0 names_count) as [| n l IH]; [apply Forall_nil_2 |]. cbn [map]. change (mjoin (?a :: ?b)) with (a ++ mjoin b).
    apply Forall_app. split; [| done]. unfold name_slot. apply Forall_app. split; [repeat (apply Forall_cons_2; [by apply Hz |]); apply Forall_nil_2 |].
    unfold units_of. induction (seq 0 15) as [| i l' IHi]; [apply Forall_nil_2 |]. cbn [map]. change (mjoin (?a :: ?b)) with (a ++ mjoin b).
    apply Forall_app. split; [apply to_le_bytes_bytes | done].
Qed.

(** * Reading it back *)

(** What the set holds, as [parse_entries] reports it at entry [idx]. *)
Definition file_at (idx : nat) : DirFile :=
  mkDirFile nm attrs first len (negb (Z.land flags FLAG_NO_FAT_CHAIN =? 0)) (idx * DIR_ENTRY) (2 + names_count).

Hypothesis Hnm : Forall (fun c => 0 < c < 128) nm /\ (1 <= length nm <= 255)%nat.
Hypothesis Hfields : 0 <= attrs < 2 ^ 16 /\ 0 <= first < 2 ^ 32 /\ 0 <= len < 2 ^ 64.

Lemma names_count_bounds : (1 <= names_count <= 17)%nat /\ (length nm <= names_count * 15)%nat /\ forall n, (n < names_count)%nat -> (n * 15 < length nm)%nat.
Proof.
  unfold names_count. destruct Hnm as [_ H]. assert (15 <> 0)%nat as H15 by lia.
  pose proof (Nat.div_mod (length nm + 14) 15 H15). pose proof (Nat.mod_upper_bound (length nm + 14) 15 H15).
  set (q := ((length nm + 14) / 15)%nat) in *. split; [lia |]. split; [lia |]. intros n Hn. lia.
Qed.

Lemma push_one k : push_unit (take k nm) (to_le_bytes 2 (unit_of nm k)) = take (S k) nm.
Proof.
  destruct Hnm as [Ha Hl]. unfold push_unit, unit_of. change (le16 (to_le_bytes 2 ?u) 0) with (from_le_bytes (to_le_bytes 2 u)).
  destruct (nm !! k) as [c |] eqn:E; cbn [default].
  - pose proof (Forall_lookup_1 _ _ _ _ Ha E) as Hc. cbn in Hc. unfold id. apply lookup_lt_Some in E as Hk. rewrite from_to_le_bytes by (change (256 ^ Z.of_nat 2) with 65536; lia).
    rewrite length_take, (proj2 (Z.eqb_neq c 0)), (proj2 (Nat.ltb_lt _ _)), (proj2 (Z.ltb_lt c 128)) by lia. by rewrite (take_S_r _ _ c).
  - apply lookup_ge_None_1 in E. cbn. by rewrite !take_ge by lia.
Qed.
Lemma push_slot n : foldl push_unit (take (n * 15) nm) (chunks_exact 2 (take 30 (drop 2 (name_slot nm n)))) = take (S n * 15) nm.
Proof.
  change (drop 2 (name_slot nm n)) with (units_of nm (n * 15) 15). rewrite (take_ge (units_of nm (n * 15) 15)) by (rewrite length_units; lia). unfold units_of.
  rewrite chunks_exact_join by (lia || by (apply Forall_forall; intros e (i & -> & _)%elem_of_map)).
  replace (S n * 15)%nat with (n * 15 + 15)%nat by lia.
  assert (forall j, foldl push_unit (take (n * 15) nm) (map (fun i => to_le_bytes 2 (unit_of nm (n * 15 + i))) (seq 0 j)) = take (n * 15 + j) nm) as H; [| apply H].
  induction j as [| j IH]; [by rewrite Nat.add_0_r |]. rewrite seq_S, map_app, foldl_app, IH. cbn [map foldl].
  change (0 + j)%nat with j. rewrite push_one. f_equal. lia.
Qed.

Lemma parse_names df idx rest j : forall n, (0 < j)%nat -> (n + j = names_count)%nat -> name df = take (n * 15) nm ->
  parse_from idx (Some df) (Z.of_nat j) (map (name_slot nm) (seq n j) ++ rest)
  = mkDirFile nm (attributes df) (first_cluster df) (data_length df) (no_fat_chain df) (set_offset df) (set_entries df)
    :: parse_from (idx + j) None 0 rest.
Proof.
  revert idx df. induction j as [| j IH]; intros idx df n Hj Hn Hdf; [lia |]. pose proof names_count_bounds as (_ & Hlen & _).
  cbn [seq map app parse_from]. change (byte (name_slot nm n) 0) with ET_NAME. cbn [Z.eqb ET_NAME ET_END ET_FILE Pos.eqb].
  change (Z.land ET_NAME ET_IN_USE =? 0) with false. cbn [negb]. unfold secondary at 1 2 3. change (byte (name_slot nm n) 0) with ET_NAME.
  change (ET_NAME =? ET_STREAM) with false. change (ET_NAME =? ET_NAME) with true. cbn iota. rewrite Hdf, push_slot.
  rewrite (proj2 (Z.ltb_lt _ _)) by lia. replace (Z.of_nat (S j) - 1) with (Z.of_nat j) by lia. destruct j as [| j].
  - change (Z.of_nat 0 =? 0) with true. cbn iota. rewrite take_ge by lia. replace (idx + 1)%nat with (S idx) by lia. done.
  - rewrite (proj2 (Z.eqb_neq _ _)) by lia. replace (idx + S (S j))%nat with (S idx + S j)%nat by lia.
    set (df' := mkDirFile _ _ _ _ _ _ _) at 1. exact (IH (S idx) df' (S n) ltac:(lia) ltac:(lia) eq_refl).
Qed.

(** The set is read as its file, whatever stood before it. *)
Lemma parse_set idx cur left rest :
  parse_from idx cur left (file_entry :: stream_entry :: name_entries ++ rest) = file_at idx :: parse_from (idx + (2 + names_count)) None 0 rest.
Proof.
  pose proof names_count_bounds as ([H1 H17] & _). destruct Hfields as (Ha & Hf & Hl).
  cbn [parse_from]. change (byte file_entry 0) with ET_FILE. change (ET_FILE =? ET_END) with false. change (ET_FILE =? ET_FILE) with true.
  change (byte stream_entry 0) with ET_STREAM. change (ET_STREAM =? ET_END) with false. change (ET_STREAM =? ET_FILE) with false.
  change (Z.land ET_STREAM ET_IN_USE =? 0) with false. cbn iota. cbn [negb].
  unfold secondary, begin_set. change (byte stream_entry 0) with ET_STREAM. change (ET_STREAM =? ET_STREAM) with true. cbn iota. cbn [name attributes set_offset set_entries].
  change (byte file_entry 1) with ((1 + Z.of_nat names_count) mod 256). change (byte stream_entry 1) with flags.
  change (le16 file_entry 4) with (from_le_bytes (to_le_bytes 2 attrs)). change (le32 stream_entry 20) with (from_le_bytes (to_le_bytes 4 first)).
  change (le64 stream_entry 24) with (from_le_bytes (to_le_bytes 8 len)). rewrite (from_to_le_bytes 2), (from_to_le_bytes 4), (from_to_le_bytes 8) by (cbn; lia).
  rewrite Z.mod_small by lia. rewrite (proj2 (Z.ltb_lt _ _)) by lia. replace (1 + Z.of_nat names_count - 1) with (Z.of_nat names_count) by lia.
  rewrite (proj2 (Z.eqb_neq _ _)) by lia. unfold name_entries. rewrite parse_names by (lia || done). cbn [attributes first_cluster data_length no_fat_chain set_offset set_entries].
  unfold file_at. f_equal; [f_equal; lia | f_equal; lia].
Qed.
End Building.

(** * Placing a set *)

Lemma length_chunks {A} n (l : list A) k : (0 < n)%nat -> length l = (k * n)%nat ->
  length (chunks_exact n l) = k /\ mjoin (chunks_exact n l) = l /\ Forall (fun c => length c = n) (chunks_exact n l).
Proof.
  intros Hn Hl. unfold chunks_exact. rewrite Hl, Nat.div_mul by lia. revert l Hl.
  induction k as [| k IH]; intros l Hl; [by destruct l |]. cbn [chunks_exact_aux]. rewrite (proj2 (Nat.leb_le n _)) by lia.
  destruct (IH (drop n l)) as (H1 & H2 & H3); [rewrite length_drop; lia |]. cbn [length]. split; [by rewrite H1 |]. split.
  - change (mjoin (?a :: ?b)) with (a ++ mjoin b). by rewrite H2, take_drop.
  - constructor; [rewrite length_take; lia | done].
Qed.
Lemma length_mjoin {A} n (cs : list (list A)) : Forall (fun c => length c = n) cs -> length (mjoin cs) = (length cs * n)%nat.
Proof. induction 1 as [| c cs Hc _ IH]; [done |]. change (mjoin (c :: cs)) with (c ++ mjoin cs). rewrite length_app, IH, Hc. cbn [length]. lia. Qed.

(** Entries of a directory into which a set was spliced. *)
Lemma chunks_splice {A} n (pre run post : list (list A)) src : (0 < n)%nat -> Forall (fun c => length c = n) (pre ++ run ++ post) ->
  Forall (fun c => length c = n) src -> length src = length run ->
  take (length pre * n) (mjoin (pre ++ run ++ post)) ++ mjoin src ++ drop (length pre * n + length (mjoin src)) (mjoin (pre ++ run ++ post))
  = mjoin (pre ++ src ++ post).
Proof.
  intros Hn Hf Hs Hl. rewrite !Forall_app in Hf. destruct Hf as (Hp & Hr & _). rewrite (length_mjoin n src), Hl, <- (length_mjoin n run) by done.
  rewrite <- (length_mjoin n pre) by done. rewrite !join_app, take_app_length, drop_app_add, drop_app_length. done.
Qed.

Definition is_end (e : list Z) : Prop := byte e 0 = ET_END.
Definition deleted (e : list Z) : Prop := byte e 0 <> ET_END /\ Z.land (byte e 0) ET_IN_USE = 0.

(** ** Directories as items *)

(** A single entry, or the entries of a file: file entry, stream entry, and others. *)
Inductive item := Single (e : list Z) | Group (e s : list Z) (ns : list (list Z)).
Definition item_entries (it : item) : list (list Z) := match it with Single e => [e] | Group e s ns => e :: s :: ns end.
Definition entries (items : list item) : list (list Z) := mjoin (map item_entries items).
(** A secondary entry other than a stream entry; type 0x80 is invalid. *)
Definition extra (e : list Z) : Prop :=
  Z.land (byte e 0) ET_IN_USE <> 0 /\ byte e 0 <> ET_END /\ byte e 0 <> ET_FILE /\ byte e 0 <> ET_STREAM /\ byte e 0 <> ET_IN_USE.
Definition item_ok (it : item) : Prop :=
  match it with
  | Single e => ~ is_end e /\ byte e 0 <> ET_FILE
  | Group e s ns => byte e 0 = ET_FILE /\ byte e 1 = 1 + Z.of_nat (length ns) /\ byte s 0 = ET_STREAM /\ Forall extra ns
  end.
Definition file_of (idx : nat) (e s : list Z) (ns : list (list Z)) : DirFile := foldl secondary (begin_set idx e) (s :: ns).
Fixpoint files_of (idx : nat) (items : list item) : list DirFile :=
  match items with
  | [] => []
  | Single _ :: rest => files_of (S idx) rest
  | Group e s ns :: rest => file_of idx e s ns :: files_of (idx + (2 + length ns)) rest
  end.

(** A directory: items, then end marks only. *)
Record layout (data : list Z) (items : list item) (ends : list (list Z)) : Prop := {
  la_data : data = mjoin (entries items ++ ends);
  la_size : Forall (fun e => length e = DIR_ENTRY) (entries items ++ ends);
  la_items : Forall item_ok items;
  la_ends : Forall is_end ends }.
Definition tidy (data : list Z) : Prop := exists items ends, layout data items ends.

Lemma entries_app i1 i2 : entries (i1 ++ i2) = entries i1 ++ entries i2.
Proof. unfold entries. by rewrite map_app, join_app. Qed.
Lemma entries_cons it items : entries (it :: items) = item_entries it ++ entries items.
Proof. done. Qed.
Lemma entries_one it : entries [it] = item_entries it.
Proof. exact (app_nil_r _). Qed.
Lemma layout_chunks data items ends : layout data items ends -> chunks_exact DIR_ENTRY data = entries items ++ ends.
Proof. intros [-> H _ _]. apply chunks_exact_join; [unfold DIR_ENTRY; lia | done]. Qed.
Lemma entries_live items : Forall item_ok items -> Forall (fun e => ~ is_end e) (entries items).
Proof.
  induction 1 as [| it items Hi _ IH]; [constructor |]. rewrite entries_cons. apply Forall_app. split; [| done].
  destruct it as [e | e s ns]; cbn in *; [apply Forall_singleton, Hi |]. destruct Hi as (H1 & _ & H3 & H4). unfold is_end.
  constructor; [cbn beta; rewrite H1; discriminate |]. constructor; [cbn beta; rewrite H3; discriminate |]. eapply Forall_impl; [exact H4 |]. by intros x (_ & ? & _).
Qed.

Lemma files_of_app i1 : forall idx i2, files_of idx (i1 ++ i2) = files_of idx i1 ++ files_of (idx + length (entries i1)) i2.
Proof.
  induction i1 as [| it i1 IH]; intros idx i2; [by rewrite Nat.add_0_r |]. rewrite entries_cons, length_app. cbn [app files_of].
  destruct it as [e | e s ns]; cbn [item_entries length]; rewrite IH; [by rewrite Nat.add_succ_r |]. cbn [app]. do 3 f_equal. lia.
Qed.
Lemma extra_secondary e : extra e -> byte e 0 <> ET_END /\ byte e 0 <> ET_FILE /\ (Z.land (byte e 0) ET_IN_USE =? 0) = false.
Proof. intros (H1 & H2 & H3 & _). split; [done |]. split; [done |]. by apply Z.eqb_neq. Qed.

Lemma parse_extras ns : forall idx df rest, Forall extra ns -> ns <> [] ->
  parse_from idx (Some df) (Z.of_nat (length ns)) (ns ++ rest) = foldl secondary df ns :: parse_from (idx + length ns) None 0 rest.
Proof.
  induction ns as [| n ns IH]; intros idx df rest Hf Hne; [done |]. apply Forall_cons in Hf as [Hn Hf]. destruct (extra_secondary n Hn) as (H1 & H2 & H3).
  cbn [app parse_from]. rewrite (proj2 (Z.eqb_neq _ _) H1), (proj2 (Z.eqb_neq _ _) H2), H3. cbn [negb length foldl].
  rewrite (proj2 (Z.ltb_lt _ _)) by lia. replace (Z.of_nat (S (length ns)) - 1) with (Z.of_nat (length ns)) by lia. destruct ns as [| n2 ns].
  - cbn [length]. change (Z.of_nat 0 =? 0) with true. cbn iota. by rewrite Nat.add_1_r.
  - rewrite (proj2 (Z.eqb_neq _ _)) by (cbn [length]; lia). rewrite IH by done. do 2 f_equal. cbn [length]. lia.
Qed.
Lemma parse_items items : forall idx rest, Forall item_ok items ->
  parse_from idx None 0 (entries items ++ rest) = files_of idx items ++ parse_from (idx + length (entries items)) None 0 rest.
Proof.
  induction items as [| it items IH]; intros idx rest Hok; [by rewrite Nat.add_0_r |]. apply Forall_cons in Hok as [Hi Hok].
  rewrite entries_cons, <- app_assoc, length_app. destruct it as [e | e s ns]; cbn [item_entries app files_of length] in *.
  - destruct Hi as [He Hf]. cbn [parse_from]. rewrite (proj2 (Z.eqb_neq _ _) He), (proj2 (Z.eqb_neq _ _) Hf), IH by done. by rewrite Nat.add_succ_r.
  - destruct Hi as (H1 & H2 & H3 & H4). cbn [parse_from]. rewrite H1, H2, H3. change (ET_FILE =? ET_END) with false. change (ET_FILE =? ET_FILE) with true.
    change (ET_STREAM =? ET_END) with false. change (ET_STREAM =? ET_FILE) with false. change (Z.land ET_STREAM ET_IN_USE =? 0) with false. cbn iota. cbn [negb].
    rewrite (proj2 (Z.ltb_lt _ _)) by lia. replace (1 + Z.of_nat (length ns) - 1) with (Z.of_nat (length ns)) by lia. unfold file_of. cbn [foldl]. destruct ns as [| n ns].
    + cbn [length foldl app]. change (Z.of_nat 0 =? 0) with true. cbn iota. rewrite IH by done. cbn [app]. do 3 f_equal; lia.
    + rewrite (proj2 (Z.eqb_neq _ _)) by (cbn [length]; lia). rewrite parse_extras by done. rewrite IH by done. do 3 f_equal; cbn [length]; lia.
Qed.
Lemma parse_ends ends : forall idx cur left, Forall is_end ends -> parse_from idx cur left ends = [].
Proof. destruct ends as [| e ends]; intros idx cur left H; [done |]. apply Forall_cons in H as [H _]. cbn [parse_from]. by rewrite (proj2 (Z.eqb_eq _ _) H). Qed.
(** The listing of a directory. *)
Lemma parse_layout data items ends : layout data items ends -> parse_entries data = files_of 0 items.
Proof.
  intros L. unfold parse_entries. rewrite (layout_chunks _ _ _ L), parse_items by apply L. rewrite parse_ends by apply L. by rewrite app_nil_r.
Qed.

(** [find_place] on such a directory. *)
Lemma find_place_spec needed es : forall pre rs rl, (rl < needed)%nat -> (rl <= length pre)%nat -> Forall deleted (drop (length pre - rl) pre) ->
  (rl = 0 \/ rs = length pre - rl)%nat -> 
  match find_place needed (length pre) rs rl es with
  | (Some p, _) => exists before run after, pre ++ es = before ++ run ++ after /\ length before = p /\ length run = needed /\ Forall deleted run
  | (None, Some e) => exists live en rest, es = live ++ en :: rest /\ e = (length pre + length live)%nat /\ Forall (fun e => ~ is_end e) live /\ is_end en
  | (None, None) => Forall (fun e => ~ is_end e) es
  end.
Proof.
  induction es as [| e es IH]; intros pre rs rl Hrl Hle Hdel Hrs; cbn [find_place]; [done |].
  destruct (Z.eqb_spec (byte e 0) ET_END) as [He | He].
  { exists [], e, es. by rewrite Nat.add_0_r. }
  assert (forall rs' rl', (rl' < needed)%nat -> (rl' <= S (length pre))%nat -> Forall deleted (drop (S (length pre) - rl') (pre ++ [e])) ->
    (rl' = 0 \/ rs' = S (length pre) - rl')%nat ->
    match find_place needed (S (length pre)) rs' rl' es with
    | (Some p, _) => exists before run after, pre ++ e :: es = before ++ run ++ after /\ length before = p /\ length run = needed /\ Forall deleted run
    | (None, Some n) => exists live en rest, e :: es = live ++ en :: rest /\ n = (length pre + length live)%nat /\ Forall (fun e => ~ is_end e) live /\ is_end en
    | (None, None) => Forall (fun e => ~ is_end e) (e :: es)
    end) as Hgo.
  { intros rs' rl' A B C D. specialize (IH (pre ++ [e]) rs' rl'). rewrite length_app in IH. cbn [length] in IH. rewrite Nat.add_1_r in IH.
    specialize (IH A B C D). destruct (find_place needed (S (length pre)) rs' rl' es) as [[p |] [n |]].
    - by rewrite <- app_assoc in IH.
    - by rewrite <- app_assoc in IH.
    - destruct IH as (live & en & rest & -> & -> & Hf & Hen). exists (e :: live), en, rest. split; [done |]. split; [cbn [length]; lia |]. by split; [constructor |].
    - by constructor. }
  destruct (Z.eqb_spec (Z.land (byte e 0) ET_IN_USE) 0) as [Hu | Hu].
  - cbn zeta. assert (deleted e) as Hd by done.
    assert (Forall deleted (drop (length pre - rl) pre ++ [e])) as Hd' by (apply Forall_app; by split; [| constructor]).
    destruct (Nat.eqb_spec (S rl) needed) as [<- | Hne].
    + exists (take (length pre - rl) pre), (drop (length pre - rl) pre ++ [e]), es. split_and!.
      * rewrite <- app_assoc, app_assoc, take_drop. done.
      * rewrite length_take. destruct (Nat.eqb_spec rl 0); lia.
      * rewrite length_app, length_drop. cbn [length]. lia.
      * done.
    + apply Hgo; [lia | lia | | destruct (Nat.eqb_spec rl 0); lia].
      replace (S (length pre) - S rl)%nat with (length pre - rl)%nat by lia. by rewrite drop_app_le by lia.
  - apply Hgo; [lia | lia | | by left]. rewrite Nat.sub_0_r, drop_ge by (rewrite length_app; cbn [length]; lia). done.
Qed.

(** The end mark found is the first one. *)
Lemma live_unique live ends live' rest : Forall (fun e => ~ is_end e) live -> Forall is_end ends -> Forall (fun e => ~ is_end e) live' ->
  match rest with [] => True | e :: _ => is_end e end -> live ++ ends = live' ++ rest -> length live' = length live.
Proof.
  intros H1 H2 H3 H4 E. destruct (app_eq_inv _ _ _ _ E) as [([| x k] & -> & ->) | ([| x k] & -> & ->)]; rewrite ?app_nil_r; try done.
  - apply Forall_app in H1 as [_ H1]. by apply Forall_cons in H1 as [H1 _].
  - apply Forall_app in H3 as [_ H3]. apply Forall_cons in H3 as [H3 _]. by apply Forall_cons in H2 as [H2 _].
Qed.

(** Deleted entries are items of their own. *)
Lemma deleted_items items : forall run after, Forall item_ok items -> Forall deleted run -> entries items = run ++ after ->
  exists ir i2, items = ir ++ i2 /\ entries ir = run /\ entries i2 = after /\ (forall idx, files_of idx ir = []).
Proof.
  induction items as [| it items IH]; intros run after Hok Hdel E.
  { symmetry in E. apply app_nil in E as [-> ->]. by exists [], []. }
  destruct run as [| r run]; [by exists [], (it :: items) |]. apply Forall_cons in Hok as [Hi Hok], Hdel as [Hd Hdel]. rewrite entries_cons in E.
  destruct it as [e | e s ns]; cbn [item_entries app] in E; injection E as -> E.
  - destruct (IH run after Hok Hdel E) as (ir & i2 & -> & <- & <- & Hf). exists (Single r :: ir), i2. split_and!; [done | done | done | intros idx; apply (Hf (S idx))].
  - destruct Hi as (H1 & _). destruct Hd as [_ Hd]. rewrite H1 in Hd. by vm_compute in Hd.
Qed.
Lemma split_items items : forall before run after, Forall item_ok items -> Forall deleted run -> run <> [] -> entries items = before ++ run ++ after ->
  exists i1 ir i2, items = i1 ++ ir ++ i2 /\ entries i1 = before /\ entries ir = run /\ entries i2 = after /\ (forall idx, files_of idx ir = []).
Proof.
  induction items as [| it items IH]; intros before run after Hok Hdel Hne E.
  { symmetry in E. apply app_nil in E as [-> E]. apply app_nil in E as [-> _]. done. }
  destruct before as [| b before].
  { destruct (deleted_items (it :: items) run after Hok Hdel E) as (ir & i2 & ? & ? & ? & ?). by exists [], ir, i2. }
  apply Forall_cons in Hok as [Hi Hok]. rewrite entries_cons in E.
  destruct (app_eq_inv _ _ _ _ E) as [(k & E1 & E2) | (k & E1 & E2)].
  - (* the item ends inside [run] *)
    destruct k as [| x k].
    + rewrite app_nil_r in E1. rewrite app_nil_l in E2. destruct (deleted_items items run after Hok Hdel (eq_sym E2)) as (ir & i2 & -> & ? & ? & ?).
      exists [it], ir, i2. split; [done |]. split; [| done]. rewrite <- E1. exact (app_nil_r _).
    + exfalso. destruct run as [| r run]; [done |]. injection E2 as <- _. apply Forall_cons in Hdel as [[_ Hd] _].
      destruct it as [e | e s ns]; cbn [item_entries] in E1; [by destruct before |]. injection E1 as <- E1. destruct Hi as (_ & _ & H3 & H4).
      destruct before as [| b2 before]; [injection E1 as <- _; rewrite H3 in Hd; by vm_compute in Hd |]. injection E1 as <- ->.
      apply Forall_app in H4 as [_ H4]. apply Forall_cons in H4 as [(H4 & _) _]. done.
  - destruct (IH k run after Hok Hdel Hne E2) as (i1 & ir & i2 & -> & <- & <- & <- & Hf). exists (it :: i1), ir, i2. by rewrite E1.
Qed.

(** [data'] lists what [data] lists and the file [f] somewhere among them. *)
Definition inserted (data data' : list Z) (f : DirFile) : Prop :=
  tidy data' /\ exists l1 l2, parse_entries data = l1 ++ l2 /\ parse_entries data' = l1 ++ f :: l2.

Section Placing.
Context (nm : list Z) (attrs flags first len : Z).
Hypothesis Hnm : Forall (fun c => 0 < c < 128) nm /\ (1 <= length nm <= 255)%nat.
Hypothesis Hfields : 0 <= attrs < 2 ^ 16 /\ 0 <= first < 2 ^ 32 /\ 0 <= len < 2 ^ 64.
Let set := build_entry_set nm attrs flags first len.
Let group := Group (file_entry nm attrs flags first len) (stream_entry nm flags first len) (name_entries nm).
Let at_ := file_at nm attrs flags first len.

Lemma group_ok : item_ok group /\ Forall (fun e => length e = DIR_ENTRY) (item_entries group) /\ length (item_entries group) = (2 + names_count nm)%nat
  /\ forall idx, files_of idx [group] = [at_ idx].
Proof.
  pose proof (names_count_bounds nm Hnm) as (Hb & _).
  assert (length (name_entries nm) = names_count nm) as Hl by (unfold name_entries; by rewrite length_map, length_seq).
  assert (item_ok group) as Hg.
  { unfold group, item_ok. split; [done |]. split; [| split; [done |]].
    - change (byte (file_entry nm attrs flags first len) 1) with ((1 + Z.of_nat (names_count nm)) mod 256). rewrite Hl, Z.mod_small by lia. done.
    - apply Forall_forall. intros e (n & -> & _)%elem_of_map. by vm_compute. }
  split; [done |]. split; [| split].
  - unfold group, item_entries. repeat (constructor; [reflexivity |]). apply Forall_forall. intros e (n & -> & _)%elem_of_map. apply length_name_slot.
  - unfold group, item_entries. cbn [length]. by rewrite Hl.
  - intros idx. pose proof (parse_items [group] idx [] ltac:(by apply Forall_singleton)) as H. rewrite entries_one in H.
    change (item_entries group ++ []) with (file_entry nm attrs flags first len :: stream_entry nm flags first len :: name_entries nm ++ []) in H.
    rewrite (parse_set nm attrs flags first len Hnm Hfields) in H. cbn [parse_from] in H. by rewrite app_nil_r in H.
Qed.

Lemma splice_entries before run after : Forall (fun e => length e = DIR_ENTRY) (before ++ run ++ after) -> length run = (2 + names_count nm)%nat ->
  splice (mjoin (before ++ run ++ after)) (length before * DIR_ENTRY) set = mjoin (before ++ item_entries group ++ after).
Proof.
  intros Hs Hl. destruct group_ok as (_ & E1 & E2 & _). unfold splice, set. rewrite entry_set_eq.
  apply (chunks_splice DIR_ENTRY before run after (item_entries group)); [unfold DIR_ENTRY; lia | done | done | lia].
Qed.

(** In place of deleted entries. *)
Lemma placed_run data items ends before run after : layout data items ends -> entries items ++ ends = before ++ run ++ after ->
  Forall deleted run -> length run = (2 + names_count nm)%nat ->
  inserted data (splice data (length before * DIR_ENTRY) set) (at_ (length before)).
Proof.
  intros L Heq Hdel Hlen. pose proof L as [Ld Ls Li Le]. destruct group_ok as (E0 & E1 & E2 & E3). pose proof (entries_live items Li) as Ll.
  assert (run <> []) as Hne by by destruct run.
  assert (exists after', entries items = before ++ run ++ after' /\ after = after' ++ ends) as (after' & Hit & ->).
  { destruct (app_eq_inv (entries items) ends (before ++ run) after) as [(k & H1 & H2) | (k & H1 & H2)]; [by rewrite <- app_assoc | |].
    - exists k. by rewrite app_assoc.
    - destruct k as [| e k]. { exists []. rewrite !app_nil_r in *. split; [done |]. by rewrite app_nil_l in *. }
      exfalso. destruct (snoc_of (e :: k)) as (k' & x & Hk); [done |]. rewrite Hk in H1, H2.
      destruct (snoc_of run) as (r' & y & ->); [done |]. rewrite !app_assoc in H1. apply app_inj_tail in H1 as [_ ->].
      rewrite H2, !Forall_app in Le. destruct Le as [[_ Le] _]. apply Forall_app in Hdel as [_ Hdel]. apply Forall_cons in Le as [Le _], Hdel as [[Hd _] _]. done. }
  destruct (split_items items before run after' Li Hdel Hne Hit) as (i1 & ir & i2 & -> & <- & Hir & <- & Hf).
  rewrite Heq in Ls, Ld. assert (layout (mjoin (entries i1 ++ item_entries group ++ entries i2 ++ ends)) (i1 ++ group :: i2) ends) as L'.
  { rewrite !Forall_app in *. destruct Ls as (Z1 & _ & Z3 & Z4), Li as (Y1 & _ & Y3).
    constructor; rewrite ?entries_app, ?entries_cons, <- ?app_assoc, ?Forall_app; [done | done | | done]. split; [done | by constructor]. }
  rewrite Ld, (splice_entries _ _ _ Ls Hlen), <- Ld. split; [by eexists _, _ |]. rewrite (parse_layout _ _ _ L), (parse_layout _ _ _ L').
  exists (files_of 0 i1), (files_of (length (entries i1) + length run) i2). rewrite !files_of_app, Hf, Hir. split; [done |]. f_equal.
  change (group :: i2) with ([group] ++ i2). rewrite files_of_app, E3. cbn [app]. do 2 f_equal. unfold entries at 2. cbn [map]. change (mjoin [?x]) with (x ++ []). rewrite app_nil_r. lia.
Qed.

(** After the last entry. *)
Lemma placed_end data items ends ends' data' : layout data items ends -> layout data' items ends' -> (2 + names_count nm <= length ends')%nat ->
  inserted data (splice data' (length (entries items) * DIR_ENTRY) set) (at_ (length (entries items))).
Proof.
  intros L L' Hlen. pose proof L' as [Ld Ls Li Le]. destruct group_ok as (E0 & E1 & E2 & E3).
  rewrite <- (take_drop (2 + names_count nm) ends') in Ld, Ls, Le. rewrite Ld.
  rewrite (splice_entries (entries items)) by (done || rewrite length_take; lia).
  set (rest := drop _ ends') in *. assert (layout (mjoin (entries items ++ item_entries group ++ rest)) (items ++ [group]) rest) as L2.
  { rewrite !Forall_app in *. destruct Ls as (Z1 & _ & Z3), Le as [_ Z4]. constructor; rewrite ?entries_app, ?entries_one, <- ?app_assoc, ?Forall_app; [done | done | | done].
    split; [done | by apply Forall_singleton]. }
  split; [by eexists _, _ |]. rewrite (parse_layout _ _ _ L), (parse_layout _ _ _ L2).
  exists (files_of 0 items), []. rewrite app_nil_r, files_of_app, E3. done.
Qed.

Lemma layout_extend data items ends k : layout data items ends -> layout (data ++ replicate (k * DIR_ENTRY) 0) items (ends ++ replicate k z32).
Proof.
  intros [Ld Ls Ll Le]. constructor; [| | done |].
  - rewrite Ld, app_assoc, (join_app (entries items ++ ends)). f_equal. induction k as [| k IH]; [done |].
    change (mjoin (replicate (S k) z32)) with (z32 ++ mjoin (replicate k z32)). rewrite <- IH, <- replicate_add. done.
  - rewrite app_assoc. apply Forall_app. split; [done |]. by apply Forall_replicate.
  - apply Forall_app. split; [done |]. by apply Forall_replicate.
Qed.
End Placing.
End ExfatDir.
