(* ===== verification/ExfatEdit.v ===== *)
(** Changing an exFAT directory's bytes (src/fs/exfat.rs): a file's entries marked deleted,
    or its stream entry rewritten, change that file in the listing and no other. *)

From Stdlib Require Import ZArith Lia.
From stdpp Require Import base list list_numbers numbers decidable tactics strings sets.
From S2P Require Import Prelude BlockDev FatNames FatLfn Exfat ExfatDir.
Import Blk FatNames FatLfn Exfat ExfatDir.

Module ExfatEdit.

(** * Finding a file's entries *)

Lemma files_split items : forall idx l1 f l2, files_of idx items = l1 ++ f :: l2 ->
  exists i1 e s ns i2, items = i1 ++ Group e s ns :: i2 /\ files_of idx i1 = l1 /\ f = file_of (idx + length (entries i1)) e s ns
    /\ l2 = files_of (idx + length (entries i1) + (2 + length ns)) i2.
Proof.
  induction items as [| it items IH]; intros idx l1 f l2 E; [by destruct l1 |]. destruct it as [e0 | e0 s0 ns0]; cbn [files_of] in E.
  - destruct (IH _ _ _ _ E) as (i1 & e & s & ns & i2 & -> & <- & -> & ->). exists (Single e0 :: i1), e, s, ns, i2.
    rewrite entries_cons, length_app. cbn [item_entries length files_of]. replace (idx + (1 + length (entries i1)))%nat with (S idx + length (entries i1))%nat by lia. done.
  - destruct l1 as [| f0 l1]; cbn [app] in E; injection E as <- E.
    + exists [], e0, s0, ns0, items. cbn. rewrite Nat.add_0_r. done.
    + destruct (IH _ _ _ _ E) as (i1 & e & s & ns & i2 & -> & <- & -> & ->). exists (Group e0 s0 ns0 :: i1), e, s, ns, i2.
      rewrite entries_cons, length_app. cbn [item_entries length files_of].
      replace (idx + (S (S (length ns0)) + length (entries i1)))%nat with (idx + (2 + length ns0) + length (entries i1))%nat by lia. done.
Qed.

(** What the entries after the stream entry make of a file: its name only. *)
Lemma extras_name ns : Forall extra ns -> exists g, forall df, foldl secondary df ns =
  mkDirFile (g (name df)) (attributes df) (first_cluster df) (data_length df) (no_fat_chain df) (set_offset df) (set_entries df).
Proof.
  induction 1 as [| n ns Hn _ [g IH]]; [by exists id; intros [] |]. destruct Hn as (_ & _ & _ & Hs & _).
  exists (fun x => g (name (secondary (mkDirFile x 0 0 0 false 0 0) n))). intros df. cbn [foldl]. rewrite IH. unfold secondary.
  rewrite (proj2 (Z.eqb_neq _ _) Hs). by destruct (byte n 0 =? ET_NAME).
Qed.
(** The file with another place and length. *)
Definition moved (f : DirFile) (flags first len : Z) : DirFile :=
  mkDirFile (name f) (attributes f) first len (negb (Z.land flags FLAG_NO_FAT_CHAIN =? 0)) (set_offset f) (set_entries f).
Lemma file_of_fields idx e s ns : item_ok (Group e s ns) ->
  set_offset (file_of idx e s ns) = (idx * DIR_ENTRY)%nat /\ set_entries (file_of idx e s ns) = (2 + length ns)%nat.
Proof.
  intros (H1 & H2 & H3 & H4). destruct (extras_name ns H4) as [g Hg]. unfold file_of. cbn [foldl]. rewrite Hg. unfold secondary. rewrite H3. cbn.
  rewrite H2. split; [done | lia].
Qed.

(** * Marking entries deleted *)

Definition mark (e : list Z) : list Z := <[0%nat := Z.land (byte e 0) (unot 8 ET_IN_USE)]> e.
Lemma insert_join before (e : list Z) after n x : Forall (fun l => length l = n) (before ++ [e]) -> (0 < n)%nat ->
  <[(length before * n)%nat := x]> (mjoin (before ++ e :: after)) = mjoin (before ++ (<[0%nat := x]> e) :: after)
  /\ byte (mjoin (before ++ e :: after)) (length before * n) = byte e 0.
Proof.
  rewrite Forall_app, Forall_singleton. intros [Hb He] Hn. pose proof (length_mjoin n before Hb) as Hl. rewrite !join_app, <- Hl.
  change (mjoin (?a :: ?b)) with (a ++ mjoin b). split.
  - rewrite <- (Nat.add_0_r (length (mjoin before))), insert_app_r. by rewrite insert_app_l by lia.
  - rewrite byte_app, decide_False, Nat.sub_diag, byte_app, decide_True by lia. done.
Qed.
Definition marked (data : list Z) (off n : nat) : list Z :=
  foldl (fun data i => <[(off + i * DIR_ENTRY)%nat := Z.land (byte data (off + i * DIR_ENTRY)) (unot 8 ET_IN_USE)]> data) data (seq 0 n).
Lemma length_mark e : length (mark e) = length e.
Proof. unfold mark. by rewrite length_insert. Qed.
Lemma marked_entries before seg after : Forall (fun l => length l = DIR_ENTRY) (before ++ seg ++ after) -> forall j, (j <= length seg)%nat ->
  marked (mjoin (before ++ seg ++ after)) (length before * DIR_ENTRY) j = mjoin (before ++ (map mark (take j seg) ++ drop j seg) ++ after).
Proof.
  intros Hf j Hj. unfold marked. induction j as [| j IH]; [done |]. rewrite seq_S, foldl_app, IH by lia. change (0 + j)%nat with j. cbn [foldl].
  destruct (drop j seg) as [| e rest] eqn:Ed; [apply (f_equal length) in Ed; rewrite length_drop in Ed; cbn in Ed; lia |].
  assert (seg !! j = Some e) as Hje by (rewrite <- (Nat.add_0_r j), <- lookup_drop, Ed; done).
  assert (drop (S j) seg = rest) as -> by (replace (S j) with (j + 1)%nat by lia; rewrite <- drop_drop, Ed; done).
  rewrite (take_S_r _ _ _ Hje), map_app. cbn [map]. rewrite !Forall_app in Hf. destruct Hf as (F1 & F2 & _).
  set (A := before ++ map mark (take j seg)).
  assert (length A = length before + j)%nat as HA by (unfold A; rewrite length_app, length_map, length_take; lia).
  replace (before ++ (map mark (take j seg) ++ e :: rest) ++ after) with (A ++ e :: rest ++ after) by (unfold A; by rewrite <- !app_assoc).
  replace (length before * DIR_ENTRY + j * DIR_ENTRY)%nat with (length A * DIR_ENTRY)%nat by lia.
  destruct (insert_join A e (rest ++ after) DIR_ENTRY (Z.land (byte e 0) (unot 8 ET_IN_USE))) as [H1 H2]; [| unfold DIR_ENTRY; lia |].
  - unfold A. rewrite <- app_assoc. apply Forall_app. split; [done |]. apply Forall_app. split.
    + apply Forall_forall. intros l (x & -> & Hx)%elem_of_map. rewrite length_mark.
      assert (Forall (fun l => length l = DIR_ENTRY) (take j seg)) as Ft by by apply Forall_take. exact (Forall_elem _ _ _ Ft Hx).
    + apply Forall_singleton. by eapply Forall_lookup_1 in F2.
  - rewrite H2, H1. unfold A. rewrite <- !app_assoc. done.
Qed.

Lemma mark_single e : length e = DIR_ENTRY -> byte e 0 <> ET_IN_USE -> 0 <= byte e 0 < 256 -> Z.land (byte e 0) ET_IN_USE <> 0 -> item_ok (Single (mark e)).
Proof.
  intros Hl Hne Hb Hu. assert (byte (mark e) 0 = Z.land (byte e 0) 0x7f) as E by (unfold mark; by rewrite byte_insert by (rewrite Hl; unfold DIR_ENTRY; lia)).
  unfold item_ok, is_end, ET_END, ET_FILE, ET_IN_USE in *. rewrite E. change 0x7f with (2 ^ 7 - 1). rewrite land_low by lia.
  assert (byte e 0 < 128 -> Z.land (byte e 0) 128 = 0) as Hs.
  { intros Hlt. change 128 with (Z.shiftl 1 7). apply Z.bits_inj'. intros k Hk. rewrite Z.land_spec, testbit_pow2, Z.bits_0 by lia.
    destruct (Z.eqb_spec k 7) as [-> |]; [| by rewrite andb_false_r]. rewrite andb_true_r. apply (testbit_above 7); lia. }
  split; zdiv.
Qed.

Section File.
Context (data : list Z) (items : list item) (ends : list (list Z)) (l1 l2 : list DirFile) (f : DirFile).
Hypothesis L : layout data items ends.
Hypothesis Hbytes : Forall is_byte data.
Hypothesis Hf : parse_entries data = l1 ++ f :: l2.
Abbreviation off := (set_offset f).
Abbreviation n := (set_entries f).

(** Where the entries of [f] stand. *)
Lemma file_entries : exists i1 e s ns i2, items = i1 ++ Group e s ns :: i2 /\ files_of 0 i1 = l1
  /\ f = file_of (length (entries i1)) e s ns /\ l2 = files_of (length (entries i1) + (2 + length ns)) i2
  /\ data = mjoin (entries i1 ++ (e :: s :: ns) ++ entries i2 ++ ends) /\ item_ok (Group e s ns)
  /\ off = (length (entries i1) * DIR_ENTRY)%nat /\ n = (2 + length ns)%nat
  /\ Forall (fun l => length l = DIR_ENTRY) (entries i1 ++ (e :: s :: ns) ++ entries i2 ++ ends).
Proof.
  rewrite (parse_layout _ _ _ L) in Hf. destruct (files_split items 0 l1 f l2 Hf) as (i1 & e & s & ns & i2 & -> & H1 & -> & ->). cbn [plus] in *.
  exists i1, e, s, ns, i2. pose proof L as [Ld Ls Li Le]. rewrite Forall_app, Forall_cons in Li. destruct Li as (_ & Hg & _).
  destruct (file_of_fields (length (entries i1)) e s ns Hg) as [O1 O2]. rewrite entries_app, entries_cons, <- !app_assoc in Ld, Ls. done.
Qed.
Lemma file_inside : (off + n * DIR_ENTRY <= length data)%nat /\ (2 <= n)%nat /\ byte data off = ET_FILE /\ byte data (off + DIR_ENTRY) = ET_STREAM.
Proof.
  destruct file_entries as (i1 & e & s & ns & i2 & -> & _ & _ & _ & Hd & (Hg1 & _ & Hg3 & _) & -> & -> & Hs). rewrite Hd.
  assert (length (mjoin (entries i1 ++ (e :: s :: ns) ++ entries i2 ++ ends)) = (length (entries i1) + (2 + length ns) + length (entries i2 ++ ends)) * DIR_ENTRY)%nat as Hl.
  { rewrite (length_mjoin DIR_ENTRY) by done. rewrite !length_app. cbn [length]. lia. }
  rewrite Forall_app in Hs. destruct Hs as [S1 S2]. apply Forall_cons in S2 as [S2 S3]. apply Forall_cons in S3 as [S3 S4].
  split; [rewrite Hl; lia |]. split; [lia |]. split.
  - exact (eq_trans (proj2 (insert_join (entries i1) e (s :: ns ++ entries i2 ++ ends) DIR_ENTRY 0 ltac:(rewrite !Forall_app, !Forall_singleton; done) ltac:(unfold DIR_ENTRY; lia))) Hg1).
  - replace (length (entries i1) * DIR_ENTRY + DIR_ENTRY)%nat with (length (entries i1 ++ [e]) * DIR_ENTRY)%nat by (rewrite length_app; cbn [length]; lia).
    replace (entries i1 ++ (e :: s :: ns) ++ entries i2 ++ ends) with ((entries i1 ++ [e]) ++ s :: ns ++ entries i2 ++ ends) by by rewrite <- app_assoc.
    rewrite (proj2 (insert_join (entries i1 ++ [e]) s (ns ++ entries i2 ++ ends) DIR_ENTRY 0 ltac:(rewrite !Forall_app, !Forall_singleton; done) ltac:(unfold DIR_ENTRY; lia))). done.
Qed.

(** The entries marked deleted: the file is gone from the listing. *)
Lemma file_removed : tidy (marked data off n) /\ parse_entries (marked data off n) = l1 ++ l2
  /\ (exists src, length src = (n * DIR_ENTRY)%nat /\ Forall is_byte src /\ marked data off n = splice data off src).
Proof.
  destruct file_entries as (i1 & e & s & ns & i2 & Hi & <- & _ & -> & Hd & Hg & -> & -> & Hs). pose proof L as [_ _ Li Le]. rewrite Hi in Li.
  rewrite Forall_app, Forall_cons in Li. destruct Li as (Li1 & _ & Li2).
  assert (Forall (fun x => item_ok (Single (mark x))) (e :: s :: ns)) as Hm.
  { assert (forall x, x ∈ e :: s :: ns -> 0 <= byte x 0 < 256 /\ length x = DIR_ENTRY) as Hb.
    { intros x Hx. assert (x ∈ entries i1 ++ (e :: s :: ns) ++ entries i2 ++ ends) as Hx' by set_solver. split; [| by apply (Forall_elem _ _ _ Hs)].
      apply byte_is_byte. rewrite Hd in Hbytes. apply Forall_forall. intros z Hz. eapply Forall_elem; [exact Hbytes |]. apply list_elem_of_join. eauto. }
    destruct Hg as (H1 & _ & H3 & H4). apply Forall_forall. intros x Hx. destruct (Hb x Hx) as [Hb1 Hb2].
    assert (byte x 0 <> ET_IN_USE /\ Z.land (byte x 0) ET_IN_USE <> 0) as [Hx1 Hx2].
    { apply elem_of_cons in Hx as [-> | [-> | Hx]%elem_of_cons]; [by rewrite H1 | by rewrite H3 |]. by destruct (Forall_elem _ _ _ H4 Hx) as (? & _ & _ & _ & ?). }
    by apply mark_single. }
  rewrite Hd. change (2 + length ns)%nat with (length (e :: s :: ns)). rewrite marked_entries by done.
  rewrite drop_ge, take_ge, app_nil_r by done. set (seg := e :: s :: ns) in *.
  assert (entries (map (fun x => Single (mark x)) seg) = map mark seg) as He by (clear; induction seg as [| x seg IH]; [done |]; cbn [map]; rewrite entries_cons, IH; done).
  assert (forall idx, files_of idx (map (fun x => Single (mark x)) seg) = []) as Hf0 by (clear; induction seg as [| x seg IH]; intros idx; [done |]; apply IH).
  assert (layout (mjoin (entries i1 ++ map mark seg ++ entries i2 ++ ends)) (i1 ++ map (fun x => Single (mark x)) seg ++ i2) ends) as L'.
  { rewrite !Forall_app in Hs. destruct Hs as (Z1 & Z2 & Z3 & Z4). constructor; rewrite ?entries_app, ?He, <- ?app_assoc, ?Forall_app; [done | | | done].
    - split_and!; [done | | done | done]. apply Forall_forall. intros x (y & -> & Hy)%elem_of_map. rewrite length_mark. by apply (Forall_elem _ _ _ Z2).
    - split_and!; [done | | done]. apply Forall_forall. intros x (y & -> & Hy)%elem_of_map. by apply (Forall_elem _ _ _ Hm). }
  split; [by eexists _, _ |]. split; [rewrite (parse_layout _ _ _ L'), !files_of_app, Hf0, He, length_map; done |].
  exists (mjoin (map mark seg)). rewrite !Forall_app in Hs. destruct Hs as (Z1 & Z2 & Z3 & Z4).
  assert (Forall (fun l => length l = DIR_ENTRY) (map mark seg)) as Z5.
  { apply Forall_forall. intros x (y & -> & Hy)%elem_of_map. rewrite length_mark. by apply (Forall_elem _ _ _ Z2). }
  assert (length (mjoin (map mark seg)) = length seg * DIR_ENTRY)%nat as Hl by by rewrite (length_mjoin DIR_ENTRY), length_map by done.
  split; [done |]. split.
  - rewrite Hd, !join_app, !Forall_app in Hbytes. apply Forall_forall. intros z (l & Hz & (x & -> & Hx)%elem_of_map)%list_elem_of_join.
    assert (Forall is_byte x) as Hbx.
    { apply Forall_forall. intros y Hy. eapply Forall_elem; [exact (proj1 (proj2 Hbytes)) |]. apply list_elem_of_join. eauto. }
    revert z Hz. apply Forall_forall. unfold mark. apply Forall_insert; [done |]. pose proof (byte_is_byte x 0 Hbx) as [B0 B1].
    unfold is_byte. split; [by apply Z.land_nonneg; left |]. change (unot 8 ET_IN_USE) with (2 ^ 7 - 1). rewrite land_low by lia. zdiv.
  - rewrite !join_app. rewrite <- (length_mjoin DIR_ENTRY _ Z1), <- (Nat.add_0_r (length (mjoin (entries i1)))), splice_app_r.
    f_equal. rewrite splice_all; [done |]. by rewrite Hl, (length_mjoin DIR_ENTRY) by done.
Qed.

(** * Rewriting the stream entry *)

Definition restream (flags first len : Z) (s : list Z) : list Z :=
  splice (splice (splice (splice s 1 [flags]) 8 (to_le_bytes 8 len)) 20 (to_le_bytes 4 first)) 24 (to_le_bytes 8 len).
Definition updated (flags first len : Z) : list Z :=
  let d := splice data (off + 32) (restream flags first len (take 32 (drop (off + 32) data))) in
  splice d (off + 2) (to_le_bytes 2 (entry_set_checksum (take (n * DIR_ENTRY) (drop off d)))).

Lemma restream_fields flags first len s : length s = DIR_ENTRY -> byte s 0 = ET_STREAM -> 0 <= first < 2 ^ 32 -> 0 <= len < 2 ^ 64 ->
  length (restream flags first len s) = DIR_ENTRY /\ byte (restream flags first len s) 0 = ET_STREAM /\ forall df, secondary df (restream flags first len s)
    = mkDirFile (name df) (attributes df) first len (negb (Z.land flags FLAG_NO_FAT_CHAIN =? 0)) (set_offset df) (set_entries df).
Proof.
  intros Hl Hs H1 H2. unfold DIR_ENTRY in Hl. unfold restream. set (a := splice s 1 [flags]). assert (length a = 32%nat) as Ha by (unfold a; rewrite length_splice by (cbn [length]; lia); done).
  set (b := splice a 8 (to_le_bytes 8 len)). assert (length b = 32%nat) as Hb by (unfold b; rewrite length_splice by (rewrite length_to_le_bytes; lia); done).
  set (c := splice b 20 (to_le_bytes 4 first)). assert (length c = 32%nat) as Hc by (unfold c; rewrite length_splice by (rewrite length_to_le_bytes; lia); done).
  assert (length (splice c 24 (to_le_bytes 8 len)) = 32%nat) as Hd by (rewrite length_splice by (rewrite length_to_le_bytes; lia); done). split; [done |].
  assert (forall i, (i < 8)%nat -> byte (splice c 24 (to_le_bytes 8 len)) i = byte a i) as Hlow.
  { intros i Hi. rewrite byte_splice, length_to_le_bytes, decide_False by (rewrite ?length_to_le_bytes; lia). unfold c.
    rewrite byte_splice, length_to_le_bytes, decide_False by (rewrite ?length_to_le_bytes; lia). unfold b. by rewrite byte_splice, length_to_le_bytes, decide_False by (rewrite ?length_to_le_bytes; lia). }
  split; [rewrite Hlow by lia; unfold a; rewrite byte_splice by (cbn [length]; lia); by rewrite decide_False by lia |]. intros df. unfold secondary.
  rewrite !Hlow by lia. unfold a. rewrite !byte_splice by (cbn [length]; lia). rewrite decide_False, decide_True by (cbn [length]; lia). cbn [byte nth Nat.sub]. rewrite Hs, Z.eqb_refl.
  f_equal.
  - unfold le32. rewrite piece_splice by (rewrite ?length_to_le_bytes; lia). change 4%nat with (length (to_le_bytes 4 first)) at 1. unfold c. rewrite piece_same by (rewrite length_to_le_bytes; lia). by apply from_to_le_bytes.
  - unfold le64. change 8%nat with (length (to_le_bytes 8 len)) at 1. rewrite piece_same by (rewrite length_to_le_bytes; lia). by apply from_to_le_bytes.
Qed.

Lemma restream_bytes flags first len s : Forall is_byte s -> 0 <= flags < 256 -> Forall is_byte (restream flags first len s).
Proof. intros Hs Hfl. unfold restream. repeat (apply splice_bytes); try apply to_le_bytes_bytes; [done | by apply Forall_singleton]. Qed.

Lemma head_kept e cs : length e = DIR_ENTRY -> length cs = 2%nat ->
  length (splice e 2 cs) = DIR_ENTRY /\ byte (splice e 2 cs) 0 = byte e 0 /\ byte (splice e 2 cs) 1 = byte e 1 /\ le16 (splice e 2 cs) 4 = le16 e 4.
Proof.
  intros Hl Hc. unfold DIR_ENTRY in *. split; [rewrite length_splice; lia |]. rewrite !byte_splice by lia. rewrite !decide_False by lia.
  split; [done |]. split; [done |]. unfold le16. by rewrite piece_splice by lia.
Qed.

(** The stream entry rewritten: the file has another place and length, under its name. *)
Lemma file_moved flags first len : 0 <= flags < 256 -> 0 <= first < 2 ^ 32 -> 0 <= len < 2 ^ 64 ->
  tidy (updated flags first len) /\ parse_entries (updated flags first len) = l1 ++ moved f flags first len :: l2
  /\ (exists src, length src = (n * DIR_ENTRY)%nat /\ Forall is_byte src /\ updated flags first len = splice data off src).
Proof.
  intros Hfl Hfi Hle. destruct file_entries as (i1 & e & s & ns & i2 & Hi & Hl1 & Hfile & Hl2 & Hd & Hg & Hoff & Hn & Hs).
  pose proof L as [_ _ Li Le]. rewrite Hi, Forall_app, Forall_cons in Li. destruct Li as (Li1 & _ & Li2).
  pose proof Hs as Hs'. rewrite Forall_app in Hs'. destruct Hs' as [S1 S2]. apply Forall_cons in S2 as [S2 S3]. apply Forall_cons in S3 as [S3 S4].
  set (A := mjoin (entries i1)). set (B := mjoin (ns ++ entries i2 ++ ends)). assert (length A = off) as HA by (unfold A; rewrite (length_mjoin DIR_ENTRY) by done; done).
  assert (data = A ++ e ++ s ++ B) as HdAB by (rewrite Hd, join_app; done). pose proof Hg as (Hg1 & Hg2 & Hg3 & Hg4).
  destruct (restream_fields flags first len s S3 Hg3 Hfi Hle) as (R1 & R0 & R2). set (s' := restream flags first len s) in *.
  assert (off + 32 = length (A ++ e) + 0)%nat as Ho by (rewrite length_app, HA, S2; unfold DIR_ENTRY; lia).
  assert (take 32 (drop (off + 32) data) = s) as Et.
  { rewrite HdAB, app_assoc, Ho, Nat.add_0_r, drop_app_length. by rewrite (take_app_length' s B 32). }
  assert (splice data (off + 32) s' = A ++ e ++ s' ++ B) as Es.
  { rewrite HdAB, app_assoc, Ho, splice_app_r, splice_all by (by rewrite R1, S3). by rewrite <- app_assoc. }
  unfold updated. rewrite Et. fold s'. rewrite Es. cbn zeta. set (cs := to_le_bytes 2 _). destruct (head_kept e cs S2 eq_refl) as (K1 & K2 & K3 & K4).
  assert (splice (A ++ e ++ s' ++ B) (off + 2) cs = A ++ splice e 2 cs ++ s' ++ B) as Eu.
  { rewrite <- HA, splice_app_r, splice_app_l; [done |]. rewrite S2. unfold DIR_ENTRY. cbn. lia. }
  rewrite Eu. set (e' := splice e 2 cs) in *.
  assert (item_ok (Group e' s' ns)) as Hg'.
  { cbn. rewrite K2, K3. split; [done |]. split; [done |]. by split. }
  assert (layout (A ++ e' ++ s' ++ B) (i1 ++ Group e' s' ns :: i2) ends) as L'.
  { constructor; rewrite ?entries_app, ?entries_cons, <- ?app_assoc; [by rewrite join_app | | | done].
    - apply Forall_app. split; [done |]. constructor; [done |]. by constructor.
    - apply Forall_app. split; [done |]. by constructor. }
  split; [by eexists _, _ |]. split.
  - rewrite (parse_layout _ _ _ L'), files_of_app, Hl1. cbn [files_of plus]. rewrite Hl2, Hfile. do 2 f_equal.
    destruct (extras_name ns Hg4) as [g Eg]. unfold moved, file_of. cbn [foldl]. rewrite !Eg, R2. unfold secondary. rewrite Hg3. cbn [name attributes set_offset set_entries begin_set].
    change (ET_STREAM =? ET_STREAM) with true. cbn. rewrite K4, K3. done.
  - exists (e' ++ s' ++ mjoin ns). split; [| split].
    + rewrite !length_app, K1, R1, (length_mjoin DIR_ENTRY), Hn by (apply Forall_app in S4 as [? _]; done). lia.
    + rewrite HdAB in Hbytes. unfold B in Hbytes. rewrite join_app, !Forall_app in Hbytes. destruct Hbytes as (_ & B1 & B2 & B3 & _).
      rewrite !Forall_app. split; [apply splice_bytes; [done | apply to_le_bytes_bytes] |]. split; [by apply restream_bytes | done].
    + rewrite HdAB, <- HA, <- (Nat.add_0_r (length A)), splice_app_r. f_equal. unfold B. rewrite (join_app ns).
      replace (e ++ s ++ mjoin ns ++ mjoin (entries i2 ++ ends)) with ((e ++ s ++ mjoin ns) ++ mjoin (entries i2 ++ ends)) by by rewrite <- !app_assoc.
      rewrite splice_all; [by rewrite <- !app_assoc |]. rewrite !length_app, K1, R1, S2, S3. done.
Qed.
End File.
End ExfatEdit.
