(* ===== verification/ExfatWrite.v ===== *)
(** exFAT writes (src/fs/exfat.rs): table entries, clusters, the sectors of a directory that
    a change touches, and file data in fresh contiguous clusters. *)

From Stdlib Require Import ZArith Lia.
From stdpp Require Import base list list_numbers numbers decidable tactics strings gmap sorting.
From S2P Require Import Prelude BlockDev FatNames Exfat ExfatDisk ExfatBitmap ExfatChain.
Import Blk FatNames Exfat ExfatDisk ExfatBitmap ExfatChain.

Module ExfatWrite.

Lemma splice_sector_ok b o src : sector_ok b -> Forall is_byte src -> (o + length src <= 512)%nat -> sector_ok (splice b o src).
Proof. intros [Hl Hb] Hs Ho. split; [by rewrite length_splice by lia | by apply splice_bytes]. Qed.

Lemma le32_splice_same b o x : (o + 4 <= length b)%nat -> 0 <= x < 2 ^ 32 -> le32 (splice b o (to_le_bytes 4 x)) o = x.
Proof.
  intros Ho Hx. unfold le32, splice. rewrite drop_app_length' by (rewrite length_take; lia).
  change 4%nat with (length (to_le_bytes 4 x)) at 1. rewrite take_app_length. by apply from_to_le_bytes.
Qed.
Lemma le32_splice_other b o o' src : (o + 4 <= o')%nat \/ (o' + 4 <= o)%nat -> length src = 4%nat -> (o + 4 <= length b)%nat -> (o' + 4 <= length b)%nat ->
  le32 (splice b o src) o' = le32 b o'.
Proof.
  intros Hd Hs Ho Ho'. rewrite !le32_bytes by (rewrite ?length_splice; lia). rewrite !byte_splice by lia.
  rewrite !decide_False by lia. done.
Qed.

(** Pieces of [k] bytes, the last ones filled up with zeros. *)
Lemma pieces_pad k n : forall data : list Z, (length data <= k * n)%nat ->
  mjoin (map (fun i => let d := take k (drop (k * i) data) in d ++ replicate (k - length d) 0) (seq 0 n)) = data ++ replicate (k * n - length data) 0.
Proof.
  induction n as [| n IH]; intros data Hl; [destruct data; [by rewrite Nat.mul_0_r | cbn in Hl; lia] |].
  cbn [seq map]. change (mjoin (?a :: ?b)) with (a ++ mjoin b). rewrite <- seq_shift, map_map.
  rewrite (map_ext _ (fun i => let d := take k (drop (k * i) (drop k data)) in d ++ replicate (k - length d) 0)).
  2: { intros i. rewrite drop_drop. by replace (k * S i)%nat with (k + k * i)%nat by lia. }
  rewrite IH by (rewrite length_drop; lia). cbn zeta. rewrite Nat.mul_0_r, drop_0, length_drop, length_take.
  destruct (decide (k <= length data)%nat) as [Hge | Hlt].
  - rewrite Nat.min_l, Nat.sub_diag by lia. change (replicate 0 0) with (@nil Z). rewrite app_nil_r, app_assoc, take_drop. do 2 f_equal. lia.
  - rewrite take_ge, drop_ge by lia. rewrite <- app_assoc. f_equal. rewrite app_nil_l, <- replicate_add. f_equal. lia.
Qed.

(** * The table *)

(** Entry [c] of the table became [x], nothing else changed. *)
Definition fat_set (v : Volume) (c x : Z) (m m' : medium) : Prop :=
  within (in_fat v) m m' /\ forall c', 0 <= c' < cluster_count v + 2 -> fat_at m' v c' = if decide (c' = c) then x else fat_at m v c'.

Section Table.
Context (env : nat -> response) (sure : Prop) (cap : Z) (v : Volume).
Hypothesis G : geometry v cap.
Abbreviation runs := (runs env sure cap).

Lemma fat_set_insert m c x : media_ok m -> 0 <= c < cluster_count v + 2 -> 0 <= x < 2 ^ 32 ->
  fat_set v c x m (<[fat_lba v + c * 4 / 512 := splice (sec m (fat_lba v + c * 4 / 512)) (Z.to_nat (c * 4 mod 512)) (to_le_bytes 4 x)]> m).
Proof.
  intros Hok Hc Hx. destruct (sector_of_ok m (fat_lba v + c * 4 / 512) Hok) as [Hl Hb].
  assert (forall c, 0 <= c -> (Z.to_nat (c * 4 mod 512) + 4 <= 512)%nat) as Hoff by (intros; zdiv). split.
  - apply within_insert; [by apply (fat_sector v cap G) |]. apply splice_sector_ok; [done | apply to_le_bytes_bytes |]. rewrite length_to_le_bytes. apply Hoff. lia.
  - intros c' Hc'. unfold fat_at. rewrite sector_of_insert. destruct (decide (c' = c)) as [-> | Hne].
    + rewrite decide_True by done. apply le32_splice_same; [rewrite Hl; apply Hoff; lia | done].
    + case_decide as El; [| done]. rewrite le32_splice_other; [by rewrite El | | done | rewrite Hl; apply Hoff; lia | rewrite Hl; apply Hoff; lia].
      zdiv.
Qed.
Lemma runs_fat_write c x mu (Q : bool -> medium -> Prop) E : media_ok mu -> 0 <= c < cluster_count v + 2 -> 0 <= x < 2 ^ 32 ->
  (forall mu', media_ok mu' -> fat_set v c x mu mu' -> Q true mu') -> (~ sure -> forall mu', media_ok mu' -> (mu' = mu \/ fat_set v c x mu mu') -> Q false mu') ->
  runs (fat_write env v c x) mu Q E.
Proof.
  intros Hok Hc Hx HT HF. unfold fat_write. cbn zeta. unfold SECTOR. pose proof (fat_sector v cap G c Hc) as Hin.
  pose proof (fat_set_insert mu c x Hok Hc Hx) as Hset. pose proof (proj1 (proj1 Hset) Hok) as Hok'.
  apply runs_bind, runs_read; [by apply (fat_fits v cap G) | |].
  - apply runs_write; [by apply (fat_fits v cap G) | | by apply HT |].
    + destruct (sector_of_ok mu (fat_lba v + c * 4 / 512) Hok) as [Hl _]. rewrite length_splice; [done |]. rewrite length_to_le_bytes, Hl. zdiv.
    + intros Hn. split; apply HF; auto.
  - intros Hn. apply runs_ret, HF; auto.
Qed.

(** * Clusters *)

Definition pad (data : list Z) : list Z := mjoin (map (padded data) (seqZ 0 (sectors_per_cluster v))).

Lemma padded_ok data s : Forall is_byte data -> sector_ok (padded data s).
Proof.
  intros Hd. unfold padded. cbn zeta. split.
  - rewrite length_app, length_replicate, length_take. lia.
  - apply Forall_app. split; [by apply Forall_take, Forall_drop |]. apply Forall_replicate. unfold is_byte. lia.
Qed.
Lemma padded_all n data : (length data <= 512 * n)%nat ->
  mjoin (map (padded data) (seqZ 0 (Z.of_nat n))) = data ++ replicate (512 * n - length data) 0.
Proof.
  intros Hl. rewrite <- pieces_pad by done. f_equal. unfold seqZ. change (?f <$> ?l) with (map f l). rewrite map_map, Nat2Z.id.
  apply map_ext. intros i. unfold padded. cbn zeta. replace (Z.to_nat ((Z.of_nat i + 0) * SECTOR)) with (512 * i)%nat by (unfold SECTOR; lia). done.
Qed.
Lemma pad_eq data : (length data <= Z.to_nat (cluster_bytes v))%nat -> pad data = data ++ replicate (Z.to_nat (cluster_bytes v) - length data) 0.
Proof.
  intros Hl. pose proof (ge_spc _ _ G) as Gs. unfold cluster_bytes, SECTOR in *. unfold pad. rewrite <- (Z2Nat.id (sectors_per_cluster v)) at 1 by lia.
  rewrite padded_all by lia. do 2 f_equal. lia.
Qed.
Lemma runs_write_cluster c data mu (Q : bool -> medium -> Prop) E : media_ok mu -> valid v c -> Forall is_byte data ->
  (forall mu', media_ok mu' -> within (in_cluster v c) mu mu' -> cdata mu' v c = pad data -> Q true mu') ->
  (~ sure -> forall mu', media_ok mu' -> within (in_cluster v c) mu mu' -> Q false mu') ->
  runs (write_cluster env v c data) mu Q E.
Proof.
  intros Hok Hc Hd HT HF. unfold write_cluster. pose proof (ge_spc _ _ G) as Gs.
  apply (runs_all_ok env sure cap _ _ (fun dn rest mu' => media_ok mu' /\ within (in_cluster v c) mu mu'
    /\ forall s, s ∈ dn -> sec mu' (cluster_lba v c + s) = padded data s)).
  - split; [done |]. split; [done |]. intros s Hs. by apply not_elem_of_nil in Hs.
  - intros mu' (A & B & C). apply HT; [done | done |]. unfold cdata, pad. f_equal.
    rewrite map_seqZ_shift. apply map_ext_in. intros s Hs%list_elem_of_In. by apply C.
  - intros dn s rest mu' Hl (A & B & C). assert (s ∈ seqZ 0 (sectors_per_cluster v)) as Hs%elem_of_seqZ by (rewrite Hl; set_solver).
    assert (in_cluster v c (cluster_lba v c + s)) as Hin by (unfold in_cluster; lia). pose proof (padded_ok data s Hd) as Hp.
    pose proof (cluster_fits v cap G c _ Hc Hin) as Hcap.
    assert (within (in_cluster v c) mu (<[cluster_lba v c + s := padded data s]> mu')) as W by (eapply within_trans; [done | by apply within_insert]).
    assert (media_ok (<[cluster_lba v c + s := padded data s]> mu')) as M by by apply media_ok_insert.
    apply runs_write; [lia | apply Hp | |].
    + split; [done |]. split; [done |]. intros s' Hs'. rewrite sector_of_insert. case_decide as Eq; [by replace s' with s by lia |].
      apply elem_of_app in Hs' as [Hs' | Hs']; [by apply C |]. apply list_elem_of_singleton in Hs'. lia.
    + intros Hn. split; by apply HF.
Qed.
Lemma runs_zero_cluster c mu (Q : bool -> medium -> Prop) E : media_ok mu -> valid v c ->
  (forall mu', media_ok mu' -> within (in_cluster v c) mu mu' -> cdata mu' v c = replicate (Z.to_nat (cluster_bytes v)) 0 -> Q true mu') ->
  (~ sure -> forall mu', media_ok mu' -> within (in_cluster v c) mu mu' -> Q false mu') ->
  runs (zero_cluster env v c) mu Q E.
Proof.
  intros Hok Hc HT HF. apply runs_write_cluster; [done | done | constructor | | done].
  intros mu' A B C. apply HT; [done | done |]. rewrite C, pad_eq by (cbn; lia). cbn. by rewrite Nat.sub_0_r.
Qed.
End Table.

(** * Directories *)

Lemma join_pieces {A} k n (data : list A) : mjoin (map (fun i => take k (drop (k * i) data)) (seq 0 n)) = take (k * n) data.
Proof.
  induction n as [| n IH]; [by rewrite Nat.mul_0_r, take_0 |]. rewrite seq_S, map_app, join_app, IH. cbn [map]. change (0 + n)%nat with n.
  change (mjoin [?x]) with (x ++ []). rewrite app_nil_r, take_take_drop. f_equal. lia.
Qed.

Section Store.
Context (env : nat -> response) (sure : Prop) (cap : Z) (v : Volume) (chain data : list Z) (start len : Z).
Hypothesis G : geometry v cap.
Hypothesis Hvalid : Forall (valid v) chain.
Hypothesis Hnodup : NoDup chain.
Hypothesis Hdata : length data = (length chain * Z.to_nat (cluster_bytes v))%nat /\ Forall is_byte data.
Hypothesis Hrange : 0 <= start /\ 1 <= len /\ start + len <= Z.of_nat (length data).
Abbreviation runs := (runs env sure cap).
Abbreviation spc := (sectors_per_cluster v).

(** Sector [j] of the directory: where it is, and what it should hold. *)
Definition lba_at (j : Z) : Z := cluster_lba v (chain !!! Z.to_nat (j / spc)) + j mod spc.
Definition dsec (j : Z) : list Z := take 512 (drop (Z.to_nat (512 * j)) data).
Definition index (j : Z) : Prop := 0 <= j < Z.of_nat (length chain) * spc.
Definition touched_sector (j : Z) : Prop := start < (j + 1) * 512 /\ j * 512 < start + len.
Definition in_chain (l : Z) : Prop := exists c, c ∈ chain /\ in_cluster v c l.

Lemma index_split j : index j -> 0 <= j / spc < Z.of_nat (length chain) /\ 0 <= j mod spc < spc /\ j = spc * (j / spc) + j mod spc.
Proof using G.
  clear Hdata Hrange.
  pose proof (ge_spc _ _ G) as Gs. intros Hj. unfold index in Hj. split; [split; [apply Z.div_pos; lia | apply Z.div_lt_upper_bound; nia] |].
  split; [apply Z.mod_pos_bound; lia | apply Z.div_mod; lia].
Qed.
Lemma index_of ci s : 0 <= ci < Z.of_nat (length chain) -> 0 <= s < spc -> index (ci * spc + s) /\ (ci * spc + s) / spc = ci /\ (ci * spc + s) mod spc = s.
Proof using G.
  clear Hdata Hrange.
  intros Hc Hs. split; [unfold index; nia |]. rewrite Z.add_comm, Z.div_add, Z.mod_add, Z.div_small, Z.mod_small by lia. lia.
Qed.
Lemma chain_lookup i : 0 <= i < Z.of_nat (length chain) -> chain !! Z.to_nat i = Some (chain !!! Z.to_nat i).
Proof using. clear Hdata Hrange. intros Hi. apply list_lookup_lookup_total_lt. lia. Qed.
Lemma lba_in j : index j -> in_chain (lba_at j) /\ in_cluster v (chain !!! Z.to_nat (j / spc)) (lba_at j) /\ lba_at j < cap.
Proof.
  intros Hj. destruct (index_split j Hj) as (H1 & H2 & H3). pose proof (chain_lookup _ H1) as Hl. set (c := chain !!! Z.to_nat (j / spc)) in *.
  assert (in_cluster v c (lba_at j)) as Hin by (unfold in_cluster, lba_at; fold c; lia).
  assert (c ∈ chain) as Hc by by eapply list_elem_of_lookup_2. split; [by exists c |]. split; [done |].
  apply (cluster_fits v cap G c _ (Forall_elem _ _ _ Hvalid Hc) Hin).
Qed.
Lemma lba_inj j j' : index j -> index j' -> lba_at j = lba_at j' -> j = j'.
Proof.
  intros Hj Hj' E. destruct (lba_in j Hj) as (_ & I1 & _). destruct (lba_in j' Hj') as (_ & I2 & _). rewrite <- E in I2.
  pose proof (cluster_apart v cap G _ _ _ I1 I2) as Ec. destruct (index_split j Hj) as (A1 & A2 & A3). destruct (index_split j' Hj') as (B1 & B2 & B3).
  assert (j / spc = j' / spc) as Eq.
  { assert (Z.to_nat (j / spc) = Z.to_nat (j' / spc)); [| lia]. eapply (NoDup_lookup chain); [done | by apply chain_lookup |]. rewrite Ec. by apply chain_lookup. }
  unfold lba_at in E. rewrite Eq in E. rewrite A3, B3, Eq. lia.
Qed.
Lemma dsec_ok j : index j -> sector_ok (dsec j).
Proof.
  intros Hj. destruct Hdata as [Hl Hb]. pose proof (ge_spc _ _ G) as Gs. unfold dsec. split; [| by apply Forall_take, Forall_drop].
  rewrite length_take, length_drop, Hl. unfold cluster_bytes, SECTOR, index in *. nia.
Qed.

Definition right (mu : medium) (j : Z) : Prop := sec mu (lba_at j) = dsec j.
Lemma right_insert mu j j' : index j -> index j' -> right (<[lba_at j := dsec j]> mu) j' <-> j' = j \/ right mu j'.
Proof.
  intros Hj Hj'. unfold right. rewrite sector_of_insert. case_decide as E.
  - apply lba_inj in E as ->; [| done | done]. split; [by left | done].
  - split; [by right |]. intros [-> | ?]; done.
Qed.
Lemma all_right mu : (forall j, index j -> right mu j) -> chain_data mu v chain = data.
Proof.
  intros H. destruct Hdata as [Hl _]. pose proof (ge_spc _ _ G) as Gs. set (cb := Z.to_nat (cluster_bytes v)) in *.
  assert (map (cdata mu v) chain = map (fun i => take cb (drop (cb * i) data)) (seq 0 (length chain))) as E.
  { apply list_eq. intros i. change (map ?f ?l) with (f <$> l). rewrite !list_lookup_fmap. destruct (decide (i < length chain)%nat) as [Hi | Hi].
    2: { by rewrite !lookup_ge_None_2 by (rewrite ?length_seq; lia). }
    rewrite lookup_seq_lt, (list_lookup_lookup_total_lt chain i) by done. cbn [fmap option_fmap option_map]. change (0 + i)%nat with i. f_equal. unfold cdata.
    unfold seqZ. change (?f <$> ?l) with (map f l). rewrite map_map.
    replace cb with (512 * Z.to_nat spc)%nat by (unfold cb, cluster_bytes, SECTOR; lia). rewrite <- join_pieces. f_equal.
    apply map_ext_in. intros s Hs%list_elem_of_In%elem_of_seq. rewrite drop_drop.
    destruct (index_of (Z.of_nat i) (Z.of_nat s)) as (Hj & E1 & E2); [lia | lia |]. specialize (H _ Hj). unfold right, lba_at, dsec in H.
    rewrite E1, E2, Nat2Z.id in H. rewrite (Z.add_comm (Z.of_nat s)), H. do 2 f_equal. lia. }
  unfold chain_data. rewrite E, join_pieces, take_ge by lia. done.
Qed.

(** One cluster of the directory: sectors [fs .. ls] are written, others are as they were. *)
Abbreviation cb := (cluster_bytes v).
Definition first_sec (ci : Z) : Z := (Z.max start (ci * cb) - ci * cb) / SECTOR.
Definition last_sec (ci : Z) : Z := (Z.min (start + len) (ci * cb + cb) - 1 - ci * cb) / SECTOR.
Definition store_cluster (ci cluster : Z) : X bool :=
  all_ok (seqZ (first_sec ci) (last_sec ci - first_sec ci + 1)) (fun s =>
    buf ← lift (sector_at data (ci * cb + s * SECTOR)); write_sector env (cluster_lba v cluster + s) buf).

Lemma touched_in_cluster j : index j -> touched_sector j -> first_sec (j / spc) <= j mod spc <= last_sec (j / spc).
Proof.
  intros Hj [T1 T2]. pose proof (ge_spc _ _ G) as Gs. destruct (index_split j Hj) as (J1 & J2 & J3). assert (cb = spc * 512) as Ecb by done.
  set (ci := j / spc) in *. set (r := j mod spc) in *.
  assert (first_sec ci < r + 1) by (unfold first_sec, SECTOR; apply Z.div_lt_upper_bound; nia).
  assert (r <= last_sec ci) by (unfold last_sec, SECTOR; apply Z.div_le_lower_bound; nia). lia.
Qed.
Lemma touched_cluster j : touched_sector j -> start / cb <= j / spc <= (start + len - 1) / cb.
Proof.
  intros [T1 T2]. pose proof (ge_spc _ _ G) as Gs. change cb with (spc * 512). rewrite (Z.mul_comm spc), <- !Z.div_div by lia.
  split; apply Z.div_le_mono; zdiv.
Qed.
Lemma sectors_of_cluster ci s : 0 <= ci -> first_sec ci <= s <= last_sec ci -> 0 <= s < spc.
Proof.
  intros Hci Hs. pose proof (ge_spc _ _ G) as Gs. assert (cb = spc * 512) as Ecb by done.
  assert (0 <= first_sec ci) by (unfold first_sec, SECTOR; apply Z.div_pos; lia).
  assert (last_sec ci < spc) by (unfold last_sec, SECTOR; apply Z.div_lt_upper_bound; lia). lia.
Qed.

(** After cluster [ci]: what was right stays right, and its touched sectors are. *)
Lemma runs_store_cluster ci mu0 mu (Q : bool -> medium -> Prop) E : 0 <= ci < Z.of_nat (length chain) -> media_ok mu -> within in_chain mu0 mu ->
  (forall mu', media_ok mu' -> within in_chain mu0 mu' -> (forall j, index j -> right mu j -> right mu' j) ->
     (forall j, index j -> j / spc = ci -> touched_sector j -> right mu' j) -> Q true mu') ->
  (~ sure -> forall mu', media_ok mu' -> within in_chain mu0 mu' -> Q false mu') ->
  runs (store_cluster ci (chain !!! Z.to_nat ci)) mu Q E.
Proof.
  intros Hi Hok Hw HT HF. destruct Hdata as [Hl Hb]. pose proof (ge_spc _ _ G) as Gs.
  apply (runs_all_ok env sure cap _ _ (fun dns _ mu' => media_ok mu' /\ within in_chain mu0 mu'
    /\ forall j, index j -> right mu j \/ (j / spc = ci /\ j mod spc ∈ dns) -> right mu' j)).
  - split; [done |]. split; [done |]. intros j Hj [? | [_ Hn]]; [done | by apply not_elem_of_nil in Hn].
  - intros mu' (A & B & C). apply HT; [done | done | by auto |]. intros j Hj Eci Ht. apply C; [done |]. right. split; [done |].
    pose proof (touched_in_cluster j Hj Ht) as Hs. rewrite Eci in Hs. apply elem_of_seqZ. lia.
  - intros dns s rests mu2 Hsplit (A & B & C).
    assert (s ∈ seqZ (first_sec ci) (last_sec ci - first_sec ci + 1)) as Hs%elem_of_seqZ by (rewrite Hsplit; set_solver).
    destruct (index_of ci s Hi (sectors_of_cluster ci s (proj1 Hi) ltac:(lia))) as (Hj & E1 & E2). set (j := ci * spc + s) in *.
    destruct (lba_in j Hj) as (L1 & L2 & L3). pose proof (dsec_ok j Hj) as Hd.
    apply runs_bind, runs_lift. unfold sector_at, SECTOR. replace (ci * cb + s * 512) with (512 * j) by (unfold j, cluster_bytes, SECTOR; lia).
    assert ((0 <=? 512 * j) && (512 * j + 512 <=? Z.of_nat (length data)) = true) as ->.
    { rewrite Hl. unfold index, cluster_bytes, SECTOR in *. apply andb_true_iff. split; apply Z.leb_le; nia. }
    fold (dsec j). replace (cluster_lba v (chain !!! Z.to_nat ci) + s) with (lba_at j) by (unfold lba_at; by rewrite E1, E2).
    assert (within in_chain mu0 (<[lba_at j := dsec j]> mu2)) as W by (eapply within_trans; [done | by apply within_insert]).
    assert (media_ok (<[lba_at j := dsec j]> mu2)) as M by by apply media_ok_insert.
    apply runs_write; [done | apply Hd | |].
    + split; [done |]. split; [done |]. intros j' Hj' Hor. apply right_insert; [done | done |].
      destruct (decide (j' = j)) as [| Hne]; [by left | right]. apply C; [done |]. destruct Hor as [? | [Eq Hin]]; [by left |].
      apply elem_of_app in Hin as [? | Hin%list_elem_of_singleton]; [by right |]. exfalso. apply Hne.
      destruct (index_split j' Hj') as (_ & _ & ->). rewrite Eq, Hin. unfold j. lia.
    + intros Hn. split; by apply HF.
Qed.

(** Every sector of [data] that the range touches reaches the disk, and no other. *)
Lemma runs_store_dir_range mu (Q : bool -> medium -> Prop) E : media_ok mu ->
  (forall j, index j -> ~ touched_sector j -> right mu j) ->
  (forall mu', media_ok mu' -> within in_chain mu mu' -> chain_data mu' v chain = data -> Q true mu') ->
  (~ sure -> forall mu', media_ok mu' -> within in_chain mu mu' -> Q false mu') ->
  runs (store_dir_range env v chain data start len) mu Q E.
Proof.
  intros Hok Hold HT HF. pose proof (ge_spc _ _ G) as Gs. destruct Hrange as (R1 & R2 & R3). destruct Hdata as [Hl Hb].
  unfold store_dir_range. cbn zeta. assert (cb = spc * 512) as Ecb by done. rewrite Hl, Nat2Z.inj_mul, Z2Nat.id in R3 by lia.
  assert (0 <= start / cb /\ (start + len - 1) / cb < Z.of_nat (length chain)) as [F1 F2].
  { split; [apply Z.div_pos; lia | apply Z.div_lt_upper_bound; lia]. }
  apply (runs_all_ok env sure cap _ _ (fun dn _ mu' => media_ok mu' /\ within in_chain mu mu'
    /\ forall j, index j -> ~ touched_sector j \/ j / spc ∈ dn -> right mu' j)).
  - split; [done |]. split; [done |]. intros j Hj [? | Hn]; [by apply Hold | by apply not_elem_of_nil in Hn].
  - intros mu' (A & B & C). apply HT; [done | done |]. apply all_right. intros j Hj. apply C; [done |].
    assert (Decision (touched_sector j)) as [Ht | ?] by (unfold touched_sector; apply _); [| by left].
    right. apply elem_of_seqZ. pose proof (touched_cluster j Ht). lia.
  - intros dn ci rest mu1 Hsplit (A & B & C).
    assert (ci ∈ seqZ (start / cb) ((start + len - 1) / cb - start / cb + 1)) as Hci%elem_of_seqZ by (rewrite Hsplit; set_solver).
    assert (0 <= ci < Z.of_nat (length chain)) as Hi by lia. apply runs_bind, runs_lift. rewrite (chain_lookup ci Hi). cbn [unwrap].
    fold (first_sec ci) (last_sec ci). fold (store_cluster ci (chain !!! Z.to_nat ci)).
    apply (runs_store_cluster ci mu); [done | done | done | | done].
    intros mu' A' B' K1 K2. split; [done |]. split; [done |]. intros j Hj Hor.
    assert (Decision (touched_sector j)) as [Ht | ?] by (unfold touched_sector; apply _); [| by apply K1; auto].
    destruct Hor as [? | [? | Hin%list_elem_of_singleton]%elem_of_app]; [done | by apply K1; auto | by apply K2].
Qed.
End Store.

(** * Clusters in use *)

Definition used (m : medium) (v : Volume) (c : Z) : bool := bit m v (c - 2).
(** The clusters [cs], and no others, were marked [b]. *)
Definition marks (v : Volume) (b : bool) (cs : list Z) (m m' : medium) : Prop :=
  forall c, valid v c -> used m' v c = if decide (c ∈ cs) then b else used m v c.
(** The bitmap's own clusters are in use. *)
Definition self_used (m : medium) (v : Volume) : Prop := forall c, bitmap_own v c -> used m v c = true.
(** All that changed is the data, the table entry and the bit of clusters in [cs]. *)
Record confined (v : Volume) (cs : list Z) (m m' : medium) : Prop := {
  co_ok : media_ok m';
  co_within : within (fun l => in_bitmap v l \/ in_fat v l \/ exists c, c ∈ cs /\ in_cluster v c l) m m';
  co_rest : forall c, valid v c -> (c ∉ cs) -> used m' v c = used m v c /\ fat_at m' v c = fat_at m v c }.

Section Space.
Context (env : nat -> response) (sure : Prop) (cap : Z) (v : Volume).
Hypothesis G : geometry v cap.
Abbreviation runs := (runs env sure cap).

Lemma exactly_marks b cs m m' : exactly v b cs m m' -> marks v b cs m m'.
Proof. intros H c Hc. unfold used. rewrite (H (c - 2)) by (unfold valid in Hc; lia). by rewrite Z.sub_add. Qed.
Lemma partly_used b cs m m' c : partly v b cs m m' -> valid v c -> used m' v c = used m v c \/ (c ∈ cs /\ used m' v c = b).
Proof. intros H Hc. unfold used. pose proof (H (c - 2)) as Hk. rewrite Z.sub_add in Hk. apply Hk. unfold valid in Hc. lia. Qed.
Lemma used_frame m m' c : valid v c -> (forall l, in_bitmap v l -> sec m' l = sec m l) -> used m' v c = used m v c.
Proof. intros Hc H. unfold used, bit. rewrite H; [done |]. unfold in_bitmap, bitmap_sectors, valid in *. zdiv. Qed.
(** Writing clusters does not change the bitmap. *)
Lemma used_within m m' c (P : Z -> Prop) : within P m m' -> (forall l, P l -> ~ in_bitmap v l) -> valid v c -> used m' v c = used m v c.
Proof. intros [_ H] HP Hc. apply used_frame; [done |]. intros l Hl. apply H. intros Hp. by apply (HP l). Qed.

Lemma confined_refl cs m : media_ok m -> confined v cs m m.
Proof. intros H. by constructor. Qed.
Lemma confined_trans cs m m1 m2 : confined v cs m m1 -> confined v cs m1 m2 -> confined v cs m m2.
Proof.
  intros [A1 A2 A3] [B1 B2 B3]. constructor; [done | by eapply within_trans |]. intros c Hc Hn.
  destruct (A3 c Hc Hn) as [<- <-]. by apply B3.
Qed.
Lemma confined_mono cs cs' m m' : confined v cs m m' -> (forall c, c ∈ cs -> c ∈ cs') -> confined v cs' m m'.
Proof.
  intros [A1 A2 A3] H. constructor; [done | |].
  - eapply within_mono; [done |]. intros l [? | [? | (c & Hc & Hl)]]; eauto 6.
  - intros c Hc Hn. apply A3; [done |]. by intros ?%H.
Qed.
Lemma confined_bits b cs m m' : media_ok m' -> only_bits v m m' -> partly v b cs m m' -> confined v cs m m'.
Proof.
  intros Hok Ho Hp. constructor; [done | eapply within_mono; [done |]; by left |]. intros c Hc Hn. split.
  - destruct (partly_used _ _ _ _ _ Hp Hc) as [-> | [? _]]; done.
  - apply fat_at_frame, Ho. intros Hb. eapply (bitmap_no_fat v cap G); [done |]. apply (fat_sector v cap G). unfold valid in Hc. lia.
Qed.
Lemma confined_exact b cs m m' : media_ok m' -> only_bits v m m' -> exactly v b cs m m' -> confined v cs m m'.
Proof. intros Hok Ho Hx. eapply confined_bits; [done | done | by apply exactly_partly]. Qed.
Lemma confined_cluster c cs m m' : media_ok m' -> valid v c -> ~ bitmap_own v c -> c ∈ cs -> within (in_cluster v c) m m' -> confined v cs m m'.
Proof.
  intros Hok Hc Hown Hin Hw. constructor; [done | eapply within_mono; [done |]; by eauto |]. intros x Hx Hn. split.
  - eapply used_within; [done | | done]. intros l Hl. by apply (bitmap_no_cluster v cap G c).
  - apply fat_at_frame, Hw. intros Hl. apply (fat_no_cluster v cap G c _ Hc Hl). apply (fat_sector v cap G). unfold valid in Hx. lia.
Qed.
Lemma confined_fat c x cs m m' : media_ok m' -> c ∈ cs -> fat_set v c x m m' -> confined v cs m m'.
Proof.
  intros Hok Hin [Hw Hf]. constructor; [done | eapply within_mono; [done |]; by auto |]. intros y Hy Hn. split.
  - eapply used_within; [done | | done]. intros l Hl Hb. by apply (bitmap_no_fat v cap G l).
  - rewrite Hf by (unfold valid in Hy; lia). rewrite decide_False; [done |]. by intros ->.
Qed.
(** What lies in other clusters is as it was. *)
Lemma confined_data cs m m' c : confined v cs m m' -> valid v c -> ~ bitmap_own v c -> (c ∉ cs) -> cdata m' v c = cdata m v c.
Proof.
  intros [A1 A2 A3] Hc Hown Hn. apply cdata_frame. intros l Hl. apply A2. intros [Hb | [Hf | (c' & Hc' & Hl')]].
  - by apply (bitmap_no_cluster v cap G c l).
  - by apply (fat_no_cluster v cap G c l).
  - apply Hn. by rewrite (cluster_apart v cap G c c' l).
Qed.
Lemma confined_chain cs m m' first nfc len : confined v cs m m' -> fits v first nfc len ->
  (forall c, c ∈ chain_of m v first nfc len -> ~ bitmap_own v c /\ (c ∉ cs)) ->
  chain_of m' v first nfc len = chain_of m v first nfc len
  /\ chain_data m' v (chain_of m v first nfc len) = chain_data m v (chain_of m v first nfc len).
Proof.
  intros Hc Hf Hn. pose proof (chain_of_valid m v first nfc len Hf) as Hv. split.
  - apply chain_of_frame. intros c Hin. apply (co_rest _ _ _ _ Hc); [by eapply Forall_elem | by apply Hn].
  - unfold chain_data. f_equal. apply map_ext_in. intros c Hin%list_elem_of_In. destruct (Hn c Hin). eapply confined_data; [done | by eapply Forall_elem | done | done].
Qed.

(** ** Freeing *)

Lemma runs_bitmap_free cs mu (Q : bool -> medium -> Prop) E : media_ok mu -> Forall (valid v) cs ->
  (forall ok mu', confined v cs mu mu' -> (marks v false cs mu mu' \/ ~ sure) -> (ok = false -> ~ sure) -> within (in_bitmap v) mu mu' -> Q ok mu') ->
  runs (bitmap_set env v cs false) mu Q E.
Proof.
  intros Hok Hv HQ. eapply runs_bitmap_set; [exact G | done | done | |].
  - intros mu' A B C. apply HQ; [by eapply confined_bits, exactly_partly | left; by apply exactly_marks | done | done].
  - intros Hn mu' A B C. apply HQ; [by eapply confined_bits | by right | done | done].
Qed.

Lemma used_fat c x m m' y : fat_set v c x m m' -> valid v y -> used m' v y = used m v y.
Proof. intros [W _] Hy. eapply used_within; [done | | done]. intros l Hl Hb. by apply (bitmap_no_fat v cap G l). Qed.
Lemma data_fat c x m m' y : fat_set v c x m m' -> valid v y -> cdata m' v y = cdata m v y.
Proof. intros [W _] Hy. apply cdata_frame. intros l Hl. apply W. by apply (fat_no_cluster v cap G y). Qed.

(** One cluster is given back, its table entry first. *)
Lemma runs_release {A} c (k : X A) mu (Q : A -> medium -> Prop) E : media_ok mu -> valid v c ->
  (forall mu', confined v [c] mu mu' -> (marks v false [c] mu mu' \/ ~ sure) -> runs k mu' Q E) ->
  runs (_ ← fat_write env v c 0; _ ← bitmap_set env v [c] false; k) mu Q E.
Proof.
  intros Hok Hc Hk. assert (c ∈ [c]) as Hin by by left.
  assert (forall mu1, confined v [c] mu mu1 -> (forall y, valid v y -> used mu1 v y = used mu v y) -> runs (_ ← bitmap_set env v [c] false; k) mu1 Q E) as Hset.
  { intros mu1 C1 U1. apply runs_bind, runs_bitmap_free; [apply C1 | by apply Forall_singleton |]. intros ok mu2 C2 M2 _ _.
    apply Hk; [by eapply confined_trans |]. destruct M2 as [M2 | ?]; [left | by right]. intros y Hy. rewrite <- (U1 y Hy). by apply M2. }
  apply runs_bind. eapply runs_fat_write; [exact G | done | unfold valid in Hc; lia | lia | |].
  - intros mu1 O1 F1. apply Hset; [by eapply confined_fat | intros y; by eapply used_fat].
  - intros _ mu1 O1 [-> | F1]; (apply Hset; [| intros y; try by eapply used_fat]); [by apply confined_refl | done | by eapply confined_fat].
Qed.

(** Everything a chain held is given back, and nothing else. *)
Lemma runs_free_clusters first nfc len mu (Q : unit -> medium -> Prop) E : media_ok mu -> fits v first nfc len ->
  (forall mu', confined v (chain_of mu v first nfc len) mu mu' -> (marks v false (chain_of mu v first nfc len) mu mu' \/ ~ sure) -> Q tt mu') ->
  runs (free_clusters env v first nfc len) mu Q E.
Proof.
  intros Hok Hf HQ. unfold free_clusters. pose proof (chain_of_valid mu v first nfc len Hf) as Hv.
  apply runs_bind. eapply runs_collect_chain; [exact G | done | |].
  - set (chain := chain_of mu v first nfc len) in *. destruct chain as [| c0 chain'] eqn:Ec.
    { apply runs_ret, HQ; [by apply confined_refl |]. left. intros c _. by rewrite decide_False by apply not_elem_of_nil. }
    rewrite <- Ec in *. apply runs_bind, runs_bitmap_free; [done | done |]. intros ok mu1 C1 M1 _ _.
    destruct (negb nfc); [| by apply runs_ret, HQ].
    apply (runs_for_each env sure cap _ _ (fun _ _ mu' => confined v chain mu mu' /\ (marks v false chain mu mu' \/ ~ sure))); [done | |].
    + by intros mu' []; apply HQ.
    + intros dn c rest mu' Hl [C2 M2]. assert (c ∈ chain) as Hin by (rewrite Hl; set_solver). pose proof (Forall_elem _ _ _ Hv Hin) as Hc.
      assert (forall mu2, media_ok mu2 -> fat_set v c 0 mu' mu2 -> confined v chain mu mu2 /\ (marks v false chain mu mu2 \/ ~ sure)) as Hset.
      { intros mu2 A B. split; [eapply confined_trans; [done | by eapply confined_fat] |]. destruct M2 as [M2 | ?]; [left | by right].
        intros x Hx. rewrite <- (M2 x Hx). eapply used_within; [apply B | | done]. intros l Hl' Hb. by apply (bitmap_no_fat v cap G l). }
      apply runs_bind. eapply runs_fat_write; [exact G | apply (co_ok _ _ _ _ C2) | unfold valid in Hc; lia | lia | |].
      * intros mu2 A B. apply runs_ret. by apply Hset.
      * intros Hn mu2 A [-> | B]; apply runs_ret; [done | by apply Hset].
  - intros Hn. apply runs_ret, HQ; [by apply confined_refl | by right].
Qed.

(** ** File data in fresh clusters *)

Definition nfc_of (data : list Z) : bool := negb (bool_decide (data = [])).
Definition chain_for (m : medium) (first : Z) (data : list Z) : list Z := chain_of m v first (nfc_of data) (Z.of_nat (length data)).
(** [data] was put into clusters that were free. *)
Record stored_at (data : list Z) (first : Z) (m m' : medium) : Prop := {
  sa_first : 0 <= first < 2 ^ 32 /\ (data = [] -> first = 0);
  sa_fits : fits v first (nfc_of data) (Z.of_nat (length data));
  sa_free : forall c, c ∈ chain_for m first data -> used m v c = false;
  sa_nodup : NoDup (chain_for m first data);
  sa_conf : confined v (chain_for m first data) m m';
  sa_marks : marks v true (chain_for m first data) m m';
  sa_data : take (length data) (chain_data m' v (chain_for m first data)) = data;
  sa_room : (length data <= length (chain_for m first data) * Z.to_nat (cluster_bytes v))%nat }.

Lemma cluster_bytes_range : 512 <= cluster_bytes v <= 2 ^ 40.
Proof. pose proof (ge_spc _ _ G). unfold cluster_bytes, SECTOR. lia. Qed.

Section Data.
Context (data : list Z) (mu : medium).
Hypothesis Hdata : Forall is_byte data /\ Z.of_nat (length data) < 2 ^ 63.
Hypothesis Hok : media_ok mu.
Hypothesis Hself : self_used mu v.
Abbreviation len := (Z.of_nat (length data)).
Abbreviation n := ((len + cluster_bytes v - 1) / cluster_bytes v).

(** The clusters that [data] needs. *)
Lemma clusters_needed : data <> [] -> 1 <= n /\ len <= n * cluster_bytes v /\ (n - 1) * cluster_bytes v < len.
Proof.
  intros Hne. pose proof cluster_bytes_range as Hb. assert (0 < len) by (destruct data; cbn in *; [done | lia]).
  pose proof (Z.div_mod (len + cluster_bytes v - 1) (cluster_bytes v) ltac:(lia)). pose proof (Z.mod_pos_bound (len + cluster_bytes v - 1) (cluster_bytes v) ltac:(lia)).
  set (q := (len + cluster_bytes v - 1) / cluster_bytes v) in *. nia.
Qed.
Lemma run_fits first : data <> [] -> first_fit mu v n (first - 2) ->
  clusters_for v len = n /\ fits v first true len /\ chain_for mu first data = seqZ first n /\ Forall (fun c => valid v c /\ used mu v c = false) (seqZ first n).
Proof.
  intros Hne (F1 & F2 & F3 & _). destruct (clusters_needed Hne) as (N1 & N2 & N3). pose proof (ge_count _ _ G). pose proof cluster_bytes_range.
  assert (clusters_for v len = n) as En by (unfold clusters_for; apply Z.mod_small; lia). split; [done |]. split; [| split].
  - intros _. rewrite En. unfold valid. split; [lia |]. intros _. lia.
  - unfold chain_for, nfc_of, chain_of. rewrite bool_decide_eq_false_2 by done. cbn [negb]. rewrite (proj2 (Z.ltb_ge first 2)), En by lia. done.
  - apply Forall_forall. intros c Hc%elem_of_seqZ. unfold valid. split; [lia |]. apply F3. lia.
Qed.

(** [i] of the clusters hold their part of [data]. *)
Definition chunk_of (i : Z) : list Z := take (Z.to_nat (cluster_bytes v)) (drop (Z.to_nat (i * cluster_bytes v)) data).
Lemma chunks_join first m : data <> [] -> (forall i, 0 <= i < n -> cdata m v (first + i) = pad v (chunk_of i)) ->
  take (length data) (chain_data m v (seqZ first n)) = data.
Proof.
  intros Hne H. destruct (clusters_needed Hne) as (N1 & N2 & N3). pose proof cluster_bytes_range as Hb. unfold chain_data.
  rewrite map_seqZ_shift. rewrite (map_ext_in _ (fun i => pad v (chunk_of i))).
  2: { intros i Hi%list_elem_of_In%elem_of_seqZ. apply H. lia. }
  assert (mjoin (map (fun i => pad v (chunk_of i)) (seqZ 0 n)) = data ++ replicate (Z.to_nat (cluster_bytes v) * Z.to_nat n - length data) 0) as ->.
  { rewrite <- pieces_pad by nia. f_equal. unfold seqZ. change (?f <$> ?l) with (map f l). rewrite map_map. apply map_ext. intros i.
    rewrite (pad_eq cap) by (done || (unfold chunk_of; rewrite length_take; lia)). unfold chunk_of. cbn zeta.
    by replace (Z.to_nat ((Z.of_nat i + 0) * cluster_bytes v)) with (Z.to_nat (cluster_bytes v) * i)%nat by nia. }
  by rewrite take_app_length.
Qed.

Lemma runs_rollback first mu1 (Q : unit -> medium -> Prop) E : data <> [] -> first_fit mu v n (first - 2) ->
  confined v (seqZ first n) mu mu1 ->
  (forall mu', confined v (seqZ first n) mu mu' -> (marks v false (seqZ first n) mu1 mu' \/ ~ sure) -> Q tt mu') ->
  runs (rollback_contiguous env v first len) mu1 Q E.
Proof.
  intros Hne Hff C1 HQ. destruct (run_fits first Hne Hff) as (En & Hfits & Hch & _). destruct (clusters_needed Hne) as (N1 & _ & _).
  pose proof Hff as (F1 & _). unfold rollback_contiguous.
  assert (0 < len) as Hlen by (destruct data; cbn in *; [done | lia]). rewrite (proj2 (Z.leb_le 2 first)), (proj2 (Z.ltb_lt 0 len)) by lia. cbn [andb].
  apply runs_free_clusters; [apply C1 | done |].
  assert (chain_of mu1 v first true len = seqZ first n) as -> by (unfold chain_of; by rewrite (proj2 (Z.ltb_ge first 2)), En by lia).
  intros mu' C2 M2. apply HQ; [by eapply confined_trans | done].
Qed.

Lemma runs_write_data (Q : Z -> medium -> Prop) (E : string -> medium -> Prop) :
  (forall first mu', stored_at data first mu mu' -> Q first mu') ->
  ((no_fit mu v n /\ data <> []) \/ ~ sure -> E "no contiguous space"%string mu) ->
  (~ sure -> forall e first mu', data <> [] -> first_fit mu v n (first - 2) -> confined v (seqZ first n) mu mu' -> E e mu') ->
  runs (write_data_contiguous env v data) mu Q E.
Proof.
  intros HQ HE1 HE2. unfold write_data_contiguous. destruct (bool_decide_reflect (data = [])) as [He | Hne].
  { apply runs_ret, HQ. assert (chain_for mu 0 data = []) as Hch by done. constructor; rewrite ?Hch; [done | intros Hx; lia | | apply NoDup_nil_2 | by apply confined_refl | | by rewrite He | by rewrite He].
    - intros c Hc. by apply not_elem_of_nil in Hc.
    - intros c Hc. by rewrite decide_False by apply not_elem_of_nil. }
  cbn zeta. destruct (clusters_needed Hne) as (N1 & N2 & N3). apply runs_bind. eapply runs_bitmap_alloc; [exact G | done | done | | |].
  2: { intros Hor. apply runs_bind, runs_lift. apply HE1. destruct Hor; auto. }
  2: { intros Hn mu' first Hff A B C. apply runs_bind, runs_lift. eapply HE2; [done | done | done | by eapply confined_bits]. }
  intros mu1 first Hff A B C. apply runs_bind, runs_lift. cbn [ok_or]. destruct (run_fits first Hne Hff) as (En & Hfits & Hch & Hfree).
  set (cs := seqZ first n) in *. pose proof Hff as (F1 & F2 & _). pose proof (ge_count _ _ G) as Gc.
  assert (forall c, c ∈ cs -> valid v c /\ used mu v c = false /\ ~ bitmap_own v c) as Hcs.
  { intros c Hc. destruct (Forall_elem _ _ _ Hfree Hc) as [Hv Hu]. split; [done |]. split; [done |]. intros Ho. by rewrite (Hself c Ho) in Hu. }
  apply runs_bind, (runs_for_each env sure cap _ _ (fun dn _ mu' => confined v cs mu mu' /\ marks v true cs mu mu'
    /\ forall i, i ∈ dn -> cdata mu' v (first + i) = pad v (chunk_of i))).
  - split; [by eapply confined_bits, exactly_partly |]. split; [by apply exactly_marks |]. intros i Hi. by apply not_elem_of_nil in Hi.
  - intros mu' (C1 & M1 & D1). apply runs_ret, HQ. constructor; rewrite ?Hch; [split; [lia | done] | | | apply NoDup_seqZ | done | done | |].
    + unfold nfc_of. by rewrite bool_decide_eq_false_2.
    + intros c Hc. by apply Hcs.
    + apply chunks_join; [done |]. intros i Hi. apply D1, elem_of_seqZ. lia.
    + unfold cs. rewrite length_seqZ. nia.
  - intros dn i rest mu2 Hl (C1 & M1 & D1). assert (i ∈ seqZ 0 n) as Hi%elem_of_seqZ by (rewrite Hl; set_solver).
    assert (first + i ∈ cs) as Hin by (apply elem_of_seqZ; lia). destruct (Hcs _ Hin) as (Hv & Hu & Ho). fold (chunk_of i).
    assert (forall l, in_cluster v (first + i) l -> ~ in_bitmap v l) as Hnb by (intros l; by apply (bitmap_no_cluster v cap G)).
    apply runs_bind. eapply runs_write_cluster; [exact G | apply C1 | done | by apply Forall_take, Forall_drop, Hdata | |].
    + intros mu3 A3 W3 D3. apply runs_ret. split; [eapply confined_trans; [done | by eapply confined_cluster] |]. split.
      * intros c Hc. rewrite <- (M1 c Hc). by eapply used_within.
      * intros i' [Hi' | ->%list_elem_of_singleton]%elem_of_app; [| done]. destruct (decide (i' = i)) as [-> | Hne']; [done |]. rewrite <- (D1 i' Hi').
        apply cdata_frame. intros l Hl'. apply W3. intros Hl2. pose proof (cluster_apart v cap G _ _ l Hl' Hl2). lia.
    + intros Hn mu3 A3 W3. apply runs_bind. eapply runs_rollback; [done | done | eapply confined_trans; [done | by eapply confined_cluster] |].
      intros mu4 C4 _. apply runs_fail. by eapply HE2.
Qed.
End Data.
End Space.
End ExfatWrite.
