(* ===== verification/ExfatTree.v ===== *)
(** An exFAT volume as a tree of named files and folders (src/fs/exfat.rs): what it means
    for the medium to hold a tree, what a change elsewhere leaves of it, and the
    operations that read, which return what the tree says. *)

From Stdlib Require Import ZArith Lia.
From stdpp Require Import base list list_numbers numbers decidable tactics strings gmap sorting.
From S2P Require Import Prelude BlockDev FatNames Exfat ExfatDisk ExfatBitmap ExfatChain ExfatDir ExfatWrite.
Import Blk FatNames Exfat ExfatDisk ExfatBitmap ExfatChain ExfatDir ExfatWrite.

Module ExfatTree.

(** * Trees *)

#[warnings="-register-all"] Inductive node := File (f : DirFile) (data : list Z) | Folder (f : DirFile) (kids : list node).
Definition entry (n : node) : DirFile := match n with File f _ | Folder f _ => f end.
Lemma node_rect' (P : node -> Prop) : (forall f data, P (File f data)) -> (forall f kids, Forall P kids -> P (Folder f kids)) -> forall n, P n.
Proof.
  intros HF HD. fix IH 1. intros [f data | f kids]; [apply HF |]. apply HD. induction kids as [| k kids IHk]; constructor; [apply IH | exact IHk].
Qed.

Section Tree.
Context (v : Volume).

Definition dchain (m : medium) (d : DirRef) : list Z := chain_of m v (dr_cluster d) (dr_no_fat_chain d) (dr_length d).
Definition fchain (m : medium) (f : DirFile) : list Z := chain_of m v (first_cluster f) (no_fat_chain f) (data_length f).
Definition dir_data (m : medium) (d : DirRef) : list Z := chain_data m v (dchain m d).

(** Directory [d] lists the entries [files]. *)
Record dir_holds (m : medium) (d : DirRef) (files : list DirFile) : Prop := {
  dh_fits : fits v (dr_cluster d) (dr_no_fat_chain d) (dr_length d);
  dh_some : dchain m d <> [];
  dh_tidy : tidy (dir_data m d);
  dh_list : parse_entries (dir_data m d) = files }.
(** File [f] contains [data]. *)
Record file_holds (m : medium) (f : DirFile) (data : list Z) : Prop := {
  fh_fits : fits v (first_cluster f) (no_fat_chain f) (data_length f);
  fh_file : is_dir f = false;
  fh_len : data_length f = Z.of_nat (length data);
  fh_data : take (length data) (chain_data m v (fchain m f)) = data;
  fh_room : (length data <= length (fchain m f) * Z.to_nat (cluster_bytes v))%nat }.
Fixpoint holds (m : medium) (n : node) : Prop :=
  match n with
  | File f data => file_holds m f data
  | Folder f kids => is_dir f = true /\ dir_holds m (dir_ref_of f) (map entry kids) /\ foldr (fun k P => holds m k /\ P) True kids
  end.
(** The clusters of a node. *)
Fixpoint owned (m : medium) (n : node) : list Z :=
  match n with
  | File f _ => fchain m f
  | Folder f kids => fchain m f ++ mjoin (map (owned m) kids)
  end.
Definition owned_all (m : medium) (kids : list node) : list Z := mjoin (map (owned m) kids).

Lemma holds_all m kids : foldr (fun k P => holds m k /\ P) True kids <-> Forall (holds m) kids.
Proof. induction kids as [| k kids IH]; cbn [foldr]; [by split |]. rewrite Forall_cons, IH. done. Qed.
Lemma owned_all_cons m k kids : owned_all m (k :: kids) = owned m k ++ owned_all m kids.
Proof. done. Qed.
Lemma owned_all_app m k1 k2 : owned_all m (k1 ++ k2) = owned_all m k1 ++ owned_all m k2.
Proof. unfold owned_all. by rewrite map_app, join_app. Qed.

(** The whole volume is the tree [kids]: no cluster belongs to two of its nodes, and all of
    them are marked in use. *)
Record volume_holds (m : medium) (kids : list node) : Prop := {
  vh_ok : media_ok m;
  vh_self : self_used m v;
  vh_root : dir_holds m (root_ref v) (map entry kids);
  vh_kids : Forall (holds m) kids;
  vh_nodup : NoDup (dchain m (root_ref v) ++ owned_all m kids);
  vh_used : forall c, c ∈ dchain m (root_ref v) ++ owned_all m kids -> valid v c /\ used m v c = true /\ ~ bitmap_own v c }.

(** * What a change elsewhere leaves *)

Section Frame.
Context (cap : Z) (cs : list Z) (m m' : medium).
Hypothesis G : geometry v cap.
Hypothesis C : confined v cs m m'.
Definition kept (c : Z) : Prop := (c ∉ cs) /\ ~ bitmap_own v c.

Lemma dir_frame d files : dir_holds m d files -> (forall c, c ∈ dchain m d -> kept c) -> dir_holds m' d files /\ dchain m' d = dchain m d.
Proof.
  intros [D1 D2 D3 D4] Hk. destruct (confined_chain cap v G cs m m' _ _ _ C D1) as [E1 E2]; [intros c Hc; destruct (Hk c Hc); done |].
  fold (dchain m d) in *. fold (dchain m' d) in *. split; [| done]. unfold dir_data in *. constructor; unfold dir_data; rewrite ?E1, ?E2; done.
Qed.
Lemma file_frame f data : file_holds m f data -> (forall c, c ∈ fchain m f -> kept c) -> file_holds m' f data /\ fchain m' f = fchain m f.
Proof.
  intros [D1 D2 D3 D4 D5] Hk. destruct (confined_chain cap v G cs m m' _ _ _ C D1) as [E1 E2]; [intros c Hc; destruct (Hk c Hc); done |].
  fold (fchain m f) in *. fold (fchain m' f) in *. split; [| done]. constructor; rewrite ?E1, ?E2; done.
Qed.
Lemma node_frame n : holds m n -> (forall c, c ∈ owned m n -> kept c) -> holds m' n /\ owned m' n = owned m n.
Proof.
  induction n as [f data | f kids IH] using node_rect'; cbn [holds owned]; intros Hh Hk.
  { by apply file_frame. }
  rewrite holds_all in *. destruct Hh as (Hd & Hh & Hkids). assert (Forall (holds m') kids /\ map (owned m') kids = map (owned m) kids) as [H1 H2].
  { assert (forall c, c ∈ mjoin (map (owned m) kids) -> kept c) as Hk' by (intros c Hc; apply Hk, elem_of_app; by right). clear Hk Hh.
    induction kids as [| k kids IHk]; [done |]. apply Forall_cons in IH as [IH1 IH2], Hkids as [K1 K2]. cbn [map] in *.
    change (mjoin (owned m k :: map (owned m) kids)) with (owned m k ++ mjoin (map (owned m) kids)) in Hk'.
    destruct IH1 as [A1 A2]; [done | intros c Hc; apply Hk', elem_of_app; by left |].
    destruct IHk as [B1 B2]; [done | done | intros c Hc; apply Hk', elem_of_app; by right |]. rewrite A2, B2. by split; [constructor |]. }
  destruct (dir_frame (dir_ref_of f) (map entry kids)) as [A1 A2]; [done | intros c Hc; apply Hk, elem_of_app; by left |].
  split; [by split_and! |]. rewrite H2. f_equal. exact A2.
Qed.
Lemma nodes_frame kids : Forall (holds m) kids -> (forall c, c ∈ owned_all m kids -> kept c) -> Forall (holds m') kids /\ owned_all m' kids = owned_all m kids.
Proof.
  induction kids as [| k kids IH]; intros Hh Hk; [done |]. apply Forall_cons in Hh as [H1 H2]. rewrite !owned_all_cons in *.
  destruct (node_frame k H1) as [A1 A2]; [intros c Hc; apply Hk, elem_of_app; by left |].
  destruct (IH H2) as [B1 B2]; [intros c Hc; apply Hk, elem_of_app; by right |]. rewrite A2, B2. by split; [constructor |].
Qed.
End Frame.

(** * Paths *)

Definition named (nm : list Z) (n : node) : bool := names_equal_ascii (name (entry n)) nm.
Definition folder_named (nm : list Z) (n : node) : bool := is_dir (entry n) && named nm n.
(** The directory that [dirs] leads to from [d], and what it contains. *)
Fixpoint descend (d : DirRef) (kids : list node) (dirs : list (list Z)) : option (DirRef * list node) :=
  match dirs with
  | [] => Some (d, kids)
  | comp :: rest =>
      match List.find (folder_named comp) kids with
      | Some (Folder f ks) => descend (dir_ref_of f) ks rest
      | _ => None
      end
  end.
(** Parent directory, its nodes, and the last component. *)
Definition parent_of (kids : list node) (path : list Z) : option (DirRef * list node * list Z) :=
  match last (components path) with
  | None => None
  | Some nm => '(d, ks) ← descend (root_ref v) kids (removelast (components path)); Some (d, ks, nm)
  end.
Definition find_node (kids : list node) (path : list Z) : option (DirRef * node) :=
  '(d, ks, nm) ← parent_of kids path; n ← List.find (named nm) ks; Some (d, n).

Lemma find_map_entry (p : DirFile -> bool) kids : List.find p (map entry kids) = entry <$> List.find (fun n => p (entry n)) kids.
Proof. induction kids as [| k kids IH]; cbn [map List.find]; [done |]. by destruct (p (entry k)). Qed.
Lemma folder_found m kids comp n : Forall (holds m) kids -> List.find (folder_named comp) kids = Some n ->
  exists f ks, n = Folder f ks /\ holds m (Folder f ks) /\ is_dir f = true.
Proof.
  intros Hh [Hin Hp]%List_find_Some. apply (Forall_elem _ _ _ Hh) in Hin. unfold folder_named in Hp. apply andb_true_iff in Hp as [Hd _].
  destruct n as [f data | f ks]; cbn in *; [by rewrite (fh_file _ _ _ Hin) in Hd | by eauto].
Qed.
Lemma descend_holds m dirs : forall d kids p ks, dir_holds m d (map entry kids) -> Forall (holds m) kids -> descend d kids dirs = Some (p, ks) ->
  dir_holds m p (map entry ks) /\ Forall (holds m) ks.
Proof.
  induction dirs as [| comp dirs IH]; intros d kids p ks Hd Hh; cbn [descend]; [by intros [= <- <-] |].
  destruct (List.find (folder_named comp) kids) as [n |] eqn:Ef; [| done].
  destruct (folder_found m kids comp n Hh Ef) as (f & ks' & -> & Hn & _). cbn in Hn. rewrite holds_all in Hn. destruct Hn as (_ & Hf & Hks). by eapply IH.
Qed.

(** * Reading *)

Section Reading.
Context (env : nat -> response) (sure : Prop) (cap : Z).
Hypothesis G : geometry v cap.
Abbreviation runs := (runs env sure cap).

Lemma runs_load_dir mu d files (Q : option (list Z * list Z) -> medium -> Prop) E : dir_holds mu d files ->
  Q (Some (dchain mu d, dir_data mu d)) mu -> (~ sure -> Q None mu) -> runs (load_dir env v d) mu Q E.
Proof.
  intros [D1 D2 D3 D4] HS HN. apply runs_try. eapply runs_collect_chain; [exact G | done | | done]. fold (dchain mu d).
  rewrite bool_decide_eq_false_2 by done. apply runs_try. eapply runs_read_clusters; [exact G | by apply chain_of_valid | by apply runs_ret | done].
Qed.
Lemma runs_walk dirs : forall mu d kids (Q : option DirRef -> medium -> Prop) E, dir_holds mu d (map entry kids) -> Forall (holds mu) kids ->
  Q (fst <$> descend d kids dirs) mu -> (~ sure -> Q None mu) -> runs (walk env v d dirs) mu Q E.
Proof.
  induction dirs as [| comp dirs IH]; intros mu d kids Q E Hd Hh HS HN; cbn [walk descend] in *; [by apply runs_ret |].
  apply runs_try. eapply runs_load_dir; [done | | done]. rewrite (dh_list _ _ _ Hd), find_map_entry. fold (named comp). fold (folder_named comp).
  change (List.find (fun n => is_dir (entry n) && names_equal_ascii (name (entry n)) comp) kids) with (List.find (folder_named comp) kids).
  destruct (List.find (folder_named comp) kids) as [n |] eqn:Ef; cbn [fmap option_fmap option_map]; [| by apply runs_ret].
  destruct (folder_found mu kids comp n Hh Ef) as (f & ks & -> & Hn & _). cbn in Hn. rewrite holds_all in Hn. destruct Hn as (_ & Hf & Hks). by eapply IH.
Qed.
Lemma runs_resolve_parent mu kids path (Q : option (DirRef * list Z) -> medium -> Prop) E : volume_holds mu kids ->
  Q ((fun '(d, _, nm) => (d, nm)) <$> parent_of kids path) mu -> (~ sure -> Q None mu) -> runs (resolve_parent env v path) mu Q E.
Proof.
  intros Hv HS HN. unfold resolve_parent, parent_of in *. destruct (last (components path)) as [nm |]; [| by apply runs_ret].
  apply runs_try. eapply runs_walk; [apply Hv | apply Hv | | done].
  destruct (descend (root_ref v) kids (removelast (components path))) as [[d ks] |]; [by apply runs_ret | done].
Qed.
Lemma parent_holds mu kids path d ks nm : volume_holds mu kids -> parent_of kids path = Some (d, ks, nm) ->
  dir_holds mu d (map entry ks) /\ Forall (holds mu) ks /\ descend (root_ref v) kids (removelast (components path)) = Some (d, ks).
Proof.
  intros Hv Hp. unfold parent_of in Hp. destruct (last (components path)) as [nm' |]; [| done].
  destruct (descend (root_ref v) kids (removelast (components path))) as [[d' ks'] |] eqn:Ed; [| done]. cbn in Hp. simplify_eq.
  destruct (descend_holds _ _ _ _ _ _ (vh_root _ _ Hv) (vh_kids _ _ Hv) Ed). done.
Qed.
Lemma runs_lookup mu kids path (Q : option (DirRef * DirFile) -> medium -> Prop) E : volume_holds mu kids ->
  Q ((fun '(d, n) => (d, entry n)) <$> find_node kids path) mu -> (~ sure -> Q None mu) -> runs (lookup env v path) mu Q E.
Proof.
  intros Hv HS HN. unfold lookup, find_node in *. apply runs_try. eapply runs_resolve_parent; [done | | done].
  destruct (parent_of kids path) as [[[d ks] nm] |] eqn:Ep; cbn [fmap option_fmap option_map mbind option_bind] in *; [| done].
  destruct (parent_holds _ _ _ _ _ _ Hv Ep) as (Hd & Hks & _). apply runs_try. eapply runs_load_dir; [done | | done].
  apply runs_ret. rewrite (dh_list _ _ _ Hd), find_map_entry. change (List.find (fun n => names_equal_ascii (name (entry n)) nm) ks) with (List.find (named nm) ks).
  by destruct (List.find (named nm) ks).
Qed.

(** A whole file, cluster by cluster. *)
Lemma runs_read_pieces cs : forall remaining mu (Q : option (list Z) -> medium -> Prop) E, media_ok mu -> Forall (valid v) cs -> 0 <= remaining ->
  Q (Some (take (Z.to_nat remaining) (chain_data mu v cs))) mu -> (~ sure -> Q None mu) -> runs (read_pieces env v remaining cs) mu Q E.
Proof.
  induction cs as [| c cs IH]; intros remaining mu Q E Hok Hv Hr HS HN; cbn [read_pieces].
  { apply runs_ret. unfold chain_data in HS. change (mjoin (map (cdata mu v) [])) with (@nil Z) in HS. by rewrite take_nil in HS. }
  destruct (Z.eqb_spec remaining 0) as [-> | Hne]; [by apply runs_ret |]. apply Forall_cons in Hv as [Hc Hv]. pose proof (cluster_bytes_range cap v G) as Hcb.
  apply runs_try. eapply runs_read_cluster; [exact G | done | | done]. apply runs_try. apply IH; [done | done | lia | | done]. apply runs_ret.
  unfold chain_data in HS. cbn [map] in HS. change (mjoin (cdata mu v c :: map (cdata mu v) cs)) with (cdata mu v c ++ chain_data mu v cs) in HS.
  destruct (cdata_ok v cap G mu c Hok) as [Hl _]. rewrite take_app, Hl in HS.
  replace (take (Z.to_nat (Z.min remaining (cluster_bytes v))) (cdata mu v c)) with (take (Z.to_nat remaining) (cdata mu v c)).
  2: { destruct (Z.le_ge_cases remaining (cluster_bytes v)); [by rewrite Z.min_l | rewrite Z.min_r by done; by rewrite !take_ge by lia]. }
  by replace (Z.to_nat (remaining - Z.min remaining (cluster_bytes v))) with (Z.to_nat remaining - Z.to_nat (cluster_bytes v))%nat by lia.
Qed.
Lemma runs_read_file_inner f data mu (Q : option (list Z) -> medium -> Prop) E : media_ok mu -> file_holds mu f data ->
  Q (Some data) mu -> (~ sure -> Q None mu) -> runs (read_file_inner env v f) mu Q E.
Proof.
  intros Hok [F1 F2 F3 F4 F5] HS HN. unfold read_file_inner. rewrite F3 in *. destruct (Z.eqb_spec (Z.of_nat (length data)) 0) as [E0 | _].
  { apply runs_ret. destruct data; [done | cbn in E0; lia]. }
  apply runs_try. eapply runs_collect_chain; [exact G | done | | done]. rewrite <- F3. fold (fchain mu f). rewrite F3.
  pose proof (cluster_bytes_range cap v G). rewrite (proj2 (Z.ltb_ge _ _)) by nia.
  apply runs_read_pieces; [done | rewrite <- F3 in F1; by apply chain_of_valid | lia | by rewrite Nat2Z.id, F4 | done].
Qed.
End Reading.
End Tree.
End ExfatTree.
