(* ===== verification/ExfatCreate.v ===== *)
(** Creating files on an exFAT volume (src/fs/exfat.rs): the root directory that grows, the
    entry set that is placed, and the tree of the volume that gains exactly one file. *)

From Stdlib Require Import ZArith Lia.
From stdpp Require Import base list list_numbers numbers decidable tactics strings gmap sorting.
From S2P Require Import Prelude BlockDev FatNames Exfat ExfatDisk ExfatBitmap ExfatChain ExfatDir ExfatWrite ExfatTree.
Import Blk FatNames Exfat ExfatDisk ExfatBitmap ExfatChain ExfatDir ExfatWrite ExfatTree.

Module ExfatCreate.

(** * Changing a folder of the tree *)

(** [f] applied to the first element that satisfies [p]. *)
Fixpoint update_first {A} (p : A -> bool) (f : A -> A) (l : list A) : list A :=
  match l with [] => [] | x :: l' => if p x then f x :: l' else x :: update_first p f l' end.
(** The tree with [sub] as the contents of the folder that [dirs] leads to. *)
Fixpoint replace_at (kids : list node) (dirs : list (list Z)) (sub : list node) : list node :=
  match dirs with
  | [] => sub
  | comp :: rest =>
      update_first (folder_named comp) (fun n => match n with Folder f ks => Folder f (replace_at ks rest sub) | _ => n end) kids
  end.

Lemma update_first_split {A} (p : A -> bool) l x : List.find p l = Some x ->
  exists l1 l2, l = l1 ++ x :: l2 /\ forall f, update_first p f l = l1 ++ f x :: l2.
Proof.
  induction l as [| y l IH]; cbn [List.find update_first]; [done |]. destruct (p y) eqn:Ep.
  - intros [= ->]. by exists [], l.
  - intros H. destruct (IH H) as (l1 & l2 & -> & Hf). exists (y :: l1), l2. split; [done |]. intros f. by rewrite Hf.
Qed.

Section Change.
Context (v : Volume) (cap : Z) (m : medium).
Hypothesis G : geometry v cap.

(** Contents of one folder change, with clusters the rest of the tree does not own: the
    tree with that folder changed is what the new medium holds. *)
Lemma descend_update dirs : forall d kids p ks, descend d kids dirs = Some (p, ks) ->
  dir_holds v m d (map entry kids) -> Forall (holds v m) kids ->
  exists R, dchain v m d ++ owned_all v m kids ≡ₚ (dchain v m p ++ owned_all v m ks) ++ R /\
  forall m' cs sub, confined v cs m m' -> (forall c, c ∈ R -> kept v cs c) ->
    dir_holds v m' p (map entry sub) -> Forall (holds v m') sub ->
    dir_holds v m' d (map entry (replace_at kids dirs sub)) /\ Forall (holds v m') (replace_at kids dirs sub)
    /\ dchain v m' d ++ owned_all v m' (replace_at kids dirs sub) ≡ₚ (dchain v m' p ++ owned_all v m' sub) ++ R.
Proof.
  induction dirs as [| comp dirs IH]; intros d kids p ks Hdesc Hd Hh; cbn [descend replace_at] in *.
  { simplify_eq. exists []. rewrite app_nil_r. split; [done |]. intros m' cs sub C HR H1 H2. by rewrite app_nil_r. }
  destruct (List.find (folder_named comp) kids) as [n |] eqn:Ef; [| done].
  destruct (folder_found v m kids comp n Hh Ef) as (f & ks0 & -> & Hn & _). cbn in Hn. rewrite holds_all in Hn. destruct Hn as (Hdir & Hdf & Hks0).
  destruct (IH _ _ _ _ Hdesc Hdf Hks0) as (R0 & Hperm & Hupd).
  destruct (update_first_split _ _ _ Ef) as (k1 & k2 & -> & Hf).
  apply Forall_app in Hh as [Hk1 Hk2]. apply Forall_cons in Hk2 as [_ Hk2].
  exists (R0 ++ dchain v m d ++ owned_all v m k1 ++ owned_all v m k2). split.
  { rewrite owned_all_app, owned_all_cons. cbn [owned]. fold (owned_all v m ks0). change (fchain v m f) with (dchain v m (dir_ref_of f)). rewrite Hperm. solve_Permutation. }
  intros m' cs sub C HR H1 H2. rewrite Hf. destruct (Hupd m' cs sub C) as (U1 & U2 & U3); [| done | done |].
  { intros c Hc. apply HR, elem_of_app. by left. }
  assert (forall c, c ∈ dchain v m d ++ owned_all v m k1 ++ owned_all v m k2 -> kept v cs c) as HR' by (intros c Hc; apply HR, elem_of_app; by right).
  destruct (dir_frame v cap cs m m' G C d _ Hd) as [A1 A2]; [intros c Hc; apply HR', elem_of_app; by left |].
  destruct (nodes_frame v cap cs m m' G C k1 Hk1) as [B1 B2]; [set_solver |]. destruct (nodes_frame v cap cs m m' G C k2 Hk2) as [C1 C2]; [set_solver |].
  split; [| split].
  - rewrite map_app in *. exact A1.
  - apply Forall_app. split; [done |]. constructor; [| done]. cbn. rewrite holds_all. done.
  - rewrite owned_all_app, owned_all_cons. cbn [owned]. fold (owned_all v m' (replace_at ks0 dirs sub)). change (fchain v m' f) with (dchain v m' (dir_ref_of f)).
    rewrite A2, B2, C2, U3. solve_Permutation.
Qed.

Lemma volume_update kids dirs p ks m' cs sub : volume_holds v m kids -> descend (root_ref v) kids dirs = Some (p, ks) -> confined v cs m m' ->
  let old c := c ∈ dchain v m p ++ owned_all v m ks \/ (valid v c /\ used m v c = false) in
  (forall c, c ∈ cs -> old c) ->
  dir_holds v m' p (map entry sub) -> Forall (holds v m') sub ->
  NoDup (dchain v m' p ++ owned_all v m' sub) -> (forall c, c ∈ dchain v m' p ++ owned_all v m' sub -> old c /\ used m' v c = true) ->
  volume_holds v m' (replace_at kids dirs sub).
Proof.
  intros [V1 V2 V3 V4 V5 V6] Hdesc C old Hcs H1 H2 Hnd Hu.
  destruct (descend_update dirs _ _ _ _ Hdesc V3 V4) as (R & Hperm & Hupd).
  rewrite Hperm in V5. assert (forall c, c ∈ R -> valid v c /\ used m v c = true /\ ~ bitmap_own v c) as HR by (intros c Hc; apply V6; rewrite Hperm; set_solver).
  assert (forall c, c ∈ dchain v m p ++ owned_all v m ks -> valid v c /\ used m v c = true /\ ~ bitmap_own v c) as HP by (intros c Hc; apply V6; rewrite Hperm; set_solver).
  assert (forall c, old c -> (c ∉ R) /\ valid v c /\ ~ bitmap_own v c) as Hold.
  { intros c [Hc | [Hv Hn]].
    - split; [| split; by apply HP]. intros Hr. apply NoDup_app in V5 as (_ & Hdis & _). by apply (Hdis c).
    - split; [intros Hr; destruct (HR c Hr) as (_ & Hx & _); by rewrite Hn in Hx |]. split; [done |]. intros Ho. by rewrite (V2 c Ho) in Hn. }
  destruct (Hupd m' cs sub C) as (U1 & U2 & U3); [| done | done |].
  { intros c Hc. split; [| by apply HR]. intros Hin%Hcs%Hold. by destruct Hin. }
  constructor; [apply C | | done | done | |].
  - intros c Ho. rewrite (proj1 (co_rest _ _ _ _ C c (bitmap_valid v cap G c Ho) ltac:(intros Hin%Hcs%Hold; naive_solver))). by apply V2.
  - rewrite U3. apply NoDup_app. split; [done |]. split; [| by apply NoDup_app in V5 as (_ & _ & ?)]. intros c Hc. by apply Hold, Hu.
  - intros c. rewrite U3, elem_of_app. intros [Hc | Hc].
    + destruct (Hu c Hc) as [(_ & ? & ?)%Hold ?]. done.
    + destruct (HR c Hc) as (A & B & D). split; [done |]. split; [| done]. rewrite (proj1 (co_rest _ _ _ _ C c A ltac:(intros Hin%Hcs%Hold; naive_solver))). done.
Qed.
End Change.

(** * Chains by links *)

Definition stops (m : medium) (v : Volume) (c : Z) : bool :=
  let next := fat_at m v c in (next <? 2) || (next =? FAT_EOF) || (cluster_count v + 1 <? next).
Inductive linked (m : medium) (v : Volume) : Z -> list Z -> Prop :=
| linked_end c : stops m v c = true -> linked m v c [c]
| linked_next c cs : stops m v c = false -> linked m v (fat_at m v c) cs -> linked m v c (c :: cs).

Lemma chain_from_linked m v steps : forall c, (length (chain_from m v steps c) < steps)%nat -> linked m v c (chain_from m v steps c).
Proof.
  induction steps as [| steps IH]; intros c Hl; [lia |]. cbn [chain_from] in *. cbn zeta in *. fold (stops m v c) in *.
  destruct (stops m v c) eqn:Es; [by constructor |]. constructor; [done |]. apply IH. cbn in Hl. lia.
Qed.
Lemma linked_chain_from m v c cs : linked m v c cs -> forall steps, (length cs <= steps)%nat -> chain_from m v steps c = cs.
Proof.
  induction 1 as [c Hs | c cs Hs _ IH]; intros [| steps] Hl; cbn [length] in Hl; try lia; cbn [chain_from]; cbn zeta; fold (stops m v c); rewrite Hs; [done |].
  f_equal. apply IH. lia.
Qed.
(** One more cluster behind the last one. *)
Lemma linked_snoc m m' v c cs new tail : linked m v c cs -> last cs = Some tail -> NoDup cs -> (new ∉ cs) ->
  fat_at m' v tail = new -> stops m' v tail = false -> stops m' v new = true -> (forall x, x ∈ cs -> x <> tail -> fat_at m' v x = fat_at m v x) ->
  linked m' v c (cs ++ [new]).
Proof.
  intros HL. revert tail. induction HL as [c Hs | c cs Hs HL IH]; intros tail Htail Hnd Hnew F1 F2 F3 F4.
  - injection Htail as ->. apply linked_next; [done |]. rewrite F1. by apply linked_end.
  - apply NoDup_cons in Hnd as [Hc Hnd]. assert (cs <> []) as Hne by (by inversion HL). assert (last cs = Some tail) as Ht by (destruct cs; [done | exact Htail]).
    assert (tail ∈ cs) as Hin by by apply last_Some_elem_of in Ht. assert (fat_at m' v c = fat_at m v c) as Ec by (apply F4; [left | intros ->; done]).
    cbn [app]. apply linked_next; [unfold stops in *; by rewrite Ec |]. rewrite Ec. apply (IH tail); [done | done | | done | done | done |].
    + intros Hn. apply Hnew. by right.
    + intros x Hx. apply F4. by right.
Qed.

Lemma chain_data_app m v cs1 cs2 : chain_data m v (cs1 ++ cs2) = chain_data m v cs1 ++ chain_data m v cs2.
Proof. unfold chain_data. by rewrite map_app, join_app. Qed.
Lemma valid_length v cs : Forall (valid v) cs -> NoDup cs -> (length cs <= Z.to_nat (cluster_count v))%nat.
Proof.
  intros Hv Hn. rewrite <- (length_seqZ 2 (cluster_count v)). apply submseteq_length, NoDup_submseteq; [done |].
  intros c Hc. apply elem_of_seqZ. pose proof (Forall_elem _ _ _ Hv Hc) as H. unfold valid in H. lia.
Qed.

(** * Growing the root *)

Section Grow.
Context (env : nat -> response) (sure : Prop) (cap : Z) (v : Volume) (d : DirRef) (mu0 : medium).
Hypothesis G : geometry v cap.
Abbreviation runs := (runs env sure cap).
Abbreviation cb := (Z.to_nat (cluster_bytes v)).

(** Directory [d] as the volume has it. *)
Record proper_dir : Prop := {
  pd_ok : media_ok mu0;
  pd_self : self_used mu0 v;
  pd_fits : fits v (dr_cluster d) (dr_no_fat_chain d) (dr_length d);
  pd_some : dchain v mu0 d <> [];
  pd_nodup : NoDup (dchain v mu0 d);
  pd_used : forall c, c ∈ dchain v mu0 d -> valid v c /\ used mu0 v c = true /\ ~ bitmap_own v c;
  pd_root : is_root d = true -> d = root_ref v }.
Hypothesis P : proper_dir.

(** [d] has gained the clusters [ext], filled with zeros. *)
Record grown (ext : list Z) (mu : medium) : Prop := {
  gr_conf : confined v (dchain v mu0 d ++ ext) mu0 mu;
  gr_marks : marks v true ext mu0 mu;
  gr_free : Forall (fun c => valid v c /\ used mu0 v c = false) ext;
  gr_nodup : NoDup ext;
  gr_chain : dchain v mu d = dchain v mu0 d ++ ext;
  gr_data : dir_data v mu d = dir_data v mu0 d ++ replicate (length ext * cb) 0 }.

Lemma grown_start : grown [] mu0.
Proof.
  constructor; rewrite ?app_nil_r; [apply confined_refl, P | | apply Forall_nil_2 | apply NoDup_nil_2 | done | done].
  intros c Hc. by rewrite decide_False by apply not_elem_of_nil.
Qed.
Lemma grown_chain ext mu : grown ext mu -> NoDup (dchain v mu d) /\ forall c, c ∈ dchain v mu d -> valid v c /\ used mu v c = true /\ ~ bitmap_own v c.
Proof.
  intros [G1 G2 G3 G4 G5 G6]. rewrite G5. split.
  - apply NoDup_app. split; [apply P |]. split; [| done]. intros c Hc Hx. destruct (Forall_elem _ _ _ G3 Hx) as [_ Hn].
    destruct (pd_used P c Hc) as (_ & Hu & _). by rewrite Hn in Hu.
  - intros c. rewrite elem_of_app. intros [Hc | Hc].
    + destruct (pd_used P c Hc) as (Hv & Hu & Ho). split; [done |]. split; [| done]. rewrite (G2 c Hv). by case_decide.
    + destruct (Forall_elem _ _ _ G3 Hc) as [Hv Hn]. split; [done |]. split; [by rewrite (G2 c Hv), decide_True |].
      intros Ho. by rewrite (pd_self P c Ho) in Hn.
Qed.

(** A cluster found free, cleared and linked behind the last one. *)
(** The chain of the root with one more link. *)
Lemma root_link mu mu4 new tail : is_root d = true -> NoDup (dchain v mu d) -> Forall (valid v) (dchain v mu d) -> dchain v mu d <> [] ->
  last (dchain v mu d) = Some tail -> valid v new -> (new ∉ dchain v mu d) -> fat_at mu4 v tail = new -> fat_at mu4 v new = FAT_EOF ->
  (forall x, x ∈ dchain v mu d -> x <> tail -> fat_at mu4 v x = fat_at mu v x) -> dchain v mu4 d = dchain v mu d ++ [new].
Proof.
  intros Hr Hnd Hv Hne Htail Hvn Hnn Ft Fn Fx. pose proof (ge_count _ _ G) as Gc. pose proof (pd_root P Hr) as ->.
  assert (forall m, dchain v m (root_ref v) = if root_cluster v <? 2 then [] else chain_from m v (S (Z.to_nat (cluster_count v))) (root_cluster v)) as Ed by done.
  rewrite (Ed mu4), (Ed mu) in *. clear Ed. destruct (root_cluster v <? 2); [done |]. set (ch := chain_from mu v _ _) in *. pose proof (valid_length v ch Hv Hnd) as Hlen.
  apply linked_chain_from; [| rewrite length_app; cbn [length]; lia].
  eapply linked_snoc; [apply chain_from_linked; fold ch; lia | done | done | done | done | | | done].
  - unfold stops, FAT_EOF. cbn zeta. rewrite Ft. unfold valid in Hvn. rewrite (proj2 (Z.ltb_ge _ _)), (proj2 (Z.eqb_neq _ _)), (proj2 (Z.ltb_ge _ _)) by lia. done.
  - unfold stops. cbn zeta. rewrite Fn. done.
Qed.
Lemma grown_link ext mu new tail mu1 mu2 mu3 mu4 : grown ext mu -> is_root d = true -> last (dchain v mu d) = Some tail ->
  valid v new -> used mu v new = false ->
  media_ok mu1 -> only_bits v mu mu1 -> exactly v true [new] mu mu1 ->
  media_ok mu2 -> within (in_cluster v new) mu1 mu2 -> cdata mu2 v new = replicate cb 0 ->
  media_ok mu3 -> fat_set v new FAT_EOF mu2 mu3 ->
  media_ok mu4 -> fat_set v tail new mu3 mu4 ->
  grown (ext ++ [new]) mu4.
Proof.
  intros Hg Hr Htail Hvn Hun O1 W1 X1 O2 W2 D2 O3 F3 O4 F4. pose proof (grown_chain ext mu Hg) as [Hnd Hin]. pose proof Hg as [G1 G2 G3 G4 G5 G6].
  assert (tail ∈ dchain v mu d) as Ht by by apply last_Some_elem_of in Htail. destruct (Hin tail Ht) as (Hvt & Hut & _).
  assert (new ∉ dchain v mu d) as Hnn by (intros Hc%Hin; destruct Hc as (_ & Hc & _); by rewrite Hun in Hc).
  assert ((new ∉ ext) /\ used mu0 v new = false) as [Hne Hu0] by (rewrite (G2 new Hvn) in Hun; by case_decide).
  assert (~ bitmap_own v new) as Hon by (intros Ho; by rewrite (pd_self P new Ho) in Hu0).
  assert (confined v [new] mu mu3) as C3.
  { assert (new ∈ [new]) as Hi by by left. apply (confined_trans _ _ _ mu1); [exact (confined_exact cap v G _ _ _ _ O1 W1 X1) |].
    apply (confined_trans _ _ _ mu2); [exact (confined_cluster cap v G _ _ _ _ O2 Hvn Hon Hi W2) | exact (confined_fat cap v G _ _ _ _ _ O3 Hi F3)]. }
  assert (forall c, valid v c -> used mu4 v c = if decide (c = new) then true else used mu v c) as U4.
  { intros c Hc. rewrite (used_fat cap v G _ _ _ _ c F4 Hc), (used_fat cap v G _ _ _ _ c F3 Hc), (used_within v mu1 mu2 c _ W2), (exactly_marks _ _ _ _ _ X1 c Hc) by (done || intros l; by apply (bitmap_no_cluster v cap G)).
    apply decide_ext, list_elem_of_singleton. }
  assert (dchain v mu4 d = dchain v mu d ++ [new]) as Hch.
  { apply (root_link _ _ _ tail); try done.
    - apply Forall_forall. intros c Hc. by apply Hin.
    - rewrite G5. pose proof (pd_some P). by destruct (dchain v mu0 d).
    - rewrite (proj2 F4) by (unfold valid in Hvt; lia). by rewrite decide_True.
    - rewrite (proj2 F4), decide_False, (proj2 F3), decide_True by (done || (unfold valid in Hvn; lia) || by intros ->). done.
    - intros x Hx Hxt. destruct (Hin x Hx) as (Hvx & _ & _). rewrite (proj2 F4), decide_False by (done || (unfold valid in Hvx; lia)).
      apply (co_rest _ _ _ _ C3 x Hvx). intros ->%list_elem_of_singleton. done. }
  constructor.
  - rewrite app_assoc. eapply confined_trans; [eapply confined_mono; [exact G1 |]; set_solver |].
    eapply confined_trans; [eapply confined_mono; [exact C3 |]; set_solver |]. eapply (confined_fat cap v G tail new); [done | rewrite <- G5; set_solver | done].
  - intros c Hc. rewrite (U4 c Hc), (G2 c Hc). destruct (decide (c = new)) as [-> | Hcn]; [by rewrite decide_True by set_solver |].
    apply decide_ext. set_solver.
  - apply Forall_app. split; [done |]. by apply Forall_singleton.
  - apply NoDup_app. split; [done |]. split; [set_solver | apply NoDup_singleton].
  - by rewrite Hch, G5, app_assoc.
  - unfold dir_data. rewrite Hch, chain_data_app, length_app, Nat.mul_add_distr_r, replicate_add, app_assoc. f_equal.
    + etransitivity; [| exact G6]. unfold dir_data, chain_data. f_equal. apply map_ext_in. intros c Hc%list_elem_of_In. destruct (Hin c Hc) as (Hv & _ & Ho).
      rewrite (data_fat cap v G _ _ _ _ c F4 Hv). apply (confined_data cap v G [new] mu mu3 c C3 Hv Ho). intros ->%list_elem_of_singleton. done.
    + unfold chain_data. cbn [map]. change (mjoin [?x]) with (x ++ []). rewrite app_nil_r, (data_fat cap v G _ _ _ _ new F4 Hvn), (data_fat cap v G _ _ _ _ new F3 Hvn), D2. f_equal. cbn. lia.
Qed.

(** A failed step leaves changes in clusters that were free or [d]'s. *)
Lemma grown_undo ext mu mu' new : grown ext mu -> valid v new -> used mu v new = false -> confined v (dchain v mu d ++ [new]) mu mu' ->
  Forall (fun c => valid v c /\ used mu0 v c = false) (ext ++ [new]) /\ confined v (dchain v mu0 d ++ ext ++ [new]) mu0 mu'.
Proof.
  intros [G1 G2 G3 G4 G5 G6] Hvn Hun C. rewrite (G2 new Hvn) in Hun. split.
  - apply Forall_app. split; [done |]. apply Forall_singleton. by case_decide.
  - rewrite app_assoc. eapply confined_trans; [eapply confined_mono; [exact G1 |]; set_solver |]. rewrite <- G5. done.
Qed.

(** Why a working volume does not grow the directory. *)
Definition cannot_grow (e : string) (mu : medium) : Prop :=
  (e = "directory full"%string /\ is_root d = false) \/ (e = "disk full"%string /\ is_root d = true /\ no_fit mu v 1).

Lemma runs_grow end_ set_len fuel : forall ext mu (Q : list Z * list Z -> medium -> Prop) (E : string -> medium -> Prop),
  grown ext mu -> Z.max 0 (end_ + set_len - Z.of_nat (length (dir_data v mu d))) < Z.of_nat fuel ->
  (forall ext' mu', grown ext' mu' -> end_ + set_len <= Z.of_nat (length (dir_data v mu' d)) -> Q (dchain v mu' d, dir_data v mu' d) mu') ->
  (forall e ext' mu', grown ext' mu' -> (sure -> cannot_grow e mu') -> E e mu') ->
  (~ sure -> forall e ext' mu', Forall (fun c => valid v c /\ used mu0 v c = false) ext' -> confined v (dchain v mu0 d ++ ext') mu0 mu' -> E e mu') ->
  runs (grow env fuel v d end_ set_len (dchain v mu d) (dir_data v mu d)) mu Q E.
Proof.
  induction fuel as [| fuel IH]; intros ext mu Q E Hg Hfuel HQ HE HEn; [lia |]. cbn [grow].
  destruct (Z.leb_spec (end_ + set_len) (Z.of_nat (length (dir_data v mu d)))) as [Hle | Hgt]; [apply runs_ret; by eapply HQ |].
  apply runs_bind, runs_guard; [intros Hr%negb_true_iff; eapply HE; [done |]; intros _; by left |]. intros Hr%negb_false_iff.
  pose proof (grown_chain ext mu Hg) as [Hnd Hin]. pose proof Hg as [G1 G2 G3 G4 G5 G6]. pose proof (ge_count _ _ G) as Gc.
  assert (forall new, first_fit mu v 1 (new - 2) -> valid v new /\ used mu v new = false) as Hnew.
  { intros new (F1 & F2 & F3 & _). split; [unfold valid; lia | apply F3; lia]. }
  assert (forall e new mu', ~ sure -> first_fit mu v 1 (new - 2) -> confined v (dchain v mu d ++ [new]) mu mu' -> E e mu') as Hbad.
  { intros e new mu' Hs [Hvn Hun]%Hnew C. destruct (grown_undo ext mu mu' new Hg Hvn Hun C). by eapply HEn. }
  apply runs_bind. eapply runs_bitmap_alloc; [exact G | lia | apply G1 | | |].
  2: { intros Hor. apply runs_bind, runs_lift. eapply HE; [done |]. intros s. right. by destruct Hor. }
  2: { intros Hn mu' first Hff A B C. apply runs_bind, runs_lift. eapply Hbad; [done | done |]. eapply confined_mono; [exact (confined_bits cap v G _ _ _ _ B A C) |]. rewrite seqZ_one. set_solver. }
  rewrite ?seqZ_one in *. intros mu1 new Hff W1 O1 X1. rewrite seqZ_one in X1. destruct (Hnew new Hff) as [Hvn Hun]. apply runs_bind, runs_lift. cbn [ok_or].
  set (cs := dchain v mu d ++ [new]) in *. assert (new ∈ cs) as Hncs by set_solver.
  assert (~ bitmap_own v new) as Hon.
  { intros Ho. rewrite (G2 new Hvn) in Hun. case_decide; [done |]. by rewrite (pd_self P new Ho) in Hun. }
  assert (confined v cs mu mu1) as C1 by (eapply confined_mono; [exact (confined_exact cap v G _ _ _ _ O1 W1 X1) | set_solver]).
  (* undoing a failed initialisation *)
  assert (forall e mu', ~ sure -> confined v cs mu mu' ->
    runs (_ ← fat_write env v new 0; _ ← bitmap_set env v [new] false; fail e) mu' Q E) as Hundo.
  { intros e mu' Hs C. eapply runs_release; [exact G | apply C | done |]. intros mu3 C3 _.
    apply runs_fail. eapply Hbad; [done | done |]. eapply confined_trans; [exact C |]. eapply confined_mono; [exact C3 |]. set_solver. }
  apply runs_bind. eapply runs_zero_cluster; [exact G | done | done | |].
  2: { intros Hs mu2 O2 W2. apply runs_bind, runs_ret. cbn [negb]. apply Hundo; [done |]. eapply confined_trans; [exact C1 | exact (confined_cluster cap v G _ _ _ _ O2 Hvn Hon Hncs W2)]. }
  intros mu2 O2 W2 D2. assert (confined v cs mu mu2) as C2 by (eapply confined_trans; [exact C1 | exact (confined_cluster cap v G _ _ _ _ O2 Hvn Hon Hncs W2)]).
  apply runs_bind. eapply runs_fat_write; [exact G | done | unfold valid in Hvn; lia | unfold FAT_EOF; lia | |].
  2: { intros Hs mu3 O3 F3. cbn [negb]. apply Hundo; [done |]. destruct F3 as [-> | F3]; [done |]. eapply confined_trans; [exact C2 | exact (confined_fat cap v G _ _ _ _ _ O3 Hncs F3)]. }
  intros mu3 O3 F3. cbn [negb]. assert (confined v cs mu mu3) as C3 by (eapply confined_trans; [exact C2 | exact (confined_fat cap v G _ _ _ _ _ O3 Hncs F3)]).
  destruct (last (dchain v mu d)) as [tail |] eqn:Htail; [| apply last_None in Htail; rewrite G5 in Htail; pose proof (pd_some P); by destruct (dchain v mu0 d)].
  assert (tail ∈ dchain v mu d) as Ht by by apply last_Some_elem_of in Htail. destruct (Hin tail Ht) as (Hvt & _ & _).
  apply runs_bind, runs_lift. cbn [unwrap]. apply runs_bind. eapply runs_fat_write; [exact G | done | unfold valid in Hvt; lia | unfold valid in Hvn; lia | |].
  2: { intros Hs mu4 O4 F4. cbn [negb]. apply Hundo; [done |]. destruct F4 as [-> | F4]; [done |]. eapply confined_trans; [exact C3 | eapply (confined_fat cap v G tail new); [done | set_solver | done]]. }
  intros mu4 O4 F4. cbn [negb]. pose proof (grown_link ext mu new tail mu1 mu2 mu3 mu4 Hg Hr Htail Hvn Hun O1 W1 X1 O2 W2 D2 O3 F3 O4 F4) as Hg4.
  pose proof (cluster_bytes_range cap v G) as Hcb.
  assert (length (dir_data v mu d) = length (dchain v mu d) * cb)%nat as Hl by (apply (chain_data_length v cap G), G1).
  subst cs. assert (dchain v mu d ++ [new] = dchain v mu4 d) as -> by by rewrite (gr_chain _ _ Hg4), G5, app_assoc.
  assert (dir_data v mu d ++ replicate (length (dchain v mu4 d) * cb - length (dir_data v mu d)) 0 = dir_data v mu4 d) as Ed.
  { rewrite Hl, G5, (gr_chain _ _ Hg4), (gr_data _ _ Hg4), G6, <- app_assoc, <- replicate_add. do 2 f_equal. rewrite !length_app. cbn [length]. lia. }
  rewrite Ed. apply (IH (ext ++ [new])); [done | | done | done | done].
  rewrite <- Ed, length_app, length_replicate, (gr_chain _ _ Hg4), !length_app. rewrite Hl, G5, length_app in *. cbn [length]. lia.
Qed.
End Grow.
End ExfatCreate.
