(* ===== verification/ExfatPlace.v ===== *)
(** Placing an entry set in an exFAT directory (src/fs/exfat.rs, place_entry_set). *)

From Stdlib Require Import ZArith Lia.
From stdpp Require Import base list list_numbers numbers decidable tactics strings gmap sorting.
From S2P Require Import Prelude BlockDev FatNames FatLfn Exfat ExfatDisk ExfatBitmap ExfatChain ExfatDir ExfatWrite ExfatTree ExfatCreate.
Import Blk FatNames Exfat ExfatDisk ExfatBitmap ExfatChain ExfatDir ExfatWrite ExfatTree ExfatCreate.

Module ExfatPlace.

Lemma piece_of_join {A} k (ls : list (list A)) i x : Forall (fun l => length l = k) ls -> ls !! i = Some x -> take k (drop (k * i) (mjoin ls)) = x.
Proof.
  intros Hf. revert i. induction Hf as [| l ls Hl _ IH]; intros [| i] Hx; [done | done | |].
  - injection Hx as ->. rewrite Nat.mul_0_r, drop_0. change (mjoin (x :: ls)) with (x ++ mjoin ls). by rewrite take_app_length'.
  - change (mjoin (l :: ls)) with (l ++ mjoin ls). replace (k * S i)%nat with (length l + k * i)%nat by lia. rewrite drop_app_add. by apply IH.
Qed.
Section Stored.
Context (cap : Z) (v : Volume) (chain : list Z) (mu : medium).
Hypothesis G : geometry v cap.
Hypothesis Hok : media_ok mu.

(** Sector [j] of a chain's bytes is where [lba_at] says. *)
Lemma chain_sector j : index v chain j -> sec mu (lba_at v chain j) = dsec (chain_data mu v chain) j.
Proof.
  intros Hj. pose proof (ge_spc _ _ G) as Gs. destruct (index_split cap v chain G j Hj) as (H1 & H2 & H3). unfold lba_at, dsec.
  set (c := chain !!! Z.to_nat (j / sectors_per_cluster v)). set (s := j mod sectors_per_cluster v) in *. set (ci := j / sectors_per_cluster v) in *.
  set (cb := (512 * Z.to_nat (sectors_per_cluster v))%nat). assert (Z.to_nat (cluster_bytes v) = cb) as Ecb by (unfold cluster_bytes, SECTOR, cb; lia).
  assert (take cb (drop (cb * Z.to_nat ci) (chain_data mu v chain)) = cdata mu v c) as Hc.
  { unfold chain_data. eapply piece_of_join.
    - apply Forall_forall. intros l (x & -> & _)%elem_of_map. rewrite <- Ecb. by apply (cdata_ok v cap G).
    - change (map ?f ?l) with (f <$> l). rewrite list_lookup_fmap, chain_lookup by done. done. }
  replace (Z.to_nat (512 * j)) with (cb * Z.to_nat ci + 512 * Z.to_nat s)%nat by (unfold cb; nia).
  rewrite <- drop_drop. set (D := drop (cb * Z.to_nat ci) (chain_data mu v chain)) in *.
  assert (take 512 (drop (512 * Z.to_nat s) D) = take 512 (drop (512 * Z.to_nat s) (take cb D))) as ->.
  { rewrite !take_drop_commute, take_take. do 2 f_equal. unfold cb. lia. }
  rewrite Hc. symmetry. unfold cdata. apply piece_of_join.
  - apply Forall_forall. intros l (x & -> & _)%elem_of_map. by apply sector_of_ok.
  - change (map ?f ?l) with (f <$> l). rewrite list_lookup_fmap, lookup_seqZ_lt by lia. cbn. do 2 f_equal. lia.
Qed.
(** A change of [o .. o + length src) leaves the other sectors right. *)
Lemma splice_right o src : (o + length src <= length (chain_data mu v chain))%nat ->
  forall j, index v chain j -> ~ touched_sector (Z.of_nat o) (Z.of_nat (length src)) j -> right v chain (splice (chain_data mu v chain) o src) mu j.
Proof.
  intros Ho j Hj Hn. unfold right. rewrite chain_sector by done. unfold dsec. unfold touched_sector in Hn.
  pose proof (ge_spc _ _ G) as Gs. assert (Z.to_nat (512 * j) + 512 <= length (chain_data mu v chain))%nat as Hl.
  { rewrite (chain_data_length v cap G) by done. unfold cluster_bytes, SECTOR, index in *. nia. }
  symmetry. unfold index in Hj. apply piece_splice; [done | lia | done].
Qed.
End Stored.

(** Writing clusters of [cs]. *)
Lemma confined_in_chain cap v chain cs m m' : geometry v cap -> media_ok m' -> (forall c, c ∈ chain -> valid v c /\ ~ bitmap_own v c /\ c ∈ cs) ->
  within (in_chain v chain) m m' -> confined v cs m m' /\ (forall c, valid v c -> used m' v c = used m v c /\ fat_at m' v c = fat_at m v c).
Proof.
  intros G Hok Hch Hw. assert (forall c, valid v c -> used m' v c = used m v c /\ fat_at m' v c = fat_at m v c) as H.
  { intros c Hc. split.
    - eapply used_within; [done | | done]. intros l (x & Hx & Hl). apply (bitmap_no_cluster v cap G x); [by apply Hch | done].
    - apply fat_at_frame, Hw. intros (x & Hx & Hl). apply (fat_no_cluster v cap G x _ (proj1 (Hch x Hx)) Hl). apply (fat_sector v cap G). unfold valid in Hc. lia. }
  split; [| done]. constructor; [done | | by auto]. eapply within_mono; [done |]. intros l (x & Hx & Hl). right. right. exists x. split; [by apply Hch | done].
Qed.

Section Place.
Context (env : nat -> response) (sure : Prop) (cap : Z) (v : Volume) (d : DirRef) (mu0 : medium) (files : list DirFile).
Context (nm : list Z) (attrs flags first len : Z).
Hypothesis G : geometry v cap.
Hypothesis P : proper_dir v d mu0.
Hypothesis D : dir_holds v mu0 d files.
Hypothesis Hnm : Forall (fun c => 0 < c < 128) nm /\ (1 <= length nm <= 255)%nat.
Hypothesis Hfields : 0 <= attrs < 2 ^ 16 /\ 0 <= flags < 256 /\ 0 <= first < 2 ^ 32 /\ 0 <= len < 2 ^ 64.
Abbreviation runs := (runs env sure cap).
Abbreviation set := (build_entry_set nm attrs flags first len).
Abbreviation at_ := (file_at nm attrs flags first len).
Abbreviation cb := (Z.to_nat (cluster_bytes v)).

(** [d] lists one more file, and has perhaps grown by the clusters [ext]. *)
Record placed (ext : list Z) (mu : medium) : Prop := {
  pl_conf : confined v (dchain v mu0 d ++ ext) mu0 mu;
  pl_marks : marks v true ext mu0 mu;
  pl_free : Forall (fun c => valid v c /\ used mu0 v c = false) ext;
  pl_nodup : NoDup ext;
  pl_chain : dchain v mu d = dchain v mu0 d ++ ext;
  pl_list : exists idx, inserted (dir_data v mu0 d) (dir_data v mu d) (at_ idx) }.

Lemma set_bytes : Forall is_byte set /\ length set = ((2 + names_count nm) * DIR_ENTRY)%nat.
Proof. split; [by apply entry_set_bytes, Hfields | apply length_entry_set]. Qed.

(** Writing back a directory whose bytes [offset ..] became the set. *)
Lemma runs_store_set ext mu offset (Q : unit -> medium -> Prop) (E : string -> medium -> Prop) idx :
  grown v d mu0 ext mu -> (offset + length set <= length (dir_data v mu d))%nat ->
  inserted (dir_data v mu0 d) (splice (dir_data v mu d) offset set) (at_ idx) ->
  (forall mu', placed ext mu' -> Q tt mu') ->
  (~ sure -> forall e mu', confined v (dchain v mu0 d ++ ext) mu0 mu' -> E e mu') ->
  runs (ok ← store_dir_range env v (dchain v mu d) (splice (dir_data v mu d) offset set) (Z.of_nat offset) (Z.of_nat (length set)); guard (negb ok) "directory write failed") mu Q E.
Proof.
  intros Hg Hoff Hins HQ HE. pose proof (grown_chain v d mu0 P ext mu Hg) as [Hnd Hin]. pose proof Hg as [G1 G2 G3 G4 G5 G6].
  destruct set_bytes as [Hb Hl]. pose proof (co_ok _ _ _ _ G1) as Hok. assert (Forall (valid v) (dchain v mu d)) as Hv by (apply Forall_forall; intros c Hc; by apply Hin).
  assert (length (dir_data v mu d) = length (dchain v mu d) * cb)%nat as Hlen by by apply (chain_data_length v cap G).
  assert (forall mu', media_ok mu' -> within (in_chain v (dchain v mu d)) mu mu' -> confined v (dchain v mu0 d ++ ext) mu0 mu'
    /\ forall c, valid v c -> used mu' v c = used mu v c /\ fat_at mu' v c = fat_at mu v c) as Hconf.
  { intros mu' Hok' Hw. destruct (confined_in_chain cap v (dchain v mu d) (dchain v mu0 d ++ ext) mu mu' G Hok') as [C1 C2]; [| done |].
    - intros c Hc. destruct (Hin c Hc) as (A & _ & B). split; [done |]. split; [done |]. by rewrite <- G5.
    - split; [by eapply confined_trans | done]. }
  apply runs_bind. eapply runs_store_dir_range; [exact G | done | done | | | done | | |].
  - split; [by rewrite length_splice | apply splice_bytes; [| done]]. apply (chain_data_bytes v cap G). done.
  - rewrite length_splice by done. unfold DIR_ENTRY in Hl. lia.
  - by apply (splice_right cap v).
  - intros mu' Hok' Hw Hdata. destruct (Hconf mu' Hok' Hw) as [C1 C2]. apply runs_guard; [done |]. intros _. apply HQ.
    assert (dchain v mu' d = dchain v mu d) as Hch by (apply chain_of_frame; intros c Hc; apply C2; by eapply Forall_elem).
    constructor; [done | | done | done | by rewrite Hch | exists idx; unfold dir_data at 2; by rewrite Hch, Hdata].
    intros c Hc. rewrite (proj1 (C2 c Hc)). by apply G2.
  - intros Hs mu' Hok' Hw. apply runs_guard; [| done]. intros _. apply HE; [done |]. by apply Hconf.
Qed.

Lemma fields_ok : 0 <= attrs < 2 ^ 16 /\ 0 <= first < 2 ^ 32 /\ 0 <= len < 2 ^ 64.
Proof. by destruct Hfields as (? & _ & ? & ?). Qed.

(** The set goes into deleted entries, or behind the last one where the root may grow. *)
Lemma runs_place_entry_set (Q : unit -> medium -> Prop) (E : string -> medium -> Prop) :
  (forall ext mu', placed ext mu' -> Q tt mu') ->
  (forall e ext mu', grown v d mu0 ext mu' -> (sure -> cannot_grow v d e mu') -> E e mu') ->
  (~ sure -> forall e ext mu', Forall (fun c => valid v c /\ used mu0 v c = false) ext -> confined v (dchain v mu0 d ++ ext) mu0 mu' -> E e mu') ->
  runs (place_entry_set env v d set) mu0 Q E.
Proof.
  intros HQ HE HEn. destruct set_bytes as [Hb Hl]. pose proof (pd_ok _ _ _ P) as Hok. pose proof (cluster_bytes_range cap v G) as Hcb. pose proof (grown_start v d mu0 P) as Hg0.
  assert (forall ext mu', grown v d mu0 ext mu' -> ~ sure -> forall e mu2, confined v (dchain v mu0 d ++ ext) mu0 mu2 -> E e mu2) as Hbad.
  { intros ext mu' Hg Hs e mu2. by apply HEn, Hg. }
  destruct (dh_tidy _ _ _ _ D) as (items & ends & L). pose proof (layout_chunks _ _ _ L) as Hch. set (live := entries items) in *.
  assert (length (dir_data v mu0 d) = (length live + length ends) * DIR_ENTRY)%nat as Hlen.
  { rewrite (la_data _ _ _ L), (length_mjoin DIR_ENTRY), length_app by apply L. done. }
  assert ((length set / DIR_ENTRY)%nat = (2 + names_count nm)%nat) as Hneed by (rewrite Hl; by apply Nat.div_mul).
  unfold place_entry_set. apply runs_bind. eapply runs_load_dir; [exact G | exact D | |].
  2: { intros Hs. apply runs_bind, runs_lift. eapply (Hbad [] mu0); [done | done |]. by apply confined_refl. }
  apply runs_bind, runs_lift. cbn [ok_or]. cbn zeta. rewrite Hneed, Hch.
  pose proof (find_place_spec (2 + names_count nm) (live ++ ends) [] 0 0 ltac:(lia) ltac:(done) ltac:(done) ltac:(by left)) as Hfp. cbn [length app] in Hfp.
  destruct (find_place (2 + names_count nm) 0 0 0 (live ++ ends)) as [[p |] em].
  - destruct Hfp as (before & run & after & Eq & <- & Hrl & Hdel). apply runs_bind, runs_ret. cbn zeta.
    eapply (runs_store_set [] mu0 _ Q E (length before)); [done | | | by apply HQ | by apply (Hbad [] mu0)].
    + apply (f_equal length) in Eq. rewrite !length_app in Eq. unfold DIR_ENTRY in *. lia.
    + eapply (placed_run nm attrs flags first len Hnm fields_ok); done.
  - assert (match em with Some e => (e * DIR_ENTRY)%nat | None => length (dir_data v mu0 d) end = length live * DIR_ENTRY)%nat as ->.
    { destruct em as [e |].
      - destruct Hfp as (live' & en & rest & Eq & -> & H1 & H2). by rewrite (live_unique live ends live' (en :: rest) (entries_live items (la_items _ _ _ L)) (la_ends _ _ _ L) H1 H2 Eq).
      - rewrite Hlen. destruct ends as [| e ends]; [cbn [length]; lia |]. exfalso.
        apply Forall_app in Hfp as [_ Hfp]. apply Forall_cons in Hfp as [Hfp _]. pose proof (la_ends _ _ _ L) as He. by apply Forall_cons in He as [He _]. }
    apply runs_bind, runs_bind. eapply runs_grow; [exact G | done | exact Hg0 | unfold DIR_ENTRY in *; lia | | | done].
    2: { intros e ext mu' Hg Hs. by eapply HE. }
    intros ext mu' Hg Hroom. pose proof (gr_data _ _ _ _ _ Hg) as Hd. apply runs_ret. cbn zeta.
    assert (cb = cb / DIR_ENTRY * DIR_ENTRY)%nat as Hcb32.
    { unfold cluster_bytes, SECTOR, DIR_ENTRY in *. pose proof (ge_spc _ _ G). replace (Z.to_nat (sectors_per_cluster v * 512)) with (Z.to_nat (sectors_per_cluster v) * 16 * 32)%nat by lia. by rewrite Nat.div_mul. }
    pose proof (layout_extend _ _ _ (length ext * (cb / DIR_ENTRY)) L) as L2.
    replace (length ext * (cb / DIR_ENTRY) * DIR_ENTRY)%nat with (length ext * cb)%nat in L2 by lia. rewrite <- Hd in L2.
    eapply (runs_store_set ext mu' _ Q E (length live)); [done | lia | | by apply HQ | by apply (Hbad ext mu')].
    eapply (placed_end nm attrs flags first len Hnm fields_ok); [done | done |].
    rewrite length_app, length_replicate. rewrite Hd, length_app, length_replicate, Hlen in Hroom. unfold DIR_ENTRY in *. lia.
Qed.
End Place.
End ExfatPlace.
