(* ===== verification/ExfatOps.v ===== *)
(** Operations on an exFAT volume (src/fs/exfat.rs) against the tree it holds: reading
    returns what the tree says, and creating a file adds exactly that file to the tree. *)

From Stdlib Require Import ZArith Lia.
From stdpp Require Import base list list_numbers numbers decidable tactics strings gmap sorting.
From S2P Require Import Prelude BlockDev FatNames Exfat ExfatDisk ExfatBitmap ExfatChain ExfatDir ExfatWrite ExfatTree ExfatCreate ExfatPlace.
Import Blk FatNames Exfat ExfatDisk ExfatBitmap ExfatChain ExfatDir ExfatWrite ExfatTree ExfatCreate ExfatPlace.

Module ExfatOps.

Section Put.
Context (v : Volume) (cap : Z) (mu : medium) (kids : list node) (dirs : list (list Z)) (p : DirRef) (k1 k2 : list node).
Hypothesis G : geometry v cap.
Hypothesis V : volume_holds v mu kids.
Hypothesis Hdesc : descend (root_ref v) kids dirs = Some (p, k1 ++ k2).

Lemma parent_clusters : NoDup (dchain v mu p ++ owned_all v mu (k1 ++ k2))
  /\ forall c, c ∈ dchain v mu p ++ owned_all v mu (k1 ++ k2) -> valid v c /\ used mu v c = true /\ ~ bitmap_own v c.
Proof.
  destruct V as [V1 V2 V3 V4 V5 V6]. destruct (descend_update v cap mu G dirs _ _ _ _ Hdesc V3 V4) as (R & Hperm & _). rewrite Hperm in V5.
  apply NoDup_app in V5 as (V5 & _ & _). split; [done |]. intros c Hc. apply V6. rewrite Hperm. set_solver.
Qed.

(** New nodes [mid] in a folder, made of clusters [cs] that were free, while the folder may
    have grown by the free clusters [ext]. *)
Lemma volume_put mu' cs ext mid : confined v (dchain v mu p ++ ext ++ cs) mu mu' ->
  NoDup (ext ++ cs) -> Forall (fun c => valid v c /\ used mu v c = false) (ext ++ cs) ->
  dchain v mu' p = dchain v mu p ++ ext -> dir_holds v mu' p (map entry (k1 ++ mid ++ k2)) ->
  (forall c, c ∈ dchain v mu' p -> used mu' v c = true) ->
  Forall (holds v mu') mid -> (owned_all v mu' mid = cs \/ owned_all v mu' mid = []) -> (forall c, c ∈ owned_all v mu' mid -> used mu' v c = true) ->
  volume_holds v mu' (replace_at kids dirs (k1 ++ mid ++ k2)).
Proof.
  intros C Hnd Hfree Hch Hdir Hud Hmid Hown Hum. destruct parent_clusters as [Pnd Pin].
  assert (forall c, c ∈ ext ++ cs -> valid v c /\ used mu v c = false) as Hf by (intros c Hc; by apply (Forall_elem _ _ _ Hfree)).
  assert (forall c, c ∈ ext ++ cs -> (c ∉ dchain v mu p ++ owned_all v mu (k1 ++ k2))) as Hdis.
  { intros c Hc Hin. destruct (Hf c Hc) as [_ Hn]. destruct (Pin c Hin) as (_ & Hu & _). by rewrite Hn in Hu. }
  assert (forall c, c ∈ owned_all v mu (k1 ++ k2) -> kept v (dchain v mu p ++ ext ++ cs) c) as Hkept.
  { intros c Hc. split; [| apply Pin; set_solver]. apply NoDup_app in Pnd as (_ & Hd & _). intros [H | H]%elem_of_app; [by apply (Hd c) | apply (Hdis c H); set_solver]. }
  destruct (descend_holds v mu dirs _ _ _ _ (vh_root _ _ _ V) (vh_kids _ _ _ V) Hdesc) as [_ Hks].
  destruct (nodes_frame v cap _ mu mu' G C (k1 ++ k2) Hks Hkept) as [Hks' Ho']. rewrite owned_all_app in Ho', Hkept, Pnd, Pin, Hdis. rewrite owned_all_app in Ho'.
  assert (owned_all v mu' k1 ++ owned_all v mu' mid ++ owned_all v mu' k2 ≡ₚ owned_all v mu' mid ++ owned_all v mu k1 ++ owned_all v mu k2) as Hperm by (rewrite <- Ho'; solve_Permutation).
  assert (forall c, c ∈ owned_all v mu' mid -> c ∈ cs) as Hmcs by (destruct Hown as [-> | ->]; [done | intros c Hc; by apply not_elem_of_nil in Hc]).
  eapply (volume_update v cap mu G _ _ _ _ mu' _ _ V Hdesc C); cbn zeta.
  - intros c [Hc | Hc]%elem_of_app; [left; set_solver | right; by apply Hf].
  - done.
  - rewrite !Forall_app in *. naive_solver.
  - rewrite !owned_all_app, Hperm, Hch. apply NoDup_app in Hnd as (N1 & N2 & N3).
    assert (NoDup (owned_all v mu' mid)) as Nm by (destruct Hown as [-> | ->]; [done | constructor]).
    assert ((dchain v mu p ++ ext) ++ owned_all v mu' mid ++ owned_all v mu k1 ++ owned_all v mu k2
      ≡ₚ (ext ++ owned_all v mu' mid) ++ (dchain v mu p ++ owned_all v mu k1 ++ owned_all v mu k2)) as -> by solve_Permutation.
    apply NoDup_app. split; [apply NoDup_app; split_and!; [done | intros c Hc Hm; by apply (N2 c Hc), Hmcs | done] |]. split; [| done].
    intros c Hc. apply Hdis. set_solver.
  - intros c. rewrite !owned_all_app, Hperm, Hch, !elem_of_app. intros [[Hc | Hc] | [Hc | Hc]].
    + split; [left; set_solver | apply Hud; rewrite Hch; set_solver].
    + split; [right; apply Hf; set_solver | apply Hud; rewrite Hch; set_solver].
    + split; [right; apply Hf; set_solver | by apply Hum].
    + assert (c ∈ owned_all v mu k1 ++ owned_all v mu k2) as Hc' by set_solver. split; [left; set_solver |].
      destruct (Hkept c Hc') as [Hn _]. destruct (Pin c) as (Hv & Hu & _); [set_solver |]. by rewrite (proj1 (co_rest _ _ _ _ C c Hv Hn)).
Qed.
End Put.

(** * Paths *)

Lemma split_slash_bytes (P : Z -> Prop) path : forall cur, Forall P path -> Forall P cur -> Forall (Forall P) (split_slash cur path).
Proof.
  induction path as [| c path IH]; intros cur Hp Hc; cbn [split_slash]; [by apply Forall_singleton |]. apply Forall_cons in Hp as [H1 H2].
  destruct (c =? 47); [constructor; [done | by apply IH] | apply IH; [done | apply Forall_app; split; [done | by apply Forall_singleton]]].
Qed.
Lemma last_component (P : Z -> Prop) path nm : Forall P path -> last (components path) = Some nm -> Forall P nm.
Proof.
  intros Hp Hl. apply last_Some_elem_of in Hl. apply list_elem_of_filter in Hl as [_ Hl].
  eapply Forall_elem; [by apply (split_slash_bytes P path []) | done].
Qed.
Lemma descend_root v dirs : forall d kids p ks, descend d kids dirs = Some (p, ks) -> (is_root d = true -> d = root_ref v) -> is_root p = true -> p = root_ref v.
Proof.
  induction dirs as [| comp dirs IH]; intros d kids p ks; cbn [descend]; [by intros [= <- <-] |].
  destruct (List.find _ kids) as [[| f ks'] |]; [done | | done]. intros H _. by eapply IH.
Qed.
Lemma valid_name nm : Forall (fun c => 0 < c < 256) nm -> validate_name nm = Ok tt -> Forall (fun c => 0 < c < 128) nm /\ (1 <= length nm <= 255)%nat.
Proof.
  unfold validate_name. intros Hb H. destruct (bool_decide_reflect (nm = [])) as [-> | Hne]; [done |].
  destruct (255 <? Z.of_nat (length nm)) eqn:El; [done |]. destruct (forallb (fun b => b <? 128) nm) eqn:Ea; [| done].
  split; [| apply Z.ltb_ge in El; assert (length nm <> 0)%nat by (by destruct nm); lia]. apply Forall_forall. intros c Hc. rewrite forallb_forall in Ea. specialize (Ea c (proj1 (list_elem_of_In _ _) Hc)).
  pose proof (Forall_elem _ _ _ Hb Hc) as Hc2. cbn beta in Hc2, Ea. apply Z.ltb_lt in Ea. lia.
Qed.
Lemma replace_same dirs : forall d kids p ks, descend d kids dirs = Some (p, ks) -> replace_at kids dirs ks = kids.
Proof.
  induction dirs as [| comp dirs IH]; intros d kids p ks; cbn [descend replace_at]; [by intros [= <- <-] |].
  destruct (List.find (folder_named comp) kids) as [[| f ks'] |] eqn:Ef; [done | | done]. intros H.
  destruct (update_first_split _ _ _ Ef) as (l1 & l2 & -> & Hf). rewrite Hf. by rewrite (IH _ _ _ _ H).
Qed.

(** * Adding a node *)

(** Clusters that were free were taken, and nothing else changed. *)
Record taken (v : Volume) (cs : list Z) (m m' : medium) : Prop := {
  ta_valid : forall c, c ∈ cs -> valid v c;
  ta_free : forall c, c ∈ cs -> used m v c = false;
  ta_nodup : NoDup cs;
  ta_conf : confined v cs m m';
  ta_marks : marks v true cs m m' }.
Lemma stored_taken v data first m m' : stored_at v data first m m' -> taken v (chain_for v m first data) m m'.
Proof.
  intros [S1 S2 S3 Sn S4 S5 S6 S7]. constructor; try done. intros c Hc. eapply Forall_elem; [by apply (chain_of_valid m v _ _ _ S2) | done].
Qed.

Section Add.
Context (env : nat -> response) (sure : Prop) (cap : Z) (v : Volume) (mu : medium) (kids : list node) (path : list Z) (space : string -> Prop).
Hypothesis G : geometry v cap.
Hypothesis V : volume_holds v mu kids.
Hypothesis Hpath : Forall (fun c => 0 < c < 256) path.
Abbreviation runs := (runs env sure cap).
Abbreviation dirs := (removelast (components path)).

(** The tree with one node more at [path], in the folder that exists there. *)
Definition added (mk : DirFile -> node) (m : medium) : Prop := exists p k1 k2 nm f,
  parent_of v kids path = Some (p, k1 ++ k2, nm) /\ List.find (named nm) (k1 ++ k2) = None /\ name f = nm
  /\ volume_holds v m (replace_at kids dirs (k1 ++ mk f :: k2)).
(** Why a working volume refuses. *)
Inductive refused : string -> Prop :=
| refused_parent : parent_of v kids path = None -> refused "no such directory"
| refused_name p ks nm e : parent_of v kids path = Some (p, ks, nm) -> validate_name nm = Err e -> refused e
| refused_exists p ks nm n : parent_of v kids path = Some (p, ks, nm) -> List.find (named nm) ks = Some n -> refused "already exists"
| refused_space e : space e -> refused e
| refused_folder p ks nm : parent_of v kids path = Some (p, ks, nm) -> is_root p = false -> refused "directory full"
| refused_root p ks nm : parent_of v kids path = Some (p, ks, nm) -> is_root p = true -> refused "disk full".
(** Nothing in use has changed, but for the clusters of the folder itself. *)
Definition harmless (m : medium) : Prop := exists cs, confined v cs mu m /\ forall c, c ∈ cs ->
  used mu v c = false \/ exists p ks nm, parent_of v kids path = Some (p, ks, nm) /\ c ∈ dchain v mu p.
Definition add_error (e : string) (m : medium) : Prop := (sure -> refused e /\ volume_holds v m kids) /\ harmless m.

Lemma harmless_same : harmless mu.
Proof. exists []. split; [apply confined_refl, V |]. intros c Hc. by apply not_elem_of_nil in Hc. Qed.
Lemma harmless_free cs m : confined v cs mu m -> (forall c, c ∈ cs -> used mu v c = false) -> harmless m.
Proof. intros C Hf. exists cs. auto. Qed.

Lemma runs_new_name (Q : DirRef * list Z -> medium -> Prop) (E : string -> medium -> Prop) :
  (forall p ks nm, parent_of v kids path = Some (p, ks, nm) -> validate_name nm = Ok tt -> List.find (named nm) ks = None -> Q (p, nm) mu) ->
  (forall e, (sure -> refused e) -> E e mu) -> runs (new_name env v path) mu Q E.
Proof.
  intros HQ HE. unfold new_name. apply runs_bind. eapply runs_resolve_parent; [exact G | exact V | |].
  2: { intros Hs. apply runs_bind, runs_lift. by apply HE. }
  destruct (parent_of v kids path) as [[[p ks] nm] |] eqn:Hp; cbn [fmap option_fmap option_map].
  2: { apply runs_bind, runs_lift. apply HE. intros _. by constructor. }
  apply runs_bind, runs_lift. cbn [ok_or]. destruct (parent_holds v mu kids path p ks nm V Hp) as (Hd & _ & _).
  apply runs_bind, runs_lift. destruct (validate_name nm) as [[] | e |] eqn:Ev.
  - apply runs_bind. eapply runs_load_dir; [exact G | exact Hd | |].
    + apply runs_bind, runs_lift. cbn [ok_or]. apply runs_bind. rewrite (dh_list _ _ _ _ Hd).
      apply runs_guard; intros Hx.
      * apply HE. intros _. destruct (List.find (named nm) ks) as [n |] eqn:Ef; [by eapply refused_exists |]. exfalso.
        apply existsb_exists in Hx as (f & (n & <- & Hn)%in_map_iff & Hf). pose proof (List.find_none _ _ Ef n Hn) as Hx. unfold named in Hx. by rewrite Hf in Hx.
      * apply runs_ret. eapply HQ; [done | done |]. destruct (List.find (named nm) ks) as [n |] eqn:Ef; [| done]. exfalso.
        apply List.find_some in Ef as [Hn Hf]. assert (existsb (fun f => names_equal_ascii (name f) nm) (map entry ks) = true) as Ht; [| by rewrite Hx in Ht].
        apply existsb_exists. exists (entry n). split; [by apply in_map | done].
    + intros Hs. apply runs_bind, runs_lift. by apply HE.
  - apply HE. intros _. by eapply refused_name.
  - exfalso. revert Ev. unfold validate_name. no_panic.
Qed.


Section Parent.
Context (p : DirRef) (ks : list node) (nm : list Z).
Hypothesis Hparent : parent_of v kids path = Some (p, ks, nm).

Lemma parent_desc : descend (root_ref v) kids dirs = Some (p, ks).
Proof. by destruct (parent_holds v mu kids path p ks nm V Hparent) as (_ & _ & ?). Qed.
Lemma parent_proper : proper_dir v p mu /\ dir_holds v mu p (map entry ks).
Proof.
  clear Hpath. destruct (parent_holds v mu kids path p ks nm V Hparent) as (Hd & Hks & Hdesc). split; [| done].
  destruct (parent_clusters v cap mu kids dirs p ks [] G V) as [H1 H2]; [by rewrite app_nil_r |]. apply NoDup_app in H1 as (H1 & _ & _).
  constructor; [apply V | apply V | apply Hd | apply Hd | done | |].
  - intros c Hc. apply H2. set_solver.
  - by apply (descend_root v _ _ _ _ _ Hdesc).
Qed.
Lemma parent_name : validate_name nm = Ok tt -> Forall (fun c => 0 < c < 128) nm /\ (1 <= length nm <= 255)%nat.
Proof.
  apply valid_name. pose proof Hparent as Hp. unfold parent_of in Hp. destruct (last (components path)) as [nm' |] eqn:El; [| done].
  destruct (descend _ _ _) as [[d' ks'] |]; [| done]. cbn in Hp. simplify_eq. by eapply last_component.
Qed.

Section Taken.
Context (cs : list Z) (mu1 : medium).
Hypothesis T : taken v cs mu mu1.

(** The folder is the same once the clusters are taken. *)
Lemma parent_taken : proper_dir v p mu1 /\ dir_holds v mu1 p (map entry ks) /\ dchain v mu1 p = dchain v mu p
  /\ (forall c, valid v c -> used mu1 v c = false -> used mu v c = false /\ (c ∉ cs)).
Proof.
  destruct T as [S2 S3 Sn S4 S5]. destruct parent_proper as [[P1 P2 P3 P4 P5 P6 P7] D].
  assert (forall c, used mu v c = true -> (c ∉ cs)) as Hn by (intros c Hu Hc; by rewrite (S3 c Hc) in Hu).
  destruct (dir_frame v cap cs mu mu1 G S4 p (map entry ks) D) as [D1 E1].
  { intros c Hc. destruct (P6 c Hc) as (_ & Hu & Ho). split; [by apply Hn | done]. }
  split; [| split; [done | split; [done |]]].
  - constructor; rewrite ?E1; try done; [apply S4 | |].
    + intros c Ho. rewrite (S5 c (bitmap_valid v cap G c Ho)). case_decide; [done | by apply P2].
    + intros c Hc. destruct (P6 c Hc) as (Hv & Hu & Ho). split; [done |]. split; [| done]. rewrite (S5 c Hv). by case_decide.
  - intros c Hv Hu. rewrite (S5 c Hv) in Hu. by case_decide.
Qed.
(** Free clusters the folder grew by, and the clusters taken, are apart. *)
Lemma taken_apart ext : Forall (fun c => valid v c /\ used mu1 v c = false) ext -> NoDup ext ->
  (forall c, c ∈ cs -> (c ∉ dchain v mu1 p ++ ext)) /\ NoDup (ext ++ cs) /\ Forall (fun c => valid v c /\ used mu v c = false) (ext ++ cs).
Proof.
  intros He Hnd. destruct parent_taken as (P1 & D1 & E1 & Hfree). destruct parent_proper as [Pp _]. destruct T as [S2 S3 Sn S4 S5].
  assert (forall c, c ∈ cs -> (c ∉ dchain v mu1 p ++ ext)) as Hcs.
  { intros c Hc [Hx | Hx]%elem_of_app.
    - rewrite E1 in Hx. destruct (pd_used _ _ _ Pp c Hx) as (_ & Hu & _). by rewrite (S3 c Hc) in Hu.
    - destruct (Forall_elem _ _ _ He Hx) as [Hv Hu]. by destruct (Hfree c Hv Hu). }
  split; [done |]. split.
  - apply NoDup_app. split; [done |]. split; [intros c Hc Hx; apply (Hcs c Hx); set_solver | done].
  - apply Forall_app. split; apply Forall_forall; intros c Hc; [| by auto]. destruct (Forall_elem _ _ _ He Hc) as [Hv Hu]. by destruct (Hfree c Hv Hu).
Qed.

(** A node made of the clusters taken, and a placed entry for it. *)
Lemma added_ok mk attrs flags first len ext mu2 : List.find (named nm) ks = None ->
  (forall f, entry (mk f) = f) ->
  (forall idx, holds v mu1 (mk (file_at nm attrs flags first len idx)) /\ owned v mu1 (mk (file_at nm attrs flags first len idx)) = cs) ->
  placed v p mu1 nm attrs flags first len ext mu2 -> added mk mu2.
Proof.
  intros Hnew Hmk Hholds [L1 L2 L3 L4 L5 (idx & Htidy & l1 & l2 & I1 & I2)]. destruct parent_taken as (P1 & D1 & E1 & Hfree).
  destruct (taken_apart ext L3 L4) as (Hcs & Hnd & Hfr). destruct T as [S2 S3 Sn S4 S5]. pose proof parent_desc as Hdesc.
  set (f := file_at nm attrs flags first len idx) in *. destruct (Hholds idx) as [Hf1 Hf2]. fold f in Hf1, Hf2.
  assert (exists k1 k2, ks = k1 ++ k2 /\ map entry k1 = l1 /\ map entry k2 = l2) as (k1 & k2 & Hks & <- & <-).
  { apply map_eq_app. by rewrite <- (dh_list _ _ _ _ D1). }
  rewrite Hks in Hdesc, Hparent, Hnew.
  assert (forall c, valid v c -> used mu1 v c = true -> used mu2 v c = true) as Hbits by (intros c Hv Hu; rewrite (L2 c Hv); by case_decide).
  destruct (node_frame v cap _ mu1 mu2 G L1 (mk f) Hf1) as [F1 F2].
  { rewrite Hf2. intros c Hc. split; [by apply Hcs |]. intros Ho. pose proof (vh_self _ _ _ V c Ho) as Hu. by rewrite (S3 c Hc) in Hu. }
  exists p, k1, k2, nm, f. split; [done |]. split; [done |]. split; [done |].
  assert (owned_all v mu2 [mk f] = cs) as Hown by (rewrite <- Hf2, <- F2; exact (app_nil_r _)).
  apply (volume_put v cap mu kids dirs p k1 k2 G V Hdesc mu2 cs ext [mk f]); rewrite ?Hown; [| done | done | | | | by apply Forall_singleton | by left |].
  - rewrite E1 in L1. eapply confined_trans; [eapply confined_mono; [exact S4 |]; set_solver | eapply confined_mono; [exact L1 |]; set_solver].
  - by rewrite L5, E1.
  - destruct D1 as [A1 A2 A3 A4]. constructor; [done | rewrite L5; by destruct (dchain v mu1 p) | done |]. rewrite I2, !map_app. cbn [map app]. by rewrite Hmk.
  - intros c Hc. rewrite L5 in Hc. apply elem_of_app in Hc as [Hc | Hc].
    + destruct (pd_used _ _ _ P1 c Hc) as (Hv & Hu & _). by apply Hbits.
    + destruct (Forall_elem _ _ _ L3 Hc) as [Hv _]. by rewrite (L2 c Hv), decide_True.
  - intros c Hc. apply Hbits; [by auto |]. rewrite (S5 c (S2 c Hc)). by rewrite decide_True.
Qed.

(** The clusters are free again: the tree is as it was. *)
Lemma undone ext mu2 mu3 : grown v p mu1 ext mu2 -> confined v cs mu2 mu3 -> marks v false cs mu2 mu3 -> volume_holds v mu3 kids.
Proof.
  intros Hg C3 M3. destruct parent_taken as (P1 & D1 & E1 & Hfree). pose proof (grown_chain v p mu1 P1 ext mu2 Hg) as [_ Hin].
  pose proof Hg as [L1 L2 L3 L4 L5 L6]. destruct (taken_apart ext L3 L4) as (Hcs & Hnd & Hfr). rewrite <- L5 in Hcs.
  assert (dir_holds v mu2 p (map entry ks)) as D2.
  { destruct D1 as [A1 A2 (live & ends & L) A4]. pose proof (ge_spc _ _ G) as Gs.
    pose proof (layout_extend _ _ _ (length ext * (Z.to_nat (sectors_per_cluster v) * 16)) L) as L'.
    replace (length ext * (Z.to_nat (sectors_per_cluster v) * 16) * DIR_ENTRY)%nat with (length ext * Z.to_nat (cluster_bytes v))%nat in L' by (unfold cluster_bytes, SECTOR, DIR_ENTRY; lia).
    rewrite <- L6 in L'. constructor; [done | rewrite L5; by destruct (dchain v mu1 p) | by eexists _, _ |]. by rewrite (parse_layout _ _ _ L'), <- (parse_layout _ _ _ L). }
  destruct (dir_frame v cap cs mu2 mu3 G C3 p (map entry ks) D2) as [D3 E3].
  { intros c Hc. split; [intros Hx; by apply (Hcs c Hx) | by apply Hin]. }
  rewrite <- (replace_same dirs _ _ _ _ parent_desc). rewrite <- (app_nil_r ks).
  apply (volume_put v cap mu kids dirs p ks [] G V ltac:(rewrite app_nil_r; apply parent_desc) mu3 cs ext []); [| done | done | | | | constructor | by right |].
  - rewrite E1 in L1. eapply confined_trans; [eapply confined_mono; [apply T |]; set_solver |].
    eapply confined_trans; [eapply confined_mono; [exact L1 |]; set_solver | eapply confined_mono; [exact C3 |]; set_solver].
  - by rewrite E3, L5, E1.
  - by rewrite app_nil_r.
  - intros c Hc. rewrite E3 in Hc. destruct (Hin c Hc) as (Hv & Hu & _). rewrite (M3 c Hv). case_decide; [by destruct (Hcs c) | done].
  - intros c Hc. by apply not_elem_of_nil in Hc.
Qed.

(** The entry set is placed, or the clusters taken are given back. *)
Lemma runs_place_or_undo mk attrs flags first len (undo : X unit) : List.find (named nm) ks = None -> validate_name nm = Ok tt ->
  (forall f, entry (mk f) = f) ->
  (forall idx, holds v mu1 (mk (file_at nm attrs flags first len idx)) /\ owned v mu1 (mk (file_at nm attrs flags first len idx)) = cs) ->
  0 <= attrs < 2 ^ 16 /\ 0 <= flags < 256 /\ 0 <= first < 2 ^ 32 /\ 0 <= len < 2 ^ 64 ->
  (forall m (Q : unit -> medium -> Prop) E, media_ok m -> (forall m', confined v cs m m' -> (marks v false cs m m' \/ ~ sure) -> Q tt m') -> runs undo m Q E) ->
  runs (or_undo (place_entry_set env v p (build_entry_set nm attrs flags first len)) undo) mu1 (fun _ m => added mk m) add_error.
Proof.
  intros Hnew Hname Hmk Hholds Hfields Hundo. destruct parent_taken as (P1 & D1 & E1 & Hfree). pose proof T as [S2 S3 Sn S4 S5].
  assert (forall e ext m, Forall (fun c => valid v c /\ used mu1 v c = false) ext -> confined v (dchain v mu1 p ++ ext) mu1 m ->
    (sure -> refused e /\ grown v p mu1 ext m) -> runs (_ ← undo; (fail e : X unit)) m (fun _ m => added mk m) add_error) as Hrb.
  { intros e ext m He C Hr. apply runs_bind, Hundo; [apply C |]. intros m' C' M'. apply runs_fail. split.
    - intros s. destruct (Hr s) as [Hr1 Hr2]. split; [done |]. destruct M' as [M' | ?]; [| done]. by eapply (undone ext m m').
    - exists (dchain v mu1 p ++ ext ++ cs). split.
      + eapply confined_trans; [eapply confined_mono; [exact S4 |]; set_solver |].
        eapply confined_trans; [eapply confined_mono; [exact C |]; set_solver | eapply confined_mono; [exact C' |]; set_solver].
      + intros c. rewrite !elem_of_app. intros [Hc | [Hc | Hc]]; [right; exists p, ks, nm; by rewrite <- E1 | left | left; by apply S3].
        destruct (Forall_elem _ _ _ He Hc) as [Hv Hu]. by destruct (Hfree c Hv Hu). }
  apply runs_bind, runs_catch. eapply runs_place_entry_set; [exact G | exact P1 | exact D1 | by apply parent_name | exact Hfields | | |].
  - intros ext m Hpl. apply runs_ret. by eapply added_ok.
  - intros e ext m Hg Hc. apply (Hrb e ext); [apply Hg | apply Hg |]. intros s. split; [| done]. destruct (Hc s) as [[-> Hr] | (-> & Hr & _)]; [by eapply refused_folder | by eapply refused_root].
  - intros Hs e ext m He C. by apply (Hrb e ext).
Qed.
End Taken.
End Parent.
End Add.

(** * Creating a file *)

Section Create.
Context (env : nat -> response) (sure : Prop) (cap : Z) (v : Volume) (mu : medium) (kids : list node) (path data : list Z).
Hypothesis G : geometry v cap.
Hypothesis V : volume_holds v mu kids.
Hypothesis Hpath : Forall (fun c => 0 < c < 256) path.
Hypothesis Hdata : Forall is_byte data /\ Z.of_nat (length data) < 2 ^ 63.
Abbreviation runs := (runs env sure cap).
Abbreviation len := (Z.of_nat (length data)).

Definition no_room (e : string) : Prop :=
  e = "no contiguous space"%string /\ data <> [] /\ no_fit mu v ((len + cluster_bytes v - 1) / cluster_bytes v).
(** A file whose entry points at the stored data. *)
Lemma stored_holds f first mu1 : stored_at v data first mu mu1 -> is_dir f = false -> first_cluster f = first -> data_length f = len -> no_fat_chain f = nfc_of data ->
  holds v mu1 (File f data) /\ owned v mu1 (File f data) = chain_for v mu first data.
Proof.
  intros [S1 S2 S3 Sn S4 S5 S6 S7] Hd Hfc Hdl Hn. assert (fchain v mu1 f = chain_for v mu first data) as Hch.
  { unfold fchain, chain_for. rewrite Hn, Hfc, Hdl. unfold chain_of, nfc_of. destruct (bool_decide_reflect (data = [])) as [He | ?]; cbn [negb]; [| done]. by rewrite (proj2 S1 He). }
  split; [| done]. cbn [holds]. constructor; rewrite ?Hch, ?Hn, ?Hfc, ?Hdl; done.
Qed.
Lemma flags_no_chain : negb (Z.land (stream_flags data) FLAG_NO_FAT_CHAIN =? 0) = nfc_of data.
Proof. unfold stream_flags, nfc_of. by destruct (bool_decide (data = [])). Qed.

(** Giving the data's clusters back. *)
Lemma runs_rollback_stored first mu1 m (Q : unit -> medium -> Prop) E : stored_at v data first mu mu1 -> media_ok m ->
  (forall m', confined v (chain_for v mu first data) m m' -> (marks v false (chain_for v mu first data) m m' \/ ~ sure) -> Q tt m') ->
  runs (rollback_contiguous env v first (Z.of_nat (length data))) m Q E.
Proof.
  intros St Hok HQ. pose proof (sa_first _ _ _ _ _ St) as [_ H0]. pose proof (sa_fits _ _ _ _ _ St) as Hf. unfold rollback_contiguous.
  assert (nfc_of data = true -> chain_of m v first true (Z.of_nat (length data)) = chain_for v mu first data) as Hch by (unfold chain_for; by intros ->).
  destruct ((2 <=? first) && (0 <? Z.of_nat (length data))) eqn:Eb.
  - assert (nfc_of data = true) as Hn by (unfold nfc_of; destruct data; [by rewrite andb_false_r in Eb | done]). rewrite Hn in Hf.
    eapply runs_free_clusters; [exact G | done | done |]. by rewrite (Hch Hn).
  - apply runs_ret, HQ; [by apply confined_refl |]. left. intros c _. rewrite decide_False; [done |].
    unfold chain_for, chain_of. case_match eqn:E2; [apply not_elem_of_nil |]. destruct data as [| b l]; [by rewrite H0 in E2 by done |].
    apply andb_false_iff in Eb as [Eb | Eb]; [apply Z.leb_gt in Eb; apply Z.ltb_ge in E2; lia | cbn [length] in Eb; apply Z.ltb_ge in Eb; lia].
Qed.

Lemma runs_create_in : runs (create_in env v path data) mu (fun _ m => added v kids path (fun f => File f data) m) (add_error sure v mu kids path no_room).
Proof.
  unfold create_in. apply runs_bind. eapply runs_new_name; [exact G | exact V | |].
  2: { intros e He. split; [by auto | by apply harmless_same]. }
  intros p ks nm Hp Hname Hnew. apply runs_bind. eapply runs_write_data; [exact G | exact Hdata | apply V | apply V | | |].
  - intros first mu1 St. pose proof (stored_taken _ _ _ _ _ St) as T. cbn zeta.
    eapply (runs_place_or_undo env sure cap v mu kids path no_room G V Hpath p ks nm Hp); [exact T | done | done | done | | |].
    + intros idx. apply stored_holds; [done | done | done | done | apply flags_no_chain].
    + split; [done |]. split; [unfold stream_flags; by case_match |]. split; [apply St | lia].
    + intros m Q E Hok HQ. by eapply runs_rollback_stored.
  - intros Hor. split; [| by apply harmless_same]. intros s. destruct Hor as [[? ?] | ?]; [| done]. split; [by apply refused_space | done].
  - intros Hs e first mu' Hne Hff C. split; [done |]. eapply harmless_free; [done |].
    intros c Hc. destruct Hff as (_ & _ & F & _). apply elem_of_seqZ in Hc. apply F. lia.
Qed.
End Create.

(** * Making a folder *)

Section Mkdir.
Context (env : nat -> response) (sure : Prop) (cap : Z) (v : Volume) (mu : medium) (kids : list node) (path : list Z).
Hypothesis G : geometry v cap.
Hypothesis V : volume_holds v mu kids.
Hypothesis Hpath : Forall (fun c => 0 < c < 256) path.
Abbreviation runs := (runs env sure cap).

Definition no_cluster (e : string) : Prop := e = "disk full"%string /\ no_fit mu v 1.

(** A cleared cluster that ends its chain is an empty folder. *)
Lemma empty_folder_holds nm c idx m : media_ok m -> valid v c -> fat_at m v c = FAT_EOF -> cdata m v c = replicate (Z.to_nat (cluster_bytes v)) 0 ->
  let f := file_at nm ATTR_DIRECTORY FLAG_ALLOC_POSSIBLE c (cluster_bytes v) idx in
  holds v m (Folder f []) /\ owned v m (Folder f []) = [c].
Proof.
  intros Hok Hc Hf Hz f. assert (fchain v m f = [c]) as Hch.
  { unfold fchain, chain_of, f. cbn [file_at first_cluster no_fat_chain]. change (negb _) with false. cbn iota.
    rewrite (proj2 (Z.ltb_ge c 2)) by (unfold valid in Hc; lia). cbn [chain_from]. cbn zeta. rewrite Hf. done. }
  assert (dir_data v m (dir_ref_of f) = [] ++ replicate (Z.to_nat (sectors_per_cluster v) * 16 * DIR_ENTRY) 0) as Hd.
  { unfold dir_data. change (dchain v m (dir_ref_of f)) with (fchain v m f). rewrite Hch. unfold chain_data. cbn [map]. change (mjoin [?x]) with (x ++ []).
    rewrite app_nil_r, Hz. cbn [app]. pose proof (ge_spc _ _ G). replace (Z.to_nat (cluster_bytes v)) with (Z.to_nat (sectors_per_cluster v) * 16 * DIR_ENTRY)%nat by (unfold cluster_bytes, SECTOR, DIR_ENTRY; lia). done. }
  assert (layout [] [] []) as L0 by by constructor. pose proof (layout_extend _ _ _ (Z.to_nat (sectors_per_cluster v) * 16) L0) as L. rewrite <- Hd in L.
  split; [| cbn [owned map]; by rewrite Hch]. cbn [holds map]. split; [done |]. split; [| done].
  constructor; [| change (dchain v m (dir_ref_of f)) with (fchain v m f); by rewrite Hch | by eexists _, _ | by rewrite (parse_layout _ _ _ L)].
  intros _. split; [done |]. done.
Qed.

Lemma runs_mkdir : runs (mkdir_in env v path) mu
  (fun _ m => added v kids path (fun f => Folder f []) m) (add_error sure v mu kids path no_cluster).
Proof.
  unfold mkdir_in. apply runs_bind. eapply runs_new_name; [exact G | exact V | |].
  2: { intros e He. split; [by auto | by apply harmless_same]. }
  intros p ks nm Hp Hname Hnew. apply runs_bind. pose proof (vh_ok _ _ _ V) as Hok. pose proof (ge_count _ _ G) as Gc. pose proof (cluster_bytes_range cap v G) as Hcb.
  assert (forall c, first_fit mu v 1 (c - 2) -> valid v c /\ used mu v c = false /\ ~ bitmap_own v c) as Hnewc.
  { intros c (F1 & F2 & F3 & _). assert (used mu v c = false) as Hu by (apply F3; lia). split; [unfold valid; lia |]. split; [done |]. intros Ho. by rewrite (vh_self _ _ _ V c Ho) in Hu. }
  assert (forall e c m, ~ sure -> first_fit mu v 1 (c - 2) -> confined v [c] mu m -> add_error sure v mu kids path no_cluster e m) as Hbad.
  { intros e c m Hs (_ & Hu & _)%Hnewc C. split; [done |]. eapply harmless_free; [done |]. by intros x ->%list_elem_of_singleton. }
  eapply runs_bitmap_alloc; [exact G | lia | exact Hok | | |].
  2: { intros Hor. apply runs_bind, runs_lift. split; [| by apply harmless_same]. intros s. destruct Hor; [| done]. split; [by apply refused_space | done]. }
  2: { intros Hs m c Hff A B C. rewrite seqZ_one in C. apply runs_bind, runs_lift. eapply Hbad; [done | done | exact (confined_bits cap v G _ _ _ _ B A C)]. }
  intros mu1 c Hff W1 O1 X1. rewrite seqZ_one in X1. destruct (Hnewc c Hff) as (Hvc & Huc & Hoc). apply runs_bind, runs_lift. cbn [ok_or]. cbn zeta.
  pose proof (confined_exact cap v G _ _ _ _ O1 W1 X1) as C1. assert (c ∈ [c]) as Hin by by left.
  assert (forall e m, ~ sure -> confined v [c] mu m -> runs (_ ← (_ ← fat_write env v c 0; _ ← bitmap_set env v [c] false; mret tt); (fail e : X unit)) m
    (fun _ m => added v kids path (fun f => Folder f []) m) (add_error sure v mu kids path no_cluster)) as Hundo.
  { intros e m Hs C. apply runs_bind. eapply runs_release; [exact G | apply C | done |]. intros m' C' _. apply runs_ret, runs_fail. eapply Hbad; [done | done | by eapply confined_trans]. }
  apply runs_bind. eapply runs_zero_cluster; [exact G | done | done | |].
  2: { intros Hs mu2 O2 W2. apply runs_bind, runs_ret. apply Hundo; [done |]. eapply confined_trans; [exact C1 | exact (confined_cluster cap v G _ _ _ _ O2 Hvc Hoc Hin W2)]. }
  intros mu2 O2 W2 D2. pose proof (confined_trans _ _ _ _ _ C1 (confined_cluster cap v G _ _ _ _ O2 Hvc Hoc Hin W2)) as C2.
  apply runs_bind. eapply runs_fat_write; [exact G | done | unfold valid in Hvc; lia | unfold FAT_EOF; lia | |].
  2: { intros Hs mu3 O3 F3. apply Hundo; [done |]. destruct F3 as [-> | F3]; [done |]. eapply confined_trans; [exact C2 | exact (confined_fat cap v G _ _ _ _ _ O3 Hin F3)]. }
  intros mu3 O3 F3. cbn [negb]. pose proof (confined_trans _ _ _ _ _ C2 (confined_fat cap v G _ _ _ _ _ O3 Hin F3)) as C3.
  assert (taken v [c] mu mu3) as T.
  { constructor; [by intros x ->%list_elem_of_singleton | by intros x ->%list_elem_of_singleton | apply NoDup_singleton | done |].
    intros x Hx. rewrite (used_fat cap v G _ _ _ _ x F3 Hx), (used_within v mu1 mu2 x _ W2) by (done || intros l; by apply (bitmap_no_cluster v cap G)). by apply exactly_marks. }
  eapply (runs_place_or_undo env sure cap v mu kids path no_cluster G V Hpath p ks nm Hp); [exact T | done | done | done | | |].
  - intros idx. apply empty_folder_holds; [done | done | | by rewrite (data_fat cap v G _ _ _ _ c F3 Hvc)].
    rewrite (proj2 F3) by (unfold valid in Hvc; lia). by rewrite decide_True.
  - unfold valid in Hvc. split; [done |]. split; [done |]. lia.
  - intros m Q E Hm HQ. eapply runs_release; [exact G | done | done |]. intros m' C' M'. apply runs_ret. by apply HQ.
Qed.
End Mkdir.

(** * The calls *)

(** What the tree answers. *)
Definition tree_read (v : Volume) (kids : list node) (path : list Z) : option (list Z) :=
  match find_node v kids path with Some (_, File _ data) => Some data | _ => None end.
Definition tree_meta (v : Volume) (kids : list node) (path : list Z) : option (bool * Z) :=
  '(_, n) ← find_node v kids path; Some (is_dir (entry n), data_length (entry n)).
Definition tree_id (v : Volume) (kids : list node) (path : list Z) : option Z :=
  if bool_decide (components path = []) then Some (root_cluster v)
  else '(_, n) ← find_node v kids path; if is_dir (entry n) then Some (first_cluster (entry n)) else None.
Definition tree_list (v : Volume) (kids : list node) (path : list Z) : option (list (list Z * bool * Z)) :=
  let show n := (name (entry n), is_dir (entry n), data_length (entry n)) in
  if bool_decide (components path = []) then Some (map show kids)
  else match find_node v kids path with Some (_, Folder _ ks) => Some (map show ks) | _ => None end.

Lemma wp_with_volume {A} (none : outcome string A) (m : Volume -> X A) v d (Q : A -> fs -> Prop) (E : string -> fs -> Prop) :
  wp (m v) d (fun a d' => Q a (mkFs (Some v) d')) (fun e d' => E e (mkFs (Some v) d')) -> wp (with_volume none m) (mkFs (Some v) d) Q E.
Proof. unfold wp, with_volume. cbn. by destruct (m v d) as [[a | e |] d']. Qed.

(** A reading call: it returns [answer], or nothing on a device that does not work; the
    disk is as it was. *)
Definition answers {A} (env : nat -> response) (m : F (option A)) (v : Volume) (d : BlkDevice) (answer : option A) : Prop :=
  wp m (mkFs (Some v) d) (fun o f => volume f = Some v /\ media (device f) = media d
    /\ (o = answer \/ (o = None /\ ~ working env (capacity_sectors d) d))) (fun _ _ => False).

Lemma found_holds v m kids path p n : volume_holds v m kids -> find_node v kids path = Some (p, n) -> holds v m n.
Proof.
  intros V. unfold find_node. destruct (parent_of v kids path) as [[[p' ks] nm] |] eqn:Ep; [| done]. cbn. destruct (List.find (named nm) ks) as [n' |] eqn:Ef; [| done]. intros [= -> ->].
  destruct (parent_holds v m kids path _ _ _ V Ep) as (_ & Hks & _). apply List_find_Some in Ef as [Hin _]. by eapply Forall_elem.
Qed.
Lemma runs_read_path env sure cap v mu kids path (Q : option (list Z) -> medium -> Prop) E : geometry v cap -> volume_holds v mu kids ->
  Q (tree_read v kids path) mu -> (~ sure -> Q None mu) ->
  runs env sure cap (try_ (lookup env v path) (fun '(_, f) => if is_dir f then mret None else read_file_inner env v f)) mu Q E.
Proof.
  intros G V HS HN. apply runs_try. eapply runs_lookup; [exact G | exact V | | done]. unfold tree_read in HS.
  destruct (find_node v kids path) as [[p n] |] eqn:Ef; cbn [fmap option_fmap option_map]; [| done]. pose proof (found_holds v mu kids path p n V Ef) as Hn.
  destruct n as [f data | f ks]; cbn [holds entry] in Hn |- *; rewrite ?holds_all in Hn.
  - rewrite (fh_file _ _ _ _ Hn). eapply runs_read_file_inner; [exact G | apply V | exact Hn | done | done].
  - destruct Hn as [-> _]. by apply runs_ret.
Qed.

Lemma runs_meta_path env sure cap v mu kids path (Q : option (bool * Z) -> medium -> Prop) E : geometry v cap -> volume_holds v mu kids ->
  Q (tree_meta v kids path) mu -> (~ sure -> Q None mu) ->
  runs env sure cap (try_ (lookup env v path) (fun '(_, f) => mret (Some (is_dir f, data_length f)))) mu Q E.
Proof.
  intros G V HS HN. apply runs_try. eapply runs_lookup; [exact G | exact V | | done]. unfold tree_meta in HS.
  destruct (find_node v kids path) as [[p n] |]; [by apply runs_ret | done].
Qed.
Lemma runs_list_path env sure cap v mu kids path (Q : option (list (list Z * bool * Z)) -> medium -> Prop) E : geometry v cap -> volume_holds v mu kids ->
  Q (tree_list v kids path) mu -> (~ sure -> Q None mu) ->
  runs env sure cap (try_ (find_dir env v path) (fun dir => try_ (load_dir env v dir) (fun '(_, data) =>
    mret (Some (map (fun f => (name f, is_dir f, data_length f)) (parse_entries data)))))) mu Q E.
Proof.
  intros G V HS HN. apply runs_try. unfold find_dir, tree_list in *. destruct (bool_decide (components path = [])).
  - apply runs_ret, runs_try. eapply runs_load_dir; [exact G | apply V | | done]. apply runs_ret. by rewrite (dh_list _ _ _ _ (vh_root _ _ _ V)), map_map.
  - apply runs_try. eapply runs_lookup; [exact G | exact V | | done].
    destruct (find_node v kids path) as [[p n] |] eqn:Ef; cbn [fmap option_fmap option_map]; [| done]. pose proof (found_holds v mu kids path p n V Ef) as Hn.
    destruct n as [f data | f ks]; cbn [holds entry] in Hn |- *; rewrite ?holds_all in Hn; apply runs_ret.
    + by rewrite (fh_file _ _ _ _ Hn).
    + destruct Hn as (-> & Hf & _). apply runs_try. eapply runs_load_dir; [exact G | exact Hf | | done]. apply runs_ret. by rewrite (dh_list _ _ _ _ Hf), map_map.
Qed.
Lemma runs_id_path env sure cap v mu kids path (Q : option Z -> medium -> Prop) E : geometry v cap -> volume_holds v mu kids ->
  Q (tree_id v kids path) mu -> (~ sure -> Q None mu) ->
  runs env sure cap (if bool_decide (components path = []) then mret (Some (root_cluster v))
    else try_ (lookup env v path) (fun '(_, f) => mret (if is_dir f then Some (first_cluster f) else None))) mu Q E.
Proof.
  intros G V HS HN. unfold tree_id in HS. destruct (bool_decide (components path = [])); [by apply runs_ret |].
  apply runs_try. eapply runs_lookup; [exact G | exact V | | done]. destruct (find_node v kids path) as [[p n] |]; [by apply runs_ret | done].
Qed.

Section Reads.
Context (env : nat -> response) (v : Volume) (d : BlkDevice) (kids : list node).
Hypothesis G : geometry v (capacity_sectors d).
Hypothesis V : volume_holds v (media d) kids.

Lemma answers_runs {A} none (m : Volume -> X (option A)) answer :
  (forall (Q : option A -> medium -> Prop) E, Q answer (media d) -> (~ working env (capacity_sectors d) d -> Q None (media d)) ->
     runs env (working env (capacity_sectors d) d) (capacity_sectors d) (m v) (media d) Q E) -> answers env (with_volume none m) v d answer.
Proof.
  intros H. apply wp_with_volume.
  apply (runs_wp env _ d (fun o m' => Some v = Some v /\ m' = media d /\ (o = answer \/ (o = None /\ ~ working env (capacity_sectors d) d))) (fun _ _ => False)).
  apply H; [by auto |]. intros Hn. auto.
Qed.
Lemma read_file_answers path : answers env (read_file env path) v d (tree_read v kids path).
Proof. apply answers_runs. intros Q E HS HN. by apply (runs_read_path _ _ _ _ _ kids). Qed.
Lemma metadata_answers path : answers env (metadata env path) v d (tree_meta v kids path).
Proof. apply answers_runs. intros Q E HS HN. by apply (runs_meta_path _ _ _ _ _ kids). Qed.
Lemma read_dir_answers path : answers env (read_dir env path) v d (tree_list v kids path).
Proof. apply answers_runs. intros Q E HS HN. by apply (runs_list_path _ _ _ _ _ kids). Qed.
Lemma directory_id_answers path : answers env (directory_id env path) v d (tree_id v kids path).
Proof. apply answers_runs. intros Q E HS HN. by apply (runs_id_path _ _ _ _ _ kids). Qed.
End Reads.

(** Reading calls are exact: on a volume that holds a tree, read_file, read_dir,
    metadata and directory_id return what the tree has at the path, ASCII case aside, or report nothing on a
    device that does not work.  None of them panics or changes the disk. *)
Theorem exfat_reads_tree env v d kids path : geometry v (capacity_sectors d) -> volume_holds v (media d) kids ->
  answers env (read_file env path) v d (tree_read v kids path) /\ answers env (read_dir env path) v d (tree_list v kids path)
  /\ answers env (metadata env path) v d (tree_meta v kids path) /\ answers env (directory_id env path) v d (tree_id v kids path).
Proof. intros G V. split_and!; [by apply read_file_answers | by apply read_dir_answers | by apply metadata_answers | by apply directory_id_answers]. Qed.

(** C24. create_file refines the tree: when it succeeds the volume holds the same tree with
    the file and its data added to the folder, no cluster shared.  On a working device it
    fails only for a reason of its own (no such folder, bad or taken name, no space, folder
    full) and the volume still holds the tree; on any device a failure leaves whatever was in
    use outside the folder untouched, and it never panics.  The path holds no NUL byte (which
    the driver accepts in a name and then stores another name), and the data is below 2^63
    bytes. *)
Theorem exfat_create_file_correct env v d kids path data : geometry v (capacity_sectors d) -> volume_holds v (media d) kids ->
  Forall (fun c => 0 < c < 256) path -> Forall is_byte data -> Z.of_nat (length data) < 2 ^ 63 ->
  wp (create_file env path data) (mkFs (Some v) d)
    (fun _ f => volume f = Some v /\ added v kids path (fun f => File f data) (media (device f)))
    (fun e f => volume f = Some v /\ add_error (working env (capacity_sectors d) d) v (media d) kids path (no_room v (media d) data) e (media (device f))).
Proof.
  intros G V Hp Hb Hl. apply wp_with_volume.
  apply (runs_wp env _ d (fun _ m => Some v = Some v /\ added v kids path (fun f => File f data) m)
    (fun e m => Some v = Some v /\ add_error (working env (capacity_sectors d) d) v (media d) kids path (no_room v (media d) data) e m)).
  eapply runs_mono; [by apply runs_create_in | by auto | by auto].
Qed.

(** mkdir refines the tree: when it succeeds the volume holds the same tree with an empty
    folder added; otherwise it is as with create_file: a reason of its own and the tree
    unchanged on a working device, and nothing in use outside the parent folder touched on
    any device. *)
Theorem exfat_mkdir_correct env v d kids path : geometry v (capacity_sectors d) -> volume_holds v (media d) kids -> Forall (fun c => 0 < c < 256) path ->
  wp (mkdir env path) (mkFs (Some v) d)
    (fun _ f => volume f = Some v /\ added v kids path (fun f => Folder f []) (media (device f)))
    (fun e f => volume f = Some v /\ add_error (working env (capacity_sectors d) d) v (media d) kids path (no_cluster v (media d)) e (media (device f))).
Proof.
  intros G V Hp. apply wp_with_volume.
  apply (runs_wp env _ d (fun _ m => Some v = Some v /\ added v kids path (fun f => Folder f []) m)
    (fun e m => Some v = Some v /\ add_error (working env (capacity_sectors d) d) v (media d) kids path (no_cluster v (media d)) e m)).
  eapply runs_mono; [by apply runs_mkdir | by auto | by auto].
Qed.

(** ** What was created is read back *)

Lemma names_equal_refl nm : names_equal_ascii nm nm = true.
Proof.
  unfold names_equal_ascii. rewrite Nat.eqb_refl. cbn [andb]. induction nm as [| c nm IH]; [done |]. cbn [zip zip_with forallb fst snd]. by rewrite Z.eqb_refl.
Qed.
Lemma find_app {A} (p : A -> bool) l1 l2 : List.find p (l1 ++ l2) = match List.find p l1 with Some x => Some x | None => List.find p l2 end.
Proof. induction l1 as [| x l1 IH]; cbn [app List.find]; [done |]. by destruct (p x). Qed.
Lemma update_first_find {A} (p : A -> bool) f l x : List.find p l = Some x -> p (f x) = true -> List.find p (update_first p f l) = Some (f x).
Proof.
  intros Hf Hp. induction l as [| y l IH]; cbn [List.find update_first] in *; [done |]. destruct (p y) eqn:Ep; cbn [List.find].
  - injection Hf as ->. by rewrite Hp.
  - rewrite Ep. by apply IH.
Qed.
Lemma descend_replace dirs : forall d kids p ks sub, descend d kids dirs = Some (p, ks) -> descend d (replace_at kids dirs sub) dirs = Some (p, sub).
Proof.
  induction dirs as [| comp dirs IH]; intros d kids p ks sub; cbn [descend replace_at]; [by intros [= <- <-] |].
  destruct (List.find (folder_named comp) kids) as [[| f ks'] |] eqn:Ef; [done | | done]. intros H.
  rewrite (update_first_find _ _ _ _ Ef); [by eapply IH |]. by apply List_find_Some in Ef as [_ ?].
Qed.
Lemma created_read v kids path data m kids' p k1 k2 nm f : parent_of v kids path = Some (p, k1 ++ k2, nm) -> List.find (named nm) (k1 ++ k2) = None ->
  name f = nm -> kids' = replace_at kids (removelast (components path)) (k1 ++ File f data :: k2) -> volume_holds v m kids' -> tree_read v kids' path = Some data.
Proof.
  intros Hp Hn Hf -> _. unfold tree_read, find_node, parent_of in *. destruct (last (components path)) as [nm' |]; [| done].
  destruct (descend (root_ref v) kids (removelast (components path))) as [[d ks] |] eqn:Ed; [| done]. cbn in Hp. simplify_eq.
  rewrite (descend_replace _ _ _ _ _ _ Ed). cbn [mbind option_bind]. rewrite find_app in Hn |- *.
  destruct (List.find (named (name f)) k1); [done |]. cbn [List.find]. unfold named at 1. cbn [entry]. by rewrite names_equal_refl.
Qed.

(** What is created can be read: after create_file has succeeded, read_file of the same
    path returns exactly the data, or nothing if the device no longer works. *)
Theorem exfat_create_read_roundtrip env v d kids path data : geometry v (capacity_sectors d) -> volume_holds v (media d) kids ->
  Forall (fun c => 0 < c < 256) path -> Forall is_byte data -> Z.of_nat (length data) < 2 ^ 63 ->
  wp (_ ← create_file env path data; read_file env path) (mkFs (Some v) d)
    (fun o f => volume f = Some v /\ (o = Some data \/ (o = None /\ ~ working env (capacity_sectors d) d))) (fun _ f => volume f = Some v).
Proof.
  intros G V Hp Hb Hl. set (sure := working env (capacity_sectors d) d). apply wp_bind, wp_with_volume.
  assert (runs env sure (capacity_sectors d) (create_in env v path data) (media d) (fun _ m => added v kids path (fun f => File f data) m) (fun _ _ => True)) as H.
  { eapply runs_mono; [by apply runs_create_in | done | done]. }
  eapply wp_mono; [by apply H | | done]. intros [] d' [Hw (p & k1 & k2 & nm & f & Hpar & Hnew & Hnm & V')]. apply wp_with_volume.
  assert (tree_read v _ path = Some data) as Ht by by eapply created_read.
  eapply wp_mono; [eapply (runs_read_path env sure (capacity_sectors d) v (media d') _ path (fun o _ => o = Some data \/ (o = None /\ ~ sure)) (fun _ _ => False) G V'); [by left | by right | done | done] | |].
  - intros o d2 [_ Ho]. done.
  - by intros e d2 [_ He].
Qed.

(** * The example volume *)

Lemma demo_holds : volume_holds demo_volume (media demo_disk) [].
Proof.
  assert (dchain demo_volume (media demo_disk) (root_ref demo_volume) = [3]) as Hch by (vm_compute; reflexivity).
  assert (dir_data demo_volume (media demo_disk) (root_ref demo_volume) = demo_root) as Hd by (unfold dir_data; rewrite Hch; vm_compute; reflexivity).
  constructor.
  - exact demo_media_ok.
  - intros c Hc. unfold bitmap_own in Hc. change (bitmap_clusters demo_volume) with 1 in Hc. cbn [bitmap_cluster demo_volume] in Hc.
    replace c with 2 by lia. vm_compute. reflexivity.
  - constructor; rewrite ?Hd; [| by rewrite Hch | | vm_compute; reflexivity].
    + intros _. cbn. split; [unfold valid; cbn; lia | done].
    + exists [Single (take 32 demo_root)], (drop 1 (chunks_exact DIR_ENTRY demo_root)).
      constructor; [vm_compute; reflexivity | vm_compute; repeat constructor | apply Forall_singleton; by vm_compute | vm_compute; repeat constructor].
  - constructor.
  - rewrite Hch. apply NoDup_singleton.
  - rewrite Hch. intros c ->%list_elem_of_singleton. split; [unfold valid; cbn; lia |]. split; [vm_compute; reflexivity |].
    unfold bitmap_own. change (bitmap_clusters demo_volume) with 1. cbn. lia.
Qed.
Definition demo_path : list Z := lit "A.TXT".
Lemma demo_path_ok : Forall (fun c => 0 < c < 256) demo_path.
Proof. repeat (constructor; [vm_compute; split; reflexivity |]). constructor. Qed.
Lemma demo_data_ok : Forall is_byte [7; 8; 9].
Proof. repeat (constructor; [done |]). constructor. Qed.

(** The example volume with the file A.TXT on it. *)
Definition demo_with_file : fs := (create_file demo_env demo_path [7; 8; 9] (mkFs (Some demo_volume) demo_disk)).2.
Lemma demo_working : working demo_env 22 demo_disk.
Proof. split; [done |]. split; [done |]. intros n. by exists true. Qed.
(** With A.TXT on it, its tree is that file. *)
Lemma demo_file_holds : exists f, volume_holds demo_volume (media (device demo_with_file)) [File f [7; 8; 9]] /\ name f = demo_path.
Proof.
  assert (Z.of_nat (length [7; 8; 9]) < 2 ^ 63) as Hlen by (cbn; lia).
  pose proof (runs_create_in demo_env (working demo_env 22 demo_disk) 22 demo_volume (media demo_disk) [] demo_path [7; 8; 9] demo_geometry demo_holds demo_path_ok (conj demo_data_ok Hlen) demo_disk eq_refl (fun s => s)) as H.
  unfold wp in H. assert (device demo_with_file = (create_in demo_env demo_volume demo_path [7; 8; 9] demo_disk).2) as ->.
  { unfold demo_with_file, create_file, with_volume. cbn [volume device]. by destruct (create_in demo_env demo_volume demo_path [7; 8; 9] demo_disk). }
  assert ((create_in demo_env demo_volume demo_path [7; 8; 9] demo_disk).1 = Ok tt) as Hok by (vm_compute; reflexivity).
  destruct (create_in demo_env demo_volume demo_path [7; 8; 9] demo_disk) as [r d']. cbn [fst snd] in *. subst r.
  destruct H as (_ & p & k1 & k2 & nm & f & Hpar & _ & Hnm & V). change (removelast (components demo_path)) with (@nil (list Z)) in V. cbn [replace_at] in V.
  unfold parent_of in Hpar. change (components demo_path) with [demo_path] in Hpar. cbn in Hpar. injection Hpar as _ Hk Hn. symmetry in Hk. apply app_eq_nil in Hk as [-> ->]. exists f.
  split; [exact V | exact (eq_trans Hnm (eq_sym Hn))].
Qed.
Lemma demo_file_geometry : geometry demo_volume (capacity_sectors (device demo_with_file)).
Proof. assert (capacity_sectors (device demo_with_file) = 22) as -> by (vm_compute; reflexivity). exact demo_geometry. Qed.
Lemma demo_file_working : working demo_env (capacity_sectors (device demo_with_file)) (device demo_with_file).
Proof. split; [vm_compute; reflexivity |]. split; [done |]. intros n. by exists true. Qed.
Lemma exfat_reads_tree_witness : exists f, tree_read demo_volume [File f [7; 8; 9]] demo_path = Some [7; 8; 9]
  /\ answers demo_env (read_file demo_env demo_path) demo_volume (device demo_with_file) (tree_read demo_volume [File f [7; 8; 9]] demo_path)
  /\ working demo_env (capacity_sectors (device demo_with_file)) (device demo_with_file).
Proof.
  destruct demo_file_holds as (f & V & Hn). exists f. split; [| split; [| exact demo_file_working]].
  - unfold tree_read, find_node, parent_of. change (components demo_path) with [demo_path]. cbn [last removelast descend mbind option_bind List.find]. unfold named. cbn [entry]. rewrite Hn. reflexivity.
  - exact (proj1 (exfat_reads_tree demo_env demo_volume (device demo_with_file) [File f [7; 8; 9]] demo_path demo_file_geometry V)).
Defined.
Lemma exfat_create_file_correct_witness : (create_file demo_env demo_path [7; 8; 9] (mkFs (Some demo_volume) demo_disk)).1 = Ok tt
  /\ wp (create_file demo_env demo_path [7; 8; 9]) (mkFs (Some demo_volume) demo_disk)
    (fun _ f => volume f = Some demo_volume /\ added demo_volume [] demo_path (fun f => File f [7; 8; 9]) (media (device f)))
    (fun e f => volume f = Some demo_volume /\ add_error (working demo_env 22 demo_disk) demo_volume (media demo_disk) [] demo_path (no_room demo_volume (media demo_disk) [7; 8; 9]) e (media (device f))).
Proof.
  split; [vm_compute; reflexivity |].
  exact (exfat_create_file_correct demo_env demo_volume demo_disk [] demo_path [7; 8; 9] demo_geometry demo_holds demo_path_ok demo_data_ok ltac:(cbn; lia)).
Defined.
Lemma exfat_mkdir_correct_witness : (mkdir demo_env demo_path (mkFs (Some demo_volume) demo_disk)).1 = Ok tt
  /\ wp (mkdir demo_env demo_path) (mkFs (Some demo_volume) demo_disk)
    (fun _ f => volume f = Some demo_volume /\ added demo_volume [] demo_path (fun f => Folder f []) (media (device f)))
    (fun e f => volume f = Some demo_volume /\ add_error (working demo_env 22 demo_disk) demo_volume (media demo_disk) [] demo_path (no_cluster demo_volume (media demo_disk)) e (media (device f))).
Proof.
  split; [vm_compute; reflexivity |]. exact (exfat_mkdir_correct demo_env demo_volume demo_disk [] demo_path demo_geometry demo_holds demo_path_ok).
Defined.
Lemma exfat_create_read_roundtrip_witness :
  ((_ ← create_file demo_env demo_path [7; 8; 9]; read_file demo_env demo_path) (mkFs (Some demo_volume) demo_disk)).1 = Ok (Some [7; 8; 9])
  /\ wp (_ ← create_file demo_env demo_path [7; 8; 9]; read_file demo_env demo_path) (mkFs (Some demo_volume) demo_disk)
    (fun o f => volume f = Some demo_volume /\ (o = Some [7; 8; 9] \/ (o = None /\ ~ working demo_env 22 demo_disk))) (fun _ f => volume f = Some demo_volume).
Proof.
  split; [vm_compute; reflexivity |].
  exact (exfat_create_read_roundtrip demo_env demo_volume demo_disk [] demo_path [7; 8; 9] demo_geometry demo_holds demo_path_ok demo_data_ok ltac:(cbn; lia)).
Defined.

(** ** Appending after a read error *)

(** A device that does not answer request [n] and answers all others. *)
Definition one_failure (n k : nat) : response := if (k =? n)%nat then QueueFull else Completed 0 true.

(** A read that fails once loses a file's contents: append_file takes the failed lookup
    for a file that does not exist, write_file then finds the file and overwrites it, and
    the call reports success; the file holds only the appended bytes. *)
Lemma exfat_append_loses_contents : exists n,
  (append_file (one_failure n) demo_path [1] demo_with_file).1 = Ok tt
  /\ (read_file demo_env demo_path demo_with_file).1 = Ok (Some [7; 8; 9])
  /\ (read_file demo_env demo_path (append_file (one_failure n) demo_path [1] demo_with_file).2).1 = Ok (Some [1]).
Proof. exists (requests (device demo_with_file)). split_and!; vm_compute; reflexivity. Qed.
End ExfatOps.
