(* ===== verification/ExfatChange.v ===== *)
(** Changing what an exFAT volume holds (src/fs/exfat.rs): deleting a file or an empty
    folder takes exactly that node out of the tree, and writing a file replaces its data and
    nothing else. *)

From Stdlib Require Import ZArith Lia.
From stdpp Require Import base list list_numbers numbers decidable tactics strings gmap sorting.
From S2P Require Import Prelude BlockDev FatNames Exfat ExfatDisk ExfatBitmap ExfatChain ExfatDir ExfatEdit ExfatWrite ExfatTree ExfatCreate ExfatPlace ExfatOps.
Import Blk FatNames Exfat ExfatDisk ExfatBitmap ExfatChain ExfatDir ExfatEdit ExfatWrite ExfatTree ExfatCreate ExfatPlace ExfatOps.

Module ExfatChange.

(** * Swapping a node *)

Section Swap.
Context (v : Volume) (cap : Z) (mu : medium) (kids : list node) (dirs : list (list Z)) (p : DirRef) (k1 k2 : list node) (n : node).
Hypothesis G : geometry v cap.
Hypothesis V : volume_holds v mu kids.
Hypothesis Hdesc : descend (root_ref v) kids dirs = Some (p, k1 ++ n :: k2).

(** The clusters of the folder, of the node and of its siblings are apart and in use. *)
Lemma node_clusters : NoDup (dchain v mu p ++ owned v mu n ++ owned_all v mu (k1 ++ k2))
  /\ (forall c, c ∈ dchain v mu p ++ owned v mu n ++ owned_all v mu (k1 ++ k2) -> valid v c /\ used mu v c = true /\ ~ bitmap_own v c)
  /\ holds v mu n /\ Forall (holds v mu) (k1 ++ k2).
Proof.
  assert (dchain v mu p ++ owned v mu n ++ owned_all v mu (k1 ++ k2) ≡ₚ dchain v mu p ++ owned_all v mu (k1 ++ n :: k2)) as E.
  { rewrite !owned_all_app, owned_all_cons. solve_Permutation. }
  destruct (parent_clusters v cap mu kids dirs p (k1 ++ n :: k2) [] G V) as [H1 H2]; [by rewrite app_nil_r |]. rewrite app_nil_r in H1, H2.
  destruct (descend_holds v mu dirs _ _ _ _ (vh_root _ _ _ V) (vh_kids _ _ _ V) Hdesc) as [_ Hks]. rewrite Forall_app, Forall_cons in Hks.
  rewrite E, Forall_app. split; [done |]. split; [| naive_solver]. intros c Hc. rewrite E in Hc. by apply H2.
Qed.

(** [mid], made of clusters [cs] that were free, in place of [n], whose clusters may be free
    now. *)
Lemma volume_swap mu' cs mid : confined v (dchain v mu p ++ cs ++ owned v mu n) mu mu' ->
  NoDup cs -> (forall c, c ∈ cs -> valid v c /\ used mu v c = false) ->
  dchain v mu' p = dchain v mu p -> dir_holds v mu' p (map entry (k1 ++ mid ++ k2)) ->
  (forall c, c ∈ dchain v mu p -> used mu' v c = true) ->
  Forall (holds v mu') mid -> owned_all v mu' mid = cs -> (forall c, c ∈ cs -> used mu' v c = true) ->
  volume_holds v mu' (replace_at kids dirs (k1 ++ mid ++ k2)).
Proof.
  intros C Hnd Hfree Hch Hdir Hud Hmid Hown Hum. destruct node_clusters as (Pnd & Pin & _ & Hks).
  assert (forall c, c ∈ cs -> (c ∉ dchain v mu p ++ owned v mu n ++ owned_all v mu (k1 ++ k2))) as Hdis.
  { intros c Hc Hin. destruct (Hfree c Hc) as [_ Hn]. destruct (Pin c Hin) as (_ & Hu & _). by rewrite Hn in Hu. }
  assert (forall c, c ∈ owned_all v mu (k1 ++ k2) -> kept v (dchain v mu p ++ cs ++ owned v mu n) c) as Hkept.
  { intros c Hc. split; [| apply Pin; set_solver]. rewrite !elem_of_app. intros [H | [H | H]]; [| apply (Hdis c H); set_solver |].
    - apply NoDup_app in Pnd as (_ & Hd & _). apply (Hd c H). set_solver.
    - apply NoDup_app in Pnd as (_ & _ & Pnd). apply NoDup_app in Pnd as (_ & Hd & _). by apply (Hd c H). }
  destruct (nodes_frame v cap _ mu mu' G C (k1 ++ k2) Hks Hkept) as [Hks' Ho'].
  assert (owned_all v mu' (k1 ++ mid ++ k2) ≡ₚ cs ++ owned_all v mu (k1 ++ k2)) as Hperm.
  { rewrite <- Ho', !owned_all_app, Hown. solve_Permutation. }
  assert (owned_all v mu (k1 ++ n :: k2) ≡ₚ owned v mu n ++ owned_all v mu (k1 ++ k2)) as Hold by (rewrite !owned_all_app, owned_all_cons; solve_Permutation).
  eapply (volume_update v cap mu G _ _ _ _ mu' _ _ V Hdesc C); cbn zeta.
  - intros c. rewrite Hold, !elem_of_app. intros [Hc | [Hc | Hc]]; [by left; left | right; by apply Hfree | left; by right; left].
  - done.
  - rewrite !Forall_app in *. naive_solver.
  - rewrite Hperm, Hch, app_assoc, (Permutation_app_comm _ cs), <- app_assoc. apply NoDup_app. split; [done |]. split; [intros c Hc; specialize (Hdis c Hc); set_solver |].
    apply (NoDup_app (dchain v mu p)) in Pnd as (N1 & N2 & N3). apply NoDup_app in N3 as (_ & _ & N3). apply NoDup_app. split; [done |]. split; [intros c Hc; specialize (N2 c Hc); set_solver | done].
  - intros c. rewrite Hperm, Hold, Hch, !elem_of_app. intros [Hc | [Hc | Hc]].
    + split; [by left; left | by apply Hud].
    + split; [right; by apply Hfree | by apply Hum].
    + split; [left; by right; right |]. destruct (Hkept c Hc) as [Hn _]. destruct (Pin c) as (Hv & Hu & _); [set_solver |]. by rewrite (proj1 (co_rest _ _ _ _ C c Hv Hn)).
Qed.
End Swap.

(** * Rewriting part of a directory *)

Section Edit.
Context (env : nat -> response) (sure : Prop) (cap : Z) (v : Volume) (d : DirRef) (mu : medium).
Hypothesis G : geometry v cap.
Hypothesis P : proper_dir v d mu.
Abbreviation runs := (runs env sure cap).

(** The directory's bytes are [new]; its clusters are all that changed. *)
Record edited (new : list Z) (mu' : medium) : Prop := {
  ed_conf : confined v (dchain v mu d) mu mu';
  ed_bits : forall c, valid v c -> used mu' v c = used mu v c;
  ed_chain : dchain v mu' d = dchain v mu d;
  ed_data : dir_data v mu' d = new }.

Lemma runs_store_edit src off len new (Q : unit -> medium -> Prop) (E : string -> medium -> Prop) : new = splice (dir_data v mu d) off src -> length src = len ->
  (1 <= len)%nat -> (off + len <= length (dir_data v mu d))%nat -> Forall is_byte src ->
  (forall mu', edited new mu' -> Q tt mu') ->
  (~ sure -> forall mu', confined v (dchain v mu d) mu mu' -> E "directory write failed"%string mu') ->
  runs (ok ← store_dir_range env v (dchain v mu d) new (Z.of_nat off) (Z.of_nat len); guard (negb ok) "directory write failed") mu Q E.
Proof.
  intros -> <- H1 Hoff Hb HQ HE. destruct P as [P1 P2 P3 P4 P5 P6 P7]. assert (Forall (valid v) (dchain v mu d)) as Hv by (apply Forall_forall; intros c Hc; by apply P6).
  assert (length (dir_data v mu d) = length (dchain v mu d) * Z.to_nat (cluster_bytes v))%nat as Hlen by by apply (chain_data_length v cap G).
  assert (forall mu', media_ok mu' -> within (in_chain v (dchain v mu d)) mu mu' -> confined v (dchain v mu d) mu mu'
    /\ forall c, valid v c -> used mu' v c = used mu v c /\ fat_at mu' v c = fat_at mu v c) as Hconf.
  { intros mu' Hok' Hw. apply (confined_in_chain cap v (dchain v mu d)); [exact G | done | | done]. intros c Hc. by destruct (P6 c Hc) as (A & _ & B). }
  apply runs_bind. eapply runs_store_dir_range; [exact G | done | done | | | done | | |].
  - split; [by rewrite length_splice | apply splice_bytes; [| done]]. apply (chain_data_bytes v cap G). done.
  - rewrite length_splice by done. lia.
  - by apply (splice_right cap v).
  - intros mu' Hok' Hw Hdata. destruct (Hconf mu' Hok' Hw) as [C1 C2]. apply runs_guard; [done |]. intros _. apply HQ.
    assert (dchain v mu' d = dchain v mu d) as Hch by (apply chain_of_frame; intros c Hc; apply C2; by eapply Forall_elem).
    constructor; [done | intros c Hc; by apply C2 | done | unfold dir_data at 1; by rewrite Hch].
  - intros Hs mu' Hok' Hw. apply runs_guard; [| done]. intros _. apply HE; [done |]. by apply Hconf.
Qed.
Lemma edited_holds new mu' files : edited new mu' -> dir_holds v mu d files -> tidy new -> dir_holds v mu' d (parse_entries new).
Proof. intros [E1 E2 E3 E4] [D1 D2 D3 D4] Ht. constructor; rewrite ?E3, ?E4; done. Qed.
Lemma edited_used new mu' c : edited new mu' -> c ∈ dchain v mu d -> used mu' v c = true.
Proof. intros Ed Hc. destruct (pd_used _ _ _ P c Hc) as (Hv & Hu & _). by rewrite (ed_bits _ _ Ed c Hv). Qed.
End Edit.

(** * A node found at a path *)

Definition closed_node (n : node) : Prop := match n with File _ _ => True | Folder _ ks => ks = [] end.
Lemma closed_owned v m n : closed_node n -> owned v m n = fchain v m (entry n).
Proof. destruct n as [f data | f ks]; cbn [closed_node owned entry]; [done |]. intros ->. exact (app_nil_r _). Qed.
Lemma node_fits v m n : holds v m n -> fits v (first_cluster (entry n)) (no_fat_chain (entry n)) (data_length (entry n)).
Proof. destruct n as [f data | f ks]; cbn [holds entry]; [apply fh_fits |]. rewrite holds_all. intros (_ & H & _). apply (dh_fits _ _ _ _ H). Qed.
(** [n] is the first node of that name behind [k1]. *)
Definition first_named (nm : list Z) (k1 : list node) (n : node) : Prop := List.find (named nm) k1 = None /\ named nm n = true.
Lemma find_first nm ks n : List.find (named nm) ks = Some n -> exists k1 k2, ks = k1 ++ n :: k2 /\ first_named nm k1 n.
Proof.
  induction ks as [| k ks IH]; cbn [List.find]; [done |]. destruct (named nm k) eqn:Ek.
  - intros [= ->]. by exists [], ks.
  - intros H. destruct (IH H) as (k1 & k2 & -> & H1 & H2). exists (k :: k1), k2. split; [done |]. split; [| done]. cbn [List.find]. by rewrite Ek.
Qed.
Lemma found_split v kids path p n : find_node v kids path = Some (p, n) ->
  exists k1 k2 nm, parent_of v kids path = Some (p, k1 ++ n :: k2, nm) /\ first_named nm k1 n.
Proof.
  unfold find_node. destruct (parent_of v kids path) as [[[d ks] nm] |]; [| done]. cbn [mbind option_bind]. destruct (List.find (named nm) ks) as [n' |] eqn:Ef; [| done].
  intros [= -> ->]. destruct (find_first _ _ _ Ef) as (k1 & k2 & -> & Hf). by exists k1, k2, nm.
Qed.

Section Found.
Context (env : nat -> response) (sure : Prop) (cap : Z) (v : Volume) (mu : medium) (kids : list node) (path : list Z).
Context (p : DirRef) (k1 k2 : list node) (n : node) (nm : list Z).
Hypothesis G : geometry v cap.
Hypothesis V : volume_holds v mu kids.
Hypothesis Hparent : parent_of v kids path = Some (p, k1 ++ n :: k2, nm).
Hypothesis Hclosed : closed_node n.
Abbreviation runs := (runs env sure cap).
Abbreviation dirs := (removelast (components path)).
Abbreviation f := (entry n).

(** The node's clusters given back after [mu1]: only their bits and table entries change. *)
Lemma runs_release_node mu1 cs (Q : unit -> medium -> Prop) E : confined v cs mu mu1 -> (forall c, c ∈ owned v mu n -> (c ∉ cs)) ->
  (forall mu2, confined v (owned v mu n) mu1 mu2 -> (sure -> forall c, c ∈ owned v mu n -> used mu2 v c = false) -> Q tt mu2) ->
  runs (free_clusters env v (first_cluster f) (no_fat_chain f) (data_length f)) mu1 Q E.
Proof.
  intros C Hcs HQ. destruct (node_clusters v cap mu kids dirs p k1 k2 n G V (parent_desc v mu kids path V p _ nm Hparent)) as (_ & Hin & Hn & _).
  destruct (confined_chain cap v G cs mu mu1 _ _ _ C (node_fits v mu n Hn)) as [E1 _].
  { intros c Hc. fold (fchain v mu f) in Hc. rewrite <- closed_owned in Hc by done. split; [apply Hin; set_solver | by apply Hcs]. }
  fold (fchain v mu f) in E1. rewrite <- closed_owned in E1 by done.
  eapply runs_free_clusters; [exact G | apply C | by apply (node_fits v mu) |]. rewrite E1. intros mu2 C2 M2. apply HQ; [done |].
  intros s c Hc. destruct M2 as [M2 | ?]; [| done]. rewrite (M2 c) by (apply Hin; set_solver). by rewrite decide_True.
Qed.

Lemma parent_listing m : dir_holds v m p (map entry (k1 ++ n :: k2)) -> media_ok m -> Forall (valid v) (dchain v m p) ->
  exists items ends, layout (dir_data v m p) items ends /\ Forall is_byte (dir_data v m p) /\ parse_entries (dir_data v m p) = map entry k1 ++ f :: map entry k2.
Proof.
  intros [D1 D2 (items & ends & L) D4] Hok Hv. exists items, ends. split; [done |]. split; [by apply (chain_data_bytes v cap G) |]. by rewrite D4, map_app.
Qed.
End Found.

(** * Deleting *)

Section Delete.
Context (env : nat -> response) (sure : Prop) (cap : Z) (v : Volume) (mu : medium) (kids : list node) (path : list Z).
Hypothesis G : geometry v cap.
Hypothesis V : volume_holds v mu kids.
Abbreviation runs := (runs env sure cap).
Abbreviation dirs := (removelast (components path)).

(** The tree without the file or the empty folder that was at [path], its clusters free if the device works. *)
Definition removed (m : medium) : Prop := exists p k1 n k2 nm, parent_of v kids path = Some (p, k1 ++ n :: k2, nm)
  /\ first_named nm k1 n /\ closed_node n /\ volume_holds v m (replace_at kids dirs (k1 ++ k2))
  /\ (sure -> forall c, c ∈ owned v mu n -> used m v c = false).
Inductive kept_back : string -> Prop :=
| kept_missing : find_node v kids path = None -> kept_back "no such file"
| kept_full p f k ks : find_node v kids path = Some (p, Folder f (k :: ks)) -> kept_back "directory not empty".
Definition delete_error (e : string) (m : medium) : Prop := (sure -> kept_back e /\ m = mu) /\ harmless v mu kids path m.

(** What [delete] does once the node may go. *)
Definition unlink (p : DirRef) (f : DirFile) : X unit :=
  o ← load_dir env v p;
  '(chain, data) ← lift (ok_or o "directory read failed");
  _ ← guard ((length data <? set_offset f + set_entries f * DIR_ENTRY)%nat || negb (byte data (set_offset f) =? ET_FILE)) "stale directory entry";
  ok ← store_dir_range env v chain (marked data (set_offset f) (set_entries f)) (Z.of_nat (set_offset f)) (Z.of_nat (set_entries f * DIR_ENTRY));
  _ ← guard (negb ok) "directory write failed";
  free_clusters env v (first_cluster f) (no_fat_chain f) (data_length f).

Lemma runs_unlink p k1 n k2 nm : parent_of v kids path = Some (p, k1 ++ n :: k2, nm) -> first_named nm k1 n -> closed_node n ->
  runs (unlink p (entry n)) mu (fun _ m => removed m) delete_error.
Proof.
  intros Hparent Hfound Hclosed. destruct (parent_proper cap v mu kids path G V p _ nm Hparent) as [P D].
  pose proof (parent_desc v mu kids path V p _ nm Hparent) as Hdesc.
  destruct (node_clusters v cap mu kids dirs p k1 k2 n G V Hdesc) as (Hnd & Hin & Hn & Hks).
  assert (forall c, c ∈ dchain v mu p -> (c ∉ owned v mu n)) as Hap by (apply NoDup_app in Hnd as (_ & Hd & _); intros c Hc; specialize (Hd c Hc); set_solver).
  apply runs_bind. eapply runs_load_dir; [exact G | exact D | |].
  2: { intros Hs. apply runs_bind, runs_lift. split; [done | by apply harmless_same]. }
  apply runs_bind, runs_lift. cbn [ok_or].
  destruct (parent_listing cap v p k1 k2 n G mu D (vh_ok _ _ _ V)) as (items & ends & L & Hb & Hl).
  { apply Forall_forall. intros c Hc. by apply (pd_used _ _ _ P c). }
  destruct (file_inside _ items ends _ _ _ L Hl) as (I1 & I2 & I3 & _). destruct (file_removed _ items ends _ _ _ L Hb Hl) as (T1 & T2 & src & S1 & S2 & S3).
  set (f := entry n) in *. rewrite (proj2 (Nat.ltb_ge _ _) I1), I3. change (false || negb (ET_FILE =? ET_FILE)) with false.
  apply runs_bind, runs_guard; [done |]. intros _. apply runs_assoc, runs_bind.
  eapply runs_store_edit; [exact G | exact P | exact S3 | exact S1 | unfold DIR_ENTRY; lia | exact I1 | exact S2 | |].
  - intros mu1 Ed. pose proof (edited_holds _ _ _ _ _ _ Ed D T1) as D1. rewrite T2 in D1.
    eapply (runs_release_node env sure cap v mu kids path p k1 k2 n nm G V Hparent Hclosed mu1); [apply Ed | intros c Hc Hx; by apply (Hap c) |].
    intros mu2 C2 F2. exists p, k1, n, k2, nm. split_and!; [done | done | done | | done].
    destruct (dir_frame v cap _ mu1 mu2 G C2 p _ D1) as [D2 E2].
    { intros c Hc. rewrite (ed_chain _ _ _ _ _ Ed) in Hc. split; [by apply Hap | by apply (pd_used _ _ _ P c)]. }
    apply (volume_swap v cap mu kids dirs p k1 k2 n G V Hdesc mu2 [] []); [| constructor | intros c Hc; by apply not_elem_of_nil in Hc | | | | constructor | done | intros c Hc; by apply not_elem_of_nil in Hc].
    + eapply confined_trans; [eapply confined_mono; [apply Ed |]; set_solver | eapply confined_mono; [exact C2 |]; set_solver].
    + by rewrite E2, (ed_chain _ _ _ _ _ Ed).
    + by rewrite map_app.
    + intros c Hc. destruct (pd_used _ _ _ P c Hc) as (Hv & _ & _). rewrite (proj1 (co_rest _ _ _ _ C2 c Hv (Hap c Hc))). by apply (edited_used v p mu P _ _ c Ed).
  - intros Hs mu' C. split; [done |]. exists (dchain v mu p). split; [done |]. intros c Hc. right. by exists p, (k1 ++ n :: k2), nm.
Qed.

Lemma runs_delete_in : runs (delete_in env v path) mu (fun _ m => removed m) delete_error.
Proof.
  change (delete_in env v path) with (o ← lookup env v path;
    '(parent, f) ← lift (ok_or o "no such file");
    _ ← (if is_dir f then
           o ← load_dir env v (dir_ref_of f);
           '(_, ddata) ← lift (ok_or o "directory read failed");
           guard (negb (bool_decide (parse_entries ddata = []))) "directory not empty"
         else mret tt);
    unlink parent f).
  apply runs_bind. eapply runs_lookup; [exact G | exact V | |].
  2: { intros Hs. apply runs_bind, runs_lift. split; [done | by apply harmless_same]. }
  destruct (find_node v kids path) as [[p n] |] eqn:Ef; cbn [fmap option_fmap option_map].
  2: { apply runs_bind, runs_lift. split; [intros _; split; [by constructor | done] | by apply harmless_same]. }
  apply runs_bind, runs_lift. cbn [ok_or]. destruct (found_split v kids path p n Ef) as (k1 & k2 & nm & Hparent & Hfound).
  pose proof (found_holds v mu kids path p n V Ef) as Hn. apply runs_bind. destruct n as [f data | f ks]; cbn [holds entry] in Hn |- *; rewrite ?holds_all in Hn.
  - rewrite (fh_file _ _ _ _ Hn). apply runs_ret. by apply (runs_unlink p k1 (File f data) k2 nm).
  - destruct Hn as (-> & Hf & Hk). apply runs_bind. eapply runs_load_dir; [exact G | exact Hf | |].
    2: { intros Hs. apply runs_bind, runs_lift. split; [done | by apply harmless_same]. }
    apply runs_bind, runs_lift. cbn [ok_or]. rewrite (dh_list _ _ _ _ Hf). destruct ks as [| k ks].
    + apply runs_guard; [done |]. intros _. by apply (runs_unlink p k1 (Folder f []) k2 nm).
    + apply runs_guard; [| done]. intros _. split; [intros _; split; [by eapply kept_full | done] | by apply harmless_same].
Qed.
End Delete.

(** * Overwriting *)

(** The stream entry of a listed file rewritten. *)
Lemma runs_update_stream env sure cap v d mu l1 f l2 flags first len (Q : unit -> medium -> Prop) (E : string -> medium -> Prop) :
  geometry v cap -> proper_dir v d mu -> dir_holds v mu d (l1 ++ f :: l2) ->
  0 <= flags < 256 -> 0 <= first < 2 ^ 32 -> 0 <= len < 2 ^ 64 ->
  (forall new mu', edited v d mu new mu' -> dir_holds v mu' d (l1 ++ moved f flags first len :: l2) -> Q tt mu') ->
  (~ sure -> forall e mu', confined v (dchain v mu d) mu mu' -> E e mu') ->
  runs env sure cap (update_stream_entry env v d f flags first len) mu Q E.
Proof.
  intros G P D Hfl Hfi Hle HQ HE. unfold update_stream_entry. apply runs_bind. eapply runs_load_dir; [exact G | exact D | |].
  2: { intros Hs. apply runs_bind, runs_lift. apply HE; [done | apply confined_refl, P]. }
  apply runs_bind, runs_lift. cbn [ok_or]. pose proof (dh_tidy _ _ _ _ D) as (items & ends & L). pose proof (dh_list _ _ _ _ D) as Hl.
  assert (Forall is_byte (dir_data v mu d)) as Hb by (apply (chain_data_bytes v cap G), P).
  destruct (file_inside _ items ends _ _ _ L Hl) as (I1 & I2 & I3 & I4). destruct (file_moved _ items ends _ _ _ L Hb Hl flags first len Hfl Hfi Hle) as (T1 & T2 & src & S1 & S2 & S3).
  cbn zeta. rewrite (proj2 (Nat.ltb_ge _ _) I1), I3. change (false || negb (ET_FILE =? ET_FILE)) with false.
  apply runs_bind, runs_guard; [done |]. intros _. unfold DIR_ENTRY in I1, I4. apply runs_bind, runs_lift. unfold assert_that. rewrite (proj2 (Nat.leb_le _ _)) by lia. cbv iota.
  assert (byte (take 32 (drop (set_offset f + 32) (dir_data v mu d))) 0 = ET_STREAM) as Hst.
  { rewrite <- I4. unfold byte. rewrite !nth_lookup, lookup_take_lt, lookup_drop, Nat.add_0_r by lia. done. }
  apply runs_bind, runs_guard; rewrite Hst; [done |]. intros _.
  eapply (runs_store_edit env sure cap v d mu G P src); [exact S3 | exact S1 | unfold DIR_ENTRY; lia | unfold DIR_ENTRY; lia | exact S2 | |].
  - intros mu' Ed. apply (HQ _ _ Ed). rewrite <- T2. exact (edited_holds _ _ _ _ _ _ Ed D T1).
  - intros Hs mu' C. by apply HE.
Qed.

Section Overwrite.
Context (env : nat -> response) (sure : Prop) (cap : Z) (v : Volume) (mu : medium) (kids : list node) (path data : list Z).
Hypothesis G : geometry v cap.
Hypothesis V : volume_holds v mu kids.
Hypothesis Hpath : Forall (fun c => 0 < c < 256) path.
Hypothesis Hdata : Forall is_byte data /\ Z.of_nat (length data) < 2 ^ 63.
Abbreviation runs := (runs env sure cap).
Abbreviation dirs := (removelast (components path)).

(** The tree with [data] in the file that was at [path], under its name; the clusters of the
    old data are free if the device works. *)
Definition replaced (m : medium) : Prop := exists p k1 f old k2 nm f', parent_of v kids path = Some (p, k1 ++ File f old :: k2, nm)
  /\ first_named nm k1 (File f old) /\ name f' = name f
  /\ volume_holds v m (replace_at kids dirs (k1 ++ File f' data :: k2)) /\ (sure -> forall c, c ∈ fchain v mu f -> used m v c = false).
Definition replace_error (e : string) (m : medium) : Prop := (sure -> no_room v mu data e /\ m = mu) /\ harmless v mu kids path m.

Section Old.
Context (p : DirRef) (k1 k2 : list node) (f : DirFile) (old nm : list Z).
Hypothesis Hparent : parent_of v kids path = Some (p, k1 ++ File f old :: k2, nm).
Hypothesis Hfound : first_named nm k1 (File f old).
Context (first : Z) (mu1 : medium).
Hypothesis St : stored_at v data first mu mu1.
Abbreviation cs := (chain_for v mu first data).
Abbreviation f' := (moved f (stream_flags data) first (Z.of_nat (length data))).

(** The old clusters, the new ones and the folder's are apart. *)
Lemma old_apart : (forall c, c ∈ fchain v mu f -> (c ∉ dchain v mu p ++ cs)) /\ (forall c, c ∈ cs -> (c ∉ dchain v mu p ++ fchain v mu f) /\ ~ bitmap_own v c).
Proof.
  destruct (node_clusters v cap mu kids dirs p k1 k2 (File f old) G V (parent_desc v mu kids path V p _ nm Hparent)) as (Hnd & Hin & _ & _). cbn [owned] in Hnd, Hin.
  assert (forall c, c ∈ cs -> (c ∉ dchain v mu p ++ fchain v mu f)) as H1.
  { intros c Hc Hx. pose proof (sa_free _ _ _ _ _ St c Hc) as Hu. destruct (Hin c) as (_ & Hu' & _); [clear - Hx; set_solver |]. by rewrite Hu in Hu'. }
  split.
  - intros c Hc [Hx | Hx]%elem_of_app; [apply NoDup_app in Hnd as (_ & Hd & _); apply (Hd c Hx); set_solver | apply (H1 c Hx); clear - Hc; set_solver].
  - intros c Hc. split; [by apply H1 |]. intros Ho. pose proof (vh_self _ _ _ V c Ho) as Hu. by rewrite (sa_free _ _ _ _ _ St c Hc) in Hu.
Qed.
(** The new entry written, the old clusters given back: the file has the new data. *)
Lemma replaced_ok new mu2 mu3 : is_dir f = false -> edited v p mu1 new mu2 -> dir_holds v mu2 p (map entry k1 ++ f' :: map entry k2) ->
  dchain v mu1 p = dchain v mu p -> proper_dir v p mu1 -> confined v (fchain v mu f) mu2 mu3 -> (sure -> forall c, c ∈ fchain v mu f -> used mu3 v c = false) -> replaced mu3.
Proof.
  intros Hfile Ed D2 E1 P1 C3 F3. pose proof (parent_desc v mu kids path V p _ nm Hparent) as Hdesc. destruct old_apart as [A1 A2].
  destruct (stored_holds v mu data f' first mu1 St Hfile eq_refl eq_refl (flags_no_chain data)) as [Hn1 Ho1].
  pose proof (ed_chain _ _ _ _ _ Ed) as E2. rewrite E1 in E2. pose proof (ed_conf _ _ _ _ _ Ed) as C2. rewrite E1 in C2.
  assert (confined v (dchain v mu p ++ fchain v mu f) mu1 mu3) as C13.
  { eapply confined_trans; [eapply confined_mono; [exact C2 |] | eapply confined_mono; [exact C3 |]]; clear; set_solver. }
  destruct (node_frame v cap _ mu1 mu3 G C13 (File f' data) Hn1) as [Hn3 Ho3]; [rewrite Ho1; exact A2 |]. rewrite Ho1 in Ho3.
  destruct (dir_frame v cap _ mu2 mu3 G C3 p _ D2) as [D3 E3].
  { intros c Hc. rewrite E2 in Hc. split; [intros Hx; apply (A1 c Hx); clear - Hc; set_solver |]. rewrite <- E1 in Hc. by apply (pd_used _ _ _ P1 c). }
  exists p, k1, f, old, k2, nm, f'. split_and!; [done | done | done | | done].
  apply (volume_swap v cap mu kids dirs p k1 k2 (File f old) G V Hdesc mu3 cs [File f' data]); cbn [owned]; [| apply St | | by rewrite E3 | | | by apply Forall_singleton | rewrite <- Ho3; exact (app_nil_r _) |].
  - eapply confined_trans; [eapply confined_mono; [apply (sa_conf _ _ _ _ _ St) |] | eapply confined_mono; [exact C13 |]]; clear; set_solver.
  - intros c Hc. split; [| by apply (sa_free _ _ _ _ _ St)]. by apply (ta_valid _ _ _ _ (stored_taken _ _ _ _ _ St)).
  - by rewrite !map_app.
  - intros c Hc. assert (c ∉ fchain v mu f) as Hx by (intros Hx; apply (A1 c Hx); clear - Hc; set_solver). rewrite <- E1 in Hc.
    destruct (pd_used _ _ _ P1 c Hc) as (Hv & _ & _). rewrite (proj1 (co_rest _ _ _ _ C3 c Hv Hx)). by apply (edited_used v p mu1 P1 _ _ c Ed).
  - intros c Hc. pose proof (ta_valid _ _ _ _ (stored_taken _ _ _ _ _ St) c Hc) as Hv. destruct (A2 c Hc) as [Hx _].
    rewrite (proj1 (co_rest _ _ _ _ C13 c Hv Hx)), (sa_marks _ _ _ _ _ St c Hv). by rewrite decide_True.
Qed.
End Old.

Lemma runs_overwrite p k1 k2 f old nm : parent_of v kids path = Some (p, k1 ++ File f old :: k2, nm) ->
  first_named nm k1 (File f old) -> is_dir f = false ->
  runs (overwrite env v p f data) mu (fun _ m => replaced m) replace_error.
Proof.
  intros Hparent Hfound Hfile. unfold overwrite. rewrite Hfile. apply runs_bind, runs_guard; [done |]. intros _.
  apply runs_bind. eapply runs_write_data; [exact G | exact Hdata | apply V | apply V | | |].
  - intros first mu1 St. set (cs := chain_for v mu first data). pose proof (stored_taken _ _ _ _ _ St) as T.
    destruct (parent_taken cap v mu kids path G V p _ nm Hparent cs mu1 T) as (P1 & D1 & E1 & _). rewrite map_app in D1. cbn [map entry] in D1.
    apply runs_bind. apply runs_bind, runs_catch.
    eapply runs_update_stream; [exact G | exact P1 | exact D1 | unfold stream_flags; by case_match | apply St | lia | |].
    + intros new mu2 Ed D2. apply runs_ret. destruct (old_apart p k1 k2 f old nm Hparent Hfound first mu1 St) as [A1 _].
      assert (confined v (dchain v mu p ++ cs) mu mu2) as C2.
      { eapply confined_trans; [eapply confined_mono; [apply (sa_conf _ _ _ _ _ St) |]; clear; set_solver |]. pose proof (ed_conf _ _ _ _ _ Ed) as C2. rewrite E1 in C2. eapply confined_mono; [exact C2 |]; clear; set_solver. }
      eapply (runs_release_node env sure cap v mu kids path p k1 k2 (File f old) nm G V Hparent I mu2 _ _ _ C2 A1).
      intros mu3 C3 F3. by eapply (replaced_ok p k1 k2 f old nm Hparent Hfound first mu1 St new mu2 mu3).
    + intros Hs e mu2 C2. apply runs_bind. eapply runs_rollback_stored; [exact G | exact Hdata | exact St | apply C2 |]. intros mu3 C3 _. apply runs_fail. split; [done |].
      exists (dchain v mu p ++ cs). rewrite E1 in C2. split.
      * eapply confined_trans; [eapply confined_mono; [apply (sa_conf _ _ _ _ _ St) |] | eapply confined_trans; [eapply confined_mono; [exact C2 |] | eapply confined_mono; [exact C3 |]]]; clear; set_solver.
      * intros c [Hc | Hc]%elem_of_app; [right; by exists p, (k1 ++ File f old :: k2), nm | left; by apply (sa_free _ _ _ _ _ St)].
  - intros Hor. split; [| by apply harmless_same]. intros s. destruct Hor as [[? ?] | ?]; [by split | done].
  - intros Hs e first mu' Hne Hff C. split; [done |]. eapply harmless_free; [done |].
    intros c Hc. destruct Hff as (_ & _ & F & _). apply elem_of_seqZ in Hc. apply F. lia.
Qed.

(** The file written, whether it was there or not. *)
Definition written (m : medium) : Prop := replaced m \/ added v kids path (fun f => File f data) m.
(** Why a working volume refuses to write. *)
Inductive denied : string -> Prop :=
| denied_folder p f ks : find_node v kids path = Some (p, Folder f ks) -> denied "is a directory"
| denied_space e : no_room v mu data e -> denied e
| denied_new e : find_node v kids path = None -> refused v kids path (no_room v mu data) e -> denied e.
Definition write_error (e : string) (m : medium) : Prop := (sure -> denied e /\ volume_holds v m kids) /\ harmless v mu kids path m.

Lemma runs_write_in : runs (write_in env v path data) mu (fun _ m => written m) write_error.
Proof.
  assert ((sure -> find_node v kids path = None) -> runs (create_in env v path data) mu (fun _ m => written m) write_error) as Hc.
  { intros Hn. eapply runs_mono; [by apply runs_create_in | by right |]. intros e m [A B]. split; [| done]. intros s. destruct (A s) as [A1 A2]. split; [by apply denied_new; [apply Hn |] | done]. }
  apply runs_bind. eapply runs_lookup; [exact G | exact V | | by intros Hs; apply Hc].
  destruct (find_node v kids path) as [[p n] |] eqn:Ef; cbn [fmap option_fmap option_map]; [| by apply Hc].
  destruct (found_split v kids path p n Ef) as (k1 & k2 & nm & Hparent & Hfound). pose proof (found_holds v mu kids path p n V Ef) as Hn.
  destruct n as [f old | f ks]; cbn [holds entry] in Hn |- *; rewrite ?holds_all in Hn.
  - eapply runs_mono; [eapply runs_overwrite; [exact Hparent | exact Hfound | apply Hn] | by left |]. intros e m [A B]. split; [| done]. intros s. destruct (A s) as [A1 ->]. split; [by apply denied_space | done].
  - destruct Hn as (Hd & _). unfold overwrite. rewrite Hd. apply runs_bind, runs_guard; [| done]. intros _.
    split; [intros _; split; [by eapply denied_folder | done] | by apply harmless_same].
Qed.
End Overwrite.

(** * Appending *)

Section Append.
Context (env : nat -> response) (sure : Prop) (cap : Z) (v : Volume) (mu : medium) (kids : list node) (path data : list Z).
Hypothesis G : geometry v cap.
Hypothesis V : volume_holds v mu kids.
Hypothesis Hpath : Forall (fun c => 0 < c < 256) path.
Definition contents : list Z := default [] (tree_read v kids path).
Hypothesis Hdata : Forall is_byte data /\ Z.of_nat (length (contents ++ data)) < 2 ^ 63.
Abbreviation runs := (runs env sure cap).

Lemma file_bytes f old : file_holds v mu f old -> Forall is_byte old.
Proof. intros [F1 F2 F3 F4 F5]. rewrite <- F4. apply Forall_take, (chain_data_bytes v cap G), V. Qed.
Lemma contents_bytes : Forall is_byte contents.
Proof.
  unfold contents, tree_read. destruct (find_node v kids path) as [[p n] |] eqn:Ef; [| constructor]. pose proof (found_holds v mu kids path p n V Ef) as Hn.
  destruct n as [f old | f ks]; cbn [default]; [by apply (file_bytes f) | constructor].
Qed.
(** A working device appends; another may also write the new data alone, or refuse. *)
Lemma runs_append_in : runs (append_in env v path data) mu
  (fun _ m => written sure v mu kids path (contents ++ data) m \/ (~ sure /\ written sure v mu kids path data m))
  (fun e m => write_error sure v mu kids path (contents ++ data) e m).
Proof.
  destruct Hdata as [Hb Hl]. assert (Forall is_byte (contents ++ data)) as Hb2 by (apply Forall_app; split; [apply contents_bytes | done]).
  assert (runs (write_in env v path (contents ++ data)) mu (fun _ m => written sure v mu kids path (contents ++ data) m \/ (~ sure /\ written sure v mu kids path data m))
    (fun e m => write_error sure v mu kids path (contents ++ data) e m)) as Hall by (eapply runs_mono; [apply (runs_write_in env sure cap); [exact G | exact V | exact Hpath | by split] | by left | done]).
  apply runs_bind. eapply runs_lookup; [exact G | exact V | |].
  2: { intros Hs. apply runs_bind, runs_ret. change ([] ++ data) with data. rewrite length_app in Hl.
    eapply runs_mono; [apply (runs_write_in env sure cap); [exact G | exact V | exact Hpath | split; [done | lia]] | by right |]. intros e m [_ Hh]. by split. }
  destruct (find_node v kids path) as [[p n] |] eqn:Ef; cbn [fmap option_fmap option_map].
  - pose proof (found_holds v mu kids path p n V Ef) as Hn. apply runs_bind. assert (contents = match n with File _ old => old | Folder _ _ => [] end) as Hc.
    { unfold contents, tree_read. rewrite Ef. by destruct n. }
    destruct n as [f old | f ks]; cbn [holds entry] in Hn |- *; rewrite ?holds_all in Hn.
    + rewrite (fh_file _ _ _ _ Hn). apply runs_bind. eapply runs_read_file_inner; [exact G | apply V | exact Hn | |].
      * apply runs_lift. cbn [ok_or]. by rewrite <- Hc.
      * intros Hs. apply runs_lift. split; [done | by apply harmless_same].
    + destruct Hn as (-> & _). apply runs_fail. split; [intros _; split; [by eapply denied_folder | done] | by apply harmless_same].
  - apply runs_bind, runs_ret. assert (contents = []) as Hc by (unfold contents, tree_read; by rewrite Ef). rewrite Hc in Hall |- *. exact Hall.
Qed.
End Append.

(** * The calls *)

(** C29. delete refines the tree: when it succeeds the volume holds the same tree without the
    file or empty folder that the path names; on a working device its clusters are free again
    (a device that fails while they are freed can leave some of them marked as in use).  On a
    working device it fails only where the path names nothing or a folder that is not empty, and then
    changes nothing; on any device it leaves whatever was in use outside the parent folder
    untouched when it fails, and it never panics. *)
Theorem exfat_delete_correct env v d kids path : geometry v (capacity_sectors d) -> volume_holds v (media d) kids ->
  wp (delete env path) (mkFs (Some v) d)
    (fun _ f => volume f = Some v /\ removed (working env (capacity_sectors d) d) v (media d) kids path (media (device f)))
    (fun e f => volume f = Some v /\ delete_error (working env (capacity_sectors d) d) v (media d) kids path e (media (device f))).
Proof.
  intros G V. apply wp_with_volume.
  apply (runs_wp env _ d (fun _ m => Some v = Some v /\ removed (working env (capacity_sectors d) d) v (media d) kids path m)
    (fun e m => Some v = Some v /\ delete_error (working env (capacity_sectors d) d) v (media d) kids path e m)).
  eapply runs_mono; [by apply runs_delete_in | by auto | by auto].
Qed.

(** C28. write_file refines the tree: when it succeeds the volume holds the same tree with the
    data in the file that the path names, under its name, or with the file added; on a working
    device the old clusters are free again (a device that fails while they are freed can leave
    some of them marked as in use).  On a working device it fails only for a reason of its
    own (a folder at the path, no space, or what create_file refuses) and the tree is as it
    was; on any device a failure leaves whatever was in use outside the parent folder
    untouched, the old data included, and it never panics.  The path holds no NUL byte and
    the data is below 2^63 bytes. *)
Theorem exfat_write_file_correct env v d kids path data : geometry v (capacity_sectors d) -> volume_holds v (media d) kids ->
  Forall (fun c => 0 < c < 256) path -> Forall is_byte data -> Z.of_nat (length data) < 2 ^ 63 ->
  wp (write_file env path data) (mkFs (Some v) d)
    (fun _ f => volume f = Some v /\ written (working env (capacity_sectors d) d) v (media d) kids path data (media (device f)))
    (fun e f => volume f = Some v /\ write_error (working env (capacity_sectors d) d) v (media d) kids path data e (media (device f))).
Proof.
  intros G V Hp Hb Hl. apply wp_with_volume.
  apply (runs_wp env _ d (fun _ m => Some v = Some v /\ written (working env (capacity_sectors d) d) v (media d) kids path data m)
    (fun e m => Some v = Some v /\ write_error (working env (capacity_sectors d) d) v (media d) kids path data e m)).
  eapply runs_mono; [apply (runs_write_in env _ (capacity_sectors d)); [exact G | exact V | exact Hp | by split] | by auto | by auto].
Qed.

Lemma written_read sure v m0 kids path data m : written sure v m0 kids path data m -> exists kids', volume_holds v m kids' /\ tree_read v kids' path = Some data.
Proof.
  intros [(p & k1 & f & old & k2 & nm & f' & Hpar & [H1 H2] & Hnm & V & _) | (p & k1 & k2 & nm & f & Hpar & Hnew & Hnm & V)].
  - eexists. split; [exact V |]. unfold tree_read, find_node, parent_of in *. destruct (last (components path)) as [nm' |]; [| done].
    destruct (descend (root_ref v) kids (removelast (components path))) as [[d ks] |] eqn:Ed; [| done]. cbn in Hpar. simplify_eq.
    rewrite (descend_replace _ _ _ _ _ _ Ed). cbn [mbind option_bind]. rewrite find_app, H1. cbn [List.find].
    assert (named nm (File f' data) = true) as -> by (unfold named in *; cbn [entry] in *; by rewrite Hnm). done.
  - eexists. split; [exact V |]. by eapply created_read.
Qed.

(** C31. Appending keeps what was there: on a working device, when append_file has succeeded,
    read_file of the same path returns the contents the file had with the new bytes behind
    them (the new bytes alone where there was no file); when it fails, it is for a reason of
    its own and the tree is as it was.  The path holds no NUL byte, and the contents with the
    new bytes are below 2^63 bytes. *)
Theorem exfat_append_read_roundtrip env v d kids path data : geometry v (capacity_sectors d) -> volume_holds v (media d) kids ->
  Forall (fun c => 0 < c < 256) path -> Forall is_byte data -> Z.of_nat (length (contents v kids path ++ data)) < 2 ^ 63 -> working env (capacity_sectors d) d ->
  wp (_ ← append_file env path data; read_file env path) (mkFs (Some v) d)
    (fun o f => o = Some (contents v kids path ++ data))
    (fun e f => write_error (working env (capacity_sectors d) d) v (media d) kids path (contents v kids path ++ data) e (media (device f))).
Proof.
  intros G V Hp Hb Hl Hwork. set (sure := working env (capacity_sectors d) d) in *. apply wp_bind, wp_with_volume.
  eapply wp_mono; [apply (runs_append_in env sure (capacity_sectors d) v (media d) kids path data G V Hp (conj Hb Hl) d eq_refl (fun s => s)) | | by intros e d' [_ He]].
  intros [] d' [Hw [Hwr | [Hn _]]]; [| done]. destruct (written_read _ _ _ _ _ _ _ Hwr) as (kids' & V' & Ht). apply wp_with_volume.
  eapply wp_mono; [eapply (runs_read_path env sure (capacity_sectors d) v (media d') kids' path (fun o _ => o = Some (contents v kids path ++ data)) (fun _ _ => False) G V'); [done | done | done | done] | |].
  - by intros o d2 [_ Ho].
  - by intros e d2 [_ He].
Qed.

(** * The example volume *)

Lemma exfat_delete_correct_witness : (delete demo_env demo_path demo_with_file).1 = Ok tt
  /\ exists f, wp (delete demo_env demo_path) (mkFs (Some demo_volume) (device demo_with_file))
    (fun _ g => volume g = Some demo_volume /\ removed (working demo_env (capacity_sectors (device demo_with_file)) (device demo_with_file)) demo_volume (media (device demo_with_file)) [File f [7; 8; 9]] demo_path (media (device g)))
    (fun e g => volume g = Some demo_volume /\ delete_error (working demo_env (capacity_sectors (device demo_with_file)) (device demo_with_file)) demo_volume (media (device demo_with_file)) [File f [7; 8; 9]] demo_path e (media (device g))).
Proof.
  split; [vm_compute; reflexivity |]. destruct demo_file_holds as (f & V & _). exists f.
  exact (exfat_delete_correct demo_env demo_volume (device demo_with_file) [File f [7; 8; 9]] demo_path demo_file_geometry V).
Defined.
Lemma exfat_write_file_correct_witness : (write_file demo_env demo_path [1] demo_with_file).1 = Ok tt
  /\ exists f, wp (write_file demo_env demo_path [1]) (mkFs (Some demo_volume) (device demo_with_file))
    (fun _ g => volume g = Some demo_volume /\ written (working demo_env (capacity_sectors (device demo_with_file)) (device demo_with_file)) demo_volume (media (device demo_with_file)) [File f [7; 8; 9]] demo_path [1] (media (device g)))
    (fun e g => volume g = Some demo_volume /\ write_error (working demo_env (capacity_sectors (device demo_with_file)) (device demo_with_file)) demo_volume (media (device demo_with_file)) [File f [7; 8; 9]] demo_path [1] e (media (device g))).
Proof.
  split; [vm_compute; reflexivity |]. destruct demo_file_holds as (f & V & _). exists f. assert (Forall is_byte [1]) as Hb by (by apply Forall_singleton).
  assert (Z.of_nat (length [1]) < 2 ^ 63) as Hl by (cbn; lia).
  exact (exfat_write_file_correct demo_env demo_volume (device demo_with_file) [File f [7; 8; 9]] demo_path [1] demo_file_geometry V demo_path_ok Hb Hl).
Defined.
Lemma exfat_append_read_roundtrip_witness : ((_ ← append_file demo_env demo_path [1]; read_file demo_env demo_path) demo_with_file).1 = Ok (Some [7; 8; 9; 1])
  /\ exists f, contents demo_volume [File f [7; 8; 9]] demo_path = [7; 8; 9]
  /\ wp (_ ← append_file demo_env demo_path [1]; read_file demo_env demo_path) (mkFs (Some demo_volume) (device demo_with_file))
    (fun o g => o = Some (contents demo_volume [File f [7; 8; 9]] demo_path ++ [1]))
    (fun e g => write_error (working demo_env (capacity_sectors (device demo_with_file)) (device demo_with_file)) demo_volume (media (device demo_with_file)) [File f [7; 8; 9]] demo_path (contents demo_volume [File f [7; 8; 9]] demo_path ++ [1]) e (media (device g))).
Proof.
  split; [vm_compute; reflexivity |]. destruct demo_file_holds as (f & V & Hn). exists f. assert (Forall is_byte [1]) as Hb by (by apply Forall_singleton).
  assert (contents demo_volume [File f [7; 8; 9]] demo_path = [7; 8; 9]) as Hc.
  { unfold contents, tree_read, find_node, parent_of. change (last (components demo_path)) with (Some demo_path). change (removelast (components demo_path)) with (@nil (list Z)).
    cbn [descend mbind option_bind List.find]. unfold named. cbn [entry]. by rewrite Hn, names_equal_refl. }
  assert (Z.of_nat (length (contents demo_volume [File f [7; 8; 9]] demo_path ++ [1])) < 2 ^ 63) as Hl by (rewrite Hc; cbn; lia).
  split; [exact Hc |].
  exact (exfat_append_read_roundtrip demo_env demo_volume (device demo_with_file) [File f [7; 8; 9]] demo_path [1] demo_file_geometry V demo_path_ok Hb Hl demo_file_working).
Defined.
End ExfatChange.
