(* ===== verification/Input.v ===== *)
(** Console input (src/keyboard.rs): the bounded event queue filled by the keyboard and the
    UART, loss recovery, and the translation of PS/2 scancodes.

    The code works under a lock with interrupts off, so operations are atomic.  The ring
    buffer is shown to behave as a plain list queue with a loss flag. *)

From Stdlib Require Import ZArith Lia.
From stdpp Require Import base list list_numbers numbers decidable tactics strings.
From S2P Require Import Prelude.

Module Input.

Definition QUEUE_SIZE : Z := 1024.

Inductive InputEvent := Byte (b : Z) | Lost.

Record InputQueue := mkQueue {
  bytes : list Z; head : Z; tail : Z; len : Z; lost : bool; discarding : bool }.

Definition new : InputQueue := mkQueue (replicate (Z.to_nat QUEUE_SIZE) 0) 0 0 0 false false.
Definition invalidate (q : InputQueue) : InputQueue := mkQueue (bytes q) 0 0 0 true true.
(** [matches!(byte, b'\n' | b'\r')]. *)
Definition newline (b : Z) : bool := (b =? 10) || (b =? 13).
Definition stop_discarding (q : InputQueue) : InputQueue :=
  mkQueue (bytes q) (head q) (tail q) (len q) (lost q) false.

Definition push (q : InputQueue) (b : Z) : InputQueue :=
  if discarding q then if newline b then stop_discarding q else q
  else if len q =? QUEUE_SIZE then
    let q := invalidate q in if newline b then stop_discarding q else q
  else
    mkQueue (<[Z.to_nat (head q) := b]> (bytes q)) ((head q + 1) mod QUEUE_SIZE) (tail q) (len q + 1)
      (lost q) (discarding q).

Definition pop (q : InputQueue) : option InputEvent * InputQueue :=
  if lost q then (Some Lost, mkQueue (bytes q) (head q) (tail q) (len q) false (discarding q))
  else if len q =? 0 then (None, q)
  else (Some (Byte (nth (Z.to_nat (tail q)) (bytes q) 0)),
        mkQueue (bytes q) (head q) ((tail q + 1) mod QUEUE_SIZE) (len q - 1) (lost q) (discarding q)).

(** * Scancodes *)

Definition MOD_SHIFT : Z := 1.
Definition MAP_LOWER : list Z := [
  0; 0x1b; 49; 50; 51; 52; 53; 54;   55; 56; 57; 48; 45; 61; 0x08; 9;
  113; 119; 101; 114; 116; 121; 117; 105;   111; 112; 91; 93; 10; 0; 97; 115;
  100; 102; 103; 104; 106; 107; 108; 59;   39; 96; 0; 92; 122; 120; 99; 118;
  98; 110; 109; 44; 46; 47; 0; 42;   0; 32; 0; 0; 0; 0; 0; 0 ].
Definition MAP_UPPER : list Z := [
  0; 0x1b; 33; 64; 35; 36; 37; 94;   38; 42; 40; 41; 95; 43; 0x08; 9;
  81; 87; 69; 82; 84; 89; 85; 73;   79; 80; 123; 125; 10; 0; 65; 83;
  68; 70; 71; 72; 74; 75; 76; 58;   34; 126; 0; 124; 90; 88; 67; 86;
  66; 78; 77; 60; 62; 63; 0; 42;   0; 32; 0; 0; 0; 0; 0; 0 ].

Record keyboard := mkKeyboard { modifiers : Z; input : InputQueue }.

Definition handle_scancode (k : keyboard) (scancode : Z) : keyboard :=
  if scancode =? 0xe0 then k
  else
    let released := negb (Z.land scancode 0x80 =? 0) in
    let code := Z.land scancode 0x7f in
    if (code =? 0x2a) || (code =? 0x36) then
      mkKeyboard (if released then Z.land (modifiers k) (unot 8 MOD_SHIFT) else Z.lor (modifiers k) MOD_SHIFT) (input k)
    else if released || (Z.of_nat (length MAP_LOWER) <=? code) then k
    else
      let shifted := negb (Z.land (modifiers k) MOD_SHIFT =? 0) in
      let c := nth (Z.to_nat code) (if shifted then MAP_UPPER else MAP_LOWER) 0 in
      if negb (c =? 0) then mkKeyboard (modifiers k) (push (input k) c) else k.

(** * The queue as a list *)

Record aqueue := mkA { a_bytes : list Z; a_lost : bool; a_discarding : bool }.
Definition a_new : aqueue := mkA [] false false.
Definition a_invalidate (_ : aqueue) : aqueue := mkA [] true true.
Definition a_push (a : aqueue) (b : Z) : aqueue :=
  if a_discarding a then mkA (a_bytes a) (a_lost a) (negb (newline b))
  else if Z.of_nat (length (a_bytes a)) =? QUEUE_SIZE then mkA [] true (negb (newline b))
  else mkA (a_bytes a ++ [b]) (a_lost a) false.
Definition a_pop (a : aqueue) : option InputEvent * aqueue :=
  if a_lost a then (Some Lost, mkA (a_bytes a) false (a_discarding a))
  else match a_bytes a with
       | [] => (None, a)
       | b :: rest => (Some (Byte b), mkA rest (a_lost a) (a_discarding a))
       end.

(** The buffered bytes, oldest first. *)
Definition slot (q : InputQueue) (i : Z) : Z := nth (Z.to_nat ((tail q + i) mod QUEUE_SIZE)) (bytes q) 0.
Definition contents (q : InputQueue) : list Z := map (slot q) (seqZ 0 (len q)).
Definition abs (q : InputQueue) : aqueue := mkA (contents q) (lost q) (discarding q).

Record queue_ok (q : InputQueue) : Prop := {
  qo_bytes : Z.of_nat (length (bytes q)) = QUEUE_SIZE;
  qo_tail : 0 <= tail q < QUEUE_SIZE;
  qo_len : 0 <= len q <= QUEUE_SIZE;
  qo_head : head q = (tail q + len q) mod QUEUE_SIZE;
  qo_disc : discarding q = true -> len q = 0 }.

Lemma new_queue_ok : queue_ok new.
Proof. by constructor. Qed.

Lemma length_contents q : queue_ok q -> Z.of_nat (length (contents q)) = len q.
Proof. intros [_ _ H _ _]. unfold contents. rewrite length_map, length_seqZ. lia. Qed.

(** Two offsets in a full turn reach different slots. *)
Lemma slots_apart t i j : 0 <= i < QUEUE_SIZE -> 0 <= j < QUEUE_SIZE ->
  (t + i) mod QUEUE_SIZE = (t + j) mod QUEUE_SIZE -> i = j.
Proof. unfold QUEUE_SIZE. intros Hi Hj H. zdiv. Qed.

Lemma push_refines q b : queue_ok q -> queue_ok (push q b) /\ abs (push q b) = a_push (abs q) b.
Proof.
  intros OK. pose proof (length_contents q OK) as Hl. unfold push, a_push. cbn [a_discarding abs a_bytes].
  rewrite Hl. destruct (discarding q) eqn:Ed.
  { destruct OK as [H1 H2 H3 H4 H5]. destruct (newline b); split; [by constructor | done | by constructor |].
    unfold abs. by rewrite Ed. }
  destruct (len q =? QUEUE_SIZE) eqn:El.
  { destruct (newline b); (split; [constructor; cbn; (done || apply OK) | done]). }
  apply Z.eqb_neq in El. destruct OK as [H1 H2 H3 H4 H5]. split.
  - constructor; cbn [bytes tail len head discarding]; rewrite ?length_insert; try done; try lia.
    rewrite H4. unfold QUEUE_SIZE. rewrite Zplus_mod_idemp_l. f_equal. lia.
  - unfold abs. cbn [lost discarding]. rewrite Ed. f_equal. unfold contents. cbn [len].
    rewrite seqZ_app by lia. rewrite map_app. f_equal.
    + apply map_ext_in. intros i Hi%list_elem_of_In%elem_of_seqZ. unfold slot. cbn [tail bytes].
      rewrite !nth_lookup, list_lookup_insert_ne; [done |]. rewrite H4. intros E.
      apply (f_equal Z.of_nat) in E. rewrite !Z2Nat.id in E by (apply Z.mod_pos_bound; done).
      apply slots_apart in E; lia.
    + change (seqZ (0 + len q) 1) with [len q]. cbn [map]. unfold slot. cbn [tail bytes].
      rewrite nth_lookup, <- H4, list_lookup_insert_eq; [done |].
      assert (0 <= head q < QUEUE_SIZE) by (rewrite H4; apply Z.mod_pos_bound; done). lia.
Qed.

Lemma contents_cons q : queue_ok q -> 0 < len q ->
  contents q = slot q 0
    :: contents (mkQueue (bytes q) (head q) ((tail q + 1) mod QUEUE_SIZE) (len q - 1) (lost q) (discarding q)).
Proof.
  intros OK Hl. unfold contents. cbn [len]. rewrite seqZ_cons by done. cbn [map]. f_equal.
  change (Z.succ 0) with (1 + 0). rewrite <- fmap_add_seqZ. change (fmap (M:=list)) with (@map Z Z).
  rewrite map_map. apply map_ext. intros i. unfold slot. cbn [tail bytes].
  rewrite Zplus_mod_idemp_l. by rewrite Z.add_assoc.
Qed.

Lemma pop_refines q : queue_ok q ->
  queue_ok (snd (pop q)) /\ fst (pop q) = fst (a_pop (abs q)) /\ abs (snd (pop q)) = snd (a_pop (abs q)).
Proof.
  intros OK. unfold pop, a_pop. cbn [a_lost abs a_bytes]. destruct (lost q) eqn:El.
  { cbn [fst snd]. destruct OK as [H1 H2 H3 H4 H5]. split; [by constructor | done]. }
  destruct (Z.eqb_spec (len q) 0) as [Hz | Hz].
  { cbn [fst snd]. unfold contents. rewrite Hz. cbn [seqZ map]. split; [done |]. split; [done |].
    unfold abs, contents. by rewrite Hz. }
  pose proof OK as [H1 H2 H3 H4 H5]. rewrite (contents_cons q OK) by lia. cbn [fst snd]. split; [| split].
  - constructor; cbn [bytes tail len head discarding]; try done.
    + apply Z.mod_pos_bound. done.
    + lia.
    + rewrite H4, Zplus_mod_idemp_l. f_equal. lia.
    + intros Hd. specialize (H5 Hd). lia.
  - unfold slot. rewrite Z.add_0_r, Z.mod_small by lia. done.
  - unfold abs. cbn [lost discarding]. rewrite El. done.
Qed.

Lemma invalidate_refines q : queue_ok q -> queue_ok (invalidate q) /\ abs (invalidate q) = a_invalidate (abs q).
Proof. intros [H1 H2 H3 H4 H5]. by split; [constructor |]. Qed.

(** * Runs *)

Inductive op := Push (b : Z) | Pop | InputLost.
Definition step (q : InputQueue) (o : op) : list InputEvent * InputQueue :=
  match o with
  | Push b => ([], push q b)
  | Pop => let '(e, q') := pop q in (option_list e, q')
  | InputLost => ([], invalidate q)
  end.
Definition a_step (a : aqueue) (o : op) : list InputEvent * aqueue :=
  match o with
  | Push b => ([], a_push a b)
  | Pop => let '(e, a') := a_pop a in (option_list e, a')
  | InputLost => ([], a_invalidate a)
  end.
Fixpoint run {S} (st : S -> op -> list InputEvent * S) (s : S) (os : list op) : list InputEvent * S :=
  match os with
  | [] => ([], s)
  | o :: os' => let '(e, s') := st s o in let '(es, s'') := run st s' os' in (e ++ es, s'')
  end.

Lemma step_refines q o : queue_ok q ->
  queue_ok (snd (step q o)) /\ fst (step q o) = fst (a_step (abs q) o) /\ abs (snd (step q o)) = snd (a_step (abs q) o).
Proof.
  intros OK. destruct o as [b | |]; cbn [step a_step fst snd].
  - by destruct (push_refines q b OK).
  - destruct (pop_refines q OK) as (H1 & H2 & H3). destruct (pop q), (a_pop (abs q)). cbn in *. by subst.
  - by destruct (invalidate_refines q OK).
Qed.

Lemma run_refines os : forall q, queue_ok q ->
  fst (run step q os) = fst (run a_step (abs q) os) /\ queue_ok (snd (run step q os))
  /\ abs (snd (run step q os)) = snd (run a_step (abs q) os).
Proof.
  induction os as [| o os IH]; intros q OK; [done |]. cbn [run].
  destruct (step_refines q o OK) as (H1 & H2 & H3).
  destruct (step q o) as [e q1], (a_step (abs q) o) as [e' a1]. cbn [fst snd] in *. subst.
  destruct (IH q1 H1) as (I1 & I2 & I3). destruct (run step q1 os), (run a_step (abs q1) os). cbn in *. by subst.
Qed.

(** * Loss recovery *)

(** All bytes offered to the queue, in order. *)
Fixpoint pushed (os : list op) : list Z :=
  match os with [] => [] | Push b :: os' => b :: pushed os' | _ :: os' => pushed os' end.
(** The bytes delivered since the last loss event, and whether there was one. *)
Fixpoint since_loss (seen : bool * list Z) (es : list InputEvent) : bool * list Z :=
  match es with
  | [] => seen
  | Lost :: es' => since_loss (true, []) es'
  | Byte b :: es' => since_loss (seen.1, seen.2 ++ [b]) es'
  end.

Definition ends_line (l : list Z) : Prop := exists b, last l = Some b /\ newline b = true.

(** [l] was offered in one piece, at the start of a line if [after]. *)
Definition piece_of (h : list Z) (after : bool) (l : list Z) : Prop :=
  exists pre rest, h = pre ++ l ++ rest /\ (after = true -> l = [] \/ ends_line pre).

(** [h]: all bytes offered so far; [seen]: what the reader has since the last loss. *)
Record whole_lines (h : list Z) (seen : bool * list Z) (a : aqueue) : Prop := {
  wl_seen : piece_of h seen.1 seen.2;
  wl_disc : a_discarding a = true -> a_bytes a = [] /\ (a_lost a = true \/ seen = (true, []));
  wl_next : a_discarding a = false -> exists pre,
    h = pre ++ (if a_lost a then [] else seen.2) ++ a_bytes a /\ (a_lost a || seen.1 = true -> ends_line pre) }.

Lemma piece_snoc h after l b : piece_of h after l -> piece_of (h ++ [b]) after l.
Proof. intros (pre & rest & -> & H). exists pre, (rest ++ [b]). split; [by rewrite !app_assoc | done]. Qed.

Lemma ends_line_snoc h b : newline b = true -> ends_line (h ++ [b]).
Proof. intros Hb. exists b. by rewrite last_snoc. Qed.

Lemma whole_push h seen a b : whole_lines h seen a -> whole_lines (h ++ [b]) seen (a_push a b).
Proof.
  intros [H1 H2 H3]. constructor; [by apply piece_snoc | |]; unfold a_push; destruct (a_discarding a) eqn:Ed.
  - intros _. cbn. by apply H2.
  - destruct (_ =? QUEUE_SIZE); cbn; [by auto | done].
  - cbn. intros Hb%negb_false_iff. destruct (H2 eq_refl) as [-> Hs]. exists (h ++ [b]). split.
    + destruct Hs as [-> | ->]; cbn; [| destruct (a_lost a)]; by rewrite !app_nil_r.
    + intros _. by apply ends_line_snoc.
  - destruct (_ =? QUEUE_SIZE); cbn.
    + intros Hb%negb_false_iff. exists (h ++ [b]). split; [by rewrite app_nil_r | intros _; by apply ends_line_snoc].
    + intros _. destruct (H3 eq_refl) as (pre & -> & Hp). exists pre. split; [by rewrite !app_assoc | done].
Qed.

Lemma whole_pop h seen a : whole_lines h seen a ->
  let '(e, a') := a_pop a in whole_lines h (since_loss seen (option_list e)) a'.
Proof.
  intros W. pose proof W as [H1 H2 H3]. unfold a_pop. destruct (a_lost a) eqn:El.
  - constructor; cbn.
    + exists [], h. split; [done |]. by left.
    + intros Hd. destruct (H2 Hd) as [-> _]. auto.
    + intros Hd. destruct (H3 Hd) as (pre & -> & Hp). exists pre. split; [done |]. intros _. by apply Hp.
  - destruct (a_bytes a) as [| b rest] eqn:Eb; [done |].
    destruct (a_discarding a) eqn:Ed; [by destruct (H2 eq_refl) |].
    destruct (H3 eq_refl) as (pre & -> & Hp). constructor; cbn.
    + exists pre, rest. split; [by rewrite <- app_assoc |]. intros Hs. right. by apply Hp.
    + done.
    + intros _. exists pre. split; [by rewrite <- !app_assoc | done].
Qed.

Lemma since_loss_app seen es es' : since_loss seen (es ++ es') = since_loss (since_loss seen es) es'.
Proof. revert seen. induction es as [| [b |] es IH]; intros seen; cbn; [done | apply IH | apply IH]. Qed.

Lemma whole_run os : forall h seen a, whole_lines h seen a ->
  whole_lines (h ++ pushed os) (since_loss seen (fst (run a_step a os))) (snd (run a_step a os)).
Proof.
  induction os as [| o os IH]; intros h seen a W; [by rewrite app_nil_r |]. cbn [run].
  assert (whole_lines (h ++ match o with Push b => [b] | _ => [] end) (since_loss seen (fst (a_step a o))) (snd (a_step a o))) as W'.
  { destruct o as [b | |]; cbn [a_step fst snd]; rewrite ?app_nil_r; [by apply whole_push | |].
    - pose proof (whole_pop h seen a W). by destruct (a_pop a).
    - destruct W as [H1 _ _]. constructor; cbn; [done | by auto | done]. }
  destruct (a_step a o) as [e a1]. cbn [fst snd] in W'. specialize (IH _ _ _ W').
  destruct (run a_step a1 os) as [es a2]. cbn [fst snd] in *. rewrite since_loss_app.
  replace (h ++ pushed (o :: os)) with ((h ++ match o with Push b => [b] | _ => [] end) ++ pushed os); [done |].
  rewrite <- app_assoc. by destruct o.
Qed.

(** * Theorems *)

(** The ring buffer refines a plain list queue: for every sequence of pushes, pops and
    hardware losses the reader gets the same events from both, and the buffered bytes are
    the same list, never more than the capacity. *)
Theorem input_queue_refines os :
  fst (run step new os) = fst (run a_step a_new os)
  /\ abs (snd (run step new os)) = snd (run a_step a_new os)
  /\ Z.of_nat (length (contents (snd (run step new os)))) <= QUEUE_SIZE.
Proof.
  destruct (run_refines os new new_queue_ok) as (H1 & H2 & H3). split; [done |]. split; [done |].
  rewrite length_contents by done. apply H2.
Qed.

(** No truncated command after a loss: whatever was pushed, popped and lost, the bytes
    delivered since the last loss event are one contiguous piece of the input, and that
    piece starts at the beginning of a line. *)
Theorem input_whole_lines os :
  let '(after, l) := since_loss (false, []) (fst (run step new os)) in piece_of (pushed os) after l.
Proof.
  destruct (run_refines os new new_queue_ok) as (-> & _ & _). change (abs new) with a_new.
  assert (whole_lines [] (false, []) a_new) as W.
  { constructor; cbn; [by exists [], [] | done |]. intros _. by exists []. }
  pose proof (wl_seen _ _ _ (whole_run os _ _ _ W)) as H. by destruct (since_loss _ _).
Qed.
End Input.
