(* ===== verification/Virtqueue.v ===== *)
(** Split virtqueues (src/virtio/mod.rs) and the CPU-side ownership of their descriptors
    (src/virtio/ownership.rs).

    Everything the driver reads back from memory shared with the device (the used ring and
    its index) is an input of the operations, so the theorems hold for a device that
    writes anything there.  The ring's memory layout and the fences are not modelled;
    [None] is an index out of range. *)

From Stdlib Require Import ZArith Lia.
From stdpp Require Import base list list_numbers numbers decidable tactics strings.
From S2P Require Import Prelude.

Module Virtqueue.

(** * Ownership *)

Definition END : Z := 65535.

Record Ownership := mkOwn { next : list Z; pending : list Z; free_head : Z; free : Z; broken : bool }.

(** [Ownership::new]; the assertion [size != 0] fails with [None]. *)
Definition own_new (size : Z) : option Ownership :=
  if size =? 0 then None
  else Some (mkOwn (map (fun i => if i <? size - 1 then i + 1 else END) (seqZ 0 size))
               (replicate (Z.to_nat size) 0) 0 size false).
Definition poison (o : Ownership) : Ownership := mkOwn (next o) (pending o) (free_head o) (free o) true.
Definition next_of (o : Ownership) (id : Z) : option Z := next o !! Z.to_nat id.
(** [for _ in 1..count { tail = self.next(tail); }] with [n = count - 1] turns. *)
Fixpoint follow (o : Ownership) (n : nat) (tail : Z) : option Z :=
  match n with
  | O => Some tail
  | S n' => t ← next_of o tail; follow o n' t
  end.

Definition reserve (o : Ownership) (count : Z) : option (option Z * Ownership) :=
  if broken o || (count =? 0) || (free o <? count) then Some (None, o)
  else
    let head := free_head o in
    tail ← follow o (Z.to_nat (count - 1)) head;
    after ← next_of o tail;
    _ ← pending o !! Z.to_nat head;
    Some (Some head, mkOwn (<[Z.to_nat tail := END]> (next o)) (<[Z.to_nat head := count mod 2 ^ 16]> (pending o))
                       after (free o - count mod 2 ^ 16) (broken o)).

Definition complete (o : Ownership) (id count : Z) (expected : option Z) : option (option Z * Ownership) :=
  if broken o then Some (None, o)
  else if (Z.of_nat (length (pending o)) <=? id) || (count =? 0)
          || negb (nth (Z.to_nat id) (pending o) 0 =? count)
          || match expected with Some head => negb (id =? head) | None => false end
  then Some (None, poison o)
  else
    let head := id mod 2 ^ 16 in
    tail ← follow o (Z.to_nat (count - 1)) head;
    _ ← next_of o tail;
    Some (Some head, mkOwn (<[Z.to_nat tail := free_head o]> (next o)) (<[Z.to_nat head := 0]> (pending o))
                       head (free o + count) (broken o)).

(** * The queue *)

Definition DESC_F_NEXT : Z := 1.
Definition DESC_F_WRITE : Z := 2.
Record Desc := mkDesc { addr : Z; dlen : Z; flags : Z; dnext : Z }.
(** Physical address, length, written by the device. *)
Definition QueueBuf : Type := Z * Z * bool.

Record Virtqueue := mkVq {
  size : Z; desc : list Desc; avail_idx : Z; avail_ring : list Z; ownership : Ownership; last_used : Z }.

(** A queue over zeroed memory. *)
Definition vq_new (sz : Z) : option Virtqueue :=
  o ← own_new sz;
  Some (mkVq sz (replicate (Z.to_nat sz) (mkDesc 0 0 0 0)) 0 (replicate (Z.to_nat sz) 0) o 0).

(** The loop of [submit] over the buffers, from descriptor [idx] on. *)
Fixpoint fill (o : Ownership) (d : list Desc) (idx : Z) (bufs : list QueueBuf) : option (list Desc) :=
  match bufs with
  | [] => Some d
  | (a, l, w) :: rest =>
      _ ← d !! Z.to_nat idx;
      let f := if w : bool then DESC_F_WRITE else 0 in
      if bool_decide (rest = []) then Some (<[Z.to_nat idx := mkDesc a l f 0]> d)
      else
        n ← next_of o idx;
        fill o (<[Z.to_nat idx := mkDesc a l (Z.lor f DESC_F_NEXT) n]> d) n rest
  end.

Definition submit (q : Virtqueue) (bufs : list QueueBuf) : option (option Z * Virtqueue) :=
  '(h, o) ← reserve (ownership q) (Z.of_nat (length bufs));
  match h with
  | None => Some (None, mkVq (size q) (desc q) (avail_idx q) (avail_ring q) o (last_used q))
  | Some head =>
      d ← fill o (desc q) head bufs;
      let slot := Z.to_nat (avail_idx q mod size q) in
      _ ← avail_ring q !! slot;
      Some (Some head, mkVq (size q) d (wrapping_add 16 (avail_idx q) 1) (<[slot := head]> (avail_ring q)) o (last_used q))
  end.

(** [used] and [ring] are what the device's memory holds at the time of the call. *)
Definition pop_used_checked (q : Virtqueue) (used : Z) (ring : Z -> Z * Z) (chain_len : Z) (expected : option Z)
  : option (option (Z * Z) * Virtqueue) :=
  let with_own o lu := mkVq (size q) (desc q) (avail_idx q) (avail_ring q) o lu in
  if broken (ownership q) then Some (None, q)
  else if size q <? wrapping_sub 16 used (last_used q) then Some (None, with_own (poison (ownership q)) (last_used q))
  else if last_used q =? used then Some (None, q)
  else
    let '(id, len) := ring (last_used q mod size q) in
    '(h, o) ← complete (ownership q) id chain_len expected;
    Some (match h with Some head => Some (head, len) | None => None end, with_own o (wrapping_add 16 (last_used q) 1)).
Definition pop_used (q : Virtqueue) (used : Z) (ring : Z -> Z * Z) (chain_len : Z)
  : option (option (Z * Z) * Virtqueue) := pop_used_checked q used ring chain_len None.

(** [wait_used]: what the device shows at each poll is [dev]. *)
Fixpoint wait_used (q : Virtqueue) (dev : nat -> Z * (Z -> Z * Z)) (chain_len : Z) (timeout : nat)
  : option (option (Z * Z) * Virtqueue) :=
  let '(used, ring) := dev timeout in
  match timeout with
  | O => pop_used q used ring chain_len
  | S timeout' =>
      if broken (ownership q) then Some (None, q)
      else
        '(r, q') ← pop_used q used ring chain_len;
        match r with Some x => Some (Some x, q') | None => wait_used q' dev chain_len timeout' end
  end.

(** * Linked lists in the [next] array *)

(** From [h], the array links the indices [l] and ends. *)
Fixpoint links (nx : list Z) (h : Z) (l : list Z) : Prop :=
  match l with
  | [] => h = END
  | x :: l' => h = x /\ exists t, nx !! Z.to_nat x = Some t /\ links nx t l'
  end.
Definition nonneg (l : list Z) : Prop := Forall (fun x => 0 <= x) l.

Lemma links_insert nx h l x v : x ∉ l -> nonneg l -> 0 <= x -> links nx h l -> links (<[Z.to_nat x := v]> nx) h l.
Proof.
  intros Hx Hl H0. revert h. induction l as [| y l IH]; intros h H; [done |]. apply not_elem_of_cons in Hx as [Hne Hx].
  apply Forall_cons in Hl as [Hy Hl]. destruct H as [-> (t & Ht & H)]. split; [done |]. exists t.
  rewrite list_lookup_insert_ne by lia. auto.
Qed.

Lemma links_follow o h l n : links (next o) h l -> (n < length l)%nat -> follow o n h = l !! n.
Proof.
  revert h l. induction n as [| n IH]; intros h l H Hn; (destruct l as [| x l]; [cbn in Hn; lia |]);
    destruct H as [-> (t & Ht & H)]; [done |]. cbn [follow lookup list_lookup]. unfold next_of. rewrite Ht. cbn.
  apply IH; [done | cbn in Hn; lia].
Qed.

(** Cut after [t]: the first part becomes a list of its own. *)
Lemma links_cut nx h a t b :
  NoDup (a ++ [t]) -> nonneg (a ++ [t]) -> links nx h (a ++ t :: b) ->
  links (<[Z.to_nat t := END]> nx) h (a ++ [t]) /\ exists after, nx !! Z.to_nat t = Some after /\ links nx after b.
Proof.
  revert h. induction a as [| x a IH]; intros h Hn H0 [-> (u & Hu & H)].
  - apply Forall_cons in H0 as [Ht _]. split; [| by exists u]. split; [done |]. exists END. split; [| done].
    apply list_lookup_insert_eq. by eapply lookup_lt_Some.
  - cbn in Hn, H0. apply NoDup_cons in Hn as [Hx Hn]. apply Forall_cons in H0 as [Hx0 H0].
    destruct (IH u Hn H0 H) as [H1 H2]. split; [| done]. split; [done |]. exists u. split; [| done].
    rewrite list_lookup_insert_ne; [done |]. intros E. apply Hx.
    pose proof (proj1 (Forall_forall _ _) H0 t ltac:(apply elem_of_app; right; by left)) as Ht0. cbn in Ht0.
    replace x with t by lia. apply elem_of_app. right. by left.
Qed.

(** Put the list [b] behind [a ++ [t]]. *)
Lemma links_join nx h f a t b :
  NoDup (a ++ [t]) -> nonneg (a ++ [t]) -> t ∉ b -> nonneg b ->
  links nx h (a ++ [t]) -> links nx f b -> links (<[Z.to_nat t := f]> nx) h (a ++ t :: b).
Proof.
  intros Hn H0 Htb Hb Ha Hf.
  assert (0 <= t) as Ht0 by (apply (proj1 (Forall_forall _ _) H0 t); apply elem_of_app; right; by left).
  revert h Ha. induction a as [| x a IH]; intros h [-> (u & Hu & Ha)].
  - split; [done |]. exists f. split; [apply list_lookup_insert_eq; by eapply lookup_lt_Some |].
    by apply links_insert.
  - cbn in Hn, H0. apply NoDup_cons in Hn as [Hx Hn]. apply Forall_cons in H0 as [Hx0 H0].
    split; [done |]. exists u. split; [| by apply IH]. rewrite list_lookup_insert_ne; [done |].
    intros E. apply Hx. replace x with t by lia. apply elem_of_app. right. by left.
Qed.

Lemma links_head nx h x l : links nx h (x :: l) -> h = x.
Proof. by intros [-> _]. Qed.

(** * What ownership means *)

(** Free descriptors, and the chains the device holds. *)
Record owners := mkOwners { a_free : list Z; a_chains : list (list Z); a_broken : bool }.
Definition a_poison (a : owners) : owners := mkOwners (a_free a) (a_chains a) true.

Inductive op := Reserve (count : Z) | Complete (id count : Z) (expected : option Z).
Definition exec (o : Ownership) (p : op) : option (option Z * Ownership) :=
  match p with Reserve n => reserve o n | Complete id n e => complete o id n e end.
Definition expects (expected : option Z) (id : Z) : Prop := forall h, expected = Some h -> h = id.

Inductive a_step : owners -> op -> option Z -> owners -> Prop :=
| a_refuse a n :
    a_broken a = true \/ n = 0 \/ Z.of_nat (length (a_free a)) < n -> a_step a (Reserve n) None a
| a_reserve a n c rest h :
    a_broken a = false -> 0 < n -> a_free a = c ++ rest -> Z.of_nat (length c) = n -> head c = Some h ->
    a_step a (Reserve n) (Some h) (mkOwners rest (c :: a_chains a) false)
| a_ignore a id n e : a_broken a = true -> a_step a (Complete id n e) None a
| a_bad a id n e :
    a_broken a = false ->
    (forall c, c ∈ a_chains a -> head c = Some id -> Z.of_nat (length c) = n -> ~ expects e id) ->
    a_step a (Complete id n e) None (a_poison a)
| a_complete a id n e cs1 c cs2 :
    a_broken a = false -> a_chains a = cs1 ++ c :: cs2 -> head c = Some id -> Z.of_nat (length c) = n -> expects e id ->
    a_step a (Complete id n e) (Some id) (mkOwners (c ++ a_free a) (cs1 ++ cs2) false).

(** The metadata of a queue of [sz] descriptors stands for [a]. *)
Record owns (sz : Z) (o : Ownership) (a : owners) : Prop := {
  ow_size : 0 < sz <= END;
  ow_next : Z.of_nat (length (next o)) = sz;
  ow_pending : Z.of_nat (length (pending o)) = sz;
  ow_broken : broken o = a_broken a;
  ow_count : free o = Z.of_nat (length (a_free a));
  ow_free : links (next o) (free_head o) (a_free a);
  ow_chains : forall c, c ∈ a_chains a -> exists h, head c = Some h /\ links (next o) h c
    /\ pending o !! Z.to_nat h = Some (Z.of_nat (length c));
  ow_idle : forall i, 0 <= i < sz -> (forall c, c ∈ a_chains a -> head c <> Some i) -> pending o !! Z.to_nat i = Some 0;
  ow_all : a_free a ++ mjoin (a_chains a) ≡ₚ seqZ 0 sz }.

Lemma owns_in_range sz o a x : owns sz o a -> x ∈ a_free a ++ mjoin (a_chains a) -> 0 <= x < sz.
Proof. intros H Hx. rewrite (ow_all _ _ _ H) in Hx. apply elem_of_seqZ in Hx. lia. Qed.
Lemma owns_nodup sz o a : owns sz o a -> NoDup (a_free a ++ mjoin (a_chains a)).
Proof. intros H. rewrite (ow_all _ _ _ H). apply NoDup_seqZ. Qed.
Lemma owns_nonneg sz o a l : owns sz o a -> l ⊆ a_free a ++ mjoin (a_chains a) -> nonneg l.
Proof. intros H Hl. apply Forall_forall. intros x Hx. apply Hl in Hx. by eapply owns_in_range in Hx; [lia |]. Qed.
Lemma chain_sub (a : owners) c : c ∈ a_chains a -> c ⊆ a_free a ++ mjoin (a_chains a).
Proof. intros Hc x Hx. apply elem_of_app. right. apply list_elem_of_join. by exists c. Qed.

Lemma owns_new sz : 0 < sz <= END ->
  exists o, own_new sz = Some o /\ owns sz o (mkOwners (seqZ 0 sz) [] false).
Proof.
  intros Hsz. unfold own_new. rewrite (proj2 (Z.eqb_neq _ _)) by lia. eexists. split; [done |].
  constructor; cbn [next pending broken free free_head a_free a_chains a_broken]; try done.
  - rewrite length_map, length_seqZ. lia.
  - rewrite length_replicate. lia.
  - rewrite length_seqZ. lia.
  - set (nx := map _ _).
    assert (forall i, 0 <= i < sz -> nx !! Z.to_nat i = Some (if i <? sz - 1 then i + 1 else END)) as Hnx.
    { intros i Hi. unfold nx. change (@map Z Z) with (fmap (M:=list) (A:=Z) (B:=Z)). rewrite list_lookup_fmap.
      rewrite lookup_seqZ_lt by lia. rewrite Z.add_0_l, Z2Nat.id by lia. done. }
    assert (forall k i, 0 <= i -> i + Z.of_nat k = sz -> links nx (if i <? sz then i else END) (seqZ i (Z.of_nat k))) as H.
    { induction k as [| k IH]; intros i Hi Hk.
      - cbn. by rewrite (proj2 (Z.ltb_ge _ _)) by lia.
      - rewrite seqZ_cons by lia. replace (Z.pred (Z.of_nat (S k))) with (Z.of_nat k) by lia.
        rewrite (proj2 (Z.ltb_lt i sz)) by lia. split; [done |]. eexists. split; [apply Hnx; lia |].
        replace (if i <? sz - 1 then i + 1 else END) with (if Z.succ i <? sz then Z.succ i else END)
          by (destruct (Z.ltb_spec (Z.succ i) sz), (Z.ltb_spec i (sz - 1)); lia). apply IH; lia. }
    specialize (H (Z.to_nat sz) 0 ltac:(lia) ltac:(lia)). rewrite Z2Nat.id in H by lia.
    by rewrite (proj2 (Z.ltb_lt 0 sz)) in H by lia.
  - by intros c ?%not_elem_of_nil.
  - intros i Hi _. apply lookup_replicate_2. lia.
  - by rewrite app_nil_r.
Qed.

Lemma own_idle_range sz o a i v : owns sz o a -> pending o !! Z.to_nat i = Some v -> 0 <= i -> 0 <= i < sz.
Proof. intros H Hi H0. apply lookup_lt_Some in Hi. pose proof (ow_pending _ _ _ H). lia. Qed.

Lemma chain_apart (a : owners) c x : NoDup (a_free a ++ mjoin (a_chains a)) ->
  c ∈ a_chains a -> x ∈ a_free a -> x ∉ c.
Proof.
  intros (_ & Hd & _)%NoDup_app Hc Hx Hin. apply (Hd x Hx). apply list_elem_of_join. by exists c.
Qed.
Lemma head_elem {A} (l : list A) h : head l = Some h -> h ∈ l.
Proof. destruct l; [done |]. intros [= ->]. by left. Qed.

(** The free list gives up its first descriptors, the last of them [t]. *)
Lemma owns_take sz o a c1 t rest h after :
  owns sz o a -> a_broken a = false -> a_free a = c1 ++ t :: rest -> head (c1 ++ [t]) = Some h ->
  next o !! Z.to_nat t = Some after ->
  owns sz (mkOwn (<[Z.to_nat t := END]> (next o)) (<[Z.to_nat h := Z.of_nat (length (c1 ++ [t]))]> (pending o)) after
             (free o - Z.of_nat (length (c1 ++ [t]))) (broken o))
          (mkOwners rest ((c1 ++ [t]) :: a_chains a) false).
Proof.
  intros H Hb Ef Hh Haft. pose proof (owns_nodup _ _ _ H) as Hnd.
  assert (nonneg (a_free a)) as Hnn by (apply (owns_nonneg _ _ _ _ H); intros x Hx; apply elem_of_app; by left).
  assert (a_free a = (c1 ++ [t]) ++ rest) as Ef' by (by rewrite <- app_assoc).
  assert (h ∈ a_free a) as Hhf by (rewrite Ef'; apply elem_of_app; left; by apply head_elem).
  assert (t ∈ a_free a) as Htf by (rewrite Ef; apply elem_of_app; right; by left).
  assert (forall x, x ∈ a_free a -> 0 <= x < sz) as Hr by (intros x Hx; apply (owns_in_range sz o a); [done | apply elem_of_app; by left]).
  pose proof Hnd as (Hnf & _ & _)%NoDup_app. rewrite Ef' in Hnf. apply NoDup_app in Hnf as (Hn1 & Hd1 & _).
  unfold nonneg in Hnn. rewrite Ef' in Hnn. apply Forall_app in Hnn as [Hp1 Hp2].
  pose proof (ow_free _ _ _ H) as Hlk. rewrite Ef in Hlk.
  destruct (links_cut _ _ _ _ _ Hn1 Hp1 Hlk) as (Hcut & after' & Ha & Hrest). assert (after' = after) as -> by congruence.
  destruct H as [H1 H2 H3 H4 H5 H6 H7 H8 H9].
  constructor; cbn [next pending broken free free_head a_free a_chains a_broken]; rewrite ?length_insert; try done.
  - by rewrite H4.
  - rewrite H5, Ef', length_app. lia.
  - apply links_insert; try done; [| by apply Hr]. intros Ht. apply (Hd1 t); [| done]. apply elem_of_app. right. by left.
  - intros c [-> | Hc]%elem_of_cons.
    + exists h. split; [done |]. split.
      * assert (free_head o = h) as <-; [| done]. destruct c1; cbn in Hh, Hlk; destruct Hlk; congruence.
      * apply list_lookup_insert_eq. specialize (Hr h Hhf). lia.
    + destruct (H7 c Hc) as (g & Hg & Hlg & Hpg). exists g. split; [done |].
      assert (forall x, x ∈ a_free a -> x ∉ c) as Hap by (intros x; by apply (chain_apart a)).
      assert (nonneg c) as Hnc by (apply Forall_forall; intros x Hx; assert (x ∈ seqZ 0 sz) as Hxs by
        (rewrite <- H9; apply elem_of_app; right; apply list_elem_of_join; by exists c); apply elem_of_seqZ in Hxs; lia).
      split; [apply links_insert; try done; [by apply Hap | by apply Hr] |].
      apply head_elem in Hg. rewrite list_lookup_insert_ne; [done |]. intros E.
      apply (Hap h Hhf). replace h with g; [done |]. pose proof (proj1 (Forall_forall _ _) Hnc g Hg) as Hg0. specialize (Hr h Hhf). cbn in Hg0. lia.
  - intros i Hi Hno. rewrite list_lookup_insert_ne.
    + apply H8; [done |]. intros c Hc. apply Hno. by right.
    + intros E. apply (Hno (c1 ++ [t])); [by left |]. specialize (Hr h Hhf). replace i with h by lia. done.
  - rewrite <- H9, Ef'. change (mjoin ((c1 ++ [t]) :: a_chains a)) with ((c1 ++ [t]) ++ mjoin (a_chains a)).
    rewrite !(app_assoc _ _ (mjoin (a_chains a))). f_equiv. apply Permutation_app_comm.
Qed.

Lemma sim_reserve sz o a n : owns sz o a -> 0 <= n ->
  exists r o', reserve o n = Some (r, o') /\ exists a', a_step a (Reserve n) r a' /\ owns sz o' a'.
Proof.
  intros H Hn0. unfold reserve. rewrite (ow_count _ _ _ H), (ow_broken _ _ _ H).
  destruct (a_broken a || (n =? 0) || (Z.of_nat (length (a_free a)) <? n)) eqn:Eg.
  { exists None, o. split; [done |]. exists a. split; [| done]. constructor.
    destruct (a_broken a); [by left | lia]. }
  apply orb_false_iff in Eg as [[Eb En]%orb_false_iff El]. apply Z.eqb_neq in En. apply Z.ltb_ge in El.
  destruct (lookup_lt_is_Some_2 (a_free a) (Z.to_nat (n - 1)) ltac:(lia)) as [t Ht].
  pose proof (take_drop_middle _ _ _ Ht) as Efl. set (c1 := take _ _) in Efl. set (rest := drop _ _) in Efl. symmetry in Efl.
  assert (length c1 = Z.to_nat (n - 1)) as Hc1 by (unfold c1; rewrite length_take; lia).
  assert (forall x, x ∈ a_free a -> 0 <= x < sz) as Hr by (intros x Hx; apply (owns_in_range sz o a); [done | apply elem_of_app; by left]).
  assert (length (a_free a) <= Z.to_nat sz)%nat as Hle.
  { pose proof (Permutation_length (ow_all _ _ _ H)) as Hp. rewrite length_app, length_seqZ in Hp. lia. }
  pose proof (ow_size _ _ _ H) as Hsz. unfold END in Hsz.
  rewrite (links_follow o _ _ _ (ow_free _ _ _ H)) by lia. rewrite Ht. cbn [mbind option_bind].
  destruct (lookup_lt_is_Some_2 (next o) (Z.to_nat t)) as [after Haft].
  { pose proof (ow_next _ _ _ H). assert (0 <= t < sz) by (apply Hr; by eapply list_elem_of_lookup_2). lia. }
  unfold next_of. rewrite Haft. cbn [mbind option_bind].
  assert (head (c1 ++ [t]) = Some (free_head o)) as Hh.
  { pose proof (ow_free _ _ _ H) as Hlk. rewrite Efl in Hlk. destruct c1; cbn in Hlk; destruct Hlk; cbn; congruence. }
  assert (free_head o ∈ a_free a) as Hhf.
  { rewrite Efl. change (t :: rest) with ([t] ++ rest). rewrite app_assoc. apply elem_of_app. left. by apply head_elem. }
  destruct (lookup_lt_is_Some_2 (pending o) (Z.to_nat (free_head o))) as [v0 Hv0].
  { pose proof (ow_pending _ _ _ H). specialize (Hr _ Hhf). lia. }
  rewrite Hv0. cbn [mbind option_bind]. eexists _, _. split; [done |].
  exists (mkOwners rest ((c1 ++ [t]) :: a_chains a) false).
  assert (Z.of_nat (length (c1 ++ [t])) = n) as Hlen by (rewrite length_app, Hc1; cbn; lia).
  split.
  - apply a_reserve; try done; [lia | by rewrite <- app_assoc].
  - rewrite (Z.mod_small n (2 ^ 16)) by lia. rewrite <- Hlen. rewrite <- (ow_broken _ _ _ H).
    rewrite <- (ow_count _ _ _ H). by apply owns_take.
Qed.

(** A chain, its last descriptor [t], goes back to the front of the free list. *)
Lemma owns_give sz o a cs1 c1 t cs2 h :
  owns sz o a -> a_broken a = false -> a_chains a = cs1 ++ (c1 ++ [t]) :: cs2 -> head (c1 ++ [t]) = Some h ->
  owns sz (mkOwn (<[Z.to_nat t := free_head o]> (next o)) (<[Z.to_nat h := 0]> (pending o)) h
             (free o + Z.of_nat (length (c1 ++ [t]))) (broken o))
          (mkOwners ((c1 ++ [t]) ++ a_free a) (cs1 ++ cs2) false).
Proof.
  intros H Hb Ec Hh. set (c := c1 ++ [t]) in *. pose proof (owns_nodup _ _ _ H) as Hnd.
  assert (c ∈ a_chains a) as Hc by (rewrite Ec; apply elem_of_app; right; by left).
  assert (forall d, d ∈ cs1 ++ cs2 -> d ∈ a_chains a) as Hsub.
  { intros d Hd. rewrite Ec. apply elem_of_app in Hd as [Hd | Hd]; apply elem_of_app; [by left | right; by right]. }
  assert (forall d, d ∈ a_chains a -> forall x, x ∈ d -> 0 <= x < sz) as Hr.
  { intros d Hd x Hx. apply (owns_in_range sz o a); [done |]. by apply (chain_sub a d). }
  assert (t ∈ c) as Htc by (apply elem_of_app; right; by left). apply head_elem in Hh as Hhc.
  (* [c] is apart from the rest *)
  assert (Permutation (a_free a ++ mjoin (a_chains a)) (c ++ a_free a ++ mjoin (cs1 ++ cs2))) as Hperm.
  { rewrite Ec, !join_app. change (mjoin (c :: cs2)) with (c ++ mjoin cs2).
    rewrite (Permutation_app_swap_app (mjoin cs1)). apply Permutation_app_swap_app. }
  pose proof Hnd as Hnd'. rewrite Hperm in Hnd'. apply NoDup_app in Hnd' as (Hnc & Hdis & _).
  destruct (ow_chains _ _ _ H c Hc) as (h' & Hh' & Hlk & Hp). assert (h' = h) as -> by congruence.
  assert (nonneg c) as Hcn by (apply (owns_nonneg _ _ _ _ H), chain_sub, Hc).
  destruct H as [H1 H2 H3 H4 H5 H6 H7 H8 H9].
  constructor; cbn [next pending broken free free_head a_free a_chains a_broken]; rewrite ?length_insert; try done.
  - by rewrite H4.
  - rewrite H5, length_app. lia.
  - unfold c. rewrite <- app_assoc. apply links_join; try done.
    + intros Ht. apply (Hdis t Htc). apply elem_of_app. by left.
    + apply Forall_forall. intros x Hx. assert (x ∈ seqZ 0 sz) as Hs by (rewrite <- H9; apply elem_of_app; by left).
      apply elem_of_seqZ in Hs. lia.
  - intros d Hd. destruct (H7 d (Hsub d Hd)) as (g & Hg & Hlg & Hpg). exists g. split; [done |].
    assert (forall x, x ∈ c -> x ∉ d) as Hap.
    { intros x Hx Hxd. apply (Hdis x Hx), elem_of_app. right. apply list_elem_of_join. by exists d. }
    split.
    + apply links_insert; [by apply Hap | | by apply (Hr c) | done]. apply Forall_forall. intros x Hx. by apply (Hr d (Hsub d Hd)).
    + apply head_elem in Hg. rewrite list_lookup_insert_ne; [done |]. intros E. apply (Hap h Hhc).
      pose proof (Hr c Hc h Hhc). pose proof (Hr d (Hsub d Hd) g Hg). by replace h with g by lia.
  - intros i Hi Hno. destruct (decide (i = h)) as [-> | Hne].
    + apply list_lookup_insert_eq. lia.
    + rewrite list_lookup_insert_ne by (pose proof (Hr c Hc h Hhc); lia). apply H8; [done |]. intros d Hd. rewrite Ec in Hd.
      apply elem_of_app in Hd as [Hd | [-> | Hd]%elem_of_cons];
        [apply Hno, elem_of_app; by left | congruence | apply Hno, elem_of_app; by right].
  - rewrite <- H9, <- app_assoc. by rewrite Hperm.
Qed.

Lemma sim_complete sz o a id n e : owns sz o a -> 0 <= id -> 0 <= n ->
  exists r o', complete o id n e = Some (r, o') /\ exists a', a_step a (Complete id n e) r a' /\ owns sz o' a'.
Proof.
  intros H Hid Hn. unfold complete. rewrite (ow_broken _ _ _ H).
  destruct (a_broken a) eqn:Eb. { exists None, o. split; [done |]. exists a. split; [by constructor | done]. }
  assert (owns sz (poison o) (a_poison a)) as Hpo by (destruct H; by constructor).
  pose proof (ow_pending _ _ _ H) as Hpl. pose proof (ow_size _ _ _ H) as Hsz. unfold END in Hsz.
  rewrite nth_lookup.
  assert (expects e id <-> match e with Some head => negb (id =? head) | None => false end = false) as He.
  { unfold expects. destruct e as [h |]; [| split; done]. destruct (Z.eqb_spec id h); cbn; naive_solver. }
  destruct (_ || _ || _ || _) eqn:Eg.
  - exists None, (poison o). split; [done |]. exists (a_poison a). split; [| done]. constructor; [done |].
    intros c Hc Hh Hl Hex. apply He in Hex. rewrite Hex, orb_false_r in Eg.
    destruct (ow_chains _ _ _ H c Hc) as (h & Hh' & _ & Hp). assert (h = id) as -> by congruence. rewrite Hp in Eg.
    apply lookup_lt_Some in Hp. assert (length c <> 0)%nat by (destruct c; [done | cbn; lia]). cbn in Eg. lia.
  - apply orb_false_iff in Eg as [Eg Eex]. apply He in Eex. apply orb_false_iff in Eg as [[E1 E2]%orb_false_iff E3].
    apply negb_false_iff, Z.eqb_eq in E3. apply Z.leb_gt in E1. apply Z.eqb_neq in E2.
    destruct (decide (Exists (fun c => head c = Some id) (a_chains a))) as [Hex | Hno].
    2:{ exfalso. rewrite (ow_idle _ _ _ H id) in E3; [cbn in E3; lia | lia |]. intros c Hc Hh. apply Hno, Exists_exists. by exists c. }
    apply Exists_exists in Hex as (c & Hc & Hh). destruct (ow_chains _ _ _ H c Hc) as (h & Hh' & Hlk & Hp).
    assert (h = id) as -> by congruence. rewrite Hp in E3. cbn in E3.
    destruct (snoc_of c) as (c1 & t & Ect); [by intros -> |].
    apply list_elem_of_split in Hc as (cs1 & cs2 & Ecs). rewrite (Z.mod_small id (2 ^ 16)) by lia.
    assert (c !! Z.to_nat (n - 1) = Some t) as Ht.
    { rewrite Ect. apply list_lookup_middle. rewrite <- E3, Ect, length_app. cbn. lia. }
    rewrite (links_follow o _ _ _ Hlk), Ht by lia. cbn [mbind option_bind].
    destruct (lookup_lt_is_Some_2 (next o) (Z.to_nat t)) as [u Hu].
    { pose proof (ow_next _ _ _ H). assert (0 <= t < sz); [| lia]. apply (owns_in_range sz o a); [done |].
      apply (chain_sub a c); [rewrite Ecs; apply elem_of_app; right; by left | by eapply list_elem_of_lookup_2]. }
    unfold next_of. rewrite Hu. cbn [mbind option_bind]. eexists _, _. split; [done |]. eexists.
    split; [by eapply a_complete |]. rewrite <- E3. rewrite Ect in Ecs, Hh |- *.
    pose proof (owns_give _ _ _ _ _ _ _ _ H Eb Ecs Hh) as HG. by rewrite (ow_broken _ _ _ H), Eb in HG.
Qed.

(** ** Sequences of operations *)

Fixpoint run (o : Ownership) (ps : list op) : option (list (option Z) * Ownership) :=
  match ps with
  | [] => Some ([], o)
  | p :: ps' =>
      '(r, o1) ← exec o p;
      '(rs, o2) ← run o1 ps';
      Some (r :: rs, o2)
  end.
Inductive a_run : owners -> list op -> list (option Z) -> owners -> Prop :=
| a_done a : a_run a [] [] a
| a_more a p r a1 ps rs a2 : a_step a p r a1 -> a_run a1 ps rs a2 -> a_run a (p :: ps) (r :: rs) a2.
(** Arguments in the range of their types. *)
Definition op_ok (p : op) : Prop := match p with Reserve n => 0 <= n | Complete id n _ => 0 <= id /\ 0 <= n end.

Lemma sim_exec sz o a p : owns sz o a -> op_ok p ->
  exists r o', exec o p = Some (r, o') /\ exists a', a_step a p r a' /\ owns sz o' a'.
Proof. intros H Hp. destruct p as [n | id n e]; [by apply sim_reserve | by apply sim_complete; [| apply Hp..]]. Qed.

Lemma sim_run sz ps : forall o a, owns sz o a -> Forall op_ok ps ->
  exists rs o', run o ps = Some (rs, o') /\ exists a', a_run a ps rs a' /\ owns sz o' a'.
Proof.
  induction ps as [| p ps IH]; intros o a H Hps.
  { exists [], o. split; [done |]. exists a. split; [constructor | done]. }
  apply Forall_cons in Hps as [Hp Hps]. destruct (sim_exec sz o a p H Hp) as (r & o1 & E1 & a1 & S1 & H1).
  destruct (IH o1 a1 H1 Hps) as (rs & o2 & E2 & a2 & S2 & H2). exists (r :: rs), o2.
  split; [cbn [run]; by rewrite E1; cbn; rewrite E2 |]. exists a2. split; [by econstructor | done].
Qed.

(** * Descriptors *)

Record vq_ok (q : Virtqueue) (a : owners) : Prop := {
  vq_owns : owns (size q) (ownership q) a;
  vq_desc : Z.of_nat (length (desc q)) = size q;
  vq_ring : Z.of_nat (length (avail_ring q)) = size q;
  vq_avail : 0 <= avail_idx q < 2 ^ 16;
  vq_last : 0 <= last_used q < 2 ^ 16 }.

(** The descriptor of the [i]-th buffer of a chain [c] of buffers [bufs]. *)
Definition desc_of (c : list Z) (bufs : list QueueBuf) (i : nat) : option Desc :=
  '(ad, l, w) ← bufs !! i;
  Some match c !! S i with
       | Some n => mkDesc ad l (Z.lor (if w : bool then DESC_F_WRITE else 0) DESC_F_NEXT) n
       | None => mkDesc ad l (if w : bool then DESC_F_WRITE else 0) 0
       end.

Lemma fill_spec o bufs : forall c d idx,
  links (next o) idx c -> length c = length bufs -> NoDup c -> c <> [] ->
  Forall (fun x => 0 <= x < Z.of_nat (length d)) c ->
  exists d', fill o d idx bufs = Some d' /\ length d' = length d
    /\ (forall i x, c !! i = Some x -> d' !! Z.to_nat x = desc_of c bufs i)
    /\ (forall x, 0 <= x -> x ∉ c -> d' !! Z.to_nat x = d !! Z.to_nat x).
Proof.
  induction bufs as [| [[ad l] w] bufs IH]; intros c d idx Hl Hlen Hnd Hc Hr; [by destruct c |].
  destruct c as [| x c]; [done |]. destruct Hl as [-> (t & Ht & Hl)]. apply NoDup_cons in Hnd as [Hx Hnd].
  apply Forall_cons in Hr as [Hx0 Hr]. cbn in Hlen. injection Hlen as Hlen.
  destruct (lookup_lt_is_Some_2 d (Z.to_nat x)) as [old Hold]; [lia |].
  cbn [fill]. rewrite Hold. cbn [mbind option_bind]. case_bool_decide as Hb.
  - subst bufs. destruct c; [| done]. eexists. split; [done |]. split; [by rewrite length_insert |]. split.
    + intros [| i] y Hy; [| done]. injection Hy as <-. cbn. apply list_lookup_insert_eq. lia.
    + intros y Hy0 Hy. rewrite list_lookup_insert_ne; [done |]. intros E. apply Hy. replace y with x by lia. by left.
  - unfold next_of. rewrite Ht. cbn [mbind option_bind].
    destruct (IH c (<[Z.to_nat x := mkDesc ad l (Z.lor (if w then DESC_F_WRITE else 0) DESC_F_NEXT) t]> d) t)
      as (d' & Ed & Hd1 & Hd2 & Hd3); try done; [by destruct c, bufs | by rewrite length_insert |].
    exists d'. split; [done |]. rewrite length_insert in Hd1. split; [done |]. split.
    + intros [| i] y Hy.
      * injection Hy as <-. rewrite Hd3 by (done || lia). rewrite list_lookup_insert_eq by lia.
        destruct c as [| t' c]; [by destruct bufs |]. apply links_head in Hl as ->. done.
      * by rewrite (Hd2 i y Hy).
    + intros y Hy0 Hy. apply not_elem_of_cons in Hy as [Hyx Hy]. rewrite Hd3 by done.
      apply list_lookup_insert_ne. lia.
Qed.

Lemma vq_new_ok sz : 0 < sz <= END ->
  exists q, vq_new sz = Some q /\ size q = sz /\ vq_ok q (mkOwners (seqZ 0 sz) [] false).
Proof.
  intros Hsz. destruct (owns_new sz Hsz) as (o & Eo & Ho). unfold vq_new. rewrite Eo. cbn [mbind option_bind].
  eexists. split; [done |]. split; [done |]. constructor; cbn; rewrite ?length_replicate; try done; lia.
Qed.

Lemma submit_spec q a bufs : vq_ok q a ->
  match submit q bufs with
  | Some (None, q') =>
      q' = q /\ (a_broken a = true \/ bufs = [] \/ (length (a_free a) < length bufs)%nat)
  | Some (Some h, q') => exists c rest,
      a_free a = c ++ rest /\ length c = length bufs /\ head c = Some h
      /\ vq_ok q' (mkOwners rest (c :: a_chains a) false)
      /\ (forall i x, c !! i = Some x -> desc q' !! Z.to_nat x = desc_of c bufs i)
      /\ (forall x, 0 <= x -> x ∉ c -> desc q' !! Z.to_nat x = desc q !! Z.to_nat x)
      /\ avail_ring q' = <[Z.to_nat (avail_idx q mod size q) := h]> (avail_ring q)
      /\ avail_idx q' = (avail_idx q + 1) mod 2 ^ 16
      /\ last_used q' = last_used q
  | None => False
  end.
Proof.
  intros [Ho Hd Hr Ha Hl]. unfold submit.
  destruct (sim_reserve _ _ _ (Z.of_nat (length bufs)) Ho ltac:(lia)) as (r & o' & E & a' & St & Ho').
  rewrite E. cbn [mbind option_bind]. inversion St as [? ? Hrefuse | ? ? c rest h Hb Hn Hfree Hlen Hh | | |]; subst.
  - assert (o' = ownership q) as ->.
    { unfold reserve in E. destruct (_ || _ || _); [congruence |]. destruct (follow _ _ _); [| done]. cbn in E.
      destruct (next_of _ _); [| done]. cbn in E. destruct (pending _ !! _); done. }
    split; [by destruct q |]. destruct Hrefuse as [? | [H0 | H0]]; [by left | right; left; by destruct bufs | right; right; lia].
  - apply Nat2Z.inj in Hlen. destruct (ow_chains _ _ _ Ho' c ltac:(by left)) as (h' & Hh' & Hlk & _).
    assert (h' = h) as -> by congruence. pose proof (owns_nodup _ _ _ Ho') as Hnd. cbn in Hnd.
    apply NoDup_app in Hnd as (_ & _ & Hnd). apply NoDup_app in Hnd as (Hnd & _ & _).
    destruct (fill_spec o' bufs c (desc q) h Hlk Hlen Hnd) as (d' & Ed & Hd1 & Hd2 & Hd3).
    { by intros ->. }
    { apply Forall_forall. intros x Hx. rewrite Hd. apply (owns_in_range _ _ _ x Ho').
      apply (chain_sub (mkOwners rest (c :: a_chains a) false) c); [by left | done]. }
    rewrite Ed. cbn [mbind option_bind].
    pose proof (ow_size _ _ _ Ho) as Hsz. pose proof (Z.mod_pos_bound (avail_idx q) (size q) ltac:(lia)) as Hm.
    destruct (lookup_lt_is_Some_2 (avail_ring q) (Z.to_nat (avail_idx q mod size q))) as [v Hv]; [lia |].
    rewrite Hv. cbn [mbind option_bind]. exists c, rest. split_and!; try done.
    constructor; cbn [size desc avail_ring avail_idx last_used ownership]; try done; rewrite ?length_insert; try lia.
    unfold wrapping_add. apply Z.mod_pos_bound. lia.
Qed.

(** What the device can show: an index of the used ring and its entries. *)
Definition used_ok (used : Z) (ring : Z -> Z * Z) : Prop := is_uint 16 used /\ forall s, is_uint 32 (fst (ring s)).

Lemma pop_spec q a used ring n e : vq_ok q a -> used_ok used ring -> 0 <= n ->
  exists r q', pop_used_checked q used ring n e = Some (r, q') /\ desc q' = desc q /\ exists a', vq_ok q' a' /\
    match r with
    | Some (h, len) => exists cs1 c cs2, a_chains a = cs1 ++ c :: cs2 /\ head c = Some h /\ Z.of_nat (length c) = n
        /\ ring (last_used q mod size q) = (h, len) /\ expects e h
        /\ last_used q' = (last_used q + 1) mod 2 ^ 16
        /\ a' = mkOwners (c ++ a_free a) (cs1 ++ cs2) false
    | None => a' = a \/ a' = a_poison a
    end.
Proof.
  intros [Ho Hd Hr Ha Hl] [Hu Hring] Hn. unfold pop_used_checked. rewrite (ow_broken _ _ _ Ho).
  destruct (a_broken a) eqn:Eb. { exists None, q. split; [done |]. split; [done |]. exists a. split; [done | by left]. }
  destruct (size q <? _).
  { eexists _, _. split; [done |]. split; [done |]. exists (a_poison a). split; [| by right].
    constructor; cbn; try done. destruct Ho; by constructor. }
  destruct (last_used q =? used). { exists None, q. split; [done |]. split; [done |]. exists a. split; [done | by left]. }
  destruct (ring (last_used q mod size q)) as [id len] eqn:Er. specialize (Hring (last_used q mod size q)).
  rewrite Er in Hring. cbn in Hring. unfold is_uint in *.
  destruct (sim_complete _ _ _ id n e Ho ltac:(lia) Hn) as (r & o' & E & a' & St & Ho'). rewrite E. cbn [mbind option_bind].
  eexists _, _. split; [done |]. split; [done |]. exists a'.
  assert (vq_ok (mkVq (size q) (desc q) (avail_idx q) (avail_ring q) o' (wrapping_add 16 (last_used q) 1)) a') as Hok.
  { constructor; cbn; try done. unfold wrapping_add. apply Z.mod_pos_bound. lia. }
  split; [done |]. inversion St; subst; [by left | by right |]. by eexists _, _, _.
Qed.

(** Driver and device take turns on a queue. *)
Inductive qop := Submit (bufs : list QueueBuf) | PopUsed (used : Z) (ring : Z -> Z * Z) (chain_len : Z) (expected : option Z).
Definition qop_ok (p : qop) : Prop :=
  match p with Submit _ => True | PopUsed used ring n _ => used_ok used ring /\ 0 <= n end.
Fixpoint qrun (q : Virtqueue) (ps : list qop) : option Virtqueue :=
  match ps with
  | [] => Some q
  | Submit bufs :: ps' => '(_, q') ← submit q bufs; qrun q' ps'
  | PopUsed used ring n e :: ps' => '(_, q') ← pop_used_checked q used ring n e; qrun q' ps'
  end.

Lemma qrun_ok ps : forall q a, vq_ok q a -> Forall qop_ok ps -> exists q' a', qrun q ps = Some q' /\ vq_ok q' a'.
Proof.
  induction ps as [| p ps IH]; intros q a H Hps; [by exists q, a |]. apply Forall_cons in Hps as [Hp Hps].
  destruct p as [bufs | used ring n e]; cbn [qrun].
  - pose proof (submit_spec q a bufs H) as Hs. destruct (submit q bufs) as [[[h |] q'] |]; [| | done]; cbn [mbind option_bind].
    + destruct Hs as (c & rest & _ & _ & _ & Hok & _). by eapply IH.
    + destruct Hs as [-> _]. by eapply IH.
  - destruct Hp as [Hu Hn]. destruct (pop_spec q a used ring n e H Hu Hn) as (r & q' & E & _ & a' & Hok & _).
    rewrite E. cbn [mbind option_bind]. by eapply IH.
Qed.

(** * Theorems *)

(** The ownership metadata refines a set of free descriptors and a set of chains in
    flight, for every sequence of reservations and completions, the completions with
    whatever the device reported: no index is ever out of range, a reservation takes free
    descriptors only, a completion is accepted only for a chain in flight of exactly that
    length, which then becomes free, and anything else stops the queue for good. *)
Theorem ownership_refines sz ps :
  0 < sz <= END -> Forall op_ok ps ->
  exists o rs o', own_new sz = Some o /\ run o ps = Some (rs, o')
    /\ exists a', a_run (mkOwners (seqZ 0 sz) [] false) ps rs a' /\ owns sz o' a'.
Proof.
  intros Hsz Hps. destruct (owns_new sz Hsz) as (o & Eo & Ho).
  destruct (sim_run sz ps o _ Ho Hps) as (rs & o' & E & H). by exists o, rs, o'.
Qed.

(** After any exchange with any device, [submit] either hands out a chain of free
    descriptors that is disjoint from every chain in flight, describes the buffers in order
    and linked, publishes its head in the next slot of the available ring and leaves all
    other descriptors alone; or it refuses and changes nothing.  It never goes out of
    range. *)
Theorem virtqueue_submit_correct sz ps bufs :
  0 < sz <= END -> Forall qop_ok ps ->
  exists q0 q a, vq_new sz = Some q0 /\ qrun q0 ps = Some q /\ vq_ok q a
    /\ NoDup (a_free a ++ mjoin (a_chains a))
    /\ match submit q bufs with
       | Some (None, q') =>
           q' = q /\ (a_broken a = true \/ bufs = [] \/ (length (a_free a) < length bufs)%nat)
       | Some (Some h, q') => exists c rest,
           a_free a = c ++ rest /\ length c = length bufs /\ head c = Some h
           /\ vq_ok q' (mkOwners rest (c :: a_chains a) false)
           /\ (forall i x, c !! i = Some x -> desc q' !! Z.to_nat x = desc_of c bufs i)
           /\ (forall x, 0 <= x -> x ∉ c -> desc q' !! Z.to_nat x = desc q !! Z.to_nat x)
           /\ avail_ring q' = <[Z.to_nat (avail_idx q mod size q) := h]> (avail_ring q)
           /\ avail_idx q' = (avail_idx q + 1) mod 2 ^ 16
           /\ last_used q' = last_used q
       | None => False
       end.
Proof.
  intros Hsz Hps. destruct (vq_new_ok sz Hsz) as (q0 & E0 & _ & H0).
  destruct (qrun_ok ps q0 _ H0 Hps) as (q & a & E & H). exists q0, q, a. split; [done |]. split; [done |].
  split; [done |]. split; [apply (owns_nodup _ _ _ (vq_owns _ _ H)) | by apply submit_spec].
Qed.

(** After any exchange with any device, reaping the used ring returns only a chain that
    is in flight, of the expected length (and head, if one is expected), once, and frees
    exactly its descriptors; any other answer of the device releases nothing.  It never
    goes out of range. *)
Theorem virtqueue_pop_correct sz ps used ring n e :
  0 < sz <= END -> Forall qop_ok ps -> used_ok used ring -> 0 <= n ->
  exists q0 q a, vq_new sz = Some q0 /\ qrun q0 ps = Some q /\ vq_ok q a
    /\ exists r q', pop_used_checked q used ring n e = Some (r, q') /\ desc q' = desc q /\ exists a', vq_ok q' a' /\
      match r with
      | Some (h, len) => exists cs1 c cs2, a_chains a = cs1 ++ c :: cs2 /\ head c = Some h /\ Z.of_nat (length c) = n
          /\ ring (last_used q mod size q) = (h, len) /\ expects e h
          /\ last_used q' = (last_used q + 1) mod 2 ^ 16
          /\ a' = mkOwners (c ++ a_free a) (cs1 ++ cs2) false
      | None => a' = a \/ a' = a_poison a
      end.
Proof.
  intros Hsz Hps Hu Hn. destruct (vq_new_ok sz Hsz) as (q0 & E0 & _ & H0).
  destruct (qrun_ok ps q0 _ H0 Hps) as (q & a & E & H). exists q0, q, a. split; [done |]. split; [done |].
  split; [done |]. by apply pop_spec.
Qed.

Lemma ownership_refines_witness :
  exists o rs o', own_new 4 = Some o
    /\ run o [Reserve 3; Complete 0 3 None; Complete 0 3 None; Reserve 1] = Some (rs, o') /\ broken o' = true.
Proof.
  destruct (ownership_refines 4 [Reserve 3; Complete 0 3 None; Complete 0 3 None; Reserve 1])
    as (o & rs & o' & Eo & Er & _); [unfold END; lia | repeat constructor; cbn; lia |].
  exists o, rs, o'. split; [exact Eo |]. split; [exact Er |].
  assert (own_new 4 = Some (mkOwn [1; 2; 3; 65535] [0; 0; 0; 0] 0 4 false)) as Eo' by reflexivity.
  assert (o = mkOwn [1; 2; 3; 65535] [0; 0; 0; 0] 0 4 false) as Ho by congruence. clear Eo Eo'.
  rewrite Ho in *. vm_compute in Er. injection Er as _ E. rewrite <- E. reflexivity.
Defined.

Definition demo_ring (s : Z) : Z * Z := (0, 64).
Definition demo_exchange : list qop := [Submit [(0x1000, 16, false); (0x2000, 512, true)]; PopUsed 0 demo_ring 2 None].

Lemma demo_exchange_ok : Forall qop_ok demo_exchange.
Proof. repeat constructor; cbn; unfold is_uint; lia. Qed.

Lemma virtqueue_submit_correct_witness :
  exists q0 q, vq_new 8 = Some q0 /\ qrun q0 demo_exchange = Some q
    /\ match submit q [(0x3000, 4, true)] with Some (Some h, q') => h = 2 /\ desc q' !! 2%nat = Some (mkDesc 0x3000 4 2 0) | _ => False end.
Proof.
  destruct (virtqueue_submit_correct 8 demo_exchange [(0x3000, 4, true)]) as (q0 & q & a & E0 & E & _ & _ & H);
    [unfold END; lia | exact demo_exchange_ok |].
  exists q0, q. split; [exact E0 |]. split; [exact E |].
  assert (exists q', submit q [(0x3000, 4, true)] = Some (Some 2, q')) as [q' Es].
  { assert (q0 = default q0 (vq_new 8)) as Hq0 by (rewrite E0; reflexivity). rewrite E0 in Hq0.
    injection E0 as <-. vm_compute in E. injection E as <-. eexists. vm_compute. reflexivity. }
  rewrite Es in *. split; [reflexivity |]. destruct H as (c & rest & _ & Hl & Hh & _ & Hd & _).
  destruct c as [| x c]; [discriminate |]. injection Hh as ->. destruct c; [| discriminate]. exact (Hd 0%nat 2 eq_refl).
Defined.

Lemma virtqueue_pop_correct_witness :
  exists q0 q, vq_new 8 = Some q0 /\ qrun q0 demo_exchange = Some q
    /\ match pop_used_checked q 1 demo_ring 2 (Some 0) with Some (Some (h, len), q') => h = 0 /\ len = 64 | _ => False end.
Proof.
  destruct (virtqueue_pop_correct 8 demo_exchange 1 demo_ring 2 (Some 0)) as (q0 & q & a & E0 & E & _ & r & q' & Ep & _ & a' & _ & H);
    [unfold END; lia | exact demo_exchange_ok | split; [unfold is_uint; lia | intros s; cbn; unfold is_uint; lia] | lia |].
  exists q0, q. split; [exact E0 |]. split; [exact E |].
  assert (exists q'', pop_used_checked q 1 demo_ring 2 (Some 0) = Some (Some (0, 64), q'')) as [q'' Es].
  { injection E0 as <-. vm_compute in E. injection E as <-. eexists. vm_compute. reflexivity. }
  rewrite Ep in *. injection Es as -> ->. destruct H as (cs1 & c & cs2 & _ & _ & _ & Hr & _).
  split; [reflexivity | congruence].
Defined.
End Virtqueue.
