(* ===== verification/Shell.v ===== *)
(** Shell command lines and paths (src/shell/parse.rs): splitting a line into arguments in a
    fixed buffer, and resolving a path against the current directory. *)

From Stdlib Require Import ZArith Lia.
From stdpp Require Import base list list_numbers numbers decidable tactics strings.
From S2P Require Import Prelude FatNames.
Import FatNames.

Module Shell.

(** * UTF-8 *)

(** A Unicode scalar value. *)
Definition is_char (c : Z) : Prop := 0 <= c < 0xd800 \/ 0xe000 <= c < 0x110000.
Definition encode_utf8 (c : Z) : list Z :=
  if c <? 0x80 then [c]
  else if c <? 0x800 then [0xc0 + c / 64; 0x80 + c mod 64]
  else if c <? 0x10000 then [0xe0 + c / 4096; 0x80 + c / 64 mod 64; 0x80 + c mod 64]
  else [0xf0 + c / 262144; 0x80 + c / 4096 mod 64; 0x80 + c / 64 mod 64; 0x80 + c mod 64].
Definition as_bytes (s : str) : list Z := mjoin (map encode_utf8 s).
Definition cont (b : Z) : bool := (0x80 <=? b) && (b <=? 0xbf).
(** [core::str::from_utf8]: ill-formed, overlong and surrogate sequences are errors. *)
Fixpoint from_utf8 (b : list Z) : option str :=
  match b with
  | [] => Some []
  | b0 :: r0 =>
      if b0 <? 0x80 then s ← from_utf8 r0; Some (b0 :: s)
      else
        match r0 with
        | b1 :: r1 =>
            if negb (cont b1) then None
            else if (0xc2 <=? b0) && (b0 <=? 0xdf) then
              s ← from_utf8 r1; Some ((b0 - 0xc0) * 64 + (b1 - 0x80) :: s)
            else
              match r1 with
              | b2 :: r2 =>
                  if negb (cont b2) then None
                  else if (0xe0 <=? b0) && (b0 <=? 0xef) then
                    let c := (b0 - 0xe0) * 4096 + (b1 - 0x80) * 64 + (b2 - 0x80) in
                    if (c <? 0x800) || ((0xd800 <=? c) && (c <=? 0xdfff)) then None
                    else s ← from_utf8 r2; Some (c :: s)
                  else
                    match r2 with
                    | b3 :: r3 =>
                        if negb (cont b3) || negb ((0xf0 <=? b0) && (b0 <=? 0xf4)) then None
                        else
                          let c := (b0 - 0xf0) * 262144 + (b1 - 0x80) * 4096 + (b2 - 0x80) * 64 + (b3 - 0x80) in
                          if (c <? 0x10000) || (0x10ffff <? c) then None
                          else s ← from_utf8 r3; Some (c :: s)
                    | [] => None
                    end
              | [] => None
              end
        | [] => None
        end
  end.

(** * Command lines *)

Definition MAX_LINE : Z := 256.
Definition MAX_ARGS : Z := 16.

Record Command := mkCommand { bytes : list Z; spans : list (Z * Z); count : Z }.

Definition is_ascii_whitespace (c : Z) : bool := (c =? 32) || (c =? 9) || (c =? 10) || (c =? 12) || (c =? 13).
Fixpoint skip_ws (cs : str) : str :=
  match cs with
  | c :: cs' => if is_ascii_whitespace c then skip_ws cs' else cs
  | [] => []
  end.
Definition is_quote (c : Z) : bool := (c =? 39) || (c =? 34).

(** The inner loop: the characters left, the open quote, the buffer and its end. *)
Fixpoint word (cs : str) (quote : option Z) (b : list Z) (end_ : Z)
  : outcome string (str * option Z * list Z * Z) :=
  match cs with
  | [] => Ok ([], quote, b, end_)
  | c :: cs' =>
      if negb (bool_decide (is_Some quote)) && is_ascii_whitespace c then Ok (cs, quote, b, end_)
      else if bool_decide (Some c = quote) then word cs' None b end_
      else if negb (bool_decide (is_Some quote)) && is_quote c then word cs' (Some c) b end_
      else
        let encoded := encode_utf8 c in
        let n := Z.of_nat (length encoded) in
        if MAX_LINE <? end_ + n then Err "command too long"
        else word cs' quote (splice b (Z.to_nat end_) encoded) (end_ + n)
  end.

(** The outer loop; each turn takes at least one character. *)
Fixpoint words (fuel : nat) (cmd : Command) (end_ : Z) (cs : str) : outcome string Command :=
  match fuel with
  | O => Panic
  | S fuel' =>
      match skip_ws cs with
      | [] => Ok cmd
      | cs =>
          _ ← guard_err (count cmd =? MAX_ARGS) "too many arguments";
          let start := end_ in
          '(rest, quote, b, end_) ← word cs None (bytes cmd) end_;
          _ ← guard_err (bool_decide (is_Some quote)) "unclosed quote";
          words fuel' (mkCommand b (<[Z.to_nat (count cmd) := (start, end_)]> (spans cmd)) (count cmd + 1)) end_ rest
      end
  end.
Definition parse (line : str) : outcome string Command :=
  words (length line + 1)
    (mkCommand (replicate (Z.to_nat MAX_LINE) 0) (replicate (Z.to_nat MAX_ARGS) (0, 0)) 0) 0 line.

Definition len (cmd : Command) : Z := count cmd.
(** [None] is a panic: an index out of range or bytes that are not UTF-8. *)
Definition arg (cmd : Command) (i : Z) : option str :=
  '(start, end_) ← spans cmd !! Z.to_nat i;
  from_utf8 (take (Z.to_nat (end_ - start)) (drop (Z.to_nat start) (bytes cmd))).

(** * Paths *)

Record Path := mkPath { pbytes : list Z; plen : Z }.
Definition root : Path := mkPath (<[0%nat := 47]> (replicate (Z.to_nat MAX_LINE) 0)) 1.
Definition as_str (p : Path) : option str := from_utf8 (take (Z.to_nat (plen p)) (pbytes p)).

Definition is_control (c : Z) : bool := (c <? 32) || ((127 <=? c) && (c <? 160)).
Definition starts_with_sep (s : str) : bool := match s with c :: _ => is_sep c | [] => false end.

(** [while path.len > 1 && path.bytes[path.len - 1] != b'/' { path.len -= 1 }]. *)
Fixpoint back_to_slash (b : list Z) (n : nat) : nat :=
  match n with
  | S (S _ as n') => if byte b n' =? 47 then n else back_to_slash b n'
  | _ => n
  end.
Definition up (p : Path) : Path :=
  let n := back_to_slash (pbytes p) (Z.to_nat (plen p)) in
  mkPath (pbytes p) (Z.of_nat (if (1 <? n)%nat then n - 1 else n)).
Definition enter (p : Path) (part : str) : outcome string Path :=
  let part := as_bytes part in
  let n := Z.of_nat (length part) in
  let slash := if 1 <? plen p then 1 else 0 in
  _ ← guard_err (MAX_LINE <? plen p + slash + n) "path too long";
  let p := if negb (slash =? 0) then mkPath (<[Z.to_nat (plen p) := 47]> (pbytes p)) (plen p + 1) else p in
  Ok (mkPath (splice (pbytes p) (Z.to_nat (plen p)) part) (plen p + n)).

Definition resolve_part (p : Path) (part : str) : outcome string Path :=
  if bool_decide (part = []) || bool_decide (part = lit ".") then Ok p
  else if bool_decide (part = lit "..") then Ok (up p)
  else enter p part.
Fixpoint resolve_parts (p : Path) (parts : list str) : outcome string Path :=
  match parts with
  | [] => Ok p
  | part :: rest => p ← resolve_part p part; resolve_parts p rest
  end.
Definition resolve (p : Path) (name : str) : outcome string Path :=
  _ ← guard_err (contains name 58 || existsb is_control name)
        "use a path without a drive letter or control characters";
  resolve_parts (if starts_with_sep name then root else p) (split_path [] name).

(** * UTF-8 round trip *)

(** Decide the comparisons of a decoding step. *)
Ltac decode :=
  repeat match goal with
    | |- context [?a <? ?b] => first [rewrite (proj2 (Z.ltb_lt a b)) by lia | rewrite (proj2 (Z.ltb_ge a b)) by lia]
    | |- context [?a <=? ?b] => first [rewrite (proj2 (Z.leb_le a b)) by lia | rewrite (proj2 (Z.leb_gt a b)) by lia]
    end; cbn [andb orb negb].

Lemma utf8_cons c rest : is_char c -> from_utf8 (encode_utf8 c ++ rest) = (s ← from_utf8 rest; Some (c :: s)).
Proof.
  intros Hc. unfold is_char in Hc. unfold encode_utf8.
  destruct (Z.ltb_spec c 0x80); [cbn [app from_utf8]; by decode |].
  pose proof (Z.mod_pos_bound c 64 ltac:(lia)). pose proof (Z.div_mod c 64 ltac:(lia)).
  destruct (Z.ltb_spec c 0x800).
  { cbn [app from_utf8]. unfold cont. decode. destruct (from_utf8 rest); cbn [mbind option_bind]; [do 2 f_equal; lia | done]. }
  pose proof (Z.mod_pos_bound (c / 64) 64 ltac:(lia)). pose proof (Z.div_mod (c / 64) 64 ltac:(lia)).
  assert (c / 64 / 64 = c / 4096) as E1 by (rewrite Z.div_div by lia; done). rewrite E1 in *.
  destruct (Z.ltb_spec c 0x10000).
  { cbn [app from_utf8]. unfold cont.
    replace ((224 + c / 4096 - 224) * 4096 + (128 + c / 64 mod 64 - 128) * 64 + (128 + c mod 64 - 128)) with c by lia.
    decode. destruct (Z.ltb_spec c 0xd800); decode; done. }
  pose proof (Z.mod_pos_bound (c / 4096) 64 ltac:(lia)). pose proof (Z.div_mod (c / 4096) 64 ltac:(lia)).
  assert (c / 4096 / 64 = c / 262144) as E2 by (rewrite Z.div_div by lia; done). rewrite E2 in *.
  cbn [app from_utf8]. unfold cont.
  replace ((240 + c / 262144 - 240) * 262144 + (128 + c / 4096 mod 64 - 128) * 4096 + (128 + c / 64 mod 64 - 128) * 64
           + (128 + c mod 64 - 128)) with c by lia.
  decode. done.
Qed.

Lemma utf8_roundtrip s : Forall is_char s -> from_utf8 (as_bytes s) = Some s.
Proof.
  induction 1 as [| c s Hc _ IH]; [done |]. change (as_bytes (c :: s)) with (encode_utf8 c ++ as_bytes s).
  rewrite utf8_cons by done. by rewrite IH.
Qed.

Lemma as_bytes_app s t : as_bytes (s ++ t) = as_bytes s ++ as_bytes t.
Proof. unfold as_bytes. by rewrite map_app, join_app. Qed.
Lemma as_bytes_single c : as_bytes [c] = encode_utf8 c.
Proof. unfold as_bytes. cbn. by rewrite app_nil_r. Qed.

(** A byte below 128 comes from the character itself. *)
Lemma encode_utf8_ascii c b : is_char c -> b ∈ encode_utf8 c -> b < 128 -> c = b.
Proof.
  intros Hc Hb Hlt. unfold is_char in Hc. unfold encode_utf8 in Hb.
  pose proof (Z.mod_pos_bound c 64 ltac:(lia)). pose proof (Z.mod_pos_bound (c / 64) 64 ltac:(lia)).
  pose proof (Z.mod_pos_bound (c / 4096) 64 ltac:(lia)). assert (0 <= c / 262144 /\ 0 <= c / 4096 /\ 0 <= c / 64) by (split_and!; apply Z.div_pos; lia).
  repeat case_if; rewrite ?elem_of_cons, elem_of_nil in Hb; lia.
Qed.

(** * Command lines, by one pass over the characters *)

(** The reference: [cur] is the word being read, if any. *)
Fixpoint tokens (cur : option str) (quote : option Z) (cs : str) : option (list str) :=
  match cs with
  | [] => match quote, cur with Some _, _ => None | None, Some w => Some [w] | None, None => Some [] end
  | c :: cs' =>
      match quote with
      | None =>
          if is_ascii_whitespace c then
            match cur with
            | None => tokens None None cs'
            | Some w => ws ← tokens None None cs'; Some (w :: ws)
            end
          else if is_quote c then tokens (Some (default [] cur)) (Some c) cs'
          else tokens (Some (default [] cur ++ [c])) None cs'
      | Some q =>
          if c =? q then tokens cur None cs' else tokens (Some (default [] cur ++ [c])) (Some q) cs'
      end
  end.
Definition total (args : list str) : Z := Z.of_nat (length (mjoin (map as_bytes args))).

Lemma total_cons w ws : total (w :: ws) = Z.of_nat (length (as_bytes w)) + total ws.
Proof. unfold total. cbn [map]. change (mjoin (?x :: ?l)) with (x ++ mjoin l). rewrite length_app. lia. Qed.

(** [take n (drop o b)] reads back what was put there. *)
Lemma splice_here b o src : (o + length src <= length b)%nat -> take (length src) (drop o (splice b o src)) = src.
Proof.
  intros H. unfold splice. rewrite drop_app_length' by (rewrite length_take; lia). by rewrite take_app_length' .
Qed.
Lemma splice_below b o src n : (o <= length b)%nat -> (n <= o)%nat -> take n (splice b o src) = take n b.
Proof.
  intros H Hn. unfold splice. rewrite take_app_le by (rewrite length_take; lia). by rewrite take_take, Nat.min_l.
Qed.
(** The buffer holds [bs] up to its end. *)
Definition holds (b : list Z) (end_ : Z) (bs : list Z) : Prop :=
  Z.of_nat (length b) = MAX_LINE /\ end_ = Z.of_nat (length bs) /\ end_ <= MAX_LINE /\ take (length bs) b = bs.

Lemma holds_put b end_ bs enc :
  holds b end_ bs -> end_ + Z.of_nat (length enc) <= MAX_LINE ->
  holds (splice b (Z.to_nat end_) enc) (end_ + Z.of_nat (length enc)) (bs ++ enc).
Proof.
  intros (Hl & He & Hm & Ht) Hfit. subst end_. rewrite Nat2Z.id. unfold holds.
  rewrite length_splice, length_app by lia. split; [done |]. split; [lia |]. split; [done |].
  unfold splice. rewrite Ht, app_assoc. by rewrite take_app_length' by (by rewrite length_app).
Qed.

Lemma holds_keeps b end_ bs enc n :
  holds b end_ bs -> (n <= length bs)%nat -> take n (splice b (Z.to_nat end_) enc) = take n b.
Proof. intros (Hl & -> & Hm & Ht) Hn. apply splice_below; lia. Qed.

Lemma tokens_head cs : forall w q args, tokens (Some w) q cs = Some args -> exists w2 ws, args = (w ++ w2) :: ws.
Proof.
  induction cs as [| c cs IH]; intros w q args H; cbn [tokens] in H.
  - destruct q; [done |]. injection H as <-. exists [], []. by rewrite app_nil_r.
  - assert (forall w', (exists w2 ws, args = ((w ++ w') ++ w2) :: ws) -> exists w2 ws, args = (w ++ w2) :: ws) as Hw.
    { intros w' (w2 & ws & ->). exists (w' ++ w2), ws. by rewrite app_assoc. }
    destruct q as [q |]; cbn [default] in H.
    + destruct (c =? q); [by eapply IH | by eapply (Hw [c]), IH].
    + destruct (is_ascii_whitespace c).
      * destruct (tokens None None cs) as [ws |]; [| done]. injection H as <-. exists [], ws. by rewrite app_nil_r.
      * destruct (is_quote c); [by eapply IH | by eapply (Hw [c]), IH].
Qed.

(** What the inner loop promises of the characters [cs], [w] being read already. *)
Definition word_post (cs : str) (quote : option Z) (b : list Z) (end_ : Z) (bs : list Z) (w : str)
  (r : outcome string (str * option Z * list Z * Z)) : Prop :=
  match r with
  | Ok (rest, q', b', e') => exists w2, holds b' e' (bs ++ as_bytes w2) /\ take (length bs) b' = take (length bs) b
      /\ (length rest <= length cs)%nat
      /\ tokens (Some w) quote cs
         = match q' with Some _ => None | None => ws ← tokens None None rest; Some ((w ++ w2) :: ws) end
  | Err e => e = "command too long" /\ forall args, tokens (Some w) quote cs = Some args ->
      exists w2 ws, args = (w ++ w2) :: ws /\ MAX_LINE < end_ + Z.of_nat (length (as_bytes w2))
  | Panic => False
  end.

(** Consuming one character [c], which adds [c2] to the word. *)
Lemma word_post_cons c cs quote q b b1 end_ bs w c2 r :
  take (length bs) b1 = take (length bs) b ->
  tokens (Some w) quote (c :: cs) = tokens (Some (w ++ c2)) q cs ->
  word_post cs q b1 (end_ + Z.of_nat (length (as_bytes c2))) (bs ++ as_bytes c2) (w ++ c2) r ->
  word_post (c :: cs) quote b end_ bs w r.
Proof.
  intros Hk Et. unfold word_post. rewrite Et. destruct r as [[[[rest q'] b'] e'] | e |]; [| | done].
  - intros (w2 & H1 & H2 & H3 & H4). exists (c2 ++ w2). rewrite as_bytes_app. split; [by rewrite app_assoc |]. split.
    + assert (forall l : list Z, take (length bs) l = take (length bs) (take (length (bs ++ as_bytes c2)) l)) as Hcut.
      { intros l. rewrite take_take, length_app. by rewrite Nat.min_l by lia. }
      rewrite (Hcut b'), H2, <- Hcut. done.
    + split; [cbn; lia |]. etransitivity; [exact H4 |]. by rewrite <- (app_assoc w).
  - intros [-> H]. split; [done |]. intros args Ha. destruct (H args Ha) as (w2 & ws & -> & Hl).
    exists (c2 ++ w2), ws. split; [by rewrite <- (app_assoc w) |]. rewrite as_bytes_app, length_app. lia.
Qed.

Lemma word_spec cs : forall quote b end_ bs w, holds b end_ bs -> word_post cs quote b end_ bs w (word cs quote b end_).
Proof.
  induction cs as [| c cs IH]; intros quote b end_ bs w Hb; cbn [word].
  { exists []. split; [by rewrite app_nil_r |]. split; [done |]. split; [done |]. cbn. rewrite app_nil_r. by destruct quote. }
  assert (forall q, tokens (Some w) quote (c :: cs) = tokens (Some w) q cs ->
            word_post (c :: cs) quote b end_ bs w (word cs q b end_)) as Hskip.
  { intros q Et. apply (word_post_cons c cs quote q b b end_ bs w []); [done | by rewrite app_nil_r |].
    cbn. rewrite Z.add_0_r, !app_nil_r. by apply IH. }
  assert (forall q, tokens (Some w) quote (c :: cs) = tokens (Some (w ++ [c])) q cs ->
            word_post (c :: cs) quote b end_ bs w
              (if MAX_LINE <? end_ + Z.of_nat (length (encode_utf8 c)) then Err "command too long"
               else word cs q (splice b (Z.to_nat end_) (encode_utf8 c)) (end_ + Z.of_nat (length (encode_utf8 c))))) as Hput.
  { intros q Et. destruct (Z.ltb_spec MAX_LINE (end_ + Z.of_nat (length (encode_utf8 c)))) as [Hlt | Hle].
    - split; [done |]. intros args Ha. rewrite Et in Ha. apply tokens_head in Ha as (w2 & ws & ->). exists ([c] ++ w2), ws.
      split; [by rewrite <- app_assoc |]. rewrite as_bytes_app, as_bytes_single, length_app. lia.
    - eapply (word_post_cons c cs quote q); [by eapply (holds_keeps b end_ bs) | exact Et |]. rewrite as_bytes_single.
      by apply IH, holds_put. }
  destruct quote as [q |]; cbn [negb andb].
  - rewrite bool_decide_eq_true_2 by done. cbn [negb andb]. case_bool_decide as Hq.
    + injection Hq as ->. apply Hskip. cbn [tokens]. by rewrite Z.eqb_refl.
    + apply (Hput (Some q)). cbn [tokens]. by rewrite (proj2 (Z.eqb_neq _ _)) by congruence.
  - rewrite bool_decide_eq_false_2 by (by intros [? ?]). cbn [negb andb]. destruct (is_ascii_whitespace c) eqn:Ew.
    { exists []. rewrite !app_nil_r. split; [done |]. split; [done |]. split; [done |]. cbn [tokens]. by rewrite Ew. }
    rewrite bool_decide_eq_false_2 by done. destruct (is_quote c) eqn:Eq.
    + apply Hskip. cbn [tokens]. by rewrite Ew, Eq.
    + apply (Hput None). cbn [tokens]. by rewrite Ew, Eq.
Qed.

(** * The whole line *)

Lemma skip_ws_tokens cs : tokens None None (skip_ws cs) = tokens None None cs.
Proof. induction cs as [| c cs IH]; [done |]. cbn [skip_ws tokens]. by destruct (is_ascii_whitespace c) eqn:E; [| cbn [tokens]; rewrite E]. Qed.
Lemma skip_ws_length cs : (length (skip_ws cs) <= length cs)%nat.
Proof. induction cs as [| c cs IH]; [done |]. cbn [skip_ws]. destruct (is_ascii_whitespace c); cbn; lia. Qed.
Lemma skip_ws_head cs c cs' : skip_ws cs = c :: cs' -> is_ascii_whitespace c = false.
Proof. induction cs as [| x cs IH]; [done |]. cbn [skip_ws]. destruct (is_ascii_whitespace x) eqn:E; [done |]. by intros [= <- <-]. Qed.

(** A word takes its first character. *)
Lemma word_takes c cs b end_ bs (w : str) rest q' b' e' :
  holds b end_ bs -> is_ascii_whitespace c = false -> word (c :: cs) None b end_ = Ok (rest, q', b', e') ->
  (length rest <= length cs)%nat.
Proof.
  intros Hb Hc. cbn [word]. rewrite bool_decide_eq_false_2 by (by intros [? ?]). cbn [negb andb]. rewrite Hc.
  rewrite bool_decide_eq_false_2 by done. destruct (is_quote c).
  - intros E. pose proof (word_spec cs (Some c) b end_ bs w Hb) as H. rewrite E in H. by destruct H as (_ & _ & _ & H & _).
  - destruct (Z.ltb_spec MAX_LINE (end_ + Z.of_nat (length (encode_utf8 c)))); [done |]. intros E.
    pose proof (word_spec cs None _ _ _ w (holds_put b end_ bs _ Hb H)) as Hw. rewrite E in Hw. by destruct Hw as (_ & _ & _ & Hw & _).
Qed.

(** The command holds the arguments [args]. *)
Record parsed (cmd : Command) (end_ : Z) (args : list str) : Prop := {
  pa_count : count cmd = Z.of_nat (length args);
  pa_max : count cmd <= MAX_ARGS;
  pa_spans : Z.of_nat (length (spans cmd)) = MAX_ARGS;
  pa_bytes : holds (bytes cmd) end_ (mjoin (map as_bytes args));
  pa_arg : forall i a, args !! i = Some a -> exists st, spans cmd !! i = Some (Z.of_nat st, Z.of_nat (st + length (as_bytes a)))
    /\ (st + length (as_bytes a) <= length (mjoin (map as_bytes args)))%nat
    /\ take (length (as_bytes a)) (drop st (bytes cmd)) = as_bytes a }.

Lemma join_snoc (args : list str) w : mjoin (map as_bytes (args ++ [w])) = mjoin (map as_bytes args) ++ as_bytes w.
Proof. rewrite map_app, join_app. cbn [map]. change (mjoin [?x]) with (x ++ []). by rewrite app_nil_r. Qed.

Lemma parsed_snoc cmd end_ args w b' e' :
  parsed cmd end_ args -> count cmd <> MAX_ARGS ->
  holds b' e' (mjoin (map as_bytes args) ++ as_bytes w) ->
  take (length (mjoin (map as_bytes args))) b' = take (length (mjoin (map as_bytes args))) (bytes cmd) ->
  parsed (mkCommand b' (<[Z.to_nat (count cmd) := (end_, e')]> (spans cmd)) (count cmd + 1)) e' (args ++ [w]).
Proof.
  intros [H1 H2 H3 H4 H5] Hne Hb Hk. set (bs := mjoin (map as_bytes args)) in *. destruct H4 as (L & He & Hm & Ht).
  pose proof Hb as (L' & He' & Hm' & Ht'). rewrite length_app in He', Ht'.
  constructor; cbn [count spans bytes]; rewrite ?length_insert, ?join_snoc; try done.
  - rewrite length_app. cbn. lia.
  - lia.
  - fold bs. intros i a Hi. apply lookup_snoc_Some in Hi as [[Hlt Hi] | [-> ->]].
    + destruct (H5 i a Hi) as (st & S1 & S2 & S3). exists st. rewrite list_lookup_insert_ne by lia. split; [done |].
      split; [rewrite length_app; lia |]. rewrite <- S3 at 2.
      assert (forall l : list Z, take (length (as_bytes a)) (drop st l) = take (length (as_bytes a)) (drop st (take (length bs) l))) as Hcut.
      { intros l. rewrite !take_drop_commute, take_take. by rewrite Nat.min_l by lia. }
      rewrite (Hcut b'), Hk, <- Hcut. done.
    + exists (length bs). rewrite H1, Nat2Z.id. rewrite list_lookup_insert_eq by lia. split; [f_equal; f_equal; lia |].
      split; [rewrite length_app; lia |]. rewrite take_drop_commute, Ht'. by rewrite drop_app_length.
Qed.

Lemma tokens_chars cs : forall cur q args i a,
  Forall is_char cs -> Forall is_char (default [] cur) -> tokens cur q cs = Some args -> args !! i = Some a -> Forall is_char a.
Proof.
  induction cs as [| c cs IH]; intros cur q args i a Hcs Hcur H Hi; cbn [tokens] in H.
  - destruct q; [done |]. destruct cur as [w |]; injection H as <-; [| done]. destruct i; [by injection Hi as <- | done].
  - apply Forall_cons in Hcs as [Hc Hcs].
    assert (Forall is_char (default [] cur ++ [c])) as Hsn by (apply Forall_app; split; [done | by apply Forall_singleton]).
    destruct q as [q |]; [destruct (c =? q); by eapply IH in H |].
    destruct (is_ascii_whitespace c); [| destruct (is_quote c); by eapply IH in H].
    destruct cur as [w |]; [| by eapply IH in H].
    destruct (tokens None None cs) as [ws |] eqn:Et; [| done]. injection H as <-.
    destruct i as [| i]; [by injection Hi as <- |]. by eapply (IH None None ws i).
Qed.

Lemma words_spec fuel : forall cmd end_ args cs,
  parsed cmd end_ args -> (length cs < fuel)%nat ->
  match words fuel cmd end_ cs with
  | Ok cmd' => exists ws e', tokens None None cs = Some ws /\ parsed cmd' e' (args ++ ws)
  | Err e => forall ws, tokens None None cs = Some ws ->
      (e = "too many arguments" /\ MAX_ARGS < Z.of_nat (length (args ++ ws)))
      \/ (e = "command too long" /\ MAX_LINE < total (args ++ ws))
  | Panic => False
  end.
Proof.
  induction fuel as [| fuel IH]; intros cmd end_ args cs Hp Hf; [lia |]. cbn [words].
  pose proof (skip_ws_length cs) as Hlen. rewrite <- (skip_ws_tokens cs).
  destruct (skip_ws cs) as [| c cs'] eqn:Es; [exists [], end_; by rewrite app_nil_r |].
  apply skip_ws_head in Es as Hc. pose proof (pa_count _ _ _ Hp) as Hcnt.
  assert (tokens None None (c :: cs') = tokens (Some []) None (c :: cs')) as Et.
  { cbn [tokens]. by rewrite Hc. }
  unfold guard_err at 1. destruct (Z.eqb_spec (count cmd) MAX_ARGS) as [Emax | Emax]; cbn [mbind outcome_bind].
  { intros ws Hw. left. split; [done |]. rewrite Et in Hw. apply tokens_head in Hw as (w2 & ws' & ->).
    rewrite length_app. cbn. lia. }
  pose proof (word_spec (c :: cs') None (bytes cmd) end_ _ [] (pa_bytes _ _ _ Hp)) as Hw.
  destruct (word (c :: cs') None (bytes cmd) end_) as [[[[rest q'] b'] e'] | e |] eqn:Ew; [| | done].
  - destruct Hw as (w & Hb & Hk & _ & Htok). apply (eq_trans Et) in Htok. cbn [app] in Htok. cbn [mbind outcome_bind].
    unfold guard_err. destruct q' as [q' |]; [by rewrite Htok |].
    rewrite bool_decide_eq_false_2 by (by intros [? ?]). cbn [mbind outcome_bind].
    pose proof (word_takes c cs' _ _ _ [] _ _ _ _ (pa_bytes _ _ _ Hp) Hc Ew) as Hshort. cbn [length] in Hlen.
    specialize (IH _ e' (args ++ [w]) rest (parsed_snoc _ _ _ w _ _ Hp Emax Hb Hk) ltac:(lia)).
    destruct (words fuel _ e' rest) as [cmd' | e |]; [| | done].
    + destruct IH as (ws & e2 & T & P). exists (w :: ws), e2. rewrite Htok, T. split; [done |]. by rewrite <- app_assoc in P.
    + intros ws Hws. rewrite Htok in Hws. destruct (tokens None None rest) as [ws' |]; [| done]. injection Hws as <-.
      specialize (IH ws' eq_refl). by rewrite <- app_assoc in IH.
  - destruct Hw as [-> Hw]. intros ws Hws. right. split; [done |]. rewrite Et in Hws.
    destruct (Hw ws Hws) as (w & ws' & -> & Hl). pose proof (pa_bytes _ _ _ Hp) as (_ & He & _).
    assert (forall l l' : list str, total (l ++ l') = total l + total l') as Hta.
    { intros l l'. unfold total. rewrite map_app, join_app, length_app. lia. }
    rewrite Hta, total_cons. cbn [app]. unfold total at 1. unfold total. lia.
Qed.

Definition empty_command : Command :=
  mkCommand (replicate (Z.to_nat MAX_LINE) 0) (replicate (Z.to_nat MAX_ARGS) (0, 0)) 0.
Lemma parsed_empty : parsed empty_command 0 [].
Proof.
  unfold MAX_ARGS, MAX_LINE. constructor; cbn [empty_command count spans bytes length map]; try done.
Qed.

(** * Theorems about command lines *)

(** Parsing a command line into the fixed 256-byte buffer is equivalent to the one-pass
    tokenizer: if the line's quotes are closed, it has at most sixteen arguments and they
    take at most 256 bytes, [parse] returns a command with exactly those arguments, and
    otherwise the error that applies; it never panics, and neither does reading an argument
    back, empty, quoted and non-ASCII arguments included. *)
Theorem command_parse_equiv line :
  Forall is_char line ->
  match parse line with
  | Ok cmd => exists args, tokens None None line = Some args
      /\ len cmd = Z.of_nat (length args) /\ len cmd <= MAX_ARGS /\ total args <= MAX_LINE
      /\ forall i a, args !! i = Some a -> arg cmd (Z.of_nat i) = Some a
  | Err e => match tokens None None line with
             | Some args => (e = "too many arguments" /\ MAX_ARGS < Z.of_nat (length args))
                            \/ (e = "command too long" /\ MAX_LINE < total args)
             | None => True
             end
  | Panic => False
  end.
Proof.
  intros Hline. unfold parse. fold empty_command.
  pose proof (words_spec (length line + 1) empty_command 0 [] line parsed_empty ltac:(lia)) as H.
  destruct (words _ _ _ _) as [cmd | e |]; [| | done].
  - destruct H as (args & e' & T & P). exists args. split; [done |].
    destruct P as [P1 P2 P3 P4 P5]. cbn [app] in *. split; [done |]. split; [done |].
    split; [destruct P4 as (_ & P4 & P4' & _); unfold total; lia |].
    intros i a Hi. unfold arg. rewrite Nat2Z.id. destruct (P5 i a Hi) as (st & -> & _ & Hs). cbn [mbind option_bind].
    replace (Z.to_nat (Z.of_nat (st + length (as_bytes a)) - Z.of_nat st)) with (length (as_bytes a)) by lia.
    rewrite Nat2Z.id, Hs. apply utf8_roundtrip. by eapply (tokens_chars line None None args i a); [| constructor | |].
  - destruct (tokens None None line) as [args |] eqn:T; [| done].
    by apply (H args).
Qed.

(** * Paths as lists of components *)

(** The text of a path with these components. *)
Definition text (comps : list str) : str :=
  if bool_decide (comps = []) then [47] else mjoin (map (cons 47) comps).
Definition part_ok (c : str) : Prop :=
  c <> [] /\ c <> lit "." /\ c <> lit ".." /\ Forall (fun x => is_sep x = false) c /\ Forall is_char c.
Record path_ok (p : Path) (comps : list str) : Prop := {
  po_bytes : holds (pbytes p) (plen p) (as_bytes (text comps));
  po_parts : Forall part_ok comps }.

Lemma text_chars comps : Forall part_ok comps -> Forall is_char (text comps).
Proof.
  intros H. assert (is_char 47) by (unfold is_char; lia). unfold text. case_bool_decide; [by apply Forall_singleton |].
  clear -H H0. induction H as [| c cs Hc _ IH]; [constructor |]. cbn [map]. change (mjoin (?x :: ?l)) with (x ++ mjoin l).
  apply Forall_app. split; [constructor; [done | apply Hc] | exact IH].
Qed.

(** What precedes the separator of one more component. *)
Definition lead (comps : list str) : str := if bool_decide (comps = []) then [] else text comps.
Lemma text_snoc comps c : text (comps ++ [c]) = lead comps ++ 47 :: c.
Proof.
  unfold lead, text. rewrite bool_decide_eq_false_2 by (by destruct comps). rewrite map_app, join_app. cbn [map].
  change (mjoin [?x]) with (x ++ []). rewrite app_nil_r. case_bool_decide; by subst.
Qed.

(** ** The filesystem reads the same components *)

Lemma split_path_app w rest : forall cur, Forall (fun x => is_sep x = false) w ->
  split_path cur (w ++ rest) = split_path (cur ++ w) rest.
Proof.
  induction w as [| c w IH]; intros cur Hw; [by rewrite app_nil_r |]. apply Forall_cons in Hw as [Hc Hw].
  cbn [app split_path]. rewrite Hc, IH by done. by rewrite <- app_assoc.
Qed.

Lemma split_text comps : forall cur, Forall part_ok comps -> split_path cur (mjoin (map (cons 47) comps)) = cur :: comps.
Proof.
  induction comps as [| c comps IH]; intros cur H; [done |]. apply Forall_cons in H as [Hc H]. cbn [map].
  change (mjoin (?x :: ?l)) with (x ++ mjoin l). cbn [app split_path]. change (is_sep 47) with true. cbn iota.
  rewrite split_path_app by apply Hc. cbn [app]. by rewrite IH.
Qed.

Lemma push_part_ok comps c : part_ok c -> push_part comps c = comps ++ [c].
Proof. intros (H1 & H2 & H3 & _). unfold push_part. by rewrite !bool_decide_eq_false_2. Qed.

Lemma components_text comps : Forall part_ok comps -> components (text comps) = comps.
Proof.
  intros H. unfold components, text. case_bool_decide as Hc; [by subst |]. rewrite split_text by done.
  cbn [foldl]. change (push_part [] []) with (@nil str).
  assert (forall acc, foldl push_part acc comps = acc ++ comps) as Hf; [| apply Hf].
  clear Hc. induction H as [| c cs Hc _ IH]; intros acc; [by rewrite app_nil_r |]. cbn [foldl].
  rewrite push_part_ok by done. rewrite IH. by rewrite <- app_assoc.
Qed.

(** ** One step up *)

Lemma back_to_slash_spec b pre w : take (length pre + 1 + length w) b = pre ++ 47 :: w -> 47 ∉ w ->
  back_to_slash b (length pre + 1 + length w) = (length pre + 1)%nat.
Proof.
  intros Ht Hw. assert (forall i, (i <= length pre + length w)%nat -> byte b i = byte (pre ++ 47 :: w) i) as Hb.
  { intros i Hi. rewrite <- Ht. unfold byte. rewrite !nth_lookup, lookup_take_lt by lia. done. }
  assert (forall k, (k <= length w)%nat -> back_to_slash b (length pre + 1 + k) = (length pre + 1)%nat) as H; [| by apply H].
  induction k as [| k IH]; intros Hk.
  - rewrite Nat.add_0_r. destruct pre as [| x pre]; [done |]. rewrite Nat.add_1_r. cbn [length back_to_slash].
    rewrite Hb by (cbn; lia). unfold byte. rewrite nth_lookup. change (S (length pre)) with (length (x :: pre)).
    rewrite list_lookup_middle by done. done.
  - replace (length pre + 1 + S k)%nat with (S (length pre + 1 + k)) by lia.
    assert (exists m, (length pre + 1 + k = S m)%nat) as [m Em] by (exists (length pre + k)%nat; lia).
    cbn [back_to_slash]. rewrite Em, <- Em. rewrite Hb by lia. unfold byte. rewrite nth_lookup, lookup_app_r by lia.
    replace (length pre + 1 + k - length pre)%nat with (S k) by lia.
    destruct (lookup_lt_is_Some_2 w k ltac:(lia)) as [x Hx]. change ((47 :: w) !! S k) with (w !! k). rewrite Hx. change (default 0 (Some x)) with x.
    rewrite (proj2 (Z.eqb_neq _ _)); [apply IH; lia |]. intros ->. apply Hw. by eapply list_elem_of_lookup_2.
Qed.

Lemma slash_not_in c : Forall (fun x => is_sep x = false) c -> Forall is_char c -> 47 ∉ as_bytes c.
Proof.
  intros Hs Hc Hin. unfold as_bytes in Hin. apply list_elem_of_join in Hin as (l & Hl & Hin).
  apply elem_of_map in Hin as (x & -> & Hx). apply encode_utf8_ascii in Hl as ->; [| by eapply Forall_elem in Hx; [| exact Hc] | lia].
  eapply Forall_elem in Hx; [| exact Hs]. done.
Qed.

Lemma holds_prefix b n bs bs' m : holds b n bs -> bs = bs' ++ m -> holds b (Z.of_nat (length bs')) bs'.
Proof.
  intros (L & -> & Hm & Ht) ->. rewrite length_app in Hm, Ht. split; [done |]. split; [done |]. split; [lia |].
  rewrite <- (take_app_length bs' m) at 2. rewrite <- Ht, take_take. f_equal. lia.
Qed.

Lemma up_spec p comps : path_ok p comps -> path_ok (up p) (push_part comps (lit "..")).
Proof.
  intros [Hb Hp]. change (push_part comps (lit "..")) with (take (length comps - 1) comps).
  destruct (decide (comps = [])) as [-> | Hne].
  { constructor; [| done]. cbn. unfold up. destruct Hb as (L & E & M & T). cbn in E. rewrite E. cbn [plen pbytes]. done. }
  destruct (snoc_of comps Hne) as (cs & c & ->). apply Forall_app in Hp as [Hp Hc]. apply Forall_cons in Hc as [Hc _].
  rewrite length_app. cbn [length]. rewrite Nat.add_sub, take_app_length. constructor; [| done].
  rewrite text_snoc, as_bytes_app in Hb. change (as_bytes (47 :: c)) with (47 :: as_bytes c) in Hb.
  remember (as_bytes (lead cs)) as pre eqn:Epre.
  pose proof Hb as (L & E & M & T). rewrite length_app in E, T. cbn [length] in E, T.
  unfold up. cbn [pbytes plen].
  assert (back_to_slash (pbytes p) (Z.to_nat (plen p)) = (length pre + 1)%nat) as ->.
  { assert (length pre + S (length (as_bytes c)) = length pre + 1 + length (as_bytes c))%nat as Hn by lia.
    rewrite Hn in E, T. rewrite E, Nat2Z.id. apply back_to_slash_spec; [done |]. apply slash_not_in; apply Hc. }
  rewrite Epre in *. unfold lead in *. case_bool_decide as Hcs.
  - subst cs. cbn. eapply (holds_prefix _ _ _ [47]); [exact Hb | done].
  - assert (length (as_bytes (text cs)) <> 0)%nat as Hl.
    { unfold text. rewrite bool_decide_eq_false_2 by done. destruct cs as [| x cs]; [done |]. cbn. lia. }
    rewrite (proj2 (Nat.ltb_lt _ _)) by lia. rewrite Nat.add_sub. by eapply holds_prefix.
Qed.

(** ** One step down *)

Lemma insert_splice (b : list Z) n x : (n < length b)%nat -> <[n := x]> b = splice b n [x].
Proof. intros H. unfold splice. rewrite insert_take_drop by done. cbn [length]. by rewrite Nat.add_1_r. Qed.

Lemma enter_spec p comps c : path_ok p comps -> part_ok c ->
  match enter p c with
  | Ok p' => path_ok p' (comps ++ [c])
  | Err e => e = "path too long" /\ MAX_LINE < Z.of_nat (length (as_bytes (text (comps ++ [c]))))
  | Panic => False
  end.
Proof.
  intros [Hb Hp] Hc. assert (Forall part_ok (comps ++ [c])) as Hall by (apply Forall_app; split; [done | by apply Forall_singleton]).
  pose proof Hb as (L & E & M & T).
  assert ((1 <? plen p) = negb (bool_decide (comps = []))) as Hslash.
  { rewrite E. unfold text. case_bool_decide as Hn; [done |]. destruct comps as [| x comps]; [done |].
    apply Forall_cons in Hp as [(Hx & _) _]. destruct x as [| y x]; [done |]. apply Z.ltb_lt. cbn [map].
    change (mjoin (?x :: ?l)) with (x ++ mjoin l). rewrite as_bytes_app. unfold as_bytes at 1. cbn [map].
    change (mjoin (?x :: ?l)) with (x ++ mjoin l). rewrite !length_app.
    assert (0 < length (encode_utf8 y))%nat by (unfold encode_utf8; repeat case_if; cbn; lia).
    change (mjoin (encode_utf8 y :: ?l)) with (encode_utf8 y ++ mjoin l). rewrite length_app. cbn. lia. }
  assert (length (as_bytes (text (comps ++ [c])))
          = (length (as_bytes (lead comps)) + 1 + length (as_bytes c))%nat) as Hlen.
  { rewrite text_snoc, as_bytes_app, length_app. change (as_bytes (47 :: c)) with (47 :: as_bytes c). cbn [length]. lia. }
  unfold enter. rewrite Hslash. unfold guard_err. unfold lead in Hlen. case_bool_decide as Hn; cbn [negb].
  - subst comps. change (as_bytes (text [])) with [47] in E. change (as_bytes []) with (@nil Z) in Hlen. cbn [length] in E, Hlen.
    destruct (MAX_LINE <? _) eqn:Eg; cbn [mbind outcome_bind Z.eqb negb]; [split; [done |]; lia |].
    constructor; [| done]. cbn [pbytes plen]. rewrite text_snoc.
    change (as_bytes (lead [] ++ 47 :: c)) with (as_bytes (text []) ++ as_bytes c). apply holds_put; [done | lia].
  - destruct (MAX_LINE <? _) eqn:Eg; cbn [mbind outcome_bind Z.eqb negb]; [split; [done |]; lia |].
    constructor; [| done]. cbn [pbytes plen]. rewrite insert_splice by lia. rewrite text_snoc.
    unfold lead. rewrite bool_decide_eq_false_2 by done. rewrite as_bytes_app. change (as_bytes (47 :: c)) with ([47] ++ as_bytes c).
    rewrite app_assoc. apply holds_put; [| cbn; lia]. apply (holds_put _ _ _ [47]); [done | cbn; lia].
Qed.

Lemma part_ok_push comps part : Forall part_ok comps -> Forall (fun x => is_sep x = false) part -> Forall is_char part ->
  Forall part_ok (push_part comps part).
Proof.
  intros H Hs Hc. unfold push_part. case_bool_decide as H1; [done |]. case_bool_decide as H2; [done |].
  case_bool_decide as H3; [by apply Forall_take |]. apply Forall_app. split; [done |]. by apply Forall_singleton.
Qed.

Lemma resolve_part_spec p comps part :
  path_ok p comps -> Forall (fun x => is_sep x = false) part -> Forall is_char part ->
  match resolve_part p part with
  | Ok p' => path_ok p' (push_part comps part)
  | Err e => e = "path too long" /\ MAX_LINE < Z.of_nat (length (as_bytes (text (push_part comps part))))
  | Panic => False
  end.
Proof.
  intros Hp Hs Hc. unfold resolve_part, push_part. case_bool_decide as H1; [done |]. case_bool_decide as H2; [done |]. cbn [orb].
  case_bool_decide as H3; [subst; by apply up_spec |]. by apply enter_spec.
Qed.

Lemma resolve_parts_spec parts : forall p comps,
  path_ok p comps -> Forall (fun part => Forall (fun x => is_sep x = false) part /\ Forall is_char part) parts ->
  match resolve_parts p parts with
  | Ok p' => path_ok p' (foldl push_part comps parts)
  | Err e => e = "path too long" /\ exists n, MAX_LINE < Z.of_nat (length (as_bytes (text (foldl push_part comps (take n parts)))))
  | Panic => False
  end.
Proof.
  induction parts as [| part parts IH]; intros p comps Hp Hparts; [done |]. apply Forall_cons in Hparts as [[Hs Hc] Hparts].
  cbn [resolve_parts]. pose proof (resolve_part_spec p comps part Hp Hs Hc) as H.
  destruct (resolve_part p part) as [p' | e |]; cbn [mbind outcome_bind]; [| | done].
  - specialize (IH p' _ H Hparts). destruct (resolve_parts p' parts) as [p'' | e |]; [done | | done].
    destruct IH as [-> [n Hn]]. split; [done |]. by exists (S n).
  - destruct H as [-> H]. split; [done |]. by exists 1%nat.
Qed.

Lemma split_parts name : forall cur, Forall is_char name -> Forall (fun x => is_sep x = false) cur -> Forall is_char cur ->
  Forall (fun part => Forall (fun x => is_sep x = false) part /\ Forall is_char part) (split_path cur name).
Proof.
  induction name as [| c name IH]; intros cur Hn Hs Hc; cbn [split_path]; [by apply Forall_singleton |].
  apply Forall_cons in Hn as [Hc0 Hn]. destruct (is_sep c) eqn:E.
  - constructor; [done |]. apply IH; [done | constructor | constructor].
  - apply IH; [done | apply Forall_app; split; [done | by apply Forall_singleton] | apply Forall_app; split; [done | by apply Forall_singleton]].
Qed.

Lemma root_ok : path_ok root [].
Proof. constructor; [| constructor]. unfold holds, root. cbn [pbytes plen]. by rewrite length_insert, length_replicate. Qed.

(** C32. Resolving a path in the fixed buffer is equivalent to folding its parts over the
    list of components ([.] and empty parts skipped, [..] drops the last component and is
    absorbed at the root): the new path is the text of that list, it reads back as UTF-8,
    and the filesystem splits it into the same components.  The errors are exactly a colon
    or control character in the name, or a path that outgrows 256 bytes on the way; nothing
    panics. *)
Theorem path_resolve_equiv p comps name :
  path_ok p comps -> Forall is_char name ->
  let base := if starts_with_sep name then [] else comps in
  let comps' := foldl push_part base (split_path [] name) in
  match resolve p name with
  | Ok p' => path_ok p' comps' /\ as_str p' = Some (text comps') /\ components (text comps') = comps'
      /\ contains name 58 || existsb is_control name = false
  | Err e =>
      (contains name 58 || existsb is_control name = true
       /\ e = "use a path without a drive letter or control characters")
      \/ (e = "path too long"
          /\ exists n, MAX_LINE < Z.of_nat (length (as_bytes (text (foldl push_part base (take n (split_path [] name)))))))
  | Panic => False
  end.
Proof.
  intros Hp Hn base comps'. unfold resolve, guard_err. destruct (contains name 58 || existsb is_control name); [by left |].
  cbn [mbind outcome_bind].
  assert (path_ok (if starts_with_sep name then root else p) base) as Hb.
  { unfold base. destruct (starts_with_sep name); [exact root_ok | done]. }
  pose proof (resolve_parts_spec (split_path [] name) _ base Hb (split_parts name [] Hn (Forall_nil_2 _) (Forall_nil_2 _))) as H.
  destruct (resolve_parts _ _) as [p' | e |]; [| by right | done]. fold comps' in H.
  split; [done |]. destruct H as [(L & E & M & T) Hok]. split; [| split; [by apply components_text | done]].
  unfold as_str. rewrite E, Nat2Z.id, T. by apply utf8_roundtrip, text_chars.
Qed.

Lemma command_parse_equiv_witness :
  match parse (lit "COPY 'a b' ''") with
  | Ok cmd => len cmd = 3 /\ arg cmd 1 = Some (lit "a b") /\ arg cmd 2 = Some []
  | _ => False
  end.
Proof.
  pose proof (command_parse_equiv (lit "COPY 'a b' ''")) as H.
  assert (exists cmd, parse (lit "COPY 'a b' ''") = Ok cmd) as [cmd E] by (eexists; vm_compute; reflexivity). rewrite E in *.
  destruct H as (args & T & Hl & _ & _ & Ha); [repeat constructor; unfold is_char; lia |].
  assert (tokens None None (lit "COPY 'a b' ''") = Some [lit "COPY"; lit "a b"; []]) as T' by reflexivity.
  assert (args = [lit "COPY"; lit "a b"; []]) as Hargs by congruence. rewrite Hargs in *.
  split; [exact Hl |]. split; [exact (Ha 1%nat _ eq_refl) | exact (Ha 2%nat _ eq_refl)].
Defined.

Lemma path_resolve_equiv_witness :
  match resolve root (lit "BIN/sub/../HELLO.ELF") with
  | Ok p => as_str p = Some (lit "/BIN/HELLO.ELF")
  | _ => False
  end.
Proof.
  pose proof (path_resolve_equiv root [] (lit "BIN/sub/../HELLO.ELF") root_ok) as H.
  assert (exists p, resolve root (lit "BIN/sub/../HELLO.ELF") = Ok p) as [p E] by (eexists; vm_compute; reflexivity).
  rewrite E in *. destruct H as (_ & H & _); [repeat constructor; unfold is_char; lia | exact H].
Defined.
End Shell.
