(* ===== verification/Fs.v ===== *)
(** The filesystem interface of the kernel (src/fs/mod.rs): the calls both filesystems offer,
    as a type class with the safety both promise; the front end that picks one of them; and
    sessions of calls, proved against the interface. *)

From Stdlib Require Import ZArith Lia.
From stdpp Require Import base list list_numbers numbers decidable tactics strings gmap.
From S2P Require Import Prelude BlockDev FatNames FatTable Fat FatMount FatOps Exfat ExfatDisk ExfatBitmap ExfatChain ExfatWrite ExfatTree ExfatCreate ExfatOps ExfatChange Shell.
Import Blk FatNames.

(** * The interface *)

Module Iface.
Class FileSystem (S : Type) : Type := {
  read_dir : str -> M S (option (list (str * bool * Z)));
  read_file : str -> M S (option (list Z));
  metadata : str -> M S (option (bool * Z));
  directory_id : str -> M S (option Z);
  create_file : str -> list Z -> M S unit;
  write_file : str -> list Z -> M S unit;
  append_file : str -> list Z -> M S unit;
  delete : str -> M S unit;
  mkdir : str -> M S unit;
  sectors : S -> gmap Z (list Z) }.

(** A call and what it answers. *)
Inductive call :=
| ReadDir (path : str) | ReadFile (path : str) | Metadata (path : str) | DirectoryId (path : str)
| Create (path : str) (d : list Z) | Write (path : str) (d : list Z) | Append (path : str) (d : list Z) | Delete (path : str) | Mkdir (path : str).
Inductive reply := Listing (l : option (list (str * bool * Z))) | Bytes (b : option (list Z)) | Meta (m : option (bool * Z)) | Id (i : option Z) | Done.
Definition reading (c : call) : bool := match c with ReadDir _ | ReadFile _ | Metadata _ | DirectoryId _ => true | _ => false end.
(** Paths are texts without NUL, and the data are bytes that fit a 62-bit length. *)
Definition path_ok (path : str) : Prop := Forall (fun c => Shell.is_char c /\ c <> 0) path.
Definition data_ok (d : list Z) : Prop := Forall is_byte d /\ Z.of_nat (length d) < 2 ^ 62.
Definition call_ok (c : call) : Prop :=
  match c with
  | ReadDir p | ReadFile p | Metadata p | DirectoryId p | Delete p | Mkdir p => path_ok p
  | Create p d | Write p d | Append p d => path_ok p /\ data_ok d
  end.

Section Sessions.
Context {S : Type} `{FileSystem S}.
Definition exec (c : call) : M S reply :=
  match c with
  | ReadDir p => r ← read_dir p; mret (Listing r)
  | ReadFile p => r ← read_file p; mret (Bytes r)
  | Metadata p => r ← metadata p; mret (Meta r)
  | DirectoryId p => r ← directory_id p; mret (Id r)
  | Create p d => _ ← create_file p d; mret Done
  | Write p d => _ ← write_file p d; mret Done
  | Append p d => _ ← append_file p d; mret Done
  | Delete p => _ ← delete p; mret Done
  | Mkdir p => _ ← mkdir p; mret Done
  end.
(** Calls one after the other, errors included. *)
Fixpoint session (cs : list call) (s : S) : list (outcome string reply) * S :=
  match cs with
  | [] => ([], s)
  | c :: cs' => let '(r, s1) := exec c s in let '(rs, s2) := session cs' s1 in (r :: rs, s2)
  end.
End Sessions.

(** What a filesystem promises: in the states it keeps, no call panics, and calls that read
    return an answer and leave the disk alone. *)
Class SafeFs (S : Type) `{FileSystem S} : Type := {
  sound : S -> Prop;
  changes_sound : forall s c, sound s -> call_ok c -> reading c = false -> wp (exec c) s (fun _ => sound) (fun _ => sound);
  reads_sound : forall s c, sound s -> call_ok c -> reading c = true -> wp (exec c) s (fun _ s' => sound s' /\ sectors s' = sectors s) (fun _ _ => False) }.

Section Promised.
Context {S : Type} `{SafeFs S}.
Lemma exec_sound s c : sound s -> call_ok c -> wp (exec c) s (fun _ => sound) (fun _ => sound).
Proof.
  intros Hs Hc. destruct (reading c) eqn:Er; [| by apply changes_sound]. eapply wp_mono; [by apply reads_sound | by intros ? ? [] | done].
Qed.
Lemma session_safe cs : forall s, sound s -> Forall call_ok cs ->
  sound (session cs s).2 /\ (Panic ∉ (session cs s).1) /\ length (session cs s).1 = length cs
  /\ (Forall (fun c => reading c = true) cs -> sectors (session cs s).2 = sectors s).
Proof.
  induction cs as [| c cs IH]; intros s Hs Hcs; cbn [session]; [split_and!; [done | apply not_elem_of_nil | done | done] |].
  apply Forall_cons in Hcs as [Hc Hcs]. pose proof (exec_sound s c Hs Hc) as Hw. pose proof (fun Er => reads_sound s c Hs Hc Er) as Hr.
  unfold wp in Hw, Hr. destruct (exec c s) as [r s1]. assert (sound s1) as H1 by (destruct r; done).
  destruct (IH s1 H1 Hcs) as (A & B & C & D). destruct (session cs s1) as [rs s2]. cbn [fst snd] in *. split_and!; [done | | cbn; lia |].
  - intros [Hx | Hx]%elem_of_cons; [by subst r | done].
  - intros [Er Ers]%Forall_cons. rewrite (D Ers). specialize (Hr Er). destruct r; [by destruct Hr | done | done].
Qed.
End Promised.
End Iface.
Import Iface.

(** * FAT *)

Section FatFs.
Context (env : nat -> response) (up low : Z -> str).

#[export] Instance fat_fs : FileSystem Fat.fs := {
  read_dir := Fat.read_dir env up low; read_file := Fat.read_file env up low; metadata := Fat.metadata env up low; directory_id := Fat.directory_id env up low;
  create_file := Fat.create_file env up low; write_file := Fat.write_file env up low; append_file := Fat.append_file env up low;
  delete := Fat.delete env up low; mkdir := Fat.mkdir env up low; sectors f := media (Fat.device f) }.

(** Not mounted, or consistent, or stopped after a disk error. *)
Definition fat_sound (f : Fat.fs) : Prop :=
  match Fat.volume f with None => True | Some v => FatTable.safe (FatTable.mkState v (Fat.device f)) end.

Lemma fat_change {A} (m : Fat.F A) f : fat_sound f -> (Fat.volume f = None -> FatMount.refused m f) ->
  (forall v, Fat.volume f = Some v -> FatTable.good (FatTable.mkState v (Fat.device f)) -> FatOps.ends_safe m f) ->
  (forall v, Fat.volume f = Some v -> FatTable.vfailed v = true -> FatMount.refused m f) ->
  wp (_ ← m; mret Done) f (fun _ => fat_sound) (fun _ => fat_sound).
Proof.
  intros Hs Hn Hg Hst. apply wp_bind. assert (FatMount.refused m f -> wp m f (fun _ f' => wp (mret Done) f' (fun _ => fat_sound) (fun _ => fat_sound)) (fun _ => fat_sound)) as Hr.
  { intros [e E]. unfold wp at 1. by rewrite E. }
  unfold fat_sound in Hs. destruct (Fat.volume f) as [v |] eqn:Ev; [| by apply Hr, Hn]. destruct Hs as [G | [Hf _]]; [| by apply Hr, (Hst v)].
  specialize (Hg v eq_refl G). unfold FatOps.ends_safe in Hg. unfold wp at 1. destruct (m f) as [[a | e |] f']; [| | done]; destruct Hg as (v' & E & G').
  - apply wp_ret. unfold fat_sound. rewrite E. by left.
  - unfold fat_sound. by rewrite E.
Qed.
Lemma fat_read {A} (m : Fat.F (option A)) (k : option A -> reply) f : fat_sound f -> (Fat.volume f = None -> m f = (Ok None, f)) ->
  (forall v, Fat.volume f = Some v -> FatTable.good (FatTable.mkState v (Fat.device f)) -> FatOps.only_reads m f) ->
  (forall v, Fat.volume f = Some v -> FatTable.vfailed v = true -> m f = (Ok None, f)) ->
  wp (r ← m; mret (k r)) f (fun _ s' => fat_sound s' /\ media (Fat.device s') = media (Fat.device f)) (fun _ _ => False).
Proof.
  intros Hs Hn Hg Hst. apply wp_bind. set (Q := fun _ _ => _). assert (m f = (Ok None, f) -> wp m f Q (fun _ _ => False)) as Hr.
  { intros E. unfold wp. rewrite E. by apply wp_ret. }
  unfold fat_sound in Hs. destruct (Fat.volume f) as [v |] eqn:Ev; [| by apply Hr, Hn]. destruct Hs as [G | [Hf _]]; [| by apply Hr, (Hst v)].
  specialize (Hg v eq_refl G). unfold FatOps.only_reads in Hg. unfold wp. destruct (m f) as [[a | e |] f']; [| done | done]. destruct Hg as [E1 E2]. apply wp_ret.
  split; [| done]. unfold fat_sound. rewrite E1, Ev. left. by apply (FatTable.read_only_good (FatTable.mkState v (Fat.device f))).
Qed.
Lemma fat_unmounted f : Fat.volume f = None -> forall A (m : FatTable.V A), FatMount.refused (Fat.with_volume Fat.not_mounted m) f.
Proof. intros E A m. unfold FatMount.refused, Fat.with_volume. rewrite E. by eexists. Qed.
Lemma fat_unmounted_read f : Fat.volume f = None -> forall A (m : FatTable.V A), Fat.ok (Fat.with_volume Fat.not_mounted m) f = (Ok None, f).
Proof. intros E A m. unfold Fat.ok, Fat.with_volume. by rewrite E. Qed.

#[export] Program Instance fat_safe : SafeFs Fat.fs := { sound := fat_sound }.
Next Obligation.
  intros f c Hs Hc Hr. destruct c as [| | | | p d | p d | p d | p | p]; try done; cbn [exec fat_fs create_file write_file append_file delete mkdir].
  1-3: destruct Hc as [_ [Hd _]].
  all: apply fat_change; [done | intros Hn; by apply fat_unmounted | |].
  all: intros v Hv G; try (apply (FatOps.keeps_mounted _ f v Hv G)).
  all: try (destruct (FatMount.fat_stopped_refuses env up low f v p [] Hv G) as (R1 & R2 & R3 & R4 & R5 & _); done).
  all: try (destruct (FatMount.fat_stopped_refuses env up low f v p d Hv G) as (R1 & R2 & R3 & R4 & R5 & _); done).
  - by apply FatOps.keeps_create.
  - by apply FatOps.keeps_overwrite.
  - by apply FatOps.keeps_append.
  - apply FatOps.keeps_delete.
  - apply FatOps.keeps_mkdir.
Qed.
Next Obligation.
  intros f c Hs Hc Hr. destruct c as [p | p | p | p | | | | |]; try done; cbn [exec fat_fs read_dir read_file metadata directory_id sectors].
  all: apply fat_read; [done | intros Hn; by apply fat_unmounted_read | intros v Hv G | intros v Hv Hf].
  all: try (destruct (FatOps.reads_all env up low f v p Hv G) as (R1 & R2 & R3 & R4); done).
  all: destruct (FatMount.fat_stopped_refuses env up low f v p [] Hv Hf) as (_ & _ & _ & _ & _ & R1 & R2 & R3 & R4); done.
Qed.
End FatFs.

(** * exFAT *)

Section ExfatFs.
Context (env : nat -> response).

#[export] Instance exfat_fs : FileSystem Exfat.fs := {
  read_dir p := Exfat.read_dir env (Shell.as_bytes p); read_file p := Exfat.read_file env (Shell.as_bytes p);
  metadata p := Exfat.metadata env (Shell.as_bytes p); directory_id p := Exfat.directory_id env (Shell.as_bytes p);
  create_file p := Exfat.create_file env (Shell.as_bytes p); write_file p := Exfat.write_file env (Shell.as_bytes p); append_file p := Exfat.append_file env (Shell.as_bytes p);
  delete p := Exfat.delete env (Shell.as_bytes p); mkdir p := Exfat.mkdir env (Shell.as_bytes p); sectors f := media (Exfat.device f) }.

(** Not mounted, or a volume that holds a tree, on a device that works. *)
Definition exfat_sound (f : Exfat.fs) : Prop :=
  match Exfat.volume f with
  | None => True
  | Some v => exists cap, cap * 512 < 2 ^ 62 /\ ExfatDisk.geometry v cap /\ ExfatDisk.working env cap (Exfat.device f)
      /\ exists kids, ExfatTree.volume_holds v (media (Exfat.device f)) kids
  end.

Lemma path_bytes p : path_ok p -> Forall (fun c => 0 < c < 256) (Shell.as_bytes p).
Proof.
  induction 1 as [| c p [Hc Hne] _ IH]; [constructor |]. change (Shell.as_bytes (c :: p)) with (Shell.encode_utf8 c ++ Shell.as_bytes p). apply Forall_app. split; [| done].
  unfold Shell.encode_utf8, Shell.is_char in *. repeat case_match; rewrite ?Z.ltb_lt, ?Z.ltb_ge in *; repeat constructor; zdiv.
Qed.

(** A call on the mounted volume, by what its body does to the medium. *)
Lemma exfat_call {A} (m : Exfat.Volume -> Exfat.X A) v d cap (Q : A -> gmap Z (list Z) -> Prop) (E : string -> gmap Z (list Z) -> Prop) none :
  ExfatDisk.geometry v cap -> cap * 512 < 2 ^ 62 -> ExfatDisk.working env cap d ->
  ExfatDisk.runs env True cap (m v) (media d) Q E ->
  (forall a mu, Q a mu -> exists kids, ExfatTree.volume_holds v mu kids) -> (forall e mu, E e mu -> exists kids, ExfatTree.volume_holds v mu kids) ->
  wp (_ ← Exfat.with_volume none m; mret Done) (Exfat.mkFs (Some v) d) (fun _ => exfat_sound) (fun _ => exfat_sound).
Proof.
  intros G Hcap W H HQ HE. apply wp_bind, ExfatOps.wp_with_volume. eapply wp_mono; [apply (H d eq_refl (fun _ => W)) | |].
  - intros a d' [W' Ha]. apply wp_ret. exists cap. split_and!; [done | done | by apply W' | by eapply HQ].
  - intros e d' [W' He]. exists cap. split_and!; [done | done | by apply W' | by eapply HE].
Qed.

(** The contents of a file fit the disk. *)
Lemma contents_small v cap mu kids path : ExfatDisk.geometry v cap -> ExfatTree.volume_holds v mu kids -> Z.of_nat (length (ExfatChange.contents v kids path)) <= cap * 512.
Proof.
  intros G V. pose proof (ExfatDisk.ge_cap _ _ G). pose proof (ExfatDisk.ge_fat _ _ G) as [? Hf]. pose proof (ExfatDisk.ge_count _ _ G). pose proof (ExfatDisk.ge_spc _ _ G).
  assert (0 <= ((Exfat.cluster_count v + 1) * 4) / 512) by (apply Z.div_pos; lia).
  unfold ExfatChange.contents, ExfatOps.tree_read. destruct (ExfatTree.find_node v kids path) as [[p n] |] eqn:Ef; [| cbn; nia].
  destruct n as [f old | f ks]; [| cbn; nia]. cbn [default]. destruct (ExfatChange.found_split v kids path p _ Ef) as (k1 & k2 & nm & Hp & _).
  destruct (ExfatChange.node_clusters v cap mu kids _ p k1 k2 _ G V (ExfatOps.parent_desc v mu kids path V p _ nm Hp)) as (Hnd & Hin & Hn & _). cbn [ExfatTree.owned ExfatTree.holds] in *.
  pose proof (ExfatTree.fh_room _ _ _ _ Hn) as Hr.
  assert (length (ExfatTree.fchain v mu f) <= Z.to_nat (Exfat.cluster_count v))%nat as Hl.
  { apply ExfatCreate.valid_length.
    - apply Forall_forall. intros c Hc. apply Hin. clear - Hc. set_solver.
    - apply NoDup_app in Hnd as (_ & _ & Hnd). by apply NoDup_app in Hnd as (? & _ & _). }
  unfold Exfat.cluster_bytes, Exfat.SECTOR in Hr. set (L := length (ExfatTree.fchain v mu f)) in *.
  assert (Z.of_nat (length old) <= Z.of_nat L * (Exfat.sectors_per_cluster v * 512)) by lia.
  assert (Z.of_nat L * (Exfat.sectors_per_cluster v * 512) <= Exfat.cluster_count v * (Exfat.sectors_per_cluster v * 512)) by (apply Z.mul_le_mono_nonneg_r; lia). unfold id. lia.
Qed.

Lemma still_there v kids path (m : gmap Z (list Z)) space : ExfatTree.volume_holds v m kids ->
  forall e mu', ExfatOps.add_error True v m kids path space e mu' -> exists kids', ExfatTree.volume_holds v mu' kids'.
Proof. intros V e mu' [H _]. exists kids. by apply H. Qed.
Lemma added_there v kids path mk (m : gmap Z (list Z)) : ExfatOps.added v kids path mk m -> exists kids', ExfatTree.volume_holds v m kids'.
Proof. intros (p & k1 & k2 & nm & f & _ & _ & _ & V). by eexists. Qed.
Lemma written_there sure v mu kids path data m : ExfatChange.written sure v mu kids path data m -> exists kids', ExfatTree.volume_holds v m kids'.
Proof. intros [(p & k1 & f & old & k2 & nm & f' & _ & _ & _ & V & _) | H]; [by eexists | by eapply added_there]. Qed.

#[export] Program Instance exfat_safe : SafeFs Exfat.fs := { sound := exfat_sound }.
Next Obligation.
  intros [ov d] c Hs Hc Hr. destruct ov as [v |].
  2: { destruct c; by try done. }
  destruct Hs as (cap & Hcap & G & W & kids & V). cbn [Exfat.device Exfat.volume] in *.
  destruct c as [| | | | p dat | p dat | p dat | p | p]; try done; cbn [call_ok exec exfat_fs create_file write_file append_file delete mkdir] in *.
  1-3: destruct Hc as [Hp [Hb Hl]].
  4-5: rename Hc into Hp.
  all: apply path_bytes in Hp.
  - eapply (exfat_call _ v d cap _ _ _ G Hcap W); [apply (ExfatOps.runs_create_in env True cap v (media d) kids (Shell.as_bytes p) dat G V Hp); split; [done | lia] | |].
    + intros ? ? H. exact (added_there _ _ _ _ _ H).
    + by apply (still_there v kids (Shell.as_bytes p) (media d)).
  - eapply (exfat_call _ v d cap _ _ _ G Hcap W); [apply (ExfatChange.runs_write_in env True cap v (media d) kids (Shell.as_bytes p) dat G V Hp); split; [done | lia] | |].
    + intros ? ? H. exact (written_there _ _ _ _ _ _ _ H).
    + intros e m [H _]. exists kids. by apply H.
  - eapply (exfat_call _ v d cap _ _ _ G Hcap W); [apply (ExfatChange.runs_append_in env True cap v (media d) kids (Shell.as_bytes p) dat G V Hp) | |].
    + split; [done |]. rewrite length_app. pose proof (contents_small v cap (media d) kids (Shell.as_bytes p) G V). lia.
    + intros ? ? [H | [H _]]; [exact (written_there _ _ _ _ _ _ _ H) | done].
    + intros e m [H _]. exists kids. by apply H.
  - eapply (exfat_call _ v d cap _ _ _ G Hcap W); [apply (ExfatChange.runs_delete_in env True cap v (media d) kids (Shell.as_bytes p) G V) | |].
    + intros ? m (q & k1 & n & k2 & nm & _ & _ & _ & V' & _). by eexists.
    + intros e m [H _]. exists kids. by rewrite (proj2 (H I)).
  - eapply (exfat_call _ v d cap _ _ _ G Hcap W); [by apply (ExfatOps.runs_mkdir env True cap v (media d) kids (Shell.as_bytes p) G V) | |].
    + intros ? ? H. exact (added_there _ _ _ _ _ H).
    + by apply (still_there v kids (Shell.as_bytes p) (media d)).
Qed.
Next Obligation.
  intros [ov d] c Hs Hc Hr. destruct ov as [v |].
  2: { destruct c; by try done. }
  destruct Hs as (cap & Hcap & G & W & kids & V). cbn [Exfat.device Exfat.volume] in *.
  assert (forall A (m : Exfat.Volume -> Exfat.X (option A)) (k : option A -> reply) answer,
    (forall Q E, Q answer (media d) -> (~ True -> Q None (media d)) -> ExfatDisk.runs env True cap (m v) (media d) Q E) ->
    wp (r ← Exfat.with_volume (Ok None) m; mret (k r)) (Exfat.mkFs (Some v) d) (fun _ s' => exfat_sound s' /\ media (Exfat.device s') = media d) (fun _ _ => False)) as Hread.
  { intros A m k answer H. apply wp_bind, ExfatOps.wp_with_volume.
    eapply wp_mono; [apply (H (fun _ mu => mu = media d) (fun _ _ => False) eq_refl (fun _ => eq_refl) d eq_refl (fun _ => W)) | | by intros ? ? []].
    intros a d' [W' E]. apply wp_ret. split; [| done]. exists cap. cbn. rewrite E. split_and!; [done | done | by apply W' | by eexists]. }
  destruct c as [p | p | p | p | | | | |]; try done; cbn [exec exfat_fs read_dir read_file metadata directory_id sectors Exfat.device].
  - eapply Hread. intros Q E HS HN. by apply (ExfatOps.runs_list_path _ _ _ _ _ kids).
  - eapply Hread. intros Q E HS HN. by apply (ExfatOps.runs_read_path _ _ _ _ _ kids).
  - eapply Hread. intros Q E HS HN. by apply (ExfatOps.runs_meta_path _ _ _ _ _ kids).
  - eapply Hread. intros Q E HS HN. by apply (ExfatOps.runs_id_path _ _ _ _ _ kids).
Qed.
End ExfatFs.

(** * The front end *)

Module Fs.
(** The mounted volumes of the two filesystems, over the one block device. *)
Record state := mkState { fat : option FatTable.Volume; exfat : option Exfat.Volume; disk : BlkDevice }.
Definition fat_of (k : state) : Fat.fs := Fat.mkFs (fat k) (disk k).
Definition exfat_of (k : state) : Exfat.fs := Exfat.mkFs (exfat k) (disk k).
Definition on_fat {A} (m : M Fat.fs A) : M state A := fun k =>
  let '(r, f) := m (fat_of k) in (r, mkState (Fat.volume f) (exfat k) (Fat.device f)).
Definition on_exfat {A} (m : M Exfat.fs A) : M state A := fun k =>
  let '(r, f) := m (exfat_of k) in (r, mkState (fat k) (Exfat.volume f) (Exfat.device f)).
(** [if fat::mounted() { a } else { b }]. *)
Definition dispatch {A} (a : M Fat.fs A) (b : M Exfat.fs A) : M state A := fun k =>
  if Fat.mounted (fat_of k) then on_fat a k else on_exfat b k.

Section Front.
Context (env : nat -> response) (up low : Z -> str).
Existing Instances fat_fs exfat_fs.
#[local] Instance fat_here : FileSystem Fat.fs := fat_fs env up low.
#[local] Instance exfat_here : FileSystem Exfat.fs := exfat_fs env.

Definition read_dir (path : str) : M state (option (list (str * bool * Z))) := dispatch (Iface.read_dir path) (Iface.read_dir path).
Definition read_file (path : str) : M state (option (list Z)) := dispatch (Iface.read_file path) (Iface.read_file path).
Definition metadata (path : str) : M state (option (bool * Z)) := dispatch (Iface.metadata path) (Iface.metadata path).
Definition directory_id (path : str) : M state (option Z) := dispatch (Iface.directory_id path) (Iface.directory_id path).
Definition create_file (path : str) (data : list Z) : M state unit := dispatch (Iface.create_file path data) (Iface.create_file path data).
Definition write_file (path : str) (data : list Z) : M state unit := dispatch (Iface.write_file path data) (Iface.write_file path data).
Definition append_file (path : str) (data : list Z) : M state unit := dispatch (Iface.append_file path data) (Iface.append_file path data).
Definition delete (path : str) : M state unit := dispatch (Iface.delete path) (Iface.delete path).
Definition mkdir (path : str) : M state unit := dispatch (Iface.mkdir path) (Iface.mkdir path).

#[export] Instance front_fs : FileSystem state := {
  Iface.read_dir := read_dir; Iface.read_file := read_file; Iface.metadata := metadata; Iface.directory_id := directory_id;
  Iface.create_file := create_file; Iface.write_file := write_file; Iface.append_file := append_file;
  Iface.delete := delete; Iface.mkdir := mkdir; Iface.sectors k := media (disk k) }.

(** The filesystem that answers keeps its promise. *)
Definition front_sound (k : state) : Prop :=
  if Fat.mounted (fat_of k) then fat_sound (fat_of k) else exfat_sound env (exfat_of k).

Lemma dispatch_ret {A B} (f : A -> B) (a : M Fat.fs A) (b : M Exfat.fs A) k :
  (x ← dispatch a b; mret (f x)) k = dispatch (x ← a; mret (f x)) (x ← b; mret (f x)) k.
Proof.
  unfold dispatch, mbind, M_bind, mret, M_ret, on_fat, on_exfat. destruct (Fat.mounted (fat_of k)).
  - by destruct (a (fat_of k)) as [[r | e |] g].
  - by destruct (b (exfat_of k)) as [[r | e |] g].
Qed.
Lemma exec_dispatch c k : exec c k = dispatch (exec c) (exec c) k.
Proof. destruct c; apply dispatch_ret. Qed.
(** A mounted FAT volume stays mounted. *)
Lemma fat_mounted_stays c f : Fat.mounted f = true -> Fat.mounted (exec c f).2 = true.
Proof.
  assert (forall A (m : FatTable.V A) none, Fat.mounted f = true -> Fat.mounted (Fat.with_volume none m f).2 = true) as H.
  { intros A m none. unfold Fat.mounted, Fat.with_volume. destruct (Fat.volume f) as [v |]; [| done]. by destruct (m _) as [r s]. }
  assert (forall A B (m : M Fat.fs A) (g : A -> B), Fat.mounted (m f).2 = true -> Fat.mounted ((x ← m; mret (g x)) f).2 = true) as Hb.
  { intros A B m g. unfold mbind, M_bind. by destruct (m f) as [[a | e |] f']. }
  assert (forall A (m : M Fat.fs A), Fat.mounted (m f).2 = true -> Fat.mounted (Fat.ok m f).2 = true) as Ho.
  { intros A m. unfold Fat.ok. by destruct (m f) as [[a | e |] f']. }
  intros Hm. destruct c; apply Hb; try (apply Ho); by apply H.
Qed.
Lemma fat_unmounted_stays {A} (m : M Exfat.fs A) k : Fat.mounted (fat_of k) = false -> Fat.mounted (fat_of (on_exfat m k).2) = false.
Proof. unfold on_exfat. by destruct (m (exfat_of k)) as [r f]. Qed.

Lemma dispatch_wp {A} (a : M Fat.fs A) (b : M Exfat.fs A) k (Q : A -> state -> Prop) (E : string -> state -> Prop) :
  (Fat.mounted (fat_of k) = true -> wp a (fat_of k) (fun r f => Q r (mkState (Fat.volume f) (exfat k) (Fat.device f))) (fun e f => E e (mkState (Fat.volume f) (exfat k) (Fat.device f)))) ->
  (Fat.mounted (fat_of k) = false -> wp b (exfat_of k) (fun r f => Q r (mkState (fat k) (Exfat.volume f) (Exfat.device f))) (fun e f => E e (mkState (fat k) (Exfat.volume f) (Exfat.device f)))) ->
  wp (dispatch a b) k Q E.
Proof.
  intros Ha Hb. unfold wp, dispatch in *. destruct (Fat.mounted (fat_of k)).
  - specialize (Ha eq_refl). unfold on_fat. by destruct (a (fat_of k)) as [[r | e |] f].
  - specialize (Hb eq_refl). unfold on_exfat. by destruct (b (exfat_of k)) as [[r | e |] f].
Qed.
Lemma wp_also {S A} (m : M S A) s (Q : A -> S -> Prop) (E : string -> S -> Prop) (R : S -> Prop) : wp m s Q E -> R (m s).2 ->
  wp m s (fun a s' => Q a s' /\ R s') (fun e s' => E e s' /\ R s').
Proof. unfold wp. by destruct (m s) as [[a | e |] s']. Qed.
Lemma sound_fat k f : Fat.mounted f = true -> fat_sound f -> front_sound (mkState (Fat.volume f) (exfat k) (Fat.device f)).
Proof. intros Hm Hs. unfold front_sound. destruct f as [v d]. unfold fat_of. cbn in *. by rewrite Hm. Qed.
Lemma sound_exfat k f : Fat.mounted (fat_of k) = false -> exfat_sound env f -> front_sound (mkState (fat k) (Exfat.volume f) (Exfat.device f)).
Proof. intros Hm Hs. unfold front_sound. destruct f as [v d]. unfold fat_of, Fat.mounted in *. cbn in *. by rewrite Hm. Qed.

#[export] Program Instance front_safe : SafeFs state := { sound := front_sound }.
Next Obligation.
  intros k c Hs Hc Hr. unfold wp. rewrite exec_dispatch. apply dispatch_wp; intros Hm; unfold front_sound in Hs; rewrite Hm in Hs.
  - eapply wp_mono; [eapply (wp_also _ _ _ _ (fun f => Fat.mounted f = true)); [by apply (changes_sound (SafeFs := fat_safe env up low)) | by apply fat_mounted_stays] | |]; cbn; intros ? f [? ?]; by apply sound_fat.
  - eapply wp_mono; [by apply (changes_sound (SafeFs := exfat_safe env)) | |]; cbn; intros ? f ?; by apply sound_exfat.
Qed.
Next Obligation.
  intros k c Hs Hc Hr. unfold wp. rewrite exec_dispatch. apply dispatch_wp; intros Hm; unfold front_sound in Hs; rewrite Hm in Hs.
  - eapply wp_mono; [eapply (wp_also _ _ _ _ (fun f => Fat.mounted f = true)); [by apply (reads_sound (SafeFs := fat_safe env up low)) | by apply fat_mounted_stays] | |]; cbn.
    + intros ? f [[? ?] ?]. split; [by apply sound_fat | done].
    + by intros ? f [? ?].
  - eapply wp_mono; [by apply (reads_sound (SafeFs := exfat_safe env)) | |]; cbn; [| done]. intros ? f [? ?]. split; [by apply sound_exfat | done].
Qed.
End Front.

(** C21. Sessions on the kernel's filesystem are safe: from a state in which the mounted
    filesystem is sound (a FAT volume consistent or stopped, on any device; otherwise an
    exFAT volume that holds a tree, on a device that works), any sequence of calls, with paths
    that hold no NUL character and data below 2^62 bytes, answers every call, never panics, and ends in such a state; calls that
    only read leave every sector of the disk as it was. *)
Theorem fs_session_safe env up low calls k : front_sound env k -> Forall call_ok calls ->
  let '(replies, k') := session (H := front_fs env up low) calls k in
  front_sound env k' /\ (Panic ∉ replies) /\ length replies = length calls /\ (Forall (fun c => reading c = true) calls -> media (disk k') = media (disk k)).
Proof.
  intros Hs Hc. pose proof (session_safe (S := state) (H := front_fs env up low) (H0 := front_safe env up low) calls k Hs Hc) as H.
  by destruct (session calls k) as [replies k'].
Qed.

(** The example exFAT volume behind the front end. *)
Definition demo_fs : state := mkState None (Some ExfatBitmap.demo_volume) Exfat.demo_disk.
Definition demo_calls : list call := [Create (lit "A") [1; 2]; Append (lit "A") [3]; Create (lit "A") []; ReadFile (lit "A"); Delete (lit "A"); ReadFile (lit "A")].
Lemma demo_path_fine : path_ok (lit "A").
Proof. constructor; [| constructor]. split; [left; vm_compute; split; [discriminate | reflexivity] | discriminate]. Qed.
Lemma demo_calls_ok : Forall call_ok demo_calls.
Proof.
  assert (forall d, Forall is_byte d -> (length d <= 2)%nat -> data_ok d) as Hd by (intros d H1 H2; split; [done | lia]).
  repeat (constructor; [first [exact demo_path_fine | split; [exact demo_path_fine | apply Hd; [repeat (constructor; [unfold is_byte; lia |]); constructor | cbn; lia]]] |]).
  constructor.
Qed.
Lemma fs_session_safe_witness :
  (session (H := front_fs Exfat.demo_env (fun c => [c]) (fun c => [c])) demo_calls demo_fs).1 = [Ok Done; Ok Done; Err "already exists"%string; Ok (Bytes (Some [1; 2; 3])); Ok Done; Ok (Bytes None)]
  /\ let '(replies, k') := session (H := front_fs Exfat.demo_env (fun c => [c]) (fun c => [c])) demo_calls demo_fs in
  front_sound Exfat.demo_env k' /\ (Panic ∉ replies) /\ length replies = length demo_calls /\ (Forall (fun c => reading c = true) demo_calls -> media (disk k') = media (disk demo_fs)).
Proof.
  split; [vm_compute; reflexivity |]. assert (front_sound Exfat.demo_env demo_fs) as Hs.
  { exists 22. split; [lia |]. split; [exact ExfatBitmap.demo_geometry |]. split; [exact ExfatOps.demo_working |]. exists []. exact ExfatOps.demo_holds. }
  exact (fs_session_safe Exfat.demo_env (fun c => [c]) (fun c => [c]) demo_calls demo_fs Hs demo_calls_ok).
Defined.
End Fs.
