(* ===== verification/Fdt.v ===== *)
(** The flattened device tree parser (src/arch/arm64/fdt.rs): one pass over the firmware's
    blob that finds RAM, CPUs, the interrupt controller, the UART, the timer, PCIe and the
    virtio transports. *)

From Stdlib Require Import ZArith Lia.
From stdpp Require Import base list list_numbers numbers decidable tactics strings.
From S2P Require Import Prelude Records FatNames.
Import FatNames.

Module Fdt.

Definition FDT_MAGIC : Z := 0xd00dfeed.
Definition FDT_BEGIN_NODE : Z := 1.
Definition FDT_END_NODE : Z := 2.
Definition FDT_PROP : Z := 3.
Definition FDT_NOP : Z := 4.
Definition FDT_END : Z := 9.
Definition MAX_CPUS : nat := 64.
Definition MAX_RAM : nat := 4.
Definition MAX_VIRTIO : nat := 32.
Definition MAX_RESERVED : nat := 8.
Definition DEPTH : nat := 16.

Inductive PsciConduit := NoConduit | Hvc | Smc.
Inductive IrqChip := Gic (version : Z) | Bcm2836.
#[global] Instance PsciConduit_eq_dec : EqDecision PsciConduit.
Proof. solve_decision. Defined.

Record PciHost := mkPciHost { ecam : Z; ecam_size : Z; bus_start : Z; bus_end : Z; io : Z * Z * Z; mem32 : Z * Z * Z }.
#[export] Instance PciHost_eta : Eta PciHost := fun h => mkPciHost (ecam h) (ecam_size h) (bus_start h) (bus_end h) (io h) (mem32 h).

Record MachineInfo := mkInfo {
  rng_seed : Z * Z; kaslr_seed : Z * Z; bootargs : list Z; bootargs_len : nat; ram : list (Z * Z); ram_count : nat;
  reserved : list (Z * Z); reserved_count : nat; cpus : list Z; cpu_release : list Z; cpu_count : nat; psci : PsciConduit;
  irqchip : IrqChip; gicd : Z; gicc : Z; gicr : Z; gicr_size : Z; local_intc : Z; armctrl : Z; uart : Z; uart_found : bool;
  uart_irq : Z; timer_irq : Z; virtio : list Z; virtio_count : nat; pci : option PciHost }.
#[export] Instance MachineInfo_eta : Eta MachineInfo := fun i =>
  mkInfo (rng_seed i) (kaslr_seed i) (bootargs i) (bootargs_len i) (ram i) (ram_count i) (reserved i) (reserved_count i) (cpus i) (cpu_release i)
    (cpu_count i) (psci i) (irqchip i) (gicd i) (gicc i) (gicr i) (gicr_size i) (local_intc i) (armctrl i) (uart i) (uart_found i) (uart_irq i)
    (timer_irq i) (virtio i) (virtio_count i) (pci i).
Definition qemu_virt_defaults : MachineInfo :=
  mkInfo (0, 0) (0, 0) (replicate 512 0) 0 (replicate MAX_RAM (0, 0)) 0 (replicate MAX_RESERVED (0, 0)) 0 (replicate MAX_CPUS 0) (replicate MAX_CPUS 0)
    0 NoConduit (Gic 2) 0x08000000 0x08010000 0 0 0 0 0x09000000 false 33 27 (replicate MAX_VIRTIO 0) 0 None.

(** * Reading the blob *)

(** A loop that cannot end. *)
Inductive stuck := Forever.
Definition R := outcome stuck.
(** Sums of machine words; overflow panics. *)
Definition add (w a b : Z) : R Z := if a + b <? 2 ^ w then Ok (a + b) else Panic.
Definition mul (w a b : Z) : R Z := if a * b <? 2 ^ w then Ok (a * b) else Panic.

Section Blob.
Context (b : list Z).
Abbreviation len := (Z.of_nat (length b)).

Definition from_be (bs : list Z) : Z := foldl (fun v x => v * 256 + x) 0 bs.
Definition be32 (off : Z) : R Z :=
  if off + 4 <=? len then Ok (from_be (take 4 (drop (Z.to_nat off) b))) else Panic.
Fixpoint read_cells_from (v off : Z) (cells : nat) : R Z :=
  match cells with
  | O => Ok v
  | S cells' => x ← be32 off; read_cells_from (Z.lor (Z.shiftl v 32 mod 2 ^ 64) x) (off + 4) cells'
  end.
Definition read_cells (off cells : Z) : R Z := read_cells_from 0 off (Z.to_nat cells).
Fixpoint until_nul (l : list Z) : list Z :=
  match l with [] => [] | x :: l' => if x =? 0 then [] else x :: until_nul l' end.
Definition cstr (off : Z) : R (list Z) :=
  if off <=? len then Ok (until_nul (drop (Z.to_nat off) b)) else Panic.
(** [&b[off..off + n]]. *)
Definition slice (off n : Z) : R (list Z) :=
  if off + n <=? len then Ok (take (Z.to_nat n) (drop (Z.to_nat off) b)) else Panic.
End Blob.
Arguments from_be bs : simpl never.

(** [list.split(|&c| c == 0)]. *)
Fixpoint split_nul (cur l : list Z) : list (list Z) :=
  match l with
  | [] => [cur]
  | x :: l' => if x =? 0 then cur :: split_nul [] l' else split_nul (cur ++ [x]) l'
  end.
Definition strlist_contains (l : list Z) (want : string) : bool :=
  existsb (fun s => bool_decide (s = lit want)) (split_nul [] l).
Definition starts_with (l : list Z) (want : string) : bool := bool_decide (take (length (lit want)) l = lit want).

(** * Nodes *)

Record Node := mkNode {
  child_addr_cells : Z; child_size_cells : Z; is_cpu : bool; is_chosen : bool; is_memory : bool; is_gic : bool; is_gicv3 : bool; is_pcie : bool;
  is_uart : bool; is_virtio : bool; is_timer : bool; is_psci : bool; is_local_intc : bool; is_armctrl : bool; spin_table : bool;
  has_ranges : bool; ranges_off : Z; ranges_len : Z; busrange_off : Z; busrange_len : Z; method : PsciConduit; release_addr : Z;
  reg_off : Z; reg_len : Z; irq_off : Z; irq_len : Z; status_ok : bool }.
#[export] Instance Node_eta : Eta Node := fun n =>
  mkNode (child_addr_cells n) (child_size_cells n) (is_cpu n) (is_chosen n) (is_memory n) (is_gic n) (is_gicv3 n) (is_pcie n) (is_uart n) (is_virtio n)
    (is_timer n) (is_psci n) (is_local_intc n) (is_armctrl n) (spin_table n) (has_ranges n) (ranges_off n) (ranges_len n) (busrange_off n)
    (busrange_len n) (method n) (release_addr n) (reg_off n) (reg_len n) (irq_off n) (irq_len n) (status_ok n).
Definition new_node : Node :=
  mkNode 2 1 false false false false false false false false false false false false false false 0 0 0 0 NoConduit 0 0 0 0 0 true.

Section Nodes.
Context (b : list Z).

Definition decode_irq (off cells : Z) : R Z :=
  if cells =? 3 then
    kind ← be32 b off; num ← be32 b (off + 4);
    if kind =? 1 then add 32 num 16 else add 32 num 32
  else if cells =? 2 then bank ← be32 b off; num ← be32 b (off + 4); x ← mul 32 bank 32; add 32 x num
  else be32 b off.

(** The windows of one [ranges] property; [fuel] is used up only when an entry has no size. *)
Fixpoint windows (fuel : nat) (cac pac csc entry o end_ addr : Z) : R Z :=
  match fuel with
  | O => Err Forever
  | S fuel' =>
      if o + entry <=? end_ then
        child ← read_cells b o cac;
        parent ← read_cells b (o + 4 * cac) pac;
        s ← add 32 cac pac;
        size ← read_cells b (o + 4 * s) csc;
        if (child <=? addr) && (addr - child <? size) then add 64 parent (addr - child)
        else windows fuel' cac pac csc entry (o + entry) end_ addr
      else Ok addr
  end.
(** [stack[k - 1]] is the head of [rev]: the stack from the innermost bus outwards. *)
Fixpoint translate_from (rev : list Node) (addr : Z) : R Z :=
  match rev with
  | bus :: ((up :: _) as rest) =>
      if negb (has_ranges bus) then Ok addr
      else
        addr ← (if 0 <? ranges_len bus then
                  s ← add 32 (child_addr_cells bus) (child_addr_cells up);
                  s ← add 32 s (child_size_cells bus);
                  windows (S (Z.to_nat (ranges_len bus))) (child_addr_cells bus) (child_addr_cells up) (child_size_cells bus)
                    (4 * s) (ranges_off bus) (ranges_off bus + ranges_len bus) addr
                else Ok addr);
        translate_from rest addr
  | _ => Ok addr
  end.
Definition translate (stack : list Node) (depth : nat) (addr : Z) : R Z := translate_from (rev (take depth stack)) addr.

(** * A node is complete *)

Section Close.
Context (stack : list Node) (depth : nat) (n : Node) (ac sc entry : Z).
(** [reg[i]] of the node, as a CPU address, and its size. *)
Definition reg_addr (i : Z) : R Z := a ← read_cells b (reg_off n + i * entry) ac; translate stack depth a.
Definition reg_size (i : Z) : R Z := read_cells b (reg_off n + i * entry + 4 * ac) sc.

(** [fuel] is used up only when an entry has no size and no region is added. *)
Fixpoint ram_loop (fuel : nat) (i : Z) (info : MachineInfo) : R MachineInfo :=
  match fuel with
  | O => Err Forever
  | S fuel' =>
      if ((i + 1) * entry <=? reg_len n) && (ram_count info <? MAX_RAM)%nat then
        base ← reg_addr i;
        len ← reg_size i;
        ram_loop fuel' (i + 1)
          (if 0 <? len then info <| ram := <[ram_count info := (base, len)]> (ram info) |> <| ram_count := S (ram_count info) |> else info)
      else Ok info
  end.

Fixpoint pci_ranges (fuel : nat) (rentry o : Z) (host : PciHost) : R PciHost :=
  match fuel with
  | O => Err Forever
  | S fuel' =>
      if (child_addr_cells n =? 3) && (o + rentry <=? ranges_off n + ranges_len n) then
        hi ← be32 b o;
        pci ← read_cells b (o + 4) 2;
        cpu ← read_cells b (o + 12) ac;
        size ← read_cells b (o + 12 + 4 * ac) (child_size_cells n);
        let space := Z.land (Z.shiftr hi 24) 3 in
        pci_ranges fuel' rentry (o + rentry)
          (if space =? 1 then host <| io := (cpu, pci, size) |> else if space =? 2 then host <| mem32 := (cpu, pci, size) |> else host)
      else Ok host
  end.
Definition pci_host : R PciHost :=
  ecam ← reg_addr 0;
  ecam_size ← reg_size 0;
  let host := mkPciHost ecam ecam_size 0 255 (0, 0, 0) (0, 0, 0) in
  host ← (if 8 <=? busrange_len n then
            s ← be32 b (busrange_off n); e ← be32 b (busrange_off n + 4);
            Ok (host <| bus_start := s mod 256 |> <| bus_end := e mod 256 |>)
          else Ok host);
  r ← add 32 (child_addr_cells n) ac;
  r ← add 32 r (child_size_cells n);
  pci_ranges (S (Z.to_nat (ranges_len n))) (4 * r) (ranges_off n) host.

(** What the node tells about the machine: the [if ... else if] chain. *)
Definition record_node (info : MachineInfo) (have_gic : bool) : R (MachineInfo * bool) :=
  if is_memory n && (entry <=? reg_len n) then
    info ← ram_loop (S (Z.to_nat (reg_len n)) + MAX_RAM) 0 info; Ok (info, have_gic)
  else if is_cpu n && (4 * ac <=? reg_len n) then
    if (cpu_count info <? MAX_CPUS)%nat then
      id ← read_cells b (reg_off n) ac;
      Ok (info <| cpus := <[cpu_count info := id]> (cpus info) |>
            <| cpu_release := <[cpu_count info := if spin_table n then release_addr n else 0]> (cpu_release info) |>
            <| cpu_count := S (cpu_count info) |>, have_gic)
    else Ok (info, have_gic)
  else if is_pcie n && (entry <=? reg_len n) then
    host ← pci_host; Ok (info <| pci := Some host |>, have_gic)
  else if is_gicv3 n && (2 * entry <=? reg_len n) then
    d ← reg_addr 0; r ← reg_addr 1; rs ← reg_size 1;
    Ok (info <| irqchip := Gic 3 |> <| gicd := d |> <| gicr := r |> <| gicr_size := rs |>, true)
  else if is_gic n && (2 * entry <=? reg_len n) then
    d ← reg_addr 0; c ← reg_addr 1;
    Ok (info <| irqchip := Gic 2 |> <| gicd := d |> <| gicc := c |>, true)
  else if is_local_intc n && (entry <=? reg_len n) then
    l ← reg_addr 0;
    let info := info <| local_intc := l |> in
    Ok (if negb have_gic then info <| irqchip := Bcm2836 |> else info, have_gic)
  else if is_armctrl n && (entry <=? reg_len n) then
    a ← reg_addr 0; Ok (info <| armctrl := a |>, have_gic)
  else if is_uart n && (entry <=? reg_len n) && negb (uart_found info) then
    u ← reg_addr 0;
    let info := info <| uart := u |> in
    info ← (if 8 <=? irq_len n then irq ← decode_irq (irq_off n) (irq_len n / 4); Ok (info <| uart_irq := irq |>) else Ok info);
    Ok (info <| uart_found := true |>, have_gic)
  else if is_virtio n && (entry <=? reg_len n) && (virtio_count info <? MAX_VIRTIO)%nat then
    a ← reg_addr 0;
    Ok (info <| virtio := <[virtio_count info := a]> (virtio info) |> <| virtio_count := S (virtio_count info) |>, have_gic)
  else if is_timer n && (16 <=? irq_len n) && (irq_len n mod 16 =? 0) then
    let cells := irq_len n / 16 in
    irq ← decode_irq (irq_off n + 2 * 4 * cells) cells; Ok (info <| timer_irq := irq |>, have_gic)
  else Ok (info, have_gic).
End Close.

(** [FDT_END_NODE] for the node at [stack[depth]]. *)
Definition close_node (stack : list Node) (depth : nat) (info : MachineInfo) (have_gic : bool) : R (MachineInfo * bool) :=
  n ← unwrap (stack !! depth);
  parent ← (if (0 <? depth)%nat then unwrap (stack !! (depth - 1)%nat) else Ok new_node);
  let ac := child_addr_cells parent in
  let sc := child_size_cells parent in
  e ← add 32 ac sc;
  if negb (status_ok n) then Ok (info, have_gic)
  else
    let info := if is_psci n && bool_decide (method n <> NoConduit) then info <| psci := method n |> else info in
    record_node stack depth n ac sc (4 * e) info have_gic.

(** * Properties *)

Definition set_compatible (v : list Z) (n : Node) : Node :=
  let has s := strlist_contains v s in
  n <| is_gic := is_gic n || (has "arm,cortex-a15-gic" || has "arm,gic-400") |>
    <| is_uart := is_uart n || has "arm,pl011" |>
    <| is_virtio := is_virtio n || has "virtio,mmio" |>
    <| is_timer := is_timer n || (has "arm,armv8-timer" || has "arm,armv7-timer") |>
    <| is_psci := is_psci n || (has "arm,psci-1.0" || has "arm,psci-0.2" || has "arm,psci") |>
    <| is_gicv3 := is_gicv3 n || has "arm,gic-v3" |>
    <| is_pcie := is_pcie n || has "pci-host-ecam-generic" |>
    <| is_local_intc := is_local_intc n || has "brcm,bcm2836-l1-intc" |>
    <| is_armctrl := is_armctrl n || has "brcm,bcm2836-armctrl-ic" |>.
Definition is_str (s : list Z) (want : string) : bool := bool_decide (s = lit want).
(** [FDT_PROP] of the current node: what [name] with the [len] bytes [v] at [val] says. *)
Definition set_prop (addr : Z) (name : list Z) (val len : Z) (v : list Z) (n : Node) (info : MachineInfo) : R (Node * MachineInfo) :=
  let on (f : Node) : R (Node * MachineInfo) := Ok (f, info) in
  if is_str name "rng-seed" && is_chosen n && (len <=? 4096) then a ← add 64 addr val; Ok (n, info <| rng_seed := (a, len) |>)
  else if is_str name "kaslr-seed" && is_chosen n && (len =? 8) then a ← add 64 addr val; Ok (n, info <| kaslr_seed := (a, len) |>)
  else if is_str name "bootargs" && is_chosen n then
    let l := length (until_nul v) in
    Ok (n, if (l <=? length (bootargs info))%nat
           then info <| bootargs := take l v ++ drop l (bootargs info) |> <| bootargs_len := l |> else info)
  else if is_str name "#address-cells" && (len =? 4) then x ← be32 b val; on (n <| child_addr_cells := x |>)
  else if is_str name "#size-cells" && (len =? 4) then x ← be32 b val; on (n <| child_size_cells := x |>)
  else if is_str name "reg" then on (n <| reg_off := val |> <| reg_len := len |>)
  else if is_str name "ranges" then on (n <| has_ranges := true |> <| ranges_off := val |> <| ranges_len := len |>)
  else if is_str name "bus-range" then on (n <| busrange_off := val |> <| busrange_len := len |>)
  else if is_str name "interrupts" then on (n <| irq_off := val |> <| irq_len := len |>)
  else if is_str name "status" then s ← cstr b val; on (n <| status_ok := is_str s "okay" || is_str s "ok" |>)
  else if is_str name "device_type" then
    s ← cstr b val; on (n <| is_cpu := is_cpu n || is_str s "cpu" |> <| is_memory := is_memory n || is_str s "memory" |>)
  else if is_str name "method" then
    s ← cstr b val; on (n <| method := if is_str s "hvc" then Hvc else if is_str s "smc" then Smc else NoConduit |>)
  else if is_str name "enable-method" then s ← cstr b val; on (n <| spin_table := is_str s "spin-table" |>)
  else if is_str name "cpu-release-addr" && (len =? 8) then x ← read_cells b val 2; on (n <| release_addr := x |>)
  else if is_str name "cpu-release-addr" && (len =? 4) then x ← be32 b val; on (n <| release_addr := x |>)
  else if is_str name "compatible" then on (set_compatible v n)
  else on n.

(** * The walk *)

Record Walk := mkWalk { w_info : MachineInfo; w_stack : list Node; w_depth : nat; w_p : Z; w_gic : bool }.
#[export] Instance Walk_eta : Eta Walk := fun w => mkWalk (w_info w) (w_stack w) (w_depth w) (w_p w) (w_gic w).

Definition begin_node (w : Walk) : R Walk :=
  name ← cstr b (w_p w);
  let n := new_node <| is_chosen := (w_depth w =? 1)%nat && is_str name "chosen" |>
             <| is_memory := starts_with name "memory" |> <| is_cpu := starts_with name "cpu@" |> in
  let w := w <| w_p := align_down (w_p w + Z.of_nat (length name) + 1 + 3) 4 |> in
  let w := if (w_depth w <? DEPTH)%nat then w <| w_stack := <[w_depth w := n]> (w_stack w) |> else w in
  Ok (w <| w_depth := S (w_depth w) |>).
Definition prop (addr off_strings : Z) (w : Walk) : R Walk :=
  len ← be32 b (w_p w);
  nameoff ← be32 b (w_p w + 4);
  let val := w_p w + 8 in
  let w := w <| w_p := align_down (val + len + 3) 4 |> in
  if (w_depth w =? 0)%nat || (DEPTH <? w_depth w)%nat then Ok w
  else
    name ← cstr b (off_strings + nameoff);
    n ← unwrap (w_stack w !! (w_depth w - 1)%nat);
    v ← slice b val len;
    '(n, info) ← set_prop addr name val len v n (w_info w);
    Ok (w <| w_stack := <[(w_depth w - 1)%nat := n]> (w_stack w) |> <| w_info := info |>).
Definition end_node (w : Walk) : R Walk :=
  let w := w <| w_depth := (w_depth w - 1)%nat |> in
  if (DEPTH <=? w_depth w)%nat then Ok w
  else '(info, gic) ← close_node (w_stack w) (w_depth w) (w_info w) (w_gic w); Ok (w <| w_info := info |> <| w_gic := gic |>).

(** Every token takes four bytes of the blob, so [fuel] exceeds the tokens there are. *)
Fixpoint walk (fuel : nat) (addr off_strings : Z) (w : Walk) : R MachineInfo :=
  match fuel with
  | O => Err Forever
  | S fuel' =>
      token ← be32 b (w_p w);
      let w := w <| w_p := w_p w + 4 |> in
      if token =? FDT_BEGIN_NODE then w ← begin_node w; walk fuel' addr off_strings w
      else if token =? FDT_END_NODE then
        if (w_depth w =? 0)%nat then Ok (w_info w) else w ← end_node w; walk fuel' addr off_strings w
      else if token =? FDT_PROP then w ← prop addr off_strings w; walk fuel' addr off_strings w
      else if token =? FDT_NOP then walk fuel' addr off_strings w
      else Ok (w_info w)
  end.

(** The memory reservation block, up to (0, 0) or [MAX_RESERVED] entries. *)
Fixpoint reservations (room : nat) (o : Z) (info : MachineInfo) : R MachineInfo :=
  match room with
  | O => Ok info
  | S room' =>
      if o + 16 <=? Z.of_nat (length b) then
        base ← read_cells b o 2;
        len ← read_cells b (o + 8) 2;
        if (base =? 0) && (len =? 0) then Ok info
        else reservations room' (o + 16)
               (info <| reserved := <[reserved_count info := (base, len)]> (reserved info) |> <| reserved_count := S (reserved_count info) |>)
      else Ok info
  end.

Definition parse_blob (addr : Z) : R MachineInfo :=
  off_struct ← be32 b 8;
  off_strings ← be32 b 12;
  off_rsvmap ← be32 b 16;
  info ← reservations MAX_RESERVED off_rsvmap qemu_virt_defaults;
  walk (S (length b)) addr off_strings (mkWalk info (replicate DEPTH new_node) 0 off_struct false).
End Nodes.

(** * Entry points: the bytes of memory from [addr] on *)

Definition bytes (mem : Z -> Z) (addr n : Z) : list Z := map mem (seqZ addr n).
Definition is_valid (mem : Z -> Z) (addr : Z) : R bool :=
  if (addr =? 0) || negb (addr mod 4 =? 0) then Ok false
  else m ← be32 (bytes mem addr 8) 0; Ok (m =? FDT_MAGIC).
Definition total_size (mem : Z -> Z) (addr : Z) : R Z := be32 (bytes mem addr 8) 4.
Definition parse (mem : Z -> Z) (addr : Z) : R MachineInfo :=
  size ← total_size mem addr; parse_blob (bytes mem addr size) addr.
End Fdt.
