(* ===== verification/FdtTree.v ===== *)
(** Device trees, and what the flattened device tree parser (src/arch/arm64/fdt.rs) makes of
    one: the blob as a tree of nodes with properties, the facts each node states, and the
    record the kernel keeps of them. *)

From Stdlib Require Import ZArith Lia.
From stdpp Require Import base list list_numbers numbers decidable tactics strings.
From S2P Require Import Prelude Records FatNames Fdt.
Import FatNames Fdt.

Module FdtTree.

(** * Trees and their blobs *)

(** A property with its value and where the value is in the blob. *)
Record property := mkProp { pname : list Z; poff : Z; pval : list Z }.
#[warnings="-register-all"] Inductive dt := Dt (name : list Z) (props : list property) (kids : list dt).
Abbreviation plen pr := (Z.of_nat (length (pval pr))).

(** The blob [b], whose strings start at [so], has this between two offsets of its structure
    block; padding tokens may stand anywhere. *)
Inductive at_props (b : list Z) (so : Z) : Z -> list property -> Z -> Prop :=
| at_props_nil p : at_props b so p [] p
| at_props_nop p prs q : be32 b p = Ok FDT_NOP -> at_props b so (p + 4) prs q -> at_props b so p prs q
| at_props_cons p nameoff pr prs q : be32 b p = Ok FDT_PROP -> be32 b (p + 4) = Ok (plen pr) -> be32 b (p + 8) = Ok nameoff ->
    cstr b (so + nameoff) = Ok (pname pr) -> poff pr = p + 12 -> slice b (p + 12) (plen pr) = Ok (pval pr) ->
    at_props b so (align_down (p + 12 + plen pr + 3) 4) prs q -> at_props b so p (pr :: prs) q.
Inductive at_node (b : list Z) (so : Z) : Z -> dt -> Z -> Prop :=
| at_node_intro p name props q kids r : be32 b p = Ok FDT_BEGIN_NODE -> cstr b (p + 4) = Ok name ->
    at_props b so (align_down (p + 4 + Z.of_nat (length name) + 1 + 3) 4) props q -> at_nodes b so q kids r ->
    be32 b r = Ok FDT_END_NODE -> at_node b so p (Dt name props kids) (r + 4)
with at_nodes (b : list Z) (so : Z) : Z -> list dt -> Z -> Prop :=
| at_nodes_nil p : at_nodes b so p [] p
| at_nodes_nop p ts q : be32 b p = Ok FDT_NOP -> at_nodes b so (p + 4) ts q -> at_nodes b so p ts q
| at_nodes_cons p t q ts r : at_node b so p t q -> at_nodes b so q ts r -> at_nodes b so p (t :: ts) r.
Scheme at_node_mind := Minimality for at_node Sort Prop with at_nodes_mind := Minimality for at_nodes Sort Prop.
Combined Scheme at_tree_ind from at_node_mind, at_nodes_mind.

(** * What the properties of a node say *)

Section Props.
Context (props : list property).

(** The last property that satisfies [c]; whether there is one. *)
Definition latest (c : property -> bool) : option property := foldl (fun o pr => if c pr then Some pr else o) None props.
Definition some_prop (c : property -> bool) : bool := existsb c props.
Definition called (nm : string) (pr : property) : bool := is_str (pname pr) nm.
Definition value (nm : string) : option (list Z) := pval <$> latest (called nm).
Definition text (pr : property) : list Z := until_nul (pval pr).

Definition addr_cells : Z := from_option (fun pr => from_be (pval pr)) 2 (latest (fun pr => called "#address-cells" pr && (plen pr =? 4))).
Definition size_cells : Z := from_option (fun pr => from_be (pval pr)) 1 (latest (fun pr => called "#size-cells" pr && (plen pr =? 4))).
Definition reg : list Z := default [] (value "reg").
Definition ranges : option (list Z) := value "ranges".
Definition bus_range : list Z := default [] (value "bus-range").
Definition interrupts : list Z := default [] (value "interrupts").
Definition enabled : bool := from_option (fun pr => is_str (text pr) "okay" || is_str (text pr) "ok") true (latest (called "status")).
Definition has_type (nm : string) : bool := some_prop (fun pr => called "device_type" pr && is_str (text pr) nm).
Definition psci_method : PsciConduit :=
  from_option (fun pr => if is_str (text pr) "hvc" then Hvc else if is_str (text pr) "smc" then Smc else NoConduit) NoConduit (latest (called "method")).
Definition spin : bool := from_option (fun pr => is_str (text pr) "spin-table") false (latest (called "enable-method")).
Definition release : Z :=
  from_option (fun pr => from_be (pval pr)) 0 (latest (fun pr => called "cpu-release-addr" pr && ((plen pr =? 8) || (plen pr =? 4)))).
Definition compatible (nms : list string) : bool :=
  some_prop (fun pr => called "compatible" pr && existsb (strlist_contains (pval pr)) nms).
End Props.

(** A number of [n] 32-bit cells at byte [o] of a value; longer ones keep their low 64 bits. *)
Definition cells (v : list Z) (o n : Z) : Z := from_be (take (4 * Z.to_nat n) (drop (Z.to_nat o) v)) mod 2 ^ 64.

(** * Addresses *)

(** One window of [ranges]: where it is in the child's and the parent's space, and its size. *)
Definition window (cac pac csc : Z) (v : list Z) (i : Z) : Z * Z * Z :=
  let o := 4 * (cac + pac + csc) * i in (cells v o cac, cells v (o + 4 * cac) pac, cells v (o + 4 * (cac + pac)) csc).
Definition window_list (cac pac csc : Z) (v : list Z) : list (Z * Z * Z) :=
  map (window cac pac csc v) (seqZ 0 (Z.of_nat (length v) / (4 * (cac + pac + csc)))).
Definition through (ws : list (Z * Z * Z)) (addr : Z) : Z :=
  match List.find (fun '(child, _, size) => (child <=? addr) && (addr - child <? size)) ws with
  | Some (child, parent, _) => parent + (addr - child)
  | None => addr
  end.
(** The CPU address of an address in the space of the innermost of [buses]. *)
Fixpoint cpu_addr (buses : list (list property)) (addr : Z) : Z :=
  match buses with
  | bus :: ((up :: _) as rest) =>
      match ranges bus with
      | None => addr
      | Some [] => cpu_addr rest addr
      | Some v => cpu_addr rest (through (window_list (addr_cells bus) (addr_cells up) (size_cells bus) v) addr)
      end
  | _ => addr
  end.

(** * The facts a node states *)

Definition irq_number (v : list Z) (o n : Z) : Z :=
  if n =? 3 then cells v (o + 4) 1 + (if cells v o 1 =? 1 then 16 else 32)
  else if n =? 2 then cells v o 1 * 32 + cells v (o + 4) 1
  else cells v o 1.

Inductive fact :=
| Memory (regions : list (Z * Z))
| Cpu (id release : Z)
| Pcie (host : PciHost)
| GicV3 (d r size : Z)
| GicV2 (d c : Z)
| LocalIntc (a : Z)
| ArmCtrl (a : Z)
| Uart (a : Z) (irq : option Z)
| Virtio (a : Z)
| Timer (irq : Z)
| Nothing.

Section Facts.
Context (up : list (list property)) (name : list Z) (props : list property).
Definition parent_addr_cells : Z := match up with [] => 2 | ps :: _ => addr_cells ps end.
Definition parent_size_cells : Z := match up with [] => 1 | ps :: _ => size_cells ps end.
Abbreviation ac := parent_addr_cells.
Abbreviation sc := parent_size_cells.
Definition entry : Z := 4 * (ac + sc).
Abbreviation rlen := (Z.of_nat (length (reg props))).
Definition address (i : Z) : Z := cpu_addr up (cells (reg props) (i * entry) ac).
Definition size (i : Z) : Z := cells (reg props) (i * entry + 4 * ac) sc.
Definition regions : list (Z * Z) := filter (fun '(_, s) => 0 < s) (map (fun i => (address i, size i)) (seqZ 0 (rlen / entry))).

(** PCI windows: I/O and 32-bit memory space, the last of each kind. *)
Definition pci_window (i : Z) : Z * (Z * Z * Z) :=
  let v := default [] (ranges props) in
  let o := 4 * (3 + ac + size_cells props) * i in
  (Z.land (Z.shiftr (cells v o 1) 24) 3, (cells v (o + 12) ac, cells v (o + 4) 2, cells v (o + 12 + 4 * ac) (size_cells props))).
Definition pci_windows : list (Z * (Z * Z * Z)) :=
  if addr_cells props =? 3
  then map pci_window (seqZ 0 (Z.of_nat (length (default [] (ranges props))) / (4 * (3 + ac + size_cells props)))) else [].
Definition last_window (kind : Z) : Z * Z * Z := foldl (fun x '(k, w) => if k =? kind then w else x) (0, 0, 0) pci_windows.
Definition host : PciHost :=
  let br := bus_range props in
  mkPciHost (address 0) (size 0) (if 8 <=? Z.of_nat (length br) then cells br 0 1 mod 256 else 0)
    (if 8 <=? Z.of_nat (length br) then cells br 4 1 mod 256 else 255) (last_window 1) (last_window 2).

Definition is_memory_node : bool := starts_with name "memory" || has_type props "memory".
Definition is_cpu_node : bool := starts_with name "cpu@" || has_type props "cpu".
Definition uart_node : bool := compatible props ["arm,pl011"%string].
Definition virtio_node : bool := compatible props ["virtio,mmio"%string].
Definition timer_node : bool := compatible props ["arm,armv8-timer"%string; "arm,armv7-timer"%string].
Abbreviation ilen := (Z.of_nat (length (interrupts props))).

Definition fact_of : fact :=
  if is_memory_node && (entry <=? rlen) then Memory regions
  else if is_cpu_node && (4 * ac <=? rlen) then Cpu (cells (reg props) 0 ac) (if spin props then release props else 0)
  else if compatible props ["pci-host-ecam-generic"%string] && (entry <=? rlen) then Pcie host
  else if compatible props ["arm,gic-v3"%string] && (2 * entry <=? rlen) then GicV3 (address 0) (address 1) (size 1)
  else if compatible props ["arm,cortex-a15-gic"%string; "arm,gic-400"%string] && (2 * entry <=? rlen) then GicV2 (address 0) (address 1)
  else if compatible props ["brcm,bcm2836-l1-intc"%string] && (entry <=? rlen) then LocalIntc (address 0)
  else if compatible props ["brcm,bcm2836-armctrl-ic"%string] && (entry <=? rlen) then ArmCtrl (address 0)
  else if uart_node && (entry <=? rlen) then Uart (address 0) (if 8 <=? ilen then Some (irq_number (interrupts props) 0 (ilen / 4)) else None)
  else if virtio_node && (entry <=? rlen) then Virtio (address 0)
  else if timer_node && (16 <=? ilen) && (ilen mod 16 =? 0) then Timer (irq_number (interrupts props) (8 * (ilen / 16)) (ilen / 16))
  else Nothing.
Definition psci_of : PsciConduit :=
  if compatible props ["arm,psci-1.0"%string; "arm,psci-0.2"%string; "arm,psci"%string] then psci_method props else NoConduit.
End Facts.

(** * What is recorded of a tree *)

(** In the order the parser meets them: properties of the chosen node when they are read,
    the facts of an enabled node when it ends. *)
Inductive event := Chosen (pr : property) | Psci (m : PsciConduit) | Fact (f : fact).
Definition close_events (up : list (list property)) (name : list Z) (props : list property) : list event :=
  if enabled props then (if bool_decide (psci_of props = NoConduit) then [] else [Psci (psci_of props)]) ++ [Fact (fact_of up name props)] else [].
(** Nodes below the parser's stack are passed over. *)
Fixpoint events (up : list (list property)) (t : dt) : list event :=
  match t with
  | Dt name props kids =>
      if (length up <? DEPTH)%nat then
        (if (length up =? 1)%nat && is_str name "chosen" then map Chosen props else [])
        ++ mjoin (map (events (props :: up)) kids) ++ close_events up name props
      else []
  end.

Section Log.
Context (addr : Z) (log : list event).
Definition chosen_props : list property := omap (fun e => match e with Chosen pr => Some pr | _ => None end) log.
Definition facts : list fact := omap (fun e => match e with Fact f => Some f | _ => None end) log.
Definition seed (nm : string) (c : Z -> bool) : Z * Z :=
  from_option (fun pr => (addr + poff pr, plen pr)) (0, 0) (latest chosen_props (fun pr => called nm pr && c (plen pr))).
Definition arguments : list Z :=
  from_option text [] (latest chosen_props (fun pr => called "bootargs" pr && (length (text pr) <=? 512)%nat)).
Definition last_fact {A} (f : fact -> option A) (d : A) : A := default d (last (omap f facts)).
Definition memory : list (Z * Z) := mjoin (omap (fun f => match f with Memory l => Some l | _ => None end) facts).
Definition processors : list (Z * Z) := omap (fun f => match f with Cpu i r => Some (i, r) | _ => None end) facts.
Definition transports : list Z := omap (fun f => match f with Virtio a => Some a | _ => None end) facts.
Definition uarts : list (Z * option Z) := omap (fun f => match f with Uart a i => Some (a, i) | _ => None end) facts.
(** The distributor of a GIC, with the version; a GIC wins over the Broadcom controller. *)
Definition gics : list (Z * Z) := omap (fun f => match f with GicV3 d _ _ => Some (3, d) | GicV2 d _ => Some (2, d) | _ => None end) facts.
Definition local_intcs : list Z := omap (fun f => match f with LocalIntc a => Some a | _ => None end) facts.
Definition chip : IrqChip :=
  match last gics with Some (v, _) => Gic v | None => if bool_decide (local_intcs = []) then Gic 2 else Bcm2836 end.

(** [info] is what the log says, with the defaults for what it does not say. *)
Record described (rsv : list (Z * Z)) (info : MachineInfo) : Prop := {
  de_rng : rng_seed info = seed "rng-seed" (fun n => n <=? 4096);
  de_kaslr : kaslr_seed info = seed "kaslr-seed" (fun n => n =? 8);
  de_args : length (bootargs info) = 512%nat /\ take (bootargs_len info) (bootargs info) = arguments /\ bootargs_len info = length arguments;
  de_ram : length (ram info) = MAX_RAM /\ take (ram_count info) (ram info) = take MAX_RAM memory /\ ram_count info = length (take MAX_RAM memory);
  de_rsv : reserved_count info = length rsv /\ take (reserved_count info) (reserved info) = rsv;
  de_cpus : length (cpus info) = MAX_CPUS /\ length (cpu_release info) = MAX_CPUS /\ cpu_count info = length (take MAX_CPUS processors)
    /\ take (cpu_count info) (cpus info) = map fst (take MAX_CPUS processors)
    /\ take (cpu_count info) (cpu_release info) = map snd (take MAX_CPUS processors);
  de_psci : psci info = default NoConduit (last (omap (fun e => match e with Psci m => Some m | _ => None end) log));
  de_chip : irqchip info = chip;
  de_gicd : gicd info = default 0x08000000 (snd <$> last gics);
  de_gicc : gicc info = last_fact (fun f => match f with GicV2 _ c => Some c | _ => None end) 0x08010000;
  de_gicr : gicr info = last_fact (fun f => match f with GicV3 _ r _ => Some r | _ => None end) 0;
  de_gicr_size : gicr_size info = last_fact (fun f => match f with GicV3 _ _ s => Some s | _ => None end) 0;
  de_local : local_intc info = last_fact (fun f => match f with LocalIntc a => Some a | _ => None end) 0;
  de_armctrl : armctrl info = last_fact (fun f => match f with ArmCtrl a => Some a | _ => None end) 0;
  de_uart : (uart info, uart_found info) = match uarts with [] => (0x09000000, false) | (a, _) :: _ => (a, true) end;
  de_uart_irq : uart_irq info = match uarts with (_, Some irq) :: _ => irq | _ => 33 end;
  de_timer : timer_irq info = last_fact (fun f => match f with Timer irq => Some irq | _ => None end) 27;
  de_virtio : length (virtio info) = MAX_VIRTIO /\ take (virtio_count info) (virtio info) = take MAX_VIRTIO transports
    /\ virtio_count info = length (take MAX_VIRTIO transports);
  de_pci : pci info = last (omap (fun f => match f with Pcie h => Some h | _ => None end) facts) }.
End Log.
End FdtTree.
