(* ===== verification/FdtParse.v ===== *)
(** The flattened device tree parser reads trees (src/arch/arm64/fdt.rs): on a blob that holds
    a device tree it returns, and what it returns is what the tree says. *)

From Stdlib Require Import ZArith Lia.
From stdpp Require Import base list list_numbers numbers decidable tactics strings.
From S2P Require Import Prelude Records FatNames Fdt FdtTree.
Import FatNames Fdt FdtTree.

Module FdtParse.

(** * Big-endian numbers *)

Lemma from_be_acc bs : forall v, foldl (fun v x => v * 256 + x) v bs = v * 256 ^ Z.of_nat (length bs) + from_be bs.
Proof.
  unfold from_be. induction bs as [| x bs IH]; intros v; cbn [foldl length]; [rewrite Z.pow_0_r; lia |].
  rewrite IH, (IH (0 * 256 + x)), Nat2Z.inj_succ, Z.pow_succ_r by lia. lia.
Qed.
Lemma from_be_app a b : from_be (a ++ b) = from_be a * 256 ^ Z.of_nat (length b) + from_be b.
Proof. unfold from_be at 1. by rewrite foldl_app, from_be_acc. Qed.
Lemma from_be_range bs : Forall is_byte bs -> 0 <= from_be bs < 256 ^ Z.of_nat (length bs).
Proof.
  induction bs as [| x bs IH] using rev_ind; intros H; [change (0 <= 0 < 1); lia |]. apply Forall_app in H as [H Hx]. apply Forall_cons in Hx as [Hx _]. specialize (IH H).
  rewrite from_be_app, length_app, Nat2Z.inj_add, Z.pow_add_r by lia. cbn [length]. unfold is_byte in Hx. change (from_be [x]) with (0 * 256 + x). change (256 ^ Z.of_nat 1) with 256. nia.
Qed.
Lemma lor_low a x : 0 <= x < 2 ^ 32 -> Z.lor (Z.shiftl a 32 mod 2 ^ 64) x = (a * 2 ^ 32 + x) mod 2 ^ 64.
Proof.
  intros Hx. rewrite Z.shiftl_mul_pow2 by lia. change (2 ^ 64) with (2 ^ 32 * 2 ^ 32). rewrite Z.mul_mod_distr_r by lia.
  assert (Z.land (a mod 2 ^ 32 * 2 ^ 32) x = 0) as Hz.
  { apply Z.bits_inj'. intros k Hk. rewrite Z.land_spec, Z.bits_0. destruct (Z.lt_ge_cases k 32).
    - rewrite Z.mul_pow2_bits_low by lia. done.
    - rewrite (testbit_above 32 x k) by lia. apply andb_false_r. }
  rewrite <- Z.lxor_lor, <- Z.add_nocarry_lxor by done. apply (Z.mod_unique _ _ (a / 2 ^ 32)); [left; pose proof (Z.mod_pos_bound a (2 ^ 32)); lia |].
  pose proof (Z.div_mod a (2 ^ 32)). lia.
Qed.

Section Blob.
Context (b : list Z).
Hypothesis Hb : Forall is_byte b.

Lemma be32_ok off : 0 <= off -> off + 4 <= Z.of_nat (length b) -> be32 b off = Ok (from_be (take 4 (drop (Z.to_nat off) b))).
Proof. intros H0 H. unfold be32. by rewrite (proj2 (Z.leb_le _ _)). Qed.
Lemma word_range off : 0 <= from_be (take 4 (drop (Z.to_nat off) b)) < 2 ^ 32.
Proof.
  pose proof (from_be_range (take 4 (drop (Z.to_nat off) b)) ltac:(by apply Forall_take, Forall_drop)) as H.
  assert (length (take 4 (drop (Z.to_nat off) b)) <= 4)%nat by (rewrite length_take; lia). split; [lia |].
  eapply Z.lt_le_trans; [apply H |]. change (2 ^ 32) with (256 ^ 4). apply Z.pow_le_mono_r; lia.
Qed.
Lemma be32_range off x : be32 b off = Ok x -> 0 <= x < 2 ^ 32 /\ off + 4 <= Z.of_nat (length b).
Proof. unfold be32. destruct (Z.leb_spec (off + 4) (Z.of_nat (length b))); [| done]. intros [= <-]. split; [apply word_range | done]. Qed.
Lemma read_cells_from_ok n : forall acc off, 0 <= off -> off + 4 * Z.of_nat n <= Z.of_nat (length b) ->
  read_cells_from b acc off n = Ok (match n with O => acc | _ => (acc * 2 ^ (32 * Z.of_nat n) + from_be (take (4 * n) (drop (Z.to_nat off) b))) mod 2 ^ 64 end).
Proof.
  induction n as [| n IH]; intros acc off H0 Hl; cbn [read_cells_from]; [done |]. rewrite be32_ok by lia. cbn [mbind outcome_bind].
  rewrite IH, lor_low by (lia || apply word_range). f_equal. set (l := drop (Z.to_nat off) b).
  replace (drop (Z.to_nat (off + 4)) b) with (drop 4 l) by (unfold l; rewrite drop_drop; f_equal; lia).
  assert (length l = length b - Z.to_nat off)%nat as Hll by (unfold l; by rewrite length_drop).
  replace (4 * S n)%nat with (4 + 4 * n)%nat by lia. rewrite <- (take_take_drop l 4 (4 * n)), from_be_app.
  assert (length (take (4 * n) (drop 4 l)) = 4 * n)%nat as Hlt by (rewrite length_take, length_drop; lia).
  rewrite Hlt. replace (Z.of_nat (4 * n)) with (4 * Z.of_nat n) by lia.
  replace (256 ^ (4 * Z.of_nat n)) with (2 ^ (32 * Z.of_nat n)) by (change 256 with (2 ^ 8); rewrite <- Z.pow_mul_r by lia; f_equal; lia). destruct n as [| n].
  - rewrite Nat.mul_0_r, take_0. change (from_be []) with 0. change (32 * Z.of_nat 0) with 0. change (32 * Z.of_nat 1) with 32. rewrite Z.pow_0_r. f_equal. lia.
  - set (m := S n) in *. set (x := from_be (take 4 l)). set (y := from_be (take (4 * m) (drop 4 l))). replace (32 * Z.of_nat (S m)) with (32 + 32 * Z.of_nat m) by lia.
    rewrite Z.pow_add_r by lia. rewrite <- Z.add_mod_idemp_l, Z.mul_mod_idemp_l, Z.add_mod_idemp_l by lia. f_equal. lia.
Qed.

(** Reading inside a value. *)
Section Value.
Context (off : Z) (v : list Z).
Hypothesis Hoff : 0 <= off.
Hypothesis Hv : slice b off (Z.of_nat (length v)) = Ok v.

Lemma value_here : off + Z.of_nat (length v) <= Z.of_nat (length b) /\ take (length v) (drop (Z.to_nat off) b) = v.
Proof. unfold slice in Hv. destruct (Z.leb_spec (off + Z.of_nat (length v)) (Z.of_nat (length b))); [| done]. rewrite Nat2Z.id in Hv. split; [done | congruence]. Qed.
Lemma value_bytes : Forall is_byte v.
Proof. destruct value_here as [_ <-]. by apply Forall_take, Forall_drop. Qed.
Lemma value_piece o n : 0 <= o -> (Z.to_nat o + n <= length v)%nat -> take n (drop (Z.to_nat (off + o)) b) = take n (drop (Z.to_nat o) v).
Proof.
  intros Ho Hn. destruct value_here as [_ E]. rewrite <- E at 1. rewrite skipn_firstn_comm, drop_drop, take_take. f_equal; [lia |]. f_equal. lia.
Qed.
Lemma read_value o n : 0 <= o -> 0 <= n -> o + 4 * n <= Z.of_nat (length v) -> read_cells b (off + o) n = Ok (cells v o n).
Proof.
  intros Ho Hn Hl. destruct value_here as [H1 _]. unfold read_cells, cells. rewrite read_cells_from_ok by lia. rewrite Z2Nat.id by lia.
  rewrite value_piece by lia. destruct (Z.to_nat n) as [| k] eqn:E; [done |]. f_equal.
Qed.
Lemma word_value o : 0 <= o -> o + 4 <= Z.of_nat (length v) -> be32 b (off + o) = Ok (cells v o 1) /\ 0 <= cells v o 1 < 2 ^ 32.
Proof.
  intros Ho Hl. destruct value_here as [H1 _]. assert (cells v o 1 = from_be (take 4 (drop (Z.to_nat (off + o)) b))) as ->.
  { unfold cells. rewrite <- value_piece by lia. apply Z.mod_small. pose proof (word_range (off + o)). change (4 * Z.to_nat 1)%nat with 4%nat. lia. }
  split; [apply be32_ok; lia | apply word_range].
Qed.
Lemma text_value : 0 ∈ v -> cstr b off = Ok (until_nul v).
Proof.
  intros H0. destruct value_here as [H1 E]. unfold cstr. rewrite (proj2 (Z.leb_le _ _)) by lia. f_equal.
  rewrite <- (take_drop (length v) (drop (Z.to_nat off) b)), E. generalize (drop (length v) (drop (Z.to_nat off) b)) as rest. intros rest. clear - H0. induction v as [| x l IH]; [by apply not_elem_of_nil in H0 |].
  cbn [until_nul app]. destruct (Z.eqb_spec x 0); [done |]. f_equal. apply IH. apply elem_of_cons in H0 as [Hx | H0]; [congruence | done].
Qed.
End Value.
End Blob.
Lemma cells_range v o n : 0 <= cells v o n < 2 ^ 64.
Proof. unfold cells. by apply Z.mod_pos_bound. Qed.

(** * Nodes and the properties read so far *)

Lemma latest_snoc props pr c : latest (props ++ [pr]) c = if c pr then Some pr else latest props c.
Proof. unfold latest. by rewrite foldl_app. Qed.
Lemma some_snoc props pr c : some_prop (props ++ [pr]) c = some_prop props c || c pr.
Proof. unfold some_prop. rewrite existsb_app. cbn. by rewrite orb_false_r. Qed.

(** Bytes [off .. off + n] of the blob are [v]. *)
Record span (b : list Z) (off n : Z) (v : list Z) : Prop := {
  sp_off : 0 <= off;
  sp_len : n = Z.of_nat (length v);
  sp_here : slice b off (Z.of_nat (length v)) = Ok v }.
Lemma span_nil b : span b 0 0 [].
Proof. constructor; [done | done |]. unfold slice. by rewrite (proj2 (Z.leb_le _ _)) by (cbn; lia). Qed.

Record node_is (b : list Z) (level1 : bool) (nm : list Z) (props : list property) (n : Node) : Prop := {
  ni_ac : child_addr_cells n = addr_cells props;
  ni_sc : child_size_cells n = size_cells props;
  ni_cpu : is_cpu n = is_cpu_node nm props;
  ni_chosen : is_chosen n = level1 && is_str nm "chosen";
  ni_memory : is_memory n = is_memory_node nm props;
  ni_gic : is_gic n = compatible props ["arm,cortex-a15-gic"%string; "arm,gic-400"%string];
  ni_gicv3 : is_gicv3 n = compatible props ["arm,gic-v3"%string];
  ni_pcie : is_pcie n = compatible props ["pci-host-ecam-generic"%string];
  ni_uart : is_uart n = uart_node props;
  ni_virtio : is_virtio n = virtio_node props;
  ni_timer : is_timer n = timer_node props;
  ni_psci : is_psci n = compatible props ["arm,psci-1.0"%string; "arm,psci-0.2"%string; "arm,psci"%string];
  ni_local : is_local_intc n = compatible props ["brcm,bcm2836-l1-intc"%string];
  ni_armctrl : is_armctrl n = compatible props ["brcm,bcm2836-armctrl-ic"%string];
  ni_spin : spin_table n = spin props;
  ni_has_ranges : has_ranges n = bool_decide (is_Some (ranges props));
  ni_ranges : span b (ranges_off n) (ranges_len n) (default [] (ranges props));
  ni_busrange : span b (busrange_off n) (busrange_len n) (bus_range props);
  ni_method : method n = psci_method props;
  ni_release : release_addr n = release props;
  ni_reg : span b (reg_off n) (reg_len n) (reg props);
  ni_irq : span b (irq_off n) (irq_len n) (interrupts props);
  ni_status : status_ok n = enabled props }.

Lemma node_is_new b level1 nm :
  node_is b level1 nm [] (new_node <| is_chosen := level1 && is_str nm "chosen" |> <| is_memory := starts_with nm "memory" |> <| is_cpu := starts_with nm "cpu@" |>).
Proof. constructor; try done; try apply span_nil; unfold is_cpu_node, is_memory_node; cbn; by rewrite orb_false_r. Qed.

(** * The log of events *)

Lemma omap_snoc {A B} (f : A -> option B) l x : omap f (l ++ [x]) = omap f l ++ match f x with Some y => [y] | None => [] end.
Proof. rewrite omap_app. cbn. by destruct (f x). Qed.
Lemma facts_snoc log e : facts (log ++ [e]) = facts log ++ match e with Fact f => [f] | _ => [] end.
Proof. unfold facts. rewrite omap_snoc. by destruct e. Qed.
Lemma chosen_snoc log e : chosen_props (log ++ [e]) = chosen_props log ++ match e with Chosen pr => [pr] | _ => [] end.
Proof. unfold chosen_props. rewrite omap_snoc. by destruct e. Qed.

(** Names the parser knows. *)
Definition known : list string := ["rng-seed"; "kaslr-seed"; "bootargs"; "#address-cells"; "#size-cells"; "reg"; "ranges"; "bus-range"; "interrupts";
  "status"; "device_type"; "method"; "enable-method"; "cpu-release-addr"; "compatible"]%string.
Lemma name_cases nm : Exists (fun s => nm = lit s) known \/ Forall (fun s => is_str nm s = false) known.
Proof.
  destruct (decide (Exists (fun s => nm = lit s) known)) as [H | H]; [by left | right]. apply Forall_forall. intros s Hs. unfold is_str.
  apply bool_decide_eq_false. intros E. apply H, Exists_exists. eauto.
Qed.
Definition textual (pr : property) : bool := called "status" pr || called "device_type" pr || called "method" pr || called "enable-method" pr.

Ltac eval_names := repeat match goal with
  | |- context [is_str (lit ?a) ?b] => let x := eval vm_compute in (is_str (lit a) b) in change (is_str (lit a) b) with x
  end.

(** What a property of the chosen node adds to the record. *)
Definition chosen_info (addr : Z) (pr : property) (info : MachineInfo) : MachineInfo :=
  if called "rng-seed" pr && (plen pr <=? 4096) then info <| rng_seed := (addr + poff pr, plen pr) |>
  else if called "kaslr-seed" pr && (plen pr =? 8) then info <| kaslr_seed := (addr + poff pr, plen pr) |>
  else if called "bootargs" pr && (length (text pr) <=? 512)%nat
  then info <| bootargs := take (length (text pr)) (pval pr) ++ drop (length (text pr)) (bootargs info) |> <| bootargs_len := length (text pr) |>
  else info.
Lemma text_prefix l : take (length (until_nul l)) l = until_nul l /\ (length (until_nul l) <= length l)%nat.
Proof. induction l as [| x l [IH1 IH2]]; [done |]. cbn [until_nul]. destruct (x =? 0); cbn; [split; [done | lia] |]. rewrite IH1. split; [done | lia]. Qed.
Lemma called_other nm nm' pr : called nm pr = true -> lit nm <> lit nm' -> called nm' pr = false.
Proof. unfold called, is_str. intros H Hn. apply bool_decide_eq_true in H. apply bool_decide_eq_false. congruence. Qed.

Lemma described_chosen addr log rsv info pr : described addr log rsv info -> described addr (log ++ [Chosen pr]) rsv (chosen_info addr pr info).
Proof.
  intros [D1 D2 [D3 [D4 D5]] D6 D7 D8 D9 D10 D11 D12 D13 D14 D15 D16 D17 D18 D19 D20 D21].
  assert (forall i', (rng_seed i' = seed addr (log ++ [Chosen pr]) "rng-seed" (fun n => n <=? 4096)) -> (kaslr_seed i' = seed addr (log ++ [Chosen pr]) "kaslr-seed" (fun n => n =? 8)) ->
    (length (bootargs i') = 512%nat /\ take (bootargs_len i') (bootargs i') = arguments (log ++ [Chosen pr]) /\ bootargs_len i' = length (arguments (log ++ [Chosen pr]))) ->
    i' <| rng_seed := rng_seed info |> <| kaslr_seed := kaslr_seed info |> <| bootargs := bootargs info |> <| bootargs_len := bootargs_len info |> = info ->
    described addr (log ++ [Chosen pr]) rsv i') as H.
  { intros i' H1 H2 H3 Hi. rewrite <- Hi in D6, D7, D8, D9, D10, D11, D12, D13, D14, D15, D16, D17, D18, D19, D20, D21. cbn in *.
    constructor; try done;
      unfold chip, last_fact in *; unfold memory, processors, transports, uarts, gics, local_intcs in *; rewrite ?facts_snoc, ?app_nil_r; rewrite ?omap_snoc, ?app_nil_r; done. }
  unfold seed, arguments in *. rewrite !chosen_snoc, !latest_snoc in H. unfold chosen_info.
  destruct (called "rng-seed" pr && (plen pr <=? 4096)) eqn:E1.
  { apply andb_true_iff in E1 as [E1 _]. rewrite !(called_other _ _ _ E1) in H by (vm_compute; discriminate). cbn [andb from_option] in H. by apply H; destruct info. }
  destruct (called "kaslr-seed" pr && (plen pr =? 8)) eqn:E2.
  { apply andb_true_iff in E2 as [E2 _]. rewrite !(called_other _ "bootargs" _ E2) in H by (vm_compute; discriminate). cbn [andb from_option] in H. by apply H; destruct info. }
  destruct (called "bootargs" pr && (length (text pr) <=? 512)%nat) eqn:E3; [| by apply H; destruct info].
  apply andb_true_iff in E3 as [E3 Hl]. apply Nat.leb_le in Hl. destruct (text_prefix (pval pr)) as [T1 T2]. cbn [from_option] in H.
  apply H; [done | done | | by destruct info]. cbn. fold (text pr) in T1, T2. rewrite T1, length_app, length_drop, D3. split; [lia |].
  rewrite take_app_length. done.
Qed.

(** * Reading a property *)

Lemma compatible_fields v n (has := strlist_contains v) :
  is_gic (set_compatible v n) = is_gic n || (has "arm,cortex-a15-gic" || has "arm,gic-400") /\ is_gicv3 (set_compatible v n) = is_gicv3 n || has "arm,gic-v3"
  /\ is_pcie (set_compatible v n) = is_pcie n || has "pci-host-ecam-generic" /\ is_uart (set_compatible v n) = is_uart n || has "arm,pl011"
  /\ is_virtio (set_compatible v n) = is_virtio n || has "virtio,mmio" /\ is_timer (set_compatible v n) = is_timer n || (has "arm,armv8-timer" || has "arm,armv7-timer")
  /\ is_psci (set_compatible v n) = is_psci n || (has "arm,psci-1.0" || has "arm,psci-0.2" || has "arm,psci")
  /\ is_local_intc (set_compatible v n) = is_local_intc n || has "brcm,bcm2836-l1-intc" /\ is_armctrl (set_compatible v n) = is_armctrl n || has "brcm,bcm2836-armctrl-ic".
Proof. split_and!; reflexivity. Qed.

(** The fields of [node_is] for one property more, its name known. *)
Ltac solve_node Hn Hname :=
  destruct Hn as [N1 N2 N3 N4 N5 N6 N7 N8 N9 N10 N11 N12 N13 N14 N15 N16 N17 N18 N19 N20 N21 N22 N23]; constructor;
  unfold is_cpu_node, is_memory_node, uart_node, virtio_node, timer_node in *;
  unfold addr_cells, size_cells, has_type, compatible, spin, ranges, bus_range, psci_method, release, reg, interrupts, enabled, value in *;
  rewrite ?latest_snoc, ?some_snoc; unfold called in *; rewrite ?Hname; eval_names; cbn [andb orb from_option fmap option_fmap option_map default];
  rewrite ?orb_false_r, ?orb_assoc; try assumption; try done.

Section Property.
Context (b : list Z) (addr : Z) (level1 : bool) (nm : list Z) (props : list property) (n : Node) (pr : property) (info : MachineInfo).
Hypothesis Hb : Forall is_byte b.
Hypothesis Haddr : 0 <= addr /\ addr + Z.of_nat (length b) < 2 ^ 64.
Hypothesis Hn : node_is b level1 nm props n.
Hypothesis Hspan : span b (poff pr) (plen pr) (pval pr).
Hypothesis Htext : textual pr = true -> 0 ∈ pval pr.
Hypothesis Hargs : length (bootargs info) = 512%nat.

Lemma prop_inside : poff pr + plen pr <= Z.of_nat (length b).
Proof. destruct Hspan as [S1 _ S3]. by destruct (value_here b (poff pr) (pval pr) S3). Qed.
Lemma prop_text : textual pr = true -> cstr b (poff pr) = Ok (text pr).
Proof. intros Ht. apply text_value; [apply Hspan | by apply Htext]. Qed.
Lemma prop_word : plen pr = 4 -> be32 b (poff pr) = Ok (from_be (pval pr)).
Proof.
  intros Hl. destruct Hspan as [S1 _ S3]. destruct (word_value b Hb (poff pr) (pval pr) S1 S3 0) as [E _]; [lia | lia |]. rewrite Z.add_0_r in E. rewrite E. f_equal.
  unfold cells. change (drop (Z.to_nat 0) (pval pr)) with (pval pr). change (4 * Z.to_nat 1)%nat with 4%nat. rewrite take_ge by lia. apply Z.mod_small.
  pose proof (from_be_range (pval pr) (value_bytes b Hb _ _ S3)) as R. replace (Z.of_nat (length (pval pr))) with 4 in R by lia. lia.
Qed.
Lemma prop_long : plen pr = 8 -> read_cells b (poff pr) 2 = Ok (from_be (pval pr)).
Proof.
  intros Hl. destruct Hspan as [S1 _ S3]. pose proof (read_value b Hb (poff pr) (pval pr) S1 S3 0 2 ltac:(lia) ltac:(lia) ltac:(lia)) as E. rewrite Z.add_0_r in E. rewrite E. f_equal.
  unfold cells. change (drop (Z.to_nat 0) (pval pr)) with (pval pr). change (4 * Z.to_nat 2)%nat with 8%nat. rewrite take_ge by lia. apply Z.mod_small.
  pose proof (from_be_range (pval pr) (value_bytes b Hb _ _ S3)) as R. replace (Z.of_nat (length (pval pr))) with 8 in R by lia. lia.
Qed.

Lemma set_prop_ok : exists n', set_prop b addr (pname pr) (poff pr) (plen pr) (pval pr) n info = Ok (n', if is_chosen n then chosen_info addr pr info else info)
  /\ node_is b level1 nm (props ++ [pr]) n'.
Proof.
  pose proof prop_inside as Hin. pose proof (sp_off _ _ _ _ Hspan) as Hoff. pose proof prop_text as Hstr. pose proof prop_word as Hw. pose proof prop_long as Hlg.
  unfold set_prop, chosen_info, textual, called in *. fold (text pr). rewrite !Hargs.
  assert (add 64 addr (poff pr) = Ok (addr + poff pr)) as Hadd by (unfold add; by rewrite (proj2 (Z.ltb_lt _ _)) by lia).
  destruct (name_cases (pname pr)) as [H | H].
  - unfold known in H. rewrite !Exists_cons, Exists_nil in H. destruct_or! H; try contradiction; rewrite H in Hstr |- *; revert Hstr; eval_names; cbn [andb orb]; intros Hstr.
    + exists n. split; [| solve_node Hn H]. destruct (is_chosen n); cbn [andb]; [| done]. destruct (plen pr <=? 4096); [by rewrite Hadd | done].
    + exists n. split; [| solve_node Hn H]. destruct (is_chosen n); cbn [andb]; [| done]. destruct (plen pr =? 8); [by rewrite Hadd | done].
    + exists n. split; [| solve_node Hn H]. by destruct (is_chosen n).
    + destruct (Z.eqb_spec (plen pr) 4) as [E | E].
      * rewrite (Hw E). eexists. split; [by destruct (is_chosen n) |]. solve_node Hn H; rewrite E; done.
      * exists n. split; [by destruct (is_chosen n) |]. solve_node Hn H; rewrite (proj2 (Z.eqb_neq _ _) E); done.
    + destruct (Z.eqb_spec (plen pr) 4) as [E | E].
      * rewrite (Hw E). eexists. split; [by destruct (is_chosen n) |]. solve_node Hn H; rewrite E; done.
      * exists n. split; [by destruct (is_chosen n) |]. solve_node Hn H; rewrite (proj2 (Z.eqb_neq _ _) E); done.
    + eexists. split; [by destruct (is_chosen n) |]. solve_node Hn H.
    + eexists. split; [by destruct (is_chosen n) |]. solve_node Hn H.
    + eexists. split; [by destruct (is_chosen n) |]. solve_node Hn H.
    + eexists. split; [by destruct (is_chosen n) |]. solve_node Hn H.
    + rewrite Hstr by done. eexists. split; [by destruct (is_chosen n) |]. solve_node Hn H.
    + rewrite Hstr by done. eexists. split; [by destruct (is_chosen n) |]. solve_node Hn H; unfold set_field; cbn [is_cpu is_memory]; rewrite ?N3, ?N5; by rewrite ?orb_assoc.
    + rewrite Hstr by done. eexists. split; [by destruct (is_chosen n) |]. solve_node Hn H.
    + rewrite Hstr by done. eexists. split; [by destruct (is_chosen n) |]. solve_node Hn H.
    + destruct (Z.eqb_spec (plen pr) 8) as [E | E]; [| destruct (Z.eqb_spec (plen pr) 4) as [E4 | E4]].
      * rewrite (Hlg E). eexists. split; [by destruct (is_chosen n) |]. solve_node Hn H. rewrite E. done.
      * rewrite (Hw E4). eexists. split; [by destruct (is_chosen n) |]. solve_node Hn H. rewrite E4. done.
      * exists n. split; [by destruct (is_chosen n) |]. solve_node Hn H. by rewrite (proj2 (Z.eqb_neq _ _) E), (proj2 (Z.eqb_neq _ _) E4).
    + destruct (compatible_fields (pval pr) n) as (F1 & F2 & F3 & F4 & F5 & F6 & F7 & F8 & F9).
      eexists. split; [by destruct (is_chosen n) |]. solve_node Hn H.
      all: rewrite ?F1, ?F2, ?F3, ?F4, ?F5, ?F6, ?F7, ?F8, ?F9; cbn [existsb]; rewrite ?orb_false_r, ?orb_assoc, ?N6, ?N7, ?N8, ?N9, ?N10, ?N11, ?N12, ?N13, ?N14; reflexivity.
  - exists n. unfold known in H. rewrite !Forall_cons in H. destruct_and! H.
    repeat match goal with E : is_str (pname pr) ?s = false |- _ => rewrite E in *; revert E end. intros. cbn [andb]. split; [by destruct (is_chosen n) |].
    destruct Hn as [N1 N2 N3 N4 N5 N6 N7 N8 N9 N10 N11 N12 N13 N14 N15 N16 N17 N18 N19 N20 N21 N22 N23]; constructor;
      unfold is_cpu_node, is_memory_node, uart_node, virtio_node, timer_node in *;
      unfold addr_cells, size_cells, has_type, compatible, spin, ranges, bus_range, psci_method, release, reg, interrupts, enabled, value in *;
      rewrite ?latest_snoc, ?some_snoc; unfold called in *;
      repeat match goal with E : is_str (pname pr) ?s = false |- _ => rewrite !E; clear E end; cbn [andb]; rewrite ?orb_false_r; done.
Qed.
End Property.

(** * Addresses *)

(** Trees whose numbers the parser can handle. *)
Definition cells_ok (ps : list property) : Prop := 0 <= addr_cells ps <= 2 ^ 16 /\ 0 <= size_cells ps <= 2 ^ 16.
Definition bus_windows (par bus : list property) : list (Z * Z * Z) :=
  window_list (addr_cells bus) (addr_cells par) (size_cells bus) (default [] (ranges bus)).
Definition bus_ok (par bus : list property) : Prop := default [] (ranges bus) <> [] ->
  0 < addr_cells bus + addr_cells par + size_cells bus /\ Forall (fun '(_, parent, size) => parent + size <= 2 ^ 64) (bus_windows par bus).
Fixpoint buses_ok (up : list (list property)) : Prop :=
  match up with
  | [] => True
  | bus :: rest => cells_ok bus /\ buses_ok rest /\ match rest with [] => True | par :: _ => bus_ok par bus end
  end.

Record bus_is (b : list Z) (n : Node) (ps : list property) : Prop := {
  bi_ac : child_addr_cells n = addr_cells ps;
  bi_sc : child_size_cells n = size_cells ps;
  bi_has : has_ranges n = bool_decide (is_Some (ranges ps));
  bi_ranges : span b (ranges_off n) (ranges_len n) (default [] (ranges ps)) }.
Lemma node_bus b level1 nm ps n : node_is b level1 nm ps n -> bus_is b n ps.
Proof. intros []. by constructor. Qed.

Lemma window_count e L i : 0 < e -> 0 <= i -> i < L / e <-> (i + 1) * e <= L.
Proof.
  intros He Hi. split; intros H.
  - pose proof (Z.mul_div_le L e He). nia.
  - assert (i + 1 <= L / e) by (apply Z.div_le_lower_bound; lia). lia.
Qed.
Lemma add_fits w x y : x + y < 2 ^ w -> add w x y = Ok (x + y).
Proof. intros H. unfold add. by rewrite (proj2 (Z.ltb_lt _ _)). Qed.

Section Translate.
Context (b : list Z).
Hypothesis Hb : Forall is_byte b.

Section Windows.
Context (cac pac csc off : Z) (v : list Z).
Hypothesis Hcac : 0 <= cac <= 2 ^ 16.
Hypothesis Hpac : 0 <= pac <= 2 ^ 16.
Hypothesis Hcsc : 0 <= csc <= 2 ^ 16.
Hypothesis Hpos : 0 < cac + pac + csc.
Hypothesis Hv : span b off (Z.of_nat (length v)) v.
Abbreviation e := (4 * (cac + pac + csc)).
Abbreviation count := (Z.of_nat (length v) / e).
Hypothesis Hfit : Forall (fun '(_, parent, size) => parent + size <= 2 ^ 64) (window_list cac pac csc v).

Lemma windows_ok addr : forall (fuel : nat) i, 0 <= i -> (Z.to_nat (count - i) < fuel)%nat ->
  windows b fuel cac pac csc e (off + e * i) (off + Z.of_nat (length v)) addr = Ok (through (map (window cac pac csc v) (seqZ i (count - i))) addr).
Proof.
  destruct Hv as [V1 _ V3]. induction fuel as [| fuel IH]; intros i Hi Hf; [lia |]. cbn [windows].
  destruct (Z.leb_spec (off + e * i + e) (off + Z.of_nat (length v))) as [Hc | Hc].
  - assert (i < count) as Hlt by (apply window_count; lia).
    rewrite (read_value b Hb off v V1 V3 (e * i) cac) by nia. cbn [mbind outcome_bind].
    replace (off + e * i + 4 * cac) with (off + (e * i + 4 * cac)) by lia. rewrite (read_value b Hb off v V1 V3 _ pac) by nia. cbn [mbind outcome_bind].
    rewrite (add_fits 32 cac pac) by lia. cbn [mbind outcome_bind]. replace (off + e * i + 4 * (cac + pac)) with (off + (e * i + 4 * (cac + pac))) by lia.
    rewrite (read_value b Hb off v V1 V3 _ csc) by nia. cbn [mbind outcome_bind].
    rewrite (seqZ_cons i (count - i)) by lia. cbn [map]. unfold through. cbn [List.find]. unfold window at 1.
    destruct ((cells v (e * i) cac <=? addr) && (addr - cells v (e * i) cac <? cells v (e * i + 4 * (cac + pac)) csc)) eqn:Et.
    + cbn. apply add_fits. apply andb_true_iff in Et as [E1 E2]. apply Z.leb_le in E1. apply Z.ltb_lt in E2.
      assert (window cac pac csc v i ∈ window_list cac pac csc v) as Hin by (apply elem_of_map; exists i; split; [done |]; apply elem_of_seqZ; lia).
      pose proof (Forall_elem _ _ _ Hfit Hin) as Hw. unfold window in Hw. cbn beta iota zeta in Hw. lia.
    + replace (off + e * i + e) with (off + e * (i + 1)) by lia. rewrite IH by lia. by replace (count - (i + 1)) with (Z.pred (count - i)) by lia.
  - assert (count <= i) by (apply Z.nlt_ge; rewrite window_count by lia; lia). rewrite seqZ_nil by lia. done.
Qed.
Lemma through_range addr : 0 <= addr < 2 ^ 64 -> 0 <= through (window_list cac pac csc v) addr < 2 ^ 64.
Proof.
  intros Ha. unfold through. destruct (List.find _ _) as [[[child parent] size] |] eqn:Ef; [| done]. apply List_find_Some in Ef as [Hin Ht].
  apply andb_true_iff in Ht as [E1 E2]. apply Z.leb_le in E1. apply Z.ltb_lt in E2. pose proof (Forall_elem _ _ _ Hfit Hin) as Hw. cbn beta iota in Hw.
  apply elem_of_map in Hin as (i & Hi & _). unfold window in Hi. injection Hi as -> -> ->. pose proof (cells_range v (e * i + 4 * cac) pac). lia.
Qed.
End Windows.

Lemma translate_step bus par rest addr : translate_from b (bus :: par :: rest) addr =
  if negb (has_ranges bus) then Ok addr
  else
    addr ← (if 0 <? ranges_len bus then
              s ← add 32 (child_addr_cells bus) (child_addr_cells par);
              s ← add 32 s (child_size_cells bus);
              windows b (S (Z.to_nat (ranges_len bus))) (child_addr_cells bus) (child_addr_cells par) (child_size_cells bus)
                (4 * s) (ranges_off bus) (ranges_off bus + ranges_len bus) addr
            else Ok addr);
    translate_from b (par :: rest) addr.
Proof. reflexivity. Qed.
Lemma cpu_addr_step bus par rest addr : cpu_addr (bus :: par :: rest) addr =
  match ranges bus with
  | None => addr
  | Some [] => cpu_addr (par :: rest) addr
  | Some v => cpu_addr (par :: rest) (through (window_list (addr_cells bus) (addr_cells par) (size_cells bus) v) addr)
  end.
Proof. reflexivity. Qed.
Lemma translate_ok up : forall ns addr, Forall2 (bus_is b) ns up -> buses_ok up -> 0 <= addr < 2 ^ 64 ->
  translate_from b ns addr = Ok (cpu_addr up addr) /\ 0 <= cpu_addr up addr < 2 ^ 64.
Proof.
  induction up as [| bus up IH]; intros ns addr Hns Hok Ha; inversion Hns as [| n ? ns' ? Hn Hns']; subst; [done |]. destruct up as [| par up].
  { inversion Hns'. done. }
  inversion Hns' as [| m ? ms ? Hm Hms]; subst. rewrite translate_step, cpu_addr_step. destruct Hok as (C1 & Hok' & Hbus). pose proof Hok' as (C2 & _).
  destruct Hn as [N1 N2 N3 N4]. destruct Hm as [M1 M2 M3 M4]. rewrite N3, N1, N2, M1. unfold bus_ok, bus_windows in Hbus.
  destruct (ranges bus) as [v |] eqn:Er; cbn [default] in N4, Hbus; [| by cbn]. rewrite bool_decide_eq_true_2 by done. cbn [negb]. destruct C1, C2.
  pose proof (sp_len _ _ _ _ N4) as Hl. unfold id in *. destruct v as [| x v].
  { rewrite Hl. change (0 <? Z.of_nat (length [])) with false. by apply (IH (m :: ms)). }
  set (w := x :: v) in *. destruct Hbus as [Hpos Hfit]; [done |]. rewrite Hl. rewrite (proj2 (Z.ltb_lt 0 _)) by (unfold w; cbn [length]; lia).
  rewrite !add_fits by lia. cbn [mbind outcome_bind]. rewrite add_fits by lia. cbn [mbind outcome_bind].
  assert (span b (ranges_off n) (Z.of_nat (length w)) w) as Hw by by rewrite <- Hl.
  pose proof (windows_ok (addr_cells bus) (addr_cells par) (size_cells bus) (ranges_off n) w ltac:(done) ltac:(done) ltac:(done) Hpos Hw Hfit addr (S (Z.to_nat (Z.of_nat (length w)))) 0 ltac:(lia)) as Hww.
  rewrite Z.mul_0_r, Z.add_0_r, Z.sub_0_r in Hww. rewrite Hww.
  2: { assert (Z.of_nat (length w) / (4 * (addr_cells bus + addr_cells par + size_cells bus)) <= Z.of_nat (length w)) by (apply Z.div_le_upper_bound; nia). lia. }
  cbn [mbind outcome_bind]. apply (IH (m :: ms)); [done | done |]. by apply through_range.
Qed.
End Translate.
End FdtParse.
