(* ===== verification/FdtFacts.v ===== *)
(** What the flattened device tree parser (src/arch/arm64/fdt.rs) records when a node ends:
    exactly the fact the node states. *)

From Stdlib Require Import ZArith Lia.
From stdpp Require Import base list list_numbers numbers decidable tactics strings.
From S2P Require Import Prelude Records FatNames Fdt FdtTree FdtParse.
Import FatNames Fdt FdtTree FdtParse.

Module FdtFacts.

(** * Recording a fact *)

Definition add_region (info : MachineInfo) (r : Z * Z) : MachineInfo :=
  if (ram_count info <? MAX_RAM)%nat then info <| ram := <[ram_count info := r]> (ram info) |> <| ram_count := S (ram_count info) |> else info.
Definition apply_fact (f : fact) (info : MachineInfo) (gic : bool) : MachineInfo * bool :=
  match f with
  | Memory l => (foldl add_region info l, gic)
  | Cpu i r =>
      (if (cpu_count info <? MAX_CPUS)%nat
       then info <| cpus := <[cpu_count info := i]> (cpus info) |> <| cpu_release := <[cpu_count info := r]> (cpu_release info) |> <| cpu_count := S (cpu_count info) |>
       else info, gic)
  | Pcie h => (info <| pci := Some h |>, gic)
  | GicV3 d r s => (info <| irqchip := Gic 3 |> <| gicd := d |> <| gicr := r |> <| gicr_size := s |>, true)
  | GicV2 d c => (info <| irqchip := Gic 2 |> <| gicd := d |> <| gicc := c |>, true)
  | LocalIntc a => let info := info <| local_intc := a |> in (if negb gic then info <| irqchip := Bcm2836 |> else info, gic)
  | ArmCtrl a => (info <| armctrl := a |>, gic)
  | Uart a irq =>
      (if uart_found info then info
       else let info := info <| uart := a |> in (match irq with Some i => info <| uart_irq := i |> | None => info end) <| uart_found := true |>, gic)
  | Virtio a =>
      (if (virtio_count info <? MAX_VIRTIO)%nat
       then info <| virtio := <[virtio_count info := a]> (virtio info) |> <| virtio_count := S (virtio_count info) |> else info, gic)
  | Timer irq => (info <| timer_irq := irq |>, gic)
  | Nothing => (info, gic)
  end.

Lemma add_region_room info r : (ram_count info < MAX_RAM)%nat -> add_region info r = info <| ram := <[ram_count info := r]> (ram info) |> <| ram_count := S (ram_count info) |>.
Proof. intros H. unfold add_region. by rewrite (proj2 (Nat.ltb_lt _ _) H). Qed.
Lemma add_regions_full info l : (MAX_RAM <= ram_count info)%nat -> foldl add_region info l = info.
Proof. intros H. induction l as [| r l IH]; [done |]. cbn [foldl]. unfold add_region at 2. by rewrite (proj2 (Nat.ltb_ge _ _) H). Qed.
(** An array filled from the front up to its size. *)
Lemma fill_snoc {A} (l all : list A) (x : A) cnt max : length l = max -> take cnt l = take max all -> cnt = length (take max all) -> (cnt < max)%nat ->
  take (S cnt) (<[cnt := x]> l) = take max (all ++ [x]) /\ S cnt = length (take max (all ++ [x])).
Proof.
  intros Hl Ht Hc Hm. rewrite length_take in Hc. assert (cnt = length all) as -> by lia. rewrite (take_ge all) in Ht by lia.
  rewrite (take_ge (all ++ [x])) by (rewrite length_app; cbn; lia). rewrite length_app. cbn [length]. split; [| lia].
  rewrite (take_S_r _ _ x) by (apply list_lookup_insert_eq; lia). by rewrite take_insert_ge, Ht by lia.
Qed.
Lemma full_snoc {A} (all : list A) (x : A) cnt max : cnt = length (take max all) -> (max <= cnt)%nat -> take max (all ++ [x]) = take max all.
Proof. rewrite length_take. intros Hc Hm. rewrite take_app_le by lia. done. Qed.

Section Apply.
Context (addr : Z) (log : list event) (rsv : list (Z * Z)) (info : MachineInfo) (gic : bool).
Hypothesis D : described addr log rsv info.
Hypothesis Hgic : gic = negb (bool_decide (gics log = [])).

Lemma described_regions l : forall i pre, length (ram i) = MAX_RAM -> take (ram_count i) (ram i) = take MAX_RAM pre -> ram_count i = length (take MAX_RAM pre) ->
  let i' := foldl add_region i l in
  length (ram i') = MAX_RAM /\ take (ram_count i') (ram i') = take MAX_RAM (pre ++ l) /\ ram_count i' = length (take MAX_RAM (pre ++ l))
  /\ i' <| ram := ram i |> <| ram_count := ram_count i |> = i.
Proof.
  induction l as [| r l IH]; intros i pre H1 H2 H3; cbn [foldl]; [rewrite app_nil_r; by destruct i |]. cbn zeta.
  assert (pre ++ r :: l = (pre ++ [r]) ++ l) as -> by by rewrite <- app_assoc. unfold add_region at 2 4 6 8 10. destruct (Nat.ltb_spec (ram_count i) MAX_RAM) as [Hlt | Hge].
  - destruct (fill_snoc (ram i) pre r (ram_count i) MAX_RAM H1 H2 H3 Hlt) as [F1 F2].
    destruct (IH (i <| ram := <[ram_count i := r]> (ram i) |> <| ram_count := S (ram_count i) |>) (pre ++ [r])) as (A & B & C & E); [cbn; by rewrite length_insert | exact F1 | exact F2 |].
    split; [exact A |]. split; [exact B |]. split; [exact C |].
    apply (f_equal (fun j => j <| ram := ram i |> <| ram_count := ram_count i |>)) in E. refine (eq_trans E _). by destruct i.
  - pose proof (full_snoc pre r _ MAX_RAM H3 Hge) as F. rewrite <- F in H2, H3. destruct (IH i (pre ++ [r]) H1 H2 H3) as (A & B & C & E). done.
Qed.

Lemma last_omap_snoc {A B} (g : A -> option B) l x d : default d (last (omap g (l ++ [x]))) = default (default d (last (omap g l))) (g x).
Proof. rewrite omap_snoc. destruct (g x); [by rewrite last_snoc | by rewrite app_nil_r]. Qed.
Lemma last_some_snoc {A B} (g : A -> option B) l x : last (omap g (l ++ [x])) = match g x with Some y => Some y | None => last (omap g l) end.
Proof. rewrite omap_snoc. destruct (g x); [by rewrite last_snoc | by rewrite app_nil_r]. Qed.

(** The lists of facts, one fact later. *)
Ltac fact_lists :=
  unfold chip, last_fact in *; unfold memory, processors, transports, uarts, gics, local_intcs, seed, arguments in *;
  rewrite ?facts_snoc, ?chosen_snoc, ?app_nil_r; rewrite ?last_omap_snoc, ?last_some_snoc; rewrite ?omap_snoc, ?app_nil_r;
  cbn [default from_option id fmap option_fmap option_map snd fst].

Lemma described_fact f : described addr (log ++ [Fact f]) rsv (apply_fact f info gic).1 /\ (apply_fact f info gic).2 = negb (bool_decide (gics (log ++ [Fact f]) = [])).
Proof.
  pose proof D as [D1 D2 D3 D4 D5 D6 D7 D8 D9 D10 D11 D12 D13 D14 D15 D16 D17 D18 D19].
  destruct f as [l | i r | h | d r s | d c | a | a | a irq | a | irq |]; cbn [apply_fact].
  - destruct D4 as (R1 & R2 & R3). destruct (described_regions l info _ R1 R2 R3) as (A & B & C & E). split; [| fact_lists; exact Hgic].
    set (i' := foldl add_region info l) in *. cbn [fst]. rewrite <- E in D1, D2, D3, D5, D6, D7, D8, D9, D10, D11, D12, D13, D14, D15, D16, D17, D18, D19. clear E.
    constructor; fact_lists; try done. rewrite join_app. cbn. rewrite app_nil_r. done.
  - split; [| fact_lists; exact Hgic]. destruct D6 as (P1 & P2 & P3 & P4 & P5). destruct (Nat.ltb_spec (cpu_count info) MAX_CPUS) as [Hlt | Hge]; cbn [fst].
    + constructor; fact_lists; try done. fold (processors log) in *. set (all := processors log) in *. rewrite length_take, <- (length_map fst) in P3. rewrite <- !firstn_map, !map_app in *. cbn [map fst snd].
      destruct (fill_snoc (cpus info) (map fst all) i (cpu_count info) MAX_CPUS P1 P4) as [F1 F2]; [by rewrite length_take | done |].
      destruct (fill_snoc (cpu_release info) (map snd all) r (cpu_count info) MAX_CPUS P2 P5) as [F3 F4]; [rewrite length_take; by rewrite !length_map in * | done |].
      unfold set_field. cbn [cpus cpu_release cpu_count]. rewrite !length_insert. split_and!; [done | done | | done | done].
      rewrite F2, !length_take, !length_app, length_map. done.
    + constructor; fact_lists; try done. fold (processors log) in *. by rewrite (full_snoc (processors log) _ _ MAX_CPUS P3 Hge).
  - split; [constructor; fact_lists; done | fact_lists; exact Hgic].
  - split; [constructor; fact_lists; done | fact_lists]. by destruct (omap _ (facts log)).
  - split; [constructor; fact_lists; done | fact_lists]. by destruct (omap _ (facts log)).
  - split; [| fact_lists; by destruct gic]. rewrite Hgic. destruct (bool_decide_reflect (gics log = [])) as [Hg | Hg]; cbn [negb fst].
    + constructor; fact_lists; try done. rewrite Hg. cbn [last]. fold (local_intcs log). by destruct (local_intcs log).
    + constructor; fact_lists; try done. revert D8 Hg. fold (gics log). set (gs := gics log) in *. destruct (last gs) as [[v x] |] eqn:El; [done |]. apply last_None in El. done.
  - split; [constructor; fact_lists; done | fact_lists; exact Hgic].
  - split; [| fact_lists; exact Hgic]. cbn [fst]. destruct (uart_found info) eqn:Eu.
    + constructor; fact_lists; try done; fold (uarts log) in *; destruct (uarts log) as [| [a' irq'] us]; cbn [app]; try done.
      by rewrite Eu.
    + revert D15 D16. fold (uarts log). destruct (uarts log) as [| [a' irq'] us] eqn:Es; intros D15 D16; [| by injection D15].
      destruct irq; constructor; fact_lists; fold (uarts log) in *; rewrite ?Es; cbn [app]; done.
  - split; [| fact_lists; exact Hgic]. destruct D18 as (T1 & T2 & T3). destruct (Nat.ltb_spec (virtio_count info) MAX_VIRTIO) as [Hlt | Hge]; cbn [fst].
    + constructor; fact_lists; try done. destruct (fill_snoc (virtio info) _ a _ MAX_VIRTIO T1 T2 T3 Hlt) as [F1 F2]. unfold set_field. cbn [virtio virtio_count]. by rewrite length_insert.
    + constructor; fact_lists; try done. fold (transports log) in *. by rewrite (full_snoc (transports log) _ _ MAX_VIRTIO T3 Hge).
  - split; [constructor; fact_lists; done | fact_lists; exact Hgic].
  - split; [constructor; fact_lists; done | fact_lists; exact Hgic].
Qed.
End Apply.

(** * A node ends *)

Record node_ok (up : list (list property)) (nm : list Z) (props : list property) : Prop := {
  no_cells : cells_ok props;
  no_text : Forall (fun pr => textual pr = true -> 0 ∈ pval pr) props;
  no_bus : match up with [] => True | par :: _ => bus_ok par props end;
  no_memory : is_memory_node nm props = true -> entry up <= Z.of_nat (length (reg props)) -> 0 < entry up;
  no_irq : match fact_of up nm props with Uart _ (Some irq) | Timer irq => irq < 2 ^ 32 | _ => True end;
  no_roles : uart_node props && (virtio_node props || timer_node props) || virtio_node props && timer_node props = false }.

Section Close.
Context (b : list Z) (up : list (list property)) (stack : list Node) (depth : nat) (level1 : bool) (nm : list Z) (props : list property) (n : Node).
Hypothesis Hb : Forall is_byte b.
Hypothesis Hn : node_is b level1 nm props n.
Hypothesis Hup : Forall2 (bus_is b) (rev (take depth stack)) up.
Hypothesis Hbuses : buses_ok up.
Hypothesis Hok : node_ok up nm props.
Abbreviation ac := (parent_addr_cells up).
Abbreviation sc := (parent_size_cells up).
Abbreviation e := (entry up).
Abbreviation rlen := (Z.of_nat (length (reg props))).

Lemma parent_cells : 0 <= ac <= 2 ^ 16 /\ 0 <= sc <= 2 ^ 16.
Proof. unfold parent_addr_cells, parent_size_cells. destruct up as [| ps up']; [lia |]. destruct Hbuses as [[H1 H2] _]. done. Qed.
Lemma reg_addr_ok i : 0 <= i -> i * e + 4 * ac <= rlen -> reg_addr b stack depth n ac e i = Ok (address up props i).
Proof.
  intros Hi Hl. destruct parent_cells as [Ha Hs]. destruct (ni_reg _ _ _ _ _ Hn) as [R1 R2 R3]. unfold reg_addr.
  rewrite (read_value b Hb (reg_off n) (reg props) R1 R3 (i * e) ac) by (unfold entry in *; nia). cbn [mbind outcome_bind].
  apply (translate_ok b Hb up); [done | done | apply cells_range].
Qed.
Lemma reg_size_ok i : 0 <= i -> (i + 1) * e <= rlen -> reg_size b n ac sc e i = Ok (size up props i).
Proof.
  intros Hi Hl. destruct parent_cells as [Ha Hs]. destruct (ni_reg _ _ _ _ _ Hn) as [R1 R2 R3]. unfold reg_size.
  replace (reg_off n + i * e + 4 * ac) with (reg_off n + (i * e + 4 * ac)) by lia. apply (read_value b Hb (reg_off n) (reg props) R1 R3); unfold entry in *; nia.
Qed.
Lemma addr_fits i : 0 <= i -> (i + 1) * e <= rlen -> i * e + 4 * ac <= rlen.
Proof. intros Hi Hl. destruct parent_cells. unfold entry in *. nia. Qed.

Lemma ram_loop_ok : 0 < e -> forall (fuel : nat) i info, 0 <= i -> (Z.to_nat (rlen / e - i) < fuel)%nat ->
  ram_loop b stack depth n ac sc e fuel i info
  = Ok (foldl add_region info (filter (fun '(_, s) => 0 < s) (map (fun i => (address up props i, size up props i)) (seqZ i (rlen / e - i))))).
Proof.
  intros He. induction fuel as [| fuel IH]; intros i info Hi Hf; [lia |]. cbn [ram_loop]. rewrite (sp_len _ _ _ _ (ni_reg _ _ _ _ _ Hn)).
  destruct (Z.leb_spec ((i + 1) * e) rlen) as [Hc | Hc]; cbn [andb].
  - assert (i < rlen / e) as Hlt by by apply window_count. rewrite seqZ_cons by lia. cbn [map]. rewrite filter_cons.
    destruct (Nat.ltb_spec (ram_count info) MAX_RAM) as [Hm | Hm].
    + rewrite reg_addr_ok, reg_size_ok by (done || by apply addr_fits). cbn [mbind outcome_bind]. rewrite IH by lia. replace (Z.pred (rlen / e - i)) with (rlen / e - (i + 1)) by lia.
      change (Z.succ i) with (i + 1). destruct (Z.ltb_spec 0 (size up props i)) as [Hs | Hs].
      * rewrite decide_True by done. cbn [foldl]. by rewrite add_region_room.
      * rewrite decide_False by lia. done.
    + by rewrite add_regions_full.
  - assert (rlen / e <= i) by (apply Z.nlt_ge; rewrite window_count by lia; lia). by rewrite seqZ_nil by lia.
Qed.

(** The PCI host bridge. *)
Definition add_window (h : PciHost) (w : Z * (Z * Z * Z)) : PciHost :=
  if w.1 =? 1 then h <| io := w.2 |> else if w.1 =? 2 then h <| mem32 := w.2 |> else h.
Lemma add_windows ws : forall h, foldl add_window h ws = mkPciHost (ecam h) (ecam_size h) (bus_start h) (bus_end h)
  (foldl (fun x '(k, w) => if k =? 1 then w else x) (io h) ws) (foldl (fun x '(k, w) => if k =? 2 then w else x) (mem32 h) ws).
Proof.
  induction ws as [| [k w] ws IH]; intros h; cbn [foldl]; [by destruct h |]. rewrite IH. unfold add_window. cbn [fst snd].
  destruct (Z.eqb_spec k 1) as [-> |]; [done |]. by destruct (k =? 2).
Qed.
Abbreviation pe := (4 * (3 + ac + size_cells props)).
Abbreviation pv := (default [] (ranges props)).
Abbreviation pcount := (Z.of_nat (length pv) / pe).
Lemma pci_ranges_ok : addr_cells props = 3 -> forall (fuel : nat) i h, 0 <= i -> (Z.to_nat (pcount - i) < fuel)%nat ->
  pci_ranges b n ac fuel pe (ranges_off n + pe * i) h = Ok (foldl add_window h (map (pci_window up props) (seqZ i (pcount - i)))).
Proof.
  intros H3. destruct parent_cells as [Ha Hs]. destruct (no_cells _ _ _ Hok) as [_ Hsc]. destruct (ni_ranges _ _ _ _ _ Hn) as [R1 R2 R3].
  induction fuel as [| fuel IH]; intros i h Hi Hf; [lia |]. cbn [pci_ranges]. rewrite (ni_ac _ _ _ _ _ Hn), H3, (ni_sc _ _ _ _ _ Hn), R2. change (3 =? 3) with true. cbn [andb].
  destruct (Z.leb_spec (ranges_off n + pe * i + pe) (ranges_off n + Z.of_nat (length pv))) as [Hc | Hc].
  - assert (i < pcount) as Hlt by (apply window_count; lia). rewrite seqZ_cons by lia. cbn [map foldl].
    destruct (word_value b Hb (ranges_off n) pv R1 R3 (pe * i)) as [E1 _]; [nia | nia |]. rewrite E1. cbn [mbind outcome_bind].
    replace (ranges_off n + pe * i + 4) with (ranges_off n + (pe * i + 4)) by lia. rewrite (read_value b Hb _ pv R1 R3 _ 2) by nia. cbn [mbind outcome_bind].
    replace (ranges_off n + pe * i + 12) with (ranges_off n + (pe * i + 12)) by lia. rewrite (read_value b Hb _ pv R1 R3 _ ac) by nia. cbn [mbind outcome_bind].
    replace (ranges_off n + (pe * i + 12) + 4 * ac) with (ranges_off n + (pe * i + 12 + 4 * ac)) by lia. rewrite (read_value b Hb _ pv R1 R3 _ (size_cells props)) by nia. cbn [mbind outcome_bind].
    replace (ranges_off n + pe * i + pe) with (ranges_off n + pe * (i + 1)) by lia. rewrite IH by lia. replace (Z.pred (pcount - i)) with (pcount - (i + 1)) by lia. done.
  - assert (pcount <= i) by (apply Z.nlt_ge; rewrite window_count by lia; lia). by rewrite seqZ_nil by lia.
Qed.
Lemma pci_host_ok : e <= rlen -> pci_host b stack depth n ac sc e = Ok (host up props).
Proof.
  intros Hl. destruct parent_cells as [Ha Hs]. destruct (no_cells _ _ _ Hok) as [Hac Hsc]. unfold pci_host.
  rewrite reg_addr_ok, reg_size_ok by (lia || (apply addr_fits; lia)). cbn [mbind outcome_bind]. destruct (ni_busrange _ _ _ _ _ Hn) as [B1 B2 B3]. rewrite B2.
  set (h1 := mkPciHost (address up props 0) (size up props 0) (if 8 <=? Z.of_nat (length (bus_range props)) then cells (bus_range props) 0 1 mod 256 else 0)
    (if 8 <=? Z.of_nat (length (bus_range props)) then cells (bus_range props) 4 1 mod 256 else 255) (0, 0, 0) (0, 0, 0)).
  match goal with |- context [mbind _ (if 8 <=? Z.of_nat (length (bus_range props)) then ?x else ?y)] =>
    assert ((if 8 <=? Z.of_nat (length (bus_range props)) then x else y) = Ok h1) as -> end.
  { unfold h1. destruct (Z.leb_spec 8 (Z.of_nat (length (bus_range props)))) as [H8 | H8]; [| done].
    destruct (word_value b Hb _ _ B1 B3 0) as [E1 _]; [lia | lia |]. destruct (word_value b Hb _ _ B1 B3 4) as [E2 _]; [lia | lia |]. rewrite Z.add_0_r in E1. by rewrite E1, E2. }
  cbn [mbind outcome_bind]. rewrite (ni_ac _ _ _ _ _ Hn), (ni_sc _ _ _ _ _ Hn). rewrite (add_fits 32 (addr_cells props)) by lia. cbn [mbind outcome_bind].
  rewrite add_fits by lia. cbn [mbind outcome_bind]. rewrite (sp_len _ _ _ _ (ni_ranges _ _ _ _ _ Hn)). unfold host. fold h1.
  destruct (Z.eqb_spec (addr_cells props) 3) as [E3 | E3].
  - rewrite E3. pose proof (pci_ranges_ok E3 (S (Z.to_nat (Z.of_nat (length pv)))) 0 h1 ltac:(lia)) as Hp. rewrite Z.mul_0_r, Z.add_0_r, Z.sub_0_r in Hp. rewrite Hp.
    + rewrite add_windows. unfold last_window, pci_windows. rewrite E3. done.
    + assert (pcount <= Z.of_nat (length pv)) by (apply Z.div_le_upper_bound; nia). lia.
  - cbn [pci_ranges]. rewrite (ni_ac _ _ _ _ _ Hn), (proj2 (Z.eqb_neq _ _) E3). cbn [andb]. unfold last_window, pci_windows. by rewrite (proj2 (Z.eqb_neq _ _) E3).
Qed.

Lemma decode_irq_ok o k : 0 <= o -> o + 4 * Z.min k 2 <= Z.of_nat (length (interrupts props)) -> 1 <= k -> irq_number (interrupts props) o k < 2 ^ 32 ->
  decode_irq b (irq_off n + o) k = Ok (irq_number (interrupts props) o k).
Proof.
  intros Ho Hl Hk Hr. destruct (ni_irq _ _ _ _ _ Hn) as [R1 R2 R3]. unfold decode_irq, irq_number in *.
  destruct (word_value b Hb _ _ R1 R3 o) as [E1 W1]; [lia | lia |]. rewrite E1. replace (irq_off n + o + 4) with (irq_off n + (o + 4)) by lia.
  destruct (Z.eqb_spec k 3) as [-> |]; [| destruct (Z.eqb_spec k 2) as [-> |]; [| done]].
  - destruct (word_value b Hb _ _ R1 R3 (o + 4)) as [E2 W2]; [lia | lia |]. rewrite E2. cbn [mbind outcome_bind]. by destruct (cells (interrupts props) o 1 =? 1); apply add_fits.
  - destruct (word_value b Hb _ _ R1 R3 (o + 4)) as [E2 W2]; [lia | lia |]. rewrite E2. cbn [mbind outcome_bind]. unfold mul. rewrite (proj2 (Z.ltb_lt _ _)) by lia.
    cbn [mbind outcome_bind]. by apply add_fits.
Qed.

Lemma record_node_ok info gic : record_node b stack depth n ac sc e info gic = Ok (apply_fact (fact_of up nm props) info gic).
Proof.
  destruct parent_cells as [Ha Hs]. pose proof (no_irq _ _ _ Hok) as Hirq. pose proof (no_roles _ _ _ Hok) as Hroles. pose proof (no_memory _ _ _ Hok) as Hmem.
  assert (0 <= e) as He by (unfold entry; lia). unfold record_node. revert Hirq. unfold fact_of.
  rewrite (sp_len _ _ _ _ (ni_reg _ _ _ _ _ Hn)), (sp_len _ _ _ _ (ni_irq _ _ _ _ _ Hn)), (ni_memory _ _ _ _ _ Hn), (ni_cpu _ _ _ _ _ Hn), (ni_pcie _ _ _ _ _ Hn), (ni_gicv3 _ _ _ _ _ Hn),
    (ni_gic _ _ _ _ _ Hn), (ni_local _ _ _ _ _ Hn), (ni_armctrl _ _ _ _ _ Hn), (ni_uart _ _ _ _ _ Hn), (ni_virtio _ _ _ _ _ Hn), (ni_timer _ _ _ _ _ Hn), (ni_spin _ _ _ _ _ Hn), (ni_release _ _ _ _ _ Hn).
  destruct (is_memory_node nm props && (e <=? rlen)) eqn:E1.
  { apply andb_true_iff in E1 as [E1 E2]. apply Z.leb_le in E2. intros _. rewrite (ram_loop_ok (Hmem E1 E2)); [by rewrite Z.sub_0_r | lia |].
    assert (rlen / e <= rlen) by (apply Z.div_le_upper_bound; [by apply Hmem | specialize (Hmem E1 E2); nia]). lia. }
  destruct (is_cpu_node nm props && (4 * ac <=? rlen)) eqn:E2.
  { apply andb_true_iff in E2 as [_ E2]. apply Z.leb_le in E2. intros _. cbn [apply_fact]. destruct (cpu_count info <? MAX_CPUS)%nat; [| done]. destruct (ni_reg _ _ _ _ _ Hn) as [R1 R2 R3].
    pose proof (read_value b Hb (reg_off n) (reg props) R1 R3 0 ac ltac:(lia) ltac:(lia) ltac:(lia)) as Er. rewrite Z.add_0_r in Er. by rewrite Er. }
  destruct (compatible props ["pci-host-ecam-generic"%string] && (e <=? rlen)) eqn:E3.
  { apply andb_true_iff in E3 as [_ E3]. apply Z.leb_le in E3. intros _. by rewrite pci_host_ok. }
  assert (e <= rlen -> reg_addr b stack depth n ac e 0 = Ok (address up props 0)) as Ra0 by (intros; apply reg_addr_ok; [lia | apply addr_fits; lia]).
  assert (2 * e <= rlen -> reg_addr b stack depth n ac e 1 = Ok (address up props 1)) as Ra1 by (intros; apply reg_addr_ok; [lia | apply addr_fits; lia]).
  assert (2 * e <= rlen -> reg_size b n ac sc e 1 = Ok (size up props 1)) as Rs1 by (intros; apply reg_size_ok; lia).
  destruct (compatible props ["arm,gic-v3"%string] && (2 * e <=? rlen)) eqn:E4.
  { apply andb_true_iff in E4 as [_ E4]. apply Z.leb_le in E4. intros _. by rewrite Ra0, Ra1, Rs1 by lia. }
  destruct (compatible props ["arm,cortex-a15-gic"%string; "arm,gic-400"%string] && (2 * e <=? rlen)) eqn:E5.
  { apply andb_true_iff in E5 as [_ E5]. apply Z.leb_le in E5. intros _. by rewrite Ra0, Ra1 by lia. }
  destruct (compatible props ["brcm,bcm2836-l1-intc"%string] && (e <=? rlen)) eqn:E6.
  { apply andb_true_iff in E6 as [_ E6]. apply Z.leb_le in E6. intros _. by rewrite Ra0 by lia. }
  destruct (compatible props ["brcm,bcm2836-armctrl-ic"%string] && (e <=? rlen)) eqn:E7.
  { apply andb_true_iff in E7 as [_ E7]. apply Z.leb_le in E7. intros _. by rewrite Ra0 by lia. }
  destruct (uart_node props) eqn:Eu, (virtio_node props) eqn:Ev, (timer_node props) eqn:Et; cbn [andb orb] in Hroles |- *; try done.
  - destruct (Z.leb_spec e rlen) as [Hl | Hl]; cbn [andb apply_fact]; [| done]. destruct (uart_found info); cbn [negb]; [done |]. rewrite Ra0 by done. cbn [mbind outcome_bind].
    destruct (Z.leb_spec 8 (Z.of_nat (length (interrupts props)))) as [H8 | H8]; [| done]. intros Hirq. rewrite <- (Z.add_0_r (irq_off n)), decode_irq_ok; [done | lia | zdiv | zdiv | done].
  - destruct (Z.leb_spec e rlen) as [Hl | Hl]; cbn [andb apply_fact]; [| done]. intros _. destruct (virtio_count info <? MAX_VIRTIO)%nat; [| done]. by rewrite Ra0.
  - destruct (Z.leb_spec 16 (Z.of_nat (length (interrupts props)))) as [H16 | H16]; cbn [andb]; [| done].
    destruct (Z.eqb_spec (Z.of_nat (length (interrupts props)) mod 16) 0) as [Hm | Hm]; [| done]. intros Hirq.
    change (2 * 4) with 8. rewrite decode_irq_ok; [done | zdiv | zdiv | zdiv | done].
Qed.

(** [FDT_END_NODE] of an enabled node records its PSCI method and its fact. *)
Lemma close_node_ok addr log rsv info gic : stack !! depth = Some n -> (depth <= length stack)%nat -> described addr log rsv info -> gic = negb (bool_decide (gics log = [])) ->
  exists info' gic', close_node b stack depth info gic = Ok (info', gic')
  /\ described addr (log ++ close_events up nm props) rsv info' /\ gic' = negb (bool_decide (gics (log ++ close_events up nm props) = [])).
Proof.
  intros Hst Hlen D Hgic. destruct parent_cells as [Ha Hs]. unfold close_node. rewrite Hst. cbn [unwrap mbind outcome_bind].
  set (par := if (0 <? depth)%nat then _ else _). assert (exists q, par = Ok q /\ child_addr_cells q = ac /\ child_size_cells q = sc) as (q & -> & Q1 & Q2).
  { unfold par, parent_addr_cells, parent_size_cells. destruct depth as [| d']; cbn [Nat.ltb Nat.leb].
    - change (take 0 stack) with (@nil Node) in Hup. inversion Hup. by exists new_node.
    - destruct (stack !! d') as [q |] eqn:Eq; [| apply lookup_ge_None in Eq; lia]. replace (S d' - 1)%nat with d' by lia. rewrite Eq. exists q. split; [done |].
      rewrite (take_S_r _ _ _ Eq), rev_app_distr in Hup. inversion Hup as [| ? ps ? ? Hq _]; subst. destruct Hq. done. }
  cbn [mbind outcome_bind]. rewrite Q1, Q2, add_fits by lia. cbn [mbind outcome_bind]. fold e. rewrite (ni_status _ _ _ _ _ Hn). unfold close_events.
  destruct (enabled props); cbn [negb]; [| exists info, gic; by rewrite app_nil_r]. rewrite record_node_ok, (ni_psci _ _ _ _ _ Hn), (ni_method _ _ _ _ _ Hn).
  set (i1 := if _ && _ then _ else _). set (l1 := log ++ (if bool_decide (psci_of props = NoConduit) then [] else [Psci (psci_of props)])).
  assert (described addr l1 rsv i1 /\ gic = negb (bool_decide (gics l1 = []))) as [D1 G1].
  { unfold i1, l1, psci_of. destruct (compatible props _); cbn [andb]; [| rewrite app_nil_r; done].
    destruct (bool_decide_reflect (psci_method props = NoConduit)) as [Em | Em].
    - rewrite bool_decide_eq_false_2 by (intros H; by apply H). rewrite app_nil_r. done.
    - rewrite bool_decide_eq_true_2 by done. split; [| unfold gics; by rewrite facts_snoc, app_nil_r].
      destruct D. constructor; unfold chip, last_fact in *; unfold memory, processors, transports, uarts, gics, local_intcs, seed, arguments in *;
        rewrite ?facts_snoc, ?chosen_snoc, ?app_nil_r; try done. by rewrite last_omap_snoc. }
  exists (apply_fact (fact_of up nm props) i1 gic).1, (apply_fact (fact_of up nm props) i1 gic).2. split; [by destruct (apply_fact _ _ _) |].
  rewrite app_assoc. fold l1. by apply described_fact.
Qed.
End Close.
End FdtFacts.
