(* ===== verification/FdtWalk.v ===== *)
(** The walk of the flattened device tree parser over a whole tree
    (src/arch/arm64/fdt.rs): it ends, does not panic, and returns what the tree says. *)

From Stdlib Require Import ZArith Lia.
From stdpp Require Import base list list_numbers numbers decidable tactics strings.
From S2P Require Import Prelude Records FatNames Fdt FdtTree FdtParse FdtFacts.
Import FatNames Fdt FdtTree FdtParse FdtFacts.

Module FdtWalk.

(** Every node on the parser's stack is one the parser can handle. *)
#[warnings="-register-all"] Inductive tree_ok : list (list property) -> dt -> Prop :=
| tree_ok_deep up t : (DEPTH <= length up)%nat -> tree_ok up t
| tree_ok_node up nm props kids : (length up < DEPTH)%nat -> node_ok up nm props -> Forall (tree_ok (props :: up)) kids -> tree_ok up (Dt nm props kids).

Section Walk.
Context (b : list Z) (addr so : Z) (rsv : list (Z * Z)).
Hypothesis Hb : Forall is_byte b.
Hypothesis Haddr : 0 <= addr /\ addr + Z.of_nat (length b) < 2 ^ 64.
Hypothesis Hlen : Z.of_nat (length b) < 2 ^ 32.

(** * Steps *)

Definition enough (fuel : nat) (p : Z) : Prop := Z.of_nat (length b) - p < 4 * Z.of_nat fuel.
(** The walk goes from one state to the other, with fuel left for what follows. *)
Definition reaches (w w' : Walk) : Prop := forall fuel, enough fuel (w_p w) -> exists fuel', enough fuel' (w_p w') /\ walk b fuel addr so w = walk b fuel' addr so w'.
Lemma reaches_refl w : reaches w w.
Proof. intros fuel H. by exists fuel. Qed.
Lemma reaches_trans w1 w2 w3 : reaches w1 w2 -> reaches w2 w3 -> reaches w1 w3.
Proof. intros H1 H2 fuel Hf. destruct (H1 fuel Hf) as (f2 & Hf2 & ->). by apply H2. Qed.

(** One token: what follows it starts at least four bytes later. *)
Lemma reaches_token w t w' : be32 b (w_p w) = Ok t -> w_p w + 4 <= w_p w' ->
  (forall fuel, walk b (S fuel) addr so w = walk b fuel addr so w') -> reaches w w'.
Proof.
  intros Ht Hp Hs fuel Hf. destruct (be32_range b Hb _ _ Ht) as [_ Hin]. unfold enough in *. destruct fuel as [| fuel]; [lia |].
  exists fuel. split; [unfold enough; lia | apply Hs].
Qed.
Lemma align4 x : 0 <= x < 2 ^ 63 -> x <= align_down (x + 3) 4.
Proof. intros Hx. change 4 with (2 ^ 2). pose proof (align_down_range (x + 3) 2 ltac:(lia) ltac:(lia)). lia. Qed.
Lemma cstr_inside off s : cstr b off = Ok s -> 0 <= off -> off + Z.of_nat (length s) <= Z.of_nat (length b).
Proof.
  unfold cstr. destruct (Z.leb_spec off (Z.of_nat (length b))); [| done]. intros [= <-] H0.
  destruct (text_prefix (drop (Z.to_nat off) b)) as [_ H1]. rewrite length_drop in H1. lia.
Qed.

Lemma reaches_nop w : be32 b (w_p w) = Ok FDT_NOP -> reaches w (w <| w_p := w_p w + 4 |>).
Proof. intros Ht. apply (reaches_token _ _ _ Ht); [cbn; lia |]. intros fuel. cbn [walk]. rewrite Ht. done. Qed.

Definition opened (w : Walk) (nm : list Z) : Walk :=
  let n := new_node <| is_chosen := (w_depth w =? 1)%nat && is_str nm "chosen" |> <| is_memory := starts_with nm "memory" |> <| is_cpu := starts_with nm "cpu@" |> in
  mkWalk (w_info w) (if (w_depth w <? DEPTH)%nat then <[w_depth w := n]> (w_stack w) else w_stack w) (S (w_depth w))
    (align_down (w_p w + 4 + Z.of_nat (length nm) + 1 + 3) 4) (w_gic w).
Lemma reaches_begin w nm : 0 <= w_p w -> be32 b (w_p w) = Ok FDT_BEGIN_NODE -> cstr b (w_p w + 4) = Ok nm -> reaches w (opened w nm) /\ w_p w + 4 <= w_p (opened w nm).
Proof.
  intros H0 Ht Hc. pose proof (cstr_inside _ _ Hc ltac:(lia)). assert (w_p w + 4 <= w_p (opened w nm)) as Hp.
  { cbn. pose proof (align4 (w_p w + 4 + Z.of_nat (length nm) + 1) ltac:(lia)). lia. }
  split; [| done]. apply (reaches_token _ _ _ Ht Hp). intros fuel. cbn [walk]. rewrite Ht. cbn [mbind outcome_bind]. change (FDT_BEGIN_NODE =? FDT_BEGIN_NODE) with true. cbv iota.
  unfold begin_node. change (w_p (w <| w_p := w_p w + 4 |>)) with (w_p w + 4). rewrite Hc. cbn [mbind outcome_bind]. unfold opened.
  change (w_depth (w <| w_p := w_p w + 4 |>)) with (w_depth w). by destruct (w_depth w <? DEPTH)%nat eqn:Ed; unfold set_field; cbn [w_info w_stack w_depth w_p w_gic]; rewrite Ed.
Qed.

(** * Below the stack *)

Lemma reaches_end_deep w : be32 b (w_p w) = Ok FDT_END_NODE -> (DEPTH < w_depth w)%nat -> reaches w (w <| w_p := w_p w + 4 |> <| w_depth := (w_depth w - 1)%nat |>).
Proof.
  intros Ht Hd. apply (reaches_token _ _ _ Ht); [cbn; lia |]. intros fuel. cbn [walk]. rewrite Ht. cbn [mbind outcome_bind].
  change (FDT_END_NODE =? FDT_BEGIN_NODE) with false. change (FDT_END_NODE =? FDT_END_NODE) with true. cbv iota. change (w_depth (w <| w_p := w_p w + 4 |>)) with (w_depth w).
  rewrite (proj2 (Nat.eqb_neq _ _)) by (unfold DEPTH in Hd; lia). unfold end_node. change (w_depth (w <| w_p := w_p w + 4 |>)) with (w_depth w).
  change (w_depth (_ <| w_depth := ?x |>)) with x. by rewrite (proj2 (Nat.leb_le _ _)) by lia.
Qed.
Definition moved (w : Walk) (q : Z) : Walk := w <| w_p := q |>.
Lemma props_deep p props q : at_props b so p props q -> forall w, w_p w = p -> 0 <= p -> (DEPTH < w_depth w)%nat -> reaches w (moved w q) /\ p <= q.
Proof.
  induction 1 as [p | p prs q Ht _ IH | p nameoff pr prs q Ht Hl Ho Hc Hoff Hsl _ IH]; intros w Hp H0 Hd.
  - subst p. split; [destruct w; apply reaches_refl | lia].
  - rewrite <- Hp in Ht. pose proof (reaches_nop w Ht) as R1. destruct (IH (w <| w_p := w_p w + 4 |>)) as [R2 L]; [cbn; lia | lia | done |]. split; [| lia].
    exact (reaches_trans _ _ _ R1 R2).
  - destruct (be32_range b Hb _ _ Hl) as [Hlr Hin]. assert (p + 12 <= align_down (p + 12 + plen pr + 3) 4) as Ha.
    { pose proof (align4 (p + 12 + plen pr) ltac:(lia)). lia. }
    destruct (IH (moved w (align_down (p + 12 + plen pr + 3) 4))) as [R2 L]; [done | lia | done |]. split; [| lia].
    refine (reaches_trans _ (moved w (align_down (p + 12 + plen pr + 3) 4)) _ _ R2). subst p. apply (reaches_token _ _ _ Ht); [cbn; lia |]. intros fuel.
    cbn [walk]. rewrite Ht. cbn [mbind outcome_bind]. change (FDT_PROP =? FDT_BEGIN_NODE) with false. change (FDT_PROP =? FDT_END_NODE) with false. change (FDT_PROP =? FDT_PROP) with true. cbv iota.
    unfold prop. change (w_p (w <| w_p := w_p w + 4 |>)) with (w_p w + 4). rewrite Hl. replace (w_p w + 4 + 4) with (w_p w + 8) by lia. rewrite Ho. cbn [mbind outcome_bind].
    replace (w_p w + 4 + 8) with (w_p w + 12) by lia. change (w_depth (w <| w_p := w_p w + 4 |> <| w_p := ?x |>)) with (w_depth w).
    rewrite (proj2 (Nat.ltb_lt DEPTH (w_depth w))), orb_true_r by done. done.
Qed.
Lemma tree_deep : (forall p t q, at_node b so p t q -> forall w, w_p w = p -> 0 <= p -> (DEPTH <= w_depth w)%nat -> reaches w (moved w q) /\ p <= q)
  /\ (forall p ts q, at_nodes b so p ts q -> forall w, w_p w = p -> 0 <= p -> (DEPTH <= w_depth w)%nat -> reaches w (moved w q) /\ p <= q).
Proof.
  apply at_tree_ind.
  - intros p nm props q kids r Ht Hc Hpr _ IH He w Hp H0 Hd. subst p. destruct (reaches_begin w nm H0 Ht Hc) as [R1 L1]. pose proof L1 as L1'. cbn in L1'. set (w1 := opened w nm) in *.
    destruct (props_deep _ _ _ Hpr w1) as [R2 L2]; [done | lia | cbn; lia |]. destruct (IH (moved w1 q)) as [R3 L3]; [done | lia | cbn; lia |].
    assert (reaches (moved (moved w1 q) r) (moved w (r + 4))) as R4.
    { pose proof (reaches_end_deep (moved (moved w1 q) r) He ltac:(cbn; lia)) as R. assert (w_stack w1 = w_stack w) as Es by (unfold w1, opened; cbn [w_stack]; by rewrite (proj2 (Nat.ltb_ge _ _) Hd)).
      replace (moved w (r + 4)) with ((moved (moved w1 q) r) <| w_p := w_p (moved (moved w1 q) r) + 4 |> <| w_depth := (w_depth (moved (moved w1 q) r) - 1)%nat |>); [done |].
      destruct w as [i s d p g]. unfold moved, set_field. cbn in *. rewrite Es, Nat.sub_0_r. done. }
    split; [| lia]. eapply reaches_trans; [exact R1 |]. eapply reaches_trans; [exact R2 |]. eapply reaches_trans; [exact R3 | exact R4].
  - intros p w Hp H0 Hd. subst p. split; [destruct w; apply reaches_refl | lia].
  - intros p ts q Ht _ IH w Hp H0 Hd. rewrite <- Hp in Ht. pose proof (reaches_nop w Ht) as R1. destruct (IH (w <| w_p := w_p w + 4 |>)) as [R2 L]; [cbn; lia | lia | done |]. split; [| lia].
    exact (reaches_trans _ _ _ R1 R2).
  - intros p t q ts r _ IH1 _ IH2 w Hp H0 Hd. destruct (IH1 w Hp H0 Hd) as [R1 L1]. destruct (IH2 (moved w q)) as [R2 L2]; [done | lia | done |]. split; [| lia].
    exact (reaches_trans _ _ _ R1 R2).
Qed.

(** * On the stack *)

(** Before a node below the nodes [up], after the events [log]. *)
Record inside (up : list (list property)) (log : list event) (w : Walk) : Prop := {
  in_pos : 0 <= w_p w;
  in_depth : w_depth w = length up;
  in_stack : length (w_stack w) = DEPTH;
  in_up : Forall2 (bus_is b) (rev (take (length up) (w_stack w))) up;
  in_info : described addr log rsv (w_info w);
  in_gic : w_gic w = negb (bool_decide (gics log = [])) }.
(** The walk passes what is up to [q] of the blob, and records [evs]. *)
Definition passes (up : list (list property)) (log evs : list event) (w : Walk) (q : Z) : Prop :=
  exists w', reaches w w' /\ w_p w' = q /\ w_p w <= q /\ inside up (log ++ evs) w' /\ take (length up) (w_stack w') = take (length up) (w_stack w).
Lemma passes_nil up log w : inside up log w -> passes up log [] w (w_p w).
Proof. intros H. exists w. rewrite app_nil_r. split; [apply reaches_refl | done]. Qed.
Lemma passes_app up log e1 e2 w q r : passes up log e1 w q ->
  (forall w', inside up (log ++ e1) w' -> w_p w' = q -> passes up (log ++ e1) e2 w' r) -> passes up log (e1 ++ e2) w r.
Proof.
  intros (w1 & R1 & P1 & L1 & I1 & T1) H. destruct (H w1 I1 P1) as (w2 & R2 & P2 & L2 & I2 & T2). exists w2. rewrite app_assoc, T2, T1.
  split; [by eapply reaches_trans |]. split; [done |]. split; [lia | done].
Qed.

Lemma prop_step w l n nm pre pr p (chosen := (l =? 1)%nat && is_str nm "chosen") nameoff : w_p w = p -> 0 <= p -> w_depth w = S l -> (l < DEPTH)%nat -> w_stack w !! l = Some n ->
  node_is b (l =? 1)%nat nm pre n -> (textual pr = true -> 0 ∈ pval pr) -> length (bootargs (w_info w)) = 512%nat ->
  be32 b p = Ok FDT_PROP -> be32 b (p + 4) = Ok (plen pr) -> be32 b (p + 8) = Ok nameoff ->
  cstr b (so + nameoff) = Ok (pname pr) -> poff pr = p + 12 -> slice b (p + 12) (plen pr) = Ok (pval pr) ->
  exists n', reaches w (mkWalk (if chosen then chosen_info addr pr (w_info w) else w_info w) (<[l := n']> (w_stack w)) (S l) (align_down (p + 12 + plen pr + 3) 4) (w_gic w))
  /\ node_is b (l =? 1)%nat nm (pre ++ [pr]) n' /\ p + 4 <= align_down (p + 12 + plen pr + 3) 4.
Proof.
  intros Hp H0 Hd Hl Hst Hn Htx Hargs Ht Hlen' Ho Hc Hoff Hsl. assert (span b (poff pr) (plen pr) (pval pr)) as Hspan by (constructor; [lia | done | by rewrite Hoff]).
  destruct (set_prop_ok b addr (l =? 1)%nat nm pre n pr (w_info w) Hb Haddr Hn Hspan Htx Hargs) as (n' & Hset & Hn'). rewrite (ni_chosen _ _ _ _ _ Hn) in Hset. fold chosen in Hset.
  assert (p + 4 <= align_down (p + 12 + plen pr + 3) 4) as Hal by (destruct (be32_range b Hb _ _ Hlen'); pose proof (align4 (p + 12 + plen pr) ltac:(lia)); lia).
  exists n'. split; [| done]. rewrite <- Hp in Ht. apply (reaches_token _ _ _ Ht); [cbn; lia |]. rewrite Hp in Ht. intros fuel. cbn [walk]. rewrite Hp, Ht. cbn [mbind outcome_bind].
  change (FDT_PROP =? FDT_BEGIN_NODE) with false. change (FDT_PROP =? FDT_END_NODE) with false. change (FDT_PROP =? FDT_PROP) with true. cbv iota.
  unfold prop. change (w_p (w <| w_p := p + 4 |>)) with (p + 4). rewrite Hlen'. replace (p + 4 + 4) with (p + 8) by lia. rewrite Ho. cbn [mbind outcome_bind].
  replace (p + 4 + 8) with (p + 12) by lia. change (w_depth (w <| w_p := p + 4 |> <| w_p := ?x |>)) with (w_depth w). rewrite Hd.
  rewrite (proj2 (Nat.ltb_ge DEPTH (S l))) by lia. cbn [Nat.eqb orb]. rewrite Hc. cbn [mbind outcome_bind]. replace (S l - 1)%nat with l by lia.
  change (w_stack (w <| w_p := p + 4 |> <| w_p := ?x |>)) with (w_stack w). rewrite Hst. cbn [unwrap mbind outcome_bind]. rewrite Hsl. cbn [mbind outcome_bind].
  change (w_info (w <| w_p := p + 4 |> <| w_p := ?x |>)) with (w_info w). rewrite <- Hoff, Hset, Hoff. cbn [mbind outcome_bind]. destruct w. unfold set_field. cbn in *. by rewrite Hd.
Qed.
Lemma props_walk p props q : at_props b so p props q -> forall w l n nm pre log (chosen := (l =? 1)%nat && is_str nm "chosen"),
  w_p w = p -> 0 <= p -> w_depth w = S l -> (l < DEPTH)%nat -> w_stack w !! l = Some n -> node_is b (l =? 1)%nat nm pre n ->
  Forall (fun pr => textual pr = true -> 0 ∈ pval pr) props -> described addr log rsv (w_info w) ->
  exists n' info', reaches w (mkWalk info' (<[l := n']> (w_stack w)) (S l) q (w_gic w)) /\ p <= q /\ node_is b (l =? 1)%nat nm (pre ++ props) n'
  /\ described addr (log ++ (if chosen then map Chosen props else [])) rsv info'.
Proof.
  induction 1 as [p | p prs q Ht _ IH | p nameoff pr prs q Ht Hl Ho Hc Hoff Hsl _ IH]; intros w l n nm pre log chosen Hp H0 Hd Hlt Hst Hn Htx D.
  - exists n, (w_info w). rewrite list_insert_id, app_nil_r by done. split; [destruct w; cbn in *; subst; apply reaches_refl |]. split; [lia |]. split; [done |].
    destruct chosen; by rewrite app_nil_r.
  - rewrite <- Hp in Ht. pose proof (reaches_nop w Ht) as R1. destruct (IH (w <| w_p := w_p w + 4 |>) l n nm pre log) as (n' & i' & R2 & L & N & D'); try done; [cbn; lia | lia |].
    exists n', i'. split; [exact (reaches_trans _ _ _ R1 R2) |]. split; [lia | done].
  - apply Forall_cons in Htx as [Htx Htxs]. pose proof (de_args _ _ _ _ D) as (Hargs & _).
    destruct (prop_step w l n nm pre pr p nameoff Hp H0 Hd Hlt Hst Hn Htx Hargs Ht Hl Ho Hc Hoff Hsl) as (n1 & R1 & N1 & L1). set (w1 := mkWalk _ _ _ _ _) in R1. fold chosen in w1.
    destruct (IH w1 l n1 nm (pre ++ [pr]) (log ++ (if chosen then [Chosen pr] else []))) as (n' & i' & R2 & L & N & D'); try done.
    + lia.
    + apply list_lookup_insert_eq. by apply lookup_lt_Some in Hst.
    + unfold w1. cbn [w_info]. destruct chosen; [by apply described_chosen | by rewrite app_nil_r].
    + exists n', i'. split; [| split; [lia |]].
      * refine (reaches_trans _ _ _ R1 _). unfold w1 in R2. cbn [w_stack w_gic] in R2. by rewrite list_insert_insert_eq in R2.
      * rewrite <- app_assoc in N. split; [done |]. fold chosen in D'. destruct chosen; rewrite <- app_assoc in D'; exact D'.
Qed.
Lemma gics_chosen log props (c : bool) : gics (log ++ (if c then map Chosen props else [])) = gics log.
Proof.
  destruct c; [| by rewrite app_nil_r]. unfold gics, facts. rewrite omap_app. replace (omap _ (map Chosen props)) with (@nil fact); [by rewrite app_nil_r |].
  symmetry. induction props as [| pr props IH]; [done |]. exact IH.
Qed.

Lemma reaches_end w l info gic : be32 b (w_p w) = Ok FDT_END_NODE -> w_depth w = S l -> (l < DEPTH)%nat -> close_node b (w_stack w) l (w_info w) (w_gic w) = Ok (info, gic) ->
  reaches w (mkWalk info (w_stack w) l (w_p w + 4) gic).
Proof.
  intros Ht Hd Hl Hc. apply (reaches_token _ _ _ Ht); [cbn; lia |]. intros fuel. cbn [walk]. rewrite Ht. cbn [mbind outcome_bind].
  change (FDT_END_NODE =? FDT_BEGIN_NODE) with false. change (FDT_END_NODE =? FDT_END_NODE) with true. cbv iota. change (w_depth (w <| w_p := w_p w + 4 |>)) with (w_depth w).
  rewrite Hd. cbn [Nat.eqb]. unfold end_node. change (w_depth (w <| w_p := w_p w + 4 |>)) with (w_depth w). rewrite Hd. replace (S l - 1)%nat with l by lia.
  change (w_depth (_ <| w_depth := ?x |>)) with x. rewrite (proj2 (Nat.leb_gt _ _)) by lia. change (w_stack (_ <| w_depth := l |>)) with (w_stack w).
  change (w_info (_ <| w_depth := l |>)) with (w_info w). change (w_gic (_ <| w_depth := l |>)) with (w_gic w). rewrite Hc. done.
Qed.
(** A node on the stack, given what its children do. *)
Lemma node_passes up nm props kids p q r w log : (length up < DEPTH)%nat -> inside up log w -> w_p w = p -> buses_ok up -> node_ok up nm props ->
  be32 b p = Ok FDT_BEGIN_NODE -> cstr b (p + 4) = Ok nm -> at_props b so (align_down (p + 4 + Z.of_nat (length nm) + 1 + 3) 4) props q -> be32 b r = Ok FDT_END_NODE ->
  (forall w' log', inside (props :: up) log' w' -> w_p w' = q -> passes (props :: up) log' kids w' r) ->
  passes up log ((if (length up =? 1)%nat && is_str nm "chosen" then map Chosen props else []) ++ kids ++ close_events up nm props) w (r + 4).
Proof.
  intros Hlt [I1 I2 I3 I4 I5 I6] Hp Hbus Hok Ht Hc Hpr He Hkids. set (l := length up) in *. subst p.
  destruct (reaches_begin w nm I1 Ht Hc) as [R1 L1]. pose proof L1 as L1'. cbn in L1'. set (n0 := new_node <| is_chosen := (l =? 1)%nat && is_str nm "chosen" |> <| is_memory := starts_with nm "memory" |> <| is_cpu := starts_with nm "cpu@" |>).
  assert (w_stack (opened w nm) = <[l := n0]> (w_stack w)) as Es by (unfold opened; cbn [w_stack]; rewrite I2, (proj2 (Nat.ltb_lt _ _) Hlt); done).
  set (w1 := opened w nm) in *. assert (l < length (w_stack w))%nat as Hl by lia.
  destruct (props_walk _ _ _ Hpr w1 l n0 nm [] log) as (n1 & i1 & R2 & L2 & N1 & D1); try done; [lia | cbn; by rewrite I2 | rewrite Es; by apply list_lookup_insert_eq | apply node_is_new | apply Hok |].
  rewrite Es, list_insert_insert_eq in R2. set (w2 := mkWalk _ _ _ _ _) in R2. set (log2 := log ++ _) in D1.
  assert (take (S l) (<[l := n1]> (w_stack w)) = take l (w_stack w) ++ [n1]) as Etake by (rewrite (take_S_r _ _ n1) by (by apply list_lookup_insert_eq); by rewrite take_insert_ge by lia).
  assert (inside (props :: up) log2 w2) as I'.
  { constructor; cbn [w_p w_depth w_stack w_info w_gic w2 length]; try done; [lia | by rewrite length_insert | |].
    - fold l. rewrite Etake, rev_app_distr. constructor; [by eapply node_bus | done].
    - unfold log2. rewrite gics_chosen. exact I6. }
  destruct (Hkids w2 log2 I' eq_refl) as (w3 & R3 & P3 & L3 & [J1 J2 J3 J4 J5 J6] & T3). cbn [length w2 w_stack w_p] in J2, T3, L3. fold l in J2, T3. rewrite Etake in T3.
  assert (w_stack w3 !! l = Some n1) as Hs3.
  { rewrite <- (lookup_take_lt (w_stack w3) (S l) l) by lia. rewrite T3, lookup_app_r by (rewrite length_take; lia). rewrite length_take. by replace (l - _)%nat with O by lia. }
  assert (take l (w_stack w3) = take l (w_stack w)) as T3'.
  { replace l with (l `min` S l)%nat at 1 by lia. rewrite <- take_take, T3. apply take_app_length'. rewrite length_take. lia. }
  assert (Forall2 (bus_is b) (rev (take l (w_stack w3))) up) as J4' by by rewrite T3'.
  destruct (close_node_ok b up (w_stack w3) l (l =? 1)%nat nm props n1 Hb N1 J4' Hbus Hok addr _ rsv _ _ Hs3 ltac:(lia) J5 J6) as (i4 & g4 & C4 & D4 & G4).
  rewrite <- P3 in He. pose proof (reaches_end w3 l i4 g4 He J2 Hlt C4) as R4. eexists. split; [eapply reaches_trans; [exact R1 |]; eapply reaches_trans; [exact R2 |]; eapply reaches_trans; [exact R3 | exact R4] |].
  cbn [w_p w_stack]. split; [lia |]. split; [lia |]. split; [| done]. rewrite !app_assoc in *. fold log2 in D4, G4 |- *. constructor; cbn [w_p w_depth w_stack w_info w_gic]; try done. lia.
Qed.
Lemma tree_passes :
  (forall p t q, at_node b so p t q -> forall up log w, inside up log w -> w_p w = p -> buses_ok up -> tree_ok up t -> passes up log (events up t) w q)
  /\ (forall p ts q, at_nodes b so p ts q -> forall up log w, inside up log w -> w_p w = p -> buses_ok up -> Forall (tree_ok up) ts ->
        passes up log (mjoin (map (events up) ts)) w q).
Proof.
  apply at_tree_ind.
  - intros p nm props q kids r Ht Hc Hpr Hks IH He up log w Hi Hp Hbus Hok. cbn [events]. destruct (Nat.ltb_spec (length up) DEPTH) as [Hlt | Hge].
    + inversion Hok as [| ? ? ? ? _ Hn Hkids]; subst; [lia |]. apply (node_passes up nm props _ (w_p w) q r w log Hlt Hi eq_refl Hbus Hn Ht Hc Hpr He).
      intros w' log' Hi' Hp'. apply IH; [done | done | | done]. cbn. split; [apply Hn |]. split; [done | exact (no_bus _ _ _ Hn)].
    + destruct (proj1 tree_deep p (Dt nm props kids) (r + 4)) with (w := w) as [R1 L1]; [by eapply at_node_intro | done | rewrite <- Hp; apply Hi | by rewrite (in_depth _ _ _ Hi) |].
      exists (moved w (r + 4)). rewrite app_nil_r. split; [done |]. split; [done |]. split; [lia |]. split; [| done]. destruct Hi. constructor; cbn; try done. lia.
  - intros p up log w Hi <- _ _. by apply passes_nil.
  - intros p ts q Ht _ IH up log w Hi Hp Hbus Hok. rewrite <- Hp in Ht. pose proof (reaches_nop w Ht) as R1.
    destruct (IH up log (w <| w_p := w_p w + 4 |>)) as (w' & R2 & P2 & L2 & I2 & T2); [destruct Hi; constructor; cbn; try done; lia | cbn; lia | done | done |].
    exists w'. cbn in L2, T2. split; [exact (reaches_trans _ _ _ R1 R2) |]. split; [done |]. split; [lia | done].
  - intros p t q ts r _ IH1 _ IH2 up log w Hi Hp Hbus Hok. apply Forall_cons in Hok as [Hok1 Hok2]. cbn [map]. change (mjoin (events up t :: map (events up) ts)) with (events up t ++ mjoin (map (events up) ts)).
    apply (passes_app _ _ _ _ _ q); [by apply IH1 |]. intros w' Hi' Hp'. by apply IH2.
Qed.
End Walk.

(** * The reservation block *)

(** Entries from [o] on, up to the empty one, the end of the blob or the room there is. *)
Inductive at_reservations (b : list Z) : nat -> Z -> list (Z * Z) -> Prop :=
| at_rsv_full o : at_reservations b 0 o []
| at_rsv_end room o : Z.of_nat (length b) < o + 16 -> at_reservations b (S room) o []
| at_rsv_empty room o v : slice b o 16 = Ok v -> cells v 0 2 = 0 -> cells v 8 2 = 0 -> at_reservations b (S room) o []
| at_rsv_cons room o v rsv : slice b o 16 = Ok v -> (cells v 0 2, cells v 8 2) <> (0, 0) -> at_reservations b room (o + 16) rsv ->
    at_reservations b (S room) o ((cells v 0 2, cells v 8 2) :: rsv).

Lemma described_start addr : described addr [] [] qemu_virt_defaults.
Proof. constructor; done. Qed.
Lemma described_reserve addr log pre info r : described addr log pre info -> (length pre < length (reserved info))%nat ->
  described addr log (pre ++ [r]) (info <| reserved := <[reserved_count info := r]> (reserved info) |> <| reserved_count := S (reserved_count info) |>).
Proof.
  intros D Hl. destruct (de_rsv _ _ _ _ D) as [R1 R2]. destruct D. constructor; try done. unfold set_field. cbn [reserved reserved_count]. rewrite length_app, R1. cbn [length]. split; [lia |].
  rewrite (take_S_r _ _ r) by (apply list_lookup_insert_eq; lia). rewrite take_insert_ge by lia. by rewrite <- R1, R2.
Qed.
Lemma reservations_ok b addr log room o rsv : Forall is_byte b -> at_reservations b room o rsv -> forall pre info, 0 <= o -> described addr log pre info ->
  length (reserved info) = (length pre + room)%nat -> exists info', reservations b room o info = Ok info' /\ described addr log (pre ++ rsv) info'.
Proof.
  intros Hb H. assert (forall o v, 0 <= o -> slice b o 16 = Ok v -> o + 16 <= Z.of_nat (length b) /\ read_cells b o 2 = Ok (cells v 0 2) /\ read_cells b (o + 8) 2 = Ok (cells v 8 2)) as Hread.
  { clear - Hb. intros o v Ho Hv. assert (length v = 16)%nat as Hlv by (unfold slice in Hv; destruct (Z.leb_spec (o + 16) (Z.of_nat (length b))); [| done]; injection Hv as <-; rewrite length_take, length_drop; lia).
    assert (slice b o (Z.of_nat (length v)) = Ok v) as Hv' by by rewrite Hlv. destruct (value_here b o v Hv') as [Hin _]. split; [lia |].
    rewrite <- (Z.add_0_r o) at 1. split; apply read_value; lia || done. }
  induction H as [o | room o Hend | room o v Hv E1 E2 | room o v rsv Hv Hne _ IH]; intros pre info Ho D Hr; cbn [reservations].
  - exists info. by rewrite app_nil_r.
  - rewrite (proj2 (Z.leb_gt _ _)) by lia. exists info. by rewrite app_nil_r.
  - destruct (Hread o v Ho Hv) as (L & -> & E). rewrite (proj2 (Z.leb_le _ _)) by lia. cbn [mbind outcome_bind]. rewrite E. cbn [mbind outcome_bind]. rewrite E1, E2. exists info. by rewrite app_nil_r.
  - destruct (Hread o v Ho Hv) as (L & -> & E). rewrite (proj2 (Z.leb_le _ _)) by lia. cbn [mbind outcome_bind]. rewrite E. cbn [mbind outcome_bind].
    destruct (Z.eqb_spec (cells v 0 2) 0) as [E1 |], (Z.eqb_spec (cells v 8 2) 0) as [E2 |]; cbn [andb]; [destruct Hne; by rewrite E1, E2 | ..].
    all: destruct (IH (pre ++ [(cells v 0 2, cells v 8 2)]) (info <| reserved := <[reserved_count info := (cells v 0 2, cells v 8 2)]> (reserved info) |> <| reserved_count := S (reserved_count info) |>))
      as (info' & R & D'); [lia | apply described_reserve; [done | lia] | unfold set_field; cbn [reserved]; rewrite length_insert, length_app; cbn [length]; lia |].
    all: exists info'; split; [exact R | by rewrite <- app_assoc in D'].
Qed.

(** * Whole blobs *)

Record blob (mem : Z -> Z) (addr : Z) (t : dt) (rsv : list (Z * Z)) : Prop := {
  bl_bytes : forall a, is_byte (mem a);
  bl_size : exists size, total_size mem addr = Ok size /\ 0 <= addr /\ addr + size < 2 ^ 64
    /\ let b := bytes mem addr size in
       exists off_struct off_strings off_rsvmap q, be32 b 8 = Ok off_struct /\ be32 b 12 = Ok off_strings /\ be32 b 16 = Ok off_rsvmap
       /\ at_reservations b MAX_RESERVED off_rsvmap rsv /\ at_nodes b off_strings off_struct [t] q /\ be32 b q = Ok FDT_END }.

(** C25. Reading a device tree: when memory at [addr] holds a well-formed flattened tree whose
    nodes the parser can handle, [parse] ends without a panic, whatever padding tokens and
    unknown nodes and properties there are, and the machine description is exactly what the tree
    says: the RAM regions, CPUs and virtio transports in tree order up to the table sizes with
    bus addresses translated through every enclosing bus, the last interrupt controller (a GIC
    before the Broadcom one), timer, PCIe bridge and PSCI method, the first UART, the chosen
    node's seeds and arguments, disabled nodes left out, and the QEMU defaults for the rest. *)
Theorem fdt_parse_correct mem addr t rsv : blob mem addr t rsv -> tree_ok [] t -> exists info, parse mem addr = Ok info /\ described addr (events [] t) rsv info.
Proof.
  intros [Hm (size & Hs & Ha & Hfit & st & so & rm & q & E1 & E2 & E3 & Hr & Ht & He)] Hok. unfold parse. rewrite Hs. cbn [mbind outcome_bind]. set (b := bytes mem addr size) in *.
  assert (Forall is_byte b) as Hb by (apply Forall_forall; intros x Hx; apply elem_of_map in Hx as (y & -> & _); apply Hm).
  assert (0 <= size < 2 ^ 32) as Hsz by (unfold total_size in Hs; refine (proj1 (be32_range (bytes mem addr 8) _ _ _ Hs)); apply Forall_forall; intros x Hx; apply elem_of_map in Hx as (y & -> & _); apply Hm).
  assert (Z.of_nat (length b) = size) as Hlen by (unfold b, bytes; rewrite length_map, length_seqZ; lia).
  unfold parse_blob. rewrite E1, E2, E3. cbn [mbind outcome_bind]. pose proof (be32_range b Hb _ _ E1) as [B1 _]. pose proof (be32_range b Hb _ _ E3) as [B3 _].
  destruct (reservations_ok b addr [] MAX_RESERVED rm rsv Hb Hr [] qemu_virt_defaults) as (info & -> & D); [lia | apply described_start | done |]. cbn [mbind outcome_bind app] in *.
  set (w := mkWalk info _ _ _ _). assert (inside b addr rsv [] [] w) as Hi by (constructor; cbn; try done; lia).
  destruct (proj2 (tree_passes b addr so rsv Hb ltac:(lia) ltac:(lia)) _ _ _ Ht [] [] w Hi eq_refl I) as (w' & R & P & _ & I' & _); [by apply Forall_singleton |].
  destruct (R (S (length b))) as (fuel & Hf & ->); [unfold enough; cbn; lia |]. exists (w_info w'). rewrite <- P in He. unfold enough in Hf. pose proof (be32_range b Hb _ _ He) as [_ Hin].
  destruct fuel as [| fuel]; [lia |]. cbn [walk]. rewrite He. split; [done |]. apply in_info in I'. cbn in I'. by rewrite app_nil_r in I'.
Qed.

(** Cell counts of zero, which [node_ok] leaves out: the entries of [reg] then have no size,
    and the loop over a memory node's regions goes on for ever. *)
Lemma ram_loop_zero_cells b stack depth n a : 0 <= reg_len n -> translate b stack depth 0 = Ok a ->
  forall fuel i info, (ram_count info < MAX_RAM)%nat -> ram_loop b stack depth n 0 0 0 fuel i info = Err Forever.
Proof.
  intros Hl Ht. induction fuel as [| fuel IH]; intros i info Hm; [done |]. cbn [ram_loop]. rewrite Z.mul_0_r, (proj2 (Z.leb_le _ _) Hl), (proj2 (Nat.ltb_lt _ _) Hm).
  unfold reg_addr, reg_size. change (read_cells b ?x 0) with (@Ok stuck Z 0). cbn [andb mbind outcome_bind]. rewrite Ht. cbn [mbind outcome_bind]. by apply IH.
Qed.

(** * A small machine *)

Definition word (x : Z) : list Z := [x / 2 ^ 24; x / 2 ^ 16 mod 256; x / 2 ^ 8 mod 256; x mod 256].
Definition words (xs : list Z) : list Z := mjoin (map word xs).
Definition padded (l : list Z) : list Z := l ++ replicate ((4 - length l mod 4) mod 4) 0.
Definition str (s : string) : list Z := lit s ++ [0].
Definition flat_prop (nameoff : Z) (v : list Z) : list Z := words [3; Z.of_nat (length v); nameoff] ++ padded v.
Definition flat_node (nm : string) (body : list Z) : list Z := word 1 ++ padded (str nm) ++ body ++ word 2.
Definition demo_strings : list Z := str "#address-cells" ++ str "#size-cells" ++ str "reg" ++ str "ranges" ++ str "compatible" ++ str "bootargs" ++ str "interrupts" ++ str "status".
Definition demo_struct : list Z :=
  flat_node "" (flat_prop 0 (word 1) ++ flat_prop 15 (word 1)
    ++ flat_node "chosen" (flat_prop 49 (str "quiet"))
    ++ flat_node "memory@40000000" (flat_prop 27 (words [0x40000000; 0x8000000]))
    ++ flat_node "cpus" (flat_prop 0 (word 1) ++ flat_prop 15 (word 0) ++ flat_node "cpu@1" (flat_prop 27 (word 1)))
    ++ word 4
    ++ flat_node "soc" (flat_prop 31 (words [0; 0x9000000; 0x1000000])
      ++ flat_prop 0 (word 1)
      ++ flat_node "uart@0" (flat_prop 38 (str "arm,pl011") ++ flat_prop 27 (words [0; 0x1000]) ++ flat_prop 58 (words [0; 1; 4]))
      ++ flat_node "mmio@1000" (flat_prop 38 (str "virtio,mmio") ++ flat_prop 27 (words [0x1000; 0x200]))
      ++ flat_node "mmio@2000" (flat_prop 38 (str "virtio,mmio") ++ flat_prop 69 (str "disabled") ++ flat_prop 27 (words [0x2000; 0x200])))) ++ word 9.
Definition demo_body : list Z := words [0; 0x48000000; 0; 0x10000; 0; 0; 0; 0] ++ demo_struct.
Definition demo_size : Z := 40 + Z.of_nat (length demo_body) + Z.of_nat (length demo_strings).
Definition demo_blob : list Z :=
  Eval vm_compute in words [FDT_MAGIC; demo_size; 72; 40 + Z.of_nat (length demo_body); 40; 17; 16; 0; Z.of_nat (length demo_strings); Z.of_nat (length demo_struct)]
    ++ demo_body ++ demo_strings.
Definition demo_mem (a : Z) : Z := default 0 (demo_blob !! Z.to_nat (a - 0x40000000)).
Definition demo_seen : option (list (Z * Z) * list (Z * Z) * list Z * (Z * Z * list Z) * list Z) :=
  match parse demo_mem 0x40000000 with
  | Ok i => Some (take (ram_count i) (ram i), take (reserved_count i) (reserved i), take (cpu_count i) (cpus i), (uart i, uart_irq i, take (virtio_count i) (virtio i)),
      take (bootargs_len i) (bootargs i))
  | _ => None
  end.
Example demo_seen_ok : demo_seen = Some ([(0x40000000, 0x8000000)], [(0x48000000, 0x10000)], [1], (0x9000000, 33, [0x9001000]), lit "quiet").
Proof. vm_compute. reflexivity. Qed.
Definition demo_tree : dt :=
  Dt (lit "") [mkProp (lit "#address-cells") 92 (word 1); mkProp (lit "#size-cells") 108 (word 1)]
    [Dt (lit "chosen") [mkProp (lit "bootargs") 136 (str "quiet")] [];
     Dt (lit "memory@40000000") [mkProp (lit "reg") 180 (words [0x40000000; 0x8000000])] [];
     Dt (lit "cpus") [mkProp (lit "#address-cells") 216 (word 1); mkProp (lit "#size-cells") 232 (word 0)]
    [Dt (lit "cpu@1") [mkProp (lit "reg") 260 (word 1)] []];
     Dt (lit "soc") [mkProp (lit "ranges") 296 (words [0; 0x9000000; 0x1000000]); mkProp (lit "#address-cells") 320 (word 1)]
    [Dt (lit "uart@0") [mkProp (lit "compatible") 348 (str "arm,pl011"); mkProp (lit "reg") 372 (words [0; 0x1000]); mkProp (lit "interrupts") 392 (words [0; 1; 4])] [];
     Dt (lit "mmio@1000") [mkProp (lit "compatible") 436 (str "virtio,mmio"); mkProp (lit "reg") 460 (words [0x1000; 0x200])] [];
     Dt (lit "mmio@2000") [mkProp (lit "compatible") 500 (str "virtio,mmio"); mkProp (lit "status") 524 (str "disabled"); mkProp (lit "reg") 548 (words [0x2000; 0x200])] []]].

Ltac by_vm := vm_compute; reflexivity.
Ltac flat_props := first
  [ eapply at_props_nop; [by_vm |]; flat_props
  | eapply at_props_cons; [by_vm | by_vm | by_vm | by_vm | by_vm | by_vm |]; flat_props
  | apply at_props_nil ].
Ltac flat_nodes := first
  [ eapply at_nodes_nop; [by_vm |]; flat_nodes
  | eapply at_nodes_cons; [eapply at_node_intro; [by_vm | by_vm | flat_props | flat_nodes | by_vm] |]; flat_nodes
  | apply at_nodes_nil ].
Lemma demo_flat : exists q, at_nodes demo_blob (40 + Z.of_nat (length demo_body)) 72 [demo_tree] q /\ be32 demo_blob q = Ok FDT_END.
Proof. eexists. split; [unfold demo_tree; flat_nodes | by_vm]. Qed.
Ltac node_fine := constructor;
  [ split; vm_compute; split; discriminate
  | apply (bool_decide_unpack _); by_vm
  | first [exact I | intros H; exfalso; apply H; by_vm | intros _; split; [by_vm | repeat constructor; vm_compute; discriminate]]
  | vm_compute; first [intros H; discriminate H | intros _ _; reflexivity]
  | vm_compute; first [exact I | reflexivity]
  | by_vm ].
Lemma demo_tree_ok : tree_ok [] demo_tree.
Proof. unfold demo_tree. repeat first [apply Forall_nil_2 | apply Forall_cons_2 | apply tree_ok_node; [cbn; unfold DEPTH; lia | node_fine |]]. Qed.
Lemma demo_bytes a : is_byte (demo_mem a).
Proof.
  unfold demo_mem. destruct (demo_blob !! Z.to_nat (a - 0x40000000)) as [x |] eqn:E; cbn; [| done]. apply list_elem_of_lookup_2 in E. revert x E. apply Forall_forall.
  apply (bool_decide_unpack _). by_vm.
Qed.
Lemma demo_blob_ok : blob demo_mem 0x40000000 demo_tree [(0x48000000, 0x10000)].
Proof.
  constructor; [apply demo_bytes |]. exists 648. split; [by_vm |]. split; [lia |]. split; [lia |]. replace (bytes demo_mem 0x40000000 648) with demo_blob by by_vm. cbn zeta.
  destruct demo_flat as (q & Hq & He). exists 72, (40 + Z.of_nat (length demo_body)), 40, q. split; [by_vm |]. split; [by_vm |]. split; [by_vm |]. split; [| done].
  set (v := words [0; 0x48000000; 0; 0x10000]). replace [(0x48000000, 0x10000)] with [(cells v 0 2, cells v 8 2)] by by_vm. change MAX_RESERVED with 8%nat.
  apply at_rsv_cons; [by_vm | vm_compute; discriminate | apply (at_rsv_empty _ 6 (40 + 16) (replicate 16 0)); by_vm].
Qed.
Lemma fdt_parse_correct_witness : demo_seen = Some ([(0x40000000, 0x8000000)], [(0x48000000, 0x10000)], [1], (0x9000000, 33, [0x9001000]), lit "quiet")
  /\ exists info, parse demo_mem 0x40000000 = Ok info /\ described 0x40000000 (events [] demo_tree) [(0x48000000, 0x10000)] info.
Proof. split; [exact demo_seen_ok | exact (fdt_parse_correct _ _ _ _ demo_blob_ok demo_tree_ok)]. Defined.
End FdtWalk.
