(* ===== verification/Microcode.v ===== *)
(** Vendor microcode containers (src/microcode/mod.rs, amd_policy.rs, and the choice made in
    src/arch/amd64/microcode.rs): validation of Intel and AMD update files and the pick of
    the newest update for a processor. *)

From Stdlib Require Import ZArith Lia.
From stdpp Require Import base list list_numbers numbers decidable tactics strings.
From S2P Require Import Prelude FatNames.
Import FatNames(chunks_exact, chunks_exact_aux).

Module Microcode.

Record Patch := mkPatch { p_bytes : list Z; p_revision : Z; p_data_offset : Z }.
Inductive Error := Truncated | Format | Checksum | Overflow.
Abbreviation M := (outcome Error).
Abbreviation len b := (Z.of_nat (length b)).

(** [b.get(lo..hi)], and the same slice taken with an index, which panics. *)
Definition get (b : list Z) (lo hi : Z) : option (list Z) :=
  if (lo <=? hi) && (hi <=? len b) then Some (take (Z.to_nat (hi - lo)) (drop (Z.to_nat lo) b)) else None.
Definition index (b : list Z) (lo hi : Z) : M (list Z) := unwrap (get b lo hi).

Definition u32_at (b : list Z) (off : Z) : M Z := bs ← ok_or (get b off (off + 4)) Truncated; Ok (from_le_bytes bs).
Definition u16_at (b : list Z) (off : Z) : M Z := bs ← ok_or (get b off (off + 2)) Truncated; Ok (from_le_bytes bs).
Definition sum (b : list Z) : M Z :=
  _ ← guard_err (negb (len b mod 4 =? 0)) Format;
  Ok (foldl (fun s x => wrapping_add 32 s (from_le_bytes x)) 0 (chunks_exact 4 b)).
Definition matches (sig platforms cpu platform : Z) : bool :=
  (sig =? cpu) && ((platforms =? 0) || negb (Z.land platforms platform =? 0)).

(** * Intel: a concatenation of updates *)

Section Intel.
Context (cpu platform current : Z).

(** The extended signature table after the data. *)
Fixpoint ext_entries (original : Z) (applies : bool) (entries : list (list Z)) : M bool :=
  match entries with
  | [] => Ok applies
  | entry :: entries' =>
      esig ← u32_at entry 0; epf ← u32_at entry 4; c ← u32_at entry 8;
      _ ← guard_err (negb (wrapping_add 32 (wrapping_add 32 esig epf) c =? original)) Checksum;
      ext_entries original (applies || matches esig epf cpu platform) entries'
  end.
Definition ext_check (header ext : list Z) (sig pf : Z) (applies : bool) : M bool :=
  if bool_decide (ext = []) then Ok applies
  else
    _ ← guard_err ((len ext <? 20) || negb ((len ext - 20) mod 12 =? 0)) Format;
    count ← u32_at ext 0;
    _ ← guard_err (negb (bool_decide (checked_add 64 (count * 12) 20 = Some (len ext)))) Format;
    s ← sum ext;
    _ ← guard_err (negb (s =? 0)) Checksum;
    c ← u32_at header 16;
    entries ← index ext 20 (len ext);
    ext_entries (wrapping_add 32 (wrapping_add 32 sig pf) c) applies (chunks_exact 12 entries).
(** One round of the loop up to the choice: the update's bytes, revision and whether it is for this processor. *)
Definition intel_update (blob : list Z) : M (list Z * Z * bool) :=
  header ← ok_or (get blob 0 48) Truncated;
  h0 ← u32_at header 0;
  h20 ← (if negb (h0 =? 1) then Ok h0 else u32_at header 20);
  _ ← guard_err (negb (h0 =? 1) || negb (h20 =? 1)) Format;
  revision ← u32_at header 4;
  n ← u32_at header 28;
  let data := if n =? 0 then 2000 else n in
  n ← u32_at header 32;
  let total := if n =? 0 then 2048 else n in
  base ← ok_or (checked_add 64 48 data) Overflow;
  _ ← guard_err ((total <? base) || negb (data mod 4 =? 0) || negb (total mod 4 =? 0) || (16 * 1024 * 1024 <? total)) Format;
  patch ← ok_or (get blob 0 total) Truncated;
  body ← index patch 0 base;
  s ← sum body;
  _ ← guard_err (negb (s =? 0)) Checksum;
  sig ← u32_at header 12;
  pf ← u32_at header 24;
  let applies := matches sig pf cpu platform in
  ext ← index patch base (len patch);
  applies ← ext_check header ext sig pf applies;
  Ok (patch, revision, applies).

Definition newer (selected : option Patch) (revision : Z) : bool :=
  match selected with None => true | Some p => p_revision p <? revision end.
(** [fuel] exceeds the updates there can be. *)
Fixpoint intel_loop (fuel : nat) (blob : list Z) (selected : option Patch) : M (option Patch) :=
  match fuel with
  | O => Panic
  | S fuel' =>
      if bool_decide (blob = []) then Ok selected
      else
        '(patch, revision, applies) ← intel_update blob;
        let selected :=
          if applies && (current <? revision) && (Z.land revision (Z.shiftl 1 31) =? 0) && newer selected revision
          then Some (mkPatch patch revision 48) else selected in
        rest ← index blob (len patch) (len blob);
        intel_loop fuel' rest selected
  end.
Definition intel (blob : list Z) : M (option Patch) := intel_loop (S (length blob)) blob None.
End Intel.

(** * AMD: concatenated containers *)

Definition family (cpu : Z) : Z :=
  let base := Z.land (Z.shiftr cpu 8) 15 in base + (if base =? 15 then Z.land (Z.shiftr cpu 20) 255 else 0).
Definition zen_signature (revision : Z) : Z :=
  Z.lor (Z.lor (Z.lor (Z.land (Z.shiftr revision 8) 0xff) 0xf00) (Z.land (Z.shiftr revision 4) 0xf0000)) (Z.land (Z.shiftr revision 4) 0xff00000).
Definition AMD_MAGIC : Z := 0x00414d44.

Section Amd.
Context (cpu current : Z) (eligible : Patch -> bool).
Abbreviation fam := (family cpu).

Fixpoint equivalence (equivalent : option Z) (entries : list (list Z)) : M (option Z) :=
  match entries with
  | [] => Ok equivalent
  | entry :: entries' =>
      id ← u32_at entry 0;
      if id =? cpu then
        a ← u32_at entry 4;
        b ← (if negb (a =? 0) then Ok 0 else u32_at entry 8);
        c ← (if negb (a =? 0) || negb (b =? 0) then Ok 0 else u16_at entry 14);
        _ ← guard_err (negb (a =? 0) || negb (b =? 0) || negb (c =? 0)) Format;
        e ← u16_at entry 12;
        equivalence (Some e) entries'
      else equivalence equivalent entries'
  end.
(** The head of a container: the processor's equivalence identifier and where the patches start. *)
Definition amd_head (blob : list Z) : M (option Z * Z) :=
  magic ← u32_at blob 0;
  zero ← (if negb (magic =? AMD_MAGIC) then Ok 0 else u32_at blob 4);
  _ ← guard_err (negb (magic =? AMD_MAGIC) || negb (zero =? 0)) Format;
  table_len ← u32_at blob 8;
  _ ← guard_err (negb (table_len mod 16 =? 0) || ((fam <? 0x17) && (table_len <? 16))) Format;
  start ← ok_or (checked_add 64 12 table_len) Overflow;
  table ← ok_or (get blob 12 start) Truncated;
  equivalent ← equivalence None (chunks_exact 16 table);
  Ok (equivalent, start).
Definition size_ok (size : Z) : bool :=
  if (0x10 <=? fam) && (fam <=? 0x12) then size <=? 2048
  else if fam =? 0x14 then size <=? 1824
  else if 0x15 <=? fam then true
  else false.
(** One patch section: its bytes and whether it can be loaded here, before [selected] has a say. *)
Definition amd_section (equivalent : option Z) (blob : list Z) : M (list Z * Z * bool) :=
  tag ← u32_at blob 0;
  _ ← guard_err (negb (tag =? 1)) Format;
  size ← u32_at blob 4;
  _ ← guard_err ((size <? 64) || (128 * 1024 <? size)) Format;
  end_ ← ok_or (checked_add 64 8 size) Overflow;
  patch ← ok_or (get blob 8 end_) Truncated;
  revision ← u32_at patch 4;
  processor ← u16_at patch 24;
  let applies := if 0x17 <=? fam then (zen_signature revision =? cpu) && (Z.land revision 0xf0000 =? 0)
                 else bool_decide (equivalent = Some processor) in
  let family_matches := 0xf + Z.shiftr processor 12 =? fam in
  ok ← (if applies && family_matches && size_ok size then
          a ← u32_at patch 16;
          if a =? 0 then b ← u32_at patch 20; Ok ((b =? 0) && (current <? revision)) else Ok false
        else Ok false);
  Ok (patch, revision, ok).
Fixpoint amd_sections (fuel : nat) (equivalent : option Z) (blob : list Z) (selected : option Patch) : M (list Z * option Patch) :=
  match fuel with
  | O => Panic
  | S fuel' =>
      if bool_decide (blob = []) then Ok (blob, selected)
      else
        tag ← u32_at blob 0;
        if tag =? AMD_MAGIC then Ok (blob, selected)
        else
          '(patch, revision, ok) ← amd_section equivalent blob;
          let selected :=
            if ok && newer selected revision && eligible (mkPatch patch revision 0) then Some (mkPatch patch revision 0) else selected in
          rest ← index blob (8 + len patch) (len blob);
          amd_sections fuel' equivalent rest selected
  end.
Fixpoint amd_loop (fuel : nat) (blob : list Z) (selected : option Patch) : M (option Patch) :=
  match fuel with
  | O => Panic
  | S fuel' =>
      if bool_decide (blob = []) then Ok selected
      else
        '(equivalent, start) ← amd_head blob;
        rest ← index blob start (len blob);
        '(rest, selected) ← amd_sections (S (length rest)) equivalent rest selected;
        amd_loop fuel' rest selected
  end.
Definition amd_eligible (blob : list Z) : M (option Patch) := amd_loop (S (length blob)) blob None.
End Amd.
Definition amd (cpu current : Z) (blob : list Z) : M (option Patch) := amd_eligible cpu current (fun _ => true) blob.

(** * Which AMD patches may be loaded *)

(** The table of published digests is data; the digest function is the sha2 crate's. *)
Definition amd_digest_known (digests : list (Z * Z * list Z)) (revision size : Z) (digest : list Z) : bool :=
  existsb (fun '(rev, n, hash) => (rev =? revision) && (n =? size) && bool_decide (hash = digest)) digests.
Definition trusted_amd (digests : list (Z * Z * list Z)) (sha256 : list Z -> list Z) (patch : Patch) : bool :=
  amd_digest_known digests (p_revision patch) (len (p_bytes patch)) (sha256 (p_bytes patch)).

Definition CUTOFFS : list (Z * Z) := [
  (0x80012, 0x8001277); (0x80082, 0x800820f); (0x83010, 0x830107c); (0x86001, 0x860010e); (0x86081, 0x8608108); (0x87010, 0x8701034);
  (0x8a000, 0x8a0000a); (0xa0010, 0xa00107a); (0xa0011, 0xa0011da); (0xa0012, 0xa001243); (0xa0082, 0xa00820e); (0xa1011, 0xa101153);
  (0xa1012, 0xa10124e); (0xa1081, 0xa108109); (0xa2010, 0xa20102f); (0xa2012, 0xa201212); (0xa4041, 0xa404109); (0xa5000, 0xa500013);
  (0xa6012, 0xa60120a); (0xa7041, 0xa704109); (0xa7052, 0xa705208); (0xa7080, 0xa708009); (0xa70c0, 0xa70C009); (0xaa001, 0xaa00116);
  (0xaa002, 0xaa00218); (0xb0021, 0xb002146); (0xb0081, 0xb008111); (0xb1010, 0xb101046); (0xb2040, 0xb204031); (0xb4040, 0xb404031);
  (0xb4041, 0xb404101); (0xb6000, 0xb600031); (0xb6080, 0xb608031); (0xb7000, 0xb700031)].
Definition transition_allowed (current target : Z) : bool :=
  match List.find (fun '(prefix, _) => prefix =? Z.shiftr current 8) CUTOFFS with
  | Some (_, cutoff) => Bool.eqb (current <=? cutoff) (target <=? cutoff)
  | None => true
  end.
(** [apply_locked]'s choice, for a processor whose name CPUID gives ([is_intel], [is_amd]) with
    its [signature]; [hypervisor] is the CPUID bit, [revision] the running one and
    [platform_id] model-specific register 0x17, both of which may be missing.  Without an
    update the firmware's revision is kept. *)
Definition select_patch (digests : list (Z * Z * list Z)) (sha256 : list Z -> list Z) (hypervisor is_intel is_amd : bool) (signature : Z)
    (revision platform_id : option Z) (module : option (list Z)) : M (option Patch) :=
  let fam := family signature in
  if hypervisor then Ok None
  else if (negb is_intel || negb ((fam =? 6) || (fam =? 15))) && (negb is_amd || (fam <? 0x10)) then Ok None
  else
    match revision, module with
    | Some before, Some blob =>
        if is_amd && (0x17 <=? fam) && (before =? 0) then Ok None
        else if is_intel then
          match platform_id with
          | Some v => intel signature (Z.shiftl 1 (Z.land (Z.shiftr v 50) 7)) before blob
          | None => Ok None
          end
        else amd_eligible signature before (fun p => trusted_amd digests sha256 p && transition_allowed before (p_revision p)) blob
    | _, _ => Ok None
    end.
End Microcode.
