(* ===== verification/MicrocodeSpec.v ===== *)
(** What a vendor microcode file is, and that the container code (src/microcode/mod.rs)
    accepts exactly the well-formed files and picks the newest update for the processor. *)

From Stdlib Require Import ZArith Lia.
From stdpp Require Import base list list_numbers numbers decidable tactics strings.
From S2P Require Import Prelude FatNames FatLfn Microcode.
Import FatNames(chunks_exact, chunks_exact_aux) Microcode.

Module MicrocodeSpec.

(** * Reading *)

Definition word (b : list Z) (off : nat) : Z := from_le_bytes (take 4 (drop off b)).
Definition half (b : list Z) (off : nat) : Z := from_le_bytes (take 2 (drop off b)).
Definition word_sum (b : list Z) : Z := foldr Z.add 0 (map from_le_bytes (chunks_exact 4 b)).

Lemma get_spec b lo hi : 0 <= lo <= hi -> get b lo hi = if hi <=? len b then Some (take (Z.to_nat (hi - lo)) (drop (Z.to_nat lo) b)) else None.
Proof. intros H. unfold get. by rewrite (proj2 (Z.leb_le lo hi)) by lia. Qed.
Lemma u32_at_spec b off : 0 <= off -> u32_at b off = if off + 4 <=? len b then Ok (word b (Z.to_nat off)) else Err Truncated.
Proof. intros H. unfold u32_at, word. rewrite get_spec by lia. replace (off + 4 - off) with 4 by lia. by destruct (off + 4 <=? len b). Qed.
Lemma u16_at_spec b off : 0 <= off -> u16_at b off = if off + 2 <=? len b then Ok (half b (Z.to_nat off)) else Err Truncated.
Proof. intros H. unfold u16_at, half. rewrite get_spec by lia. replace (off + 2 - off) with 2 by lia. by destruct (off + 2 <=? len b). Qed.
Lemma u32_at_ok b off : 0 <= off -> off + 4 <= len b -> u32_at b off = Ok (word b (Z.to_nat off)).
Proof. intros H1 H2. rewrite u32_at_spec by done. by rewrite (proj2 (Z.leb_le _ _)). Qed.
Lemma u16_at_ok b off : 0 <= off -> off + 2 <= len b -> u16_at b off = Ok (half b (Z.to_nat off)).
Proof. intros H1 H2. rewrite u16_at_spec by done. by rewrite (proj2 (Z.leb_le _ _)). Qed.
Lemma word_u32 b off : Forall is_byte b -> 0 <= word b off < 2 ^ 32.
Proof.
  intros Hb. unfold word. pose proof (from_le_bytes_range (take 4 (drop off b)) ltac:(by apply Forall_take, Forall_drop)) as [H1 H2]. split; [done |].
  eapply Z.lt_le_trans; [exact H2 |]. change (2 ^ 32) with (256 ^ 4). apply Z.pow_le_mono_r; [lia |]. rewrite length_take. lia.
Qed.
Lemma word_prefix b n off : (off + 4 <= n)%nat -> word (take n b) off = word b off.
Proof. intros H. unfold word. rewrite skipn_firstn_comm, take_take. f_equal. f_equal. lia. Qed.
Lemma word_app b c off : (off + 4 <= length b)%nat -> word (b ++ c) off = word b off.
Proof. intros H. unfold word. rewrite drop_app_le by lia. by rewrite take_app_le by (rewrite length_drop; lia). Qed.
Lemma index_slice b lo hi : 0 <= lo <= hi -> hi <= len b -> index b lo hi = Ok (take (Z.to_nat (hi - lo)) (drop (Z.to_nat lo) b)).
Proof. intros H1 H2. unfold index. rewrite get_spec by done. by rewrite (proj2 (Z.leb_le _ _)) by done. Qed.
Lemma index_from b lo : 0 <= lo <= len b -> index b lo (len b) = Ok (drop (Z.to_nat lo) b).
Proof. intros H. rewrite index_slice by lia. by rewrite take_ge by (rewrite length_drop; lia). Qed.
Lemma index_to b hi : 0 <= hi <= len b -> index b 0 hi = Ok (take (Z.to_nat hi) b).
Proof. intros H. rewrite index_slice by lia. by rewrite Z.sub_0_r. Qed.

Lemma sum_loop ws : forall s, foldl (fun s x => wrapping_add 32 s (from_le_bytes x)) (s mod 2 ^ 32) ws = (s + foldr Z.add 0 (map from_le_bytes ws)) mod 2 ^ 32.
Proof.
  induction ws as [| w ws IH]; intros s; cbn [foldl map foldr]; [by rewrite Z.add_0_r |]. unfold wrapping_add at 2. rewrite Z.add_mod_idemp_l by lia. rewrite IH. f_equal. lia.
Qed.
Lemma sum_spec b : sum b = if len b mod 4 =? 0 then Ok (word_sum b mod 2 ^ 32) else Err Format.
Proof. unfold sum, word_sum. destruct (len b mod 4 =? 0); cbn; [| done]. f_equal. change 0 with (0 mod 2 ^ 32) at 1. by rewrite sum_loop. Qed.
Lemma wrapping_sum a b c : wrapping_add 32 (wrapping_add 32 a b) c = (a + b + c) mod 2 ^ 32.
Proof. unfold wrapping_add. by rewrite Z.add_mod_idemp_l by lia. Qed.

(** * The newest of the usable updates *)

Section Newest.
Context {A : Type} (usable : A -> bool) (rev : A -> Z).
(** The first of those with the highest revision. *)
Definition newest (l : list A) (r : option A) : Prop :=
  match r with
  | None => Forall (fun q => usable q = false) l
  | Some p => exists pre post, l = pre ++ p :: post /\ usable p = true
      /\ Forall (fun q => usable q = true -> rev q < rev p) pre /\ Forall (fun q => usable q = true -> rev q <= rev p) post
  end.
Definition pick (sel : option A) (p : A) : option A :=
  if usable p && (match sel with None => true | Some q => rev q <? rev p end) then Some p else sel.
Lemma pick_newest l : newest l (foldl pick None l).
Proof.
  induction l as [| x l IH] using rev_ind; [by constructor |]. rewrite foldl_app. cbn [foldl]. unfold pick at 1. destruct (usable x) eqn:Ex; cbn [andb].
  - destruct (foldl pick None l) as [p |]; cbn [newest] in IH |- *.
    + destruct IH as (pre & post & -> & Hu & Hpre & Hpost). destruct (Z.ltb_spec (rev p) (rev x)) as [Hlt | Hge]; cbn [newest].
      * exists (pre ++ p :: post), []. split; [done |]. split; [done |]. split; [| done]. apply Forall_app. split; [eapply Forall_impl; [exact Hpre |]; cbn; intros q Hq Hu'; specialize (Hq Hu'); lia |].
        constructor; [done |]. eapply Forall_impl; [exact Hpost |]. cbn. intros q Hq Hu'. specialize (Hq Hu'). lia.
      * exists pre, (post ++ [x]). rewrite <- app_assoc. split; [done |]. split; [done |]. split; [done |]. apply Forall_app. split; [done |]. by constructor.
    + exists l, []. split; [done |]. split; [done |]. split; [| done]. eapply Forall_impl; [exact IH |]. cbn. congruence.
  - destruct (foldl pick None l) as [p |]; cbn [newest] in IH |- *.
    + destruct IH as (pre & post & -> & Hu & Hpre & Hpost). exists pre, (post ++ [x]). rewrite <- app_assoc. split; [done |]. split; [done |]. split; [done |].
      apply Forall_app. split; [done |]. constructor; [| done]. congruence.
    + apply Forall_app. split; [done |]. by constructor.
Qed.
End Newest.

(** * Intel updates *)

Definition data_size (p : list Z) : Z := if word p 28 =? 0 then 2000 else word p 28.
Definition total_size (p : list Z) : Z := if word p 32 =? 0 then 2048 else word p 32.
Definition ext (p : list Z) : list Z := drop (Z.to_nat (48 + data_size p)) p.
Definition ext_table (p : list Z) : list (list Z) := chunks_exact 12 (drop 20 (ext p)).
Definition valid_ext (p : list Z) : Prop :=
  ext p = [] \/ len (ext p) = 20 + 12 * word (ext p) 0 /\ word_sum (ext p) mod 2 ^ 32 = 0
    /\ Forall (fun e => (word e 0 + word e 4 + word e 8) mod 2 ^ 32 = (word p 12 + word p 24 + word p 16) mod 2 ^ 32) (ext_table p).
Record valid_update (p : list Z) : Prop := {
  vu_versions : word p 0 = 1 /\ word p 20 = 1;
  vu_total : len p = total_size p /\ len p mod 4 = 0 /\ len p <= 16 * 1024 * 1024;
  vu_data : 48 + data_size p <= len p /\ data_size p mod 4 = 0;
  vu_sum : word_sum (take (Z.to_nat (48 + data_size p)) p) mod 2 ^ 32 = 0;
  vu_ext : valid_ext p }.
(** The processors and platforms an update is for. *)
Definition signatures (p : list Z) : list (Z * Z) :=
  (word p 12, word p 24) :: (if bool_decide (ext p = []) then [] else map (fun e => (word e 0, word e 4)) (ext_table p)).
Definition usable (cpu platform current : Z) (p : list Z) : bool :=
  existsb (fun '(sig, pf) => (sig =? cpu) && ((pf =? 0) || negb (Z.land pf platform =? 0))) (signatures p)
  && (current <? word p 4) && negb (Z.testbit (word p 4) 31).

Section Intel.
Context (cpu platform current : Z).

Lemma ext_entries_spec original es : forall ap, Forall (fun e => length e = 12%nat) es ->
  ext_entries cpu platform original ap es
  = if bool_decide (Forall (fun e => (word e 0 + word e 4 + word e 8) mod 2 ^ 32 = original) es)
    then Ok (ap || existsb (fun e => matches (word e 0) (word e 4) cpu platform) es) else Err Checksum.
Proof.
  induction es as [| e es IH]; intros ap Hl; [by rewrite orb_false_r |]. apply Forall_cons in Hl as [Hl Hls]. cbn [ext_entries existsb].
  rewrite !u32_at_ok by lia. cbn [mbind outcome_bind]. rewrite wrapping_sum. change (Z.to_nat 0) with 0%nat. change (Z.to_nat 4) with 4%nat. change (Z.to_nat 8) with 8%nat.
  destruct (Z.eqb_spec ((word e 0 + word e 4 + word e 8) mod 2 ^ 32) original) as [E | E]; cbn [negb guard_err mbind outcome_bind].
  - rewrite IH by done. rewrite orb_assoc. rewrite (bool_decide_ext _ (Forall (fun e => (word e 0 + word e 4 + word e 8) mod 2 ^ 32 = original) (e :: es))); [done |].
    rewrite Forall_cons. tauto.
  - rewrite bool_decide_eq_false_2; [done |]. by intros [? _]%Forall_cons.
Qed.

Lemma data_nonneg p : Forall is_byte p -> 0 <= data_size p < 2 ^ 32 /\ 0 <= total_size p < 2 ^ 32.
Proof. intros Hb. pose proof (word_u32 p 28 Hb). pose proof (word_u32 p 32 Hb). unfold data_size, total_size. split; case_if; lia. Qed.
(** An update at the front of a file is determined by the file. *)
Lemma update_front p rest : Forall is_byte p -> valid_update p ->
  48 <= len p /\ total_size (p ++ rest) = total_size p /\ data_size (p ++ rest) = data_size p /\ p = take (Z.to_nat (total_size (p ++ rest))) (p ++ rest).
Proof.
  intros Hb [_ [V1 _] [V2 _] _ _]. destruct (data_nonneg p Hb) as [D T]. assert (48 <= len p) as Hl by lia.
  assert (total_size (p ++ rest) = total_size p) as E by (unfold total_size; by rewrite word_app by lia). split; [done |]. split; [done |]. split; [unfold data_size; by rewrite word_app by lia |].
  rewrite E, <- V1, Nat2Z.id. by rewrite take_app_length.
Qed.
Lemma chunks_lengths {A} n (l : list A) : Forall (fun c => length c = n) (chunks_exact n l).
Proof.
  unfold chunks_exact. generalize (length l / n)%nat as fuel. intros fuel. revert l. induction fuel as [| fuel IH]; intros l; cbn [chunks_exact_aux]; [done |].
  destruct (Nat.leb_spec n (length l)); [| done]. constructor; [rewrite length_take; lia | apply IH].
Qed.

Lemma ext_check_cases header P : Forall is_byte P -> u32_at header 16 = Ok (word P 16) -> len (ext P) mod 4 = 0 ->
  match ext_check cpu platform header (ext P) (word P 12) (word P 24) (matches (word P 12) (word P 24) cpu platform) with
  | Ok ap => valid_ext P /\ ap = existsb (fun '(s, f) => matches s f cpu platform) (signatures P)
  | Err _ => ~ valid_ext P
  | Panic => False
  end.
Proof.
  intros HP Hc H4. unfold ext_check, signatures, valid_ext. destruct (bool_decide_reflect (ext P = [])) as [Hx | Hx]; [cbn; rewrite orb_false_r; tauto |].
  pose proof (word_u32 (ext P) 0 ltac:(by apply Forall_drop)) as Wx.
  destruct (Z.ltb_spec (len (ext P)) 20) as [H6 | H6]; cbn [negb orb guard_err mbind outcome_bind]; [intros [? | (? & _)]; [done | lia] |].
  destruct (Z.eqb_spec ((len (ext P) - 20) mod 12) 0) as [H7 | H7]; cbn [negb orb guard_err mbind outcome_bind]; [| intros [? | (? & _)]; [done | zdiv]].
  rewrite (u32_at_ok (ext P) 0) by lia. cbn [mbind outcome_bind]. change (Z.to_nat 0) with 0%nat.
  destruct (bool_decide_reflect (checked_add 64 (word (ext P) 0 * 12) 20 = Some (len (ext P)))) as [H8 | H8]; cbn [negb guard_err mbind outcome_bind].
  2: { intros [? | (E & _)]; [done |]. apply H8, checked_add_Some. lia. }
  apply checked_add_Some in H8 as [H8 _]. rewrite sum_spec, (proj2 (Z.eqb_eq (len (ext P) mod 4) 0)) by done. cbn [mbind outcome_bind].
  destruct (Z.eqb_spec (word_sum (ext P) mod 2 ^ 32) 0) as [H9 | H9]; cbn [negb guard_err mbind outcome_bind]; [| tauto].
  rewrite Hc, index_from by lia. cbn [mbind outcome_bind]. change (Z.to_nat 20) with 20%nat. fold (ext_table P). rewrite ext_entries_spec by apply chunks_lengths. rewrite wrapping_sum.
  destruct (bool_decide_reflect (Forall (fun e => (word e 0 + word e 4 + word e 8) mod 2 ^ 32 = (word P 12 + word P 24 + word P 16) mod 2 ^ 32) (ext_table P))) as [Ha | Ha]; [| tauto].
  split; [right; split; [lia | done] |]. cbn [existsb]. f_equal. clear. induction (ext_table P) as [| e es IH]; [done |]. cbn [map existsb]. by rewrite IH.
Qed.

Section Update.
Context (blob : list Z).
Hypothesis Hb : Forall is_byte blob.
(** What an update at the front of the blob can only be. *)
Abbreviation front := (take (Z.to_nat (total_size blob)) blob).
Lemma front_only : (exists p rest, blob = p ++ rest /\ valid_update p) -> 48 <= len blob /\ valid_update front /\ total_size blob <= len blob.
Proof.
  intros (p & rest & E & V). rewrite E in Hb. apply Forall_app in Hb as [Hp _]. destruct (update_front p rest Hp V) as (H1 & H2 & H3 & H4). rewrite <- E in H2, H3, H4.
  destruct V as [V1 V2 V3 V4 V5]. rewrite <- H4. assert (len blob = len p + len rest) by (rewrite E, length_app; lia). split; [lia |]. split; [by constructor | lia].
Qed.
Lemma front_words : 48 <= total_size blob <= len blob -> len front = total_size blob /\ data_size front = data_size blob /\ total_size front = total_size blob
  /\ forall k, (k + 4 <= 48)%nat -> word front k = word blob k.
Proof.
  intros H. assert (forall k, (k + 4 <= 48)%nat -> word front k = word blob k) as Hw by (intros k Hk; apply word_prefix; lia).
  split; [rewrite length_take; lia |]. unfold data_size at 1, total_size at 3. by rewrite !Hw by lia.
Qed.
(** What [front_only] says about the numbers in the header. *)
Lemma front_header : (exists p rest, blob = p ++ rest /\ valid_update p) ->
  (word blob 0 = 1 /\ word blob 20 = 1) /\ 48 + data_size blob <= total_size blob <= len blob /\ data_size blob mod 4 = 0 /\ total_size blob mod 4 = 0 /\ total_size blob <= 16 * 1024 * 1024
  /\ valid_update front.
Proof.
  intros (H48 & V & Ht)%front_only. destruct (data_nonneg blob Hb) as [D T]. assert (len front = total_size blob) as El by (rewrite length_take; lia).
  destruct (data_nonneg front ltac:(by apply Forall_take)) as [D' _]. pose proof (vu_data _ V) as [V3 V3']. destruct (front_words ltac:(lia)) as (_ & Ed & Et & Hw).
  pose proof (vu_versions _ V) as [Va Vc]. pose proof (vu_total _ V) as (_ & Ve & Vf). rewrite !Hw in Va, Vc by lia. rewrite El, Ed in *. done.
Qed.

Lemma intel_update_cases :
  match intel_update cpu platform blob with
  | Ok (p, rev, ap) => exists rest, blob = p ++ rest /\ valid_update p /\ rev = word p 4 /\ ap = existsb (fun '(s, f) => matches s f cpu platform) (signatures p)
  | Err _ => ~ exists p rest, blob = p ++ rest /\ valid_update p
  | Panic => False
  end.
Proof.
  unfold intel_update. rewrite get_spec by lia. destruct (Z.leb_spec 48 (len blob)) as [H48 | H48]; [| intros (? & _)%front_only; lia].
  cbn [ok_or mbind outcome_bind]. change (take (Z.to_nat (48 - 0)) (drop (Z.to_nat 0) blob)) with (take 48 blob).
  assert (forall k, 0 <= k -> k + 4 <= 48 -> u32_at (take 48 blob) k = Ok (word blob (Z.to_nat k))) as Hh
    by (intros k K1 K2; rewrite u32_at_ok by (rewrite ?length_take; lia); rewrite word_prefix by lia; done).
  rewrite !Hh by lia. cbn [mbind outcome_bind]. change (Z.to_nat 0) with 0%nat. change (Z.to_nat 4) with 4%nat. change (Z.to_nat 28) with 28%nat. change (Z.to_nat 32) with 32%nat.
  change (Z.to_nat 20) with 20%nat. change (Z.to_nat 12) with 12%nat. change (Z.to_nat 24) with 24%nat. change (Z.to_nat 16) with 16%nat.
  fold (data_size blob) (total_size blob). destruct (data_nonneg blob Hb) as [D T].
  destruct (Z.eqb_spec (word blob 0) 1) as [E0 | E0]; cbn [negb orb guard_err mbind outcome_bind]; [| intros ((? & _) & _)%front_header; lia].
  destruct (Z.eqb_spec (word blob 20) 1) as [E1 | E1]; cbn [negb orb guard_err mbind outcome_bind]; [| intros ((_ & ?) & _)%front_header; lia].
  assert (checked_add 64 48 (data_size blob) = Some (48 + data_size blob)) as -> by (apply checked_add_Some; lia). cbn [ok_or mbind outcome_bind].
  destruct (Z.ltb_spec (total_size blob) (48 + data_size blob)) as [H1 | H1]; cbn [negb orb guard_err mbind outcome_bind]; [intros (_ & ? & _)%front_header; lia |].
  destruct (Z.eqb_spec (data_size blob mod 4) 0) as [H2 | H2]; cbn [negb orb guard_err mbind outcome_bind]; [| intros (_ & _ & ? & _)%front_header; lia].
  destruct (Z.eqb_spec (total_size blob mod 4) 0) as [H3 | H3]; cbn [negb orb guard_err mbind outcome_bind]; [| intros (_ & _ & _ & ? & _)%front_header; lia].
  destruct (Z.ltb_spec (16 * 1024 * 1024) (total_size blob)) as [H4 | H4]; cbn [negb orb guard_err mbind outcome_bind]; [intros (_ & _ & _ & _ & ? & _)%front_header; lia |].
  rewrite get_spec by lia. destruct (Z.leb_spec (total_size blob) (len blob)) as [H5 | H5]; cbn [ok_or mbind outcome_bind]; [| intros (_ & ? & _)%front_header; lia].
  rewrite Z.sub_0_r. change (drop (Z.to_nat 0) blob) with blob. destruct (front_words ltac:(lia)) as (El & Ed & Et & Hw). set (P := front) in *.
  assert (ext P = drop (Z.to_nat (48 + data_size blob)) P) as Ex by (unfold ext; by rewrite Ed).
  assert (len (ext P) = total_size blob - 48 - data_size blob) as Elx by (rewrite Ex, length_drop; lia).
  rewrite index_to by lia. cbn [mbind outcome_bind]. rewrite sum_spec. replace (len (take (Z.to_nat (48 + data_size blob)) P)) with (48 + data_size blob) by (rewrite length_take; lia).
  rewrite (proj2 (Z.eqb_eq _ _)) by zdiv. cbn [mbind outcome_bind]. rewrite index_from by lia. rewrite <- Ex.
  destruct (Z.eqb_spec (word_sum (take (Z.to_nat (48 + data_size blob)) P) mod 2 ^ 32) 0) as [Hs | Hs]; cbn [negb guard_err mbind outcome_bind].
  2: { intros (_ & _ & _ & _ & _ & V)%front_header. fold P in V. apply Hs. rewrite <- Ed. apply V. }
  assert (valid_ext P -> valid_update P) as Hvalid by (intros Hx; constructor; rewrite ?Ed, ?Et, ?El, ?Hw by lia; done).
  rewrite <- !Hw by lia. assert (u32_at (take 48 blob) 16 = Ok (word P 16)) as Hc by (rewrite Hh by lia; by rewrite Hw by lia).
  pose proof (ext_check_cases (take 48 blob) P ltac:(by apply Forall_take) Hc ltac:(rewrite Elx; zdiv)) as Hx. destruct (ext_check _ _ _ _ _ _ _) as [ap | e |]; cbn [mbind outcome_bind]; [| | done].
  - destruct Hx as [Hx ->]. exists (drop (Z.to_nat (total_size blob)) blob). split; [symmetry; apply take_drop |]. split; [by apply Hvalid | done].
  - intros (_ & _ & _ & _ & _ & V)%front_header. apply Hx, V.
Qed.
End Update.

Definition intel_patch (p : list Z) : Patch := mkPatch p (word p 4) 48.
Definition intel_file (blob : list Z) (ps : list (list Z)) : Prop := blob = mjoin ps /\ Forall valid_update ps.
Lemma intel_choice p (sel : option (list Z)) : Forall is_byte p ->
  (if existsb (fun '(s, f) => matches s f cpu platform) (signatures p) && (current <? word p 4) && (Z.land (word p 4) (Z.shiftl 1 31) =? 0) && newer (intel_patch <$> sel) (word p 4)
   then Some (mkPatch p (word p 4) 48) else intel_patch <$> sel) = intel_patch <$> pick (usable cpu platform current) (fun p => word p 4) sel p.
Proof.
  intros Hp. unfold pick, usable. rewrite land_pow2_testbit by lia. unfold matches. destruct sel as [q |]; cbn [newer fmap option_fmap option_map intel_patch p_revision].
  - by destruct (existsb _ _ && _ && _ && _).
  - by destruct (existsb _ _ && _ && _ && _).
Qed.
Lemma intel_loop_cases : forall fuel blob (sel : option (list Z)), Forall is_byte blob -> (length blob < fuel)%nat ->
  match intel_loop cpu platform current fuel blob (intel_patch <$> sel) with
  | Ok r => exists ps, intel_file blob ps /\ r = intel_patch <$> foldl (pick (usable cpu platform current) (fun p => word p 4)) sel ps
  | Err _ => ~ exists ps, intel_file blob ps
  | Panic => False
  end.
Proof.
  induction fuel as [| fuel IH]; intros blob sel Hb Hf; [lia |]. cbn [intel_loop]. destruct (bool_decide_reflect (blob = [])) as [-> | Hne]; [by exists []|].
  assert (forall ps, intel_file blob ps -> exists p ps', blob = p ++ mjoin ps' /\ valid_update p /\ Forall valid_update ps') as Hcons.
  { intros [| p ps] [E V]; [done |]. apply Forall_cons in V as [V1 V2]. by exists p, ps. }
  pose proof (intel_update_cases blob Hb) as Hu. destruct (intel_update cpu platform blob) as [[[p rev] ap] | e |]; cbn [mbind outcome_bind]; [| | done].
  2: { intros (ps & (p & ps' & E & V & _)%Hcons). apply Hu. eauto. }
  destruct Hu as (rest & E & V & -> & ->). pose proof Hb as Hb0. rewrite E in Hb. apply Forall_app in Hb as [Hp Hr]. destruct (update_front p rest Hp V) as (L48 & _ & _ & Euniq). rewrite <- E in Euniq.
  rewrite intel_choice by done. assert (index blob (len p) (len blob) = Ok rest) as -> by (rewrite index_from by (rewrite E, length_app; lia); by rewrite Nat2Z.id, E, drop_app_length).
  cbn [mbind outcome_bind].
  specialize (IH rest (pick (usable cpu platform current) (fun p => word p 4) sel p) Hr ltac:(rewrite E, length_app in Hf; lia)).
  destruct (intel_loop _ _ _ _ _ _) as [r | e |]; [| | done].
  - destruct IH as (ps & [Er Vs] & ->). exists (p :: ps). split; [split; [by rewrite E, Er | by constructor] | done].
  - intros (ps & (p' & ps' & E' & V' & Vs')%Hcons). apply IH. exists ps'. split; [| done].
    rewrite E' in Hb0. apply Forall_app in Hb0 as [Hp' _]. destruct (update_front p' (mjoin ps') Hp' V') as (_ & _ & _ & Euniq'). rewrite <- E' in Euniq'.
    rewrite <- Euniq in Euniq'. subst p'. rewrite E in E'. by apply app_inv_head in E'.
Qed.
End Intel.

(** C22. Intel microcode files: whatever the bytes, [intel] returns without a panic.  It accepts
    exactly the files that are a concatenation of valid updates (versions, sizes, checksums of
    the update and of every extended signature), and the choice is the newest one usable: of
    the updates for this processor and platform that are newer than the current revision, the
    first with the highest revision, or none when there is none. *)
Theorem intel_microcode_exact cpu platform current blob : Forall is_byte blob ->
  match intel cpu platform current blob with
  | Ok r => exists ps q, intel_file blob ps /\ newest (usable cpu platform current) (fun p => word p 4) ps q /\ r = intel_patch <$> q
  | Err _ => ~ exists ps, intel_file blob ps
  | Panic => False
  end.
Proof.
  intros Hb. unfold intel. pose proof (intel_loop_cases cpu platform current (S (length blob)) blob None Hb ltac:(lia)) as H. cbn [fmap option_fmap option_map] in H.
  destruct (intel_loop _ _ _ _ _ _) as [r | e |]; [| done | done]. destruct H as (ps & F & ->). eexists ps, _. split; [done |]. split; [apply pick_newest | done].
Qed.

Definition words (ws : list Z) : list Z := mjoin (map (to_le_bytes 4) ws).
(** An update with one word of data, the check word making the sum zero. *)
Definition demo_update (revision sig pf : Z) : list Z :=
  words [1; revision; 0x01012026; sig; (- (1 + revision + 0x01012026 + sig + 1 + pf + 4 + 52 + 0xabcd)) mod 2 ^ 32; 1; pf; 4; 52; 0; 0; 0; 0xabcd].
Definition demo_file : list Z := demo_update 0x21 0x906ea 2 ++ demo_update 0x25 0x906ea 2 ++ demo_update 0x30 0x806ec 2.
Lemma intel_microcode_exact_witness : intel 0x906ea 2 0x20 demo_file = Ok (Some (intel_patch (demo_update 0x25 0x906ea 2)))
  /\ match intel 0x906ea 2 0x20 demo_file with
     | Ok r => exists ps q, intel_file demo_file ps /\ newest (usable 0x906ea 2 0x20) (fun p => word p 4) ps q /\ r = intel_patch <$> q
     | Err _ => ~ exists ps, intel_file demo_file ps
     | Panic => False
     end.
Proof. split; [vm_compute; reflexivity |]. apply intel_microcode_exact. apply (bool_decide_unpack _). vm_compute. exact I. Defined.
End MicrocodeSpec.
