(* ===== verification/MicrocodeAmd.v ===== *)
(** AMD microcode files, and that the container code (src/microcode/mod.rs) accepts exactly
    the well-formed ones and picks the newest patch the processor may load. *)

From Stdlib Require Import ZArith Lia.
From stdpp Require Import base list list_numbers numbers decidable tactics strings.
From S2P Require Import Prelude FatNames FatLfn Microcode MicrocodeSpec.
Import FatNames(chunks_exact, chunks_exact_aux) FatLfn Microcode MicrocodeSpec.

Module MicrocodeAmd.

(** * Files *)

Record container := mkContainer { c_table : list (list Z); c_patches : list (list Z) }.
Definition flat_patch (p : list Z) : list Z := to_le_bytes 4 1 ++ to_le_bytes 4 (len p) ++ p.
Definition flat (c : container) : list Z :=
  to_le_bytes 4 0x00414d44 ++ to_le_bytes 4 0 ++ to_le_bytes 4 (16 * len (c_table c)) ++ mjoin (c_table c) ++ mjoin (map flat_patch (c_patches c)).
Definition patch_fits (p : list Z) : Prop := 64 <= len p <= 128 * 1024.

(** The family in a processor signature. *)
Definition cpu_family (cpu : Z) : Z := if cpu / 2 ^ 8 mod 16 =? 15 then 15 + cpu / 2 ^ 20 mod 256 else cpu / 2 ^ 8 mod 16.
Lemma family_spec cpu : family cpu = cpu_family cpu.
Proof.
  unfold family, cpu_family. change (Z.land ?x 15) with (Z.land x (2 ^ 4 - 1)). change 255 with (2 ^ 8 - 1). rewrite !land_low, !Z.shiftr_div_pow2 by lia. change (2 ^ 4) with 16.
  destruct (Z.eqb_spec (cpu / 2 ^ 8 mod 16) 15) as [-> | E]; [reflexivity | apply Z.add_0_r].
Qed.

Section Spec.
Context (cpu current : Z) (eligible : Patch -> bool).
Abbreviation fam := (cpu_family cpu).
(** An entry for this processor must not ask for an errata mask or a chipset. *)
Definition entry_plain (e : list Z) : Prop := word e 0 = cpu -> word e 4 = 0 /\ word e 8 = 0 /\ half e 14 = 0.
Record valid_container (c : container) : Prop := {
  vc_table : Forall (fun e => length e = 16%nat) (c_table c) /\ 16 * len (c_table c) < 2 ^ 32;
  vc_old : fam < 0x17 -> c_table c <> [];
  vc_plain : Forall entry_plain (c_table c);
  vc_patches : Forall patch_fits (c_patches c) }.
Definition note_entry (o : option Z) (e : list Z) : option Z := if word e 0 =? cpu then Some (half e 12) else o.
Definition equivalent_id (c : container) : option Z := foldl note_entry None (c_table c).
(** A patch with the equivalence identifier its container gives this processor. *)
Definition loadable (x : option Z * list Z) : bool :=
  let p := x.2 in
  (if 0x17 <=? fam then (zen_signature (word p 4) =? cpu) && (Z.land (word p 4) 0xf0000 =? 0) else bool_decide (x.1 = Some (half p 24)))
  && (0xf + Z.shiftr (half p 24) 12 =? fam) && size_ok cpu (len p) && (word p 16 =? 0) && (word p 20 =? 0) && (current <? word p 4).
Definition amd_patch (x : option Z * list Z) : Patch := mkPatch x.2 (word x.2 4) 0.
Definition amd_usable (x : option Z * list Z) : bool := loadable x && eligible (amd_patch x).
Definition candidates (cs : list container) : list (option Z * list Z) := mjoin (map (fun c => map (pair (equivalent_id c)) (c_patches c)) cs).
Definition amd_file (blob : list Z) (cs : list container) : Prop := blob = mjoin (map flat cs) /\ Forall valid_container cs.
Abbreviation choose := (pick amd_usable (fun x => word x.2 4)).

(** * Words at the front *)

Lemma word_cons x c : 0 <= x < 2 ^ 32 -> word (to_le_bytes 4 x ++ c) 0 = x.
Proof. intros H. unfold word. rewrite drop_0, take_app_length' by (by rewrite length_to_le_bytes). apply from_to_le_bytes. exact H. Qed.
Lemma word_skip x c k : word (to_le_bytes 4 x ++ c) (4 + k) = word c k.
Proof. unfold word. rewrite <- drop_drop, drop_app_length' by (by rewrite length_to_le_bytes). done. Qed.
Lemma word_uncons b : Forall is_byte b -> 4 <= len b -> b = to_le_bytes 4 (word b 0) ++ drop 4 b.
Proof.
  intros Hb Hl. unfold word. rewrite drop_0. assert (to_le_bytes 4 (from_le_bytes (take 4 b)) = take 4 b) as ->; [| by rewrite take_drop].
  transitivity (to_le_bytes (length (take 4 b)) (from_le_bytes (take 4 b))); [f_equal; rewrite length_take; lia |]. by apply to_from_le_bytes, Forall_take.
Qed.
Lemma word_drop b n k : word (drop n b) k = word b (n + k).
Proof. unfold word. by rewrite drop_drop. Qed.
Lemma length_words x y c : length (to_le_bytes 4 x ++ to_le_bytes 4 y ++ c) = (8 + length c)%nat.
Proof. rewrite !length_app, !length_to_le_bytes. lia. Qed.

(** * The equivalence table *)

Lemma equivalence_spec es : forall o, Forall (fun e => length e = 16%nat) es ->
  equivalence cpu o es = if bool_decide (Forall entry_plain es) then Ok (foldl note_entry o es) else Err Format.
Proof.
  induction es as [| e es IH]; intros o Hl; [done |]. apply Forall_cons in Hl as [Hl Hls]. cbn [equivalence foldl]. unfold note_entry at 2.
  rewrite !u32_at_ok, !u16_at_ok by lia. cbn [mbind outcome_bind].
  change (Z.to_nat 0) with 0%nat. change (Z.to_nat 4) with 4%nat. change (Z.to_nat 8) with 8%nat. change (Z.to_nat 14) with 14%nat. change (Z.to_nat 12) with 12%nat.
  assert (bool_decide (Forall entry_plain (e :: es)) = bool_decide (entry_plain e) && bool_decide (Forall entry_plain es)) as ->
    by (rewrite <- bool_decide_and; apply bool_decide_ext, Forall_cons).
  destruct (Z.eqb_spec (word e 0) cpu) as [E | E].
  - rewrite (bool_decide_ext (entry_plain e) (word e 4 = 0 /\ word e 8 = 0 /\ half e 14 = 0)) by (unfold entry_plain; tauto).
    destruct (Z.eqb_spec (word e 4) 0) as [E1 | E1]; cbn [negb orb mbind outcome_bind guard_err]; [| by rewrite bool_decide_eq_false_2 by tauto].
    destruct (Z.eqb_spec (word e 8) 0) as [E2 | E2]; cbn [negb orb mbind outcome_bind guard_err]; [| by rewrite bool_decide_eq_false_2 by tauto].
    destruct (Z.eqb_spec (half e 14) 0) as [E3 | E3]; cbn [negb orb mbind outcome_bind guard_err]; [| by rewrite bool_decide_eq_false_2 by tauto].
    rewrite bool_decide_eq_true_2 by done. by rewrite IH.
  - rewrite bool_decide_eq_true_2 by (intros ?; done). by rewrite IH.
Qed.

(** * Patch sections *)

Lemma flat_patch_front p rest : patch_fits p ->
  word (flat_patch p ++ rest) 0 = 1 /\ word (flat_patch p ++ rest) 4 = len p /\ drop 8 (flat_patch p ++ rest) = p ++ rest /\ length (flat_patch p) = (8 + length p)%nat.
Proof.
  intros [H1 H2]. unfold flat_patch. rewrite <- !app_assoc. split; [by apply word_cons |]. split; [rewrite (word_skip 1 _ 0); apply word_cons; lia |].
  split; [| apply length_words]. change 8%nat with (4 + 4)%nat. rewrite <- drop_drop, !drop_app_length' by (by rewrite length_to_le_bytes). done.
Qed.
Lemma amd_section_cases equivalent blob : Forall is_byte blob ->
  match amd_section cpu current equivalent blob with
  | Ok (p, rev, ok) => exists rest, blob = flat_patch p ++ rest /\ patch_fits p /\ rev = word p 4 /\ ok = loadable (equivalent, p)
  | Err _ => ~ exists p rest, blob = flat_patch p ++ rest /\ patch_fits p
  | Panic => False
  end.
Proof.
  intros Hb. assert (forall p rest, blob = flat_patch p ++ rest -> patch_fits p -> 8 + len p <= len blob /\ word blob 0 = 1 /\ word blob 4 = len p) as Hno.
  { intros p rest -> F. destruct (flat_patch_front p rest F) as (H1 & H2 & _ & H4). rewrite length_app. split; [lia | done]. }
  unfold amd_section. rewrite family_spec. rewrite (u32_at_spec blob 0) by lia. destruct (Z.leb_spec (0 + 4) (len blob)) as [H4 | H4]; cbn [mbind outcome_bind]; [| intros (p & rest & E & F); destruct (Hno _ _ E F); lia].
  change (Z.to_nat 0) with 0%nat. destruct (Z.eqb_spec (word blob 0) 1) as [E1 | E1]; cbn [negb guard_err mbind outcome_bind]; [| intros (p & rest & E & F); destruct (Hno _ _ E F); lia].
  rewrite (u32_at_spec blob 4) by lia. destruct (Z.leb_spec (4 + 4) (len blob)) as [H8 | H8]; cbn [mbind outcome_bind]; [| intros (p & rest & E & F); destruct (Hno _ _ E F); unfold patch_fits in F; lia].
  change (Z.to_nat 4) with 4%nat. destruct ((word blob 4 <? 64) || (128 * 1024 <? word blob 4)) eqn:Hs; cbn [guard_err mbind outcome_bind].
  { intros (p & rest & E & F). destruct (Hno _ _ E F) as (_ & _ & Hw). unfold patch_fits in F. lia. }
  assert (64 <= word blob 4 <= 128 * 1024) as Hs' by lia. assert (checked_add 64 8 (word blob 4) = Some (8 + word blob 4)) as -> by (apply checked_add_Some; lia). cbn [ok_or mbind outcome_bind].
  rewrite get_spec by lia. destruct (Z.leb_spec (8 + word blob 4) (len blob)) as [Hl | Hl]; cbn [ok_or mbind outcome_bind]; [| intros (p & rest & E & F); destruct (Hno _ _ E F); lia].
  replace (8 + word blob 4 - 8) with (word blob 4) by lia. change (Z.to_nat 8) with 8%nat. set (p := take (Z.to_nat (word blob 4)) (drop 8 blob)).
  assert (len p = word blob 4) as Elen by (unfold p; rewrite length_take, length_drop; lia).
  rewrite (u32_at_ok p 4), (u16_at_ok p 24), (u32_at_ok p 16), (u32_at_ok p 20) by lia. cbn [mbind outcome_bind].
  change (Z.to_nat 24) with 24%nat. change (Z.to_nat 16) with 16%nat. change (Z.to_nat 20) with 20%nat. change (Z.to_nat 4) with 4%nat.
  match goal with |- context [mbind _ ?m] => assert (m = Ok (loadable (equivalent, p))) as -> end.
  { unfold loadable. cbn [fst snd]. rewrite Elen. destruct (_ && size_ok cpu (word blob 4)); [| done]. by destruct (word p 16 =? 0). }
  cbn [mbind outcome_bind]. exists (drop (Z.to_nat (word blob 4)) (drop 8 blob)). split; [| split; [unfold patch_fits; lia | done]].
  unfold flat_patch. rewrite Elen, <- !app_assoc. unfold p. rewrite take_drop. rewrite <- E1 at 1. change 8%nat with (4 + 4)%nat. rewrite <- drop_drop.
  replace (word blob 4) with (word (drop 4 blob) 0) by (by rewrite word_drop). rewrite <- word_uncons by (rewrite ?length_drop; (by apply Forall_drop) || lia).
  by apply word_uncons; [done | lia].
Qed.

(** Where the sections of a container end: at the end of the file or at the next container. *)
Definition at_end (rest : list Z) : Prop := rest = [] \/ 4 <= len rest /\ word rest 0 = AMD_MAGIC.
Definition sections (blob : list Z) (ps : list (list Z)) (rest : list Z) : Prop := blob = mjoin (map flat_patch ps) ++ rest /\ Forall patch_fits ps /\ at_end rest.
Lemma sections_nil ps rest : sections [] ps rest -> ps = [] /\ rest = [].
Proof.
  intros (E & F & _). destruct ps as [| p ps]; [by destruct rest |]. apply Forall_cons in F as [Fp _]. destruct (flat_patch_front p [] Fp) as (_ & _ & _ & H).
  apply (f_equal length) in E. change (mjoin (map flat_patch (p :: ps))) with (flat_patch p ++ mjoin (map flat_patch ps)) in E. rewrite !length_app in E. cbn in E. lia.
Qed.
(** What a section list starts with depends on the first word only. *)
Lemma sections_front blob ps rest : sections blob ps rest -> blob <> [] ->
  4 <= len blob /\ (word blob 0 = AMD_MAGIC /\ ps = [] /\ rest = blob \/ word blob 0 = 1 /\ exists p ps' b, ps = p :: ps' /\ blob = flat_patch p ++ b /\ patch_fits p /\ sections b ps' rest).
Proof.
  intros (E & F & A) Hne. destruct ps as [| p ps].
  - cbn in E. subst rest. destruct A as [-> | [A1 A2]]; [done |]. split; [done |]. by left.
  - apply Forall_cons in F as [Fp Fs]. change (mjoin (map flat_patch (p :: ps))) with (flat_patch p ++ mjoin (map flat_patch ps)) in E. rewrite <- app_assoc in E.
    destruct (flat_patch_front p (mjoin (map flat_patch ps) ++ rest) Fp) as (H1 & _ & _ & H4). rewrite <- E in H1. split; [rewrite E, length_app; lia |]. right. split; [done |].
    exists p, ps, (mjoin (map flat_patch ps) ++ rest). done.
Qed.
Lemma flat_patch_inj p p' b b' : patch_fits p -> patch_fits p' -> flat_patch p ++ b = flat_patch p' ++ b' -> p = p' /\ b = b'.
Proof.
  intros F F' E. destruct (flat_patch_front p b F) as (_ & H2 & H3 & _). destruct (flat_patch_front p' b' F') as (_ & H2' & H3' & _). rewrite E in H2, H3.
  rewrite H3 in H3'. apply app_inj_1 in H3' as [-> ->]; [done |]. lia.
Qed.
Lemma amd_sections_cases : forall fuel equivalent blob sel, Forall is_byte blob -> (length blob < fuel)%nat ->
  match amd_sections cpu current eligible fuel equivalent blob (amd_patch <$> sel) with
  | Ok (rest, r) => exists ps, sections blob ps rest /\ r = amd_patch <$> foldl choose sel (map (pair equivalent) ps)
      /\ forall ps' rest', sections blob ps' rest' -> ps' = ps /\ rest' = rest
  | Err _ => ~ exists ps rest, sections blob ps rest
  | Panic => False
  end.
Proof.
  induction fuel as [| fuel IH]; intros equivalent blob sel Hb Hf; [lia |]. cbn [amd_sections]. destruct (bool_decide_reflect (blob = [])) as [-> | Hne].
  { exists []. split; [split; [done |]; split; [done | by left] |]. split; [done |]. apply sections_nil. }
  rewrite u32_at_spec by lia. destruct (Z.leb_spec (0 + 4) (len blob)) as [H4 | H4]; cbn [mbind outcome_bind]; [| intros (ps & rest & S); destruct (sections_front _ _ _ S Hne); lia].
  change (Z.to_nat 0) with 0%nat. destruct (Z.eqb_spec (word blob 0) AMD_MAGIC) as [Em | Em].
  { exists []. split; [split; [done |]; split; [done | right; lia] |]. split; [done |]. intros ps' rest' S. destruct (sections_front _ _ _ S Hne) as (_ & [(_ & -> & ->) | (E1 & _)]); [done |].
    rewrite Em in E1. done. }
  pose proof (amd_section_cases equivalent blob Hb) as Hs. destruct (amd_section cpu current equivalent blob) as [[[p rev] ok] | e |]; cbn [mbind outcome_bind]; [| | done].
  2: { intros (ps & rest & S). destruct (sections_front _ _ _ S Hne) as (_ & [(E & _) | (_ & p & ps' & b & _ & E & F & _)]); [done |]. apply Hs. eauto. }
  destruct Hs as (b & E & F & -> & ->). pose proof Hb as Hb0. rewrite E in Hb. apply Forall_app in Hb as [_ Hb]. destruct (flat_patch_front p b F) as (_ & _ & H3 & H4'). rewrite <- E in H3.
  assert (index blob (8 + len p) (len blob) = Ok b) as -> by (rewrite index_from by (rewrite E, length_app; lia); rewrite E, drop_app_length' by lia; done). cbn [mbind outcome_bind].
  replace (if loadable (equivalent, p) && newer (amd_patch <$> sel) (word p 4) && eligible (mkPatch p (word p 4) 0) then Some (mkPatch p (word p 4) 0) else amd_patch <$> sel)
    with (amd_patch <$> choose sel (equivalent, p)).
  2: { unfold pick, amd_usable. change (amd_patch (equivalent, p)) with (mkPatch p (word p 4) 0). destruct (loadable (equivalent, p)), (eligible (mkPatch p (word p 4) 0)); cbn [andb];
         rewrite ?andb_false_r, ?andb_true_r; try done. destruct sel as [[eq q] |]; [| done]. cbn [newer fmap option_fmap option_map amd_patch p_revision snd]. by destruct (word q 4 <? word p 4). }
  specialize (IH equivalent b (choose sel (equivalent, p)) Hb ltac:(rewrite E, length_app in Hf; lia)). destruct (amd_sections _ _ _ _ _ _ _) as [[rest r] | e |]; [| | done].
  - destruct IH as (ps & (Eb & Fs & A) & -> & Hu). exists (p :: ps). split; [| split; [done |]].
    + split; [| split; [by constructor | done]]. change (mjoin (map flat_patch (p :: ps))) with (flat_patch p ++ mjoin (map flat_patch ps)). by rewrite <- app_assoc, <- Eb.
    + intros ps' rest' S. destruct (sections_front _ _ _ S Hne) as (_ & [(Ex & _) | (_ & q & qs & b' & -> & E' & F' & S')]); [done |]. rewrite E in E'.
      apply flat_patch_inj in E' as [-> <-]; [| done | done]. by destruct (Hu _ _ S') as [-> ->].
  - intros (ps & rest & S). destruct (sections_front _ _ _ S Hne) as (_ & [(Ex & _) | (_ & q & qs & b' & -> & E' & F' & S')]); [done |]. rewrite E in E'.
    apply flat_patch_inj in E' as [-> <-]; [| done | done]. apply IH. eauto.
Qed.

(** * Containers *)

Lemma join_chunks_exact {A} n k : forall l : list A, (0 < n)%nat -> length l = (k * n)%nat -> mjoin (chunks_exact n l) = l /\ length (chunks_exact n l) = k.
Proof.
  unfold chunks_exact. intros l Hn Hl. replace (length l / n)%nat with k by (rewrite Hl; symmetry; apply Nat.div_mul; lia). revert l Hl.
  induction k as [| k IH]; intros l Hl; cbn [chunks_exact_aux]; [by destruct l |]. rewrite (proj2 (Nat.leb_le _ _)) by lia.
  destruct (IH (drop n l)) as [E1 E2]; [rewrite length_drop; lia |]. cbn [length]. rewrite E2. split; [| done].
  change (take n l ++ mjoin (chunks_exact_aux k n (drop n l)) = l). by rewrite E1, take_drop.
Qed.
(** The header a container puts at the front of a file. *)
Lemma container_front c rest : valid_container c -> let blob := flat c ++ rest in
  12 + 16 * len (c_table c) <= len blob /\ word blob 0 = AMD_MAGIC /\ word blob 4 = 0 /\ word blob 8 = 16 * len (c_table c)
  /\ drop 12 blob = mjoin (c_table c) ++ mjoin (map flat_patch (c_patches c)) ++ rest /\ len (mjoin (c_table c)) = 16 * len (c_table c).
Proof.
  intros [[V1 V2] _ _ _] blob. unfold blob, flat. rewrite <- !app_assoc. pose proof (length_join 16 _ V1) as El. split; [rewrite !length_app, !length_to_le_bytes; lia |].
  split; [by apply word_cons |]. split; [rewrite (word_skip _ _ 0); by apply word_cons |]. split; [rewrite (word_skip _ _ 4), (word_skip _ _ 0); apply word_cons; lia |].
  split; [| lia]. change 12%nat with (4 + (4 + 4))%nat. rewrite <- !drop_drop, !drop_app_length' by (by rewrite length_to_le_bytes). done.
Qed.
Lemma file_end cs : Forall valid_container cs -> at_end (mjoin (map flat cs)).
Proof.
  destruct cs as [| c cs]; [by left |]. intros [Vc _]%Forall_cons. right. change (mjoin (map flat (c :: cs))) with (flat c ++ mjoin (map flat cs)).
  destruct (container_front c (mjoin (map flat cs)) Vc) as (H1 & H2 & _). split; [lia | done].
Qed.
(** A file that is not empty starts with a container, and the header gives its parts. *)
Lemma file_front blob cs : amd_file blob cs -> blob <> [] -> exists c cs', cs = c :: cs' /\ valid_container c /\ blob = flat c ++ mjoin (map flat cs') /\ Forall valid_container cs'.
Proof. intros [E V] Hne. destruct cs as [| c cs]; [done |]. apply Forall_cons in V as [V1 V2]. by exists c, cs. Qed.
Lemma file_header blob cs : amd_file blob cs -> blob <> [] -> 12 + word blob 8 <= len blob /\ word blob 0 = AMD_MAGIC /\ word blob 4 = 0 /\ word blob 8 mod 16 = 0
  /\ (fam < 0x17 -> 16 <= word blob 8) /\ Forall entry_plain (chunks_exact 16 (take (Z.to_nat (word blob 8)) (drop 12 blob)))
  /\ exists ps rest, sections (drop (12 + Z.to_nat (word blob 8)) blob) ps rest.
Proof.
  intros Hf Hne. destruct (file_front _ _ Hf Hne) as (c & cs' & -> & V & E & Vs). destruct (container_front c (mjoin (map flat cs')) V) as (H1 & H2 & H3 & H4 & H5 & H6). cbv zeta in *. rewrite <- E in H1, H2, H3, H4, H5.
  rewrite H4. split; [lia |]. split; [done |]. split; [done |]. split; [zdiv |]. split; [intros Hfam; pose proof (vc_old _ V Hfam); destruct (c_table c); [done | cbn [length]; lia] |].
  rewrite <- drop_drop, H5, take_app_length', drop_app_length' by lia. rewrite chunks_exact_join by (lia || apply V). split; [apply V |].
  exists (c_patches c), (mjoin (map flat cs')). split; [done |]. split; [apply V | by apply file_end].
Qed.

Lemma header_uncons blob : Forall is_byte blob -> 12 <= len blob -> blob = to_le_bytes 4 (word blob 0) ++ to_le_bytes 4 (word blob 4) ++ to_le_bytes 4 (word blob 8) ++ drop 12 blob.
Proof.
  intros Hb Hl. rewrite (word_uncons blob) at 1 by (done || lia). f_equal. rewrite (word_uncons (drop 4 blob)) at 1 by (rewrite ?length_drop; (by apply Forall_drop) || lia). rewrite word_drop. f_equal.
  rewrite drop_drop, (word_uncons (drop (4 + 4) blob)) at 1 by (rewrite ?length_drop; (by apply Forall_drop) || lia). by rewrite word_drop, drop_drop.
Qed.
Abbreviation table_of blob := (take (Z.to_nat (word blob 8)) (drop 12 blob)).
Lemma amd_head_cases blob : Forall is_byte blob -> blob <> [] ->
  match amd_head cpu blob with
  | Ok (equivalent, start) => start = 12 + word blob 8 /\ start <= len blob /\ word blob 0 = AMD_MAGIC /\ word blob 4 = 0 /\ word blob 8 mod 16 = 0 /\ (fam < 0x17 -> 16 <= word blob 8)
      /\ Forall entry_plain (chunks_exact 16 (table_of blob)) /\ equivalent = foldl note_entry None (chunks_exact 16 (table_of blob))
  | Err _ => ~ exists cs, amd_file blob cs
  | Panic => False
  end.
Proof.
  intros Hb Hne. unfold amd_head. rewrite family_spec. pose proof (word_u32 blob 8 Hb) as W8. pose proof (fun cs H => file_header blob cs H Hne) as Hh.
  rewrite (u32_at_spec blob 0) by lia. destruct (Z.leb_spec (0 + 4) (len blob)) as [L | L]; cbn [mbind outcome_bind]; [clear L | intros (cs & F); destruct (Hh _ F); lia].
  change (Z.to_nat 0) with 0%nat. destruct (Z.eqb_spec (word blob 0) AMD_MAGIC) as [E1 | E1]; cbn [negb orb guard_err mbind outcome_bind]; [| intros (cs & F); destruct (Hh _ F); tauto].
  rewrite (u32_at_spec blob 4) by lia. destruct (Z.leb_spec (4 + 4) (len blob)) as [L | L]; cbn [mbind outcome_bind]; [clear L | intros (cs & F); destruct (Hh _ F); lia].
  change (Z.to_nat 4) with 4%nat. destruct (Z.eqb_spec (word blob 4) 0) as [E2 | E2]; cbn [negb orb guard_err mbind outcome_bind]; [| intros (cs & F); destruct (Hh _ F); tauto].
  rewrite (u32_at_spec blob 8) by lia. destruct (Z.leb_spec (8 + 4) (len blob)) as [L | L]; cbn [mbind outcome_bind]; [clear L | intros (cs & F); destruct (Hh _ F); lia].
  change (Z.to_nat 8) with 8%nat. destruct (Z.eqb_spec (word blob 8 mod 16) 0) as [E3 | E3]; cbn [negb orb guard_err mbind outcome_bind]; [| intros (cs & F); destruct (Hh _ F); tauto].
  destruct ((fam <? 0x17) && (word blob 8 <? 16)) eqn:E4; cbn [guard_err mbind outcome_bind]; [intros (cs & F); destruct (Hh _ F) as (_ & _ & _ & _ & ? & _); lia |].
  assert (checked_add 64 12 (word blob 8) = Some (12 + word blob 8)) as -> by (apply checked_add_Some; lia). cbn [ok_or mbind outcome_bind].
  rewrite get_spec by lia. destruct (Z.leb_spec (12 + word blob 8) (len blob)) as [L | L]; cbn [ok_or mbind outcome_bind]; [| intros (cs & F); destruct (Hh _ F); lia].
  replace (12 + word blob 8 - 12) with (word blob 8) by lia. change (Z.to_nat 12) with 12%nat. rewrite equivalence_spec by apply chunks_lengths.
  destruct (bool_decide_reflect (Forall entry_plain (chunks_exact 16 (table_of blob)))) as [E5 | E5]; cbn [mbind outcome_bind]; [| intros (cs & F); destruct (Hh _ F); tauto].
  split_and!; done || lia.
Qed.
Lemma amd_loop_cases : forall fuel blob sel, Forall is_byte blob -> (length blob < fuel)%nat ->
  match amd_loop cpu current eligible fuel blob (amd_patch <$> sel) with
  | Ok r => exists cs, amd_file blob cs /\ r = amd_patch <$> foldl choose sel (candidates cs)
  | Err _ => ~ exists cs, amd_file blob cs
  | Panic => False
  end.
Proof.
  induction fuel as [| fuel IH]; intros blob sel Hb Hf; [lia |]. cbn [amd_loop]. destruct (bool_decide_reflect (blob = [])) as [-> | Hne]; [by exists [] |].
  pose proof (amd_head_cases blob Hb Hne) as Hd. destruct (amd_head cpu blob) as [[equivalent start] | e |]; cbn [mbind outcome_bind]; [| done | done].
  destruct Hd as (-> & L & E1 & E2 & E3 & E4 & E5 & ->). pose proof (word_u32 blob 8 Hb) as W8. set (table := table_of blob) in *.
  rewrite index_from by lia. cbn [mbind outcome_bind]. replace (Z.to_nat (12 + word blob 8)) with (12 + Z.to_nat (word blob 8))%nat by lia. set (body := drop (12 + Z.to_nat (word blob 8)) blob) in *.
  assert (blob = to_le_bytes 4 AMD_MAGIC ++ to_le_bytes 4 0 ++ to_le_bytes 4 (word blob 8) ++ table ++ body) as Eblob
    by (unfold table, body; rewrite <- drop_drop, take_drop, <- E1, <- E2; by apply header_uncons; [done | lia]).
  pose proof (amd_sections_cases (S (length body)) (foldl note_entry None (chunks_exact 16 table)) body sel ltac:(by apply Forall_drop) ltac:(lia)) as Hs.
  destruct (amd_sections _ _ _ _ _ _ _) as [[rest r] | e |]; cbn [mbind outcome_bind]; [| intros (cs & F); destruct (file_header _ _ F Hne) as (_ & _ & _ & _ & _ & _ & ?); by apply Hs | done].
  destruct Hs as (ps & S & -> & Hu). pose proof S as (Eb & Fps & A).
  assert (length blob = 12 + length table + length (mjoin (map flat_patch ps)) + length rest)%nat as Elen by (rewrite Eblob, Eb, !length_app, !length_to_le_bytes; lia).
  assert (Forall is_byte body) as Hr by (by apply Forall_drop). rewrite Eb in Hr. apply Forall_app in Hr as [_ Hr].
  specialize (IH rest (foldl choose sel (map (pair (foldl note_entry None (chunks_exact 16 table))) ps)) Hr ltac:(lia)).
  assert (length table = Z.to_nat (word blob 8 / 16) * 16)%nat as Et by (unfold table; rewrite length_take, length_drop; zdiv).
  destruct (join_chunks_exact 16 _ table ltac:(lia) Et) as [Ej En]. destruct (amd_loop _ _ _ _ _ _) as [r | e |]; [| | done].
  - destruct IH as (cs & [Ec Vc] & ->). exists (mkContainer (chunks_exact 16 table) ps :: cs). split; [split |].
    + rewrite Eblob, Eb, Ec. change (mjoin (map flat (?x :: ?l))) with (flat x ++ mjoin (map flat l)). unfold flat at 2. cbn [c_table c_patches].
      rewrite Ej, En, <- !app_assoc. do 3 f_equal. f_equal. zdiv.
    + constructor; [| done]. constructor; cbn [c_table c_patches]; [split; [apply chunks_lengths | rewrite En; zdiv] | | done | done].
      intros Hfam Ex. rewrite Ex in En. cbn in En. zdiv.
    + unfold candidates. change (mjoin (map ?f (?x :: ?l))) with (f x ++ mjoin (map f l)). rewrite foldl_app. done.
  - intros (cs & F). destruct (file_front _ _ F Hne) as (c & cs' & -> & V & E & Vs). apply IH. exists cs'. split; [| done].
    destruct (container_front c (mjoin (map flat cs')) V) as (_ & _ & _ & H4 & H5 & H6). cbv zeta in *. rewrite <- E in H4, H5.
    destruct (Hu (c_patches c) (mjoin (map flat cs'))) as [_ ?]; [| done]. split; [| split; [apply V | by apply file_end]].
    unfold body. rewrite <- drop_drop, H5, H4, drop_app_length' by lia. done.
Qed.
End Spec.

(** * Which patches may be loaded *)

(** A Zen patch revision names its processor: extended family, extended model, a zero digit,
    model and stepping, and the patch's own number. *)
Definition names_cpu (rev cpu : Z) : Prop := exists ext_family ext_model model_stepping number,
  0 <= ext_family < 256 /\ 0 <= ext_model < 16 /\ 0 <= model_stepping < 256 /\ 0 <= number < 256
  /\ rev = ext_family * 2 ^ 24 + ext_model * 2 ^ 20 + model_stepping * 2 ^ 8 + number
  /\ cpu = ext_family * 2 ^ 20 + ext_model * 2 ^ 16 + 0xf00 + model_stepping.
(** The vendor published a patch with this revision, these bytes. *)
Definition published (digests : list (Z * Z * list Z)) (sha256 : list Z -> list Z) (p : list Z) : Prop :=
  exists rev n hash, (rev, n, hash) ∈ digests /\ rev = word p 4 /\ n = len p /\ hash = sha256 p.
(** [before] and [after] are on the same side of the signing boundary of [before]'s processor. *)
Definition same_side (before after : Z) : Prop := forall prefix cutoff, (prefix, cutoff) ∈ CUTOFFS -> before / 256 = prefix -> before <= cutoff <-> after <= cutoff.
Definition size_fits (f n : Z) : Prop := 0x10 <= f <= 0x12 /\ n <= 2048 \/ f = 0x14 /\ n <= 1824 \/ 0x15 <= f.
(** A patch, with the identifier that its container's table gives this processor. *)
Record may_load (digests : list (Z * Z * list Z)) (sha256 : list Z -> list Z) (cpu before : Z) (x : option Z * list Z) : Prop := {
  ml_cpu : if decide (0x17 <= cpu_family cpu) then names_cpu (word x.2 4) cpu else x.1 = Some (half x.2 24);
  ml_family : cpu_family cpu = 15 + half x.2 24 / 4096;
  ml_size : size_fits (cpu_family cpu) (len x.2);
  ml_chipset : word x.2 16 = 0 /\ word x.2 20 = 0;
  ml_newer : before < word x.2 4;
  ml_published : published digests sha256 x.2;
  ml_side : same_side before (word x.2 4) }.

Lemma zen_digits rev : 0 <= rev -> zen_signature rev = rev / 2 ^ 24 mod 256 * 2 ^ 20 + rev / 2 ^ 20 mod 16 * 2 ^ 16 + 0xf00 + rev / 2 ^ 8 mod 256.
Proof.
  intros H. unfold zen_signature. change 0xff with (2 ^ 8 - 1). change 0xf0000 with (Z.shiftl (2 ^ 4 - 1) 16). change 0xff00000 with (Z.shiftl (2 ^ 8 - 1) 20).
  rewrite !land_shiftl_high, !Z.shiftr_shiftr, !land_low, !Z.shiftr_div_pow2 by lia. change (4 + 16) with 20. change (4 + 20) with 24. change (2 ^ 4) with 16. change 256 with (2 ^ 8).
  set (a := rev / 2 ^ 24 mod 2 ^ 8). set (b := rev / 2 ^ 20 mod 16). set (c := rev / 2 ^ 8 mod 2 ^ 8).
  assert (0 <= a < 2 ^ 8) by (apply Z.mod_pos_bound; lia). assert (0 <= b < 16) by (apply Z.mod_pos_bound; lia). assert (0 <= c < 2 ^ 8) by (apply Z.mod_pos_bound; lia).
  rewrite (Z.lor_comm c). change 0xf00 with (Z.shiftl 15 8) at 1. rewrite lor_shiftl_low by lia. rewrite Z.lor_comm, (Z.lor_comm _ (Z.shiftl b 16)).
  rewrite (lor_shiftl_low b) by lia. rewrite (lor_shiftl_low a) by lia. lia.
Qed.
Lemma names_cpu_spec rev cpu : 0 <= rev < 2 ^ 32 -> (zen_signature rev =? cpu) && (Z.land rev 0xf0000 =? 0) = true <-> names_cpu rev cpu.
Proof.
  intros H. rewrite andb_true_iff, !Z.eqb_eq, zen_digits by lia. change 0xf0000 with (Z.shiftl (2 ^ 4 - 1) 16). rewrite land_shiftl_high, land_low, Z.shiftr_div_pow2, Z.shiftl_mul_pow2 by lia. split.
  - intros [<- Hz]. exists (rev / 2 ^ 24), (rev / 2 ^ 20 mod 16), (rev / 2 ^ 8 mod 256), (rev mod 256).
    assert (rev / 2 ^ 24 mod 256 = rev / 2 ^ 24) as -> by (apply Z.mod_small; zdiv). zdiv.
  - intros (a & b & c & d & Ha & Hb & Hc & Hd & -> & ->). split; zdiv.
Qed.
Lemma published_spec digests sha256 p : trusted_amd digests sha256 (mkPatch p (word p 4) 0) = true <-> published digests sha256 p.
Proof.
  unfold trusted_amd, amd_digest_known, published. cbn [p_revision p_bytes]. rewrite existsb_exists. split.
  - intros ([[rev n] hash] & Hin & H). apply list_elem_of_In in Hin. apply andb_true_iff in H as [[H1%Z.eqb_eq H2%Z.eqb_eq]%andb_true_iff H3%bool_decide_eq_true]. by exists rev, n, hash.
  - intros (rev & n & hash & Hin & -> & -> & ->). exists (word p 4, len p, sha256 p). split; [by apply list_elem_of_In |]. by rewrite !Z.eqb_refl, bool_decide_true.
Qed.
Lemma cutoffs_distinct : NoDup CUTOFFS.*1.
Proof. apply (bool_decide_unpack _). vm_compute. exact I. Qed.
Lemma key_unique {A B} (l : list (A * B)) x a b : NoDup l.*1 -> (x, a) ∈ l -> (x, b) ∈ l -> a = b.
Proof.
  intros Hnd [i Hi]%list_elem_of_lookup [j Hj]%list_elem_of_lookup. assert (i = j) as -> by (apply (NoDup_lookup _ i j x Hnd); rewrite list_lookup_fmap; [by rewrite Hi | by rewrite Hj]). congruence.
Qed.
Lemma same_side_spec before after : transition_allowed before after = true <-> same_side before after.
Proof.
  unfold transition_allowed, same_side. rewrite Z.shiftr_div_pow2 by lia. change (2 ^ 8) with 256. destruct (List.find _ CUTOFFS) as [[prefix cutoff] |] eqn:E.
  - apply List.find_some in E as [Hin E%Z.eqb_eq]. apply list_elem_of_In in Hin. rewrite eqb_true_iff. split.
    + intros H p c Hc Hp. assert (c = cutoff) as -> by (apply (key_unique CUTOFFS prefix); [exact cutoffs_distinct | congruence | exact Hin]). lia.
    + intros H. specialize (H prefix cutoff Hin (eq_sym E)). lia.
  - split; [| done]. intros _ p c Hc%list_elem_of_In Hp. apply (List.find_none _ _ E) in Hc. cbn in Hc. lia.
Qed.
Lemma size_fits_spec cpu n : size_ok cpu n = true <-> size_fits (cpu_family cpu) n.
Proof. unfold size_ok, size_fits. rewrite family_spec. destruct ((0x10 <=? cpu_family cpu) && (cpu_family cpu <=? 0x12)) eqn:E1; [lia |]. destruct (cpu_family cpu =? 0x14) eqn:E2; [lia |]. destruct (0x15 <=? cpu_family cpu) eqn:E3; split; (done || lia). Qed.
Abbreviation policy digests sha256 before := (fun p => trusted_amd digests sha256 p && transition_allowed before (p_revision p)).
Lemma may_load_spec digests sha256 cpu before x : Forall is_byte x.2 -> amd_usable cpu before (policy digests sha256 before) x = true <-> may_load digests sha256 cpu before x.
Proof.
  intros Hb. pose proof (names_cpu_spec (word x.2 4) cpu (word_u32 _ 4 Hb)) as Hn. unfold amd_usable, loadable. cbv zeta. change (p_revision (amd_patch x)) with (word x.2 4).
  rewrite !andb_true_iff, size_fits_spec, !Z.eqb_eq, Z.ltb_lt, same_side_spec. unfold amd_patch. rewrite published_spec, Z.shiftr_div_pow2 by lia. change (2 ^ 12) with 4096.
  assert ((if 0x17 <=? cpu_family cpu then (zen_signature (word x.2 4) =? cpu) && (Z.land (word x.2 4) 0xf0000 =? 0) else bool_decide (x.1 = Some (half x.2 24))) = true
          <-> if decide (0x17 <= cpu_family cpu) then names_cpu (word x.2 4) cpu else x.1 = Some (half x.2 24)) as ->.
  { destruct (Z.leb_spec 0x17 (cpu_family cpu)); [rewrite decide_True by lia; exact Hn | rewrite decide_False by lia; apply bool_decide_eq_true]. }
  split; [intros ((((((H1 & H2) & H3) & H4) & H5) & H6) & H7 & H8); constructor; tauto || lia | intros [H1 H2 H3 [H4 H5] H6 H7 H8]; split_and!; done].
Qed.
(** The first of those with the highest revision among the ones that satisfy [P]. *)
Definition newest_of {A} (P : A -> Prop) (rev : A -> Z) (l : list A) (r : option A) : Prop :=
  match r with
  | None => Forall (fun q => ~ P q) l
  | Some p => exists pre post, l = pre ++ p :: post /\ P p /\ Forall (fun q => P q -> rev q < rev p) pre /\ Forall (fun q => P q -> rev q <= rev p) post
  end.
Lemma newest_reflect {A} (usable : A -> bool) (P : A -> Prop) rev l r : Forall (fun x => usable x = true <-> P x) l -> newest usable rev l r -> newest_of P rev l r.
Proof.
  intros Hl. destruct r as [p |]; cbn.
  - intros (pre & post & -> & Hp & H1 & H2). apply Forall_app in Hl as [L1 [L2 L3]%Forall_cons]. exists pre, post. split; [done |]. split; [by apply L2 |].
    split; eapply Forall_impl; [exact (proj2 (Forall_and _ _) (conj L1 H1)) | | exact (proj2 (Forall_and _ _) (conj L3 H2)) |]; cbn; intros q [Hq H] HP; by apply H, Hq.
  - intros H. eapply Forall_impl; [exact (proj2 (Forall_and _ _) (conj Hl H)) |]. cbn. intros q [Hq Hf] HP. apply Hq in HP. congruence.
Qed.
Lemma candidate_bytes cpu cs : Forall is_byte (mjoin (map flat cs)) -> Forall (fun x => Forall is_byte x.2) (candidates cpu cs).
Proof.
  induction cs as [| c cs IH]; [done |]. unfold candidates. change (mjoin (map ?f (c :: cs))) with (f c ++ mjoin (map f cs)). intros [Hc Hcs]%Forall_app. apply Forall_app. split; [| by apply IH].
  unfold flat in Hc. rewrite !Forall_app in Hc. destruct Hc as (_ & _ & _ & _ & Hp). induction (c_patches c) as [| p ps IHp]; [done |].
  change (mjoin (map flat_patch (p :: ps))) with (flat_patch p ++ mjoin (map flat_patch ps)) in Hp. apply Forall_app in Hp as [Hp Hps]. constructor; [| by apply IHp].
  unfold flat_patch in Hp. rewrite !Forall_app in Hp. apply Hp.
Qed.

(** C26. AMD microcode: whatever the boot module holds, the choice returns without a panic.
    No patch is chosen for a processor older than family 10h, or for a Zen processor whose
    running revision is unknown (0).  Otherwise a module is accepted exactly when it is a
    concatenation of containers (equivalence tables without errata masks for this processor,
    patches of allowed size), and the choice is the newest patch that is for this processor
    and family, newer than the running revision, in the table of published patches with its
    revision, its length and the digest of its bytes, and on the same side of the processor's
    signing boundary as the running revision; nothing is chosen when there is none. *)
Theorem amd_microcode_exact digests sha256 signature before platform_id blob : Forall is_byte blob ->
  let choice := select_patch digests sha256 false false true signature (Some before) platform_id (Some blob) in
  if decide (cpu_family signature < 0x10 \/ 0x17 <= cpu_family signature /\ before = 0) then choice = Ok None
  else
    match choice with
    | Ok r => exists cs q, amd_file signature blob cs /\ newest_of (may_load digests sha256 signature before) (fun x => word x.2 4) (candidates signature cs) q /\ r = amd_patch <$> q
    | Err _ => ~ exists cs, amd_file signature blob cs
    | Panic => False
    end.
Proof.
  intros Hb choice. unfold choice, select_patch. rewrite family_spec. cbn [negb orb andb]. case_decide as Hd.
  - destruct (Z.ltb_spec (cpu_family signature) 0x10); [done |]. destruct Hd as [? | [H1 ->]]; [lia |]. by rewrite (proj2 (Z.leb_le _ _) H1).
  - rewrite (proj2 (Z.ltb_ge _ _)) by lia. replace ((0x17 <=? cpu_family signature) && (before =? 0)) with false by lia. unfold amd_eligible.
    pose proof (amd_loop_cases signature before (policy digests sha256 before) (S (length blob)) blob None Hb ltac:(lia)) as H. cbn [fmap option_fmap option_map] in H.
    destruct (amd_loop _ _ _ _ _ _) as [r | e |]; [| done | done]. destruct H as (cs & F & ->). eexists cs, _. split; [done |]. split; [| done]. eapply newest_reflect; [| apply pick_newest].
    eapply Forall_impl; [apply (candidate_bytes signature cs); by rewrite <- (proj1 F) |]. intros x Hx. by apply may_load_spec.
Qed.

(** A Zen 2 processor with two patches, of which the newer one has no published digest. *)
Definition demo_patch (revision : Z) : list Z := words [0; revision; 0; 0; 0; 0; 0x8310; 0; 0; 0; 0; 0; 0; 0; 0; 0].
Definition demo_module : list Z := flat (mkContainer [words [0x00830f10; 0; 0; 0x8310]] [demo_patch 0x08301055; demo_patch 0x08301058]).
Definition demo_sha (b : list Z) : list Z := take 8 b.
Definition demo_digests : list (Z * Z * list Z) := [(0x08301055, 64, words [0; 0x08301055])].
Definition demo_choice : outcome Error (option Patch) := select_patch demo_digests demo_sha false false true 0x00830f10 (Some 0x08301034) None (Some demo_module).
Lemma amd_microcode_exact_witness : demo_choice = Ok (Some (mkPatch (demo_patch 0x08301055) 0x08301055 0))
  /\ exists cs q, amd_file 0x00830f10 demo_module cs /\ newest_of (may_load demo_digests demo_sha 0x00830f10 0x08301034) (fun x => word x.2 4) (candidates 0x00830f10 cs) q
       /\ Some (mkPatch (demo_patch 0x08301055) 0x08301055 0) = amd_patch <$> q.
Proof.
  assert (demo_choice = Ok (Some (mkPatch (demo_patch 0x08301055) 0x08301055 0))) as E by (vm_compute; reflexivity). split; [exact E |].
  assert (Forall is_byte demo_module) as Hb by (apply (bool_decide_unpack _); vm_compute; exact I).
  pose proof (amd_microcode_exact demo_digests demo_sha 0x00830f10 0x08301034 None demo_module Hb) as H. cbv zeta in H. rewrite decide_False in H by (vm_compute; intuition discriminate).
  fold demo_choice in H. rewrite E in H. exact H.
Defined.
End MicrocodeAmd.
