(* ===== verification/BootArgs.v ===== *)
(** The kernel command line: ASCII words and the string operations the boot policies use
    (src/security/types.rs, src/topology/policy.rs). *)

From Stdlib Require Import ZArith Lia.
From stdpp Require Import base list list_numbers numbers decidable tactics strings.
From S2P Require Import Prelude FatNames.
Import FatNames(lit).

Module BootArgs.

Definition is_whitespace (c : Z) : bool := existsb (Z.eqb c) [9; 10; 12; 13; 32].
(** [str::split_ascii_whitespace]; [cur] is the word being read. *)
Fixpoint split_from (cur l : list Z) : list (list Z) :=
  match l with
  | [] => if bool_decide (cur = []) then [] else [cur]
  | c :: l' =>
      if is_whitespace c then (if bool_decide (cur = []) then split_from [] l' else cur :: split_from [] l')
      else split_from (cur ++ [c]) l'
  end.
Definition split_ascii_whitespace (l : list Z) : list (list Z) := split_from [] l.
(** [str::split_once(c)]. *)
Fixpoint split_once (c : Z) (l : list Z) : option (list Z * list Z) :=
  match l with
  | [] => None
  | x :: l' => if x =? c then Some ([], l') else '(a, b) ← split_once c l'; Some (x :: a, b)
  end.
Definition strip_prefix (p l : list Z) : option (list Z) :=
  if bool_decide (take (length p) l = p) then Some (drop (length p) l) else None.
Definition is_lit (l : list Z) (s : string) : bool := bool_decide (l = lit s).

Lemma split_once_Some c l a b : split_once c l = Some (a, b) <-> l = a ++ c :: b /\ c ∉ a.
Proof.
  revert a. induction l as [| x l IH]; intros a; cbn [split_once]; [split; [done | intros [E _]; by destruct a] |].
  destruct (Z.eqb_spec x c) as [-> | Hx].
  - split; [intros [= <- <-]; split; [done | apply not_elem_of_nil] |]. intros [E Hn]. destruct a as [| y a]; [by injection E as -> |]. injection E as -> _. by destruct Hn; left.
  - destruct (split_once c l) as [[a' b'] |]; cbn [mbind option_bind].
    + split.
      * intros [= <- <-]. destruct (proj1 (IH a') eq_refl) as [-> Hn]. split; [done |]. by apply not_elem_of_cons.
      * intros [E Hn]. destruct a as [| y a]; [by injection E |]. injection E as -> E. apply not_elem_of_cons in Hn as [_ Hn]. pose proof (proj2 (IH a) (conj E Hn)) as [= -> ->]. done.
    + split; [done |]. intros [E Hn]. destruct a as [| y a]; [by injection E |]. injection E as -> E. apply not_elem_of_cons in Hn as [_ Hn]. by pose proof (proj2 (IH a) (conj E Hn)).
Qed.

(** Text of words with white space around them. *)
Inductive spaced : list Z -> list (list Z) -> Prop :=
| spaced_end : spaced [] []
| spaced_space c l ws : is_whitespace c = true -> spaced l ws -> spaced (c :: l) ws
| spaced_word w l ws : w <> [] -> Forall (fun c => is_whitespace c = false) w -> (l = [] \/ exists c l', l = c :: l' /\ is_whitespace c = true) -> spaced l ws ->
    spaced (w ++ l) (w :: ws).
Lemma split_word w : forall cur l, Forall (fun c => is_whitespace c = false) w -> split_from cur (w ++ l) = split_from (cur ++ w) l.
Proof. induction w as [| c w IH]; intros cur l Hw; cbn [app split_from]; [by rewrite app_nil_r |]. apply Forall_cons in Hw as [-> Hw]. by rewrite IH, <- app_assoc. Qed.
(** The words of a text, whatever white space separates them. *)
Lemma split_spaced l ws : spaced l ws -> split_ascii_whitespace l = ws.
Proof.
  unfold split_ascii_whitespace. induction 1 as [| c l ws Hc _ IH | w l ws Hw Hn Hl _ IH]; [done | cbn [split_from]; by rewrite Hc |].
  rewrite split_word by done. cbn [app]. destruct Hl as [-> | (c & l' & -> & Hc)]; cbn [split_from] in IH |- *.
  - rewrite bool_decide_eq_false_2 by done. cbn in IH. by rewrite <- IH.
  - rewrite Hc, bool_decide_eq_false_2 by done. rewrite Hc in IH. cbn in IH. by rewrite IH.
Qed.
End BootArgs.
