(* ===== verification/Security.v ===== *)
(** Mitigation policy and processor capabilities (src/security/types.rs, store_bypass.rs,
    x86_predictor.rs, arm_predictor.rs, x86_access.rs, x86_decode.rs, arm_pan.rs,
    return_policy.rs, cfi_policy.rs): boot options, feature decoding, what all admitted
    processors have in common, and the plans made from it. *)

From Stdlib Require Import ZArith Lia.
From stdpp Require Import base list list_numbers numbers decidable tactics strings.
From S2P Require Import Prelude Records FatNames BootArgs.
Import FatNames(lit) BootArgs.

Module Security.

(** * Policy *)

Inductive Vulnerability := SpectreV1 | SpectreV2 | Meltdown | Ssb | Mds | Taa | Mmio | Bhi | Gds | Rfds | Srso | Retbleed | L1tf | Srbds | Its | Tsa | Bhb.
#[global] Instance Vulnerability_eq_dec : EqDecision Vulnerability.
Proof. solve_decision. Defined.
Definition FAMILIES : list (Vulnerability * string) :=
  [(SpectreV1, "spectre_v1"); (SpectreV2, "spectre_v2"); (Meltdown, "meltdown"); (Ssb, "ssb"); (Mds, "mds"); (Taa, "taa"); (Mmio, "mmio_stale_data"); (Bhi, "bhi");
   (Gds, "gds"); (Rfds, "rfds"); (Srso, "srso"); (Retbleed, "retbleed"); (L1tf, "l1tf"); (Srbds, "srbds"); (Its, "its"); (Tsa, "tsa"); (Bhb, "bhb")]%string.
(** [family as usize]. *)
Definition index (v : Vulnerability) : nat :=
  match v with
  | SpectreV1 => 0 | SpectreV2 => 1 | Meltdown => 2 | Ssb => 3 | Mds => 4 | Taa => 5 | Mmio => 6 | Bhi => 7 | Gds => 8 | Rfds => 9 | Srso => 10 | Retbleed => 11
  | L1tf => 12 | Srbds => 13 | Its => 14 | Tsa => 15 | Bhb => 16
  end%nat.
Definition bit (v : Vulnerability) : Z := Z.shiftl 1 (Z.of_nat (index v)).

Inductive Mode := Off | Auto | AutoNoSmt.
Inductive Override := OAuto | OOn | OOff | PerTask.
#[global] Instance Mode_eq_dec : EqDecision Mode.
Proof. solve_decision. Defined.
#[global] Instance Override_eq_dec : EqDecision Override.
Proof. solve_decision. Defined.
Record Policy := mkPolicy { mode : Mode; overrides : list Override }.
#[export] Instance Policy_eta : Eta Policy := fun p => mkPolicy (mode p) (overrides p).
Definition automatic : Policy := mkPolicy Auto (replicate 17 OAuto).
Abbreviation P := (outcome string).

Definition mode_value (value : list Z) : option Mode :=
  if is_lit value "off" then Some Off else if is_lit value "auto" then Some Auto else if is_lit value "auto,nosmt" then Some AutoNoSmt else None.
Definition override_value (family : Vulnerability) (value : list Z) : option Override :=
  if is_lit value "auto" then Some OAuto else if is_lit value "on" then Some OOn else if is_lit value "off" then Some OOff
  else if is_lit value "per-task" && bool_decide (family = Ssb) then Some PerTask else None.
Definition family_of (key : list Z) : option Vulnerability := fst <$> List.find (fun '(_, name) => is_lit key name) FAMILIES.
Definition parse_arg (policy : Policy) (arg : list Z) : P Policy :=
  match split_once 61 arg with
  | None =>
      if is_lit arg "mitigations" || existsb (fun '(_, name) => is_lit arg name) FAMILIES then Err "missing mitigation policy value"%string else Ok policy
  | Some (key, value) =>
      if is_lit key "mitigations" then
        m ← ok_or (mode_value value) "invalid mitigations mode"%string; Ok (policy <| mode := m |>)
      else
        match family_of key with
        | Some family =>
            o ← ok_or (override_value family value) "invalid mitigation override"%string;
            Ok (policy <| overrides := <[index family := o]> (overrides policy) |>)
        | None => Ok policy
        end
  end.
Fixpoint parse_args (policy : Policy) (args : list (list Z)) : P Policy :=
  match args with [] => Ok policy | arg :: args' => policy ← parse_arg policy arg; parse_args policy args' end.
Definition parse (args : list Z) : P Policy := parse_args automatic (split_ascii_whitespace args).
Definition override_of (p : Policy) (family : Vulnerability) : Override := nth (index family) (overrides p) OAuto.
Definition enabled (p : Policy) (family : Vulnerability) : bool :=
  match override_of p family with OOn => true | OOff => false | PerTask => true | OAuto => negb (bool_decide (mode p = Off)) end.

(** * Features *)

Definition IBRS : Z := Z.shiftl 1 0.
Definition STIBP : Z := Z.shiftl 1 1.
Definition L1D_FLUSH : Z := Z.shiftl 1 2.
Definition MD_CLEAR : Z := Z.shiftl 1 3.
Definition SSBD : Z := Z.shiftl 1 4.
Definition ARCH_CAPS : Z := Z.shiftl 1 5.
Definition EIBRS : Z := Z.shiftl 1 6.
Definition PSFD : Z := Z.shiftl 1 7.
Definition IPRED_CTRL : Z := Z.shiftl 1 8.
Definition RRSBA_CTRL : Z := Z.shiftl 1 9.
Definition BHI_CTRL : Z := Z.shiftl 1 10.
Definition AUTOIBRS : Z := Z.shiftl 1 11.
Definition SBPB : Z := Z.shiftl 1 12.
Definition IBPB_RET : Z := Z.shiftl 1 13.
Definition VIRT_SSBD : Z := Z.shiftl 1 14.
Definition SSBS : Z := Z.shiftl 1 15.
Definition ECBHB : Z := Z.shiftl 1 16.
Definition CLRBHB : Z := Z.shiftl 1 17.
Definition WA1 : Z := Z.shiftl 1 18.
Definition WA2 : Z := Z.shiftl 1 19.
Definition WA3 : Z := Z.shiftl 1 20.
Definition SMEP : Z := Z.shiftl 1 21.
Definition SMAP : Z := Z.shiftl 1 22.
Definition UMIP : Z := Z.shiftl 1 23.
Definition LASS : Z := Z.shiftl 1 24.
Definition IBPB : Z := Z.shiftl 1 25.
Definition DOITM : Z := Z.shiftl 1 26.
Definition RFDS_CLEAR : Z := Z.shiftl 1 28.
Definition GDS_CTRL : Z := Z.shiftl 1 29.
Definition PAN : Z := Z.shiftl 1 31.
Definition EPAN : Z := Z.shiftl 1 32.
Definition UAO : Z := Z.shiftl 1 33.
Definition IBT : Z := Z.shiftl 1 34.

Record SpecCaps := mkCaps { identity : Z; vendor : list Z; features : Z; not_affected : Z; raw : list Z }.
#[export] Instance SpecCaps_eta : Eta SpecCaps := fun c => mkCaps (identity c) (vendor c) (features c) (not_affected c) (raw c).
Definition default_caps : SpecCaps := mkCaps 0 (replicate 12 0) 0 0 (replicate 16 0).
Record CommonCaps := mkCommon { c_features : Z; c_not_affected : Z }.
Definition intersection (caps : list SpecCaps) : CommonCaps :=
  match caps with
  | [] => mkCommon 0 0
  | first :: rest => foldl (fun all cpu => mkCommon (Z.land (c_features all) (features cpu)) (Z.land (c_not_affected all) (not_affected cpu))) (mkCommon (features first) (not_affected first)) rest
  end.
Definition has (flags f : Z) : bool := negb (Z.land flags f =? 0).
(** A patch site holds the address of its implementation, 0 when none is selected. *)
Definition select (is_enabled : bool) (implementation : Z) : Z := if is_enabled then implementation else 0.
Definition select_checked (policy : Policy) (common : CommonCaps) (family : Vulnerability) (required implementation : Z) : Z * bool :=
  let is_enabled := enabled policy family && (Z.land (c_features common) required =? required) && (Z.land (c_not_affected common) (bit family) =? 0) in
  (select is_enabled implementation, is_enabled).
(** [value as u32 as i32 as i64]. *)
Definition smccc_status (value : Z) : Z := let v := value mod 2 ^ 32 in if v <? 2 ^ 31 then v else v - 2 ^ 32.

(** * Decoding x86 capabilities *)

Definition or_if (flags : Z) (on : bool) (f : Z) : Z := if on then Z.lor flags f else flags.
Definition raw_bit (c : SpecCaps) (word b : Z) : bool := has (nth (Z.to_nat word) (raw c) 0) (Z.shiftl 1 b).
Definition add_features (c : SpecCaps) (l : list (Z * Z * Z)) : SpecCaps :=
  foldl (fun c '(word, b, f) => c <| features := or_if (features c) (raw_bit c word b) f |>) c l.
Definition add_immunity (c : SpecCaps) (l : list (Z * Z * Vulnerability)) : SpecCaps :=
  foldl (fun c '(word, b, family) => c <| not_affected := or_if (not_affected c) (raw_bit c word b) (bit family) |>) c l.
Definition BASE_BITS : list (Z * Z * Z) :=
  [(0, 26, Z.lor IBRS IBPB); (0, 27, STIBP); (0, 28, L1D_FLUSH); (0, 29, ARCH_CAPS); (0, 31, SSBD); (0, 10, MD_CLEAR); (0, 20, IBT);
   (5, 7, SMEP); (5, 20, SMAP); (6, 2, UMIP); (7, 6, LASS); (1, 0, PSFD); (1, 1, IPRED_CTRL); (1, 2, RRSBA_CTRL); (1, 4, BHI_CTRL)].
Definition ARCH_IMMUNITY : list (Z * Z * Vulnerability) :=
  [(4, 0, Meltdown); (4, 4, Ssb); (4, 5, Mds); (4, 8, Taa); (4, 20, Bhi); (4, 26, Gds); (4, 27, Rfds); (4, 62, Its)].
Definition MMIO_BITS : Z := Z.lor (Z.lor (Z.shiftl 1 13) (Z.shiftl 1 14)) (Z.shiftl 1 15).
Definition ARCH_BITS : list (Z * Z * Z) := [(4, 1, EIBRS); (4, 12, DOITM); (4, 25, GDS_CTRL); (4, 28, RFDS_CLEAR)].
Definition AMD_BITS : list (Z * Z * Z) :=
  [(2, 12, IBPB); (2, 14, IBRS); (2, 15, STIBP); (2, 24, SSBD); (2, 25, VIRT_SSBD); (2, 30, IBPB_RET)].
Definition decode_amd (caps : SpecCaps) : SpecCaps :=
  if bool_decide (vendor caps = lit "AuthenticAMD") then
    let caps := add_features caps AMD_BITS in
    let caps := add_immunity caps [(2, 26, Ssb)] in
    let caps := add_features caps [(3, 8, AUTOIBRS); (3, 27, SBPB)] in
    add_immunity caps [(3, 29, Srso)]
  else caps.
(** [read_arch_caps] is the register, [None] when reading it faults. *)
Definition decode (caps : SpecCaps) (read_arch_caps : option Z) : P SpecCaps :=
  let caps := caps <| features := 0 |> <| not_affected := 0 |> <| raw := <[4%nat := 0]> (raw caps) |> in
  let caps := add_features caps BASE_BITS in
  caps ← (if has (features caps) ARCH_CAPS then
            v ← unwrap read_arch_caps;
            let caps := caps <| raw := <[4%nat := v]> (raw caps) |> in
            let caps := add_immunity caps ARCH_IMMUNITY in
            let caps := if Z.land (nth 4 (raw caps) 0) MMIO_BITS =? MMIO_BITS then caps <| not_affected := Z.lor (not_affected caps) (bit Mmio) |> else caps in
            Ok (add_features caps ARCH_BITS)
          else Ok caps);
  Ok (decode_amd caps).
End Security.
