(* ===== verification/SecurityPlans.v ===== *)
(** Plans made from the common capabilities (src/security/store_bypass.rs, x86_predictor.rs,
    arm_predictor.rs, x86_access.rs, arm_pan.rs, return_policy.rs, return_thunk.rs and the
    vector choice of src/arch/arm64/predictor.rs). *)

From Stdlib Require Import ZArith Lia.
From stdpp Require Import base list list_numbers numbers decidable tactics strings.
From S2P Require Import Prelude Records FatNames Security.
Import FatNames(lit, splice) Security.

Module SecurityPlans.

(** * Store bypass *)

Inductive SsbMode := SsbOff | SsbOn | SsbPerTask.
Inductive Backend := Unavailable | NotAffected | SpecCtrl | VirtualSpecCtrl | Ssbs | Firmware.
Inductive Architecture := Amd64 | Arm64.
#[global] Instance SsbMode_eq_dec : EqDecision SsbMode.
Proof. solve_decision. Defined.
#[global] Instance Backend_eq_dec : EqDecision Backend.
Proof. solve_decision. Defined.
Record SsbPlan := mkSsb { ssb_mode : SsbMode; backend : Backend; psfd : bool }.
Definition ssb_select (caps : CommonCaps) (policy : Policy) (arch : Architecture) : SsbPlan :=
  let m := if negb (enabled policy Ssb) then SsbOff else if bool_decide (override_of policy Ssb = OOn) then SsbOn else SsbPerTask in
  let b := if has (c_not_affected caps) (bit Ssb) then NotAffected
           else match arch with
                | Amd64 => if has (c_features caps) SSBD then SpecCtrl else if has (c_features caps) VIRT_SSBD then VirtualSpecCtrl else Unavailable
                | Arm64 => if has (c_features caps) SSBS then Ssbs else if has (c_features caps) WA2 then Firmware else Unavailable
                end in
  mkSsb m b (match arch with Amd64 => true | Arm64 => false end && has (c_features caps) PSFD
             && match b with SpecCtrl | VirtualSpecCtrl => true | _ => false end).
Definition desired (p : SsbPlan) (task : bool) : bool := match ssb_mode p with SsbOff => false | SsbOn => true | SsbPerTask => task end.
Definition supported (p : SsbPlan) : bool := negb (bool_decide (backend p = Unavailable)).
Definition EPERM : Z := U64_MAX - 4.
Definition EOPNOTSUPP : Z := U64_MAX - 3.
Definition change (p : SsbPlan) (requested : bool) : outcome Z bool :=
  if bool_decide (ssb_mode p = SsbOn) && negb requested || bool_decide (ssb_mode p = SsbOff) && requested then Err EPERM
  else if requested && negb (supported p) then Err EOPNOTSUPP else Ok requested.
Definition query (p : SsbPlan) (task : bool) : outcome Z bool :=
  let d := desired p task in if d && negb (supported p) then Err EOPNOTSUPP else Ok d.
Definition merge_control (old clear set allowed : Z) : option Z :=
  if negb (Z.land (Z.lor clear set) (unot 64 allowed) =? 0) then None else Some (Z.lor (Z.land old (unot 64 clear)) set).
Definition ssbs_frame (spsr : Z) (disable available : bool) : Z :=
  Z.lor (Z.land spsr (unot 64 (Z.shiftl 1 12))) (if available && negb disable then Z.shiftl 1 12 else 0).

(** * x86 predictor controls *)

Inductive PredMode := PredOff | Retpolines | LegacyIbrs | EnhancedIbrs | AutoIbrs.
Record PredPlan := mkPred {
  pred_mode : PredMode; pred_clear : Z; pred_set : Z; ibpb : bool; bhb_loop : bool; ibhf : bool; rsb : bool; sibling_safe : bool }.
Definition pred_controls (caps : CommonCaps) (policy : Policy) (m : PredMode) : list (Z * Z * bool) :=
  let v2 := enabled policy SpectreV2 in
  [(IBRS, 1, match m with LegacyIbrs | EnhancedIbrs => true | _ => false end); (STIBP, 2, v2); (RRSBA_CTRL, Z.shiftl 1 6, v2);
   (BHI_CTRL, Z.shiftl 1 10, enabled policy Bhi); (IPRED_CTRL, Z.shiftl 1 4, enabled policy Its)].
Definition pred_step (caps : CommonCaps) (cs : Z * Z) (x : Z * Z * bool) : Z * Z :=
  let '(feature, mask, on) := x in
  if has (c_features caps) feature then (Z.lor cs.1 mask, if on then Z.lor cs.2 mask else cs.2) else cs.
Definition pred_select (caps : CommonCaps) (policy : Policy) (all_intel isolating : bool) : PredPlan :=
  let v2 := enabled policy SpectreV2 in
  let returns := enabled policy Retbleed || enabled policy Srso in
  let m := if v2 && (Z.land (c_features caps) (Z.lor EIBRS IBRS) =? Z.lor EIBRS IBRS) then EnhancedIbrs
           else if v2 && has (c_features caps) AUTOIBRS then AutoIbrs
           else if all_intel && returns && has (c_features caps) IBRS then LegacyIbrs
           else if v2 then Retpolines else PredOff in
  let cs := foldl (pred_step caps) (0, 0) (pred_controls caps policy m) in
  let history := enabled policy Bhi && negb (has (c_not_affected caps) (bit Bhi)) in
  mkPred m cs.1 cs.2 ((v2 || returns) && has (c_features caps) IBPB) (history && all_intel && negb (has (c_features caps) BHI_CTRL)) (history && all_intel)
    (v2 || returns) (isolating || v2 && has (c_features caps) STIBP).

(** * ARM predictor plans *)

Inductive V2 := V2Off | V2Unaffected | Firmware1 | Firmware3 | V2Unavailable.
Inductive BhbPlan := BhbOff | BhbUnaffected | ExceptionClear | ClearInstruction | Loop (k : Z) | BhbFirmware3 | BhbUnavailable.
#[global] Instance V2_eq_dec : EqDecision V2.
Proof. solve_decision. Defined.
#[global] Instance BhbPlan_eq_dec : EqDecision BhbPlan.
Proof. solve_decision. Defined.
Record ArmPlan := mkArm { v2 : V2; bhb : BhbPlan }.
Definition v2_safe (p : ArmPlan) : bool := match v2 p with V2Unaffected | Firmware1 | Firmware3 => true | _ => false end.
Definition return_function (p : ArmPlan) (user : bool) : option Z :=
  if negb user then None else match v2 p with Firmware1 => Some 0x80008000 | Firmware3 => Some 0x80003fff | _ => None end.
Definition bhb_safe (p : ArmPlan) : bool := v2_safe p && match bhb p with BhbOff | BhbUnavailable => false | _ => true end.
Definition loop_count (midr : Z) : option Z :=
  if negb (Z.land (Z.shiftr midr 24) 255 =? 0x41) then None
  else
    let part := Z.land (Z.shiftr midr 4) 0xfff in
    let among l := existsb (Z.eqb part) l in
    if among [0xd07; 0xd08] then Some 8
    else if among [0xd0b; 0xd0c; 0xd0d; 0xd0e] then Some 24
    else if among [0xd40; 0xd41; 0xd42; 0xd44; 0xd47; 0xd48; 0xd49; 0xd4b; 0xd4c] then Some 32
    else if among [0xd4d; 0xd81; 0xd89] then Some 38
    else if among [0xd4e; 0xd4f] then Some 132
    else None.
Definition arm_select (caps : SpecCaps) (policy : Policy) (conduit : bool) : ArmPlan :=
  let force_v2 := bool_decide (override_of policy SpectreV2 = OOn) in
  let immune_v2 := has (not_affected caps) (bit SpectreV2) in
  let a := if negb (enabled policy SpectreV2) then V2Off
           else if immune_v2 && negb force_v2 then V2Unaffected
           else if conduit && has (features caps) WA1 then Firmware1
           else if conduit && has (features caps) WA3 then Firmware3
           else if immune_v2 then V2Unaffected else V2Unavailable in
  let force_bhb := bool_decide (override_of policy Bhb = OOn) in
  let immune_bhb := has (not_affected caps) (bit Bhb) in
  let b := if negb (enabled policy Bhb) then BhbOff
           else if immune_bhb && negb force_bhb then BhbUnaffected
           else if bool_decide (a = Firmware3) then BhbFirmware3
           else if has (features caps) ECBHB then ExceptionClear
           else if has (features caps) CLRBHB then ClearInstruction
           else match loop_count (identity caps) with
                | Some k => Loop k
                | None => if conduit && has (features caps) WA3 then BhbFirmware3 else if immune_bhb then BhbUnaffected else BhbUnavailable
                end in
  mkArm (if bool_decide (b = BhbFirmware3) && bool_decide (a = Firmware1) then Firmware3 else a) b.

(** The exception vectors a CPU gets: what they do on entry from user code. *)
Inductive Vector := Plain | EntryLoop (k : Z) | EntryClear | EntryWa3 | EntryWa1 (history : BhbPlan).
Definition vector_for (p : ArmPlan) : outcome string Vector :=
  let known k := existsb (Z.eqb k) [8; 24; 32; 38; 132] in
  if bool_decide (v2 p = Firmware3) || bool_decide (bhb p = BhbFirmware3) then Ok EntryWa3
  else if bool_decide (v2 p = Firmware1) then
    match bhb p with
    | ClearInstruction => Ok (EntryWa1 ClearInstruction)
    | Loop k => if known k then Ok (EntryWa1 (Loop k)) else Panic
    | _ => Ok (EntryWa1 BhbOff)
    end
  else match bhb p with
       | Loop k => if known k then Ok (EntryLoop k) else Panic
       | ClearInstruction => Ok EntryClear
       | _ => Ok Plain
       end.

(** * Access protection *)

Definition CR4_SMEP : Z := Z.shiftl 1 20.
Definition CR4_SMAP : Z := Z.shiftl 1 21.
Definition CR4_UMIP : Z := Z.shiftl 1 11.
Definition CR4_LASS : Z := Z.shiftl 1 27.
Definition CR4_ALL : Z := Z.lor (Z.lor (Z.lor CR4_SMEP CR4_SMAP) CR4_UMIP) CR4_LASS.
Definition access_common (cpus : list Z) : Z :=
  match cpus with
  | [] => 0
  | first :: rest =>
      let result := foldl Z.land (Z.land first CR4_ALL) rest in
      if Z.land result CR4_SMAP =? 0 then Z.land result (unot 64 CR4_LASS) else result
  end.
Definition shared_entries (active : Z) (initialized : list Z) : Z :=
  let mask := if existsb (fun caps => Z.land caps CR4_SMAP =? 0) initialized then Z.land active (unot 64 CR4_SMAP) else active in
  access_common [mask].
Definition pan_features (mmfr1 mmfr2 : Z) : Z :=
  let pan := Z.land (Z.shiftr mmfr1 20) 15 in
  or_if (or_if (or_if 0 ((1 <=? pan) && (pan <=? 3)) PAN) (pan =? 3) EPAN) (Z.land (Z.shiftr mmfr2 4) 15 =? 1) UAO.
Definition return_spsr (old : Z) (hardware_pan : bool) : Z :=
  let new := Z.land old (unot 64 (Z.lor (Z.shiftl 1 22) (Z.shiftl 1 23))) in
  if hardware_pan && negb (Z.land old 15 =? 0) then Z.lor new (Z.shiftl 1 22) else new.
Definition pac_signature (isar1 isar2 : Z) : option Z :=
  let fields := [Z.land (Z.shiftr isar1 4) 15; Z.land (Z.shiftr isar1 8) 15; Z.land (Z.shiftr isar2 12) 15] in
  if existsb (fun v => 6 <? v) fields || negb (Z.of_nat (length (List.filter (fun v => negb (v =? 0)) fields)) =? 1) then None
  else Some (Z.lor (Z.lor (nth 0 fields 0) (Z.shiftl (nth 1 fields 0) 4)) (Z.shiftl (nth 2 fields 0) 8)).
Definition canary (value : Z) : Z := Z.max (Z.land value (unot 64 255)) 256.
Definition arm_bti (pfr1 : Z) : bool := Z.land pfr1 15 =? 1.

(** * AMD safe-return sequences *)

Inductive Class_ := Generic | Zen12 | Zen34 | UnknownClass.
Definition class (caps : SpecCaps) : Class_ :=
  if bool_decide (vendor caps = lit "GenuineIntel") then Generic
  else if negb (bool_decide (vendor caps = lit "AuthenticAMD")) then UnknownClass
  else
    let base := Z.land (Z.shiftr (identity caps) 8) 15 in
    let family := base + (if base =? 15 then Z.land (Z.shiftr (identity caps) 20) 255 else 0) in
    if family =? 0x17 then Zen12 else if family =? 0x19 then Zen34 else UnknownClass.
Record Sites := mkSites { untrain : Z; safe : Z; entry : Z }.
Definition sites (kind : Class_) : outcome string Sites :=
  match kind with Zen12 => Ok (mkSites 62 64 128) | Zen34 => Ok (mkSites 0 0x104104 0x10410c) | _ => Panic end.
Definition jump (from to : Z) : option (list Z) :=
  let d := to - from - 5 in
  if (- 2 ^ 31 <=? d) && (d <? 2 ^ 31) then Some ([0xe9] ++ to_le_bytes 4 d ++ [0xcc; 0xcc; 0xcc]) else None.
Definition call (from to : Z) : list Z := [0xe8] ++ to_le_bytes 4 ((to - from - 5) mod 2 ^ 32).
Definition SAFE : list Z := [0x48; 0x8d; 0x64; 0x24; 0x08; 0xc3; 0xcc].
Definition build (kind : Class_) (first second : list Z) : outcome string (list Z * list Z * Sites) :=
  _ ← assert_that (length first =? 4096)%nat; _ ← assert_that (length second =? 4096)%nat;
  let first := replicate 4096 0xcc in let second := replicate 4096 0xcc in
  s ← sites kind;
  match kind with
  | Zen12 =>
      let first := splice first 62 [0x48; 0xb8] in
      let first := splice first 64 SAFE in
      let first := <[71%nat := 0xcc]> first in
      let first := splice first 72 [0x0f; 0xae; 0xe8] in
      let first := splice first 75 (call 75 (safe s)) in
      let first := splice first 80 [0x0f; 0x0b] in
      let first := splice first 128 (call 128 (safe s)) in
      let first := splice first 133 [0x0f; 0x0b] in
      Ok (first, second, s)
  | Zen34 =>
      let first := splice first 0 [0x66; 0x90; 0x0f; 0xae; 0xe8] in
      j ← unwrap (jump 5 (entry s));
      let first := splice first 5 j in
      let second := splice second 0x104 SAFE in
      let second := splice second 0x10c (call (entry s) (safe s)) in
      let second := splice second 0x111 [0x0f; 0x0b] in
      Ok (first, second, s)
  | _ => Panic
  end.
Definition microcode_return_barrier (caps : CommonCaps) : bool :=
  (Z.land (c_features caps) (Z.lor IBPB IBPB_RET) =? Z.lor IBPB IBPB_RET) || has (c_not_affected caps) (bit Srso).
End SecurityPlans.
