(* ===== verification/SecurityFacts.v ===== *)
(** Facts about mitigation policy (src/security): the command line sets each choice to the
    last value given, capabilities are decoded bit by bit, and plans use only what every
    processor supports. *)

From Stdlib Require Import ZArith Lia.
From stdpp Require Import base list list_numbers numbers decidable tactics strings.
From S2P Require Import Prelude Records FatNames BootArgs Security SecurityPlans.
Import FatNames(lit) BootArgs Security SecurityPlans.

Module SecurityFacts.

(** * The command line *)

(** The names on the command line. *)
Definition name_of (v : Vulnerability) : string :=
  match v with
  | SpectreV1 => "spectre_v1" | SpectreV2 => "spectre_v2" | Meltdown => "meltdown" | Ssb => "ssb" | Mds => "mds" | Taa => "taa" | Mmio => "mmio_stale_data" | Bhi => "bhi" | Gds => "gds"
  | Rfds => "rfds" | Srso => "srso" | Retbleed => "retbleed" | L1tf => "l1tf" | Srbds => "srbds" | Its => "its" | Tsa => "tsa" | Bhb => "bhb"
  end.
Definition says (name value : string) : list Z := lit name ++ 61 :: lit value.
(** The words with a meaning: [mitigations=], and for each family [name=]; only the
    speculative store bypass can be left to each task. *)
Definition mode_words : list (list Z * Mode) := [(says "mitigations" "off", Off); (says "mitigations" "auto", Auto); (says "mitigations" "auto,nosmt", AutoNoSmt)].
Definition family_words (v : Vulnerability) : list (list Z * Override) :=
  [(says (name_of v) "auto", OAuto); (says (name_of v) "on", OOn); (says (name_of v) "off", OOff)] ++ match v with Ssb => [(says "ssb" "per-task", PerTask)] | _ => [] end.
Definition meaning {A} (words : list (list Z * A)) (arg : list Z) : option A := snd <$> List.find (fun '(w, _) => bool_decide (w = arg)) words.
Definition sets_mode : list Z -> option Mode := meaning mode_words.
Definition sets_family (v : Vulnerability) : list Z -> option Override := meaning (family_words v).
(** A word that starts with one of the names, alone or with a value, but has no meaning. *)
Definition named (arg : list Z) : Prop :=
  exists name, (name = "mitigations"%string \/ exists v, name = name_of v) /\ (arg = lit name \/ exists value, arg = lit name ++ 61 :: value).
Definition bad (arg : list Z) : Prop := named arg /\ sets_mode arg = None /\ forall v, sets_family v arg = None.

(** * The code's reading of a word *)

Definition assignment (arg : list Z) : option (list Z * list Z) := split_once 61 arg.
Definition code_mode (arg : list Z) : option Mode :=
  '(key, value) ← assignment arg; if is_lit key "mitigations" then mode_value value else None.
Definition code_family (v : Vulnerability) (arg : list Z) : option Override :=
  '(key, value) ← assignment arg; if bool_decide (family_of key = Some v) then override_value v value else None.
Definition code_bad (arg : list Z) : bool :=
  match assignment arg with
  | None => is_lit arg "mitigations" || existsb (fun '(_, name) => is_lit arg name) FAMILIES
  | Some (key, value) =>
      if is_lit key "mitigations" then negb (bool_decide (is_Some (mode_value value)))
      else match family_of key with Some v => negb (bool_decide (is_Some (override_value v value))) | None => false end
  end.
Definition plain (name : string) : Prop := 61 ∉ lit name.
Lemma mitigations_plain : plain "mitigations".
Proof. apply (bool_decide_unpack _). vm_compute. exact I. Qed.
Lemma name_plain v : plain (name_of v).
Proof. apply (bool_decide_unpack _). destruct v; vm_compute; exact I. Qed.
Lemma split_named name value : plain name -> split_once 61 (lit name ++ 61 :: value) = Some (lit name, value).
Proof. intros H. by apply split_once_Some. Qed.
Lemma says_eq name value arg : plain name ->
  bool_decide (says name value = arg) = match split_once 61 arg with Some (k, x) => is_lit k name && is_lit x value | None => false end.
Proof.
  intros Hp. destruct (bool_decide_reflect (says name value = arg)) as [<- | Hne]; [unfold says; rewrite split_named by done; unfold is_lit; by rewrite !bool_decide_true |].
  destruct (split_once 61 arg) as [[k x] |] eqn:E; [| done]. apply split_once_Some in E as [-> _]. unfold is_lit. destruct (bool_decide_reflect (k = lit name)) as [-> |]; [| done].
  destruct (bool_decide_reflect (x = lit value)) as [-> |]; [| done]. by destruct Hne.
Qed.
Lemma sets_mode_spec arg : sets_mode arg = code_mode arg.
Proof.
  unfold sets_mode, meaning, mode_words, code_mode, assignment, mode_value. cbn [List.find]. rewrite !says_eq by apply mitigations_plain.
  destruct (split_once 61 arg) as [[k x] |]; [| done]. cbn [mbind option_bind]. destruct (is_lit k "mitigations"); [| done]. cbn [andb]. by destruct (is_lit x "off"), (is_lit x "auto"), (is_lit x "auto,nosmt").
Qed.
Lemma family_named : Forall (fun '(v, n) => n = name_of v) FAMILIES.
Proof. repeat constructor. Qed.
Lemma family_of_name v : family_of (lit (name_of v)) = Some v.
Proof. destruct v; vm_compute; reflexivity. Qed.
Lemma family_of_spec key v : family_of key = Some v <-> key = lit (name_of v).
Proof.
  split; [| intros ->; apply family_of_name]. unfold family_of. destruct (List.find _ FAMILIES) as [[w n] |] eqn:E; [| done]. intros [= ->]. apply List.find_some in E as [Hin E].
  apply list_elem_of_In in Hin. pose proof family_named as H. rewrite Forall_forall in H. apply H in Hin as ->. by apply bool_decide_eq_true in E.
Qed.
Lemma is_family key v : is_lit key (name_of v) = bool_decide (family_of key = Some v).
Proof. unfold is_lit. apply bool_decide_ext. symmetry. apply family_of_spec. Qed.
Lemma sets_family_spec v arg : sets_family v arg = code_family v arg.
Proof.
  unfold sets_family, meaning, family_words, code_family, assignment, override_value.
  assert (match v with Ssb => [(says "ssb" "per-task", PerTask)] | _ => [] end = if bool_decide (v = Ssb) then [(says (name_of v) "per-task", PerTask)] else []) as -> by (by destruct v).
  cbn [app List.find]. rewrite !says_eq by apply name_plain. destruct (split_once 61 arg) as [[k x] |] eqn:E; cbn [mbind option_bind].
  - rewrite (is_family k v). destruct (bool_decide (family_of k = Some v)) eqn:Ek; cbn [andb].
    + destruct (is_lit x "auto"), (is_lit x "on"), (is_lit x "off"); try done. destruct (bool_decide (v = Ssb)); cbn [List.find]; [| by rewrite andb_false_r].
      rewrite says_eq, E, is_family, Ek by apply name_plain. cbn [andb]. by destruct (is_lit x "per-task").
    + destruct (bool_decide (v = Ssb)); cbn [List.find]; [| done]. rewrite says_eq, E, is_family, Ek by apply name_plain. done.
  - destruct (bool_decide (v = Ssb)); cbn [List.find]; [| done]. by rewrite says_eq, E by apply name_plain.
Qed.
Lemma families_named key : existsb (fun '(_, name) => is_lit key name) FAMILIES = true <-> exists v, key = lit (name_of v).
Proof.
  rewrite existsb_exists. split.
  - intros ([v n] & Hin & E). apply list_elem_of_In in Hin. pose proof family_named as H. rewrite Forall_forall in H. apply H in Hin as ->. exists v. by apply bool_decide_eq_true in E.
  - intros [v ->]. pose proof (family_of_name v) as H. unfold family_of in H. destruct (List.find _ FAMILIES) as [[w n] |] eqn:E; [| done]. apply List.find_some in E. by exists (w, n).
Qed.
Lemma named_spec arg : named arg <-> match split_once 61 arg with
  | Some (key, _) => key = lit "mitigations" \/ exists v, key = lit (name_of v)
  | None => arg = lit "mitigations" \/ exists v, arg = lit (name_of v)
  end.
Proof.
  unfold named. split.
  - intros (name & Hn & Harg). assert (plain name) as Hp by (destruct Hn as [-> | [v ->]]; [apply mitigations_plain | apply name_plain]). destruct Harg as [-> | [value ->]].
    + destruct (split_once 61 (lit name)) as [[k x] |] eqn:E; [| destruct Hn as [-> | [v ->]]; eauto]. apply split_once_Some in E as [E _]. destruct Hp. rewrite E. apply elem_of_app. right. by left.
    + rewrite split_named by done. destruct Hn as [-> | [v ->]]; eauto.
  - destruct (split_once 61 arg) as [[k x] |] eqn:E.
    + apply split_once_Some in E as [-> _]. intros [-> | [v ->]]; eexists; (split; [| right; eexists; reflexivity]); eauto.
    + intros [-> | [v ->]]; eexists; (split; [| by left]); eauto.
Qed.
Lemma code_bad_spec arg : code_bad arg = true <-> bad arg.
Proof.
  unfold bad. rewrite named_spec, sets_mode_spec. setoid_rewrite sets_family_spec. unfold code_bad, code_mode, code_family, assignment. destruct (split_once 61 arg) as [[key value] |]; cbn [mbind option_bind].
  2: { rewrite orb_true_iff, families_named. unfold is_lit. rewrite bool_decide_eq_true. tauto. }
  destruct (is_lit key "mitigations") eqn:Em.
  - assert (key = lit "mitigations") as Hk by (by apply bool_decide_eq_true in Em). assert (family_of key = None) as Hf by (rewrite Hk; vm_compute; reflexivity).
    rewrite negb_true_iff, bool_decide_eq_false, <- eq_None_not_Some. split; [intros H; split_and!; [by left | done | intros v; by rewrite Hf] | tauto].
  - assert (key <> lit "mitigations") as Hk by (by apply bool_decide_eq_false in Em). destruct (family_of key) as [v |] eqn:Ef.
    + rewrite negb_true_iff, bool_decide_eq_false, <- eq_None_not_Some. split.
      * intros H. split_and!; [right; exists v; by apply family_of_spec | done |]. intros w. destruct (bool_decide_reflect (Some v = Some w)) as [[= <-] |]; done.
      * intros (_ & _ & H). specialize (H v). by rewrite bool_decide_true in H.
    + split; [done |]. intros ([? | [v Hv]] & _); [done |]. apply family_of_spec in Hv. congruence.
Qed.

Lemma index_lt v : (index v < 17)%nat.
Proof. destruct v; cbn; lia. Qed.
Lemma index_inj v w : index v = index w -> v = w.
Proof. destruct v, w; cbn; intros H; first [reflexivity | discriminate H]. Qed.
Lemma mitigations_no_family key : is_lit key "mitigations" = true -> family_of key = None.
Proof. intros H. unfold is_lit in H. apply bool_decide_eq_true in H. rewrite H. vm_compute. reflexivity. Qed.
Lemma override_insert p v o w : length (overrides p) = 17%nat -> override_of (p <| overrides := <[index v := o]> (overrides p) |>) w = if bool_decide (v = w) then o else override_of p w.
Proof.
  intros Hl. unfold override_of, set_field. cbn [overrides]. destruct (bool_decide_reflect (v = w)) as [<- | Hn].
  - apply nth_lookup_Some, list_lookup_insert_eq. rewrite Hl. apply index_lt.
  - rewrite !nth_lookup, list_lookup_insert_ne; [done |]. intros E. by apply index_inj in E.
Qed.

Definition policy_is (args : list (list Z)) (p0 p : Policy) : Prop :=
  mode p = default (mode p0) (last (omap code_mode args)) /\ forall v, override_of p v = default (override_of p0 v) (last (omap (code_family v) args)).
Lemma parse_arg_spec p arg : length (overrides p) = 17%nat ->
  match parse_arg p arg with
  | Ok p' => code_bad arg = false /\ policy_is [arg] p p' /\ length (overrides p') = 17%nat
  | Err _ => code_bad arg = true
  | Panic => False
  end.
Proof.
  intros Hl. unfold parse_arg, code_bad, policy_is, code_mode, code_family, assignment. cbn [omap list_omap]. destruct (split_once 61 arg) as [[key value] |] eqn:E; cbn [mbind option_bind].
  2: { destruct (is_lit arg "mitigations" || _) eqn:Eb; [done |]. cbn. done. }
  destruct (is_lit key "mitigations") eqn:Em.
  - destruct (mode_value value) as [m |]; cbn [ok_or mbind outcome_bind]; [| done]. split; [done |]. split; [| done]. split; [done |]. intros v. by rewrite (mitigations_no_family key Em).
  - destruct (family_of key) as [v |]; [| done]. destruct (override_value v value) as [o |] eqn:Eo; cbn [ok_or mbind outcome_bind]; [| done].
    split; [done |]. split; [| unfold set_field; cbn [overrides]; by rewrite length_insert]. split; [done |]. intros w. rewrite override_insert by done.
    destruct (bool_decide_reflect (v = w)) as [<- | Hn]; [rewrite bool_decide_eq_true_2 by done; by rewrite Eo | by rewrite bool_decide_eq_false_2 by congruence].
Qed.
Lemma policy_is_cons arg args p p1 p2 : policy_is [arg] p p1 -> policy_is args p1 p2 -> policy_is (arg :: args) p p2.
Proof.
  intros [A1 A2] [B1 B2]. assert (forall {A} (f : list Z -> option A) d, default d (last (omap f (arg :: args))) = default (default d (last (omap f [arg]))) (last (omap f args))) as H.
  { intros A f d. cbn [omap list_omap]. destruct (f arg) as [x |]; cbn; [| done]. destruct (omap f args) as [| y l] eqn:El; [done |]. rewrite last_cons_cons. by destruct (last (y :: l)) eqn:E; [| apply last_None in E]. }
  split; [by rewrite B1, A1, H |]. intros v. by rewrite B2, A2, H.
Qed.
Lemma parse_args_spec args : forall p, length (overrides p) = 17%nat ->
  match parse_args p args with
  | Ok p' => forallb (fun a => negb (code_bad a)) args = true /\ policy_is args p p'
  | Err _ => existsb code_bad args = true
  | Panic => False
  end.
Proof.
  induction args as [| arg args IH]; intros p Hl; [done |]. cbn [parse_args forallb existsb]. pose proof (parse_arg_spec p arg Hl) as Ha.
  destruct (parse_arg p arg) as [p1 | e |]; cbn [mbind outcome_bind]; [| by rewrite Ha | done]. destruct Ha as (Hb & H1 & Hl1). specialize (IH p1 Hl1). rewrite Hb.
  destruct (parse_args p1 args) as [p2 | e |]; [| done | done]. destruct IH as [H2 H3]. split; [done |]. by eapply policy_is_cons.
Qed.

Lemma omap_eq {A B} (f g : A -> option B) (H : forall x, f x = g x) (l : list A) : omap f l = omap g l.
Proof. induction l as [| x l IH]; [done |]. cbn [omap list_omap]. rewrite H. destruct (g x); [f_equal |]; exact IH. Qed.

(** C38. The mitigation policy of a command line of any words separated by any white space:
    parsing fails exactly when a word starts with [mitigations] or with the name of a family,
    alone or followed by [=], and is none of the words with a meaning ([mitigations=off],
    [=auto] and [=auto,nosmt]; a family's name with [=auto], [=on] or [=off]; and
    [ssb=per-task]); otherwise the mode and every family's override are those of the last
    word that sets them, and automatic when none does; other words are ignored. *)
Theorem policy_parse_last_wins text args : spaced text args ->
  match parse text with
  | Ok p => Forall (fun arg => ~ bad arg) args /\ mode p = default Auto (last (omap sets_mode args))
      /\ forall v, override_of p v = default OAuto (last (omap (sets_family v) args))
  | Err _ => Exists bad args
  | Panic => False
  end.
Proof.
  intros Hs. unfold parse. rewrite (split_spaced _ _ Hs). pose proof (parse_args_spec args automatic ltac:(apply length_replicate)) as H. destruct (parse_args automatic args) as [p | e |]; [| | done].
  - destruct H as [H1 [H2 H3]]. split; [| split].
    + apply Forall_forall. intros arg Ha Hb. rewrite forallb_forall in H1. apply list_elem_of_In, H1 in Ha. apply code_bad_spec in Hb. by rewrite Hb in Ha.
    + by rewrite H2, (omap_eq sets_mode code_mode sets_mode_spec).
    + intros v. rewrite H3, (omap_eq (sets_family v) (code_family v) (sets_family_spec v)). f_equal. by destruct v.
  - apply existsb_exists in H as (arg & Hin & Hb). apply Exists_exists. exists arg. split; [by apply list_elem_of_In | by apply code_bad_spec].
Qed.
Definition demo_line : list Z := lit "quiet  ssb=off mitigations=auto,nosmt ssb=per-task".
Definition demo_args : list (list Z) := [lit "quiet"; lit "ssb=off"; lit "mitigations=auto,nosmt"; lit "ssb=per-task"].
Lemma policy_parse_last_wins_witness : spaced demo_line demo_args /\ exists p, parse demo_line = Ok p /\ mode p = AutoNoSmt /\ override_of p Ssb = PerTask /\ override_of p Mds = OAuto.
Proof.
  assert (spaced demo_line demo_args) as H.
  { unfold demo_args. change demo_line with (lit "quiet" ++ 32 :: 32 :: lit "ssb=off" ++ 32 :: lit "mitigations=auto,nosmt" ++ 32 :: lit "ssb=per-task" ++ []).
    repeat first [apply spaced_end | apply spaced_space; [vm_compute; reflexivity |] | apply spaced_word;
      [discriminate | repeat constructor | first [left; reflexivity | right; eexists _, _; split; [reflexivity | vm_compute; reflexivity]] |]]. }
  split; [exact H |]. pose proof (policy_parse_last_wins _ _ H) as Hp.
  assert (match parse demo_line with Ok _ => true | _ => false end = true) as Hok by (vm_compute; reflexivity). destruct (parse demo_line) as [p | e |]; [| discriminate Hok | discriminate Hok].
  exists p. destruct Hp as (_ & Hm & Ho). split; [reflexivity |]. split; [rewrite Hm; vm_compute; reflexivity |]. split; [rewrite (Ho Ssb) | rewrite (Ho Mds)]; vm_compute; reflexivity.
Defined.

(** * Decoding *)

Lemma has_bit x b : 0 <= b -> has x (Z.shiftl 1 b) = Z.testbit x b.
Proof. intros Hb. unfold has. rewrite land_pow2_testbit by done. apply negb_involutive. Qed.
Lemma or_if_bit x on f i : Z.testbit (or_if x on f) i = Z.testbit x i || on && Z.testbit f i.
Proof. unfold or_if. destruct on; [apply Z.lor_spec | by rewrite orb_false_r]. Qed.
(** The features, and the immunities, that a list of sources gives. *)
Definition given (words : list Z) (l : list (Z * Z * Z)) (i : Z) : bool := existsb (fun '(w, b, f) => has (nth (Z.to_nat w) words 0) (Z.shiftl 1 b) && Z.testbit f i) l.
Definition immune (words : list Z) (l : list (Z * Z * Vulnerability)) (i : Z) : bool := given words (map (fun '(w, b, v) => (w, b, bit v)) l) i.
Lemma add_features_spec l : forall c (c' := add_features c l), raw c' = raw c /\ vendor c' = vendor c /\ not_affected c' = not_affected c /\ identity c' = identity c
  /\ forall i, Z.testbit (features c') i = Z.testbit (features c) i || given (raw c) l i.
Proof.
  induction l as [| [[w b] f] l IH]; intros c; cbn [add_features foldl given existsb]; [split_and!; try done; intros i; by rewrite orb_false_r |]. fold (add_features (c <| features := or_if (features c) (raw_bit c w b) f |>) l).
  destruct (IH (c <| features := or_if (features c) (raw_bit c w b) f |>)) as (H1 & H2 & H3 & H4 & H5). split_and!; try done. intros i. rewrite H5. unfold set_field. cbn [features raw]. rewrite or_if_bit. by rewrite orb_assoc.
Qed.
Lemma add_immunity_spec l : forall c (c' := add_immunity c l), raw c' = raw c /\ vendor c' = vendor c /\ features c' = features c /\ identity c' = identity c
  /\ forall i, Z.testbit (not_affected c') i = Z.testbit (not_affected c) i || immune (raw c) l i.
Proof.
  induction l as [| [[w b] v] l IH]; intros c; cbn [add_immunity foldl immune given existsb map]; [split_and!; try done; intros i; by rewrite orb_false_r |].
  fold (add_immunity (c <| not_affected := or_if (not_affected c) (raw_bit c w b) (bit v) |>) l).
  destruct (IH (c <| not_affected := or_if (not_affected c) (raw_bit c w b) (bit v) |>)) as (H1 & H2 & H3 & H4 & H5). split_and!; try done. intros i. rewrite H5. unfold set_field. cbn [not_affected raw]. rewrite or_if_bit. by rewrite orb_assoc.
Qed.
Definition is_amd (c : SpecCaps) : bool := bool_decide (vendor c = lit "AuthenticAMD").
Definition arch_words (c : SpecCaps) (msr : Z) : list Z := <[4%nat := msr]> (raw c).
(** The sources that count: the base leaves, the capability register when the processor has one, the AMD leaves on AMD. *)
Definition feature_sources (c : SpecCaps) : list (Z * Z * Z) :=
  BASE_BITS ++ (if raw_bit c 0 29 then ARCH_BITS else []) ++ (if is_amd c then AMD_BITS ++ [(3, 8, AUTOIBRS); (3, 27, SBPB)] else []).
Lemma given_app words l1 l2 i : given words (l1 ++ l2) i = given words l1 i || given words l2 i.
Proof. apply existsb_app. Qed.

Lemma decode_amd_spec c6 msr c : raw c6 = arch_words c msr -> vendor c6 = vendor c -> raw (decode_amd c6) = arch_words c msr
  /\ forall i, Z.testbit (features (decode_amd c6)) i = Z.testbit (features c6) i || given (arch_words c msr) (if is_amd c then AMD_BITS ++ [(3, 8, AUTOIBRS); (3, 27, SBPB)] else []) i.
Proof.
  intros R V. unfold is_amd, decode_amd. rewrite V. destruct (bool_decide (vendor c = lit "AuthenticAMD")); [| split; [done |]; intros i; by rewrite orb_false_r].
  cbv zeta. destruct (add_features_spec AMD_BITS c6) as (A1 & _ & _ & _ & A5). set (d1 := add_features c6 AMD_BITS) in *. destruct (add_immunity_spec [(2, 26, Ssb)] d1) as (B1 & _ & B3 & _). set (d2 := add_immunity d1 _) in *.
  destruct (add_features_spec [(3, 8, AUTOIBRS); (3, 27, SBPB)] d2) as (C1 & _ & _ & _ & C5). set (d3 := add_features d2 _) in *. destruct (add_immunity_spec [(3, 29, Srso)] d3) as (D1 & _ & D3 & _).
  split; [by rewrite D1, C1, B1, A1 |]. intros i. rewrite D3, C5, B3, A5, B1, A1, R, given_app. by rewrite orb_assoc.
Qed.
Lemma other_words c m w : w <> 4 -> 0 <= w -> nth (Z.to_nat w) (arch_words c m) 0 = nth (Z.to_nat w) (raw c) 0.
Proof. intros Hn Hw. unfold arch_words. rewrite !nth_lookup, list_lookup_insert_ne by lia. done. Qed.
Lemma base_words c m i : given (arch_words c m) BASE_BITS i = given (arch_words c 0) BASE_BITS i.
Proof. unfold given. cbn [existsb BASE_BITS]. rewrite !(other_words c m), !(other_words c 0) by lia. reflexivity. Qed.
Lemma base_gate c : given (arch_words c 0) BASE_BITS 5 = raw_bit c 0 29.
Proof.
  unfold given. cbn [existsb BASE_BITS]. rewrite !(andb_comm (has _ _)).
  repeat match goal with |- context [Z.testbit ?f 5] => let x := eval vm_compute in (Z.testbit f 5) in change (Z.testbit f 5) with x end. cbn [andb orb]. rewrite orb_false_r.
  unfold raw_bit. by rewrite other_words by lia.
Qed.
(** The capability register's part. *)
Lemma arch_spec c2 c msr (c3 := c2 <| raw := <[4%nat := msr]> (raw c2) |>) (c4 := add_immunity c3 ARCH_IMMUNITY)
    (c5 := if Z.land (nth 4 (raw c4) 0) MMIO_BITS =? MMIO_BITS then c4 <| not_affected := Z.lor (not_affected c4) (bit Mmio) |> else c4) :
  raw c2 = arch_words c 0 -> vendor c2 = vendor c -> raw (add_features c5 ARCH_BITS) = arch_words c msr /\ vendor (add_features c5 ARCH_BITS) = vendor c
  /\ forall i, Z.testbit (features (add_features c5 ARCH_BITS)) i = Z.testbit (features c2) i || given (arch_words c msr) ARCH_BITS i.
Proof.
  intros R V. assert (raw c3 = arch_words c msr) as R3 by (change (raw c3) with (<[4%nat := msr]> (raw c2)); rewrite R; apply list_insert_insert_eq).
  destruct (add_immunity_spec ARCH_IMMUNITY c3) as (I1 & I2 & I3 & _). fold c4 in I1, I2, I3.
  assert (raw c5 = arch_words c msr /\ vendor c5 = vendor c /\ features c5 = features c2) as (R5 & V5 & F5).
  { rewrite R3 in I1. change (vendor c3) with (vendor c2) in I2. change (features c3) with (features c2) in I3. rewrite V in I2. unfold c5. clearbody c4. by destruct (_ =? MMIO_BITS). }
  clearbody c5. destruct (add_features_spec ARCH_BITS c5) as (A1 & A2 & _ & _ & A5). split; [congruence |]. split; [congruence |]. intros i. by rewrite A5, R5, F5.
Qed.
(** Decoding reads the capability register only when the processor says it has one, and a
    feature is set exactly when one of the sources that count gives it. *)
Lemma decode_features c read :
  match decode c read with
  | Ok c' => exists msr, (raw_bit c 0 29 = true -> read = Some msr) /\ (raw_bit c 0 29 = false -> msr = 0) /\ raw c' = arch_words c msr
      /\ forall i, Z.testbit (features c') i = given (arch_words c msr) (feature_sources c) i
  | Err _ => False
  | Panic => raw_bit c 0 29 = true /\ read = None
  end.
Proof.
  unfold decode. set (c1 := c <| features := 0 |> <| not_affected := 0 |> <| raw := <[4%nat := 0]> (raw c) |>).
  assert (raw c1 = arch_words c 0 /\ vendor c1 = vendor c /\ features c1 = 0) as (R1 & V1 & F1) by done. clearbody c1.
  destruct (add_features_spec BASE_BITS c1) as (B1 & B2 & _ & _ & B5). set (c2 := add_features c1 BASE_BITS) in *.
  assert (forall i, Z.testbit (features c2) i = given (arch_words c 0) BASE_BITS i) as F2 by (intros i; rewrite B5, F1, R1, Z.bits_0; done).
  assert (has (features c2) ARCH_CAPS = raw_bit c 0 29) as -> by (unfold ARCH_CAPS; rewrite has_bit, F2 by lia; apply base_gate).
  rewrite R1 in B1. rewrite V1 in B2. clearbody c2. destruct (raw_bit c 0 29) eqn:Eg.
  - destruct read as [msr |]; cbn [unwrap mbind outcome_bind]; [| done]. destruct (arch_spec c2 c msr B1 B2) as (R6 & V6 & F6).
    match type of R6 with raw ?x = _ => set (c6 := x) in * end. clearbody c6. destruct (decode_amd_spec c6 msr c R6 V6) as (R' & F'). exists msr. split; [done |]. split; [done |]. split; [done |].
    intros i. rewrite F', F6, F2, <- (base_words c msr). unfold feature_sources. rewrite Eg, !given_app. by rewrite <- orb_assoc.
  - cbn [mbind outcome_bind]. destruct (decode_amd_spec c2 0 c B1 B2) as (R' & F'). exists 0. split; [done |]. split; [done |]. split; [done |]. intros i.
    rewrite F', F2. unfold feature_sources. rewrite Eg, !given_app. done.
Qed.

(** * Plans *)

(** A request to change the store-bypass state that is granted is what a query then reports;
    a refusal says why. *)
Lemma ssb_change_query p requested :
  match change p requested with
  | Ok b => b = requested /\ desired p b = requested /\ query p b = Ok requested
  | Err e => e = EPERM /\ (forall task, desired p task = negb requested) \/ e = EOPNOTSUPP /\ requested = true /\ supported p = false
  | Panic => False
  end.
Proof.
  unfold change, query, desired. destruct (ssb_mode p), requested, (supported p); cbn; try done; first [left; split; [done |]; by intros [] | right; done].
Qed.
(** Writing a control register through [merge_control] changes only bits one may change. *)
Lemma merge_control_bits old clear set allowed new i : 0 <= i < 64 -> 0 <= old < 2 ^ 64 -> 0 <= clear < 2 ^ 64 -> 0 <= set < 2 ^ 64 -> 0 <= allowed < 2 ^ 64 ->
  merge_control old clear set allowed = Some new ->
  Z.testbit new i = (if Z.testbit set i then true else if Z.testbit clear i then false else Z.testbit old i) /\ (Z.testbit new i <> Z.testbit old i -> Z.testbit allowed i = true).
Proof.
  intros Hi Ho Hc Hs Ha. unfold merge_control. destruct (Z.eqb_spec (Z.land (Z.lor clear set) (unot 64 allowed)) 0) as [E | E]; [| done]. intros [= <-].
  rewrite Z.lor_spec, Z.land_spec, testbit_unot by done. apply (f_equal (fun z => Z.testbit z i)) in E. rewrite Z.land_spec, Z.lor_spec, testbit_unot, Z.bits_0 in E by done.
  destruct (Z.testbit set i), (Z.testbit clear i), (Z.testbit old i), (Z.testbit allowed i); cbn in *; done.
Qed.
(** The predictor plan owns a control bit only when every processor has the feature behind
    it, and sets only bits it owns. *)
Lemma pred_controls_owned caps l : forall cs, (forall i, Z.testbit cs.2 i = true -> Z.testbit cs.1 i = true) ->
  let r := foldl (pred_step caps) cs l in
  (forall i, Z.testbit r.2 i = true -> Z.testbit r.1 i = true)
  /\ forall i, Z.testbit r.1 i = Z.testbit cs.1 i || existsb (fun '(f, m, _) => has (c_features caps) f && Z.testbit m i) l.
Proof.
  induction l as [| [[f m] on] l IH]; intros cs Hcs; cbn [foldl existsb]; [split; [done |]; intros i; by rewrite orb_false_r |].
  set (cs1 := pred_step caps cs (f, m, on)).
  assert ((forall i, Z.testbit cs1.2 i = true -> Z.testbit cs1.1 i = true) /\ forall i, Z.testbit cs1.1 i = Z.testbit cs.1 i || has (c_features caps) f && Z.testbit m i) as [A B].
  { unfold cs1, pred_step. destruct (has (c_features caps) f); cbn [andb fst snd]; [| split; [done |]; intros i; by rewrite orb_false_r]. split; [| intros i; apply Z.lor_spec].
    intros i. rewrite Z.lor_spec. destruct on; [rewrite Z.lor_spec |]; intros H; [apply orb_true_iff in H as [H | H]; [by rewrite Hcs | rewrite H; apply orb_true_r] | by rewrite Hcs]. }
  destruct (IH cs1 A) as [H1 H2]. split; [exact H1 |]. intros i. rewrite H2, B. by rewrite orb_assoc.
Qed.
(** No plan of [arm_select] makes the choice of exception vectors panic, and one that counts
    as covering the branch history has vectors that clear it. *)
Lemma arm_vector_ok caps policy conduit : exists v, vector_for (arm_select caps policy conduit) = Ok v
  /\ (forall k, bhb (arm_select caps policy conduit) = Loop k -> v = EntryLoop k \/ v = EntryWa1 (Loop k) \/ v = EntryWa3).
Proof.
  set (p := arm_select caps policy conduit). assert (forall k, bhb p = Loop k -> existsb (Z.eqb k) [8; 24; 32; 38; 132] = true) as Hk.
  { intros k. unfold p, arm_select. cbn [bhb]. intros E. assert (loop_count (identity caps) = Some k) as Hl.
    { revert E. match goal with |- context [bool_decide (?a = Firmware3)] => generalize a end. intros a. generalize (loop_count (identity caps)) as o. intros o.
      repeat match goal with |- context [if ?x then _ else _] => destruct x; [discriminate |] end. destruct o as [k0 |]; [by intros [= ->] |].
      by repeat match goal with |- context [if ?x then _ else _] => destruct x end. }
    unfold loop_count in Hl. repeat match type of Hl with context [if ?x then _ else _] => destruct x; [first [discriminate Hl | injection Hl as <-; reflexivity] |] end. discriminate Hl. }
  unfold vector_for. destruct (bool_decide (v2 p = Firmware3) || bool_decide (bhb p = BhbFirmware3)); [exists EntryWa3; tauto |].
  destruct (bool_decide (v2 p = Firmware1)); destruct (bhb p) as [| | | | k | |] eqn:Eb; try (eexists; split; [reflexivity |]; intros k0; discriminate).
  - rewrite (Hk k eq_refl). eexists. split; [reflexivity |]. intros k0 [= ->]. tauto.
  - rewrite (Hk k eq_refl). eexists. split; [reflexivity |]. intros k0 [= ->]. tauto.
Qed.

(** * Return sequences *)

(** Where a relative call or jump at [from] goes. *)
Definition target (from : Z) (code : list Z) : Z := let d := from_le_bytes (take 4 (drop 1 code)) in from + 5 + (if d <? 2 ^ 31 then d else d - 2 ^ 32).
Definition at_page (page : list Z) (off : Z) (n : nat) : list Z := take n (drop (Z.to_nat off) page).
Lemma target_call from to : - 2 ^ 31 <= to - from - 5 < 2 ^ 31 -> target from (call from to) = to.
Proof.
  intros H. unfold target, call. change (drop 1 ([0xe8] ++ ?x)) with x. rewrite take_ge by (rewrite length_to_le_bytes; lia). rewrite from_to_le_bytes by (apply Z.mod_pos_bound; lia).
  destruct (Z.ltb_spec ((to - from - 5) mod 2 ^ 32) (2 ^ 31)) as [Hs | Hs]; zdiv.
Qed.
(** The pages built for a processor with a return sequence: the entry calls the safe return,
    which drops the speculated frame and returns, and everything else traps. *)
Lemma build_sites kind first second : kind = Zen12 \/ kind = Zen34 -> length first = 4096%nat -> length second = 4096%nat ->
  exists p1 p2 s, build kind first second = Ok (p1, p2, s) /\ length p1 = 4096%nat /\ length p2 = 4096%nat
  /\ (let page := if kind is Zen12 then p1 else p2 in let off := if kind is Zen12 then 0 else 0x104000 in
      at_page page (safe s - off) 6 = [0x48; 0x8d; 0x64; 0x24; 0x08; 0xc3] /\ target (entry s) (at_page page (entry s - off) 5) = safe s /\ at_page page (entry s - off + 5) 2 = [0x0f; 0x0b]).
Proof.
  intros Hk H1 H2. unfold build. rewrite H1, H2. destruct Hk as [-> | ->]; eexists _, _, _; (split; [reflexivity |]); (split; [vm_compute; reflexivity |]); (split; [vm_compute; reflexivity |]); vm_compute; split_and!; reflexivity.
Qed.
End SecurityFacts.
