(* ===== verification/Topology.v ===== *)
(** CPU topology (src/topology/policy.rs, mod.rs, src/arch/amd64/topology.rs,
    src/arch/arm64/topology.rs): which thread identifiers share a core, what a processor says
    of itself, and the admission of one scheduling thread per core. *)

From Stdlib Require Import ZArith Lia.
From stdpp Require Import base list list_numbers numbers decidable tactics strings.
From S2P Require Import Prelude Records FatNames BootArgs Security.
Import FatNames(lit) BootArgs Security.

Module Topology.

Inductive Source := Intel1f | IntelB | Amd1e | Legacy | ArmAffinity | Unknown.
#[global] Instance Source_eq_dec : EqDecision Source.
Proof. solve_decision. Defined.
Record Core := mkCore { logical : Z; base : Z; mask : Z; package : option Z; threads : Z; source : Source }.
Definition unknown (id : Z) : Core := mkCore id id 0 None 0 Unknown.
Definition x86 (id smt_shift package_shift n : Z) (src : Source) : option Core :=
  if (31 <? smt_shift) || (31 <? package_shift) || (package_shift <? smt_shift) || (n =? 0) || (Z.shiftl 1 smt_shift <? n) then None
  else
    let m := Z.shiftl 1 smt_shift - 1 in
    Some (mkCore id (Z.land id (unot 64 m)) m (Some (Z.shiftr id package_shift)) n src).
Definition arm (mpidr : Z) : Core :=
  let id := Z.land mpidr 0xff00ffffff in
  let m := if negb (Z.land mpidr (Z.shiftl 1 24) =? 0) then 255 else 0 in
  mkCore id (Z.land id (unot 64 m)) m None (if m =? 0 then 1 else 256) ArmAffinity.
Definition known (c : Core) : bool := negb (bool_decide (source c = Unknown)).
Definition overlaps (a b : Core) : bool := Z.land (Z.lxor (base a) (base b)) (unot 64 (Z.lor (mask a) (mask b))) =? 0.

Inductive Reason := Empty | Online | Sibling | NotKnown.
#[global] Instance Reason_eq_dec : EqDecision Reason.
Proof. solve_decision. Defined.
Record Record_ := mkRecord { core : Core; reason : Reason }.
Definition EMPTY : Record_ := mkRecord (unknown 0) Empty.
Definition MAX_CPUS : nat := 64.
Record Admission := mkAdmission { disable_smt : bool; records : list Record_ }.
#[export] Instance Admission_eta : Eta Admission := fun a => mkAdmission (disable_smt a) (records a).
Definition new (d : bool) : Admission := mkAdmission d (replicate MAX_CPUS EMPTY).
Definition bsp (a : Admission) (c : Core) : Admission := a <| records := <[0%nat := mkRecord c Online]> (records a) |>.
Definition online (r : Record_) : bool := bool_decide (reason r = Online).
Definition covered_candidate (a : Admission) (id : Z) : bool :=
  disable_smt a && existsb (fun r => online r && known (core r) && (Z.land (Z.lxor id (base (core r))) (unot 64 (mask (core r))) =? 0)) (records a).
Definition admit_ (a : Admission) (cpu : nat) (c : Core) : Admission * bool :=
  match records a !! cpu, records a !! 0%nat with
  | Some r, Some first =>
      if (cpu =? 0)%nat || negb (bool_decide (reason r = Empty)) then (a, false)
      else
        let why := if negb (disable_smt a) then Online
                   else if negb (known c) || negb (known (core first)) then NotKnown
                   else if existsb (fun r => online r && overlaps c (core r)) (records a) then Sibling
                   else Online in
        (a <| records := <[cpu := mkRecord c why]> (records a) |>, bool_decide (why = Online))
  | _, _ => (a, false)
  end.
Fixpoint smt_args (disable forced mitigations_off : bool) (args : list (list Z)) : outcome unit bool :=
  match args with
  | [] => Ok (forced || disable)
  | arg :: args' =>
      if is_lit arg "nosmt" then smt_args true forced mitigations_off args'
      else
        match strip_prefix (lit "nosmt=") arg with
        | Some value =>
            if is_lit value "on" then smt_args true forced mitigations_off args'
            else if is_lit value "off" then smt_args false forced mitigations_off args'
            else if is_lit value "auto" then smt_args (negb mitigations_off) forced mitigations_off args'
            else if is_lit value "force" then smt_args true true mitigations_off args'
            else Err tt
        | None => smt_args disable forced mitigations_off args'
        end
  end.
Definition disable_smt_option (args : list Z) (mitigations_off forced_nosmt : bool) : outcome unit bool :=
  smt_args (negb mitigations_off) forced_nosmt mitigations_off (split_ascii_whitespace args).

(** [topology::init]'s choice: an invalid option isolates siblings. *)
Definition init_choice (args : list Z) (policy : Policy) : bool :=
  match disable_smt_option args (bool_decide (mode policy = Off)) (bool_decide (mode policy = AutoNoSmt)) with Ok d => d | _ => true end.
Definition core_id (a : Admission) (cpu : nat) : option Z :=
  r ← records a !! cpu; if online r && known (core r) then Some (base (core r)) else None.

(** * What an x86 processor says: [cpuid leaf subleaf] gives eax, ebx, ecx, edx *)

Record Regs := mkRegs { eax : Z; ebx : Z; ecx : Z; edx : Z }.
Definition bits (x lo m : Z) : Z := Z.land (Z.shiftr x lo) m.
(** [32 - x.leading_zeros()]. *)
Definition bit_length (x : Z) : Z := if x =? 0 then 0 else Z.log2 x + 1.

Section Probe.
Context (cpuid : Z -> Z -> Regs).
(** The levels of leaf 0x1f or 0xb: identifier, package shift and the thread level; [None] when they disagree. *)
Fixpoint levels (fuel : nat) (leaf level : Z) (id : option Z) (package_shift : Z) (smt : option (Z * Z)) : option (option Z * Z * option (Z * Z)) :=
  match fuel with
  | O => Some (id, package_shift, smt)
  | S fuel' =>
      let r := cpuid leaf level in
      if Z.land (ebx r) 65535 =? 0 then Some (id, package_shift, smt)
      else if match id with Some old => negb (old =? edx r) | None => false end then None
      else
        let shift := Z.land (eax r) 31 in
        levels fuel' leaf (level + 1) (Some (edx r)) (Z.max package_shift shift)
          (if bits (ecx r) 8 255 =? 1 then Some (shift, Z.land (ebx r) 65535) else smt)
  end.
Definition leaf_core (max leaf : Z) (src : Source) : option Core :=
  if max <? leaf then None
  else
    match levels 8 leaf 0 None 0 None with
    | Some (Some id, package_shift, Some (shift, n)) => x86 id shift package_shift n src
    | _ => None
    end.
Definition amd_core (ext : Z) : option Core :=
  if (0x8000001e <=? ext) && negb (Z.land (ecx (cpuid 0x80000001 0)) (Z.shiftl 1 22) =? 0) then
    let r := cpuid 0x8000001e 0 in
    let n := bits (ebx r) 8 255 + 1 in
    if is_power_of_two n then
      let e := ecx (cpuid 0x80000008 0) in
      let b := bits e 12 15 in
      x86 (eax r) (trailing_zeros 32 n) (if negb (b =? 0) then b else bit_length (Z.land e 255)) n Amd1e
    else None
  else None.
Definition cache_core (max legacy_id count : Z) : option Core :=
  let cache := if 4 <=? max then cpuid 4 0 else cpuid 0 0 in
  if (4 <=? max) && negb (Z.land (eax cache) 31 =? 0) && (bits (eax cache) 5 7 =? 1) then
    let n := bits (eax cache) 14 0xfff + 1 in
    if is_power_of_two n && negb (count =? 0) then x86 legacy_id (trailing_zeros 32 n) (bit_length (count - 1)) n Legacy else None
  else None.
Definition old_amd_core (ext legacy_id count : Z) : option Core :=
  let one := eax (cpuid 1 0) in
  let family := bits one 8 15 + (if bits one 8 15 =? 15 then bits one 20 255 else 0) in
  if (ebx (cpuid 0 0) =? 0x68747541) && (family <? 0x17) && (0x80000008 <=? ext) then
    let cores := Z.land (ecx (cpuid 0x80000008 0)) 255 + 1 in
    if negb (count =? 0) && (cores <=? count) && (count mod cores =? 0) then
      let n := count / cores in
      if is_power_of_two n then x86 legacy_id (trailing_zeros 32 n) (bit_length (count - 1)) n Legacy else None
    else None
  else None.
Definition probe : Core :=
  let max := eax (cpuid 0 0) in
  let one := ebx (cpuid 1 0) in
  let legacy_id := Z.shiftr one 24 in
  let count := bits one 16 255 in
  let ext := eax (cpuid 0x80000000 0) in
  match find_map id [leaf_core max 0x1f Intel1f; leaf_core max 0xb IntelB; amd_core ext; cache_core max legacy_id count; old_amd_core ext legacy_id count] with
  | Some c => c
  | None => unknown legacy_id
  end.
End Probe.
End Topology.
