(* ===== verification/TopologyFacts.v ===== *)
(** Cores as ranges of thread identifiers (src/topology/policy.rs): two cores overlap exactly
    when some identifier is in both, and what a processor reports is such a range. *)

From Stdlib Require Import ZArith Lia.
From stdpp Require Import base list list_numbers numbers decidable tactics strings.
From S2P Require Import Prelude Records FatNames BootArgs Security Topology.
Import Topology.

Module TopologyFacts.

Definition covers (c : Core) (id : Z) : Prop := base c <= id <= base c + mask c.
(** A range of [2^k] identifiers, aligned. *)
Record wf_core (c : Core) : Prop := {
  wc_mask : exists k, 0 <= k <= 32 /\ mask c = 2 ^ k - 1 /\ base c mod 2 ^ k = 0;
  wc_base : 0 <= base c < 2 ^ 64 }.

Lemma same_block k x y : 0 <= k <= 64 -> 0 <= x < 2 ^ 64 -> 0 <= y < 2 ^ 64 -> (Z.land (Z.lxor x y) (unot 64 (2 ^ k - 1)) =? 0) = (x / 2 ^ k =? y / 2 ^ k).
Proof.
  intros Hk Hx Hy. apply eq_iff_eq_true. rewrite !Z.eqb_eq, <- !Z.shiftr_div_pow2 by lia. assert (0 <= 2 ^ k - 1 < 2 ^ 64) as Hm.
  { assert (0 < 2 ^ k) by (apply Z.pow_pos_nonneg; lia). assert (2 ^ k <= 2 ^ 64) by (apply Z.pow_le_mono_r; lia). lia. }
  assert (forall i, 0 <= i -> Z.testbit (unot 64 (2 ^ k - 1)) i = (k <=? i) && (i <? 64)) as Hbit.
  { intros i Hi. destruct (Z.ltb_spec i 64) as [Hl | Hl]; [| rewrite (testbit_above 64) by (done || by apply unot_range); by rewrite andb_false_r].
    rewrite testbit_unot by lia. replace (2 ^ k - 1) with (Z.ones k) by (rewrite Z.ones_equiv; lia). rewrite Z.testbit_ones_nonneg by lia. lia. }
  split; intros H; apply Z.bits_inj'; intros i Hi.
  - rewrite !Z.shiftr_spec by lia. destruct (Z.ltb_spec (i + k) 64) as [Hl | Hl]; [| by rewrite !(testbit_above 64) by lia].
    apply (f_equal (fun z => Z.testbit z (i + k))) in H. rewrite Z.land_spec, Z.lxor_spec, Hbit, Z.bits_0 in H by lia.
    rewrite (proj2 (Z.leb_le _ _)), (proj2 (Z.ltb_lt _ _)), andb_true_r in H by lia. by apply xorb_eq.
  - rewrite Z.land_spec, Z.lxor_spec, Hbit, Z.bits_0 by lia. destruct (Z.leb_spec k i) as [Hl | Hl]; [| by rewrite andb_false_r].
    apply (f_equal (fun z => Z.testbit z (i - k))) in H. rewrite !Z.shiftr_spec in H by lia. replace (i - k + k) with i in H by lia. by rewrite H, xorb_nilpotent.
Qed.
Lemma block_base x k : 0 <= k -> x mod 2 ^ k = 0 -> x = x / 2 ^ k * 2 ^ k.
Proof. intros Hk Hm. pose proof (Z.div_mod x (2 ^ k) ltac:(pose proof (Z.pow_pos_nonneg 2 k); lia)). lia. Qed.
(** Being in an aligned range is having its leading bits. *)
Lemma covers_block b k id : 0 <= k -> b mod 2 ^ k = 0 -> b <= id <= b + (2 ^ k - 1) <-> id / 2 ^ k = b / 2 ^ k.
Proof.
  intros Hk Hm. assert (0 < 2 ^ k) by (apply Z.pow_pos_nonneg; lia). pose proof (block_base b k Hk Hm) as Hb. set (q := b / 2 ^ k) in *. split; intros H1.
  - symmetry. apply (Z.div_unique _ _ _ (id - b)); lia.
  - pose proof (Z.div_mod id (2 ^ k) ltac:(lia)). pose proof (Z.mod_pos_bound id (2 ^ k) ltac:(lia)). rewrite H1 in *. lia.
Qed.
Lemma lor_masks j k : 0 <= j <= k -> Z.lor (2 ^ j - 1) (2 ^ k - 1) = 2 ^ k - 1 /\ Z.lor (2 ^ k - 1) (2 ^ j - 1) = 2 ^ k - 1.
Proof.
  intros H. assert (Z.lor (2 ^ j - 1) (2 ^ k - 1) = 2 ^ k - 1) as E; [| split; [done | by rewrite Z.lor_comm]].
  rewrite !(Z.sub_1_r (2 ^ _)), <- !Z.ones_equiv. apply Z.bits_inj'. intros i Hi. rewrite Z.lor_spec, !Z.testbit_ones_nonneg by lia. lia.
Qed.
Lemma div_coarser x y j k : 0 <= j <= k -> x / 2 ^ j = y / 2 ^ j -> x / 2 ^ k = y / 2 ^ k.
Proof. intros H E. replace k with (j + (k - j)) by lia. rewrite Z.pow_add_r, <- !Z.div_div by (try apply Z.pow_pos_nonneg; lia). by rewrite E. Qed.

Lemma overlaps_sym a b : overlaps a b = overlaps b a.
Proof. unfold overlaps. by rewrite Z.lxor_comm, Z.lor_comm. Qed.
(** The wider of two overlapping ranges holds the base of the other. *)
Lemma overlaps_wider a b j k : 0 <= j <= k -> k <= 32 -> mask a = 2 ^ j - 1 -> mask b = 2 ^ k - 1 -> base b mod 2 ^ k = 0 -> base a mod 2 ^ j = 0 ->
  0 <= base a < 2 ^ 64 -> 0 <= base b < 2 ^ 64 -> overlaps a b = true <-> exists id, covers a id /\ covers b id.
Proof.
  intros Hj Hk Ma Mb Hb Ha Ra Rb. unfold overlaps, covers. rewrite Ma, Mb, (proj1 (lor_masks j k Hj)), same_block by lia. rewrite Z.eqb_eq. split.
  - intros E. exists (base a). assert (0 < 2 ^ j) by (apply Z.pow_pos_nonneg; lia). split; [lia |]. apply covers_block; [lia | done | done].
  - intros (id & H1 & H2). apply covers_block in H1; [| lia | done]. apply covers_block in H2; [| lia | done]. rewrite <- H2. symmetry. by apply (div_coarser id (base a) j k).
Qed.
Lemma overlaps_exact a b : wf_core a -> wf_core b -> overlaps a b = true <-> exists id, covers a id /\ covers b id.
Proof.
  intros [(j & Hj & Ma & Aa) Ra] [(k & Hk & Mb & Ab) Rb]. destruct (Z.le_ge_cases j k).
  - by apply (overlaps_wider a b j k); lia.
  - rewrite overlaps_sym, (overlaps_wider b a k j) by lia. split; intros (id & ? & ?); eauto.
Qed.

(** * Probed cores *)

Lemma align_id id k : 0 <= k <= 32 -> 0 <= id < 2 ^ 64 -> let b := Z.land id (unot 64 (2 ^ k - 1)) in b mod 2 ^ k = 0 /\ 0 <= b < 2 ^ 64 /\ b <= id <= b + (2 ^ k - 1).
Proof.
  intros Hk Hid b. unfold b. change (unot 64 (2 ^ k - 1)) with (unot 64 (2 ^ k - 1)). fold (align_down id (2 ^ k)). destruct (align_down_range id k) as (H1 & H2 & H3); [done | lia |]. split; [done |]. lia.
Qed.
Lemma x86_wf id s p n src c : 0 <= id < 2 ^ 32 -> 0 <= s -> x86 id s p n src = Some c -> wf_core c /\ covers c (logical c) /\ logical c = id /\ source c = src /\ threads c <= mask c + 1.
Proof.
  intros Hid Hs. unfold x86. destruct (_ || _) eqn:E; [done |]. intros [= <-]. rewrite Z.shiftl_1_l in *. assert (s <= 31 /\ n <= 2 ^ s) as [Hs31 Hn] by (rewrite !orb_false_iff in E; lia). destruct (align_id id s ltac:(lia) ltac:(lia)) as (H1 & H2 & H3).
  split; [constructor; cbn [base mask]; [exists s; split; [lia | done] | done] |]. unfold covers. cbn [base mask logical threads source]. split_and!; try done; lia.
Qed.
Lemma arm_wf mpidr : 0 <= mpidr < 2 ^ 64 -> wf_core (arm mpidr) /\ covers (arm mpidr) (logical (arm mpidr)) /\ known (arm mpidr) = true.
Proof.
  intros Hm. unfold arm. pose proof (land_range 64 mpidr 0xff00ffffff ltac:(lia) Hm) as Hid. set (id := Z.land mpidr 0xff00ffffff) in *. destruct (negb _).
  - destruct (align_id id 8 ltac:(lia) ltac:(lia)) as (H1 & H2 & H3). split; [| split; [unfold covers; cbn; change (2 ^ 8 - 1) with 255 in H3; exact H3 | done]]. constructor; cbn; [exists 8; done | done].
  - destruct (align_id id 0 ltac:(lia) ltac:(lia)) as (H1 & H2 & H3). split; [| split; [unfold covers; cbn; change (2 ^ 0 - 1) with 0 in H3; exact H3 | done]]. constructor; cbn; [exists 0; done | done].
Qed.

(** What is known of a core is a range that holds its own identifier. *)
Definition sound_core (c : Core) : Prop := known c = true -> wf_core c /\ covers c (logical c).
Lemma x86_sound id s p n src c : 0 <= id < 2 ^ 32 -> 0 <= s -> x86 id s p n src = Some c -> sound_core c.
Proof. intros Hid Hs H _. destruct (x86_wf _ _ _ _ _ _ Hid Hs H) as (H1 & H2 & _). done. Qed.
Lemma trailing_zeros_nonneg w x : 0 <= trailing_zeros w x.
Proof.
  unfold trailing_zeros. assert (forall fuel i, 0 <= i -> 0 <= trailing_zeros_from fuel i x) as H; [| by apply H].
  induction fuel as [| fuel IH]; intros i Hi; cbn; [done |]. destruct (Z.testbit x i); [done | apply IH; lia].
Qed.

Section Probe.
Context (cpuid : Z -> Z -> Regs).
Hypothesis Hregs : forall l s, is_uint 32 (eax (cpuid l s)) /\ is_uint 32 (ebx (cpuid l s)) /\ is_uint 32 (ecx (cpuid l s)) /\ is_uint 32 (edx (cpuid l s)).

Lemma levels_sound leaf : forall fuel level id ps smt id' ps' smt', from_option (fun x => 0 <= x < 2 ^ 32) True id -> from_option (fun x => 0 <= x.1) True smt ->
  levels cpuid fuel leaf level id ps smt = Some (id', ps', smt') -> from_option (fun x => 0 <= x < 2 ^ 32) True id' /\ from_option (fun x : Z * Z => 0 <= x.1) True smt'.
Proof.
  induction fuel as [| fuel IH]; intros level id ps smt id' ps' smt' Hid Hsmt; cbn [levels]; [by intros [= <- <- <-] |].
  destruct (Hregs leaf level) as (Ha & _ & _ & Hd). destruct (Z.land (ebx (cpuid leaf level)) 65535 =? 0); [by intros [= <- <- <-] |]. destruct (match id with Some _ => _ | None => _ end); [done |].
  apply IH; [exact Hd |]. destruct (bits _ 8 255 =? 1); [| done]. cbn. pose proof (land_range 32 (eax (cpuid leaf level)) 31 ltac:(lia) Ha). lia.
Qed.
Lemma leaf_sound max leaf src c : leaf_core cpuid max leaf src = Some c -> sound_core c.
Proof.
  unfold leaf_core. destruct (max <? leaf); [done |]. destruct (levels cpuid 8 leaf 0 None 0 None) as [[[[id |] ps] [[sh n] |]] |] eqn:E; try done.
  destruct (levels_sound leaf 8 0 None 0 None (Some id) ps (Some (sh, n)) I I E) as [H1 H2]. by apply x86_sound.
Qed.
Lemma find_map_sound l c : Forall (fun o => forall c, o = Some c -> sound_core c) l -> find_map id l = Some c -> sound_core c.
Proof. intros H E. apply find_map_Some in E as (x & Hx & E). exact (Forall_elem _ _ _ H Hx c E). Qed.
(** Whatever the processor answers. *)
Lemma probe_sound : sound_core (probe cpuid).
Proof.
  unfold probe. cbn zeta. set (l := [_; _; _; _; _]). destruct (find_map id l) as [c |] eqn:E; [| intros H; discriminate H]. revert E. apply find_map_sound. unfold l.
  assert (0 <= Z.shiftr (ebx (cpuid 1 0)) 24 < 2 ^ 32) as Hid.
  { destruct (Hregs 1 0) as (_ & [H1 H2] & _). rewrite Z.shiftr_div_pow2 by lia. split; [apply Z.div_pos; lia |]. apply Z.div_lt_upper_bound; lia. }
  repeat apply Forall_cons_2; [apply leaf_sound | apply leaf_sound | | | | constructor]; intros c' E'.
  - unfold amd_core in E'. destruct (_ && _); [| done]. destruct (is_power_of_two _); [| done]. destruct (Hregs 0x8000001e 0) as (Ha & _). exact (x86_sound _ _ _ _ _ _ Ha (trailing_zeros_nonneg _ _) E').
  - unfold cache_core in E'. destruct (_ && _); [| done]. destruct (_ && _); [| done]. exact (x86_sound _ _ _ _ _ _ Hid (trailing_zeros_nonneg _ _) E').
  - unfold old_amd_core in E'. destruct (_ && _); [| done]. destruct (_ && _); [| done]. destruct (is_power_of_two _); [| done]. exact (x86_sound _ _ _ _ _ _ Hid (trailing_zeros_nonneg _ _) E').
Qed.
End Probe.
End TopologyFacts.
