(* ===== verification/Admission.v ===== *)
(** Admission of processors to scheduling (src/security/mod.rs, src/topology/mod.rs and the
    entry of secondary processors in src/arch/amd64/smp.rs, src/arch/arm64/smp.rs): who may
    run tasks, one thread per core when siblings are isolated, and the capabilities all of
    them have. *)

From Stdlib Require Import ZArith Lia.
From stdpp Require Import base list list_numbers numbers decidable tactics strings relations.
From S2P Require Import Prelude Records FatNames BootArgs Security Topology TopologyFacts.
Import Security Topology TopologyFacts.

Module Admission.

Record Sys := mkSys { topo : Topology.Admission; configured : bool; caps : list (option SpecCaps); admitted : Z; sealed : bool; common : option CommonCaps }.
#[export] Instance Sys_eta : Eta Sys := fun s => mkSys (topo s) (configured s) (caps s) (admitted s) (sealed s) (common s).
Definition boot : Sys := mkSys (new true) false (replicate 64 None) 1 false None.

Definition topology_init (args : list Z) (policy : Policy) (s : Sys) : P Sys :=
  _ ← assert_that (negb (configured s));
  Ok (s <| configured := true |> <| topo := new (init_choice args policy) |>).
Definition bsp_ready (c : Core) (s : Sys) : P Sys :=
  r ← unwrap (records (topo s) !! 0%nat);
  _ ← assert_that (bool_decide (reason r = Empty));
  Ok (s <| topo := bsp (topo s) c |>).
Definition topology_admit (cpu : nat) (c : Core) (s : Sys) : Sys * bool :=
  let '(t, b) := admit_ (topo s) cpu c in (s <| topo := t |>, b).
Definition isolating (s : Sys) : bool := configured s && disable_smt (topo s).

Definition record (cpu : nat) (c : SpecCaps) (s : Sys) : P Sys :=
  _ ← unwrap (caps s !! cpu); Ok (s <| caps := <[cpu := Some c]> (caps s) |>).
Definition admit_cpu_prepared (cpu : nat) (prepare : Sys -> P (Sys * bool)) (s : Sys) : P (Sys * bool) :=
  if sealed s then Ok (s, false)
  else
    '(s, ok) ← prepare s;
    if negb ok then Ok (s, false)
    else
      c ← unwrap (caps s !! cpu);
      _ ← assert_that (bool_decide (is_Some c));
      Ok (s <| admitted := Z.lor (admitted s) (Z.shiftl 1 (Z.of_nat cpu)) |>, true).
Definition admit_cpu (cpu : nat) (s : Sys) : P (Sys * bool) := admit_cpu_prepared cpu (fun s => Ok (s, true)) s.
(** A secondary processor comes up: [microcode] and [compatible] are the answers of the update
    and return-sequence code, [c] and [k] what it says of its topology and capabilities. *)
Definition ap_entry (cpu : nat) (microcode compatible : bool) (k : SpecCaps) (c : Core) (s : Sys) : P (Sys * bool) :=
  admit_cpu_prepared cpu
    (fun s => if negb microcode then Ok (s, false)
              else s ← record cpu k s; if negb compatible then Ok (s, false) else Ok (topology_admit cpu c s)) s.
Definition arm64_secondary_main (cpu : nat) (compatible : bool) (k : SpecCaps) (c : Core) (s : Sys) : P (Sys * bool) :=
  admit_cpu_prepared cpu
    (fun s => if negb compatible then Ok (s, false)
              else let '(s, ok) := topology_admit cpu c s in if negb ok then Ok (s, false) else s ← record cpu k s; Ok (s, true)) s.
Definition freeze (s : Sys) : Sys * Z := (s <| sealed := true |>, admitted s).
Definition in_set (set : Z) (cpu : nat) : bool := negb (Z.land set (Z.shiftl 1 (Z.of_nat cpu)) =? 0).
Definition caps_of (s : Sys) (cpu : nat) : SpecCaps := default default_caps (mjoin (caps s !! cpu)).
Definition finalize (s : Sys) : Sys * CommonCaps :=
  let '(s, set) := freeze s in
  let c := intersection (map (caps_of s) (List.filter (in_set set) (seq 0 64))) in
  let c := default c (common s) in
  (s <| common := Some c |>, c).
(** The assertion of [topology::report]. *)
Definition report_check (s : Sys) : bool :=
  forallb (fun cpu => match records (topo s) !! cpu with
                      | Some r => bool_decide (reason r = Empty) || Bool.eqb (online r) (in_set (admitted s) cpu)
                      | None => true
                      end) (seq 0 64).

(** * Boot as a sequence of steps; the boot processor records its capabilities before the seal *)

Inductive step (s : Sys) : Sys -> Prop :=
| step_record k s' : sealed s = false -> record 0 k s = Ok s' -> step s s'
| step_bsp c s' : sound_core c -> bsp_ready c s = Ok s' -> step s s'
| step_amd64 cpu ucode ok k c s' b : sound_core c -> ap_entry cpu ucode ok k c s = Ok (s', b) -> step s s'
| step_arm64 cpu ok k c s' b : sound_core c -> arm64_secondary_main cpu ok k c s = Ok (s', b) -> step s s'
| step_late cpu s' b : sealed s = true -> admit_cpu cpu s = Ok (s', b) -> step s s'
| step_freeze : step s (freeze s).1
| step_finalize : step s (finalize s).1.
Abbreviation steps := (rtc step).

Lemma in_set_testbit set cpu : in_set set cpu = Z.testbit set (Z.of_nat cpu).
Proof. unfold in_set. rewrite land_pow2_testbit by lia. apply negb_involutive. Qed.

(** * The topology records *)

Record topo_inv (t : Topology.Admission) : Prop := {
  ti_len : length (records t) = MAX_CPUS;
  ti_first : forall r, records t !! 0%nat = Some r -> reason r = Empty /\ r = EMPTY \/ reason r = Online;
  ti_sound : forall i r, records t !! i = Some r -> sound_core (core r);
  ti_before : disable_smt t = true -> records t !! 0%nat = Some EMPTY -> forall i r, records t !! i = Some r -> online r = false;
  ti_apart : disable_smt t = true -> forall i j a b, i <> j -> records t !! i = Some a -> records t !! j = Some b -> online a = true -> online b = true ->
    known (core a) = true /\ known (core b) = true /\ overlaps (core a) (core b) = false }.
Lemma new_inv d : topo_inv (new d).
Proof.
  constructor; cbn [records new].
  - apply length_replicate.
  - intros r Hr. apply lookup_replicate in Hr as [-> _]. by left.
  - intros i r Hr. apply lookup_replicate in Hr as [-> _]. intros H. discriminate H.
  - intros _ _ i r Hr. apply lookup_replicate in Hr as [-> _]. done.
  - intros _ i j a b _ Ha _ Hon. apply lookup_replicate in Ha as [-> _]. discriminate Hon.
Qed.
Lemma bsp_inv t c : topo_inv t -> sound_core c -> records t !! 0%nat = Some EMPTY -> topo_inv (bsp t c).
Proof.
  intros [L F S B A] Hc H0. unfold bsp. constructor; unfold set_field; cbn [records disable_smt].
  - by rewrite length_insert.
  - intros r. rewrite list_lookup_insert_eq by (rewrite L; unfold MAX_CPUS; lia). intros [= <-]. by right.
  - intros i r Hr. apply list_lookup_insert_Some in Hr as [(<- & <- & _) | [_ Hr]]; [done | by apply (S i)].
  - intros _. rewrite list_lookup_insert_eq by (rewrite L; unfold MAX_CPUS; lia). intros [=].
  - intros Hd i j a b Hij Ha Hb Hoa Hob. apply list_lookup_insert_Some in Ha as [(<- & <- & _) | [_ Ha]]; [| by rewrite (B Hd H0 i a Ha) in Hoa].
    apply list_lookup_insert_Some in Hb as [(<- & <- & _) | [_ Hb]]; [done | by rewrite (B Hd H0 j b Hb) in Hob].
Qed.
(** What [admit_] does when it decides about a processor, and when it does not. *)
Lemma admit_cases t cpu c : topo_inv t ->
  (admit_ t cpu c = (t, false))
  \/ exists why old, (0 < cpu < MAX_CPUS)%nat /\ (records t !! cpu = Some old /\ reason old = Empty) /\ admit_ t cpu c = (t <| records := <[cpu := mkRecord c why]> (records t) |>, bool_decide (why = Online)) /\ why <> Empty
     /\ (why = Online -> disable_smt t = true -> known c = true /\ exists first, records t !! 0%nat = Some first /\ known (core first) = true
         /\ forall i r, records t !! i = Some r -> online r = true -> overlaps c (core r) = false).
Proof.
  intros [L F S B A]. unfold admit_. destruct (records t !! cpu) as [old |] eqn:Er; [| by left]. destruct (records t !! 0%nat) as [first |] eqn:E0; [| by left].
  destruct (Nat.eqb_spec cpu 0) as [Hc | Hc]; [by left |]. destruct (bool_decide_reflect (reason old = Empty)) as [He | He]; [| by left]. cbn [orb negb]. right.
  set (why := if negb (disable_smt t) then _ else _). exists why, old. pose proof (lookup_lt_Some _ _ _ Er). split; [lia |]. split; [done |]. split; [done |]. unfold why.
  destruct (disable_smt t); cbn [negb]; [| done]. destruct (known c) eqn:Ek; cbn [negb orb]; [| done]. destruct (known (core first)) eqn:Ef; cbn [negb orb]; [| done].
  destruct (existsb _ _) eqn:Ex; [done |]. split; [done |]. intros _ _. split; [done |]. exists first. split; [done |]. split; [done |]. intros i r Hr Hon.
  apply not_true_iff_false. intros Ho. apply not_true_iff_false in Ex. apply Ex, existsb_exists. exists r. split; [apply list_elem_of_In; by eapply list_elem_of_lookup_2 |]. by rewrite Hon, Ho.
Qed.
Lemma admit_inv t cpu c : topo_inv t -> sound_core c -> topo_inv (admit_ t cpu c).1.
Proof.
  intros I Hc. destruct (admit_cases t cpu c I) as [-> | (why & old & Hcpu & _ & -> & Hne & Hon)]; [done |]. destruct I as [L F S B A]. constructor; unfold set_field; cbn [fst records disable_smt].
  - by rewrite length_insert.
  - intros r. rewrite list_lookup_insert_ne by lia. apply F.
  - intros i r Hr. apply list_lookup_insert_Some in Hr as [(<- & <- & _) | [_ Hr]]; [done | by apply (S i)].
  - intros Hd. rewrite list_lookup_insert_ne by lia. intros H0 i r Hr. apply list_lookup_insert_Some in Hr as [(<- & <- & _) | [_ Hr]]; [| by apply (B Hd H0 i)].
    unfold online. cbn. apply bool_decide_eq_false. intros ->. destruct (Hon eq_refl Hd) as (_ & first & H1 & H2 & _). rewrite H0 in H1. injection H1 as <-. done.
  - intros Hd i j a b Hij Ha Hb Hoa Hob. apply list_lookup_insert_Some in Ha as [(<- & <- & _) | [Hi Ha]]; apply list_lookup_insert_Some in Hb as [(Ej & <- & _) | [Hj Hb]].
    + congruence.
    + unfold online in Hoa. cbn in Hoa. apply bool_decide_eq_true in Hoa. destruct (Hon Hoa Hd) as (Hk & first & H1 & H2 & H3). split; [done |]. split; [| cbn; by apply (H3 j)].
      destruct (decide (j = 0%nat)) as [-> | Hj0]; [congruence |]. destruct (F first H1) as [[He1 ->] | Hf]; [done |].
      apply (A Hd j 0%nat b first Hj0 Hb H1 Hob). unfold online. by apply bool_decide_eq_true.
    + subst j. unfold online in Hob. cbn in Hob. apply bool_decide_eq_true in Hob. destruct (Hon Hob Hd) as (Hk & first & H1 & H2 & H3). split; [| split; [done |]].
      * destruct (decide (i = 0%nat)) as [-> | Hi0]; [congruence |]. destruct (F first H1) as [[He1 ->] | Hf]; [done |].
        apply (A Hd i 0%nat a first Hi0 Ha H1 Hoa). unfold online. by apply bool_decide_eq_true.
      * cbn. rewrite overlaps_sym. by apply (H3 i).
    + by apply (A Hd i j a b).
Qed.

(** * The whole machine *)

Record sys_inv (s : Sys) : Prop := {
  si_topo : topo_inv (topo s);
  si_configured : configured s = true;
  si_caps : length (caps s) = 64%nat;
  si_first : Z.testbit (admitted s) 0 = true;
  si_agree : forall i r, (0 < i)%nat -> records (topo s) !! i = Some r -> Z.testbit (admitted s) (Z.of_nat i) = online r;
  si_range : forall i, (64 <= i)%nat -> Z.testbit (admitted s) (Z.of_nat i) = false;
  si_common : forall c, common s = Some c -> sealed s = true /\ c = intersection (map (caps_of s) (List.filter (in_set (admitted s)) (seq 0 64))) }.
Lemma start_inv args policy s : topology_init args policy boot = Ok s -> sys_inv s.
Proof.
  intros [= <-]. constructor; try done; cbn [topo set_field].
  - apply new_inv.
  - intros i r Hi Hr. change (replicate MAX_CPUS EMPTY !! i = Some r) in Hr. apply lookup_replicate in Hr as [-> _]. change (Z.testbit 1 (Z.of_nat i) = false). by rewrite testbit_1_ne by lia.
  - intros i Hi. change (Z.testbit 1 (Z.of_nat i) = false). by rewrite testbit_1_ne by lia.
Qed.
(** While the machine is not sealed, nothing is final. *)
Lemma open_common s c : sys_inv s -> sealed s = false -> common s = Some c -> False.
Proof. intros I Ho Hc. destruct (si_common _ I c Hc). congruence. Qed.
Lemma record_inv cpu k s s' : sys_inv s -> sealed s = false -> record cpu k s = Ok s' -> sys_inv s' /\ topo s' = topo s /\ admitted s' = admitted s /\ sealed s' = false /\ common s' = common s.
Proof.
  intros I Ho. unfold record. destruct (caps s !! cpu) as [o |] eqn:Ec; [| done]. intros [= <-]. split; [| done]. destruct I. constructor; try done.
  - unfold set_field. cbn [caps]. by rewrite length_insert.
  - intros c Hc. destruct (si_common0 c Hc) as [Hx _]. change (sealed s = true) in Hx. congruence.
Qed.
(** The topology decides about a processor, and its bit of the admitted set follows. *)
Lemma agree_after t cpu c t' b set : topo_inv t -> admit_ t cpu c = (t', b) -> (forall i r, (0 < i)%nat -> records t !! i = Some r -> Z.testbit set (Z.of_nat i) = online r) ->
  (b = true -> (0 < cpu < 64)%nat) /\ forall i r, (0 < i)%nat -> records t' !! i = Some r -> Z.testbit (if b then Z.lor set (Z.shiftl 1 (Z.of_nat cpu)) else set) (Z.of_nat i) = online r.
Proof.
  intros It E Hset. destruct (admit_cases t cpu c It) as [E' | (why & old & Hcpu & [Ho He] & E' & Hne & _)]; rewrite E in E'; injection E' as -> ->; [split; [done | exact Hset] |].
  split; [intros _; exact Hcpu |]. intros i r Hi Hr. unfold set_field in Hr. cbn [records] in Hr. apply list_lookup_insert_Some in Hr as [(<- & <- & _) | [Hn Hr]].
  - unfold online. cbn [reason]. destruct (bool_decide (why = Online)) eqn:Eb; [rewrite Z.lor_spec, testbit_pow2, Z.eqb_refl by lia; apply orb_true_r |].
    rewrite (Hset cpu old Hi Ho). unfold online. by rewrite He.
  - rewrite <- (Hset i r Hi Hr). destruct (bool_decide (why = Online)); [| done]. rewrite Z.lor_spec, testbit_pow2 by lia. rewrite (proj2 (Z.eqb_neq _ _)) by lia. apply orb_false_r.
Qed.
Lemma decided_inv cpu c s t b k : sys_inv s -> sealed s = false -> sound_core c -> length k = 64%nat -> admit_ (topo s) cpu c = (t, b) ->
  sys_inv (mkSys t (configured s) k (if b then Z.lor (admitted s) (Z.shiftl 1 (Z.of_nat cpu)) else admitted s) false (common s)).
Proof.
  intros I Ho Hc Hk E. pose proof (admit_inv (topo s) cpu c (si_topo _ I) Hc) as It. rewrite E in It. destruct (agree_after _ _ _ _ _ _ (si_topo _ I) E (si_agree _ I)) as [Hcpu Hag].
  pose proof (open_common s) as Hcom. destruct I. constructor; cbn [topo configured caps admitted sealed common]; try done.
  - destruct b; [| done]. rewrite Z.lor_spec. by rewrite si_first0.
  - intros i Hi. destruct b; [| by apply si_range0]. rewrite Z.lor_spec, testbit_pow2, si_range0 by lia. cbn. specialize (Hcpu eq_refl). lia.
  - intros cc Hcc. exfalso. eapply Hcom; [by constructor | done | done].
Qed.
Lemma ap_entry_inv cpu ucode ok k c s s' b : sys_inv s -> sound_core c -> ap_entry cpu ucode ok k c s = Ok (s', b) -> sys_inv s' /\ (sealed s = true -> s' = s).
Proof.
  intros I Hc. unfold ap_entry, admit_cpu_prepared. destruct (sealed s) eqn:Ho; [by intros [= <- <-] |]. intros E. split; [| done]. revert E. destruct ucode; cbn [negb mbind outcome_bind]; [| by intros [= <- <-]].
  destruct (record cpu k s) as [s1 | |] eqn:Er; cbn [mbind outcome_bind]; [| done | done]. destruct (record_inv _ _ _ _ I Ho Er) as (I1 & _ & _ & Ho1 & _).
  destruct ok; cbn [negb mbind outcome_bind]; [| by intros [= <- <-]]. unfold topology_admit. destruct (admit_ (topo s1) cpu c) as [t a] eqn:Ea. cbn [mbind outcome_bind].
  pose proof (decided_inv cpu c s1 t a (caps s1) I1 Ho1 Hc (si_caps _ I1) Ea) as I2. destruct a; cbn [negb].
  - change (caps (s1 <| topo := t |>)) with (caps s1). destruct (caps s1 !! cpu) as [o |]; cbn [unwrap mbind outcome_bind]; [| done]. destruct (bool_decide (is_Some o)); [| done].
    intros [= <- <-]. destruct s1; cbn in *. by subst.
  - intros [= <- <-]. destruct s1; cbn in *. by subst.
Qed.
Lemma arm64_entry_inv cpu ok k c s s' b : sys_inv s -> sound_core c -> arm64_secondary_main cpu ok k c s = Ok (s', b) -> sys_inv s' /\ (sealed s = true -> s' = s).
Proof.
  intros I Hc. unfold arm64_secondary_main, admit_cpu_prepared. destruct (sealed s) eqn:Ho; [by intros [= <- <-] |]. intros E. split; [| done]. revert E.
  destruct ok; cbn [negb mbind outcome_bind]; [| by intros [= <- <-]]. unfold topology_admit. destruct (admit_ (topo s) cpu c) as [t a] eqn:Ea. destruct a; cbn [negb mbind outcome_bind].
  - unfold record. change (caps (s <| topo := t |>)) with (caps s). destruct (caps s !! cpu) as [o |] eqn:Ec; cbn [unwrap mbind outcome_bind]; [| done].
    change (caps (_ <| caps := ?x |>)) with x. rewrite list_lookup_insert_eq by (by eapply lookup_lt_Some). cbn [unwrap mbind outcome_bind]. intros [= <- <-].
    pose proof (decided_inv cpu c s t true (<[cpu := Some k]> (caps s)) I Ho Hc ltac:(rewrite length_insert; apply I) Ea) as I2. destruct s; cbn in *. by subst.
  - intros [= <- <-]. pose proof (decided_inv cpu c s t false (caps s) I Ho Hc (si_caps _ I) Ea) as I2. destruct s; cbn in *. by subst.
Qed.
Lemma step_inv s s' : sys_inv s -> step s s' -> sys_inv s' /\ (sealed s = true -> admitted s' = admitted s /\ sealed s' = true).
Proof.
  intros I [k s1 Ho E | c s1 Hc E | cpu ucode ok k c s1 b Hc E | cpu ok k c s1 b Hc E | cpu s1 b Ho E | |].
  - destruct (record_inv _ _ _ _ I Ho E) as (I1 & _). split; [done | congruence].
  - unfold bsp_ready in E. destruct (records (topo s) !! 0%nat) as [r |] eqn:Er; [| done]. cbn in E. destruct (bool_decide_reflect (reason r = Empty)) as [He | He]; [| done]. injection E as <-.
    split; [| done]. destruct (ti_first _ (si_topo _ I) r Er) as [[_ ->] | Hx]; [| congruence]. destruct I. constructor; try done; [by apply bsp_inv |].
    intros i r Hi. unfold bsp, set_field. cbn [topo records admitted]. rewrite list_lookup_insert_ne by lia. by apply si_agree0.
  - destruct (ap_entry_inv _ _ _ _ _ _ _ _ I Hc E) as [I1 H]. split; [done |]. intros Hs. by rewrite H.
  - destruct (arm64_entry_inv _ _ _ _ _ _ _ I Hc E) as [I1 H]. split; [done |]. intros Hs. by rewrite H.
  - unfold admit_cpu, admit_cpu_prepared in E. rewrite Ho in E. by injection E as <- <-.
  - split; [| done]. destruct I. constructor; try done. intros c Hcc. destruct (si_common0 c Hcc). done.
  - split; [| intros Hs; by split]. set (cc := intersection (map (caps_of (freeze s).1) (List.filter (in_set (freeze s).2) (seq 0 64)))).
    change (finalize s).1 with (s <| sealed := true |> <| common := Some (default cc (common s)) |>). destruct I. constructor; try assumption.
    intros c Hcc. injection Hcc as <-. split; [reflexivity |]. destruct (common s) as [c0 |]; [| reflexivity]. exact (proj2 (si_common0 c0 eq_refl)).
Qed.
Lemma steps_inv s s' : steps s s' -> sys_inv s -> sys_inv s' /\ (sealed s = true -> admitted s' = admitted s).
Proof.
  induction 1 as [s | s s1 s' H _ IH]; intros I; [done |]. destruct (step_inv s s1 I H) as [I1 H1]. destruct (IH I1) as [I' H']. split; [done |]. intros Hs. destruct (H1 Hs) as [E1 Hs1]. by rewrite H', E1.
Qed.
(** * What all admitted processors have *)

Lemma intersection_subset l k i : k ∈ l -> Z.testbit (c_features (intersection l)) i = true -> Z.testbit (features k) i = true.
Proof.
  assert (forall rest all, Z.testbit (c_features (foldl (fun all cpu => mkCommon (Z.land (c_features all) (features cpu)) (Z.land (c_not_affected all) (not_affected cpu))) all rest)) i = true ->
    Z.testbit (c_features all) i = true /\ forall k, k ∈ rest -> Z.testbit (features k) i = true) as H.
  { induction rest as [| x rest IH]; intros all; cbn [foldl]; [intros ->; split; [done |]; intros k0 H0; by apply not_elem_of_nil in H0 |].
    intros Hb. destruct (IH _ Hb) as [H1 H2]. cbn [c_features] in H1. rewrite Z.land_spec, andb_true_iff in H1. destruct H1 as [H1 Hx]. split; [done |].
    intros k0 [-> | Hin]%elem_of_cons; [done | by apply H2]. }
  destruct l as [| first rest]; [intros Hk; by apply not_elem_of_nil in Hk |]. cbn [intersection]. intros Hk Hb. destruct (H _ _ Hb) as [H1 H2]. apply elem_of_cons in Hk as [-> | Hk]; [done | by apply H2].
Qed.
Lemma admitted_listed s cpu : sys_inv s -> in_set (admitted s) cpu = true -> cpu ∈ List.filter (in_set (admitted s)) (seq 0 64).
Proof.
  intros I Hc. apply list_elem_of_In, List.filter_In. split; [| done]. apply in_seq. destruct (Nat.ltb_spec cpu 64); [lia |]. rewrite in_set_testbit, (si_range _ I) in Hc by lia. done.
Qed.
Lemma land_subset a b : (forall i, 0 <= i -> Z.testbit b i = true -> Z.testbit a i = true) -> Z.land a b = b.
Proof. intros H. apply Z.bits_inj'. intros i Hi. rewrite Z.land_spec. destruct (Z.testbit b i) eqn:E; [by rewrite H | apply andb_false_r]. Qed.


(** A machine with two cores of two threads: the second thread of the first core is parked. *)
Definition demo_core (id : Z) : Core := default (unknown 0) (x86 id 1 4 2 IntelB).
Definition demo_caps (f : Z) : SpecCaps := mkCaps 0 (replicate 12 0) f 0 (replicate 16 0).
Definition result {A} (d : A) (o : P A) : A := match o with Ok a => a | _ => d end.
Definition demo0 : Sys := result boot (topology_init [] automatic boot).
Definition demo1 : Sys := result boot (record 0 (demo_caps (Z.lor IBRS STIBP)) demo0).
Definition demo2 : Sys := result boot (bsp_ready (demo_core 0) demo1).
Definition demo3 : Sys := (result (boot, true) (ap_entry 1 true true (demo_caps IBRS) (demo_core 1) demo2)).1.
Definition demo4 : Sys := (result (boot, true) (ap_entry 2 true true (demo_caps IBRS) (demo_core 2) demo3)).1.
Definition demo5 : Sys := (finalize demo4).1.
Lemma demo_core_sound id : 0 <= id < 2 ^ 32 -> sound_core (demo_core id).
Proof. intros H. unfold demo_core. destruct (x86 id 1 4 2 IntelB) as [c |] eqn:E; [exact (x86_sound id 1 4 2 IntelB c H ltac:(lia) E) | intros Hk; discriminate Hk]. Qed.
Lemma demo_steps : steps demo0 demo5.
Proof.
  apply (rtc_l _ _ demo1); [apply (step_record demo0 (demo_caps (Z.lor IBRS STIBP))); vm_compute; reflexivity |].
  apply (rtc_l _ _ demo2); [apply (step_bsp demo1 (demo_core 0)); [apply demo_core_sound; lia | vm_compute; reflexivity] |].
  apply (rtc_l _ _ demo3); [apply (step_amd64 demo2 1 true true (demo_caps IBRS) (demo_core 1) demo3 false); [apply demo_core_sound; lia | vm_compute; reflexivity] |].
  apply (rtc_l _ _ demo4); [apply (step_amd64 demo3 2 true true (demo_caps IBRS) (demo_core 2) demo4 true); [apply demo_core_sound; lia | vm_compute; reflexivity] |].
  apply (rtc_l _ _ demo5); [exact (step_finalize demo4) | apply rtc_refl].
Qed.
End Admission.
