(* ===== verification/Heap.v ===== *)
(** The kernel heap as the kernel uses it (src/memory/heap.rs with the amd64 backing of
    src/arch/amd64/memory.rs and src/arch/amd64/page_table.rs): slabs over a virtual range
    that grows by mapping zeroed frames.  The kernel's page tables are maps keyed by the
    address bits that select an entry; the contents of a frame become heap memory when the
    frame is mapped. *)

From Stdlib Require Import ZArith Lia.
From stdpp Require Import base list list_numbers numbers decidable tactics strings gmap.
From S2P Require Import Prelude Records FrameAllocator Slab UserSpace.

Module Heap.
Import Frames(FrameAllocator, FRAME_SIZE, allocate_zeroed_frame, free_count).
Abbreviation P := (outcome string).

(** * The backing memory *)

(** [links !! (s, va >> s)] is the table an entry points to, [leaves !! (va >> 12)] the frame
    of a page; [mem] is the memory of the mapped pages. *)
Record Backing := mkBacking { fa : FrameAllocator; phys : word_mem; links : gmap (Z * Z) Z; leaves : gmap Z Z; mem : word_mem }.
#[export] Instance Backing_eta : Eta Backing := fun b => mkBacking (fa b) (phys b) (links b) (leaves b) (mem b).

(** [BumpFrameAllocator::allocate_frame]. *)
Definition allocate_frame (b : Backing) : option (Z * Backing) :=
  match allocate_zeroed_frame (fa b) (phys b) with
  | (Some pa, fa', m') => Some (pa, b <| fa := fa' |> <| phys := m' |>)
  | (None, _, _) => None
  end.
(** One level of the walk of [map_page]: the table below, made when there is none. *)
Definition ensure (shift va : Z) (error : string) (b : Backing) : P Backing :=
  match links b !! (shift, Z.shiftr va shift) with
  | Some _ => Ok b
  | None => '(frame, b) ← ok_or (allocate_frame b) error; Ok (b <| links := <[(shift, Z.shiftr va shift) := frame]> (links b) |>)
  end.
Definition map_page (va pa : Z) (b : Backing) : P Backing :=
  b ← ensure 39 va "OOM: PDP table" b;
  b ← ensure 30 va "OOM: PD table" b;
  b ← ensure 21 va "OOM: PT table" b;
  let page := Z.shiftr va 12 in
  match leaves b !! page with
  | Some _ => Err "Page already mapped"%string
  | None => Ok (b <| leaves := <[page := pa]> (leaves b) |> <| mem := fun a => if Z.shiftr a 12 =? page then phys b (pa + Z.land a 0xfff) else mem b a |>)
  end.
Definition expect {A} (o : P A) : P A := match o with Ok a => Ok a | _ => Panic end.
Fixpoint map_loop (n : nat) (va : Z) (b : Backing) : P Backing :=
  match n with
  | O => Ok b
  | S n' =>
      '(pa, b) ← unwrap (allocate_frame b);
      b ← expect (map_page va pa b);
      map_loop n' (va + FRAME_SIZE) b
  end.
Definition map_heap_pages (virt_start size : Z) (b : Backing) : P Backing :=
  map_loop (Z.to_nat ((size + FRAME_SIZE - 1) / FRAME_SIZE)) virt_start b.

Definition INITIAL_HEAP_SIZE : Z := 4 * 1024 * 1024.
Definition HEAP_GROW_CHUNK : Z := 512 * FRAME_SIZE.
Definition heap_limit : Z := Kaslr.AMD_HEAP_BASE + Z.shiftl 4 40.
Definition root_table (b : Backing) (slot : Z) : P Backing :=
  let va := Kaslr.AMD_HEAP_BASE + Z.shiftl slot 39 in
  _ ← assert_that (bool_decide (links b !! (39, Z.shiftr va 39) = None));
  '(frame, b) ← unwrap (allocate_frame b);
  Ok (b <| links := <[(39, Z.shiftr va 39) := frame]> (links b) |>).
Fixpoint root_tables (slots : list Z) (b : Backing) : P Backing :=
  match slots with [] => Ok b | slot :: slots' => b ← root_table b slot; root_tables slots' b end.
(** [word] is the random word that places the heap. *)
Definition heap_init (word : Z) (b : Backing) : P (Z * Z * Backing) :=
  b ← root_tables (seqZ 0 8) b;
  let start := Kaslr.amd_heap word in
  b ← map_heap_pages start INITIAL_HEAP_SIZE b;
  Ok (start, start + INITIAL_HEAP_SIZE, b).
Definition heap_extend (end_ needed : Z) (b : Backing) : P (option (Z * Backing)) :=
  let grow := (needed + HEAP_GROW_CHUNK - 1) / HEAP_GROW_CHUNK * HEAP_GROW_CHUNK in
  match checked_add 64 end_ grow with
  | None => Ok None
  | Some e =>
      if heap_limit <? e then Ok None
      else
        match Slab.backing_frames end_ grow with
        | None => Ok None
        | Some frames => if free_count (fa b) <? frames then Ok None else b ← map_heap_pages end_ grow b; Ok (Some (grow, b))
        end
  end.

(** * The allocator *)

Record Kernel := mkKernel { ready : bool; slabs : Slab.Slabs; next : Z; end_ : Z; grown_frames : Z; backing : Backing }.
#[export] Instance Kernel_eta : Eta Kernel := fun k => mkKernel (ready k) (slabs k) (next k) (end_ k) (grown_frames k) (backing k).
Definition new (b : Backing) : Kernel := mkKernel false Slab.new 0 0 0 b.
Definition initialize (word secret : Z) (k : Kernel) : P Kernel :=
  '(start, e, b) ← heap_init word (backing k);
  match Slab.seed (slabs k) secret with
  | Ok s => Ok (mkKernel true s start e (grown_frames k) b)
  | _ => Panic
  end.
Definition set_slabs (k : Kernel) (s : Slab.Slabs) (m : word_mem) : Kernel :=
  k <| slabs := s |> <| backing := (backing k) <| mem := m |> |>.
(** Room up to [e]: [None] when the backing cannot grow. *)
Definition grow_to (e : Z) (k : Kernel) : P (option Kernel) :=
  if end_ k <? e then
    o ← heap_extend (end_ k) (e - end_ k) (backing k);
    match o with
    | None => Ok None
    | Some (grown, b) => Ok (Some (k <| end_ := end_ k + grown |> <| grown_frames := grown_frames k + grown / 4096 |> <| backing := b |>))
    end
  else Ok (Some k).
(** The address and end of the next slab for a request. *)
Definition place (k : Kernel) (req : Slab.Request) : option (Z * Z) :=
  v ← checked_add 64 (next k) (Slab.r_align req - 1);
  let base := Z.land v (unot 64 (Slab.r_align req - 1)) in
  e ← checked_add 64 base (Slab.r_span req);
  if e <=? heap_limit then Some (base, e) else None.
(** [allocate_domain]; 0 is the null pointer, [random] the draws of [Slab.add], and
    [integrity_failure] a panic. *)
Definition allocate_domain (l : Slab.layout) (domain : Z) (random : nat -> Z) (k : Kernel) : P (Z * Kernel) :=
  if negb (ready k) then Ok (0, k)
  else
    match Slab.allocate (slabs k) (mem (backing k)) l domain with
    | Ok (Some p, s, m) => Ok (p, set_slabs k s m)
    | Ok (None, s, m) =>
        let k := set_slabs k s m in
        if negb (Slab.has_metadata (slabs k)) then Ok (0, k)
        else
          match Slab.request l domain with
          | Ok req =>
              match place k req with
              | None => Ok (0, k)
              | Some (base, e) =>
                  o ← grow_to e k;
                  match o with
                  | None => Ok (0, k)
                  | Some k =>
                      let k := k <| next := e |> in
                      match Slab.add (slabs k) (mem (backing k)) base req random with
                      | Ok (s, m) =>
                          let k := set_slabs k s m in
                          match Slab.allocate (slabs k) (mem (backing k)) l domain with
                          | Ok (Some p, s, m) => Ok (p, set_slabs k s m)
                          | _ => Panic
                          end
                      | _ => Panic
                      end
                  end
              end
          | _ => Panic
          end
    | Err Slab.Layout => Ok (0, k)
    | _ => Panic
    end.
Definition deallocate_domain (p : Z) (l : Slab.layout) (domain : Z) (k : Kernel) : P Kernel :=
  match Slab.deallocate (slabs k) (mem (backing k)) p l domain with
  | Ok (s, m) => Ok (set_slabs k s m)
  | _ => Panic
  end.
Definition stats (k : Kernel) : Z * Z * Z := (Slab.live_bytes (slabs k), Slab.reserved_bytes (slabs k), Slab.allocations (slabs k)).
End Heap.
