(* ===== verification/HeapFacts.v ===== *)
(** The kernel heap end to end: growth never runs out of frames after its check, memory above
    the slabs is zero and mapped up to the end of the heap, and the allocator never meets a
    damaged state. *)

From Stdlib Require Import ZArith Lia.
From stdpp Require Import base list list_numbers numbers decidable tactics strings gmap relations.
From S2P Require Import Prelude Records FrameAllocator Slab UserSpace Heap.
Import Heap.

Module HeapFacts.

(** * Frames for data and tables *)

Definition wf (b : Backing) : Prop := Frames.wf (fa b) (phys b).
Definition frames (b : Backing) : Z := Frames.free_frames (fa b).
(** Frame [pa] is in use and holds zeros. *)
Definition owned (b : Backing) (pa : Z) : Prop :=
  exists i, pa = i * 4096 /\ 0 <= i /\ Frames.is_free (fa b) i = false /\ Frames.frame_zero (phys b) i.

Lemma allocate_frame_cases b : wf b ->
  match allocate_frame b with
  | Some (pa, b') => wf b' /\ frames b' = frames b - 1 /\ owned b' pa /\ (forall q, owned b q -> owned b' q)
      /\ links b' = links b /\ leaves b' = leaves b /\ mem b' = mem b
  | None => frames b <= 0
  end.
Proof.
  intros W. unfold allocate_frame. pose proof (Frames.allocate_zeroed_frame_inv (fa b) (phys b)) as H.
  destruct (Frames.allocate_zeroed_frame (fa b) (phys b)) as [[[pa |] fa'] m'] eqn:E; destruct (H _ _ _ W eq_refl) as [W' Hc]; clear H.
  - destruct Hc as (i & -> & Hi & Hf & Hz & Hfree & Hm & Hn & _). split; [done |]. split; [done |]. split.
    + exists i. split; [done |]. split; [lia |]. split; [| done]. cbn. rewrite Hfree, Z.eqb_refl by lia. apply andb_false_r.
    + split; [| done]. intros q (j & -> & Hj & Hfj & Hzj). exists j. split; [done |]. split; [lia |]. cbn. rewrite Hfree, Hfj by lia. split; [done |].
      intros n Hn'. rewrite Hm; [by apply Hzj |]. intros Hin. assert (i = j) as -> by (unfold Frames.in_frame, Frames.FRAME_SIZE in *; lia). congruence.
  - destruct Hc as (-> & -> & Hno). unfold frames. rewrite (Frames.wf_free _ _ W), (proj2 (count_range_zero _ _ (proj1 (Frames.wf_total _ _ W)))); [done |]. exact Hno.
Qed.

(** Whether the walk for [va] makes a new table at level [shift]. *)
Definition absent (b : Backing) (shift va : Z) : Z := match links b !! (shift, Z.shiftr va shift) with Some _ => 0 | None => 1 end.
Lemma absent_range b shift va : 0 <= absent b shift va <= 1.
Proof. unfold absent. destruct (links b !! _); lia. Qed.
Lemma ensure_cases b shift va error : wf b ->
  match ensure shift va error b with
  | Ok b' => wf b' /\ frames b' = frames b - absent b shift va /\ (forall q, owned b q -> owned b' q) /\ leaves b' = leaves b /\ mem b' = mem b
      /\ absent b' shift va = 0 /\ forall s va', s <> shift -> absent b' s va' = absent b s va'
  | Err _ => frames b < absent b shift va
  | Panic => False
  end.
Proof.
  intros W. unfold ensure, absent. destruct (links b !! (shift, Z.shiftr va shift)) as [t |] eqn:E; [rewrite E, Z.sub_0_r; tauto |].
  pose proof (allocate_frame_cases b W) as H. destruct (allocate_frame b) as [[pa b'] |]; cbn [ok_or mbind outcome_bind]; [| lia].
  destruct H as (W' & Hn & _ & Hq & Hl & Hv & Hm). cbn. split; [exact W' |]. split; [exact Hn |]. split; [exact Hq |]. split; [exact Hv |]. split; [exact Hm |]. split; [by rewrite lookup_insert_eq |]. intros s va' Hs. rewrite lookup_insert_ne, Hl by congruence. done.
Qed.
Definition new_tables (b : Backing) (va : Z) : Z := absent b 39 va + absent b 30 va + absent b 21 va.
Lemma map_page_cases b va pa : wf b -> owned b pa -> leaves b !! Z.shiftr va 12 = None ->
  match map_page va pa b with
  | Ok b' => wf b' /\ frames b' = frames b - new_tables b va /\ leaves b' = <[Z.shiftr va 12 := pa]> (leaves b)
      /\ (forall s, s ∈ [39; 30; 21] -> absent b' s va = 0)
      /\ (forall a, Z.shiftr a 12 = Z.shiftr va 12 -> a mod 8 = 0 -> mem b' a = 0) /\ (forall a, Z.shiftr a 12 <> Z.shiftr va 12 -> mem b' a = mem b a)
  | Err _ => frames b < new_tables b va
  | Panic => False
  end.
Proof.
  intros W Ho Hv. unfold map_page, new_tables.
  pose proof (absent_range b 39 va) as R1. pose proof (absent_range b 30 va) as R2. pose proof (absent_range b 21 va) as R3.
  pose proof (ensure_cases b 39 va "OOM: PDP table" W) as H1. destruct (ensure 39 va _ b) as [b1 | e |]; cbn [mbind outcome_bind]; [| lia | done]. destruct H1 as (W1 & N1 & O1 & V1 & M1 & A1 & K1).
  pose proof (ensure_cases b1 30 va "OOM: PD table" W1) as H2. rewrite (K1 30) in H2 by done. destruct (ensure 30 va _ b1) as [b2 | e |]; cbn [mbind outcome_bind]; [| lia | done]. destruct H2 as (W2 & N2 & O2 & V2 & M2 & A2 & K2).
  pose proof (ensure_cases b2 21 va "OOM: PT table" W2) as H3. rewrite (K2 21), (K1 21) in H3 by done. destruct (ensure 21 va _ b2) as [b3 | e |]; cbn [mbind outcome_bind]; [| lia | done]. destruct H3 as (W3 & N3 & O3 & V3 & M3 & A3 & K3).
  rewrite V3, V2, V1, Hv. cbv zeta. split; [done |]. split; [change (frames b3 = frames b - (absent b 39 va + absent b 30 va + absent b 21 va)); lia |].
  split; [cbn; congruence |]. split.
  { intros s Hs. repeat (apply elem_of_cons in Hs as [-> | Hs]); [| | done | by apply not_elem_of_nil in Hs]; unfold absent; cbn; fold (absent b3 39 va); fold (absent b3 30 va).
    - by rewrite K3, K2.
    - by rewrite K3. }
  destruct (O3 pa (O2 pa (O1 pa Ho))) as (i & -> & Hi & _ & Hz). cbn. split; intros a Ha.
  - intros Ha8. rewrite Ha, Z.eqb_refl. change 0xfff with (2 ^ 12 - 1). rewrite land_low by lia. replace (i * 4096 + a mod 2 ^ 12) with (i * 4096 + 8 * (a mod 2 ^ 12 / 8)) by zdiv. apply Hz. zdiv.
  - rewrite (proj2 (Z.eqb_neq _ _)) by done. by rewrite M3, M2, M1.
Qed.

(** Frames the mapping of [va..e) takes at most. *)
Definition tables_for (b : Backing) (va e shift : Z) : Z := Z.shiftr (e - 1) shift - Z.shiftr va shift + absent b shift va.
Definition frames_for (b : Backing) (va e : Z) : Z := (e - va) / 4096 + (tables_for b va e 39 + tables_for b va e 30 + tables_for b va e 21).
Definition mapped (b : Backing) (a : Z) : Prop := is_Some (leaves b !! Z.shiftr a 12).

Lemma tables_for_step b b' va e shift : 12 <= shift -> va mod 4096 = 0 -> absent b' shift va = 0 ->
  tables_for b' (va + 4096) e shift + absent b shift va <= tables_for b va e shift.
Proof.
  intros Hs Hva Ha. unfold tables_for. assert (Z.shiftr (va + 4096) shift = Z.shiftr va shift \/ Z.shiftr (va + 4096) shift = Z.shiftr va shift + 1) as Hc.
  { rewrite !Z.shiftr_div_pow2 by lia. assert (4096 <= 2 ^ shift) by (change 4096 with (2 ^ 12); apply Z.pow_le_mono_r; lia).
    pose proof (Z.div_mod va (2 ^ shift) ltac:(lia)). pose proof (Z.mod_pos_bound va (2 ^ shift) ltac:(lia)). pose proof (Z.div_mod (va + 4096) (2 ^ shift) ltac:(lia)). pose proof (Z.mod_pos_bound (va + 4096) (2 ^ shift) ltac:(lia)). nia. }
  pose proof (absent_range b' shift (va + 4096)). destruct Hc as [Hc | Hc]; [| lia]. enough (absent b' shift (va + 4096) = 0) by lia. unfold absent in *. by rewrite Hc.
Qed.

(** What mapping [n] pages from [va] on leaves: the pages mapped, their memory zero. *)
Record extended (b b' : Backing) (va e : Z) : Prop := {
  ex_wf : wf b';
  ex_mapped : forall a, mapped b' a <-> mapped b a \/ va <= a < e;
  ex_zero : forall a, va <= a < e -> a mod 8 = 0 -> mem b' a = 0;
  ex_other : forall a, ~ va <= a < e -> mem b' a = mem b a }.
Lemma page_of va a : va mod 4096 = 0 -> Z.shiftr a 12 = Z.shiftr va 12 <-> va <= a < va + 4096.
Proof. intros Hva. rewrite !Z.shiftr_div_pow2 by lia. change (2 ^ 12) with 4096. zdiv. Qed.
Lemma map_loop_cases n : forall va b, va mod 4096 = 0 -> wf b -> (forall a, va <= a < va + 4096 * Z.of_nat n -> ~ mapped b a) ->
  match map_loop n va b with
  | Ok b' => extended b b' va (va + 4096 * Z.of_nat n)
  | Err _ => False
  | Panic => frames b < frames_for b va (va + 4096 * Z.of_nat n)
  end.
Proof.
  induction n as [| n IH]; intros va b Hva W Hun; cbn [map_loop].
  - split; [done | intros a; split; [tauto | intros [? | ?]; [done | lia]] | lia | done].
  - set (e := va + 4096 * Z.of_nat (S n)) in *. assert (Z.shiftr va 39 <= Z.shiftr (e - 1) 39 /\ Z.shiftr va 30 <= Z.shiftr (e - 1) 30 /\ Z.shiftr va 21 <= Z.shiftr (e - 1) 21) as Hsh.
    { rewrite !Z.shiftr_div_pow2 by lia. split_and!; apply Z.div_le_mono; lia. }
    assert ((e - va) / 4096 = Z.of_nat (S n)) as Hd by (unfold e; replace (va + 4096 * Z.of_nat (S n) - va) with (Z.of_nat (S n) * 4096) by lia; apply Z.div_mul; lia).
    pose proof (absent_range b 39 va). pose proof (absent_range b 30 va). pose proof (absent_range b 21 va).
    pose proof (allocate_frame_cases b W) as Hf. destruct (allocate_frame b) as [[pa b1] |]; cbn [unwrap mbind outcome_bind].
    2: { unfold frames_for, tables_for. rewrite Hd. lia. }
    destruct Hf as (W1 & N1 & O1 & _ & L1 & V1 & M1). assert (forall s a, absent b1 s a = absent b s a) as Ha1 by (intros; unfold absent; by rewrite L1).
    assert (leaves b1 !! Z.shiftr va 12 = None) as Hv by (rewrite V1; apply eq_None_not_Some, (Hun va); lia).
    pose proof (map_page_cases b1 va pa W1 O1 Hv) as Hp. unfold expect. destruct (map_page va pa b1) as [b2 | err |]; cbn [mbind outcome_bind]; [| | done].
    2: { unfold new_tables in Hp. rewrite !Ha1 in Hp. unfold frames_for, tables_for. rewrite Hd. lia. }
    destruct Hp as (W2 & N2 & V2 & A2 & Z2 & M2). unfold new_tables in N2. rewrite !Ha1 in N2.
    assert (forall a, mapped b2 a <-> mapped b a \/ va <= a < va + 4096) as Hmap.
    { intros a. unfold mapped. rewrite V2, V1, <- (page_of va a Hva). destruct (decide (Z.shiftr va 12 = Z.shiftr a 12)) as [E | E]; [rewrite <- E, lookup_insert_eq; split; eauto | rewrite lookup_insert_ne by done; split; [tauto | intros [? | ?]; [done | congruence]]]. }
    specialize (IH (va + Frames.FRAME_SIZE) b2 ltac:(unfold Frames.FRAME_SIZE; zdiv) W2). unfold Frames.FRAME_SIZE in *. replace (va + 4096 + 4096 * Z.of_nat n) with e in IH by lia.
    specialize (IH ltac:(intros a Ha [Hm | Hm]%Hmap; [by apply (Hun a); [lia |] | lia])).
    destruct (map_loop n (va + 4096) b2) as [b' | err |]; [| done |].
    + destruct IH as [W' Hm' Hz' Ho']. split; [done | | |].
      * intros a. rewrite Hm', Hmap. assert (va + 4096 <= e) by lia. split; [intros [[? | ?] | ?]; [by left | right; lia | right; lia] | intros [? | ?]; [tauto | destruct (Z.ltb_spec a (va + 4096)); [left; right; lia | right; lia]]].
      * intros a Ha Ha8. destruct (Z.ltb_spec a (va + 4096)); [| apply Hz'; [lia | done]]. rewrite Ho' by lia. apply Z2; [apply page_of; [done | lia] | done].
      * intros a Ha. rewrite Ho' by lia. rewrite M2, M1; [done |]. rewrite page_of by done. lia.
    + pose proof (tables_for_step b b2 va e 39 ltac:(lia) Hva (A2 39 ltac:(set_solver))). pose proof (tables_for_step b b2 va e 30 ltac:(lia) Hva (A2 30 ltac:(set_solver))). pose proof (tables_for_step b b2 va e 21 ltac:(lia) Hva (A2 21 ltac:(set_solver))).
      unfold frames_for in *. assert ((e - (va + 4096)) / 4096 = Z.of_nat n) as E by (replace (e - (va + 4096)) with (Z.of_nat n * 4096) by lia; apply Z.div_mul; lia). rewrite E in IH. lia.
Qed.

(** The check before growing counts enough frames. *)
Lemma backing_frames_value start bytes : start mod 4096 = 0 -> bytes mod 4096 = 0 -> 0 < bytes -> 0 <= start -> start + bytes < 2 ^ 64 -> let last := start + bytes - 1 in
  Slab.backing_frames start bytes = Some (bytes / 4096 + (Z.shiftr last 39 - Z.shiftr start 39 + 1) + (Z.shiftr last 30 - Z.shiftr start 30 + 1) + (Z.shiftr last 21 - Z.shiftr start 21 + 1)).
Proof.
  intros H1 H2 H3 H4 H5 last. unfold Slab.backing_frames, Slab.PAGE. rewrite H1, H2, (proj2 (Z.eqb_neq bytes 0)) by lia. cbn [negb orb Z.eqb]. unfold checked_add at 2, checked_sub.
  rewrite (proj2 (Z.ltb_lt _ _)) by lia. cbn [mbind option_bind]. rewrite (proj2 (Z.leb_le _ _)) by lia. cbn [mbind option_bind foldl]. change (start + bytes - 1) with last. unfold checked_add.
  assert (forall s, 12 <= s -> 0 <= Z.shiftr last s - Z.shiftr start s < 2 ^ 52) as Hs.
  { intros s Hs. rewrite !Z.shiftr_div_pow2 by lia. assert (start / 2 ^ s <= last / 2 ^ s) by (apply Z.div_le_mono; lia). assert (0 <= start / 2 ^ s) by (apply Z.div_pos; lia).
    assert (last / 2 ^ s <= last / 2 ^ 12) by (apply Z.div_le_compat_l; [lia | split; [lia | apply Z.pow_le_mono_r; lia]]). zdiv. }
  pose proof (Hs 39 ltac:(lia)). pose proof (Hs 30 ltac:(lia)). pose proof (Hs 21 ltac:(lia)). assert (0 <= bytes / 4096 < 2 ^ 52) by zdiv.
  do 3 (rewrite (proj2 (Z.ltb_lt _ _)) by lia; cbn [mbind option_bind]). done.
Qed.

(** * Slabs keep their places *)

Definition at_place (pg pg' : Slab.slab) : Prop := Slab.base pg' = Slab.base pg /\ Slab.span pg' = Slab.span pg.
Definition same_places (s s' : Slab.Slabs) : Prop := Slab.used s' = Slab.used s /\ forall i, at_place (Slab.pages s !!! i) (Slab.pages s' !!! i).
Lemma places_insert (l : list Slab.slab) (n : nat) pg : at_place (l !!! n) pg -> forall i, at_place (l !!! i) (<[n := pg]> l !!! (i : nat)).
Proof.
  intros H i. destruct (decide (i = n)) as [-> | Hi]; [| by rewrite list_lookup_total_insert_ne by done]. destruct (decide (n < length l)%nat).
  - by rewrite list_lookup_total_insert_eq.
  - by rewrite list_insert_ge by lia.
Qed.
Lemma allocate_places s m l domain r s' m' : Slab.allocate s m l domain = Ok (r, s', m') -> same_places s s'.
Proof.
  unfold Slab.allocate. destruct (Slab.request l domain) as [req | |]; cbn [mbind outcome_bind]; [| done | done]. generalize (Slab.lists s !!! Z.to_nat (Slab.r_cache req)), 0. generalize (S (Z.to_nat (Slab.used s))) as fuel.
  induction fuel as [| fuel IH]; intros cursor visited; cbn [Slab.alloc_loop]; [done |]. destruct (cursor =? 0); [intros [= _ <- _]; by split |]. destruct (_ || _); [done |]. destruct (negb _); [done |]. destruct (negb (Slab.free _ =? 0)).
  - intros E. repeat outcome_step. all: try discriminate. all: try (injection E as <- <- <-); split; [done |]; by apply places_insert.
  - destruct (negb (Slab.head _ =? 0)); [done |]. apply IH.
Qed.
Lemma deallocate_places s m p l domain s' m' : Slab.deallocate s m p l domain = Ok (s', m') -> same_places s s'.
Proof. unfold Slab.deallocate. intros E. repeat outcome_step. all: try discriminate. all: try (injection E as <- <-); split; [done |]; by apply places_insert. Qed.
Lemma add_places s m b req random s' m' : (Z.to_nat (Slab.used s) < length (Slab.pages s))%nat -> 0 <= Slab.used s -> Slab.add s m b req random = Ok (s', m') ->
  Slab.used s' = Slab.used s + 1 /\ forall i, (i <= Z.to_nat (Slab.used s))%nat ->
    Slab.base (Slab.pages s' !!! i) = (if decide (i = Z.to_nat (Slab.used s)) then b else Slab.base (Slab.pages s !!! i))
    /\ Slab.span (Slab.pages s' !!! i) = (if decide (i = Z.to_nat (Slab.used s)) then Slab.r_span req else Slab.span (Slab.pages s !!! i)).
Proof.
  intros Hl Hu. unfold Slab.add. cbv zeta. repeat match goal with |- (if ?x then _ else _) = _ -> _ => destruct x; [discriminate |] end. intros [= <- <-]. split; [done |]. cbn [Slab.pages]. intros i Hi.
  destruct (decide (i = Z.to_nat (Slab.used s))) as [-> | Hne]; [by rewrite list_lookup_total_insert_eq | by rewrite list_lookup_total_insert_ne].
Qed.
End HeapFacts.
