(* ===== verification/HeapSound.v ===== *)
(** The kernel heap: invariant of every reachable state and the end-to-end theorem. *)

From Stdlib Require Import ZArith Lia.
From stdpp Require Import base list list_numbers numbers decidable tactics strings gmap relations.
From S2P Require Import Prelude Records FrameAllocator Slab UserSpace Heap HeapFacts.
Import Heap HeapFacts.

Module HeapSound.

Abbreviation hmem k := (mem (backing k)).
Record heap_ok (start : Z) (k : Kernel) : Prop := {
  ho_ready : ready k = true;
  ho_wf : wf (backing k);
  ho_slabs : Slab.slabs_ok (slabs k) (hmem k);
  ho_start : Kaslr.AMD_HEAP_BASE <= start /\ start mod 2 ^ 21 = 0 /\ start + Kaslr.HEAP_VA_BUDGET <= heap_limit;
  ho_next : start <= next k <= end_ k;
  ho_end : end_ k mod 2 ^ 21 = 0 /\ end_ k <= heap_limit;
  ho_budget : next k <= start + Slab.used (slabs k) * 2 ^ 25;
  ho_places : forall i, (i < Z.to_nat (Slab.used (slabs k)))%nat ->
    start <= Slab.base (Slab.pages (slabs k) !!! i) /\ Slab.base (Slab.pages (slabs k) !!! i) + Slab.span (Slab.pages (slabs k) !!! i) <= next k;
  ho_zero : forall a, next k <= a < end_ k -> a mod 8 = 0 -> hmem k a = 0;
  ho_mapped : forall a, start <= a < heap_limit -> mapped (backing k) a <-> a < end_ k }.

Section Sound.
Context (start : Z).
Implicit Types k : Kernel.

(** An operation on the slabs that keeps the memory above them. *)
Lemma heap_ok_slabs k s m : heap_ok start k -> same_places (slabs k) s -> Slab.slabs_ok s m -> (forall a, next k <= a -> m a = hmem k a) -> heap_ok start (set_slabs k s m).
Proof.
  intros [] [Hu Hp] Hs Hm. constructor; try done.
  - cbn. rewrite Hu. done.
  - intros i Hi. cbn in Hi |- *. rewrite Hu in Hi. destruct (Hp i) as [-> ->]. by apply ho_places0.
  - intros a Ha Ha8. cbn in Ha |- *. rewrite Hm by lia. by apply ho_zero0.
Qed.
(** Objects lie inside the mapped heap, below [next]. *)
Lemma placed k s m c p st : heap_ok start k -> same_places (slabs k) s -> Slab.slabs_ok s m -> Slab.live_at s c p st -> start <= p /\ 0 < st /\ p + st <= next k /\ p mod 8 = 0.
Proof.
  intros H [Hu Hp] Hs (i & j & Hat & _). destruct (Slab.slot_at_in_slab _ _ _ _ _ _ _ Hs Hat) as ((Hi & Hr) & Hst & (_ & Hq)). destruct (Hp i) as [Eb Es]. rewrite Eb, Es in Hr, Hq.
  rewrite Hu in Hi. destruct (ho_places _ _ H i Hi). repeat (split; [lia |]). destruct Hat as (Hi' & _ & _ & -> & _). pose proof (Slab.page_geo s m Hs i Hi') as G.
  apply Slab.slot_addr_aligned; [done | lia | apply (Slab.geo_slots _ G)].
Qed.
Lemma same_places_refl s : same_places s s.
Proof. by split. Qed.
Lemma live_place k c p st : heap_ok start k -> Slab.live_at (slabs k) c p st -> start <= p /\ 0 < st /\ p + st <= next k /\ p mod 8 = 0.
Proof. intros H. eapply placed; [done | apply same_places_refl | apply H]. Qed.

(** What a successful allocation promises. *)
Definition object (l : Slab.layout) (req : Slab.Request) (k k' : Kernel) (p : Z) : Prop :=
  heap_ok start k' /\ p <> 0 /\ p mod Slab.l_align l = 0 /\ Slab.l_size l <= Slab.r_stride req
  /\ (forall c q st, Slab.live_at (slabs k') c q st <-> Slab.live_at (slabs k) c q st \/ (c = Slab.r_cache req /\ q = p /\ st = Slab.r_stride req))
  /\ (forall c q st, Slab.live_at (slabs k) c q st -> (p + Slab.r_stride req <= q \/ q + st <= p) /\ forall a, q <= a < q + st -> hmem k' a = hmem k a)
  /\ (forall a, p <= a < p + Slab.r_stride req -> mapped (backing k') a /\ (a mod 8 = 0 -> hmem k' a = 0)).
Lemma start_pos k : heap_ok start k -> 0 < start.
Proof. intros H. pose proof (ho_start _ _ H) as [Ha _]. unfold Kaslr.AMD_HEAP_BASE in Ha. lia. Qed.
Lemma allocated_object k l domain req p s m : heap_ok start k -> Slab.allocate (slabs k) (hmem k) l domain = Ok (Some p, s, m) ->
  Slab.allocated (slabs k) (hmem k) l req p s m -> object l req k (set_slabs k s m) p.
Proof.
  intros H E (A1 & A2 & A3 & A4 & A5 & A6 & A7). pose proof (allocate_places _ _ _ _ _ _ _ E) as Hp. pose proof (start_pos k H).
  assert (Slab.live_at s (Slab.r_cache req) p (Slab.r_stride req)) as Hlive by (apply A4; by right). destruct (placed k s m _ _ _ H Hp A1 Hlive) as (P1 & P2 & P3 & P4).
  assert (heap_ok start (set_slabs k s m)) as H' by (apply heap_ok_slabs; [done.. |]; intros a Ha; apply A7; lia).
  split; [done |]. split; [lia |]. split; [done |]. split; [done |]. split; [done |]. split.
  - intros c q st Hq. destruct (A5 c q st Hq); (split; [tauto |]); intros a Ha; apply A7; lia.
  - intros a Ha. pose proof (ho_next _ _ H). pose proof (ho_end _ _ H). split; [apply (ho_mapped _ _ H'); cbn; lia |].
    intros Ha8. cbn. replace a with (p + (a - p)) by lia. apply A6; [lia | zdiv].
Qed.

Lemma object_from l req k k1 k2 p : object l req k1 k2 p -> (forall c q st, Slab.live_at (slabs k1) c q st <-> Slab.live_at (slabs k) c q st) ->
  (forall c q st, Slab.live_at (slabs k) c q st -> forall a, q <= a < q + st -> hmem k1 a = hmem k a) -> object l req k k2 p.
Proof.
  intros (O1 & O2 & O3 & O4 & O5 & O6 & O7) Hl Hm. split; [done |]. split; [done |]. split; [done |]. split; [done |]. split; [intros c q st; by rewrite O5, Hl |]. split; [| done].
  intros c q st Hq. destruct (O6 c q st (proj2 (Hl c q st) Hq)) as [D E]. split; [done |]. intros a Ha. rewrite (E a Ha). by eapply Hm.
Qed.

(** A span of a size class: a power of two from a page to 16 MiB. *)
Lemma request_span l domain req : Slab.layout_valid l -> 0 <= domain -> Slab.request l domain = Ok req ->
  exists j, 12 <= j <= 24 /\ Slab.r_span req = 2 ^ j /\ Slab.r_align req = 2 ^ j.
Proof.
  intros Hl Hd Hr. pose proof (Slab.request_spec l domain Hl Hd) as H. rewrite Hr in H. destruct H as (_ & j & Hj & -> & _). cbn. unfold Slab.MIN_SHIFT, Slab.MAX_SHIFT, Slab.PAGE in *.
  destruct (Z.leb_spec j 12); [exists 12 | exists j]; (split; [lia |]).
  - assert (2 ^ j <= 2 ^ 12) by (apply Z.pow_le_mono_r; lia). change (2 ^ 12) with 4096 in *. lia.
  - assert (2 ^ 12 <= 2 ^ j) by (apply Z.pow_le_mono_r; lia). change (2 ^ 12) with 4096 in *. lia.
Qed.
Lemma place_cases k req j : heap_ok start k -> Slab.used (slabs k) < Slab.MAX_SLABS -> 12 <= j <= 24 -> Slab.r_span req = 2 ^ j -> Slab.r_align req = 2 ^ j ->
  exists base e, place k req = Some (base, e) /\ next k <= base < next k + 2 ^ j /\ base mod 2 ^ j = 0 /\ e = base + 2 ^ j /\ e <= start + (Slab.used (slabs k) + 1) * 2 ^ 25 /\ e <= heap_limit.
Proof.
  intros H Hu Hj Es Ea. pose proof (Slab.so_used _ _ (ho_slabs _ _ H)) as [Hu0 _]. destruct (ho_start _ _ H) as (S1 & S2 & S3). pose proof (ho_next _ _ H) as [N1 N2]. pose proof (ho_budget _ _ H) as B.
  assert (2 ^ 12 <= 2 ^ j <= 2 ^ 24) as Hp by (split; apply Z.pow_le_mono_r; lia). change Kaslr.HEAP_VA_BUDGET with (2 ^ 37 + 2 ^ 21) in S3. unfold Slab.MAX_SLABS in Hu. unfold Kaslr.AMD_HEAP_BASE in S1.
  assert (heap_limit < 2 ^ 64 - 2 ^ 26) as Hlim by done. unfold place. rewrite Es, Ea. unfold checked_add. rewrite (proj2 (Z.ltb_lt _ _)) by lia. cbn [mbind option_bind].
  fold (align_down (next k + (2 ^ j - 1)) (2 ^ j)). rewrite align_down_spec by lia. set (base := (next k + (2 ^ j - 1)) / 2 ^ j * 2 ^ j).
  assert (next k <= base < next k + 2 ^ j) as Hb.
  { unfold base. pose proof (Z.div_mod (next k + (2 ^ j - 1)) (2 ^ j) ltac:(lia)). pose proof (Z.mod_pos_bound (next k + (2 ^ j - 1)) (2 ^ j) ltac:(lia)). lia. }
  rewrite (proj2 (Z.ltb_lt _ _)) by lia. cbn [mbind option_bind]. rewrite (proj2 (Z.leb_le _ _)) by lia. exists base, (base + 2 ^ j). split; [done |]. split; [lia |]. split; [apply Z.mod_mul; lia |]. split; [done |]. lia.
Qed.

(** Growing: the check counts enough frames, so mapping never fails after it. *)
Definition no_frames (k : Kernel) : Prop := exists bytes n, 0 < bytes <= 2 ^ 25 + 2 ^ 21 /\ Slab.backing_frames (end_ k) bytes = Some n /\ Frames.free_count (fa (backing k)) < n.
Lemma grow_cases k e : heap_ok start k -> e <= next k + 2 ^ 25 -> e <= start + 2 ^ 37 ->
  match grow_to e k with
  | Ok (Some k') => heap_ok start k' /\ slabs k' = slabs k /\ next k' = next k /\ e <= end_ k' /\ forall a, a < end_ k -> hmem k' a = hmem k a
  | Ok None => no_frames k
  | _ => False
  end.
Proof.
  intros H He1 He2. destruct (ho_start _ _ H) as (S1 & S2 & S3). pose proof (ho_next _ _ H) as [N1 N2]. pose proof (ho_end _ _ H) as [E1 E2]. pose proof (start_pos k H).
  change Kaslr.HEAP_VA_BUDGET with (2 ^ 37 + 2 ^ 21) in S3. assert (heap_limit < 2 ^ 64 - 2 ^ 26) as Hlim by done.
  unfold grow_to. destruct (Z.ltb_spec (end_ k) e) as [Hlt | Hge]; [| by split_and!]. unfold heap_extend. change HEAP_GROW_CHUNK with (2 ^ 21). set (grow := (e - end_ k + 2 ^ 21 - 1) / 2 ^ 21 * 2 ^ 21).
  assert (e - end_ k <= grow < e - end_ k + 2 ^ 21 /\ grow mod 2 ^ 21 = 0) as [Hg Hg0] by (unfold grow; split; [zdiv | apply Z.mod_mul; lia]). clearbody grow.
  unfold checked_add. rewrite (proj2 (Z.ltb_lt _ _)) by lia. rewrite (proj2 (Z.ltb_ge _ _)) by lia. assert (end_ k mod 4096 = 0 /\ grow mod 4096 = 0) as [Ha4 Hg4] by (split; zdiv).
  rewrite backing_frames_value by lia. set (n := grow / 4096 + _ + _ + _). destruct (Z.ltb_spec (Frames.free_count (fa (backing k))) n) as [Hfew | Henough]; cbn [mbind outcome_bind].
  { exists grow, n. split; [lia |]. split; [| done]. apply backing_frames_value; lia. }
  unfold map_heap_pages. assert (4096 * Z.of_nat (Z.to_nat ((grow + Frames.FRAME_SIZE - 1) / Frames.FRAME_SIZE)) = grow) as En by (unfold Frames.FRAME_SIZE; zdiv).
  pose proof (map_loop_cases (Z.to_nat ((grow + Frames.FRAME_SIZE - 1) / Frames.FRAME_SIZE)) (end_ k) (backing k) Ha4 (ho_wf _ _ H)) as Hm. rewrite En in Hm.
  specialize (Hm ltac:(intros a Ha Hmap; apply (ho_mapped _ _ H) in Hmap; lia)). destruct (map_loop _ _ _) as [b' | err |]; cbn [mbind outcome_bind]; [| done |].
  2: { exfalso. unfold frames_for, tables_for in Hm. pose proof (absent_range (backing k) 39 (end_ k)). pose proof (absent_range (backing k) 30 (end_ k)). pose proof (absent_range (backing k) 21 (end_ k)).
       unfold n, Frames.free_count, frames in *. replace (end_ k + grow - end_ k) with grow in Hm by lia. lia. }
  destruct Hm as [W' M' Z' O']. split; [| split; [done |]; split; [done |]; split; [cbn; lia |]; intros a Ha; apply O'; lia].
  assert (Slab.slabs_ok (slabs k) (mem b')) as OK'.
  { pose proof (ho_slabs _ _ H) as OK. constructor; try apply OK. intros i Hi. destruct (Slab.so_page _ _ OK i Hi) as [fl P]. exists fl. eapply Slab.page_ok_frame; [| exact P].
    intros a Ha. apply O'. destruct (ho_places _ _ H i Hi). lia. }
  constructor; cbn; try apply H; try done.
  - lia.
  - split; [zdiv | lia].
  - intros a Ha Ha8. destruct (Z.ltb_spec a (end_ k)); [rewrite O' by lia; apply (ho_zero _ _ H); [lia | done] | apply Z'; [lia | done]].
  - intros a Ha. rewrite M', (ho_mapped _ _ H a Ha). lia.
Qed.

(** Placing a new slab. *)
Lemma add_ok k l domain req j base e random : heap_ok start k -> Slab.layout_valid l -> 0 <= domain -> Slab.request l domain = Ok req -> 12 <= j <= 24 -> Slab.r_span req = 2 ^ j ->
  Slab.used (slabs k) < Slab.MAX_SLABS -> next k <= base -> base mod 2 ^ j = 0 -> e = base + 2 ^ j -> e <= end_ k -> e <= start + (Slab.used (slabs k) + 1) * 2 ^ 25 ->
  let k1 := k <| next := e |> in
  exists s m, Slab.add (slabs k1) (hmem k1) base req random = Ok (s, m) /\ heap_ok start (set_slabs k1 s m)
    /\ (forall c p st, Slab.live_at s c p st <-> Slab.live_at (slabs k) c p st) /\ (forall a, a < next k -> m a = hmem k a)
    /\ exists p s' m', Slab.allocate s m l domain = Ok (Some p, s', m') /\ Slab.allocated s m l req p s' m'.
Proof.
  intros H Hl Hd Hr Hj Es Hu Hb Hb0 -> He Hbud k1. pose proof (ho_slabs _ _ H) as OK. pose proof (Slab.so_used _ _ OK) as [Hu0 _]. pose proof (start_pos k H). pose proof (ho_next _ _ H). pose proof (ho_end _ _ H) as [_ Hlim].
  assert (heap_limit < 2 ^ 64) as Hlim' by done. assert (2 ^ 12 <= 2 ^ j) as Hp by (apply Z.pow_le_mono_r; lia). change (2 ^ 12) with 4096 in Hp.
  assert (forall a, base <= a < base + Slab.r_span req -> a mod 8 = 0 -> hmem k a = 0) as Hz by (intros a Ha; apply (ho_zero _ _ H); lia).
  pose proof (Slab.add_spec (slabs k) (hmem k) base l domain req random OK Hl Hd Hr ltac:(lia) Hz) as Ha. change (slabs k1) with (slabs k). change (hmem k1) with (hmem k).
  destruct (Slab.add (slabs k) (hmem k) base req random) as [[s m] | [] |] eqn:Ea; try done.
  - destruct Ha as (OK' & Hlive & Hm & Hused & Hc & Hf). exists s, m. split; [done |]. split; [| split; [done |]; split].
    + destruct (add_places _ _ _ _ _ _ _ ltac:(rewrite (Slab.so_pages_len _ _ OK); lia) Hu0 Ea) as [_ Hpl]. constructor; cbn; try apply H; try done.
      * lia.
      * lia.
      * intros i Hi. rewrite Hused in Hi. destruct (Hpl i ltac:(lia)) as [-> ->]. destruct (decide (i = Z.to_nat (Slab.used (slabs k)))); [lia |]. destruct (ho_places _ _ H i ltac:(lia)). lia.
      * intros a Ha Ha8. rewrite Hm by lia. apply (ho_zero _ _ H); [lia | done].
    + intros a Ha. apply Hm. lia.
    + pose proof (Slab.slab_allocate_spec s m l domain OK' Hl Hd) as Hal. destruct (Slab.allocate s m l domain) as [[[[p |] s'] m'] | err |]; [| | by destruct Hal; congruence | done].
      * destruct Hal as (req' & Hr' & Hal). assert (req' = req) as -> by congruence. eauto.
      * destruct Hal as (_ & _ & req' & Hr' & Hfull). assert (req' = req) as -> by congruence. exfalso. apply Hf, Hfull; [lia | done].
  - exfalso. destruct Ha as [Ha1 Ha2]. destruct (ho_places _ _ H (Z.to_nat (Slab.used (slabs k) - 1)) ltac:(lia)). lia.
  - exfalso. rewrite Es in Ha. lia.
  - lia.
Qed.

(** Why an allocation gives nothing. *)
Definition refused (k : Kernel) (l : Slab.layout) (domain : Z) : Prop :=
  Slab.request l domain = Err Slab.Layout
  \/ exists req, Slab.request l domain = Ok req
     /\ (forall i, (i < Z.to_nat (Slab.used (slabs k)))%nat -> Slab.cache (Slab.pages (slabs k) !!! i) = Slab.r_cache req -> Slab.free (Slab.pages (slabs k) !!! i) = 0)
     /\ (Slab.used (slabs k) = Slab.MAX_SLABS \/ no_frames k).
Lemma set_slabs_same k : set_slabs k (slabs k) (hmem k) = k.
Proof. by destruct k as [? ? ? ? ? []]. Qed.
Lemma allocate_domain_cases k l domain random : heap_ok start k -> Slab.layout_valid l -> 0 <= domain ->
  match allocate_domain l domain random k with
  | Ok (p, k') => p = 0 /\ k' = k /\ refused k l domain \/ exists req, Slab.request l domain = Ok req /\ object l req k k' p
  | _ => False
  end.
Proof.
  intros H Hl Hd. unfold allocate_domain. rewrite (ho_ready _ _ H). cbn [negb]. pose proof (ho_slabs _ _ H) as OK. pose proof (Slab.so_used _ _ OK) as [Hu0 Hu1].
  pose proof (Slab.slab_allocate_spec _ _ l domain OK Hl Hd) as Ha. destruct (Slab.allocate (slabs k) (hmem k) l domain) as [[[[p |] s] m] | err |] eqn:Ea; [| | | done].
  - destruct Ha as (req & Hr & Ha). right. exists req. split; [done |]. by eapply allocated_object.
  - destruct Ha as (-> & -> & req & Hr & Hfull). rewrite set_slabs_same. unfold Slab.has_metadata. destruct (Z.ltb_spec (Slab.used (slabs k)) Slab.MAX_SLABS) as [Hu | Hu]; cbn [negb].
    2: { left. split; [done |]. split; [done |]. right. exists req. split; [done |]. split; [done |]. left. lia. }
    rewrite Hr. destruct (request_span l domain req Hl Hd Hr) as (j & Hj & Es & Eal). destruct (place_cases k req j H Hu Hj Es Eal) as (base & e & -> & Hb & Hb0 & He & Hbud & Hlim).
    assert (2 ^ j <= 2 ^ 24) by (apply Z.pow_le_mono_r; lia).
    pose proof (grow_cases k e H ltac:(lia) ltac:(unfold Slab.MAX_SLABS in Hu; lia)) as Hg. destruct (grow_to e k) as [[k1 |] | err |]; cbn [mbind outcome_bind]; [| | done | done].
    2: { left. split; [done |]. split; [done |]. right. exists req. split; [done |]. split; [done |]. by right. }
    destruct Hg as (H1 & G1 & G2 & G3 & G4). rewrite <- G1 in Hu, Hbud. destruct (add_ok k1 l domain req j base e random H1 Hl Hd Hr Hj Es Hu ltac:(lia) Hb0 He G3 Hbud) as (s & m & -> & H2 & Hlive & Hm & p & s' & m' & Eal' & Hal).
    set (k2 := set_slabs _ s m) in *. change (slabs k2) with s. change (hmem k2) with m. rewrite Eal'. right. exists req. split; [done |]. apply (object_from l req k k2); [by apply allocated_object with domain | |].
    + intros c q st. cbn. rewrite Hlive. by rewrite G1.
    + intros c q st Hq a Hqa. destruct (live_place k c q st H Hq) as (_ & _ & Hq' & _). pose proof (ho_next _ _ H). cbn. rewrite Hm by lia. apply G4. lia.
  - destruct Ha as [-> Hr]. left. split; [done |]. split; [done |]. by left.
Qed.

(** Freeing a live object with the layout it was allocated with. *)
Definition freed (k k' : Kernel) (p : Z) : Prop :=
  heap_ok start k' /\ (forall c q st, Slab.live_at (slabs k') c q st <-> Slab.live_at (slabs k) c q st /\ q <> p)
  /\ (forall c q st, Slab.live_at (slabs k') c q st -> forall a, q <= a < q + st -> hmem k' a = hmem k a).
Lemma deallocate_domain_ok k p l domain req : heap_ok start k -> Slab.layout_valid l -> 0 <= domain -> Slab.request l domain = Ok req -> Slab.live_at (slabs k) (Slab.r_cache req) p (Slab.r_stride req) ->
  exists k', deallocate_domain p l domain k = Ok k' /\ freed k k' p.
Proof.
  intros H Hl Hd Hr Hlive. pose proof (ho_slabs _ _ H) as OK. unfold deallocate_domain. pose proof (Slab.deallocate_spec (slabs k) (hmem k) p l domain OK Hl Hd) as Hc. rewrite Hr in Hc.
  destruct (live_place k _ _ _ H Hlive) as (P1 & P2 & P3 & P4). destruct (Slab.deallocate (slabs k) (hmem k) p l domain) as [[s m] | err |] eqn:E; [| | done].
  - destruct Hc as (A1 & _ & A2 & _ & A3). exists (set_slabs k s m). split; [done |]. split; [| split; [done |]].
    + apply heap_ok_slabs; [done | by eapply deallocate_places | done |]. intros a Ha. apply A3. lia.
    + intros c q st Hq a Ha. cbn in *. apply A3. apply A2 in Hq as [Hq Hne]. destruct Hlive as (i & j & S1 & _), Hq as (i' & j' & S2 & _).
      destruct (Slab.slots_disjoint _ _ _ _ _ _ _ _ _ _ _ _ OK S1 S2) as [(<- & <- & ->) | Hdis]; [done | lia].
  - exfalso. destruct Hlive as (i & j & S1 & L1). destruct (Slab.slot_at_in_slab _ _ _ _ _ _ _ OK S1) as (I1 & _). destruct err; cbn in Hc; try done.
    + destruct Hc as (i' & j' & c & st & S2 & Hne). destruct (Slab.slots_disjoint _ _ _ _ _ _ _ _ _ _ _ _ OK S1 S2) as [(<- & <- & _) | Hdis]; [| destruct (Slab.slot_at_in_slab _ _ _ _ _ _ _ OK S2); lia].
      destruct S1 as (_ & _ & E1 & _), S2 as (_ & _ & E2 & _). congruence.
    + by apply (Hc i).
    + destruct Hc as [_ Hc]. by apply (Hc i j (Slab.r_cache req) (Slab.r_stride req)).
    + destruct Hc as [_ Hc]. apply (Hc (Slab.r_cache req) (Slab.r_stride req)). by exists i, j.
Qed.

(** * Runs: allocations, releases, stores by clients, and other users of frames *)

Inductive step (k : Kernel) : Kernel -> Prop :=
| step_alloc l domain random p k' : Slab.layout_valid l -> 0 <= domain -> allocate_domain l domain random k = Ok (p, k') -> step k k'
| step_free p l domain req k' : Slab.layout_valid l -> 0 <= domain -> Slab.request l domain = Ok req -> Slab.live_at (slabs k) (Slab.r_cache req) p (Slab.r_stride req) ->
    deallocate_domain p l domain k = Ok k' -> step k k'
| step_client c p st a v : Slab.live_at (slabs k) c p st -> p <= a < p + st -> step k (set_slabs k (slabs k) (write_word (hmem k) a v))
| step_frames fa' m' : Frames.step (fa (backing k), phys (backing k)) (fa', m') -> step k (k <| backing := (backing k) <| fa := fa' |> <| phys := m' |> |>).
Lemma heap_step_ok k k' : heap_ok start k -> step k k' -> heap_ok start k'.
Proof.
  intros H [l domain random p k2 Hl Hd E | p l domain req k2 Hl Hd Hr Hlive E | c p st a v Hlive Ha | fa' m' Hs].
  - pose proof (allocate_domain_cases k l domain random H Hl Hd) as Hc. rewrite E in Hc. destruct Hc as [(_ & -> & _) | (req & _ & Ho)]; [done | apply Ho].
  - destruct (deallocate_domain_ok k p l domain req H Hl Hd Hr Hlive) as (k3 & E3 & Hf). assert (k2 = k3) as -> by congruence. apply Hf.
  - destruct (live_place k _ _ _ H Hlive) as (P1 & P2 & P3 & P4). apply heap_ok_slabs; [done | apply same_places_refl | by eapply Slab.slabs_ok_client; [apply H | |] |]. intros b Hb. apply write_word_ne. lia.
  - destruct H. constructor; try done. exact (Frames.wf_step (fa (backing k), phys (backing k)) (fa', m') ho_wf0 Hs).
Qed.
End Sound.

(** * Start-up *)

Lemma root_tables_cases l : forall b, wf b -> match root_tables l b with Ok b' => wf b' /\ leaves b' = leaves b /\ mem b' = mem b | Err _ => False | Panic => True end.
Proof.
  induction l as [| slot l IH]; intros b W; cbn [root_tables]; [done |]. unfold root_table. destruct (bool_decide _); cbn [assert_that mbind outcome_bind]; [| done].
  pose proof (allocate_frame_cases b W) as Hf. destruct (allocate_frame b) as [[pa b1] |]; cbn [unwrap mbind outcome_bind]; [| done]. destruct Hf as (W1 & _ & _ & _ & _ & V1 & M1).
  match goal with |- context [root_tables l ?x] => specialize (IH x W1); destruct (root_tables l x) as [b' | |] end; [| done | done].
  destruct IH as (W' & V' & M'). split; [done |]. cbn in V', M'. split; congruence.
Qed.
Definition heap_unmapped (b : Backing) : Prop := forall a, Kaslr.AMD_HEAP_BASE <= a < heap_limit -> ~ mapped b a.
Lemma initialize_ok word secret b k : wf b -> heap_unmapped b -> initialize word secret (new b) = Ok k -> heap_ok (Kaslr.amd_heap word) k.
Proof.
  intros W Hun. unfold initialize, heap_init, Kaslr.amd_heap. rewrite Z.shiftl_mul_pow2 by lia. pose proof (Z.mod_pos_bound word Kaslr.HEAP_PLACEMENTS ltac:(done)) as Hw. set (x := word mod Kaslr.HEAP_PLACEMENTS) in *. clearbody x.
  change Kaslr.HEAP_PLACEMENTS with (2 ^ 21 - 2 ^ 16) in Hw. pose proof (root_tables_cases (seqZ 0 8) b W) as Hr. cbn [backing new]. destruct (root_tables (seqZ 0 8) b) as [b1 | |]; cbn [mbind outcome_bind]; [| done | done].
  destruct Hr as (W1 & V1 & M1). set (start := Kaslr.AMD_HEAP_BASE + x * 2 ^ 21). assert (Kaslr.AMD_HEAP_BASE <= start /\ start mod 2 ^ 21 = 0 /\ start + Kaslr.HEAP_VA_BUDGET <= heap_limit) as Hst.
  { unfold start. change Kaslr.HEAP_VA_BUDGET with (2 ^ 37 + 2 ^ 21). change heap_limit with (Kaslr.AMD_HEAP_BASE + 2 ^ 42). split; [lia |]. split; [| lia]. rewrite Z.add_mod, Z.mod_mul by lia. done. }
  destruct Hst as (S1 & S2 & S3). change Kaslr.HEAP_VA_BUDGET with (2 ^ 37 + 2 ^ 21) in S3. unfold map_heap_pages. change (Z.to_nat ((INITIAL_HEAP_SIZE + Frames.FRAME_SIZE - 1) / Frames.FRAME_SIZE)) with 1024%nat.
  pose proof (map_loop_cases 1024 start b1 ltac:(zdiv) W1) as Hm. change (4096 * Z.of_nat 1024) with INITIAL_HEAP_SIZE in Hm. assert (INITIAL_HEAP_SIZE = 2 ^ 22) as EI by done. rewrite EI in *.
  specialize (Hm ltac:(intros a Ha; unfold mapped; rewrite V1; apply Hun; lia)). destruct (map_loop 1024 start b1) as [b2 | |]; cbn [mbind outcome_bind]; [| done | done]. destruct Hm as [W2 M2 Z2 O2].
  destruct (Slab.seed (slabs (new b)) secret) as [s | |] eqn:Es; [| done | done]. intros [= <-]. pose proof Es as Eu. unfold Slab.seed in Eu. cbn [slabs new] in Eu. change (Slab.used Slab.new =? 0) with true in Eu. cbn iota in Eu. injection Eu as Eu.
  assert (Slab.used s = 0) as Hu by (by rewrite <- Eu). constructor; cbn [ready backing slabs next end_]; try done.
  - by eapply Slab.slabs_ok_new.
  - lia.
  - split; [zdiv | lia].
  - rewrite Hu. lia.
  - intros i Hi. rewrite Hu in Hi. lia.
  - intros a Ha. rewrite M2. unfold mapped at 1. rewrite V1. split; [intros [Hm | Hm]; [exfalso; by apply (Hun a); [lia |] | lia] | right; lia].
Qed.

(** Start-up succeeds with enough frames. *)
Definition root_key (slot : Z) : Z * Z := (39, Z.shiftr (Kaslr.AMD_HEAP_BASE + Z.shiftl slot 39) 39).
Lemma root_tables_enough l : forall b, wf b -> NoDup (map root_key l) -> (forall slot, slot ∈ l -> links b !! root_key slot = None) -> Z.of_nat (length l) <= frames b ->
  exists b', root_tables l b = Ok b' /\ frames b' = frames b - Z.of_nat (length l).
Proof.
  induction l as [| slot l IH]; intros b W Hnd Hno Hn; cbn [root_tables length]; [exists b; split; [done | cbn; lia] |]. unfold root_table. fold (root_key slot). rewrite bool_decide_eq_true_2 by (apply Hno; left). cbn [assert_that mbind outcome_bind].
  pose proof (allocate_frame_cases b W) as Hf. destruct (allocate_frame b) as [[pa b1] |]; cbn [unwrap mbind outcome_bind]; [| cbn [length] in Hn; lia]. destruct Hf as (W1 & N1 & _ & _ & L1 & _).
  cbn [map] in Hnd. apply NoDup_cons in Hnd as [Hk Hnd]. cbn [length] in Hn.
  match goal with |- context [root_tables l ?x] => destruct (IH x W1 Hnd) as (b' & E & N') end.
  - intros slot' Hs. change (<[root_key slot := pa]> (links b1) !! root_key slot' = None). rewrite lookup_insert_ne, L1 by (intros E; apply Hk; rewrite E; by apply elem_of_map; exists slot'). apply Hno. by right.
  - change (Z.of_nat (length l) <= frames b1). lia.
  - exists b'. split; [exact E |]. rewrite N'. change (frames b1 - Z.of_nat (length l) = frames b - Z.of_nat (S (length l))). lia.
Qed.
Lemma initialize_enough word secret b : wf b -> heap_unmapped b -> links b = ∅ -> 1040 <= frames b -> exists k, initialize word secret (new b) = Ok k.
Proof.
  intros W Hun Hl Hn. unfold initialize, heap_init, Kaslr.amd_heap. rewrite Z.shiftl_mul_pow2 by lia. pose proof (Z.mod_pos_bound word Kaslr.HEAP_PLACEMENTS ltac:(done)) as Hw. set (x := word mod Kaslr.HEAP_PLACEMENTS) in *. clearbody x.
  change Kaslr.HEAP_PLACEMENTS with (2 ^ 21 - 2 ^ 16) in Hw. cbn [backing new].
  destruct (root_tables_enough (seqZ 0 8) b W) as (b1 & E1 & N1); [by apply (bool_decide_unpack _); vm_compute | by intros; rewrite Hl | change (length (seqZ 0 8)) with 8%nat; lia |].
  change (length (seqZ 0 8)) with 8%nat in N1. pose proof (root_tables_cases (seqZ 0 8) b W) as Hr. rewrite E1 in Hr |- *. cbn [mbind outcome_bind]. destruct Hr as (W1 & V1 & M1).
  set (start := Kaslr.AMD_HEAP_BASE + x * 2 ^ 21). unfold map_heap_pages. change (Z.to_nat ((INITIAL_HEAP_SIZE + Frames.FRAME_SIZE - 1) / Frames.FRAME_SIZE)) with 1024%nat.
  assert (start mod 4096 = 0) as S0 by (unfold start; change Kaslr.AMD_HEAP_BASE with (0xffffc00000000 * 4096); zdiv).
  pose proof (map_loop_cases 1024 start b1 S0 W1) as Hm. change (4096 * Z.of_nat 1024) with (2 ^ 22) in Hm.
  specialize (Hm ltac:(intros a Ha; unfold mapped; rewrite V1; apply Hun; change heap_limit with (Kaslr.AMD_HEAP_BASE + 2 ^ 42); lia)).
  destruct (map_loop 1024 start b1) as [b2 | |]; cbn [mbind outcome_bind]; [by eexists | done |]. exfalso.
  pose proof (absent_range b1 39 start). pose proof (absent_range b1 30 start). pose proof (absent_range b1 21 start). clearbody start.
  assert (Z.shiftr (start + 2 ^ 22 - 1) 39 - Z.shiftr start 39 <= 1) by (rewrite !Z.shiftr_div_pow2 by lia; zdiv). assert (Z.shiftr (start + 2 ^ 22 - 1) 30 - Z.shiftr start 30 <= 1) by (rewrite !Z.shiftr_div_pow2 by lia; zdiv).
  assert (Z.shiftr (start + 2 ^ 22 - 1) 21 - Z.shiftr start 21 <= 2) by (rewrite !Z.shiftr_div_pow2 by lia; zdiv). unfold frames_for, tables_for in Hm. replace ((start + 2 ^ 22 - start) / 4096) with 1024 in Hm by zdiv. lia.
Qed.

(** C3. The kernel heap end to end, from frames to objects.  In every state reached from
    start-up by allocations, releases of live objects, stores of clients into their objects
    and anything other users of frames do, an allocation never meets damaged slabs or a
    missing page, and growing never runs out of frames after its check.  It returns an
    object that is aligned, large enough, mapped, zero, disjoint from every live object and
    leaves their contents alone; or nothing, and then no size class serves the layout, or
    every slab of the class is full and either the slab table is full or too few frames are
    free.  Releasing a live object with its layout always succeeds, removes only it, and
    keeps the contents of the others. *)
Theorem kernel_heap_sound word secret b k0 k l domain random : wf b -> heap_unmapped b -> initialize word secret (new b) = Ok k0 -> rtc step k0 k ->
  Slab.layout_valid l -> 0 <= domain ->
  match allocate_domain l domain random k with
  | Ok (p, k') => p = 0 /\ k' = k /\ refused k l domain \/ exists req, Slab.request l domain = Ok req /\ object (Kaslr.amd_heap word) l req k k' p
  | _ => False
  end
  /\ (forall p req, Slab.request l domain = Ok req -> Slab.live_at (slabs k) (Slab.r_cache req) p (Slab.r_stride req) ->
        exists k', deallocate_domain p l domain k = Ok k' /\ freed (Kaslr.amd_heap word) k k' p).
Proof.
  intros W Hun Hi Hsteps Hl Hd. assert (heap_ok (Kaslr.amd_heap word) k) as H.
  { pose proof (initialize_ok _ _ _ _ W Hun Hi) as H0. clear Hi. induction Hsteps as [| k1 k2 k3 Hs _ IH]; [done |]. apply IH. by eapply heap_step_ok. }
  split; [by apply allocate_domain_cases |]. intros p req Hr Hlive. by apply deallocate_domain_ok with req.
Qed.

(** A machine with 8 MiB of memory and an object of 100 bytes. *)
Definition is_ok {E A} (o : outcome E A) : bool := match o with Ok _ => true | _ => false end.
Definition get {E A} (d : A) (o : outcome E A) : A := match o with Ok a => a | _ => d end.
Lemma get_ok {E A} (d : A) (o : outcome E A) : is_ok o = true -> o = Ok (get d o).
Proof. by destruct o. Qed.
Definition demo_pool : Frames.FrameAllocator :=
  Frames.mkFrameAllocator (replicate 64 0 ++ replicate (Z.to_nat Frames.BITMAP_ENTRIES - 64) (2 ^ 32 - 1)) (replicate (Z.to_nat Frames.BITMAP_ENTRIES) 0) 2048 2048 0.
Definition demo_boot : Backing := mkBacking demo_pool Frames.demo_mem ∅ ∅ (fun _ => 0).
Definition demo_layout : Slab.layout := Slab.mkLayout 100 8.
Definition demo_kernel : Kernel := get (new demo_boot) (initialize 7 42 (new demo_boot)).
Lemma demo_boot_wf : wf demo_boot.
Proof.
  assert (64 <= Frames.BITMAP_ENTRIES) as He by (by vm_compute). assert (forall i, 0 <= i < 2048 -> bit_get 32 (Frames.zeroed demo_pool) i = false) as Hz by (intros i Hi; apply bit_get_replicate_zero; lia).
  constructor; cbn [fa phys demo_boot].
  - unfold demo_pool. cbn [Frames.bitmap]. rewrite length_app, !length_replicate. lia.
  - apply length_replicate.
  - unfold Frames.BITS. cbn [Frames.total_frames demo_pool]. lia.
  - cbn. lia.
  - vm_compute. reflexivity.
  - intros i Hi _. by apply Hz.
  - intros i Hi _. rewrite Hz by done. done.
Qed.
Lemma demo_boot_unmapped : heap_unmapped demo_boot.
Proof. intros a _ [x Hx]. change (leaves demo_boot) with (∅ : gmap Z Z) in Hx. by rewrite lookup_empty in Hx. Qed.
Lemma demo_initialized : initialize 7 42 (new demo_boot) = Ok demo_kernel.
Proof.
  apply get_ok. destruct (initialize_enough 7 42 demo_boot demo_boot_wf demo_boot_unmapped eq_refl) as [k ->]; [| done]. change (1040 <= 2048). lia.
Qed.
Lemma kernel_heap_sound_witness : is_ok (allocate_domain demo_layout 1 Z.of_nat demo_kernel) = true.
Proof.
  assert (Slab.layout_valid demo_layout) as Hl by (split; [cbn; lia |]; split; [cbn; lia |]; exists 3; split; [lia | reflexivity]).
  destruct (kernel_heap_sound 7 42 demo_boot demo_kernel demo_kernel demo_layout 1 Z.of_nat demo_boot_wf demo_boot_unmapped demo_initialized (rtc_refl step demo_kernel) Hl Z.le_0_1) as [H _].
  revert H. generalize (allocate_domain demo_layout 1 Z.of_nat demo_kernel). intros [[p k'] | |] H; [reflexivity | destruct H | destruct H].
Defined.
End HeapSound.
