(* ===== verification/Syscall.v ===== *)
(** System calls and the service registry (src/syscall.rs, src/ipc/mod.rs, the message calls of
    src/scheduler/mod.rs and the user copies of src/memory/user.rs).

    A call runs on the calling task's kernel stack between scheduler operations; where the
    code yields, the call is suspended as a [Wait] and goes on with [resume] when the task
    runs again.  Every user task has an address space of its own: [umem tid] is its memory
    and [pages tid] what its page tables map. *)

From Stdlib Require Import ZArith Lia.
From stdpp Require Import base list list_numbers numbers decidable tactics strings gmap.
From S2P Require Import Prelude Records UserSpace Rqb Scheduler FatNames SecurityPlans.
Import RqbM Sched FatNames(lit).

Module Syscall.
Abbreviation P := (outcome string).

(** * Numbers and errors *)

Definition SYS_EXIT : Z := 0.
Definition SYS_LOG : Z := 1.
Definition SYS_SEND_RQB : Z := 2.
Definition SYS_RECEIVE_RQB : Z := 3.
Definition SYS_REPLY_RQB : Z := 4.
Definition SYS_GET_TID : Z := 5.
Definition SYS_SLEEP_MS : Z := 6.
Definition SYS_LOOKUP_SERVICE : Z := 7.
Definition SYS_REGISTER_SERVICE : Z := 8.
Definition SYS_YIELD : Z := 9.
Definition SYS_CLOCK_MS : Z := 10.
Definition SYS_SPEC_STORE_BYPASS : Z := 11.
Definition NR_SYSCALLS : Z := 12.
Definition EFAULT : Z := U64_MAX.
Definition ENOSYS : Z := U64_MAX - 1.
Definition EINVAL : Z := U64_MAX - 2.

(** * State *)

Record Sys := mkSys { sched : Scheduler; services : list (list Z * Z); umem : Z -> Z -> Z; console : list (list Z) }.
#[export] Instance Sys_eta : Eta Sys := fun s => mkSys (sched s) (services s) (umem s) (console s).
(** Where a suspended call goes on: the reply loop of [send_rqb], the loop of [receive_rqb],
    the loop of [sleep_ms], after a yield. *)
Inductive Wait := WaitReply (ptr : Z) | WaitRequest (ptr : Z) | WaitUntil (until : Z) | WaitTurn.
Inductive Res := Done (ret : Z) | Blocked (w : Wait) | Gone.

(** * The service registry *)

Definition SERVICE_NAME_MAX : nat := 16.
Definition register_service (name : list Z) (tid : Z) (l : list (list Z * Z)) : list (list Z * Z) * bool :=
  if bool_decide (name = []) || (SERVICE_NAME_MAX <? length name)%nat then (l, false)
  else (List.filter (fun '(n, _) => negb (bool_decide (n = name))) l ++ [(name, tid)], true).
Definition lookup_service (name : list Z) (l : list (list Z * Z)) : option Z := snd <$> List.find (fun '(n, _) => bool_decide (n = name)) l.

(** [core::str::from_utf8]: whether bytes are well-formed UTF-8. *)
Definition continuation (b : Z) : bool := (0x80 <=? b) && (b <=? 0xbf).
Definition within (lo hi b : Z) : bool := (lo <=? b) && (b <=? hi).
Fixpoint utf8_valid (l : list Z) : bool :=
  match l with
  | [] => true
  | b0 :: l1 =>
      if b0 <? 0x80 then utf8_valid l1
      else match l1 with
           | [] => false
           | b1 :: l2 =>
               if within 0xc2 0xdf b0 then continuation b1 && utf8_valid l2
               else match l2 with
                    | [] => false
                    | b2 :: l3 =>
                        if within 0xe0 0xef b0 then
                          within (if b0 =? 0xe0 then 0xa0 else 0x80) (if b0 =? 0xed then 0x9f else 0xbf) b1 && continuation b2 && utf8_valid l3
                        else match l3 with
                             | [] => false
                             | b3 :: l4 =>
                                 within 0xf0 0xf4 b0 && within (if b0 =? 0xf0 then 0x90 else 0x80) (if b0 =? 0xf4 then 0x8f else 0xbf) b1
                                 && continuation b2 && continuation b3 && utf8_valid l4
                             end
                    end
           end
  end.

Section Calls.
(** What the page tables of a task's address space map: user access and writability of the
    page at an address; the mitigation plan of the machine; the name of the privilege level. *)
Context (pages : Z -> Z -> option (bool * bool)) (plan : SecurityPlans.SsbPlan) (privilege : string).

(** * User memory *)

Definition byte_ok (tid : Z) (write : bool) (a : Z) : bool :=
  match pages tid (a / 4096 * 4096) with Some (true, w) => negb write || w | _ => false end.
(** [user_copy_bytes]: byte by byte, up to the first fault. *)
Fixpoint user_read (tid : Z) (m : Z -> Z) (a : Z) (n : nat) : option (list Z) :=
  match n with
  | O => Some []
  | S n' => if byte_ok tid false a then cons (m a) <$> user_read tid m (a + 1) n' else None
  end.
Definition put (m : Z -> Z -> Z) (tid a v : Z) : Z -> Z -> Z := fun t x => if (t =? tid) && (x =? a) then v else m t x.
Fixpoint user_write (tid : Z) (m : Z -> Z -> Z) (a : Z) (bytes : list Z) : (Z -> Z -> Z) * bool :=
  match bytes with
  | [] => (m, true)
  | b :: bytes' => if byte_ok tid true a then user_write tid (put m tid a b) (a + 1) bytes' else (m, false)
  end.
Definition copy_from_user (tid : Z) (m : Z -> Z -> Z) (src : Z) (n : nat) : option (list Z) :=
  if negb (UserBounds.bounds_ok src (Z.of_nat n) UserBounds.USER_BASE UserBounds.USER_END) then None
  else user_read tid (m tid) (UserBounds.mask_user_ptr src (Z.of_nat n) UserBounds.USER_BASE UserBounds.USER_END) n.
Definition copy_to_user (tid : Z) (m : Z -> Z -> Z) (dst : Z) (src : list Z) : (Z -> Z -> Z) * bool :=
  let n := Z.of_nat (length src) in
  if negb (UserBounds.bounds_ok dst n UserBounds.USER_BASE UserBounds.USER_END) then (m, false)
  else user_write tid m (UserBounds.mask_user_ptr dst n UserBounds.USER_BASE UserBounds.USER_END) src.
Definition read_user_rqb (tid : Z) (s : Sys) (ptr : Z) : option Rqb := rqb_decode <$> copy_from_user tid (umem s) ptr RQB_USER_SIZE.

(** * Calls *)

(** The end of [sys_send_rqb], with the reply or the refused request in [rqb]. *)
Definition finish_send (tid ptr : Z) (rqb : Rqb) (st : RqbStatus) (s : Sys) : Sys * Res :=
  let '(m, ok) := copy_to_user tid (umem s) ptr (rqb_encode rqb) in
  (s <| umem := m |>, Done (if ok then status_code st else EFAULT)).
Definition sys_send_rqb (cpu : nat) (receiver ptr : Z) (s : Sys) : P (Sys * Res) :=
  let me := current_id (sched s) cpu in
  ok ← unwrap (UserBounds.range_ok (pages me) ptr (Z.of_nat RQB_USER_SIZE) true);
  if negb ok then Ok (s, Done EFAULT)
  else
    match read_user_rqb me s ptr with
    | None => Ok (s, Done EFAULT)
    | Some rqb =>
        match post_request (sched s) cpu (receiver mod 2 ^ 32) rqb with
        | Ok (_, sc) => Ok (s <| sched := sc |>, Blocked (WaitReply ptr))
        | Err st => Ok (finish_send me ptr (set_status rqb st) st s)
        | Panic => Panic
        end
    end.
(** One round of the loop of [send_rqb] after its yield. *)
Definition resume_send (cpu : nat) (ptr : Z) (s : Sys) : P (Sys * Res) :=
  match poll_reply (sched s) cpu with
  | Ok (Some r, sc) => Ok (finish_send (current_id (sched s) cpu) ptr r (status_from (status r)) (s <| sched := sc |>))
  | Ok (None, sc) => Ok (s <| sched := sc |>, Blocked (WaitReply ptr))
  | _ => Panic
  end.
(** One round of the loop of [receive_rqb], and what [sys_receive_rqb] does with the request. *)
Definition receive (cpu : nat) (ptr : Z) (s : Sys) : P (Sys * Res) :=
  match take_request (sched s) cpu true with
  | Ok (None, sc) => Ok (s <| sched := sc |>, Blocked (WaitRequest ptr))
  | Ok (Some req, sc) =>
      let '(m, ok) := copy_to_user (current_id (sched s) cpu) (umem s) ptr (rqb_encode req) in
      let s := s <| sched := sc |> <| umem := m |> in
      if ok then Ok (s, Done 0)
      else
        match post_reply sc cpu (sender_id req) (set_status RqbM.new GeneralFailure) with
        | Ok (_, sc) => Ok (s <| sched := sc |>, Done EFAULT)
        | Err _ => Ok (s, Done EFAULT)
        | Panic => Panic
        end
  | _ => Panic
  end.
Definition sys_receive_rqb (cpu : nat) (ptr : Z) (s : Sys) : P (Sys * Res) :=
  ok ← unwrap (UserBounds.range_ok (pages (current_id (sched s) cpu)) ptr (Z.of_nat RQB_USER_SIZE) true);
  if negb ok then Ok (s, Done EFAULT) else receive cpu ptr s.
Definition sys_reply_rqb (cpu : nat) (tid ptr : Z) (s : Sys) : P (Sys * Res) :=
  match read_user_rqb (current_id (sched s) cpu) s ptr with
  | None => Ok (s, Done EFAULT)
  | Some rqb =>
      match post_reply (sched s) cpu (tid mod 2 ^ 32) rqb with
      | Ok (_, sc) => Ok (s <| sched := sc |>, Done (status_code Success))
      | Err e => Ok (s, Done (status_code e))
      | Panic => Panic
      end
  end.

(** A character of a logged line, and the line with its prefix. *)
Definition is_ascii_graphic (b : Z) : bool := within 33 126 b.
Definition shown (b : Z) : Z := if (b =? 10) || is_ascii_graphic b || (b =? 32) then b else 63.
Fixpoint digits (fuel : nat) (n : Z) : list Z :=
  match fuel with
  | O => []
  | S fuel' => if n <? 10 then [48 + n] else digits fuel' (n / 10) ++ [48 + n mod 10]
  end.
(** A line of at most 256 bytes: a character that does not fit is dropped. *)
Definition push (line : list Z) (c : Z) : list Z := if (length line <? 256)%nat then line ++ [c] else line.
Definition log_line (tid : Z) (text : list Z) : list Z :=
  let line := take 256 (lit "[USER T" ++ digits 10 tid ++ lit " " ++ lit privilege ++ lit "] ") in
  let line := foldl push line (map shown text) in
  if bool_decide (last line = Some 10) then line else push line 10.
Definition sys_log (cpu : nat) (ptr len : Z) (s : Sys) : P (Sys * Res) :=
  let me := current_id (sched s) cpu in
  if 200 <? len then Ok (s, Done EINVAL)
  else
    match copy_from_user me (umem s) ptr (Z.to_nat (array_index_nospec len 201)) with
    | None => Ok (s, Done EFAULT)
    | Some text => Ok (s <| console := console s ++ [log_line me text] |>, Done len)
    end.
Definition user_name (tid ptr len : Z) (s : Sys) : option (list Z) :=
  if (len =? 0) || (16 <? len) then None
  else bytes ← copy_from_user tid (umem s) ptr (Z.to_nat (array_index_nospec len 17)); if utf8_valid bytes then Some bytes else None.
Definition sys_lookup_service (cpu : nat) (ptr len : Z) (s : Sys) : P (Sys * Res) :=
  match user_name (current_id (sched s) cpu) ptr len s with
  | Some n => Ok (s, Done (default 0 (lookup_service n (services s))))
  | None => Ok (s, Done EFAULT)
  end.
Definition sys_register_service (cpu : nat) (ptr len : Z) (s : Sys) : P (Sys * Res) :=
  let me := current_id (sched s) cpu in
  match user_name me ptr len s with
  | Some n => let '(l, ok) := register_service n me (services s) in Ok (s <| services := l |>, Done (if ok then 0 else EINVAL))
  | None => Ok (s, Done EFAULT)
  end.
(** The test and body of the loop of [sleep_ms]. *)
Definition sleep (cpu : nat) (until : Z) (s : Sys) : P (Sys * Res) :=
  if jiffies (sched s) <? until then
    match sleep_until (sched s) cpu until with
    | Ok sc => Ok (s <| sched := sc |>, Blocked (WaitUntil until))
    | _ => Panic
    end
  else Ok (s, Done 0).
(** [write!] into a [heapless::String]: the pieces that fit, up to the first that does not. *)
Fixpoint write_pieces (capacity : nat) (line : list Z) (pieces : list (list Z)) : list Z :=
  match pieces with
  | [] => line
  | p :: pieces' => if (length line + length p <=? capacity)%nat then write_pieces capacity (line ++ p) pieces' else line
  end.
Definition exit_line (cpu : nat) (s : Sys) : list Z :=
  let name := match current (cpus (sched s) !!! cpu) with Some i => name (tasks (sched s) !!! i) | None => "?" end in
  write_pieces 96 [] [lit "[USER] T"; digits 10 (current_id (sched s) cpu); [32; 34]; lit name; [34] ++ lit " exited" ++ [10]].
Definition sys_exit (cpu : nat) (s : Sys) : P (Sys * Res) :=
  let s := s <| console := console s ++ [exit_line cpu s] |> in
  match mark_exited (sched s) cpu with Ok (_, sc) => Ok (s <| sched := sc |>, Gone) | _ => Panic end.
Definition change_bypass (requested : bool) : outcome Z unit := match SecurityPlans.change plan requested with Ok _ => Ok tt | Err e => Err e | Panic => Panic end.
Definition current_store_bypass_flag (cpu : nat) (s : Sys) : bool :=
  match current (cpus (sched s) !!! cpu) with Some i => spec_store_bypass_disable (tasks (sched s) !!! i) | None => false end.
Definition sys_spec_store_bypass (cpu : nat) (a1 : Z) (s : Sys) : P (Sys * Res) :=
  if 2 <? a1 then Ok (s, Done EINVAL)
  else
    let operation := array_index_nospec a1 3 in
    if operation =? 2 then
      Ok (s, Done (match SecurityPlans.query plan (current_store_bypass_flag cpu s) with Ok b => Z.b2z b | Err e => e | Panic => 0 end))
    else
      match set_store_bypass_disable change_bypass (sched s) cpu (operation =? 1) with
      | Ok sc => Ok (s <| sched := sc |>, Done 0)
      | Err e => Ok (s, Done e)
      | Panic => Panic
      end.

(** The tick counter is taken to stay below [2 ^ 64 / 1000]. *)
Definition dispatch (cpu : nat) (no a1 a2 : Z) (s : Sys) : P (Sys * Res) :=
  if NR_SYSCALLS <=? no then Ok (s, Done ENOSYS)
  else
    let no := array_index_nospec no NR_SYSCALLS in
    if no =? SYS_EXIT then sys_exit cpu s
    else if no =? SYS_LOG then sys_log cpu a1 a2 s
    else if no =? SYS_SEND_RQB then sys_send_rqb cpu a1 a2 s
    else if no =? SYS_RECEIVE_RQB then sys_receive_rqb cpu a1 s
    else if no =? SYS_REPLY_RQB then sys_reply_rqb cpu a1 a2 s
    else if no =? SYS_SPEC_STORE_BYPASS then sys_spec_store_bypass cpu a1 s
    else if no =? SYS_CLOCK_MS then Ok (s, Done (jiffies (sched s) * 1000 / SCHEDULER_FREQUENCY_HZ))
    else if no =? SYS_GET_TID then Ok (s, Done (current_id (sched s) cpu))
    else if no =? SYS_SLEEP_MS then sleep cpu (sleep_deadline (jiffies (sched s)) (Z.min a1 3600000)) s
    else if no =? SYS_LOOKUP_SERVICE then sys_lookup_service cpu a1 a2 s
    else if no =? SYS_REGISTER_SERVICE then sys_register_service cpu a1 a2 s
    else if no =? SYS_YIELD then Ok (s, Blocked WaitTurn)
    else Ok (s, Done ENOSYS).
(** A suspended call goes on when its task runs again. *)
Definition resume (cpu : nat) (w : Wait) (s : Sys) : P (Sys * Res) :=
  match w with
  | WaitReply ptr => resume_send cpu ptr s
  | WaitRequest ptr => receive cpu ptr s
  | WaitUntil until => sleep cpu until s
  | WaitTurn => Ok (s, Done 0)
  end.
End Calls.
End Syscall.
