(* ===== verification/SyscallFacts.v ===== *)
(** System calls: user copies, messages through user memory, and the invariant of the machine
    with calls suspended in the kernel. *)

From Stdlib Require Import ZArith Lia.
From stdpp Require Import base list list_numbers numbers decidable tactics strings gmap.
From S2P Require Import Prelude Records UserSpace Rqb Scheduler SecurityPlans Syscall.
Import RqbM Sched Syscall.

Module SyscallFacts.

(** * User memory *)

(** [n] bytes of a task's memory. *)
Definition view (m : Z -> Z -> Z) (tid a : Z) (n : nat) : list Z := map (fun i => m tid (a + i)) (seqZ 0 (Z.of_nat n)).
Lemma view_cons m tid a n : view m tid a (S n) = m tid a :: view m tid (a + 1) n.
Proof.
  unfold view. rewrite Nat2Z.inj_succ, seqZ_cons by lia. cbn [map]. rewrite Z.add_0_r. f_equal. replace (Z.pred (Z.succ (Z.of_nat n))) with (Z.of_nat n) by lia.
  rewrite map_seqZ_shift. apply map_ext. intros i. f_equal. lia.
Qed.
Lemma length_view m tid a n : length (view m tid a n) = n.
Proof. unfold view. rewrite length_map, length_seqZ. lia. Qed.
Lemma view_ext m m' tid a n : (forall x, a <= x < a + Z.of_nat n -> m' tid x = m tid x) -> view m' tid a n = view m tid a n.
Proof. intros H. apply map_ext_in. intros i Hi%list_elem_of_In%elem_of_seqZ. apply H. lia. Qed.

Section Pages.
Context (pages : Z -> Z -> option (bool * bool)).
Abbreviation byte_ok := (byte_ok pages).

Definition in_window (a : Z) : Prop := UserBounds.USER_BASE <= a < UserBounds.USER_END.
Definition buffer_ok (tid ptr : Z) (n : nat) (write : bool) : Prop :=
  (n = 0%nat \/ UserBounds.USER_BASE <= ptr /\ ptr + Z.of_nat n <= UserBounds.USER_END) /\ forall a, ptr <= a < ptr + Z.of_nat n -> byte_ok tid write a = true.
Lemma byte_ok_read tid a : byte_ok tid true a = true -> byte_ok tid false a = true.
Proof. unfold Syscall.byte_ok. by destruct (pages tid _) as [[[] w] |]. Qed.
Lemma buffer_ok_read tid ptr n : buffer_ok tid ptr n true -> buffer_ok tid ptr n false.
Proof. intros [H1 H2]. split; [done |]. intros a Ha. by apply byte_ok_read, H2. Qed.

Lemma masked ptr n : 0 <= ptr < 2 ^ 64 -> 0 <= n < 2 ^ 39 -> UserBounds.bounds_ok ptr n UserBounds.USER_BASE UserBounds.USER_END = true ->
  n = 0 \/ UserBounds.mask_user_ptr ptr n UserBounds.USER_BASE UserBounds.USER_END = ptr /\ UserBounds.USER_BASE <= ptr /\ ptr + n <= UserBounds.USER_END.
Proof.
  intros Hp Hn. rewrite mask_user_ptr_spec by (unfold UserBounds.USER_BASE, UserBounds.USER_END, UserLayout.END_, UserLayout.BASE; change (Z.shiftl 1 39) with (2 ^ 39); lia).
  unfold UserBounds.bounds_ok. destruct (Z.eqb_spec n 0); [by left |]. cbn [orb]. intros H. rewrite H. right. lia.
Qed.
Lemma range_ok_cases tid ptr n write : 0 <= ptr < 2 ^ 64 -> 0 < Z.of_nat n < 2 ^ 32 -> exists b, UserBounds.range_ok (pages tid) ptr (Z.of_nat n) write = Some b /\ (b = true <-> buffer_ok tid ptr n write).
Proof.
  intros Hp Hn. destruct (range_ok_exact (pages tid) ptr (Z.of_nat n) write Hp ltac:(lia)) as (b & E & Hb). exists b. split; [done |]. rewrite Hb. unfold buffer_ok, Syscall.byte_ok, page_accessible, UserBounds.PAGE. split.
  - intros (H1 & H2 & H3). split; [lia |]. intros a Ha. destruct (H3 a Ha) as (w & -> & Hw). destruct write; [by rewrite (Hw eq_refl) | done].
  - intros [H1 H2]. split; [lia |]. split; [lia |]. intros a Ha. specialize (H2 a Ha). destruct (pages tid (a / 4096 * 4096)) as [[[] w] |]; [| done | done]. exists w. split; [done |]. intros ->. done.
Qed.

Lemma user_read_cases tid m n : forall a, match user_read pages tid (m tid) a n with
  | Some l => l = view m tid a n /\ forall x, a <= x < a + Z.of_nat n -> byte_ok tid false x = true
  | None => exists x, a <= x < a + Z.of_nat n /\ byte_ok tid false x = false
  end.
Proof.
  induction n as [| n IH]; intros a; cbn [user_read]; [split; [done |]; lia |]. destruct (byte_ok tid false a) eqn:E; [| exists a; split; [lia | done]].
  specialize (IH (a + 1)). destruct (user_read pages tid (m tid) (a + 1) n) as [l |]; cbn [fmap option_fmap option_map].
  - destruct IH as [-> IH]. rewrite view_cons. split; [done |]. intros x Hx. destruct (decide (x = a)) as [-> |]; [done | apply IH; lia].
  - destruct IH as (x & Hx & Hf). exists x. split; [lia | done].
Qed.
Lemma copy_from_cases tid m ptr n : 0 <= ptr < 2 ^ 64 -> Z.of_nat n < 2 ^ 32 -> match copy_from_user pages tid m ptr n with
  | Some l => l = view m tid ptr n /\ buffer_ok tid ptr n false
  | None => ~ buffer_ok tid ptr n false
  end.
Proof.
  intros Hp Hn. unfold copy_from_user. destruct (UserBounds.bounds_ok ptr (Z.of_nat n) _ _) eqn:Eb; cbn [negb].
  - destruct (masked ptr (Z.of_nat n) Hp ltac:(lia) Eb) as [H0 | (-> & H1 & H2)].
    + assert (n = 0%nat) as -> by lia. cbn [user_read]. split; [done |]. split; [by left |]. lia.
    + pose proof (user_read_cases tid m n ptr) as H. destruct (user_read pages tid (m tid) ptr n) as [l |]; [destruct H as [-> H]; split; [done |]; split; [by right | done] |].
      destruct H as (x & Hx & Hf). intros [_ H]. rewrite (H x Hx) in Hf. done.
  - intros [[-> | [H1 H2]] _]; [done |]. unfold UserBounds.bounds_ok in Eb. lia.
Qed.
Lemma user_write_cases tid bytes : forall m a, let '(m', ok) := user_write pages tid m a bytes in
  (forall t x, m' t x <> m t x -> t = tid /\ a <= x < a + Z.of_nat (length bytes) /\ byte_ok tid true x = true)
  /\ (if ok then view m' tid a (length bytes) = bytes else exists x, a <= x < a + Z.of_nat (length bytes) /\ byte_ok tid true x = false).
Proof.
  induction bytes as [| b bytes IH]; intros m a; cbn [user_write length]; [split; [done | reflexivity] |]. destruct (byte_ok tid true a) eqn:E; [| split; [done |]; exists a; split; [lia | done]].
  specialize (IH (put m tid a b) (a + 1)). destruct (user_write pages tid (put m tid a b) (a + 1) bytes) as [m' ok]. destruct IH as [IH1 IH2]. split.
  - intros t x Hx. destruct (decide (t = tid /\ x = a)) as [[-> ->] | Hne]; [split; [done |]; split; [lia | done] |].
    destruct (IH1 t x) as (-> & Hr & Hb); [| split; [done |]; split; [lia | done]]. intros Heq. apply Hx. rewrite Heq. unfold put. destruct (Z.eqb_spec t tid), (Z.eqb_spec x a); cbn; try done. tauto.
  - destruct ok; [| destruct IH2 as (x & Hx & Hf); exists x; split; [lia | done]]. rewrite view_cons, IH2. f_equal. destruct (decide (m' tid a = put m tid a b tid a)) as [-> | Hne]; [unfold put; by rewrite !Z.eqb_refl |].
    destruct (IH1 tid a Hne) as (_ & Hr & _). lia.
Qed.
Lemma copy_to_cases tid m ptr bytes : 0 <= ptr < 2 ^ 64 -> Z.of_nat (length bytes) < 2 ^ 32 -> let '(m', ok) := copy_to_user pages tid m ptr bytes in
  (forall t x, m' t x <> m t x -> t = tid /\ ptr <= x < ptr + Z.of_nat (length bytes) /\ byte_ok tid true x = true /\ in_window x)
  /\ (buffer_ok tid ptr (length bytes) true -> ok = true /\ view m' tid ptr (length bytes) = bytes).
Proof.
  intros Hp Hn. unfold copy_to_user. destruct (UserBounds.bounds_ok ptr (Z.of_nat (length bytes)) _ _) eqn:Eb; cbn [negb].
  - destruct (masked ptr (Z.of_nat (length bytes)) Hp ltac:(lia) Eb) as [H0 | (-> & H1 & H2)].
    + destruct bytes; [| cbn in H0; lia]. cbn [user_write]. split; [done |]. intros _. split; reflexivity.
    + pose proof (user_write_cases tid bytes m ptr) as H. destruct (user_write pages tid m ptr bytes) as [m' ok]. destruct H as [Ha Hb]. split; [intros t x Hx; destruct (Ha t x Hx) as (-> & Hr & Hw); unfold in_window; split_and!; (done || lia) |].
      intros [_ Hok]. destruct ok; [done |]. destruct Hb as (x & Hx & Hf). rewrite (Hok x Hx) in Hf. done.
  - split; [done |]. intros [[H0 | [H1 H2]] _]; [destruct bytes; [done | discriminate H0] |]. unfold UserBounds.bounds_ok in Eb. lia.
Qed.
End Pages.
End SyscallFacts.
