(* ===== verification/SyscallSound.v ===== *)
(** System calls: no call panics, calls write only their caller's buffers, and messages pass
    through user memory unchanged. *)

From Stdlib Require Import ZArith Lia.
From stdpp Require Import base list list_numbers numbers decidable tactics strings gmap.
From S2P Require Import Prelude Records UserSpace Rqb Scheduler SecurityPlans Syscall SyscallFacts.
Import RqbM Sched Syscall SyscallFacts.

Module SyscallSound.

(** * Messages have 64 bytes of data, as their type says *)

Definition msg_ok (m : Rqb) : Prop := length (data m) = 64%nat.
Definition task_msgs (t : TaskControlBlock) : Prop := Forall msg_ok (inbox t) /\ forall r, reply t = Some r -> msg_ok r.
Definition typed (s : Scheduler) : Prop := forall i t, task_at s i t -> task_msgs t.
Lemma typed_update s i f : typed s -> (forall t, task_at s i t -> task_msgs (f t)) -> typed (update s i f).
Proof. intros H Hf j t [(-> & u & Hu & ->) | [_ Ht]]%update_lookup; [by apply Hf | by eapply H]. Qed.
Lemma length_encode r : msg_ok r -> length (rqb_encode r) = 96%nat.
Proof. intros H. rewrite rqb_encode_layout by done. rewrite !length_app, !length_to_le_bytes, H. reflexivity. Qed.
Lemma decode_ok b : length b = 96%nat -> msg_ok (rqb_decode b).
Proof. intros H. unfold msg_ok, rqb_decode, slice, OFF_DATA. cbn [data]. rewrite length_take, length_drop. lia. Qed.
Lemma route_ok m a b : msg_ok m -> msg_ok (set_route m a b).
Proof. done. Qed.
Lemma status_ok m e : msg_ok m -> msg_ok (set_status m e).
Proof. done. Qed.
Lemma deliver_msgs u m : task_msgs u -> msg_ok m -> task_msgs (deliver m u).
Proof. intros [H1 H2] Hm. unfold deliver, wake_from. assert (Forall msg_ok (inbox u ++ [m])) by (apply Forall_app; split; [done | by constructor]). by destruct (decide _). Qed.
Lemma waiting_msgs u r : task_msgs u -> task_msgs (set_waiting u r).
Proof. intros [H1 H2]. split; [exact H1 |]. by cbn. Qed.
Lemma typed_posted s me t receiver msg s' : typed s -> msg_ok msg -> posted s me t receiver msg s' -> typed s'.
Proof.
  intros H Hm (ri & r & Hr & _ & _ & _ & _ & ->). apply typed_update; [apply typed_update; [done |] |].
  - intros u Hu. apply deliver_msgs; [by eapply H | done].
  - intros u Hu. apply waiting_msgs. apply update_lookup in Hu as [(_ & v & Hv & ->) | [_ Hu]]; [apply deliver_msgs; [by eapply H | done] | by eapply H].
Qed.
Lemma typed_answered s i m : typed s -> msg_ok m -> typed (update s i (answered m)).
Proof. intros H Hm. apply typed_update; [done |]. intros u Hu. destruct (H _ _ Hu) as [H1 _]. split; [exact H1 |]. by intros r [= <-]. Qed.
Lemma typed_exited s cpu me t k s' : typed s -> runs_on s cpu me t -> mark_exited s cpu = Ok (k, s') -> typed s'.
Proof.
  intros H Hrun E. destruct (mark_exited_state s cpu me t Hrun) as [k' E']. rewrite E in E'. apply Ok_inj in E'. injection E' as _ ->.
  intros i u Hu. unfold task_at in Hu. cbn [tasks set_tasks] in Hu. change (map (abort (id t))) with (fmap (M := list) (abort (id t))) in Hu. rewrite list_lookup_fmap in Hu. apply fmap_Some in Hu as (v & Hv & ->).
  assert (task_msgs v) as [V1 V2].
  { destruct (decide (i = me)) as [-> | Hne]; [rewrite list_lookup_alter_eq in Hv; apply fmap_Some in Hv as (w & Hw & ->); destruct (H me w Hw); split; [apply Forall_nil; exact I | done] | rewrite list_lookup_alter_ne in Hv by done; by eapply H]. }
  unfold abort. destruct (blocked_on _ _); [| done]. split; [exact V1 |]. cbn. intros r [= <-]. done.
Qed.

Section Calls.
Context (pages : Z -> Z -> option (bool * bool)) (plan : SecurityPlans.SsbPlan) (privilege : string).
Abbreviation buffer tid ptr := (buffer_ok pages tid ptr 96 true).
Abbreviation dispatch := (dispatch pages plan privilege).
Abbreviation resume := (resume pages).

(** A call changes memory only of its task, in the window, where the page is writable. *)
Definition confined (tid : Z) (s s' : Sys) : Prop := forall t a, umem s' t a <> umem s t a -> t = tid /\ in_window a /\ byte_ok pages tid true a = true.
Lemma confined_same tid s s' : umem s' = umem s -> confined tid s s'.
Proof. intros E t a. by rewrite E. Qed.
Definition after (tid : Z) (r : Res) (snd : gset Z) : gset Z := match r with Blocked (WaitReply _) => {[tid]} ∪ snd | _ => snd end.
Definition wait_buffers (tid : Z) (r : Res) : Prop :=
  match r with Blocked (WaitReply ptr) | Blocked (WaitRequest ptr) => 0 <= ptr < 2 ^ 64 /\ buffer tid ptr | _ => True end.
Definition good (tid : Z) (snd nw : gset Z) (s s' : Sys) (r : Res) : Prop :=
  config_ok (mkConfig (sched s') (after tid r snd) nw) /\ typed (sched s') /\ confined tid s s' /\ wait_buffers tid r.

Lemma store_rqb tid ptr r s : 0 <= ptr < 2 ^ 64 -> msg_ok r -> let '(m, ok) := copy_to_user pages tid (umem s) ptr (rqb_encode r) in
  (forall t a, m t a <> umem s t a -> t = tid /\ in_window a /\ byte_ok pages tid true a = true) /\ (buffer tid ptr -> ok = true /\ view m tid ptr 96 = rqb_encode r).
Proof.
  intros Hp Hr. pose proof (copy_to_cases pages tid (umem s) ptr (rqb_encode r) Hp) as H. rewrite (length_encode r Hr) in H. specialize (H ltac:(lia)). destruct (copy_to_user _ _ _ _ _) as [m ok]. destruct H as [H1 H2].
  split; [| exact H2]. intros t a Ha. destruct (H1 t a Ha) as (-> & _ & ? & ?). done.
Qed.
Lemma finish_send_ok tid ptr r st s : 0 <= ptr < 2 ^ 64 -> msg_ok r -> exists s' v, finish_send pages tid ptr r st s = (s', Done v) /\ sched s' = sched s /\ confined tid s s'
  /\ (buffer tid ptr -> v = status_code st /\ view (umem s') tid ptr 96 = rqb_encode r).
Proof.
  intros Hp Hr. unfold finish_send. pose proof (store_rqb tid ptr r s Hp Hr) as H. destruct (copy_to_user _ _ _ _ _) as [m ok]. destruct H as [H1 H2]. eexists _, _. split; [reflexivity |]. split; [done |]. split; [exact H1 |].
  intros Hb. destruct (H2 Hb) as [-> Hv]. done.
Qed.

Section Acting.
Context (s : Sys) (snd nw : gset Z) (cpu me : nat) (t : TaskControlBlock).
Context (C : config_ok (mkConfig (sched s) snd nw)) (T : typed (sched s)) (Hrun : runs_on (sched s) cpu me t) (Hst : state t = Running).
Abbreviation tid := (id t).

Lemma current_is : current_id (sched s) cpu = tid.
Proof.
  destruct (runs_on_idx _ _ _ _ Hrun) as [Hc Ht]. unfold current_id. unfold current_idx in Hc. destruct (current (cpus (sched s) !!! cpu)) as [i |]; cbn in Hc; [| done]. injection Hc as ->. by rewrite Ht.
Qed.
Definition received (ptr : Z) : Rqb := rqb_decode (view (umem s) tid ptr 96).
Lemma read_cases ptr : 0 <= ptr < 2 ^ 64 -> match read_user_rqb pages tid s ptr with Some r => r = received ptr | None => ~ buffer_ok pages tid ptr 96 false end.
Proof.
  intros Hp. unfold read_user_rqb. pose proof (copy_from_cases pages tid (umem s) ptr 96 Hp ltac:(lia)) as H. change RQB_USER_SIZE with 96%nat. destruct (copy_from_user pages tid (umem s) ptr 96) as [l |]; [| done]. destruct H as [-> _]. done.
Qed.
Lemma received_ok ptr : msg_ok (received ptr).
Proof. apply decode_ok, length_view. Qed.

Section Free.
Context (Hfree : tid ∉ snd) (Hprio : priority t <> PRIORITY_IDLE).
Lemma act : acting (sched s) snd cpu me t.
Proof. done. Qed.

(** Sending. *)
Definition send_error (receiver : Z) (e : RqbStatus) : Prop :=
  match e with
  | InvalidParam => receiver = tid
  | NotFound => ~ live (sched s) receiver
  | Busy => exists ri r, task_at (sched s) ri r /\ id r = receiver /\ Z.of_nat (length (inbox r)) = INBOX_CAPACITY
  | _ => False
  end.
Lemma send_cases receiver ptr : 0 <= ptr < 2 ^ 64 -> exists s' r, sys_send_rqb pages cpu receiver ptr s = Ok (s', r) /\ good tid snd nw s s' r
  /\ match r with
     | Blocked w => w = WaitReply ptr /\ umem s' = umem s /\ posted (sched s) me t (receiver mod 2 ^ 32) (received ptr) (sched s')
     | Done v => sched s' = sched s /\ (v = EFAULT /\ s' = s /\ ~ buffer tid ptr
         \/ exists e, v = status_code e /\ send_error (receiver mod 2 ^ 32) e /\ view (umem s') tid ptr 96 = rqb_encode (set_status (received ptr) e))
     | Gone => False
     end.
Proof.
  intros Hp. unfold sys_send_rqb. rewrite current_is. destruct (range_ok_cases pages tid ptr 96 true Hp ltac:(lia)) as (b & E & Hb). change (Z.of_nat RQB_USER_SIZE) with (Z.of_nat 96). rewrite E. cbn [unwrap mbind outcome_bind].
  destruct b; cbn [negb].
  2: { exists s, (Done EFAULT). split; [done |]. split; [split; [exact C |]; split; [exact T |]; split; [by apply confined_same | exact I] |]. split; [done |]. left. split; [done |]. split; [done |]. by intros ?%Hb. }
  pose proof (proj1 Hb eq_refl) as Hbuf. pose proof (read_cases ptr Hp) as Hr. destruct (read_user_rqb pages tid s ptr) as [rqb |]; [subst rqb | by destruct Hr; apply buffer_ok_read].
  pose proof (post_request_spec (sched s) snd cpu me t (receiver mod 2 ^ 32) (received ptr) (co_sched _ C) Hrun Hst Hfree Hprio) as Hpost.
  destruct (post_request (sched s) cpu (receiver mod 2 ^ 32) (received ptr)) as [[k sc] | e |] eqn:Ep; [| | done].
  - destruct Hpost as [Hposted OK']. eexists _, _. split; [reflexivity |]. split; [| done]. split; [| split; [| split; [by apply confined_same | done]]].
    + exact (step_ok _ _ C (step_request _ _ nw _ _ _ _ _ _ _ act Ep)).
    + exact (typed_posted _ _ _ _ _ _ T (received_ok ptr) Hposted).
  - destruct (finish_send_ok tid ptr (set_status (received ptr) e) e s Hp (received_ok ptr)) as (s' & v & Ef & Es & Hc & Hv). destruct (Hv Hbuf) as [-> Hview]. exists s', (Done (status_code e)). rewrite Ef. split; [done |].
    split; [split; [by rewrite Es |]; split; [by rewrite Es |]; split; [exact Hc | exact I] |]. split; [done |]. right. exists e. split; [done |]. split; [by destruct e | done].
Qed.

(** Receiving: from the call, and each time the loop goes on. *)
Lemma take_typed rest : Forall msg_ok rest -> typed (update (sched s) me (fun t => set_inbox t rest)).
Proof. intros H. apply typed_update; [exact T |]. intros u Hu. destruct (T _ _ Hu) as [_ H2]. by split. Qed.
Lemma same_msgs f : (forall u, inbox (f u) = inbox u /\ reply (f u) = reply u) -> typed (update (sched s) me f).
Proof. intros H. apply typed_update; [exact T |]. intros u Hu. destruct (T _ _ Hu) as [H1 H2]. unfold task_msgs. destruct (H u) as [-> ->]. done. Qed.
Lemma receive_cases ptr : 0 <= ptr < 2 ^ 64 -> buffer tid ptr -> exists s' r, receive pages cpu ptr s = Ok (s', r) /\ good tid snd nw s s' r
  /\ match inbox t with
     | [] => r = Blocked (WaitRequest ptr) /\ umem s' = umem s
     | m :: rest => r = Done 0 /\ view (umem s') tid ptr 96 = rqb_encode m /\ sched s' = update (sched s) me (fun t => set_inbox t rest)
     end.
Proof.
  intros Hp Hbuf. unfold receive. rewrite current_is. destruct (take_request_spec (sched s) snd cpu me t true (co_sched _ C) Hrun Hst Hfree Hprio) as (sc & E & OK' & Es).
  pose proof (step_ok _ _ C (step_take _ _ nw _ _ _ _ _ _ act E)) as C'. rewrite E. assert (task_msgs t) as [Hin _] by (destruct Hrun as (pc & _ & _ & _ & Ht); by eapply T). destruct (inbox t) as [| m rest] eqn:Ei; cbn [head].
  - eexists _, _. split; [reflexivity |]. split; [| done]. split; [exact C' |]. split; [subst sc; by apply same_msgs |]. split; [by apply confined_same | done].
  - apply Forall_cons in Hin as [Hm Hrest]. pose proof (store_rqb tid ptr m s Hp Hm) as Hst2. destruct (copy_to_user _ _ _ _ _) as [mm ok]. destruct Hst2 as [H1 H2]. destruct (H2 Hbuf) as [-> Hv].
    eexists _, _. split; [reflexivity |]. split; [| done]. split; [exact C' |]. split; [subst sc; by apply take_typed |]. split; [exact H1 | exact I].
Qed.
Lemma receive_call_cases ptr : 0 <= ptr < 2 ^ 64 -> exists s' r, sys_receive_rqb pages cpu ptr s = Ok (s', r) /\ good tid snd nw s s' r
  /\ (buffer tid ptr -> receive pages cpu ptr s = Ok (s', r)) /\ (~ buffer tid ptr -> s' = s /\ r = Done EFAULT).
Proof.
  intros Hp. unfold sys_receive_rqb. rewrite current_is. destruct (range_ok_cases pages tid ptr 96 true Hp ltac:(lia)) as (b & E & Hb). change (Z.of_nat RQB_USER_SIZE) with (Z.of_nat 96). rewrite E. cbn [unwrap mbind outcome_bind].
  destruct b; cbn [negb].
  - pose proof (proj1 Hb eq_refl) as Hbuf. destruct (receive_cases ptr Hp Hbuf) as (s' & r & Er & G & _). exists s', r. done.
  - exists s, (Done EFAULT). split; [done |]. split; [split; [exact C |]; split; [exact T |]; split; [by apply confined_same | exact I] |]. split; [by intros ?%Hb | done].
Qed.

(** Replying. *)
Definition reply_error (sender : Z) (e : RqbStatus) : Prop :=
  match e with
  | NotFound => ~ live (sched s) sender
  | InvalidParam => exists si u, task_at (sched s) si u /\ id u = sender /\ state u <> Exited /\ ~ (state u = WaitingReply /\ wait_for u = tid)
  | _ => False
  end.
Lemma reply_cases sender ptr : 0 <= ptr < 2 ^ 64 -> exists s' v, sys_reply_rqb pages cpu sender ptr s = Ok (s', Done v) /\ good tid snd nw s s' (Done v) /\ umem s' = umem s
  /\ (v = EFAULT /\ s' = s /\ ~ buffer_ok pages tid ptr 96 false
      \/ v = status_code Success /\ (exists si u, task_at (sched s) si u /\ id u = sender mod 2 ^ 32 /\ state u = WaitingReply /\ wait_for u = tid
           /\ sched s' = update (sched s) si (answered (set_route (received ptr) tid (sender mod 2 ^ 32))))
      \/ exists e, v = status_code e /\ s' = s /\ reply_error (sender mod 2 ^ 32) e).
Proof.
  intros Hp. unfold sys_reply_rqb. rewrite current_is. assert (good tid snd nw s s (Done EFAULT) /\ forall v, good tid snd nw s s (Done v)) as [_ G] by (split; [| intros v]; (split; [exact C |]; split; [exact T |]; split; [by apply confined_same | exact I])).
  pose proof (read_cases ptr Hp) as Hr. destruct (read_user_rqb pages tid s ptr) as [rqb |]; [subst rqb |].
  2: { exists s, EFAULT. split; [done |]. split; [done |]. split; [done |]. by left. }
  pose proof (post_reply_spec (sched s) snd cpu me t (sender mod 2 ^ 32) (received ptr) (co_sched _ C) Hrun) as Hpost.
  destruct (post_reply (sched s) cpu (sender mod 2 ^ 32) (received ptr)) as [[k sc] | e |] eqn:Ep; [| | done].
  - pose proof (step_ok _ _ C (step_reply _ _ nw _ _ _ _ _ _ _ act Ep)) as C'. destruct Hpost as (si & u & Hu & Hid & Hs & Hw & -> & _). eexists _, _. split; [reflexivity |].
    split; [split; [exact C' |]; split; [apply typed_answered; [exact T | apply received_ok] |]; split; [by apply confined_same | exact I] |]. split; [done |]. right. left. split; [done |]. by exists si, u.
  - eexists _, _. split; [reflexivity |]. split; [done |]. split; [done |]. right. right. exists e. split; [done |]. split; [done |]. by destruct e.
Qed.

(** Sleeping, leaving, and the calls that change no task. *)
Lemma good_same v : good tid snd nw s s (Done v).
Proof. split; [exact C |]. split; [exact T |]. split; [by apply confined_same | exact I]. Qed.
Lemma sleep_cases until : exists s' r, sleep cpu until s = Ok (s', r) /\ good tid snd nw s s' r /\ (r = Done 0 \/ r = Blocked (WaitUntil until)).
Proof.
  unfold sleep. destruct (jiffies (sched s) <? until); [| exists s, (Done 0); split; [done |]; split; [apply good_same | by left]].
  destruct (sleep_until_spec (sched s) snd cpu me t until (co_sched _ C) Hrun Hst Hfree Hprio) as (sc & E & Es & _). pose proof (step_ok _ _ C (step_sleep _ _ nw _ _ _ _ _ act E)) as C'. rewrite E.
  eexists _, _. split; [reflexivity |]. split; [| by right]. split; [exact C' |]. split; [subst sc; by apply same_msgs |]. split; [by apply confined_same | exact I].
Qed.
Lemma exit_cases : exists s', sys_exit cpu s = Ok (s', Gone) /\ good tid snd nw s s' Gone.
Proof.
  unfold sys_exit. cbv zeta. change (sched (s <| console := console s ++ [exit_line cpu s] |>)) with (sched s). destruct (mark_exited_spec (sched s) snd cpu me t (co_sched _ C) Hrun Hst Hfree Hprio) as (k & sc & E & _).
  pose proof (step_ok _ _ C (step_exit _ _ nw _ _ _ _ _ act E)) as C'. rewrite E. eexists. split; [reflexivity |]. split; [exact C' |]. split; [exact (typed_exited _ _ _ _ _ _ T Hrun E) |]. split; [by apply confined_same | exact I].
Qed.
Lemma bypass_cases a1 : exists s' v, sys_spec_store_bypass plan cpu a1 s = Ok (s', Done v) /\ good tid snd nw s s' (Done v).
Proof.
  unfold sys_spec_store_bypass. destruct (2 <? a1); [eexists _, _; split; [reflexivity | apply good_same] |]. destruct (_ =? 2); [eexists _, _; split; [reflexivity | apply good_same] |].
  destruct (set_store_bypass_disable (change_bypass plan) (sched s) cpu _) as [sc | e |] eqn:E; [| eexists _, _; split; [reflexivity | apply good_same] |].
  - pose proof (step_ok _ _ C (step_mitigation _ _ nw _ _ _ _ _ _ act E)) as C'. eexists _, _. split; [reflexivity |]. split; [exact C' |]. split; [| split; [by apply confined_same | exact I]].
    unfold set_store_bypass_disable in E. destruct (change_bypass plan _); cbn [mbind outcome_bind] in E; [| done | done]. destruct (runs_on_idx _ _ _ _ Hrun) as [Hc _]. unfold current_idx in Hc.
    destruct (current (cpus (sched s) !!! cpu)) as [i |]; cbn in Hc, E; [| done]. injection Hc as ->. injection E as <-. by apply same_msgs.
  - exfalso. unfold set_store_bypass_disable, change_bypass, SecurityPlans.change in E. destruct (runs_on_idx _ _ _ _ Hrun) as [Hc _]. unfold current_idx in Hc. destruct (current (cpus (sched s) !!! cpu)) as [i |]; cbn in Hc; [| done].
    repeat (destruct (_ || _) || destruct (_ && _)); done.
Qed.
Lemma user_name_cases ptr len : exists s' v, (sys_lookup_service pages cpu ptr len s = Ok (s', Done v)) /\ good tid snd nw s s' (Done v).
Proof. unfold sys_lookup_service. destruct (user_name _ _ _ _ _); eexists _, _; (split; [reflexivity | apply good_same]). Qed.
Lemma register_cases ptr len : exists s' v, sys_register_service pages cpu ptr len s = Ok (s', Done v) /\ good tid snd nw s s' (Done v).
Proof.
  unfold sys_register_service. destruct (user_name _ _ _ _ _) as [n |]; [| eexists _, _; split; [reflexivity | apply good_same]]. destruct (register_service _ _ _) as [l ok].
  eexists _, _. split; [reflexivity |]. split; [exact C |]. split; [exact T |]. split; [by apply confined_same | exact I].
Qed.
Lemma log_cases ptr len : exists s' v, sys_log pages privilege cpu ptr len s = Ok (s', Done v) /\ good tid snd nw s s' (Done v).
Proof.
  unfold sys_log. destruct (200 <? len); [eexists _, _; split; [reflexivity | apply good_same] |]. destruct (copy_from_user _ _ _ _ _); [| eexists _, _; split; [reflexivity | apply good_same]].
  eexists _, _. split; [reflexivity |]. split; [exact C |]. split; [exact T |]. split; [by apply confined_same | exact I].
Qed.
Lemma dispatch_good no a1 a2 : 0 <= a1 < 2 ^ 64 -> 0 <= a2 < 2 ^ 64 -> exists s' r, dispatch cpu no a1 a2 s = Ok (s', r) /\ good tid snd nw s s' r.
Proof.
  intros H1 H2. unfold Syscall.dispatch. destruct (NR_SYSCALLS <=? no); [eexists _, _; split; [reflexivity | apply good_same] |]. cbv zeta. set (n := array_index_nospec no NR_SYSCALLS).
  destruct (n =? SYS_EXIT); [destruct exit_cases as (s' & E & G); eauto |]. destruct (n =? SYS_LOG); [destruct (log_cases a1 a2) as (s' & v & E & G); eauto |].
  destruct (n =? SYS_SEND_RQB); [destruct (send_cases a1 a2 H2) as (s' & r & E & G & _); eauto |]. destruct (n =? SYS_RECEIVE_RQB); [destruct (receive_call_cases a1 H1) as (s' & r & E & G & _); eauto |].
  destruct (n =? SYS_REPLY_RQB); [destruct (reply_cases a1 a2 H2) as (s' & v & E & G & _); eauto |]. destruct (n =? SYS_SPEC_STORE_BYPASS); [destruct (bypass_cases a1) as (s' & v & E & G); eauto |].
  destruct (n =? SYS_CLOCK_MS); [eexists _, _; split; [reflexivity | apply good_same] |]. destruct (n =? SYS_GET_TID); [eexists _, _; split; [reflexivity | apply good_same] |].
  destruct (n =? SYS_SLEEP_MS); [destruct (sleep_cases (sleep_deadline (jiffies (sched s)) (Z.min a1 3600000))) as (s' & r & E & G & _); eauto |].
  destruct (n =? SYS_LOOKUP_SERVICE); [destruct (user_name_cases a1 a2) as (s' & v & E & G); eauto |]. destruct (n =? SYS_REGISTER_SERVICE); [destruct (register_cases a1 a2) as (s' & v & E & G); eauto |].
  destruct (n =? SYS_YIELD); eexists _, _; (split; [reflexivity |]); [split; [exact C |]; split; [exact T |]; split; [by apply confined_same | exact I] | apply good_same].
Qed.
End Free.

(** The caller of [send_rqb] runs again: its reply is there. *)
Lemma resume_send_cases ptr : 0 <= ptr < 2 ^ 64 -> buffer tid ptr -> tid ∈ snd -> exists r s', reply t = Some r
  /\ resume_send pages cpu ptr s = Ok (s', Done (status_code (status_from (status r)))) /\ view (umem s') tid ptr 96 = rqb_encode r
  /\ config_ok (mkConfig (sched s') (snd ∖ {[tid]}) nw) /\ typed (sched s') /\ confined tid s s'.
Proof.
  intros Hp Hbuf Hin. destruct (poll_reply_spec (sched s) snd cpu me t (co_sched _ C) Hrun Hst Hin) as (r & sc & E & Hr & Es & _). pose proof (step_ok _ _ C (step_poll _ _ nw _ _ _ _ _ Hrun Hst Hin E)) as C'.
  assert (msg_ok r) as Hm by (destruct Hrun as (pc & _ & _ & _ & Ht); by eapply T). unfold resume_send. rewrite E, current_is.
  destruct (finish_send_ok tid ptr r (status_from (status r)) (s <| sched := sc |>) Hp Hm) as (s' & v & Ef & Esc & Hc & Hv). destruct (Hv Hbuf) as [-> Hview]. exists r, s'. split; [done |]. rewrite Ef. split; [done |]. split; [done |].
  change (sched s' = sc) in Esc. rewrite Esc. split; [exact C' |]. split; [| exact Hc]. subst sc. apply typed_update; [exact T |]. intros u Hu. destruct (T _ _ Hu) as [H1 _]. by split.
Qed.
End Acting.

(** * The machine: tasks, their memory, and calls suspended in the kernel *)

Record Machine := mkMachine { m_sys : Sys; m_sending : gset Z; m_new : gset Z; m_waits : gmap Z Wait }.
Definition cfg (m : Machine) : config := mkConfig (sched (m_sys m)) (m_sending m) (m_new m).
Definition suspend (tid : Z) (r : Res) (w : gmap Z Wait) : gmap Z Wait := match r with Blocked x => <[tid := x]> w | _ => delete tid w end.
Definition running (m : Machine) (cpu me : nat) (t : TaskControlBlock) : Prop := runs_on (sched (m_sys m)) cpu me t /\ state t = Running /\ priority t <> PRIORITY_IDLE.

Inductive mstep : Machine -> Machine -> Prop :=
| ms_sched m c : Sched.step (cfg m) c -> typed (cf_sched c) -> (forall tid w, m_waits m !! tid = Some w -> tid ∈ cf_sending c <-> tid ∈ m_sending m) ->
    mstep m (mkMachine ((m_sys m) <| sched := cf_sched c |>) (cf_sending c) (cf_new c) (m_waits m))
| ms_store m tid a v : mstep m (mkMachine ((m_sys m) <| umem := put (umem (m_sys m)) tid a v |>) (m_sending m) (m_new m) (m_waits m))
| ms_call m cpu me t no a1 a2 s r : running m cpu me t -> user t = true -> (id t ∉ m_sending m) -> m_waits m !! id t = None -> 0 <= a1 < 2 ^ 64 -> 0 <= a2 < 2 ^ 64 ->
    dispatch cpu no a1 a2 (m_sys m) = Ok (s, r) -> mstep m (mkMachine s (after (id t) r (m_sending m)) (m_new m) (suspend (id t) r (m_waits m)))
| ms_resume m cpu me t w s r : running m cpu me t -> m_waits m !! id t = Some w -> resume cpu w (m_sys m) = Ok (s, r) ->
    mstep m (mkMachine s (match w with WaitReply _ => m_sending m ∖ {[id t]} | _ => m_sending m end) (m_new m) (suspend (id t) r (m_waits m))).
Inductive reachable : Machine -> Prop :=
| boot l u c : reachable (mkMachine (mkSys Sched.new l u c) ∅ ∅ ∅)
| go_on m m' : reachable m -> mstep m m' -> reachable m'.

(** The buffer of a suspended call has been checked, and only senders are among the senders. *)
Definition wait_ok (snd : gset Z) (tid : Z) (w : Wait) : Prop :=
  match w with
  | WaitReply ptr => 0 <= ptr < 2 ^ 64 /\ buffer tid ptr /\ tid ∈ snd
  | WaitRequest ptr => 0 <= ptr < 2 ^ 64 /\ buffer tid ptr /\ tid ∉ snd
  | _ => tid ∉ snd
  end.
Record machine_ok (m : Machine) : Prop := {
  mo_config : config_ok (cfg m);
  mo_typed : typed (sched (m_sys m));
  mo_waits : forall tid w, m_waits m !! tid = Some w -> wait_ok (m_sending m) tid w }.

(** A suspended call that goes on succeeds or waits again. *)
Definition resumed (m : Machine) (t : TaskControlBlock) (w : Wait) (s : Sys) (r : Res) : Prop :=
  match w with
  | WaitReply ptr => exists reply_, reply t = Some reply_ /\ r = Done (status_code (status_from (status reply_))) /\ view (umem s) (id t) ptr 96 = rqb_encode reply_
  | WaitRequest ptr => r = Blocked w /\ inbox t = [] \/ exists m rest, inbox t = m :: rest /\ r = Done 0 /\ view (umem s) (id t) ptr 96 = rqb_encode m
  | WaitUntil _ => r = Blocked w \/ r = Done 0
  | WaitTurn => r = Done 0
  end.
Lemma resume_cases m cpu me t w : machine_ok m -> running m cpu me t -> m_waits m !! id t = Some w ->
  exists s r, resume cpu w (m_sys m) = Ok (s, r) /\ resumed m t w s r /\ confined (id t) (m_sys m) s /\ typed (sched s)
    /\ config_ok (mkConfig (sched s) (match w with WaitReply _ => m_sending m ∖ {[id t]} | _ => m_sending m end) (m_new m)) /\ (r = Blocked w \/ exists v, r = Done v).
Proof.
  intros [C T W] (Hrun & Hst & Hprio) Hw. pose proof (W _ _ Hw) as Hok. destruct w as [ptr | ptr | until |]; cbn [Syscall.resume].
  - destruct Hok as (Hp & Hb & Hin). destruct (resume_send_cases (m_sys m) (m_sending m) (m_new m) cpu me t C T Hrun Hst ptr Hp Hb Hin) as (r & s & Hr & E & Hv & C' & T' & Hc). exists s, (Done (status_code (status_from (status r)))).
    split; [done |]. split; [by exists r |]. split; [done |]. split; [done |]. split; [done |]. right. by eexists.
  - destruct Hok as (Hp & Hb & Hni). destruct (receive_cases (m_sys m) (m_sending m) (m_new m) cpu me t C T Hrun Hst Hni Hprio ptr Hp Hb) as (s & r & E & (G1 & G2 & G3 & G4) & Hc). exists s, r. split; [done |].
    destruct (inbox t) as [| x rest] eqn:Ei.
    + destruct Hc as [-> _]. split; [by left |]. split; [done |]. split; [done |]. split; [done | by left].
    + destruct Hc as (-> & Hv & _). split; [right; by exists x, rest |]. split; [done |]. split; [done |]. split; [done |]. right. by eexists.
  - destruct (sleep_cases (m_sys m) (m_sending m) (m_new m) cpu me t C T Hrun Hst Hok Hprio until) as (s & r & E & (G1 & G2 & G3 & G4) & Hc). exists s, r. split; [done |].
    destruct Hc as [-> | ->]; (split; [cbn; tauto |]); (split; [done |]); (split; [done |]); (split; [done |]); [right; by eexists | by left].
  - exists (m_sys m), (Done 0). split; [done |]. split; [done |]. split; [by apply confined_same |]. split; [done |]. split; [done |]. right. by eexists.
Qed.
Lemma after_in tid r snd x : x ∈ after tid r snd <-> x ∈ snd \/ x = tid /\ exists ptr, r = Blocked (WaitReply ptr).
Proof. destruct r as [v | [ptr | ptr | u |] |]; cbn [after]; try (split; [tauto |]; intros [? | [_ [p ?]]]; done). rewrite elem_of_union, elem_of_singleton. split; [intros [-> | ?]; eauto | intros [? | [-> _]]; tauto]. Qed.
Lemma wait_ok_ext snd snd' tid w : (tid ∈ snd' <-> tid ∈ snd) -> wait_ok snd tid w -> wait_ok snd' tid w.
Proof. destruct w; cbn [wait_ok]; tauto. Qed.
Lemma mstep_ok m m' : machine_ok m -> mstep m m' -> machine_ok m'.
Proof.
  intros M Hstep. destruct Hstep as [m0 c Hs Ht Hsame | m0 tid a v | m0 cpu me t no a1 a2 s r (Hrun & Hst & Hprio) _ Hni Hw H1 H2 E | m0 cpu me t w s r Hr Hw E]; pose proof M as [C T W].
  - constructor; cbn.
    + pose proof (step_ok _ _ C Hs) as C'. by destruct c.
    + done.
    + intros tid w Hw. eapply wait_ok_ext; [by eapply Hsame | by apply W].
  - by constructor.
  - destruct (dispatch_good (m_sys m0) (m_sending m0) (m_new m0) cpu me t C T Hrun Hst Hni Hprio no a1 a2 H1 H2) as (s1 & r1 & E1 & (G1 & G2 & G3 & G4)). rewrite E in E1. apply Ok_inj in E1. injection E1 as -> ->. constructor; [exact G1 | exact G2 |].
    cbn [m_waits m_sending]. intros tid w Htw. destruct (decide (tid = id t)) as [-> | Hne].
    + destruct r1 as [v | x |]; cbn [suspend] in Htw; try (by rewrite lookup_delete_eq in Htw). rewrite lookup_insert_eq in Htw. injection Htw as <-. destruct x as [ptr | ptr | u |]; cbn [wait_ok after] in *; [| | done | done]; destruct G4 as [G4 G5]; (split; [done |]); (split; [done |]); [set_solver | done].
    + apply (wait_ok_ext (m_sending m0)); [rewrite after_in; tauto |]. apply W. destruct r1 as [v | x |]; cbn [suspend] in Htw; [by rewrite lookup_delete_ne in Htw by done | by rewrite lookup_insert_ne in Htw by done | by rewrite lookup_delete_ne in Htw by done].
  - destruct (resume_cases m0 cpu me t w M Hr Hw) as (s1 & r1 & E1 & Hres & _ & T' & C' & Hc). rewrite E in E1. apply Ok_inj in E1. injection E1 as -> ->. pose proof (W _ _ Hw) as Hok. constructor; [exact C' | exact T' |].
    cbn [m_waits m_sending]. intros tid x Hx. destruct (decide (tid = id t)) as [-> | Hne].
    + destruct Hc as [-> | [v ->]]; cbn [suspend] in Hx; [| by rewrite lookup_delete_eq in Hx]. rewrite lookup_insert_eq in Hx. injection Hx as <-. destruct w; [| exact Hok | exact Hok | exact Hok].
      by destruct Hres as (r' & _ & ? & _).
    + assert (m_waits m0 !! tid = Some x) as Hx' by (destruct Hc as [-> | [v ->]]; cbn [suspend] in Hx; [by rewrite lookup_insert_ne in Hx by done | by rewrite lookup_delete_ne in Hx by done]).
      apply (wait_ok_ext (m_sending m0)); [| by apply W]. destruct w; [| done | done | done]. set_solver.
Qed.
Lemma reachable_machine m : reachable m -> machine_ok m.
Proof. induction 1 as [l u c | m m' _ IH Hs]; [| by eapply mstep_ok]. constructor; [apply new_ok | intros i t Ht; unfold task_at in Ht; cbn in Ht; done | done]. Qed.

(** C9. System calls never panic and stay within their caller's memory.  In every state of
    the machine reached by any interleaving of scheduling, kernel tasks, stores of user
    programs and system calls on any processors, a running user task may make any call with
    any arguments: the call returns, waits or ends the task, and changes no byte of memory
    except bytes of the caller itself, in the user window, on writable pages.  A call that
    was suspended goes on without failing: the reply or request it waited for is written
    whole into the buffer that was checked when the call began, so no message taken from
    the kernel is lost. *)
Theorem system_calls_safe m cpu me t : reachable m -> running m cpu me t ->
  (m_waits m !! id t = None -> (id t ∉ m_sending m) -> forall no a1 a2, 0 <= a1 < 2 ^ 64 -> 0 <= a2 < 2 ^ 64 ->
     exists s r, dispatch cpu no a1 a2 (m_sys m) = Ok (s, r) /\ confined (id t) (m_sys m) s)
  /\ (forall w, m_waits m !! id t = Some w ->
     exists s r, resume cpu w (m_sys m) = Ok (s, r) /\ confined (id t) (m_sys m) s /\ resumed m t w s r).
Proof.
  intros M%reachable_machine Hr. pose proof M as [C T W]. split.
  - intros _ Hni no a1 a2 H1 H2. destruct Hr as (Hrun & Hst & Hprio). destruct (dispatch_good (m_sys m) (m_sending m) (m_new m) cpu me t C T Hrun Hst Hni Hprio no a1 a2 H1 H2) as (s & r & E & _ & _ & Hc & _). by exists s, r.
  - intros w Hw. destruct (resume_cases m cpu me t w M Hr Hw) as (s & r & E & Hres & Hc & _). by exists s, r.
Qed.

(** C19. Messages between user tasks.  In every reachable state: a request is queued at the
    live receiver exactly as the 96 bytes of the sender's buffer say, with the true sender
    and receiver written into it, or the call returns an error that says why, with the status
    in the buffer; receiving writes the oldest request of the mailbox into the buffer and
    removes it, or waits when there is none; a reply reaches exactly a task that waits on the
    replier, as the replier's buffer says; and no bad buffer costs a message. *)
Theorem ipc_calls_correct m cpu me t a ptr : reachable m -> running m cpu me t -> (id t ∉ m_sending m) -> 0 <= ptr < 2 ^ 64 -> 0 <= a < 2 ^ 64 ->
  let s := m_sys m in let msg := rqb_decode (view (umem s) (id t) ptr 96) in
  (exists s' r, dispatch cpu SYS_SEND_RQB a ptr s = Ok (s', r)
     /\ match r with
        | Blocked w => w = WaitReply ptr /\ umem s' = umem s /\ posted (sched s) me t (a mod 2 ^ 32) msg (sched s')
        | Done v => sched s' = sched s /\ (v = EFAULT /\ s' = s /\ ~ buffer (id t) ptr
            \/ exists e, v = status_code e /\ send_error s t (a mod 2 ^ 32) e /\ view (umem s') (id t) ptr 96 = rqb_encode (set_status msg e))
        | Gone => False
        end)
  /\ (exists s' r, dispatch cpu SYS_RECEIVE_RQB ptr a s = Ok (s', r)
     /\ (~ buffer (id t) ptr -> s' = s /\ r = Done EFAULT)
     /\ (buffer (id t) ptr -> match inbox t with
         | [] => r = Blocked (WaitRequest ptr) /\ umem s' = umem s
         | req :: rest => r = Done 0 /\ view (umem s') (id t) ptr 96 = rqb_encode req /\ sched s' = update (sched s) me (fun t => set_inbox t rest)
         end))
  /\ (exists s' v, dispatch cpu SYS_REPLY_RQB a ptr s = Ok (s', Done v) /\ umem s' = umem s
     /\ (v = EFAULT /\ s' = s /\ ~ buffer_ok pages (id t) ptr 96 false
         \/ v = status_code Success /\ (exists si u, task_at (sched s) si u /\ id u = a mod 2 ^ 32 /\ state u = WaitingReply /\ wait_for u = id t
              /\ sched s' = update (sched s) si (answered (set_route msg (id t) (a mod 2 ^ 32))))
         \/ exists e, v = status_code e /\ s' = s /\ reply_error s t (a mod 2 ^ 32) e)).
Proof.
  intros M%reachable_machine (Hrun & Hst & Hprio) Hni Hp Ha s msg. destruct M as [C T W]. split; [| split].
  - destruct (send_cases s (m_sending m) (m_new m) cpu me t C T Hrun Hst Hni Hprio a ptr Hp) as (s' & r & E & _ & H). by exists s', r.
  - destruct (receive_call_cases s (m_sending m) (m_new m) cpu me t C T Hrun Hst Hni Hprio ptr Hp) as (s' & r & E & _ & H1 & H2). exists s', r. split; [exact E |]. split; [exact H2 |].
    intros Hb. destruct (receive_cases s (m_sending m) (m_new m) cpu me t C T Hrun Hst Hni Hprio ptr Hp Hb) as (s1 & r1 & E1 & _ & H). specialize (H1 Hb). rewrite E1 in H1. apply Ok_inj in H1. injection H1 as -> ->. exact H.
  - destruct (reply_cases s (m_sending m) (m_new m) cpu me t C T Hrun Hst Hni Hprio a ptr Hp) as (s' & v & E & _ & H). by exists s', v.
Qed.
End Calls.

(** * A concrete machine: task 3 runs on processor 0, task 4 on processor 1 *)

Definition demo_pages : Z -> Z -> option (bool * bool) := fun _ _ => Some (true, true).
Definition demo_plan : SecurityPlans.SsbPlan := SecurityPlans.mkSsb SecurityPlans.SsbPerTask SecurityPlans.Ssbs false.
Definition demo_sys (s : Scheduler) : Sys := mkSys s [] (fun _ _ => 0) [].
Abbreviation demo_reaches := (reachable demo_pages demo_plan "CPL3").
Definition quiet (t : TaskControlBlock) : bool := bool_decide (inbox t = []) && bool_decide (reply t = None).
Lemma quiet_typed s : forallb quiet (tasks s) = true -> typed s.
Proof.
  intros H i t Ht. rewrite forallb_forall in H. specialize (H t (proj1 (list_elem_of_In _ _) (list_elem_of_lookup_2 _ _ _ Ht))). apply andb_prop in H as [H1 H2].
  apply bool_decide_eq_true in H1, H2. split; [by rewrite H1 | by rewrite H2].
Qed.
Lemma demo_step s n s' n' : demo_reaches (mkMachine (demo_sys s) ∅ n ∅) -> Sched.step (mkConfig s ∅ n) (mkConfig s' ∅ n') -> forallb quiet (tasks s') = true ->
  demo_reaches (mkMachine (demo_sys s') ∅ n' ∅).
Proof.
  intros H Hs Hq. eapply go_on; [exact H |]. exact (ms_sched _ _ _ (mkMachine (demo_sys s) ∅ n ∅) (mkConfig s' ∅ n') Hs (quiet_typed _ Hq) (fun tid w Hw => False_rect _ (eq_ind None (fun o => match o with Some _ => False | None => True end) I _ (eq_trans (eq_sym (lookup_empty tid)) Hw)))).
Qed.
Definition demo_machine : Machine := mkMachine (demo_sys demo_run) ∅ demo_nw ∅.
Lemma demo_machine_reachable : demo_reaches demo_machine.
Proof.
  unfold demo_machine, demo_run.
  eapply demo_step; [| apply (step_tick _ _ _ true 1 128 true); by apply Nat.ltb_lt | by vm_compute].
  eapply (demo_step demo_tasks); [| apply (step_tick _ _ _ true 0 64 true); by apply Nat.ltb_lt | by vm_compute].
  eapply (demo_step (add_task demo_ids (demo_task 3)).2); [| apply (step_add _ _ _ 4 176 demo_stack PRIORITY_DEFAULT "task"); apply elem_of_difference; split; [apply elem_of_union_l; by apply elem_of_singleton | by intros H%elem_of_singleton] | by vm_compute].
  eapply (demo_step demo_ids); [| apply (step_add _ _ _ 3 176 demo_stack PRIORITY_DEFAULT "task"), elem_of_union_r, elem_of_union_l; by apply elem_of_singleton | by vm_compute].
  eapply (demo_step (from_option Datatypes.snd new (take_task_id demo_boot))); [| apply step_new_id; vm_compute; reflexivity | by vm_compute].
  eapply (demo_step demo_boot); [| apply step_new_id; vm_compute; reflexivity | by vm_compute].
  eapply (demo_step (from_option Datatypes.snd new (register_cpu new 0 0))); [| apply (step_register _ ∅ ∅ 1 1 2); [by apply Nat.ltb_lt | vm_compute; reflexivity | vm_compute; reflexivity] | by vm_compute].
  eapply (demo_step new); [| apply (step_register new ∅ ∅ 0 0 1); [by apply Nat.ltb_lt | vm_compute; reflexivity | vm_compute; reflexivity] | by vm_compute].
  apply boot.
Qed.
Lemma demo_running : running demo_machine 0 2 (demo_actor demo_run 2).
Proof. destruct (demo_acting 2 0 (or_introl (conj eq_refl eq_refl))) as (H1 & H2 & _ & H3). done. Qed.
Lemma u64_small x : (0 <=? x) && (x <? 2 ^ 64) = true -> 0 <= x < 2 ^ 64.
Proof. lia. Qed.

Lemma system_calls_safe_witness : exists s r, dispatch demo_pages demo_plan "CPL3" 0 SYS_LOG 0x640000000000 12 (demo_sys demo_run) = Ok (s, r)
  /\ confined demo_pages (id (demo_actor demo_run 2)) (demo_sys demo_run) s.
Proof.
  destruct (system_calls_safe demo_pages demo_plan "CPL3" demo_machine 0 2 (demo_actor demo_run 2) demo_machine_reachable demo_running) as [H _].
  apply (H (lookup_empty _) (not_elem_of_empty _) SYS_LOG 0x640000000000 12); by apply u64_small; vm_compute.
Defined.
Lemma demo_send_waits s r : dispatch demo_pages demo_plan "CPL3" 0 SYS_SEND_RQB 4 0x640000000000 (m_sys demo_machine) = Ok (s, r) -> exists w, r = Blocked w.
Proof.
  intros E. assert (match dispatch demo_pages demo_plan "CPL3" 0 SYS_SEND_RQB 4 0x640000000000 (m_sys demo_machine) with Ok (_, Blocked _) => true | _ => false end = true) as W by (vm_compute; reflexivity).
  rewrite E in W. clear E. destruct r as [v | w |]; [discriminate W | by exists w | discriminate W].
Qed.
Lemma ipc_calls_correct_witness : exists s', dispatch demo_pages demo_plan "CPL3" 0 SYS_SEND_RQB 4 0x640000000000 (m_sys demo_machine) = Ok (s', Blocked (WaitReply 0x640000000000))
  /\ posted (sched (m_sys demo_machine)) 2 (demo_actor demo_run 2) (4 mod 2 ^ 32) (rqb_decode (view (umem (m_sys demo_machine)) (id (demo_actor demo_run 2)) 0x640000000000 96)) (sched s').
Proof.
  destruct (ipc_calls_correct demo_pages demo_plan "CPL3" demo_machine 0 2 (demo_actor demo_run 2) 4 0x640000000000 demo_machine_reachable demo_running (not_elem_of_empty _)) as [(s' & r & E & H) _];
    [by apply u64_small; vm_compute | by apply u64_small; vm_compute |]. destruct (demo_send_waits s' r E) as [w Hr]. rewrite Hr in E, H.
  destruct H as (Hw & _ & Hp). exists s'. rewrite Hw in E. exact (conj E Hp).
Defined.
End SyscallSound.
