(* ===== verification/Stacks.v ===== *)
(** Guarded kernel stacks (src/memory/stacks.rs with src/arch/amd64/stacks.rs and the page
    table operations of src/arch/amd64/page_table.rs): stacks with a guard page below and
    above, at addresses that are never used twice, over the page tables of [Heap]. *)

From Stdlib Require Import ZArith Lia.
From stdpp Require Import base list list_numbers numbers decidable tactics strings gmap.
From S2P Require Import Prelude Records FrameAllocator UserSpace Scheduler Heap.

Module Stacks.
Import StackLayout Heap.
Import Sched(KernelStack, mkKernelStack, ks_virt, ks_phys, ks_size).
Abbreviation P := (outcome string).

(** * Page tables *)

Definition present (shift va : Z) (b : Backing) : bool := bool_decide (is_Some (links b !! (shift, Z.shiftr va shift))).
(** [query_page(..).is_some()]; the stack region has no huge pages. *)
Definition mapped (va : Z) (b : Backing) : bool :=
  present 39 va b && present 30 va b && present 21 va b && bool_decide (is_Some (leaves b !! Z.shiftr va 12)).
(** The contents of an unmapped page stay in its frame. *)
Definition unload (page pa : Z) (b : Backing) : word_mem :=
  fun a => if (pa <=? a) && (a <? pa + PAGE) then mem b (page * PAGE + (a - pa)) else phys b a.
Definition unmap_page (va : Z) (b : Backing) : P (Z * Backing) :=
  if negb (present 39 va b) then Err "PML4E not present"%string
  else if negb (present 30 va b) then Err "PDPTE not present"%string
  else if negb (present 21 va b) then Err "PDE not present"%string
  else
    match leaves b !! Z.shiftr va 12 with
    | None => Err "PTE not present"%string
    | Some pa => Ok (pa, b <| leaves := delete (Z.shiftr va 12) (leaves b) |> <| phys := unload (Z.shiftr va 12) pa b |>)
    end.
(** Whether the table, and the directory, that map [va] have no entries. *)
Definition table_empty (va : Z) (b : Backing) : bool :=
  forallb (fun i => bool_decide (leaves b !! (Z.shiftr va 21 * 512 + i) = None)) (seqZ 0 512).
Definition directory_empty (va : Z) (b : Backing) : bool :=
  forallb (fun i => bool_decide (links b !! (21, Z.shiftr va 30 * 512 + i) = None)) (seqZ 0 512).
Definition entry (shift va : Z) (b : Backing) : Z := default 0 (links b !! (shift, Z.shiftr va shift)).
Definition set_unused (shift va : Z) (b : Backing) : Backing := b <| links := delete (shift, Z.shiftr va shift) (links b) |>.
Definition detach_empty (va : Z) (b : Backing) : list Z * Backing :=
  if table_empty va b then
    let b1 := set_unused 21 va b in
    if directory_empty va b1 then ([entry 21 va b; entry 30 va b], set_unused 30 va b1) else ([entry 21 va b; 0], b1)
  else ([0; 0], b).

(** * The allocator *)

Record Stacks := mkStacks { first : Z; next : Z; pages : Backing }.
#[export] Instance Stacks_eta : Eta Stacks := fun s => mkStacks (first s) (next s) (pages s).
(** [map_stack n va f b] maps [n] new frames from [va] on; [f] is the first frame so far. *)
Fixpoint map_stack (n : nat) (va : Z) (f : option Z) (b : Backing) : P (option Z * Backing) :=
  match n with
  | O => Ok (f, b)
  | S n' =>
      '(pa, b) ← unwrap (allocate_frame b);
      b ← expect (map_page va pa b);
      map_stack n' (va + PAGE) (Some (default pa f)) b
  end.
(** [word] is the random word that places the stacks. *)
Definition init (word : Z) (b : Backing) : P Stacks :=
  let f := BASE + (Z.land word 0x1fffff + 1) * STRIDE in
  '(pa, b) ← unwrap (allocate_frame b);
  b ← expect (map_page BASE pa b);
  Ok (mkStacks f f b).
(** [running]: the scheduler has started; [irqs]: interrupts are enabled. *)
Definition allocate_sized (running irqs : bool) (size : Z) (s : Stacks) : P (KernelStack * Stacks) :=
  _ ← assert_that (negb running || irqs);
  let guard := next s in
  next' ← unwrap (match checked_add 64 guard STRIDE with Some e => if e <=? LIMIT then Some e else None | None => None end);
  let virt := guard + PAGE in
  _ ← assert_that (negb (mapped guard (pages s)));
  _ ← assert_that (negb (mapped (virt + size) (pages s)));
  '(f, b) ← map_stack (Z.to_nat (size / PAGE)) virt None (pages s);
  p ← unwrap f;
  Ok (mkKernelStack virt p size, s <| next := next' |> <| pages := b |>).
Definition allocate (running irqs : bool) : Stacks -> P (KernelStack * Stacks) := allocate_sized running irqs SIZE.
Definition allocate_sample_page (running irqs : bool) : Stacks -> P (KernelStack * Stacks) := allocate_sized running irqs PAGE.
Fixpoint unmap_stack (n : nat) (va : Z) (b : Backing) : P (list Z * Backing) :=
  match n with
  | O => Ok ([], b)
  | S n' =>
      '(pa, b) ← expect (unmap_page va b);
      '(l, b) ← unmap_stack n' (va + PAGE) b;
      Ok (pa :: l, b)
  end.
Definition deallocate_frame (pa : Z) (b : Backing) : P Backing :=
  '(fa', m') ← unwrap (Frames.deallocate_frame (fa b) (phys b) pa);
  Ok (b <| fa := fa' |> <| phys := m' |>).
Fixpoint deallocate_frames (l : list Z) (b : Backing) : P Backing :=
  match l with [] => Ok b | pa :: l' => b ← deallocate_frame pa b; deallocate_frames l' b end.
Definition release_sized (running irqs : bool) (virt p size : Z) (s : Stacks) : P (Z * Stacks) :=
  _ ← assert_that (negb running || irqs);
  _ ← assert_that ((BASE + 2 * PAGE <=? virt) && (virt + size <? LIMIT));
  '(frames, b) ← unmap_stack (Z.to_nat (size / PAGE)) virt (pages s);
  _ ← assert_that (bool_decide (head frames = Some p));
  let '(retired, b) := detach_empty virt b in
  let retired := List.filter (fun pa => negb (pa =? 0)) retired in
  b ← deallocate_frames frames b;
  b ← deallocate_frames retired b;
  Ok (size / PAGE + Z.of_nat (length retired), s <| pages := b |>).
Definition release (running irqs : bool) (virt p : Z) : Stacks -> P (Z * Stacks) := release_sized running irqs virt p SIZE.
Definition release_sample_page (running irqs : bool) (virt p : Z) : Stacks -> P (Z * Stacks) := release_sized running irqs virt p PAGE.

(** The part of a task's stack that the return to user code erases, and the random offset of
    the next entry. *)
Definition bottom_of (s : Stacks) (frame : Z) : option Z := bottom frame (first s) (next s).
Definition kernel_stack_erase_bottom (erase : bool) (frame user : Z) (s : Stacks) : Z :=
  if negb erase || (user =? 0) then 0 else default 0 (bottom_of s frame).
Definition kernel_stack_offset (random frame user : Z) (s : Stacks) : Z :=
  if (user =? 0) || bool_decide (bottom_of s frame = None) then 0 else Z.land random 0x3f0.
End Stacks.
