(* ===== verification/StacksFacts.v ===== *)
(** Kernel stacks: the frames and tables of the stack region, through mapping, unmapping and
    the release of empty tables. *)

From Stdlib Require Import ZArith Lia.
From stdpp Require Import base list list_numbers numbers decidable tactics strings gmap.
From S2P Require Import Prelude Records FrameAllocator UserSpace Scheduler Heap HeapFacts Stacks.
Import StackLayout Heap HeapFacts Stacks.

Module StacksFacts.

(** * Frames in use by the stack region *)

Definition in_region (shift k : Z) : Prop := BASE <= k * 2 ^ shift < LIMIT.
Definition region_leaf (x : Z * Z) : Prop := in_region 12 (fst x).
Definition region_link (x : (Z * Z) * Z) : Prop := (fst (fst x) = 21 \/ fst (fst x) = 30) /\ in_region (fst (fst x)) (snd (fst x)).
#[export] Instance region_leaf_dec x : Decision (region_leaf x).
Proof. unfold region_leaf, in_region. apply _. Defined.
#[export] Instance region_link_dec x : Decision (region_link x).
Proof. unfold region_link, in_region. apply _. Defined.
Definition frame_list (b : Backing) : list Z := (map_to_list (filter region_leaf (leaves b))).*2 ++ (map_to_list (filter region_link (links b))).*2.

Definition in_use (fa : Frames.FrameAllocator) (pa : Z) : Prop := exists i, pa = i * 4096 /\ 0 < i < Frames.total_frames fa /\ Frames.is_free fa i = false.
Definition owns (fa : Frames.FrameAllocator) (l : list Z) : Prop := NoDup l /\ Forall (in_use fa) l.
Lemma owns_perm fa l l' : l ≡ₚ l' -> owns fa l -> owns fa l'.
Proof. intros H [H1 H2]. split; [by rewrite <- H | by rewrite <- H]. Qed.

Lemma leaf_insert b p pa : in_region 12 p -> leaves b !! p = None -> forall b', leaves b' = <[p := pa]> (leaves b) -> links b' = links b -> frame_list b' ≡ₚ pa :: frame_list b.
Proof.
  intros Hp Hn b' E El. unfold frame_list. rewrite E, El, map_filter_insert_True by exact Hp. rewrite map_to_list_insert by (apply map_lookup_filter_None; by left). by rewrite fmap_cons.
Qed.
Lemma link_insert b s k pa : s = 21 \/ s = 30 -> in_region s k -> links b !! (s, k) = None -> forall b', links b' = <[(s, k) := pa]> (links b) -> leaves b' = leaves b -> frame_list b' ≡ₚ pa :: frame_list b.
Proof.
  intros Hs Hp Hn b' E El. unfold frame_list. rewrite E, El, map_filter_insert_True by (split; [exact Hs | exact Hp]). rewrite map_to_list_insert by (apply map_lookup_filter_None; by left). rewrite fmap_cons. cbn [snd]. by rewrite <- Permutation_middle.
Qed.
Lemma leaf_delete b p pa : in_region 12 p -> leaves b !! p = Some pa -> forall b', leaves b' = delete p (leaves b) -> links b' = links b -> frame_list b ≡ₚ pa :: frame_list b'.
Proof. intros Hp Hs b' E El. apply (leaf_insert b' p pa Hp); [by rewrite E, lookup_delete_eq | rewrite E, insert_delete_eq; symmetry; by apply insert_id | done]. Qed.
Lemma link_delete b s k pa : s = 21 \/ s = 30 -> in_region s k -> links b !! (s, k) = Some pa -> forall b', links b' = delete (s, k) (links b) -> leaves b' = leaves b -> frame_list b ≡ₚ pa :: frame_list b'.
Proof. intros Hs Hp Hl b' E El. apply (link_insert b' s k pa Hs Hp); [by rewrite E, lookup_delete_eq | rewrite E, insert_delete_eq; symmetry; by apply insert_id | done]. Qed.
Lemma leaf_owned b p pa : in_region 12 p -> leaves b !! p = Some pa -> pa ∈ frame_list b.
Proof. intros Hp Hl. apply elem_of_app. left. apply list_elem_of_fmap. exists (p, pa). split; [done |]. apply elem_of_map_to_list, map_lookup_filter_Some. done. Qed.

(** * Taking and giving back frames *)

Definition sound (b : Backing) : Prop := wf b /\ Frames.is_free (fa b) 0 = false.
Lemma alloc_owns b l pa b' : sound b -> owns (fa b) l -> allocate_frame b = Some (pa, b') -> sound b' /\ owns (fa b') (pa :: l) /\ frame_list b' = frame_list b.
Proof.
  intros [W Z0] [Hnd Hu] E. unfold allocate_frame in E. pose proof (Frames.allocate_zeroed_frame_inv (fa b) (phys b)) as H.
  destruct (Frames.allocate_zeroed_frame (fa b) (phys b)) as [[[q |] fa'] m'] eqn:Ea; [| done]. injection E as -> <-. destruct (H _ _ _ W eq_refl) as [W' (i & -> & Hi & Hf & _ & Hfree & _ & _ & Ht)]. clear H.
  assert (i <> 0) by congruence. split; [split; [done |]; cbn; rewrite Hfree, Z0 by lia; done |]. split; [| done]. split.
  - constructor; [| done]. intros Hin. rewrite Forall_forall in Hu. destruct (Hu _ Hin) as (j & Hj & _ & Hfj). unfold Frames.FRAME_SIZE in Hj. assert (i = j) as -> by lia. congruence.
  - constructor.
    + exists i. split; [done |]. cbn. rewrite Ht. split; [lia |]. rewrite Hfree, Z.eqb_refl by lia. apply andb_false_r.
    + eapply Forall_impl; [exact Hu |]. intros q (j & -> & Hj & Hfj). exists j. cbn. rewrite Ht, Hfree, Hfj by lia. done.
Qed.
Lemma dealloc_owns b l pa : sound b -> owns (fa b) (pa :: l) -> exists b', deallocate_frame pa b = Ok b' /\ sound b' /\ owns (fa b') l /\ frames b' = frames b + 1
  /\ leaves b' = leaves b /\ links b' = links b /\ mem b' = mem b.
Proof.
  intros [W Z0] [Hnd Hu]. apply NoDup_cons in Hnd as [Hni Hnd]. apply Forall_cons in Hu as [(i & -> & Hi & Hf) Hu].
  pose proof (Frames.deallocate_frame_inv (fa b) (phys b) (i * 4096) W ltac:(lia)) as H. unfold deallocate_frame. change Frames.FRAME_SIZE with 4096 in H. rewrite Z.div_mul, Z.mod_mul, Hf in H by lia.
  destruct (Frames.deallocate_frame (fa b) (phys b) (i * 4096)) as [[fa' m'] |]; [| lia]. destruct H as (_ & _ & W' & (_ & Hfree & _ & Hn & Ht)). eexists. split; [reflexivity |].
  split; [split; [done |]; cbn; rewrite Hfree, Z0 by lia; lia |]. split; [| done]. split; [done |]. rewrite Forall_forall in Hu |- *. intros q Hq. destruct (Hu q Hq) as (j & -> & Hj & Hfj).
  exists j. split; [done |]. cbn. split; [lia |]. rewrite Hfree, Hfj by lia. cbn. apply Z.eqb_neq. intros ->. done.
Qed.
Lemma dealloc_list l : forall b r, sound b -> owns (fa b) (l ++ r) -> exists b', deallocate_frames l b = Ok b' /\ sound b' /\ owns (fa b') r /\ frames b' = frames b + Z.of_nat (length l)
  /\ leaves b' = leaves b /\ links b' = links b /\ mem b' = mem b.
Proof.
  induction l as [| pa l IH]; intros b r S O; cbn [deallocate_frames]; [exists b; split_and!; try done; cbn; lia |].
  destruct (dealloc_owns b (l ++ r) pa S O) as (b1 & -> & S1 & O1 & F1 & V1 & L1 & M1). cbn [mbind outcome_bind]. destruct (IH b1 r S1 O1) as (b2 & -> & S2 & O2 & F2 & V2 & L2 & M2).
  exists b2. split_and!; try done; try congruence. cbn [length]. lia.
Qed.

(** * Tables *)

Definition page_mapped (b : Backing) (p : Z) : Prop := is_Some (leaves b !! p).
(** A table is there when it has entries; [exact_at b s k] for the table of key [k] at level [s]. *)
Definition exact_at (b : Backing) (s k : Z) : Prop := is_Some (links b !! (s, k)) <-> exists p, Z.shiftr p (s - 12) = k /\ page_mapped b p.
Record tables_ok (b : Backing) : Prop := {
  to_root : is_Some (links b !! (39, Z.shiftr BASE 39));
  to_exact : forall s k, s = 21 \/ s = 30 -> in_region s k -> exact_at b s k }.
Lemma region_shift s va : 12 <= s <= 30 -> BASE <= va < LIMIT -> in_region s (Z.shiftr va s).
Proof.
  intros Hs Hv. unfold in_region. rewrite Z.shiftr_div_pow2 by lia. assert (0 < 2 ^ s) by lia. assert (exists c, BASE = c * 2 ^ s) as [c Hc].
  { exists (BASE / 2 ^ s). assert (BASE mod 2 ^ s = 0) as Hm by (apply Z.mod_divide; [lia |]; apply (Z.divide_trans _ (2 ^ 39)); [exists (2 ^ (39 - s)); rewrite <- Z.pow_add_r by lia; f_equal; lia | by exists 0x1ffffc0]).
    rewrite Z.mul_comm. apply Z.div_exact; lia. }
  split; [rewrite Hc; apply Z.mul_le_mono_nonneg_r; [lia |]; apply Z.div_le_lower_bound; lia |]. pose proof (Z.mul_div_le va (2 ^ s) ltac:(lia)). lia.
Qed.
Lemma root_shift va : BASE <= va < LIMIT -> Z.shiftr va 39 = Z.shiftr BASE 39.
Proof. intros H. rewrite !Z.shiftr_div_pow2 by lia. change (BASE / 2 ^ 39) with 0x1ffffc0. unfold LIMIT, BASE in H. change (Z.shiftl 1 39) with (2 ^ 39) in H. zdiv. Qed.
Lemma page_shift va s : 12 <= s -> Z.shiftr (Z.shiftr va 12) (s - 12) = Z.shiftr va s.
Proof. intros H. rewrite Z.shiftr_shiftr by lia. f_equal. lia. Qed.

(** What mapping a page adds to the links: the tables on its way, when they were missing. *)
Definition links_with (b : Backing) (va : Z) (b' : Backing) : Prop :=
  exists v w, links b' = <[(21, Z.shiftr va 21) := v]> (<[(30, Z.shiftr va 30) := w]> (links b))
    /\ (forall x, links b !! (30, Z.shiftr va 30) = Some x -> x = w) /\ (forall x, links b !! (21, Z.shiftr va 21) = Some x -> x = v).
Lemma ensure_owns s va e b b' l : s = 21 \/ s = 30 -> BASE <= va < LIMIT -> sound b -> owns (fa b) (l ++ frame_list b) -> ensure s va e b = Ok b' ->
  sound b' /\ owns (fa b') (l ++ frame_list b') /\ leaves b' = leaves b
  /\ exists v, links b' = <[(s, Z.shiftr va s) := v]> (links b) /\ forall x, links b !! (s, Z.shiftr va s) = Some x -> x = v.
Proof.
  intros Hs Hv S O. unfold ensure. destruct (links b !! (s, Z.shiftr va s)) as [t |] eqn:E.
  - intros [= <-]. split_and!; try done. exists t. split; [by rewrite insert_id | congruence].
  - destruct (allocate_frame b) as [[pa b1] |] eqn:Ea; cbn [ok_or mbind outcome_bind]; [| done]. intros [= <-]. destruct (alloc_owns b _ pa b1 S O Ea) as (S1 & O1 & F1).
    assert (leaves b1 = leaves b /\ links b1 = links b) as [V1 L1] by (pose proof (allocate_frame_cases b (proj1 S)) as H; rewrite Ea in H; tauto).
    split; [done |]. split; [| split; [done |]; exists pa; split; [cbn; by rewrite L1 | done]].
    eapply owns_perm; [| exact O1]. rewrite Permutation_middle. apply Permutation_app_head. symmetry.
    transitivity (pa :: frame_list b1); [| by rewrite F1]. apply (link_insert b1 s (Z.shiftr va s) pa Hs); [apply region_shift; [lia | done] | by rewrite L1 | done | done].
Qed.
Lemma map_page_owns va pa b b' : BASE <= va < LIMIT -> sound b -> tables_ok b -> owns (fa b) (pa :: frame_list b) -> map_page va pa b = Ok b' ->
  leaves b !! Z.shiftr va 12 = None /\ sound b' /\ owns (fa b') (frame_list b') /\ links_with b va b' /\ leaves b' = <[Z.shiftr va 12 := pa]> (leaves b).
Proof.
  intros Hv S T O. unfold map_page. pose proof (to_root _ T) as [r Hr]. rewrite <- (root_shift va Hv) in Hr. assert (ensure 39 va "OOM: PDP table" b = Ok b) as -> by (unfold ensure; by rewrite Hr). cbn [mbind outcome_bind].
  destruct (ensure 30 va _ b) as [b1 | |] eqn:E1; cbn [mbind outcome_bind]; [| done | done]. destruct (ensure_owns 30 va _ b b1 [pa] (or_intror eq_refl) Hv S O E1) as (S1 & O1 & V1 & w & L1 & Hw).
  destruct (ensure 21 va _ b1) as [b2 | |] eqn:E2; cbn [mbind outcome_bind]; [| done | done]. destruct (ensure_owns 21 va _ b1 b2 [pa] (or_introl eq_refl) Hv S1 O1 E2) as (S2 & O2 & V2 & v & L2 & Hx).
  destruct (leaves b2 !! Z.shiftr va 12) eqn:Hl; [done |]. cbv zeta. intros [= <-]. rewrite V2, V1 in Hl. split; [done |]. split; [done |]. split.
  - eapply owns_perm; [| exact O2]. cbn [app]. symmetry. apply (leaf_insert b2 (Z.shiftr va 12) pa); [apply region_shift; [lia | done] | by rewrite V2, V1 | done | done].
  - split; [| cbn; by rewrite V2, V1]. exists v, w. cbn. rewrite L2, L1. split; [done |]. split; [done |]. intros x Hx'. apply Hx. rewrite L1, lookup_insert_ne by done. done.
Qed.
Lemma links_with_some b va b' x : links_with b va b' -> is_Some (links b' !! x) <-> x = (21, Z.shiftr va 21) \/ x = (30, Z.shiftr va 30) \/ is_Some (links b !! x).
Proof.
  intros (v & w & -> & _). destruct (decide (x = (21, Z.shiftr va 21))) as [-> | H1]; [rewrite lookup_insert_eq; split; eauto |]. rewrite lookup_insert_ne by congruence.
  destruct (decide (x = (30, Z.shiftr va 30))) as [-> | H2]; [rewrite lookup_insert_eq; split; eauto |]. rewrite lookup_insert_ne by congruence. tauto.
Qed.
Lemma page_mapped_insert b b' p pa q : leaves b' = <[p := pa]> (leaves b) -> page_mapped b' q <-> q = p \/ page_mapped b q.
Proof. unfold page_mapped. intros ->. destruct (decide (q = p)) as [-> | H]; [rewrite lookup_insert_eq; split; eauto | rewrite lookup_insert_ne by congruence; tauto]. Qed.
Lemma tables_after_map b va b' pa : tables_ok b -> links_with b va b' -> leaves b' = <[Z.shiftr va 12 := pa]> (leaves b) -> tables_ok b'.
Proof.
  intros [R X] L V. constructor; [apply (links_with_some b va b' _ L); tauto |]. intros s k Hs Hk. unfold exact_at. rewrite (links_with_some b va b' _ L). specialize (X s k Hs Hk).
  assert ((s, k) = (21, Z.shiftr va 21) \/ (s, k) = (30, Z.shiftr va 30) <-> Z.shiftr (Z.shiftr va 12) (s - 12) = k) as Hkey by (destruct Hs as [-> | ->]; rewrite page_shift by lia; split; [intros [[=] | [=]]; done | intros ->; auto | intros [[=] | [=]]; done | intros ->; auto]).
  setoid_rewrite (page_mapped_insert b b' (Z.shiftr va 12) pa _ V). split.
  - intros H. assert (Z.shiftr (Z.shiftr va 12) (s - 12) = k \/ is_Some (links b !! (s, k))) as [Hp | Hp] by tauto; [exists (Z.shiftr va 12); auto |]. apply X in Hp as (p & ? & ?). exists p. auto.
  - intros (p & Hp & [-> | Hm]); [apply Hkey in Hp; tauto |]. right. right. apply X. eauto.
Qed.

(** * Mapping a stack *)

Record region_ok (b : Backing) : Prop := { ro_sound : sound b; ro_tables : tables_ok b; ro_owns : owns (fa b) (frame_list b) }.
Definition new_tables2 (b : Backing) (va : Z) : Z := absent b 30 va + absent b 21 va.
Record page_added (b b' : Backing) (va : Z) (pa : Z) : Prop := {
  pd_ok : region_ok b';
  pd_leaves : leaves b' = <[Z.shiftr va 12 := pa]> (leaves b);
  pd_links : links_with b va b';
  pd_frames : frames b' = frames b - 1 - new_tables2 b va;
  pd_zero : forall a, Z.shiftr a 12 = Z.shiftr va 12 -> a mod 8 = 0 -> mem b' a = 0;
  pd_mem : forall a, Z.shiftr a 12 <> Z.shiftr va 12 -> mem b' a = mem b a }.
Lemma root_absent b va : tables_ok b -> BASE <= va < LIMIT -> absent b 39 va = 0.
Proof. intros T Hv. unfold absent. rewrite (root_shift va Hv). by destruct (to_root _ T) as [r ->]. Qed.
Lemma map_one b va : region_ok b -> BASE <= va < LIMIT -> leaves b !! Z.shiftr va 12 = None ->
  match allocate_frame b with
  | None => frames b <= 0
  | Some (pa, b1) => match map_page va pa b1 with Ok b' => page_added b b' va pa | Err _ => frames b < 1 + new_tables2 b va | Panic => False end
  end.
Proof.
  intros [S T O] Hv Hn. pose proof (allocate_frame_cases b (proj1 S)) as Hc. destruct (allocate_frame b) as [[pa b1] |] eqn:Ea; [| done]. destruct Hc as (W1 & N1 & Z1 & _ & L1 & V1 & M1).
  destruct (alloc_owns b _ pa b1 S O Ea) as (S1 & O1 & F1). rewrite <- F1 in O1.
  assert (tables_ok b1) as T1 by (destruct T as [R X]; constructor; [by rewrite L1 |]; intros s k Hs Hk; unfold exact_at, page_mapped; rewrite L1, V1; by apply X).
  assert (forall s, absent b1 s va = absent b s va) as Ha by (intros; unfold absent; by rewrite L1).
  pose proof (map_page_cases b1 va pa W1 Z1 ltac:(by rewrite V1)) as Hp. unfold new_tables in Hp. rewrite !Ha, (root_absent b va T Hv) in Hp. destruct (map_page va pa b1) as [b' | e |] eqn:Em; [| unfold new_tables2; lia | done].
  destruct Hp as (_ & N2 & V2 & _ & Z2 & M2). destruct (map_page_owns va pa b1 b' Hv S1 T1 O1 Em) as (_ & S2 & O2 & L2 & _).
  constructor; [constructor; [done | by eapply tables_after_map | done] | congruence | | unfold new_tables2; lia | done | intros a Hne; rewrite M2 by done; by rewrite M1].
  destruct L2 as (v & w & E & H1 & H2). exists v, w. by rewrite <- L1.
Qed.
(** Two pages of one table: after the first, no table is missing for the second. *)
Lemma added_tables b b' va pa va' : page_added b b' va pa -> Z.shiftr va' 21 = Z.shiftr va 21 -> new_tables2 b' va' = 0.
Proof.
  intros H E. assert (Z.shiftr va' 30 = Z.shiftr va 30) as E2 by (change 30 with (21 + 9); rewrite <- !Z.shiftr_shiftr by lia; by rewrite E).
  unfold new_tables2, absent. rewrite E, E2. destruct (proj2 (links_with_some b va b' (30, Z.shiftr va 30) (pd_links _ _ _ _ H)) ltac:(auto)) as [? ->]. by destruct (proj2 (links_with_some b va b' (21, Z.shiftr va 21) (pd_links _ _ _ _ H)) ltac:(auto)) as [? ->].
Qed.
Definition within_stack (va : Z) (n : nat) (a : Z) : Prop := va <= a < va + 4096 * Z.of_nat n.
Record stack_added (b b' : Backing) (va : Z) (n : nat) : Prop := {
  sd_ok : region_ok b';
  sd_mapped : forall a, page_mapped b' (Z.shiftr a 12) <-> page_mapped b (Z.shiftr a 12) \/ within_stack va n a;
  sd_leaves : forall a, ~ within_stack va n a -> leaves b' !! Z.shiftr a 12 = leaves b !! Z.shiftr a 12;
  sd_zero : forall a, within_stack va n a -> a mod 8 = 0 -> mem b' a = 0;
  sd_mem : forall a, ~ within_stack va n a -> mem b' a = mem b a }.
Lemma map_stack_cases n : forall va f b, va mod 4096 = 0 -> BASE <= va -> va + 4096 * Z.of_nat n <= LIMIT -> (forall a, within_stack va n a -> Z.shiftr a 21 = Z.shiftr va 21) -> region_ok b ->
  (forall a, within_stack va n a -> ~ page_mapped b (Z.shiftr a 12)) ->
  match map_stack n va f b with
  | Ok (f', b') => stack_added b b' va n /\ frames b' = frames b - (if decide (n = 0%nat) then 0 else Z.of_nat n + new_tables2 b va)
      /\ f' = (if decide (n = 0%nat) then f else match f with Some x => Some x | None => leaves b' !! Z.shiftr va 12 end)
  | Err _ => False
  | Panic => frames b < Z.of_nat n + new_tables2 b va
  end.
Proof.
  induction n as [| n IH]; intros va f b Hva Hb Hl Ht R Hun; cbn [map_stack].
  - split; [| by rewrite Z.sub_0_r]. constructor; unfold within_stack; try done; [intros a; split; [tauto | intros [? | ?]; [done | lia]] | lia].
  - assert (BASE <= va < LIMIT) as Hv by lia. assert (within_stack va (S n) va) as Hw by (unfold within_stack; lia). pose proof (absent_range b 30 va) as R1. pose proof (absent_range b 21 va) as R2.
    pose proof (map_one b va R Hv (proj2 (eq_None_not_Some _) (Hun va Hw))) as H. destruct (allocate_frame b) as [[pa b1] |]; cbn [unwrap mbind outcome_bind]; [| unfold new_tables2; lia].
    unfold expect. destruct (map_page va pa b1) as [b2 | |]; cbn [mbind outcome_bind]; [| lia | done]. pose proof H as [R2' V2 L2 N2 Z2 M2].
    assert (forall a, within_stack va (S n) a <-> va <= a < va + 4096 \/ within_stack (va + 4096) n a) as Hsplit by (intros a; unfold within_stack; lia).
    assert (forall a, page_mapped b2 (Z.shiftr a 12) <-> page_mapped b (Z.shiftr a 12) \/ va <= a < va + 4096) as Hm2 by (intros a; rewrite (page_mapped_insert b b2 _ pa _ V2), <- (page_of va a Hva); tauto).
    specialize (IH (va + PAGE) (Some (default pa f)) b2). change PAGE with 4096 in *.
    specialize (IH ltac:(zdiv) ltac:(lia) ltac:(lia)).
    assert (forall a, within_stack (va + 4096) n a -> Z.shiftr a 21 = Z.shiftr va 21) as Ht' by (intros a Ha; apply Ht, Hsplit; auto).
    specialize (IH ltac:(intros a Ha; rewrite (Ht' a Ha); symmetry; apply Ht'; unfold within_stack in *; lia) R2').
    specialize (IH ltac:(intros a Ha [Hm | Hm]%Hm2; [by apply (Hun a); [apply Hsplit; auto |] | unfold within_stack in Ha; lia])).
    assert (n <> 0%nat -> new_tables2 b2 (va + 4096) = 0) as Hnt by (intros Hn; apply (added_tables b b2 va pa); [done |]; apply Ht'; unfold within_stack; lia).
    destruct (map_stack n (va + 4096) _ b2) as [[f' b'] | |] eqn:Em; [| done | destruct (decide (n = 0%nat)) as [-> | Hn]; [done | specialize (Hnt Hn); lia]].
    destruct IH as ([R' M' V' Z' O'] & N' & Hf). split; [| split].
    + constructor; [done | | | |].
      * intros a. rewrite M', Hm2, Hsplit. tauto.
      * intros a Ha. rewrite Hsplit in Ha. rewrite V' by tauto. rewrite V2, lookup_insert_ne; [done |]. intros E. symmetry in E. apply page_of in E; [tauto | done].
      * intros a Ha Ha8. apply Hsplit in Ha. destruct (decide (within_stack (va + 4096) n a)) as [Hin | Hout]; [by apply Z' |]. rewrite O' by done. apply Z2; [apply page_of; [done | tauto] | done].
      * intros a Ha. rewrite Hsplit in Ha. rewrite O' by tauto. apply M2. rewrite page_of by done. tauto.
    + rewrite N', N2. destruct (decide (S n = 0%nat)); [done |]. destruct (decide (n = 0%nat)) as [-> | Hn]; [lia |]. rewrite (Hnt Hn). lia.
    + destruct (decide (S n = 0%nat)); [done |]. rewrite Hf. assert (leaves b' !! Z.shiftr va 12 = Some pa) as -> by (rewrite V' by (unfold within_stack; lia); by rewrite V2, lookup_insert_eq). destruct (decide (n = 0%nat)); by destruct f.
Qed.

(** * Unmapping a stack *)

(** The tables while a stack at [va] is taken apart: its own may be empty. *)
Record tables_but (b : Backing) (va : Z) : Prop := {
  tb_root : is_Some (links b !! (39, Z.shiftr BASE 39));
  tb_own : forall s, s = 21 \/ s = 30 -> is_Some (links b !! (s, Z.shiftr va s));
  tb_exact : forall s k, s = 21 \/ s = 30 -> in_region s k -> k <> Z.shiftr va s -> exact_at b s k }.
Lemma tables_ok_but b va : tables_ok b -> BASE <= va < LIMIT -> page_mapped b (Z.shiftr va 12) -> tables_but b va.
Proof.
  intros [R X] Hv Hm. constructor; [done | | intros; by apply X]. intros s Hs. apply X; [done | apply region_shift; [lia | done] |]. exists (Z.shiftr va 12). split; [apply page_shift; lia | done].
Qed.
Lemma unload_sound b page pa : sound b -> in_use (fa b) pa -> sound (b <| phys := unload page pa b |>).
Proof.
  intros [W Z0] (i & -> & Hi & Hf). split; [| done]. constructor; try apply W. intros j Hj Hfj Hz. eapply Frames.frame_zero_ext, (Frames.wf_zero _ _ W j); try done.
  intros a Ha. cbn. unfold unload. change PAGE with 4096. destruct (_ && _) eqn:E; [| done]. exfalso. assert (i = j) as -> by (unfold Frames.in_frame, Frames.FRAME_SIZE in Ha; lia). cbn in Hfj. congruence.
Qed.
Lemma same_tables va v : Z.shiftr va 21 = Z.shiftr v 21 -> forall s, s = 21 \/ s = 30 -> Z.shiftr va s = Z.shiftr v s.
Proof. intros E s [-> | ->]; [done |]. change 30 with (21 + 9). rewrite <- !Z.shiftr_shiftr by lia. by rewrite E. Qed.
Lemma unmap_one b va v l : sound b -> tables_but b v -> BASE <= va < LIMIT -> Z.shiftr va 21 = Z.shiftr v 21 -> page_mapped b (Z.shiftr va 12) -> owns (fa b) (l ++ frame_list b) ->
  exists pa b', unmap_page va b = Ok (pa, b') /\ leaves b !! Z.shiftr va 12 = Some pa /\ sound b' /\ tables_but b' v /\ owns (fa b') ((l ++ [pa]) ++ frame_list b')
    /\ leaves b' = delete (Z.shiftr va 12) (leaves b) /\ links b' = links b /\ mem b' = mem b /\ frames b' = frames b.
Proof.
  intros S [R O X] Hv Et [pa Hl] Ow. pose proof (same_tables va v Et) as Es. unfold unmap_page, present. rewrite (root_shift va Hv), (Es 30), (Es 21) by auto.
  rewrite !bool_decide_true by auto. cbn [negb]. rewrite Hl. exists pa. eexists. split; [reflexivity |]. split; [done |]. assert (in_region 12 (Z.shiftr va 12)) as Hreg by (apply region_shift; [lia | done]).
  assert (in_use (fa b) pa) as Hu by (destruct Ow as [_ Hf]; rewrite Forall_forall in Hf; apply Hf, elem_of_app; right; by eapply leaf_owned).
  split; [exact (unload_sound b _ pa S Hu) |]. split; [| split; [| done]].
  - constructor; [done | done |]. intros s k Hs Hk Hne. pose proof (X s k Hs Hk Hne) as Hx. unfold exact_at, page_mapped in Hx |- *. cbn. rewrite Hx. split; intros (p & Hp & Hm); exists p; (split; [done |]).
    + rewrite lookup_delete_ne; [done |]. intros <-. rewrite page_shift, (Es s Hs) in Hp by lia. congruence.
    + destruct (decide (p = Z.shiftr va 12)) as [-> | Hpne]; [by rewrite lookup_delete_eq in Hm; destruct Hm | by rewrite lookup_delete_ne in Hm].
  - eapply owns_perm; [| exact Ow]. rewrite <- app_assoc. apply Permutation_app_head. by apply (leaf_delete b (Z.shiftr va 12) pa Hreg Hl).
Qed.
Lemma unmap_stack_cases n : forall va b v l, va mod 4096 = 0 -> BASE <= va -> va + 4096 * Z.of_nat n <= LIMIT -> (forall a, within_stack va n a -> Z.shiftr a 21 = Z.shiftr v 21) ->
  sound b -> tables_but b v -> (forall a, within_stack va n a -> page_mapped b (Z.shiftr a 12)) -> owns (fa b) (l ++ frame_list b) ->
  exists fs b', unmap_stack n va b = Ok (fs, b') /\ length fs = n /\ sound b' /\ tables_but b' v /\ owns (fa b') ((l ++ fs) ++ frame_list b') /\ head fs = (if decide (n = 0%nat) then None else leaves b !! Z.shiftr va 12)
    /\ (forall a, leaves b' !! Z.shiftr a 12 = if decide (va <= a < va + 4096 * Z.of_nat n) then None else leaves b !! Z.shiftr a 12) /\ mem b' = mem b /\ frames b' = frames b.
Proof.
  induction n as [| n IH]; intros va b v l Hva Hb Hl Ht Sd T Hm Ow; cbn [unmap_stack].
  - exists [], b. rewrite app_nil_r. split_and!; try done. intros a. rewrite decide_False by lia. done.
  - assert (within_stack va (S n) va) as Hw by (unfold within_stack; lia). destruct (unmap_one b va v l Sd T ltac:(lia) (Ht va Hw) (Hm va Hw) Ow) as (pa & b1 & -> & Hpa & S1 & T1 & O1 & V1 & L1 & M1 & N1).
    unfold expect. cbn [mbind outcome_bind]. change PAGE with 4096. assert (forall a, within_stack (va + 4096) n a -> within_stack va (S n) a) as Hsub by (unfold within_stack; lia).
    destruct (IH (va + 4096) b1 v (l ++ [pa]) ltac:(zdiv) ltac:(lia) ltac:(lia)) as (fs & b2 & -> & Hlen & S2 & T2 & O2 & _ & V2 & M2 & N2); [intros a Ha; exact (Ht a (Hsub a Ha)) | done | done | | done |].
    { intros a Ha. unfold page_mapped. rewrite V1, lookup_delete_ne; [by apply Hm, Hsub |]. intros E. symmetry in E. apply page_of in E; [unfold within_stack in Ha; lia | done]. }
    cbn [mbind outcome_bind]. exists (pa :: fs), b2. split; [done |]. split; [cbn; lia |]. split; [done |]. split; [done |]. split; [by rewrite <- (app_assoc l [pa] fs) in O2 |]. split; [by rewrite Hpa |].
    split; [| split; congruence]. intros a. rewrite V2. pose proof (page_of va a Hva) as Hpg. destruct (decide (va + 4096 <= a < _)); [rewrite decide_True by lia; done |]. rewrite V1.
    destruct (decide (va <= a < va + 4096 * Z.of_nat (S n))); [rewrite (proj2 Hpg) by lia; apply lookup_delete_eq | rewrite lookup_delete_ne; [done |]; intros E; symmetry in E; apply Hpg in E; lia].
Qed.

(** * Releasing empty tables *)

Lemma all_entries (f : Z -> bool) k : forallb (fun i => f (k * 512 + i)) (seqZ 0 512) = true <-> forall j, Z.shiftr j 9 = k -> f j = true.
Proof.
  rewrite forallb_forall. split.
  - intros H j Hj. rewrite Z.shiftr_div_pow2 in Hj by lia. replace j with (k * 512 + (j - k * 512)) by lia. apply H, list_elem_of_In, elem_of_seqZ. zdiv.
  - intros H i Hi%list_elem_of_In%elem_of_seqZ. apply H. rewrite Z.shiftr_div_pow2 by lia. zdiv.
Qed.
Lemma table_empty_spec va b : table_empty va b = true <-> forall p, Z.shiftr p 9 = Z.shiftr va 21 -> ~ page_mapped b p.
Proof. unfold table_empty. etransitivity; [exact (all_entries (fun p => bool_decide (leaves b !! p = None)) _) |]. unfold page_mapped. setoid_rewrite bool_decide_eq_true. setoid_rewrite eq_None_not_Some. done. Qed.
Lemma directory_empty_spec va b : directory_empty va b = true <-> forall j, Z.shiftr j 9 = Z.shiftr va 30 -> ~ is_Some (links b !! (21, j)).
Proof. unfold directory_empty. etransitivity; [exact (all_entries (fun j => bool_decide (links b !! (21, j) = None)) _) |]. setoid_rewrite bool_decide_eq_true. setoid_rewrite eq_None_not_Some. done. Qed.
Lemma not_all_entries (f : Z -> bool) k : forallb (fun i => f (k * 512 + i)) (seqZ 0 512) = false -> exists j, Z.shiftr j 9 = k /\ f j = false.
Proof.
  intros H. apply not_true_iff_false in H. destruct (Exists_dec (fun i => f (k * 512 + i) = false) (seqZ 0 512)) as [(i & Hi & Hf)%Exists_exists | Hn].
  - apply elem_of_seqZ in Hi. exists (k * 512 + i). split; [rewrite Z.shiftr_div_pow2 by lia; zdiv | done].
  - destruct H. apply forallb_forall. intros i Hi. destruct (f (k * 512 + i)) eqn:E; [done |]. destruct Hn. apply Exists_exists. exists i. split; [by apply list_elem_of_In | done].
Qed.
Lemma table_entry va b : table_empty va b = false -> exists p, Z.shiftr p 9 = Z.shiftr va 21 /\ page_mapped b p.
Proof.
  intros H. unfold table_empty in H. destruct (not_all_entries (fun p => bool_decide (leaves b !! p = None)) _ H) as (p & Hp & Hl). exists p. split; [done |]. apply bool_decide_eq_false in Hl. unfold page_mapped. by destruct (leaves b !! p).
Qed.
Lemma directory_entry va b : directory_empty va b = false -> exists j, Z.shiftr j 9 = Z.shiftr va 30 /\ is_Some (links b !! (21, j)).
Proof.
  intros H. unfold directory_empty in H. destruct (not_all_entries (fun j => bool_decide (links b !! (21, j) = None)) _ H) as (j & Hj & Hl). exists j. split; [done |]. apply bool_decide_eq_false in Hl. by destruct (links b !! (21, j)).
Qed.
Lemma shift9 j s : 0 <= s -> Z.shiftr (Z.shiftr j 9) s = Z.shiftr j (9 + s).
Proof. intros. rewrite Z.shiftr_shiftr by lia. done. Qed.
(** A page of another table than [v]'s shows that its own table is there. *)
Lemma other_table b v p : tables_but b v -> BASE <= v < LIMIT -> Z.shiftr p 18 = Z.shiftr v 30 -> Z.shiftr p 9 <> Z.shiftr v 21 -> page_mapped b p -> is_Some (links b !! (21, Z.shiftr p 9)).
Proof.
  intros [_ _ X] Hv Hp Hne Hm. apply (X 21); [auto | | done | by exists p]. unfold in_region. pose proof (region_shift 30 v ltac:(lia) Hv) as Hr. unfold in_region in Hr. rewrite <- Hp in Hr.
  rewrite !Z.shiftr_div_pow2 in * by lia. change (2 ^ 18) with (512 * 512) in *. change (2 ^ 9) with 512 in *. unfold LIMIT, BASE in *. change (Z.shiftl 1 39) with 549755813888 in *. clear - Hr. rewrite <- (Z.div_div p 512 512) in Hr by lia. change (2 ^ 30) with 1073741824 in Hr. change (2 ^ 21) with 2097152. zdiv.
Qed.
Definition nonzero (l : list Z) : list Z := List.filter (fun pa => negb (pa =? 0)) l.
Lemma absent_unused s v b : absent (set_unused s v b) s v = 1.
Proof. unfold absent. cbn. by rewrite lookup_delete_eq. Qed.
Lemma absent_some s v b : is_Some (links b !! (s, Z.shiftr v s)) -> absent b s v = 0.
Proof. unfold absent. by intros [x ->]. Qed.
Lemma absent_other s t v b : s <> t -> absent (set_unused s v b) t v = absent b t v.
Proof. intros H. unfold absent. cbn. by rewrite lookup_delete_ne by congruence. Qed.
Lemma link_in_use b s k pa l : s = 21 \/ s = 30 -> in_region s k -> links b !! (s, k) = Some pa -> owns (fa b) (l ++ frame_list b) -> pa <> 0.
Proof.
  intros Hs Hk Hl [_ Hf]. rewrite Forall_forall in Hf. destruct (Hf pa) as (i & -> & Hi & _); [| lia]. apply elem_of_app. right. apply elem_of_app. right. apply list_elem_of_fmap. exists ((s, k), pa). split; [done |].
  apply elem_of_map_to_list, map_lookup_filter_Some. done.
Qed.
Lemma set_unused_owns b s v l : s = 21 \/ s = 30 -> BASE <= v < LIMIT -> is_Some (links b !! (s, Z.shiftr v s)) -> owns (fa b) (l ++ frame_list b) ->
  entry s v b <> 0 /\ owns (fa b) ((l ++ [entry s v b]) ++ frame_list (set_unused s v b)).
Proof.
  intros Hs Hv [pa Hp] O. assert (in_region s (Z.shiftr v s)) as Hr by (apply region_shift; [lia | done]). unfold entry. rewrite Hp. cbn. split; [by eapply link_in_use |].
  eapply owns_perm; [| exact O]. rewrite <- app_assoc. apply Permutation_app_head. by apply (link_delete b s (Z.shiftr v s) pa Hs Hr Hp).
Qed.
Lemma exact_ext b b' s k : leaves b' = leaves b -> links b' !! (s, k) = links b !! (s, k) -> exact_at b s k -> exact_at b' s k.
Proof. unfold exact_at, page_mapped. by intros -> ->. Qed.
Lemma exact_none b s k : links b !! (s, k) = None -> (forall p, Z.shiftr p (s - 12) = k -> ~ page_mapped b p) -> exact_at b s k.
Proof. intros Hl Hn. unfold exact_at. rewrite Hl. split; [by intros [? ?] | intros (p & Hp & Hm); by destruct (Hn p Hp)]. Qed.
Lemma unused_other s v b x : x <> (s, Z.shiftr v s) -> links (set_unused s v b) !! x = links b !! x.
Proof. intros H. cbn. by rewrite lookup_delete_ne by congruence. Qed.
(** Exactness of all tables from exactness of the others and of the two of [v]. *)
Lemma tables_from b b' v : tables_but b v -> leaves b' = leaves b -> (forall x, x <> (21, Z.shiftr v 21) -> x <> (30, Z.shiftr v 30) -> links b' !! x = links b !! x) ->
  exact_at b' 21 (Z.shiftr v 21) -> exact_at b' 30 (Z.shiftr v 30) -> tables_ok b'.
Proof.
  intros [R _ X] V L E1 E2. constructor; [by rewrite L |]. intros s k Hs Hk. destruct (decide (k = Z.shiftr v s)) as [-> | Hne]; [by destruct Hs as [-> | ->] |].
  apply (exact_ext b); [done | | by apply X]. destruct Hs as [-> | ->]; apply L; congruence.
Qed.
Lemma detach_cases b v l : sound b -> tables_but b v -> BASE <= v < LIMIT -> owns (fa b) (l ++ frame_list b) ->
  exists r b', detach_empty v b = (r, b') /\ sound b' /\ tables_ok b' /\ owns (fa b') ((l ++ nonzero r) ++ frame_list b') /\ leaves b' = leaves b /\ mem b' = mem b /\ frames b' = frames b
    /\ Z.of_nat (length (nonzero r)) = new_tables2 b' v.
Proof.
  intros S T Hv O. pose proof (tb_own _ _ T) as Hown. unfold detach_empty. destruct (table_empty v b) eqn:Et.
  - rewrite table_empty_spec in Et. destruct (set_unused_owns b 21 v l (or_introl eq_refl) Hv (Hown 21 ltac:(auto)) O) as [N1 O1].
    assert (exact_at (set_unused 21 v b) 21 (Z.shiftr v 21)) as X21 by (apply exact_none; [cbn; apply lookup_delete_eq | exact Et]).
    assert (forall x, x <> (21, Z.shiftr v 21) -> links (set_unused 21 v b) !! x = links b !! x) as Hoth by (intros; by apply unused_other).
    destruct (directory_empty v (set_unused 21 v b)) eqn:Ed.
    + rewrite directory_empty_spec in Ed. assert (is_Some (links (set_unused 21 v b) !! (30, Z.shiftr v 30))) as H30 by (rewrite Hoth by done; apply Hown; auto).
      destruct (set_unused_owns (set_unused 21 v b) 30 v _ (or_intror eq_refl) Hv H30 O1) as [N2 O2]. assert (entry 30 v (set_unused 21 v b) = entry 30 v b) as Ee by (unfold entry; by rewrite Hoth).
      rewrite Ee in N2, O2. eexists _, _. split; [reflexivity |]. split; [done |]. split.
      * apply (tables_from b _ v T); [done | intros x H1 H2; rewrite unused_other, Hoth; done | eapply exact_ext; [| | exact X21]; [done | by rewrite unused_other] |]. apply exact_none; [cbn; apply lookup_delete_eq |].
        intros p Hp Hm. change (30 - 12) with 18 in Hp. destruct (decide (Z.shiftr p 9 = Z.shiftr v 21)) as [He | He]; [by apply (Et p He) |].
        apply (Ed (Z.shiftr p 9)); [rewrite Z.shiftr_shiftr by lia; exact Hp |]. rewrite Hoth by congruence. by apply (other_table b v).
      * unfold nonzero. cbn [List.filter]. rewrite (proj2 (Z.eqb_neq _ _) N1), (proj2 (Z.eqb_neq _ _) N2). cbn [negb]. rewrite <- (app_assoc l [_] [_]) in O2. split_and!; try done.
        unfold new_tables2. by rewrite absent_unused, absent_other, absent_unused.
    + destruct (directory_entry v _ Ed) as (j & Hj & Hl). eexists _, _. split; [reflexivity |]. split; [done |]. split.
      * apply (tables_from b _ v T); [done | intros x H1 H2; by apply Hoth | done |]. split; [intros _ | intros _; rewrite Hoth by done; apply Hown; auto].
        assert (j <> Z.shiftr v 21) as Hne by (intros ->; cbn in Hl; rewrite lookup_delete_eq in Hl; by destruct Hl). rewrite Hoth in Hl by congruence.
        assert (in_region 21 j) as Hreg. { pose proof (region_shift 30 v ltac:(lia) Hv) as Hr. rewrite <- Hj in Hr. unfold in_region in *. rewrite !Z.shiftr_div_pow2 in * by lia. change (2 ^ 9) with 512 in *. unfold LIMIT, BASE in *. change (Z.shiftl 1 39) with 549755813888 in *. clear - Hr. change (2 ^ 30) with 1073741824 in Hr. change (2 ^ 21) with 2097152. zdiv. }
        destruct (proj1 (tb_exact _ _ T 21 j (or_introl eq_refl) Hreg Hne) Hl) as (p & Hp & Hm). exists p. split; [| done]. change (30 - 12) with (9 + 9). change (21 - 12) with 9 in Hp. rewrite <- shift9 by lia. congruence.
      * unfold nonzero. cbn [List.filter]. rewrite (proj2 (Z.eqb_neq _ _) N1). split_and!; try done. unfold new_tables2. rewrite absent_unused, absent_other, (absent_some 30) by (done || apply Hown; auto). done.
  - destruct (table_entry v b Et) as (p & Hp & Hm).
    exists [0; 0], b. split; [done |]. split; [done |]. split; [| rewrite app_nil_r; split_and!; try done; unfold new_tables2; by rewrite !absent_some by (apply Hown; auto)]. apply (tables_from b b v T); [done | done | |]; (split; [intros _; exists p | intros _; apply Hown; auto]); (split; [| done]); [exact Hp |].
    change (30 - 12) with (9 + 9). rewrite <- shift9, Hp by lia. rewrite Z.shiftr_shiftr by lia. done.
Qed.
End StacksFacts.
