(* ===== verification/StacksSound.v ===== *)
(** Kernel stacks: invariant of every reachable state, and that allocation and release do what
    they promise beside any other use of frames and page tables. *)

From Stdlib Require Import ZArith Lia.
From stdpp Require Import base list list_numbers numbers decidable tactics strings gmap.
From S2P Require Import Prelude Records FrameAllocator UserSpace Scheduler Heap HeapFacts HeapSound Stacks StacksFacts.
Import StackLayout Heap HeapFacts Stacks StacksFacts.
Import Sched(KernelStack, mkKernelStack, ks_virt, ks_phys, ks_size).

Module StacksSound.

(** The allocator, the stacks in use, and all stacks ever handed out. *)
Record Machine := mkMachine { stacks : Stacks; live : list KernelStack; ever : list KernelStack }.
Definition holds (k : KernelStack) (a : Z) : Prop := ks_virt k <= a < ks_virt k + ks_size k.
Definition size_ok (size : Z) : Prop := size = PAGE \/ size = SIZE.
Definition others (k : KernelStack) (l : list KernelStack) : list KernelStack := filter (fun k' => ks_virt k' <> ks_virt k) l.

(** What the rest of the kernel may do to memory: use frames and tables of its own. *)
Record keeps (b b' : Backing) : Prop := {
  kp_sound : sound b';
  kp_leaves : forall p, in_region 12 p -> leaves b' !! p = leaves b !! p;
  kp_links : forall s k, s = 21 \/ s = 30 -> in_region s k -> links b' !! (s, k) = links b !! (s, k);
  kp_root : is_Some (links b !! (39, Z.shiftr BASE 39)) -> is_Some (links b' !! (39, Z.shiftr BASE 39));
  kp_use : Forall (in_use (fa b')) (frame_list b) }.
(** Before [init] nothing is mapped in the region. *)
Record region_empty (b : Backing) : Prop := {
  re_sound : sound b;
  re_leaves : forall p, in_region 12 p -> leaves b !! p = None;
  re_links : forall s k, s = 21 \/ s = 30 -> in_region s k -> links b !! (s, k) = None;
  re_root : links b !! (39, Z.shiftr BASE 39) = None }.

Inductive sstep : Machine -> Machine -> Prop :=
| st_allocate s l e running irqs size k s' : size_ok size -> allocate_sized running irqs size s = Ok (k, s') -> sstep (mkMachine s l e) (mkMachine s' (k :: l) (k :: e))
| st_release s l e running irqs k n s' : k ∈ l -> release_sized running irqs (ks_virt k) (ks_phys k) (ks_size k) s = Ok (n, s') -> sstep (mkMachine s l e) (mkMachine s' (others k l) e)
| st_rest s l e b' : keeps (pages s) b' -> sstep (mkMachine s l e) (mkMachine (s <| pages := b' |>) l e).
Inductive reachable : Machine -> Prop :=
| re_init word b s : region_empty b -> init word b = Ok s -> reachable (mkMachine s [] [])
| re_step m m' : reachable m -> sstep m m' -> reachable m'.

(** * The invariant *)

Abbreviation backing m := (pages (stacks m)).
Record placed (s : Stacks) (k : KernelStack) : Prop := {
  pl_slot : (ks_virt k - PAGE) mod STRIDE = 0;
  pl_first : first s <= ks_virt k - PAGE;
  pl_next : ks_virt k - PAGE + STRIDE <= next s;
  pl_size : size_ok (ks_size k) }.
Record stacks_ok (m : Machine) : Prop := {
  so_region : region_ok (backing m);
  so_first : BASE + STRIDE <= first (stacks m) /\ first (stacks m) mod STRIDE = 0;
  so_next : first (stacks m) <= next (stacks m) <= LIMIT;
  so_aligned : next (stacks m) mod STRIDE = 0;
  so_placed : forall k, k ∈ ever m -> placed (stacks m) k;
  so_live : forall k, k ∈ live m -> k ∈ ever m /\ leaves (backing m) !! Z.shiftr (ks_virt k) 12 = Some (ks_phys k);
  so_unique : forall k k', k ∈ live m -> k' ∈ live m -> ks_virt k = ks_virt k' -> k = k';
  so_pages : forall a, BASE <= a < LIMIT -> page_mapped (backing m) (Z.shiftr a 12) <-> BASE <= a < BASE + PAGE \/ exists k, k ∈ live m /\ holds k a }.

Lemma mapped_iff b a : tables_ok b -> BASE <= a < LIMIT -> mapped a b = true <-> page_mapped b (Z.shiftr a 12).
Proof.
  intros T Ha. unfold mapped, present. rewrite !andb_true_iff, !bool_decide_eq_true. split; [tauto |]. intros Hm. destruct (tables_ok_but b a T Ha Hm) as [R O _]. rewrite (root_shift a Ha). split_and!; auto.
Qed.
(** Addresses of different slots are apart; guards belong to no stack. *)
Lemma slot_of s k a : placed s k -> holds k a -> Z.shiftr a 16 * STRIDE = ks_virt k - PAGE.
Proof. intros [H1 _ _ Hs] Ha. unfold holds, size_ok, STRIDE, PAGE, SIZE in *. rewrite Z.shiftr_div_pow2 by lia. change (2 ^ 16) with 65536. zdiv. Qed.
Lemma holds_region m k a : stacks_ok m -> k ∈ ever m -> ks_virt k - PAGE <= a < ks_virt k - PAGE + STRIDE -> first (stacks m) <= a < next (stacks m).
Proof. intros H Hk Ha. destruct (so_placed _ H k Hk) as [_ H1 H2 _]. lia. Qed.
(** The pages of a slot: only the stack itself. *)
Lemma slot_pages m k a : stacks_ok m -> k ∈ live m -> ks_virt k - PAGE <= a < ks_virt k - PAGE + STRIDE -> page_mapped (backing m) (Z.shiftr a 12) <-> holds k a.
Proof.
  intros H Hk Ha. destruct (so_live _ H k Hk) as [He _]. pose proof (holds_region m k a H He Ha) as Hr. pose proof (so_first _ H) as [F1 F2].
  pose proof (so_next _ H) as Hlim.
  rewrite (so_pages _ H) by (unfold STRIDE in *; lia). split; [| intros; right; by exists k]. intros [Hb | (k' & Hk' & Hh)]; [unfold STRIDE, PAGE in *; lia |].
  destruct (so_live _ H k' Hk') as [He' _]. pose proof (so_placed _ H k He) as P. pose proof (so_placed _ H k' He') as P'. pose proof (slot_of _ _ _ P' Hh) as E. assert (k = k') as ->; [| done].
  apply (so_unique _ H); [done | done |]. pose proof (pl_slot _ _ P). clear - E Ha H0. rewrite Z.shiftr_div_pow2 in E by lia. change (2 ^ 16) with 65536 in E. unfold STRIDE, PAGE in *. zdiv.
Qed.
(** Above [next] nothing is mapped. *)
Lemma above_free m a : stacks_ok m -> next (stacks m) <= a < LIMIT -> ~ page_mapped (backing m) (Z.shiftr a 12).
Proof.
  intros H Ha Hm. pose proof (so_first _ H) as [F1 _]. pose proof (so_next _ H). apply (so_pages _ H) in Hm; [| unfold STRIDE in *; lia]. destruct Hm as [Hb | (k & Hk & Hh)]; [unfold STRIDE, PAGE in *; lia |].
  destruct (so_live _ H k Hk) as [He _]. destruct (so_placed _ H k He) as [_ _ H2 Hs]. unfold holds, size_ok, STRIDE, PAGE, SIZE in *. lia.
Qed.

(** * Allocation *)

Definition pages_of (size : Z) : nat := Z.to_nat (size / PAGE).
Lemma pages_size size : size_ok size -> 4096 * Z.of_nat (pages_of size) = size /\ (0 < pages_of size)%nat.
Proof. intros [-> | ->]; (split; [reflexivity | by apply Nat.ltb_lt]). Qed.
Lemma pages_quotient size : size_ok size -> size / PAGE = Z.of_nat (pages_of size).
Proof. intros [-> | ->]; done. Qed.
Lemma slot_table g n a : g mod STRIDE = 0 -> 4096 * Z.of_nat n <= SIZE -> within_stack (g + PAGE) n a -> Z.shiftr a 21 = Z.shiftr (g + PAGE) 21.
Proof. intros Hg Hn Ha. unfold within_stack, STRIDE, PAGE, SIZE in *. rewrite !Z.shiftr_div_pow2 by lia. change (2 ^ 21) with 2097152. zdiv. Qed.
Definition frames_needed (b : Backing) (va size : Z) : Z := size / PAGE + new_tables2 b va.
Record granted (m : Machine) (size : Z) (k : KernelStack) (s' : Stacks) : Prop := {
  gr_ok : stacks_ok (mkMachine s' (k :: live m) (k :: ever m));
  gr_virt : ks_virt k = next (stacks m) + PAGE;
  gr_size : ks_size k = size;
  gr_frames : frames (pages s') = frames (backing m) - frames_needed (backing m) (ks_virt k) size;
  gr_zero : forall a, holds k a -> a mod 8 = 0 -> mem (pages s') a = 0;
  gr_mem : forall a, ~ holds k a -> mem (pages s') a = mem (backing m) a }.
Lemma placed_later s s' k : first s' = first s -> next s <= next s' -> placed s k -> placed s' k.
Proof. intros H1 H2 [P1 P2 P3 P4]. constructor; try done; lia. Qed.
Lemma allocate_cases m running irqs size : stacks_ok m -> negb running || irqs = true -> size_ok size ->
  match allocate_sized running irqs size (stacks m) with
  | Ok (k, s') => granted m size k s'
  | Err _ => False
  | Panic => LIMIT < next (stacks m) + STRIDE \/ frames (backing m) < frames_needed (backing m) (next (stacks m) + PAGE) size
  end.
Proof.
  intros H Hirq Hs. unfold allocate_sized. rewrite Hirq. cbn [assert_that mbind outcome_bind]. set (g := next (stacks m)). pose proof (so_next _ H) as Hn. fold g in Hn. pose proof (so_first _ H) as [F1 F2]. pose proof (so_aligned _ H) as Hg. fold g in Hg.
  pose proof (pages_size size Hs) as [Hps Hpos]. assert (PAGE <= size <= SIZE) as Hsz by (destruct Hs as [-> | ->]; done). assert (BASE + STRIDE <= g) as Hbg by lia. assert (LIMIT < 2 ^ 64 - STRIDE) as Hl64 by done. assert (0 < BASE) as Hb0 by done.
  unfold checked_add. rewrite (proj2 (Z.ltb_lt _ _)) by (unfold STRIDE in *; lia). destruct (Z.leb_spec (g + STRIDE) LIMIT) as [Hfit | Hno]; cbn [unwrap mbind outcome_bind]; [| by left].
  pose proof (ro_tables _ (so_region _ H)) as T. assert (forall a, g <= a < g + STRIDE -> mapped a (backing m) = false) as Hun.
  { intros a Ha. apply not_true_iff_false. rewrite mapped_iff by (done || unfold STRIDE in *; lia). apply above_free; [done |]. fold g. lia. }
  rewrite (Hun g), (Hun (g + PAGE + size)) by (unfold STRIDE, PAGE, SIZE in *; lia). cbn [negb assert_that mbind outcome_bind]. fold (pages_of size).
  pose proof (map_stack_cases (pages_of size) (g + PAGE) None (backing m)) as Hc. unfold within_stack in Hc at 2. rewrite Hps in Hc.
  specialize (Hc ltac:(unfold STRIDE, PAGE in *; zdiv) ltac:(unfold STRIDE, PAGE in *; lia) ltac:(unfold STRIDE, PAGE, SIZE in *; lia)).
  specialize (Hc ltac:(intros a Ha; by apply (slot_table g (pages_of size)); [| lia |]) (so_region _ H) ltac:(intros a Ha; apply above_free; [done |]; fold g; unfold STRIDE, PAGE, SIZE in *; lia)).
  destruct (map_stack _ _ _ _) as [[f b'] | |]; cbn [mbind outcome_bind]; [| done | right; unfold frames_needed, pages_of in *; lia].
  destruct Hc as ([R M V Z0 O] & N & ->). rewrite decide_False in N by lia. rewrite decide_False by lia. unfold within_stack in *. rewrite Hps in *.
  assert (page_mapped b' (Z.shiftr (g + PAGE) 12)) as [p Hp] by (apply M; right; lia). rewrite Hp. cbn [unwrap mbind outcome_bind].
  change ((stacks m) <| next := g + STRIDE |> <| pages := b' |>) with (mkStacks (first (stacks m)) (g + STRIDE) b').
  constructor; try done; [| unfold frames_needed; rewrite (pages_quotient size Hs); exact N].
  constructor; cbn [stacks live ever pages first next]; [done | done | unfold STRIDE in *; lia | unfold STRIDE in *; zdiv | | | |].
  - intros k [-> | Hk]%elem_of_cons; [constructor; cbn; unfold STRIDE, PAGE in *; try done; try lia; zdiv |]. apply (placed_later (stacks m)); [done | | by apply (so_placed _ H)]. cbn. fold g. unfold STRIDE. lia.
  - intros k [-> | Hk]%elem_of_cons; [split; [by left | done] |]. destruct (so_live _ H k Hk) as [He Hl]. split; [by right |]. rewrite V; [done |]. destruct (so_placed _ H k He). fold g in pl_next0. unfold STRIDE, PAGE in *. lia.
  - intros k k' [-> | Hk]%elem_of_cons [-> | Hk']%elem_of_cons E; [done | | | by apply (so_unique _ H)]; exfalso; [destruct (so_live _ H k' Hk') as [He _] | destruct (so_live _ H k Hk) as [He _]]; destruct (so_placed _ H _ He); fold g in pl_next0; cbn in E; unfold STRIDE, PAGE in *; lia.
  - intros a Ha. rewrite M, (so_pages _ H a Ha). setoid_rewrite elem_of_cons. split; [intros [[? | (k & ? & ?)] | Hin]; [by left | right; exists k; auto | right; eexists; split; [by left | exact Hin]] | intros [? | (k & [-> | Hk] & Hh)]; [auto | right; exact Hh | left; right; by exists k]].
Qed.

(** * Release *)

Lemma frame_list_same b b' : leaves b' = leaves b -> links b' = links b -> frame_list b' = frame_list b.
Proof. unfold frame_list. by intros -> ->. Qed.
Lemma stack_tables_same b b' : leaves b' = leaves b -> links b' = links b -> tables_ok b -> tables_ok b'.
Proof. intros V L [R X]. constructor; [by rewrite L |]. intros s k Hs Hk. apply (exact_ext b); [done | by rewrite L | by apply X]. Qed.
Record released (m : Machine) (k : KernelStack) (n : Z) (s' : Stacks) : Prop := {
  rl_ok : stacks_ok (mkMachine s' (others k (live m)) (ever m));
  rl_frames : frames (pages s') = frames (backing m) + n;
  rl_count : n = ks_size k / PAGE + new_tables2 (pages s') (ks_virt k);
  rl_leaves : forall a, ~ holds k a -> leaves (pages s') !! Z.shiftr a 12 = leaves (backing m) !! Z.shiftr a 12;
  rl_mem : mem (pages s') = mem (backing m) }.
Lemma others_elem k k' l : k' ∈ others k l <-> k' ∈ l /\ ks_virt k' <> ks_virt k.
Proof. unfold others. rewrite list_elem_of_filter. tauto. Qed.
(** The state after the pages of [k] are gone. *)
Lemma released_ok m k b' : stacks_ok m -> k ∈ live m -> region_ok b' -> (forall a, leaves b' !! Z.shiftr a 12 = if decide (ks_virt k <= a < ks_virt k + ks_size k) then None else leaves (backing m) !! Z.shiftr a 12) ->
  stacks_ok (mkMachine ((stacks m) <| pages := b' |>) (others k (live m)) (ever m)).
Proof.
  intros H Hk R V. change ((stacks m) <| pages := b' |>) with (mkStacks (first (stacks m)) (next (stacks m)) b').
  assert (forall k' a, k' ∈ live m -> holds k' a -> holds k a -> k' = k) as Hdis.
  { intros k' a Hk' H1 H2. apply (so_unique _ H); [done | done |]. pose proof (slot_of _ _ _ (so_placed _ H k' (proj1 (so_live _ H k' Hk'))) H1). pose proof (slot_of _ _ _ (so_placed _ H k (proj1 (so_live _ H k Hk))) H2). lia. }
  constructor; cbn [stacks live ever pages first next]; [done | apply H | apply H | apply H | | | |].
  - intros k' Hk'. apply (placed_later (stacks m)); [reflexivity | cbn; lia | exact (so_placed _ H k' Hk')].
  - intros k' [Hk' Hne]%others_elem. destruct (so_live _ H k' Hk') as [He Hl]. split; [done |]. rewrite V, decide_False; [done |]. intros Hh. apply Hne. f_equal. apply (Hdis k' (ks_virt k')); [done | | done]. destruct (pl_size _ _ (so_placed _ H k' He)) as [E | E]; unfold holds, PAGE, SIZE in *; lia.
  - intros k1 k2 [H1 _]%others_elem [H2 _]%others_elem. by apply (so_unique _ H).
  - intros a Ha. unfold page_mapped. rewrite V. setoid_rewrite others_elem. pose proof (so_pages _ H a Ha) as Hp. unfold page_mapped in Hp. pose proof (so_first _ H) as [F1 _]. pose proof (so_placed _ H k (proj1 (so_live _ H k Hk))) as [_ P2 _ _].
    destruct (decide _) as [Hin | Hout].
    + split; [by intros [? ?] |]. intros [Hb | (k' & [Hk' Hne] & Hh)]; [unfold STRIDE, PAGE in *; lia |]. destruct Hne. f_equal. by apply (Hdis k' a).
    + rewrite Hp. split; (intros [Hb | (k' & Hk' & Hh)]; [left; exact Hb |]); right; exists k'; [| exact (conj (proj1 Hk') Hh)]. split; [split; [exact Hk' |] | exact Hh]. intros E. destruct Hout. rewrite <- (so_unique _ H k' k Hk' Hk E). exact Hh.
Qed.
Lemma release_cases m k running irqs : stacks_ok m -> negb running || irqs = true -> k ∈ live m ->
  exists n s', release_sized running irqs (ks_virt k) (ks_phys k) (ks_size k) (stacks m) = Ok (n, s') /\ released m k n s'.
Proof.
  intros H Hirq Hk. destruct (so_live _ H k Hk) as [He Hl]. pose proof (so_placed _ H k He) as [P1 P2 P3 P4]. pose proof (so_first _ H) as [F1 F2]. pose proof (so_next _ H) as Hn. destruct (so_region _ H) as [S T O].
  pose proof (pages_size _ P4) as [Hps Hpos]. assert (PAGE <= ks_size k <= SIZE) as Hsz by (destruct P4 as [-> | ->]; done). assert (BASE + 2 * PAGE <= ks_virt k /\ ks_virt k + ks_size k < LIMIT) as [Hlo Hhi] by (unfold STRIDE, PAGE, SIZE in *; lia).
  unfold release_sized. rewrite Hirq, (proj2 (Z.leb_le _ _) Hlo), (proj2 (Z.ltb_lt _ _) Hhi). cbn [andb assert_that mbind outcome_bind]. fold (pages_of (ks_size k)).
  assert (forall a, within_stack (ks_virt k) (pages_of (ks_size k)) a <-> holds k a) as Hw by (intros a; unfold within_stack, holds; by rewrite Hps).
  assert (BASE <= ks_virt k < LIMIT) as Hreg by (unfold PAGE in *; lia). assert (forall a, holds k a -> page_mapped (backing m) (Z.shiftr a 12)) as Hm by (intros a Ha; apply (slot_pages m k a H Hk); [unfold holds, STRIDE, PAGE, SIZE in *; lia | done]).
  assert (holds k (ks_virt k)) as Hself by (unfold holds, PAGE in *; lia).
  destruct (unmap_stack_cases (pages_of (ks_size k)) (ks_virt k) (backing m) (ks_virt k) []) as (fs & b1 & -> & Hlen & S1 & T1 & O1 & Hhd & V1 & M1 & N1); [unfold STRIDE, PAGE in *; zdiv | unfold PAGE in *; lia | rewrite Hps; lia | | done | | | done |].
  { intros a Ha. replace (ks_virt k) with (ks_virt k - PAGE + PAGE) in Ha |- * by lia. by apply (slot_table _ (pages_of (ks_size k))); [| lia |]. }
  { by apply tables_ok_but; [| | apply Hm]. }
  { intros a Ha. by apply Hm, Hw. }
  cbn [mbind outcome_bind]. rewrite Hhd, decide_False, Hl, bool_decide_true by (done || lia). cbn [assert_that mbind outcome_bind].
  destruct (detach_cases b1 (ks_virt k) fs S1 T1 Hreg O1) as (r & b2 & -> & S2 & T2 & O2 & V2 & M2 & N2 & Hr2). rewrite <- app_assoc in O2. fold (nonzero r).
  destruct (dealloc_list fs b2 _ S2 O2) as (b3 & -> & S3 & O3 & N3 & V3 & L3 & M3). cbn [mbind outcome_bind]. destruct (dealloc_list (nonzero r) b3 _ S3 O3) as (b4 & -> & S4 & O4 & N4 & V4 & L4 & M4). cbn [mbind outcome_bind].
  assert (leaves b4 = leaves b2 /\ links b4 = links b2) as [V24 L24] by (split; congruence).
  eexists _, _. split; [reflexivity |].
  rewrite Hps in V1. constructor; cbn [pages].
  - apply released_ok; [done | done | constructor; [done | by apply (stack_tables_same b2) | rewrite (frame_list_same b2 b4 V24 L24); done] |]. intros a. rewrite V24, V2. apply V1.
  - change (pages ((stacks m) <| pages := b4 |>)) with b4. rewrite N4, N3, N2, N1, Hlen, <- (pages_quotient _ P4). lia.
  - change (pages ((stacks m) <| pages := b4 |>)) with b4. unfold new_tables2, absent in *. rewrite L24. lia.
  - intros a Ha. change (pages ((stacks m) <| pages := b4 |>)) with b4. rewrite V24, V2, V1, decide_False by done. done.
  - change (pages ((stacks m) <| pages := b4 |>)) with b4. congruence.
Qed.

(** * The rest of the kernel, and start-up *)

Lemma page_in_region s k p : s = 21 \/ s = 30 -> in_region s k -> Z.shiftr p (s - 12) = k -> in_region 12 p.
Proof.
  unfold in_region, LIMIT, BASE. change (Z.shiftl 1 39) with 549755813888. intros [-> | ->] Hk <-; [change (21 - 12) with 9 in Hk | change (30 - 12) with 18 in Hk]; rewrite Z.shiftr_div_pow2 in Hk by lia; [change (2 ^ 21) with 2097152 in Hk; change (2 ^ 9) with 512 in Hk | change (2 ^ 30) with 1073741824 in Hk; change (2 ^ 18) with 262144 in Hk]; change (2 ^ 12) with 4096; zdiv.
Qed.
Lemma exact_same b b' s k : s = 21 \/ s = 30 -> in_region s k -> (forall p, in_region 12 p -> leaves b' !! p = leaves b !! p) -> links b' !! (s, k) = links b !! (s, k) -> exact_at b s k -> exact_at b' s k.
Proof.
  intros Hs Hk V L X. unfold exact_at, page_mapped in *. rewrite L, X. split; intros (p & Hp & Hm); exists p; (split; [exact Hp |]); pose proof (V p (page_in_region s k p Hs Hk Hp)) as E; [by rewrite E | by rewrite <- E].
Qed.
Lemma frame_list_region b b' : (forall p, in_region 12 p -> leaves b' !! p = leaves b !! p) -> (forall s k, s = 21 \/ s = 30 -> in_region s k -> links b' !! (s, k) = links b !! (s, k)) -> frame_list b' = frame_list b.
Proof.
  intros V L. unfold frame_list. f_equal; do 2 f_equal.
  - apply map_filter_strong_ext. intros p x. unfold region_leaf. cbn. split; (intros [Hp Hx]; split; [exact Hp |]); specialize (V p Hp); congruence.
  - apply map_filter_strong_ext. intros [t k] x. unfold region_link. cbn. split; (intros [[Ht Hk] Hx]; split; [exact (conj Ht Hk) |]); specialize (L t k Ht Hk); congruence.
Qed.
Lemma rest_ok m b' : stacks_ok m -> keeps (backing m) b' -> stacks_ok (mkMachine ((stacks m) <| pages := b' |>) (live m) (ever m)).
Proof.
  intros H [K1 K2 K3 K4 K5]. destruct (so_region _ H) as [S [R X] [O1 O2]]. change ((stacks m) <| pages := b' |>) with (mkStacks (first (stacks m)) (next (stacks m)) b').
  assert (forall a, BASE <= a < LIMIT -> leaves b' !! Z.shiftr a 12 = leaves (backing m) !! Z.shiftr a 12) as Hl by (intros a Ha; apply K2, region_shift; [lia | exact Ha]).
  constructor; cbn [stacks live ever pages first next]; try apply H.
  - constructor; [done | constructor; [by apply K4 |]; intros s k Hs Hk; apply (exact_same (backing m)); [done | done | done | by apply K3 | by apply X] |]. rewrite (frame_list_region (backing m) b' K2 K3). done.
  - intros k Hk. apply (placed_later (stacks m)); [reflexivity | cbn; lia | exact (so_placed _ H k Hk)].
  - intros k Hk. destruct (so_live _ H k Hk) as [He Hp]. split; [done |]. rewrite Hl; [done |]. destruct (so_placed _ H k He) as [_ P1 P2 _]. pose proof (so_first _ H) as [F1 _]. pose proof (so_next _ H). unfold STRIDE, PAGE in *. lia.
  - intros a Ha. unfold page_mapped. rewrite (Hl a Ha). exact (so_pages _ H a Ha).
Qed.
Lemma init_ok word b s : region_empty b -> init word b = Ok s -> stacks_ok (mkMachine s [] []).
Proof.
  intros [S V L R] E. unfold init in E. destruct (allocate_frame b) as [[pa b0] |] eqn:Ea; cbn [unwrap mbind outcome_bind] in E; [| done].
  assert (frame_list b = []) as F0.
  { unfold frame_list. rewrite (proj2 (map_empty (filter region_leaf (leaves b)))), (proj2 (map_empty (filter region_link (links b)))); [by rewrite !map_to_list_empty | |].
    - intros [t k]. apply map_lookup_filter_None. destruct (links b !! (t, k)) as [x |] eqn:El; [| by left]. right. intros y _ [Ht Hk]. cbn in Ht, Hk. rewrite (L t k Ht Hk) in El. done.
    - intros p. apply map_lookup_filter_None. destruct (leaves b !! p) as [x |] eqn:El; [| by left]. right. intros y _ Hp. unfold region_leaf in Hp. cbn in Hp. rewrite (V p Hp) in El. done. }
  destruct (alloc_owns b [] pa b0 S (conj (NoDup_nil_2) (Forall_nil_2 _)) Ea) as (S0 & O0 & _). pose proof (allocate_frame_cases b (proj1 S)) as Hc. rewrite Ea in Hc. destruct Hc as (_ & _ & _ & _ & L0 & V0 & _).
  destruct (map_page BASE pa b0) as [b1 | |] eqn:Em; cbn [expect mbind outcome_bind] in E; [| done | done]. injection E as <-.
  destruct (ensure 39 BASE "OOM: PDP table" b0) as [b2 | |] eqn:E39; [| by unfold map_page in Em; rewrite E39 in Em | by unfold map_page in Em; rewrite E39 in Em].
  assert (sound b2 /\ owns (fa b2) [pa] /\ leaves b2 = leaves b /\ exists f, links b2 = <[(39, Z.shiftr BASE 39) := f]> (links b)) as (S2 & O2 & V2 & f & L2).
  { unfold ensure in E39. rewrite L0, R in E39. destruct (allocate_frame b0) as [[f b3] |] eqn:Ef; [| done]. cbn [ok_or mbind outcome_bind] in E39. injection E39 as <-. destruct (alloc_owns b0 [pa] f b3 S0 O0 Ef) as (S3 & [O3 O4] & _).
    pose proof (allocate_frame_cases b0 (proj1 S0)) as Hc. rewrite Ef in Hc. destruct Hc as (_ & _ & _ & _ & L3 & V3 & _). split; [exact S3 |]. split; [split; [by apply NoDup_cons in O3 as [_ ?] | by apply Forall_cons in O4 as [_ ?]] |]. split; [cbn; congruence |]. exists f. cbn. congruence. }
  assert (map_page BASE pa b2 = Ok b1) as Em2. { rewrite <- Em. unfold map_page at 2. rewrite E39. cbn [mbind outcome_bind]. unfold map_page. assert (ensure 39 BASE "OOM: PDP table" b2 = Ok b2) as -> by (unfold ensure; rewrite L2, lookup_insert_eq; done). done. }
  assert (forall s k, s = 21 \/ s = 30 -> in_region s k -> links b2 !! (s, k) = None) as Ln by (intros s k Hs Hk; rewrite L2, lookup_insert_ne by (intros [= <- _]; lia); by apply L).
  assert (tables_ok b2) as T2. { constructor; [rewrite L2, lookup_insert_eq; done |]. intros s k Hs Hk. apply exact_none; [by apply Ln |]. intros p Hp [x Hx]. rewrite V2, (V p (page_in_region s k p Hs Hk Hp)) in Hx. done. }
  assert (frame_list b2 = []) as F2 by (rewrite <- F0; apply frame_list_region; [intros; by rewrite V2 | intros; rewrite Ln, L by done; done]).
  assert (BASE <= BASE < LIMIT) as Hb by (split; [apply Z.le_refl | reflexivity]). destruct (map_page_owns BASE pa b2 b1 Hb S2 T2 ltac:(by rewrite F2) Em2) as (_ & S1 & O1 & L1 & V1).
  pose proof (Z.land_nonneg word 0x1fffff) as Hw0. pose proof (land_low word 21 ltac:(lia)) as Hw. change (2 ^ 21 - 1) with 0x1fffff in Hw. pose proof (Z.mod_pos_bound word (2 ^ 21) ltac:(lia)) as Hw1. rewrite <- Hw in Hw1. set (w := Z.land word 0x1fffff) in *. clearbody w.
  constructor; cbn [stacks live ever pages first next].
  - constructor; [done | by apply (tables_after_map b2 BASE b1 pa) | done].
  - unfold STRIDE, BASE. split; [lia | zdiv].
  - unfold STRIDE, LIMIT, BASE. change (Z.shiftl 1 39) with 549755813888. lia.
  - unfold STRIDE, BASE. zdiv.
  - by intros k ?%not_elem_of_nil.
  - by intros k ?%not_elem_of_nil.
  - by intros k k' ?%not_elem_of_nil.
  - intros a Ha. rewrite (page_mapped_insert b2 b1 _ pa _ V1), (page_of BASE a) by done. change PAGE with 4096. split; [| intros [? | (k & Hk & _)]; [by left | by apply not_elem_of_nil in Hk]].
    intros [Hin | [x Hx]]; [by left |]. rewrite V2, V in Hx by (apply region_shift; [lia | exact Ha]). done.
Qed.
Lemma stacks_reachable_ok m : reachable m -> stacks_ok m.
Proof.
  induction 1 as [word b s He Ei | m m' Hr IH Hs]; [by eapply init_ok |]. destruct Hs as [s l e running irqs size k s' Hs E | s l e running irqs k n s' Hk E | s l e b' Hk].
  - assert (negb running || irqs = true) as Hi by (unfold allocate_sized in E; by destruct (negb running || irqs)). pose proof (allocate_cases _ running irqs size IH Hi Hs) as H. cbn [stacks] in H. rewrite E in H. exact (gr_ok _ _ _ _ H).
  - assert (negb running || irqs = true) as Hi by (unfold release_sized in E; by destruct (negb running || irqs)). destruct (release_cases _ k running irqs IH Hi Hk) as (n' & s2 & E2 & H). cbn [stacks] in E2. rewrite E in E2. injection E2 as <- <-. exact (rl_ok _ _ _ _ H).
  - exact (rest_ok _ b' IH Hk).
Qed.

(** * The theorem *)

Lemma leaf_inj b p q x : owns (fa b) (frame_list b) -> in_region 12 p -> in_region 12 q -> leaves b !! p = Some x -> leaves b !! q = Some x -> p = q.
Proof.
  intros [Hnd _] Hp Hq H1 H2. destruct (decide (p = q)) as [| Hne]; [done |]. exfalso. pose proof (leaf_delete b p x Hp H1 (b <| leaves := delete p (leaves b) |>) eq_refl eq_refl) as Hperm. rewrite Hperm in Hnd. apply NoDup_cons in Hnd as [Hni _].
  apply Hni, (leaf_owned _ q); [done |]. cbn. by rewrite lookup_delete_ne.
Qed.
Lemma bottom_live m k a : stacks_ok m -> k ∈ live m -> ks_size k = SIZE -> holds k a -> bottom_of (stacks m) a = Some (ks_virt k).
Proof.
  intros H Hk Hs Ha. destruct (so_live _ H k Hk) as [He _]. destruct (so_placed _ H k He) as [P1 P2 P3 _]. pose proof (so_next _ H) as Hn. pose proof (so_first _ H) as [F1 _]. unfold holds in Ha. rewrite Hs in Ha. assert (0 <= a) by (unfold BASE, STRIDE, PAGE in *; lia).
  unfold bottom_of, bottom. change (Z.land a (unot 64 (STRIDE - 1))) with (align_down a (2 ^ 16)). assert (a < 2 ^ 64) by (assert (LIMIT < 2 ^ 64) by done; unfold STRIDE, PAGE, SIZE in *; lia). rewrite align_down_spec by lia. change (2 ^ 16) with 65536.
  rewrite (proj2 (Z.ltb_ge a _)), (proj2 (Z.leb_gt _ a)), (proj2 (Z.ltb_ge LIMIT _)) by (unfold STRIDE, PAGE, SIZE in *; lia). cbn [orb].
  assert (a / 65536 * 65536 + PAGE = ks_virt k) as -> by (unfold STRIDE, PAGE, SIZE in *; zdiv). rewrite (proj2 (Z.leb_le _ a)), (proj2 (Z.ltb_lt a _)) by lia. done.
Qed.
Definition apart (k k' : KernelStack) : Prop := ks_virt k + ks_size k + PAGE <= ks_virt k' - PAGE \/ ks_virt k' + ks_size k' + PAGE <= ks_virt k - PAGE.
Lemma live_apart m k k' : stacks_ok m -> k ∈ live m -> k' ∈ live m -> k <> k' -> apart k k'.
Proof.
  intros H Hk Hk' Hne. assert (ks_virt k <> ks_virt k') by (intros E; by apply Hne, (so_unique _ H)). destruct (so_placed _ H k (proj1 (so_live _ H k Hk))) as [P1 _ _ P4]. destruct (so_placed _ H k' (proj1 (so_live _ H k' Hk'))) as [Q1 _ _ Q4].
  unfold apart, size_ok, STRIDE, PAGE, SIZE in *. zdiv.
Qed.
Lemma guarded m k a : stacks_ok m -> k ∈ live m -> ks_virt k - PAGE <= a < ks_virt k + ks_size k + PAGE -> mapped a (backing m) = true <-> holds k a.
Proof.
  intros H Hk Ha. destruct (so_live _ H k Hk) as [He _]. destruct (so_placed _ H k He) as [P1 P2 P3 P4]. pose proof (so_next _ H). pose proof (so_first _ H) as [F1 _]. assert (PAGE <= ks_size k <= SIZE) by (destruct P4 as [-> | ->]; done).
  rewrite mapped_iff by (apply (so_region _ H) || unfold STRIDE, PAGE, SIZE in *; lia). apply slot_pages; [done | done |]. unfold STRIDE, PAGE, SIZE in *. lia.
Qed.

(** C6. Kernel stacks are guarded and never overlap, however allocation, release and any other
    use of memory interleave.  Every stack in use is mapped exactly up to an unmapped guard
    page on both sides, stacks keep apart with their guards, no frame backs two pages, and the
    erase on return to user code starts at the bottom of the task's own stack.  Allocation
    gives zeroed memory at addresses above every stack ever handed out, so that no stale
    pointer names a later stack; it fails only when the region or the frames are used up.
    A table of the region is there exactly while a page below it is mapped, in every state.
    Releasing a stack in use always succeeds, unmaps exactly its pages, and gives back the
    frames of its pages and the frame of each of the two tables on the way to it that now
    maps no page (and of no other table): the count returned is exactly that, and the free
    counter grows by it. *)
Theorem kernel_stacks_sound m running irqs : reachable m -> negb running || irqs = true ->
  (forall k a, k ∈ live m -> ks_virt k - PAGE <= a < ks_virt k + ks_size k + PAGE -> mapped a (backing m) = true <-> holds k a)
  /\ (forall k k', k ∈ live m -> k' ∈ live m -> k <> k' -> apart k k')
  /\ (forall a a' pa, BASE <= a < LIMIT -> BASE <= a' < LIMIT -> leaves (backing m) !! Z.shiftr a 12 = Some pa -> leaves (backing m) !! Z.shiftr a' 12 = Some pa -> Z.shiftr a 12 = Z.shiftr a' 12)
  /\ (forall t key, t = 21 \/ t = 30 -> in_region t key -> exact_at (backing m) t key)
  /\ (forall k a, k ∈ live m -> ks_size k = SIZE -> holds k a -> kernel_stack_erase_bottom true a 1 (stacks m) = ks_virt k)
  /\ (forall size, size_ok size -> match allocate_sized running irqs size (stacks m) with
      | Ok (k, s') => ks_size k = size /\ (forall e, e ∈ ever m -> ks_virt e + STRIDE <= ks_virt k)
          /\ (forall a, holds k a -> mapped a (pages s') = true /\ (a mod 8 = 0 -> mem (pages s') a = 0)) /\ (forall a, ~ holds k a -> mem (pages s') a = mem (backing m) a)
          /\ frames (pages s') = frames (backing m) - frames_needed (backing m) (ks_virt k) size
      | Err _ => False
      | Panic => LIMIT < next (stacks m) + STRIDE \/ frames (backing m) < frames_needed (backing m) (next (stacks m) + PAGE) size
      end)
  /\ (forall k, k ∈ live m -> exists n s', release_sized running irqs (ks_virt k) (ks_phys k) (ks_size k) (stacks m) = Ok (n, s') /\ frames (pages s') = frames (backing m) + n
      /\ n = ks_size k / PAGE + absent (pages s') 30 (ks_virt k) + absent (pages s') 21 (ks_virt k)
      /\ (forall t key, t = 21 \/ t = 30 -> in_region t key -> exact_at (pages s') t key) /\ (forall a, holds k a -> mapped a (pages s') = false)
      /\ (forall a, BASE <= a < LIMIT -> ~ holds k a -> mapped a (pages s') = mapped a (backing m) /\ leaves (pages s') !! Z.shiftr a 12 = leaves (backing m) !! Z.shiftr a 12 /\ mem (pages s') a = mem (backing m) a)).
Proof.
  intros H%stacks_reachable_ok Hi. split; [intros; by apply guarded |]. split; [intros; by eapply live_apart |]. split.
  { intros a a' pa Ha Ha'. apply (leaf_inj (backing m)); [apply (so_region _ H) | apply region_shift; [lia | exact Ha] | apply region_shift; [lia | exact Ha']]. }
  split; [exact (to_exact _ (ro_tables _ (so_region _ H))) |].
  split; [intros k a Hk Hs Ha; unfold kernel_stack_erase_bottom; cbn [negb orb Z.eqb]; by rewrite (bottom_live m k a H Hk Hs Ha) |]. split.
  - intros size Hs. pose proof (allocate_cases m running irqs size H Hi Hs) as Hc. destruct (allocate_sized _ _ _ _) as [[k s'] | |]; [| done | done]. destruct Hc as [G1 G2 G3 G4 G5 G6]. split; [done |]. split; [intros e He; destruct (so_placed _ H e He); lia |].
    split; [| done]. intros a Ha. split; [| by apply G5]. apply (guarded _ k a G1); [by left | unfold holds, PAGE in *; lia | done].
  - intros k Hk. destruct (release_cases m k running irqs H Hi Hk) as (n & s' & E & [R1 R2 R3 R4 R5]). exists n, s'. split; [done |]. split; [done |]. split; [unfold new_tables2 in R3; lia |].
    pose proof (ro_tables _ (so_region _ R1)) as T'. pose proof (ro_tables _ (so_region _ H)) as T. cbn [stacks] in T'. split; [exact (to_exact _ T') |]. split.
    + intros a Ha. apply not_true_iff_false. destruct (so_live _ H k Hk) as [He _]. pose proof (so_placed _ H k He) as Pk. pose proof Pk as [P1 P2 P3 P4]. pose proof (so_next _ H). pose proof (so_first _ H) as [F1 _]. assert (PAGE <= ks_size k <= SIZE) by (destruct P4 as [-> | ->]; done).
      assert (BASE <= a < LIMIT) as Hr by (unfold holds, STRIDE, PAGE, SIZE in *; lia). rewrite mapped_iff by done. intros Hm. apply (so_pages _ R1 a Hr) in Hm as [Hb | (k' & Hk' & Hh)]; [unfold holds, STRIDE, PAGE in *; lia |].
      apply others_elem in Hk' as [Hk' Hne]. apply Hne. pose proof (slot_of _ _ _ (so_placed _ H k' (proj1 (so_live _ H k' Hk'))) Hh). pose proof (slot_of _ _ _ Pk Ha). lia.
    + intros a Ha Hout. pose proof (R4 a Hout) as El. split; [| split; [done | by rewrite R5]]. apply eq_true_iff_eq. rewrite !mapped_iff by done. unfold page_mapped. by rewrite El.
Qed.

(** A machine with 8 MiB of memory, frame 0 in use, and one stack, alone in its two tables. *)
Definition is_ok {E A} (o : outcome E A) : bool := match o with Ok _ => true | _ => false end.
Definition demo_backing : Backing := from_option snd HeapSound.demo_boot (allocate_frame HeapSound.demo_boot).
Lemma demo_empty : region_empty demo_backing.
Proof.
  pose proof (allocate_frame_cases HeapSound.demo_boot HeapSound.demo_boot_wf) as H. assert (Frames.is_free (fa demo_backing) 0 = false) as Z0 by (vm_compute; reflexivity). unfold demo_backing in *.
  assert (match allocate_frame HeapSound.demo_boot with Some _ => true | None => false end = true) as Hs by (vm_compute; reflexivity). destruct (allocate_frame HeapSound.demo_boot) as [[pa b] |]; [clear Hs | discriminate Hs].
  cbn [from_option snd] in *. destruct H as (W & _ & _ & _ & L & V & _). constructor; [exact (conj W Z0) | | |]; intros; rewrite ?L, ?V; apply lookup_empty.
Qed.
Definition demo_start : Stacks := match init 0x1ffff demo_backing with Ok s => s | _ => mkStacks 0 0 demo_backing end.
Lemma ok_value {E A} (d : A) (o : outcome E A) : is_ok o = true -> o = Ok (match o with Ok a => a | _ => d end).
Proof. by destruct o. Qed.
Lemma demo_init : init 0x1ffff demo_backing = Ok demo_start.
Proof. apply ok_value. vm_compute. reflexivity. Qed.
Definition demo_grant : KernelStack * Stacks := match allocate_sized true true SIZE demo_start with Ok r => r | _ => (mkKernelStack 0 0 0, demo_start) end.
Definition demo_one : Machine := mkMachine (snd demo_grant) [fst demo_grant] [fst demo_grant].
Lemma demo_one_reachable : reachable demo_one.
Proof.
  assert (allocate_sized true true SIZE demo_start = Ok demo_grant) as E by (apply ok_value; vm_compute; reflexivity). unfold demo_one. destruct demo_grant as [k s']. eapply re_step; [exact (re_init 0x1ffff demo_backing demo_start demo_empty demo_init) |].
  exact (st_allocate demo_start [] [] true true SIZE k s' (or_intror eq_refl) E).
Qed.
Definition demo_release : outcome string (Z * Stacks) := release_sized true true (ks_virt (fst demo_grant)) (ks_phys (fst demo_grant)) (ks_size (fst demo_grant)) (stacks demo_one).
Lemma kernel_stacks_sound_witness : exists s', demo_release = Ok (SIZE / PAGE + 2, s') /\ frames (pages s') = frames (backing demo_one) + (SIZE / PAGE + 2).
Proof.
  destruct (kernel_stacks_sound demo_one true true demo_one_reachable eq_refl) as (_ & _ & _ & _ & _ & _ & H).
  destruct (H (fst demo_grant) ltac:(unfold demo_one; cbn [live]; apply list_elem_of_here)) as (n & s' & E & F & _). change (demo_release = Ok (n, s')) in E.
  assert (match demo_release with Ok (c, _) => c | _ => 0 end = SIZE / PAGE + 2) as Hc by (vm_compute; reflexivity). rewrite E in Hc. exists s'. rewrite E, <- Hc. exact (conj eq_refl F).
Defined.
End StacksSound.
