(* ===== verification/Acpi.v ===== *)
(** ACPI tables (src/arch/amd64/acpi.rs): from the root pointer over the table of tables to the
    description of processors and interrupt controllers.

    Tables are read from physical memory through a window that is mapped page by page on
    demand; reading a page that is not mapped is a fault, a [Panic] here. *)

From Stdlib Require Import ZArith Lia.
From stdpp Require Import base list list_numbers numbers decidable tactics strings gmap.
From S2P Require Import Prelude Records FatNames.
Import FatNames(lit).

Module Acpi.

Record IrqOverride := mkOverride { source_irq : Z; gsi : Z; flags : Z }.
Record MadtInfo := mkMadtInfo { lapic_base : Z; cpu_apic_ids : list Z; ioapic_base : option Z; ioapic_gsi_base : Z; overrides : list IrqOverride }.
#[export] Instance MadtInfo_eta : Eta MadtInfo := fun i => mkMadtInfo (lapic_base i) (cpu_apic_ids i) (ioapic_base i) (ioapic_gsi_base i) (overrides i).

Definition isa_irq_to_gsi (info : MadtInfo) (irq : Z) : Z * Z :=
  match List.find (fun ov => source_irq ov =? irq) (overrides info) with Some ov => (gsi ov, flags ov) | None => (irq, 0) end.

(** * Reading *)

(** The pages of the window that are mapped are the state. *)
Definition T (A : Type) : Type := gset Z -> outcome string (A * gset Z).
#[export] Instance T_ret : MRet T := fun A a w => Ok (a, w).
#[export] Instance T_bind : MBind T := fun A B f m w => match m w with Ok (a, w') => f a w' | Err e => Err e | Panic => Panic end.
Definition out_of_fuel {A} : T A := fun _ => Err "out of fuel"%string.

Section Memory.
(** The bytes of physical memory. *)
Context (mem : Z -> Z).

Definition byte (a : Z) : T Z := fun w => if bool_decide (a / 4096 ∈ w) then Ok (mem a, w) else Panic.
Fixpoint bytes (n : nat) (a : Z) : T (list Z) :=
  match n with O => mret [] | S n' => b ← byte a; l ← bytes n' (a + 1); mret (b :: l) end.
(** [read_unaligned] of an integer of [n] bytes. *)
Definition read (n : nat) (a : Z) : T Z := l ← bytes n a; mret (from_le_bytes l).

(** [ensure_phys_mapped]: the pages from the one of [phys] to the one of [phys + len - 1]. *)
Definition ensure_phys_mapped (phys len : Z) : T unit :=
  fun w => Ok (tt, list_to_set (seqZ (phys / 4096) ((phys + len + 0xfff) / 4096 - phys / 4096)) ∪ w).
(** A physical address has at most 52 bits. *)
Definition phys_ptr (phys len : Z) : T unit := fun w => if phys <? 2 ^ 52 then ensure_phys_mapped phys len w else Panic.
Definition SDT_HEADER_LEN : Z := 36.
(** The length of the table at [phys], with all of it mapped. *)
Definition sdt_at (phys : Z) : T Z :=
  _ ← phys_ptr phys SDT_HEADER_LEN;
  len ← read 4 (phys + 4);
  _ ← phys_ptr phys len;
  mret len.
Definition sig_matches (phys : Z) (sig : list Z) : T bool := l ← bytes 4 phys; mret (bool_decide (l = sig)).

(** * Parsing *)

(** The loop of [find_table] over entries [i..entries]. *)
Fixpoint find_entry (n : nat) (i sdt entry_size : Z) (sig : list Z) : T (option Z) :=
  match n with
  | O => mret None
  | S n' =>
      table_phys ← read (Z.to_nat entry_size) (sdt + SDT_HEADER_LEN + i * entry_size);
      if table_phys =? 0 then find_entry n' (i + 1) sdt entry_size sig
      else
        _ ← sdt_at table_phys;
        hit ← sig_matches table_phys sig;
        if (hit : bool) then mret (Some table_phys) else find_entry n' (i + 1) sdt entry_size sig
  end.
Definition find_table (sdt_phys entry_size : Z) (sig : list Z) : T (option Z) :=
  len ← sdt_at sdt_phys;
  if len <? SDT_HEADER_LEN then mret None
  else find_entry (Z.to_nat ((len - SDT_HEADER_LEN) / entry_size)) 0 sdt_phys entry_size sig.

(** One entry of the MADT at [e]. *)
Definition madt_entry (entry_type e : Z) (info : MadtInfo) : T MadtInfo :=
  if entry_type =? 0 then
    apic_id ← byte (e + 3); fl ← read 4 (e + 4);
    mret (if negb (Z.land fl 3 =? 0) then info <| cpu_apic_ids := cpu_apic_ids info ++ [apic_id] |> else info)
  else if entry_type =? 1 then
    addr ← read 4 (e + 4); gsi_base ← read 4 (e + 8);
    mret (match ioapic_base info with None => info <| ioapic_base := Some addr |> <| ioapic_gsi_base := gsi_base |> | Some _ => info end)
  else if entry_type =? 2 then
    src ← byte (e + 3); g ← read 4 (e + 4); fl ← read 2 (e + 8);
    mret (info <| overrides := overrides info ++ [mkOverride src g fl] |>)
  else if entry_type =? 5 then
    base ← read 8 (e + 4);
    mret (info <| lapic_base := base |>)
  else if entry_type =? 9 then
    apic_id ← read 4 (e + 4); fl ← read 4 (e + 8);
    mret (if negb (Z.land fl 3 =? 0) then info <| cpu_apic_ids := cpu_apic_ids info ++ [apic_id] |> else info)
  else mret info.
Fixpoint madt_loop (fuel : nat) (ptr len off : Z) (info : MadtInfo) : T MadtInfo :=
  match fuel with
  | O => out_of_fuel
  | S fuel' =>
      if len <? off + 2 then mret info
      else
        entry_type ← byte (ptr + off);
        entry_len ← byte (ptr + off + 1);
        if (entry_len <? 2) || (len <? off + entry_len) then mret info
        else info ← madt_entry entry_type (ptr + off) info; madt_loop fuel' ptr len (off + entry_len) info
  end.
Definition parse_madt (madt_phys : Z) : T (bool * option MadtInfo) :=
  len ← sdt_at madt_phys;
  base ← read 4 (madt_phys + 36);
  info ← madt_loop (S (Z.to_nat len)) madt_phys len 44 (mkMadtInfo base [] None 0 []);
  mret (negb (bool_decide (cpu_apic_ids info = [])), Some info).
Definition init (rsdp_addr : option Z) : T (bool * option MadtInfo) :=
  match rsdp_addr with
  | None => mret (false, None)
  | Some rsdp =>
      _ ← phys_ptr rsdp 36;
      sig ← bytes 8 rsdp;
      if negb (bool_decide (sig = lit "RSD PTR ")) then mret (false, None)
      else
        revision ← byte (rsdp + 15);
        rsdt_addr ← read 4 (rsdp + 16);
        xsdt_addr ← (if 2 <=? revision then read 8 (rsdp + 24) else mret 0);
        madt_phys ← (if negb (xsdt_addr =? 0) then find_table xsdt_addr 8 (lit "APIC") else find_table rsdt_addr 4 (lit "APIC"));
        match madt_phys with Some a => parse_madt a | None => mret (false, None) end
  end.
End Memory.
End Acpi.
