(* ===== verification/AcpiSound.v ===== *)
(** ACPI tables: what a machine's tables say is what the kernel learns of it. *)

From Stdlib Require Import ZArith Lia.
From stdpp Require Import base list list_numbers numbers decidable tactics strings gmap.
From S2P Require Import Prelude Records FatNames Acpi.
Import FatNames(lit) Acpi.

Module AcpiSound.

(** * What a table says *)

Inductive Entry :=
| LocalApic (uid id fl : Z)
| IoApic (id addr base : Z)
| Override (bus src g fl : Z)
| ApicBase (addr : Z)
| LocalX2apic (id fl uid : Z)
| OtherEntry (ty : Z) (body : list Z).
Definition encode (e : Entry) : list Z :=
  match e with
  | LocalApic uid id fl => [0; 8; uid; id] ++ to_le_bytes 4 fl
  | IoApic id addr base => [1; 12; id; 0] ++ to_le_bytes 4 addr ++ to_le_bytes 4 base
  | Override bus src g fl => [2; 10; bus; src] ++ to_le_bytes 4 g ++ to_le_bytes 2 fl
  | ApicBase addr => [5; 12; 0; 0] ++ to_le_bytes 8 addr
  | LocalX2apic id fl uid => [9; 16; 0; 0] ++ to_le_bytes 4 id ++ to_le_bytes 4 fl ++ to_le_bytes 4 uid
  | OtherEntry ty body => [ty; 2 + Z.of_nat (length body)] ++ body
  end.
Definition u32 (x : Z) : Prop := 0 <= x < 2 ^ 32.
Definition entry_ok (e : Entry) : Prop :=
  match e with
  | LocalApic _ _ fl => u32 fl
  | IoApic _ addr base => u32 addr /\ u32 base
  | Override _ _ g fl => u32 g /\ 0 <= fl < 2 ^ 16
  | ApicBase addr => 0 <= addr < 2 ^ 64
  | LocalX2apic id fl uid => u32 id /\ u32 fl
  | OtherEntry ty body => (ty ∉ [0; 1; 2; 5; 9]) /\ (length body <= 253)%nat
  end.
Definition enabled (fl : Z) : bool := negb (Z.land fl 3 =? 0).
Definition cpu_of (e : Entry) : option Z :=
  match e with LocalApic _ id fl | LocalX2apic id fl _ => if enabled fl then Some id else None | _ => None end.
Definition ioapic_of (e : Entry) : option (Z * Z) := match e with IoApic _ addr base => Some (addr, base) | _ => None end.
Definition override_of (e : Entry) : option IrqOverride := match e with Override _ src g fl => Some (mkOverride src g fl) | _ => None end.
Definition base_of (e : Entry) : option Z := match e with ApicBase addr => Some addr | _ => None end.
(** All enabled processors, the first I/O APIC, all overrides, the last local APIC address. *)
Definition summary (lapic : Z) (l : list Entry) : MadtInfo :=
  mkMadtInfo (default lapic (last (omap base_of l))) (omap cpu_of l) (fst <$> head (omap ioapic_of l)) (default 0 (snd <$> head (omap ioapic_of l))) (omap override_of l).

Definition learn (info : MadtInfo) (e : Entry) : MadtInfo :=
  mkMadtInfo (default (lapic_base info) (base_of e)) (cpu_apic_ids info ++ option_list (cpu_of e))
    (match ioapic_base info with Some a => Some a | None => fst <$> ioapic_of e end)
    (match ioapic_base info with Some _ => ioapic_gsi_base info | None => default (ioapic_gsi_base info) (snd <$> ioapic_of e) end)
    (overrides info ++ option_list (override_of e)).
Lemma acpi_omap_snoc {A B} (f : A -> option B) l x : omap f (l ++ [x]) = omap f l ++ option_list (f x).
Proof. rewrite omap_app. cbn. by destruct (f x). Qed.
Lemma learn_all lapic l : foldl learn (mkMadtInfo lapic [] None 0 []) l = summary lapic l.
Proof.
  induction l as [| e l IH] using rev_ind; [done |]. rewrite foldl_snoc, IH. unfold summary. rewrite !acpi_omap_snoc. unfold learn. cbn [lapic_base cpu_apic_ids ioapic_base ioapic_gsi_base overrides]. f_equal.
  - destruct (base_of e); cbn; [by rewrite last_snoc | by rewrite app_nil_r].
  - destruct (omap ioapic_of l) as [| x r]; cbn; by destruct (ioapic_of e).
  - destruct (omap ioapic_of l) as [| x r]; cbn; by destruct (ioapic_of e).
Qed.

Section Memory.
Context (mem : Z -> Z).
Abbreviation byte := (byte mem).
Abbreviation bytes := (bytes mem).
Abbreviation read := (read mem).

(** * Reading mapped memory *)

Definition view (a : Z) (n : nat) : list Z := map mem (seqZ a (Z.of_nat n)).
Definition num (n : nat) (a : Z) : Z := from_le_bytes (view a n).
Definition covers (w : gset Z) (a n : Z) : Prop := forall x, a <= x < a + n -> x / 4096 ∈ w.
Definition holds (a : Z) (l : list Z) : Prop := view a (length l) = l.
Lemma view_S a n : view a (S n) = mem a :: view (a + 1) n.
Proof. unfold view. rewrite Nat2Z.inj_succ, seqZ_cons by lia. cbn [map]. by replace (Z.pred (Z.succ (Z.of_nat n))) with (Z.of_nat n) by lia. Qed.
Lemma length_mem_view a n : length (view a n) = n.
Proof. unfold view. rewrite length_map, length_seqZ. lia. Qed.
Lemma view_app a n k : view a (n + k) = view a n ++ view (a + Z.of_nat n) k.
Proof. unfold view. rewrite Nat2Z.inj_add, seqZ_app by lia. by rewrite map_app. Qed.
Lemma holds_app a l r : holds a (l ++ r) <-> holds a l /\ holds (a + Z.of_nat (length l)) r.
Proof. unfold holds. rewrite length_app, view_app. split; [intros H; by apply app_inj_1 in H; [| apply length_mem_view] | intros [-> ->]; done]. Qed.
Lemma holds_cons a b l : holds a (b :: l) <-> mem a = b /\ holds (a + 1) l.
Proof. unfold holds. cbn [length]. rewrite view_S. split; [by intros [= ? ?] | by intros [-> ->]]. Qed.
Lemma covers_sub w a n b k : covers w a n -> a <= b -> b + k <= a + n -> covers w b k.
Proof. intros H H1 H2 x Hx. apply H. lia. Qed.
Lemma covers_mono w w' a n : w ⊆ w' -> covers w a n -> covers w' a n.
Proof. intros Hs H x Hx. by apply Hs, H. Qed.
Lemma byte_ok w a : covers w a 1 -> byte a w = Ok (mem a, w).
Proof. intros H. unfold Acpi.byte. by rewrite bool_decide_true by (apply H; lia). Qed.
Lemma bytes_ok n : forall a w, covers w a (Z.of_nat n) -> bytes n a w = Ok (view a n, w).
Proof.
  induction n as [| n IH]; intros a w H; [done |]. rewrite view_S. cbn [Acpi.bytes]. unfold mbind, T_bind, mret, T_ret. rewrite byte_ok by (eapply covers_sub; [exact H | lia | lia]). rewrite IH by (eapply covers_sub; [exact H | lia | lia]). done.
Qed.
Lemma read_ok n a w : covers w a (Z.of_nat n) -> read n a w = Ok (num n a, w).
Proof. intros H. unfold Acpi.read, mbind, T_bind. by rewrite bytes_ok. Qed.
Lemma num_holds n a v : 0 <= v < 256 ^ Z.of_nat n -> holds a (to_le_bytes n v) -> num n a = v.
Proof. intros Hv H. unfold holds in H. rewrite length_to_le_bytes in H. unfold num. rewrite H. by apply from_to_le_bytes. Qed.
Lemma bind_ok {A B} (m : T A) (f : A -> T B) w a w' : m w = Ok (a, w') -> (m ≫= f) w = f a w'.
Proof. unfold mbind, T_bind. by intros ->. Qed.

Lemma phys_ptr_ok phys len w : 0 <= phys < 2 ^ 52 -> 0 <= len -> exists w', phys_ptr phys len w = Ok (tt, w') /\ w ⊆ w' /\ covers w' phys len.
Proof.
  intros Hp Hl. unfold phys_ptr, ensure_phys_mapped. rewrite (proj2 (Z.ltb_lt _ _)) by lia. eexists. split; [reflexivity |]. split; [set_solver |]. intros x Hx. apply elem_of_union_l, elem_of_list_to_set, elem_of_seqZ. zdiv.
Qed.
Context (Hmem : forall a, is_byte (mem a)).
Lemma num_range n a : 0 <= num n a < 256 ^ Z.of_nat n.
Proof. unfold num. rewrite <- (length_mem_view a n) at 3. apply from_le_bytes_range. apply Forall_forall. intros b Hb. apply list_elem_of_fmap in Hb as (x & -> & _). apply Hmem. Qed.
Lemma sdt_at_ok phys w : 0 <= phys < 2 ^ 52 -> exists w', sdt_at mem phys w = Ok (num 4 (phys + 4), w') /\ w ⊆ w' /\ covers w' phys (num 4 (phys + 4)) /\ covers w' phys 36.
Proof.
  intros Hp. destruct (phys_ptr_ok phys 36 w Hp ltac:(lia)) as (w1 & E1 & S1 & C1). pose proof (num_range 4 (phys + 4)) as Hr. destruct (phys_ptr_ok phys (num 4 (phys + 4)) w1 Hp ltac:(lia)) as (w2 & E2 & S2 & C2).
  exists w2. split; [| split; [set_solver |]; split; [done |]; by eapply covers_mono]. unfold sdt_at. rewrite (bind_ok _ _ _ _ _ E1), (bind_ok _ _ _ _ _ (read_ok 4 (phys + 4) w1 ltac:(eapply covers_sub; [exact C1 | lia | lia]))), (bind_ok _ _ _ _ _ E2). done.
Qed.

(** * Finding a table *)

(** The pointers of the root table at [root] with entries of [size] bytes. *)
Definition pointers (root size : Z) : list Z :=
  map (fun i => num (Z.to_nat size) (root + SDT_HEADER_LEN + i * size)) (seqZ 0 ((num 4 (root + 4) - SDT_HEADER_LEN) / size)).
Definition matching (sig : list Z) (p : Z) : bool := negb (p =? 0) && bool_decide (view p 4 = sig).
Lemma find_entry_ok n : forall i root size sig w, size = 4 \/ size = 8 -> 0 <= i ->
  covers w (root + SDT_HEADER_LEN + i * size) (Z.of_nat n * size) ->
  let l := map (fun i => num (Z.to_nat size) (root + SDT_HEADER_LEN + i * size)) (seqZ i (Z.of_nat n)) in
  Forall (fun p => p < 2 ^ 52) l ->
  exists w', find_entry mem n i root size sig w = Ok (List.find (matching sig) l, w') /\ w ⊆ w'.
Proof.
  induction n as [| n IH]; intros i root size sig w Hs Hi C l Hl; [by exists w |]. unfold l in *. rewrite Nat2Z.inj_succ, seqZ_cons in * by lia. cbn [map] in *. replace (Z.pred (Z.succ (Z.of_nat n))) with (Z.of_nat n) in * by lia.
  apply Forall_cons in Hl as [Hp Hl]. set (p := num (Z.to_nat size) (root + SDT_HEADER_LEN + i * size)) in *. cbn [find_entry List.find]. assert (Z.of_nat (Z.to_nat size) = size) as Hsz by lia.
  rewrite (bind_ok _ _ _ _ _ (read_ok (Z.to_nat size) (root + SDT_HEADER_LEN + i * size) w ltac:(rewrite Hsz; eapply covers_sub; [exact C | lia | nia]))). fold p.
  assert (forall w1, w ⊆ w1 -> exists w', find_entry mem n (i + 1) root size sig w1 = Ok (List.find (matching sig) (map (fun i => num (Z.to_nat size) (root + SDT_HEADER_LEN + i * size)) (seqZ (Z.succ i) (Z.of_nat n))), w') /\ w ⊆ w') as Hrest.
  { intros w1 Hw1. destruct (IH (i + 1) root size sig w1 Hs ltac:(lia)) as (w' & E & Hw'); [eapply covers_sub; [by eapply covers_mono | lia | nia] | done |]. exists w'. split; [exact E |]. set_solver. }
  unfold matching at 1. pose proof (num_range (Z.to_nat size) (root + SDT_HEADER_LEN + i * size)) as Hr. fold p in Hr. destruct (Z.eqb_spec p 0) as [E | Hne]; cbn [negb andb]; [by apply Hrest |].
  destruct (sdt_at_ok p w ltac:(lia)) as (w1 & E1 & S1 & _ & C1). rewrite (bind_ok _ _ _ _ _ E1). unfold sig_matches. unfold mbind at 1, T_bind at 1. rewrite (bind_ok _ _ _ _ _ (bytes_ok 4 p w1 ltac:(eapply covers_sub; [exact C1 | lia | lia]))). unfold mret, T_ret.
  destruct (bool_decide (view p 4 = sig)); [by exists w1 | by apply Hrest].
Qed.
Lemma find_table_ok root size sig w : size = 4 \/ size = 8 -> 0 <= root < 2 ^ 52 -> Forall (fun p => p < 2 ^ 52) (pointers root size) ->
  exists w', find_table mem root size sig w = Ok (List.find (matching sig) (pointers root size), w') /\ w ⊆ w'.
Proof.
  intros Hs Hr Hl. unfold find_table. destruct (sdt_at_ok root w Hr) as (w1 & E1 & S1 & C1 & _). rewrite (bind_ok _ _ _ _ _ E1). set (len := num 4 (root + 4)) in *. unfold pointers in *. fold len in Hl |- *. unfold SDT_HEADER_LEN in *. destruct (Z.ltb_spec len 36) as [Hlt | Hge].
  - exists w1. split; [| done]. rewrite seqZ_nil; [done |]. destruct Hs as [-> | ->]; zdiv.
  - assert (0 <= (len - 36) / size) as Hn by (apply Z.div_pos; lia). pose proof (find_entry_ok (Z.to_nat ((len - 36) / size)) 0 root size sig w1 Hs ltac:(lia)) as H. unfold SDT_HEADER_LEN in H. rewrite Z2Nat.id in H by lia. cbv zeta in H.
    destruct H as (w' & E & S'); [| done | exists w'; split; [exact E | set_solver]]. eapply covers_sub; [exact C1 | lia |]. destruct Hs as [-> | ->]; zdiv.
Qed.

(** * The entries *)

Definition size_of (x : Entry) : Z := Z.of_nat (length (encode x)).
Lemma size_range x : entry_ok x -> 2 <= size_of x < 256.
Proof. destruct x; unfold size_of; cbn [encode]; rewrite ?length_app, ?length_to_le_bytes; cbn; try lia. Qed.
Lemma encode_head x : exists ty rest, encode x = ty :: size_of x :: rest.
Proof. destruct x; unfold size_of; cbn [encode]; rewrite ?length_app, ?length_to_le_bytes; cbn [length app]; eexists _, _; repeat f_equal; lia. Qed.
Lemma keep_learn info x : cpu_of x = None -> ioapic_of x = None -> override_of x = None -> base_of x = None -> learn info x = info.
Proof. intros H1 H2 H3 H4. unfold learn. rewrite H1, H2, H3, H4. cbn. rewrite !app_nil_r. destruct info as [? ? [] ? ?]; done. Qed.
Lemma read_at n k e l v w : holds e l -> covers w e (Z.of_nat (length l)) -> take n (drop k l) = to_le_bytes n v -> 0 <= v < 256 ^ Z.of_nat n -> (k + n <= length l)%nat -> read n (e + Z.of_nat k) w = Ok (v, w).
Proof.
  intros Hh C Ht Hv Hn. rewrite read_ok by (eapply covers_sub; [exact C | lia | lia]). rewrite <- (take_drop k l), <- (take_drop n (drop k l)), Ht in Hh. apply holds_app in Hh as [_ Hh]. apply holds_app in Hh as [Hh _]. rewrite length_take_le in Hh by lia. by rewrite (num_holds n _ v Hv Hh).
Qed.
Lemma byte_at k e l b w : holds e l -> covers w e (Z.of_nat (length l)) -> l !! k = Some b -> byte (e + Z.of_nat k) w = Ok (b, w).
Proof.
  intros Hh C Hk. pose proof (lookup_lt_Some _ _ _ Hk). rewrite byte_ok by (eapply covers_sub; [exact C | lia | lia]). rewrite <- (take_drop_middle l k b Hk) in Hh. apply holds_app in Hh as [_ Hh]. apply holds_cons in Hh as [Hh _]. rewrite length_take_le in Hh by lia. by rewrite Hh.
Qed.
(** [field n k v] and [octet k b]: the next read takes a field of an encoded entry. *)
Ltac field n k v Hh C := cbv beta; rewrite (bind_ok _ _ _ _ _ (read_at n k _ _ v _ Hh C eq_refl ltac:(unfold u32 in *; lia) ltac:(cbn; lia))).
Ltac octet k b Hh C := cbv beta; rewrite (bind_ok _ _ _ _ _ (byte_at k _ _ b _ Hh C eq_refl)).
Lemma madt_entry_ok x e info w : entry_ok x -> holds e (encode x) -> covers w e (size_of x) -> madt_entry mem (mem e) e info w = Ok (learn info x, w).
Proof.
  intros Hok Hh C. destruct (encode_head x) as (ty & rest & E). assert (mem e = ty) as -> by (rewrite E in Hh; by apply holds_cons in Hh as [? _]). unfold size_of in *.
  destruct x as [uid id fl | id addr base | bus src g fl | addr | id fl uid | ty' body]; cbn [entry_ok] in Hok; injection E as <- _; unfold madt_entry.
  - cbn [Z.eqb Pos.eqb]. octet 3%nat id Hh C. field 4%nat 4%nat fl Hh C. unfold mret, T_ret, learn. cbn [cpu_of ioapic_of override_of base_of]. fold (enabled fl). destruct info as [? ? [] ? ?], (enabled fl); cbn; rewrite ?app_nil_r; done.
  - cbn [Z.eqb Pos.eqb]. destruct Hok as [K1 K2]. field 4%nat 4%nat addr Hh C. field 4%nat 8%nat base Hh C. unfold mret, T_ret, learn. cbn. destruct info as [? ? [] ? ?]; cbn; rewrite ?app_nil_r; done.
  - cbn [Z.eqb Pos.eqb]. destruct Hok as [K1 K2]. octet 3%nat src Hh C. field 4%nat 4%nat g Hh C. field 2%nat 8%nat fl Hh C. unfold mret, T_ret, learn. cbn. destruct info as [? ? [] ? ?]; cbn; rewrite ?app_nil_r; done.
  - cbn [Z.eqb Pos.eqb]. field 8%nat 4%nat addr Hh C. unfold mret, T_ret, learn. cbn. destruct info as [? ? [] ? ?]; cbn; rewrite ?app_nil_r; done.
  - cbn [Z.eqb Pos.eqb]. destruct Hok as [K1 K2]. field 4%nat 4%nat id Hh C. field 4%nat 8%nat fl Hh C. unfold mret, T_ret, learn. cbn [cpu_of ioapic_of override_of base_of]. fold (enabled fl). destruct info as [? ? [] ? ?], (enabled fl); cbn; rewrite ?app_nil_r; done.
  - rewrite (keep_learn info) by done. destruct Hok as [Hty _]. rewrite !not_elem_of_cons in Hty. destruct Hty as (N0 & N1 & N2 & N5 & N9 & _).
    rewrite (proj2 (Z.eqb_neq ty' 0) N0), (proj2 (Z.eqb_neq ty' 1) N1), (proj2 (Z.eqb_neq ty' 2) N2), (proj2 (Z.eqb_neq ty' 5) N5), (proj2 (Z.eqb_neq ty' 9) N9). done.
Qed.

Definition body (l : list Entry) : list Z := concat (map encode l).
Lemma madt_loop_ok l : forall fuel ptr len off info w, Forall entry_ok l -> holds (ptr + off) (body l) -> off + Z.of_nat (length (body l)) = len -> covers w ptr len -> 0 <= off -> (length l < fuel)%nat ->
  madt_loop mem fuel ptr len off info w = Ok (foldl learn info l, w).
Proof.
  induction l as [| x l IH]; intros [| fuel] ptr len off info w Hok Hh Hlen C Ho Hf; cbn [length] in Hf; try lia; cbn [madt_loop].
  - unfold body in Hlen. cbn [map concat length] in Hlen. by rewrite (proj2 (Z.ltb_lt _ _)) by lia.
  - apply Forall_cons in Hok as [Hx Hl]. unfold body in Hh, Hlen. cbn [map concat] in Hh, Hlen. fold (body l) in Hh, Hlen. rewrite length_app in Hlen. apply holds_app in Hh as [Hh Hrest]. pose proof (size_range x Hx) as Hs. fold (size_of x) in Hrest. rewrite Nat2Z.inj_add in Hlen. fold (size_of x) in Hlen.
    rewrite (proj2 (Z.ltb_ge _ _)) by lia. assert (covers w (ptr + off) (size_of x)) as Cx by (eapply covers_sub; [exact C | lia | lia]).
    assert (mem (ptr + off + 1) = size_of x) as Hm by (destruct (encode_head x) as (ty & rest & E); rewrite E in Hh; apply holds_cons in Hh as [_ Hh]; by apply holds_cons in Hh as [? _]).
    rewrite (bind_ok _ _ _ _ _ (byte_ok w (ptr + off) ltac:(eapply covers_sub; [exact Cx | lia | lia]))), (bind_ok _ _ _ _ _ (byte_ok w (ptr + off + 1) ltac:(eapply covers_sub; [exact Cx | lia | lia]))), Hm.
    rewrite (proj2 (Z.ltb_ge _ _)), (proj2 (Z.ltb_ge _ _)) by lia. cbn [orb]. rewrite (bind_ok _ _ _ _ _ (madt_entry_ok x (ptr + off) info w Hx Hh Cx)). cbn [foldl]. apply IH; try done; try lia. by rewrite Z.add_assoc.
Qed.
(** The table at [a] says: local APIC at [lapic], entries [l]. *)
Record is_madt (a lapic : Z) (l : list Entry) : Prop := {
  im_len : num 4 (a + 4) = 44 + Z.of_nat (length (body l));
  im_lapic : num 4 (a + 36) = lapic;
  im_ok : Forall entry_ok l;
  im_body : holds (a + 44) (body l) }.
Lemma body_count l : Forall entry_ok l -> (length l <= length (body l))%nat.
Proof. induction 1 as [| x l Hx _ IH]; [done |]. unfold body in *. cbn [map concat]. rewrite length_app. pose proof (size_range x Hx). unfold size_of in *. cbn [length]. lia. Qed.
Definition learned (lapic : Z) (l : list Entry) : bool * option MadtInfo := (negb (bool_decide (omap cpu_of l = [])), Some (summary lapic l)).
Lemma parse_madt_ok a lapic l w : 0 <= a < 2 ^ 52 -> is_madt a lapic l -> exists w', parse_madt mem a w = Ok (learned lapic l, w').
Proof.
  intros Ha [H1 H2 H3 H4]. unfold parse_madt. destruct (sdt_at_ok a w Ha) as (w1 & E1 & _ & C1 & _). rewrite (bind_ok _ _ _ _ _ E1). rewrite H1 in C1 |- *.
  rewrite (bind_ok _ _ _ _ _ (read_ok 4 (a + 36) w1 ltac:(eapply covers_sub; [exact C1 | lia | lia]))), H2. pose proof (body_count l H3).
  assert (length l < S (Z.to_nat (44 + Z.of_nat (length (body l)))))%nat as Hf by lia. rewrite (bind_ok _ _ _ _ _ (madt_loop_ok l _ a _ 44 _ w1 H3 H4 eq_refl C1 ltac:(lia) Hf)), learn_all. by exists w1.
Qed.

(** * Every run ends *)

Definition no_error {A} (m : T A) : Prop := forall w e, m w <> Err e.
Lemma no_error_bind {A B} (m : T A) (f : A -> T B) : no_error m -> (forall a, no_error (f a)) -> no_error (m ≫= f).
Proof. intros H1 H2 w e. unfold mbind, T_bind. specialize (H1 w). destruct (m w) as [[a w'] | e' |]; [apply H2 | intros [= ->]; by apply (H1 e) | done]. Qed.
Lemma no_error_ret {A} (a : A) : no_error (mret a).
Proof. done. Qed.
Lemma no_error_byte a : no_error (byte a).
Proof. intros w e. unfold Acpi.byte. by case_bool_decide. Qed.
Lemma no_error_bytes n : forall a, no_error (bytes n a).
Proof. induction n as [| n IH]; intros a; cbn [Acpi.bytes]; [apply no_error_ret |]. apply no_error_bind; [apply no_error_byte |]. intros b. apply no_error_bind; [apply IH | intros; apply no_error_ret]. Qed.
Lemma no_error_read n a : no_error (read n a).
Proof. apply no_error_bind; [apply no_error_bytes | intros; apply no_error_ret]. Qed.
Lemma no_error_ptr p n : no_error (phys_ptr p n).
Proof. intros w e. unfold phys_ptr, ensure_phys_mapped. by case_match. Qed.
Ltac no_error := repeat first [apply no_error_ret | apply no_error_byte | apply no_error_bytes | apply no_error_read | apply no_error_ptr | apply no_error_bind; [| intros ?] | case_match].
Lemma no_error_sdt p : no_error (sdt_at mem p).
Proof. unfold sdt_at. no_error. Qed.
Lemma no_error_find n : forall i root size sig, no_error (find_entry mem n i root size sig).
Proof. induction n as [| n IH]; intros; cbn [find_entry]; [apply no_error_ret |]. apply no_error_bind; [apply no_error_read |]. intros p. case_match; [apply IH |]. apply no_error_bind; [apply no_error_sdt |]. intros _. apply no_error_bind; [unfold sig_matches; no_error |]. intros hit. case_match; [apply no_error_ret | apply IH]. Qed.
Lemma no_error_table root size sig : no_error (find_table mem root size sig).
Proof. unfold find_table. apply no_error_bind; [apply no_error_sdt |]. intros len. case_match; [apply no_error_ret | apply no_error_find]. Qed.
Lemma no_error_entry ty e info : no_error (madt_entry mem ty e info).
Proof. unfold madt_entry. no_error. Qed.
Lemma no_error_loop fuel : forall ptr len off info, Z.max 0 (len - off) < Z.of_nat fuel -> no_error (madt_loop mem fuel ptr len off info).
Proof.
  induction fuel as [| fuel IH]; intros ptr len off info Hf; [lia |]. cbn [madt_loop]. destruct (Z.ltb_spec len (off + 2)); [apply no_error_ret |]. apply no_error_bind; [apply no_error_byte |]. intros ty. apply no_error_bind; [apply no_error_byte |]. intros n.
  destruct (_ || _) eqn:E; [apply no_error_ret |]. apply no_error_bind; [apply no_error_entry |]. intros info'. apply IH. lia.
Qed.
Lemma no_error_init r : no_error (init mem r).
Proof.
  destruct r as [rsdp |]; [| apply no_error_ret]. unfold init. apply no_error_bind; [apply no_error_ptr |]. intros _. apply no_error_bind; [apply no_error_bytes |]. intros sig. case_match; [apply no_error_ret |].
  apply no_error_bind; [apply no_error_byte |]. intros rev. apply no_error_bind; [apply no_error_read |]. intros rsdt. apply no_error_bind; [no_error |]. intros xsdt. apply no_error_bind; [case_match; apply no_error_table |]. intros [a |]; [| apply no_error_ret].
  unfold parse_madt. apply no_error_bind; [apply no_error_sdt |]. intros len. apply no_error_bind; [apply no_error_read |]. intros base. apply no_error_bind; [| intros; apply no_error_ret]. apply no_error_loop. lia.
Qed.

(** * The theorem *)

(** The root table and the size of its entries: the extended one when the firmware has it. *)
Definition root_of (rsdp : Z) : Z * Z :=
  if (2 <=? mem (rsdp + 15)) && negb (num 8 (rsdp + 24) =? 0) then (num 8 (rsdp + 24), 8) else (num 4 (rsdp + 16), 4).
End Memory.

(** C33. Discovery of processors from ACPI tables.  Whatever memory holds, the search ends.  When
    the firmware's tables are well formed (the root pointer has its signature, the root table
    names tables by physical addresses, and the first table with the signature of the
    interrupt controller table holds entries of the documented formats, with any other
    entries between them), the kernel learns exactly what they say, from every set of mapped
    pages: the local APIC address (the last override of it), all processors that are enabled
    or can be, in order, the first I/O APIC and all interrupt overrides. *)
Theorem acpi_discovery_exact mem rsdp w :
  (forall a, is_byte (mem a)) ->
  (forall r w' e, init mem r w' <> Err e)
  /\ (0 <= rsdp < 2 ^ 52 -> view mem rsdp 8 = lit "RSD PTR " -> forall root size a lapic l, root_of mem rsdp = (root, size) -> root < 2 ^ 52 ->
      Forall (fun p => p < 2 ^ 52) (pointers mem root size) -> List.find (matching mem (lit "APIC")) (pointers mem root size) = Some a -> is_madt mem a lapic l ->
      exists w', init mem (Some rsdp) w = Ok (learned lapic l, w')).
Proof.
  intros Hmem. split; [intros; apply no_error_init |]. intros Hr Hsig root size a lapic l Hroot Hlt Hp Hf Hm. unfold init. destruct (phys_ptr_ok mem rsdp 36 w Hr ltac:(lia)) as (w1 & E1 & _ & C1). rewrite (bind_ok _ _ _ _ _ E1).
  rewrite (bind_ok _ _ _ _ _ (bytes_ok mem 8 rsdp w1 ltac:(eapply covers_sub; [exact C1 | lia | lia]))), Hsig, bool_decide_true by done. cbn [negb].
  rewrite (bind_ok _ _ _ _ _ (byte_ok mem w1 (rsdp + 15) ltac:(eapply covers_sub; [exact C1 | lia | lia]))), (bind_ok _ _ _ _ _ (read_ok mem 4 (rsdp + 16) w1 ltac:(eapply covers_sub; [exact C1 | lia | lia]))).
  set (x := if 2 <=? mem (rsdp + 15) then num mem 8 (rsdp + 24) else 0). assert ((if 2 <=? mem (rsdp + 15) then read mem 8 (rsdp + 24) else mret 0) w1 = Ok (x, w1)) as Ex by (unfold x; destruct (2 <=? mem (rsdp + 15)); [apply read_ok; eapply covers_sub; [exact C1 | lia | lia] | done]).
  rewrite (bind_ok _ _ _ _ _ Ex). assert ((size = 4 \/ size = 8) /\ 0 <= root /\ (if negb (x =? 0) then find_table mem x 8 (lit "APIC") else find_table mem (num mem 4 (rsdp + 16)) 4 (lit "APIC")) = find_table mem root size (lit "APIC")) as (Hs & H0 & ->).
  { unfold root_of in Hroot. pose proof (num_range mem Hmem 8 (rsdp + 24)). pose proof (num_range mem Hmem 4 (rsdp + 16)). unfold x. destruct (2 <=? mem (rsdp + 15)); cbn [andb Z.eqb negb] in Hroot |- *; [destruct (num mem 8 (rsdp + 24) =? 0); cbn [negb] in * |]; injection Hroot as <- <-; (split; [auto |]); (split; [lia | done]). }
  destruct (find_table_ok mem Hmem root size (lit "APIC") w1 Hs (conj H0 Hlt) Hp) as (w2 & E2 & _). rewrite (bind_ok _ _ _ _ _ E2), Hf.
  apply List.find_some in Hf as [Hin _]. apply parse_madt_ok; [done | | done]. rewrite Forall_forall in Hp. apply list_elem_of_In in Hin. split; [| by apply Hp]. apply list_elem_of_fmap in Hin as (i & -> & _). apply num_range, Hmem.
Qed.

(** * Concrete machines *)

(** Memory with given bytes at given places, zero elsewhere. *)
Definition place (segs : list (Z * list Z)) (a : Z) : Z :=
  match List.find (fun '(s, l) => (s <=? a) && (a <? s + Z.of_nat (length l))) segs with Some (s, l) => nth (Z.to_nat (a - s)) l 0 | None => 0 end.
Definition demo_segments (madt : Z) (entries : list Z) : list (Z * list Z) :=
        [(0, lit "RSD PTR " ++ replicate 8 0 ++ to_le_bytes 4 4096 ++ replicate 16 0);
         (4096, lit "RSDT" ++ to_le_bytes 4 44 ++ replicate 28 0 ++ to_le_bytes 4 0 ++ to_le_bytes 4 madt);
         (madt, lit "APIC" ++ to_le_bytes 4 (44 + Z.of_nat (length entries)) ++ replicate 28 0 ++ to_le_bytes 4 0xfee00000 ++ to_le_bytes 4 1 ++ entries)].
Definition demo_tables (madt : Z) (entries : list Z) : Z -> Z := place (demo_segments madt entries).
Definition demo_entries : list Entry := [LocalApic 0 0 1; LocalApic 1 1 0; LocalX2apic 300 1 2; IoApic 0 0xfec00000 0; Override 0 0 2 0; OtherEntry 4 [255; 5; 0; 1]].
Lemma demo_entries_ok : Forall entry_ok demo_entries.
Proof.
  unfold demo_entries. constructor; [cbn; unfold u32; lia |]. constructor; [cbn; unfold u32; lia |]. constructor; [cbn; unfold u32; lia |]. constructor; [cbn; unfold u32; lia |]. constructor; [cbn; unfold u32; lia |]. constructor; [| constructor].
  split; [| cbn; lia]. rewrite !not_elem_of_cons. split_and!; try lia. apply not_elem_of_nil.
Qed.
Definition demo_mem : Z -> Z := demo_tables 8192 (body demo_entries).
Definition all_bytes (segs : list (Z * list Z)) : bool := forallb (fun '(_, l) => forallb (fun b => (0 <=? b) && (b <? 256)) l) segs.
Lemma place_bytes segs a : all_bytes segs = true -> is_byte (place segs a).
Proof.
  intros H. unfold place. destruct (List.find _ segs) as [[s l] |] eqn:E; [| by split]. apply List.find_some in E as [Hin _]. unfold all_bytes in H. rewrite forallb_forall in H. specialize (H _ Hin). cbn in H. rewrite forallb_forall in H.
  destruct (nth_in_or_default (Z.to_nat (a - s)) l 0) as [Hn | ->]; [| by split]. specialize (H _ Hn). unfold is_byte. lia.
Qed.
Lemma acpi_discovery_exact_witness :
  exists w', init demo_mem (Some 0) ∅ = Ok ((true, Some (mkMadtInfo 0xfee00000 [0; 300] (Some 0xfec00000) 0 [mkOverride 0 2 0])), w').
Proof.
  destruct (acpi_discovery_exact demo_mem 0 ∅ (fun a => place_bytes (demo_segments 8192 (body demo_entries)) a eq_refl)) as [_ H]. apply (H ltac:(lia) eq_refl 4096 4 8192 0xfee00000 demo_entries).
  - vm_compute. reflexivity.
  - lia.
  - assert (pointers demo_mem 4096 4 = [0; 8192]) as -> by (vm_compute; reflexivity). constructor; [lia |]. constructor; [lia | constructor].
  - vm_compute. reflexivity.
  - constructor; [vm_compute; reflexivity | vm_compute; reflexivity | exact demo_entries_ok | vm_compute; reflexivity].
Defined.
(** An entry is accepted when it has its two bytes of header, but its fields are read at their
    fixed places: a processor entry of two bytes at the end of a page makes the kernel read
    the page after the table, which it has not mapped. *)
Lemma short_entry_faults : init (demo_tables 12242 [0; 2]) (Some 0) ∅ = Panic.
Proof. vm_compute. reflexivity. Qed.
End AcpiSound.
